(* ===== verification/_CoqProject ===== *)
-Q . S2P
Prelude.v
Post.v
Extents.v
Tensor.v
Layout.v
KVGeometry.v
HostKV.v
HostKVInvariant.v
HostKVSpec.v
HostKVRecipe.v
DevicePagePool.v
DevicePoolInvariant.v
DevicePoolOps.v
DevicePoolSpec.v
DeviceTransfer.v
ExecutionTables.v
KVPages.v
KVPagesInvariant.v
KVPagesSpec.v
KVAddress.v
KVAddressPages.v
KVAddressInvariant.v
KVAddressUpdate.v
KVAddressProtect.v
KVAddressOps.v
KVAddressExclusive.v
KVAddressActivation.v
KVAddressGrowth.v
KVAddressShrink.v
KVAddressShare.v
KVAddressForks.v
KVAddressForkCommit.v
KVAddressForkAbort.v
KVAddressSnapshots.v
KVAddressSnapshotCommit.v
KVAddressRelease.v
KVAddressTruncate.v
KVAddressSteady.v
KVAddressSession.v
KVAddressSpec.v
KvCapacity.v
Scheduler.v
SchedulerSpec.v
Binary64.v
WindowTable.v
PromptLookup.v
PromptLookupSpec.v
MapSums.v
ResponsesStore.v
ResponsesStoreInvariant.v
ResponsesStoreSpec.v
Bytes.v
JsonNumber.v
ToolCall.v
ToolCallDecoder.v
ToolCallSpec.v
ToolCallRoundTrip.v
Utf8Stream.v
PrefixTracker.v
OutputText.v
OutputTextSpec.v
OutputSession.v
OutputSessionSpec.v
ContextTypes.v
SessionIndex.v
SessionIndexSpec.v
ContextCatalog.v
ContextManager.v
ContextInvariant.v
ContextActions.v
ContextReserve.v
ContextAdopt.v
ContextPublish.v
ContextCapture.v
ContextLanes.v
ContextRounds.v
ContextCalls.v
ContextSession.v
ContextSpec.v
