(* ===== verification/Prelude.v ===== *)
(** * Cinference runtime: verification library (root file)

    Cinference serves language models: an HTTP service hands requests to an engine thread, which
    schedules them in rounds over a model program; the program keeps the attention state (the KV
    cache) in pages on the device and on the host, runs the operators, and turns the generated
    tokens into text.  This library models the parts of that pipeline that are decided by host code
    (C++ under src/src and src/include) and proves them correct.  Every definition is executable;
    each theorem with hypotheses has a witness that runs the definitions on a concrete input.

    ** Conventions

    Machine integers are [Z]; where the code can wrap, [w64] and [w32] are written out.  A function
    that throws returns [result]; a member function that changes its object is a computation in
    [M S A], a state monad that keeps the state reached when an exception leaves the call.
    [Terminate] stands for [std::terminate], and for a read outside a vector where the code does not
    check.  Addresses of objects are integers, so that handles and leases can name their owner; moved
    from handles are the null handle.  Destructors that matter (leases, reservations, scopes) are
    explicit steps.

    ** Parts of the program and their files

    - Sizes and descriptors: [Prelude] (checked arithmetic, alignment, vectors), [Post] (outcomes of
      computations with their postconditions), [Tensor] (core/tensor.cpp, core/dtype.cpp), [Layout]
      (core/layout.cpp, core/arena.cu: layout planning and its dry run, arenas with scopes), [Binary64]
      (doubles).
    - The KV cache, bottom up.  [Extents]: sorted, coalesced free lists, shared by the two
      allocators.  [KVGeometry]: storage schemes, the packed host record of a page, transfer work.
      [HostKV], [HostKVInvariant], [HostKVSpec], [HostKVRecipe] (core/host_kv_arena.cpp): the pinned
      host arena with its planned batches.  [DevicePagePool], [DevicePoolInvariant], [DevicePoolOps],
      [DevicePoolSpec] (core/paged_kv_cache.cpp): reservations and leases of device pages.
      [DeviceTransfer]: the copies that calls issue.  [ExecutionTables]: block-table rows.
      [KVPages], [KVPagesInvariant], [KVPagesSpec] (models/qwen3_5/program/storage/kv_store.h, class
      LogicalKVPageStore): logical pages with content epochs and replicas, on top of the device pool.
      [KVAddress] (same file, class KVAddressSpaceStore): address spaces, prefix forks and snapshots,
      on top of logical pages and execution tables.  Its proofs: [KVAddressPages] (what a page call
      does to the pages of a space), [KVAddressInvariant] (who holds each page: spaces, forks,
      snapshots and their pins), [KVAddressUpdate], [KVAddressProtect], [KVAddressOps],
      [KVAddressExclusive], then a file per group of operations ([KVAddressActivation],
      [KVAddressGrowth], [KVAddressShrink], [KVAddressTruncate], [KVAddressRelease]; [KVAddressShare],
      [KVAddressForks], [KVAddressForkCommit], [KVAddressForkAbort]; [KVAddressSnapshots],
      [KVAddressSnapshotCommit]), and [KVAddressSteady], [KVAddressSession] for sequences of calls, with
      the theorems in [KVAddressSpec].
    - Scheduling: [KvCapacity] (runtime/engine/kv_capacity.cpp), [Scheduler] and [SchedulerSpec]
      (runtime/engine/scheduler.h, admission_policy.cpp, the scheduler calls of engine_core.h).
    - The context cache (runtime/engine/context_cache/resource_manager.h): [ContextTypes] (the values
      exchanged with the model program, and counters), [SessionIndex] and [SessionIndexSpec] (the
      probing table of session names), [ContextCatalog] (state, catalogs, prefix index, demand,
      pressure actions), [ContextManager] (the operations, over a program given as the class
      [ModelContract]).  Proofs: [ContextInvariant] (the invariant, with the roles of the slots that a
      transaction has taken), [ContextActions], [ContextReserve], [ContextAdopt], [ContextPublish]
      (materializations), [ContextCapture] (captures), [ContextLanes] (the end of a sequence, the
      prefix index), [ContextRounds] (rounds; checks do not terminate), [ContextCalls],
      [ContextSession] (calls and their sequences), [ContextSpec] (theorems, and a scripted program
      that runs them).
    - Speculation: [WindowTable], [PromptLookup], [PromptLookupSpec]
      (models/qwen3_5/program/speculative/prompt_lookup.cpp).
    - Output: [Bytes], [JsonNumber], [ToolCall], [ToolCallDecoder], [ToolCallSpec],
      [ToolCallRoundTrip] (models/qwen3_5/frontend/tool_call_parser.cpp); [Utf8Stream],
      [PrefixTracker], [OutputText], [OutputTextSpec], [OutputSession], [OutputSessionSpec]
      (models/qwen3_5/frontend/output_session.cpp).
    - Service: [MapSums], [ResponsesStore], [ResponsesStoreInvariant], [ResponsesStoreSpec]
      (serve/openai_responses_store.cpp).

    In each group the file named first holds the data and one definition per function, in the order
    and with the names of the code; the [Invariant] and [Ops] files hold the invariant and what each
    operation does to it; the [Spec] files hold the theorems.

    ** What the theorems show

    - Allocators (device pool, host arena, execution rows, layouts): every sequence of calls from the
      constructor keeps an invariant that counts each page, byte and row exactly once; exceptions
      leave the state unchanged; placements are the documented ones; release undoes allocation; a
      planned batch is always applied as planned.
    - Logical pages: no sequence of calls loses, shares or leaks a device page, a referenced page
      always has its content somewhere, and a content epoch with a coverage identifies the content.
    - Address spaces: in every session of calls, from new stores and with any interleaving of
      activations, growth, commits, truncations, forks and snapshots, each page is held exactly by the
      spaces, forks and snapshots that list it, active rows show the physical pages of their spaces,
      and no writable page is shared.  A committed fork shares the source's full pages and owns its
      tail; a committed snapshot continues the source's tokens; tokens that one space commits do not
      change another; refused calls change nothing.  The callers' contract is the one of the code: a
      handle is used once, a row is activated once, and an active space is not truncated below its
      checkpoint.
    - Context cache: whatever the program answers and the planners choose, every session of calls keeps
      lanes, catalogs, edges and names consistent, and no call terminates the process; a refused
      reservation leaves the manager as it was; a session's name finds the resident continuation with
      the newest publication order among those that asked for the name; the prefix index holds exactly
      the resident checkpoints; the session table refines a finite map.  The callers' contract: publication orders are fresh, a
      consumed source is consumed into its own slot, and a commit reports a row for each of its lanes.
    - Scheduler: the admission protocol keeps its invariants and trips none of its checks, a protected
      head of the queue is not starved by backfill, and the two kinds of work alternate.  The engine's
      contract is [event_ok]: units leave work of a request that goes on, a request is admitted to a
      free lane, and none is blocked in an idle engine.
    - Capacity: each outcome of the policy's resolution has its exact condition.
    - Prompt lookup: the open-addressed table refines a finite map; a proposal continues the most
      recent earlier occurrence of the longest indexed suffix.  A context cut back to the indexed
      tokens is the exception: it is matched with itself and the caller's stale buffer is proposed.
    - Parsers and decoders: the streaming decoders give what the batch definitions give on the whole
      text, whatever the chunks; rendered tool calls parse back; the integrality of a JSON number is
      exact; stop strings are cut where a search of the whole text finds them.
    - Output session and responses store: budgets, licences and byte accounting hold in every
      session; the JSON library may refuse any string, and its exception is then the only one.

    ** Fuel and bounds

    Loops without a structural measure carry fuel, and a theorem shows the fuel used is enough: the
    tool-call parser runs with one unit more than the length of its text (each round consumes a
    byte), table probes with one lap of the slots (load is at most one half), the UTF-8 loop
    with the number of buffered bytes.  Content epochs are compared over fewer than 2^64 - 1 calls.
    Bounds on sizes that the constructors enforce (page counts up to 2^31 - 1, table bytes up to
    2^63 - 1) are hypotheses only where a constructor's argument is free.

    ** Parameters

    JSON parsing and serialization (nlohmann/json), the tokenizer's table of token bytes, [std::log],
    the initial contents of pinned memory, and clocks and cancellation flags are arguments of the
    definitions that use them.  CUDA calls are traces of operations.  The context cache is proved
    against any model program ([ModelContract], of which it assumes only that a context transaction
    ends when it is finalized and that calls fail with exceptions) and any planner's choices.

    ** Not modelled

    GPU kernels and their launchers, model execution and graph capture: their effect is device
    arithmetic.  Weight loading, media decoding, the HTTP server and command line programs: I/O over
    third-party libraries.  The tokenizer and the chat template: external tables and a template
    interpreter.  The model program's own transactions, state images and pressure planning drive
    device commands and a cost model; here they are the interface of the context cache.  Of the
    resource manager, the search and pricing of candidates (inspection, the two planners) and the
    copying of statistics into reports are left out: they choose among plans, and the theorems hold
    for every choice.  The engine core's threads and condition variables are glue around the scheduler
    and the manager. *)

From stdpp Require Export prelude list.
From Stdlib Require Export ZArith Lia.

Open Scope Z_scope.

(** ** Machine integers

    A [std::size_t]/[std::uint64_t] or [std::uint32_t] is a [Z]; arithmetic that the code leaves
    unchecked is written with the wrap-around functions [w64] and [w32]. *)

Abbreviation u32_max := 4294967295.
Abbreviation u32_mod := 4294967296.
Abbreviation u64_max := 18446744073709551615.
Abbreviation u64_mod := 18446744073709551616.
Abbreviation i32_max := 2147483647.
Abbreviation i64_max := 9223372036854775807.

Definition w64 (z : Z) : Z := z mod u64_mod.
Definition w32 (z : Z) : Z := z mod u32_mod.

Lemma w64_small z : 0 <= z <= u64_max -> w64 z = z.
Proof. intros. unfold w64. apply Z.mod_small. lia. Qed.

Lemma w32_small z : 0 <= z <= u32_max -> w32 z = z.
Proof. intros. unfold w32. apply Z.mod_small. lia. Qed.

Lemma w64_range z : 0 <= w64 z <= u64_max.
Proof. unfold w64. pose proof (Z.mod_pos_bound z u64_mod). lia. Qed.

Lemma w32_range z : 0 <= w32 z <= u32_max.
Proof. unfold w32. pose proof (Z.mod_pos_bound z u32_mod). lia. Qed.

(** Drops every wrap-around whose argument the context keeps in range. *)
Ltac unwrap :=
  repeat match goal with
    | |- context [w64 ?z] => rewrite (w64_small z) by lia
    | |- context [w32 ?z] => rewrite (w32_small z) by lia
    end.

(** ** Exceptions

    The C++ exception classes the modelled code throws; [Terminate] is [std::terminate] or
    [std::abort], which no caller catches. *)

Inductive exn :=
  | InvalidArgument
  | OverflowError
  | OutOfRange
  | LogicError
  | BadAlloc
  | RuntimeError
  | ApiError
  | Terminate.

#[export] Instance exn_eq_dec : EqDecision exn.
Proof. solve_decision. Defined.

(** The value of a call that does not change an object, or its exception. *)
Inductive result (A : Type) :=
  | Ok (a : A)
  | Throw (e : exn).
Arguments Ok {A} a.
Arguments Throw {A} e.

#[export] Instance result_eq_dec {A} `{EqDecision A} : EqDecision (result A).
Proof. solve_decision. Defined.

#[export] Instance result_ret : MRet result := fun A a => Ok a.
#[export] Instance result_bind : MBind result := fun A B f r =>
  match r with Ok a => f a | Throw e => Throw e end.

Definition throw_if (b : bool) (e : exn) : result unit :=
  if b then Throw e else Ok tt.

Definition is_ok {A} (r : result A) : bool :=
  match r with Ok _ => true | Throw _ => false end.

Lemma bind_Ok {A B} (r : result A) (f : A -> result B) b :
  (r ≫= f) = Ok b <-> exists a, r = Ok a /\ f a = Ok b.
Proof.
  destruct r as [a|e]; cbn; split; [eauto | | discriminate | ]; intros (? & ? & ?); congruence.
Qed.

Lemma throw_if_Ok b e u : throw_if b e = Ok u <-> b = false.
Proof. destruct b, u; cbn; split; congruence. Qed.

(** A member function that may throw, with the object's state threaded through: the state reached
    when an exception leaves the function is kept. *)
Definition M (S A : Type) : Type := S -> S * result A.

#[export] Instance M_ret {S} : MRet (M S) := fun A a s => (s, Ok a).
#[export] Instance M_bind {S} : MBind (M S) := fun A B f m s =>
  match m s with
  | (s', Ok a) => f a s'
  | (s', Throw e) => (s', Throw e)
  end.

Definition mget {S} : M S S := fun s => (s, Ok s).
Definition mput {S} (s : S) : M S unit := fun _ => (s, Ok tt).
Definition mmodify {S} (f : S -> S) : M S unit := fun s => (f s, Ok tt).
Definition mlift {S A} (r : result A) : M S A := fun s => (s, r).
Definition mthrow {S A} (e : exn) : M S A := fun s => (s, Throw e).
Definition mthrow_if {S} (b : bool) (e : exn) : M S unit := mlift (throw_if b e).

(** Exposes the control flow of monadic code. *)
Ltac unfold_M :=
  unfold mthrow_if, mlift, mget, mput, mmodify, mthrow, throw_if, mret, M_ret, result_ret, mbind,
    M_bind, result_bind in *; cbv beta iota zeta in *.

(** Evaluates the decisions of a goal that mention no variable. *)
Ltac closed_decisions :=
  repeat match goal with
    | |- context [bool_decide ?P] =>
        let b := eval vm_compute in (bool_decide P) in
        match b with
        | true => change (bool_decide P) with true
        | false => change (bool_decide P) with false
        end
    end.

(** ** Checked arithmetic, as each translation unit's anonymous namespace defines it *)

Definition checked_add (a b : Z) : result Z :=
  if decide (b > u64_max - a) then Throw OverflowError else Ok (w64 (a + b)).

Definition checked_mul (a b : Z) : result Z :=
  if negb (b =? 0) && bool_decide (a > u64_max / b) then Throw OverflowError
  else Ok (w64 (a * b)).

Definition increment_generation (generation : Z) : Z :=
  let generation := w32 (generation + 1) in
  if generation =? 0 then w32 (generation + 1) else generation.

Lemma checked_add_spec a b :
  0 <= a -> 0 <= b ->
  checked_add a b = if decide (a + b <= u64_max) then Ok (a + b) else Throw OverflowError.
Proof.
  intros. unfold checked_add. repeat case_decide; try lia; unwrap; reflexivity.
Qed.

Lemma mul_le_max_iff a b : 0 <= a -> 0 < b -> (a * b <= u64_max <-> a <= u64_max / b).
Proof.
  intros. split; intros Hle.
  - apply Z.div_le_lower_bound; lia.
  - pose proof (Z.mul_div_le u64_max b). nia.
Qed.

Lemma checked_mul_spec a b :
  0 <= a -> 0 <= b ->
  checked_mul a b = if decide (a * b <= u64_max) then Ok (a * b) else Throw OverflowError.
Proof.
  intros Ha Hb. unfold checked_mul.
  destruct (Z.eqb_spec b 0) as [->|Hne]; cbn [negb andb].
  { rewrite Z.mul_0_r. reflexivity. }
  destruct (mul_le_max_iff a b Ha ltac:(lia)) as [Hle1 Hle2].
  destruct (decide (a * b <= u64_max)) as [Hle|Hgt].
  - apply Hle1 in Hle as Hle'. rewrite bool_decide_eq_false_2 by lia.
    rewrite w64_small; [reflexivity|]. pose proof (Z.mul_nonneg_nonneg a b Ha Hb). lia.
  - rewrite bool_decide_eq_true_2; [reflexivity|].
    apply Z.lt_gt, Z.nle_gt. intros Hn. apply Hgt, Hle2, Hn.
Qed.

Lemma increment_generation_range g :
  0 <= g <= u32_max -> 1 <= increment_generation g <= u32_max.
Proof.
  intros. destruct (decide (g = u32_max)) as [->|]; [cbv; split; discriminate|].
  unfold increment_generation. rewrite (w32_small (g + 1)) by lia.
  destruct (Z.eqb_spec (g + 1) 0); lia.
Qed.

Lemma increment_generation_lt g :
  1 <= g < u32_max -> increment_generation g = g + 1.
Proof.
  intros. unfold increment_generation. rewrite (w32_small (g + 1)) by lia.
  destruct (Z.eqb_spec (g + 1) 0); lia.
Qed.

Lemma increment_generation_neq g :
  1 <= g <= u32_max -> increment_generation g <> g.
Proof.
  intros. destruct (decide (g = u32_max)) as [->|].
  - cbv. discriminate.
  - rewrite increment_generation_lt; lia.
Qed.

(** ** Alignment *)

Definition is_power_of_two (value : Z) : bool :=
  negb (value =? 0) && (Z.land value (value - 1) =? 0).

(** [~mask] on a [std::size_t]. *)
Definition lnot64 (mask : Z) : Z := Z.lxor u64_max mask.

Definition align_up (value alignment : Z) : result Z :=
  if negb (is_power_of_two alignment) then Throw InvalidArgument
  else
    let mask := alignment - 1 in
    v ← checked_add value mask;
    Ok (Z.land v (lnot64 mask)).

Lemma is_power_of_two_spec v :
  0 <= v -> (is_power_of_two v = true <-> exists k, 0 <= k /\ v = 2 ^ k).
Proof.
  intros Hv. unfold is_power_of_two. rewrite andb_true_iff, negb_true_iff, Z.eqb_neq, Z.eqb_eq.
  split.
  - intros [Hne Hland]. exists (Z.log2 v). split; [apply Z.log2_nonneg|].
    destruct (Z.log2_spec v) as [Hlo Hhi]; [lia|].
    destruct (decide (v = 2 ^ Z.log2 v)) as [|Hneq]; [done|exfalso].
    assert (Z.log2 (v - 1) = Z.log2 v) as Hlog.
    { apply Z.log2_unique; [apply Z.log2_nonneg|]. lia. }
    assert (Z.testbit (Z.land v (v - 1)) (Z.log2 v) = true) as Hbit.
    { rewrite Z.land_spec, Z.bit_log2 by lia. rewrite <- Hlog at 1.
      rewrite Z.bit_log2; [done|]. pose proof (Z.log2_nonneg v).
      pose proof (Z.pow_pos_nonneg 2 (Z.log2 v)). lia. }
    rewrite Hland, Z.bits_0 in Hbit. discriminate.
  - intros (k & Hk & ->). split; [pose proof (Z.pow_pos_nonneg 2 k); lia|].
    replace (2 ^ k - 1) with (Z.ones k) by (rewrite Z.ones_equiv; lia).
    rewrite Z.land_ones by done. apply Z.mod_same. pose proof (Z.pow_pos_nonneg 2 k). lia.
Qed.

(** Clearing the low bits of a 64-bit value rounds it down. *)
Lemma land_lnot64_ones v k :
  0 <= v <= u64_max -> 0 <= k -> 2 ^ k - 1 <= u64_max ->
  Z.land v (lnot64 (2 ^ k - 1)) = v - v mod 2 ^ k.
Proof.
  intros Hv Hk Hmax. unfold lnot64.
  replace (2 ^ k - 1) with (Z.ones k) in * by (rewrite Z.ones_equiv; lia).
  change u64_max with (Z.ones 64).
  assert (k <= 64) as Hk64.
  { change u64_max with (Z.ones 64) in Hmax. rewrite !Z.ones_equiv in Hmax.
    apply (Z.pow_le_mono_r_iff 2); lia. }
  replace (v - v mod 2 ^ k) with (Z.ldiff v (Z.ones k)).
  2: { rewrite Z.ldiff_ones_r, Z.shiftl_mul_pow2, Z.shiftr_div_pow2 by done.
       pose proof (Z.pow_pos_nonneg 2 k). pose proof (Z.div_mod v (2 ^ k)). lia. }
  - apply Z.bits_inj'. intros n Hn.
    rewrite Z.land_spec, Z.lxor_spec, Z.ldiff_spec, !Z.testbit_ones_nonneg by lia.
    destruct (Z.ltb_spec n 64).
    + destruct (Z.testbit v n), (n <? k); reflexivity.
    + assert (Z.testbit v n = false) as ->; [|done].
      destruct (decide (v = 0)) as [->|]; [apply Z.bits_0|].
      apply Z.bits_above_log2; [lia|]. apply Z.log2_lt_pow2; [lia|].
      apply Z.lt_le_trans with (2 ^ 64); [lia|]. apply Z.pow_le_mono_r; lia.
Qed.

(** [align_up] returns the least multiple of the alignment that is not below the value, and
    throws exactly when the alignment is not a power of two or the rounding would wrap. *)
Lemma align_up_spec v a :
  0 <= v <= u64_max -> 0 <= a <= u64_max ->
  match align_up v a with
  | Ok r => is_power_of_two a = true /\ v <= r < v + a /\ r <= u64_max /\ (a | r)
  | Throw e =>
      (e = InvalidArgument /\ is_power_of_two a = false) \/
      (e = OverflowError /\ is_power_of_two a = true /\ u64_max < v + (a - 1))
  end.
Proof.
  intros Hv Ha. unfold align_up.
  destruct (is_power_of_two a) eqn:Hp; cbn [negb]; [|left; done].
  apply is_power_of_two_spec in Hp as (k & Hk & ->); [|lia].
  rewrite checked_add_spec by lia.
  case_decide as Hle; cbn; [|right; repeat split; lia].
  rewrite land_lnot64_ones by lia.
  pose proof (Z.mod_pos_bound (v + (2 ^ k - 1)) (2 ^ k)).
  pose proof (Z.div_mod (v + (2 ^ k - 1)) (2 ^ k)).
  repeat split; try lia.
  exists ((v + (2 ^ k - 1)) / 2 ^ k). lia.
Qed.

Lemma align_up_Ok v a r :
  0 <= v <= u64_max -> 0 <= a <= u64_max -> align_up v a = Ok r ->
  is_power_of_two a = true /\ v <= r < v + a /\ r <= u64_max /\ (a | r).
Proof. intros Hv Ha E. pose proof (align_up_spec v a Hv Ha) as H. by rewrite E in H. Qed.

(** ** Vectors

    [std::vector] operations by position, and the standard searches. On a partitioned range
    [std::lower_bound] returns the partition point, which the linear scan computes. *)

Section vectors.
Context {A : Type}.
Implicit Types (l : list A) (p : A -> bool).

Definition insert_at (i : nat) (x : A) l : list A := take i l ++ x :: drop i l.
Definition erase_at (i : nat) l : list A := take i l ++ drop (S i) l.

(** Number of leading elements on which [p] holds. *)
Fixpoint partition_point p l : nat :=
  match l with
  | [] => 0%nat
  | a :: l => if p a then S (partition_point p l) else 0%nat
  end.

(** Index of the first element on which [p] holds ([std::find_if]). *)
Fixpoint find_index p l : option nat :=
  match l with
  | [] => None
  | a :: l => if p a then Some 0%nat else S <$> find_index p l
  end.

(** Element of a vector at a machine-integer index. *)
Definition at_index l (i : Z) : option A :=
  if decide (0 <= i) then l !! Z.to_nat i else None.
Definition set_index l (i : Z) (x : A) : list A := <[Z.to_nat i := x]> l.

Lemma partition_point_split p l :
  exists pre post,
    l = pre ++ post /\ length pre = partition_point p l /\
    Forall (fun a => p a = true) pre /\
    (forall a post', post = a :: post' -> p a = false).
Proof.
  induction l as [|a l (pre & post & Hl & Hlen & Hpre & Hpost)]; cbn.
  - exists [], []. repeat split; auto. intros; discriminate.
  - destruct (p a) eqn:E.
    + exists (a :: pre), post. subst l. repeat split; auto. cbn. by rewrite Hlen.
    + exists [], (a :: l). repeat split; auto. intros ? ? [= <- <-]. done.
Qed.

Lemma find_index_Some p l i :
  find_index p l = Some i <->
  exists pre a post,
    l = pre ++ a :: post /\ length pre = i /\ p a = true /\ Forall (fun a => p a = false) pre.
Proof.
  revert i. induction l as [|a l IH]; intros i; cbn.
  { split; [discriminate|]. intros ([|] & ? & ? & ? & _); discriminate. }
  destruct (p a) eqn:E.
  - split.
    + intros [= <-]. exists [], a, l. auto.
    + intros ([|b pre] & c & post & [= <- ->] & Hlen & Hp & Hpre); [by rewrite <- Hlen|].
      inversion Hpre. congruence.
  - rewrite fmap_Some. split.
    + intros (j & Hj & ->). apply IH in Hj as (pre & b & post & -> & Hlen & Hb & Hpre).
      exists (a :: pre), b, post. cbn. rewrite Hlen. auto.
    + intros ([|b pre] & c & post & [= <- ->] & Hlen & Hp & Hpre); [congruence|].
      inversion Hpre; subst. exists (length pre). split; [|done]. apply IH. eauto 10.
Qed.

Lemma find_index_None p l : find_index p l = None <-> Forall (fun a => p a = false) l.
Proof.
  induction l as [|a l IH]; cbn; [split; auto|].
  destruct (p a) eqn:E.
  - split; [discriminate|]. inversion 1; congruence.
  - rewrite fmap_None, IH, Forall_cons. tauto.
Qed.

Lemma at_index_nat l (i : nat) : at_index l (Z.of_nat i) = l !! i.
Proof. unfold at_index. rewrite decide_True, Nat2Z.id by lia. done. Qed.

Lemma at_index_Some l i x :
  at_index l i = Some x <-> 0 <= i /\ l !! Z.to_nat i = Some x.
Proof. unfold at_index. case_decide; split; intros; [done| |discriminate|]; tauto. Qed.

Lemma at_index_lt l i x : at_index l i = Some x -> 0 <= i < Z.of_nat (length l).
Proof. intros [H Hl]%at_index_Some. apply lookup_lt_Some in Hl. lia. Qed.

Lemma at_index_is_Some l i : 0 <= i < Z.of_nat (length l) -> exists x, at_index l i = Some x.
Proof.
  intros H. destruct (lookup_lt_is_Some_2 l (Z.to_nat i)) as [x Hx]; [lia|].
  exists x. apply at_index_Some. split; [lia|done].
Qed.

(** Operations at the position that splits a vector. *)
Lemma lookup_middle (l1 l2 : list A) a i : length l1 = i -> (l1 ++ a :: l2) !! i = Some a.
Proof. intros <-. by apply list_lookup_middle. Qed.

Lemma lookup_after (l1 l2 : list A) a i :
  length l1 = i -> (l1 ++ a :: l2) !! S i = head l2.
Proof.
  intros <-. rewrite lookup_app_r by lia.
  replace (S (length l1) - length l1)%nat with 1%nat by lia. by destruct l2.
Qed.

Lemma update_middle (l1 l2 : list A) a b i :
  length l1 = i -> <[i := b]> (l1 ++ a :: l2) = l1 ++ b :: l2.
Proof. intros <-. rewrite insert_app_r_alt, Nat.sub_diag by lia. done. Qed.

Lemma erase_middle (l1 l2 : list A) a i :
  length l1 = i -> erase_at i (l1 ++ a :: l2) = l1 ++ l2.
Proof.
  intros <-. unfold erase_at. rewrite take_app_length.
  replace (S (length l1)) with (length l1 + 1)%nat by lia.
  by rewrite drop_app_add.
Qed.

Lemma erase_after (l1 l2 : list A) a b i :
  length l1 = i -> erase_at (S i) (l1 ++ a :: b :: l2) = l1 ++ a :: l2.
Proof.
  intros <-. rewrite (cons_middle a), app_assoc, (erase_middle (l1 ++ [a])).
  - by rewrite <- app_assoc.
  - rewrite length_app. cbn. lia.
Qed.

Lemma insert_middle (l1 l2 : list A) a i :
  length l1 = i -> insert_at i a (l1 ++ l2) = l1 ++ a :: l2.
Proof. intros <-. unfold insert_at. by rewrite take_app_length, drop_app_length. Qed.

Lemma drop_middle (l1 l2 : list A) a i : length l1 = i -> drop (S i) (l1 ++ a :: l2) = l2.
Proof.
  intros <-. rewrite (cons_middle a), app_assoc.
  replace (S (length l1)) with (length (l1 ++ [a])) by (rewrite length_app; cbn; lia).
  apply drop_app_length.
Qed.

Lemma length_set_index l i x : length (set_index l i x) = length l.
Proof. apply length_insert. Qed.

Lemma at_set_index_eq l i x :
  0 <= i < Z.of_nat (length l) -> at_index (set_index l i x) i = Some x.
Proof.
  intros. apply at_index_Some. split; [lia|]. apply list_lookup_insert_eq. lia.
Qed.

Lemma at_set_index_ne l i j x :
  0 <= i -> i <> j -> at_index (set_index l i x) j = at_index l j.
Proof.
  intros. unfold at_index, set_index. case_decide; [|done].
  rewrite list_lookup_insert_ne; [done|]. lia.
Qed.
End vectors.

(** ** Sums over vectors *)

Fixpoint sum_with {A} (f : A -> Z) (l : list A) : Z :=
  match l with
  | [] => 0
  | a :: l => f a + sum_with f l
  end.

Section sums.
Context {A : Type} (f : A -> Z).
Implicit Types (l : list A).

Lemma sum_with_app l1 l2 : sum_with f (l1 ++ l2) = sum_with f l1 + sum_with f l2.
Proof. induction l1 as [|a l1 IH]; cbn in *; lia. Qed.

Lemma sum_with_insert l i x y :
  l !! i = Some x -> sum_with f (<[i := y]> l) = sum_with f l - f x + f y.
Proof.
  revert i. induction l as [|a l IH]; intros [|i] H; try discriminate; cbn in *.
  - injection H as ->. lia.
  - change (f a + sum_with f (<[i := y]> l) = f a + sum_with f l - f x + f y).
    specialize (IH _ H). lia.
Qed.

Lemma sum_with_set_index l i x y :
  at_index l i = Some x -> sum_with f (set_index l i y) = sum_with f l - f x + f y.
Proof. intros [_ H]%at_index_Some. by apply sum_with_insert. Qed.

Lemma sum_with_nonneg l : (forall a, 0 <= f a) -> 0 <= sum_with f l.
Proof. intros Hf. induction l as [|a l IH]; cbn; [lia|]. specialize (Hf a). lia. Qed.

Lemma sum_with_elem l i x : (forall a, 0 <= f a) -> l !! i = Some x -> f x <= sum_with f l.
Proof.
  intros Hf. revert i. induction l as [|a l IH]; intros [|i] H; try discriminate; cbn in *.
  - injection H as ->. pose proof (sum_with_nonneg l Hf). lia.
  - specialize (IH _ H). specialize (Hf a). lia.
Qed.

Lemma sum_with_two l i j x y :
  (forall a, 0 <= f a) -> i <> j -> l !! i = Some x -> l !! j = Some y ->
  f x + f y <= sum_with f l.
Proof.
  intros Hf. revert i j. induction l as [|a l IH]; intros [|i] [|j] Hne Hx Hy;
    try discriminate; try done; cbn in *.
  - injection Hx as ->. pose proof (sum_with_elem l _ _ Hf Hy). lia.
  - injection Hy as ->. pose proof (sum_with_elem l _ _ Hf Hx). lia.
  - specialize (IH i j ltac:(congruence) Hx Hy). specialize (Hf a). lia.
Qed.

Lemma sum_with_positive l : 0 < sum_with f l -> exists i x, l !! i = Some x /\ 0 < f x.
Proof.
  induction l as [|a l IH]; cbn; intros H; [lia|].
  destruct (decide (0 < f a)); [by exists 0%nat, a|].
  destruct IH as (i & x & Hi & Hx); [lia|]. by exists (S i), x.
Qed.

Lemma sum_with_replicate n a : sum_with f (replicate n a) = Z.of_nat n * f a.
Proof. induction n as [|n IH]; [done|]. rewrite replicate_S. cbn in *. lia. Qed.

Lemma sum_with_lower l c :
  (forall i a, l !! i = Some a -> c <= f a) -> Z.of_nat (length l) * c <= sum_with f l.
Proof.
  induction l as [|a l IH]; intros H; [done|].
  pose proof (H 0%nat a eq_refl). assert (Z.of_nat (length l) * c <= sum_with f l).
  { apply IH. intros i b Hb. by apply (H (S i)). }
  change (sum_with f (a :: l)) with (f a + sum_with f l).
  rewrite length_cons, Nat2Z.inj_succ. lia.
Qed.
End sums.

Lemma sum_with_ext {A} (f g : A -> Z) l :
  (forall i a, l !! i = Some a -> f a = g a) -> sum_with f l = sum_with g l.
Proof.
  induction l as [|a l IH]; intros H; cbn; [done|].
  rewrite (H 0%nat a eq_refl). f_equal. apply IH. intros i b Hb. by apply (H (S i)).
Qed.

Lemma sum_with_zero {A} (f : A -> Z) l : (forall i a, l !! i = Some a -> f a = 0) -> sum_with f l = 0.
Proof.
  intros H. rewrite (sum_with_ext f (fun _ => 0) l H). induction l; cbn; [done|].
  rewrite IHl; [done|]. intros i b Hb. by apply (H (S i)).
Qed.
