(* ===== verification/Post.v ===== *)
(** * Postconditions of programs with a state and exceptions

    [post m s Q E]: run from [s], the program [m] ends in a state and with a value that satisfy [Q], or
    with an exception in a state that satisfies [E].  The rules follow the program's structure: one for
    each monadic operation, and an invariant rule for loops. *)

From S2P Require Import Prelude.

Section post.
Context {S : Type}.

Definition post {A} (m : M S A) (s : S) (Q : S -> A -> Prop) (E : S -> exn -> Prop) : Prop :=
  match m s with
  | (s', Ok a) => Q s' a
  | (s', Throw e) => E s' e
  end.

Context (E : S -> exn -> Prop).

Lemma post_weaken {A} (m : M S A) s (Q Q' : S -> A -> Prop) :
  post m s Q E -> (forall s' a, Q s' a -> Q' s' a) -> post m s Q' E.
Proof. unfold post. destruct (m s) as [s' [a|e]]; auto. Qed.

Lemma post_bind {A B} (m : M S A) (k : A -> M S B) s Q R :
  post m s Q E -> (forall s' a, Q s' a -> post (k a) s' R E) -> post (m ≫= k) s R E.
Proof. unfold post. cbv [mbind M_bind]. destruct (m s) as [s' [a|e]]; [|done]. intros HQ Hk. by apply Hk. Qed.

Lemma post_ret {A} (a : A) s (Q : S -> A -> Prop) : Q s a -> post (mret a) s Q E.
Proof. done. Qed.

(** A program whose result is known. *)
Lemma post_eq {A B} (m : M S A) (k : A -> M S B) s s' a R :
  m s = (s', Ok a) -> post (k a) s' R E -> post (m ≫= k) s R E.
Proof. unfold post. cbv [mbind M_bind]. by intros ->. Qed.

(** A program that only looks. *)
Lemma post_pure {A B} (m : M S A) (k : A -> M S B) s r R :
  m s = (s, r) -> (forall e, r = Throw e -> E s e) -> (forall a, r = Ok a -> post (k a) s R E) ->
  post (m ≫= k) s R E.
Proof. unfold post. cbv [mbind M_bind]. intros -> He Hk. destruct r as [a|e]; [by apply Hk|by apply He]. Qed.

Lemma post_end {A} (m : M S A) s s' a (Q : S -> A -> Prop) : m s = (s', Ok a) -> Q s' a -> post m s Q E.
Proof. unfold post. by intros ->. Qed.

Lemma post_get {B} (k : S -> M S B) s R : post (k s) s R E -> post (mget ≫= k) s R E.
Proof. done. Qed.

Lemma post_put {B} (k : unit -> M S B) s s' R : post (k tt) s' R E -> post (mput s' ≫= k) s R E.
Proof. done. Qed.

Lemma post_modify {B} f (k : unit -> M S B) s R : post (k tt) (f s) R E -> post (mmodify f ≫= k) s R E.
Proof. done. Qed.

Lemma post_throw_if {B} b e (k : unit -> M S B) s R :
  (b = true -> E s e) -> (b = false -> post (k tt) s R E) -> post (mthrow_if b e ≫= k) s R E.
Proof. unfold post. unfold_M. destruct b; intros He Hk; [by apply He|by apply Hk]. Qed.

Lemma post_assoc {A B C} (m : M S A) (f : A -> M S B) (k : B -> M S C) s R :
  post (m ≫= fun a => f a ≫= k) s R E -> post ((m ≫= f) ≫= k) s R E.
Proof. unfold post. cbv [mbind M_bind]. by destruct (m s) as [s' [a|e]]. Qed.
End post.

Lemma post_except {S A} (m : M S A) s Q (E E' : S -> exn -> Prop) :
  post m s Q E -> (forall s' e, E s' e -> E' s' e) -> post m s Q E'.
Proof. unfold post. destruct (m s) as [s' [a|e]]; auto. Qed.

(** A [noexcept] result: the program returns. *)
Lemma post_returns {S A} (m : M S A) s Q : post m s Q (fun _ _ => False) -> exists s' a, m s = (s', Ok a) /\ Q s' a.
Proof. unfold post. destruct (m s) as [s' [a|e]]; [by exists s', a|done]. Qed.

Lemma post_split {S A} (m : M S A) s Q E :
  post m s Q E <-> (forall s' a, m s = (s', Ok a) -> Q s' a) /\ (forall s' e, m s = (s', Throw e) -> E s' e).
Proof.
  unfold post. destruct (m s) as [s' [a|e]]; split.
  - intros HQ. split; [by intros ? ? [= <- <-]|done].
  - intros [HQ _]. by apply HQ.
  - intros HE. split; [done|by intros ? ? [= <- <-]].
  - intros [_ HE]. by apply HE.
Qed.
