(* ===== verification/Extents.v ===== *)
(** * Sorted lists of disjoint extents

    Both the host KV arena ([FreeExtent] of core/host_kv_arena.h, bytes) and the device page pool
    ([FreePageRun] of core/paged_kv_cache.h, pages) keep their free space as a vector of extents
    that is sorted by position and fully coalesced.  This file holds the extent type, the
    well-formedness predicate of such a vector, its coverage function (how many extents contain a
    position) and the lemmas on inserting, merging and carving extents that both components use. *)

From S2P Require Import Prelude.

Record Extent := mkExtent { ex_begin : Z; ex_len : Z }.

#[export] Instance Extent_eq_dec : EqDecision Extent.
Proof. solve_decision. Defined.

Definition ex_end (e : Extent) : Z := ex_begin e + ex_len e.

(** 1 on the positions of the extent, 0 elsewhere. *)
Definition ind (e : Extent) (x : Z) : Z :=
  if decide (ex_begin e <= x < ex_end e) then 1 else 0.

(** How many extents of a vector contain a position. *)
Definition cov (l : list Extent) (x : Z) : Z := sum_with (fun e => ind e x) l.

(** Total size of the extents. *)
Definition total (l : list Extent) : Z := sum_with ex_len l.

(** Non-empty extents in increasing order, none touching the next, all within [lo, hi). *)
Fixpoint extents_wf (lo hi : Z) (l : list Extent) : Prop :=
  match l with
  | [] => True
  | e :: l => lo <= ex_begin e /\ 0 < ex_len e /\ ex_end e <= hi /\ extents_wf (ex_end e + 1) hi l
  end.

(** The lower bound that a prefix leaves to what follows. *)
Fixpoint after (lo : Z) (l : list Extent) : Z :=
  match l with [] => lo | e :: l => after (ex_end e + 1) l end.

Ltac extent_lia := unfold ex_end in *; cbn [ex_begin ex_len] in *; lia.

(** Case analysis on every indicator in sight. *)
Ltac ind_cases := unfold ind in *; repeat case_decide; extent_lia.

Lemma ind_range e x : 0 <= ind e x <= 1.
Proof. ind_cases. Qed.

Lemma cov_app l1 l2 x : cov (l1 ++ l2) x = cov l1 x + cov l2 x.
Proof. apply sum_with_app. Qed.

Lemma cov_cons e l x : cov (e :: l) x = ind e x + cov l x.
Proof. done. Qed.

Lemma cov_nonneg l x : 0 <= cov l x.
Proof. apply sum_with_nonneg. intros e. apply ind_range. Qed.

Lemma total_app l1 l2 : total (l1 ++ l2) = total l1 + total l2.
Proof. apply sum_with_app. Qed.

Lemma extents_wf_app lo hi l1 l2 :
  extents_wf lo hi (l1 ++ l2) <-> extents_wf lo hi l1 /\ extents_wf (after lo l1) hi l2.
Proof.
  revert lo. induction l1 as [|e l1 IH]; intros lo; cbn; [tauto|]. rewrite IH. tauto.
Qed.

Lemma after_app lo l1 l2 : after lo (l1 ++ l2) = after (after lo l1) l2.
Proof. revert lo. induction l1 as [|e l1 IH]; intros lo; cbn; auto. Qed.

Lemma after_ge lo hi l : extents_wf lo hi l -> lo <= after lo l.
Proof.
  revert lo. induction l as [|e l IH]; intros lo Hwf; cbn; [lia|].
  destruct Hwf as (? & ? & ? & Hwf). specialize (IH _ Hwf). extent_lia.
Qed.

Lemma extents_wf_weaken lo lo' hi l : lo' <= lo -> extents_wf lo hi l -> extents_wf lo' hi l.
Proof. destruct l; cbn; [done|]. intros ? (? & ? & ? & ?). repeat split; [lia|done..]. Qed.

Lemma extents_wf_lookup lo hi l i e :
  extents_wf lo hi l -> l !! i = Some e -> lo <= ex_begin e /\ 0 < ex_len e /\ ex_end e <= hi.
Proof.
  revert lo i. induction l as [|a l IH]; intros lo [|i] Hwf Hi; try discriminate; cbn in *.
  - injection Hi as ->. tauto.
  - destruct Hwf as (? & ? & ? & Hwf). destruct (IH _ _ Hwf Hi) as (? & ? & ?).
    repeat split; extent_lia.
Qed.

Lemma cov_lookup l i e x : l !! i = Some e -> ind e x <= cov l x.
Proof. intros. apply (sum_with_elem (fun e => ind e x) l i); [intros; apply ind_range|done]. Qed.

(** Positions below the lower bound, or at and above the upper bound, are not covered. *)
Lemma cov_below lo hi l x : extents_wf lo hi l -> x < lo -> cov l x = 0.
Proof.
  revert lo. induction l as [|e l IH]; intros lo Hwf Hx; [done|].
  destruct Hwf as (? & ? & ? & Hwf). rewrite cov_cons, (IH _ Hwf); [|extent_lia]. ind_cases.
Qed.

Lemma cov_above lo hi l x : extents_wf lo hi l -> hi <= x -> cov l x = 0.
Proof.
  revert lo. induction l as [|e l IH]; intros lo Hwf Hx; [done|].
  destruct Hwf as (? & ? & ? & Hwf). rewrite cov_cons, (IH _ Hwf) by done. ind_cases.
Qed.

Lemma cov_le_1 lo hi l x : extents_wf lo hi l -> cov l x <= 1.
Proof.
  revert lo. induction l as [|e l IH]; intros lo Hwf; [cbn; lia|].
  destruct Hwf as (? & ? & ? & Hwf). rewrite cov_cons.
  destruct (decide (x < ex_end e)).
  - rewrite (cov_below _ _ _ _ Hwf) by lia. pose proof (ind_range e x). lia.
  - specialize (IH _ Hwf). ind_cases.
Qed.

Lemma total_cons e l : total (e :: l) = ex_len e + total l.
Proof. done. Qed.

Lemma total_nonneg lo hi l : extents_wf lo hi l -> 0 <= total l.
Proof.
  revert lo. induction l as [|e l IH]; intros lo Hwf; [cbn; lia|].
  destruct Hwf as (? & ? & ? & Hwf). specialize (IH _ Hwf). rewrite total_cons. lia.
Qed.

Lemma total_le lo hi l : lo <= hi -> extents_wf lo hi l -> total l <= hi - lo.
Proof.
  revert lo. induction l as [|e l IH]; intros lo Hlo Hwf; [cbn; lia|].
  destruct Hwf as (? & ? & ? & Hwf). rewrite total_cons.
  destruct l as [|e' l]; [cbn; extent_lia|].
  assert (ex_end e + 1 <= hi) by (cbn in Hwf; extent_lia).
  specialize (IH (ex_end e + 1) ltac:(lia) Hwf). extent_lia.
Qed.

(** A well-formed vector is determined by the positions it covers: it is the canonical list of the
    maximal runs of the covered set. *)
Lemma extents_canonical lo hi l1 l2 :
  extents_wf lo hi l1 -> extents_wf lo hi l2 -> (forall x, cov l1 x = cov l2 x) -> l1 = l2.
Proof.
  revert lo l2. induction l1 as [|e1 l1 IH]; intros lo [|e2 l2] H1 H2 Hc.
  - done.
  - destruct H2 as (? & ? & ? & H2). specialize (Hc (ex_begin e2)).
    rewrite cov_cons in Hc. pose proof (cov_nonneg l2 (ex_begin e2)).
    change (cov [] (ex_begin e2)) with 0 in Hc. ind_cases.
  - destruct H1 as (? & ? & ? & H1). specialize (Hc (ex_begin e1)).
    rewrite cov_cons in Hc. pose proof (cov_nonneg l1 (ex_begin e1)).
    change (cov [] (ex_begin e1)) with 0 in Hc. ind_cases.
  - destruct H1 as (? & ? & ? & H1), H2 as (? & ? & ? & H2).
    assert (forall x, x < ex_end e1 + 1 -> cov l1 x = 0) as Z1 by (intros; by eapply cov_below).
    assert (forall x, x < ex_end e2 + 1 -> cov l2 x = 0) as Z2 by (intros; by eapply cov_below).
    assert (e1 = e2) as ->.
    { destruct e1 as [b1 n1], e2 as [b2 n2].
      assert (b1 = b2) as ->.
      { pose proof (Hc b1) as C1. pose proof (Hc b2) as C2. rewrite !cov_cons in *.
        pose proof (Z1 b1). pose proof (Z1 b2). pose proof (Z2 b1). pose proof (Z2 b2).
        ind_cases. }
      assert (n1 = n2) as ->; [|done].
      pose proof (Hc (b2 + n1)) as C1. pose proof (Hc (b2 + n2)) as C2. rewrite !cov_cons in *.
      pose proof (Z1 (b2 + n1)). pose proof (Z2 (b2 + n1)).
      pose proof (Z1 (b2 + n2)). pose proof (Z2 (b2 + n2)). ind_cases. }
    f_equal. apply (IH (ex_end e2 + 1)); [done..|].
    intros x. specialize (Hc x). rewrite !cov_cons in Hc. lia.
Qed.

(** ** Inserting a released extent

    [HostKVArena::insert_free_extent]: insert before the first extent that does not begin earlier,
    then merge with the previous and with the next extent when they touch. *)
Definition insert_extent (l : list Extent) (extent : Extent) : list Extent :=
  let position := partition_point (fun candidate => ex_begin candidate <? ex_begin extent) l in
  let l := insert_at position extent l in
  let '(l, inserted) :=
    match position with
    | O => (l, position)
    | S previous =>
        match l !! previous, l !! position with
        | Some p, Some i =>
            if w64 (ex_begin p + ex_len p) =? ex_begin i
            then (erase_at position
                    (<[previous := mkExtent (ex_begin p) (w64 (ex_len p + ex_len i))]> l), previous)
            else (l, position)
        | _, _ => (l, position)
        end
    end in
  match l !! inserted, l !! S inserted with
  | Some i, Some next =>
      if w64 (ex_begin i + ex_len i) =? ex_begin next
      then erase_at (S inserted)
             (<[inserted := mkExtent (ex_begin i) (w64 (ex_len i + ex_len next))]> l)
      else l
  | _, _ => l
  end.

(** Closed form of the merge with the next extent. *)
Definition merge_next (i : Extent) (post : list Extent) : list Extent :=
  match post with
  | next :: post' =>
      if w64 (ex_begin i + ex_len i) =? ex_begin next
      then mkExtent (ex_begin i) (w64 (ex_len i + ex_len next)) :: post'
      else i :: post
  | [] => [i]
  end.

Lemma merge_next_at (pre post : list Extent) c n :
  length pre = n ->
  match (pre ++ c :: post) !! n, (pre ++ c :: post) !! S n with
  | Some i, Some next =>
      if w64 (ex_begin i + ex_len i) =? ex_begin next
      then erase_at (S n)
             (<[n := mkExtent (ex_begin i) (w64 (ex_len i + ex_len next))]> (pre ++ c :: post))
      else pre ++ c :: post
  | _, _ => pre ++ c :: post
  end = pre ++ merge_next c post.
Proof.
  intros Hn. rewrite (lookup_middle _ _ _ _ Hn), (lookup_after _ _ _ _ Hn).
  destruct post as [|next post]; cbn [head merge_next]; [done|].
  case_match; [|done]. rewrite (update_middle _ _ _ _ _ Hn). by rewrite (erase_after _ _ _ _ _ Hn).
Qed.

Lemma insert_extent_first post e :
  (forall a post', post = a :: post' -> (ex_begin a <? ex_begin e) = false) ->
  insert_extent post e = merge_next e post.
Proof.
  intros Hpost. unfold insert_extent.
  assert (partition_point (fun c => ex_begin c <? ex_begin e) post = 0%nat) as ->.
  { destruct post as [|a post]; cbn; [done|]. by rewrite (Hpost a post eq_refl). }
  apply (merge_next_at [] post e 0%nat eq_refl).
Qed.

Lemma insert_extent_between pre x post e :
  Forall (fun a => (ex_begin a <? ex_begin e) = true) (pre ++ [x]) ->
  (forall a post', post = a :: post' -> (ex_begin a <? ex_begin e) = false) ->
  insert_extent (pre ++ x :: post) e =
    pre ++ if w64 (ex_begin x + ex_len x) =? ex_begin e
           then merge_next (mkExtent (ex_begin x) (w64 (ex_len x + ex_len e))) post
           else x :: merge_next e post.
Proof.
  intros Hpre Hpost. unfold insert_extent.
  assert (partition_point (fun c => ex_begin c <? ex_begin e) (pre ++ x :: post)
          = S (length pre)) as ->.
  { clear -Hpre Hpost. induction pre as [|a pre IH]; cbn; cbn in Hpre.
    - apply Forall_cons in Hpre as [-> _]. f_equal.
      destruct post as [|a post]; cbn; [done|]. by rewrite (Hpost a post eq_refl).
    - apply Forall_cons in Hpre as [-> Hpre]. f_equal. by apply IH. }
  rewrite (cons_middle x), app_assoc.
  rewrite (insert_middle (pre ++ [x])) by (rewrite length_app; cbn; lia).
  rewrite <- app_assoc. cbn [app].
  cbv beta iota zeta.
  rewrite (lookup_middle pre), (lookup_after pre) by done. cbn [head].
  destruct (w64 (ex_begin x + ex_len x) =? ex_begin e).
  - rewrite (update_middle pre), (erase_after pre) by done. by apply merge_next_at.
  - rewrite (cons_middle x), app_assoc.
    rewrite (merge_next_at (pre ++ [x])) by (rewrite length_app; cbn; lia).
    by rewrite <- app_assoc.
Qed.

(** [e] can be added to the free space: it lies within the bounds and covers nothing free. *)
Definition insertable (hi : Z) (l : list Extent) (e : Extent) : Prop :=
  0 <= ex_begin e /\ 0 < ex_len e /\ ex_end e <= hi /\ (forall x, ind e x = 1 -> cov l x = 0).

Lemma ind_begin e : 0 < ex_len e -> ind e (ex_begin e) = 1.
Proof. ind_cases. Qed.

(** An extent that begins before [e] ends before it; one that does not begin before [e] begins
    after it. *)
Lemma insertable_apart hi l e i a :
  extents_wf 0 hi l -> insertable hi l e -> l !! i = Some a ->
  if ex_begin a <? ex_begin e then ex_end a <= ex_begin e else ex_end e <= ex_begin a.
Proof.
  intros Hwf (Hb & Hn & He & Hfree) Hi.
  destruct (extents_wf_lookup _ _ _ _ _ Hwf Hi) as (? & ? & ?).
  destruct (Z.ltb_spec (ex_begin a) (ex_begin e)).
  - pose proof (Hfree (ex_begin e) (ind_begin e Hn)).
    pose proof (cov_lookup _ _ _ (ex_begin e) Hi). ind_cases.
  - pose proof (Hfree (ex_begin a)). pose proof (cov_lookup _ _ _ (ex_begin a) Hi).
    pose proof (ind_begin a). ind_cases.
Qed.

Lemma merge_next_spec lo hi e post :
  hi <= u64_max -> 0 <= lo <= ex_begin e -> 0 < ex_len e -> ex_end e <= hi ->
  extents_wf (ex_end e) hi post ->
  extents_wf lo hi (merge_next e post) /\
  (forall x, cov (merge_next e post) x = ind e x + cov post x) /\
  total (merge_next e post) = ex_len e + total post.
Proof.
  intros Hhi Hlo Hn He Hwf. destruct post as [|y post]; cbn [merge_next].
  { repeat split; try (cbn; extent_lia). }
  destruct Hwf as (Hy & Hyn & Hye & Hwf).
  rewrite w64_small by extent_lia.
  destruct (Z.eqb_spec (ex_begin e + ex_len e) (ex_begin y)) as [Heq|Hne].
  - rewrite w64_small by extent_lia. repeat split; try extent_lia.
    + eapply extents_wf_weaken; [|exact Hwf]. extent_lia.
    + intros x. rewrite !cov_cons. ind_cases.
    + rewrite !total_cons. extent_lia.
  - repeat split; try done; try extent_lia.
Qed.

(** Releasing an extent into a well-formed free list keeps it well formed and coalesced, and adds
    exactly the released positions. *)
Lemma insert_extent_spec hi l e :
  hi <= u64_max -> extents_wf 0 hi l -> insertable hi l e ->
  extents_wf 0 hi (insert_extent l e) /\
  (forall x, cov (insert_extent l e) x = cov l x + ind e x) /\
  total (insert_extent l e) = total l + ex_len e.
Proof.
  intros Hhi Hwf Hins.
  pose proof (insertable_apart hi l e) as Hapart. specialize (fun i a => Hapart i a Hwf Hins).
  destruct Hins as (Hb & Hn & He & _).
  destruct (partition_point_split (fun c => ex_begin c <? ex_begin e) l)
    as (pre & post & -> & _ & Hpre & Hpost).
  assert (forall lo, extents_wf lo hi post -> extents_wf (ex_end e) hi post) as Hraise.
  { intros lo. destruct post as [|y post]; [done|]. intros (? & ? & ? & ?).
    pose proof (Hapart (length pre) y (list_lookup_middle _ _ _ _ eq_refl)) as Hy.
    rewrite (Hpost y post eq_refl) in Hy. cbn. repeat split; auto. }
  destruct pre as [|x pre _] using rev_ind.
  - rewrite app_nil_l, insert_extent_first by done.
    destruct (merge_next_spec 0 hi e post) as (? & Hc & Ht); try lia; [by eapply Hraise|].
    split_and!; [done| |lia]. intros z. rewrite Hc. lia.
  - apply extents_wf_app in Hwf as [Hwfpre Hwfpost]. rewrite after_app in Hwfpost.
    apply extents_wf_app in Hwfpre as [Hwfpre (Hxl & Hxn & Hxe & _)]. cbn in Hwfpost.
    rewrite <- app_assoc in *. cbn [app] in *.
    assert (ex_end x <= ex_begin e) as Hxlt.
    { pose proof (Hapart (length pre) x (list_lookup_middle _ _ _ _ eq_refl)) as Hx.
      apply Forall_app in Hpre as [_ Hx']. apply Forall_cons in Hx' as [Hx' _].
      by rewrite Hx' in Hx. }
    rewrite insert_extent_between by done.
    pose proof (after_ge _ _ _ Hwfpre) as Hafter.
    rewrite (w64_small (ex_begin x + ex_len x)) by extent_lia.
    destruct (Z.eqb_spec (ex_begin x + ex_len x) (ex_begin e)) as [Heq|Hne].
    + rewrite w64_small by extent_lia.
      destruct (merge_next_spec (after 0 pre) hi (mkExtent (ex_begin x) (ex_len x + ex_len e)) post)
        as (Hw & Hc & Ht); try extent_lia.
      { replace (ex_end _) with (ex_end e) by extent_lia. by eapply Hraise. }
      split_and!.
      * by apply extents_wf_app.
      * intros z. rewrite !cov_app, Hc, cov_cons. ind_cases.
      * rewrite !total_app, Ht, total_cons. extent_lia.
    + destruct (merge_next_spec (ex_end x + 1) hi e post) as (Hw & Hc & Ht); try extent_lia.
      { by eapply Hraise. }
      split_and!.
      * apply extents_wf_app. split; [done|]. by repeat split.
      * intros z. rewrite !cov_app, !cov_cons, Hc. lia.
      * rewrite !total_app, !total_cons, Ht. lia.
Qed.

(** ** Carving the front of an extent *)

(** The update both [HostKVArena::allocate] and the planner's simulation apply to the chosen
    extent: advance it by [bytes] and erase it when it becomes empty. *)
Definition carve_extent (l : list Extent) (index : nat) (bytes : Z) : list Extent :=
  match l !! index with
  | Some free =>
      let free := mkExtent (w64 (ex_begin free + bytes)) (w64 (ex_len free - bytes)) in
      if ex_len free =? 0 then erase_at index l else <[index := free]> l
  | None => l
  end.

(** [find_free_extent]: the first extent that is large enough. *)
Definition first_fit (l : list Extent) (bytes : Z) : option nat :=
  find_index (fun free => bytes <=? ex_len free) l.

Lemma first_fit_Some hi l bytes i :
  extents_wf 0 hi l -> first_fit l bytes = Some i ->
  exists free, l !! i = Some free /\ bytes <= ex_len free /\ 0 <= ex_begin free /\ ex_end free <= hi.
Proof.
  intros Hwf (pre & free & post & -> & <- & Hfit & _)%find_index_Some.
  apply Z.leb_le in Hfit.
  pose proof (list_lookup_middle pre post free _ eq_refl) as Hi.
  destruct (extents_wf_lookup _ _ _ _ _ Hwf Hi) as (? & ? & ?). eauto.
Qed.

Lemma carve_extent_spec hi l i free bytes :
  hi <= u64_max -> extents_wf 0 hi l -> l !! i = Some free -> 0 < bytes <= ex_len free ->
  extents_wf 0 hi (carve_extent l i bytes) /\
  (forall x, cov (carve_extent l i bytes) x = cov l x - ind (mkExtent (ex_begin free) bytes) x) /\
  total (carve_extent l i bytes) = total l - bytes.
Proof.
  intros Hhi Hwf Hi Hb. unfold carve_extent. rewrite Hi.
  destruct (extents_wf_lookup _ _ _ _ _ Hwf Hi) as (? & ? & ?).
  rewrite !w64_small by extent_lia. cbn [ex_len].
  apply list_elem_of_split_length in Hi as (pre & post & -> & ->).
  apply extents_wf_app in Hwf as (Hpre & Hlo & Hn & He & Hpost).
  destruct (Z.eqb_spec (ex_len free - bytes) 0).
  - rewrite (erase_middle pre post free _ eq_refl). split_and!.
    + apply extents_wf_app. split; [done|]. eapply extents_wf_weaken; [|done]. extent_lia.
    + intros x. rewrite !cov_app, cov_cons. ind_cases.
    + rewrite !total_app, total_cons. lia.
  - rewrite (update_middle pre post free _ _ eq_refl). split_and!.
    + apply extents_wf_app. split; [done|]. cbn [extents_wf]. repeat split; try extent_lia.
      eapply extents_wf_weaken; [|done]. extent_lia.
    + intros x. rewrite !cov_app, !cov_cons. ind_cases.
    + rewrite !total_app, !total_cons. cbn. lia.
Qed.

(** The position just before an extent of a well-formed vector is not covered. *)
Lemma cov_gap_left lo hi l i e :
  extents_wf lo hi l -> l !! i = Some e -> cov l (ex_begin e - 1) = 0.
Proof.
  revert lo i. induction l as [|a l IH]; intros lo [|i] Hwf Hi; try discriminate;
    destruct Hwf as (? & ? & ? & Hwf); rewrite cov_cons; cbn in Hi.
  - injection Hi as ->. rewrite (cov_below _ _ _ _ Hwf) by extent_lia. ind_cases.
  - rewrite (IH _ _ Hwf Hi). destruct (extents_wf_lookup _ _ _ _ _ Hwf Hi) as (? & _ & _). ind_cases.
Qed.

(** The position just after an extent is not covered either. *)
Lemma cov_gap_right lo hi l i e :
  extents_wf lo hi l -> l !! i = Some e -> cov l (ex_end e) = 0.
Proof.
  revert lo i. induction l as [|a l IH]; intros lo [|i] Hwf Hi; try discriminate;
    destruct Hwf as (? & ? & ? & Hwf); rewrite cov_cons; cbn in Hi.
  - injection Hi as ->. rewrite (cov_below _ _ _ _ Hwf) by extent_lia. ind_cases.
  - rewrite (IH _ _ Hwf Hi). destruct (extents_wf_lookup _ _ _ _ _ Hwf Hi) as (? & ? & _). ind_cases.
Qed.

Lemma cov_lookup_1 lo hi l i e x :
  extents_wf lo hi l -> l !! i = Some e -> ind e x = 1 -> cov l x = 1.
Proof.
  intros Hwf Hi Hx. pose proof (cov_lookup _ _ _ x Hi). pose proof (cov_le_1 _ _ _ x Hwf). lia.
Qed.

Lemma total_lookup lo hi l i e : extents_wf lo hi l -> l !! i = Some e -> ex_len e <= total l.
Proof.
  revert lo i. induction l as [|a l IH]; intros lo [|i] Hwf Hi; try discriminate;
    destruct Hwf as (? & ? & ? & Hwf); rewrite total_cons; cbn in Hi.
  - injection Hi as ->. pose proof (total_nonneg _ _ _ Hwf). lia.
  - specialize (IH _ _ Hwf Hi). lia.
Qed.

Lemma extents_wf_raise lo hi hi' l : hi <= hi' -> extents_wf lo hi l -> extents_wf lo hi' l.
Proof.
  intros Hhi. revert lo. induction l as [|e l IH]; intros lo; [done|].
  intros (? & ? & ? & ?). split_and!; [done|done|lia|auto].
Qed.
