(* ===== verification/Tensor.v ===== *)
(** * Tensors (core/dtype.cpp, core/tensor.cpp)

    Data types, the shape and stride arithmetic of a [Tensor], its views and slices.  Shapes and
    strides are lists of four machine integers; a data pointer is an address or null. *)

From S2P Require Import Prelude.

Inductive DType := BF16 | FP32 | I32 | U8 | I64 | I8 | FP16 | FP8_E4M3FN.

#[export] Instance DType_eq_dec : EqDecision DType.
Proof. solve_decision. Defined.

Definition dtype_size (dtype : DType) : Z :=
  match dtype with
  | BF16 => 2 | FP32 => 4 | I32 => 4 | U8 => 1 | I64 => 8 | I8 => 1 | FP16 => 2 | FP8_E4M3FN => 1
  end.

Record Tensor := mkTensor {
  t_data : option Z;
  t_dtype : DType;
  t_ne : list Z;
  t_nb : list Z;
}.

Definition checked_mul_i64 (a b : Z) : result Z :=
  if (a <? 0) || (b <? 0) then Throw InvalidArgument
  else if negb (b =? 0) && (i64_max / b <? a) then Throw OverflowError
  else Ok (a * b).

(** The loop of [normalize_shape]: the leading dimensions, then ones. *)
Fixpoint normalize_dims (shape : list Z) (out : list Z) (i : nat) : result (list Z) :=
  match shape with
  | [] => Ok out
  | dim :: shape =>
      if dim <=? 0 then Throw InvalidArgument
      else normalize_dims shape (<[i := dim]> out) (S i)
  end.

Definition normalize_shape (shape : list Z) : result (list Z) :=
  if (length shape =? 0)%nat || (4 <? length shape)%nat then Throw InvalidArgument
  else normalize_dims shape [1; 1; 1; 1] 0.

Fixpoint shape_numel_from (total : Z) (shape : list Z) : result Z :=
  match shape with
  | [] => Ok total
  | dim :: shape =>
      if dim <=? 0 then Throw InvalidArgument
      else total ← checked_mul_i64 total dim; shape_numel_from total shape
  end.

Definition shape_numel (shape : list Z) : result Z := shape_numel_from 1 shape.

(** Strides of the dimensions after the first: each is the previous one times the extent. *)
Fixpoint strides_from (stride : Z) (ne : list Z) : result (list Z) :=
  match ne with
  | [] => Ok []
  | n :: ne =>
      match ne with
      | [] => Ok [stride]
      | _ => next ← checked_mul_i64 stride n; rest ← strides_from next ne; Ok (stride :: rest)
      end
  end.

Definition set_contiguous_strides (dtype : DType) (ne : list Z) : result (list Z) :=
  strides_from (dtype_size dtype) ne.

Definition make_tensor (data : option Z) (dtype : DType) (shape : list Z) : result Tensor :=
  ne ← normalize_shape shape;
  nb ← set_contiguous_strides dtype ne;
  Ok (mkTensor data dtype ne nb).

Definition numel (t : Tensor) : result Z := shape_numel (t_ne t).

Definition bytes (t : Tensor) : result Z :=
  elements ← numel t;
  let elem_size := dtype_size (t_dtype t) in
  if (elements <? 0) || (u64_max <? elements) then Throw OverflowError
  else if negb (elem_size =? 0) && (u64_max / elem_size <? elements) then Throw OverflowError
  else Ok (w64 (elements * elem_size)).

Fixpoint contiguous_from (expected : Z) (ne nb : list Z) : bool :=
  match ne, nb with
  | n :: ne, b :: nb =>
      if n <=? 0 then false
      else if negb (n =? 1) && negb (b =? expected) then false
      else match ne with
           | [] => true
           | _ =>
               if n =? 1 then contiguous_from expected ne nb
               else match checked_mul_i64 expected n with
                    | Ok expected => contiguous_from expected ne nb
                    | Throw _ => false
                    end
           end
  | _, _ => true
  end.

Definition is_contiguous (t : Tensor) : bool :=
  contiguous_from (dtype_size (t_dtype t)) (t_ne t) (t_nb t).

Definition view (t : Tensor) (shape : list Z) : result Tensor :=
  _ ← throw_if (negb (is_contiguous t)) InvalidArgument;
  normalized ← normalize_shape shape;
  n ← shape_numel normalized;
  m ← numel t;
  _ ← throw_if (negb (n =? m)) InvalidArgument;
  make_tensor (t_data t) (t_dtype t) shape.

Definition slice (t : Tensor) (dim start len : Z) : result Tensor :=
  if (dim <? 0) || (4 <=? dim) then Throw InvalidArgument
  else
    let extent := default 0 (at_index (t_ne t) dim) in
    if (start <? 0) || (len <=? 0) || (extent <? start) || (extent - start <? len)
    then Throw InvalidArgument
    else
      offset ← checked_mul_i64 start (default 0 (at_index (t_nb t) dim));
      let data := match t_data t with Some p => Some (p + offset) | None => None end in
      Ok (mkTensor data (t_dtype t) (set_index (t_ne t) dim len) (t_nb t)).

(** ** Facts *)

Definition extent_ok (n : Z) : Prop := 0 < n <= i32_max.

Lemma dtype_size_range d : 1 <= dtype_size d <= 8.
Proof. destruct d; cbn; lia. Qed.

Lemma checked_mul_i64_spec a b :
  0 <= a -> 0 <= b ->
  checked_mul_i64 a b = if decide (a * b <= i64_max) then Ok (a * b) else Throw OverflowError.
Proof.
  intros Ha Hb. unfold checked_mul_i64.
  rewrite (proj2 (Z.ltb_ge a 0)), (proj2 (Z.ltb_ge b 0)) by lia. cbn [orb].
  destruct (Z.eqb_spec b 0) as [->|Hne]; cbn [negb andb]; [by rewrite Z.mul_0_r|].
  pose proof (Z.mul_div_le i64_max b ltac:(lia)).
  destruct (Z.ltb_spec (i64_max / b) a) as [Hlt|Hge].
  - rewrite decide_False; [done|]. intros Hle.
    pose proof (Z.div_le_lower_bound i64_max b a). lia.
  - rewrite decide_True; [done|]. nia.
Qed.

(** A four-dimensional shape of positive extents. *)
Lemma normalize_shape_4 a b c d :
  0 < a -> 0 < b -> 0 < c -> 0 < d -> normalize_shape [a; b; c; d] = Ok [a; b; c; d].
Proof.
  intros. unfold normalize_shape. cbn.
  rewrite !(proj2 (Z.leb_gt _ 0)) by done. done.
Qed.

Lemma shape_numel_4 a b c d :
  0 < a -> 0 < b -> 0 < c -> 0 < d ->
  shape_numel [a; b; c; d] =
    if decide (a * b * c * d <= i64_max) then Ok (a * b * c * d) else Throw OverflowError.
Proof.
  intros. unfold shape_numel. cbn [shape_numel_from].
  rewrite !(proj2 (Z.leb_gt _ 0)) by done.
  rewrite checked_mul_i64_spec by lia. rewrite Z.mul_1_l.
  destruct (decide (a <= i64_max)); cbn.
  2: { rewrite decide_False; [done|]. intros ?. nia. }
  rewrite checked_mul_i64_spec by lia. destruct (decide (a * b <= i64_max)); cbn.
  2: { rewrite decide_False; [done|]. intros ?. nia. }
  rewrite checked_mul_i64_spec by lia. destruct (decide (a * b * c <= i64_max)); cbn.
  2: { rewrite decide_False; [done|]. intros ?. nia. }
  rewrite checked_mul_i64_spec by lia. by destruct (decide _).
Qed.

(** Strides of a freshly built four-dimensional tensor. *)
Lemma make_tensor_4 data dt a b c d :
  0 < a -> 0 < b -> 0 < c -> 0 < d ->
  dtype_size dt * a * b * c <= i64_max ->
  make_tensor data dt [a; b; c; d] =
    Ok (mkTensor data dt [a; b; c; d]
          [dtype_size dt; dtype_size dt * a; dtype_size dt * a * b; dtype_size dt * a * b * c]).
Proof.
  intros. pose proof (dtype_size_range dt). unfold make_tensor.
  rewrite normalize_shape_4 by done. cbn [mbind result_bind].
  unfold set_contiguous_strides. cbn [strides_from].
  rewrite checked_mul_i64_spec, decide_True by nia. cbn [mbind result_bind].
  rewrite checked_mul_i64_spec, decide_True by nia. cbn [mbind result_bind].
  rewrite checked_mul_i64_spec, decide_True by nia. done.
Qed.

Lemma bytes_4 t a b c d :
  t_ne t = [a; b; c; d] -> 0 < a -> 0 < b -> 0 < c -> 0 < d ->
  a * b * c * d <= i64_max -> dtype_size (t_dtype t) * (a * b * c * d) <= u64_max ->
  bytes t = Ok (dtype_size (t_dtype t) * (a * b * c * d)).
Proof.
  intros Hne ? ? ? ? Hi Hu. pose proof (dtype_size_range (t_dtype t)).
  unfold bytes, numel. rewrite Hne, shape_numel_4, decide_True by done.
  cbn [mbind result_bind].
  assert (0 < a * b * c * d) by (repeat apply Z.mul_pos_pos; done).
  rewrite (proj2 (Z.ltb_ge (a * b * c * d) 0)), (proj2 (Z.ltb_ge u64_max _)) by lia.
  rewrite (proj2 (Z.eqb_neq (dtype_size (t_dtype t)) 0)) by lia. cbn [orb negb andb].
  destruct (Z.ltb_spec (u64_max / dtype_size (t_dtype t)) (a * b * c * d)) as [Hlt|_].
  - exfalso. pose proof (Z.div_le_lower_bound u64_max (dtype_size (t_dtype t)) (a * b * c * d)). lia.
  - rewrite w64_small by nia. f_equal. lia.
Qed.

(** Every built tensor has four positive extents and row-major strides. *)
Record tensor_ok (t : Tensor) : Prop := {
  tok_shape : exists a b c d, t_ne t = [a; b; c; d] /\ 0 < a /\ 0 < b /\ 0 < c /\ 0 < d /\
    t_nb t = [dtype_size (t_dtype t); dtype_size (t_dtype t) * a;
              dtype_size (t_dtype t) * a * b; dtype_size (t_dtype t) * a * b * c] /\
    dtype_size (t_dtype t) * a * b * c <= i64_max;
}.

Lemma normalize_dims_Ok shape out i ne :
  normalize_dims shape out i = Ok ne ->
  (i + length shape <= length out)%nat -> Forall (fun n => 0 < n) out ->
  Forall (fun n => 0 < n) ne /\ length ne = length out.
Proof.
  revert out i. induction shape as [|n shape IH]; intros out i H Hlen Hall; cbn in H.
  - injection H as <-. done.
  - destruct (Z.leb_spec n 0); [discriminate|]. cbn in Hlen.
    apply IH in H as [? ?]; [|rewrite length_insert; lia|by apply Forall_insert].
    by rewrite length_insert in *.
Qed.

Lemma normalize_shape_Ok shape ne :
  normalize_shape shape = Ok ne ->
  exists a b c d, ne = [a; b; c; d] /\ 0 < a /\ 0 < b /\ 0 < c /\ 0 < d.
Proof.
  unfold normalize_shape. case_match eqn:Hr; [discriminate|]. intros H.
  apply orb_false_iff in Hr as [_ Hr]. apply Nat.ltb_ge in Hr.
  destruct (normalize_dims_Ok _ _ _ _ H) as [Hall Hlen]; [cbn; lia|repeat constructor|].
  destruct ne as [|a [|b [|c [|d [|]]]]]; try discriminate.
  repeat (apply Forall_cons in Hall as [? Hall]). by exists a, b, c, d.
Qed.

Lemma checked_mul_i64_Ok a b c :
  0 <= a -> 0 <= b -> checked_mul_i64 a b = Ok c -> c = a * b /\ a * b <= i64_max.
Proof.
  intros Ha Hb. rewrite checked_mul_i64_spec by done. case_decide; [|discriminate].
  intros [= <-]. done.
Qed.

Lemma make_tensor_Ok data dt shape t :
  make_tensor data dt shape = Ok t -> tensor_ok t /\ t_data t = data /\ t_dtype t = dt.
Proof.
  unfold make_tensor. rewrite bind_Ok. intros (ne & Hne & H). rewrite bind_Ok in H.
  destruct H as (nb & Hnb & [= <-]).
  destruct (normalize_shape_Ok _ _ Hne) as (a & b & c & d & -> & ? & ? & ? & ?).
  pose proof (dtype_size_range dt).
  unfold set_contiguous_strides in Hnb. cbn [strides_from] in Hnb.
  apply bind_Ok in Hnb as (s1 & Hm1 & Hnb). apply checked_mul_i64_Ok in Hm1 as [-> ?]; [|lia..].
  apply bind_Ok in Hnb as (r1 & Hnb & [= <-]).
  apply bind_Ok in Hnb as (s2 & Hm2 & Hnb). apply checked_mul_i64_Ok in Hm2 as [-> ?]; [|nia..].
  apply bind_Ok in Hnb as (r2 & Hnb & [= <-]).
  apply bind_Ok in Hnb as (s3 & Hm3 & [= <-]). apply checked_mul_i64_Ok in Hm3 as [-> ?]; [|nia..].
  split; [|done]. constructor. cbn. exists a, b, c, d. split_and!; done.
Qed.

Lemma bytes_Ok t n :
  tensor_ok t -> bytes t = Ok n ->
  exists a b c d, t_ne t = [a; b; c; d] /\ n = dtype_size (t_dtype t) * (a * b * c * d) /\
    0 < n <= u64_max /\ a * b * c * d <= i64_max.
Proof.
  intros [(a & b & c & d & Hne & ? & ? & ? & ? & _)] Hb. exists a, b, c, d. split; [done|].
  pose proof (dtype_size_range (t_dtype t)).
  assert (0 < a * b * c * d) by (repeat apply Z.mul_pos_pos; done).
  unfold bytes, numel in Hb. rewrite Hne, shape_numel_4 in Hb by done.
  destruct (decide (a * b * c * d <= i64_max)) as [Hle|]; [|discriminate]. cbn in Hb.
  case_match; [discriminate|]. case_match eqn:Hsz; [discriminate|].
  injection Hb as <-.
  rewrite (proj2 (Z.eqb_neq (dtype_size (t_dtype t)) 0)) in Hsz by lia. cbn in Hsz.
  apply Z.ltb_ge in Hsz.
  pose proof (Z.mul_div_le u64_max (dtype_size (t_dtype t)) ltac:(lia)).
  rewrite w64_small by nia. split_and!; [lia|nia|nia|done].
Qed.
