(* ===== verification/Layout.v ===== *)
(** * Layout planning and workspace arenas (core/layout.cpp, core/arena.cu)

    [LayoutBuilder] hands out aligned, non-overlapping regions of a backing allocation that is
    created later; [WorkspaceLayoutBuilder] is the dry run of [DeviceArena].  A [Scope] saves the
    cursor and its destructor restores it. *)

From S2P Require Import Prelude Tensor.

(** A device pointer and the size behind it; [None] is [nullptr]. *)
Record DeviceSpan := mkSpan { sp_data : option Z; sp_bytes : Z }.

Record LayoutRegion := mkRegion { r_offset : Z; r_bytes : Z; r_alignment : Z }.

Record TensorRegion := mkTensorRegion {
  tr_region : LayoutRegion;
  tr_dtype : DType;
  tr_shape : list Z;
}.

Definition region_end (r : LayoutRegion) : Z := r_offset r + r_bytes r.

(** [LayoutRegion::bind] *)
Definition region_bind (r : LayoutRegion) (backing : DeviceSpan) : result DeviceSpan :=
  match sp_data backing with
  | None => Throw InvalidArgument
  | Some base =>
      _ ← throw_if (negb (is_power_of_two (r_alignment r))) LogicError;
      _ ← throw_if (negb (w64 (base + r_offset r) mod r_alignment r =? 0)) InvalidArgument;
      _ ← throw_if ((sp_bytes backing <? r_offset r) ||
                    (w64 (sp_bytes backing - r_offset r) <? r_bytes r)) OutOfRange;
      Ok (mkSpan (Some (base + r_offset r)) (r_bytes r))
  end.

(** [TensorRegion::bind] *)
Definition tensor_region_bind (r : TensorRegion) (backing : DeviceSpan) : result Tensor :=
  expected ← make_tensor None (tr_dtype r) (tr_shape r);
  n ← bytes expected;
  _ ← throw_if (negb (n =? r_bytes (tr_region r))) LogicError;
  span ← region_bind (tr_region r) backing;
  make_tensor (sp_data span) (tr_dtype r) (tr_shape r).

(** The state of [LayoutBuilder] and of [WorkspaceLayoutBuilder]. *)
Record Builder := mkBuilder { cursor : Z; peak : Z }.

Definition builder_init : Builder := mkBuilder 0 0.

(** A scope object: [sc_armed] is [builder_ != nullptr]. *)
Record Scope := mkScope { sc_armed : bool; sc_saved : Z }.

Definition open_scope (b : Builder) : Scope := mkScope true (cursor b).
Definition close_scope (s : Scope) (b : Builder) : Builder :=
  if sc_armed s then mkBuilder (sc_saved s) (peak b) else b.
(** The move constructor: the new scope, and the disarmed source. *)
Definition move_scope (s : Scope) : Scope * Scope := (s, mkScope false (sc_saved s)).

Definition advance (c : Z) : M Builder unit :=
  mmodify (fun b => mkBuilder c (if peak b <? c then c else peak b)).

(** [LayoutBuilder::add] *)
Definition add (n alignment : Z) : M Builder LayoutRegion :=
  _ ← mthrow_if (n =? 0) InvalidArgument;
  b ← mget;
  offset ← mlift (align_up (cursor b) alignment);
  c ← mlift (checked_add offset n);
  _ ← advance c;
  mret (mkRegion offset n alignment).

(** [std::copy] of the shape over the default [{1, 1, 1, 1}]. *)
Definition copy_shape (shape : list Z) : list Z := shape ++ drop (length shape) [1; 1; 1; 1].

(** [LayoutBuilder::add_tensor] *)
Definition add_tensor (dtype : DType) (shape : list Z) (alignment : Z) : M Builder TensorRegion :=
  tensor ← mlift (make_tensor None dtype shape);
  n ← mlift (bytes tensor);
  region ← add n alignment;
  mret (mkTensorRegion region dtype (copy_shape shape)).

(** [LayoutBuilder::finish] and [WorkspaceLayoutBuilder::peak_bytes] *)
Definition finish (b : Builder) (alignment : Z) : result Z := align_up (peak b) alignment.
Definition peak_bytes (b : Builder) (alignment : Z) : result Z := align_up (peak b) alignment.

(** [WorkspaceLayoutBuilder::alloc_bytes]: the cursor is already aligned when the size overflows. *)
Definition ws_alloc_bytes (n alignment : Z) : M Builder DeviceSpan :=
  if n =? 0 then mret (mkSpan None 0)
  else
    b ← mget;
    c ← mlift (align_up (cursor b) alignment);
    _ ← mmodify (fun b => mkBuilder c (peak b));
    c ← mlift (checked_add c n);
    _ ← advance c;
    mret (mkSpan None n).

(** [WorkspaceLayoutBuilder::alloc] *)
Definition ws_alloc (dtype : DType) (shape : list Z) (alignment : Z) : M Builder Tensor :=
  tensor ← mlift (make_tensor None dtype shape);
  b ← mget;
  c ← mlift (align_up (cursor b) alignment);
  _ ← mmodify (fun b => mkBuilder c (peak b));
  n ← mlift (bytes tensor);
  c ← mlift (checked_add c n);
  _ ← advance c;
  mret tensor.

(** ** The real arena *)

Record DeviceArena := mkArena { a_base : option Z; a_cap : Z; a_off : Z; a_peak : Z }.

(** The borrowed-storage constructor. *)
Definition arena_borrow (storage : DeviceSpan) : result DeviceArena :=
  _ ← throw_if (bool_decide (sp_data storage = None) || (sp_bytes storage =? 0)) InvalidArgument;
  Ok (mkArena (sp_data storage) (sp_bytes storage) 0 0).

Definition align_up_addr (addr align : Z) : result Z :=
  let mask := align - 1 in
  with_mask ← checked_add addr mask;
  Ok (Z.land with_mask (lnot64 mask)).

(** [DeviceArena::alloc_bytes] *)
Definition arena_alloc_bytes (n align : Z) : M DeviceArena DeviceSpan :=
  a ← mget;
  match a_base a with
  | None => mthrow RuntimeError
  | Some base =>
      _ ← mthrow_if (negb (is_power_of_two align)) InvalidArgument;
      _ ← mthrow_if (n =? 0) InvalidArgument;
      current_addr ← mlift (checked_add base (a_off a));
      aligned_addr ← mlift (align_up_addr current_addr align);
      let aligned_offset := w64 (aligned_addr - base) in
      _ ← mthrow_if (u64_max - aligned_offset <? n) OverflowError;
      let e := w64 (aligned_offset + n) in
      _ ← mthrow_if (a_cap a <? e) BadAlloc;
      _ ← mput (mkArena (a_base a) (a_cap a) e (if a_peak a <? e then e else a_peak a));
      mret (mkSpan (Some (base + aligned_offset)) n)
  end.

(** [DeviceArena::alloc] *)
Definition arena_alloc (dtype : DType) (shape : list Z) (align : Z) : M DeviceArena Tensor :=
  v ← mlift (make_tensor None dtype shape);
  n ← mlift (bytes v);
  storage ← arena_alloc_bytes n align;
  mlift (make_tensor (sp_data storage) dtype shape).

Definition arena_open_scope (a : DeviceArena) : Scope := mkScope true (a_off a).
Definition arena_close_scope (s : Scope) (a : DeviceArena) : DeviceArena :=
  if sc_armed s && (sc_saved s <=? a_off a)
  then mkArena (a_base a) (a_cap a) (sc_saved s) (a_peak a) else a.
Definition arena_reset (a : DeviceArena) : DeviceArena :=
  mkArena (a_base a) (a_cap a) 0 (a_peak a).
Definition arena_reset_peak (a : DeviceArena) : DeviceArena :=
  mkArena (a_base a) (a_cap a) (a_off a) (a_off a).

(** ** Facts about single operations *)

Definition builder_ok (b : Builder) : Prop := 0 <= cursor b <= peak b /\ peak b <= u64_max.

Definition region_ok (r : LayoutRegion) : Prop :=
  0 <= r_offset r /\ 0 < r_bytes r /\ region_end r <= u64_max /\
  is_power_of_two (r_alignment r) = true /\ 0 < r_alignment r /\ (r_alignment r | r_offset r).

Lemma builder_init_ok : builder_ok builder_init.
Proof. unfold builder_ok. cbn. lia. Qed.

Lemma is_power_of_two_pos a : 0 <= a -> is_power_of_two a = true -> 0 < a.
Proof.
  intros Ha (k & Hk & ->)%is_power_of_two_spec; [|done]. by apply Z.pow_pos_nonneg.
Qed.

(** [add] either leaves the builder as it was and throws, or returns an aligned region that begins
    at or after the cursor and moves the cursor to its end. *)
Lemma add_cases n al b :
  builder_ok b -> 0 <= n <= u64_max -> 0 <= al <= u64_max ->
  match add n al b with
  | (b', Ok r) =>
      region_ok r /\ cursor b <= r_offset r /\ r_bytes r = n /\ r_alignment r = al /\
      r_offset r < cursor b + al /\ b' = mkBuilder (region_end r) (Z.max (peak b) (region_end r))
  | (b', Throw _) => b' = b
  end.
Proof.
  intros [Hc Hp] Hn Hal. unfold add, advance. unfold_M.
  destruct (Z.eqb_spec n 0) as [->|Hn0]; [done|].
  destruct (align_up (cursor b) al) as [off|e] eqn:Ea; [|done].
  apply align_up_Ok in Ea as (Hpow & Hoff & Hmax & Hdiv); [|lia..].
  rewrite checked_add_spec by lia. destruct (decide (off + n <= u64_max)); [|done].
  unfold region_ok, region_end. cbn.
  pose proof (is_power_of_two_pos al ltac:(lia) Hpow).
  split_and!; try done; try lia. f_equal. case_match eqn:E; lia.
Qed.

Lemma ws_alloc_bytes_cases n al b :
  builder_ok b -> 0 <= n <= u64_max -> 0 <= al <= u64_max ->
  match ws_alloc_bytes n al b with
  | (b', Ok _) =>
      if n =? 0 then b' = b
      else is_power_of_two al = true /\ 0 < al /\ exists off,
             cursor b <= off < cursor b + al /\ (al | off) /\ off + n <= u64_max /\
             align_up (cursor b) al = Ok off /\
             b' = mkBuilder (off + n) (Z.max (peak b) (off + n))
  | (b', Throw _) => cursor b <= cursor b' <= u64_max /\ peak b' = peak b
  end.
Proof.
  intros [Hc Hp] Hn Hal. unfold ws_alloc_bytes, advance. unfold_M.
  destruct (Z.eqb_spec n 0) as [->|Hn0]; [done|].
  destruct (align_up (cursor b) al) as [off|e] eqn:Ea; cbn; [|lia].
  pose proof (align_up_Ok (cursor b) al off ltac:(lia) ltac:(lia) Ea) as (Hpow & Hoff & Hmax & Hdiv).
  rewrite checked_add_spec by lia. destruct (decide (off + n <= u64_max)); cbn; [|lia].
  split; [done|]. split; [apply is_power_of_two_pos; [lia|done]|].
  exists off. split_and!; try done; try lia. f_equal. case_match eqn:E; lia.
Qed.

(** A region binds to any backing allocation that is aligned and large enough. *)
Lemma region_bind_Ok r base size :
  region_ok r -> 0 <= base -> base + size <= u64_max -> (r_alignment r | base) ->
  region_end r <= size ->
  region_bind r (mkSpan (Some base) size) = Ok (mkSpan (Some (base + r_offset r)) (r_bytes r)).
Proof.
  intros (Ho & Hb & He & Hpow & Hal & Hdiv) Hbase Htop Hba Hsize.
  unfold region_bind, region_end in *. cbn [sp_data sp_bytes]. rewrite Hpow. cbn.
  rewrite (w64_small (base + r_offset r)) by lia.
  assert ((base + r_offset r) mod r_alignment r = 0) as ->.
  { apply Z.mod_divide; [lia|]. by apply Z.divide_add_r. }
  cbn.
  rewrite (proj2 (Z.ltb_ge size (r_offset r))) by lia.
  rewrite w64_small by lia. rewrite (proj2 (Z.ltb_ge _ (r_bytes r))) by lia. done.
Qed.

(** ** Sessions of a layout builder

    The operations interleave: regions are added, scopes open and close in LIFO order. [ls_live]
    holds the regions whose scope is still open, newest first, [ls_all] every region ever handed
    out; each open scope remembers the regions live when it opened. *)

Record Session := mkSession {
  ls_builder : Builder;
  ls_live : list LayoutRegion;
  ls_scopes : list (Scope * list LayoutRegion);
  ls_all : list LayoutRegion;
}.

Definition session_init : Session := mkSession builder_init [] [] [].

Inductive session_step : Session -> Session -> Prop :=
  | step_add b live scopes all n al b' r :
      0 <= n <= u64_max -> 0 <= al <= u64_max -> add n al b = (b', Ok r) ->
      session_step (mkSession b live scopes all) (mkSession b' (r :: live) scopes (r :: all))
  | step_throw b live scopes all n al b' e :
      0 <= n <= u64_max -> 0 <= al <= u64_max -> add n al b = (b', Throw e) ->
      session_step (mkSession b live scopes all) (mkSession b' live scopes all)
  | step_open b live scopes all :
      session_step (mkSession b live scopes all)
        (mkSession b live ((open_scope b, live) :: scopes) all)
  | step_close b live s saved scopes all :
      session_step (mkSession b live ((s, saved) :: scopes) all)
        (mkSession (close_scope s b) saved scopes all).

(** Regions stacked below a bound, newest first. *)
Fixpoint stacked (c : Z) (l : list LayoutRegion) : Prop :=
  match l with
  | [] => 0 <= c
  | r :: l => region_end r <= c /\ region_ok r /\ stacked (r_offset r) l
  end.

Record session_ok (s : Session) : Prop := {
  so_builder : builder_ok (ls_builder s);
  so_live : stacked (cursor (ls_builder s)) (ls_live s);
  so_scopes : Forall (fun '(sc, saved) =>
      sc_armed sc = true /\ stacked (sc_saved sc) saved /\ sc_saved sc <= peak (ls_builder s))
    (ls_scopes s);
  so_all : Forall (fun r => region_ok r /\ region_end r <= peak (ls_builder s)) (ls_all s);
}.

Lemma stacked_weaken c c' l : c <= c' -> stacked c l -> stacked c' l.
Proof. destruct l; cbn; [lia|]. intros ? (? & ? & ?). split_and!; [lia|done..]. Qed.

Lemma stacked_nonneg c l : stacked c l -> 0 <= c.
Proof.
  destruct l; cbn; [done|]. intros (? & (? & ? & ? & _) & _). unfold region_end in *. lia.
Qed.

Lemma stacked_below c l i r : stacked c l -> l !! i = Some r -> region_ok r /\ region_end r <= c.
Proof.
  revert c i. induction l as [|a l IH]; intros c [|i] H Hi; try discriminate; destruct H as (He & Ha & H).
  - injection Hi as ->. done.
  - destruct (IH _ _ H Hi) as [? ?]. split; [done|]. destruct Ha as (? & ? & ? & _).
    unfold region_end in *. lia.
Qed.

Definition regions_disjoint (r1 r2 : LayoutRegion) : Prop :=
  region_end r1 <= r_offset r2 \/ region_end r2 <= r_offset r1.

Lemma stacked_disjoint c l i j r1 r2 :
  stacked c l -> i <> j -> l !! i = Some r1 -> l !! j = Some r2 -> regions_disjoint r1 r2.
Proof.
  revert c i j. induction l as [|a l IH]; intros c [|i] [|j] H Hne H1 H2;
    try discriminate; try done; destruct H as (He & Ha & H).
  - injection H1 as ->. right. by eapply stacked_below.
  - injection H2 as ->. left. by eapply stacked_below.
  - eapply (IH _ i j); [exact H|congruence|done..].
Qed.

Lemma session_init_ok : session_ok session_init.
Proof. split; cbn; [apply builder_init_ok|lia|constructor..]. Qed.

Lemma session_step_ok s s' : session_ok s -> session_step s s' -> session_ok s'.
Proof.
  intros [Hb Hl Hs Ha] Hstep. destruct Hstep as
    [b live scopes all n al b' r Hn Hal E|b live scopes all n al b' e Hn Hal E
    |b live scopes all|b live sc saved scopes all]; cbn in *.
  - pose proof (add_cases n al b Hb Hn Hal) as Hc. rewrite E in Hc.
    destruct Hc as (Hr & Hlo & _ & _ & _ & ->).
    destruct Hb as [? ?]. pose proof Hr as (? & ? & ? & _).
    split; cbn.
    + unfold builder_ok. cbn. unfold region_end in *. lia.
    + split_and!; [lia|done|]. by apply (stacked_weaken (cursor b)).
    + eapply Forall_impl; [exact Hs|]. intros [] (? & ? & ?). split_and!; [done..|]. lia.
    + constructor; [split; [done|lia]|]. eapply Forall_impl; [exact Ha|]. intros ? [? ?].
      split; [done|]. lia.
  - pose proof (add_cases n al b Hb Hn Hal) as Hc. rewrite E in Hc. subst b'. by split.
  - split; cbn; [done..| |done]. constructor; [|done]. destruct Hb. cbn. split_and!; [done..|lia].
  - apply Forall_cons in Hs as [(Harm & Hst & Hpk) Hs]. unfold close_scope. rewrite Harm.
    destruct Hb. split; cbn; [|done..]. unfold builder_ok. cbn.
    pose proof (stacked_nonneg _ _ Hst). lia.
Qed.

Lemma session_reachable_ok s : rtc session_step session_init s -> session_ok s.
Proof.
  intros Hr. pose proof session_init_ok as Hok. revert Hok.
  induction Hr; eauto using session_step_ok.
Qed.

(** C21: in every reachable session of a layout builder the regions whose scopes are still open are
    pairwise disjoint, and any backing allocation that has the finished size and satisfies a
    region's alignment binds that region - every region ever handed out - at its planned offset. *)
Theorem layout_session_sound s :
  rtc session_step session_init s ->
  (forall i j ri rj, i <> j -> ls_live s !! i = Some ri -> ls_live s !! j = Some rj ->
     regions_disjoint ri rj) /\
  (forall al size base k r, 0 <= al <= u64_max -> finish (ls_builder s) al = Ok size ->
     0 <= base -> base + size <= u64_max -> ls_all s !! k = Some r -> (r_alignment r | base) ->
     region_bind r (mkSpan (Some base) size) = Ok (mkSpan (Some (base + r_offset r)) (r_bytes r))).
Proof.
  intros Hr. destruct (session_reachable_ok _ Hr) as [[Hc Hp] Hl _ Ha].
  split; [intros; by eapply stacked_disjoint|].
  intros al size base k r Hal Hfin Hbase Htop Hk Hdiv.
  destruct (proj1 (Forall_lookup _ _) Ha _ _ Hk) as [Hok Hpeak].
  apply align_up_Ok in Hfin as (_ & Hsize & _); [|lia..].
  apply region_bind_Ok; [done..|]. lia.
Qed.

Lemma layout_session_sound_witness :
  region_bind (mkRegion 256 10 256) (mkSpan (Some 4096) 512) = Ok (mkSpan (Some 4352) 10).
Proof.
  assert (rtc session_step session_init
            (mkSession (mkBuilder 266 266) [mkRegion 256 10 256; mkRegion 0 100 1] []
               [mkRegion 256 10 256; mkRegion 0 100 1])) as Hr.
  { eapply rtc_l; [apply (step_add builder_init [] [] [] 100 1); [lia|lia|reflexivity]|].
    eapply rtc_l; [apply (step_add (mkBuilder 100 100) _ [] _ 10 256); [lia|lia|reflexivity]|].
    reflexivity. }
  apply (proj2 (layout_session_sound _ Hr) 256 512 4096 0%nat);
    [lia|reflexivity|lia|lia|reflexivity|]. exists 16. reflexivity.
Defined.

(** ** The dry run predicts the arena

    One sequence of allocations and scopes drives both: [WsAlloc] is a call of [alloc_bytes],
    [WsOpen] constructs a scope, [WsClose] destroys the innermost one. *)

Inductive WsOp := WsAlloc (n alignment : Z) | WsOpen | WsClose.

Fixpoint ws_run (ops : list WsOp) (scopes : list Scope) : M Builder (list Scope) := fun b =>
  match ops with
  | [] => (b, Ok scopes)
  | WsAlloc n al :: ops =>
      match ws_alloc_bytes n al b with
      | (b, Ok _) => ws_run ops scopes b
      | (b, Throw e) => (b, Throw e)
      end
  | WsOpen :: ops => ws_run ops (open_scope b :: scopes) b
  | WsClose :: ops =>
      match scopes with
      | s :: scopes => ws_run ops scopes (close_scope s b)
      | [] => ws_run ops [] b
      end
  end.

Fixpoint arena_run (ops : list WsOp) (scopes : list Scope) : M DeviceArena (list Scope) := fun a =>
  match ops with
  | [] => (a, Ok scopes)
  | WsAlloc n al :: ops =>
      match arena_alloc_bytes n al a with
      | (a, Ok _) => arena_run ops scopes a
      | (a, Throw e) => (a, Throw e)
      end
  | WsOpen :: ops => arena_run ops (arena_open_scope a :: scopes) a
  | WsClose :: ops =>
      match scopes with
      | s :: scopes => arena_run ops scopes (arena_close_scope s a)
      | [] => arena_run ops [] a
      end
  end.

(** The sizes and alignments a run uses: non-empty allocations, alignments the base satisfies,
    and an address space that the rounding of an address cannot leave. *)
Definition ws_op_ok (base cap : Z) (op : WsOp) : Prop :=
  match op with
  | WsAlloc n al => 0 < n <= u64_max /\ 0 <= al <= u64_max /\ (al | base) /\ base + cap + al <= u64_max
  | _ => True
  end.

(** Scopes saved in LIFO order below the cursor. *)
Fixpoint scopes_below (c : Z) (scopes : list Scope) : Prop :=
  match scopes with
  | [] => 0 <= c
  | s :: scopes => sc_armed s = true /\ sc_saved s <= c /\ scopes_below (sc_saved s) scopes
  end.

Lemma scopes_below_weaken c c' l : c <= c' -> scopes_below c l -> scopes_below c' l.
Proof. destruct l; cbn; [lia|]. intros ? (? & ? & ?). split_and!; [done|lia|done]. Qed.

Lemma scopes_below_nonneg c l : scopes_below c l -> 0 <= c.
Proof.
  revert c. induction l as [|s l IH]; intros c; cbn; [done|]. intros (_ & ? & H).
  specialize (IH _ H). lia.
Qed.

Lemma ws_run_peak ops scopes b b' r :
  builder_ok b -> scopes_below (cursor b) scopes ->
  Forall (fun op => match op with WsAlloc n al => 0 <= n <= u64_max /\ 0 <= al <= u64_max | _ => True end) ops ->
  ws_run ops scopes b = (b', Ok r) -> peak b <= peak b'.
Proof.
  revert scopes b. induction ops as [|[n al| |] ops IH]; intros scopes b Hb Hs Hops H; cbn in H.
  - injection H as <- _. lia.
  - apply Forall_cons in Hops as [[Hn Hal] Hops].
    pose proof (ws_alloc_bytes_cases n al b Hb Hn Hal) as Hc.
    destruct (ws_alloc_bytes n al b) as [b1 [sp|e]]; [|discriminate].
    destruct Hb as [? ?]. destruct (Z.eqb_spec n 0) as [->|].
    + subst b1. eapply IH; [by split|done..].
    + destruct Hc as (_ & _ & off & ? & _ & ? & _ & ->).
      enough (Z.max (peak b) (off + n) <= peak b') by lia.
      apply (IH scopes (mkBuilder (off + n) (Z.max (peak b) (off + n)))); [|cbn|done|done].
      * unfold builder_ok. cbn. lia.
      * apply (scopes_below_weaken (cursor b)); [lia|done].
  - apply Forall_cons in Hops as [_ Hops]. eapply IH; [done| |done|done].
    cbn. split_and!; [done|lia|done].
  - apply Forall_cons in Hops as [_ Hops]. destruct scopes as [|s scopes]; [by eapply IH|].
    destruct Hs as (Harm & Hle & Hs). pose proof (scopes_below_nonneg _ _ Hs). destruct Hb.
    unfold close_scope in H. rewrite Harm in H.
    eapply (IH scopes (mkBuilder (sc_saved s) (peak b))); [unfold builder_ok; cbn; lia|done..].
Qed.

Lemma arena_alloc_sim n al b base cap sp b' :
  builder_ok b -> ws_op_ok base cap (WsAlloc n al) -> 0 <= base -> 
  ws_alloc_bytes n al b = (b', Ok sp) -> peak b' <= cap ->
  exists sp', arena_alloc_bytes n al (mkArena (Some base) cap (cursor b) (peak b)) =
    (mkArena (Some base) cap (cursor b') (peak b'), Ok sp').
Proof.
  intros Hb (Hn & Hal & Hdiv & Htop) Hbase E Hcap.
  pose proof (ws_alloc_bytes_cases n al b Hb ltac:(lia) Hal) as Hc. rewrite E in Hc.
  rewrite (proj2 (Z.eqb_neq n 0)) in Hc by lia.
  destruct Hc as (Hpow & Hpos & off & Hoff & Hod & Hend & Hup & ->). destruct Hb as [? ?].
  cbn [cursor peak] in *.
  assert (align_up_addr (base + cursor b) al = Ok (base + off)) as Haddr.
  { unfold align_up_addr, align_up in *. rewrite Hpow in Hup. cbn [negb] in Hup.
    rewrite checked_add_spec in * by lia. unfold_M.
    destruct (decide (cursor b + (al - 1) <= u64_max)); [|discriminate].
    rewrite decide_True by lia. f_equal.
    apply is_power_of_two_spec in Hpow as (k & Hk & ->); [|lia].
    rewrite land_lnot64_ones in * by lia. injection Hup as <-. destruct Hdiv as [q ->].
    replace (q * 2 ^ k + cursor b + (2 ^ k - 1)) with (cursor b + (2 ^ k - 1) + q * 2 ^ k) by lia.
    rewrite Z.mod_add by lia. lia. }
  unfold arena_alloc_bytes. unfold_M. cbn [a_base a_off a_cap a_peak].
  rewrite Hpow. cbn [negb]. rewrite (proj2 (Z.eqb_neq n 0)) by lia.
  rewrite checked_add_spec, decide_True by lia. rewrite Haddr.
  replace (base + off - base) with off by lia. rewrite (w64_small off) by lia.
  rewrite (proj2 (Z.ltb_ge _ n)) by lia. rewrite (w64_small (off + n)) by lia.
  rewrite (proj2 (Z.ltb_ge cap _)) by lia. eexists. f_equal. f_equal.
  case_match eqn:Elt; lia.
Qed.

Lemma dry_run_sim ops sc b0 base cap b scopes :
  0 <= base -> builder_ok b0 -> scopes_below (cursor b0) sc -> Forall (ws_op_ok base cap) ops ->
  ws_run ops sc b0 = (b, Ok scopes) -> peak b <= cap ->
  arena_run ops sc (mkArena (Some base) cap (cursor b0) (peak b0)) =
    (mkArena (Some base) cap (cursor b) (peak b), Ok scopes).
Proof.
  intros Hbase. revert sc b0.
  induction ops as [|[n al| |] ops IH]; intros sc b0 Hb Hs Hops H Hcap; cbn in H; cbn [arena_run].
  - by injection H as <- <-.
  - apply Forall_cons in Hops as [Hop Hops].
    destruct (ws_alloc_bytes n al b0) as [b1 [sp|e]] eqn:E; [|discriminate].
    pose proof Hop as (Hn & Hal & _).
    pose proof (ws_alloc_bytes_cases n al b0 Hb ltac:(lia) Hal) as Hc. rewrite E in Hc.
    rewrite (proj2 (Z.eqb_neq n 0)) in Hc by lia.
    destruct Hc as (_ & _ & off & ? & _ & ? & _ & Hb1).
    assert (builder_ok b1) as Hb1ok by (subst b1; destruct Hb; unfold builder_ok; cbn; lia).
    assert (scopes_below (cursor b1) sc) as Hs1
      by (subst b1; apply (scopes_below_weaken (cursor b0)); [cbn; lia|done]).
    destruct (arena_alloc_sim n al b0 base cap sp b1) as [sp' ->]; [done..| |by apply IH].
    etrans; [|exact Hcap]. eapply (ws_run_peak ops sc); [done..| |exact H].
    eapply Forall_impl; [exact Hops|]. intros [| |]; cbn; intuition lia.
  - apply Forall_cons in Hops as [_ Hops]. by apply IH.
  - apply Forall_cons in Hops as [_ Hops]. destruct sc as [|s sc]; [by apply IH|].
    destruct Hs as (Harm & Hle & Hs). pose proof (scopes_below_nonneg _ _ Hs).
    unfold close_scope in H. unfold arena_close_scope. rewrite Harm in *. cbn [a_off andb].
    rewrite (proj2 (Z.leb_le _ _)) by done.
    apply (IH sc (mkBuilder (sc_saved s) (peak b0))); try done.
    destruct Hb. unfold builder_ok. cbn. lia.
Qed.

(** C22: a sequence of non-empty allocations and nested scopes that succeeds on the dry-run builder
    succeeds on a real arena over any suitably aligned storage that holds the predicted peak, and
    the arena ends with exactly the predicted offset and peak. *)
Theorem dry_run_predicts_arena ops base cap b scopes :
  0 <= base -> Forall (ws_op_ok base cap) ops ->
  ws_run ops [] builder_init = (b, Ok scopes) -> peak b <= cap ->
  arena_run ops [] (mkArena (Some base) cap 0 0) =
    (mkArena (Some base) cap (cursor b) (peak b), Ok scopes).
Proof.
  intros Hbase Hops Hrun Hcap.
  by apply (dry_run_sim ops [] builder_init).
Qed.

Lemma dry_run_predicts_arena_witness :
  arena_run [WsAlloc 100 256; WsOpen; WsAlloc 10 64; WsClose; WsAlloc 5 128] []
    (mkArena (Some 4096) 512 0 0) = (mkArena (Some 4096) 512 133 138, Ok []).
Proof.
  apply (dry_run_predicts_arena _ 4096 512 (mkBuilder 133 138)); [lia| |reflexivity|cbn; lia].
  repeat constructor; try lia;
    [by exists 16|by exists 64|by exists 32].
Defined.

(** A zero-byte request is where the two differ: the dry run returns an empty span, the arena
    throws. *)
Lemma zero_byte_request_diverges :
  ws_alloc_bytes 0 256 builder_init = (builder_init, Ok (mkSpan None 0)) /\
  arena_alloc_bytes 0 256 (mkArena (Some 4096) 512 0 0) =
    (mkArena (Some 4096) 512 0 0, Throw InvalidArgument).
Proof. split; reflexivity. Qed.
