(* ===== verification/KVGeometry.v ===== *)
(** * KV page geometry (core/paged_kv_storage.h, core/paged_kv_cache.h, core/host_kv_arena.cpp)

    The storage schemes of the paged KV cache, the planes of one page, the packed host record of a
    page ([plan_host_kv_page_layout]) and the amount of transfer work it costs. *)

From S2P Require Import Prelude Tensor.

(** ** Storage schemes *)

Inductive KvCacheStorage :=
  | BFloat16 | Int8Group64 | Fp8E4M3Row256 | Nvfp4Group16 | Fp8KeyNvfp4Value.

#[export] Instance KvCacheStorage_eq_dec : EqDecision KvCacheStorage.
Proof. solve_decision. Defined.

Definition kD256KVCacheHeadDim : Z := 256.

Record PagedKVVectorLayout := mkVectorLayout {
  data_dtype : DType;
  data_leading_extent : Z;
  scale_dtype : DType;
  scale_leading_extent : Z;
}.

Definition has_scale (v : PagedKVVectorLayout) : bool := negb (scale_leading_extent v =? 0).

Definition physical_bytes (v : PagedKVVectorLayout) : Z :=
  w64 (w64 (data_leading_extent v * dtype_size (data_dtype v)) +
       w64 (scale_leading_extent v * dtype_size (scale_dtype v))).

Record PagedKVStorageLayout := mkStorageLayout {
  storage : KvCacheStorage;
  head_dim : Z;
  key : PagedKVVectorLayout;
  value : PagedKVVectorLayout;
}.

Definition planes_per_layer (l : PagedKVStorageLayout) : Z :=
  2 + Z.b2z (has_scale (key l)) + Z.b2z (has_scale (value l)).
Definition logical_vector_bytes (l : PagedKVStorageLayout) : Z := w64 (head_dim l * 2).
Definition logical_bytes_per_token_head (l : PagedKVStorageLayout) : Z :=
  w64 (2 * logical_vector_bytes l).
Definition physical_bytes_per_token_head (l : PagedKVStorageLayout) : Z :=
  w64 (physical_bytes (key l) + physical_bytes (value l)).

Definition paged_kv_storage_layout (s : KvCacheStorage) (dim : Z) : result PagedKVStorageLayout :=
  if dim <=? 0 then Throw InvalidArgument
  else
    let symmetric v := Ok (mkStorageLayout s dim v v) in
    match s with
    | BFloat16 =>
        Ok (mkStorageLayout s dim (mkVectorLayout BF16 dim U8 0) (mkVectorLayout FP16 dim U8 0))
    | Int8Group64 =>
        if dim =? kD256KVCacheHeadDim then symmetric (mkVectorLayout I8 256 FP16 4)
        else Throw InvalidArgument
    | Fp8E4M3Row256 =>
        if dim =? kD256KVCacheHeadDim then symmetric (mkVectorLayout FP8_E4M3FN 256 FP16 1)
        else Throw InvalidArgument
    | Nvfp4Group16 =>
        if dim =? kD256KVCacheHeadDim then symmetric (mkVectorLayout U8 128 U8 16)
        else Throw InvalidArgument
    | Fp8KeyNvfp4Value =>
        if dim =? kD256KVCacheHeadDim
        then Ok (mkStorageLayout s dim (mkVectorLayout FP8_E4M3FN 256 FP16 1)
                   (mkVectorLayout U8 128 U8 16))
        else Throw InvalidArgument
    end.

(** Every supported storage takes between one quarter and all of the logical 16-bit bytes of a
    token head, has two to four planes, and a scheme is rejected exactly when it needs the
    256-wide head and does not have it. *)
Lemma storage_layout_bounds s dim :
  dim <= i32_max ->
  match paged_kv_storage_layout s dim with
  | Ok l =>
      0 < dim /\ (s = BFloat16 \/ dim = 256) /\ 2 <= planes_per_layer l <= 4 /\
      logical_bytes_per_token_head l <= 4 * physical_bytes_per_token_head l /\
      physical_bytes_per_token_head l <= logical_bytes_per_token_head l
  | Throw e => e = InvalidArgument /\ (dim <= 0 \/ (s <> BFloat16 /\ dim <> 256))
  end.
Proof.
  intros Hmax. unfold paged_kv_storage_layout, kD256KVCacheHeadDim.
  destruct (Z.leb_spec dim 0); [by auto|].
  destruct s; cbn; [|destruct (Z.eqb_spec dim 256) as [->|]; [|by auto]..].
  - unfold planes_per_layer, physical_bytes_per_token_head, logical_bytes_per_token_head,
      logical_vector_bytes, physical_bytes, has_scale. cbn. unwrap. split_and!; auto; lia.
  - vm_compute. intuition (auto; discriminate).
  - vm_compute. intuition (auto; discriminate).
  - vm_compute. intuition (auto; discriminate).
  - vm_compute. intuition (auto; discriminate).
Qed.

(** ** Planes and pages *)

Record KVPlaneGeometry := mkPlane {
  dtype : DType;
  leading_extent : Z;
  head_extent : Z;
  alignment : Z;
}.

#[export] Instance KVPlaneGeometry_eq_dec : EqDecision KVPlaneGeometry.
Proof. solve_decision. Defined.

Inductive PagedKVPlaneOrder := PageMajor | HeadMajor.

#[export] Instance PagedKVPlaneOrder_eq_dec : EqDecision PagedKVPlaneOrder.
Proof. solve_decision. Defined.

Record KVPageGeometry := mkGeometry {
  page_tokens : Z;
  device_plane_order : PagedKVPlaneOrder;
  planes : list KVPlaneGeometry;
}.

#[export] Instance KVPageGeometry_eq_dec : EqDecision KVPageGeometry.
Proof. solve_decision. Defined.

Record HostKVPlaneLayout := mkHostPlane {
  hp_offset : Z;
  page_payload_bytes : Z;
  head_payload_bytes : Z;
}.

#[export] Instance HostKVPlaneLayout_eq_dec : EqDecision HostKVPlaneLayout.
Proof. solve_decision. Defined.

Record HostKVPageLayout := mkHostLayout {
  geometry : KVPageGeometry;
  host_planes : list HostKVPlaneLayout;
  page_stride : Z;
}.

#[export] Instance HostKVPageLayout_eq_dec : EqDecision HostKVPageLayout.
Proof. solve_decision. Defined.

Definition kHostKVAlignment : Z := 256.

(** [align_up] of host_kv_arena.cpp. *)
Definition host_align_up (v al : Z) : result Z :=
  if (al =? 0) || negb (Z.land al (al - 1) =? 0) then Throw InvalidArgument
  else
    let mask := al - 1 in
    if u64_max - mask <? v then Throw OverflowError
    else Ok (Z.land (w64 (v + mask)) (lnot64 mask)).

(** One iteration of the plane loop: the plane's record and the advanced cursor. *)
Definition plan_host_plane (page_tokens cursor : Z) (plane : KVPlaneGeometry)
    : result (HostKVPlaneLayout * Z) :=
  _ ← throw_if ((leading_extent plane <=? 0) || (head_extent plane <=? 0)) InvalidArgument;
  cursor ← host_align_up cursor kHostKVAlignment;
  rows ← checked_mul (leading_extent plane) page_tokens;
  head_bytes ← checked_mul rows (dtype_size (dtype plane));
  page_bytes ← checked_mul head_bytes (head_extent plane);
  next ← checked_add cursor page_bytes;
  Ok (mkHostPlane cursor page_bytes head_bytes, next).

Fixpoint plan_host_planes (page_tokens cursor : Z) (l : list KVPlaneGeometry)
    : result (list HostKVPlaneLayout * Z) :=
  match l with
  | [] => Ok ([], cursor)
  | plane :: l =>
      '(out, cursor) ← plan_host_plane page_tokens cursor plane;
      '(outs, cursor) ← plan_host_planes page_tokens cursor l;
      Ok (out :: outs, cursor)
  end.

Definition plan_host_kv_page_layout (g : KVPageGeometry) : result HostKVPageLayout :=
  _ ← throw_if ((page_tokens g =? 0) || bool_decide (planes g = [])) InvalidArgument;
  '(outs, cursor) ← plan_host_planes (page_tokens g) 0 (planes g);
  stride ← host_align_up cursor kHostKVAlignment;
  Ok (mkHostLayout g outs stride).

(** ** Transfer work *)

Record TransferWork := mkWork { payload_bytes : Z; copy_operations : Z }.

Definition no_work : TransferWork := mkWork 0 0.

Definition plane_operations (order : PagedKVPlaneOrder) (plane : KVPlaneGeometry) : Z :=
  match order with PageMajor => 1 | HeadMajor => head_extent plane end.

Fixpoint sum_transfer (order : PagedKVPlaneOrder) (hs : list HostKVPlaneLayout)
    (ps : list KVPlaneGeometry) (bytes_per_page ops : Z) : result (Z * Z) :=
  match hs, ps with
  | h :: hs, p :: ps =>
      b ← checked_add bytes_per_page (page_payload_bytes h);
      o ← checked_add ops (plane_operations order p);
      sum_transfer order hs ps b o
  | _, _ => Ok (bytes_per_page, ops)
  end.

Definition plan_host_kv_transfer_work (layout : HostKVPageLayout) (pages contiguous_runs : Z)
    : result TransferWork :=
  if pages =? 0 then Ok no_work
  else
    _ ← throw_if ((contiguous_runs =? 0) || (pages <? contiguous_runs) ||
                  bool_decide (host_planes layout = []) ||
                  negb (length (host_planes layout) =? length (planes (geometry layout)))%nat)
          InvalidArgument;
    '(bytes_per_page, per_run) ←
      sum_transfer (device_plane_order (geometry layout)) (host_planes layout)
        (planes (geometry layout)) 0 0;
    payload ← checked_mul bytes_per_page pages;
    operations ← checked_mul per_run contiguous_runs;
    _ ← throw_if (u32_max <? operations) OverflowError;
    Ok (mkWork payload operations).

Fixpoint sum_payload (hs : list HostKVPlaneLayout) (bytes_per_page : Z) : result Z :=
  match hs with
  | [] => Ok bytes_per_page
  | h :: hs => b ← checked_add bytes_per_page (page_payload_bytes h); sum_payload hs b
  end.

Definition plan_device_kv_copy_work (layout : HostKVPageLayout) (pages : Z) : result TransferWork :=
  if pages =? 0 then Ok no_work
  else
    _ ← throw_if (bool_decide (host_planes layout = []) ||
                  negb (length (host_planes layout) =? length (planes (geometry layout)))%nat)
          InvalidArgument;
    bytes_per_page ← sum_payload (host_planes layout) 0;
    payload ← checked_mul bytes_per_page pages;
    operations ← checked_mul (Z.of_nat (length (host_planes layout))) pages;
    _ ← throw_if (u32_max <? operations) OverflowError;
    Ok (mkWork payload operations).

(** ** The host record is packed *)

Definition plane_range (p : KVPlaneGeometry) : Prop :=
  leading_extent p <= i32_max /\ head_extent p <= i32_max.
Definition plane_positive (p : KVPlaneGeometry) : Prop :=
  0 < leading_extent p /\ 0 < head_extent p.
Definition geometry_range (g : KVPageGeometry) : Prop :=
  0 <= page_tokens g <= u32_max /\ Forall plane_range (planes g).

(** Bytes of one head and of all heads of a plane of a page, without overflow. *)
Definition head_size (tokens : Z) (p : KVPlaneGeometry) : Z :=
  leading_extent p * tokens * dtype_size (dtype p).
Definition plane_size (tokens : Z) (p : KVPlaneGeometry) : Z := head_size tokens p * head_extent p.

Definition round_up (v : Z) : Z := (v + 255) / 256 * 256.

(** The end of the packed record, without overflow. *)
Fixpoint packed_end (tokens c : Z) (l : list KVPlaneGeometry) : Z :=
  match l with
  | [] => c
  | p :: l => packed_end tokens (round_up c + plane_size tokens p) l
  end.

Lemma round_up_bounds v : v <= round_up v < v + 256.
Proof. unfold round_up. pose proof (Z.div_mod (v + 255) 256). pose proof (Z.mod_pos_bound (v + 255) 256). lia. Qed.

Lemma round_up_div v : (256 | round_up v).
Proof. unfold round_up. exists ((v + 255) / 256). lia. Qed.

Lemma plane_size_pos tokens p : 0 < tokens -> plane_positive p -> 0 < plane_size tokens p.
Proof.
  intros Ht [H1 H2]. unfold plane_size, head_size. pose proof (dtype_size_range (dtype p)).
  repeat apply Z.mul_pos_pos; lia.
Qed.

Lemma packed_end_ge tokens c l :
  0 < tokens -> Forall plane_positive l -> c <= packed_end tokens c l.
Proof.
  intros Ht Hl. revert c. induction Hl as [|p l Hp _ IH]; intros c; cbn; [lia|].
  specialize (IH (round_up c + plane_size tokens p)).
  pose proof (round_up_bounds c). pose proof (plane_size_pos tokens p Ht Hp). lia.
Qed.

Lemma host_align_up_spec v :
  0 <= v <= u64_max ->
  host_align_up v kHostKVAlignment =
    if decide (round_up v <= u64_max) then Ok (round_up v) else Throw OverflowError.
Proof.
  intros Hv. unfold host_align_up, kHostKVAlignment. cbn [Z.eqb orb negb Z.land Pos.land].
  change (256 - 1) with (2 ^ 8 - 1). change (2 ^ 8 - 1) with 255 at 1.
  change ((256 =? 0) || negb (Z.land 256 (2 ^ 8 - 1) =? 0)) with false. cbv iota zeta.
  pose proof (Z.div_mod (v + 255) 256). pose proof (Z.mod_pos_bound (v + 255) 256).
  destruct (Z.ltb_spec (u64_max - (2 ^ 8 - 1)) v) as [Hlt|Hge].
  - rewrite decide_False; [done|]. unfold round_up. lia.
  - rewrite decide_True by (unfold round_up; lia). f_equal.
    rewrite w64_small by lia. rewrite land_lnot64_ones by lia. unfold round_up.
    change (2 ^ 8) with 256. replace (v + (256 - 1)) with (v + 255) by lia. lia.
Qed.

(** What one plane contributes, and when it does not fit. *)
Lemma plan_host_plane_spec tokens c p :
  0 < tokens -> 0 <= c <= u64_max -> plane_range p ->
  match plan_host_plane tokens c p with
  | Ok (out, c') =>
      plane_positive p /\ out = mkHostPlane (round_up c) (plane_size tokens p) (head_size tokens p) /\
      c' = round_up c + plane_size tokens p /\ 0 <= c' <= u64_max
  | Throw e =>
      (e = InvalidArgument /\ ~ plane_positive p) \/
      (e = OverflowError /\ u64_max < round_up c + plane_size tokens p)
  end.
Proof.
  intros Ht Hc [Hr1 Hr2]. unfold plan_host_plane, plane_positive.
  destruct (Z.leb_spec (leading_extent p) 0); [left; split; [done|lia]|].
  destruct (Z.leb_spec (head_extent p) 0); [left; split; [done|lia]|].
  cbn [orb throw_if mbind result_bind].
  pose proof (dtype_size_range (dtype p)) as Hd. pose proof (round_up_bounds c) as Hru.
  assert (0 < leading_extent p * tokens) by nia.
  assert (0 < head_size tokens p) by (unfold head_size; nia).
  assert (head_size tokens p <= plane_size tokens p) by (unfold plane_size; nia).
  assert (leading_extent p * tokens <= head_size tokens p) by (unfold head_size; nia).
  rewrite host_align_up_spec by lia.
  case_decide; cbn; [|right; split; [done|lia]].
  rewrite checked_mul_spec by lia. case_decide; cbn; [|right; split; [done|lia]].
  rewrite checked_mul_spec by lia. fold (head_size tokens p).
  case_decide; cbn; [|right; split; [done|lia]].
  rewrite checked_mul_spec by lia. fold (plane_size tokens p).
  case_decide; cbn; [|right; split; [done|lia]].
  rewrite checked_add_spec by lia. case_decide; cbn; [|right; split; [done|lia]].
  split_and!; done || lia.
Qed.

(** Host planes that lie one after the other, from [lo] to [hi]. *)
Fixpoint packed (tokens lo hi : Z) (outs : list HostKVPlaneLayout) (l : list KVPlaneGeometry)
    : Prop :=
  match outs, l with
  | [], [] => lo <= hi
  | out :: outs, p :: l =>
      lo <= hp_offset out /\ (256 | hp_offset out) /\
      page_payload_bytes out = plane_size tokens p /\ 0 < page_payload_bytes out /\
      head_payload_bytes out = head_size tokens p /\
      packed tokens (hp_offset out + page_payload_bytes out) hi outs l
  | _, _ => False
  end.

Lemma plan_host_planes_spec tokens c l :
  0 < tokens -> 0 <= c <= u64_max -> Forall plane_range l ->
  match plan_host_planes tokens c l with
  | Ok (outs, c') =>
      Forall plane_positive l /\ packed tokens c c' outs l /\ c' = packed_end tokens c l /\
      0 <= c' <= u64_max
  | Throw e =>
      (e = InvalidArgument /\ ~ Forall plane_positive l) \/
      (e = OverflowError /\ (Forall plane_positive l -> u64_max < packed_end tokens c l))
  end.
Proof.
  intros Ht Hc Hr. revert c Hc. induction Hr as [|p l Hp _ IH]; intros c Hc; cbn.
  { split_and!; [constructor|lia..]. }
  pose proof (plan_host_plane_spec tokens c p Ht Hc Hp) as Hplane.
  destruct (plan_host_plane tokens c p) as [[out c1]|e]; cbn.
  - destruct Hplane as (Hpos & -> & -> & Hc1). specialize (IH _ Hc1).
    pose proof (round_up_bounds c). pose proof (plane_size_pos tokens p Ht Hpos).
    destruct (plan_host_planes tokens (round_up c + plane_size tokens p) l) as [[outs c2]|e]; cbn.
    + destruct IH as (? & ? & ? & ?).
      split_and!; try done || lia; [by constructor|apply round_up_div].
    + destruct IH as [[-> Hn]|[-> Hn]]; [left|right]; (split; [done|]).
      * by rewrite Forall_cons; intros [].
      * rewrite Forall_cons. intros []; auto.
  - destruct Hplane as [[-> Hn]|[-> Hn]]; [left|right]; (split; [done|]).
    + by rewrite Forall_cons; intros [].
    + rewrite Forall_cons. intros [_ Hl]. pose proof (packed_end_ge tokens
        (round_up c + plane_size tokens p) l Ht Hl). lia.
Qed.

Lemma packed_lookup tokens lo hi outs l i out p :
  packed tokens lo hi outs l -> outs !! i = Some out -> l !! i = Some p ->
  lo <= hp_offset out /\ (256 | hp_offset out) /\
  page_payload_bytes out = plane_size tokens p /\ head_payload_bytes out = head_size tokens p /\
  hp_offset out + page_payload_bytes out <= hi.
Proof.
  assert (forall outs l lo, packed tokens lo hi outs l -> lo <= hi) as Hle.
  { clear. induction outs as [|o outs IH]; intros [|p l] lo; cbn; try done.
    intros (? & _ & _ & ? & _ & H). specialize (IH _ _ H). lia. }
  revert l lo i. induction outs as [|o outs IH]; intros [|q l] lo [|i] H Ho Hl;
    try discriminate; cbn in *.
  - injection Ho as ->. injection Hl as ->. destruct H as (? & ? & ? & ? & ? & H).
    apply Hle in H. split_and!; done.
  - destruct H as (? & ? & ? & ? & ? & H).
    destruct (IH _ _ _ H Ho Hl) as (? & ? & ? & ? & ?). split_and!; lia || done.
Qed.

Lemma packed_ordered tokens lo hi outs l i j o1 o2 :
  packed tokens lo hi outs l -> (i < j)%nat -> outs !! i = Some o1 -> outs !! j = Some o2 ->
  hp_offset o1 + page_payload_bytes o1 <= hp_offset o2.
Proof.
  assert (forall outs l lo j o, packed tokens lo hi outs l -> outs !! j = Some o ->
            lo <= hp_offset o) as Hge.
  { clear. induction outs as [|q outs IH]; intros [|p l] lo [|j] o H Ho; try done; cbn in *.
    - injection Ho as ->. tauto.
    - destruct H as (? & _ & _ & ? & _ & H). specialize (IH _ _ _ _ H Ho). lia. }
  revert l lo i j. induction outs as [|o outs IH]; intros [|q l] lo [|i] [|j] H Hij H1 H2;
    try done; cbn in *; try lia.
  - injection H1 as ->. destruct H as (? & _ & _ & ? & _ & H). eauto.
  - destruct H as (? & _ & _ & ? & _ & H). apply (IH _ _ i j H ltac:(lia) H1 H2).
Qed.

Lemma packed_weaken tokens lo hi hi' outs l :
  packed tokens lo hi outs l -> hi <= hi' -> packed tokens lo hi' outs l.
Proof.
  intros H Hhi. revert l lo H. induction outs as [|o outs IH]; intros [|p l] lo; cbn; try done.
  - lia.
  - intros (? & ? & ? & ? & ? & H). split_and!; auto.
Qed.

Lemma packed_length tokens lo hi outs l : packed tokens lo hi outs l -> length outs = length l.
Proof.
  revert l lo. induction outs as [|o outs IH]; intros [|p l] lo; cbn; try done.
  intros (_ & _ & _ & _ & _ & H). f_equal. eauto.
Qed.

Definition geometry_positive (g : KVPageGeometry) : Prop :=
  0 < page_tokens g /\ planes g <> [] /\ Forall plane_positive (planes g).

Lemma plan_host_kv_page_layout_cases g :
  geometry_range g ->
  match plan_host_kv_page_layout g with
  | Ok l =>
      geometry_positive g /\ geometry l = g /\
      packed (page_tokens g) 0 (page_stride l) (host_planes l) (planes g) /\
      page_stride l = round_up (packed_end (page_tokens g) 0 (planes g)) /\
      0 < page_stride l <= u64_max
  | Throw e =>
      (e = InvalidArgument /\ ~ geometry_positive g) \/
      (e = OverflowError /\
       (geometry_positive g -> u64_max < round_up (packed_end (page_tokens g) 0 (planes g))))
  end.
Proof.
  intros [Ht Hr]. unfold plan_host_kv_page_layout, geometry_positive.
  destruct (Z.eqb_spec (page_tokens g) 0); [left; split; [done|lia]|].
  case_bool_decide as Hnil; [left; split; [done|tauto]|]. cbn [orb throw_if mbind result_bind].
  pose proof (plan_host_planes_spec (page_tokens g) 0 (planes g) ltac:(lia) ltac:(lia) Hr) as H.
  destruct (plan_host_planes _ _ _) as [[outs c]|e]; cbn.
  2: { destruct H as [[-> H]|[-> H]]; [left|right]; (split; [done|]); [tauto|].
       intros (_ & _ & Hp). specialize (H Hp).
       pose proof (round_up_bounds (packed_end (page_tokens g) 0 (planes g))). lia. }
  destruct H as (Hpos & Hpacked & -> & Hc). rewrite host_align_up_spec by done.
  pose proof (round_up_bounds (packed_end (page_tokens g) 0 (planes g))) as Hru.
  case_decide; cbn; [|right; split; [done|lia]].
  assert (packed (page_tokens g) 0 (round_up (packed_end (page_tokens g) 0 (planes g))) outs
            (planes g)) as Hpk.
  { eapply packed_weaken; [exact Hpacked|lia]. }
  split_and!; try done || lia.
  destruct (planes g) as [|p l]; [done|]. inversion Hpos as [|? ? Hp Hl]; subst. cbn in *.
  pose proof (plane_size_pos (page_tokens g) p ltac:(lia) Hp).
  pose proof (packed_end_ge (page_tokens g) (round_up 0 + plane_size (page_tokens g) p) l
    ltac:(lia) Hl). change (round_up 0) with 0 in *. lia.
Qed.

(** A planned host page record is a packed, aligned, non-overlapping image of the planes: every
    plane has its exact payload at a 256-byte aligned offset inside the stride, later planes start
    after earlier ones end, and the stride is a positive multiple of 256.  Planning fails exactly
    with an invalid-argument error on an empty or non-positive geometry, or with an overflow error
    when the unbounded-precision size of the record exceeds [SIZE_MAX]. *)
Theorem host_page_layout_sound g :
  geometry_range g ->
  match plan_host_kv_page_layout g with
  | Ok l =>
      geometry_positive g /\ geometry l = g /\ length (host_planes l) = length (planes g) /\
      (256 | page_stride l) /\ 0 < page_stride l <= u64_max /\
      (forall i o p, host_planes l !! i = Some o -> planes g !! i = Some p ->
         (256 | hp_offset o) /\ 0 <= hp_offset o /\
         page_payload_bytes o = head_payload_bytes o * head_extent p /\
         head_payload_bytes o = leading_extent p * page_tokens g * dtype_size (dtype p) /\
         hp_offset o + page_payload_bytes o <= page_stride l) /\
      (forall i j o1 o2, (i < j)%nat -> host_planes l !! i = Some o1 -> host_planes l !! j = Some o2 ->
         hp_offset o1 + page_payload_bytes o1 <= hp_offset o2)
  | Throw e =>
      (e = InvalidArgument /\ ~ geometry_positive g) \/
      (e = OverflowError /\
       (geometry_positive g -> u64_max < round_up (packed_end (page_tokens g) 0 (planes g))))
  end.
Proof.
  intros Hr. pose proof (plan_host_kv_page_layout_cases g Hr) as H.
  destruct (plan_host_kv_page_layout g) as [l|e]; [|done].
  destruct H as (Hpos & Hg & Hpk & Hs & Hb).
  split_and!; try done || lia.
  - by eapply packed_length.
  - rewrite Hs. apply round_up_div.
  - intros i o p Ho Hp. destruct (packed_lookup _ _ _ _ _ _ _ _ Hpk Ho Hp) as (? & ? & -> & -> & ?).
    by split_and!.
  - intros i j o1 o2 Hij Ho1 Ho2. by apply (packed_ordered _ _ _ _ _ i j _ _ Hpk).
Qed.

Lemma host_page_layout_sound_witness :
  let g := mkGeometry 256 HeadMajor [mkPlane I8 256 4 256; mkPlane FP16 4 4 256] in
  geometry_range g /\
  match plan_host_kv_page_layout g with
  | Ok l => geometry l = g /\ page_stride l = 270336
  | Throw _ => False
  end.
Proof.
  intros g. assert (geometry_range g) as Hr.
  { split; [cbn; lia|]. repeat constructor; cbn; lia. }
  split; [exact Hr|]. pose proof (host_page_layout_sound g Hr) as H.
  destruct (plan_host_kv_page_layout g) as [l|e] eqn:E; [|exfalso; vm_compute in E; discriminate].
  destruct H as (_ & Hg & _). split; [exact Hg|]. vm_compute in E. injection E as <-. reflexivity.
Defined.

(** ** Transfer work of a planned record *)

Definition ops_of (g : KVPageGeometry) : Z :=
  sum_with (plane_operations (device_plane_order g)) (planes g).
Definition payload_of (g : KVPageGeometry) : Z :=
  sum_with (plane_size (page_tokens g)) (planes g).

Lemma plane_operations_bounds order tokens p :
  0 < tokens -> plane_positive p -> 1 <= plane_operations order p <= plane_size tokens p.
Proof.
  intros Ht Hp. pose proof (plane_size_pos tokens p Ht Hp). destruct Hp, order; cbn; [lia|].
  unfold plane_size in *. assert (0 < head_size tokens p); [|nia].
  pose proof (dtype_size_range (dtype p)). unfold head_size. repeat apply Z.mul_pos_pos; lia.
Qed.

Lemma packed_payload_le tokens lo hi outs l :
  packed tokens lo hi outs l -> lo + sum_with (plane_size tokens) l <= hi.
Proof.
  revert l lo. induction outs as [|o outs IH]; intros [|p l] lo; cbn; try done; [lia|].
  intros (? & _ & Hp & _ & _ & H). specialize (IH _ _ H).
  change (lo + (plane_size tokens p + sum_with (plane_size tokens) l) <= hi). lia.
Qed.

Lemma sum_transfer_spec order tokens lo hi outs l b o :
  0 < tokens -> Forall plane_positive l -> packed tokens lo hi outs l -> 0 <= o <= b ->
  b + sum_with (plane_size tokens) l <= u64_max ->
  sum_transfer order outs l b o =
    Ok (b + sum_with (plane_size tokens) l, o + sum_with (plane_operations order) l).
Proof.
  intros Ht Hpos Hpk. revert outs lo Hpk b o.
  induction Hpos as [|p l Hp Hpos IH]; intros [|out outs] lo Hpk b o Ho Hb; cbn in *; try done.
  { do 2 f_equal; lia. }
  destruct Hpk as (_ & _ & -> & _ & _ & Hpk).
  pose proof (plane_operations_bounds order tokens p Ht Hp).
  assert (0 <= sum_with (plane_size tokens) l).
  { clear -Ht Hpos. induction Hpos as [|q l Hq _ IH]; cbn; [lia|].
    pose proof (plane_size_pos tokens q Ht Hq). lia. }
  change (b + (plane_size tokens p + sum_with (plane_size tokens) l) <= u64_max) in Hb.
  rewrite !checked_add_spec by lia. rewrite !decide_True by lia. cbn.
  rewrite (IH _ _ Hpk) by lia.
  change (sum_with (plane_size tokens) (p :: l))
    with (plane_size tokens p + sum_with (plane_size tokens) l).
  do 2 f_equal; lia.
Qed.

(** The work a host transfer of planned pages is charged: the payload of all planes times the
    pages, and one copy per plane and contiguous run (per head as well when device planes are
    head-major); an overflow error exactly when a product exceeds its integer type. *)
Theorem transfer_work_exact g l pages runs :
  geometry_range g -> plan_host_kv_page_layout g = Ok l -> 0 < runs <= pages -> pages <= u32_max ->
  plan_host_kv_transfer_work l pages runs =
    if decide (payload_of g * pages <= u64_max /\ ops_of g * runs <= u32_max)
    then Ok (mkWork (payload_of g * pages) (ops_of g * runs))
    else Throw OverflowError.
Proof.
  intros Hr Hplan Hruns Hpages. pose proof (plan_host_kv_page_layout_cases g Hr) as H.
  rewrite Hplan in H. destruct H as ((Ht & Hnil & Hpos) & Hg & Hpk & _ & Hs).
  pose proof (packed_length _ _ _ _ _ Hpk) as Hlen.
  pose proof (packed_payload_le _ _ _ _ _ Hpk) as Hpay.
  assert (0 <= ops_of g <= payload_of g) as Hops.
  { unfold ops_of, payload_of. clear -Ht Hpos. induction Hpos as [|q l Hq _ IH]; cbn; [lia|].
    pose proof (plane_operations_bounds (device_plane_order g) (page_tokens g) q Ht Hq). lia. }
  unfold plan_host_kv_transfer_work. rewrite Hg.
  destruct (Z.eqb_spec pages 0); [lia|]. destruct (Z.eqb_spec runs 0); [lia|].
  destruct (Z.ltb_spec pages runs); [lia|].
  rewrite bool_decide_eq_false_2 by (intros E; rewrite E in Hlen; by destruct (planes g)).
  rewrite Hlen, Nat.eqb_refl. cbn [orb negb throw_if mbind result_bind].
  rewrite (sum_transfer_spec _ _ _ _ _ _ 0 0 Ht Hpos Hpk) by lia. cbn [mbind result_bind].
  rewrite !Z.add_0_l. change (sum_with (plane_size _) _) with (payload_of g).
  change (sum_with (plane_operations _) _) with (ops_of g).
  rewrite (checked_mul_spec (payload_of g) pages) by lia.
  destruct (decide (payload_of g * pages <= u64_max)); cbn [mbind result_bind].
  2: rewrite decide_False; [done|tauto].
  rewrite checked_mul_spec, decide_True by nia. cbn [mbind result_bind].
  destruct (Z.ltb_spec u32_max (ops_of g * runs)); cbn.
  - rewrite decide_False; [done|lia].
  - rewrite decide_True; [done|lia].
Qed.

Lemma transfer_work_exact_witness :
  let g := mkGeometry 256 HeadMajor [mkPlane I8 256 4 256; mkPlane FP16 4 4 256] in
  match plan_host_kv_page_layout g with
  | Ok l => plan_host_kv_transfer_work l 3 2 = Ok (mkWork 811008 16)
  | Throw _ => False
  end.
Proof.
  intros g. destruct (plan_host_kv_page_layout g) as [l|e] eqn:E;
    [|exfalso; vm_compute in E; discriminate].
  rewrite (transfer_work_exact g l 3 2).
  - reflexivity.
  - split; [cbn; lia|]. repeat constructor; cbn; lia.
  - exact E.
  - lia.
  - lia.
Defined.
