(* ===== verification/HostKV.v ===== *)
(** * The host KV arena (core/host_kv_arena.cpp, core/host_kv_arena.h)

    [HostKVArena] keeps host copies of KV pages in one pinned buffer: a first-fit allocator with
    generation-checked descriptors, an allocation planner ([plan_after_releases]) whose recipe
    [apply_recipe] replays, and [split].  The free space is the extent vector of [Extents]. *)

From stdpp Require Import sorting.
From S2P Require Import Prelude Extents KVGeometry.
Open Scope Z_scope.

(** ** State *)

Record Descriptor := mkDescriptor {
  d_offset : Z;
  d_bytes : Z;
  d_layout : Z;
  d_pages : Z;
  d_generation : Z;
  d_active : bool;
}.

Definition default_descriptor : Descriptor := mkDescriptor 0 0 0 0 1 false.

(** [HostKVAllocationHandle]; an owner is the address of an arena, [None] is [nullptr]. *)
Record HostKVAllocationHandle := mkHandle {
  h_owner : option Z;
  h_descriptor : Z;
  h_generation : Z;
}.

#[export] Instance HostKVAllocationHandle_eq_dec : EqDecision HostKVAllocationHandle.
Proof. solve_decision. Defined.

Definition null_handle : HostKVAllocationHandle := mkHandle None 0 0.

(** [HostKVAllocation], the owning counterpart of a handle. *)
Record HostKVAllocation := mkAllocation {
  a_owner : option Z;
  a_descriptor : Z;
  a_generation : Z;
}.

Definition empty_allocation : HostKVAllocation := mkAllocation None 0 0.
Definition allocation_valid (x : HostKVAllocation) : bool := bool_decide (a_owner x <> None).
Definition disarm (x : HostKVAllocation) : HostKVAllocation := empty_allocation.
Definition allocation_handle (x : HostKVAllocation) : HostKVAllocationHandle :=
  if allocation_valid x then mkHandle (a_owner x) (a_descriptor x) (a_generation x)
  else null_handle.

(** [HostKVArena]: [self] is the address of the object, [backing] the pinned buffer's. *)
Record Arena := mkArena {
  self : Z;
  backing : option Z;
  capacity_bytes : Z;
  occupied_bytes : Z;
  layouts : list HostKVPageLayout;
  descriptors : list Descriptor;
  free_descriptors : list Z;
  free_extents : list Extent;
  revision : Z;
}.

Definition free_bytes (a : Arena) : Z := w64 (capacity_bytes a - occupied_bytes a).

Definition bump_revision (a : Arena) : Arena :=
  let r := w64 (revision a + 1) in
  let r := if r =? 0 then w64 (r + 1) else r in
  mkArena (self a) (backing a) (capacity_bytes a) (occupied_bytes a) (layouts a) (descriptors a)
    (free_descriptors a) (free_extents a) r.

(** ** Construction *)

(** The validation loop over [supported_layouts]. *)
Fixpoint validate_layouts (previous rest : list HostKVPageLayout) : result unit :=
  match rest with
  | [] => Ok tt
  | l :: rest =>
      planned ← plan_host_kv_page_layout (geometry l);
      _ ← throw_if (negb (bool_decide (planned = l))) InvalidArgument;
      _ ← throw_if (bool_decide (l ∈ previous)) InvalidArgument;
      validate_layouts (previous ++ [l]) rest
  end.

(** [std::min_element] by page stride. *)
Definition smallest_layout (first : HostKVPageLayout) (rest : list HostKVPageLayout)
    : HostKVPageLayout :=
  fold_left (fun best c => if page_stride c <? page_stride best then c else best) rest first.

(** The loop [for (index = n; index > 0; --index) push_back(index - 1)]. *)
Fixpoint descending (n : nat) : list Z :=
  match n with O => [] | S n => Z.of_nat n :: descending n end.

(** The constructor; [pin] is the pinned allocation. *)
Definition make_arena (pin : Z -> result Z) (this capacity : Z)
    (supported : list HostKVPageLayout) : result Arena :=
  _ ← validate_layouts [] supported;
  if capacity =? 0 then Ok (mkArena this None 0 0 supported [] [] [] 1)
  else
    match supported with
    | [] => Throw InvalidArgument
    | first :: rest =>
        base ← pin capacity;
        let maximum := capacity / page_stride (smallest_layout first rest) in
        _ ← throw_if (u32_max <? maximum) OverflowError;
        let n := Z.to_nat maximum in
        Ok (mkArena this (Some base) capacity 0 supported (replicate n default_descriptor)
              (descending n) [mkExtent 0 capacity] 1)
    end.

(** ** Queries *)

Definition find_layout (a : Arena) (l : HostKVPageLayout) : option Z :=
  Z.of_nat <$> find_index (fun c => bool_decide (c = l)) (layouts a).

Definition layout_for (a : Arena) (g : KVPageGeometry) : option HostKVPageLayout :=
  find_index (fun c => bool_decide (geometry c = g)) (layouts a) ≫= fun i => layouts a !! i.

Definition find_free_extent (a : Arena) (bytes : Z) : option nat :=
  first_fit (free_extents a) bytes.

Definition valid_handle (a : Arena) (h : HostKVAllocationHandle) : bool :=
  bool_decide (h_owner h = Some (self a)) &&
  match at_index (descriptors a) (h_descriptor h) with
  | Some d => d_active d && (d_generation d =? h_generation h)
  | None => false
  end.

Definition can_allocate (a : Arena) (l : HostKVPageLayout) (pages : Z) : bool :=
  if (pages =? 0) || bool_decide (free_descriptors a = []) ||
     bool_decide (find_layout a l = None) || (u64_max / pages <? page_stride l)
  then false
  else bool_decide (find_free_extent a (w64 (page_stride l * pages)) <> None).

(** ** Allocation *)

(** The popped descriptor index, or [UINT32_MAX] when the stack is empty. *)
Definition take_descriptor (a : Arena) : Arena * Z :=
  match last (free_descriptors a) with
  | None => (a, u32_max)
  | Some out =>
      (mkArena (self a) (backing a) (capacity_bytes a) (occupied_bytes a) (layouts a)
         (descriptors a) (removelast (free_descriptors a)) (free_extents a) (revision a), out)
  end.

Definition allocate (a : Arena) (l : HostKVPageLayout) (pages : Z)
    : Arena * option HostKVAllocation :=
  match find_layout a l with
  | None => (a, None)
  | Some layout_index =>
      if (pages =? 0) || bool_decide (free_descriptors a = []) ||
         (u64_max / pages <? page_stride l)
      then (a, None)
      else
        let bytes := w64 (page_stride l * pages) in
        match find_free_extent a bytes with
        | None => (a, None)
        | Some free_index =>
            let '(a, descriptor_index) := take_descriptor a in
            if descriptor_index =? u32_max then (a, None)
            else
              match free_extents a !! free_index, at_index (descriptors a) descriptor_index with
              | Some free, Some d =>
                  (bump_revision
                     (mkArena (self a) (backing a) (capacity_bytes a)
                        (w64 (occupied_bytes a + bytes)) (layouts a)
                        (set_index (descriptors a) descriptor_index
                           (mkDescriptor (ex_begin free) bytes layout_index pages
                              (d_generation d) true))
                        (free_descriptors a) (carve_extent (free_extents a) free_index bytes)
                        (revision a)),
                   Some (mkAllocation (Some (self a)) descriptor_index (d_generation d)))
              | _, _ => (a, None)
              end
        end
  end.

(** ** Release *)

Definition release_descriptor (a : Arena) (index gen : Z) : Arena * bool :=
  match at_index (descriptors a) index with
  | None => (a, false)
  | Some d =>
      if negb (d_active d) || negb (d_generation d =? gen) then (a, false)
      else
        let released := mkExtent (d_offset d) (d_bytes d) in
        (bump_revision
           (mkArena (self a) (backing a) (capacity_bytes a)
              (w64 (occupied_bytes a - d_bytes d)) (layouts a)
              (set_index (descriptors a) index
                 (mkDescriptor 0 0 (d_layout d) 0 (increment_generation (d_generation d)) false))
              (free_descriptors a ++ [index]) (insert_extent (free_extents a) released)
              (revision a)),
         true)
  end.

(** [HostKVAllocation::release], run on the arena that owns the allocation: the arena, the
    disarmed allocation and the returned flag. *)
Definition allocation_release (a : Arena) (x : HostKVAllocation)
    : Arena * HostKVAllocation * bool :=
  if allocation_valid x then
    let '(a, released) := release_descriptor a (a_descriptor x) (a_generation x) in
    (a, disarm x, released)
  else (a, x, false).

(** The move assignment [target = std::move(other)]: the arena, the target and the source. *)
Definition allocation_move_assign (a : Arena) (target other : HostKVAllocation)
    : Arena * HostKVAllocation * HostKVAllocation :=
  let '(a, _, _) := allocation_release a target in
  (a, mkAllocation (a_owner other) (a_descriptor other) (a_generation other), disarm other).

Definition page_count (a : Arena) (x : HostKVAllocation) : Z :=
  if allocation_valid x then
    match at_index (descriptors a) (a_descriptor x) with
    | Some d => if d_active d && (d_generation d =? a_generation x) then d_pages d else 0
    | None => 0
    end
  else 0.

(** ** Splitting *)

Definition split (x : HostKVAllocation) (page_offset : Z)
    : M Arena (HostKVAllocation * HostKVAllocation) :=
  a ← mget;
  _ ← mthrow_if (negb (valid_handle a (allocation_handle x))) InvalidArgument;
  match at_index (descriptors a) (a_descriptor x) with
  | None => mthrow InvalidArgument
  | Some original =>
      _ ← mthrow_if ((page_offset =? 0) || (d_pages original <=? page_offset)) OutOfRange;
      let '(a, right_index) := take_descriptor a in
      _ ← mput a;
      if right_index =? u32_max then mthrow LogicError
      else
        match layouts a !! Z.to_nat (d_layout original), at_index (descriptors a) right_index with
        | Some l, Some right_d =>
            let stride := page_stride l in
            let right_pages := w32 (d_pages original - page_offset) in
            let ds := set_index (descriptors a) right_index
                        (mkDescriptor (w64 (d_offset original + w64 (page_offset * stride)))
                           (w64 (right_pages * stride)) (d_layout original) right_pages
                           (d_generation right_d) true) in
            let left_generation := increment_generation (d_generation original) in
            let ds := set_index ds (a_descriptor x)
                        (mkDescriptor (d_offset original) (w64 (page_offset * stride))
                           (d_layout original) page_offset left_generation (d_active original)) in
            _ ← mput (bump_revision
                        (mkArena (self a) (backing a) (capacity_bytes a) (occupied_bytes a)
                           (layouts a) ds (free_descriptors a) (free_extents a) (revision a)));
            mret (mkAllocation (Some (self a)) (a_descriptor x) left_generation,
                  mkAllocation (Some (self a)) right_index (d_generation right_d))
        | _, _ => mthrow LogicError
        end
  end.

(** ** Views *)

(** [HostKVAllocationView] and [HostKVAllocationConstView]. *)
Record HostKVAllocationView := mkView {
  v_handle : HostKVAllocationHandle;
  v_data : option Z;
  v_layout : option HostKVPageLayout;
  v_page_count : Z;
}.

Definition allocation_data (a : Arena) (d : Descriptor) : option Z :=
  match backing a with None => None | Some base => Some (base + d_offset d) end.

Definition view (a : Arena) (x : HostKVAllocation) : result HostKVAllocationView :=
  if negb (valid_handle a (allocation_handle x)) then Throw InvalidArgument
  else
    match at_index (descriptors a) (a_descriptor x) with
    | None => Throw InvalidArgument
    | Some d =>
        Ok (mkView (allocation_handle x) (allocation_data a d)
              (layouts a !! Z.to_nat (d_layout d)) (d_pages d))
    end.

Definition view_valid (a : Arena) (v : HostKVAllocationView) : bool :=
  bool_decide (h_owner (v_handle v) <> None) && valid_handle a (v_handle v).

Definition view_layout (a : Arena) (v : HostKVAllocationView) : result HostKVPageLayout :=
  if negb (view_valid a v) then Throw LogicError
  else match v_layout v with None => Throw LogicError | Some l => Ok l end.

(** A view without data is only minted by an arena without descriptors, so [subview] reads the
    data and the layout of a valid view; it would dereference [nullptr] otherwise. *)
Definition subview (a : Arena) (v : HostKVAllocationView) (begin_ count : Z)
    : result HostKVAllocationView :=
  if negb (view_valid a v) || (count =? 0) || (v_page_count v <? begin_) ||
     (w32 (v_page_count v - begin_) <? count)
  then Throw OutOfRange
  else
    match v_data v, v_layout v with
    | Some data, Some l =>
        Ok (mkView (v_handle v) (Some (data + w64 (begin_ * page_stride l))) (Some l) count)
    | _, _ => Throw OutOfRange
    end.

(** ** Planning and replaying a batch *)

Record HostKVAllocationRequest := mkRequest {
  rq_layout : option HostKVPageLayout;
  rq_pages : Z;
}.

Record Target := mkTarget { t_layout : Z; t_pages : Z; t_offset : Z; t_bytes : Z }.

Record HostKVAllocationRecipe := mkRecipe {
  rc_owner : option Z;
  rc_revision : Z;
  rc_releases : list HostKVAllocationHandle;
  rc_targets : list Target;
}.

Definition empty_recipe : HostKVAllocationRecipe := mkRecipe None 0 [] [].

(** The release loop of [plan_after_releases]: the simulated free extents, or [None]. *)
Fixpoint plan_releases (a : Arena) (seen rest : list HostKVAllocationHandle)
    (simulated : list Extent) : option (list Extent) :=
  match rest with
  | [] => Some simulated
  | h :: rest =>
      if negb (valid_handle a h) || bool_decide (h ∈ seen) then None
      else
        match at_index (descriptors a) (h_descriptor h) with
        | None => None
        | Some d =>
            plan_releases a (seen ++ [h]) rest
              (insert_extent simulated (mkExtent (d_offset d) (d_bytes d)))
        end
  end.

(** One iteration of the target loop. *)
Definition plan_target (a : Arena) (request : HostKVAllocationRequest) (simulated : list Extent)
    : option (Target * list Extent) :=
  match rq_layout request with
  | None => None
  | Some l =>
      if rq_pages request =? 0 then None
      else
        match find_layout a l with
        | None => None
        | Some layout_index =>
            if u64_max / rq_pages request <? page_stride l then None
            else
              let bytes := w64 (page_stride l * rq_pages request) in
              match first_fit simulated bytes with
              | None => None
              | Some i =>
                  match simulated !! i with
                  | None => None
                  | Some extent =>
                      Some (mkTarget layout_index (rq_pages request) (ex_begin extent) bytes,
                            carve_extent simulated i bytes)
                  end
              end
        end
  end.

Fixpoint plan_targets (a : Arena) (requests : list HostKVAllocationRequest)
    (simulated : list Extent) : option (list Target) :=
  match requests with
  | [] => Some []
  | request :: requests =>
      match plan_target a request simulated with
      | None => None
      | Some (t, simulated) => cons t <$> plan_targets a requests simulated
      end
  end.

Definition plan_after_releases (a : Arena) (releases : list HostKVAllocationHandle)
    (requests : list HostKVAllocationRequest) : option HostKVAllocationRecipe :=
  if bool_decide (releases = []) && bool_decide (requests = []) then None
  else if (length (free_descriptors a) + length releases <? length requests)%nat then None
  else
    match plan_releases a [] releases (free_extents a) with
    | None => None
    | Some simulated =>
        match plan_targets a requests simulated with
        | None => None
        | Some targets => Some (mkRecipe (Some (self a)) (revision a) releases targets)
        end
    end.

(** The two validation loops of [apply_recipe]; a release is a pointer to an allocation. *)
Fixpoint releases_match (a : Arena) (hs : list HostKVAllocationHandle)
    (xs : list (option HostKVAllocation)) : bool :=
  match hs, xs with
  | h :: hs, Some x :: xs =>
      bool_decide (allocation_handle x = h) && valid_handle a h && releases_match a hs xs
  | _ :: _, None :: _ => false
  | _, _ => true
  end.

Definition target_matches (a : Arena) (t : Target) (out : HostKVAllocation) : bool :=
  negb (allocation_valid out) && (t_layout t <? Z.of_nat (length (layouts a))) &&
  negb (t_pages t =? 0) &&
  match layouts a !! Z.to_nat (t_layout t) with
  | None => false
  | Some l =>
      negb (u64_max / t_pages t <? page_stride l) &&
      (w64 (page_stride l * t_pages t) =? t_bytes t)
  end.

Fixpoint targets_match (a : Arena) (ts : list Target) (outs : list HostKVAllocation) : bool :=
  match ts, outs with
  | t :: ts, out :: outs => target_matches a t out && targets_match a ts outs
  | _, _ => true
  end.

(** The mutation loops. *)
Fixpoint release_all (xs : list (option HostKVAllocation))
    : M Arena (list (option HostKVAllocation)) :=
  match xs with
  | [] => mret []
  | None :: _ => mthrow Terminate
  | Some x :: xs =>
      a ← mget;
      let '(a, x, released) := allocation_release a x in
      _ ← mput a;
      _ ← mthrow_if (negb released) Terminate;
      xs ← release_all xs;
      mret (Some x :: xs)
  end.

Definition adopt_target (t : Target) (out : HostKVAllocation) : M Arena HostKVAllocation :=
  a ← mget;
  match layouts a !! Z.to_nat (t_layout t) with
  | None => mthrow Terminate
  | Some l =>
      let '(a, allocation) := allocate a l (t_pages t) in
      _ ← mput a;
      match allocation with
      | None => mthrow Terminate
      | Some x =>
          match at_index (descriptors a) (a_descriptor x) with
          | None => mthrow Terminate
          | Some d =>
              _ ← mthrow_if (negb (d_offset d =? t_offset t) || negb (d_bytes d =? t_bytes t))
                    Terminate;
              let '(a, out, _) := allocation_move_assign a out x in
              _ ← mput a;
              mret out
          end
      end
  end.

Fixpoint adopt_targets (ts : list Target) (outs : list HostKVAllocation)
    : M Arena (list HostKVAllocation) :=
  match ts, outs with
  | t :: ts, out :: outs =>
      out ← adopt_target t out;
      outs ← adopt_targets ts outs;
      mret (out :: outs)
  | _, _ => mret outs
  end.

(** What [apply_recipe] leaves: the flag, the recipe, the released and the target allocations. *)
Record Applied := mkApplied {
  ap_ok : bool;
  ap_recipe : HostKVAllocationRecipe;
  ap_releases : list (option HostKVAllocation);
  ap_targets : list HostKVAllocation;
}.

Definition apply_recipe (recipe : HostKVAllocationRecipe)
    (releases : list (option HostKVAllocation)) (targets : list HostKVAllocation)
    : M Arena Applied :=
  a ← mget;
  let refused := mkApplied false recipe releases targets in
  if negb (bool_decide (rc_owner recipe = Some (self a))) ||
     negb (rc_revision recipe =? revision a) ||
     negb (length (rc_releases recipe) =? length releases)%nat ||
     negb (length (rc_targets recipe) =? length targets)%nat
  then mret refused
  else if negb (releases_match a (rc_releases recipe) releases) then mret refused
  else if negb (targets_match a (rc_targets recipe) targets) then mret refused
  else
    releases ← release_all releases;
    targets ← adopt_targets (rc_targets recipe) targets;
    mret (mkApplied true empty_recipe releases targets).

(** ** Feasibility of partial releases *)

Record HostKVSuballocationRelease := mkSubrelease {
  sr_allocation : HostKVAllocationHandle;
  sr_begin : Z;
  sr_count : Z;
}.

Definition sr_end (r : HostKVSuballocationRelease) : Z := w32 (sr_begin r + sr_count r).

Definition sr_overlaps (r other : HostKVSuballocationRelease) : bool :=
  bool_decide (sr_allocation other = sr_allocation r) &&
  (sr_begin r <? sr_end other) && (sr_begin other <? sr_end r).

(** The first loop: [None] is [return false]. *)
Fixpoint suballocation_releases (a : Arena) (prior rest : list HostKVSuballocationRelease)
    (simulated : list Extent) : result (option (list Extent)) :=
  match rest with
  | [] => Ok (Some simulated)
  | r :: rest =>
      if negb (valid_handle a (sr_allocation r)) || (sr_count r =? 0) then Ok None
      else
        match at_index (descriptors a) (h_descriptor (sr_allocation r)) with
        | None => Ok None
        | Some d =>
            if (d_pages d <? sr_begin r) || (w32 (d_pages d - sr_begin r) <? sr_count r)
            then Ok None
            else if existsb (sr_overlaps r) prior then Ok None
            else
              match layouts a !! Z.to_nat (d_layout d) with
              | None => Ok None
              | Some l =>
                  skip ← checked_mul (sr_begin r) (page_stride l);
                  offset ← checked_add (d_offset d) skip;
                  bytes ← checked_mul (sr_count r) (page_stride l);
                  suballocation_releases a (prior ++ [r]) rest
                    (insert_extent simulated (mkExtent offset bytes))
              end
        end
  end.

(** [operator<] of the pairs, made total. *)
Definition pair_le (p q : Z * Z) : Prop := p.1 < q.1 \/ (p.1 = q.1 /\ p.2 <= q.2).

#[export] Instance pair_le_dec p q : Decision (pair_le p q).
Proof. unfold pair_le. apply _. Defined.

(** The runs of pages between the sorted intervals, and the final cursor. *)
Fixpoint count_retained (intervals : list (Z * Z)) (cursor runs : Z) : Z * Z :=
  match intervals with
  | [] => (cursor, runs)
  | (b, e) :: intervals =>
      count_retained intervals e (if cursor <? b then w64 (runs + 1) else runs)
  end.

Definition retained_runs (releases : list HostKVSuballocationRelease)
    (allocation : HostKVAllocationHandle) (d : Descriptor) : Z :=
  let intervals :=
    merge_sort pair_le
      ((fun r => (sr_begin r, sr_end r)) <$>
         filter (fun r => sr_allocation r = allocation) releases) in
  let '(cursor, runs) := count_retained intervals 0 0 in
  if cursor <? d_pages d then w64 (runs + 1) else runs.

(** The descriptor accounting loop: available and required descriptors. *)
Fixpoint count_descriptors (a : Arena) (all prior rest : list HostKVSuballocationRelease)
    (available required : Z) : Z * Z :=
  match rest with
  | [] => (available, required)
  | r :: rest =>
      let continue_with available required :=
        count_descriptors a all (prior ++ [r]) rest available required in
      if bool_decide (sr_allocation r ∈ sr_allocation <$> prior)
      then continue_with available required
      else
        match at_index (descriptors a) (h_descriptor (sr_allocation r)) with
        | None => continue_with available required
        | Some d =>
            let runs := retained_runs all (sr_allocation r) d in
            if runs =? 0 then continue_with (w64 (available + 1)) required
            else if 1 <? runs then continue_with available (w64 (required + (runs - 1)))
            else continue_with available required
        end
  end.

Definition can_allocate_after_suballocation_releases (a : Arena)
    (releases : list HostKVSuballocationRelease) (requests : list HostKVAllocationRequest)
    : result bool :=
  if bool_decide (releases = []) && bool_decide (requests = []) then Ok true
  else
    simulated ← suballocation_releases a [] releases (free_extents a);
    match simulated with
    | None => Ok false
    | Some simulated =>
        let '(available, required) :=
          count_descriptors a releases [] releases
            (Z.of_nat (length (free_descriptors a))) (Z.of_nat (length requests)) in
        if available <? required then Ok false
        else Ok (bool_decide (plan_targets a requests simulated <> None))
    end.
