(* ===== verification/HostKVInvariant.v ===== *)
(** * Correctness of the host KV arena

    The arena invariant and its consequences: free extents and active descriptors partition the
    buffer, the byte counters agree with them, the descriptor stack holds exactly the inactive
    descriptors and never runs dry while a large enough free extent exists.  Then what [allocate],
    [release] and [split] do to it. *)

From S2P Require Import Prelude Extents KVGeometry HostKV.

(** ** The invariant *)

Definition d_extent (d : Descriptor) : Extent := mkExtent (d_offset d) (d_bytes d).

Definition active_ind (x : Z) (d : Descriptor) : Z := if d_active d then ind (d_extent d) x else 0.
Definition active_bytes (d : Descriptor) : Z := if d_active d then d_bytes d else 0.

Definition active_ok (m cap : Z) (ls : list HostKVPageLayout) (d : Descriptor) : Prop :=
  exists l, 0 <= d_layout d /\ ls !! Z.to_nat (d_layout d) = Some l /\ 0 < d_pages d <= u32_max /\
    d_bytes d = page_stride l * d_pages d /\ (d_offset d = 0 \/ m <= d_offset d) /\
    d_offset d + d_bytes d <= cap.

(** [m] is the smallest page stride, the divisor the constructor sizes the descriptor vector by. *)
Record arena_inv (m : Z) (a : Arena) : Prop := {
  inv_m : 0 < m;
  inv_capacity : 0 <= capacity_bytes a <= u64_max;
  inv_count : Z.of_nat (length (descriptors a)) = capacity_bytes a / m;
  inv_count_max : Z.of_nat (length (descriptors a)) <= u32_max;
  inv_layouts : Forall (fun l => m <= page_stride l <= u64_max) (layouts a);
  inv_extents : extents_wf 0 (capacity_bytes a) (free_extents a);
  inv_partition : forall x,
    cov (free_extents a) x + sum_with (active_ind x) (descriptors a) =
    if decide (0 <= x < capacity_bytes a) then 1 else 0;
  inv_occupied : occupied_bytes a = sum_with active_bytes (descriptors a);
  inv_total : occupied_bytes a + total (free_extents a) = capacity_bytes a;
  inv_generation : forall i d, at_index (descriptors a) i = Some d -> 1 <= d_generation d <= u32_max;
  inv_active : forall i d, at_index (descriptors a) i = Some d -> d_active d = true ->
    active_ok m (capacity_bytes a) (layouts a) d;
  inv_free_nodup : NoDup (free_descriptors a);
  inv_free : forall i, i ∈ free_descriptors a <->
    exists d, at_index (descriptors a) i = Some d /\ d_active d = false;
  inv_revision : 1 <= revision a <= u64_max;
}.

(** The bytes a live handle owns. *)
Definition handle_extent (a : Arena) (h : HostKVAllocationHandle) : option Extent :=
  if valid_handle a h then d_extent <$> at_index (descriptors a) (h_descriptor h) else None.

(** ** Consequences *)

Lemma active_ind_nonneg x d : 0 <= active_ind x d.
Proof. unfold active_ind. destruct (d_active d); [apply ind_range|done]. Qed.

#[local] Hint Resolve active_ind_nonneg : core.

Lemma active_ok_bounds m cap ls d :
  0 < m -> Forall (fun l => m <= page_stride l <= u64_max) ls -> active_ok m cap ls d ->
  m <= d_bytes d /\ 0 <= d_offset d /\ d_offset d + d_bytes d <= cap.
Proof.
  intros Hm Hls (l & _ & Hl & Hp & Hb & Ho & Hc).
  pose proof (proj1 (Forall_lookup _ _) Hls _ _ Hl) as Hs. cbn in Hs. split_and!; nia.
Qed.

Section consequences.
Context (m : Z) (a : Arena) (Hinv : arena_inv m a).

Lemma active_bounds i d :
  at_index (descriptors a) i = Some d -> d_active d = true ->
  m <= d_bytes d /\ 0 <= d_offset d /\ d_offset d + d_bytes d <= capacity_bytes a.
Proof.
  intros Hi Hd. eapply active_ok_bounds; [apply (inv_m _ _ Hinv)|apply (inv_layouts _ _ Hinv)|].
  by apply (inv_active _ _ Hinv i).
Qed.

Lemma active_at i d x :
  at_index (descriptors a) i = Some d -> active_ind x d <= sum_with (active_ind x) (descriptors a).
Proof. intros [_ Hi]%at_index_Some. eapply sum_with_elem; eauto. Qed.

(** An active descriptor owns bytes that are not free. *)
Lemma active_not_free i d x :
  at_index (descriptors a) i = Some d -> d_active d = true -> ind (d_extent d) x = 1 ->
  cov (free_extents a) x = 0.
Proof.
  intros Hi Hd Hx. pose proof (active_at i d x Hi) as H. unfold active_ind in H at 1.
  rewrite Hd, Hx in H. pose proof (inv_partition _ _ Hinv x).
  pose proof (cov_nonneg (free_extents a) x). case_decide; lia.
Qed.

(** Distinct active descriptors own disjoint bytes. *)
Lemma active_disjoint i j d1 d2 x :
  i <> j -> at_index (descriptors a) i = Some d1 -> at_index (descriptors a) j = Some d2 ->
  d_active d1 = true -> d_active d2 = true -> ind (d_extent d1) x + ind (d_extent d2) x <= 1.
Proof.
  intros Hij Hi Hj H1 H2. pose proof (inv_partition _ _ Hinv x) as Hp.
  pose proof (cov_nonneg (free_extents a) x).
  apply at_index_Some in Hi as [? Hi], Hj as [? Hj].
  pose proof (sum_with_two (active_ind x) _ (Z.to_nat i) (Z.to_nat j) d1 d2
    (active_ind_nonneg x) ltac:(lia) Hi Hj) as Hs.
  unfold active_ind in Hs at 1 2. rewrite H1, H2 in Hs. case_decide; lia.
Qed.

(** Bytes that are not free belong to an active descriptor. *)
Lemma not_free_active x :
  0 <= x < capacity_bytes a -> cov (free_extents a) x = 0 ->
  exists i d, at_index (descriptors a) i = Some d /\ d_active d = true /\ ind (d_extent d) x = 1.
Proof.
  intros Hx Hc. pose proof (inv_partition _ _ Hinv x) as Hp. rewrite Hc, decide_True in Hp by done.
  destruct (sum_with_positive (active_ind x) (descriptors a)) as (i & d & Hi & Hd); [lia|].
  exists (Z.of_nat i), d. rewrite at_index_nat. unfold active_ind in Hd.
  destruct (d_active d) eqn:E; [|lia]. pose proof (ind_range (d_extent d) x).
  split_and!; [done..|lia].
Qed.

(** What precedes a free extent is an allocation that ends where the extent begins. *)
Lemma free_extent_left i e :
  free_extents a !! i = Some e -> ex_begin e <> 0 ->
  exists j d, at_index (descriptors a) j = Some d /\ d_active d = true /\
    d_offset d + d_bytes d = ex_begin e.
Proof.
  intros Hi Hne. destruct (extents_wf_lookup _ _ _ _ _ (inv_extents _ _ Hinv) Hi) as (? & ? & ?).
  pose proof (cov_gap_left _ _ _ _ _ (inv_extents _ _ Hinv) Hi) as Hgap.
  destruct (not_free_active (ex_begin e - 1)) as (j & d & Hj & Hd & Hx); [extent_lia|done|].
  exists j, d. split_and!; [done..|].
  destruct (decide (ind (d_extent d) (ex_begin e) = 1)) as [Hin|Hout].
  - pose proof (active_not_free j d _ Hj Hd Hin).
    pose proof (cov_lookup _ _ _ (ex_begin e) Hi). rewrite ind_begin in * by done. lia.
  - unfold d_extent in *. ind_cases.
Qed.

Lemma free_extent_offset i e :
  free_extents a !! i = Some e -> ex_begin e = 0 \/ m <= ex_begin e.
Proof.
  intros Hi. destruct (decide (ex_begin e = 0)); [by left|right].
  destruct (free_extent_left i e Hi) as (j & d & Hj & Hd & <-); [done|].
  destruct (active_bounds j d Hj Hd). lia.
Qed.

Lemma occupied_bounds : 0 <= occupied_bytes a <= capacity_bytes a.
Proof.
  pose proof (inv_total _ _ Hinv). pose proof (total_nonneg _ _ _ (inv_extents _ _ Hinv)).
  assert (0 <= occupied_bytes a); [|lia]. rewrite (inv_occupied _ _ Hinv).
  pose proof (inv_m _ _ Hinv).
  assert (forall i d, descriptors a !! i = Some d -> 0 <= active_bytes d) as Hd.
  { intros i d Hi. unfold active_bytes. destruct (d_active d) eqn:E; [|done].
    rewrite <- at_index_nat in Hi. destruct (active_bounds _ _ Hi E). lia. }
  pose proof (sum_with_lower active_bytes (descriptors a) 0 Hd). lia.
Qed.

(** The descriptor stack cannot be empty while a free extent could hold a page: the descriptor
    vector has one entry per smallest page that fits in the buffer. *)
Lemma descriptors_suffice i e :
  free_extents a !! i = Some e -> m <= ex_len e -> free_descriptors a <> [].
Proof.
  intros Hi Hlen Hnil. pose proof (inv_m _ _ Hinv).
  assert (forall j d, descriptors a !! j = Some d -> m <= active_bytes d) as Hall.
  { intros j d Hj. unfold active_bytes. rewrite <- at_index_nat in Hj.
    destruct (d_active d) eqn:E; [by apply (active_bounds _ _ Hj)|].
    assert (Z.of_nat j ∈ free_descriptors a) as Hin by (apply (inv_free _ _ Hinv); eauto).
    rewrite Hnil in Hin. by apply not_elem_of_nil in Hin. }
  pose proof (sum_with_lower active_bytes (descriptors a) m Hall) as Hsum.
  rewrite <- (inv_occupied _ _ Hinv) in Hsum. pose proof (inv_total _ _ Hinv).
  pose proof (total_lookup _ _ _ _ _ (inv_extents _ _ Hinv) Hi).
  rewrite (inv_count _ _ Hinv) in Hsum.
  pose proof (Z.mul_succ_div_gt (capacity_bytes a) m). nia.
Qed.

Lemma valid_handle_Some h :
  valid_handle a h = true <->
  h_owner h = Some (self a) /\
  exists d, at_index (descriptors a) (h_descriptor h) = Some d /\ d_active d = true /\
    d_generation d = h_generation h.
Proof.
  unfold valid_handle. rewrite andb_true_iff, bool_decide_eq_true.
  destruct (at_index _ _) as [d|]; [rewrite andb_true_iff, Z.eqb_eq|]; split.
  - intros (? & ? & ?). split; [done|]. by exists d.
  - intros (? & ? & [= <-] & ? & ?). done.
  - intros [_ ?]. discriminate.
  - intros (_ & ? & ? & _). discriminate.
Qed.
End consequences.

(** ** Updating one descriptor *)

Definition with_update (a : Arena) (occupied : Z) (ds : list Descriptor) (fd : list Z)
    (fe : list Extent) : Arena :=
  mkArena (self a) (backing a) (capacity_bytes a) occupied (layouts a) ds fd fe (revision a).

Lemma bump_revision_inv m a : arena_inv m a -> arena_inv m (bump_revision a).
Proof.
  intros []. split; try done. cbn. destruct (decide (revision a = u64_max)) as [->|]; [by cbv|].
  rewrite (w64_small (revision a + 1)) by lia. destruct (Z.eqb_spec (revision a + 1) 0); lia.
Qed.

Lemma update_inv m a i d d' occ' fd' fe' :
  arena_inv m a -> at_index (descriptors a) i = Some d ->
  1 <= d_generation d' <= u32_max ->
  (d_active d' = true -> active_ok m (capacity_bytes a) (layouts a) d') ->
  extents_wf 0 (capacity_bytes a) fe' ->
  (forall x, cov fe' x + active_ind x d' = cov (free_extents a) x + active_ind x d) ->
  total fe' + active_bytes d' = total (free_extents a) + active_bytes d ->
  occ' = occupied_bytes a - active_bytes d + active_bytes d' ->
  NoDup fd' ->
  (forall j, j ∈ fd' <-> if decide (j = i) then d_active d' = false else j ∈ free_descriptors a) ->
  arena_inv m (with_update a occ' (set_index (descriptors a) i d') fd' fe').
Proof.
  intros [] Hi Hgen Hact Hwf Hcov Htot Hocc Hnd Hmem.
  pose proof (at_index_lt _ _ _ Hi) as Hlt.
  split; cbn -[cov total]; rewrite ?length_set_index; try done.
  - intros x. rewrite (sum_with_set_index _ _ _ _ _ Hi). specialize (Hcov x).
    rewrite <- inv_partition0. lia.
  - rewrite (sum_with_set_index _ _ _ _ _ Hi). lia.
  - lia.
  - intros j dj Hj. destruct (decide (j = i)) as [->|Hne].
    + rewrite at_set_index_eq in Hj by done. by injection Hj as <-.
    + rewrite at_set_index_ne in Hj by (lia || done). eauto.
  - intros j dj Hj. destruct (decide (j = i)) as [->|Hne].
    + rewrite at_set_index_eq in Hj by done. by injection Hj as <-.
    + rewrite at_set_index_ne in Hj by (lia || done). eauto.
  - intros j. rewrite Hmem. case_decide as Hj.
    + subst j. rewrite at_set_index_eq by done. split; [eauto|]. by intros (? & [= <-] & ?).
    + rewrite at_set_index_ne by (lia || done). apply inv_free0.
Qed.

(** ** Allocation *)

Lemma find_layout_Some a l i :
  find_layout a l = Some i -> 0 <= i /\ layouts a !! Z.to_nat i = Some l.
Proof.
  unfold find_layout. rewrite fmap_Some. intros (n & Hn & ->).
  apply find_index_Some in Hn as (pre & c & post & Hl & <- & Hc & _).
  apply bool_decide_eq_true in Hc. subst c. split; [lia|]. rewrite Nat2Z.id, Hl.
  by apply list_lookup_middle.
Qed.

Lemma find_layout_None a l : find_layout a l = None <-> l ∉ layouts a.
Proof.
  unfold find_layout. rewrite fmap_None, find_index_None, Forall_forall. split.
  - intros H Hl. specialize (H l Hl). by rewrite bool_decide_eq_true_2 in H.
  - intros H c Hc. apply bool_decide_eq_false. congruence.
Qed.

Lemma stride_fits s pages :
  0 <= s -> 0 < pages -> (u64_max / pages <? s) = negb (bool_decide (s * pages <= u64_max)).
Proof.
  intros Hs Hp. pose proof (mul_le_max_iff s pages Hs Hp).
  case_bool_decide; cbn; [apply Z.ltb_ge|apply Z.ltb_lt]; lia.
Qed.

Lemma take_descriptor_last a rest idx :
  free_descriptors a = rest ++ [idx] ->
  take_descriptor a =
    (with_update a (occupied_bytes a) (descriptors a) rest (free_extents a), idx).
Proof.
  intros H. unfold take_descriptor. rewrite H, last_snoc, removelast_last. done.
Qed.

(** The arena after a successful allocation from free extent [i]. *)
Definition allocated (a : Arena) (li pages bytes : Z) (i : nat) (e : Extent) (rest : list Z)
    (idx : Z) (d : Descriptor) : Arena :=
  bump_revision
    (with_update a (occupied_bytes a + bytes)
       (set_index (descriptors a) idx (mkDescriptor (ex_begin e) bytes li pages (d_generation d) true))
       rest (carve_extent (free_extents a) i bytes)).

Inductive allocate_case (a : Arena) (l : HostKVPageLayout) (pages : Z)
    : Arena * option HostKVAllocation -> Prop :=
  | allocate_fails :
      can_allocate a l pages = false ->
      l ∉ layouts a \/ pages = 0 \/ Forall (fun e => ex_len e < page_stride l * pages) (free_extents a) ->
      allocate_case a l pages (a, None)
  | allocate_succeeds li i e rest idx d :
      can_allocate a l pages = true ->
      find_layout a l = Some li -> 0 < pages -> page_stride l * pages <= u64_max ->
      first_fit (free_extents a) (page_stride l * pages) = Some i -> free_extents a !! i = Some e ->
      page_stride l * pages <= ex_len e ->
      free_descriptors a = rest ++ [idx] -> at_index (descriptors a) idx = Some d ->
      d_active d = false ->
      allocate_case a l pages
        (allocated a li pages (page_stride l * pages) i e rest idx d,
         Some (mkAllocation (Some (self a)) idx (d_generation d))).

Lemma allocate_cases m a l pages :
  arena_inv m a -> 0 <= pages <= u32_max -> allocate_case a l pages (allocate a l pages).
Proof.
  intros Hinv Hpages. unfold allocate.
  destruct (find_layout a l) as [li|] eqn:Hl.
  2: { apply allocate_fails.
       - unfold can_allocate. rewrite Hl. by rewrite orb_true_r.
       - left. by apply find_layout_None. }
  pose proof (find_layout_Some _ _ _ Hl) as [_ Hlk].
  pose proof (proj1 (Forall_lookup _ _) (inv_layouts _ _ Hinv) _ _ Hlk) as Hs. cbn in Hs.
  pose proof (inv_m _ _ Hinv). pose proof (inv_capacity _ _ Hinv).
  assert (can_allocate a l pages =
    negb ((pages =? 0) || bool_decide (free_descriptors a = []) || (u64_max / pages <? page_stride l))
    && bool_decide (find_free_extent a (w64 (page_stride l * pages)) <> None)) as Hcan.
  { unfold can_allocate. rewrite Hl. rewrite (bool_decide_eq_false_2 (Some li = None)) by done.
    rewrite orb_false_r. by destruct (_ || _ || _). }
  destruct (Z.eqb_spec pages 0) as [Hp0|Hp0] in Hcan |- *; [apply allocate_fails; [by rewrite Hcan, Hp0|by auto]|].
  rewrite stride_fits in * by lia.
  unfold find_free_extent in *.
  (* no extent is large enough: every refusal *)
  assert (first_fit (free_extents a) (page_stride l * pages) = None ->
          Forall (fun e => ex_len e < page_stride l * pages) (free_extents a)) as Hnone.
  { intros Hff. apply find_index_None in Hff. eapply Forall_impl; [exact Hff|].
    cbn. intros e He. by apply Z.leb_gt. }
  destruct (first_fit (free_extents a) (page_stride l * pages)) as [i|] eqn:Hff.
  - pose proof (first_fit_Some _ _ _ _ (inv_extents _ _ Hinv) Hff) as (e & He & Hlen & Hb & Hend).
    assert (page_stride l * pages <= u64_max) as Hmax by extent_lia.
    rewrite (bool_decide_eq_true_2 (_ <= _)) in * by done. rewrite w64_small in * by nia.
    rewrite Hff in *. assert (m <= ex_len e) as Hme by nia.
    pose proof (descriptors_suffice _ _ Hinv _ _ He Hme) as Hne.
    rewrite (bool_decide_eq_false_2 _ Hne) in *. cbn [negb orb andb] in *. cbv iota.
    destruct (free_descriptors a) as [|idx rest _] eqn:Hfd using rev_ind; [done|].
    assert (idx ∈ free_descriptors a) as (d & Hd & Hact)%(inv_free _ _ Hinv).
    { rewrite Hfd. apply elem_of_app. right. by apply list_elem_of_singleton. }
    rewrite (take_descriptor_last a rest idx Hfd).
    pose proof (at_index_lt _ _ _ Hd). pose proof (inv_count_max _ _ Hinv).
    destruct (Z.eqb_spec idx u32_max); [lia|]. cbn. rewrite He, Hd.
    pose proof (occupied_bounds _ _ Hinv). pose proof (inv_total _ _ Hinv).
    pose proof (total_lookup _ _ _ _ _ (inv_extents _ _ Hinv) He).
    rewrite (w64_small (_ + _)) by nia.
    apply (allocate_succeeds a l pages li i e rest idx d); done || lia.
  - assert (can_allocate a l pages = false) as Hfalse.
    { rewrite Hcan. apply andb_false_iff. destruct (bool_decide (_ <= _)) eqn:Hb.
      - right. apply bool_decide_eq_true in Hb. rewrite w64_small by nia. by rewrite Hff.
      - left. by rewrite orb_true_r. }
    destruct (bool_decide (_ <= _)) eqn:Hb.
    + apply bool_decide_eq_true in Hb. rewrite w64_small, Hff by nia.
      case_match; by apply allocate_fails; auto.
    + rewrite orb_true_r. by apply allocate_fails; auto.
Qed.

Lemma elem_of_snoc {A} (l : list A) x y : x ∈ l ++ [y] <-> x ∈ l \/ x = y.
Proof. rewrite elem_of_app, list_elem_of_singleton. done. Qed.

Lemma allocated_inv m a l li pages i e rest idx d :
  arena_inv m a -> 0 <= pages <= u32_max ->
  find_layout a l = Some li -> 0 < pages -> free_extents a !! i = Some e ->
  page_stride l * pages <= ex_len e -> free_descriptors a = rest ++ [idx] ->
  at_index (descriptors a) idx = Some d -> d_active d = false ->
  arena_inv m (allocated a li pages (page_stride l * pages) i e rest idx d).
Proof.
  intros Hinv Hpages Hl Hpos He Hlen Hfd Hd Hact.
  destruct (find_layout_Some _ _ _ Hl) as [Hli Hlk].
  pose proof (proj1 (Forall_lookup _ _) (inv_layouts _ _ Hinv) _ _ Hlk) as Hs. cbn in Hs.
  pose proof (inv_m _ _ Hinv). pose proof (inv_capacity _ _ Hinv).
  assert (0 < page_stride l * pages) as Hbytes by nia.
  destruct (extents_wf_lookup _ _ _ _ _ (inv_extents _ _ Hinv) He) as (? & ? & Hend).
  destruct (carve_extent_spec _ _ _ _ (page_stride l * pages) ltac:(apply H0)
    (inv_extents _ _ Hinv) He) as (Hwf & Hcov & Htot); [lia|].
  pose proof (inv_free_nodup _ _ Hinv) as Hnd. rewrite Hfd, NoDup_app in Hnd.
  destruct Hnd as (Hnd & Hdisj & _).
  apply bump_revision_inv, (update_inv m a idx d); cbn -[cov total]; try done.
  - by apply (inv_generation _ _ Hinv idx).
  - intros _. exists l. pose proof (free_extent_offset _ _ Hinv _ _ He). cbn.
    split_and!; try done; extent_lia.
  - intros x. rewrite Hcov. unfold active_ind. rewrite Hact. cbn [d_active].
    unfold d_extent. cbn -[cov ind]. lia.
  - rewrite Htot. unfold active_bytes. rewrite Hact. cbn -[cov total ind]. lia.
  - unfold active_bytes at 1. rewrite Hact. unfold active_bytes. cbn. lia.
  - intros j. case_decide as Hj; [subst j|rewrite Hfd, elem_of_snoc; tauto].
    split; [|discriminate]. intros Hin. exfalso. apply (Hdisj idx Hin). by apply list_elem_of_singleton.
Qed.

Lemma allocated_lookup a li pages bytes i e rest idx d j :
  at_index (descriptors a) idx = Some d ->
  at_index (descriptors (allocated a li pages bytes i e rest idx d)) j =
    if decide (j = idx) then Some (mkDescriptor (ex_begin e) bytes li pages (d_generation d) true)
    else at_index (descriptors a) j.
Proof.
  intros Hd. pose proof (at_index_lt _ _ _ Hd). cbn. case_decide.
  - subst j. by rewrite at_set_index_eq.
  - rewrite at_set_index_ne; [done|lia|done].
Qed.

(** Handles to other descriptors survive, with the bytes they own. *)
Lemma allocated_other a li pages bytes i e rest idx d h :
  at_index (descriptors a) idx = Some d -> h_descriptor h <> idx ->
  valid_handle (allocated a li pages bytes i e rest idx d) h = valid_handle a h /\
  handle_extent (allocated a li pages bytes i e rest idx d) h = handle_extent a h.
Proof.
  intros Hd Hne. unfold handle_extent, valid_handle. rewrite allocated_lookup by done.
  rewrite decide_False by done. done.
Qed.

Lemma valid_handle_inactive a h d :
  at_index (descriptors a) (h_descriptor h) = Some d -> d_active d = false ->
  valid_handle a h = false.
Proof. intros Hd Ha. unfold valid_handle. rewrite Hd, Ha. apply andb_false_r. Qed.

(** ** Release *)

Definition released (a : Arena) (idx : Z) (d : Descriptor) : Arena :=
  bump_revision
    (with_update a (occupied_bytes a - d_bytes d)
       (set_index (descriptors a) idx
          (mkDescriptor 0 0 (d_layout d) 0 (increment_generation (d_generation d)) false))
       (free_descriptors a ++ [idx]) (insert_extent (free_extents a) (d_extent d))).

Lemma active_insertable m a idx d :
  arena_inv m a -> at_index (descriptors a) idx = Some d -> d_active d = true ->
  insertable (capacity_bytes a) (free_extents a) (d_extent d).
Proof.
  intros Hinv Hd Hact. destruct (active_bounds _ _ Hinv _ _ Hd Hact) as (? & ? & ?).
  pose proof (inv_m _ _ Hinv). split_and!; try (unfold d_extent; extent_lia).
  intros x Hx. by eapply active_not_free.
Qed.

Lemma release_cases m a x :
  arena_inv m a -> a_owner x = Some (self a) ->
  allocation_release a x =
    if valid_handle a (allocation_handle x)
    then match at_index (descriptors a) (a_descriptor x) with
         | Some d => (released a (a_descriptor x) d, empty_allocation, true)
         | None => (a, empty_allocation, false)
         end
    else (a, empty_allocation, false).
Proof.
  intros Hinv Hown. unfold allocation_release, allocation_handle, allocation_valid.
  rewrite bool_decide_eq_true_2 by congruence.
  unfold release_descriptor, valid_handle. cbn. rewrite bool_decide_eq_true_2 by done.
  destruct (at_index _ _) as [d|] eqn:Hd; [|done]. cbn.
  destruct (d_active d) eqn:Hact; [|done]. destruct (d_generation d =? a_generation x); [|done].
  cbn. rewrite w64_small; [done|].
  destruct (active_bounds _ _ Hinv _ _ Hd Hact) as (? & ? & ?). pose proof (inv_m _ _ Hinv).
  pose proof (occupied_bounds _ _ Hinv). pose proof (inv_capacity _ _ Hinv) as Hcap.
  destruct (insert_extent_spec (capacity_bytes a) (free_extents a) (d_extent d)) as (Hwf & _ & Htot);
    [lia|apply (inv_extents _ _ Hinv)|by eapply active_insertable|].
  pose proof (total_le 0 _ _ (proj1 Hcap) Hwf). pose proof (inv_total _ _ Hinv).
  cbn -[total] in Htot. lia.
Qed.

Lemma released_inv m a idx d :
  arena_inv m a -> at_index (descriptors a) idx = Some d -> d_active d = true ->
  arena_inv m (released a idx d).
Proof.
  intros Hinv Hd Hact.
  pose proof (inv_capacity _ _ Hinv).
  destruct (insert_extent_spec (capacity_bytes a) (free_extents a) (d_extent d))
    as (Hwf & Hcov & Htot); [lia|apply (inv_extents _ _ Hinv)|by eapply active_insertable|].
  apply bump_revision_inv, (update_inv m a idx d); cbn -[cov total]; try done.
  - pose proof (increment_generation_range (d_generation d)).
    pose proof (inv_generation _ _ Hinv _ _ Hd). lia.
  - intros x. rewrite Hcov. unfold active_ind. rewrite Hact. cbn [d_active]. lia.
  - rewrite Htot. unfold active_bytes. rewrite Hact. cbn -[cov total ind]. lia.
  - unfold active_bytes. rewrite Hact. cbn -[cov total ind]. lia.
  - apply NoDup_app. split_and!; [apply (inv_free_nodup _ _ Hinv)| |apply NoDup_singleton].
    intros j (d' & Hd' & Hoff)%(inv_free _ _ Hinv) ->%list_elem_of_singleton. congruence.
  - intros j. rewrite elem_of_snoc. case_decide as Hj; tauto.
Qed.

Lemma released_lookup a idx d j :
  at_index (descriptors a) idx = Some d ->
  at_index (descriptors (released a idx d)) j =
    if decide (j = idx)
    then Some (mkDescriptor 0 0 (d_layout d) 0 (increment_generation (d_generation d)) false)
    else at_index (descriptors a) j.
Proof.
  intros Hd. pose proof (at_index_lt _ _ _ Hd). cbn. case_decide.
  - subst j. by rewrite at_set_index_eq.
  - rewrite at_set_index_ne; [done|lia|done].
Qed.

Lemma released_other a idx d h :
  at_index (descriptors a) idx = Some d -> h_descriptor h <> idx ->
  valid_handle (released a idx d) h = valid_handle a h /\
  handle_extent (released a idx d) h = handle_extent a h.
Proof.
  intros Hd Hne. unfold handle_extent, valid_handle. rewrite released_lookup by done.
  rewrite decide_False by done. done.
Qed.

(** ** Split *)

Definition split_left (d : Descriptor) (stride k : Z) : Descriptor :=
  mkDescriptor (d_offset d) (k * stride) (d_layout d) k (increment_generation (d_generation d)) true.
Definition split_right (d : Descriptor) (stride k gen : Z) : Descriptor :=
  mkDescriptor (d_offset d + k * stride) ((d_pages d - k) * stride) (d_layout d) (d_pages d - k) gen true.

Definition splitted (a : Arena) (idx : Z) (d : Descriptor) (stride k : Z) (rest : list Z)
    (ridx : Z) (r : Descriptor) : Arena :=
  bump_revision
    (with_update a (occupied_bytes a)
       (set_index (set_index (descriptors a) ridx (split_right d stride k (d_generation r)))
          idx (split_left d stride k))
       rest (free_extents a)).

Inductive split_case (a : Arena) (x : HostKVAllocation) (k : Z)
    : Arena * result (HostKVAllocation * HostKVAllocation) -> Prop :=
  | split_stale :
      valid_handle a (allocation_handle x) = false -> split_case a x k (a, Throw InvalidArgument)
  | split_bounds :
      valid_handle a (allocation_handle x) = true -> k = 0 \/ page_count a x <= k ->
      split_case a x k (a, Throw OutOfRange)
  | split_ok d l rest ridx r :
      valid_handle a (allocation_handle x) = true ->
      at_index (descriptors a) (a_descriptor x) = Some d -> d_active d = true ->
      page_count a x = d_pages d -> 0 < k < d_pages d ->
      layouts a !! Z.to_nat (d_layout d) = Some l ->
      free_descriptors a = rest ++ [ridx] -> at_index (descriptors a) ridx = Some r ->
      d_active r = false ->
      split_case a x k
        (splitted a (a_descriptor x) d (page_stride l) k rest ridx r,
         Ok (mkAllocation (Some (self a)) (a_descriptor x) (increment_generation (d_generation d)),
             mkAllocation (Some (self a)) ridx (d_generation r))).

(** A descriptor with two pages or more leaves another one free. *)
Lemma descriptor_for_split m a idx d :
  arena_inv m a -> at_index (descriptors a) idx = Some d -> d_active d = true -> 2 <= d_pages d ->
  free_descriptors a <> [].
Proof.
  intros Hinv Hd Hact Hpages Hnil. pose proof (inv_m _ _ Hinv).
  assert (forall j e, descriptors a !! j = Some e -> d_active e = true) as Hall.
  { intros j e Hj. destruct (d_active e) eqn:E; [done|]. rewrite <- at_index_nat in Hj.
    assert (Z.of_nat j ∈ free_descriptors a) as Hin by (apply (inv_free _ _ Hinv); eauto).
    rewrite Hnil in Hin. by apply not_elem_of_nil in Hin. }
  assert (2 * m <= d_bytes d) as Hbig.
  { destruct (inv_active _ _ Hinv _ _ Hd Hact) as (l & _ & Hl & _ & -> & _).
    pose proof (proj1 (Forall_lookup _ _) (inv_layouts _ _ Hinv) _ _ Hl) as Hs. cbn in Hs. nia. }
  apply at_index_Some in Hd as [Hi Hd].
  (* replacing the big descriptor by a one-page one still leaves one page per descriptor *)
  set (small := mkDescriptor 0 m 0 0 0 true).
  pose proof (sum_with_insert active_bytes (descriptors a) _ _ small Hd) as Hsum.
  assert (forall j e, <[Z.to_nat idx := small]> (descriptors a) !! j = Some e -> m <= active_bytes e)
    as Hlow.
  { intros j e He. destruct (decide (j = Z.to_nat idx)) as [->|Hne].
    - rewrite list_lookup_insert_eq in He by (by eapply lookup_lt_Some). injection He as <-.
      cbn. lia.
    - rewrite list_lookup_insert_ne in He by done. unfold active_bytes. rewrite (Hall _ _ He).
      rewrite <- at_index_nat in He. apply (active_bounds _ _ Hinv _ _ He).
      apply (Hall j). by rewrite <- at_index_nat. }
  pose proof (sum_with_lower active_bytes _ m Hlow) as Hsum2.
  rewrite length_insert, Hsum, (inv_count _ _ Hinv), <- (inv_occupied _ _ Hinv) in Hsum2.
  unfold active_bytes in Hsum2. rewrite (Hall _ _ Hd) in Hsum2. cbn in Hsum2.
  pose proof (inv_total _ _ Hinv). pose proof (total_nonneg _ _ _ (inv_extents _ _ Hinv)).
  pose proof (Z.mul_succ_div_gt (capacity_bytes a) m). nia.
Qed.

Lemma page_count_valid a x d :
  valid_handle a (allocation_handle x) = true ->
  at_index (descriptors a) (a_descriptor x) = Some d ->
  d_active d = true /\ d_generation d = a_generation x /\ page_count a x = d_pages d /\
  a_owner x = Some (self a).
Proof.
  intros Hv Hd. apply valid_handle_Some in Hv as (Hown & d' & Hd' & Hact & Hgen).
  unfold allocation_handle in *. destruct (allocation_valid x) eqn:Hx; [|discriminate].
  cbn in *. rewrite Hd in Hd'. injection Hd' as <-. split_and!; try done.
  unfold page_count. rewrite Hx, Hd, Hact, Hgen, Z.eqb_refl. done.
Qed.

Lemma valid_allocation_lookup a x :
  valid_handle a (allocation_handle x) = true ->
  exists d, at_index (descriptors a) (a_descriptor x) = Some d.
Proof.
  intros Hv. apply valid_handle_Some in Hv as (Hown & d & Hd & _). exists d.
  unfold allocation_handle in *. by destruct (allocation_valid x).
Qed.

Lemma split_cases m a x k :
  arena_inv m a -> 0 <= k <= u32_max -> split_case a x k (split x k a).
Proof.
  intros Hinv Hk. unfold split. unfold_M.
  destruct (valid_handle a (allocation_handle x)) eqn:Hv; [|by apply split_stale]. cbn [negb].
  destruct (valid_allocation_lookup _ _ Hv) as [d Hd]. rewrite Hd.
  destruct (page_count_valid _ _ _ Hv Hd) as (Hact & Hgen & Hpc & Hown).
  destruct (Z.eqb_spec k 0) as [Hk0|Hk0]; [apply split_bounds; auto|].
  destruct (Z.leb_spec (d_pages d) k) as [Hle|Hlt]; [apply split_bounds; [done|right; lia]|].
  cbn [orb].
  destruct (inv_active _ _ Hinv _ _ Hd Hact) as (l & Hli & Hl & Hp & Hb & Ho & Hc).
  assert (0 < k < d_pages d) as Hk' by lia.
  pose proof (descriptor_for_split _ _ _ _ Hinv Hd Hact ltac:(lia)) as Hne.
  destruct (free_descriptors a) as [|ridx rest _] eqn:Hfd using rev_ind; [done|].
  assert (ridx ∈ free_descriptors a) as (r & Hr & Hoff)%(inv_free _ _ Hinv).
  { rewrite Hfd. apply elem_of_snoc. by right. }
  rewrite (take_descriptor_last a rest ridx Hfd).
  pose proof (at_index_lt _ _ _ Hr). pose proof (inv_count_max _ _ Hinv).
  destruct (Z.eqb_spec ridx u32_max); [lia|]. cbn. rewrite Hl, Hr.
  pose proof (proj1 (Forall_lookup _ _) (inv_layouts _ _ Hinv) _ _ Hl) as Hs. cbn in Hs.
  pose proof (inv_m _ _ Hinv). pose proof (inv_capacity _ _ Hinv) as Hcap.
  assert (k * page_stride l + (d_pages d - k) * page_stride l = d_bytes d) as Hsum by lia.
  assert (0 <= k * page_stride l) by nia. assert (0 <= (d_pages d - k) * page_stride l) by nia.
  assert (0 <= d_offset d) by lia.
  rewrite (w32_small (d_pages d - k)) by lia.
  rewrite (w64_small (k * page_stride l)) by lia. rewrite !w64_small by lia. rewrite Hact.
  by apply (split_ok a x k d l rest ridx r).
Qed.

Lemma split_ind d stride k gen x :
  0 <= k * stride -> 0 <= (d_pages d - k) * stride -> d_bytes d = stride * d_pages d ->
  ind (d_extent (split_left d stride k)) x + ind (d_extent (split_right d stride k gen)) x =
  ind (d_extent d) x.
Proof.
  intros Hl Hr Hb. unfold split_left, split_right, d_extent. cbn -[ind].
  assert (d_bytes d = k * stride + (d_pages d - k) * stride) as Hsum by lia.
  revert Hl Hr Hsum. generalize (k * stride) ((d_pages d - k) * stride). intros u v ? ? ?.
  ind_cases.
Qed.

Lemma splitted_lookup a idx d stride k rest ridx r j :
  at_index (descriptors a) idx = Some d -> at_index (descriptors a) ridx = Some r -> idx <> ridx ->
  at_index (descriptors (splitted a idx d stride k rest ridx r)) j =
    if decide (j = idx) then Some (split_left d stride k)
    else if decide (j = ridx) then Some (split_right d stride k (d_generation r))
    else at_index (descriptors a) j.
Proof.
  intros Hd Hr Hne. pose proof (at_index_lt _ _ _ Hd). pose proof (at_index_lt _ _ _ Hr).
  cbn. repeat case_decide; subst.
  - by rewrite at_set_index_eq by (by rewrite length_set_index).
  - rewrite at_set_index_ne by (lia || done). by rewrite at_set_index_eq.
  - rewrite !at_set_index_ne by (lia || done). done.
Qed.

Lemma splitted_inv m a idx d l k rest ridx r :
  arena_inv m a -> at_index (descriptors a) idx = Some d -> d_active d = true ->
  0 < k < d_pages d -> layouts a !! Z.to_nat (d_layout d) = Some l ->
  free_descriptors a = rest ++ [ridx] -> at_index (descriptors a) ridx = Some r ->
  d_active r = false ->
  arena_inv m (splitted a idx d (page_stride l) k rest ridx r).
Proof.
  intros Hinv Hd Hact Hk Hl Hfd Hr Hoff.
  assert (idx <> ridx) as Hne by congruence.
  destruct (inv_active _ _ Hinv _ _ Hd Hact) as (l' & Hli & Hl' & Hp & Hb & Ho & Hc).
  rewrite Hl in Hl'. injection Hl' as <-.
  pose proof (proj1 (Forall_lookup _ _) (inv_layouts _ _ Hinv) _ _ Hl) as Hs. cbn in Hs.
  pose proof (inv_m _ _ Hinv).
  assert (m <= k * page_stride l) by nia. assert (m <= (d_pages d - k) * page_stride l) by nia.
  pose proof (fun j => splitted_lookup a idx d (page_stride l) k rest ridx r j Hd Hr Hne) as Hlk.
  pose proof (inv_free_nodup _ _ Hinv) as Hnd. rewrite Hfd, NoDup_app in Hnd.
  destruct Hnd as (Hnd & Hdisj & _).
  assert (at_index (set_index (descriptors a) ridx
            (split_right d (page_stride l) k (d_generation r))) idx = Some d) as Hd'.
  { rewrite at_set_index_ne; [done|apply (at_index_lt _ _ _ Hr)|done]. }
  apply bump_revision_inv.
  split; cbn -[cov total ind split_left split_right]; rewrite ?length_set_index;
    try (by apply Hinv); try done.
  - intros x. rewrite (sum_with_set_index _ _ _ _ _ Hd'), (sum_with_set_index _ _ _ _ _ Hr).
    rewrite <- (inv_partition _ _ Hinv x). unfold active_ind at 2 3 4 5. rewrite Hoff, Hact.
    cbn [d_active split_left split_right].
    pose proof (split_ind d (page_stride l) k (d_generation r) x). lia.
  - rewrite (sum_with_set_index _ _ _ _ _ Hd'), (sum_with_set_index _ _ _ _ _ Hr).
    rewrite (inv_occupied _ _ Hinv). unfold active_bytes at 3 4 5 6. rewrite Hoff, Hact. cbn. lia.
  - intros j e. rewrite Hlk. repeat case_decide.
    + intros [= <-]. cbn. pose proof (increment_generation_range (d_generation d)).
      pose proof (inv_generation _ _ Hinv _ _ Hd). lia.
    + intros [= <-]. apply (inv_generation _ _ Hinv _ _ Hr).
    + apply (inv_generation _ _ Hinv).
  - intros j e. rewrite Hlk. repeat case_decide.
    + intros [= <-] _. exists l. cbn. split_and!; try done; lia.
    + intros [= <-] _. exists l. cbn. split_and!; try done; lia.
    + apply (inv_active _ _ Hinv).
  - intros j. rewrite Hlk. pose proof (inv_free _ _ Hinv j) as Hj. rewrite Hfd, elem_of_snoc in Hj.
    repeat case_decide; subst.
    + split; [|by intros (? & [= <-] & ?)]. intros Hin. destruct Hj as [Hj _].
      destruct (Hj (or_introl Hin)) as (? & ? & ?). congruence.
    + split; [|by intros (? & [= <-] & ?)]. intros Hin. exfalso. apply (Hdisj _ Hin).
      by apply list_elem_of_singleton.
    + rewrite <- Hj. tauto.
Qed.
