(* ===== verification/HostKVSpec.v ===== *)
(** * What the host KV arena promises

    The theorems about [HostKVArena]: sessions from the constructor keep the invariant and the
    reserved vector capacities, [allocate] is first fit and fails only for lack of a free extent,
    [release] undoes [allocate], [split] partitions an allocation, and a recipe minted by
    [plan_after_releases] is always adopted by [apply_recipe] at the planned offsets. *)

From S2P Require Import Prelude Extents Tensor KVGeometry HostKV HostKVInvariant.

(** ** Construction *)

Definition layouts_in_range (ls : list HostKVPageLayout) : Prop :=
  Forall (fun l => geometry_range (geometry l)) ls.

Lemma smallest_layout_spec rest first :
  smallest_layout first rest ∈ first :: rest /\
  Forall (fun l => page_stride (smallest_layout first rest) <= page_stride l) (first :: rest).
Proof.
  unfold smallest_layout. revert first. induction rest as [|l rest IH]; intros first; cbn.
  { split; [by left|]. by repeat constructor. }
  destruct (Z.ltb_spec (page_stride l) (page_stride first)).
  - destruct (IH l) as [Hin Hall]. split; [by right|].
    constructor; [|done]. apply Forall_cons in Hall as [Hl _]. lia.
  - destruct (IH first) as [Hin Hall]. apply Forall_cons in Hall as [Hf Hall]. split.
    + apply elem_of_cons in Hin as [->|Hin]; [by left|]. do 2 right. done.
    + constructor; [done|]. constructor; [lia|done].
Qed.

Lemma validate_layouts_Ok rest previous u :
  layouts_in_range rest -> validate_layouts previous rest = Ok u ->
  Forall (fun l => 0 < page_stride l <= u64_max) rest /\ NoDup rest /\
  (forall l, l ∈ rest -> l ∉ previous).
Proof.
  intros Hr. revert previous. induction Hr as [|l rest Hl _ IH]; intros previous; cbn.
  { intros _. split_and!; [constructor|constructor|]. intros l Hl. by apply not_elem_of_nil in Hl. }
  intros (planned & Hplan & H)%bind_Ok.
  pose proof (plan_host_kv_page_layout_cases _ Hl) as Hc. rewrite Hplan in Hc.
  apply bind_Ok in H as (? & Heq%throw_if_Ok & H). apply negb_false_iff, bool_decide_eq_true in Heq.
  apply bind_Ok in H as (? & Hdup%throw_if_Ok & H). apply bool_decide_eq_false in Hdup.
  destruct (IH _ H) as (Hs & Hnd & Hnew). subst planned. split_and!.
  - constructor; [tauto|done].
  - constructor; [|done]. intros Hin. apply (Hnew _ Hin), elem_of_app. right.
    by apply list_elem_of_singleton.
  - intros c [->|Hin]%elem_of_cons; [done|]. intros Hp. apply (Hnew _ Hin), elem_of_app. by left.
Qed.

Lemma descending_elem n i : i ∈ descending n <-> 0 <= i < Z.of_nat n.
Proof.
  induction n as [|n IH]; cbn; [rewrite elem_of_nil; lia|]. rewrite elem_of_cons, IH. lia.
Qed.

Lemma descending_NoDup n : NoDup (descending n).
Proof. induction n; cbn; constructor; [rewrite descending_elem; lia|done]. Qed.

Lemma make_arena_inv pin this cap supported a :
  layouts_in_range supported -> 0 <= cap <= u64_max -> make_arena pin this cap supported = Ok a ->
  (exists m, arena_inv m a) /\ self a = this /\ layouts a = supported /\ capacity_bytes a = cap /\
  occupied_bytes a = 0.
Proof.
  intros Hr Hcap. unfold make_arena. intros (u & Hv & H)%bind_Ok.
  destruct (validate_layouts_Ok _ _ _ Hr Hv) as (Hs & _ & _).
  destruct (Z.eqb_spec cap 0) as [->|Hne].
  - injection H as <-. split; [|done]. exists 1. split; cbn; try done; try lia.
    + eapply Forall_impl; [exact Hs|]. cbn. lia.
    + intros x. case_decide; lia.
    + intros i d Hi%at_index_lt. cbn in Hi. lia.
    + intros i d Hi%at_index_lt. cbn in Hi. lia.
    + constructor.
    + intros i. rewrite elem_of_nil. split; [done|]. intros (d & Hi%at_index_lt & _). cbn in Hi. lia.
  - destruct supported as [|first rest]; [discriminate|].
    apply bind_Ok in H as (base & _ & H). apply bind_Ok in H as ([] & Hmax%throw_if_Ok & H).
    injection H as <-. split; [|done].
    destruct (smallest_layout_spec rest first) as [Hin Hall].
    set (m := page_stride (smallest_layout first rest)) in *.
    assert (0 < m) as Hm by (pose proof (proj1 (Forall_forall _ _) Hs _ Hin); cbn in *; lia).
    apply Z.ltb_ge in Hmax. pose proof (Z.div_pos cap m ltac:(lia) Hm).
    assert (forall i d, at_index (replicate (Z.to_nat (cap / m)) default_descriptor) i = Some d ->
              d = default_descriptor) as Hrep.
    { intros i d [_ Hi]%at_index_Some. by apply lookup_replicate in Hi as [-> _]. }
    exists m. split; cbn -[cov total]; try done; rewrite ?length_replicate; try lia.
    + apply Forall_forall. intros l Hl. rewrite Forall_forall in Hs, Hall.
      specialize (Hs l Hl). specialize (Hall l Hl). cbn in *. lia.
    + cbn. extent_lia.
    + intros x. rewrite sum_with_replicate. unfold active_ind. cbn -[ind].
      unfold ind, ex_end. cbn. repeat case_decide; lia.
    + rewrite sum_with_replicate. cbn. lia.
    + cbn. lia.
    + intros i d ->%Hrep. cbn. lia.
    + intros i d ->%Hrep. discriminate.
    + apply descending_NoDup.
    + intros i. rewrite descending_elem. split.
      * intros Hi. destruct (at_index_is_Some (replicate (Z.to_nat (cap / m)) default_descriptor) i)
          as [d Hd]; [rewrite length_replicate; lia|]. exists d. split; [done|]. by rewrite (Hrep _ _ Hd).
      * intros (d & Hd%at_index_lt & _). rewrite length_replicate in Hd. lia.
Qed.

(** ** Sessions *)

(** Everything a client can do to an arena. *)
Inductive arena_step (a : Arena) : Arena -> Prop :=
  | step_allocate l pages :
      0 <= pages <= u32_max -> arena_step a (allocate a l pages).1
  | step_release x :
      a_owner x = Some (self a) -> arena_step a (allocation_release a x).1.1
  | step_split x k :
      0 <= k <= u32_max -> arena_step a (split x k a).1.

Inductive arena_session (a : Arena) : Arena -> Prop :=
  | session_start : arena_session a a
  | session_step b c : arena_session a b -> arena_step b c -> arena_session a c.

Lemma arena_step_inv m a b : arena_inv m a -> arena_step a b -> arena_inv m b.
Proof.
  intros Hinv [l pages Hp|x Hx|x k Hk].
  - destruct (allocate_cases m a l pages Hinv Hp) as [?|]; [done|]. cbn. by apply allocated_inv.
  - rewrite (release_cases m) by done. destruct (valid_handle _ _) eqn:Hv; [|done].
    destruct (valid_allocation_lookup _ _ Hv) as [d Hd]. rewrite Hd. cbn.
    apply released_inv; [done..|]. by destruct (page_count_valid _ _ _ Hv Hd).
  - destruct (split_cases m a x k Hinv Hk); [done..|]. cbn. by apply splitted_inv.
Qed.

Lemma arena_session_inv m a b : arena_inv m a -> arena_session a b -> arena_inv m b.
Proof. intros Hinv. induction 1; [done|]. by eapply arena_step_inv. Qed.

(** ** How many free extents there can be *)

Definition begins_at (x : Z) (d : Descriptor) : Z :=
  if d_active d then if decide (d_offset d + d_bytes d = x) then 1 else 0 else 0.
Definition is_active (d : Descriptor) : Z := if d_active d then 1 else 0.

Lemma begins_at_nonneg x d : 0 <= begins_at x d.
Proof. unfold begins_at. repeat case_match; lia. Qed.

Lemma sum_with_swap {A B} (f : A -> B -> Z) (l1 : list A) (l2 : list B) :
  sum_with (fun x => sum_with (f x) l2) l1 = sum_with (fun y => sum_with (fun x => f x y) l1) l2.
Proof.
  induction l1 as [|x l1 IH]; cbn.
  - induction l2 as [|y l2 IH2]; cbn; [done|]. by rewrite <- IH2.
  - rewrite IH. clear IH. induction l2 as [|y l2 IH2]; cbn; [done|].
    change (f x y + sum_with (f x) l2 + (sum_with (fun x => f x y) l1 +
      sum_with (fun y => sum_with (fun x => f x y) l1) l2) =
      f x y + sum_with (fun x => f x y) l1 +
      sum_with (fun y => f x y + sum_with (fun x => f x y) l1) l2).
    lia.
Qed.

Lemma sum_with_le {A} (f g : A -> Z) l :
  (forall i a, l !! i = Some a -> f a <= g a) -> sum_with f l <= sum_with g l.
Proof.
  induction l as [|a l IH]; intros H; [done|]. cbn.
  pose proof (H 0%nat a eq_refl). assert (sum_with f l <= sum_with g l); [|lia].
  apply IH. intros i b Hb. by apply (H (S i)).
Qed.

(** Distinct extents of a well-formed vector begin at distinct positions. *)
Lemma begins_once lo hi l x :
  extents_wf lo hi l -> sum_with (fun e => if decide (ex_begin e = x) then 1 else 0) l <= 1.
Proof.
  assert (forall l lo, extents_wf lo hi l -> x < lo ->
            sum_with (fun e => if decide (ex_begin e = x) then 1 else 0) l = 0) as Hzero.
  { clear. intros l lo Hwf Hx. apply sum_with_zero. intros i e Hi.
    destruct (extents_wf_lookup _ _ _ _ _ Hwf Hi). rewrite decide_False; [done|lia]. }
  revert lo. induction l as [|e l IH]; intros lo Hwf; [cbn; lia|].
  destruct Hwf as (? & ? & ? & Hwf). cbn. case_decide.
  - subst x. rewrite (Hzero _ _ Hwf) by extent_lia. lia.
  - specialize (IH _ Hwf). lia.
Qed.

(** Every free extent but one at offset 0 is preceded by its own active descriptor. *)
Lemma free_extents_count m a :
  arena_inv m a ->
  sum_with (fun e => if decide (ex_begin e = 0) then 0 else 1) (free_extents a) <=
  sum_with is_active (descriptors a).
Proof.
  intros Hinv.
  transitivity (sum_with (fun e => sum_with (begins_at (ex_begin e)) (descriptors a)) (free_extents a)).
  - apply sum_with_le. intros i e Hi. case_decide.
    { apply sum_with_nonneg, begins_at_nonneg. }
    destruct (free_extent_left _ _ Hinv _ _ Hi) as (j & d & [_ Hj]%at_index_Some & Hact & Hend); [done|].
    transitivity (begins_at (ex_begin e) d).
    + unfold begins_at. rewrite Hact, decide_True by done. lia.
    + apply (sum_with_elem _ _ _ _ (begins_at_nonneg _) Hj).
  - rewrite sum_with_swap. apply sum_with_le. intros i d Hd. unfold begins_at, is_active.
    destruct (d_active d); [|rewrite sum_with_zero; done].
    etransitivity; [|apply (begins_once _ _ _ (d_offset d + d_bytes d) (inv_extents _ _ Hinv))].
    apply sum_with_le. intros j e He. repeat case_decide; lia.
Qed.

Lemma sum_with_length {A} (f g : A -> Z) l :
  (forall a, f a + g a = 1) -> sum_with f l + sum_with g l = Z.of_nat (length l).
Proof.
  intros H. induction l as [|a l IH]; [done|]. rewrite length_cons, Nat2Z.inj_succ. cbn in *.
  specialize (H a). lia.
Qed.

Lemma active_count l : sum_with is_active l <= Z.of_nat (length l).
Proof.
  induction l as [|d l IH]; [done|]. rewrite length_cons, Nat2Z.inj_succ. cbn in *.
  unfold is_active at 1. destruct (d_active d); lia.
Qed.

Lemma inactive_count l k d :
  l !! k = Some d -> d_active d = false -> sum_with is_active l < Z.of_nat (length l).
Proof.
  intros Hk Hoff. set (d' := mkDescriptor 0 0 0 0 0 true).
  pose proof (sum_with_insert is_active _ _ _ d' Hk) as Hins.
  pose proof (active_count (<[k:=d']> l)) as Hle. rewrite length_insert in Hle.
  assert (is_active d = 0) by (unfold is_active; by rewrite Hoff).
  change (is_active d') with 1 in Hins. lia.
Qed.

Lemma free_extents_at_zero m a :
  arena_inv m a ->
  Z.of_nat (length (free_extents a)) <=
    sum_with (fun e => if decide (ex_begin e = 0) then 0 else 1) (free_extents a) + 1.
Proof.
  intros Hinv.
  rewrite <- (sum_with_length (fun e => if decide (ex_begin e = 0) then 0 else 1)
    (fun e => if decide (ex_begin e = 0) then 1 else 0)) by (intros; case_decide; lia).
  pose proof (begins_once _ _ _ 0 (inv_extents _ _ Hinv)). lia.
Qed.

(** The vector holds at most one extent more than there are descriptors. *)
Lemma free_extents_bound m a :
  arena_inv m a -> Z.of_nat (length (free_extents a)) <= Z.of_nat (length (descriptors a)) + 1.
Proof.
  intros Hinv. pose proof (free_extents_at_zero _ _ Hinv). pose proof (free_extents_count _ _ Hinv).
  pose proof (active_count (descriptors a)). lia.
Qed.

(** While an allocation is live, the vector has room for one more extent. *)
Lemma free_extents_room m a i d :
  arena_inv m a -> at_index (descriptors a) i = Some d -> d_active d = true ->
  Z.of_nat (length (free_extents a)) <= Z.of_nat (length (descriptors a)).
Proof.
  intros Hinv Hi Hact. pose proof (free_extents_count _ _ Hinv) as Hcount.
  pose proof (active_count (descriptors a)) as Hactive. pose proof (free_extents_at_zero _ _ Hinv) as Hzero.
  pose proof (inv_m _ _ Hinv).
  destruct (free_extents a) as [|e l] eqn:Hl; [cbn; lia|].
  assert (free_extents a !! 0%nat = Some e) as He by (by rewrite Hl).
  destruct (extents_wf_lookup _ _ _ _ _ (inv_extents _ _ Hinv) He) as (Hb & Hn & Hend).
  destruct (decide (ex_begin e = 0)) as [H0|H0].
  - (* the extent at offset 0 ends at an allocation, so it has room for a page *)
    assert (m <= ex_len e) as Hm.
    { destruct (decide (ex_end e < capacity_bytes a)) as [Hlt|Hge].
      - pose proof (cov_gap_right _ _ _ _ _ (inv_extents _ _ Hinv) He) as Hgap.
        destruct (not_free_active _ _ Hinv (ex_end e)) as (j & d2 & Hj & Hact2 & Hin);
          [extent_lia|done|].
        destruct (inv_active _ _ Hinv _ _ Hj Hact2) as (_ & _ & _ & _ & _ & Ho & _).
        destruct (active_bounds _ _ Hinv _ _ Hj Hact2) as (Hlen & Hoff & _).
        pose proof (active_not_free _ _ Hinv _ _ (ex_begin e) Hj Hact2) as Hnf.
        pose proof (cov_lookup _ _ _ (ex_begin e) He) as Hc. rewrite ind_begin in Hc by done.
        unfold d_extent in *. ind_cases.
      - destruct (active_bounds _ _ Hinv _ _ Hi Hact) as (Hlen & Hoff & Hcap).
        pose proof (active_not_free _ _ Hinv _ _ (d_offset d) Hi Hact) as Hnf.
        pose proof (cov_lookup _ _ _ (d_offset d) He) as Hc. unfold d_extent in *. ind_cases. }
    pose proof (descriptors_suffice _ _ Hinv _ _ He Hm) as Hfree.
    assert (exists k f, descriptors a !! k = Some f /\ d_active f = false) as (k & f & Hk & Hoff).
    { destruct (free_descriptors a) as [|k fd] eqn:Hfd; [done|].
      assert (k ∈ free_descriptors a) as (f & [_ Hf]%at_index_Some & Hoff)%(inv_free _ _ Hinv).
      { rewrite Hfd. by left. } eauto. }
    pose proof (inactive_count _ _ _ Hk Hoff). rewrite Hl in *. lia.
  - assert (sum_with (fun e => if decide (ex_begin e = 0) then 1 else 0) (free_extents a) = 0) as Hz.
    { apply sum_with_zero. intros j f Hj. rewrite decide_False; [done|].
      destruct j as [|j]; [congruence|]. rewrite Hl in Hj. cbn in Hj.
      pose proof (inv_extents _ _ Hinv) as Hwf. rewrite Hl in Hwf. destruct Hwf as (_ & _ & _ & Hwf).
      destruct (extents_wf_lookup _ _ _ _ _ Hwf Hj). extent_lia. }
    rewrite <- Hl in *.
    pose proof (sum_with_length (fun e => if decide (ex_begin e = 0) then 0 else 1)
      (fun e => if decide (ex_begin e = 0) then 1 else 0) (free_extents a)) as Hs.
    rewrite <- Hs; [lia|]. intros; case_decide; lia.
Qed.

(** ** Live handles *)

Lemma handle_extent_Some a h e :
  handle_extent a h = Some e <->
  h_owner h = Some (self a) /\
  exists d, at_index (descriptors a) (h_descriptor h) = Some d /\ d_active d = true /\
    d_generation d = h_generation h /\ e = d_extent d.
Proof.
  unfold handle_extent. destruct (valid_handle a h) eqn:Hv.
  - apply valid_handle_Some in Hv as (Hown & d & Hd & Hact & Hgen). rewrite Hd. cbn. split.
    + intros [= <-]. eauto 10.
    + intros (_ & d' & [= <-] & _ & _ & ->). done.
  - split; [discriminate|]. intros (Hown & d & Hd & Hact & Hgen & _). exfalso.
    assert (valid_handle a h = true); [|congruence]. apply valid_handle_Some. eauto.
Qed.

(** The bytes [x] owns do not overlap the bytes [y] owns. *)
Definition apart (e1 e2 : Extent) : Prop := ex_end e1 <= ex_begin e2 \/ ex_end e2 <= ex_begin e1.

Lemma live_handles_apart m a h1 h2 e1 e2 :
  arena_inv m a -> h1 <> h2 -> handle_extent a h1 = Some e1 -> handle_extent a h2 = Some e2 ->
  apart e1 e2.
Proof.
  intros Hinv Hne H1 H2.
  apply handle_extent_Some in H1 as (O1 & d1 & D1 & A1 & G1 & ->), H2 as (O2 & d2 & D2 & A2 & G2 & ->).
  assert (h_descriptor h1 <> h_descriptor h2) as Hd.
  { intros E. apply Hne. rewrite E, D2 in D1. injection D1 as ->.
    destruct h1, h2; cbn in *; congruence. }
  destruct (active_bounds _ _ Hinv _ _ D1 A1) as (B1 & _), (active_bounds _ _ Hinv _ _ D2 A2) as (B2 & _).
  pose proof (inv_m _ _ Hinv).
  pose proof (active_disjoint _ _ Hinv _ _ _ _ (d_offset d1) Hd D1 D2 A1 A2) as X1.
  pose proof (active_disjoint _ _ Hinv _ _ _ _ (d_offset d2) Hd D1 D2 A1 A2) as X2.
  unfold apart, d_extent in *. ind_cases.
Qed.

(** C2: In every session of an arena the free extents (kept sorted and coalesced) and the live
    handles partition the pinned buffer: a live handle owns a non-empty run of bytes inside it that
    no other handle owns and that is not free, every byte that is not free has a live handle,
    [free_bytes] is the total of the free extents, and the vectors never outgrow the storage the
    constructor reserved - so the [noexcept] release, which inserts before it merges, never
    reallocates. *)
Theorem host_session_sound pin this cap supported a b :
  layouts_in_range supported -> 0 <= cap <= u64_max ->
  make_arena pin this cap supported = Ok a -> arena_session a b ->
  capacity_bytes b = cap /\ 0 <= occupied_bytes b <= cap /\
  extents_wf 0 cap (free_extents b) /\ free_bytes b = total (free_extents b) /\
  (forall h e, handle_extent b h = Some e ->
     0 <= ex_begin e /\ 0 < ex_len e /\ ex_end e <= cap /\
     (forall x, ind e x = 1 -> cov (free_extents b) x = 0)) /\
  (forall h1 h2 e1 e2, h1 <> h2 -> handle_extent b h1 = Some e1 -> handle_extent b h2 = Some e2 ->
     apart e1 e2) /\
  (forall x, 0 <= x < cap -> cov (free_extents b) x = 0 ->
     exists h e, handle_extent b h = Some e /\ ind e x = 1) /\
  length (descriptors b) = length (descriptors a) /\
  (length (free_descriptors b) <= length (descriptors a))%nat /\
  (length (free_extents b) <= length (descriptors a) + 1)%nat /\
  (forall h e, handle_extent b h = Some e ->
     (length (free_extents b) <= length (descriptors a))%nat).
Proof.
  intros Hr Hcap Hmake Hs.
  destruct (make_arena_inv _ _ _ _ _ Hr Hcap Hmake) as ((m & Ha) & _ & _ & Hc & _).
  pose proof (arena_session_inv _ _ _ Ha Hs) as Hinv.
  assert (capacity_bytes b = cap) as Hcb.
  { clear Hinv. rewrite <- Hc. clear Hc. induction Hs as [|b c Hs IH Hstep]; [done|]. rewrite <- IH.
    pose proof (arena_session_inv _ _ _ Ha Hs) as Hinv. destruct Hstep as [l p Hp|x Hx|x k Hk].
    - by destruct (allocate_cases m b l p Hinv Hp).
    - rewrite (release_cases m) by done. by repeat case_match.
    - by destruct (split_cases m b x k Hinv Hk). }
  assert (length (descriptors b) = length (descriptors a)) as Hlen.
  { pose proof (inv_count _ _ Hinv). pose proof (inv_count _ _ Ha). rewrite Hcb, Hc in *. congruence || lia. }
  pose proof (occupied_bounds _ _ Hinv) as Hocc. rewrite Hcb in Hocc.
  pose proof (inv_total _ _ Hinv) as Htot.
  split_and!; try done; try lia.
  - rewrite <- Hcb. apply (inv_extents _ _ Hinv).
  - unfold free_bytes. rewrite w64_small; lia.
  - intros h e (Hown & d & Hd & Hact & Hgen & ->)%handle_extent_Some.
    destruct (active_bounds _ _ Hinv _ _ Hd Hact) as (? & ? & ?). pose proof (inv_m _ _ Hinv).
    split_and!; try (unfold d_extent; extent_lia). intros x Hx. by eapply active_not_free.
  - intros h1 h2 e1 e2. by apply (live_handles_apart m).
  - intros x Hx Hfree. destruct (not_free_active _ _ Hinv x) as (i & d & Hd & Hact & Hin);
      [lia|done|].
    exists (mkHandle (Some (self b)) i (d_generation d)), (d_extent d). split; [|done].
    apply handle_extent_Some. eauto 10.
  - rewrite <- Hlen. pose proof (inv_free_nodup _ _ Hinv) as Hnd.
    rewrite <- (length_seq (length (descriptors b)) 0), <- (length_fmap Z.of_nat).
    apply submseteq_length, NoDup_submseteq; [done|].
    intros i (d & Hd%at_index_lt & _)%(inv_free _ _ Hinv). apply list_elem_of_fmap.
    exists (Z.to_nat i). split; [lia|]. apply elem_of_seq. lia.
  - pose proof (free_extents_bound _ _ Hinv). lia.
  - intros h e (_ & d & Hd & Hact & _)%handle_extent_Some.
    pose proof (free_extents_room _ _ _ _ Hinv Hd Hact). lia.
Qed.

(** A one-token page of one byte: a 256-byte record, and an arena of four of them. *)
Definition demo_geometry : KVPageGeometry := mkGeometry 1 PageMajor [mkPlane U8 1 1 1].
Definition demo_layout : HostKVPageLayout := mkHostLayout demo_geometry [mkHostPlane 0 1 1] 256.
Definition demo_arena : Arena :=
  mkArena 1 (Some 4096) 1024 0 [demo_layout] (replicate 4 default_descriptor) [3; 2; 1; 0]
    [mkExtent 0 1024] 1.

Lemma demo_layouts_in_range : layouts_in_range [demo_layout].
Proof. repeat constructor; cbn; lia. Qed.

Lemma demo_arena_made : make_arena (fun _ => Ok 4096) 1 1024 [demo_layout] = Ok demo_arena.
Proof. reflexivity. Qed.

Lemma demo_arena_inv : exists m, arena_inv m demo_arena.
Proof.
  apply (make_arena_inv (fun _ => Ok 4096) 1 1024 [demo_layout]).
  - apply demo_layouts_in_range.
  - lia.
  - apply demo_arena_made.
Qed.

Lemma host_session_sound_witness :
  let b := (allocate demo_arena demo_layout 3).1 in
  free_extents b = [mkExtent 768 256] /\ free_bytes b = total (free_extents b).
Proof.
  intros b. split; [reflexivity|].
  apply (host_session_sound (fun _ => Ok 4096) 1 1024 [demo_layout] demo_arena b).
  - apply demo_layouts_in_range.
  - lia.
  - apply demo_arena_made.
  - eapply session_step; [apply session_start|]. apply step_allocate. lia.
Defined.

(** ** Allocation *)

Lemma allocation_valid_owner o i g : allocation_valid (mkAllocation (Some o) i g) = true.
Proof. done. Qed.

(** [allocate] is first fit, and refuses only when it has to: on success the new handle is
    fresh, owns exactly [pages] pages at the start of the first free extent that is large enough,
    all of them free before, and every other handle keeps its bytes; on failure the arena is
    unchanged and the layout is unsupported, the page count is zero or no free extent is large
    enough - the descriptors never run out first.  [can_allocate] predicts which of the two. *)
Theorem host_allocate_spec m a l pages :
  arena_inv m a -> 0 <= pages <= u32_max ->
  match allocate a l pages with
  | (a', Some x) =>
      can_allocate a l pages = true /\ arena_inv m a' /\
      exists pre e post,
        free_extents a = pre ++ e :: post /\
        Forall (fun f => ex_len f < page_stride l * pages) pre /\
        page_stride l * pages <= ex_len e /\
        valid_handle a (allocation_handle x) = false /\ page_count a' x = pages /\
        handle_extent a' (allocation_handle x) =
          Some (mkExtent (ex_begin e) (page_stride l * pages)) /\
        occupied_bytes a' = occupied_bytes a + page_stride l * pages /\
        (forall h e', handle_extent a h = Some e' -> handle_extent a' h = Some e') /\
        (forall z, cov (free_extents a') z =
           cov (free_extents a) z - ind (mkExtent (ex_begin e) (page_stride l * pages)) z)
  | (a', None) =>
      can_allocate a l pages = false /\ a' = a /\
      (l ∉ layouts a \/ pages = 0 \/
       Forall (fun e => ex_len e < page_stride l * pages) (free_extents a))
  end.
Proof.
  intros Hinv Hp.
  destruct (allocate_cases m a l pages Hinv Hp)
    as [?|li i e rest idx d Hcan Hl Hpos Hmax Hff He Hlen Hfd Hd Hoff]; [done|].
  split; [done|]. split; [by apply allocated_inv|].
  pose proof Hff as (pre & e' & post & Hsplit & Hi & _ & Hpre)%find_index_Some.
  rewrite Hsplit, (lookup_middle _ _ _ _ Hi) in He. injection He as ->.
  assert (free_extents a !! i = Some e) as He by (by rewrite Hsplit, (lookup_middle _ _ _ _ Hi)).
  destruct (find_layout_Some _ _ _ Hl) as [_ Hlk].
  pose proof (proj1 (Forall_lookup _ _) (inv_layouts _ _ Hinv) _ _ Hlk) as Hs. cbn in Hs.
  pose proof (inv_m _ _ Hinv). pose proof (inv_capacity _ _ Hinv) as [_ Hcap].
  exists pre, e, post. split_and!; try done.
  - eapply Forall_impl; [exact Hpre|]. intros f Hf. by apply Z.leb_gt.
  - by apply (valid_handle_inactive a _ d).
  - unfold page_count. rewrite allocation_valid_owner.
    cbn [a_descriptor a_generation]. rewrite allocated_lookup, decide_True by done. cbn.
    by rewrite Z.eqb_refl.
  - apply handle_extent_Some. split; [done|].
    exists (mkDescriptor (ex_begin e) (page_stride l * pages) li pages (d_generation d) true).
    split_and!; try done. cbn [allocation_handle]. rewrite allocated_lookup by done.
    by rewrite decide_True.
  - intros h e' Hh. destruct (decide (h_descriptor h = idx)) as [Heq|Hne].
    + apply handle_extent_Some in Hh as (_ & d' & Hd' & Hact & _). congruence.
    + by rewrite (proj2 (allocated_other a li pages _ i e rest idx d h Hd Hne)).
  - intros z. apply (carve_extent_spec (capacity_bytes a)); [done|apply (inv_extents _ _ Hinv)|done|].
    nia.
Qed.

Lemma host_allocate_spec_witness :
  match allocate demo_arena demo_layout 3 with
  | (a', Some x) => can_allocate demo_arena demo_layout 3 = true /\ page_count a' x = 3
  | (_, None) => False
  end.
Proof.
  destruct demo_arena_inv as [m Hinv].
  pose proof (host_allocate_spec m demo_arena demo_layout 3 Hinv ltac:(lia)) as H.
  destruct (allocate demo_arena demo_layout 3) as [a' [x|]] eqn:E.
  - destruct H as (Hc & _ & pre & e & post & _ & _ & _ & _ & Hp & _). split; [exact Hc|exact Hp].
  - vm_compute in E. discriminate.
Defined.

(** ** Release *)

(** The same free space and byte counter. *)
Definition same_space (a b : Arena) : Prop :=
  free_extents a = free_extents b /\ occupied_bytes a = occupied_bytes b /\
  capacity_bytes a = capacity_bytes b.

Lemma same_space_of_cov m a b :
  arena_inv m a -> arena_inv m b -> capacity_bytes a = capacity_bytes b ->
  (forall x, cov (free_extents a) x = cov (free_extents b) x) -> same_space a b.
Proof.
  intros Ha Hb Hcap Hcov. pose proof (inv_extents _ _ Ha) as Wa. rewrite Hcap in Wa.
  assert (free_extents a = free_extents b) as E
    by (by apply (extents_canonical _ _ _ _ Wa (inv_extents _ _ Hb))).
  split_and!; [done| |done]. pose proof (inv_total _ _ Ha). pose proof (inv_total _ _ Hb).
  rewrite E in *. lia.
Qed.

Lemma increment_generation_fresh m a i d :
  arena_inv m a -> at_index (descriptors a) i = Some d ->
  increment_generation (d_generation d) <> d_generation d.
Proof. intros Hinv Hd. apply increment_generation_neq. by apply (inv_generation _ _ Hinv i). Qed.

(** Releasing a live allocation gives exactly its bytes back to the free extents, makes every
    copy of its handle stale and leaves all other handles alone; releasing a stale one changes
    nothing and returns false.  Releasing an allocation right after [allocate] returned it restores
    the free extents and the byte counter, so repeated use cannot fragment an idle arena. *)
Theorem host_release_spec m a x :
  arena_inv m a -> a_owner x = Some (self a) ->
  match allocation_release a x with
  | (a', x', true) =>
      arena_inv m a' /\ allocation_valid x' = false /\
      valid_handle a' (allocation_handle x) = false /\
      (exists e, handle_extent a (allocation_handle x) = Some e /\
         occupied_bytes a' = occupied_bytes a - ex_len e /\
         (forall z, cov (free_extents a') z = cov (free_extents a) z + ind e z)) /\
      (forall h, h_descriptor h <> a_descriptor x -> handle_extent a' h = handle_extent a h) /\
      (forall b l pages, arena_inv m b -> 0 <= pages <= u32_max ->
         allocate b l pages = (a, Some x) -> same_space a' b)
  | (a', x', false) => a' = a /\ valid_handle a (allocation_handle x) = false
  end.
Proof.
  intros Hinv Hown. rewrite (release_cases m) by done.
  destruct (valid_handle a (allocation_handle x)) eqn:Hv; [|done].
  destruct (valid_allocation_lookup _ _ Hv) as [d Hd]. rewrite Hd.
  destruct (page_count_valid _ _ _ Hv Hd) as (Hact & Hgen & _ & _).
  assert (allocation_handle x = mkHandle (Some (self a)) (a_descriptor x) (a_generation x)) as Hx.
  { unfold allocation_handle, allocation_valid. rewrite Hown. done. }
  pose proof (inv_capacity _ _ Hinv) as [_ Hcap].
  destruct (insert_extent_spec (capacity_bytes a) (free_extents a) (d_extent d)) as (_ & Hcov & _);
    [done|apply (inv_extents _ _ Hinv)|by eapply active_insertable|].
  pose proof (released_inv m a _ d Hinv Hd Hact) as Hinv'.
  split_and!; try done.
  - unfold valid_handle. rewrite Hx. cbn [h_descriptor h_generation].
    rewrite released_lookup, decide_True by done. apply andb_false_r.
  - exists (d_extent d). split_and!; [|done|done]. apply handle_extent_Some. rewrite Hx.
    split; [done|]. exists d. done.
  - intros h Hne. apply (released_other a _ d h Hd Hne).
  - intros b l pages Hb Hp Halloc.
    pose proof (allocate_cases m b l pages Hb Hp) as Hcase. rewrite Halloc in Hcase.
    inversion Hcase as [|li i e rest idx d0 ? ? Hpos ? ? He Hlen ? Hd0 ? Ha].
    match goal with E : mkAllocation _ _ _ = x |- _ => rename E into Hxeq end.
    rewrite Ha, Hxeq. assert (a_descriptor x = idx) as Hidx by (by rewrite <- Hxeq).
    apply (same_space_of_cov m); [done..|by rewrite <- Ha|].
    intros z. pose proof (inv_capacity _ _ Hb) as [_ Hcapb].
    cbn [free_extents released bump_revision with_update]. rewrite Hcov. rewrite <- Ha.
    assert (d = mkDescriptor (ex_begin e) (page_stride l * pages) li pages (d_generation d0) true) as ->.
    { rewrite <- Ha, Hidx in Hd. rewrite allocated_lookup, decide_True in Hd by done.
      by injection Hd. }
    cbn [allocated bump_revision with_update free_extents].
    destruct (carve_extent_spec (capacity_bytes b) (free_extents b) i e (page_stride l * pages))
      as (_ & Hc & _); [done|apply (inv_extents _ _ Hb)|done| |].
    + split; [|done]. pose proof (active_bounds _ _ Hinv _ _ Hd Hact) as (Hbytes & _). cbn in Hbytes.
      pose proof (inv_m _ _ Hinv). lia.
    + rewrite Hc. unfold d_extent. cbn [d_offset d_bytes]. lia.
Qed.

Lemma host_release_spec_witness :
  match allocate demo_arena demo_layout 3 with
  | (a, Some x) => same_space (allocation_release a x).1.1 demo_arena
  | (_, None) => False
  end.
Proof.
  destruct demo_arena_inv as [m Hinv].
  pose proof (arena_step_inv m _ _ Hinv (step_allocate demo_arena demo_layout 3 ltac:(lia))) as Ha.
  destruct (allocate demo_arena demo_layout 3) as [a [x|]] eqn:E;
    [|exfalso; vm_compute in E; discriminate].
  cbn [fst] in Ha.
  assert (a_owner x = Some (self a)) as Hown by (vm_compute in E; injection E as <- <-; reflexivity).
  pose proof (host_release_spec m a x Ha Hown) as H.
  destruct (allocation_release a x) as [[a' x'] [|]] eqn:E2.
  - destruct H as (_ & _ & _ & _ & _ & H).
    exact (H demo_arena demo_layout 3 Hinv ltac:(lia) E).
  - exfalso. vm_compute in E. injection E as <- <-. vm_compute in E2. discriminate.
Defined.

(** ** Split *)

(** Releasing a live allocation, in one equation. *)
Lemma release_live m a x d :
  arena_inv m a -> valid_handle a (allocation_handle x) = true ->
  at_index (descriptors a) (a_descriptor x) = Some d ->
  allocation_release a x = (released a (a_descriptor x) d, empty_allocation, true) /\
  arena_inv m (released a (a_descriptor x) d) /\
  (forall z, cov (free_extents (released a (a_descriptor x) d)) z =
     cov (free_extents a) z + ind (d_extent d) z).
Proof.
  intros Hinv Hv Hd. destruct (page_count_valid _ _ _ Hv Hd) as (Hact & _ & _ & Hown).
  rewrite (release_cases m), Hv, Hd by done. split_and!; [done|by apply released_inv|].
  apply (insert_extent_spec (capacity_bytes a)); [apply (inv_capacity _ _ Hinv)|
    apply (inv_extents _ _ Hinv)|by eapply active_insertable].
Qed.

Lemma valid_of_lookup a o i d :
  o = self a -> at_index (descriptors a) i = Some d -> d_active d = true ->
  valid_handle a (allocation_handle (mkAllocation (Some o) i (d_generation d))) = true.
Proof. intros -> Hd Hact. apply valid_handle_Some. split; [done|]. by exists d. Qed.

Lemma page_count_of_lookup a o i d :
  at_index (descriptors a) i = Some d -> d_active d = true ->
  page_count a (mkAllocation (Some o) i (d_generation d)) = d_pages d.
Proof.
  intros Hd Hact. unfold page_count. rewrite allocation_valid_owner. cbn [a_descriptor a_generation].
  by rewrite Hd, Hact, Z.eqb_refl.
Qed.

Lemma handle_extent_of_lookup a o i d :
  o = self a -> at_index (descriptors a) i = Some d -> d_active d = true ->
  handle_extent a (allocation_handle (mkAllocation (Some o) i (d_generation d))) = Some (d_extent d).
Proof. intros -> Hd Hact. apply handle_extent_Some. split; [done|]. by exists d. Qed.

(** [split] cuts a live allocation of [n] pages after page [k]: the two new handles own the
    first [k] and the last [n - k] pages of the same bytes, the old handle becomes stale, no other
    handle and no free byte changes, and releasing both halves frees what releasing the whole would
    have freed.  It throws only for a stale handle or a [k] outside (0, n), without any change; the
    "descriptor capacity" logic error cannot happen. *)
Theorem host_split_spec m a x k :
  arena_inv m a -> 0 <= k <= u32_max ->
  match split x k a with
  | (a', Ok (lo, hi)) =>
      let n := page_count a x in
      0 < k < n /\ arena_inv m a' /\
      valid_handle a' (allocation_handle x) = false /\
      page_count a' lo = k /\ page_count a' hi = n - k /\
      (exists b s, handle_extent a (allocation_handle x) = Some (mkExtent b (s * n)) /\
         handle_extent a' (allocation_handle lo) = Some (mkExtent b (s * k)) /\
         handle_extent a' (allocation_handle hi) = Some (mkExtent (b + s * k) (s * (n - k)))) /\
      same_space a' a /\
      (forall h e, h_descriptor h <> a_descriptor x -> handle_extent a h = Some e ->
         handle_extent a' h = Some e) /\
      same_space (allocation_release (allocation_release a' lo).1.1 hi).1.1
        (allocation_release a x).1.1
  | (a', Throw e) =>
      a' = a /\
      ((e = InvalidArgument /\ valid_handle a (allocation_handle x) = false) \/
       (e = OutOfRange /\ valid_handle a (allocation_handle x) = true /\ (k = 0 \/ page_count a x <= k)))
  end.
Proof.
  intros Hinv Hk. destruct (split_cases m a x k Hinv Hk)
    as [Hst|Hv Hb|d l rest ridx r Hv Hd Hact Hpc Hkd Hl Hfd Hr Hoff]; [by auto..|].
  cbv zeta. rewrite Hpc. set (idx := a_descriptor x) in *.
  assert (idx <> ridx) as Hne by congruence.
  pose proof (splitted_inv m a idx d l k rest ridx r Hinv Hd Hact Hkd Hl Hfd Hr Hoff) as Hinv'.
  set (a' := splitted a idx d (page_stride l) k rest ridx r) in *.
  pose proof (fun j => splitted_lookup a idx d (page_stride l) k rest ridx r j Hd Hr Hne) as Hlk.
  fold a' in Hlk.
  assert (at_index (descriptors a') idx = Some (split_left d (page_stride l) k)) as Hleft
    by (by rewrite Hlk, decide_True).
  assert (at_index (descriptors a') ridx = Some (split_right d (page_stride l) k (d_generation r)))
    as Hright by (by rewrite Hlk, decide_False, decide_True).
  destruct (inv_active _ _ Hinv _ _ Hd Hact) as (l' & _ & Hl' & _ & Hbytes & _).
  assert (l' = l) as -> by congruence.
  set (xl := mkAllocation (Some (self a)) idx (increment_generation (d_generation d))).
  set (xr := mkAllocation (Some (self a)) ridx (d_generation r)).
  assert (valid_handle a' (allocation_handle xl) = true) as Vl
    by (apply (valid_of_lookup a' _ idx _ eq_refl Hleft eq_refl)).
  assert (valid_handle a' (allocation_handle xr) = true) as Vr
    by (apply (valid_of_lookup a' _ ridx _ eq_refl Hright eq_refl)).
  destruct (page_count_valid _ _ _ Hv Hd) as (_ & Hgen & _ & Hown).
  assert (allocation_handle x = mkHandle (Some (self a)) idx (a_generation x)) as Hx.
  { unfold allocation_handle, allocation_valid. rewrite Hown. done. }
  split_and!; try done; try lia.
  - unfold valid_handle. rewrite Hx. cbn [h_descriptor h_generation]. rewrite Hleft.
    cbn [split_left d_active d_generation andb]. rewrite <- Hgen.
    pose proof (increment_generation_fresh _ _ _ _ Hinv Hd).
    destruct (Z.eqb_spec (increment_generation (d_generation d)) (d_generation d)); [done|].
    apply andb_false_r.
  - apply (page_count_of_lookup a' _ idx _ Hleft eq_refl).
  - apply (page_count_of_lookup a' _ ridx _ Hright eq_refl).
  - exists (d_offset d), (page_stride l). split_and!.
    + apply handle_extent_Some. rewrite Hx. split; [done|]. exists d. split_and!; try done.
      unfold d_extent. by rewrite Hbytes.
    + etransitivity; [exact (handle_extent_of_lookup a' _ idx _ eq_refl Hleft eq_refl)|].
      unfold d_extent, split_left. cbn. do 2 f_equal. lia.
    + etransitivity; [exact (handle_extent_of_lookup a' _ ridx _ eq_refl Hright eq_refl)|].
      unfold d_extent, split_right. cbn. f_equal. f_equal; lia.
  - intros h e Hh He. apply handle_extent_Some in He as (Ho & d' & Hd' & Hact' & Hgen' & ->).
    apply handle_extent_Some. split; [done|]. exists d'. split_and!; try done.
    rewrite Hlk, decide_False by done. rewrite decide_False; [done|congruence].
  - destruct (release_live m a x d Hinv Hv Hd) as (-> & IA & CA).
    destruct (release_live m a' xl _ Hinv' Vl Hleft) as (-> & IL & CL). cbn [fst].
    set (b := released a' (a_descriptor xl) (split_left d (page_stride l) k)) in *.
    assert (a_descriptor xl = idx) as Exl by done.
    assert (at_index (descriptors b) ridx =
              Some (split_right d (page_stride l) k (d_generation r))) as Hright'.
    { unfold b. rewrite released_lookup by done. by rewrite decide_False by congruence. }
    assert (valid_handle b (allocation_handle xr) = true) as Vr'
      by (apply (valid_of_lookup b _ ridx _ eq_refl Hright' eq_refl)).
    destruct (release_live m b xr _ IL Vr' Hright') as (-> & IR & CR). cbn [fst].
    apply (same_space_of_cov m); [done..|]. intros z. rewrite CR, CL, CA.
    change (free_extents a') with (free_extents a).
    pose proof (proj1 (Forall_lookup _ _) (inv_layouts _ _ Hinv) _ _ Hl) as Hs. cbn in Hs.
    pose proof (inv_m _ _ Hinv).
    pose proof (split_ind d (page_stride l) k (d_generation r) z ltac:(nia) ltac:(nia) Hbytes). lia.
Qed.

Lemma host_split_spec_witness :
  match allocate demo_arena demo_layout 3 with
  | (a, Some x) =>
      match split x 1 a with
      | (a', Ok (lo, hi)) => page_count a' lo = 1 /\ page_count a' hi = 2
      | _ => False
      end
  | (_, None) => False
  end.
Proof.
  destruct demo_arena_inv as [m Hinv].
  pose proof (arena_step_inv m _ _ Hinv (step_allocate demo_arena demo_layout 3 ltac:(lia))) as Ha.
  destruct (allocate demo_arena demo_layout 3) as [a [x|]] eqn:E;
    [|exfalso; vm_compute in E; discriminate].
  pose proof (host_split_spec m a x 1 Ha ltac:(lia)) as H.
  destruct (split x 1 a) as [a' [[lo hi]|e]] eqn:E2.
  - destruct H as (_ & _ & _ & Hl & Hr & _). split; [exact Hl|]. rewrite Hr.
    vm_compute in E. injection E as <- <-. reflexivity.
  - exfalso. vm_compute in E. injection E as <- <-. vm_compute in E2. discriminate.
Defined.
