(* ===== verification/HostKVRecipe.v ===== *)
(** * Planned batches of releases and allocations

    [plan_after_releases] simulates a batch on a copy of the free extents; [apply_recipe] replays it
    on the arena and calls [std::terminate] when an allocation does not land where the plan said.
    This file shows that it always does. *)

From S2P Require Import Prelude Extents Tensor KVGeometry HostKV HostKVInvariant HostKVSpec.

(** ** Releases *)

(** [b] is [a] after releasing the handles [seen]; [sim] is the simulation's free extents. *)
Record released_to (m : Z) (a b : Arena) (seen : list HostKVAllocationHandle) (sim : list Extent)
    : Prop := {
  rt_inv : arena_inv m b;
  rt_self : self b = self a;
  rt_layouts : layouts b = layouts a;
  rt_sim : free_extents b = sim;
  rt_live : forall h, valid_handle a h = true -> h ∉ seen ->
    at_index (descriptors b) (h_descriptor h) = at_index (descriptors a) (h_descriptor h);
}.

Lemma released_to_valid m a b seen sim h :
  released_to m a b seen sim -> valid_handle a h = true -> h ∉ seen -> valid_handle b h = true.
Proof.
  intros [] Hv Hs. unfold valid_handle in *. rewrite rt_self0, rt_live0 by done. done.
Qed.

Lemma handle_same_descriptor a h1 h2 :
  valid_handle a h1 = true -> valid_handle a h2 = true -> h_descriptor h1 = h_descriptor h2 -> h1 = h2.
Proof.
  intros (O1 & d1 & D1 & _ & G1)%valid_handle_Some (O2 & d2 & D2 & _ & G2)%valid_handle_Some E.
  rewrite E, D2 in D1. injection D1 as ->. destruct h1, h2; cbn in *; congruence.
Qed.

Lemma allocation_handle_fields a x h :
  valid_handle a h = true -> allocation_handle x = h ->
  a_owner x = Some (self a) /\ a_descriptor x = h_descriptor h /\ a_generation x = h_generation h.
Proof.
  intros Hv <-. unfold allocation_handle in *. destruct (allocation_valid x) eqn:E.
  - apply valid_handle_Some in Hv as (Ho & _). done.
  - apply valid_handle_Some in Hv as (Ho & _). discriminate.
Qed.

Lemma release_step m a b seen sim x h d :
  released_to m a b seen sim -> valid_handle a h = true -> h ∉ seen ->
  allocation_handle x = h -> at_index (descriptors a) (h_descriptor h) = Some d ->
  exists b', allocation_release b x = (b', empty_allocation, true) /\
    released_to m a b' (seen ++ [h]) (insert_extent sim (d_extent d)).
Proof.
  intros Hrt Hv Hs Hx Hd.
  pose proof (released_to_valid _ _ _ _ _ _ Hrt Hv Hs) as Hvb.
  destruct (allocation_handle_fields _ _ _ Hvb Hx) as (Ho & Hdx & _).
  pose proof (rt_live _ _ _ _ _ Hrt h Hv Hs) as Hlive. rewrite Hd in Hlive.
  rewrite <- Hx in Hvb. rewrite <- Hdx in Hlive.
  destruct (release_live m b x d (rt_inv _ _ _ _ _ Hrt) Hvb Hlive) as (-> & Hinv & _).
  eexists. split; [done|]. split; try by apply Hrt.
  - done.
  - cbn. by rewrite (rt_sim _ _ _ _ _ Hrt).
  - intros h' Hv' Hn. apply not_elem_of_app in Hn as [Hn Hne].
    rewrite released_lookup by done. rewrite decide_False; [by apply (rt_live _ _ _ _ _ Hrt)|].
    intros E. apply Hne, list_elem_of_singleton. rewrite Hdx in E.
    by apply (handle_same_descriptor a).
Qed.

(** The allocations a client passes are the ones the recipe was planned for. *)
Definition names_handle (h : HostKVAllocationHandle) (x : option HostKVAllocation) : Prop :=
  exists y, x = Some y /\ allocation_handle y = h.

Lemma release_all_planned m a rest xs seen sim sim' b :
  Forall2 names_handle rest xs -> released_to m a b seen sim ->
  plan_releases a seen rest sim = Some sim' ->
  exists b', release_all xs b = (b', Ok (replicate (length rest) (Some empty_allocation))) /\
    released_to m a b' (seen ++ rest) sim'.
Proof.
  intros Hxs. revert seen sim b. induction Hxs as [|h x rest xs (y & -> & Hy) _ IH];
    intros seen sim b Hrt Hplan; cbn in Hplan.
  { injection Hplan as <-. exists b. rewrite app_nil_r. done. }
  destruct (valid_handle a h) eqn:Hv; [|discriminate].
  destruct (bool_decide (h ∈ seen)) eqn:Hs; [discriminate|]. apply bool_decide_eq_false in Hs.
  cbn in Hplan. destruct (at_index (descriptors a) (h_descriptor h)) as [d|] eqn:Hd; [|discriminate].
  destruct (release_step m a b seen sim y h d Hrt Hv Hs Hy Hd) as (b1 & Hrel & Hrt1).
  destruct (IH _ _ _ Hrt1 Hplan) as (b' & Hall & Hrt').
  exists b'. rewrite <- app_assoc in Hrt'. split; [|done].
  cbn. unfold_M. rewrite Hrel. cbn. by rewrite Hall.
Qed.

Lemma releases_match_planned a rest xs seen sim sim' :
  Forall2 names_handle rest xs -> plan_releases a seen rest sim = Some sim' ->
  releases_match a rest xs = true.
Proof.
  intros Hxs. revert seen sim. induction Hxs as [|h x rest xs (y & -> & Hy) _ IH];
    intros seen sim Hplan; cbn in *; [done|].
  destruct (valid_handle a h); [|discriminate].
  destruct (bool_decide (h ∈ seen)); [discriminate|]. cbn in Hplan.
  destruct (at_index _ _); [|discriminate].
  rewrite bool_decide_eq_true_2 by done. cbn. by eapply IH.
Qed.

(** ** Targets *)

Definition request_range (r : HostKVAllocationRequest) : Prop := 0 <= rq_pages r <= u32_max.

Lemma plan_target_Some m a b r t sim sim' :
  arena_inv m b -> layouts b = layouts a -> free_extents b = sim -> request_range r ->
  plan_target a r sim = Some (t, sim') ->
  exists l i e,
    find_layout b l = Some (t_layout t) /\ 0 < t_pages t <= u32_max /\
    page_stride l * t_pages t <= u64_max /\ t_bytes t = page_stride l * t_pages t /\
    first_fit (free_extents b) (t_bytes t) = Some i /\ free_extents b !! i = Some e /\
    t_offset t = ex_begin e /\ t_bytes t <= ex_len e /\ sim' = carve_extent sim i (t_bytes t).
Proof.
  intros Hinv Hls Hsim Hr. unfold plan_target, request_range in *.
  destruct (rq_layout r) as [l|]; [|discriminate].
  destruct (Z.eqb_spec (rq_pages r) 0); [discriminate|].
  assert (find_layout a l = find_layout b l) as -> by (unfold find_layout; by rewrite Hls).
  destruct (find_layout b l) as [li|] eqn:Hl; [|discriminate].
  destruct (find_layout_Some _ _ _ Hl) as [_ Hlk].
  pose proof (proj1 (Forall_lookup _ _) (inv_layouts _ _ Hinv) _ _ Hlk) as Hs. cbn in Hs.
  pose proof (inv_m _ _ Hinv).
  rewrite stride_fits by lia. case_bool_decide; [|discriminate]. cbn [negb].
  rewrite w64_small by nia.
  destruct (first_fit sim _) as [i|] eqn:Hff; [|discriminate].
  destruct (sim !! i) as [e|] eqn:He; [|discriminate]. intros [= <- <-].
  exists l, i, e. cbn. subst sim. split_and!; try done; try lia.
  apply find_index_Some in Hff as (pre & e' & post & Heq & Hi & Hfit & _).
  rewrite Heq, (lookup_middle _ _ _ _ Hi) in He. injection He as ->. by apply Z.leb_le.
Qed.

Lemma allocated_survives a li pages bytes i e rest idx d h e' :
  at_index (descriptors a) idx = Some d -> d_active d = false -> handle_extent a h = Some e' ->
  handle_extent (allocated a li pages bytes i e rest idx d) h = Some e' /\ h_descriptor h <> idx.
Proof.
  intros Hd Hoff Hh. assert (h_descriptor h <> idx) as Hne.
  { intros E. apply handle_extent_Some in Hh as (_ & d' & Hd' & Hact & _). congruence. }
  split; [|done]. by rewrite (proj2 (allocated_other a li pages bytes i e rest idx d h Hd Hne)).
Qed.

(** What adopting a target promises about the output allocation. *)
Definition adopted (b : Arena) (t : Target) (out : HostKVAllocation) : Prop :=
  handle_extent b (allocation_handle out) = Some (mkExtent (t_offset t) (t_bytes t)).

Lemma adopt_target_planned m a b r t sim sim' out :
  arena_inv m b -> layouts b = layouts a -> free_extents b = sim -> request_range r ->
  plan_target a r sim = Some (t, sim') -> allocation_valid out = false ->
  exists b' out', adopt_target t out b = (b', Ok out') /\
    arena_inv m b' /\ layouts b' = layouts a /\ free_extents b' = sim' /\ adopted b' t out' /\
    (forall h e, handle_extent b h = Some e -> handle_extent b' h = Some e).
Proof.
  intros Hinv Hls Hsim Hr Hplan Hout.
  destruct (plan_target_Some _ _ _ _ _ _ _ Hinv Hls Hsim Hr Hplan)
    as (l & i & e & Hl & Hp & Hmax & Hb & Hff & He & Ho & Hlen & ->).
  destruct (find_layout_Some _ _ _ Hl) as [_ Hlk].
  unfold adopt_target. unfold_M. rewrite Hlk.
  destruct (allocate_cases m b l (t_pages t) Hinv ltac:(lia))
    as [_ Hwhy|li i' e' rest idx d _ Hl' Hpos _ Hff' He' Hlen' Hfd Hd Hoff].
  { exfalso. destruct Hwhy as [Hn|[Hz|Hall]]; [|lia|].
    - apply find_layout_None in Hn. congruence.
    - pose proof (proj1 (Forall_lookup _ _) Hall _ _ He) as Hlt. cbn in Hlt. lia. }
  rewrite Hl in Hl'. injection Hl' as <-. rewrite <- Hb in *. rewrite Hff in Hff'.
  injection Hff' as <-. rewrite He in He'. injection He' as <-.
  cbn [a_descriptor]. rewrite allocated_lookup, decide_True by done. cbn [d_offset d_bytes].
  rewrite Ho, !Z.eqb_refl. cbn [negb orb].
  unfold allocation_move_assign, allocation_release. rewrite Hout.
  pose proof (allocated_inv m b l (t_layout t) (t_pages t) i e rest idx d Hinv ltac:(lia) Hl
    (proj1 Hp) He ltac:(lia) Hfd Hd Hoff) as Hinv'. rewrite <- Hb in Hinv'.
  do 2 eexists. split; [reflexivity|]. split_and!; try done.
  - cbn. by rewrite Hsim.
  - unfold adopted. apply handle_extent_Some. split; [done|].
    exists (mkDescriptor (ex_begin e) (t_bytes t) (t_layout t) (t_pages t) (d_generation d) true).
    split_and!; try done.
    2: { unfold d_extent. cbn. by rewrite Ho. }
    cbn [allocation_handle allocation_valid a_owner]. rewrite allocated_lookup by done.
    by rewrite decide_True.
  - intros h e2 Hh. by apply allocated_survives.
Qed.

Lemma adopt_targets_planned m a rs : forall b ts sim outs,
  arena_inv m b -> layouts b = layouts a -> free_extents b = sim -> Forall request_range rs ->
  plan_targets a rs sim = Some ts -> length outs = length rs ->
  Forall (fun out => allocation_valid out = false) outs ->
  length ts = length rs /\
  exists b' outs', adopt_targets ts outs b = (b', Ok outs') /\ arena_inv m b' /\
    Forall2 (adopted b') ts outs' /\
    (forall h e, handle_extent b h = Some e -> handle_extent b' h = Some e).
Proof.
  induction rs as [|r rs IH]; intros b ts sim outs Hinv Hls Hsim Hr Hplan Hlen Hout; cbn in *.
  { injection Hplan as <-. split; [done|]. exists b, outs. destruct outs; [|discriminate].
    by split_and!. }
  destruct outs as [|out outs]; [discriminate|].
  apply Forall_cons in Hr as [Hr Hrs], Hout as [Ho Hout].
  destruct (plan_target a r sim) as [[t sim1]|] eqn:Ht; [|discriminate].
  destruct (plan_targets a rs sim1) as [ts'|] eqn:Hts; [|discriminate]. injection Hplan as <-.
  destruct (adopt_target_planned _ _ _ _ _ _ _ _ Hinv Hls Hsim Hr Ht Ho)
    as (b1 & out' & E1 & Hinv1 & Hls1 & Hsim1 & Had & Hkeep1).
  injection Hlen as Hlen.
  destruct (IH b1 ts' sim1 outs Hinv1 Hls1 Hsim1 Hrs Hts Hlen Hout)
    as (Hl & b2 & outs' & E2 & Hinv2 & Hads & Hkeep2).
  split; [cbn; lia|]. exists b2, (out' :: outs'). split_and!.
  - cbn [adopt_targets]. unfold_M. rewrite E1, E2. done.
  - done.
  - constructor; [|done]. by apply Hkeep2.
  - eauto.
Qed.

Lemma targets_match_planned m b rs : forall sim ts outs,
  Forall (fun l => m <= page_stride l <= u64_max) (layouts b) -> 0 < m ->
  Forall request_range rs -> plan_targets b rs sim = Some ts ->
  Forall (fun out => allocation_valid out = false) outs ->
  targets_match b ts outs = true.
Proof.
  induction rs as [|r rs IH]; intros sim ts outs Hs Hm Hr Hplan Hout; cbn in *.
  { by injection Hplan as <-. }
  apply Forall_cons in Hr as [Hr Hrs]. unfold plan_target, request_range in *.
  destruct (rq_layout r) as [l|]; [|discriminate].
  destruct (Z.eqb_spec (rq_pages r) 0); [discriminate|].
  destruct (find_layout b l) as [li|] eqn:Hl; [|discriminate].
  destruct (find_layout_Some _ _ _ Hl) as [Hli Hlk].
  pose proof (proj1 (Forall_lookup _ _) Hs _ _ Hlk) as Hs'. cbn in Hs'.
  destruct (u64_max / rq_pages r <? page_stride l) eqn:Hfit; [discriminate|].
  destruct (first_fit sim _) as [i|]; [|discriminate].
  destruct (sim !! i) as [e|]; [|discriminate].
  destruct (plan_targets b rs _) as [ts'|] eqn:Hts; [|discriminate]. injection Hplan as <-.
  destruct outs as [|out outs]; cbn; [done|].
  apply Forall_cons in Hout as [Ho Hout]. rewrite (IH _ _ _ Hs Hm Hrs Hts Hout), andb_true_r.
  unfold target_matches. cbn. rewrite Ho, Hlk, Hfit, Z.eqb_refl.
  apply lookup_lt_Some in Hlk. destruct (Z.ltb_spec li (Z.of_nat (length (layouts b)))); [|lia].
  destruct (Z.eqb_spec (rq_pages r) 0); done.
Qed.

(** C3: A recipe minted by [plan_after_releases] is always adopted while the arena is unchanged:
    [apply_recipe] returns true and never terminates, every release is given back, every target
    gets the bytes the plan assigned to it, in order, and all other live handles keep theirs. *)
Theorem host_recipe_applies m a releases requests recipe xs outs :
  arena_inv m a -> Forall request_range requests ->
  plan_after_releases a releases requests = Some recipe ->
  Forall2 names_handle releases xs -> length outs = length requests ->
  Forall (fun out => allocation_valid out = false) outs ->
  exists a' ap, apply_recipe recipe xs outs a = (a', Ok ap) /\
    ap_ok ap = true /\ arena_inv m a' /\
    ap_releases ap = replicate (length releases) (Some empty_allocation) /\
    Forall2 (adopted a') (rc_targets recipe) (ap_targets ap) /\
    (forall h e, h ∉ releases -> handle_extent a h = Some e -> handle_extent a' h = Some e).
Proof.
  intros Hinv Hr Hplan Hxs Hlen Hout. unfold plan_after_releases in Hplan.
  destruct (bool_decide _ && _); [discriminate|]. destruct (_ <? _)%nat; [discriminate|].
  destruct (plan_releases a [] releases (free_extents a)) as [sim|] eqn:Hrel; [|discriminate].
  destruct (plan_targets a requests sim) as [ts|] eqn:Hts; [|discriminate].
  injection Hplan as <-.
  assert (released_to m a a [] (free_extents a)) as Hrt by by split.
  destruct (release_all_planned _ _ _ _ _ _ _ _ Hxs Hrt Hrel) as (b & Hall & Hb).
  rewrite app_nil_l in Hb.
  destruct (adopt_targets_planned m a requests b ts sim outs (rt_inv _ _ _ _ _ Hb)
    (rt_layouts _ _ _ _ _ Hb) (rt_sim _ _ _ _ _ Hb) Hr Hts Hlen Hout)
    as (Htl & a' & outs' & Hadopt & Hinv' & Had & Hkeep).
  exists a', (mkApplied true empty_recipe (replicate (length releases) (Some empty_allocation)) outs').
  split; [|split_and!; try done].
  - unfold apply_recipe. unfold_M. cbn [rc_owner rc_revision rc_releases rc_targets].
    rewrite bool_decide_eq_true_2, Z.eqb_refl, Htl, Hlen, Nat.eqb_refl by done.
    rewrite (Forall2_length _ _ _ Hxs), Nat.eqb_refl. cbn [negb orb].
    rewrite (releases_match_planned _ _ _ _ _ _ Hxs Hrel).
    rewrite (targets_match_planned m a requests sim ts outs (inv_layouts _ _ Hinv) (inv_m _ _ Hinv)
      Hr Hts Hout).
    cbn [negb]. rewrite <- (Forall2_length _ _ _ Hxs). rewrite Hall, Hadopt. done.
  - intros h e Hn Hh. apply Hkeep.
    apply handle_extent_Some in Hh as (Ho & d & Hd & Hact & Hgen & ->).
    apply handle_extent_Some. rewrite (rt_self _ _ _ _ _ Hb). split; [done|]. exists d.
    rewrite (rt_live _ _ _ _ _ Hb h); [done| |done]. apply valid_handle_Some. eauto.
Qed.

Lemma host_recipe_applies_witness :
  match allocate demo_arena demo_layout 3 with
  | (a, Some x) =>
      exists recipe a' ap,
        plan_after_releases a [allocation_handle x]
          [mkRequest (Some demo_layout) 1; mkRequest (Some demo_layout) 3] = Some recipe /\
        apply_recipe recipe [Some x] [empty_allocation; empty_allocation] a = (a', Ok ap) /\
        ap_ok ap = true
  | (_, None) => False
  end.
Proof.
  destruct demo_arena_inv as [m Hinv].
  pose proof (arena_step_inv m _ _ Hinv (step_allocate demo_arena demo_layout 3 ltac:(lia))) as Ha.
  destruct (allocate demo_arena demo_layout 3) as [a [x|]] eqn:E;
    [|exfalso; vm_compute in E; discriminate].
  destruct (plan_after_releases a [allocation_handle x]
          [mkRequest (Some demo_layout) 1; mkRequest (Some demo_layout) 3]) as [recipe|] eqn:Hplan;
    [|exfalso; vm_compute in E; injection E as <- <-; vm_compute in Hplan; discriminate].
  destruct (host_recipe_applies m a [allocation_handle x]
    [mkRequest (Some demo_layout) 1; mkRequest (Some demo_layout) 3] recipe [Some x]
    [empty_allocation; empty_allocation] Ha) as (a' & ap & Hap & Hok & _).
  - repeat constructor; cbn; lia.
  - exact Hplan.
  - repeat constructor. by exists x.
  - reflexivity.
  - repeat constructor.
  - by exists recipe, a', ap.
Defined.
