(* ===== verification/DevicePagePool.v ===== *)
(** * The device page pool (core/paged_kv_cache.cpp, core/paged_kv_cache.h)

    [DeviceKVPagePool] owns the physical KV pages of the device: a coalesced vector of free page
    runs, a generation per page, and counters of allocated and of reserved pages.  Reservations are
    capacity not yet bound to page ids; [materialize] binds them, preferring pages contiguous with
    what a sequence already owns.  This file models the planning functions, the pool and the
    leases and reservations it mints. *)

From S2P Require Import Prelude Extents Layout KVGeometry Tensor.

Definition kPagedKVPageSize : Z := 64.

(** ** Planning *)

Definition checked_i32 (v : Z) : result Z :=
  if (v =? 0) || (i32_max <? v) then Throw InvalidArgument else Ok v.

Definition validate_geometry (g : KVPageGeometry) : result unit :=
  _ ← throw_if (negb (page_tokens g =? kPagedKVPageSize)) InvalidArgument;
  _ ← throw_if (bool_decide (planes g = [])) InvalidArgument;
  throw_if (existsb (fun p => (leading_extent p <=? 0) || (head_extent p <=? 0)) (planes g))
    InvalidArgument.

Record DeviceKVPagePoolSpec := mkPoolSpec { page_group_count : Z; ps_geometry : KVPageGeometry }.

Record DeviceKVPlaneLayout := mkDevicePlane { dp_geometry : KVPlaneGeometry; dp_storage : TensorRegion }.

Record DeviceKVPagePoolLayout := mkPoolLayout {
  pl_spec : DeviceKVPagePoolSpec;
  pl_planes : list DeviceKVPlaneLayout;
}.

(** The tensor shape of a plane. *)
Definition plane_shape (g : KVPageGeometry) (p : KVPlaneGeometry) (pages : Z) : list Z :=
  match device_plane_order g with
  | PageMajor => [leading_extent p; kPagedKVPageSize; head_extent p; pages]
  | HeadMajor => [leading_extent p; kPagedKVPageSize; pages; head_extent p]
  end.

Fixpoint plan_device_planes (g : KVPageGeometry) (pages : Z) (l : list KVPlaneGeometry)
    : M Builder (list DeviceKVPlaneLayout) :=
  match l with
  | [] => mret []
  | p :: l =>
      region ← add_tensor (dtype p) (plane_shape g p pages) (alignment p);
      rest ← plan_device_planes g pages l;
      mret (mkDevicePlane p region :: rest)
  end.

Definition plan_device_kv_page_pool (spec : DeviceKVPagePoolSpec)
    : M Builder DeviceKVPagePoolLayout :=
  pages ← mlift (checked_i32 (page_group_count spec));
  _ ← mlift (validate_geometry (ps_geometry spec));
  l ← plan_device_planes (ps_geometry spec) pages (planes (ps_geometry spec));
  mret (mkPoolLayout spec l).

(** [DeviceKVPagePoolLayout::payload_bytes] *)
Definition pool_payload_bytes (l : DeviceKVPagePoolLayout) : Z :=
  foldl (fun total p => w64 (total + r_bytes (tr_region (dp_storage p)))) 0 (pl_planes l).

(** ** State *)

Record DeviceKVPageHandle := mkPage { pg_owner : option Z; pg_index : Z; pg_generation : Z }.

#[export] Instance DeviceKVPageHandle_eq_dec : EqDecision DeviceKVPageHandle.
Proof. solve_decision. Defined.

Definition null_page : DeviceKVPageHandle := mkPage None (-1) 0.

(** [DeviceKVPageLease]: the owning counterpart of a page handle. *)
Record DeviceKVPageLease := mkLease { ls_owner : option Z; ls_index : Z; ls_generation : Z }.

Definition null_lease : DeviceKVPageLease := mkLease None (-1) 0.

Definition lease_handle (x : DeviceKVPageLease) : DeviceKVPageHandle :=
  match ls_owner x with
  | Some o => mkPage (Some o) (ls_index x) (ls_generation x)
  | None => null_page
  end.

Record DeviceKVPageReservation := mkReservation { rs_owner : option Z; rs_pages : Z }.

Definition null_reservation : DeviceKVPageReservation := mkReservation None 0.

Record DeviceKVPagePool := mkPool {
  pool_self : Z;
  pool_spec : DeviceKVPagePoolSpec;
  pool_planes : list Tensor;
  free_page_runs : list Extent;
  page_generations : list Z;
  page_allocated : list bool;
  validation_marks : list Z;
  validation_stamp : Z;
  allocated_pages : Z;
  reserved_pages : Z;
}.

Definition capacity_pages (p : DeviceKVPagePool) : Z := page_group_count (pool_spec p).
Definition pool_geometry (p : DeviceKVPagePool) : KVPageGeometry := ps_geometry (pool_spec p).
Definition available_pages (p : DeviceKVPagePool) : Z :=
  w32 (capacity_pages p - allocated_pages p - reserved_pages p).

(** Assignments to the fields the operations change. *)
Definition set_runs (runs : list Extent) (p : DeviceKVPagePool) : DeviceKVPagePool :=
  mkPool (pool_self p) (pool_spec p) (pool_planes p) runs (page_generations p) (page_allocated p)
    (validation_marks p) (validation_stamp p) (allocated_pages p) (reserved_pages p).
Definition set_page (gens : list Z) (alloc : list bool) (p : DeviceKVPagePool) : DeviceKVPagePool :=
  mkPool (pool_self p) (pool_spec p) (pool_planes p) (free_page_runs p) gens alloc
    (validation_marks p) (validation_stamp p) (allocated_pages p) (reserved_pages p).
Definition set_marks (marks : list Z) (stamp : Z) (p : DeviceKVPagePool) : DeviceKVPagePool :=
  mkPool (pool_self p) (pool_spec p) (pool_planes p) (free_page_runs p) (page_generations p)
    (page_allocated p) marks stamp (allocated_pages p) (reserved_pages p).
Definition set_counts (alloc res : Z) (p : DeviceKVPagePool) : DeviceKVPagePool :=
  mkPool (pool_self p) (pool_spec p) (pool_planes p) (free_page_runs p) (page_generations p)
    (page_allocated p) (validation_marks p) (validation_stamp p) alloc res.

(** ** Construction *)

Definition bind_plane (g : KVPageGeometry) (pages : Z) (backing : DeviceSpan)
    (planned : DeviceKVPlaneLayout) (expected : KVPlaneGeometry) : result Tensor :=
  _ ← throw_if (negb (bool_decide (dp_geometry planned = expected))) LogicError;
  plane ← tensor_region_bind (dp_storage planned) backing;
  let ne i := nth i (t_ne plane) 0 in
  _ ← throw_if (negb (bool_decide (t_dtype plane = dtype expected)) ||
                negb (ne 0%nat =? leading_extent expected) ||
                negb (ne 1%nat =? kPagedKVPageSize)) LogicError;
  match device_plane_order g with
  | PageMajor =>
      _ ← throw_if (negb (ne 2%nat =? head_extent expected) || negb (ne 3%nat =? pages)) LogicError;
      Ok plane
  | HeadMajor =>
      _ ← throw_if (negb (ne 2%nat =? pages) || negb (ne 3%nat =? head_extent expected)) LogicError;
      Ok plane
  end.

Fixpoint bind_planes (g : KVPageGeometry) (pages : Z) (backing : DeviceSpan)
    (l : list DeviceKVPlaneLayout) (expected : list KVPlaneGeometry) : result (list Tensor) :=
  match l, expected with
  | p :: l, e :: expected =>
      t ← bind_plane g pages backing p e;
      ts ← bind_planes g pages backing l expected;
      Ok (t :: ts)
  | _, _ => Ok []
  end.

(** The constructor of [DeviceKVPagePool]. *)
Definition make_pool (this : Z) (backing : DeviceSpan) (l : DeviceKVPagePoolLayout)
    : result DeviceKVPagePool :=
  let g := ps_geometry (pl_spec l) in
  _ ← validate_geometry g;
  _ ← throw_if (negb (length (pl_planes l) =? length (planes g))%nat || bool_decide (pl_planes l = []))
        InvalidArgument;
  pages ← checked_i32 (page_group_count (pl_spec l));
  ts ← bind_planes g pages backing (pl_planes l) (planes g);
  let n := Z.to_nat (page_group_count (pl_spec l)) in
  Ok (mkPool this (pl_spec l) ts [mkExtent 0 (page_group_count (pl_spec l))]
        (replicate n 1) (replicate n false) (replicate n 0) 0 0 0).

(** ** Handles *)

Definition valid_page (p : DeviceKVPagePool) (h : DeviceKVPageHandle) : bool :=
  if negb (bool_decide (pg_owner h = Some (pool_self p))) || (pg_index h <? 0) ||
     (capacity_pages p <=? pg_index h)
  then false
  else
    match at_index (page_allocated p) (pg_index h), at_index (page_generations p) (pg_index h) with
    | Some a, Some g => a && (g =? pg_generation h)
    | _, _ => false
    end.

Definition physical_index (p : DeviceKVPagePool) (h : DeviceKVPageHandle) : result Z :=
  if valid_page p h then Ok (pg_index h) else Throw InvalidArgument.

Definition lease_belongs_to (p : DeviceKVPagePool) (x : DeviceKVPageLease) : bool :=
  bool_decide (ls_owner x = Some (pool_self p)).
Definition reservation_belongs_to (p : DeviceKVPagePool) (r : DeviceKVPageReservation) : bool :=
  bool_decide (rs_owner r = Some (pool_self p)).

Fixpoint contiguous_runs (p : DeviceKVPagePool) (pages : list DeviceKVPageHandle) (runs previous : Z)
    : result Z :=
  match pages with
  | [] => Ok runs
  | h :: pages =>
      current ← physical_index p h;
      let runs := if (runs =? 0) || negb (current =? previous + 1) then w32 (runs + 1) else runs in
      contiguous_runs p pages runs current
  end.

Definition contiguous_run_count (p : DeviceKVPagePool) (pages : list DeviceKVPageHandle) : result Z :=
  contiguous_runs p pages 0 (-2).

(** ** Free runs *)

(** [consume_free_run]: take [count] pages at [begin] out of the run, splitting it if necessary. *)
Definition consume_free_run (run_index : nat) (begin_ count : Z) : M DeviceKVPagePool unit :=
  p ← mget;
  match free_page_runs p !! run_index with
  | None => mthrow Terminate
  | Some run =>
      _ ← mthrow_if (count =? 0) Terminate;
      let run_end := ex_begin run + ex_len run in
      let consumed_end := begin_ + count in
      _ ← mthrow_if ((begin_ <? ex_begin run) || (run_end <? consumed_end)) Terminate;
      if (begin_ =? ex_begin run) && (consumed_end =? run_end) then
        mmodify (set_runs (erase_at run_index (free_page_runs p)))
      else if begin_ =? ex_begin run then
        mmodify (set_runs (<[run_index := mkExtent (ex_begin run + count) (w32 (ex_len run - count))]>
                            (free_page_runs p)))
      else if consumed_end =? run_end then
        mmodify (set_runs (<[run_index := mkExtent (ex_begin run) (w32 (begin_ - ex_begin run))]>
                            (free_page_runs p)))
      else
        let right_run := mkExtent consumed_end (w32 (run_end - consumed_end)) in
        mmodify (set_runs (insert_at (S run_index) right_run
                  (<[run_index := mkExtent (ex_begin run) (w32 (begin_ - ex_begin run))]>
                    (free_page_runs p))))
  end.

(** [release_free_page]: return one page, joining its neighbours. *)
Definition release_free_page (runs : list Extent) (index : Z) : list Extent :=
  let next := partition_point (fun run => ex_begin run <? index) runs in
  let joins_right :=
    match runs !! next with Some r => index + 1 =? ex_begin r | None => false end in
  let previous := match next with O => None | S k => runs !! k end in
  let joins_left :=
    match previous with Some l => ex_begin l + ex_len l =? index | None => false end in
  match previous, runs !! next with
  | Some l, Some r =>
      if joins_left && joins_right then
        erase_at next
          (<[pred next := mkExtent (ex_begin l) (w32 (ex_len l + (1 + ex_len r)))]> runs)
      else if joins_left then <[pred next := mkExtent (ex_begin l) (w32 (ex_len l + 1))]> runs
      else if joins_right then <[next := mkExtent index (w32 (ex_len r + 1))]> runs
      else insert_at next (mkExtent index 1) runs
  | Some l, None =>
      if joins_left then <[pred next := mkExtent (ex_begin l) (w32 (ex_len l + 1))]> runs
      else insert_at next (mkExtent index 1) runs
  | None, Some r =>
      if joins_right then <[next := mkExtent index (w32 (ex_len r + 1))]> runs
      else insert_at next (mkExtent index 1) runs
  | None, None => insert_at next (mkExtent index 1) runs
  end.

Definition release_page (p : DeviceKVPagePool) (index gen : Z) : DeviceKVPagePool :=
  if (index <? 0) || (capacity_pages p <=? index) then p
  else
    match at_index (page_allocated p) index, at_index (page_generations p) index with
    | Some a, Some g =>
        if negb a || negb (g =? gen) then p
        else
          let p := set_page (set_index (page_generations p) index (increment_generation g))
                     (set_index (page_allocated p) index false) p in
          let p := set_runs (release_free_page (free_page_runs p) index) p in
          set_counts (w32 (allocated_pages p - 1)) (reserved_pages p) p
    | _, _ => p
    end.

(** [DeviceKVPageLease::release]: the pool, the emptied lease and the returned flag. *)
Definition lease_release (p : DeviceKVPagePool) (x : DeviceKVPageLease)
    : DeviceKVPagePool * DeviceKVPageLease * bool :=
  match ls_owner x with
  | None => (p, x, false)
  | Some o =>
      if valid_page p (mkPage (Some o) (ls_index x) (ls_generation x))
      then (release_page p (ls_index x) (ls_generation x), null_lease, true)
      else (p, null_lease, false)
  end.

(** ** Reservations *)

Definition release_reservation (pages : Z) : M DeviceKVPagePool unit :=
  p ← mget;
  _ ← mthrow_if (reserved_pages p <? pages) Terminate;
  mput (set_counts (allocated_pages p) (w32 (reserved_pages p - pages)) p).

(** [DeviceKVPageReservation::clear] *)
Definition reservation_clear (r : DeviceKVPageReservation)
    : M DeviceKVPagePool DeviceKVPageReservation :=
  if bool_decide (rs_owner r = None) || (rs_pages r =? 0) then mret r
  else
    _ ← release_reservation (rs_pages r);
    mret (mkReservation (rs_owner r) 0).

(** [DeviceKVPageReservation::release] *)
Definition reservation_release (r : DeviceKVPageReservation)
    : M DeviceKVPagePool DeviceKVPageReservation :=
  if bool_decide (rs_owner r = None) then mret r
  else
    _ ← release_reservation (rs_pages r);
    mret null_reservation.

Definition reserve (p : DeviceKVPagePool) (pages : Z)
    : DeviceKVPagePool * option DeviceKVPageReservation :=
  if (pages =? 0) || (available_pages p <? pages) then (p, None)
  else (set_counts (allocated_pages p) (w32 (reserved_pages p + pages)) p,
        Some (mkReservation (Some (pool_self p)) pages)).

Definition make_empty_reservation (p : DeviceKVPagePool) : DeviceKVPageReservation :=
  mkReservation (Some (pool_self p)) 0.

Definition can_resize_reservation (p : DeviceKVPagePool) (r : DeviceKVPageReservation) (n : Z) : bool :=
  if negb (reservation_belongs_to p r) || (reserved_pages p <? rs_pages r) then false
  else
    let used := w64 (w64 (allocated_pages p + w32 (reserved_pages p - rs_pages r)) + n) in
    used <=? capacity_pages p.

Definition resize_reservation (r : DeviceKVPageReservation) (n : Z)
    : M DeviceKVPagePool DeviceKVPageReservation :=
  p ← mget;
  _ ← mthrow_if (negb (can_resize_reservation p r n)) BadAlloc;
  _ ← mput (set_counts (allocated_pages p) (w32 (w32 (reserved_pages p - rs_pages r) + n)) p);
  mret (mkReservation (rs_owner r) n).

(** ** Materialization *)

(** The lambda [append_page]. *)
Definition append_page (page : Z) (st : DeviceKVPagePool * list DeviceKVPageLease)
    : DeviceKVPagePool * list DeviceKVPageLease :=
  let '(p, destination) := st in
  match at_index (page_generations p) page with
  | None => st
  | Some g =>
      (set_page (page_generations p) (set_index (page_allocated p) page true) p,
       destination ++ [mkLease (Some (pool_self p)) page g])
  end.

(** [for (offset = 0; offset < count; ++offset) append_page(begin + offset)] *)
Fixpoint append_run (begin_ : Z) (count : nat) (st : DeviceKVPagePool * list DeviceKVPageLease)
    : DeviceKVPagePool * list DeviceKVPageLease :=
  match count with
  | O => st
  | S count => append_run (begin_ + 1) count (append_page begin_ st)
  end.

(** The preferred position: a free run that holds [count] pages from [preferred] on. *)
Definition select_preferred (runs : list Extent) (preferred count : Z) : option (nat * Z) :=
  if preferred <? 0 then None
  else
    match partition_point (fun run => negb (preferred <? ex_begin run)) runs with
    | O => None
    | S candidate =>
        match runs !! candidate with
        | None => None
        | Some run =>
            let run_end := w64 (ex_begin run + ex_len run) in
            let requested_end := w64 (preferred + count) in
            if (ex_begin run <=? preferred) && (requested_end <=? run_end)
            then Some (candidate, preferred) else None
        end
    end.

(** Otherwise the first run that is long enough. *)
Definition select_contiguous (runs : list Extent) (count : Z) : option (nat * Z) :=
  match find_index (fun run => count <=? ex_len run) runs with
  | None => None
  | Some i => match runs !! i with Some run => Some (i, ex_begin run) | None => None end
  end.

Definition select_run (runs : list Extent) (preferred : option Z) (count : Z) : option (nat * Z) :=
  match (match preferred with Some q => select_preferred runs q count | None => None end) with
  | Some s => Some s
  | None => select_contiguous runs count
  end.

(** The scattered fallback: the runs are taken from the front; the number of consumed runs and the
    vector with the last one shortened. *)
Fixpoint scatter (runs : list Extent) (remaining : Z)
    (st : DeviceKVPagePool * list DeviceKVPageLease)
    : result (nat * list Extent * (DeviceKVPagePool * list DeviceKVPageLease)) :=
  if remaining =? 0 then Ok (0%nat, runs, st)
  else
    match runs with
    | [] => Throw Terminate
    | run :: runs =>
        let take_ := Z.min remaining (ex_len run) in
        let st := append_run (ex_begin run) (Z.to_nat take_) st in
        let remaining := w32 (remaining - take_) in
        if take_ =? ex_len run then
          '(consumed, runs, st) ← scatter runs remaining st;
          Ok (S consumed, run :: runs, st)
        else
          let run := mkExtent (ex_begin run + take_) (w32 (ex_len run - take_)) in
          '(consumed, runs, st) ← scatter runs remaining st;
          Ok (consumed, run :: runs, st)
    end.

Definition lease_ok (p : DeviceKVPagePool) (x : DeviceKVPageLease) : bool :=
  lease_belongs_to p x && valid_page p (lease_handle x).

(** [materialize]; [capacity] is the capacity of the destination vector. *)
Definition materialize (r : DeviceKVPageReservation) (target : Z)
    (destination : list DeviceKVPageLease) (capacity : Z)
    (preferred_predecessor : option DeviceKVPageHandle)
    : M DeviceKVPagePool (DeviceKVPageReservation * list DeviceKVPageLease) :=
  p ← mget;
  let old_count := Z.of_nat (length destination) in
  _ ← mthrow_if (negb (reservation_belongs_to p r) || (target <? old_count)) InvalidArgument;
  let count := w32 (target - old_count) in
  _ ← mthrow_if ((rs_pages r <? count) || (capacity <? target)) InvalidArgument;
  _ ← mthrow_if (negb (forallb (lease_ok p) destination)) InvalidArgument;
  if count =? 0 then mret (r, destination)
  else
    _ ← mthrow_if (w32 (capacity_pages p - allocated_pages p) <? count) LogicError;
    preferred ← match preferred_predecessor with
                | Some h => i ← mlift (physical_index p h); mret (Some (i + 1))
                | None => mret ((fun x => ls_index x + 1) <$> last destination)
                end;
    destination ←
      match select_run (free_page_runs p) preferred count with
      | Some (run_index, begin_) =>
          let '(p, destination) := append_run begin_ (Z.to_nat count) (p, destination) in
          _ ← mput p;
          _ ← consume_free_run run_index begin_ count;
          mret destination
      | None =>
          '(consumed, runs, (p, destination)) ← mlift (scatter (free_page_runs p) count (p, destination));
          _ ← mput (set_runs (drop consumed runs) p);
          mret destination
      end;
    _ ← mmodify (fun p => set_counts (w32 (allocated_pages p + count)) (w32 (reserved_pages p - count)) p);
    mret (mkReservation (rs_owner r) (w32 (rs_pages r - count)), destination).

Definition materialize_one (r : DeviceKVPageReservation)
    : M DeviceKVPagePool (DeviceKVPageReservation * DeviceKVPageLease) :=
  p ← mget;
  _ ← mthrow_if (negb (reservation_belongs_to p r) || (rs_pages r =? 0)) InvalidArgument;
  match free_page_runs p with
  | [] => mthrow LogicError
  | run :: rest =>
      let page := ex_begin run in
      let run := mkExtent (ex_begin run + 1) (w32 (ex_len run - 1)) in
      let runs := if ex_len run =? 0 then rest else run :: rest in
      match at_index (page_generations p) page with
      | None => mthrow LogicError
      | Some g =>
          let p := set_page (page_generations p) (set_index (page_allocated p) page true)
                     (set_runs runs p) in
          _ ← mput (set_counts (w32 (allocated_pages p + 1)) (w32 (reserved_pages p - 1)) p);
          mret (mkReservation (rs_owner r) (w32 (rs_pages r - 1)),
                mkLease (Some (pool_self p)) page g)
      end
  end.

(** Destroying the leases a [resize] drops, in order. *)
Definition destroy_leases (p : DeviceKVPagePool) (xs : list DeviceKVPageLease) : DeviceKVPagePool :=
  foldl (fun p x => (lease_release p x).1.1) p xs.

Definition dematerialize (r : DeviceKVPageReservation) (target : Z) (source : list DeviceKVPageLease)
    : M DeviceKVPagePool (DeviceKVPageReservation * list DeviceKVPageLease) :=
  p ← mget;
  let size := Z.of_nat (length source) in
  _ ← mthrow_if (negb (reservation_belongs_to p r) || (size <? target)) InvalidArgument;
  _ ← mthrow_if (negb (forallb (lease_ok p) source)) InvalidArgument;
  let released := w32 (size - target) in
  if released =? 0 then mret (r, source)
  else
    _ ← mthrow_if (w32 (u32_max - rs_pages r) <? released) OverflowError;
    let p := destroy_leases p (drop (Z.to_nat target) source) in
    _ ← mput (set_counts (allocated_pages p) (w32 (reserved_pages p + released)) p);
    mret (mkReservation (rs_owner r) (w32 (rs_pages r + released)), take (Z.to_nat target) source).

Definition dematerialize_one (r : DeviceKVPageReservation) (page : DeviceKVPageLease)
    : M DeviceKVPagePool DeviceKVPageReservation :=
  p ← mget;
  _ ← mthrow_if (negb (reservation_belongs_to p r) || negb (lease_ok p page) ||
                 (rs_pages r =? u32_max)) InvalidArgument;
  let '(p, _, released) := lease_release p page in
  _ ← mput p;
  _ ← mthrow_if (negb released) LogicError;
  _ ← mput (set_counts (allocated_pages p) (w32 (reserved_pages p + 1)) p);
  mret (mkReservation (rs_owner r) (w32 (rs_pages r + 1))).

(** ** Bundles *)

(** The requests of a bundle name pools by their address in a store of pools. *)
Record PageRequest := mkPageRequest { pr_pool : option Z; pr_pages : Z }.

Definition pool_at (s : list DeviceKVPagePool) (addr : Z) : option (nat * DeviceKVPagePool) :=
  match find_index (fun p => pool_self p =? addr) s with
  | None => None
  | Some i => match s !! i with Some p => Some (i, p) | None => None end
  end.

Fixpoint validate_bundle (s : list DeviceKVPagePool) (previous rest : list PageRequest) : result unit :=
  match rest with
  | [] => Ok tt
  | r :: rest =>
      match pr_pool r ≫= pool_at s with
      | None => Throw InvalidArgument
      | Some (_, p) =>
          _ ← throw_if (pr_pages r =? 0) InvalidArgument;
          _ ← throw_if (bool_decide (pr_pool r ∈ pr_pool <$> previous)) InvalidArgument;
          _ ← throw_if (available_pages p <? pr_pages r) BadAlloc;
          validate_bundle s (previous ++ [r]) rest
      end
  end.

Fixpoint reserve_each (requests : list PageRequest)
    : M (list DeviceKVPagePool) (list DeviceKVPageReservation) :=
  match requests with
  | [] => mret []
  | r :: requests =>
      s ← mget;
      match pr_pool r ≫= pool_at s with
      | None => mthrow LogicError
      | Some (i, p) =>
          let '(p, reservation) := reserve p (pr_pages r) in
          _ ← mput (<[i := p]> s);
          match reservation with
          | None => mthrow LogicError
          | Some x => xs ← reserve_each requests; mret (x :: xs)
          end
      end
  end.

Definition reserve_device_kv_page_bundle (requests : list PageRequest)
    : M (list DeviceKVPagePool) (list DeviceKVPageReservation) :=
  s ← mget;
  _ ← mlift (validate_bundle s [] requests);
  reserve_each requests.
