(* ===== verification/DevicePoolInvariant.v ===== *)
(** * Correctness of the device page pool: runs, pages and the invariant

    Releasing a page is inserting a one-page extent, consuming a run is removing an extent, and the
    pages a [materialize] binds are those of the extents it took from the free runs. *)

From S2P Require Import Prelude Extents Tensor KVGeometry DevicePagePool.

(** ** Releasing one page *)

(** [release_free_page] is the general [insert_extent] at one page. *)
Lemma release_free_page_insert hi runs index :
  hi <= i32_max -> extents_wf 0 hi runs -> insertable hi runs (mkExtent index 1) ->
  release_free_page runs index = insert_extent runs (mkExtent index 1).
Proof.
  intros Hhi Hwf Hins.
  destruct (insert_extent_spec hi runs (mkExtent index 1) ltac:(lia) Hwf Hins) as (Hwf' & _).
  destruct Hins as (Hb & _ & He & _). cbn in Hb.
  destruct (partition_point_split (fun c => ex_begin c <? index) runs)
    as (pre & post & Hsplit & Hlen & Hpre & Hpost).
  assert (forall e, e ∈ runs -> 0 <= ex_begin e /\ 0 < ex_len e /\ ex_end e <= hi) as Hin.
  { intros e [i Hi]%list_elem_of_lookup. by apply (extents_wf_lookup _ _ _ _ _ Hwf Hi). }
  unfold release_free_page. rewrite <- Hlen. clear Hwf Hwf'. subst runs.
  destruct pre as [|x pre _] using rev_ind.
  - rewrite insert_extent_first by done. cbn [app length].
    destruct post as [|r post]; cbn [merge_next]; [done|]. cbn [lookup list_lookup].
    destruct (Hin r) as (? & ? & ?); [by left|].
    rewrite w64_small by extent_lia. cbn [ex_begin ex_len].
    case_match; [|done]. cbn. do 2 f_equal. rewrite w32_small, w64_small by extent_lia. lia.
  - rewrite <- app_assoc. cbn [app]. rewrite insert_extent_between by done.
    rewrite length_app. cbn [length]. rewrite Nat.add_1_r. cbn [pred].
    rewrite (lookup_middle pre), (lookup_after pre) by done.
    destruct (Hin x) as (? & ? & ?); [apply elem_of_app; left; apply elem_of_app; right; by left|].
    rewrite (w64_small (ex_begin x + ex_len x)) by extent_lia. cbn [ex_begin ex_len].
    assert (insert_at (S (length pre)) (mkExtent index 1) (pre ++ x :: post) =
            pre ++ x :: mkExtent index 1 :: post) as Hins.
    { rewrite (cons_middle x), app_assoc, (insert_middle (pre ++ [x])).
      - by rewrite <- app_assoc.
      - rewrite length_app. cbn. lia. }
    destruct post as [|r post]; cbn [head merge_next].
    + destruct (ex_begin x + ex_len x =? index); [|by rewrite Hins].
      rewrite (update_middle pre) by done. do 3 f_equal. rewrite w32_small, w64_small by extent_lia. lia.
    + destruct (Hin r) as (? & ? & ?); [apply elem_of_app; right; by left|].
      destruct (Z.eqb_spec (ex_begin x + ex_len x) index) as [Hj|Hj].
      * rewrite (w64_small (ex_len x + 1)) by extent_lia. cbn [ex_begin ex_len].
        rewrite (w64_small (ex_begin x + (ex_len x + 1))) by extent_lia.
        rewrite (update_middle pre) by done.
        destruct (Z.eqb_spec (index + 1) (ex_begin r)), (Z.eqb_spec (ex_begin x + (ex_len x + 1)) (ex_begin r));
          try extent_lia; cbn [andb].
        -- rewrite (erase_after pre) by done. do 3 f_equal. rewrite w32_small, w64_small by extent_lia. lia.
        -- rewrite (update_middle pre) by done. do 3 f_equal. rewrite w32_small by extent_lia. lia.
      * cbn [andb ex_begin ex_len]. rewrite (w64_small (index + 1)) by extent_lia.
        destruct (index + 1 =? ex_begin r); [|by rewrite Hins].
        rewrite (cons_middle x), app_assoc, (update_middle (pre ++ [x])).
        -- rewrite <- app_assoc. cbn. do 4 f_equal. rewrite w32_small, w64_small by extent_lia. lia.
        -- rewrite length_app. cbn. lia.
Qed.

(** ** Consuming a run *)

Definition carve_middle (runs : list Extent) (i : nat) (run : Extent) (b n : Z) : list Extent :=
  take i runs ++
  (if decide (b = ex_begin run) then [] else [mkExtent (ex_begin run) (b - ex_begin run)]) ++
  (if decide (b + n = ex_end run) then [] else [mkExtent (b + n) (ex_end run - (b + n))]) ++
  drop (S i) runs.

Lemma carve_middle_spec hi runs i run b n :
  extents_wf 0 hi runs -> runs !! i = Some run -> 0 < n -> ex_begin run <= b -> b + n <= ex_end run ->
  extents_wf 0 hi (carve_middle runs i run b n) /\
  (forall x, cov (carve_middle runs i run b n) x = cov runs x - ind (mkExtent b n) x) /\
  total (carve_middle runs i run b n) = total runs - n.
Proof.
  intros Hwf Hi Hn Hb He. unfold carve_middle.
  apply list_elem_of_split_length in Hi as (pre & post & -> & ->).
  rewrite take_app_length, (drop_middle pre) by done.
  apply extents_wf_app in Hwf as (Hpre & Hlo & Hlen & Hhi & Hpost).
  split_and!.
  - apply extents_wf_app. split; [done|].
    repeat case_decide; cbn [app extents_wf]; repeat split; try extent_lia;
      try (eapply extents_wf_weaken; [|exact Hpost]; extent_lia).
  - intros x. rewrite !cov_app. repeat case_decide; rewrite ?cov_cons; change (cov [] x) with 0;
      ind_cases.
  - rewrite !total_app. repeat case_decide; rewrite ?total_cons; change (total []) with 0; extent_lia.
Qed.

Lemma consume_free_run_eq p i run b n :
  free_page_runs p !! i = Some run -> 0 < n -> ex_begin run <= b -> b + n <= ex_end run ->
  0 <= ex_begin run -> ex_end run <= i32_max ->
  consume_free_run i b n p = (set_runs (carve_middle (free_page_runs p) i run b n) p, Ok tt).
Proof.
  intros Hi Hn Hb He Hlo Hhi. unfold consume_free_run, carve_middle. unfold_M. rewrite Hi.
  destruct (Z.eqb_spec n 0); [lia|].
  destruct (Z.ltb_spec b (ex_begin run)); [lia|].
  destruct (Z.ltb_spec (ex_begin run + ex_len run) (b + n)); [extent_lia|]. cbn [orb].
  pose proof Hi as Hsplit. apply list_elem_of_split_length in Hsplit as (pre & post & Hruns & ->).
  rewrite Hruns, take_app_length, (drop_middle pre) by done.
  destruct (Z.eqb_spec b (ex_begin run)) as [Hb0|Hb0], (decide (b = ex_begin run)) as [Hd0|Hd0]; try lia;
    destruct (Z.eqb_spec (b + n) (ex_begin run + ex_len run)) as [He0|He0],
      (decide (b + n = ex_end run)) as [Hd1|Hd1]; try extent_lia; cbn [andb app].
  - by rewrite (erase_middle pre).
  - rewrite (update_middle pre) by done. do 5 f_equal; [lia|].
    rewrite w32_small by extent_lia. extent_lia.
  - rewrite (update_middle pre) by done. do 5 f_equal. rewrite w32_small by extent_lia. done.
  - rewrite (update_middle pre) by done.
    rewrite (cons_middle (mkExtent (ex_begin run) _)), app_assoc, (insert_middle (pre ++ [_])).
    + rewrite <- app_assoc. cbn [app]. do 4 f_equal; [|f_equal];
        f_equal; rewrite w32_small by extent_lia; extent_lia.
    + rewrite length_app. cbn. lia.
Qed.

(** ** Pages of a list of extents *)

Definition pages_of (t : list Extent) : list Z := t ≫= fun e => seqZ (ex_begin e) (ex_len e).

Lemma pages_of_elem lo hi t x : extents_wf lo hi t -> x ∈ pages_of t <-> cov t x = 1.
Proof.
  revert lo. induction t as [|e t IH]; intros lo Hwf.
  - cbn. rewrite elem_of_nil. lia.
  - destruct Hwf as (Hlo & Hn & Hhi & Hwf). unfold pages_of in *. cbn [mbind list_bind].
    rewrite elem_of_app, elem_of_seqZ, (IH _ Hwf), cov_cons.
    pose proof (cov_nonneg t x). pose proof (cov_le_1 _ _ _ x Hwf).
    destruct (decide (x < ex_end e + 1)) as [Hx|Hx].
    + rewrite (cov_below _ _ _ _ Hwf Hx). ind_cases.
    + ind_cases.
Qed.

Lemma pages_of_NoDup lo hi t : extents_wf lo hi t -> NoDup (pages_of t).
Proof.
  revert lo. induction t as [|e t IH]; intros lo Hwf; [constructor|].
  destruct Hwf as (Hlo & Hn & Hhi & Hwf). unfold pages_of in *. cbn [mbind list_bind].
  apply NoDup_app. split_and!; [apply NoDup_seqZ| |by eapply IH].
  intros x Hx%elem_of_seqZ Ht. apply (pages_of_elem _ _ _ _ Hwf) in Ht.
  rewrite (cov_below _ _ _ _ Hwf) in Ht by extent_lia. lia.
Qed.

Lemma pages_of_length lo hi t : extents_wf lo hi t -> Z.of_nat (length (pages_of t)) = total t.
Proof.
  revert lo. induction t as [|e t IH]; intros lo Hwf; [done|].
  destruct Hwf as (Hlo & Hn & Hhi & Hwf). unfold pages_of in *. cbn [mbind list_bind].
  rewrite length_app, length_seqZ, total_cons. specialize (IH _ Hwf). lia.
Qed.

(** ** Marking pages allocated *)

Definition gen_at (p : DeviceKVPagePool) (x : Z) : Z := default 0 (at_index (page_generations p) x).
Definition lease_of (p : DeviceKVPagePool) (x : Z) : DeviceKVPageLease :=
  mkLease (Some (pool_self p)) x (gen_at p x).

Definition append_pages (l : list Z) (st : DeviceKVPagePool * list DeviceKVPageLease) :=
  foldl (fun st x => append_page x st) st l.

Lemma append_run_pages b n st : append_run b n st = append_pages (seqZ b (Z.of_nat n)) st.
Proof.
  revert b st. induction n as [|n IH]; intros b st; [done|].
  rewrite seqZ_cons by lia. cbn [append_run append_pages foldl]. rewrite IH.
  unfold append_pages. do 2 f_equal; lia.
Qed.

Lemma append_pages_app l1 l2 st : append_pages (l1 ++ l2) st = append_pages l2 (append_pages l1 st).
Proof. apply foldl_app. Qed.

Definition is_true (b : bool) : Z := if b then 1 else 0.

Lemma append_pages_spec l p d :
  length (page_generations p) = length (page_allocated p) ->
  Forall (fun x => 0 <= x < Z.of_nat (length (page_allocated p))) l ->
  exists alloc,
    append_pages l (p, d) = (set_page (page_generations p) alloc p, d ++ (lease_of p <$> l)) /\
    length alloc = length (page_allocated p) /\
    (forall x, at_index alloc x = if decide (x ∈ l) then Some true else at_index (page_allocated p) x) /\
    (NoDup l -> (forall x, x ∈ l -> at_index (page_allocated p) x = Some false) ->
     sum_with is_true alloc = sum_with is_true (page_allocated p) + Z.of_nat (length l)).
Proof.
  intros Hlen Hl. revert p d Hlen Hl. induction l as [|y l IH]; intros p d Hlen Hl.
  { exists (page_allocated p). cbn. rewrite app_nil_r. split_and!; try done.
    - by destruct p.
    - intros _ _. lia. }
  apply Forall_cons in Hl as [Hy Hl].
  destruct (at_index_is_Some (page_generations p) y) as [g Hg]; [lia|].
  change (append_pages (y :: l) (p, d)) with (append_pages l (append_page y (p, d))).
  unfold append_page. rewrite Hg.
  set (p1 := set_page (page_generations p) (set_index (page_allocated p) y true) p).
  destruct (IH p1 (d ++ [mkLease (Some (pool_self p)) y g])) as (alloc & Heq & Hlen' & Hlk & Hsum).
  { cbn. by rewrite length_set_index. }
  { cbn. by rewrite length_set_index. }
  exists alloc. cbn [page_allocated page_generations p1 set_page] in *.
  rewrite length_set_index in Hlen'. split_and!; [|done| |].
  - rewrite Heq. cbn. f_equal. rewrite <- app_assoc. do 2 f_equal.
    assert (lease_of p y = mkLease (Some (pool_self p)) y g) as -> by (unfold lease_of, gen_at; by rewrite Hg).
    done.
  - intros x. rewrite Hlk. destruct (decide (x = y)) as [->|Hne].
    + rewrite (decide_True (P := y ∈ y :: l)) by by left.
      case_decide; [done|]. by apply at_set_index_eq.
    + rewrite at_set_index_ne by (lia || done). destruct (decide (x ∈ l)) as [Hin|Hin].
      * by rewrite decide_True by by right.
      * rewrite decide_False; [done|]. rewrite elem_of_cons. tauto.
  - intros [Hny Hnd]%NoDup_cons Hfree. rewrite Hsum; [|done|].
    + rewrite (sum_with_set_index _ _ _ false) by (apply Hfree; by left). cbn. lia.
    + intros x Hx. rewrite at_set_index_ne; [apply Hfree; by right|lia|congruence].
Qed.

(** ** The scattered fallback *)

Lemma scatter_spec hi runs : forall lo rem st,
  extents_wf lo hi runs -> 0 <= lo -> hi <= i32_max -> 0 <= rem <= total runs ->
  exists consumed runs' t,
    scatter runs rem st = Ok (consumed, runs', append_pages (pages_of t) st) /\
    extents_wf lo hi t /\ extents_wf lo hi (drop consumed runs') /\
    (forall x, cov (drop consumed runs') x = cov runs x - cov t x) /\
    total t = rem /\ total (drop consumed runs') = total runs - rem.
Proof.
  induction runs as [|run runs IH]; intros lo rem st Hwf Hlo Hhi Hrem; cbn [scatter].
  { change (total []) with 0 in Hrem. destruct (Z.eqb_spec rem 0); [|lia].
    exists 0%nat, [], []. split_and!; done || (cbn; lia). }
  destruct (Z.eqb_spec rem 0) as [->|Hne].
  { exists 0%nat, (run :: runs), []. rewrite drop_0. split_and!; try done.
    - intros x. change (cov [] x) with 0. lia.
    - lia. }
  destruct Hwf as (Hb & Hn & He & Hwf). rewrite total_cons in Hrem.
  pose proof (total_nonneg _ _ _ Hwf).
  assert (0 <= rem <= u32_max) as Hrem32.
  { pose proof (total_le lo hi (run :: runs) ltac:(extent_lia) ltac:(by split_and!)) as Ht.
    rewrite total_cons in Ht. lia. }
  destruct (Z.eqb_spec (Z.min rem (ex_len run)) (ex_len run)) as [Hmin|Hmin].
  - rewrite w32_small by lia. rewrite Hmin.
    destruct (IH (ex_end run + 1) (rem - ex_len run)
      (append_run (ex_begin run) (Z.to_nat (ex_len run)) st) Hwf ltac:(extent_lia) Hhi ltac:(lia))
      as (c & runs' & t & Heq & Ht & Hd & Hc & Htot & Htot').
    rewrite Heq. exists (S c), (run :: runs'), (run :: t). cbn [drop mbind result_bind].
    split_and!; try done.
    + unfold pages_of. cbn [mbind list_bind]. rewrite append_pages_app, append_run_pages.
      by rewrite Z2Nat.id by lia.
    + eapply extents_wf_weaken; [|exact Hd]. extent_lia.
    + intros x. rewrite Hc, !cov_cons. lia.
    + rewrite total_cons. lia.
    + rewrite total_cons. lia.
  - assert (Z.min rem (ex_len run) = rem) as -> by lia. rewrite (w32_small (rem - rem)) by lia.
    rewrite Z.sub_diag, w32_small by extent_lia.
    exists 0%nat, (mkExtent (ex_begin run + rem) (ex_len run - rem) :: runs),
      [mkExtent (ex_begin run) rem]. rewrite drop_0.
    assert (scatter runs 0 (append_run (ex_begin run) (Z.to_nat rem) st) =
      Ok (0%nat, runs, append_run (ex_begin run) (Z.to_nat rem) st)) as -> by by destruct runs.
    cbn [mbind result_bind]. split_and!.
    + unfold pages_of. cbn [mbind list_bind ex_begin ex_len]. rewrite app_nil_r, append_run_pages.
      by rewrite Z2Nat.id by lia.
    + cbn. repeat split; extent_lia.
    + cbn [extents_wf]. repeat split; try extent_lia.
      eapply extents_wf_weaken; [|exact Hwf]. extent_lia.
    + intros x. rewrite !cov_cons. change (cov [] x) with 0. ind_cases.
    + cbn. lia.
    + rewrite !total_cons. cbn [ex_len]. lia.
Qed.

(** ** The pool invariant *)

(** The free positions of the allocation bit vector. *)
Definition free_at (alloc : list bool) (x : Z) : Z :=
  match at_index alloc x with Some false => 1 | _ => 0 end.

Record pool_inv (p : DeviceKVPagePool) : Prop := {
  pi_capacity : 0 <= capacity_pages p <= i32_max;
  pi_gens : Z.of_nat (length (page_generations p)) = capacity_pages p;
  pi_alloc : Z.of_nat (length (page_allocated p)) = capacity_pages p;
  pi_marks : Z.of_nat (length (validation_marks p)) = capacity_pages p;
  pi_runs : extents_wf 0 (capacity_pages p) (free_page_runs p);
  pi_cov : forall x, cov (free_page_runs p) x = free_at (page_allocated p) x;
  pi_count : allocated_pages p = sum_with is_true (page_allocated p);
  pi_total : total (free_page_runs p) = capacity_pages p - allocated_pages p;
  pi_generation : forall x g, at_index (page_generations p) x = Some g -> 1 <= g <= u32_max;
  pi_reserved : 0 <= reserved_pages p /\ allocated_pages p + reserved_pages p <= capacity_pages p;
  pi_stamp : 0 <= validation_stamp p <= u32_max;
  pi_marks_le : Forall (fun m => 0 <= m <= validation_stamp p) (validation_marks p);
}.

Lemma pool_allocated_nonneg p : pool_inv p -> 0 <= allocated_pages p.
Proof.
  intros []. rewrite pi_count0. apply sum_with_nonneg. intros []; cbn; lia.
Qed.

Lemma set_counts_inv p r :
  pool_inv p -> 0 <= r -> allocated_pages p + r <= capacity_pages p ->
  pool_inv (set_counts (allocated_pages p) r p).
Proof. intros [] Hr Hle. by split. Qed.

(** The page handles the pool accepts. *)
Lemma valid_page_iff p h :
  pool_inv p ->
  valid_page p h = true <->
  pg_owner h = Some (pool_self p) /\ at_index (page_allocated p) (pg_index h) = Some true /\
  at_index (page_generations p) (pg_index h) = Some (pg_generation h).
Proof.
  intros Hinv. unfold valid_page.
  destruct (bool_decide (pg_owner h = Some (pool_self p))) eqn:Ho; cbn [negb orb].
  2: { apply bool_decide_eq_false in Ho. split; [discriminate|]. by intros (? & _). }
  apply bool_decide_eq_true in Ho.
  destruct (Z.ltb_spec (pg_index h) 0); cbn [orb].
  { split; [discriminate|]. intros (_ & Ha%at_index_lt & _). lia. }
  destruct (Z.leb_spec (capacity_pages p) (pg_index h)).
  { split; [discriminate|]. intros (_ & Ha%at_index_lt & _). pose proof (pi_alloc _ Hinv). lia. }
  destruct (at_index (page_allocated p) (pg_index h)) as [[]|],
    (at_index (page_generations p) (pg_index h)) as [g|]; cbn [andb];
    try (split; [discriminate|]; intros (_ & ? & ?); discriminate).
  rewrite Z.eqb_eq. split; [intros ->; done|]. by intros (_ & _ & [= ->]).
Qed.

Lemma lease_ok_iff p x :
  pool_inv p ->
  lease_ok p x = true <->
  ls_owner x = Some (pool_self p) /\ at_index (page_allocated p) (ls_index x) = Some true /\
  at_index (page_generations p) (ls_index x) = Some (ls_generation x).
Proof.
  intros Hinv. unfold lease_ok, lease_belongs_to. rewrite andb_true_iff, bool_decide_eq_true.
  unfold lease_handle. split.
  - intros [Ho Hv]. rewrite Ho in Hv. apply valid_page_iff in Hv as (_ & Ha & Hg); [|done].
    split_and!; [done|exact Ha|exact Hg].
  - intros (Ho & Ha & Hg). split; [done|]. rewrite Ho. by apply valid_page_iff.
Qed.

Lemma free_at_cov p x : pool_inv p -> cov (free_page_runs p) x = 1 -> at_index (page_allocated p) x = Some false.
Proof.
  intros Hinv Hc. rewrite (pi_cov _ Hinv) in Hc. unfold free_at in Hc. by repeat case_match.
Qed.

(** ** Binding pages *)

(** Taking the extents [t] out of the free runs and marking their pages. *)
Lemma take_pages_inv p t runs alloc d :
  pool_inv p -> extents_wf 0 (capacity_pages p) t -> extents_wf 0 (capacity_pages p) runs ->
  (forall x, cov runs x = cov (free_page_runs p) x - cov t x) ->
  total runs = total (free_page_runs p) - total t ->
  0 <= reserved_pages p - total t ->
  append_pages (pages_of t) (p, []) = (set_page (page_generations p) alloc p, d) ->
  pool_inv (set_counts (allocated_pages p + total t) (reserved_pages p - total t)
    (set_runs runs (set_page (page_generations p) alloc p))) /\
  d = lease_of p <$> pages_of t /\
  Z.of_nat (length (pages_of t)) = total t /\ NoDup (pages_of t) /\
  (forall x, x ∈ pages_of t -> at_index (page_allocated p) x = Some false) /\
  (forall x, at_index alloc x = if decide (x ∈ pages_of t) then Some true else at_index (page_allocated p) x).
Proof.
  intros Hinv Hwt Hwr Hcov Htot Hres Happ.
  assert (forall x, x ∈ pages_of t -> at_index (page_allocated p) x = Some false) as Hfree.
  { intros x Hx%(pages_of_elem _ _ _ _ Hwt). apply (free_at_cov p); [done|].
    pose proof (Hcov x). pose proof (cov_nonneg runs x).
    pose proof (cov_le_1 _ _ _ x (pi_runs _ Hinv)). lia. }
  pose proof (pi_gens _ Hinv). pose proof (pi_alloc _ Hinv).
  destruct (append_pages_spec (pages_of t) p []) as (alloc' & Happ' & Hlen & Hlk & Hsum); [lia| |].
  { apply Forall_forall. intros x Hx. exact (at_index_lt _ _ _ (Hfree x Hx)). }
  rewrite Happ in Happ'. injection Happ' as -> ->.
  pose proof (pages_of_length _ _ _ Hwt) as Hplen. pose proof (pages_of_NoDup _ _ _ Hwt) as Hnd.
  split_and!; try done.
  destruct Hinv. split; cbn -[cov total capacity_pages];
    try change (capacity_pages (set_counts _ _ _)) with (capacity_pages p); try done; try lia.
  - intros x. rewrite Hcov, pi_cov0. unfold free_at. rewrite Hlk.
    pose proof (cov_nonneg t x). pose proof (cov_le_1 _ _ _ x Hwt).
    case_decide as Hx.
    + rewrite (Hfree x Hx). apply (pages_of_elem _ _ _ _ Hwt) in Hx. lia.
    + rewrite (pages_of_elem _ _ _ _ Hwt) in Hx. lia.
  - rewrite (Hsum Hnd Hfree), Hplen. lia.
Qed.

(** What an operation on a sequence's leases and reservation promises: the invariant, conservation
    of the counters, valid and distinct leases, and that pages of others are untouched. *)
Record bound_step (p p' : DeviceKVPagePool) (r r' : DeviceKVPageReservation)
    (l l' : list DeviceKVPageLease) : Prop := {
  bs_inv : pool_inv p';
  bs_self : pool_self p' = pool_self p;
  bs_owner : rs_owner r' = rs_owner r;
  bs_pages : 0 <= rs_pages r';
  bs_reserved : reserved_pages p' - rs_pages r' = reserved_pages p - rs_pages r;
  bs_allocated : allocated_pages p' - Z.of_nat (length l') = allocated_pages p - Z.of_nat (length l);
  bs_ok : Forall (fun x => lease_ok p' x = true) l';
  bs_distinct : NoDup (ls_index <$> l');
  bs_new : forall x, x ∈ ls_index <$> l' -> x ∈ ls_index <$> l \/ at_index (page_allocated p) x = Some false;
  bs_frame : forall x, x ∉ ls_index <$> l -> at_index (page_allocated p) x = Some true ->
    at_index (page_allocated p') x = Some true /\
    at_index (page_generations p') x = at_index (page_generations p) x;
}.

(** The state an operation may assume: a reservation of this pool and its valid, distinct leases. *)
Record owned (p : DeviceKVPagePool) (r : DeviceKVPageReservation) (l : list DeviceKVPageLease) : Prop := {
  ow_inv : pool_inv p;
  ow_owner : rs_owner r = Some (pool_self p);
  ow_pages : 0 <= rs_pages r <= reserved_pages p;
  ow_ok : Forall (fun x => lease_ok p x = true) l;
  ow_distinct : NoDup (ls_index <$> l);
}.

Lemma bind_pages_step p r l t runs alloc d :
  owned p r l -> extents_wf 0 (capacity_pages p) t -> extents_wf 0 (capacity_pages p) runs ->
  (forall x, cov runs x = cov (free_page_runs p) x - cov t x) ->
  total runs = total (free_page_runs p) - total t -> 0 <= total t <= rs_pages r ->
  append_pages (pages_of t) (p, []) = (set_page (page_generations p) alloc p, d) ->
  bound_step p
    (set_counts (w32 (allocated_pages p + total t)) (w32 (reserved_pages p - total t))
      (set_runs runs (set_page (page_generations p) alloc p)))
    r (mkReservation (rs_owner r) (w32 (rs_pages r - total t))) l (l ++ d).
Proof.
  intros Hown Hwt Hwr Hcov Htot Hcount Happ.
  pose proof (ow_inv _ _ _ Hown) as Hinv. pose proof (ow_pages _ _ _ Hown).
  pose proof (pool_allocated_nonneg _ Hinv). pose proof (pi_reserved _ Hinv).
  pose proof (pi_capacity _ Hinv).
  rewrite (w32_small (allocated_pages p + total t)), (w32_small (reserved_pages p - total t)),
    (w32_small (rs_pages r - total t)) by lia.
  destruct (take_pages_inv p t runs alloc d Hinv Hwt Hwr Hcov Htot ltac:(lia) Happ)
    as (Hinv' & -> & Hplen & Hnd & Hfree & Hlk).
  set (p' := set_counts _ _ _) in *.
  assert (ls_index <$> (l ++ (lease_of p <$> pages_of t)) = (ls_index <$> l) ++ pages_of t) as Hidx.
  { rewrite fmap_app. f_equal. rewrite <- list_fmap_compose. by rewrite list_fmap_id. }
  pose proof (ow_ok _ _ _ Hown) as Hok.
  assert (forall x, x ∈ ls_index <$> l -> at_index (page_allocated p) x = Some true) as Hl.
  { intros x (y & -> & Hy)%list_elem_of_fmap. rewrite Forall_forall in Hok.
    by apply (lease_ok_iff p), (Hok y Hy). }
  split; try done.
  - cbn. lia.
  - cbn. lia.
  - cbn. rewrite length_app, length_fmap. lia.
  - apply Forall_app. split.
    + eapply Forall_impl; [exact Hok|]. cbn. intros y Hy.
      apply (lease_ok_iff p) in Hy as (Ho & Ha & Hg); [|done].
      apply (lease_ok_iff p'); [done|]. split_and!; try done. cbn. rewrite Hlk. by case_decide.
    + apply Forall_fmap, Forall_forall. intros x Hx. cbn.
      apply (lease_ok_iff p'); [done|]. split_and!; [done| |].
      * cbn. rewrite Hlk. by rewrite decide_True.
      * cbn. unfold gen_at. pose proof (at_index_lt _ _ _ (Hfree x Hx)).
        destruct (at_index_is_Some (page_generations p) x) as [g Hg].
        { rewrite (pi_gens _ Hinv), <- (pi_alloc _ Hinv). done. }
        by rewrite Hg.
  - rewrite Hidx. apply NoDup_app. split_and!; [apply (ow_distinct _ _ _ Hown)| |done].
    intros x Hx Ht. specialize (Hl x Hx). specialize (Hfree x Ht). congruence.
  - rewrite Hidx. intros x [Hx|Hx]%elem_of_app; [by left|right; auto].
  - intros x Hx Ha. cbn. rewrite Hlk. split; [|done]. by case_decide.
Qed.
