(* ===== verification/DevicePoolOps.v ===== *)
(** * The device page pool: what each operation does

    One lemma per operation of [DeviceKVPagePool] on a reservation and the leases of its owner: when
    it succeeds it is a [bound_step], when it throws nothing has changed. *)

From S2P Require Import Prelude Extents Tensor KVGeometry DevicePagePool DevicePoolInvariant.

(** ** Materialize *)

Lemma append_pages_prefix l p d :
  append_pages l (p, d) = ((append_pages l (p, [])).1, d ++ (append_pages l (p, [])).2).
Proof.
  revert p d. induction l as [|y l IH]; intros p d; cbn; [by rewrite app_nil_r|].
  change (append_pages l (append_page y (p, d)) =
    ((append_pages l (append_page y (p, []))).1, d ++ (append_pages l (append_page y (p, []))).2)).
  unfold append_page. destruct (at_index (page_generations p) y) as [g|]; [|apply IH].
  rewrite (IH _ (d ++ _)), (IH _ ([] ++ _)). cbn. by rewrite <- app_assoc.
Qed.

Lemma select_preferred_Some hi runs q n i b :
  hi <= i32_max -> extents_wf 0 hi runs -> 0 <= n <= u32_max -> q <= i32_max ->
  select_preferred runs q n = Some (i, b) ->
  b = q /\ exists run, runs !! i = Some run /\ ex_begin run <= b /\ b + n <= ex_end run.
Proof.
  intros Hhi Hwf Hn Hq. unfold select_preferred.
  destruct (Z.ltb_spec q 0); [discriminate|].
  destruct (partition_point _ runs) as [|c]; [discriminate|].
  destruct (runs !! c) as [run|] eqn:Hc; [|discriminate].
  destruct (extents_wf_lookup _ _ _ _ _ Hwf Hc) as (? & ? & ?).
  rewrite !w64_small by extent_lia.
  destruct (Z.leb_spec (ex_begin run) q); [|discriminate].
  destruct (Z.leb_spec (q + n) (ex_begin run + ex_len run)); [|discriminate].
  intros [= <- <-]. split; [done|]. exists run. split_and!; [done|lia|extent_lia].
Qed.

Lemma select_contiguous_Some runs n i b :
  select_contiguous runs n = Some (i, b) ->
  exists run, runs !! i = Some run /\ b = ex_begin run /\ b + n <= ex_end run.
Proof.
  unfold select_contiguous. destruct (find_index _ runs) as [j|] eqn:Hj; [|discriminate].
  apply find_index_Some in Hj as (pre & run & post & -> & Hlen & Hfit & _).
  rewrite (lookup_middle pre) by done. intros [= <- <-]. exists run.
  rewrite (lookup_middle pre) by done. apply Z.leb_le in Hfit. split_and!; [done..|extent_lia].
Qed.

Lemma select_run_Some hi runs q n i b :
  hi <= i32_max -> extents_wf 0 hi runs -> 0 <= n <= u32_max ->
  (forall z, q = Some z -> z <= i32_max) -> select_run runs q n = Some (i, b) ->
  exists run, runs !! i = Some run /\ ex_begin run <= b /\ b + n <= ex_end run.
Proof.
  intros Hhi Hwf Hn Hq. unfold select_run.
  destruct (match q with Some z => _ | None => _ end) as [[j c]|] eqn:Hs.
  - intros [= <- <-]. destruct q as [z|]; [|discriminate].
    apply (select_preferred_Some hi) in Hs as (_ & run & Hrun); [by exists run|done..|by apply Hq].
  - intros (run & Hi & -> & He)%select_contiguous_Some. exists run. split_and!; [done|lia|done].
Qed.

(** Binding a selected run. *)
Lemma bind_selected p l i b n run :
  pool_inv p -> free_page_runs p !! i = Some run -> 0 < n -> ex_begin run <= b ->
  b + n <= ex_end run ->
  let t := [mkExtent b n] in
  exists runs alloc d,
    (let '(p1, l') := append_run b (Z.to_nat n) (p, l) in
     consume_free_run i b n p1 = (set_runs runs (set_page (page_generations p) alloc p), Ok tt) /\
     l' = l ++ d) /\
    append_pages (pages_of t) (p, []) = (set_page (page_generations p) alloc p, d) /\
    extents_wf 0 (capacity_pages p) t /\ extents_wf 0 (capacity_pages p) runs /\
    (forall x, cov runs x = cov (free_page_runs p) x - cov t x) /\
    total runs = total (free_page_runs p) - total t /\ total t = n.
Proof.
  intros Hinv Hi Hn Hb He.
  intros t. destruct (extents_wf_lookup _ _ _ _ _ (pi_runs _ Hinv) Hi) as (? & ? & ?).
  pose proof (pi_capacity _ Hinv). pose proof (pi_gens _ Hinv). pose proof (pi_alloc _ Hinv).
  assert (pages_of t = seqZ b n) as Hpages.
  { unfold pages_of, t. cbn [mbind list_bind ex_begin ex_len]. by rewrite app_nil_r. }
  destruct (append_pages_spec (pages_of t) p []) as (alloc & Happ & _ & _ & _); [lia| |].
  { rewrite Hpages. apply Forall_forall. intros x Hx%elem_of_seqZ. extent_lia. }
  destruct (carve_middle_spec _ _ _ _ b n (pi_runs _ Hinv) Hi) as (Hwf & Hcov & Htot); [lia..|].
  exists (carve_middle (free_page_runs p) i run b n), alloc, (lease_of p <$> pages_of t).
  split_and!; try done.
  - rewrite append_run_pages, Z2Nat.id by lia. rewrite <- Hpages, append_pages_prefix, Happ.
    cbn [fst snd app]. split; [|done].
    rewrite (consume_free_run_eq _ i run b n) by (done || extent_lia). done.
  - cbn. repeat split; extent_lia.
  - intros x. rewrite Hcov. unfold t. rewrite cov_cons. change (cov [] x) with 0. lia.
  - rewrite Htot. unfold t. rewrite total_cons. cbn. lia.
  - unfold t. rewrite total_cons. cbn. lia.
Qed.

Lemma bind_scattered p l n :
  pool_inv p -> 0 < n <= total (free_page_runs p) ->
  exists t consumed runs alloc d,
    scatter (free_page_runs p) n (p, l) =
      Ok (consumed, runs, (set_page (page_generations p) alloc p, l ++ d)) /\
    append_pages (pages_of t) (p, []) = (set_page (page_generations p) alloc p, d) /\
    extents_wf 0 (capacity_pages p) t /\ extents_wf 0 (capacity_pages p) (drop consumed runs) /\
    (forall x, cov (drop consumed runs) x = cov (free_page_runs p) x - cov t x) /\
    total (drop consumed runs) = total (free_page_runs p) - total t /\ total t = n.
Proof.
  intros Hinv Hn. pose proof (pi_capacity _ Hinv). pose proof (pi_gens _ Hinv).
  pose proof (pi_alloc _ Hinv).
  destruct (scatter_spec _ _ 0 n (p, l) (pi_runs _ Hinv)) as
    (consumed & runs & t & Hs & Hwt & Hwr & Hcov & Htot & Htot'); [lia..|].
  destruct (append_pages_spec (pages_of t) p []) as (alloc & Happ & _ & _ & _); [lia| |].
  { apply Forall_forall. intros x Hx%(pages_of_elem _ _ _ _ Hwt).
    assert (cov (free_page_runs p) x = 1) as Hc%free_at_cov%at_index_lt; [|lia|done].
    pose proof (Hcov x). pose proof (cov_nonneg (drop consumed runs) x).
    pose proof (cov_le_1 _ _ _ x (pi_runs _ Hinv)). lia. }
  exists t, consumed, runs, alloc, (lease_of p <$> pages_of t). split_and!; try done; [|lia].
  rewrite Hs, append_pages_prefix, Happ. done.
Qed.

(** When [materialize] accepts its arguments. *)
Definition materialize_pre (p : DeviceKVPagePool) (r : DeviceKVPageReservation) (target : Z)
    (l : list DeviceKVPageLease) (cap : Z) (pred : option DeviceKVPageHandle) : Prop :=
  Z.of_nat (length l) <= target <= cap /\ target - Z.of_nat (length l) <= rs_pages r /\
  (Z.of_nat (length l) < target -> match pred with Some h => valid_page p h = true | None => True end).

(** The page [materialize] would like to start at. *)
Definition preferred_page (l : list DeviceKVPageLease) (pred : option DeviceKVPageHandle) : option Z :=
  match pred with
  | Some h => Some (pg_index h + 1)
  | None => (fun x => ls_index x + 1) <$> last l
  end.

(** The new leases are those of the extents [t], taken out of the free runs. *)
Record placed (p p' : DeviceKVPagePool) (l l' : list DeviceKVPageLease)
    (pred : option DeviceKVPageHandle) (t : list Extent) : Prop := {
  pt_wf : extents_wf 0 (capacity_pages p) t;
  pt_total : total t = Z.of_nat (length l') - Z.of_nat (length l);
  pt_leases : l' = l ++ (lease_of p <$> pages_of t);
  pt_cov : forall x, cov (free_page_runs p') x = cov (free_page_runs p) x - cov t x;
  pt_run : forall i b, 0 < total t ->
    select_run (free_page_runs p) (preferred_page l pred) (total t) = Some (i, b) ->
    t = [mkExtent b (total t)];
}.

Lemma materialize_spec p r target l cap pred :
  owned p r l -> 0 <= target <= u32_max ->
  match materialize r target l cap pred p with
  | (p', Ok (r', l')) =>
      materialize_pre p r target l cap pred /\ bound_step p p' r r' l l' /\
      rs_pages r' = rs_pages r - (target - Z.of_nat (length l)) /\
      Z.of_nat (length l') = target /\ exists t, placed p p' l l' pred t
  | (p', Throw e) => p' = p /\ e = InvalidArgument /\ ~ materialize_pre p r target l cap pred
  end.
Proof.
  intros Hown Htarget. unfold materialize, materialize_pre. unfold_M.
  pose proof (ow_inv _ _ _ Hown) as Hinv. pose proof (ow_pages _ _ _ Hown).
  pose proof (pi_capacity _ Hinv). pose proof (pi_reserved _ Hinv). pose proof (pool_allocated_nonneg _ Hinv).
  pose proof (pi_total _ Hinv) as Htotal.
  unfold reservation_belongs_to. rewrite (bool_decide_eq_true_2 _ (ow_owner _ _ _ Hown)). cbn [negb orb].
  destruct (Z.ltb_spec target (Z.of_nat (length l))); [split_and!; [done..|lia]|].
  rewrite (w32_small (target - _)) by lia.
  set (n := target - Z.of_nat (length l)) in *.
  destruct (Z.ltb_spec (rs_pages r) n); cbn [orb]; [split_and!; [done..|lia]|].
  destruct (Z.ltb_spec cap target); [split_and!; [done..|lia]|].
  assert (forallb (lease_ok p) l = true) as ->.
  { apply forallb_forall. intros x Hx. pose proof (ow_ok _ _ _ Hown) as Hok.
    rewrite Forall_forall in Hok. by apply Hok, list_elem_of_In. }
  cbn [negb]. destruct (Z.eqb_spec n 0) as [Hn0|Hn0].
  { split_and!; try done; try lia.
    - destruct Hown. split; try done; try lia; by left.
    - exists []. split; cbn; [done|lia|by rewrite app_nil_r|intros; lia|intros; lia]. }
  rewrite w32_small by lia. destruct (Z.ltb_spec (capacity_pages p - allocated_pages p) n); [lia|].
  (* the pages are bound, from wherever they come *)
  assert (forall p1 l1 t runs alloc d,
    append_pages (pages_of t) (p, []) = (set_page (page_generations p) alloc p, d) ->
    extents_wf 0 (capacity_pages p) t -> extents_wf 0 (capacity_pages p) runs ->
    (forall x, cov runs x = cov (free_page_runs p) x - cov t x) ->
    total runs = total (free_page_runs p) - total t -> total t = n ->
    (forall i b, select_run (free_page_runs p) (preferred_page l pred) n = Some (i, b) ->
       t = [mkExtent b n]) ->
    p1 = set_runs runs (set_page (page_generations p) alloc p) -> l1 = l ++ d ->
    bound_step p (set_counts (w32 (allocated_pages p1 + n)) (w32 (reserved_pages p1 - n)) p1) r
      (mkReservation (rs_owner r) (w32 (rs_pages r - n))) l l1 /\
    w32 (rs_pages r - n) = rs_pages r - n /\ Z.of_nat (length l1) = target /\
    exists t, placed p (set_counts (w32 (allocated_pages p1 + n)) (w32 (reserved_pages p1 - n)) p1)
      l l1 pred t) as Hbind.
  { intros p1 l1 t runs alloc d Happ Hwt Hwr Hcov Htot Ht Hrun -> ->. rewrite <- Ht.
    assert (total t = n) as Htn by done.
    pose proof (bind_pages_step p r l t runs alloc d Hown Hwt Hwr Hcov Htot ltac:(lia) Happ) as Hstep.
    destruct (take_pages_inv p t runs alloc d Hinv Hwt Hwr Hcov Htot ltac:(lia) Happ)
      as (_ & Hd & Hlen & _). subst d.
    assert (Z.of_nat (length (l ++ (lease_of p <$> pages_of t))) = target) as Hlen'
      by (rewrite length_app, length_fmap; lia).
    split_and!; [exact Hstep|rewrite w32_small; lia|exact Hlen'|]. exists t. split; try done; [lia|].
    intros i b _ Hsel. rewrite Htn in *. by eapply Hrun. }
  (* the preferred page *)
  match goal with |- match (match ?m with _ => _ end) with _ => _ end =>
    assert ((m = (p, Throw InvalidArgument) /\
             match pred with Some h => valid_page p h = false | None => False end) \/
            exists q, m = (p, Ok q) /\ q = preferred_page l pred /\ (forall z, q = Some z -> z <= i32_max) /\
              match pred with Some h => valid_page p h = true | None => True end) as Hm
  end.
  { destruct pred as [h|].
    - unfold physical_index. destruct (valid_page p h) eqn:Hv; [right|by left].
      exists (Some (pg_index h + 1)). split_and!; [done|done| |done]. intros z [= <-].
      apply valid_page_iff in Hv as (_ & Ha%at_index_lt & _); [|done]. pose proof (pi_alloc _ Hinv). lia.
    - right. eexists. split_and!; [reflexivity|done| |done]. intros z Hz.
      apply fmap_Some in Hz as (x & Hx & ->). pose proof (ow_ok _ _ _ Hown) as Hok.
      rewrite Forall_forall in Hok. apply last_Some_elem_of, Hok, (lease_ok_iff p) in Hx as (_ & Ha%at_index_lt & _);
        [|done]. pose proof (pi_alloc _ Hinv). lia. }
  destruct Hm as [[-> Hpred]|(q & -> & Hqp & Hq & Hpred)].
  { split_and!; [done..|]. intros (_ & _ & Hp). specialize (Hp ltac:(lia)).
    destruct pred; [congruence|done]. }
  assert (materialize_pre p r target l cap pred) as Hpre by (split_and!; [lia..|done]).
  destruct (select_run (free_page_runs p) q n) as [[i b]|] eqn:Hsel.
  - destruct (select_run_Some (capacity_pages p) (free_page_runs p) q n i b) as (run & Hi & Hb & He);
      [lia|apply (pi_runs _ Hinv)|lia|exact Hq|exact Hsel|].
    destruct (bind_selected p l i b n run Hinv Hi ltac:(lia) Hb He)
      as (runs & alloc & d & Hop & Happ & Hwt & Hwr & Hcov & Htot & Ht).
    destruct (append_run b (Z.to_nat n) (p, l)) as [p1 l1]. destruct Hop as [-> ->].
    split; [exact Hpre|]. apply (Hbind _ _ [mkExtent b n] runs alloc d); try done.
    intros i' b' Hsel'. rewrite <- Hqp, Hsel in Hsel'. injection Hsel' as <- <-. done.
  - destruct (bind_scattered p l n Hinv ltac:(lia))
      as (t & consumed & runs & alloc & d & -> & Happ & Hwt & Hwr & Hcov & Htot & Ht).
    split; [exact Hpre|]. apply (Hbind _ _ t (drop consumed runs) alloc d); try done.
    intros i b Hsel'. congruence.
Qed.

(** ** Materialize one page *)

Lemma materialize_one_spec p r l :
  owned p r l ->
  match materialize_one r p with
  | (p', Ok (r', x)) => 0 < rs_pages r /\ bound_step p p' r r' l (l ++ [x])
  | (p', Throw e) => p' = p /\ e = InvalidArgument /\ rs_pages r = 0
  end.
Proof.
  intros Hown. unfold materialize_one. unfold_M.
  pose proof (ow_inv _ _ _ Hown) as Hinv. pose proof (ow_pages _ _ _ Hown).
  pose proof (pi_capacity _ Hinv). pose proof (pi_reserved _ Hinv).
  pose proof (pi_gens _ Hinv). pose proof (pi_alloc _ Hinv). pose proof (pi_total _ Hinv) as Htotal.
  unfold reservation_belongs_to. rewrite (bool_decide_eq_true_2 _ (ow_owner _ _ _ Hown)). cbn [negb orb].
  destruct (Z.eqb_spec (rs_pages r) 0); [done|].
  destruct (free_page_runs p) as [|run rest] eqn:Hruns.
  { change (total []) with 0 in Htotal. lia. }
  assert (free_page_runs p !! 0%nat = Some run) as Hi by by rewrite Hruns.
  destruct (extents_wf_lookup _ _ _ _ _ (pi_runs _ Hinv) Hi) as (? & ? & ?).
  destruct (at_index_is_Some (page_generations p) (ex_begin run)) as [g Hg]; [extent_lia|].
  rewrite Hg. rewrite (w32_small (ex_len run - 1)) by extent_lia. cbn [ex_len].
  set (t := [mkExtent (ex_begin run) 1]).
  destruct (carve_middle_spec _ _ _ _ (ex_begin run) 1 (pi_runs _ Hinv) Hi) as (Hwf & Hcov & Htot);
    [lia|lia|extent_lia|].
  set (alloc := set_index (page_allocated p) (ex_begin run) true).
  assert (append_pages (pages_of t) (p, []) =
    (set_page (page_generations p) alloc p, [mkLease (Some (pool_self p)) (ex_begin run) g])) as Happ.
  { unfold pages_of, t. cbn [mbind list_bind ex_begin ex_len].
    rewrite seqZ_cons by lia. cbn. by rewrite Hg. }
  assert (carve_middle (free_page_runs p) 0 run (ex_begin run) 1 =
    if ex_len run - 1 =? 0 then rest else mkExtent (ex_begin run + 1) (ex_len run - 1) :: rest) as Hcm.
  { unfold carve_middle. rewrite Hruns, decide_True by done. cbn [take drop app].
    destruct (Z.eqb_spec (ex_len run - 1) 0).
    - rewrite decide_True by extent_lia. by rewrite drop_0.
    - rewrite decide_False by extent_lia. rewrite drop_0. cbn. do 2 f_equal. extent_lia. }
  split; [lia|].
  rewrite <- Hcm. assert (total t = 1) as Ht by done. rewrite <- Ht.
  apply (bind_pages_step p r l t); try done; try (rewrite Ht; lia).
  - cbn. repeat split; extent_lia.
  - intros x. rewrite Hcov. unfold t. rewrite cov_cons. change (cov [] x) with 0. lia.
Qed.

(** ** Releasing leases *)

(** Releasing valid, distinct leases in order. *)
Record destroyed (p p' : DeviceKVPagePool) (l : list DeviceKVPageLease) : Prop := {
  de_inv : pool_inv p';
  de_self : pool_self p' = pool_self p;
  de_capacity : capacity_pages p' = capacity_pages p;
  de_reserved : reserved_pages p' = reserved_pages p;
  de_allocated : allocated_pages p' = allocated_pages p - Z.of_nat (length l);
  de_gone : forall x, x ∈ ls_index <$> l -> at_index (page_allocated p') x = Some false;
  de_stale : forall x, x ∈ l -> lease_ok p' x = false;
  de_cov : forall x, cov (free_page_runs p') x =
    if decide (x ∈ ls_index <$> l) then 1 else cov (free_page_runs p) x;
  de_frame : forall x, x ∉ ls_index <$> l ->
    at_index (page_allocated p') x = at_index (page_allocated p) x /\
    at_index (page_generations p') x = at_index (page_generations p) x;
}.

Lemma lease_release_eq p x :
  pool_inv p -> lease_ok p x = true ->
  exists p', lease_release p x = (p', null_lease, true) /\ destroyed p p' [x].
Proof.
  intros Hinv Hok. pose proof Hok as (Ho & Ha & Hg)%lease_ok_iff; [|done].
  unfold lease_release. rewrite Ho.
  assert (valid_page p (mkPage (Some (pool_self p)) (ls_index x) (ls_generation x)) = true) as ->
    by by apply valid_page_iff.
  eexists. split; [done|].
  pose proof (at_index_lt _ _ _ Ha) as Hlt. pose proof (pi_alloc _ Hinv) as Halloc.
  pose proof (pi_gens _ Hinv) as Hgens. pose proof (pi_capacity _ Hinv) as Hcap.
  unfold release_page. rewrite Ha, Hg, Z.eqb_refl. cbn [negb orb].
  destruct (Z.ltb_spec (ls_index x) 0); [lia|]. destruct (Z.leb_spec (capacity_pages p) (ls_index x)); [lia|].
  cbn [orb]. set (i := ls_index x) in *.
  assert (insertable (capacity_pages p) (free_page_runs p) (mkExtent i 1)) as Hins.
  { split_and!; try extent_lia. intros z Hz. assert (z = i) as -> by ind_cases.
    rewrite (pi_cov _ Hinv). unfold free_at. by rewrite Ha. }
  cbn [free_page_runs set_page].
  rewrite (release_free_page_insert (capacity_pages p)) by (lia || apply Hinv || done).
  destruct (insert_extent_spec (capacity_pages p) (free_page_runs p) (mkExtent i 1))
    as (Hwf & Hcov & Htot); [lia|apply (pi_runs _ Hinv)|done|].
  assert (0 < allocated_pages p <= capacity_pages p) as Hpos.
  { pose proof (pi_reserved _ Hinv). split; [|lia]. rewrite (pi_count _ Hinv).
    apply at_index_Some in Ha as [_ Ha].
    pose proof (sum_with_elem is_true _ _ _ ltac:(intros []; cbn; lia) Ha). cbn in *. lia. }
  rewrite w32_small by (cbn; lia).
  assert (forall z, at_index (set_index (page_allocated p) i false) z =
    if decide (z = i) then Some false else at_index (page_allocated p) z) as Hlk.
  { intros z. case_decide; [subst z; by apply at_set_index_eq|].
    apply at_set_index_ne; [lia|done]. }
  assert (forall z, at_index (set_index (page_generations p) i (increment_generation (ls_generation x))) z =
    if decide (z = i) then Some (increment_generation (ls_generation x))
    else at_index (page_generations p) z) as Hglk.
  { intros z. case_decide; [subst z; apply at_set_index_eq; lia|].
    apply at_set_index_ne; [lia|done]. }
  assert (forall z, cov (insert_extent (free_page_runs p) (mkExtent i 1)) z =
    if decide (z = i) then 1 else cov (free_page_runs p) z) as Hcov'.
  { intros z. rewrite Hcov. case_decide.
    - subst z. destruct Hins as (_ & _ & _ & Hz). rewrite (Hz i); ind_cases.
    - ind_cases. }
  set (p' := set_counts _ _ _).
  assert (pool_inv p') as Hinv'.
  { pose proof (pi_count _ Hinv). pose proof (pi_total _ Hinv). pose proof (pi_reserved _ Hinv).
    pose proof (pi_generation _ Hinv _ _ Hg) as Hgr.
    split; cbn -[cov total capacity_pages]; rewrite ?length_set_index;
      try change (capacity_pages p') with (capacity_pages p); try (by apply Hinv); try lia.
    - done.
    - intros z. rewrite Hcov'. unfold free_at. rewrite Hlk. case_decide; [done|apply (pi_cov _ Hinv)].
    - rewrite (sum_with_set_index _ _ _ true) by done. cbn. lia.
    - rewrite Htot. cbn [ex_len]. lia.
    - intros z g. rewrite Hglk. case_decide; [|apply (pi_generation _ Hinv)].
      intros [= <-]. pose proof (increment_generation_range (ls_generation x)). lia. }
  split; try done.
  - intros z [->|Hz]%elem_of_cons; [|by apply not_elem_of_nil in Hz]. cbn. by rewrite Hlk, decide_True.
  - intros y ->%list_elem_of_singleton. destruct (lease_ok p' x) eqn:E; [|done].
    apply lease_ok_iff in E as (_ & E & _); [|done]. cbn in E. fold i in E.
    rewrite Hlk, decide_True in E by done. discriminate.
  - intros z. cbn -[cov]. rewrite Hcov'.
    destruct (decide (z = i)) as [Hz|Hz].
    + rewrite decide_True; [done|]. by apply list_elem_of_singleton.
    + rewrite decide_False; [done|]. by rewrite list_elem_of_singleton.
  - intros z Hz. cbn in Hz. rewrite list_elem_of_singleton in Hz. cbn.
    rewrite Hlk, Hglk, !decide_False by done. done.
Qed.

Lemma destroyed_other p p' l x :
  pool_inv p -> destroyed p p' l -> ls_index x ∉ ls_index <$> l -> lease_ok p' x = lease_ok p x.
Proof.
  intros Hinv [] Hx. destruct (de_frame0 _ Hx) as [Ha Hg].
  apply eq_bool_prop_intro. split; intros H%Is_true_eq_true; apply Is_true_eq_left.
  - apply lease_ok_iff in H as (? & ? & ?); [|done]. apply lease_ok_iff; [done|].
    rewrite <- Ha, <- Hg, <- de_self0. done.
  - apply lease_ok_iff in H as (? & ? & ?); [|done]. apply lease_ok_iff; [done|].
    rewrite Ha, Hg, de_self0. done.
Qed.

Lemma destroy_leases_spec l : forall p,
  pool_inv p -> Forall (fun x => lease_ok p x = true) l -> NoDup (ls_index <$> l) ->
  destroyed p (destroy_leases p l) l.
Proof.
  induction l as [|x l IH]; intros p Hinv Hok Hnd.
  { split; try done; try (intros ? H; by apply not_elem_of_nil in H). cbn. lia. }
  apply Forall_cons in Hok as [Hx Hok]. rewrite fmap_cons in Hnd. apply NoDup_cons in Hnd as [Hnx Hnd].
  destruct (lease_release_eq p x Hinv Hx) as (p1 & Hrel & H1).
  assert (forall y, y ∈ l -> ls_index y ∉ ls_index <$> [x]) as Hne.
  { intros y Hy Heq. cbn in Heq. apply list_elem_of_singleton in Heq.
    apply Hnx. rewrite <- Heq. by apply list_elem_of_fmap_2. }
  assert (destroyed p1 (destroy_leases p1 l) l) as H2.
  { apply IH; [apply H1| |done]. apply Forall_forall. intros y Hy.
    rewrite (destroyed_other p p1 [x]) by auto. rewrite Forall_forall in Hok. auto. }
  assert (destroy_leases p (x :: l) = destroy_leases p1 l) as ->.
  { unfold destroy_leases. cbn [foldl]. by rewrite Hrel. }
  destruct H1, H2. split; try done; try congruence.
  - rewrite length_cons. cbn in *. lia.
  - intros z. rewrite fmap_cons, elem_of_cons. intros [->|Hz]; [|auto].
    rewrite (proj1 (de_frame1 _ Hnx)). apply de_gone0. by left.
  - intros y [->|Hy]%elem_of_cons; [|auto].
    rewrite (destroyed_other p1 (destroy_leases p1 l) l); [apply de_stale0; by left|done| |done].
    by split.
  - intros z. rewrite de_cov1, de_cov0. rewrite fmap_cons. destruct (decide (z ∈ ls_index <$> l)) as [Hz|Hz].
    + rewrite decide_True; [done|by right].
    + destruct (decide (z = ls_index x)) as [->|Hzx].
      * rewrite !decide_True; [done|by left|by left].
      * rewrite !decide_False; [done|..]; cbn [fmap list_fmap];
          rewrite elem_of_cons, ?elem_of_nil; tauto.
  - intros z Hz. rewrite fmap_cons, elem_of_cons in Hz.
    destruct (de_frame1 z) as [-> ->]; [tauto|]. apply de_frame0. cbn.
    rewrite list_elem_of_singleton. tauto.
Qed.

(** ** Returning pages to a reservation *)

Lemma owned_bounds p r l :
  owned p r l -> 0 <= rs_pages r /\ rs_pages r <= reserved_pages p /\
    reserved_pages p + allocated_pages p <= capacity_pages p /\ 0 <= allocated_pages p /\
    capacity_pages p <= i32_max.
Proof.
  intros [Hinv _ Hp _ _]. pose proof (pi_reserved _ Hinv). pose proof (pi_capacity _ Hinv).
  pose proof (pool_allocated_nonneg _ Hinv). lia.
Qed.

(** The allocated counter covers any set of valid, distinct leases. *)
Lemma owned_length p r l : owned p r l -> Z.of_nat (length l) <= allocated_pages p.
Proof.
  intros [Hinv _ _ Hok Hnd]. pose proof (destroy_leases_spec l p Hinv Hok Hnd) as Hd.
  pose proof (de_allocated _ _ _ Hd). pose proof (pool_allocated_nonneg _ (de_inv _ _ _ Hd)). lia.
Qed.

(** Destroying the leases [gone] of [keep ++ gone] and crediting the reservation. *)
Lemma credit_step p r keep gone l n :
  owned p r l -> keep ++ gone ≡ₚ l -> n = Z.of_nat (length gone) ->
  let p1 := destroy_leases p gone in
  bound_step p (set_counts (allocated_pages p1) (w32 (reserved_pages p1 + n)) p1) r
    (mkReservation (rs_owner r) (w32 (rs_pages r + n))) l keep /\
  (forall x, cov (free_page_runs p1) x =
    if decide (x ∈ ls_index <$> gone) then 1 else cov (free_page_runs p) x).
Proof.
  intros Hown Hperm ->. cbv zeta.
  destruct (owned_bounds _ _ _ Hown) as (? & ? & ? & ? & ?). pose proof (owned_length _ _ _ Hown).
  pose proof (Permutation_length Hperm) as Hlen. rewrite length_app in Hlen.
  pose proof (ow_ok _ _ _ Hown) as Hok. pose proof (ow_distinct _ _ _ Hown) as Hnd.
  rewrite <- Hperm in Hok, Hnd. rewrite fmap_app in Hnd.
  apply Forall_app in Hok as [Hokk Hokg]. apply NoDup_app in Hnd as (Hndk & Hdisj & Hndg).
  pose proof (destroy_leases_spec gone p (ow_inv _ _ _ Hown) Hokg Hndg) as Hd.
  set (p1 := destroy_leases p gone) in *. split; [|apply (de_cov _ _ _ Hd)].
  pose proof (de_inv _ _ _ Hd) as Hinv1. pose proof (de_allocated _ _ _ Hd).
  rewrite (de_reserved _ _ _ Hd), !w32_small by lia.
  assert (pool_inv (set_counts (allocated_pages p1) (reserved_pages p + Z.of_nat (length gone)) p1)) as Hinv'.
  { apply set_counts_inv; [done|lia|]. rewrite (de_capacity _ _ _ Hd). lia. }
  assert (forall x, x ∈ ls_index <$> l <-> x ∈ (ls_index <$> keep) \/ x ∈ (ls_index <$> gone)) as Hmem.
  { intros x. rewrite <- Hperm, fmap_app. apply elem_of_app. }
  split; try done; cbn [rs_pages rs_owner reserved_pages allocated_pages set_counts]; try lia.
  - apply (de_self _ _ _ Hd).
  - apply Forall_forall. intros x Hx.
    change (lease_ok (set_counts _ _ p1) x) with (lease_ok p1 x).
    rewrite (destroyed_other p p1 gone); [|apply (ow_inv _ _ _ Hown)|done|].
    + rewrite Forall_forall in Hokk. auto.
    + intros Hg. by apply (Hdisj (ls_index x)); [apply list_elem_of_fmap_2|].
  - intros x Hx. left. apply Hmem. by left.
  - intros x Hx Ha. cbn. rewrite Hmem in Hx. destruct (de_frame _ _ _ Hd x) as [-> ->]; [tauto|done].
Qed.

Lemma dematerialize_spec p r target l :
  owned p r l -> 0 <= target <= u32_max ->
  match dematerialize r target l p with
  | (p', Ok (r', l')) =>
      target <= Z.of_nat (length l) /\ bound_step p p' r r' l l' /\
      rs_pages r' = rs_pages r + (Z.of_nat (length l) - target) /\ l' = take (Z.to_nat target) l /\
      (forall x, cov (free_page_runs p') x =
         if decide (x ∈ ls_index <$> drop (Z.to_nat target) l) then 1 else cov (free_page_runs p) x)
  | (p', Throw e) => p' = p /\ e = InvalidArgument /\ Z.of_nat (length l) < target
  end.
Proof.
  intros Hown Htarget. unfold dematerialize. unfold_M.
  destruct (owned_bounds _ _ _ Hown) as (? & ? & ? & ? & ?). pose proof (owned_length _ _ _ Hown).
  unfold reservation_belongs_to. rewrite (bool_decide_eq_true_2 _ (ow_owner _ _ _ Hown)). cbn [negb orb].
  destruct (Z.ltb_spec (Z.of_nat (length l)) target); [done|].
  assert (forallb (lease_ok p) l = true) as ->.
  { apply forallb_forall. intros x Hx. pose proof (ow_ok _ _ _ Hown) as Hok.
    rewrite Forall_forall in Hok. by apply Hok, list_elem_of_In. }
  cbn [negb]. rewrite w32_small by lia.
  destruct (Z.eqb_spec (Z.of_nat (length l) - target) 0).
  { rewrite take_ge, drop_ge by lia. split_and!; try done; try lia.
    destruct Hown. split; try done; try lia; by left. }
  rewrite (w32_small (u32_max - _)) by lia.
  destruct (Z.ltb_spec (u32_max - rs_pages r) (Z.of_nat (length l) - target)); [lia|].
  destruct (credit_step p r (take (Z.to_nat target) l) (drop (Z.to_nat target) l) l
    (Z.of_nat (length l) - target)) as [Hstep Hcov]; [done|by rewrite take_drop|rewrite length_drop; lia|].
  split_and!; [lia|exact Hstep|cbn; rewrite w32_small; lia|done|exact Hcov].
Qed.

Lemma dematerialize_one_spec p r l k x :
  owned p r l -> l !! k = Some x ->
  match dematerialize_one r x p with
  | (p', Ok r') => bound_step p p' r r' l (erase_at k l)
  | (p', Throw e) => False
  end.
Proof.
  intros Hown Hk. unfold dematerialize_one. unfold_M.
  destruct (owned_bounds _ _ _ Hown) as (? & ? & ? & ? & ?). pose proof (owned_length _ _ _ Hown).
  unfold reservation_belongs_to. rewrite (bool_decide_eq_true_2 _ (ow_owner _ _ _ Hown)). cbn [negb orb].
  pose proof (ow_ok _ _ _ Hown) as Hok. pose proof (proj1 (Forall_lookup _ _) Hok _ _ Hk) as Hx.
  cbn in Hx. rewrite Hx. destruct (Z.eqb_spec (rs_pages r) u32_max); [lia|]. cbn [negb orb].
  apply list_elem_of_split_length in Hk as (l1 & l2 & -> & ->). rewrite (erase_middle l1) by done.
  destruct (credit_step p r (l1 ++ l2) [x] (l1 ++ x :: l2) 1) as [Hstep _]; [done|..|done|].
  { etransitivity; [apply Permutation_app_comm|exact (Permutation_middle l1 l2 x)]. }
  destruct (lease_release_eq p x (ow_inv _ _ _ Hown) Hx) as (p1 & Hrel & _).
  unfold destroy_leases in Hstep. cbn [foldl] in Hstep. rewrite Hrel in *. exact Hstep.
Qed.

(** ** Resizing, clearing and creating reservations *)

Lemma resize_spec p r l n :
  owned p r l -> 0 <= n <= u32_max ->
  match resize_reservation r n p with
  | (p', Ok r') =>
      n <= capacity_pages p - allocated_pages p - (reserved_pages p - rs_pages r) /\
      rs_pages r' = n /\ bound_step p p' r r' l l /\ free_page_runs p' = free_page_runs p
  | (p', Throw e) =>
      p' = p /\ e = BadAlloc /\
      capacity_pages p - allocated_pages p - (reserved_pages p - rs_pages r) < n
  end.
Proof.
  intros Hown Hn. unfold resize_reservation, can_resize_reservation. unfold_M.
  destruct (owned_bounds _ _ _ Hown) as (? & ? & ? & ? & ?).
  unfold reservation_belongs_to. rewrite (bool_decide_eq_true_2 _ (ow_owner _ _ _ Hown)). cbn [negb orb].
  destruct (Z.ltb_spec (reserved_pages p) (rs_pages r)); [lia|]. cbv beta iota zeta.
  rewrite (w32_small (reserved_pages p - rs_pages r)) by lia. rewrite (w64_small (allocated_pages p + _)), w64_small by lia.
  destruct (Z.leb_spec (allocated_pages p + (reserved_pages p - rs_pages r) + n) (capacity_pages p)) as [Hle|Hgt].
  2: { cbn. split_and!; [done..|lia]. }
  cbn [negb]. rewrite w32_small by lia. split_and!; [lia|done| |done].
  destruct Hown. split; cbn [rs_pages rs_owner set_counts reserved_pages]; try done; try lia.
  - apply set_counts_inv; [done|lia|lia].
  - by left.
Qed.

Lemma clear_spec p r l :
  owned p r l ->
  match reservation_clear r p with
  | (p', Ok r') => rs_pages r' = 0 /\ bound_step p p' r r' l l
  | (p', Throw e) => False
  end.
Proof.
  intros Hown. unfold reservation_clear, release_reservation. unfold_M.
  destruct (owned_bounds _ _ _ Hown) as (? & ? & ? & ? & ?).
  pose proof (ow_owner _ _ _ Hown) as Ho. rewrite bool_decide_eq_false_2 by congruence. cbn [orb].
  destruct (Z.eqb_spec (rs_pages r) 0).
  { split; [done|]. destruct Hown. split; try done; try lia. by left. }
  destruct (Z.ltb_spec (reserved_pages p) (rs_pages r)); [lia|]. rewrite w32_small by lia.
  split; [done|]. destruct Hown. split; cbn [rs_pages rs_owner set_counts reserved_pages]; try done; try lia.
  - apply set_counts_inv; [done|lia|lia].
  - by left.
Qed.

(** [reserve] grants exactly what is available. *)
Lemma reserve_spec p n :
  pool_inv p -> 0 <= n <= u32_max ->
  reserve p n =
    if decide (0 < n <= capacity_pages p - allocated_pages p - reserved_pages p)
    then (set_counts (allocated_pages p) (reserved_pages p + n) p,
          Some (mkReservation (Some (pool_self p)) n))
    else (p, None).
Proof.
  intros Hinv Hn. pose proof (pi_reserved _ Hinv). pose proof (pi_capacity _ Hinv).
  pose proof (pool_allocated_nonneg _ Hinv).
  unfold reserve, available_pages. rewrite (w32_small (capacity_pages p - _ - _)) by lia.
  destruct (Z.eqb_spec n 0); cbn [orb]; [rewrite decide_False; [done|lia]|].
  destruct (Z.ltb_spec (capacity_pages p - allocated_pages p - reserved_pages p) n).
  - rewrite decide_False; [done|lia].
  - rewrite decide_True by lia. by rewrite w32_small by lia.
Qed.
