(* ===== verification/DevicePoolSpec.v ===== *)
(** * What the device page pool promises

    A client of the pool is a set of owners, each with a reservation and a vector of page leases.
    The theorems: no session over-commits, loses or shares a page or reaches the internal error
    paths; [materialize] never fails within a reservation and extends a sequence contiguously
    whenever it can; [dematerialize] undoes it; a bundle of reservations is all or nothing. *)

From stdpp Require Import sorting.
From S2P Require Import Prelude Extents Tensor KVGeometry DevicePagePool DevicePoolInvariant DevicePoolOps.
Open Scope Z_scope.

(** ** Sessions *)

Record Owner := mkOwner {
  o_reservation : DeviceKVPageReservation;
  o_leases : list DeviceKVPageLease;
  o_capacity : Z;
}.

Record System := mkSystem { s_pool : DeviceKVPagePool; s_owners : list Owner }.

Inductive OwnerOp :=
  | OpMaterialize (target : Z) (predecessor : option DeviceKVPageHandle)
  | OpMaterializeOne
  | OpDematerialize (target : Z)
  | OpDematerializeOne (k : nat)
  | OpResize (n : Z)
  | OpClear.

Definition op_range (op : OwnerOp) : Prop :=
  match op with
  | OpMaterialize n _ | OpDematerialize n | OpResize n => 0 <= n <= u32_max
  | _ => True
  end.

(** One call on behalf of an owner. *)
Definition run_op (op : OwnerOp) (o : Owner) : M DeviceKVPagePool Owner :=
  let r := o_reservation o in
  let l := o_leases o in
  match op with
  | OpMaterialize target predecessor =>
      '(r, l) ← materialize r target l (o_capacity o) predecessor; mret (mkOwner r l (o_capacity o))
  | OpMaterializeOne =>
      '(r, x) ← materialize_one r; mret (mkOwner r (l ++ [x]) (o_capacity o))
  | OpDematerialize target =>
      '(r, l) ← dematerialize r target l; mret (mkOwner r l (o_capacity o))
  | OpDematerializeOne k =>
      match l !! k with
      | None => mret o
      | Some x => r ← dematerialize_one r x; mret (mkOwner r (erase_at k l) (o_capacity o))
      end
  | OpResize n => r ← resize_reservation r n; mret (mkOwner r l (o_capacity o))
  | OpClear => r ← reservation_clear r; mret (mkOwner r l (o_capacity o))
  end.

(** The destructors of an owner: its leases, then its reservation. *)
Definition destroy_owner (o : Owner) : M DeviceKVPagePool unit :=
  _ ← mmodify (fun p => destroy_leases p (o_leases o));
  _ ← reservation_release (o_reservation o);
  mret tt.

(** A step of a session and the exception it ends with, if any. *)
Inductive pool_step : System -> option exn -> System -> Prop :=
  | ps_reserve p os n p' r cap :
      0 <= n <= u32_max -> reserve p n = (p', Some r) ->
      pool_step (mkSystem p os) None (mkSystem p' (os ++ [mkOwner r [] cap]))
  | ps_empty p os cap :
      pool_step (mkSystem p os) None
        (mkSystem p (os ++ [mkOwner (make_empty_reservation p) [] cap]))
  | ps_op p os i o op p' o' :
      os !! i = Some o -> op_range op -> run_op op o p = (p', Ok o') ->
      pool_step (mkSystem p os) None (mkSystem p' (<[i := o']> os))
  | ps_throw p os i o op p' e :
      os !! i = Some o -> op_range op -> run_op op o p = (p', Throw e) ->
      pool_step (mkSystem p os) (Some e) (mkSystem p' os)
  | ps_destroy p os i o p' out :
      os !! i = Some o -> destroy_owner o p = (p', out) ->
      pool_step (mkSystem p os) (match out with Ok _ => None | Throw e => Some e end)
        (mkSystem p' (erase_at i os)).

Inductive pool_session (p : DeviceKVPagePool) : System -> Prop :=
  | pool_session_start : pool_session p (mkSystem p [])
  | pool_session_step s e s' : pool_session p s -> pool_step s e s' -> pool_session p s'.

(** ** The invariant of a session *)

Definition all_leases (os : list Owner) : list DeviceKVPageLease := os ≫= o_leases.

Record system_inv (s : System) : Prop := {
  si_pool : pool_inv (s_pool s);
  si_owner : Forall (fun o => rs_owner (o_reservation o) = Some (pool_self (s_pool s)) /\
                              0 <= rs_pages (o_reservation o)) (s_owners s);
  si_reserved : reserved_pages (s_pool s) = sum_with (fun o => rs_pages (o_reservation o)) (s_owners s);
  si_allocated : allocated_pages (s_pool s) = Z.of_nat (length (all_leases (s_owners s)));
  si_ok : Forall (fun x => lease_ok (s_pool s) x = true) (all_leases (s_owners s));
  si_distinct : NoDup (ls_index <$> all_leases (s_owners s));
}.

Lemma all_leases_app os1 os2 : all_leases (os1 ++ os2) = all_leases os1 ++ all_leases os2.
Proof. unfold all_leases. by rewrite bind_app. Qed.

Lemma all_leases_middle pre o post :
  all_leases (pre ++ o :: post) ≡ₚ o_leases o ++ (all_leases pre ++ all_leases post).
Proof.
  rewrite all_leases_app. unfold all_leases at 2. cbn [mbind list_bind].
  fold (all_leases post). rewrite !app_assoc. f_equiv. apply Permutation_app_comm.
Qed.

Lemma owned_of_system p pre o post :
  system_inv (mkSystem p (pre ++ o :: post)) -> owned p (o_reservation o) (o_leases o).
Proof.
  intros []. cbn -[sum_with] in *. apply Forall_app in si_owner0 as [Hpre [[Ho Hp] Hpost]%Forall_cons].
  rewrite all_leases_middle in si_ok0, si_distinct0. apply Forall_app in si_ok0 as [Hok _].
  rewrite fmap_app in si_distinct0. apply NoDup_app in si_distinct0 as (Hnd & _).
  split; try done. split; [done|]. rewrite si_reserved0, sum_with_app. cbn [sum_with].
  assert (forall os, Forall (fun o => rs_owner (o_reservation o) = Some (pool_self p) /\
            0 <= rs_pages (o_reservation o)) os ->
          0 <= sum_with (fun o => rs_pages (o_reservation o)) os) as Hnn.
  { clear. intros os. induction 1 as [|o os [_ Hp] _ IH]; cbn; lia. }
  pose proof (Hnn _ Hpre). pose proof (Hnn _ Hpost).
  change (rs_pages (o_reservation o) <= sum_with (fun o => rs_pages (o_reservation o)) pre +
    (rs_pages (o_reservation o) + sum_with (fun o => rs_pages (o_reservation o)) post)). lia.
Qed.

(** A [bound_step] of one owner keeps the session's invariant. *)
Lemma system_step p p' pre o post r' l' cap :
  system_inv (mkSystem p (pre ++ o :: post)) ->
  bound_step p p' (o_reservation o) r' (o_leases o) l' ->
  system_inv (mkSystem p' (pre ++ mkOwner r' l' cap :: post)).
Proof.
  intros Hsys Hstep. pose proof (owned_of_system _ _ _ _ Hsys) as Hown.
  destruct Hsys as [Hpool Howner Hres Halloc Hok Hnd]. cbn -[sum_with] in *.
  pose proof (all_leases_middle pre o post) as Hperm.
  pose proof (all_leases_middle pre (mkOwner r' l' cap) post) as Hperm'. cbn [o_leases] in Hperm'.
  set (others := all_leases pre ++ all_leases post) in *.
  rewrite Hperm in Hok, Hnd, Halloc. apply Forall_app in Hok as [Hokl Hoko].
  rewrite fmap_app in Hnd. apply NoDup_app in Hnd as (_ & Hdisj & Hndo).
  assert (forall x, x ∈ others -> at_index (page_allocated p) (ls_index x) = Some true) as Halive.
  { intros x Hx. rewrite Forall_forall in Hoko. by apply (lease_ok_iff p), Hoko. }
  split; cbn -[sum_with].
  - apply (bs_inv _ _ _ _ _ _ Hstep).
  - rewrite (bs_self _ _ _ _ _ _ Hstep). apply Forall_app in Howner as [? [[? ?] ?]%Forall_cons].
    apply Forall_app. split; [done|]. constructor; [|done]. cbn.
    split; [|apply (bs_pages _ _ _ _ _ _ Hstep)]. by rewrite (bs_owner _ _ _ _ _ _ Hstep).
  - pose proof (bs_reserved _ _ _ _ _ _ Hstep). rewrite sum_with_app in *. cbn in *. lia.
  - rewrite Hperm'. pose proof (bs_allocated _ _ _ _ _ _ Hstep). rewrite length_app in *. lia.
  - rewrite Hperm'. apply Forall_app. split; [apply (bs_ok _ _ _ _ _ _ Hstep)|].
    apply Forall_forall. intros x Hx. rewrite Forall_forall in Hoko.
    pose proof (Hoko x Hx) as (Ho & Ha & Hg)%lease_ok_iff; [|done].
    destruct (bs_frame _ _ _ _ _ _ Hstep (ls_index x)) as [Ha' Hg']; [|done|].
    { intros Hl. apply (Hdisj _ Hl). by apply list_elem_of_fmap_2. }
    apply lease_ok_iff; [apply (bs_inv _ _ _ _ _ _ Hstep)|].
    rewrite (bs_self _ _ _ _ _ _ Hstep), Hg'. done.
  - rewrite Hperm', fmap_app. apply NoDup_app. split_and!; [apply (bs_distinct _ _ _ _ _ _ Hstep)| |done].
    intros z Hz Ho. destruct (bs_new _ _ _ _ _ _ Hstep z Hz) as [Hl|Hfree].
    + by apply (Hdisj z).
    + apply list_elem_of_fmap in Ho as (x & -> & Hx). rewrite (Halive x Hx) in Hfree. discriminate.
Qed.

(** ** Every operation *)

Lemma run_op_spec op o p p' out :
  owned p (o_reservation o) (o_leases o) -> op_range op -> run_op op o p = (p', out) ->
  match out with
  | Ok o' => bound_step p p' (o_reservation o) (o_reservation o') (o_leases o) (o_leases o')
  | Throw e => p' = p /\ (e = InvalidArgument \/ e = BadAlloc)
  end.
Proof.
  intros Hown Hr. destruct op as [n pred| |n|k|n|]; cbn [run_op op_range] in *; unfold_M.
  - pose proof (materialize_spec p (o_reservation o) n (o_leases o) (o_capacity o) pred Hown Hr) as H.
    destruct (materialize _ _ _ _ _ _) as [p1 [[r l]|e]]; intros [= <- <-]; cbn; tauto.
  - pose proof (materialize_one_spec p (o_reservation o) (o_leases o) Hown) as H.
    destruct (materialize_one _ _) as [p1 [[r x]|e]]; intros [= <- <-]; cbn; tauto.
  - pose proof (dematerialize_spec p (o_reservation o) n (o_leases o) Hown Hr) as H.
    destruct (dematerialize _ _ _ _) as [p1 [[r l]|e]]; intros [= <- <-]; cbn; tauto.
  - destruct (o_leases o !! k) as [x|] eqn:Hk.
    + pose proof (dematerialize_one_spec p (o_reservation o) (o_leases o) k x Hown Hk) as H.
      destruct (dematerialize_one _ _ _) as [p1 [r|e]]; intros [= <- <-]; [exact H|done].
    + intros [= <- <-]. destruct Hown. split; try done; try lia. by left.
  - pose proof (resize_spec p (o_reservation o) (o_leases o) n Hown Hr) as H.
    destruct (resize_reservation _ _ _) as [p1 [r|e]]; intros [= <- <-]; cbn; tauto.
  - pose proof (clear_spec p (o_reservation o) (o_leases o) Hown) as H.
    destruct (reservation_clear _ _) as [p1 [r|e]]; intros [= <- <-]; cbn; tauto.
Qed.

Lemma destroy_owner_spec o p :
  owned p (o_reservation o) (o_leases o) ->
  exists p', destroy_owner o p = (p', Ok tt) /\
    bound_step p p' (o_reservation o) (mkReservation (rs_owner (o_reservation o)) 0) (o_leases o) [].
Proof.
  intros Hown. unfold destroy_owner, reservation_release, release_reservation. unfold_M.
  pose proof (ow_owner _ _ _ Hown) as Ho. rewrite bool_decide_eq_false_2 by congruence.
  pose proof (destroy_leases_spec (o_leases o) p (ow_inv _ _ _ Hown) (ow_ok _ _ _ Hown)
    (ow_distinct _ _ _ Hown)) as Hd.
  destruct (owned_bounds _ _ _ Hown) as (? & ? & ? & ? & ?).
  rewrite (de_reserved _ _ _ Hd).
  destruct (Z.ltb_spec (reserved_pages p) (rs_pages (o_reservation o))); [lia|].
  rewrite w32_small by lia. eexists. split; [done|].
  pose proof (de_inv _ _ _ Hd) as Hinv1. pose proof (pool_allocated_nonneg _ Hinv1).
  pose proof (de_allocated _ _ _ Hd). pose proof (de_capacity _ _ _ Hd).
  split; cbn [rs_pages rs_owner set_counts reserved_pages allocated_pages length fmap list_fmap];
    try done; try lia.
  - apply set_counts_inv; [done|lia|lia].
  - apply (de_self _ _ _ Hd).
  - constructor.
  - intros x Hx. by apply not_elem_of_nil in Hx.
  - intros x Hx Ha. cbn. destruct (de_frame _ _ _ Hd x Hx) as [-> ->]. done.
Qed.

(** Removing an owner without leases and without pages. *)
Lemma system_erase p pre o post :
  system_inv (mkSystem p (pre ++ o :: post)) -> o_leases o = [] -> rs_pages (o_reservation o) = 0 ->
  system_inv (mkSystem p (pre ++ post)).
Proof.
  intros [] Hl Hp. cbn [s_pool s_owners] in *.
  assert (all_leases (pre ++ o :: post) = all_leases (pre ++ post)) as E.
  { rewrite !all_leases_app. f_equal. unfold all_leases. cbn [mbind list_bind]. by rewrite Hl. }
  rewrite E in si_allocated0, si_ok0, si_distinct0. split; cbn [s_pool s_owners]; try done.
  - apply Forall_app in si_owner0 as [? [_ ?]%Forall_cons]. by apply Forall_app.
  - rewrite si_reserved0, !sum_with_app. cbn. lia.
Qed.

Lemma system_push p p' os r cap :
  system_inv (mkSystem p os) -> pool_inv p' -> rs_owner r = Some (pool_self p) -> 0 <= rs_pages r ->
  p' = set_counts (allocated_pages p) (reserved_pages p + rs_pages r) p ->
  system_inv (mkSystem p' (os ++ [mkOwner r [] cap])).
Proof.
  intros [] Hinv Ho Hp ->. cbn [s_pool s_owners] in *.
  assert (all_leases (os ++ [mkOwner r [] cap]) = all_leases os) as E.
  { rewrite all_leases_app. unfold all_leases at 2. cbn. by rewrite app_nil_r. }
  split; cbn [s_pool s_owners]; rewrite ?E; try done.
  - apply Forall_app. split; [done|]. by repeat constructor.
  - rewrite sum_with_app, si_reserved0. cbn. lia.
Qed.

Lemma pool_step_inv s e s' :
  system_inv s -> pool_step s e s' ->
  system_inv s' /\ (e = None \/ e = Some InvalidArgument \/ e = Some BadAlloc).
Proof.
  intros Hsys Hstep. destruct Hstep as [p os n p' r cap Hn Hr|p os cap|p os i o op p' o' Hi Hop Hrun
    |p os i o op p' e Hi Hop Hrun|p os i o p' out Hi Hdes].
  - split; [|by left]. pose proof (si_pool _ Hsys) as Hinv. cbn in Hinv.
    rewrite reserve_spec in Hr by done. case_decide; [|discriminate]. injection Hr as <- <-.
    apply (system_push p); try done; [|cbn; lia].
    apply set_counts_inv; [done| |]; pose proof (pi_reserved _ Hinv); lia.
  - split; [|by left]. pose proof (si_pool _ Hsys) as Hinv. cbn in Hinv.
    apply (system_push p); try done. cbn. rewrite Z.add_0_r. by destruct p.
  - split; [|by left]. apply list_elem_of_split_length in Hi as (pre & post & -> & ->).
    rewrite (update_middle pre) by done.
    pose proof (run_op_spec _ _ _ _ _ (owned_of_system _ _ _ _ Hsys) Hop Hrun) as H. cbn in H.
    destruct o' as [r' l' cap']. by eapply system_step.
  - apply list_elem_of_split_length in Hi as (pre & post & -> & ->).
    pose proof (run_op_spec _ _ _ _ _ (owned_of_system _ _ _ _ Hsys) Hop Hrun) as [-> [-> | ->]]; auto.
  - apply list_elem_of_split_length in Hi as (pre & post & -> & ->).
    destruct (destroy_owner_spec _ _ (owned_of_system _ _ _ _ Hsys)) as (p1 & Hd & Hb).
    rewrite Hd in Hdes. injection Hdes as <- <-. split; [|by left].
    rewrite (erase_middle pre) by done.
    apply (system_erase _ _ (mkOwner (mkReservation (rs_owner (o_reservation o)) 0) [] 0)); [|done..].
    exact (system_step p p1 pre o post _ _ 0 Hsys Hb).
Qed.

(** A freshly constructed pool satisfies the invariant. *)
Lemma free_at_replicate n x :
  free_at (replicate n false) x = if decide (0 <= x < Z.of_nat n) then 1 else 0.
Proof.
  unfold free_at. case_decide as Hx.
  - destruct (at_index_is_Some (replicate n false) x) as [b Hb]; [by rewrite length_replicate|].
    rewrite Hb. apply at_index_Some in Hb as [_ Hb]. apply lookup_replicate in Hb as [-> _]. done.
  - destruct (at_index (replicate n false) x) as [b|] eqn:Hb; [|done].
    apply at_index_lt in Hb. rewrite length_replicate in Hb. lia.
Qed.

Lemma make_pool_inv this backing l p :
  0 <= page_group_count (pl_spec l) -> make_pool this backing l = Ok p ->
  pool_inv p /\ pool_self p = this /\ allocated_pages p = 0 /\ reserved_pages p = 0.
Proof.
  intros Hn. unfold make_pool. intros (_ & _ & H)%bind_Ok. apply bind_Ok in H as (_ & _ & H).
  apply bind_Ok in H as (n & Hc & H). apply bind_Ok in H as (ts & _ & H). injection H as <-.
  unfold checked_i32 in Hc. destruct (Z.eqb_spec (page_group_count (pl_spec l)) 0); [discriminate|].
  destruct (Z.ltb_spec i32_max (page_group_count (pl_spec l))); [discriminate|].
  split; [|done]. split; cbn -[cov total]; unfold capacity_pages; cbn [pool_spec];
    rewrite ?length_replicate, ?Z2Nat.id by lia; try done; try lia.
  - cbn. extent_lia.
  - intros x. rewrite free_at_replicate, Z2Nat.id by lia. rewrite cov_cons. change (cov [] x) with 0.
    unfold ind, ex_end. cbn. repeat case_decide; lia.
  - rewrite sum_with_replicate. cbn. lia.
  - intros x g [_ Hx]%at_index_Some. apply lookup_replicate in Hx as [-> _]. lia.
  - apply Forall_replicate. lia.
Qed.

(** C1: No sequence of reservations, resizes, materializations, dematerializations and destructions
    makes the pool over-commit, lose or share a page.  In every session the allocated counter is the
    number of live leases, all of them valid and naming pairwise different pages; the reserved
    counter is what the reservations still hold; the two fit the capacity; the free runs are exactly
    the unallocated pages, sorted and coalesced, within the reserved vector.  The only exceptions a
    step can end with are the argument errors and [bad_alloc]: never the internal logic error nor
    [std::terminate]. *)
Theorem pool_session_sound this backing l p s :
  0 <= page_group_count (pl_spec l) -> make_pool this backing l = Ok p -> pool_session p s ->
  let q := s_pool s in
  allocated_pages q = Z.of_nat (length (all_leases (s_owners s))) /\
  Forall (fun x => lease_ok q x = true) (all_leases (s_owners s)) /\
  NoDup (ls_index <$> all_leases (s_owners s)) /\
  reserved_pages q = sum_with (fun o => rs_pages (o_reservation o)) (s_owners s) /\
  allocated_pages q + reserved_pages q <= capacity_pages q /\
  extents_wf 0 (capacity_pages q) (free_page_runs q) /\
  (forall x, cov (free_page_runs q) x = free_at (page_allocated q) x) /\
  Z.of_nat (length (free_page_runs q)) <= capacity_pages q /\
  (forall e s', pool_step s e s' -> e = None \/ e = Some InvalidArgument \/ e = Some BadAlloc).
Proof.
  intros Hn Hmake Hs. destruct (make_pool_inv _ _ _ _ Hn Hmake) as (Hinv & _ & Ha & Hr).
  assert (system_inv s) as Hsys.
  { induction Hs as [|s1 e s2 _ IH Hstep]; [|by apply (pool_step_inv s1 e s2)].
    split; cbn; try done; constructor. }
  pose proof (si_pool _ Hsys) as Hq. cbv zeta.
  split_and!; try (by apply Hsys); try (by apply Hq).
  - pose proof (pi_total _ Hq) as Ht. pose proof (pool_allocated_nonneg _ Hq).
    pose proof (sum_with_lower ex_len (free_page_runs (s_pool s)) 1) as Hl.
    assert (forall i e, free_page_runs (s_pool s) !! i = Some e -> 1 <= ex_len e) as Hpos.
    { intros i e Hi. destruct (extents_wf_lookup _ _ _ _ _ (pi_runs _ Hq) Hi) as (_ & ? & _). lia. }
    specialize (Hl Hpos). change (sum_with ex_len (free_page_runs (s_pool s)))
      with (total (free_page_runs (s_pool s))) in Hl. lia.
  - intros e s' Hstep. by apply (pool_step_inv s e s').
Qed.

(** A pool of eight pages with one plane, bound at address 4096. *)
Definition demo_pool_geometry : KVPageGeometry :=
  mkGeometry 64 PageMajor [mkPlane U8 1 1 256].
Definition demo_pool_layout : DeviceKVPagePoolLayout :=
  match plan_device_kv_page_pool (mkPoolSpec 8 demo_pool_geometry) Layout.builder_init with
  | (_, Ok l) => l
  | _ => mkPoolLayout (mkPoolSpec 0 demo_pool_geometry) []
  end.
Definition demo_pool : DeviceKVPagePool :=
  match make_pool 7 (Layout.mkSpan (Some 4096) 512) demo_pool_layout with
  | Ok p => p
  | Throw _ => mkPool 0 (mkPoolSpec 0 demo_pool_geometry) [] [] [] [] [] 0 0 0
  end.

Lemma demo_pool_made : make_pool 7 (Layout.mkSpan (Some 4096) 512) demo_pool_layout = Ok demo_pool.
Proof. reflexivity. Qed.

Lemma demo_pool_inv : pool_inv demo_pool.
Proof.
  apply (make_pool_inv 7 (Layout.mkSpan (Some 4096) 512) demo_pool_layout); [vm_compute; discriminate|].
  apply demo_pool_made.
Qed.

(** Two owners interleave: the first one's second batch cannot be contiguous. *)
Lemma pool_session_sound_witness :
  exists s, pool_session demo_pool s /\
    (ls_index <$> all_leases (s_owners s)) = [0; 1; 3; 4; 2] /\
    allocated_pages (s_pool s) = Z.of_nat (length (all_leases (s_owners s))).
Proof.
  pose proof (pool_session_start demo_pool) as H0.
  eassert (pool_session demo_pool _) as H1.
  { eapply pool_session_step; [exact H0|]. eapply (ps_reserve _ _ 4 _ _ 4); [lia|vm_compute; reflexivity]. }
  eassert (pool_session demo_pool _) as H2.
  { eapply pool_session_step; [exact H1|]. eapply (ps_reserve _ _ 3 _ _ 3); [lia|vm_compute; reflexivity]. }
  eassert (pool_session demo_pool _) as H3.
  { eapply pool_session_step; [exact H2|]. eapply (ps_op _ _ 0 _ (OpMaterialize 2 None)); [reflexivity|cbn; lia|vm_compute; reflexivity]. }
  eassert (pool_session demo_pool _) as H4.
  { eapply pool_session_step; [exact H3|]. eapply (ps_op _ _ 1 _ (OpMaterialize 1 None)); [reflexivity|cbn; lia|vm_compute; reflexivity]. }
  eassert (pool_session demo_pool _) as Hs.
  { eapply pool_session_step; [exact H4|]. eapply (ps_op _ _ 0 _ (OpMaterialize 4 None)); [reflexivity|cbn; lia|vm_compute; reflexivity]. }
  eexists. split; [exact Hs|]. split; [reflexivity|].
  apply (pool_session_sound 7 (Layout.mkSpan (Some 4096) 512) demo_pool_layout demo_pool _);
    [vm_compute; discriminate|reflexivity|exact Hs].
Defined.

(** ** Placement *)

(** All of the pages [b, b + n) are free. *)
Definition pages_free (p : DeviceKVPagePool) (b n : Z) : Prop :=
  forall x, b <= x < b + n -> at_index (page_allocated p) x = Some false.

Lemma pages_free_cov p b n x :
  pool_inv p -> pages_free p b n -> b <= x < b + n -> cov (free_page_runs p) x = 1.
Proof.
  intros Hinv Hf Hx. rewrite (pi_cov _ Hinv). unfold free_at. by rewrite (Hf x Hx).
Qed.

Lemma cov_positive l x : 0 < cov l x -> exists i e, l !! i = Some e /\ ex_begin e <= x < ex_end e.
Proof.
  intros (i & e & Hi & He)%sum_with_positive. exists i, e. split; [done|]. cbv beta in He. ind_cases.
Qed.

(** The run the binary search finds is the one that contains the preferred page. *)
Lemma select_preferred_free p q n :
  pool_inv p -> 0 <= q -> 0 < n <= u32_max -> pages_free p q n ->
  exists i, select_preferred (free_page_runs p) q n = Some (i, q).
Proof.
  intros Hinv Hq Hn Hf. pose proof (pi_capacity _ Hinv).
  pose proof (pi_runs _ Hinv) as Hwf. pose proof (pi_alloc _ Hinv).
  assert (q + n <= capacity_pages p) as Hqn.
  { pose proof (Hf (q + n - 1) ltac:(lia)) as Hl%at_index_lt. lia. }
  destruct (cov_positive (free_page_runs p) q) as (i & run & Hi & Hrun).
  { rewrite (pages_free_cov p q n q) by (done || lia). lia. }
  destruct (extents_wf_lookup _ _ _ _ _ Hwf Hi) as (? & ? & ?).
  assert (q + n <= ex_end run) as Hend.
  { apply Z.nlt_ge. intros Hlt. pose proof (cov_gap_right _ _ _ _ _ Hwf Hi) as Hgap.
    rewrite (pages_free_cov p q n (ex_end run)) in Hgap by (done || lia). lia. }
  unfold select_preferred. destruct (Z.ltb_spec q 0); [lia|].
  destruct (partition_point_split (fun r => negb (q <? ex_begin r)) (free_page_runs p))
    as (pre & post & Hsplit & Hlen & Hpre & Hpost).
  rewrite <- Hlen.
  assert (exists pre', pre = pre' ++ [run]) as [pre' ->].
  { rewrite Hsplit in Hi, Hwf. apply lookup_app_Some in Hi as [Hi|[Hge Hi]].
    - apply list_elem_of_split_length in Hi as (l1 & l2 & -> & ->). exists l1.
      destruct l2 as [|r l2]; [done|]. exfalso.
      rewrite !Forall_app, !Forall_cons in Hpre. destruct Hpre as (_ & _ & Hr & _).
      apply negb_true_iff, Z.ltb_ge in Hr. rewrite <- app_assoc in Hwf.
      apply extents_wf_app in Hwf as [_ Hwf]. cbn in Hwf. extent_lia.
    - exfalso. destruct post as [|r post]; [by rewrite lookup_nil in Hi|].
      pose proof (Hpost r post eq_refl) as Hr. apply negb_false_iff, Z.ltb_lt in Hr.
      apply extents_wf_app in Hwf as [_ Hwf].
      destruct (i - length pre)%nat as [|k] eqn:Hk; cbn in Hi; [injection Hi as ->; lia|].
      destruct Hwf as (_ & ? & _ & Hwf). destruct (extents_wf_lookup _ _ _ _ _ Hwf Hi). extent_lia. }
  rewrite length_app. cbn [length]. rewrite Nat.add_1_r.
  rewrite Hsplit, <- app_assoc. cbn [app]. rewrite (lookup_middle pre') by done.
  rewrite !w64_small by extent_lia.
  destruct (Z.leb_spec (ex_begin run) q); [|lia].
  destruct (Z.leb_spec (q + n) (ex_begin run + ex_len run)); [|extent_lia].
  by exists (length pre').
Qed.

Lemma seqZ_sorted b n : StronglySorted Z.lt (seqZ b (Z.of_nat n)).
Proof.
  revert b. induction n as [|n IH]; intros b; [constructor|].
  rewrite seqZ_cons by lia. constructor.
  - replace (Z.pred (Z.of_nat (S n))) with (Z.of_nat n) by lia. apply IH.
  - apply List.Forall_forall. intros x Hx%list_elem_of_In%elem_of_seqZ. lia.
Qed.

Lemma pages_of_sorted lo hi t : extents_wf lo hi t -> StronglySorted Z.lt (pages_of t).
Proof.
  revert lo. induction t as [|e t IH]; intros lo Hwf; [constructor|].
  destruct Hwf as (Hb & Hn & He & Hwf). unfold pages_of in *. cbn [mbind list_bind].
  apply StronglySorted_app_2; [| |by eapply IH].
  - intros x y Hx%elem_of_seqZ Hy. apply (pages_of_elem _ _ _ _ Hwf) in Hy.
    destruct (decide (y < ex_end e + 1)) as [Hlt|Hge]; [|extent_lia].
    rewrite (cov_below _ _ _ _ Hwf Hlt) in Hy. lia.
  - rewrite <- (Z2Nat.id (ex_len e)) by lia. apply seqZ_sorted.
Qed.

(** C19: [materialize] succeeds exactly when its arguments are admissible - the target extends the
    destination within its capacity and within the reservation, and the predecessor is live - and
    then appends leases of free pages in increasing order, one per requested page.  When the pages
    right after the preferred page are free those are the ones it takes; otherwise, when some free
    run is long enough, the new pages are contiguous at the start of the first such run. *)
Theorem materialize_placement p r target l cap pred :
  owned p r l -> 0 <= target <= u32_max ->
  match materialize r target l cap pred p with
  | (p', Ok (r', l')) =>
      let n := target - Z.of_nat (length l) in
      materialize_pre p r target l cap pred /\ bound_step p p' r r' l l' /\
      exists pages, l' = l ++ (lease_of p <$> pages) /\ Z.of_nat (length pages) = n /\
        StronglySorted Z.lt pages /\
        (forall x, x ∈ pages -> at_index (page_allocated p) x = Some false) /\
        (forall q, preferred_page l pred = Some q -> 0 <= q -> 0 < n -> pages_free p q n ->
           pages = seqZ q n) /\
        ((forall q, preferred_page l pred = Some q -> 0 <= q -> ~ pages_free p q n) ->
         0 < n -> Exists (fun run => n <= ex_len run) (free_page_runs p) ->
         exists pre run post, free_page_runs p = pre ++ run :: post /\
           Forall (fun f => ex_len f < n) pre /\ pages = seqZ (ex_begin run) n)
  | (p', Throw e) => p' = p /\ e = InvalidArgument /\ ~ materialize_pre p r target l cap pred
  end.
Proof.
  intros Hown Htarget. pose proof (materialize_spec p r target l cap pred Hown Htarget) as H.
  destruct (materialize _ _ _ _ _ _) as [p' [[r' l']|e]]; [|exact H].
  destruct H as (Hpre & Hstep & _ & Hlen & t & Hplaced). cbv zeta.
  pose proof (ow_inv _ _ _ Hown) as Hinv. destruct Hplaced as [pt_wf0 pt_total0 pt_leases0 pt_cov0 pt_run0]. rewrite Hlen in pt_total0.
  split; [done|]. split; [done|]. exists (pages_of t).
  assert (forall x, x ∈ pages_of t -> at_index (page_allocated p) x = Some false) as Hfree.
  { intros x Hx%(pages_of_elem _ _ _ _ pt_wf0). apply (free_at_cov p); [done|].
    pose proof (pt_cov0 x). pose proof (cov_nonneg (free_page_runs p') x).
    pose proof (cov_le_1 _ _ _ x (pi_runs _ Hinv)). lia. }
  assert (forall b, pages_of [mkExtent b (total t)] = seqZ b (total t)) as Hone.
  { intros b. unfold pages_of. cbn [mbind list_bind ex_begin ex_len]. apply app_nil_r. }
  assert (target - Z.of_nat (length l) <= u32_max) as Hmax by lia.
  split_and!.
  - done.
  - rewrite (pages_of_length _ _ _ pt_wf0). lia.
  - by eapply pages_of_sorted.
  - done.
  - intros q Hq Hq0 Hn Hf. rewrite <- pt_total0 in Hn, Hf, Hmax |- *.
    destruct (select_preferred_free p q (total t) Hinv Hq0 ltac:(lia) Hf) as [i Hsel].
    rewrite <- Hone. f_equal. apply (pt_run0 i q); [done|]. unfold select_run. by rewrite Hq, Hsel.
  - intros Hnf Hn Hex. rewrite <- pt_total0 in Hnf, Hn, Hex, Hmax |- *.
    assert (match preferred_page l pred with
            | Some q => select_preferred (free_page_runs p) q (total t) | None => None end = None) as Hnone.
    { destruct (preferred_page l pred) as [q|] eqn:Hq; [|done].
      destruct (select_preferred (free_page_runs p) q (total t)) as [[i b]|] eqn:Hsel; [|done]. exfalso.
      assert (0 <= q) as Hq0.
      { unfold select_preferred in Hsel. destruct (Z.ltb_spec q 0); [discriminate|done]. }
      apply (Hnf q eq_refl Hq0). intros x Hx. apply (free_at_cov p); [done|].
      pose proof (pi_capacity _ Hinv).
      assert (q <= i32_max) as Hqm.
      { destruct pred as [h|]; cbn in Hq.
        - injection Hq as <-. destruct Hpre as (_ & _ & Hv). specialize (Hv ltac:(lia)).
          apply valid_page_iff in Hv as (_ & Ha%at_index_lt & _); [|done]. pose proof (pi_alloc _ Hinv). lia.
        - apply fmap_Some in Hq as (y & Hy & ->). pose proof (ow_ok _ _ _ Hown) as Hok.
          rewrite Forall_forall in Hok. apply last_Some_elem_of, Hok, (lease_ok_iff p) in Hy
            as (_ & Ha%at_index_lt & _); [|done]. pose proof (pi_alloc _ Hinv). lia. }
      destruct (select_preferred_Some (capacity_pages p) (free_page_runs p) q (total t) i b (proj2 (pi_capacity _ Hinv)) (pi_runs _ Hinv)
        ltac:(lia) Hqm Hsel) as (-> & run & Hi & Hb & He).
      apply (cov_lookup_1 _ _ _ _ _ _ (pi_runs _ Hinv) Hi). ind_cases. }
    apply Exists_exists in Hex as (run & [j Hj]%list_elem_of_lookup & Hfit).
    destruct (find_index (fun run => total t <=? ex_len run) (free_page_runs p)) as [i|] eqn:Hfind.
    2: { apply find_index_None in Hfind. pose proof (proj1 (Forall_lookup _ _) Hfind _ _ Hj) as Hc.
         cbv beta in Hc. apply Z.leb_gt in Hc. lia. }
    pose proof Hfind as (pre & run' & post & Hsplit & Hi & Hfit' & Hbefore)%find_index_Some.
    exists pre, run', post. split; [done|]. split.
    + eapply Forall_impl; [exact Hbefore|]. intros f Hc. by apply Z.leb_gt.
    + rewrite <- Hone. f_equal. apply (pt_run0 i (ex_begin run')); [done|].
      unfold select_run. rewrite Hnone. unfold select_contiguous. rewrite Hfind.
      by rewrite Hsplit, (lookup_middle pre).
Qed.

Lemma demo_owned :
  let p := set_counts 0 4 demo_pool in
  owned p (mkReservation (Some 7) 4) [].
Proof.
  intros p. split; [|reflexivity|cbn; lia|constructor|constructor].
  apply (set_counts_inv demo_pool 4); [apply demo_pool_inv|lia|vm_compute; discriminate].
Qed.

Lemma materialize_placement_witness :
  let p := set_counts 0 4 demo_pool in
  match materialize (mkReservation (Some 7) 4) 3 [] 4 None p with
  | (_, Ok (_, l')) => ls_index <$> l' = [0; 1; 2]
  | _ => False
  end.
Proof.
  intros p.
  pose proof (materialize_placement p (mkReservation (Some 7) 4) 3 [] 4 None demo_owned ltac:(lia)) as H.
  destruct (materialize (mkReservation (Some 7) 4) 3 [] 4 None p) as [p' [[r' l']|e]] eqn:E.
  - destruct H as (_ & _ & pages & -> & _ & _ & _ & _ & Hc).
    destruct Hc as (pre & run & post & Hruns & Hpre & ->).
    + intros q. cbn. discriminate.
    + cbn. lia.
    + vm_compute. constructor. discriminate.
    + assert (free_page_runs p = [mkExtent 0 8]) as Hp by (vm_compute; reflexivity).
      rewrite Hp in Hruns. destruct pre as [|f pre]; injection Hruns as <- Hrest.
      * reflexivity.
      * destruct pre; discriminate.
  - exfalso. vm_compute in E. discriminate.
Defined.

(** ** Round trip *)

Lemma owned_bound_step p p' r r' l l' :
  owned p r l -> bound_step p p' r r' l l' -> owned p' r' l'.
Proof.
  intros [] []. split; try done; [congruence|lia].
Qed.

(** [dematerialize] undoes [materialize]: growing a destination and shrinking it back to its old
    length gives back the same destination and reservation, the same counters and - because the
    free runs are canonical - exactly the same free run vector. *)
Theorem materialize_dematerialize p r target l cap pred p1 r1 l1 :
  owned p r l -> 0 <= target <= u32_max ->
  materialize r target l cap pred p = (p1, Ok (r1, l1)) ->
  exists p2, dematerialize r1 (Z.of_nat (length l)) l1 p1 = (p2, Ok (r, l)) /\
    free_page_runs p2 = free_page_runs p /\ allocated_pages p2 = allocated_pages p /\
    reserved_pages p2 = reserved_pages p.
Proof.
  intros Hown Htarget Hmat.
  pose proof (materialize_spec p r target l cap pred Hown Htarget) as H1. rewrite Hmat in H1.
  destruct H1 as (Hpre & Hstep & Hr1 & Hlen & t & [Hwt Ht Hl1 Hcov1 _]).
  pose proof (owned_bound_step _ _ _ _ _ _ Hown Hstep) as Hown1.
  assert (0 <= Z.of_nat (length l) <= u32_max) as Hlr by (destruct Hpre; lia).
  pose proof (dematerialize_spec p1 r1 (Z.of_nat (length l)) l1 Hown1 Hlr) as H2.
  destruct (dematerialize _ _ _ _) as [p2 [[r2 l2]|e]].
  2: { destruct H2 as (_ & _ & H2). destruct Hpre. lia. }
  destruct H2 as (_ & Hstep2 & Hr2 & Hl2 & Hcov2). rewrite Nat2Z.id in *.
  assert (l2 = l) as ->. { rewrite Hl2, Hl1. apply take_app_length. }
  assert (r2 = r) as ->.
  { pose proof (bs_owner _ _ _ _ _ _ Hstep). pose proof (bs_owner _ _ _ _ _ _ Hstep2).
    destruct r, r2; cbn in *. f_equal; [congruence|lia]. }
  exists p2. split; [done|].
  pose proof (bs_inv _ _ _ _ _ _ Hstep2) as Hinv2. pose proof (ow_inv _ _ _ Hown) as Hinv.
  pose proof (bs_allocated _ _ _ _ _ _ Hstep). pose proof (bs_allocated _ _ _ _ _ _ Hstep2).
  pose proof (bs_reserved _ _ _ _ _ _ Hstep). pose proof (bs_reserved _ _ _ _ _ _ Hstep2).
  split_and!; [|lia|lia].
  assert (forall x, cov (free_page_runs p2) x = cov (free_page_runs p) x) as Hcov.
  { intros x. rewrite Hcov2, Hcov1, Hl1, drop_app_length.
    rewrite <- list_fmap_compose, (list_fmap_ext _ id), list_fmap_id by done.
    pose proof (cov_nonneg t x). pose proof (cov_le_1 _ _ _ x Hwt).
    pose proof (Hcov1 x). pose proof (cov_nonneg (free_page_runs p1) x).
    pose proof (cov_le_1 _ _ _ x (pi_runs _ Hinv)).
    case_decide as Hx; rewrite (pages_of_elem _ _ _ _ Hwt) in Hx; lia. }
  pose proof (Z.le_max_l (capacity_pages p2) (capacity_pages p)).
  pose proof (Z.le_max_r (capacity_pages p2) (capacity_pages p)).
  apply (extents_canonical 0 (Z.max (capacity_pages p2) (capacity_pages p))); [..|exact Hcov].
  - eapply extents_wf_raise; [|apply (pi_runs _ Hinv2)]. lia.
  - eapply extents_wf_raise; [|apply (pi_runs _ Hinv)]. lia.
Qed.

Lemma materialize_dematerialize_witness :
  let p := set_counts 0 4 demo_pool in
  exists p1 r1 l1 p2,
    materialize (mkReservation (Some 7) 4) 3 [] 4 None p = (p1, Ok (r1, l1)) /\
    dematerialize r1 0 l1 p1 = (p2, Ok (mkReservation (Some 7) 4, [])) /\
    free_page_runs p2 = free_page_runs p.
Proof.
  intros p.
  destruct (materialize (mkReservation (Some 7) 4) 3 [] 4 None p) as [p1 [[r1 l1]|e]] eqn:E;
    [|exfalso; vm_compute in E; discriminate].
  destruct (materialize_dematerialize p (mkReservation (Some 7) 4) 3 [] 4 None p1 r1 l1 demo_owned
    ltac:(lia) E) as (p2 & Hd & Hruns & _).
  exists p1, r1, l1, p2. split; [reflexivity|]. split; [exact Hd|exact Hruns].
Defined.

(** ** Bundles *)

Lemma pool_at_Some s addr i p : pool_at s addr = Some (i, p) -> s !! i = Some p /\ pool_self p = addr.
Proof.
  unfold pool_at. destruct (find_index _ s) as [j|] eqn:Hj; [|discriminate].
  apply find_index_Some in Hj as (pre & q & post & -> & Hlen & Hq & _).
  rewrite (lookup_middle pre) by done. intros [= <- <-]. rewrite (lookup_middle pre) by done.
  by apply Z.eqb_eq in Hq.
Qed.

Lemma pool_at_insert s addr i p p' :
  s !! i = Some p -> pool_self p' = pool_self p -> pool_self p <> addr ->
  pool_at (<[i:=p']> s) addr = pool_at s addr.
Proof.
  intros Hi Hself Hne. apply list_elem_of_split_length in Hi as (pre & post & -> & ->).
  rewrite (update_middle pre) by done. unfold pool_at.
  assert (find_index (fun q => pool_self q =? addr) (pre ++ p' :: post) =
          find_index (fun q => pool_self q =? addr) (pre ++ p :: post)) as ->.
  { clear -Hself. induction pre as [|q pre IH]; cbn; [by rewrite Hself|]. by rewrite IH. }
  destruct (find_index _ (pre ++ p :: post)) as [j|] eqn:Hj; [|done].
  apply find_index_Some in Hj as (pre2 & q & post2 & Heq & Hlen & Hq & _).
  destruct (decide (j = length pre)) as [->|Hjne].
  - exfalso. apply app_inj_1 in Heq as [_ [= <- _]]; [|done]. apply Z.eqb_eq in Hq. congruence.
  - rewrite !lookup_app. destruct (pre !! j) eqn:Hpj; [done|]. apply lookup_ge_None in Hpj.
    destruct (j - length pre)%nat as [|k] eqn:Hk; [lia|done].
Qed.

(** What a bundle asks of one pool. *)
Definition requested (requests : list PageRequest) (p : DeviceKVPagePool) : Z :=
  sum_with (fun r => if decide (pr_pool r = Some (pool_self p)) then pr_pages r else 0) requests.

Definition grant (requests : list PageRequest) (p : DeviceKVPagePool) : DeviceKVPagePool :=
  set_counts (allocated_pages p) (reserved_pages p + requested requests p) p.

Definition request_ok (s : list DeviceKVPagePool) (r : PageRequest) : Prop :=
  exists addr i p, pr_pool r = Some addr /\ pool_at s addr = Some (i, p) /\
    0 < pr_pages r <= capacity_pages p - allocated_pages p - reserved_pages p.

Definition reservation_for (r : PageRequest) : DeviceKVPageReservation :=
  mkReservation (pr_pool r) (pr_pages r).

Lemma set_counts_self p : set_counts (allocated_pages p) (reserved_pages p) p = p.
Proof. by destruct p. Qed.

Lemma requested_none requests p :
  Some (pool_self p) ∉ pr_pool <$> requests -> requested requests p = 0.
Proof.
  intros Hn. apply sum_with_zero. intros i r Hi. rewrite decide_False; [done|].
  intros E. apply Hn. rewrite <- E. apply list_elem_of_fmap_2. by eapply list_elem_of_lookup_2.
Qed.

Lemma reserve_each_spec requests : forall s,
  Forall pool_inv s -> NoDup (pool_self <$> s) -> NoDup (pr_pool <$> requests) ->
  Forall (fun r => 0 <= pr_pages r <= u32_max) requests -> Forall (request_ok s) requests ->
  reserve_each requests s = (grant requests <$> s, Ok (reservation_for <$> requests)) /\
  Forall pool_inv (grant requests <$> s).
Proof.
  induction requests as [|r requests IH]; intros s Hinv Hs Hnd Hrange Hok; cbn [reserve_each].
  { assert (grant [] <$> s = s) as ->; [|done]. rewrite <- (list_fmap_id s) at 2.
    apply list_fmap_ext. intros i p _. unfold grant, requested. cbn. rewrite Z.add_0_r.
    apply set_counts_self. }
  rewrite fmap_cons in Hnd. apply NoDup_cons in Hnd as [Hnr Hnd].
  apply Forall_cons in Hrange as [Hr Hrange].
  apply Forall_cons in Hok as [(addr & i & p & Haddr & Hat & Havail) Hok].
  unfold_M. rewrite Haddr. cbn [option_bind]. rewrite Hat.
  apply pool_at_Some in Hat as [Hi Hself].
  pose proof (proj1 (Forall_lookup _ _) Hinv _ _ Hi) as Hp. cbv beta in Hp.
  rewrite reserve_spec, decide_True by done.
  set (p' := set_counts (allocated_pages p) (reserved_pages p + pr_pages r) p).
  assert (pool_inv p') as Hp'.
  { apply set_counts_inv; [done| |lia]. pose proof (pi_reserved _ Hp). lia. }
  assert (pool_self <$> <[i:=p']> s = pool_self <$> s) as Hselfs.
  { rewrite list_fmap_insert. apply list_insert_id. rewrite list_lookup_fmap, Hi. done. }
  destruct (IH (<[i:=p']> s)) as [Heq Hinv']; [by apply Forall_insert|by rewrite Hselfs|done|done| |].
  { apply Forall_forall. intros r' Hr'. rewrite Forall_forall in Hok.
    destruct (Hok r' Hr') as (addr' & i' & q & Ha' & Hat' & Hav'). exists addr', i', q.
    split_and!; try done; try lia. rewrite (pool_at_insert s addr' i p p'); [done..|].
    intros E. apply Hnr. rewrite Haddr, <- Hself, E, <- Ha'. by apply list_elem_of_fmap_2. }
  rewrite Heq.
  assert (grant requests <$> <[i:=p']> s = grant (r :: requests) <$> s) as Hgrant.
  { apply list_eq. intros j. rewrite !list_lookup_fmap.
    destruct (decide (j = i)) as [->|Hne].
    - rewrite list_lookup_insert_eq by (by eapply lookup_lt_Some). rewrite Hi. cbn.
      f_equal. unfold grant.
      assert (requested (r :: requests) p = pr_pages r + requested requests p) as ->.
      { unfold requested. cbn [sum_with]. rewrite (decide_True (P := pr_pool r = _)) by congruence. done. }
      replace (reserved_pages p + (pr_pages r + requested requests p))
        with (reserved_pages p + pr_pages r + requested requests p) by lia. reflexivity.
    - rewrite list_lookup_insert_ne by done. destruct (s !! j) as [q|] eqn:Hj; [|done]. cbn. f_equal.
      unfold grant, requested. cbn [sum_with]. rewrite (decide_False (P := pr_pool r = _)); [done|].
      intros E. apply Hne. rewrite Haddr, <- Hself in E. injection E as E.
      apply (NoDup_lookup (pool_self <$> s) j i (pool_self q) Hs); rewrite list_lookup_fmap.
      + by rewrite Hj.
      + rewrite Hi. cbn. congruence. }
  rewrite Hgrant in *. split; [|done]. cbn. do 3 f_equal. unfold reservation_for. by rewrite Haddr, Hself.
Qed.

Lemma validate_bundle_spec s previous rest :
  Forall pool_inv s -> Forall (fun r => 0 <= pr_pages r <= u32_max) rest ->
  match validate_bundle s previous rest with
  | Ok _ => Forall (request_ok s) rest /\ NoDup (pr_pool <$> rest) /\
            (forall a, a ∈ pr_pool <$> rest -> a ∉ pr_pool <$> previous)
  | Throw e => e = InvalidArgument \/
      (e = BadAlloc /\ exists r addr i p, r ∈ rest /\ pr_pool r = Some addr /\
         pool_at s addr = Some (i, p) /\ available_pages p < pr_pages r)
  end.
Proof.
  intros Hinv Hr. revert previous. induction Hr as [|r rest Hr _ IH]; intros previous; cbn.
  { split_and!; [constructor|constructor|]. intros a Ha. by apply not_elem_of_nil in Ha. }
  destruct (pr_pool r) as [addr|] eqn:Haddr; cbn; [|by left].
  destruct (pool_at s addr) as [[i p]|] eqn:Hat; [|by left].
  destruct (Z.eqb_spec (pr_pages r) 0); cbn; [by left|].
  case_bool_decide as Hdup; cbn; [by left|].
  destruct (Z.ltb_spec (available_pages p) (pr_pages r)) as [Hlt|Hge]; cbn.
  { right. split; [done|]. exists r, addr, i, p. split_and!; try done. by left. }
  specialize (IH (previous ++ [r])). destruct (validate_bundle s (previous ++ [r]) rest) as [u|e].
  - destruct IH as (Hok & Hnd & Hnew).
    assert (available_pages p = capacity_pages p - allocated_pages p - reserved_pages p) as Hav.
    { destruct (pool_at_Some _ _ _ _ Hat) as [Hi _].
      pose proof (proj1 (Forall_lookup _ _) Hinv _ _ Hi) as Hp. cbv beta in Hp.
      pose proof (pi_reserved _ Hp). pose proof (pi_capacity _ Hp). pose proof (pool_allocated_nonneg _ Hp).
      unfold available_pages. rewrite w32_small; lia. }
    split_and!.
    + constructor; [|done]. exists addr, i, p. split_and!; [done..|lia|lia].
    + constructor; [|done]. intros Hin. apply (Hnew _ Hin).
      rewrite fmap_app, <- Haddr. apply elem_of_app. right. by apply list_elem_of_singleton.
    + intros a [->|Ha]%elem_of_cons.
      * done.
      * intros Hp. apply (Hnew _ Ha). rewrite fmap_app. apply elem_of_app. by left.
  - destruct IH as [?|(? & r' & addr' & i' & p' & Hin & ?)]; [by left|right]. split; [done|].
    exists r', addr', i', p'. split; [by right|done].
Qed.

(** A bundle reserves every named pool or none: on success each request has its reservation and
    every pool's reserved counter has grown by what the bundle asked of it; when it throws - a bad
    request, a pool named twice, or a pool with too few available pages - every pool is unchanged.
    The "prevalidation was not stable" logic error cannot happen. *)
Theorem bundle_all_or_nothing s requests :
  Forall pool_inv s -> NoDup (pool_self <$> s) ->
  Forall (fun r => 0 <= pr_pages r <= u32_max) requests ->
  match reserve_device_kv_page_bundle requests s with
  | (s', Ok xs) =>
      NoDup (pr_pool <$> requests) /\ xs = reservation_for <$> requests /\
      s' = grant requests <$> s /\ Forall pool_inv s'
  | (s', Throw e) =>
      s' = s /\
      (e = InvalidArgument \/
       (e = BadAlloc /\ exists r addr i p, r ∈ requests /\ pr_pool r = Some addr /\
          pool_at s addr = Some (i, p) /\ available_pages p < pr_pages r))
  end.
Proof.
  intros Hinv Hs Hr. unfold reserve_device_kv_page_bundle. unfold_M.
  pose proof (validate_bundle_spec s [] requests Hinv Hr) as Hv.
  destruct (validate_bundle s [] requests) as [u|e]; [|done].
  destruct Hv as (Hok & Hnd & _).
  destruct (reserve_each_spec requests s Hinv Hs Hnd Hr Hok) as [-> Hinv']. done.
Qed.

Lemma bundle_all_or_nothing_witness :
  let s := [demo_pool] in
  match reserve_device_kv_page_bundle [mkPageRequest (Some 7) 5] s with
  | (s', Ok xs) => xs = [mkReservation (Some 7) 5] /\ (reserved_pages <$> s') = [5]
  | _ => False
  end.
Proof.
  intros s.
  pose proof (bundle_all_or_nothing s [mkPageRequest (Some 7) 5]) as H.
  destruct (reserve_device_kv_page_bundle [mkPageRequest (Some 7) 5] s) as [s' [xs|e]] eqn:E.
  - destruct H as (_ & Hxs & Hs & _).
    + constructor; [apply demo_pool_inv|constructor].
    + apply NoDup_singleton.
    + repeat constructor; cbn; lia.
    + split; [exact Hxs|]. rewrite Hs. reflexivity.
  - exfalso. vm_compute in E. discriminate.
Defined.
