(* ===== verification/DeviceTransfer.v ===== *)
(** * Page contents: clearing and copying (core/paged_kv_cache.cpp)

    [zero_pages], [copy_page], [copy_to_host] and [copy_from_host] of [DeviceKVPagePool].  Each call
    issues a sequence of CUDA operations on contiguous page runs; a call is modelled by the trace of
    operations it issues (a failing operation throws out of the loop, which the trace of the
    succeeding case covers), and the theorems say which bytes a trace touches. *)

From S2P Require Import Prelude Extents HostKV KVGeometry DevicePagePool DevicePoolInvariant DevicePoolOps DevicePoolSpec Tensor.

(** ** The CUDA operations *)

Inductive Command :=
  | MemsetAsync (dst value count : Z)
  | Memset2DAsync (dst pitch value width height : Z)
  | MemcpyAsync (dst src count : Z)
  | Memcpy2DAsync (dst dpitch src spitch width height : Z).

(** The addresses an operation clears. *)
Definition clears (c : Command) (addr : Z) : Prop :=
  match c with
  | MemsetAsync dst 0 count => dst <= addr < dst + count
  | Memset2DAsync dst pitch 0 width height =>
      exists row, 0 <= row < height /\ dst + row * pitch <= addr < dst + row * pitch + width
  | _ => False
  end.

(** The destination and source addresses of the bytes an operation copies. *)
Definition copies (c : Command) (dst_addr src_addr : Z) : Prop :=
  match c with
  | MemcpyAsync dst src count =>
      exists j, 0 <= j < count /\ dst_addr = dst + j /\ src_addr = src + j
  | Memcpy2DAsync dst dpitch src spitch width height =>
      exists row j, 0 <= row < height /\ 0 <= j < width /\
        dst_addr = dst + row * dpitch + j /\ src_addr = src + row * spitch + j
  | _ => False
  end.

(** ** Validation *)

(** The loop of [validate_distinct_pages]. *)
Fixpoint mark_pages (pages : list DeviceKVPageHandle) : M DeviceKVPagePool unit :=
  match pages with
  | [] => mret tt
  | h :: pages =>
      p ← mget;
      index ← mlift (physical_index p h);
      match at_index (validation_marks p) index with
      | None => mthrow InvalidArgument
      | Some mark =>
          _ ← mthrow_if (mark =? validation_stamp p) InvalidArgument;
          _ ← mput (set_marks (set_index (validation_marks p) index (validation_stamp p))
                      (validation_stamp p) p);
          mark_pages pages
      end
  end.

(** Advance the stamp; when it wraps, clear the marks and start again at one. *)
Definition next_stamp (p : DeviceKVPagePool) : DeviceKVPagePool :=
  let p := set_marks (validation_marks p) (w32 (validation_stamp p + 1)) p in
  if validation_stamp p =? 0
  then set_marks (replicate (length (validation_marks p)) 0) 1 p else p.

Definition validate_distinct_pages (pages : list DeviceKVPageHandle) : M DeviceKVPagePool unit :=
  _ ← mmodify next_stamp;
  mark_pages pages.

(** ** Contiguous runs of a page list *)

(** How far the inner [while] advances past a page with index [previous]. *)
Fixpoint run_length (previous : Z) (pages : list DeviceKVPageHandle) : nat :=
  match pages with
  | [] => 0
  | h :: pages => if pg_index h =? previous + 1 then S (run_length (pg_index h) pages) else 0
  end.

(** A run: the position of its first page in the list, that page's index, the number of pages. *)
Record PageRun := mkRun { run_begin : nat; run_first : Z; run_count : nat }.

(** The outer [while]; [fuel] is the length of the list, and every run takes at least one page. *)
Fixpoint page_runs (fuel : nat) (begin_ : nat) (pages : list DeviceKVPageHandle) : list PageRun :=
  match fuel, pages with
  | S fuel, h :: rest =>
      let count := S (run_length (pg_index h) rest) in
      mkRun begin_ (pg_index h) count :: page_runs fuel (begin_ + count) (drop count pages)
  | _, _ => []
  end.

Definition runs_of (pages : list DeviceKVPageHandle) : list PageRun := page_runs (length pages) 0 pages.

(** ** Operations *)

Definition plane_data (t : Tensor) : Z := default 0 (t_data t).
Definition plane_nb (t : Tensor) (i : nat) : Z := nth i (t_nb t) 0.
Definition plane_ne (t : Tensor) (i : nat) : Z := nth i (t_ne t) 0.

Definition zero_run (order : PagedKVPlaneOrder) (r : PageRun) (t : Tensor) : Command :=
  match order with
  | PageMajor =>
      MemsetAsync (plane_data t + run_first r * plane_nb t 3) 0 (Z.of_nat (run_count r) * plane_nb t 3)
  | HeadMajor =>
      Memset2DAsync (plane_data t + run_first r * plane_nb t 2) (plane_nb t 3) 0
        (Z.of_nat (run_count r) * plane_nb t 2) (plane_ne t 3)
  end.

Definition zero_pages (pages : list DeviceKVPageHandle) : M DeviceKVPagePool (list Command) :=
  _ ← validate_distinct_pages pages;
  p ← mget;
  mret (runs_of pages ≫= fun r =>
          zero_run (device_plane_order (pool_geometry p)) r <$> pool_planes p).

Definition copy_plane_page (order : PagedKVPlaneOrder) (source destination : Z) (t : Tensor) : Command :=
  match order with
  | PageMajor =>
      MemcpyAsync (plane_data t + destination * plane_nb t 3) (plane_data t + source * plane_nb t 3)
        (plane_nb t 3)
  | HeadMajor =>
      Memcpy2DAsync (plane_data t + destination * plane_nb t 2) (plane_nb t 3)
        (plane_data t + source * plane_nb t 2) (plane_nb t 3) (plane_nb t 2) (plane_ne t 3)
  end.

Definition copy_page (p : DeviceKVPagePool) (source destination : DeviceKVPageHandle)
    : result (list Command) :=
  source ← physical_index p source;
  destination ← physical_index p destination;
  if source =? destination then Ok []
  else Ok (copy_plane_page (device_plane_order (pool_geometry p)) source destination <$> pool_planes p).

(** The device side and the host side of one plane of one run: the copies of its rows. *)
Definition transfer_plane (to_host : bool) (order : PagedKVPlaneOrder) (host_data stride : Z)
    (r : PageRun) (tp : Tensor * HostKVPlaneLayout) : list Command :=
  let '(t, hp) := tp in
  let count := Z.of_nat (run_count r) in
  let host_base := host_data + Z.of_nat (run_begin r) * stride + hp_offset hp in
  let copy host device dpitch width :=
    if to_host then Memcpy2DAsync host stride device dpitch width count
    else Memcpy2DAsync device dpitch host stride width count in
  match order with
  | PageMajor =>
      [copy host_base (plane_data t + run_first r * plane_nb t 3) (plane_nb t 3) (page_payload_bytes hp)]
  | HeadMajor =>
      (fun head =>
         copy (host_base + head * head_payload_bytes hp)
           (plane_data t + head * plane_nb t 3 + run_first r * plane_nb t 2) (plane_nb t 2)
           (head_payload_bytes hp)) <$> seqZ 0 (plane_ne t 3)
  end.

Definition transfer (to_host : bool) (p : DeviceKVPagePool) (host : HostKVPageLayout) (host_data : Z)
    (pages : list DeviceKVPageHandle) : list Command :=
  runs_of pages ≫= fun r =>
    zip (pool_planes p) (host_planes host) ≫=
      transfer_plane to_host (device_plane_order (pool_geometry p)) host_data (page_stride host) r.

(** Every handle of [source] is checked, and discarded. *)
Fixpoint check_pages (p : DeviceKVPagePool) (pages : list DeviceKVPageHandle) : result unit :=
  match pages with
  | [] => Ok tt
  | h :: pages => _ ← physical_index p h; check_pages p pages
  end.

(** [a] is the arena that minted the view. *)
Definition view_check (a : Arena) (p : DeviceKVPagePool) (v : HostKVAllocationView)
    (pages : list DeviceKVPageHandle) : result HostKVPageLayout :=
  _ ← throw_if (negb (view_valid a v) || negb (v_page_count v =? Z.of_nat (length pages))) InvalidArgument;
  l ← view_layout a v;
  _ ← throw_if (negb (bool_decide (geometry l = pool_geometry p))) InvalidArgument;
  Ok l.

Definition copy_to_host (a : Arena) (source : list DeviceKVPageHandle) (destination : HostKVAllocationView)
    : M DeviceKVPagePool (list Command) :=
  p ← mget;
  host ← mlift (view_check a p destination source);
  _ ← mlift (check_pages p source);
  mret (transfer true p host (default 0 (v_data destination)) source).

Definition copy_from_host (a : Arena) (source : HostKVAllocationView) (destination : list DeviceKVPageHandle)
    : M DeviceKVPagePool (list Command) :=
  p ← mget;
  host ← mlift (view_check a p source destination);
  _ ← validate_distinct_pages destination;
  p ← mget;
  mret (transfer false p host (default 0 (v_data source)) destination).

(** ** Runs cover the list *)

Lemma run_length_lookup h rest k :
  (k < S (run_length (pg_index h) rest))%nat ->
  exists h', (h :: rest) !! k = Some h' /\ pg_index h' = pg_index h + Z.of_nat k.
Proof.
  revert h k. induction rest as [|h2 rest IH]; intros h [|k] Hk; cbn in *.
  - exists h. split; [done|lia].
  - lia.
  - exists h. split; [done|lia].
  - destruct (Z.eqb_spec (pg_index h2) (pg_index h + 1)); [|lia].
    destruct (IH h2 k ltac:(lia)) as (h' & Hh' & Hi). exists h'. split; [done|lia].
Qed.

Lemma run_length_le prev rest : (run_length prev rest <= length rest)%nat.
Proof. revert prev. induction rest as [|h rest IH]; intros prev; cbn; [lia|]. specialize (IH (pg_index h)). case_match; lia. Qed.

Lemma page_runs_spec fuel : forall b pages,
  (length pages <= fuel)%nat ->
  forall pos idx,
  (exists r k, r ∈ page_runs fuel b pages /\ (k < run_count r)%nat /\ pos = (run_begin r + k)%nat /\
     idx = run_first r + Z.of_nat k) <->
  (exists h, (b <= pos)%nat /\ pages !! (pos - b)%nat = Some h /\ pg_index h = idx).
Proof.
  induction fuel as [|fuel IH]; intros b [|h rest] Hlen pos idx; cbn [page_runs length] in *; try lia.
  1,2: split; [intros (r & k & Hr & _); by apply not_elem_of_nil in Hr|
    intros (h & _ & Hh & _); by rewrite lookup_nil in Hh].
  set (n := S (run_length (pg_index h) rest)).
  pose proof (run_length_le (pg_index h) rest) as Hle.
  assert (length (drop n (h :: rest)) <= fuel)%nat as Hlen' by (rewrite length_drop; cbn; lia).
  specialize (IH (b + n)%nat (drop n (h :: rest)) Hlen' pos idx). split.
  - intros (r & k & [->|Hr]%elem_of_cons & Hk & -> & ->).
    + destruct (run_length_lookup h rest k Hk) as (h' & Hh' & Hi). exists h'. cbn [run_begin run_first].
      replace (b + k - b)%nat with k by lia. split_and!; [lia|done|done].
    + destruct (proj1 IH) as (h' & Hb & Hh' & Hi); [by exists r, k|]. exists h'.
      rewrite lookup_drop in Hh'. split_and!; [lia| |done]. rewrite <- Hh'. f_equal. lia.
  - intros (h' & Hb & Hh' & Hi). destruct (decide (pos - b < n)%nat) as [Hlt|Hge].
    + destruct (run_length_lookup h rest (pos - b) Hlt) as (h2 & Hh2 & Hi2).
      rewrite Hh' in Hh2. injection Hh2 as <-.
      exists (mkRun b (pg_index h) n), (pos - b)%nat. cbn [run_begin run_first run_count].
      split_and!; [by left|done|lia|lia].
    + destruct (proj2 IH) as (r & k & Hr & ?).
      { exists h'. rewrite lookup_drop. replace (n + (pos - (b + n)))%nat with (pos - b)%nat by lia.
        split_and!; [lia|done|done]. }
      exists r, k. split; [by right|done].
Qed.

Lemma runs_of_spec pages pos idx :
  (exists r k, r ∈ runs_of pages /\ (k < run_count r)%nat /\ pos = (run_begin r + k)%nat /\
     idx = run_first r + Z.of_nat k) <->
  (exists h, pages !! pos = Some h /\ pg_index h = idx).
Proof.
  unfold runs_of. rewrite page_runs_spec by done. split.
  - intros (h & _ & Hh & Hi). rewrite Nat.sub_0_r in Hh. eauto.
  - intros (h & Hh & Hi). exists h. rewrite Nat.sub_0_r. split_and!; [lia|done|done].
Qed.

(** ** Validation rejects exactly stale and repeated pages *)

Definition distinct_live (p : DeviceKVPagePool) (pages : list DeviceKVPageHandle) : Prop :=
  Forall (fun h => valid_page p h = true) pages /\ NoDup (pg_index <$> pages).

Definition same_pages (p p' : DeviceKVPagePool) : Prop :=
  exists marks stamp, p' = set_marks marks stamp p.

Lemma same_pages_trans p1 p2 p3 : same_pages p1 p2 -> same_pages p2 p3 -> same_pages p1 p3.
Proof. intros (? & ? & ->) (m & s & ->). by exists m, s. Qed.

Lemma set_marks_inv p marks stamp :
  pool_inv p -> length marks = length (validation_marks p) -> 0 <= stamp <= u32_max ->
  Forall (fun m => 0 <= m <= stamp) marks -> pool_inv (set_marks marks stamp p).
Proof. intros [] Hlen Hs Hm. split; try done. cbn. rewrite Hlen. done. Qed.

Lemma mark_pages_spec pages : forall p (seen : list Z),
  pool_inv p -> (forall i, at_index (validation_marks p) i = Some (validation_stamp p) <-> i ∈ seen) ->
  match mark_pages pages p with
  | (p', Ok _) => same_pages p p' /\ pool_inv p' /\ distinct_live p pages /\
                  (forall h, h ∈ pages -> pg_index h ∉ seen)
  | (p', Throw e) => same_pages p p' /\ pool_inv p' /\ e = InvalidArgument /\
                  ~ (distinct_live p pages /\ (forall h, h ∈ pages -> pg_index h ∉ seen))
  end.
Proof.
  induction pages as [|h pages IH]; intros p seen Hinv Hseen; cbn [mark_pages]; unfold_M.
  { split_and!; try done; [by exists (validation_marks p), (validation_stamp p); destruct p| |].
    - split; constructor.
    - intros h Hh. by apply not_elem_of_nil in Hh. }
  assert (same_pages p p) as Hrefl by (exists (validation_marks p), (validation_stamp p); by destruct p).
  unfold physical_index. destruct (valid_page p h) eqn:Hv.
  2: { split_and!; try done. intros [[[Hc _]%Forall_cons _] _]. congruence. }
  pose proof Hv as (_ & Ha%at_index_lt & _)%valid_page_iff; [|done].
  pose proof (pi_alloc _ Hinv). pose proof (pi_marks _ Hinv).
  destruct (at_index_is_Some (validation_marks p) (pg_index h)) as [m Hm]; [lia|]. rewrite Hm.
  destruct (Z.eqb_spec m (validation_stamp p)) as [->|Hne].
  { split_and!; try done. intros [_ Hns]. apply (Hns h); [by left|]. by apply Hseen. }
  set (p1 := set_marks (set_index (validation_marks p) (pg_index h) (validation_stamp p))
    (validation_stamp p) p).
  assert (pool_inv p1) as Hinv1.
  { apply set_marks_inv; [done|by rewrite length_set_index|apply (pi_stamp _ Hinv)|].
    apply Forall_insert; [apply (pi_marks_le _ Hinv)|]. pose proof (pi_stamp _ Hinv). lia. }
  specialize (IH p1 (pg_index h :: seen) Hinv1).
  assert (forall i, at_index (validation_marks p1) i = Some (validation_stamp p1) <->
    i ∈ pg_index h :: seen) as Hseen1.
  { intros i. cbn. rewrite elem_of_cons. destruct (decide (i = pg_index h)) as [->|Hi].
    - rewrite at_set_index_eq by lia. split; [by left|done].
    - rewrite at_set_index_ne by (lia || done). rewrite Hseen. tauto. }
  specialize (IH Hseen1).
  assert (same_pages p p1) as Hsame by (by eexists _, _).
  assert (forall q, distinct_live p1 q <-> distinct_live p q) as Hdl by done.
  destruct (mark_pages pages p1) as [p2 [[]|e]]; destruct IH as (Hs2 & Hinv2 & Hrest).
  - destruct Hrest as ([Hall Hnd] & Hns).
    split_and!; [by eapply same_pages_trans|done| |].
    + split; [by constructor|]. rewrite fmap_cons. constructor; [|done].
      intros (h' & E & Hh')%list_elem_of_fmap. apply (Hns h' Hh'). rewrite <- E. by left.
    + intros h' [->|Hh']%elem_of_cons; [rewrite <- Hseen; congruence|].
      intros Hin. apply (Hns h' Hh'). by right.
  - destruct Hrest as [-> Hno]. split_and!; [by eapply same_pages_trans|done|done|].
    intros [[[_ Hall]%Forall_cons Hnd] Hns]. apply Hno. rewrite fmap_cons in Hnd.
    apply NoDup_cons in Hnd as [Hnh Hnd]. split; [by split|].
    intros h' Hh' [E|Hin]%elem_of_cons.
    + apply Hnh. rewrite <- E. by apply list_elem_of_fmap_2.
    + apply (Hns h'); [by right|done].
Qed.

Lemma validate_distinct_pages_spec p pages :
  pool_inv p ->
  match validate_distinct_pages pages p with
  | (p', Ok _) => same_pages p p' /\ pool_inv p' /\ distinct_live p pages
  | (p', Throw e) => same_pages p p' /\ pool_inv p' /\ e = InvalidArgument /\ ~ distinct_live p pages
  end.
Proof.
  intros Hinv. unfold validate_distinct_pages. unfold_M.
  set (p1 := next_stamp p).
  assert (same_pages p p1 /\ pool_inv p1 /\
      forall i, at_index (validation_marks p1) i <> Some (validation_stamp p1)) as (Hs & Hinv1 & Hno).
  { pose proof (pi_stamp _ Hinv). pose proof (pi_marks_le _ Hinv) as Hle.
    unfold p1, next_stamp. cbn [validation_stamp set_marks].
    destruct (Z.eqb_spec (w32 (validation_stamp p + 1)) 0) as [H0|H0].
    - split_and!; [by eexists _, _| |].
      + apply (set_marks_inv p); [done|by rewrite length_replicate|lia|]. apply Forall_replicate. lia.
      + intros i [_ Hi]%at_index_Some. cbn in Hi. apply lookup_replicate in Hi as [? _]. discriminate.
    - assert (w32 (validation_stamp p + 1) = validation_stamp p + 1) as Hw.
      { destruct (decide (validation_stamp p = u32_max)) as [E|E]; [by rewrite E in H0|]. apply w32_small. lia. }
      pose proof (w32_range (validation_stamp p + 1)).
      split_and!; [by eexists _, _| |].
      + apply (set_marks_inv p); [done|done|lia|]. eapply Forall_impl; [exact Hle|]. cbn. lia.
      + intros i [_ Hi]%at_index_Some. cbn in Hi.
        pose proof (proj1 (Forall_lookup _ _) Hle _ _ Hi) as Hm. cbv beta in Hm. lia. }
  assert (forall i, at_index (validation_marks p1) i = Some (validation_stamp p1) <-> i ∈ ([] : list Z)) as Hseen.
  { intros i. rewrite elem_of_nil. split; [apply Hno|done]. }
  pose proof (mark_pages_spec pages p1 [] Hinv1 Hseen) as H.
  assert (distinct_live p1 pages <-> distinct_live p pages) as Hdl by (by destruct Hs as (? & ? & ->)).
  destruct (mark_pages pages p1) as [p2 [u|e]]; destruct H as (Hs2 & Hinv2 & H).
  - destruct H as [H _]. split_and!; [by eapply same_pages_trans|done|by apply Hdl].
  - destruct H as [-> H]. split_and!; [by eapply same_pages_trans|done|done|].
    intros Hd. apply H. split; [by apply Hdl|]. intros h _. apply not_elem_of_nil.
Qed.

(** ** Clearing pages *)

(** The bytes of page [idx] in one plane. *)
Definition plane_page (order : PagedKVPlaneOrder) (t : Tensor) (idx addr : Z) : Prop :=
  match order with
  | PageMajor =>
      plane_data t + idx * plane_nb t 3 <= addr < plane_data t + (idx + 1) * plane_nb t 3
  | HeadMajor =>
      exists head, 0 <= head < plane_ne t 3 /\
        plane_data t + idx * plane_nb t 2 + head * plane_nb t 3 <= addr <
        plane_data t + (idx + 1) * plane_nb t 2 + head * plane_nb t 3
  end.

Definition strides_positive (t : Tensor) : Prop := 0 < plane_nb t 2 /\ 0 < plane_nb t 3.

Lemma split_interval b f w n a :
  0 < w ->
  (b + f * w <= a < b + f * w + Z.of_nat n * w) <->
  (exists k, (k < n)%nat /\ b + (f + Z.of_nat k) * w <= a < b + (f + Z.of_nat k + 1) * w).
Proof.
  intros Hw. split.
  - intros [Hlo Hhi]. exists (Z.to_nat ((a - b) / w - f)).
    pose proof (Z.div_mod (a - b) w). pose proof (Z.mod_pos_bound (a - b) w Hw).
    assert (f <= (a - b) / w) by (apply Z.div_le_lower_bound; lia).
    assert ((a - b) / w < f + Z.of_nat n) by (apply Z.div_lt_upper_bound; lia).
    rewrite Z2Nat.id by lia. split; [lia|]. replace (f + ((a - b) / w - f)) with ((a - b) / w) by lia. lia.
  - intros (k & Hk & Hlo & Hhi). nia.
Qed.

Lemma zero_run_clears order r t a :
  strides_positive t ->
  clears (zero_run order r t) a <->
  exists k, (k < run_count r)%nat /\ plane_page order t (run_first r + Z.of_nat k) a.
Proof.
  intros [H2 H3]. unfold zero_run, plane_page. destruct order; cbn [clears].
  - apply split_interval. done.
  - split.
    + intros (head & Hh & Ha).
      destruct (proj1 (split_interval (plane_data t + head * plane_nb t 3) (run_first r) (plane_nb t 2)
        (run_count r) a H2)) as (k & Hk & Hka); [lia|].
      exists k. split; [done|]. exists head. split; [done|lia].
    + intros (k & Hk & head & Hh & Ha). exists head. split; [done|].
      pose proof (proj2 (split_interval (plane_data t + head * plane_nb t 3) (run_first r) (plane_nb t 2)
        (run_count r) a H2)) as H. specialize (H ltac:(exists k; split; [done|lia])). lia.
Qed.

Definition trace_clears (trace : list Command) (addr : Z) : Prop := exists c, c ∈ trace /\ clears c addr.
Definition trace_copies (trace : list Command) (dst src : Z) : Prop :=
  exists c, c ∈ trace /\ copies c dst src.

(** [zero_pages] clears exactly the bytes of the named pages, in every plane and - for head-major
    planes - for every head, whatever runs the pages form; it rejects a stale or repeated page before
    issuing any operation, and changes nothing of the pool but its validation stamps. *)
Theorem zero_pages_exact p pages :
  pool_inv p -> Forall strides_positive (pool_planes p) ->
  match zero_pages pages p with
  | (p', Ok trace) =>
      same_pages p p' /\ pool_inv p' /\ distinct_live p pages /\
      forall addr, trace_clears trace addr <->
        exists h t, h ∈ pages /\ t ∈ pool_planes p /\
          plane_page (device_plane_order (pool_geometry p)) t (pg_index h) addr
  | (p', Throw e) => same_pages p p' /\ pool_inv p' /\ e = InvalidArgument /\ ~ distinct_live p pages
  end.
Proof.
  intros Hinv Hpos. unfold zero_pages. unfold_M.
  pose proof (validate_distinct_pages_spec p pages Hinv) as H.
  destruct (validate_distinct_pages pages p) as [p' [u|e]]; [|done].
  destruct H as (Hs & Hinv' & Hd). split_and!; [done..|].
  assert (pool_planes p' = pool_planes p /\ pool_geometry p' = pool_geometry p) as [-> ->]
    by (by destruct Hs as (? & ? & ->)).
  set (order := device_plane_order (pool_geometry p)).
  intros addr. unfold trace_clears. split.
  - intros (c & (r & Hc & Hr)%list_elem_of_bind & Hcl).
    apply list_elem_of_fmap in Hc as (t & -> & Ht).
    rewrite Forall_forall in Hpos. apply zero_run_clears in Hcl as (k & Hk & Hpage); [|by apply Hpos].
    destruct (proj1 (runs_of_spec pages (run_begin r + k) (run_first r + Z.of_nat k)))
      as (h & Hh & Hi); [by exists r, k|].
    exists h, t. split_and!; [by eapply list_elem_of_lookup_2|done|by rewrite Hi].
  - intros (h & t & [pos Hh]%list_elem_of_lookup & Ht & Hpage).
    destruct (proj2 (runs_of_spec pages pos (pg_index h))) as (r & k & Hr & Hk & _ & Hi); [by exists h|].
    exists (zero_run order r t). split.
    + apply list_elem_of_bind. exists r. split; [by apply list_elem_of_fmap_2|done].
    + rewrite Forall_forall in Hpos. apply zero_run_clears; [by apply Hpos|].
      exists k. by rewrite <- Hi.
Qed.

(** ** Copying pages to and from the host *)

(** Host byte [h] and device byte [d] hold the same byte of page [idx], stored as record [pos]. *)
Definition plane_image (order : PagedKVPlaneOrder) (host_data stride : Z)
    (tp : Tensor * HostKVPlaneLayout) (pos idx h d : Z) : Prop :=
  let '(t, hp) := tp in
  match order with
  | PageMajor =>
      exists j, 0 <= j < page_payload_bytes hp /\
        h = host_data + pos * stride + hp_offset hp + j /\
        d = plane_data t + idx * plane_nb t 3 + j
  | HeadMajor =>
      exists head j, 0 <= head < plane_ne t 3 /\ 0 <= j < head_payload_bytes hp /\
        h = host_data + pos * stride + hp_offset hp + head * head_payload_bytes hp + j /\
        d = plane_data t + head * plane_nb t 3 + idx * plane_nb t 2 + j
  end.

Definition swap_if (b : bool) (f : Z -> Z -> Prop) (x y : Z) : Prop := if b then f x y else f y x.

Lemma copies_rows (to_host : bool) host stride device dpitch width n x y :
  copies (if to_host then Memcpy2DAsync host stride device dpitch width (Z.of_nat n)
          else Memcpy2DAsync device dpitch host stride width (Z.of_nat n)) x y <->
  swap_if to_host (fun h d => exists (k : nat) j, (k < n)%nat /\ 0 <= j < width /\
    h = host + Z.of_nat k * stride + j /\ d = device + Z.of_nat k * dpitch + j) x y.
Proof.
  destruct to_host; cbn; split.
  - intros (row & j & Hr & Hj & -> & ->). exists (Z.to_nat row), j. rewrite Z2Nat.id by lia.
    split_and!; done || lia.
  - intros (k & j & Hk & Hj & -> & ->). exists (Z.of_nat k), j. split_and!; done || lia.
  - intros (row & j & Hr & Hj & -> & ->). exists (Z.to_nat row), j. rewrite Z2Nat.id by lia.
    split_and!; done || lia.
  - intros (k & j & Hk & Hj & -> & ->). exists (Z.of_nat k), j. split_and!; done || lia.
Qed.

Lemma transfer_plane_copies to_host order host_data stride r tp x y :
  trace_copies (transfer_plane to_host order host_data stride r tp) x y <->
  swap_if to_host (fun h d => exists k, (k < run_count r)%nat /\
    plane_image order host_data stride tp (Z.of_nat (run_begin r + k)) (run_first r + Z.of_nat k) h d) x y.
Proof.
  destruct tp as [t hp]. unfold trace_copies, transfer_plane, plane_image. destruct order.
  - transitivity (copies (if to_host
      then Memcpy2DAsync (host_data + Z.of_nat (run_begin r) * stride + hp_offset hp) stride
             (plane_data t + run_first r * plane_nb t 3) (plane_nb t 3) (page_payload_bytes hp)
             (Z.of_nat (run_count r))
      else Memcpy2DAsync (plane_data t + run_first r * plane_nb t 3) (plane_nb t 3)
             (host_data + Z.of_nat (run_begin r) * stride + hp_offset hp) stride
             (page_payload_bytes hp) (Z.of_nat (run_count r))) x y).
    { split; [intros (c & ->%list_elem_of_singleton & Hc); exact Hc|].
      intros Hc. eexists. split; [by apply list_elem_of_singleton|exact Hc]. }
    rewrite copies_rows. unfold swap_if. destruct to_host; split;
      intros (k & H); [destruct H as (j & Hk & Hj & -> & ->)|destruct H as (Hk & j & Hj & -> & ->)|
        destruct H as (j & Hk & Hj & -> & ->)|destruct H as (Hk & j & Hj & -> & ->)];
      exists k; try (split; [done|]); exists j; split_and!; done || lia.
  - transitivity (exists head, 0 <= head < plane_ne t 3 /\ copies (if to_host
      then Memcpy2DAsync (host_data + Z.of_nat (run_begin r) * stride + hp_offset hp + head * head_payload_bytes hp) stride
             (plane_data t + head * plane_nb t 3 + run_first r * plane_nb t 2) (plane_nb t 2)
             (head_payload_bytes hp) (Z.of_nat (run_count r))
      else Memcpy2DAsync (plane_data t + head * plane_nb t 3 + run_first r * plane_nb t 2) (plane_nb t 2)
             (host_data + Z.of_nat (run_begin r) * stride + hp_offset hp + head * head_payload_bytes hp) stride
             (head_payload_bytes hp) (Z.of_nat (run_count r))) x y).
    { split.
      - intros (c & (head & -> & Hh%elem_of_seqZ)%list_elem_of_fmap & Hc). exists head.
        split; [lia|exact Hc].
      - intros (head & Hh & Hc). eexists. split; [|exact Hc]. apply list_elem_of_fmap.
        exists head. split; [done|]. apply elem_of_seqZ. lia. }
    setoid_rewrite copies_rows. unfold swap_if. destruct to_host; split.
    + intros (head & Hh & k & j & Hk & Hj & -> & ->). exists k. split; [done|].
      exists head, j. split_and!; done || lia.
    + intros (k & Hk & head & j & Hh & Hj & -> & ->). exists head. split; [done|].
      exists k, j. split_and!; done || lia.
    + intros (head & Hh & k & j & Hk & Hj & -> & ->). exists k. split; [done|].
      exists head, j. split_and!; done || lia.
    + intros (k & Hk & head & j & Hh & Hj & -> & ->). exists head. split; [done|].
      exists k, j. split_and!; done || lia.
Qed.

(** The bytes of all planes of the pages, record by record. *)
Definition pages_image (p : DeviceKVPagePool) (host : HostKVPageLayout) (host_data : Z)
    (pages : list DeviceKVPageHandle) (h d : Z) : Prop :=
  exists pos page tp, pages !! pos = Some page /\ tp ∈ zip (pool_planes p) (host_planes host) /\
    plane_image (device_plane_order (pool_geometry p)) host_data (page_stride host) tp
      (Z.of_nat pos) (pg_index page) h d.

Lemma transfer_copies to_host p host host_data pages x y :
  trace_copies (transfer to_host p host host_data pages) x y <->
  swap_if to_host (pages_image p host host_data pages) x y.
Proof.
  assert (forall c, c ∈ transfer to_host p host host_data pages <->
    exists r tp, r ∈ runs_of pages /\ tp ∈ zip (pool_planes p) (host_planes host) /\
      c ∈ transfer_plane to_host (device_plane_order (pool_geometry p)) host_data (page_stride host) r tp)
    as Hmem.
  { intros c. unfold transfer. rewrite list_elem_of_bind. setoid_rewrite list_elem_of_bind. split.
    - intros (r & (tp & Hc & Htp) & Hr). eauto.
    - intros (r & tp & Hr & Htp & Hc). eauto. }
  transitivity (exists r tp, r ∈ runs_of pages /\ tp ∈ zip (pool_planes p) (host_planes host) /\
    trace_copies (transfer_plane to_host (device_plane_order (pool_geometry p)) host_data
      (page_stride host) r tp) x y).
  { unfold trace_copies. setoid_rewrite Hmem. split.
    - intros (c & (r & tp & Hr & Htp & Hc) & Hcp). exists r, tp. eauto.
    - intros (r & tp & Hr & Htp & c & Hc & Hcp). exists c. eauto 10. }
  setoid_rewrite transfer_plane_copies. unfold swap_if, pages_image. split.
  - intros (r & tp & Hr & Htp & H).
    assert (exists k, (k < run_count r)%nat /\ plane_image (device_plane_order (pool_geometry p)) host_data
      (page_stride host) tp (Z.of_nat (run_begin r + k)) (run_first r + Z.of_nat k)
      (if to_host then x else y) (if to_host then y else x)) as (k & Hk & Hi) by (by destruct to_host).
    destruct (proj1 (runs_of_spec pages (run_begin r + k) (run_first r + Z.of_nat k)))
      as (h & Hh & Hidx); [by exists r, k|].
    destruct to_host; exists (run_begin r + k)%nat, h, tp; rewrite Hidx; done.
  - intros H.
    assert (exists pos page tp, pages !! pos = Some page /\ tp ∈ zip (pool_planes p) (host_planes host) /\
      plane_image (device_plane_order (pool_geometry p)) host_data (page_stride host) tp
        (Z.of_nat pos) (pg_index page) (if to_host then x else y) (if to_host then y else x))
      as (pos & page & tp & Hpg & Htp & Hi) by (by destruct to_host).
    destruct (proj2 (runs_of_spec pages pos (pg_index page))) as (r & k & Hr & Hk & Hpos & Hidx);
      [by exists page|].
    exists r, tp. split_and!; [done..|]. rewrite Hpos, Hidx in Hi. destruct to_host; exists k; done.
Qed.

Lemma check_pages_Ok p pages u :
  check_pages p pages = Ok u <-> Forall (fun h => valid_page p h = true) pages.
Proof.
  induction pages as [|h pages IH]; cbn; [destruct u; split; [constructor|done]|].
  unfold physical_index. rewrite Forall_cons. destruct (valid_page p h); cbn; [rewrite IH; tauto|].
  split; [discriminate|]. by intros [? _].
Qed.

(** Saving pages to a host allocation and restoring them are mirror images.  [copy_to_host] copies
    exactly the bytes of every plane of the [i]-th page to the [i]-th host record, whatever contiguous
    runs the pages form; [copy_from_host] copies exactly the same byte pairs back, accepts only
    distinct live pages, and whenever it accepts its arguments [copy_to_host] accepts them too. *)
Theorem page_transfers_mirror a p v pages p' down :
  pool_inv p -> copy_from_host a v pages p = (p', Ok down) ->
  exists host up, copy_to_host a pages v p = (p, Ok up) /\ view_layout a v = Ok host /\
    same_pages p p' /\ pool_inv p' /\ distinct_live p pages /\
    (forall h d, trace_copies up h d <-> pages_image p host (default 0 (v_data v)) pages h d) /\
    (forall h d, trace_copies down d h <-> pages_image p host (default 0 (v_data v)) pages h d).
Proof.
  intros Hinv. unfold copy_from_host, copy_to_host. unfold_M.
  destruct (view_check a p v pages) as [host|e] eqn:Hview; [|discriminate].
  pose proof (validate_distinct_pages_spec p pages Hinv) as Hv.
  destruct (validate_distinct_pages pages p) as [p1 [u|e]]; [|discriminate].
  destruct Hv as (Hs & Hinv1 & Hd). intros [= <- <-].
  assert (transfer false p1 host (default 0 (v_data v)) pages =
          transfer false p host (default 0 (v_data v)) pages) as -> by (by destruct Hs as (? & ? & ->)).
  exists host, (transfer true p host (default 0 (v_data v)) pages).
  assert (check_pages p pages = Ok tt) as -> by (apply check_pages_Ok; apply Hd).
  split_and!; try done.
  - unfold view_check in Hview. apply bind_Ok in Hview as (? & _ & H). apply bind_Ok in H as (l & Hl & H).
    apply bind_Ok in H as (? & _ & H). by injection H as ->.
  - intros h d. apply (transfer_copies true).
  - intros h d. apply (transfer_copies false).
Qed.

(** Two live pages of the demonstration pool. *)
Definition demo_live_pool : DeviceKVPagePool * list DeviceKVPageHandle :=
  match materialize (mkReservation (Some 7) 4) 2 [] 4 None (set_counts 0 4 demo_pool) with
  | (p, Ok (_, l)) => (p, lease_handle <$> l)
  | (p, Throw _) => (p, [])
  end.

Lemma demo_live_pool_inv : pool_inv demo_live_pool.1.
Proof.
  pose proof (materialize_spec _ _ 2 [] 4 None demo_owned ltac:(lia)) as H. unfold demo_live_pool.
  destruct (materialize _ _ _ _ _ _) as [p [[r l]|e]].
  - apply (bs_inv _ _ _ _ _ _ (proj1 (proj2 H))).
  - destruct H as [-> _]. apply (ow_inv _ _ _ demo_owned).
Qed.

Lemma zero_pages_exact_witness :
  match zero_pages demo_live_pool.2 demo_live_pool.1 with
  | (_, Ok trace) => trace = [MemsetAsync 4096 0 128] /\ trace_clears trace 4200
  | _ => False
  end.
Proof.
  pose proof (zero_pages_exact demo_live_pool.1 demo_live_pool.2 demo_live_pool_inv) as H.
  destruct (zero_pages demo_live_pool.2 demo_live_pool.1) as [p' [trace|e]] eqn:E;
    [|exfalso; vm_compute in E; discriminate].
  assert (trace = [MemsetAsync 4096 0 128]) as Ht by (vm_compute in E; by injection E as <- <-).
  split; [exact Ht|]. destruct H as (_ & _ & _ & H).
  - vm_compute. repeat constructor.
  - apply H. exists (mkPage (Some 7) 1 1), (mkTensor (Some 4096) U8 [1; 64; 1; 8] [1; 1; 64; 64]).
    split; [vm_compute; right; left|]. split; [vm_compute; left|]. vm_compute. split; [discriminate|reflexivity].
Defined.

Definition demo_host_layout : HostKVPageLayout :=
  match plan_host_kv_page_layout demo_pool_geometry with
  | Ok l => l | Throw _ => mkHostLayout demo_pool_geometry [] 0 end.
Definition demo_host : Arena * HostKVAllocationView :=
  match make_arena (fun _ => Ok 65536) 1 4096 [demo_host_layout] with
  | Ok a =>
      match HostKV.allocate a demo_host_layout 2 with
      | (a, Some x) =>
          match HostKV.view a x with
          | Ok v => (a, v) | Throw _ => (a, mkView null_handle None None 0) end
      | (a, None) => (a, mkView null_handle None None 0)
      end
  | Throw _ => (HostKV.mkArena 0 None 0 0 [] [] [] [] 1, mkView null_handle None None 0)
  end.

Lemma page_transfers_mirror_witness :
  exists up down p',
    copy_to_host demo_host.1 demo_live_pool.2 demo_host.2 demo_live_pool.1 = (demo_live_pool.1, Ok up) /\
    copy_from_host demo_host.1 demo_host.2 demo_live_pool.2 demo_live_pool.1 = (p', Ok down) /\
    down = [Memcpy2DAsync 4096 64 65536 256 64 2].
Proof.
  destruct (copy_from_host demo_host.1 demo_host.2 demo_live_pool.2 demo_live_pool.1)
    as [p' [down|e]] eqn:E; [|exfalso; vm_compute in E; discriminate].
  destruct (page_transfers_mirror demo_host.1 demo_live_pool.1 demo_host.2 demo_live_pool.2 p' down
    demo_live_pool_inv E) as (host & up & Hup & _).
  exists up, down, p'. split; [exact Hup|]. split; [reflexivity|].
  vm_compute in E. by injection E as <- <-.
Defined.
