(* ===== verification/ExecutionTables.v ===== *)
(** * Execution tables (core/paged_kv_cache.cpp)

    [KVExecutionTablePool] holds one block-table row per execution slot: the physical page index of
    every logical page.  Rows are leased with generations like pages; publishing writes the pinned
    shadow of the row and uploads the written slice to the device. *)

From S2P Require Import Prelude Extents Layout KVGeometry DevicePagePool DevicePoolInvariant DevicePoolOps DevicePoolSpec DeviceTransfer Tensor.

Record KVExecutionTableSpec := mkTableSpec { logical_page_capacity : Z; table_rows : Z }.

Record KVExecutionTableLayout := mkTableLayout { tl_spec : KVExecutionTableSpec; tl_tables : TensorRegion }.

Definition checked_table_bytes (s : KVExecutionTableSpec) : result Z :=
  logical ← checked_i32 (logical_page_capacity s);
  _ ← throw_if (table_rows s <=? 0) InvalidArgument;
  let rows := table_rows s in
  _ ← throw_if (u64_max / rows / 4 <? logical) OverflowError;
  Ok (w64 (w64 (logical * rows) * 4)).

Definition plan_kv_execution_tables (s : KVExecutionTableSpec) : M Builder KVExecutionTableLayout :=
  _ ← mlift (checked_table_bytes s);
  capacity ← mlift (checked_i32 (logical_page_capacity s));
  region ← add_tensor I32 [capacity; table_rows s] 256;
  mret (mkTableLayout s region).

Definition metadata_bytes (l : KVExecutionTableLayout) : Z := r_bytes (tr_region (tl_tables l)).

(** ** State *)

Record KVExecutionRowHandle := mkRow { rw_owner : option Z; rw_row : Z; rw_generation : Z }.

Definition null_row : KVExecutionRowHandle := mkRow None (-1) 0.

(** [KVExecutionRowLease] *)
Record KVExecutionRowLease := mkRowLease { rl_owner : option Z; rl_row : Z; rl_generation : Z }.

Definition null_row_lease : KVExecutionRowLease := mkRowLease None (-1) 0.

Definition row_lease_handle (x : KVExecutionRowLease) : KVExecutionRowHandle :=
  match rl_owner x with
  | Some o => mkRow (Some o) (rl_row x) (rl_generation x)
  | None => null_row
  end.

(** [shadow] is the pinned host copy of the whole matrix, one entry per 32-bit integer. *)
Record KVExecutionTablePool := mkTables {
  tp_self : Z;
  tp_spec : KVExecutionTableSpec;
  tp_pages : Z;
  block_tables : Tensor;
  shadow : list Z;
  row_in_use : list bool;
  row_generations : list Z;
}.

Definition page_capacity (t : KVExecutionTablePool) : Z := logical_page_capacity (tp_spec t).
Definition row_count (t : KVExecutionTablePool) : Z := table_rows (tp_spec t).

Definition set_rows (in_use : list bool) (gens : list Z) (t : KVExecutionTablePool) :=
  mkTables (tp_self t) (tp_spec t) (tp_pages t) (block_tables t) (shadow t) in_use gens.
Definition set_shadow (s : list Z) (t : KVExecutionTablePool) :=
  mkTables (tp_self t) (tp_spec t) (tp_pages t) (block_tables t) s (row_in_use t) (row_generations t).

(** The constructor; [pin] gives the initial contents of the pinned buffer of that many bytes. *)
Definition make_tables (pin : Z -> result (list Z)) (this : Z) (backing : DeviceSpan)
    (l : KVExecutionTableLayout) (pages : DeviceKVPagePool) : result KVExecutionTablePool :=
  tables ← tensor_region_bind (tl_tables l) backing;
  n ← checked_table_bytes (tl_spec l);
  contents ← pin n;
  capacity ← checked_i32 (logical_page_capacity (tl_spec l));
  _ ← throw_if (negb (bool_decide (t_dtype tables = I32)) ||
                negb (nth 0 (t_ne tables) 0 =? capacity) ||
                negb (nth 1 (t_ne tables) 0 =? table_rows (tl_spec l))) LogicError;
  let rows := Z.to_nat (table_rows (tl_spec l)) in
  Ok (mkTables this (tl_spec l) (pool_self pages) tables contents (replicate rows false)
        (replicate rows 1)).

(** ** Rows *)

Definition acquire (row_index : Z) : M KVExecutionTablePool KVExecutionRowLease :=
  t ← mget;
  _ ← mthrow_if ((row_index <? 0) || (row_count t <=? row_index)) OutOfRange;
  match at_index (row_in_use t) row_index, at_index (row_generations t) row_index with
  | Some used, Some g =>
      _ ← mthrow_if used LogicError;
      _ ← mput (set_rows (set_index (row_in_use t) row_index true) (row_generations t) t);
      mret (mkRowLease (Some (tp_self t)) row_index g)
  | _, _ => mthrow OutOfRange
  end.

Definition valid_row (t : KVExecutionTablePool) (h : KVExecutionRowHandle) : bool :=
  if negb (bool_decide (rw_owner h = Some (tp_self t))) || (rw_row h <? 0) || (row_count t <=? rw_row h)
  then false
  else
    match at_index (row_in_use t) (rw_row h), at_index (row_generations t) (rw_row h) with
    | Some used, Some g => used && (g =? rw_generation h)
    | _, _ => false
    end.

Definition release_row (t : KVExecutionTablePool) (row_index gen : Z) : KVExecutionTablePool * bool :=
  if (row_index <? 0) || (row_count t <=? row_index) then (t, false)
  else
    match at_index (row_in_use t) row_index, at_index (row_generations t) row_index with
    | Some used, Some g =>
        if negb used || negb (g =? gen) then (t, false)
        else (set_rows (set_index (row_in_use t) row_index false)
                (set_index (row_generations t) row_index (increment_generation g)) t, true)
    | _, _ => (t, false)
    end.

(** [KVExecutionRowLease::release] *)
Definition row_lease_release (t : KVExecutionTablePool) (x : KVExecutionRowLease)
    : KVExecutionTablePool * KVExecutionRowLease * bool :=
  match rl_owner x with
  | None => (t, x, false)
  | Some _ => let '(t, ok) := release_row t (rl_row x) (rl_generation x) in (t, null_row_lease, ok)
  end.

(** [KVExecutionTablePool::row]: the device tensor of one row. *)
Definition row_tensor (t : KVExecutionTablePool) (h : KVExecutionRowHandle) : result Tensor :=
  _ ← throw_if (negb (valid_row t h)) InvalidArgument;
  s ← slice (block_tables t) 1 (rw_row h) 1;
  view s [page_capacity t].

(** ** Publishing *)

(** An upload of 32-bit values to a device address. *)
Record Upload := mkUpload { up_dst : option Z; up_values : list Z }.

Definition publish_indices (t : KVExecutionTablePool) (h : KVExecutionRowHandle) (logical_begin : Z)
    (indices : list Z) : result (list Upload) :=
  if bool_decide (indices = []) then Ok []
  else
    destination ← row_tensor t h;
    Ok [mkUpload (option_map (fun d => d + 4 * logical_begin) (t_data destination)) indices].

(** The position of a row's entry in the shadow. *)
Definition shadow_index (t : KVExecutionTablePool) (row_ logical : Z) : Z :=
  row_ * page_capacity t + logical.

(** The loop that fills the shadow; [index_of] is the page pool's check of one element. *)
Fixpoint fill_shadow {A} (index_of : A -> result Z) (pages : list A) (at_ : Z)
    : M KVExecutionTablePool (list Z) :=
  match pages with
  | [] => mret []
  | x :: pages =>
      i ← mlift (index_of x);
      _ ← mmodify (fun t => set_shadow (set_index (shadow t) at_ i) t);
      rest ← fill_shadow index_of pages (at_ + 1);
      mret (i :: rest)
  end.

Definition publish_with {A} (index_of : A -> result Z) (h : KVExecutionRowHandle) (logical_begin : Z)
    (pages : list A) : M KVExecutionTablePool (list Upload) :=
  t ← mget;
  _ ← mthrow_if (negb (valid_row t h) || (page_capacity t <? logical_begin) ||
                 (w32 (page_capacity t - logical_begin) <? Z.of_nat (length pages))) InvalidArgument;
  indices ← fill_shadow index_of pages (shadow_index t (rw_row h) logical_begin);
  t ← mget;
  mlift (publish_indices t h logical_begin indices).

(** The two overloads of [publish]; [p] is the page pool the tables refer to. *)
Definition publish (p : DeviceKVPagePool) (h : KVExecutionRowHandle) (logical_begin : Z)
    (pages : list DeviceKVPageHandle) : M KVExecutionTablePool (list Upload) :=
  publish_with (physical_index p) h logical_begin pages.

Definition lease_index (p : DeviceKVPagePool) (x : DeviceKVPageLease) : result Z :=
  _ ← throw_if (negb (lease_belongs_to p x)) InvalidArgument;
  physical_index p (lease_handle x).

Definition publish_leases (p : DeviceKVPagePool) (h : KVExecutionRowHandle) (logical_begin : Z)
    (pages : list DeviceKVPageLease) : M KVExecutionTablePool (list Upload) :=
  publish_with (lease_index p) h logical_begin pages.

Definition publish_repeated (p : DeviceKVPagePool) (h : KVExecutionRowHandle) (page : DeviceKVPageHandle)
    (count : Z) : M KVExecutionTablePool (list Upload) :=
  t ← mget;
  _ ← mthrow_if (negb (valid_row t h) || (page_capacity t <? count)) InvalidArgument;
  physical ← mlift (physical_index p page);
  let values := replicate (Z.to_nat count) physical in
  let first := shadow_index t (rw_row h) 0 in
  let s := imap (fun i v => if decide (first <= Z.of_nat i < first + count) then physical else v) (shadow t) in
  _ ← mput (set_shadow s t);
  t ← mget;
  mlift (publish_indices t h 0 values).

(** ** Invariant *)

Record tables_inv (t : KVExecutionTablePool) : Prop := {
  ti_capacity : 0 < page_capacity t <= i32_max;
  ti_rows : 0 < row_count t <= i32_max;
  ti_in_use : Z.of_nat (length (row_in_use t)) = row_count t;
  ti_gens : Z.of_nat (length (row_generations t)) = row_count t;
  ti_generation : forall i g, at_index (row_generations t) i = Some g -> 1 <= g <= u32_max;
  ti_shadow : Z.of_nat (length (shadow t)) = page_capacity t * row_count t;
  ti_bytes : 4 * page_capacity t * row_count t <= i64_max;
  ti_tensor : block_tables t =
    mkTensor (t_data (block_tables t)) I32 [page_capacity t; row_count t; 1; 1]
      [4; 4 * page_capacity t; 4 * page_capacity t * row_count t; 4 * page_capacity t * row_count t];
}.

Lemma valid_row_iff t h :
  tables_inv t ->
  valid_row t h = true <->
  rw_owner h = Some (tp_self t) /\ at_index (row_in_use t) (rw_row h) = Some true /\
  at_index (row_generations t) (rw_row h) = Some (rw_generation h).
Proof.
  intros Hinv. unfold valid_row.
  destruct (bool_decide (rw_owner h = Some (tp_self t))) eqn:Ho; cbn [negb orb].
  2: { apply bool_decide_eq_false in Ho. split; [discriminate|]. by intros (? & _). }
  apply bool_decide_eq_true in Ho. pose proof (ti_in_use _ Hinv).
  destruct (Z.ltb_spec (rw_row h) 0); cbn [orb].
  { split; [discriminate|]. intros (_ & Ha%at_index_lt & _). lia. }
  destruct (Z.leb_spec (row_count t) (rw_row h)).
  { split; [discriminate|]. intros (_ & Ha%at_index_lt & _). lia. }
  destruct (at_index (row_in_use t) (rw_row h)) as [[]|],
    (at_index (row_generations t) (rw_row h)) as [g|]; cbn [andb];
    try (split; [discriminate|]; intros (_ & ? & ?); discriminate).
  rewrite Z.eqb_eq. split; [intros ->; done|]. by intros (_ & _ & [= ->]).
Qed.

Lemma row_contiguous c x y :
  0 < c <= i32_max -> contiguous_from 4 [c; 1; 1; 1] [4; 4 * c; x; y] = true.
Proof.
  intros Hc. cbn [contiguous_from]. rewrite (proj2 (Z.leb_gt c 0)) by lia.
  rewrite Z.eqb_refl. cbn [negb]. rewrite andb_false_r.
  destruct (Z.eqb_spec c 1) as [->|Hne]; [done|].
  by rewrite checked_mul_i64_spec, decide_True by lia.
Qed.

Lemma normalize_row c : 0 < c -> normalize_shape [c] = Ok [c; 1; 1; 1].
Proof. intros Hc. unfold normalize_shape. cbn. by rewrite (proj2 (Z.leb_gt c 0)) by lia. Qed.

Lemma make_row d c :
  0 < c <= i32_max -> make_tensor d I32 [c] = Ok (mkTensor d I32 [c; 1; 1; 1] [4; 4 * c; 4 * c; 4 * c]).
Proof.
  intros Hc. pose proof (make_tensor_4 d I32 c 1 1 1) as H. unfold make_tensor in *.
  rewrite normalize_row by lia. rewrite normalize_shape_4 in H by lia. cbn [mbind result_bind] in *.
  rewrite H by (cbn [dtype_size]; lia). cbn [dtype_size]. by rewrite !Z.mul_1_r.
Qed.

(** The row tensor is the row's slice of the matrix. *)
Lemma row_tensor_eq t h :
  tables_inv t -> valid_row t h = true ->
  exists r, row_tensor t h = Ok r /\
    t_data r = option_map (fun d => d + rw_row h * (4 * page_capacity t)) (t_data (block_tables t)).
Proof.
  intros Hinv Hv. unfold row_tensor. rewrite Hv. cbn [negb throw_if mbind result_bind].
  pose proof (ti_capacity _ Hinv). pose proof (ti_rows _ Hinv). pose proof (ti_in_use _ Hinv).
  apply valid_row_iff in Hv as (_ & Hu%at_index_lt & _); [|done].
  pose proof (ti_bytes _ Hinv). rewrite (ti_tensor _ Hinv). unfold slice. cbn [Z.ltb Z.compare orb Z.leb t_ne t_nb t_data t_dtype dtype_size].
  change (default 0 (at_index [page_capacity t; row_count t; 1; 1] 1)) with (row_count t).
  destruct (Z.ltb_spec (rw_row h) 0); [lia|]. destruct (Z.leb_spec 1 0); [lia|].
  destruct (Z.ltb_spec (row_count t) (rw_row h)); [lia|].
  destruct (Z.ltb_spec (row_count t - rw_row h) 1); [lia|]. cbn [orb].
  change (default 0 (at_index [4; 4 * page_capacity t; 4 * page_capacity t * row_count t;
    4 * page_capacity t * row_count t] 1)) with (4 * page_capacity t).
  rewrite checked_mul_i64_spec, decide_True by nia. cbn [mbind result_bind].
  set (d := match t_data (block_tables t) with Some p => _ | None => _ end).
  change (set_index [page_capacity t; row_count t; 1; 1] 1 1) with [page_capacity t; 1; 1; 1].
  change (4 <=? 1) with false. cbn [mbind result_bind].
  unfold view, is_contiguous. cbn [t_ne t_nb t_dtype t_data dtype_size].
  rewrite row_contiguous by lia. cbn [negb throw_if mbind result_bind].
  rewrite normalize_row by lia. cbn [mbind result_bind]. unfold numel. cbn [t_ne].
  rewrite shape_numel_4, decide_True by lia. cbn [mbind result_bind]. rewrite Z.eqb_refl.
  cbn [negb throw_if mbind result_bind]. rewrite make_row by lia.
  eexists. split; [reflexivity|]. cbn [t_data]. unfold d.
  destruct (t_data (block_tables t)); cbn; done.
Qed.

(** ** Row leases *)

Lemma set_rows_inv t in_use gens :
  tables_inv t -> length in_use = length (row_in_use t) -> length gens = length (row_generations t) ->
  (forall i g, at_index gens i = Some g -> 1 <= g <= u32_max) -> tables_inv (set_rows in_use gens t).
Proof. intros [] Hu Hg Hr. split; try done; cbn; by rewrite ?Hu, ?Hg. Qed.

Lemma acquire_cases t i :
  tables_inv t ->
  acquire i t =
    if decide (0 <= i < row_count t)
    then match at_index (row_in_use t) i, at_index (row_generations t) i with
         | Some false, Some g =>
             (set_rows (set_index (row_in_use t) i true) (row_generations t) t,
              Ok (mkRowLease (Some (tp_self t)) i g))
         | _, _ => (t, Throw LogicError)
         end
    else (t, Throw OutOfRange).
Proof.
  intros Hinv. unfold acquire. unfold_M. pose proof (ti_in_use _ Hinv). pose proof (ti_gens _ Hinv).
  destruct (Z.ltb_spec i 0); cbn [orb]; [rewrite decide_False; [done|lia]|].
  destruct (Z.leb_spec (row_count t) i); [rewrite decide_False; [done|lia]|]. rewrite decide_True by lia.
  destruct (at_index_is_Some (row_in_use t) i) as [u Hu]; [lia|].
  destruct (at_index_is_Some (row_generations t) i) as [g Hg]; [lia|]. rewrite Hu, Hg. by destruct u.
Qed.

(** C20: A row has at most one lease at a time.  [acquire] succeeds exactly on a row in range that no
    live handle names (otherwise it throws and changes nothing); the lease it returns is the row's
    only valid handle, a second [acquire] throws, other rows are unaffected; and after the
    lease is released its handle is stale and the row can be bound again, under a different handle. *)
Theorem execution_row_exclusive t i :
  tables_inv t ->
  match acquire i t with
  | (t', Ok x) =>
      tables_inv t' /\ 0 <= i < row_count t /\
      (forall g, valid_row t (mkRow (Some (tp_self t)) i g) = false) /\
      (forall g, valid_row t' (mkRow (Some (tp_self t)) i g) = true <-> mkRow (Some (tp_self t)) i g = row_lease_handle x) /\
      (forall h, rw_row h <> i -> valid_row t' h = valid_row t h) /\
      acquire i t' = (t', Throw LogicError) /\
      exists t2 y t3, row_lease_release t' x = (t2, null_row_lease, true) /\ tables_inv t2 /\
        valid_row t2 (row_lease_handle x) = false /\
        acquire i t2 = (t3, Ok y) /\ row_lease_handle y <> row_lease_handle x
  | (t', Throw e) =>
      t' = t /\
      ((e = OutOfRange /\ ~ 0 <= i < row_count t) \/
       (e = LogicError /\ exists g, valid_row t (mkRow (Some (tp_self t)) i g) = true))
  end.
Proof.
  intros Hinv. rewrite acquire_cases by done. pose proof (ti_in_use _ Hinv). pose proof (ti_gens _ Hinv).
  case_decide as Hi; [|split; [done|by left]].
  destruct (at_index_is_Some (row_in_use t) i) as [u Hu]; [lia|].
  destruct (at_index_is_Some (row_generations t) i) as [g Hg]; [lia|]. rewrite Hu, Hg. destruct u.
  { split; [done|]. right. split; [done|]. exists g. by apply valid_row_iff. }
  set (t' := set_rows _ _ t).
  assert (tables_inv t') as Hinv'.
  { apply set_rows_inv; [done|by rewrite length_set_index|done|apply (ti_generation _ Hinv)]. }
  assert (at_index (row_in_use t') i = Some true) as Hu'.
  { cbn. apply at_set_index_eq. lia. }
  pose proof (ti_generation _ Hinv _ _ Hg) as Hgr.
  split_and!; try done; try lia.
  - intros g'. destruct (valid_row _ _) eqn:E; [|done]. apply valid_row_iff in E as (_ & E & _); [|done].
    cbn in E. congruence.
  - intros g'. rewrite valid_row_iff by done. cbn. rewrite Hg. split.
    + by intros (_ & _ & [= ->]).
    + intros [= ->]. split_and!; [done|apply Hu'|done].
  - intros h Hne. unfold valid_row. cbn. rewrite at_set_index_ne by (lia || done). done.
  - rewrite acquire_cases by done. rewrite decide_True by done. by rewrite Hu'.
  - unfold row_lease_release, release_row. cbn [rl_owner rl_row rl_generation].
    destruct (Z.ltb_spec i 0); [lia|]. change (row_count t') with (row_count t).
    destruct (Z.leb_spec (row_count t) i); [lia|]. cbn [orb]. rewrite Hu'.
    change (row_generations t') with (row_generations t). rewrite Hg, Z.eqb_refl. cbn [negb orb].
    set (t2 := set_rows _ _ t').
    assert (tables_inv t2) as Hinv2.
    { apply set_rows_inv; [done|by rewrite length_set_index|by rewrite length_set_index|].
      intros j g' Hj. destruct (decide (j = i)) as [->|Hne].
      - rewrite at_set_index_eq in Hj by lia. injection Hj as <-.
        pose proof (increment_generation_range g). lia.
      - rewrite at_set_index_ne in Hj by (lia || done). by apply (ti_generation _ Hinv j). }
    assert (at_index (row_in_use t2) i = Some false) as Hu2.
    { cbn. apply at_set_index_eq. rewrite length_set_index. lia. }
    assert (at_index (row_generations t2) i = Some (increment_generation g)) as Hg2.
    { cbn. apply at_set_index_eq. lia. }
    exists t2. do 2 eexists. split_and!; [done|done| | |].
    + destruct (valid_row t2 _) eqn:E; [|done]. apply valid_row_iff in E as (_ & E & _); [|done].
      cbn [row_lease_handle rl_owner rw_row rl_row] in E. congruence.
    + rewrite acquire_cases by done. rewrite decide_True by done. rewrite Hu2, Hg2. reflexivity.
    + cbn. intros [= E]. by apply (increment_generation_neq g).
Qed.

(** ** Publishing *)

Lemma fill_shadow_spec {A} (f : A -> result Z) pages : forall at_ t,
  0 <= at_ -> at_ + Z.of_nat (length pages) <= Z.of_nat (length (shadow t)) ->
  exists s, length s = length (shadow t) /\
    (forall k, ~ at_ <= Z.of_nat k < at_ + Z.of_nat (length pages) -> s !! k = shadow t !! k) /\
    match fill_shadow f pages at_ t with
    | (t', Ok idxs) => t' = set_shadow s t /\ Forall2 (fun x i => f x = Ok i) pages idxs /\
        (forall k i, idxs !! k = Some i -> s !! (Z.to_nat at_ + k)%nat = Some i)
    | (t', Throw e) => t' = set_shadow s t /\ exists x, x ∈ pages /\ f x = Throw e
    end.
Proof.
  induction pages as [|x pages IH]; intros at_ t Hat Hlen; cbn [fill_shadow length]; unfold_M.
  { exists (shadow t). split_and!; [done|done|by destruct t|constructor|]. intros k i Hk.
    by rewrite lookup_nil in Hk. }
  destruct (f x) as [i|e] eqn:Hf.
  2: { exists (shadow t). split_and!; [done|done|by destruct t|]. exists x. split; [by left|done]. }
  cbn [length] in Hlen.
  destruct (IH (at_ + 1) (set_shadow (set_index (shadow t) at_ i) t)) as (s & Hs & Hout & Hres); [lia| |].
  { cbn. rewrite length_set_index. lia. }
  cbn [shadow set_shadow] in *. rewrite length_set_index in Hs.
  exists s. split_and!; [done| |].
  - intros k Hk. rewrite Hout by lia. unfold set_index. rewrite list_lookup_insert_ne; [done|lia].
  - destruct (fill_shadow f pages (at_ + 1) _) as [t' [idxs|e]].
    + destruct Hres as (-> & Hall & Hin). split_and!; [done|by constructor|].
      intros [|k] j Hk; cbn in Hk.
      * injection Hk as <-. rewrite Nat.add_0_r, Hout by lia. unfold set_index.
        apply list_lookup_insert_eq. lia.
      * rewrite <- (Hin _ _ Hk). f_equal. lia.
    + destruct Hres as (-> & y & Hy & Hfy). split; [done|]. exists y. split; [by right|done].
Qed.

Lemma set_shadow_inv t s :
  tables_inv t -> length s = length (shadow t) -> tables_inv (set_shadow s t).
Proof. intros [] Hs. split; try done. cbn. by rewrite Hs. Qed.

(** The shadow and device positions of a row's slice. *)
Definition slice_of (t : KVExecutionTablePool) (h : KVExecutionRowHandle) (b : Z) (n : nat) (k : nat) : Prop :=
  shadow_index t (rw_row h) b <= Z.of_nat k < shadow_index t (rw_row h) b + Z.of_nat n.

Lemma publish_indices_eq t h b indices :
  tables_inv t -> valid_row t h = true ->
  publish_indices t h b indices =
    Ok (if bool_decide (indices = []) then []
        else [mkUpload (option_map (fun d => d + 4 * shadow_index t (rw_row h) b) (t_data (block_tables t)))
                indices]).
Proof.
  intros Hinv Hv. unfold publish_indices. case_bool_decide; [done|].
  destruct (row_tensor_eq t h Hinv Hv) as (r & -> & Hr). cbn [mbind result_bind]. rewrite Hr.
  do 3 f_equal. unfold shadow_index. destruct (t_data (block_tables t)); cbn; [|done]. f_equal. lia.
Qed.

Lemma publish_with_spec {A} (f : A -> result Z) t h b pages :
  tables_inv t -> 0 <= b <= u32_max ->
  exists s, length s = length (shadow t) /\
    (forall k, ~ slice_of t h b (length pages) k -> s !! k = shadow t !! k) /\
    match publish_with f h b pages t with
    | (t', Ok up) =>
        t' = set_shadow s t /\ valid_row t h = true /\ b + Z.of_nat (length pages) <= page_capacity t /\
        exists idxs, Forall2 (fun x i => f x = Ok i) pages idxs /\
          (forall k i, idxs !! k = Some i -> s !! (Z.to_nat (shadow_index t (rw_row h) b) + k)%nat = Some i) /\
          up = if bool_decide (idxs = []) then []
               else [mkUpload (option_map (fun d => d + 4 * shadow_index t (rw_row h) b)
                                 (t_data (block_tables t))) idxs]
    | (t', Throw e) =>
        t' = set_shadow s t /\
        ((e = InvalidArgument /\ (valid_row t h = false \/ page_capacity t < b + Z.of_nat (length pages))) \/
         exists x, x ∈ pages /\ f x = Throw e)
    end.
Proof.
  intros Hinv Hb. unfold publish_with. unfold_M. pose proof (ti_capacity _ Hinv).
  assert (t = set_shadow (shadow t) t) as Hid by by destruct t.
  destruct (valid_row t h) eqn:Hv; cbn [negb orb].
  2: { exists (shadow t). split_and!; [done|done|done|]. left. auto. }
  destruct (Z.ltb_spec (page_capacity t) b); cbn [orb].
  { exists (shadow t). split_and!; [done|done|done|]. left. split; [done|]. right. lia. }
  rewrite w32_small by lia.
  destruct (Z.ltb_spec (page_capacity t - b) (Z.of_nat (length pages))).
  { exists (shadow t). split_and!; [done|done|done|]. left. split; [done|]. right. lia. }
  pose proof Hv as (_ & Hu%at_index_lt & _)%valid_row_iff; [|done].
  pose proof (ti_in_use _ Hinv). pose proof (ti_shadow _ Hinv) as Hsh.
  destruct (fill_shadow_spec f pages (shadow_index t (rw_row h) b) t) as (s & Hs & Hout & Hres).
  { unfold shadow_index. nia. }
  { rewrite Hsh. unfold shadow_index. nia. }
  exists s. split_and!; [done|exact Hout|].
  destruct (fill_shadow f pages _ t) as [t' [idxs|e]].
  - destruct Hres as (-> & Hall & Hin). pose proof (set_shadow_inv t s Hinv Hs) as Hinv'.
    rewrite publish_indices_eq by done. split_and!; [done|done|lia|]. exists idxs. done.
  - destruct Hres as (-> & Hx). split; [done|]. by right.
Qed.

(** [publish] writes the physical indices of live pages to exactly one slice of one row: on success
    the shadow holds the pages' indices there and is unchanged everywhere else, and the one upload
    carries them to the same positions of the device matrix; on failure - a stale row, a slice outside
    the row, a stale page - the error is an argument error, no upload happens and nothing outside the
    row's slice has changed. *)
Theorem publish_exact p t h b pages :
  tables_inv t -> 0 <= b <= u32_max ->
  exists s, length s = length (shadow t) /\
    (forall k, ~ slice_of t h b (length pages) k -> s !! k = shadow t !! k) /\
    match publish p h b pages t with
    | (t', Ok up) =>
        t' = set_shadow s t /\ valid_row t h = true /\ b + Z.of_nat (length pages) <= page_capacity t /\
        Forall (fun x => valid_page p x = true) pages /\
        (forall k x, pages !! k = Some x ->
           s !! (Z.to_nat (shadow_index t (rw_row h) b) + k)%nat = Some (pg_index x)) /\
        up = (if bool_decide (pages = []) then []
              else [mkUpload (option_map (fun d => d + 4 * shadow_index t (rw_row h) b)
                                (t_data (block_tables t))) (pg_index <$> pages)])
    | (t', Throw e) =>
        t' = set_shadow s t /\ e = InvalidArgument /\
        (valid_row t h = false \/ page_capacity t < b + Z.of_nat (length pages) \/
         exists x, x ∈ pages /\ valid_page p x = false)
    end.
Proof.
  intros Hinv Hb. destruct (publish_with_spec (physical_index p) t h b pages Hinv Hb) as (s & Hs & Hout & H).
  exists s. split_and!; [done..|]. unfold publish.
  destruct (publish_with _ _ _ _ _) as [t' [up|e]].
  - destruct H as (-> & Hv & Hb' & idxs & Hall & Hin & ->).
    assert (Forall (fun x => valid_page p x = true) pages /\ idxs = pg_index <$> pages) as [Hlive ->].
    { clear -Hall. induction Hall as [|x i pages idxs Hx _ [IH1 ->]]; [by split|].
      unfold physical_index in Hx. destruct (valid_page p x) eqn:E; [|discriminate]. injection Hx as <-.
      split; [by constructor|done]. }
    split_and!; try done.
    + intros k x Hk. apply Hin. by rewrite list_lookup_fmap, Hk.
    + by destruct pages.
  - destruct H as (-> & [[-> [Hv|Hlt]]|(x & Hx & Hf)]); [by auto..|].
    unfold physical_index in Hf. destruct (valid_page p x) eqn:E; [discriminate|]. injection Hf as <-.
    split_and!; [done|done|]. right. right. eauto.
Qed.

(** ** Construction establishes the invariant *)

Lemma checked_i32_Ok v z : 0 <= v -> checked_i32 v = Ok z -> z = v /\ 0 < v <= i32_max.
Proof.
  intros Hv. unfold checked_i32. destruct (Z.eqb_spec v 0); [discriminate|].
  destruct (Z.ltb_spec i32_max v); [discriminate|]. cbn. intros [= <-]. lia.
Qed.

Lemma tensor_region_bind_Ok r backing t :
  tensor_region_bind r backing = Ok t -> tensor_ok t /\ t_dtype t = tr_dtype r /\
  exists ne, normalize_shape (tr_shape r) = Ok ne /\ t_ne t = ne.
Proof.
  unfold tensor_region_bind. rewrite bind_Ok. intros (x & _ & H).
  apply bind_Ok in H as (n & _ & H). apply bind_Ok in H as (? & _ & H).
  apply bind_Ok in H as (sp & _ & H). pose proof H as (Hok & _ & Hdt)%make_tensor_Ok.
  split_and!; [done|done|]. unfold make_tensor in H. apply bind_Ok in H as (ne & Hne & H).
  apply bind_Ok in H as (nb & _ & [= <-]). by exists ne.
Qed.

Lemma at_index_replicate {A} n (x y : A) i : at_index (replicate n x) i = Some y -> y = x.
Proof. unfold at_index. case_decide; [|done]. by intros [-> _]%lookup_replicate. Qed.

(** Tables made from a planned layout, over a pinned buffer of the requested size. *)
Lemma make_tables_inv pin this backing s b b' l pages t :
  0 <= logical_page_capacity s -> table_rows s <= i32_max ->
  (forall n contents, pin n = Ok contents -> 4 * Z.of_nat (length contents) = n) ->
  plan_kv_execution_tables s b = (b', Ok l) ->
  make_tables pin this backing l pages = Ok t ->
  tables_inv t /\ (forall h, valid_row t h = false).
Proof.
  intros Hcap0 Hrows Hpin Hplan Hmake.
  unfold plan_kv_execution_tables, add_tensor in Hplan. unfold_M.
  destruct (checked_table_bytes s) as [n0|] eqn:Hbytes; [|discriminate].
  destruct (checked_i32 (logical_page_capacity s)) as [c|] eqn:Hc; [|discriminate].
  apply checked_i32_Ok in Hc as [-> Hc]; [|done].
  destruct (make_tensor None I32 _) as [x|]; [|discriminate].
  destruct (bytes x) as [n1|]; [|discriminate].
  destruct (add n1 256 b) as [b1 [reg|]]; [|discriminate]. injection Hplan as <- <-.
  unfold make_tables in Hmake. cbn [tl_tables tl_spec] in Hmake.
  apply bind_Ok in Hmake as (bt & Hbt & Hmake).
  apply bind_Ok in Hmake as (n & Hn & Hmake). rewrite Hbytes in Hn. injection Hn as <-.
  apply bind_Ok in Hmake as (contents & Hcont & Hmake). apply Hpin in Hcont.
  apply bind_Ok in Hmake as (c & Hc' & Hmake). apply checked_i32_Ok in Hc' as [-> _]; [|done].
  apply bind_Ok in Hmake as (? & _ & [= <-]).
  apply tensor_region_bind_Ok in Hbt as (Hok & Hdt & ne & Hne & Hbt). cbn [tr_dtype tr_shape] in *.
  unfold checked_table_bytes in Hbytes. apply bind_Ok in Hbytes as (c & Hc' & Hbytes).
  apply checked_i32_Ok in Hc' as [-> _]; [|done].
  apply bind_Ok in Hbytes as (? & Hr%throw_if_Ok & Hbytes). apply Z.leb_gt in Hr.
  apply bind_Ok in Hbytes as (? & _ & [= <-]).
  cbn [copy_shape length drop app] in Hne.
  change (copy_shape _) with [logical_page_capacity s; table_rows s; 1; 1] in Hne.
  rewrite normalize_shape_4 in Hne by lia. injection Hne as <-.
  destruct Hok as [(a & b2 & c & d & Hs & ? & ? & ? & ? & Hnb & Hmax)].
  rewrite Hbt in Hs. injection Hs as <- <- <- <-. rewrite Hdt in Hnb, Hmax. cbn [dtype_size] in *.
  rewrite (w64_small (logical_page_capacity s * table_rows s)) in Hcont by nia.
  rewrite w64_small in Hcont by nia.
  assert (tables_inv (mkTables this s (pool_self pages) bt contents
    (replicate (Z.to_nat (table_rows s)) false) (replicate (Z.to_nat (table_rows s)) 1))) as Hinv.
  { split; unfold page_capacity, row_count; cbn -[at_index replicate].
    - lia.
    - lia.
    - rewrite length_replicate. lia.
    - rewrite length_replicate. lia.
    - intros i g Hg%at_index_replicate. lia.
    - lia.
    - lia.
    - destruct bt as [dt0 ty ne nb]. cbn in *. subst. by rewrite !Z.mul_1_r. }
  split; [done|]. intros h. destruct (valid_row _ h) eqn:E; [|done].
  apply valid_row_iff in E as (_ & E%at_index_replicate & _); done.
Qed.

(** Two rows of four logical pages at address 8192. *)
Definition demo_table_spec : KVExecutionTableSpec := mkTableSpec 4 2.
Definition demo_pin (n : Z) : result (list Z) := Ok (replicate (Z.to_nat (n / 4)) 0).
Definition demo_table_layout : KVExecutionTableLayout :=
  match plan_kv_execution_tables demo_table_spec builder_init with
  | (_, Ok l) => l
  | _ => mkTableLayout demo_table_spec (mkTensorRegion (mkRegion 0 0 0) I32 [])
  end.
Definition demo_tables : KVExecutionTablePool :=
  match make_tables demo_pin 3 (mkSpan (Some 8192) 32) demo_table_layout demo_pool with
  | Ok t => t
  | Throw _ => mkTables 0 demo_table_spec 0 (mkTensor None I32 [] []) [] [] []
  end.
Definition demo_bound_tables : KVExecutionTablePool := (acquire 1 demo_tables).1.

Lemma demo_bound_tables_inv : tables_inv demo_bound_tables.
Proof.
  assert (demo_bound_tables = mkTables 3 demo_table_spec 7
    (mkTensor (Some 8192) I32 [4; 2; 1; 1] [4; 16; 32; 32]) (replicate 8 0) [false; true] [1; 1]) as ->
    by (vm_compute; reflexivity).
  split; cbn -[at_index]; try lia; try reflexivity.
  intros i g Hg%(at_index_replicate 2). lia.
Qed.

Lemma execution_row_exclusive_witness :
  exists t x, acquire 0 demo_bound_tables = (t, Ok x) /\
    row_lease_handle x = mkRow (Some 3) 0 1 /\
    valid_row t (mkRow (Some 3) 0 1) = true /\ acquire 0 t = (t, Throw LogicError).
Proof.
  pose proof (execution_row_exclusive demo_bound_tables 0 demo_bound_tables_inv) as H.
  destruct (acquire 0 demo_bound_tables) as [t [x|e]] eqn:E; [|exfalso; vm_compute in E; discriminate].
  destruct H as (_ & _ & _ & Hv & _ & Ha & _). exists t, x.
  assert (row_lease_handle x = mkRow (Some 3) 0 1) as Hx by (vm_compute in E; by injection E as <- <-).
  split; [reflexivity|]. split; [exact Hx|]. split; [|exact Ha].
  apply (Hv 1). rewrite Hx. reflexivity.
Defined.

Lemma publish_exact_witness :
  match publish demo_live_pool.1 (mkRow (Some 3) 1 1) 2 demo_live_pool.2 demo_bound_tables with
  | (t, Ok up) => shadow t = [0; 0; 0; 0; 0; 0; 0; 1] /\ up = [mkUpload (Some 8216) [0; 1]]
  | _ => False
  end.
Proof.
  destruct (publish_exact demo_live_pool.1 demo_bound_tables (mkRow (Some 3) 1 1) 2 demo_live_pool.2
              demo_bound_tables_inv ltac:(lia)) as (s & _ & _ & H).
  destruct (publish demo_live_pool.1 _ 2 demo_live_pool.2 demo_bound_tables) as [t [up|e]] eqn:E.
  - destruct H as (_ & _ & _ & _ & _ & Hup). split; [|rewrite Hup; reflexivity].
    vm_compute in E. by injection E as <- <-.
  - vm_compute in E. discriminate.
Defined.
