(* ===== verification/KVPages.v ===== *)
(** * Logical KV pages (models/qwen3_5/program/storage/kv_store.h)

    [LogicalKVPageStore]: a logical page has a stable descriptor, its committed columns with a
    content epoch, reference counts, and replicas: at most one device page, possibly a second one
    that a restore is filling, and at most one page of a host extent.  The device pages are leases
    of a [DeviceKVPagePool].  [noexcept] members turn an exception into [Terminate]; a read past a
    vector's end is [Terminate] too. *)

From S2P Require Import Prelude KVGeometry Extents Tensor DevicePagePool.

Module LogicalKVPageStore.

(** ** Data *)

Record HostKVExtentCapability := mkExtentCap { xc_owner : option Z; xc_index : Z; xc_generation : Z }.

#[export] Instance HostKVExtentCapability_eq_dec : EqDecision HostKVExtentCapability.
Proof. solve_decision. Defined.

Definition null_extent : HostKVExtentCapability := mkExtentCap None 0 0.
Definition extent_valid (x : HostKVExtentCapability) : bool := negb (bool_decide (xc_owner x = None)).

Record HostKVPageReplica := mkHostReplica {
  hr_extent : HostKVExtentCapability;
  hr_page_offset : Z;
  hr_membership_node : Z;
  hr_content_epoch : Z;
  hr_committed_columns : Z;
}.

Record LogicalKVPageHandle := mkLogical { lh_owner : option Z; lh_index : Z; lh_generation : Z }.

#[export] Instance LogicalKVPageHandle_eq_dec : EqDecision LogicalKVPageHandle.
Proof. solve_decision. Defined.

Definition null_logical : LogicalKVPageHandle := mkLogical None 0 0.
Definition handle_valid (h : LogicalKVPageHandle) : bool := negb (bool_decide (lh_owner h = None)).

Record Page := mkPageRec {
  generation : Z;
  content_epoch_ : Z;
  committed_columns_ : Z;
  references : Z;
  active_references : Z;
  protected_columns_ : Z;
  source_pins_ : Z;
  writer_references_ : Z;
  destination_pinned : bool;
  occupied : bool;
  device_replica : option DeviceKVPageLease;
  pending_device_replica : option DeviceKVPageLease;
  host_replica_ : option HostKVPageReplica;
}.

Definition initial_page : Page := mkPageRec 1 0 0 0 0 0 0 0 false false None None None.

(** Assignments to groups of fields. *)
Definition set_slot (gen : Z) (occ : bool) (pg : Page) : Page :=
  mkPageRec gen (content_epoch_ pg) (committed_columns_ pg) (references pg) (active_references pg)
    (protected_columns_ pg) (source_pins_ pg) (writer_references_ pg) (destination_pinned pg) occ
    (device_replica pg) (pending_device_replica pg) (host_replica_ pg).
Definition set_content (epoch committed protected : Z) (pg : Page) : Page :=
  mkPageRec (generation pg) epoch committed (references pg) (active_references pg)
    protected (source_pins_ pg) (writer_references_ pg) (destination_pinned pg) (occupied pg)
    (device_replica pg) (pending_device_replica pg) (host_replica_ pg).
Definition set_refs (refs active writer : Z) (pg : Page) : Page :=
  mkPageRec (generation pg) (content_epoch_ pg) (committed_columns_ pg) refs active
    (protected_columns_ pg) (source_pins_ pg) writer (destination_pinned pg) (occupied pg)
    (device_replica pg) (pending_device_replica pg) (host_replica_ pg).
Definition set_pins (pins : Z) (pinned : bool) (pg : Page) : Page :=
  mkPageRec (generation pg) (content_epoch_ pg) (committed_columns_ pg) (references pg)
    (active_references pg) (protected_columns_ pg) pins (writer_references_ pg) pinned (occupied pg)
    (device_replica pg) (pending_device_replica pg) (host_replica_ pg).
Definition set_device (device pending : option DeviceKVPageLease) (pg : Page) : Page :=
  mkPageRec (generation pg) (content_epoch_ pg) (committed_columns_ pg) (references pg)
    (active_references pg) (protected_columns_ pg) (source_pins_ pg) (writer_references_ pg)
    (destination_pinned pg) (occupied pg) device pending (host_replica_ pg).
Definition set_host (host : option HostKVPageReplica) (pg : Page) : Page :=
  mkPageRec (generation pg) (content_epoch_ pg) (committed_columns_ pg) (references pg)
    (active_references pg) (protected_columns_ pg) (source_pins_ pg) (writer_references_ pg)
    (destination_pinned pg) (occupied pg) (device_replica pg) (pending_device_replica pg) host.

Record Store := mkStore {
  st_self : Z;
  physical_ : DeviceKVPagePool;
  pages_ : list Page;
  free_ : list Z;
  scratch_capacity : Z;
  free_count_ : Z;
}.

Definition set_physical (p : DeviceKVPagePool) (s : Store) : Store :=
  mkStore (st_self s) p (pages_ s) (free_ s) (scratch_capacity s) (free_count_ s).
Definition set_pages (pages : list Page) (s : Store) : Store :=
  mkStore (st_self s) (physical_ s) pages (free_ s) (scratch_capacity s) (free_count_ s).
Definition set_free (free : list Z) (count : Z) (s : Store) : Store :=
  mkStore (st_self s) (physical_ s) (pages_ s) free (scratch_capacity s) count.
Definition set_page_at (i : Z) (pg : Page) (s : Store) : Store :=
  set_pages (set_index (pages_ s) i pg) s.

Definition capacity (s : Store) : Z := Z.of_nat (length (pages_ s)).
Definition occupied_pages (s : Store) : Z := w32 (capacity s - free_count_ s).

(** The constructor of [LogicalKVPageStore]. *)
Definition make_store (this : Z) (physical : DeviceKVPagePool) (logical_capacity : Z) : result Store :=
  _ ← throw_if ((logical_capacity =? 0) || (logical_capacity <? capacity_pages physical)) InvalidArgument;
  let n := Z.to_nat logical_capacity in
  Ok (mkStore this physical (replicate n initial_page)
        ((fun index => logical_capacity - 1 - Z.of_nat index) <$> seq 0 n)
        (capacity_pages physical) logical_capacity).

(** ** Effects *)

(** A call of the device pool. *)
Definition on_pool {A} (m : M DeviceKVPagePool A) : M Store A := fun s =>
  let '(p, r) := m (physical_ s) in (set_physical p s, r).

(** The destructor of the lease an [std::optional] holds. *)
Definition destroy_optional (x : option DeviceKVPageLease) (p : DeviceKVPagePool) : DeviceKVPagePool :=
  match x with Some x => (lease_release p x).1.1 | None => p end.

(** The exceptions that leave a [noexcept] member. *)
Definition noexcept {S A} (m : M S A) : M S A := fun s =>
  match m s with
  | (s, Throw _) => (s, Throw Terminate)
  | r => r
  end.

(** [pages_[index]] as a write. *)
Definition write_page (i : Z) (pg : Page) : M Store unit := mmodify (set_page_at i pg).

(** [optional.reset()] of the two device replicas: the leases go back to the pool. *)
Definition reset_device (i : Z) (pg : Page) : M Store Page :=
  _ ← mmodify (fun s => set_physical (destroy_optional (device_replica pg) (physical_ s)) s);
  let pg := set_device None (pending_device_replica pg) pg in
  _ ← write_page i pg;
  mret pg.
Definition reset_pending (i : Z) (pg : Page) : M Store Page :=
  _ ← mmodify (fun s => set_physical (destroy_optional (pending_device_replica pg) (physical_ s)) s);
  let pg := set_device (device_replica pg) None pg in
  _ ← write_page i pg;
  mret pg.

Definition next_epoch (epoch : Z) : Z :=
  let epoch := w64 (epoch + 1) in
  if epoch =? 0 then 1 else epoch.

(** ** Handles *)

(** The page of a handle that [valid] accepts. *)
Definition page_of (s : Store) (h : LogicalKVPageHandle) : option Page :=
  if bool_decide (lh_owner h = Some (st_self s)) && (lh_index h <? capacity s) then
    match at_index (pages_ s) (lh_index h) with
    | Some pg => if occupied pg && (generation pg =? lh_generation h) then Some pg else None
    | None => None
    end
  else None.

Definition valid (s : Store) (h : LogicalKVPageHandle) : bool :=
  match page_of s h with Some _ => true | None => false end.

Definition require (s : Store) (h : LogicalKVPageHandle) : result Page :=
  match page_of s h with Some pg => Ok pg | None => Throw InvalidArgument end.

(** A query that answers false for a stale handle. *)
Definition query (s : Store) (h : LogicalKVPageHandle) (f : Page -> bool) : bool :=
  match page_of s h with Some pg => f pg | None => false end.

Definition has {A} (x : option A) : bool := match x with Some _ => true | None => false end.

Definition physical (s : Store) (h : LogicalKVPageHandle) : result DeviceKVPageHandle :=
  pg ← require s h;
  match device_replica pg with
  | Some x => Ok (lease_handle x)
  | None => Throw LogicError
  end.
Definition descriptor_index (s : Store) (h : LogicalKVPageHandle) : result Z :=
  _ ← require s h; Ok (lh_index h).
Definition device_resident (s : Store) (h : LogicalKVPageHandle) : result bool :=
  pg ← require s h; Ok (has (device_replica pg)).
Definition host_resident (s : Store) (h : LogicalKVPageHandle) : result bool :=
  pg ← require s h; Ok (has (host_replica_ pg)).
Definition host_replica (s : Store) (h : LogicalKVPageHandle) : result HostKVPageReplica :=
  pg ← require s h;
  match host_replica_ pg with Some r => Ok r | None => Throw LogicError end.
Definition content_epoch (s : Store) (h : LogicalKVPageHandle) : result Z :=
  pg ← require s h; Ok (content_epoch_ pg).
Definition committed_columns (s : Store) (h : LogicalKVPageHandle) : result Z :=
  pg ← require s h; Ok (committed_columns_ pg).
Definition address_references (s : Store) (h : LogicalKVPageHandle) : result Z :=
  pg ← require s h; Ok (references pg).
Definition active_address_references (s : Store) (h : LogicalKVPageHandle) : result Z :=
  pg ← require s h; Ok (active_references pg).
Definition writer_references (s : Store) (h : LogicalKVPageHandle) : result Z :=
  pg ← require s h; Ok (writer_references_ pg).
Definition protected_columns (s : Store) (h : LogicalKVPageHandle) : result Z :=
  pg ← require s h; Ok (protected_columns_ pg).
Definition source_pins (s : Store) (h : LogicalKVPageHandle) : result Z :=
  pg ← require s h; Ok (source_pins_ pg).

(** ** Descriptors *)

(** [free_[--free_count_]] and the page there. *)
Definition pop_descriptor : M Store (Z * Page) :=
  s ← mget;
  let count := w32 (free_count_ s - 1) in
  match at_index (free_ s) count with
  | None => mthrow Terminate
  | Some index =>
      match at_index (pages_ s) index with
      | None => mthrow Terminate
      | Some pg => _ ← mput (set_free (free_ s) count s); mret (index, pg)
      end
  end.

Definition release_descriptor (h : LogicalKVPageHandle) (pg : Page) : M Store unit :=
  _ ← mthrow_if (negb (active_references pg =? 0)) Terminate;
  let i := lh_index h in
  let pg := set_content (content_epoch_ pg) 0 0 (set_refs 0 0 0 (set_pins 0 false pg)) in
  let pg := set_slot (generation pg) false pg in
  pg ← reset_pending i pg;
  let pg := set_host None pg in
  let pg := set_slot (increment_generation (generation pg)) false pg in
  _ ← write_page i pg;
  s ← mget;
  if free_count_ s <? Z.of_nat (length (free_ s))
  then mput (set_free (set_index (free_ s) (free_count_ s) i) (w32 (free_count_ s + 1)) s)
  else mthrow Terminate.

(** The fields a freshly bound page gets: device page, epoch, coverage, counts. *)
Definition bind_page (lease : DeviceKVPageLease) (columns refs writer : Z) (pinned : bool) (pg : Page)
    : Page :=
  let pg := set_device (Some lease) (pending_device_replica pg) pg in
  let pg := set_content (next_epoch (content_epoch_ pg)) columns 0 pg in
  let pg := set_pins (source_pins_ pg) pinned (set_refs refs 0 writer pg) in
  set_slot (generation pg) true pg.

(** [page.device_replica.emplace(...)] followed by the assignments of [bind_page]. *)
Definition emplace_page (index : Z) (pg : Page) (lease : DeviceKVPageLease)
    (columns refs writer : Z) (pinned : bool) : M Store LogicalKVPageHandle :=
  s ← mget;
  let s := set_physical (destroy_optional (device_replica pg) (physical_ s)) s in
  _ ← mput (set_page_at index (bind_page lease columns refs writer pinned pg) s);
  mret (mkLogical (Some (st_self s)) index (generation pg)).

(** ** Materialization *)

Definition materialize (r : DeviceKVPageReservation)
    : M Store (DeviceKVPageReservation * LogicalKVPageHandle) :=
  s ← mget;
  _ ← mthrow_if (free_count_ s =? 0) LogicError;
  '(r, lease) ← on_pool (materialize_one r);
  '(index, pg) ← pop_descriptor;
  h ← emplace_page index pg lease 0 1 1 (destination_pinned pg);
  mret (r, h).

(** The checks of the batch [materialize] on the descriptors it will take. *)
Fixpoint check_free (s : Store) (offsets : list nat) : result unit :=
  match offsets with
  | [] => Ok tt
  | offset :: offsets =>
      match at_index (free_ s) (free_count_ s - 1 - Z.of_nat offset) with
      | None => Throw Terminate
      | Some index =>
          match at_index (pages_ s) index with
          | None => Throw Terminate
          | Some pg => _ ← throw_if (occupied pg) LogicError; check_free s offsets
          end
      end
  end.

(** The binding loop of the batch [materialize]. *)
Fixpoint bind_batch (offset : Z) (leases : list DeviceKVPageLease) : M Store (list LogicalKVPageHandle) :=
  match leases with
  | [] => mret []
  | lease :: leases =>
      s ← mget;
      match at_index (free_ s) (free_count_ s - 1 - offset) with
      | None => mthrow Terminate
      | Some index =>
          match at_index (pages_ s) index with
          | None => mthrow Terminate
          | Some pg =>
              h ← emplace_page index pg lease 0 1 1 (destination_pinned pg);
              hs ← bind_batch (offset + 1) leases;
              mret (h :: hs)
          end
      end
  end.

Definition physical_predecessor (s : Store) (predecessor : option LogicalKVPageHandle)
    : result (option DeviceKVPageHandle) :=
  match predecessor with
  | Some h => x ← physical s h; Ok (Some x)
  | None => Ok None
  end.

(** The batch [materialize]: the handles that replace [destinations]. *)
Definition materialize_batch (r : DeviceKVPageReservation) (destinations : list LogicalKVPageHandle)
    (preferred_predecessor : option LogicalKVPageHandle)
    : M Store (DeviceKVPageReservation * list LogicalKVPageHandle) :=
  if bool_decide (destinations = []) then mret (r, [])
  else
    s ← mget;
    let n := Z.of_nat (length destinations) in
    _ ← mthrow_if ((free_count_ s <? n) || (scratch_capacity s <? n)) LogicError;
    _ ← mthrow_if (existsb handle_valid destinations) LogicError;
    _ ← mlift (check_free s (seq 0 (length destinations)));
    predecessor ← mlift (physical_predecessor s preferred_predecessor);
    '(r, scratch) ← on_pool (DevicePagePool.materialize r n [] (scratch_capacity s) predecessor);
    hs ← bind_batch 0 scratch;
    _ ← mmodify (fun s => set_free (free_ s) (w32 (free_count_ s - n)) s);
    mret (r, hs).

Definition materialize_transfer_destination (r : DeviceKVPageReservation) (columns : Z)
    : M Store (DeviceKVPageReservation * LogicalKVPageHandle) :=
  s ← mget;
  _ ← mthrow_if ((columns =? 0) || (kPagedKVPageSize <? columns) || (free_count_ s =? 0)) InvalidArgument;
  '(r, lease) ← on_pool (materialize_one r);
  '(index, pg) ← pop_descriptor;
  h ← emplace_page index pg lease columns 0 0 true;
  mret (r, h).

(** The state of a transfer destination that is not yet published. *)
Definition transfer_destination (pg : Page) : bool :=
  has (device_replica pg) && negb (has (pending_device_replica pg)) && negb (has (host_replica_ pg)) &&
  destination_pinned pg && (references pg =? 0) && (writer_references_ pg =? 0) && (source_pins_ pg =? 0).

Definition publish_transfer_destination (h : LogicalKVPageHandle) (writer : bool) : M Store unit :=
  s ← mget;
  match page_of s h with
  | None => mthrow Terminate
  | Some pg =>
      _ ← mthrow_if (negb (transfer_destination pg)) Terminate;
      write_page (lh_index h)
        (set_pins (source_pins_ pg) false
          (set_refs 1 (active_references pg) (if writer then 1 else 0) pg))
  end.

(** Returns the device page of [pg] to the reservation: [dematerialize_one] of the moved-out lease,
    then [reset()] of the emptied optional. *)
Definition return_device (i : Z) (pg : Page) (r : DeviceKVPageReservation)
    : M Store (DeviceKVPageReservation * Page) :=
  match device_replica pg with
  | None => mthrow Terminate
  | Some x =>
      r ← on_pool (dematerialize_one r x);
      let pg := set_device None (pending_device_replica pg) pg in
      _ ← write_page i pg;
      mret (r, pg)
  end.

Definition abort_transfer_destination (h : LogicalKVPageHandle) (r : DeviceKVPageReservation)
    : M Store DeviceKVPageReservation :=
  noexcept (
    s ← mget;
    match page_of s h with
    | None => mret r
    | Some pg =>
        if negb (transfer_destination pg) then mret r
        else
          '(r, pg) ← return_device (lh_index h) pg r;
          _ ← release_descriptor h pg;
          mret r
    end).

Definition dematerialize (h : LogicalKVPageHandle) (r : DeviceKVPageReservation)
    : M Store DeviceKVPageReservation :=
  s ← mget;
  pg ← mlift (require s h);
  _ ← mthrow_if (negb (references pg =? 1) || negb (writer_references_ pg =? 1) ||
                 negb (source_pins_ pg =? 0) || destination_pinned pg ||
                 has (host_replica_ pg) || negb (has (device_replica pg))) LogicError;
  '(r, pg) ← return_device (lh_index h) pg r;
  _ ← release_descriptor h pg;
  mret r.

(** ** Source pins *)

Definition can_pin_source (s : Store) (h : LogicalKVPageHandle) : bool :=
  query s h (fun pg =>
    has (device_replica pg) && (writer_references_ pg =? 0) && negb (destination_pinned pg) &&
    negb (source_pins_ pg =? u32_max)).

Definition can_pin_active_source (s : Store) (h : LogicalKVPageHandle) : bool :=
  query s h (fun pg =>
    has (device_replica pg) && (writer_references_ pg =? 1) && (references pg =? 1) &&
    negb (destination_pinned pg) && negb (source_pins_ pg =? u32_max)).

Definition pin_source (h : LogicalKVPageHandle) : M Store unit :=
  s ← mget;
  pg ← mlift (require s h);
  _ ← mthrow_if (source_pins_ pg =? u32_max) OverflowError;
  write_page (lh_index h) (set_pins (w32 (source_pins_ pg + 1)) (destination_pinned pg) pg).

Definition unpin_source (h : LogicalKVPageHandle) : M Store unit :=
  s ← mget;
  pg ← mlift (require s h);
  _ ← mthrow_if (source_pins_ pg =? 0) LogicError;
  write_page (lh_index h) (set_pins (w32 (source_pins_ pg - 1)) (destination_pinned pg) pg).

(** ** Device replicas *)

(** The host replica holds exactly the page's current content. *)
Definition host_matches (pg : Page) : bool :=
  match host_replica_ pg with
  | Some r => (hr_content_epoch r =? content_epoch_ pg) && (hr_committed_columns r =? committed_columns_ pg)
  | None => false
  end.

Definition reserve_device_replica (h : LogicalKVPageHandle) (r : DeviceKVPageReservation)
    : M Store (DeviceKVPageReservation * DeviceKVPageHandle) :=
  s ← mget;
  pg ← mlift (require s h);
  _ ← mthrow_if (has (device_replica pg) || has (pending_device_replica pg) ||
                 negb (has (host_replica_ pg)) || destination_pinned pg ||
                 negb (source_pins_ pg =? 0) || negb (host_matches pg)) LogicError;
  '(r, lease) ← on_pool (materialize_one r);
  _ ← write_page (lh_index h)
        (set_pins (source_pins_ pg) true (set_device (device_replica pg) (Some lease) pg));
  mret (r, lease_handle lease).

Definition publish_device_replica (h : LogicalKVPageHandle) : M Store unit :=
  s ← mget;
  pg ← mlift (require s h);
  _ ← mthrow_if (has (device_replica pg) || negb (has (pending_device_replica pg)) ||
                 negb (destination_pinned pg) || negb (host_matches pg)) LogicError;
  write_page (lh_index h)
    (set_pins (source_pins_ pg) false (set_device (pending_device_replica pg) None pg)).

Definition abort_device_replica (h : LogicalKVPageHandle) (r : DeviceKVPageReservation)
    : M Store DeviceKVPageReservation :=
  noexcept (
    s ← mget;
    match page_of s h with
    | None => mret r
    | Some pg =>
        match pending_device_replica pg with
        | Some x =>
            if destination_pinned pg then
              r ← on_pool (dematerialize_one r x);
              _ ← write_page (lh_index h)
                    (set_pins (source_pins_ pg) false (set_device (device_replica pg) None pg));
              mret r
            else mret r
        | None => mret r
        end
    end).

Definition host_replica_current (s : Store) (h : LogicalKVPageHandle) : bool := query s h host_matches.

Definition can_drop_device_replica (s : Store) (h : LogicalKVPageHandle) : bool :=
  query s h (fun pg =>
    has (device_replica pg) && host_replica_current s h && negb (has (pending_device_replica pg)) &&
    (writer_references_ pg =? 0) && (active_references pg =? 0) && (source_pins_ pg =? 0) &&
    negb (destination_pinned pg)).

Definition drop_device_replica (h : LogicalKVPageHandle) : M Store bool :=
  s ← mget;
  if can_drop_device_replica s h then
    match page_of s h with
    | Some pg => _ ← reset_device (lh_index h) pg; mret true
    | None => mthrow Terminate
    end
  else mret false.

(** ** References *)

Definition retain_active_reference (h : LogicalKVPageHandle) : M Store unit :=
  s ← mget;
  pg ← mlift (require s h);
  _ ← mthrow_if ((active_references pg =? u32_max) || (references pg <=? active_references pg)) LogicError;
  write_page (lh_index h)
    (set_refs (references pg) (w32 (active_references pg + 1)) (writer_references_ pg) pg).

Definition release_active_reference (h : LogicalKVPageHandle) : M Store unit :=
  s ← mget;
  pg ← mlift (require s h);
  _ ← mthrow_if (active_references pg =? 0) LogicError;
  write_page (lh_index h)
    (set_refs (references pg) (w32 (active_references pg - 1)) (writer_references_ pg) pg).

Definition retain_reference (h : LogicalKVPageHandle) (writer : bool) : M Store unit :=
  s ← mget;
  pg ← mlift (require s h);
  _ ← mthrow_if ((references pg =? u32_max) || writer && negb (writer_references_ pg =? 0)) LogicError;
  write_page (lh_index h)
    (set_refs (w32 (references pg + 1)) (active_references pg)
      (if writer then 1 else writer_references_ pg) pg).

Definition can_retain_reference (s : Store) (h : LogicalKVPageHandle) (writer : bool) : bool :=
  query s h (fun pg =>
    negb (references pg =? u32_max) &&
    (negb writer || (writer_references_ pg =? 0) && (references pg =? 0)) &&
    negb (destination_pinned pg)).

Definition set_writer (h : LogicalKVPageHandle) (writer : bool) : M Store unit :=
  s ← mget;
  pg ← mlift (require s h);
  _ ← mthrow_if (writer && negb (writer_references_ pg =? 0)) LogicError;
  write_page (lh_index h)
    (set_refs (references pg) (active_references pg) (if writer then 1 else 0) pg).

Definition can_set_writer (s : Store) (h : LogicalKVPageHandle) (writer : bool) : bool :=
  query s h (fun pg =>
    if writer then
      (writer_references_ pg =? 0) && (references pg =? 1) && (source_pins_ pg =? 0) &&
      has (device_replica pg)
    else writer_references_ pg =? 1).

Definition can_release_reference (s : Store) (h : LogicalKVPageHandle) (writer : bool) : bool :=
  query s h (fun pg =>
    negb ((references pg =? 0) || writer && negb (writer_references_ pg =? 1) ||
          (references pg <=? active_references pg) || negb (source_pins_ pg =? 0) ||
          destination_pinned pg)).

Definition can_release_reference_after_active_reference (s : Store) (h : LogicalKVPageHandle) : bool :=
  query s h (fun pg =>
    negb (references pg =? 0) && negb (active_references pg =? 0) &&
    (active_references pg <=? references pg) && (writer_references_ pg <=? 1) &&
    (source_pins_ pg =? 0) && negb (destination_pinned pg)).

Definition release_reference (h : LogicalKVPageHandle) (writer : bool) : M Store bool :=
  noexcept (
    s ← mget;
    if negb (can_release_reference s h writer) then mret false
    else
      match page_of s h with
      | None => mthrow Terminate
      | Some pg =>
          let pg := set_refs (w32 (references pg - 1)) (active_references pg)
                      (if writer then 0 else writer_references_ pg) pg in
          _ ← write_page (lh_index h) pg;
          if negb (references pg =? 0) then mret true
          else
            pg ← reset_device (lh_index h) pg;
            _ ← (if has (host_replica_ pg) then mret tt else release_descriptor h pg);
            mret true
      end).

Definition release (h : LogicalKVPageHandle) : M Store bool :=
  s ← mget;
  match page_of s h with
  | None => mret false
  | Some pg => release_reference h (negb (writer_references_ pg =? 0))
  end.

(** ** Coverage *)

Definition protect_coverage (h : LogicalKVPageHandle) (columns : Z) : M Store unit :=
  s ← mget;
  pg ← mlift (require s h);
  _ ← mthrow_if (committed_columns_ pg <? columns) InvalidArgument;
  write_page (lh_index h)
    (set_content (content_epoch_ pg) (committed_columns_ pg) (Z.max (protected_columns_ pg) columns) pg).

Definition set_protected_coverage (h : LogicalKVPageHandle) (columns : Z) : M Store unit :=
  s ← mget;
  pg ← mlift (require s h);
  _ ← mthrow_if (committed_columns_ pg <? columns) InvalidArgument;
  write_page (lh_index h) (set_content (content_epoch_ pg) (committed_columns_ pg) columns pg).

Definition clear_protection (h : LogicalKVPageHandle) : M Store unit :=
  s ← mget;
  pg ← mlift (require s h);
  _ ← mthrow_if (negb (references pg =? 1) || negb (source_pins_ pg =? 0)) LogicError;
  write_page (lh_index h) (set_content (content_epoch_ pg) (committed_columns_ pg) 0 pg).

Definition commit_coverage (h : LogicalKVPageHandle) (columns : Z) : M Store unit :=
  s ← mget;
  pg ← mlift (require s h);
  _ ← mthrow_if (negb (has (device_replica pg)) || negb (writer_references_ pg =? 1) ||
                 (columns <? committed_columns_ pg) || (kPagedKVPageSize <? columns)) InvalidArgument;
  write_page (lh_index h) (set_content (content_epoch_ pg) columns (protected_columns_ pg) pg).

(** The content after cutting a page to [columns]: a real cut starts a new epoch. *)
Definition cut_content (columns : Z) (pg : Page) : Page :=
  if negb (columns =? committed_columns_ pg)
  then set_content (next_epoch (content_epoch_ pg)) columns (protected_columns_ pg) pg
  else pg.

Definition destructive_truncate (h : LogicalKVPageHandle) (columns : Z) : M Store unit :=
  s ← mget;
  pg ← mlift (require s h);
  _ ← mthrow_if ((committed_columns_ pg <? columns) || (columns <? protected_columns_ pg) ||
                 negb (references pg =? 1) || negb (writer_references_ pg =? 1) ||
                 negb (source_pins_ pg =? 0) || destination_pinned pg || has (host_replica_ pg))
        InvalidArgument;
  write_page (lh_index h) (cut_content columns pg).

Definition can_destructive_truncate (s : Store) (h : LogicalKVPageHandle) (columns : Z) : bool :=
  query s h (fun pg =>
    (columns <=? committed_columns_ pg) && (protected_columns_ pg <=? columns) &&
    (references pg =? 1) && (writer_references_ pg =? 1) && (source_pins_ pg =? 0) &&
    negb (destination_pinned pg) && negb (has (host_replica_ pg)) && has (device_replica pg)).

Definition can_destructive_truncate_inactive_after_host_release (s : Store) (h : LogicalKVPageHandle)
    (columns : Z) : bool :=
  query s h (fun pg =>
    (columns <=? committed_columns_ pg) && (references pg =? 1) && (writer_references_ pg =? 0) &&
    (source_pins_ pg =? 0) && negb (destination_pinned pg) && has (device_replica pg)).

Definition can_destructive_truncate_inactive (s : Store) (h : LogicalKVPageHandle) (columns : Z) : bool :=
  query s h (fun pg =>
    (columns <=? committed_columns_ pg) && (references pg =? 1) && (writer_references_ pg =? 0) &&
    (source_pins_ pg =? 0) && negb (destination_pinned pg) && negb (has (host_replica_ pg)) &&
    has (device_replica pg)).

Definition destructive_truncate_inactive (h : LogicalKVPageHandle) (columns : Z) : M Store unit :=
  s ← mget;
  pg ← mlift (require s h);
  _ ← mthrow_if (negb (can_destructive_truncate_inactive s h columns)) LogicError;
  let pg := cut_content columns pg in
  write_page (lh_index h)
    (set_content (content_epoch_ pg) (committed_columns_ pg) (Z.min (protected_columns_ pg) columns) pg).

Definition can_dematerialize (s : Store) (h : LogicalKVPageHandle) : bool :=
  query s h (fun pg =>
    (references pg =? 1) && (writer_references_ pg =? 1) && (source_pins_ pg =? 0) &&
    negb (destination_pinned pg) && negb (has (host_replica_ pg)) && has (device_replica pg)).

(** ** Host replicas *)

Definition can_attach_host_replica (s : Store) (h : LogicalKVPageHandle) (epoch coverage : Z) : bool :=
  query s h (fun pg =>
    negb (has (host_replica_ pg)) && (epoch =? content_epoch_ pg) && (coverage =? committed_columns_ pg)).

Definition attach_host_replica (h : LogicalKVPageHandle) (replica : HostKVPageReplica) : M Store unit :=
  s ← mget;
  pg ← mlift (require s h);
  _ ← mthrow_if (negb (extent_valid (hr_extent replica)) || (hr_membership_node replica =? u32_max) ||
                 negb (can_attach_host_replica s h (hr_content_epoch replica) (hr_committed_columns replica)))
        LogicError;
  write_page (lh_index h) (set_host (Some replica) pg).

Definition rebind_host_replica (h : LogicalKVPageHandle) (expected replacement : HostKVPageReplica)
    : M Store unit :=
  s ← mget;
  match page_of s h with
  | None => mthrow Terminate
  | Some pg =>
      match host_replica_ pg with
      | None => mthrow Terminate
      | Some host =>
          _ ← mthrow_if (
                negb (bool_decide (hr_extent host = hr_extent expected)) ||
                negb (hr_page_offset host =? hr_page_offset expected) ||
                negb (hr_membership_node host =? hr_membership_node expected) ||
                negb (hr_content_epoch host =? hr_content_epoch expected) ||
                negb (hr_committed_columns host =? hr_committed_columns expected) ||
                negb (hr_content_epoch expected =? content_epoch_ pg) ||
                negb (extent_valid (hr_extent replacement)) ||
                negb (hr_membership_node replacement =? hr_membership_node expected) ||
                negb (hr_content_epoch replacement =? hr_content_epoch expected) ||
                negb (hr_committed_columns replacement =? hr_committed_columns expected)) Terminate;
          write_page (lh_index h) (set_host (Some replacement) pg)
      end
  end.

Definition detach_host_replica (h : LogicalKVPageHandle) (extent : HostKVExtentCapability)
    : M Store bool :=
  noexcept (
    s ← mget;
    match page_of s h with
    | None => mret false
    | Some pg =>
        match host_replica_ pg with
        | None => mret false
        | Some host =>
            if negb (bool_decide (hr_extent host = extent)) ||
               negb (has (device_replica pg)) && negb (references pg =? 0)
            then mret false
            else
              let pg := set_host None pg in
              _ ← write_page (lh_index h) pg;
              _ ← (if (references pg =? 0) && (source_pins_ pg =? 0) && negb (has (device_replica pg))
                   then release_descriptor h pg else mret tt);
              mret true
        end
    end).

End LogicalKVPageStore.
