(* ===== verification/KVPagesInvariant.v ===== *)
(** * Logical KV pages: the store invariant

    Descriptors and replicas of [LogicalKVPageStore]: the free stack holds exactly the unoccupied
    descriptors, every device lease of the store is valid and held once, counts and coverage are in
    range, and a referenced page keeps a copy of its content on the device or on the host.  The
    invariant is stated for a store with a list of client reservations and of leases in flight. *)

From S2P Require Import Prelude Extents Tensor KVGeometry DevicePagePool DevicePoolInvariant DevicePoolOps KVPages.
Import LogicalKVPageStore.

(** ** The physical side *)

(** A pool whose reservations are [R] and whose allocated pages are those of the leases [l]. *)
Record phys_inv (p : DeviceKVPagePool) (R : list DeviceKVPageReservation)
    (l : list DeviceKVPageLease) : Prop := {
  ph_pool : pool_inv p;
  ph_owner : Forall (fun r => rs_owner r = Some (pool_self p) /\ 0 <= rs_pages r) R;
  ph_reserved : reserved_pages p = sum_with rs_pages R;
  ph_allocated : allocated_pages p = Z.of_nat (length l);
  ph_ok : Forall (fun x => lease_ok p x = true) l;
  ph_distinct : NoDup (ls_index <$> l);
}.

#[export] Instance phys_inv_Permutation p R : Proper (Permutation ==> iff) (phys_inv p R).
Proof.
  apply proper_sym_impl_iff; [apply _|]. intros l l' Hl [].
  split; [done..|by rewrite <- Hl|by rewrite <- Hl|by rewrite <- Hl].
Qed.

Lemma sum_reserved_nonneg p R :
  Forall (fun r => rs_owner r = Some (pool_self p) /\ 0 <= rs_pages r) R -> 0 <= sum_with rs_pages R.
Proof. induction 1 as [|r R [_ Hr] _ IH]; cbn; [lia|]. change (0 <= rs_pages r + sum_with rs_pages R). lia. Qed.

Lemma phys_owned p R k r l : phys_inv p R l -> R !! k = Some r -> owned p r l.
Proof.
  intros [] Hk. apply list_elem_of_split_length in Hk as (R1 & R2 & -> & _).
  apply Forall_app in ph_owner0 as [H1 [[Ho Hr] H2]%Forall_cons].
  split; try done. split; [done|]. rewrite ph_reserved0, sum_with_app.
  pose proof (sum_reserved_nonneg _ _ H1). pose proof (sum_reserved_nonneg _ _ H2).
  change (rs_pages r <= sum_with rs_pages R1 + (rs_pages r + sum_with rs_pages R2)). lia.
Qed.

(** An operation on one reservation and the store's leases. *)
Lemma phys_step p p' R k r r' l l' :
  phys_inv p R l -> R !! k = Some r -> bound_step p p' r r' l l' -> phys_inv p' (<[k := r']> R) l'.
Proof.
  intros Hph Hk Hstep. destruct Hph, Hstep. pose proof (lookup_lt_Some _ _ _ Hk) as Hlt. split; try done.
  - rewrite bs_self. apply Forall_insert; [done|]. rewrite Forall_lookup in ph_owner0.
    destruct (ph_owner0 _ _ Hk). split; [congruence|done].
  - rewrite (sum_with_insert _ _ _ r) by done. lia.
  - lia.
Qed.

(** Pages move between a reservation and the leases one at a time. *)
Lemma materialize_one_pages p r l p' r' x :
  owned p r l -> materialize_one r p = (p', Ok (r', x)) -> rs_pages r' = rs_pages r - 1.
Proof.
  intros Hown. destruct (owned_bounds _ _ _ Hown) as (? & ? & ? & ? & ?).
  pose proof (materialize_one_spec _ _ _ Hown) as Hspec. intros Heq. rewrite Heq in Hspec.
  destruct Hspec as [Hpos _]. revert Heq. unfold materialize_one. unfold_M.
  destruct (_ || _); [done|]. destruct (free_page_runs p); [done|]. destruct (at_index _ _); [|done].
  intros [= _ <- _]. cbn. by rewrite w32_small by lia.
Qed.

Lemma dematerialize_one_pages p r l p' r' x :
  owned p r l -> dematerialize_one r x p = (p', Ok r') -> rs_pages r' = rs_pages r + 1.
Proof.
  intros Hown. destruct (owned_bounds _ _ _ Hown) as (? & ? & ? & ? & ?). unfold dematerialize_one. unfold_M.
  destruct (_ || _); [done|]. destruct (lease_release p x) as [[p1 y] []]; [|done]. cbn [negb].
  intros [= _ <-]. cbn. by rewrite w32_small by lia.
Qed.

(** Destroying one lease. *)
Lemma phys_release p R x l :
  phys_inv p R (x :: l) ->
  exists p', lease_release p x = (p', null_lease, true) /\ phys_inv p' R l /\ pool_self p' = pool_self p.
Proof.
  intros []. apply Forall_cons in ph_ok0 as [Hx Hl].
  apply NoDup_cons in ph_distinct0 as [Hnx Hnd]. change (ls_index x ∉ ls_index <$> l) in Hnx.
  destruct (lease_release_eq p x) as (p' & Hrel & []); [done..|].
  exists p'. split_and!; [done| |done]. split; try done.
  - by rewrite de_self.
  - lia.
  - cbn in *. lia.
  - rewrite Forall_forall in Hl |- *. intros y Hy.
    pose proof (Hl y Hy) as (Ho & Ha & Hg)%lease_ok_iff; [|done].
    destruct (de_frame (ls_index y)) as [Ha' Hg'].
    { cbn. rewrite list_elem_of_singleton. intros Heq. apply Hnx. rewrite <- Heq. by apply list_elem_of_fmap_2. }
    apply lease_ok_iff; [done|]. rewrite de_self, Ha', Hg'. done.
Qed.

Lemma phys_destroy p R x l :
  phys_inv p R (option_list x ++ l) ->
  phys_inv (destroy_optional x p) R l /\ pool_self (destroy_optional x p) = pool_self p.
Proof.
  destruct x as [x|]; cbn; [|done]. intros Hph.
  destruct (phys_release _ _ _ _ Hph) as (p' & -> & Hph' & Hs). done.
Qed.

(** ** Pages *)

Definition page_leases (pg : Page) : list DeviceKVPageLease :=
  option_list (device_replica pg) ++ option_list (pending_device_replica pg).

Definition store_leases (s : Store) : list DeviceKVPageLease := pages_ s ≫= page_leases.

Record page_ok (pg : Page) : Prop := {
  po_generation : 1 <= generation pg <= u32_max;
  po_epoch : 0 <= content_epoch_ pg <= u64_max;
  po_bound : occupied pg = true -> 1 <= content_epoch_ pg;
  po_cover : 0 <= protected_columns_ pg <= committed_columns_ pg /\ committed_columns_ pg <= kPagedKVPageSize;
  po_refs : 0 <= active_references pg <= references pg /\ references pg <= u32_max;
  po_pins : 0 <= source_pins_ pg <= u32_max;
  po_writer : 0 <= writer_references_ pg <= 1;
  po_pending : has (pending_device_replica pg) = true ->
    destination_pinned pg = true /\ device_replica pg = None;
  po_resident : 0 < references pg -> has (device_replica pg) = true \/ host_matches pg = true;
  po_host : forall r, host_replica_ pg = Some r ->
    hr_content_epoch r = content_epoch_ pg /\ hr_committed_columns r <= committed_columns_ pg /\
    extent_valid (hr_extent r) = true;
  po_free : occupied pg = false ->
    pg = set_slot (generation pg) false (set_content (content_epoch_ pg) 0 0 initial_page);
}.

Lemma initial_page_ok : page_ok initial_page.
Proof. split; cbn; try lia; done. Qed.

(** How a page may change in one step, seen from its content: the epoch stays and the coverage of
    a page that stays in use does not shrink, or a new epoch starts. *)
Definition page_evolves (pg pg' : Page) : Prop :=
  (content_epoch_ pg' = content_epoch_ pg /\
   (occupied pg' = true -> occupied pg = true /\ generation pg' = generation pg /\
      committed_columns_ pg <= committed_columns_ pg')) \/
  content_epoch_ pg' = next_epoch (content_epoch_ pg).

Lemma page_evolves_refl pg : page_evolves pg pg.
Proof. left. done. Qed.

(** An operation that changes one page in place. *)
Record page_step (pg pg' : Page) : Prop := {
  pt_ok : page_ok pg';
  pt_occupied : occupied pg' = true;
  pt_generation : generation pg' = generation pg;
  pt_leases : page_leases pg' ≡ₚ page_leases pg;
  pt_evolves : page_evolves pg pg';
}.

Lemma next_epoch_range e : 0 <= e <= u64_max -> 1 <= next_epoch e <= u64_max.
Proof.
  intros He. unfold next_epoch. destruct (decide (e = u64_max)) as [->|].
  - vm_compute. split; discriminate.
  - rewrite w64_small by lia. destruct (Z.eqb_spec (e + 1) 0); lia.
Qed.

(** ** Descriptors *)

Definition free_stack (s : Store) : list Z := take (Z.to_nat (free_count_ s)) (free_ s).

Record desc_inv (s : Store) : Prop := {
  dc_small : capacity s <= u32_max;
  dc_free_length : length (free_ s) = length (pages_ s);
  dc_count : 0 <= free_count_ s <= capacity s;
  dc_distinct : NoDup (free_stack s);
  dc_free : forall i, i ∈ free_stack s <-> exists pg, at_index (pages_ s) i = Some pg /\ occupied pg = false;
  dc_pages : forall i pg, at_index (pages_ s) i = Some pg -> page_ok pg;
}.

(** The store with reservations [R] at its clients and leases [E] in flight. *)
Record kv_inv (s : Store) (R : list DeviceKVPageReservation) (E : list DeviceKVPageLease) : Prop := {
  kv_phys : phys_inv (physical_ s) R (store_leases s ++ E);
  kv_desc : desc_inv s;
}.

(** *** Lookup *)

Lemma page_of_Some s h pg :
  page_of s h = Some pg <->
  lh_owner h = Some (st_self s) /\ at_index (pages_ s) (lh_index h) = Some pg /\
  occupied pg = true /\ generation pg = lh_generation h.
Proof.
  unfold page_of. destruct (bool_decide_reflect (lh_owner h = Some (st_self s))); cbn [andb].
  2: { split; [discriminate|]. intros (? & _). done. }
  destruct (Z.ltb_spec (lh_index h) (capacity s)).
  2: { split; [discriminate|]. intros (_ & Ha%at_index_lt & _). unfold capacity in *. lia. }
  destruct (at_index (pages_ s) (lh_index h)) as [pg'|].
  2: { split; [discriminate|]. intros (_ & ? & _). discriminate. }
  destruct (occupied pg') eqn:Ho; cbn [andb].
  - destruct (Z.eqb_spec (generation pg') (lh_generation h)).
    + split; [by intros [= <-]|]. by intros (_ & [= ->] & _).
    + split; [discriminate|]. intros (_ & [= ->] & _ & ?). done.
  - split; [discriminate|]. intros (_ & [= ->] & ? & _). congruence.
Qed.

Lemma page_of_ok s h pg : desc_inv s -> page_of s h = Some pg -> page_ok pg.
Proof. intros Hd (_ & Ha & _)%page_of_Some. by eapply dc_pages. Qed.

(** The leases of one page and of the others. *)
Lemma store_leases_split s i pg :
  at_index (pages_ s) i = Some pg ->
  exists rest, store_leases s ≡ₚ page_leases pg ++ rest /\
    forall pg', store_leases (set_page_at i pg' s) ≡ₚ page_leases pg' ++ rest.
Proof.
  intros [_ Hi]%at_index_Some. unfold store_leases, set_page_at, set_index. cbn [pages_ set_pages].
  apply list_elem_of_split_length in Hi as (l1 & l2 & Hl & Hlen).
  exists ((l1 ≫= page_leases) ++ (l2 ≫= page_leases)). rewrite Hl. split.
  - rewrite bind_app. cbn [mbind list_bind]. rewrite !app_assoc. f_equiv. apply Permutation_app_comm.
  - intros pg'. rewrite update_middle by done. rewrite bind_app. cbn [mbind list_bind].
    rewrite !app_assoc. f_equiv. apply Permutation_app_comm.
Qed.

Lemma at_set_page_at s i j pg pg' :
  at_index (pages_ s) i = Some pg ->
  at_index (pages_ (set_page_at i pg' s)) j = if decide (i = j) then Some pg' else at_index (pages_ s) j.
Proof.
  intros Hi%at_index_lt. cbn. case_decide as Hij; [subst j; by apply at_set_index_eq|].
  apply at_set_index_ne; [lia|done].
Qed.

(** ** Changing a page in place *)

Lemma desc_inv_write s i pg pg' :
  desc_inv s -> at_index (pages_ s) i = Some pg -> occupied pg = true ->
  page_ok pg' -> occupied pg' = true -> desc_inv (set_page_at i pg' s).
Proof.
  intros Hd Hi Ho Hok Ho'. destruct Hd. unfold capacity in *. split; unfold capacity; cbn [free_ free_count_ set_page_at set_pages];
    try (cbn [pages_ set_page_at set_pages]; rewrite ?length_set_index; done).
  - intros j. change (free_stack (set_page_at i pg' s)) with (free_stack s). rewrite dc_free0.
    setoid_rewrite (at_set_page_at s i j pg pg' Hi). case_decide as Hij; [|done]. subst j.
    split; intros (q & Hq & Hqo); [congruence|]. injection Hq as <-. congruence.
  - intros j q. rewrite (at_set_page_at s i j pg pg' Hi). case_decide; [by intros [= <-]|apply dc_pages0].
Qed.

Lemma write_page_inv s R E h pg pg' :
  kv_inv s R E -> page_of s h = Some pg -> page_step pg pg' ->
  kv_inv (set_page_at (lh_index h) pg' s) R E.
Proof.
  intros [Hp Hd] (_ & Hi & Ho & _)%page_of_Some [].
  destruct (store_leases_split s _ _ Hi) as (rest & Hl & Hl').
  split; [|by eapply desc_inv_write]. cbn [physical_ set_page_at set_pages].
  rewrite Hl', pt_leases0. by rewrite Hl in Hp.
Qed.

(** What the states before and after a call have in common. *)
Record evolves (s s' : Store) : Prop := {
  ev_self : st_self s' = st_self s;
  ev_length : length (pages_ s') = length (pages_ s);
  ev_pages : forall i pg pg', at_index (pages_ s) i = Some pg -> at_index (pages_ s') i = Some pg' ->
    page_evolves pg pg';
}.

Lemma evolves_refl s : evolves s s.
Proof. split; [done..|]. intros i pg pg' -> [= ->]. apply page_evolves_refl. Qed.

Lemma evolves_write s s' i pg pg' :
  st_self s' = st_self s -> pages_ s' = pages_ (set_page_at i pg' s) ->
  at_index (pages_ s) i = Some pg -> page_evolves pg pg' -> evolves s s'.
Proof.
  intros Hs Hp Hi Hev. split; [done| |].
  - rewrite Hp. cbn. apply length_set_index.
  - intros j q q' Hq. rewrite Hp, (at_set_page_at s i j pg pg' Hi). case_decide as Hij.
    + intros [= <-]. subst j. congruence.
    + rewrite Hq. intros [= <-]. apply page_evolves_refl.
Qed.

(** The result of a call that changes at most the page of its handle. *)
Inductive local_result {A} (s : Store) (h : LogicalKVPageHandle) : Store * result A -> Prop :=
  | local_throw e : e <> Terminate -> local_result s h (s, Throw e)
  | local_same a : local_result s h (s, Ok a)
  | local_write pg pg' a : page_of s h = Some pg -> page_step pg pg' ->
      local_result s h (set_page_at (lh_index h) pg' s, Ok a).

Lemma local_result_inv {A} s R E h (out : Store * result A) :
  kv_inv s R E -> local_result s h out ->
  kv_inv out.1 R E /\ evolves s out.1 /\ out.2 <> Throw Terminate.
Proof.
  intros Hinv [e He|a|pg pg' a Hpg Hstep]; cbn.
  - split_and!; [done|apply evolves_refl|congruence].
  - split_and!; [done|apply evolves_refl|done].
  - split_and!; [by eapply write_page_inv| |done].
    apply page_of_Some in Hpg as (_ & Hi & _). eapply evolves_write; [done..|exact Hi|apply Hstep].
Qed.

(** ** Calls that change one page in place *)

(** Turns the boolean guards of the context into propositions. *)
Ltac bool_facts :=
  repeat match goal with
    | H : (_ || _) = false |- _ => apply orb_false_iff in H as [? ?]
    | H : (_ && _) = true |- _ => apply andb_true_iff in H as [? ?]
    | H : negb _ = false |- _ => apply negb_false_iff in H
    | H : negb _ = true |- _ => apply negb_true_iff in H
    | H : (_ =? _) = true |- _ => apply Z.eqb_eq in H
    | H : (_ =? _) = false |- _ => apply Z.eqb_neq in H
    | H : (_ <? _) = true |- _ => apply Z.ltb_lt in H
    | H : (_ <? _) = false |- _ => apply Z.ltb_ge in H
    | H : (_ <=? _) = true |- _ => apply Z.leb_le in H
    | H : (_ <=? _) = false |- _ => apply Z.leb_gt in H
    end.

(** Proves that an update of a page in use is a [page_step]. *)
Ltac page_step_tac :=
  match goal with
  | Hok : page_ok ?pg, Ho : occupied ?pg = true |- page_step ?pg _ =>
      destruct Hok as [Hgen Hepoch Hbound Hcover Hrefs Hpins Hwriter Hpending Hresident Hhost Hfree];
      destruct pg; unfold kPagedKVPageSize, host_matches in *; cbn in *;
      split; cbn; [|done|done|done|];
      [split; cbn; try solve [done | auto | congruence | intros; apply Hresident; lia | unfold kPagedKVPageSize; rewrite ?w32_small by lia; lia]|];
      try solve [apply page_evolves_refl | left; split; [done|cbn; intros; split_and!; [done|done|lia]]]
  end.

(** Unfolds a guarded update: every exception leaves the store alone. *)
Ltac local_call :=
  intros; unfold require; unfold_M;
  match goal with
  | |- context [page_of ?s ?h] =>
      destruct (page_of s h) as [pg|] eqn:Hpg; [|by apply local_throw];
      match goal with Hd : desc_inv s |- _ => pose proof (page_of_ok _ _ _ Hd Hpg) as Hok end;
      pose proof (proj2 (proj2 (proj1 (page_of_Some _ _ _) Hpg))) as [Hocc _];
      try match goal with
        | |- context [if ?b then Throw _ else Ok _] =>
            destruct b eqn:Hguard; [by apply local_throw|]; bool_facts
        end;
      unfold write_page; unfold_M; eapply local_write; [exact Hpg|]
  end.

Section local_calls.
Context (s : Store) (h : LogicalKVPageHandle) (Hd : desc_inv s).

Lemma pin_source_local : local_result s h (pin_source h s).
Proof. unfold pin_source. local_call. page_step_tac. Qed.

Lemma unpin_source_local : local_result s h (unpin_source h s).
Proof. unfold unpin_source. local_call. page_step_tac. Qed.

Lemma retain_active_reference_local : local_result s h (retain_active_reference h s).
Proof. unfold retain_active_reference. local_call. page_step_tac. Qed.

Lemma release_active_reference_local : local_result s h (release_active_reference h s).
Proof. unfold release_active_reference. local_call. page_step_tac. Qed.

Lemma set_writer_local writer : local_result s h (set_writer h writer s).
Proof. unfold set_writer. local_call. destruct writer; page_step_tac. Qed.

Lemma clear_protection_local : local_result s h (clear_protection h s).
Proof. unfold clear_protection. local_call. page_step_tac. Qed.

Lemma protect_coverage_local columns : 0 <= columns -> local_result s h (protect_coverage h columns s).
Proof. unfold protect_coverage. local_call. page_step_tac. Qed.

Lemma set_protected_coverage_local columns :
  0 <= columns -> local_result s h (set_protected_coverage h columns s).
Proof. unfold set_protected_coverage. local_call. page_step_tac. Qed.

(** Retaining a page that an address references. *)
Lemma retain_reference_local writer :
  (forall pg, page_of s h = Some pg -> 0 < references pg) ->
  local_result s h (retain_reference h writer s).
Proof.
  unfold retain_reference. intros Hr. local_call. specialize (Hr pg eq_refl). destruct writer; page_step_tac.
Qed.

Lemma commit_coverage_local columns : local_result s h (commit_coverage h columns s).
Proof.
  unfold commit_coverage. local_call.
  page_step_tac. intros r Hr. destruct (Hhost r Hr) as (? & ? & ?). split_and!; [done|lia|done].
Qed.

(** Cutting a page starts a new epoch. *)
Lemma cut_content_step pg columns :
  page_ok pg -> occupied pg = true -> protected_columns_ pg <= columns <= committed_columns_ pg ->
  host_replica_ pg = None -> has (device_replica pg) = true \/ references pg = 0 ->
  page_step pg (cut_content columns pg).
Proof.
  intros Hok Ho Hc Hh Hdev. unfold cut_content.
  destruct (Z.eqb_spec columns (committed_columns_ pg)); cbn [negb].
  - split; try done. apply page_evolves_refl.
  - pose proof (next_epoch_range _ (po_epoch _ Hok)). page_step_tac.
    + intros Hpos. destruct Hdev; [by left|lia].
    + by right.
Qed.

Lemma destructive_truncate_local columns : local_result s h (destructive_truncate h columns s).
Proof.
  unfold destructive_truncate. local_call. apply cut_content_step; [done..|lia| |].
  - by destruct (host_replica_ pg).
  - left. destruct (po_resident _ Hok) as [|Hm]; [lia|done|].
    unfold host_matches in Hm. by destruct (host_replica_ pg).
Qed.

(** The content of a page that an inactive address cuts. *)
Definition cut_inactive (columns : Z) (pg : Page) : Page :=
  let pg := cut_content columns pg in
  set_content (content_epoch_ pg) (committed_columns_ pg) (Z.min (protected_columns_ pg) columns) pg.

Lemma cut_inactive_step pg columns :
  page_ok pg -> occupied pg = true -> 0 <= columns <= committed_columns_ pg ->
  host_replica_ pg = None -> has (device_replica pg) = true ->
  page_step pg (cut_inactive columns pg).
Proof.
  intros Hok Hocc Hc Hh Hdev.
  set (pg0 := set_content (content_epoch_ pg) (committed_columns_ pg) (Z.min (protected_columns_ pg) columns) pg).
  assert (page_step pg pg0) as Hst0.
  { subst pg0. page_step_tac. }
  assert (page_step pg0 (cut_content columns pg0)) as Hst1.
  { pose proof (po_cover _ Hok).
    apply cut_content_step; [apply Hst0|done|cbn; lia|done|left; cbn; done]. }
  assert (cut_inactive columns pg = cut_content columns pg0) as ->.
  { unfold cut_inactive, cut_content. cbn. by destruct (columns =? committed_columns_ pg). }
  destruct Hst1. split; [done|done|by rewrite pt_generation0|by rewrite pt_leases0|exact pt_evolves0].
Qed.

Lemma destructive_truncate_inactive_local columns :
  0 <= columns -> local_result s h (destructive_truncate_inactive h columns s).
Proof.
  unfold destructive_truncate_inactive, can_destructive_truncate_inactive, query. intros Hc.
  local_call. destruct (host_replica_ pg) eqn:Hh; [done|]. by apply cut_inactive_step.
Qed.

Lemma publish_transfer_destination_local writer :
  (forall pg, page_of s h = Some pg -> transfer_destination pg = true) -> valid s h = true ->
  local_result s h (publish_transfer_destination h writer s).
Proof.
  unfold valid, publish_transfer_destination. intros Ht Hv. unfold_M.
  destruct (page_of s h) as [pg|] eqn:Hpg; [|done].
  pose proof (page_of_ok _ _ _ Hd Hpg) as Hok.
  pose proof (proj2 (proj2 (proj1 (page_of_Some _ _ _) Hpg))) as [Hocc _].
  specialize (Ht pg eq_refl). rewrite Ht. cbn [negb]. unfold write_page. unfold_M.
  eapply local_write; [exact Hpg|]. unfold transfer_destination in Ht. bool_facts.
  destruct writer; page_step_tac.
Qed.

Lemma publish_device_replica_local : local_result s h (publish_device_replica h s).
Proof.
  unfold publish_device_replica. local_call.
  destruct (device_replica pg) eqn:Hdev; [done|].
  assert (Hl : page_leases (set_pins (source_pins_ pg) false (set_device (pending_device_replica pg) None pg))
    ≡ₚ page_leases pg).
  { unfold page_leases. cbn. rewrite Hdev. by rewrite app_nil_r. }
  destruct Hok. split; try done; cbn.
  - split; cbn; try done; try congruence. auto.
  - left. done.
Qed.

Lemma attach_host_replica_local replica : local_result s h (attach_host_replica h replica s).
Proof.
  unfold attach_host_replica, can_attach_host_replica, query. local_call.
  page_step_tac. intros r [= <-]. split_and!; [done|lia|done].
Qed.

(** A host extent moves: the replica keeps what it holds. *)
Definition rebindable (pg : Page) (expected replacement : HostKVPageReplica) : Prop :=
  exists host, host_replica_ pg = Some host /\
    hr_extent host = hr_extent expected /\ hr_page_offset host = hr_page_offset expected /\
    hr_membership_node host = hr_membership_node expected /\
    hr_content_epoch host = hr_content_epoch expected /\
    hr_committed_columns host = hr_committed_columns expected /\
    hr_content_epoch expected = content_epoch_ pg /\ extent_valid (hr_extent replacement) = true /\
    hr_membership_node replacement = hr_membership_node expected /\
    hr_content_epoch replacement = hr_content_epoch expected /\
    hr_committed_columns replacement = hr_committed_columns expected.

Lemma rebind_host_replica_local expected replacement pg :
  page_of s h = Some pg -> rebindable pg expected replacement ->
  local_result s h (rebind_host_replica h expected replacement s).
Proof.
  intros Hpg (host & Hh & Hx & Ho & Hm & He & Hc & Hep & Hv & Hm' & He' & Hc').
  pose proof (page_of_ok _ _ _ Hd Hpg) as Hok.
  pose proof (proj2 (proj2 (proj1 (page_of_Some _ _ _) Hpg))) as [Hocc _].
  unfold rebind_host_replica. unfold_M. rewrite Hpg, Hh, Hx, Ho, Hm, He, Hc, Hep, Hv, Hm', He', Hc'.
  rewrite bool_decide_eq_true_2, !Z.eqb_refl by done. cbn [negb orb]. rewrite Hep, Z.eqb_refl. cbn [negb orb].
  unfold write_page. unfold_M. eapply local_write; [exact Hpg|].
  pose proof (po_host _ Hok _ Hh) as (? & ? & ?). page_step_tac.
  - rewrite Hh in Hresident. rewrite He', Hc', <- He, <- Hc. done.
  - intros r [= <-]. split_and!; [congruence|lia|done].
Qed.
End local_calls.

(** ** Returning a descriptor *)

Definition released_page (pg : Page) : Page :=
  set_slot (increment_generation (generation pg)) false (set_content (content_epoch_ pg) 0 0 initial_page).

(** The store after page [i] lost its replicas and its descriptor; [p] is the pool afterwards. *)
Definition retire (i : Z) (pg : Page) (p : DeviceKVPagePool) (s : Store) : Store :=
  set_free (set_index (free_ s) (free_count_ s) i) (free_count_ s + 1)
    (set_page_at i (released_page pg) (set_physical p s)).

Lemma set_page_at_twice i a b s : set_page_at i a (set_page_at i b s) = set_page_at i a s.
Proof. unfold set_page_at, set_pages, set_index. cbn. by rewrite list_insert_insert_eq. Qed.

Lemma set_page_at_physical i a p s :
  set_page_at i a (set_physical p s) = set_physical p (set_page_at i a s).
Proof. done. Qed.

Lemma increment_generation_bounds pg : page_ok pg -> page_ok (released_page pg).
Proof.
  intros Hok. pose proof (po_epoch _ Hok). pose proof (po_generation _ Hok).
  pose proof (increment_generation_range (generation pg)).
  split; cbn; unfold kPagedKVPageSize; try done; lia.
Qed.

(** A descriptor in use is not on the free stack, so the stack has room. *)
Lemma free_room s i pg :
  desc_inv s -> at_index (pages_ s) i = Some pg -> occupied pg = true -> free_count_ s < capacity s.
Proof.
  intros Hd Hi Ho. pose proof (dc_count _ Hd). pose proof (dc_free_length _ Hd).
  assert (i :: free_stack s ⊆+ seqZ 0 (capacity s)) as Hsub%submseteq_length.
  { apply NoDup_submseteq.
    - constructor; [|apply (dc_distinct _ Hd)]. rewrite (dc_free _ Hd). intros (q & Hq & Hf). congruence.
    - intros j Hj. rewrite elem_of_seqZ. apply elem_of_cons in Hj as [->|Hj].
      + apply at_index_lt in Hi. unfold capacity. lia.
      + apply (dc_free _ Hd) in Hj as (q & Hq%at_index_lt & _). unfold capacity. lia. }
  cbn in Hsub. rewrite length_seqZ in Hsub. unfold free_stack in Hsub. rewrite length_take in Hsub.
  unfold capacity in *. lia.
Qed.

Lemma free_stack_push s i p pg :
  desc_inv s -> free_count_ s < capacity s ->
  free_stack (retire i pg p s) = free_stack s ++ [i].
Proof.
  intros Hd Hlt. pose proof (dc_count _ Hd). pose proof (dc_free_length _ Hd). unfold capacity in *.
  unfold free_stack, retire, set_index. cbn [free_ free_count_ set_free set_page_at set_pages set_physical].
  replace (Z.to_nat (free_count_ s + 1)) with (S (Z.to_nat (free_count_ s))) by lia.
  rewrite (take_S_r _ _ i) by (apply list_lookup_insert_eq; lia).
  by rewrite take_insert_ge by lia.
Qed.

Lemma retire_inv s R R' E h pg p rest :
  kv_inv s R E -> page_of s h = Some pg ->
  (forall pg', store_leases (set_page_at (lh_index h) pg' s) ≡ₚ page_leases pg' ++ rest) ->
  phys_inv p R' (rest ++ E) -> kv_inv (retire (lh_index h) pg p s) R' E.
Proof.
  intros [_ Hd] Hpg Hrest Hp. pose proof (page_of_ok _ _ _ Hd Hpg) as Hok.
  apply page_of_Some in Hpg as (_ & Hi & Ho & _). set (i := lh_index h) in *.
  pose proof (free_room _ _ _ Hd Hi Ho) as Hroom. pose proof (dc_count _ Hd).
  split.
  - change (store_leases (retire i pg p s)) with (store_leases (set_page_at i (released_page pg) s)).
    change (physical_ (retire i pg p s)) with p. by rewrite Hrest.
  - split.
    + unfold capacity, retire. cbn. rewrite length_set_index. apply (dc_small _ Hd).
    + cbn. rewrite !length_set_index. apply (dc_free_length _ Hd).
    + unfold capacity, retire. cbn. rewrite length_set_index. unfold capacity in *. lia.
    + rewrite free_stack_push by done. apply NoDup_app. split_and!; [apply (dc_distinct _ Hd)| |apply NoDup_singleton].
      intros j Hj ->%list_elem_of_singleton. apply (dc_free _ Hd) in Hj as (q & ? & ?). congruence.
    + intros j. rewrite free_stack_push, elem_of_app, list_elem_of_singleton, (dc_free _ Hd) by done.
      change (pages_ (retire i pg p s)) with (pages_ (set_page_at i (released_page pg) s)).
      setoid_rewrite (at_set_page_at s i j pg _ Hi). case_decide as Hij.
      * subst j. split; [intros _; by eexists|by right].
      * split; [intros [?|?]; [done|congruence]|by left].
    + intros j q. change (pages_ (retire i pg p s)) with (pages_ (set_page_at i (released_page pg) s)).
      rewrite (at_set_page_at s i j pg _ Hi). case_decide; [|by apply dc_pages].
      intros [= <-]. by apply increment_generation_bounds.
Qed.

(** ** Taking a descriptor *)

(** The store after the top free descriptor, [i], was bound to [pg]. *)
Definition bind_top (i : Z) (pg : Page) (p : DeviceKVPagePool) (s : Store) : Store :=
  set_free (free_ s) (free_count_ s - 1) (set_page_at i pg (set_physical p s)).

Lemma free_top s :
  desc_inv s -> 0 < free_count_ s ->
  exists i pg, at_index (free_ s) (free_count_ s - 1) = Some i /\ at_index (pages_ s) i = Some pg /\
    occupied pg = false /\ page_ok pg /\
    free_stack s = take (Z.to_nat (free_count_ s - 1)) (free_ s) ++ [i].
Proof.
  intros Hd Hpos. pose proof (dc_count _ Hd). pose proof (dc_free_length _ Hd). unfold capacity in *.
  destruct (at_index_is_Some (free_ s) (free_count_ s - 1)) as [i Hi]; [lia|].
  assert (free_stack s = take (Z.to_nat (free_count_ s - 1)) (free_ s) ++ [i]) as Hst.
  { unfold free_stack. replace (Z.to_nat (free_count_ s)) with (S (Z.to_nat (free_count_ s - 1))) by lia.
    apply at_index_Some in Hi as [_ Hi]. by apply take_S_r. }
  assert (i ∈ free_stack s) as (pg & Hpg & Ho)%(dc_free _ Hd).
  { rewrite Hst. apply elem_of_app. right. by left. }
  exists i, pg. split_and!; try done. by eapply dc_pages.
Qed.

Lemma free_page_empty pg : page_ok pg -> occupied pg = false -> page_leases pg = [].
Proof. intros Hok Ho. by rewrite (po_free _ Hok Ho). Qed.

Lemma bind_top_inv s R' E E' i pg pg' p :
  desc_inv s -> 0 < free_count_ s -> at_index (free_ s) (free_count_ s - 1) = Some i ->
  at_index (pages_ s) i = Some pg -> page_ok pg' -> occupied pg' = true ->
  phys_inv p R' (store_leases s ++ E) -> page_leases pg' ++ E' ≡ₚ E ->
  kv_inv (bind_top i pg' p s) R' E'.
Proof.
  intros Hd Hpos Htop Hi Hok Ho Hp Hl. pose proof (dc_count _ Hd). pose proof (dc_free_length _ Hd) as Hlen.
  destruct (free_top s Hd Hpos) as (i' & q & Htop' & Hi' & Hq & Hqok & Hst).
  rewrite Htop in Htop'. injection Htop' as <-. rewrite Hi in Hi'. injection Hi' as <-.
  destruct (store_leases_split s _ _ Hi) as (rest & Hrest & Hrest').
  rewrite (free_page_empty pg) in Hrest by done. pose proof (dc_distinct _ Hd) as Hnd.
  rewrite Hst, NoDup_app in Hnd. destruct Hnd as (Hnd & Hni & _).
  split.
  - change (store_leases (bind_top i pg' p s)) with (store_leases (set_page_at i pg' s)).
    change (physical_ (bind_top i pg' p s)) with p. rewrite Hrest', <- app_assoc.
    rewrite Hrest in Hp. cbn in Hp. rewrite <- Hl in Hp.
    rewrite (app_assoc rest), (Permutation_app_comm rest), <- app_assoc in Hp. done.
  - assert (free_stack (bind_top i pg' p s) = take (Z.to_nat (free_count_ s - 1)) (free_ s)) as Hst' by done.
    split.
    + unfold capacity. cbn. rewrite length_set_index. apply (dc_small _ Hd).
    + cbn. by rewrite length_set_index.
    + unfold capacity in *. cbn. rewrite length_set_index. lia.
    + by rewrite Hst'.
    + intros j. rewrite Hst'. pose proof (dc_free _ Hd j) as Hj. rewrite Hst, elem_of_app, list_elem_of_singleton in Hj.
      change (pages_ (bind_top i pg' p s)) with (pages_ (set_page_at i pg' s)).
      setoid_rewrite (at_set_page_at s i j pg _ Hi). case_decide as Hij.
      * subst j. split; [|intros (? & [= <-] & ?); congruence].
        intros Hin. exfalso. apply (Hni _ Hin). by left.
      * rewrite <- Hj. split; [by left|]. intros [?|?]; [done|congruence].
    + intros j r. change (pages_ (bind_top i pg' p s)) with (pages_ (set_page_at i pg' s)).
      rewrite (at_set_page_at s i j pg _ Hi). case_decide; [by intros [= <-]|by apply dc_pages].
Qed.

(** ** Calls that bind device pages *)

(** What a call on the [k]-th reservation promises. *)
Definition reservation_call {A} (s : Store) (R : list DeviceKVPageReservation) (k : nat)
    (out : Store * result (DeviceKVPageReservation * A)) : Prop :=
  match out with
  | (s', Ok (r', _)) => kv_inv s' (<[k := r']> R) [] /\ evolves s s'
  | (s', Throw e) => s' = s /\ e <> Terminate
  end.

Lemma set_physical_same s : set_physical (physical_ s) s = s.
Proof. by destruct s. Qed.

Lemma desc_inv_physical p s : desc_inv s -> desc_inv (set_physical p s).
Proof. by intros []. Qed.

Lemma take_device_page s R k r :
  kv_inv s R [] -> R !! k = Some r ->
  match on_pool (materialize_one r) s with
  | (s', Ok (r', x)) =>
      exists p', s' = set_physical p' s /\ phys_inv p' (<[k := r']> R) (store_leases s ++ [x]) /\ 0 < rs_pages r
  | (s', Throw e) => s' = s /\ e <> Terminate
  end.
Proof.
  intros [Hp Hd] Hk. rewrite app_nil_r in Hp.
  pose proof (materialize_one_spec _ _ _ (phys_owned _ _ _ _ _ Hp Hk)) as Hm. unfold on_pool.
  destruct (materialize_one r (physical_ s)) as [p' [[r' x]|e]].
  - destruct Hm as [Hpos Hstep]. exists p'. split_and!; [done| |done]. by eapply phys_step.
  - destruct Hm as (-> & -> & _). by rewrite set_physical_same.
Qed.

Lemma pop_descriptor_eq s i pg :
  desc_inv s -> 0 < free_count_ s -> at_index (free_ s) (free_count_ s - 1) = Some i ->
  at_index (pages_ s) i = Some pg ->
  pop_descriptor s = (set_free (free_ s) (free_count_ s - 1) s, Ok (i, pg)).
Proof.
  intros Hd Hpos Hi Hpg. pose proof (dc_count _ Hd). pose proof (dc_small _ Hd).
  unfold pop_descriptor. unfold_M. rewrite w32_small by lia. by rewrite Hi, Hpg.
Qed.

Lemma bind_page_ok lease columns refs writer pg :
  page_ok pg -> occupied pg = false -> 0 <= columns <= kPagedKVPageSize -> 0 <= writer <= 1 ->
  0 <= refs <= 1 -> forall pinned, page_ok (bind_page lease columns refs writer pinned pg).
Proof.
  intros Hok Ho Hc Hw Hr pinned. pose proof (po_epoch _ Hok). pose proof (po_generation _ Hok).
  pose proof (next_epoch_range _ (po_epoch _ Hok)). rewrite (po_free _ Hok Ho).
  split; cbn; unfold kPagedKVPageSize in *; try done; try lia.
Qed.

Lemma bind_page_evolves lease columns refs writer pinned pg :
  page_evolves pg (bind_page lease columns refs writer pinned pg).
Proof. by right. Qed.

(** Binding the top descriptor to a lease in flight. *)
Lemma emplace_top s R E lease columns refs writer i pg p pinned :
  desc_inv s -> 0 < free_count_ s -> at_index (free_ s) (free_count_ s - 1) = Some i ->
  at_index (pages_ s) i = Some pg -> phys_inv p R (store_leases s ++ lease :: E) ->
  0 <= columns <= kPagedKVPageSize -> 0 <= writer <= 1 -> 0 <= refs <= 1 ->
  let pg' := bind_page lease columns refs writer pinned pg in
  kv_inv (bind_top i pg' p s) R E /\ evolves s (bind_top i pg' p s) /\
  (forall t, emplace_page i pg lease columns refs writer pinned t =
    (set_page_at i pg' t, Ok (mkLogical (Some (st_self t)) i (generation pg)))).
Proof.
  intros Hd Hpos Htop Hi Hp Hc Hw Hr pg'.
  destruct (free_top s Hd Hpos) as (i' & q & Htop' & Hi' & Hq & Hqok & _).
  rewrite Htop in Htop'. injection Htop' as <-. rewrite Hi in Hi'. injection Hi' as <-.
  pose proof (bind_page_ok lease columns refs writer pg Hqok Hq Hc Hw Hr pinned) as Hok'.
  split_and!.
  - eapply bind_top_inv; try done. subst pg'. rewrite (po_free _ Hqok Hq). done.
  - eapply (evolves_write _ _ i pg pg'); [done..|apply bind_page_evolves].
  - intros t. subst pg'. unfold emplace_page. unfold_M. rewrite (po_free _ Hqok Hq). cbn [device_replica].
    cbn [destroy_optional set_slot set_content initial_page device_replica]. by rewrite set_physical_same.
Qed.

(** A page as [materialize] leaves it: one writing reference, nothing committed. *)
Record fresh_page (pg : Page) : Prop := {
  fp_refs : references pg = 1 /\ active_references pg = 0 /\ writer_references_ pg = 1;
  fp_pins : source_pins_ pg = 0 /\ destination_pinned pg = false;
  fp_content : committed_columns_ pg = 0 /\ protected_columns_ pg = 0;
  fp_replicas : has (device_replica pg) = true /\ host_replica_ pg = None;
}.

Lemma bind_page_fresh lease pg :
  page_ok pg -> occupied pg = false -> fresh_page (bind_page lease 0 1 1 (destination_pinned pg) pg).
Proof. intros Hok Ho. rewrite (po_free _ Hok Ho). split; cbn; split_and!; done. Qed.

(** What binding free descriptors for the handles [hs] does to the pages. *)
Record bound_pages (s s' : Store) (P : Page -> Prop) (hs : list LogicalKVPageHandle) : Prop := {
  bp_distinct : NoDup (lh_index <$> hs);
  bp_new : Forall (fun h => exists pg, page_of s' h = Some pg /\ P pg) hs;
  bp_free : Forall (fun h => forall pg, at_index (pages_ s) (lh_index h) = Some pg -> occupied pg = false) hs;
  bp_same : forall j, j ∉ lh_index <$> hs -> at_index (pages_ s') j = at_index (pages_ s) j;
}.

(** What a call on the [k]-th reservation promises that binds one page. *)
Definition bound_call (s : Store) (R : list DeviceKVPageReservation) (k : nat) (P : Page -> Prop)
    (out : Store * result (DeviceKVPageReservation * LogicalKVPageHandle)) : Prop :=
  match out with
  | (s', Ok (r', h)) => kv_inv s' (<[k := r']> R) [] /\ evolves s s' /\
      (forall r, R !! k = Some r -> rs_pages r' = rs_pages r - 1) /\ bound_pages s s' P [h]
  | (s', Throw e) => s' = s /\ e <> Terminate
  end.

Lemma bound_reservation_call s R k P out : bound_call s R k P out -> reservation_call s R k out.
Proof. destruct out as [s' [[r' h]|e]]; cbn; tauto. Qed.

Lemma kv_phys_nil s R : kv_inv s R [] -> phys_inv (physical_ s) R (store_leases s).
Proof. intros [Hp _]. by rewrite app_nil_r in Hp. Qed.

(** The two calls that bind one page. *)
Lemma materialize_one_page s R k r columns refs writer (pinned : Page -> bool) :
  kv_inv s R [] -> R !! k = Some r -> 0 < free_count_ s ->
  0 <= columns <= kPagedKVPageSize -> 0 <= writer <= 1 -> 0 <= refs <= 1 ->
  bound_call s R k (fun pg => exists x pg0, page_ok pg0 /\ occupied pg0 = false /\
      pg = bind_page x columns refs writer (pinned pg0) pg0)
    ((  '(r, lease) ← on_pool (materialize_one r);
        '(index, pg) ← pop_descriptor;
        h ← emplace_page index pg lease columns refs writer (pinned pg);
        mret (r, h)) s).
Proof.
  intros Hinv Hk Hpos Hc Hw Hr. pose proof (take_device_page s R k r Hinv Hk) as Htake.
  pose proof (materialize_one_pages (physical_ s) r (store_leases s)) as Hpages.
  specialize (Hpages) with (1 := phys_owned _ _ _ _ _ (kv_phys_nil _ _ Hinv) Hk).
  destruct Hinv as [Hp Hd]. destruct (free_top s Hd Hpos) as (i & pg & Htop & Hi & Ho & Hok & _).
  cbv [mbind M_bind]. unfold on_pool in *.
  destruct (materialize_one r (physical_ s)) as [p1 [[r' x]|e]] eqn:Heqm; [|done].
  specialize (Hpages _ _ _ eq_refl). destruct Htake as (p' & Heqp & Hp' & _). rewrite Heqp.
  assert (pop_descriptor (set_physical p' s) =
    (set_free (free_ s) (free_count_ s - 1) (set_physical p' s), Ok (i, pg))) as ->.
  { apply (pop_descriptor_eq (set_physical p' s)); [by apply desc_inv_physical|done..]. }
  destruct (emplace_top s (<[k := r']> R) [] x columns refs writer i pg p' (pinned pg))
    as (Hinv' & Hev & Heq); try done.
  rewrite Heq. split_and!; [done|done|intros ? Hk'; congruence|].
  set (pg' := bind_page _ _ _ _ _ _) in *.
  assert (forall j, at_index (pages_ (bind_top i pg' p' s)) j = if decide (i = j) then Some pg' else at_index (pages_ s) j)
    as Hs'.
  { intros j. apply (at_set_page_at s i j pg _ Hi). }
  split.
  - apply NoDup_singleton.
  - apply Forall_singleton. exists pg'. split; [|by exists x, pg].
    apply page_of_Some. cbn [lh_owner lh_index lh_generation]. split_and!; [done| |done|done].
    etransitivity; [apply Hs'|]. by rewrite decide_True.
  - apply Forall_singleton. cbn. congruence.
  - intros j. cbn. rewrite list_elem_of_singleton. intros Hj. etransitivity; [apply Hs'|].
    by rewrite decide_False by done.
Qed.

Lemma materialize_call s R k r :
  kv_inv s R [] -> R !! k = Some r -> reservation_call s R k (materialize r s).
Proof.
  intros Hinv Hk. unfold materialize. pose proof (dc_count _ (kv_desc _ _ _ Hinv)).
  destruct (Z.eqb_spec (free_count_ s) 0) as [Hz|Hz].
  - unfold_M. rewrite Hz. done.
  - pose proof (materialize_one_page s R k r 0 1 1 destination_pinned Hinv Hk) as Hone.
    cbv [mbind M_bind mget mthrow_if mlift throw_if] in *. destruct (Z.eqb_spec (free_count_ s) 0); [done|].
    apply bound_reservation_call in Hone; [apply Hone|..]; unfold kPagedKVPageSize; lia.
Qed.

Lemma materialize_transfer_call s R k r columns :
  kv_inv s R [] -> R !! k = Some r -> 0 <= columns ->
  bound_call s R k (fun pg => transfer_destination pg = true /\ committed_columns_ pg = columns /\
      active_references pg = 0)
    (materialize_transfer_destination r columns s).
Proof.
  intros Hinv Hk Hc. unfold materialize_transfer_destination. pose proof (dc_count _ (kv_desc _ _ _ Hinv)).
  pose proof (materialize_one_page s R k r columns 0 0 (fun _ => true) Hinv Hk) as Hone.
  cbv [mbind M_bind mget mthrow_if mlift throw_if] in *.
  destruct ((columns =? 0) || (kPagedKVPageSize <? columns) || (free_count_ s =? 0)) eqn:Hg; [done|].
  bool_facts. match goal with |- bound_call _ _ _ _ ?out => destruct out as [s' [[r' h]|e]] end.
  - destruct Hone as (? & ? & ? & [? Hnew ? ?]); [lia..|]. split_and!; [done..|]. split; [done| |done|done].
    apply (Forall_impl _ _ _ Hnew). intros q (pg & Hq & x & pg0 & Hok & Ho & ->). eexists. split; [done|].
    by rewrite (po_free _ Hok Ho).
  - apply Hone; lia.
Qed.

(** The binding loop of the batch: the top [length leases] descriptors, from the top down. *)
Lemma bind_batch_spec leases : forall s R offset,
  kv_inv s R leases -> Z.of_nat (length leases) <= free_count_ s ->
  exists s' hs,
    bind_batch offset leases (set_free (free_ s) (free_count_ s + offset) s) =
      (set_free (free_ s') (free_count_ s' + (offset + Z.of_nat (length leases))) s', Ok hs) /\
    kv_inv s' R [] /\ evolves s s' /\
    (forall j q, at_index (pages_ s) j = Some q -> occupied q = true -> at_index (pages_ s') j = Some q) /\
    free_count_ s' = free_count_ s - Z.of_nat (length leases) /\ length hs = length leases /\
    bound_pages s s' fresh_page hs.
Proof.
  induction leases as [|x leases IH]; intros s R offset [Hp Hd] Hn.
  { exists s, []. cbn [bind_batch]. unfold_M. rewrite !Z.add_0_r. split_and!; try done; [apply evolves_refl| |].
    - cbn. lia.
    - split; [apply NoDup_nil_2|done|done|done]. }
  rewrite length_cons, Nat2Z.inj_succ in *.
  destruct (free_top s Hd ltac:(lia)) as (i & pg & Htop & Hi & Ho & Hok & _).
  destruct (emplace_top s R leases x 0 1 1 i pg (physical_ s) (destination_pinned pg))
    as (Hinv1 & Hev1 & Heq); try (done || lia).
  set (pg' := bind_page x 0 1 1 (destination_pinned pg) pg) in *.
  set (s1 := bind_top i pg' (physical_ s) s) in *.
  destruct (IH s1 R (offset + 1) Hinv1 ltac:(cbn; lia)) as (s' & hs & Hb & Hinv' & Hev' & Hkeep & Hc & Hl & Hbp).
  assert (forall j, at_index (pages_ s1) j = if decide (i = j) then Some pg' else at_index (pages_ s) j) as Hs1.
  { intros j. apply (at_set_page_at s i j pg _ Hi). }
  exists s', (mkLogical (Some (st_self s)) i (generation pg) :: hs).
  cbn [bind_batch]. cbv [mbind M_bind mget]. cbn [free_ free_count_ set_free pages_].
  replace (free_count_ s + offset - 1 - offset) with (free_count_ s - 1) by lia. rewrite Htop, Hi, Heq.
  assert (set_page_at i pg' (set_free (free_ s) (free_count_ s + offset) s) =
    set_free (free_ s1) (free_count_ s1 + (offset + 1)) s1) as ->.
  { unfold s1, bind_top, set_page_at, set_pages, set_free, set_physical. cbn. f_equal. lia. }
  rewrite Hb. split_and!; try done.
  - unfold mret, M_ret. do 2 f_equal. lia.
  - split.
    + rewrite (ev_self _ _ Hev'). apply Hev1.
    + rewrite (ev_length _ _ Hev'). apply Hev1.
    + intros j q q' Hj Hj'. destruct (decide (i = j)) as [->|Hne].
      * assert (at_index (pages_ s') j = Some pg') as Hpg'.
        { apply Hkeep; [|done]. change (pages_ s1) with (pages_ (set_page_at j pg' s)).
          rewrite (at_set_page_at s j j pg _ Hi). by rewrite decide_True. }
        rewrite Hi in Hj. injection Hj as <-. rewrite Hpg' in Hj'. injection Hj' as <-. apply bind_page_evolves.
      * apply (ev_pages _ _ Hev' j q q'); [|done]. change (pages_ s1) with (pages_ (set_page_at i pg' s)).
        rewrite (at_set_page_at s i j pg _ Hi). by rewrite decide_False.
  - intros j q Hj Hq. apply Hkeep; [|done]. change (pages_ s1) with (pages_ (set_page_at i pg' s)).
    rewrite (at_set_page_at s i j pg _ Hi). case_decide; [congruence|done].
  - rewrite Hc. cbn. lia.
  - cbn. by rewrite Hl.
  - assert (i ∉ lh_index <$> hs) as Hni.
    { intros (h & -> & Hh)%list_elem_of_fmap. pose proof (proj1 (Forall_forall _ _) (bp_free _ _ _ _ Hbp) h Hh pg').
      rewrite Hs1, decide_True in H by done. by specialize (H eq_refl). }
    split.
    + cbn. by constructor; [|apply Hbp].
    + constructor; [|apply Hbp]. exists pg'. split; [|by apply bind_page_fresh].
      apply page_of_Some. cbn. split_and!; [|by apply Hkeep; [rewrite Hs1, decide_True|]|done|done].
      by rewrite (ev_self _ _ Hev').
    + constructor; [cbn; congruence|]. apply (Forall_impl _ _ _ (bp_free _ _ _ _ Hbp)). intros h Hh q Hq.
      apply (Hh q). rewrite Hs1. case_decide; [|done]. subst i. exfalso. rewrite Hs1, decide_True in Hh by done.
      by specialize (Hh _ eq_refl).
    + intros j. cbn. rewrite not_elem_of_cons. intros [Hne Hj]. rewrite (bp_same _ _ _ _ Hbp j Hj), Hs1.
      by rewrite decide_False by congruence.
Qed.

(** New leases next to the ones the store holds. *)
Lemma phys_extend p p' R k r r' l l' :
  phys_inv p R l -> R !! k = Some r -> bound_step p p' r r' [] l' -> phys_inv p' (<[k := r']> R) (l ++ l').
Proof.
  intros Hph Hk Hstep. pose proof Hph as [Hp Ho Hr Ha Hok Hnd]. destruct Hstep.
  assert (forall x, x ∈ l -> at_index (page_allocated p) (ls_index x) = Some true) as Halive.
  { intros x Hx. rewrite Forall_forall in Hok. by apply (lease_ok_iff p), Hok. }
  split; try done.
  - rewrite bs_self. apply Forall_insert; [done|]. rewrite Forall_lookup in Ho.
    destruct (Ho _ _ Hk). split; [congruence|done].
  - rewrite (sum_with_insert _ _ _ r) by done. lia.
  - rewrite length_app. cbn in bs_allocated. lia.
  - apply Forall_app. split; [|done]. apply Forall_forall. intros x Hx. rewrite Forall_forall in Hok.
    pose proof (Hok x Hx) as (Hox & Hax & Hgx)%lease_ok_iff; [|done].
    destruct (bs_frame (ls_index x)) as [Ha' Hg']; [apply not_elem_of_nil|done|].
    apply lease_ok_iff; [done|]. rewrite bs_self, Hg'. done.
  - rewrite fmap_app. apply NoDup_app. split_and!; [done| |done].
    intros z (x & -> & Hx)%list_elem_of_fmap Hz. destruct (bs_new _ Hz) as [Hn|Hf].
    + by apply not_elem_of_nil in Hn.
    + rewrite (Halive x Hx) in Hf. discriminate.
Qed.

Lemma check_free_ok s n : forall offset,
  desc_inv s -> Z.of_nat offset + Z.of_nat n <= free_count_ s -> check_free s (seq offset n) = Ok tt.
Proof.
  induction n as [|n IH]; intros offset Hd Hn; cbn; [done|].
  pose proof (dc_count _ Hd). pose proof (dc_free_length _ Hd). unfold capacity in *.
  destruct (at_index_is_Some (free_ s) (free_count_ s - 1 - Z.of_nat offset)) as [i Hi]; [lia|].
  rewrite Hi. assert (i ∈ free_stack s) as (pg & Hpg & Ho)%(dc_free _ Hd).
  { apply at_index_Some in Hi as [_ Hi]. apply list_elem_of_lookup.
    exists (Z.to_nat (free_count_ s - 1 - Z.of_nat offset)). unfold free_stack. rewrite lookup_take_lt by lia. exact Hi. }
  rewrite Hpg, Ho. cbn. apply IH; [done|lia].
Qed.

Lemma materialize_batch_call s R k r destinations predecessor :
  kv_inv s R [] -> R !! k = Some r ->
  match materialize_batch r destinations predecessor s with
  | (s', Ok (r', hs)) =>
      kv_inv s' (<[k := r']> R) [] /\ evolves s s' /\ length hs = length destinations /\
      rs_pages r' = rs_pages r - Z.of_nat (length hs) /\ bound_pages s s' fresh_page hs
  | (s', Throw e) => s' = s /\ e <> Terminate
  end.
Proof.
  intros Hinv Hk. unfold materialize_batch.
  case_bool_decide as Hnil.
  { subst. unfold_M. rewrite list_insert_id by done. split_and!; [done|apply evolves_refl|done|cbn; lia|].
    split; [apply NoDup_nil_2|done|done|done]. }
  cbv [mbind M_bind mget mthrow_if mlift throw_if].
  destruct ((free_count_ s <? Z.of_nat (length destinations)) ||
    (scratch_capacity s <? Z.of_nat (length destinations))) eqn:Hg; [done|]. bool_facts.
  destruct (existsb handle_valid destinations); [done|].
  pose proof (kv_desc _ _ _ Hinv) as Hd. rewrite check_free_ok by (done || cbn; lia).
  set (n := Z.of_nat (length destinations)) in *.
  destruct (physical_predecessor s predecessor) as [pred|e] eqn:Hpred.
  2: { split; [done|]. unfold physical_predecessor, physical, require in Hpred. unfold_M.
       by repeat case_match; simplify_eq. }
  pose proof (phys_owned _ _ _ _ _ (kv_phys _ _ _ Hinv) Hk) as Hown.
  assert (owned (physical_ s) r []) as Hown0.
  { destruct Hown. split; done || constructor. }
  pose proof (dc_count _ Hd). pose proof (dc_small _ Hd).
  pose proof (materialize_spec (physical_ s) r n [] (scratch_capacity s) pred Hown0 ltac:(lia)) as Hm.
  unfold on_pool. destruct (DevicePagePool.materialize _ _ _ _ _ _) as [p' [[r' scratch]|e]].
  2: { destruct Hm as (-> & -> & _). by rewrite set_physical_same. }
  destruct Hm as (_ & Hstep & Hpages & Hlen & _).
  assert (kv_inv (set_physical p' s) (<[k := r']> R) scratch) as Hinv'.
  { split; [|by apply desc_inv_physical]. change (store_leases (set_physical p' s)) with (store_leases s).
    pose proof (kv_phys _ _ _ Hinv) as Hp. rewrite app_nil_r in Hp. by eapply phys_extend. }
  destruct (bind_batch_spec scratch _ _ 0 Hinv') as (s' & hs & Hb & Hi & Hev & _ & Hc & Hl & Hbp); [cbn; lia|].
  rewrite Z.add_0_r in Hb. 
  change (set_free (free_ (set_physical p' s)) (free_count_ (set_physical p' s)) (set_physical p' s))
    with (set_physical p' s) in Hb.
  rewrite Hb. cbv [mmodify mret M_ret]. cbn [free_ free_count_ set_free].
  change (free_count_ (set_physical p' s)) with (free_count_ s) in Hc.
  rewrite w32_small by (rewrite Hlen; lia).
  assert (set_free (free_ s') (free_count_ s' + (0 + Z.of_nat (length scratch)) - n)
    (set_free (free_ s') (free_count_ s' + (0 + Z.of_nat (length scratch))) s') = s') as ->.
  { destruct s'. unfold set_free. cbn. f_equal. lia. }
  split_and!; [done| |lia|rewrite Hpages, Hl; cbn; lia|].
  - destruct Hev. by split.
  - destruct Hbp. by split.
Qed.

(** ** Calls that return device pages *)

(** [release_descriptor] on a page without device replica, wherever its fields stand. *)
Lemma release_descriptor_eq t h pg q :
  at_index (pages_ t) (lh_index h) = Some q -> 0 <= free_count_ t < Z.of_nat (length (free_ t)) ->
  free_count_ t < u32_max -> active_references pg = 0 -> device_replica pg = None ->
  release_descriptor h pg t =
    (retire (lh_index h) pg (destroy_optional (pending_device_replica pg) (physical_ t)) t, Ok tt).
Proof.
  intros Hi Hc Hmax Ha Hd. unfold release_descriptor, reset_pending, write_page. unfold_M.
  rewrite Ha. cbn [negb Z.eqb]. cbn [free_ free_count_ set_page_at set_pages set_physical].
  destruct (Z.ltb_spec (free_count_ t) (Z.of_nat (length (free_ t)))); [|lia].
  rewrite w32_small by lia. rewrite set_page_at_twice. unfold retire, released_page.
  destruct pg. cbn in *. subst. done.
Qed.

(** The same within the invariant: [t] differs from [s] only in the page and the pool. *)
Lemma retire_call s R R' h pg0 pg t p rest E :
  kv_inv s R E -> page_of s h = Some pg0 ->
  (forall pg', store_leases (set_page_at (lh_index h) pg' s) ≡ₚ page_leases pg' ++ rest) ->
  t = set_page_at (lh_index h) pg (set_physical p s) \/ t = set_physical p s ->
  active_references pg = 0 -> device_replica pg = None -> generation pg = generation pg0 ->
  content_epoch_ pg = content_epoch_ pg0 ->
  phys_inv p R' (option_list (pending_device_replica pg) ++ rest ++ E) ->
  exists s', release_descriptor h pg t = (s', Ok tt) /\ kv_inv s' R' E /\ evolves s s' /\
    pages_ s' = pages_ (set_page_at (lh_index h) (released_page pg0) s).
Proof.
  intros Hinv Hpg Hrest Ht Ha Hdev Hgen Hep Hp. pose proof (kv_desc _ _ _ Hinv) as Hd.
  pose proof Hpg as (_ & Hi & Ho & _)%page_of_Some.
  pose proof (free_room _ _ _ Hd Hi Ho) as Hroom. pose proof (dc_count _ Hd). pose proof (dc_small _ Hd).
  pose proof (dc_free_length _ Hd) as Hlen. unfold capacity in *.
  apply phys_destroy in Hp as [Hp Hself].
  assert (retire (lh_index h) pg (destroy_optional (pending_device_replica pg) (physical_ t)) t =
    retire (lh_index h) pg0 (destroy_optional (pending_device_replica pg) p) s) as Heq.
  { unfold retire, released_page. rewrite Hgen, Hep.
    destruct Ht as [-> | ->]; rewrite <- ?set_page_at_physical, ?set_page_at_twice; done. }
  exists (retire (lh_index h) pg0 (destroy_optional (pending_device_replica pg) p) s). split_and!.
  - rewrite <- Heq. destruct (at_index_is_Some (pages_ t) (lh_index h)) as [q Hq].
    { apply at_index_lt in Hi. destruct Ht as [-> | ->]; cbn; rewrite ?length_set_index; done. }
    apply (release_descriptor_eq t h pg q); try done; destruct Ht as [-> | ->]; cbn; lia.
  - by eapply retire_inv.
  - eapply (evolves_write _ _ (lh_index h) pg0); [done|done|done|]. left. done.
  - done.
Qed.

(** [return_device]: the page goes back to the reservation. *)
Lemma return_device_eq s R k r h pg x rest :
  kv_inv s R [] -> R !! k = Some r -> page_of s h = Some pg -> device_replica pg = Some x ->
  store_leases s ≡ₚ page_leases pg ++ rest ->
  exists p' r', return_device (lh_index h) pg r s =
      (set_page_at (lh_index h) (set_device None (pending_device_replica pg) pg) (set_physical p' s),
       Ok (r', set_device None (pending_device_replica pg) pg)) /\
    phys_inv p' (<[k := r']> R) (option_list (pending_device_replica pg) ++ rest) /\
    rs_pages r' = rs_pages r + 1.
Proof.
  intros Hinv Hk Hpg Hx Hl. pose proof (kv_phys _ _ _ Hinv) as Hp. rewrite app_nil_r, Hl in Hp.
  unfold page_leases in Hp. rewrite Hx in Hp. cbn [option_list app] in Hp.
  set (l := option_list (pending_device_replica pg) ++ rest) in *.
  change ((x :: option_list (pending_device_replica pg)) ++ rest) with (x :: l) in Hp.
  pose proof (dematerialize_one_spec _ _ _ 0 x (phys_owned _ _ _ _ _ Hp Hk) eq_refl) as Hdm.
  pose proof (phys_owned _ _ _ _ _ Hp Hk) as Hown.
  unfold return_device, on_pool, write_page. unfold_M. rewrite Hx.
  destruct (dematerialize_one r x (physical_ s)) as [p' [r'|e]] eqn:Heq; [|done].
  exists p', r'. split_and!; [done|by eapply phys_step|by eapply dematerialize_one_pages].
Qed.

Lemma has_Some {A} (x : option A) : has x = true -> exists a, x = Some a.
Proof. destruct x; [by eexists|done]. Qed.

Lemma has_None {A} (x : option A) : has x = false -> x = None.
Proof. by destruct x. Qed.

(** [return_device] and [release_descriptor] in a row. *)
Lemma return_and_release s R k r h pg :
  kv_inv s R [] -> R !! k = Some r -> page_of s h = Some pg -> has (device_replica pg) = true ->
  active_references pg = 0 ->
  exists s' r',
    (  '(r, pg) ← return_device (lh_index h) pg r;
       _ ← release_descriptor h pg;
       mret r) s = (s', Ok r') /\
    kv_inv s' (<[k := r']> R) [] /\ evolves s s' /\ rs_pages r' = rs_pages r + 1 /\
    pages_ s' = pages_ (set_page_at (lh_index h) (released_page pg) s).
Proof.
  intros Hinv Hk Hpg [x Hx]%has_Some Ha. pose proof Hpg as (_ & Hi & _)%page_of_Some.
  destruct (store_leases_split s _ _ Hi) as (rest & Hl & Hl').
  destruct (return_device_eq s R k r h pg x rest Hinv Hk Hpg Hx Hl) as (p' & r' & Hret & Hp & Hr').
  destruct (retire_call s R (<[k := r']> R) h pg (set_device None (pending_device_replica pg) pg)
    (set_page_at (lh_index h) (set_device None (pending_device_replica pg) pg) (set_physical p' s)) p' rest [])
    as (s' & Hrel & Hinv' & Hev & Hpages); try done.
  { by left. }
  { cbn. by rewrite app_nil_r. }
  exists s', r'. cbv [mbind M_bind mret M_ret] in *. rewrite Hret. cbv beta iota. rewrite Hrel. done.
Qed.

Lemma dematerialize_call s R k r h :
  kv_inv s R [] -> R !! k = Some r ->
  (forall pg, page_of s h = Some pg -> active_references pg = 0) ->
  match dematerialize h r s with
  | (s', Ok r') => kv_inv s' (<[k := r']> R) [] /\ evolves s s'
  | (s', Throw e) => s' = s /\ e <> Terminate /\ can_dematerialize s h = false
  end.
Proof.
  intros Hinv Hk Ha. unfold dematerialize, require, can_dematerialize, query.
  pose proof (return_and_release s R k r h) as Hrr. cbv [mbind M_bind mget mthrow_if mlift throw_if] in *.
  destruct (page_of s h) as [pg|] eqn:Hpg; [|done].
  match goal with |- context [if ?b then Throw _ else Ok _] => destruct b eqn:Hg end.
  { split_and!; [done..|]. rewrite <- negb_true_iff, <- Hg, !negb_andb, !negb_involutive. done. }
  bool_facts. destruct (Hrr pg Hinv Hk eq_refl) as (s' & r' & Heq & ? & ? & _); [done|by apply Ha|].
  by rewrite Heq.
Qed.

(** A page that can be dematerialized is. *)
Lemma dematerialize_ok s R k r h pg :
  kv_inv s R [] -> R !! k = Some r -> page_of s h = Some pg -> active_references pg = 0 ->
  can_dematerialize s h = true ->
  exists s' r', dematerialize h r s = (s', Ok r') /\ kv_inv s' (<[k := r']> R) [] /\ evolves s s' /\
    rs_pages r' = rs_pages r + 1 /\ pages_ s' = pages_ (set_page_at (lh_index h) (released_page pg) s).
Proof.
  intros Hinv Hk Hpg Ha Hcan. unfold can_dematerialize, query in Hcan. rewrite Hpg in Hcan.
  unfold dematerialize, require. pose proof (return_and_release s R k r h pg Hinv Hk Hpg) as Hrr.
  cbv [mbind M_bind mget mthrow_if mlift throw_if] in *. rewrite Hpg.
  bool_facts. destruct Hrr as (s' & r' & Heq & H'); [done..|]. exists s', r'.
  repeat match goal with H : ?x = _ |- context [?x] => rewrite H end. done.
Qed.

Lemma abort_transfer_call s R k r h :
  kv_inv s R [] -> R !! k = Some r ->
  exists s' r', abort_transfer_destination h r s = (s', Ok r') /\ kv_inv s' (<[k := r']> R) [] /\ evolves s s' /\
    forall pg, page_of s h = Some pg -> transfer_destination pg = true ->
      rs_pages r' = rs_pages r + 1 /\ pages_ s' = pages_ (set_page_at (lh_index h) (released_page pg) s).
Proof.
  intros Hinv Hk. unfold abort_transfer_destination, noexcept.
  pose proof (return_and_release s R k r h) as Hrr. cbv [mbind M_bind mget mret M_ret] in *.
  assert (kv_inv s (<[k := r]> R) [] /\ evolves s s) as [Hsame Hev].
  { rewrite list_insert_id by done. split; [done|apply evolves_refl]. }
  destruct (page_of s h) as [pg|] eqn:Hpg; [|by eexists _, _].
  destruct (transfer_destination pg) eqn:Ht; cbn [negb].
  2: { eexists _, _. split_and!; [done..|]. intros ? [= <-]. congruence. }
  pose proof (page_of_ok _ _ _ (kv_desc _ _ _ Hinv) Hpg) as Hok.
  unfold transfer_destination in Ht. bool_facts. pose proof (po_refs _ Hok).
  destruct (Hrr pg Hinv Hk eq_refl) as (s' & r' & Heq & ? & ? & ? & ?); [done|lia|].
  rewrite Heq. eexists _, _. split_and!; [done..|]. by intros ? [= <-].
Qed.

Lemma reserve_device_replica_call s R k r h :
  kv_inv s R [] -> R !! k = Some r -> reservation_call s R k (reserve_device_replica h r s).
Proof.
  intros Hinv Hk. unfold reserve_device_replica, require, write_page.
  pose proof (take_device_page s R k r Hinv Hk) as Htake.
  cbv [mbind M_bind mget mthrow_if mlift throw_if mmodify] in *.
  destruct (page_of s h) as [pg|] eqn:Hpg; [|done].
  match goal with |- context [if ?b then Throw _ else Ok _] => destruct b eqn:Hg; [done|] end. bool_facts.
  destruct (on_pool (materialize_one r) s) as [s1 [[r' x]|e]]; [|done].
  destruct Htake as (p' & -> & Hp & _). pose proof (kv_desc _ _ _ Hinv) as Hd.
  pose proof (page_of_ok _ _ _ Hd Hpg) as Hok. apply page_of_Some in Hpg as (_ & Hi & Ho & _).
  destruct (store_leases_split s _ _ Hi) as (rest & Hl & Hl').
  set (pg' := set_pins _ true _).
  assert (has (device_replica pg) = false /\ has (pending_device_replica pg) = false)
    as [Hdev%has_None Hpend%has_None] by done.
  assert (page_ok pg') as Hok'.
  { destruct Hok. split; try done; cbn. intros Ho'. congruence. }
  split.
  - split.
    + change (phys_inv p' (<[k := r']> R) (store_leases (set_page_at (lh_index h) pg' s) ++ [])).
      rewrite app_nil_r, Hl'. rewrite Hl in Hp. unfold page_leases in *. cbn. rewrite Hdev, Hpend in *.
      cbn in *. by rewrite (Permutation_app_comm rest) in Hp.
    + eapply (desc_inv_write _ _ pg); [by apply (desc_inv_physical p')|done..].
  - eapply (evolves_write _ _ (lh_index h) pg pg'); [done..|]. left. done.
Qed.

Lemma abort_device_replica_call s R k r h :
  kv_inv s R [] -> R !! k = Some r ->
  exists s' r', abort_device_replica h r s = (s', Ok r') /\ kv_inv s' (<[k := r']> R) [] /\ evolves s s'.
Proof.
  intros Hinv Hk. unfold abort_device_replica, noexcept, on_pool, write_page.
  cbv [mbind M_bind mget mret M_ret mmodify].
  assert (kv_inv s (<[k := r]> R) [] /\ evolves s s) as Hsame.
  { rewrite list_insert_id by done. split; [done|apply evolves_refl]. }
  destruct (page_of s h) as [pg|] eqn:Hpg; [|by eexists _, _].
  destruct (pending_device_replica pg) as [x|] eqn:Hx; [|by eexists _, _].
  destruct (destination_pinned pg) eqn:Hpin; [|by eexists _, _].
  pose proof (kv_desc _ _ _ Hinv) as Hd. pose proof (page_of_ok _ _ _ Hd Hpg) as Hok.
  apply page_of_Some in Hpg as (_ & Hi & Ho & _).
  destruct (store_leases_split s _ _ Hi) as (rest & Hl & Hl').
  destruct (po_pending _ Hok) as [_ Hdev]; [by rewrite Hx|].
  pose proof (kv_phys _ _ _ Hinv) as Hp. rewrite app_nil_r, Hl in Hp. unfold page_leases in Hp.
  rewrite Hdev, Hx in Hp. cbn [option_list app] in Hp.
  pose proof (dematerialize_one_spec _ _ _ 0 x (phys_owned _ _ _ _ _ Hp Hk) eq_refl) as Hdm.
  destruct (dematerialize_one r x (physical_ s)) as [p' [r'|e]]; [|done].
  eexists _, r'. split; [reflexivity|]. set (pg' := set_pins _ false _).
  assert (page_ok pg') as Hok'.
  { destruct Hok. split; try done; cbn. intros Ho'. congruence. }
  split.
  - split.
    + change (phys_inv p' (<[k := r']> R) (store_leases (set_page_at (lh_index h) pg' s) ++ [])).
      rewrite app_nil_r, Hl'. unfold page_leases. cbn. rewrite Hdev. cbn. by eapply phys_step.
    + eapply (desc_inv_write _ _ pg); [by apply (desc_inv_physical p')|done..].
  - eapply (evolves_write _ _ (lh_index h) pg pg'); [done..|]. left. done.
Qed.

(** What a call without a reservation promises. *)
Definition plain_call {A} (s : Store) (R : list DeviceKVPageReservation) (out : Store * result A) : Prop :=
  kv_inv out.1 R [] /\ evolves s out.1 /\ out.2 <> Throw Terminate.

Lemma plain_same {A} s R (a : A) : kv_inv s R [] -> plain_call s R (s, Ok a).
Proof. intros. split_and!; [done|apply evolves_refl|done]. Qed.

(** Destroying the device lease of a page that stays in use. *)
Lemma drop_device_inv s R h pg :
  kv_inv s R [] -> page_of s h = Some pg -> page_ok (set_device None (pending_device_replica pg) pg) ->
  exists s', reset_device (lh_index h) pg s = (s', Ok (set_device None (pending_device_replica pg) pg)) /\
    s' = set_page_at (lh_index h) (set_device None (pending_device_replica pg) pg)
           (set_physical (destroy_optional (device_replica pg) (physical_ s)) s) /\
    kv_inv s' R [] /\ evolves s s'.
Proof.
  intros Hinv Hpg Hok'.
  exists (set_page_at (lh_index h) (set_device None (pending_device_replica pg) pg)
    (set_physical (destroy_optional (device_replica pg) (physical_ s)) s)). split; [done|]. split; [done|].
  pose proof (kv_desc _ _ _ Hinv) as Hd. pose proof Hpg as (_ & Hi & Ho & _)%page_of_Some.
  destruct (store_leases_split s _ _ Hi) as (rest & Hl & Hl'). set (pg' := set_device None _ pg) in *.
  pose proof (kv_phys _ _ _ Hinv) as Hp. rewrite app_nil_r, Hl in Hp. unfold page_leases in Hp.
  rewrite <- app_assoc in Hp. apply phys_destroy in Hp as [Hp Hself].
  split.
  - split.
    + change (phys_inv (destroy_optional (device_replica pg) (physical_ s)) R
        (store_leases (set_page_at (lh_index h) pg' s) ++ [])).
      by rewrite app_nil_r, Hl'.
    + pose proof (desc_inv_physical (destroy_optional (device_replica pg) (physical_ s)) _ Hd) as Hd'.
      eapply (desc_inv_write _ _ pg); [exact Hd'|done..].
  - eapply (evolves_write _ _ (lh_index h) pg pg'); [done..|]. left. done.
Qed.

Lemma drop_device_replica_call s R h : kv_inv s R [] -> plain_call s R (drop_device_replica h s).
Proof.
  intros Hinv. unfold drop_device_replica, can_drop_device_replica, host_replica_current, query.
  cbv [mbind M_bind mget mret M_ret].
  destruct (page_of s h) as [pg|] eqn:Hpg; [|by apply plain_same].
  match goal with |- context [if ?b then _ else _] => destruct b eqn:Hg end; [|by apply plain_same].
  bool_facts. pose proof (page_of_ok _ _ _ (kv_desc _ _ _ Hinv) Hpg) as Hok.
  destruct (drop_device_inv s R h pg Hinv Hpg) as (s' & Heq & _ & Hinv' & Hev).
  { pose proof (proj2 (proj2 (proj1 (page_of_Some _ _ _) Hpg))) as [Ho _].
    destruct Hok. split; try done; cbn; intros.
    - split; [|done]. by apply po_pending0.
    - by right.
    - congruence. }
  rewrite Heq. split_and!; done.
Qed.

Lemma page_of_write s h pg pg' :
  page_of s h = Some pg -> occupied pg' = true -> generation pg' = generation pg ->
  page_of (set_page_at (lh_index h) pg' s) h = Some pg'.
Proof.
  intros (Hs & Hi & Ho & Hg)%page_of_Some Ho' Hg'. apply page_of_Some.
  rewrite (at_set_page_at s _ _ pg _ Hi), decide_True by done. split_and!; [done..|congruence].
Qed.

(** A change of the counts before another step. *)
Lemma evolves_after_write s s' h pg pg' :
  page_of s h = Some pg -> occupied pg' = true -> content_epoch_ pg' = content_epoch_ pg ->
  committed_columns_ pg' = committed_columns_ pg -> generation pg' = generation pg ->
  evolves (set_page_at (lh_index h) pg' s) s' -> evolves s s'.
Proof.
  intros (_ & Hi & Ho & _)%page_of_Some Ho' He Hc Hg [Hs Hl Hp]. split; [done| |].
  - rewrite Hl. apply length_set_index.
  - intros j q q' Hq Hq'. specialize (Hp j). rewrite (at_set_page_at s _ _ pg _ Hi) in Hp.
    case_decide as Hij; [|by eauto]. subst j. specialize (Hp _ _ eq_refl Hq').
    assert (q = pg) as -> by congruence. unfold page_evolves in *. rewrite He, Hc, Hg in Hp.
    destruct Hp as [[? Hp]|?]; [left|by right]. split; [done|]. intros Hq'o. split; [done|by apply Hp].
Qed.

Lemma unpinned_no_pending pg : page_ok pg -> destination_pinned pg = false -> pending_device_replica pg = None.
Proof.
  intros Hok Hpin. destruct (pending_device_replica pg) eqn:Hp; [|done].
  destruct (po_pending _ Hok) as [? _]; [by rewrite Hp|congruence].
Qed.

(** The page after one reference was given back: the last one takes the device copy along, and the
    descriptor too unless the host still holds a copy. *)
Definition released_as (writer : bool) (pg pg' : Page) : Prop :=
  let pg1 := set_refs (references pg - 1) (active_references pg) (if writer then 0 else writer_references_ pg) pg in
  references pg <> 1 /\ pg' = pg1 \/
  references pg = 1 /\ has (host_replica_ pg) = true /\ pg' = set_device None (pending_device_replica pg) pg1 \/
  references pg = 1 /\ has (host_replica_ pg) = false /\ pg' = released_page pg.

Lemma release_reference_ok s R h writer pg :
  kv_inv s R [] -> page_of s h = Some pg -> can_release_reference s h writer = true ->
  exists s' pg', release_reference h writer s = (s', Ok true) /\ kv_inv s' R [] /\ evolves s s' /\
    pages_ s' = pages_ (set_page_at (lh_index h) pg' s) /\ released_as writer pg pg'.
Proof.
  intros Hinv Hpg Hcan. unfold release_reference, noexcept, write_page.
  cbv [mbind M_bind mget mret M_ret mmodify]. rewrite Hcan, Hpg. cbn [negb].
  unfold can_release_reference, query in Hcan. rewrite Hpg in Hcan.
  pose proof (kv_desc _ _ _ Hinv) as Hd. pose proof (page_of_ok _ _ _ Hd Hpg) as Hok.
  bool_facts. pose proof (po_refs _ Hok). rewrite w32_small by lia.
  set (pg1 := set_refs _ _ _ pg).
  pose proof (proj2 (proj2 (proj1 (page_of_Some _ _ _) Hpg))) as [Hocc _].
  assert (references pg1 = references pg - 1) as Hr1 by done.
  assert (page_step pg pg1) as Hstep1 by (subst pg1; clear Hr1; destruct writer; page_step_tac).
  pose proof (write_page_inv _ _ _ _ _ _ Hinv Hpg Hstep1) as Hinv1.
  pose proof (page_of_write _ _ _ pg1 Hpg (pt_occupied _ _ Hstep1) (pt_generation _ _ Hstep1)) as Hpg1.
  set (s1 := set_page_at (lh_index h) pg1 s) in *.
  assert (forall s', evolves s1 s' -> evolves s s') as Hev1.
  { intros s'. eapply evolves_after_write; done. }
  destruct (Z.eqb_spec (references pg1) 0) as [Hz|Hz]; cbn [negb].
  2: { exists s1, pg1. split_and!; [done|done|apply Hev1, evolves_refl|done|left; split; [lia|done]]. }
  assert (pending_device_replica pg1 = None) as Hpend by by apply (unpinned_no_pending pg).
  destruct (drop_device_inv s1 R h pg1 Hinv1 Hpg1) as (s2 & Heq & Hs2 & Hinv2 & Hev2).
  { destruct (pt_ok _ _ Hstep1). split; try done; cbn; intros.
    - split; [|done]. by apply po_pending0.
    - cbn in *. lia.
    - cbn in *. congruence. }
  rewrite Heq. cbn [host_replica_ set_device].
  destruct (has (host_replica_ pg1)) eqn:Hh.
  { exists s2, (set_device None (pending_device_replica pg) pg1). split_and!; [done|done|by apply Hev1| |].
    - rewrite Hs2. exact (f_equal pages_ (set_page_at_twice (lh_index h) _ pg1 s)).
    - right. left. split_and!; [lia|done|done]. }
  pose proof Hpg1 as (_ & Hi1 & _)%page_of_Some.
  destruct (store_leases_split s1 _ _ Hi1) as (rest & Hl & Hl').
  pose proof (kv_phys _ _ _ Hinv1) as Hp. rewrite app_nil_r, Hl in Hp. unfold page_leases in Hp.
  rewrite Hpend, app_nil_r in Hp. apply phys_destroy in Hp as [Hp _].
  destruct (retire_call s1 R R h pg1 (set_device None (pending_device_replica pg1) pg1) s2
    (destroy_optional (device_replica pg1) (physical_ s1)) rest []) as (s3 & -> & Hinv3 & Hev3 & Hpages); try done.
  { by left. }
  { cbn in *. lia. }
  { cbn [pending_device_replica set_device]. rewrite Hpend. cbn. by rewrite app_nil_r. }
  exists s3, (released_page pg). split_and!; [done|done|by apply Hev1| |].
  - rewrite Hpages. exact (f_equal pages_ (set_page_at_twice (lh_index h) _ pg1 s)).
  - right. right. split_and!; [lia|done|done].
Qed.

Lemma release_reference_call s R h writer :
  kv_inv s R [] -> plain_call s R (release_reference h writer s).
Proof.
  intros Hinv. destruct (can_release_reference s h writer) eqn:Hcan.
  - destruct (page_of s h) as [pg|] eqn:Hpg; [|unfold can_release_reference, query in Hcan; by rewrite Hpg in Hcan].
    destruct (release_reference_ok s R h writer pg Hinv Hpg Hcan) as (s' & pg' & -> & ? & ? & _). done.
  - unfold release_reference, noexcept. cbv [mbind M_bind mget mret M_ret]. rewrite Hcan. by apply plain_same.
Qed.

Lemma release_call s R h : kv_inv s R [] -> plain_call s R (release h s).
Proof.
  intros Hinv. unfold release. cbv [mbind M_bind mget mret M_ret].
  destruct (page_of s h); [by apply release_reference_call|by apply plain_same].
Qed.

Lemma detach_host_replica_call s R h extent :
  kv_inv s R [] -> plain_call s R (detach_host_replica h extent s).
Proof.
  intros Hinv. unfold detach_host_replica, noexcept, write_page.
  cbv [mbind M_bind mget mret M_ret mmodify].
  destruct (page_of s h) as [pg|] eqn:Hpg; [|by apply plain_same].
  pose proof (kv_desc _ _ _ Hinv) as Hd. pose proof (page_of_ok _ _ _ Hd Hpg) as Hok.
  destruct (host_replica_ pg) as [host|] eqn:Hhr; [|by apply plain_same].
  match goal with |- context [if ?b then _ else _] => destruct b eqn:Hg end; [by apply plain_same|].
  apply orb_false_iff in Hg as [_ Hg]. set (pg1 := set_host None pg).
  pose proof (proj2 (proj2 (proj1 (page_of_Some _ _ _) Hpg))) as [Hocc _].
  assert (page_step pg pg1) as Hstep1.
  { subst pg1. destruct (has (device_replica pg)) eqn:Hdev; cbn in Hg; bool_facts; page_step_tac. }
  pose proof (write_page_inv _ _ _ _ _ _ Hinv Hpg Hstep1) as Hinv1.
  pose proof (page_of_write _ _ _ pg1 Hpg (pt_occupied _ _ Hstep1) (pt_generation _ _ Hstep1)) as Hpg1.
  set (s1 := set_page_at (lh_index h) pg1 s) in *.
  assert (forall s', evolves s1 s' -> evolves s s') as Hev1.
  { intros s'. eapply evolves_after_write; done. }
  destruct ((references pg1 =? 0) && (source_pins_ pg1 =? 0) && negb (has (device_replica pg1))) eqn:Hfree.
  2: { split_and!; [done|apply Hev1, evolves_refl|done]. }
  bool_facts. pose proof Hpg1 as (_ & Hi1 & _)%page_of_Some. pose proof (po_refs _ Hok).
  destruct (store_leases_split s1 _ _ Hi1) as (rest & Hl & Hl').
  pose proof (kv_phys _ _ _ Hinv1) as Hp. rewrite app_nil_r, Hl in Hp. unfold page_leases in Hp.
  assert (device_replica pg1 = None) as Hdev by by apply has_None. rewrite Hdev in Hp. cbn [option_list app] in Hp.
  destruct (retire_call s1 R R h pg1 pg1 s1 (physical_ s1) rest []) as (s2 & -> & Hinv2 & Hev2 & _); try done.
  { right. by rewrite set_physical_same. }
  { change (references pg = 0) in H. cbn. lia. }
  { by rewrite app_nil_r. }
  split_and!; [done|by apply Hev1|done].
Qed.
