(* ===== verification/KVPagesSpec.v ===== *)
(** * What the logical KV page store promises

    Clients call the store with handles of any age and with their own page reservations.  The
    theorems: every session keeps the invariant and never terminates as long as the clients keep the
    preconditions of the calls that do not check them; a content epoch identifies a page's content;
    a page moved to the host comes back with its content. *)

From S2P Require Import Prelude Layout Extents Tensor KVGeometry DevicePagePool DevicePoolInvariant DevicePoolOps DevicePoolSpec KVPages KVPagesInvariant.
Import LogicalKVPageStore.
Open Scope Z_scope.

(** ** Sessions *)

Inductive KVCall :=
  | CallReserve (n : Z)
  | CallResize (k : nat) (n : Z)
  | CallMaterialize (k : nat)
  | CallMaterializeBatch (k : nat) (destinations : list LogicalKVPageHandle)
      (predecessor : option LogicalKVPageHandle)
  | CallMaterializeTransfer (k : nat) (columns : Z)
  | CallPublishTransfer (h : LogicalKVPageHandle) (writer : bool)
  | CallAbortTransfer (h : LogicalKVPageHandle) (k : nat)
  | CallDematerialize (h : LogicalKVPageHandle) (k : nat)
  | CallPin (h : LogicalKVPageHandle)
  | CallUnpin (h : LogicalKVPageHandle)
  | CallReserveDevice (h : LogicalKVPageHandle) (k : nat)
  | CallPublishDevice (h : LogicalKVPageHandle)
  | CallAbortDevice (h : LogicalKVPageHandle) (k : nat)
  | CallDropDevice (h : LogicalKVPageHandle)
  | CallRetainActive (h : LogicalKVPageHandle)
  | CallReleaseActive (h : LogicalKVPageHandle)
  | CallRetain (h : LogicalKVPageHandle) (writer : bool)
  | CallSetWriter (h : LogicalKVPageHandle) (writer : bool)
  | CallRelease (h : LogicalKVPageHandle) (writer : option bool)
  | CallProtect (h : LogicalKVPageHandle) (columns : Z)
  | CallSetProtected (h : LogicalKVPageHandle) (columns : Z)
  | CallClearProtection (h : LogicalKVPageHandle)
  | CallCommit (h : LogicalKVPageHandle) (columns : Z)
  | CallTruncate (h : LogicalKVPageHandle) (columns : Z)
  | CallTruncateInactive (h : LogicalKVPageHandle) (columns : Z)
  | CallAttach (h : LogicalKVPageHandle) (replica : HostKVPageReplica)
  | CallRebind (h : LogicalKVPageHandle) (expected replacement : HostKVPageReplica)
  | CallDetach (h : LogicalKVPageHandle) (extent : HostKVExtentCapability).

(** Columns are unsigned 32-bit arguments. *)
Definition call_range (c : KVCall) : Prop :=
  match c with
  | CallReserve n | CallResize _ n => 0 <= n <= u32_max
  | CallMaterializeTransfer _ n | CallProtect _ n | CallSetProtected _ n | CallCommit _ n
  | CallTruncate _ n | CallTruncateInactive _ n => 0 <= n <= u32_max
  | _ => True
  end.

(** What the store leaves to its callers: a transfer destination is published in the state it was
    minted in, a host replica is rebound to what it holds, an active page is not dematerialized, and
    a reference is added only to a page that has one. *)
Definition call_contract (s : Store) (c : KVCall) : Prop :=
  match c with
  | CallPublishTransfer h _ => exists pg, page_of s h = Some pg /\ transfer_destination pg = true
  | CallRebind h expected replacement => exists pg, page_of s h = Some pg /\ rebindable pg expected replacement
  | CallDematerialize h _ => forall pg, page_of s h = Some pg -> active_references pg = 0
  | CallRetain h _ => forall pg, page_of s h = Some pg -> 0 < references pg
  | _ => True
  end.

(** The reservations of the clients, next to the store. *)
Definition KVState : Type := Store * list DeviceKVPageReservation.

(** A call that hands the [k]-th reservation to the store. *)
Definition with_reservation (k : nat) (f : DeviceKVPageReservation -> M Store DeviceKVPageReservation)
    : M KVState unit := fun '(s, R) =>
  match R !! k with
  | None => ((s, R), Ok tt)
  | Some r =>
      match f r s with
      | (s, Ok r) => ((s, <[k := r]> R), Ok tt)
      | (s, Throw e) => ((s, R), Throw e)
      end
  end.

Definition on_store {A} (m : M Store A) : M KVState unit := fun '(s, R) =>
  match m s with
  | (s, Ok _) => ((s, R), Ok tt)
  | (s, Throw e) => ((s, R), Throw e)
  end.

Definition drop_result {A} (m : M Store (DeviceKVPageReservation * A)) : M Store DeviceKVPageReservation :=
  '(r, _) ← m; mret r.

Definition run_call (c : KVCall) : M KVState unit :=
  match c with
  | CallReserve n => fun '(s, R) =>
      match reserve (physical_ s) n with
      | (p, Some r) => ((set_physical p s, R ++ [r]), Ok tt)
      | (p, None) => ((set_physical p s, R ++ [make_empty_reservation p]), Ok tt)
      end
  | CallResize k n => with_reservation k (fun r => on_pool (resize_reservation r n))
  | CallMaterialize k => with_reservation k (fun r => drop_result (materialize r))
  | CallMaterializeBatch k hs q => with_reservation k (fun r => drop_result (materialize_batch r hs q))
  | CallMaterializeTransfer k n =>
      with_reservation k (fun r => drop_result (materialize_transfer_destination r n))
  | CallPublishTransfer h w => on_store (publish_transfer_destination h w)
  | CallAbortTransfer h k => with_reservation k (abort_transfer_destination h)
  | CallDematerialize h k => with_reservation k (dematerialize h)
  | CallPin h => on_store (pin_source h)
  | CallUnpin h => on_store (unpin_source h)
  | CallReserveDevice h k => with_reservation k (fun r => drop_result (reserve_device_replica h r))
  | CallPublishDevice h => on_store (publish_device_replica h)
  | CallAbortDevice h k => with_reservation k (abort_device_replica h)
  | CallDropDevice h => on_store (drop_device_replica h)
  | CallRetainActive h => on_store (retain_active_reference h)
  | CallReleaseActive h => on_store (release_active_reference h)
  | CallRetain h w => on_store (retain_reference h w)
  | CallSetWriter h w => on_store (set_writer h w)
  | CallRelease h (Some w) => on_store (release_reference h w)
  | CallRelease h None => on_store (release h)
  | CallProtect h n => on_store (protect_coverage h n)
  | CallSetProtected h n => on_store (set_protected_coverage h n)
  | CallClearProtection h => on_store (clear_protection h)
  | CallCommit h n => on_store (commit_coverage h n)
  | CallTruncate h n => on_store (destructive_truncate h n)
  | CallTruncateInactive h n => on_store (destructive_truncate_inactive h n)
  | CallAttach h r => on_store (attach_host_replica h r)
  | CallRebind h e r => on_store (rebind_host_replica h e r)
  | CallDetach h x => on_store (detach_host_replica h x)
  end.

(** One call within its contract and the exception it ends with. *)
Inductive kv_step (st : KVState) : result unit -> KVState -> Prop :=
  kv_call c st' out : call_range c -> call_contract st.1 c -> run_call c st = (st', out) ->
    kv_step st out st'.

Definition state_inv (st : KVState) : Prop := kv_inv st.1 st.2 [].

(** ** Every call keeps the invariant *)

Definition call_ok (st : KVState) (out : KVState * result unit) : Prop :=
  state_inv out.1 /\ evolves st.1 out.1.1 /\ out.2 <> Throw Terminate.

Lemma plain_on_store {A} s R (m : M Store A) :
  plain_call s R (m s) -> call_ok (s, R) (on_store m (s, R)).
Proof.
  unfold plain_call, call_ok, state_inv, on_store. destruct (m s) as [s' [a|e]]; cbn;
    intros (? & ? & Hne); (split_and!; [done|done|congruence]).
Qed.

Lemma local_on_store {A} s R h (m : M Store A) :
  kv_inv s R [] -> local_result s h (m s) -> call_ok (s, R) (on_store m (s, R)).
Proof. intros Hinv Hl. apply plain_on_store. by eapply local_result_inv. Qed.

Lemma with_reservation_ok s R k f :
  kv_inv s R [] ->
  (forall r, R !! k = Some r ->
    match f r s with
    | (s', Ok r') => kv_inv s' (<[k := r']> R) [] /\ evolves s s'
    | (s', Throw e) => s' = s /\ e <> Terminate
    end) ->
  call_ok (s, R) (with_reservation k f (s, R)).
Proof.
  intros Hinv Hf. unfold call_ok, with_reservation, state_inv.
  destruct (R !! k) as [r|] eqn:Hk; [|split_and!; [done|apply evolves_refl|done]].
  specialize (Hf r eq_refl). destruct (f r s) as [s' [r'|e]]; cbn.
  - destruct Hf. done.
  - destruct Hf as [-> ?]. split_and!; [done|apply evolves_refl|congruence].
Qed.

Lemma drop_result_ok {A} s R k (m : M Store (DeviceKVPageReservation * A)) :
  reservation_call s R k (m s) ->
  match drop_result m s with
  | (s', Ok r') => kv_inv s' (<[k := r']> R) [] /\ evolves s s'
  | (s', Throw e) => s' = s /\ e <> Terminate
  end.
Proof. unfold drop_result, reservation_call. unfold_M. by destruct (m s) as [s' [[r a]|e]]. Qed.

Lemma resize_call s R k r n :
  kv_inv s R [] -> R !! k = Some r -> 0 <= n <= u32_max ->
  match on_pool (resize_reservation r n) s with
  | (s', Ok r') => kv_inv s' (<[k := r']> R) [] /\ evolves s s'
  | (s', Throw e) => s' = s /\ e <> Terminate
  end.
Proof.
  intros [Hp Hd] Hk Hn. pose proof (resize_spec _ _ _ n (phys_owned _ _ _ _ _ Hp Hk) Hn) as Hr.
  unfold on_pool. destruct (resize_reservation r n (physical_ s)) as [p' [r'|e]].
  - destruct Hr as (_ & _ & Hstep & _). split.
    + split; [|by apply desc_inv_physical]. by eapply phys_step.
    + split; [done..|]. intros i pg pg' Hi Hi'. cbn in Hi'. rewrite Hi in Hi'. injection Hi' as <-.
      apply page_evolves_refl.
  - destruct Hr as (-> & -> & _). by rewrite set_physical_same.
Qed.

Lemma reserve_call s R n :
  kv_inv s R [] -> 0 <= n <= u32_max -> call_ok (s, R) (run_call (CallReserve n) (s, R)).
Proof.
  intros [Hp Hd] Hn. cbn [run_call]. pose proof Hp as [Hpool Ho Hr Ha Hok Hnd].
  rewrite reserve_spec by done.
  assert (forall p, st_self (set_physical p s) = st_self s /\ evolves s (set_physical p s)) as Hev.
  { intros p. split; [done|]. split; [done..|]. intros i pg pg' Hi Hi'. cbn in Hi'.
    rewrite Hi in Hi'. injection Hi' as <-. apply page_evolves_refl. }
  case_decide as Hav; cbn; (split_and!; [|apply Hev|done]); (split; [|by apply desc_inv_physical]).
  - split; cbn; try done.
    + apply set_counts_inv; [done|pose proof (pi_reserved _ Hpool); lia|lia].
    + apply Forall_app. split; [done|]. apply Forall_singleton. cbn. split; [done|lia].
    + rewrite sum_with_app. change (sum_with rs_pages [mkReservation (Some (pool_self (physical_ s))) n]) with (n + 0). lia.
  - rewrite set_physical_same. split; cbn; try done.
    + apply Forall_app. split; [done|]. apply Forall_singleton. cbn. split; [done|lia].
    + rewrite sum_with_app. change (sum_with rs_pages [make_empty_reservation (physical_ s)]) with 0. lia.
Qed.

Lemma run_call_ok c st :
  state_inv st -> call_range c -> call_contract st.1 c -> call_ok st (run_call c st).
Proof.
  destruct st as [s R]. unfold state_inv. cbn [fst snd]. intros Hinv Hr Hc.
  pose proof (kv_desc _ _ _ Hinv) as Hd.
  destruct c; cbn [run_call call_range call_contract] in *.
  - by apply reserve_call.
  - apply with_reservation_ok; [done|]. intros r Hk. by apply resize_call.
  - apply with_reservation_ok; [done|]. intros r Hk. apply drop_result_ok. by apply materialize_call.
  - apply with_reservation_ok; [done|]. intros r Hk. apply drop_result_ok.
    pose proof (materialize_batch_call s R k r destinations predecessor Hinv Hk) as Hm.
    unfold reservation_call. destruct (materialize_batch _ _ _ _) as [s' [[r' hs]|e]]; tauto.
  - apply with_reservation_ok; [done|]. intros r Hk. apply drop_result_ok.
    eapply bound_reservation_call, materialize_transfer_call; [done..|lia].
  - destruct Hc as (pg & Hpg & Ht). apply (local_on_store _ _ h); [done|].
    apply publish_transfer_destination_local; [done|congruence|]. unfold valid. by rewrite Hpg.
  - apply with_reservation_ok; [done|]. intros r Hk.
    destruct (abort_transfer_call s R k r h Hinv Hk) as (s' & r' & -> & ? & ? & _). done.
  - apply with_reservation_ok; [done|]. intros r Hk. pose proof (dematerialize_call s R k r h Hinv Hk Hc) as Hm.
    destruct (dematerialize h r s) as [s' [r'|e]]; tauto.
  - apply (local_on_store _ _ h); [done|]. by apply pin_source_local.
  - apply (local_on_store _ _ h); [done|]. by apply unpin_source_local.
  - apply with_reservation_ok; [done|]. intros r Hk. apply drop_result_ok. by apply reserve_device_replica_call.
  - apply (local_on_store _ _ h); [done|]. by apply publish_device_replica_local.
  - apply with_reservation_ok; [done|]. intros r Hk.
    destruct (abort_device_replica_call s R k r h Hinv Hk) as (s' & r' & -> & ? & ?). done.
  - apply plain_on_store. by apply drop_device_replica_call.
  - apply (local_on_store _ _ h); [done|]. by apply retain_active_reference_local.
  - apply (local_on_store _ _ h); [done|]. by apply release_active_reference_local.
  - apply (local_on_store _ _ h); [done|]. by apply retain_reference_local.
  - apply (local_on_store _ _ h); [done|]. by apply set_writer_local.
  - destruct writer; apply plain_on_store; [by apply release_reference_call|by apply release_call].
  - apply (local_on_store _ _ h); [done|]. apply protect_coverage_local; [done|lia].
  - apply (local_on_store _ _ h); [done|]. apply set_protected_coverage_local; [done|lia].
  - apply (local_on_store _ _ h); [done|]. by apply clear_protection_local.
  - apply (local_on_store _ _ h); [done|]. by apply commit_coverage_local.
  - apply (local_on_store _ _ h); [done|]. by apply destructive_truncate_local.
  - apply (local_on_store _ _ h); [done|]. apply destructive_truncate_inactive_local; [done|lia].
  - apply (local_on_store _ _ h); [done|]. by apply attach_host_replica_local.
  - destruct Hc as (pg & Hpg & Hre). apply (local_on_store _ _ h); [done|]. by eapply rebind_host_replica_local.
  - apply plain_on_store. by apply detach_host_replica_call.
Qed.

(** [n] calls in a row. *)
Inductive kv_session (st : KVState) : nat -> KVState -> Prop :=
  | kv_session_start : kv_session st 0 st
  | kv_session_step n mid out st' :
      kv_session st n mid -> kv_step mid out st' -> kv_session st (S n) st'.

Lemma kv_step_ok st out st' :
  state_inv st -> kv_step st out st' -> call_ok st (st', out).
Proof. intros Hinv Hstep. destruct Hstep as [c st' out Hr Hc Heq]. rewrite <- Heq. by apply run_call_ok. Qed.

Lemma kv_session_inv st n st' : state_inv st -> kv_session st n st' -> state_inv st'.
Proof.
  intros Hinv Hs. induction Hs as [|n mid out st' _ IH Hstep]; [done|].
  exact (proj1 (kv_step_ok _ _ _ IH Hstep)).
Qed.

(** A fresh store over a fresh pool. *)
Lemma make_store_inv this p n s :
  pool_inv p -> allocated_pages p = 0 -> reserved_pages p = 0 -> 0 <= n <= u32_max ->
  make_store this p n = Ok s -> kv_inv s [] [].
Proof.
  intros Hp Ha Hr Hn. unfold make_store. intros (_ & _ & H)%bind_Ok. injection H as <-.
  assert (forall k, replicate k initial_page ≫= page_leases = []) as Hnone by (induction k; done).
  split.
  - unfold store_leases. cbn [pages_]. rewrite Hnone. split; try done; constructor.
  - assert (free_stack (mkStore this p (replicate (Z.to_nat n) initial_page)
        ((fun index => n - 1 - Z.of_nat index) <$> seq 0 (Z.to_nat n)) (capacity_pages p) n) =
      (fun index => n - 1 - Z.of_nat index) <$> seq 0 (Z.to_nat n)) as Hfree.
    { unfold free_stack. cbn. apply take_ge. rewrite length_fmap, length_seq. done. }
    split; unfold capacity; cbn [pages_ free_ free_count_]; rewrite ?length_replicate; try lia.
    + by rewrite length_fmap, length_seq.
    + rewrite Hfree. apply NoDup_fmap_2_strong; [|apply NoDup_seq]. intros x y _ _. lia.
    + intros i. rewrite Hfree, list_elem_of_fmap. setoid_rewrite elem_of_seq. split.
      * intros (k & -> & Hk). exists initial_page. split; [|done].
        apply at_index_Some. split; [lia|]. apply lookup_replicate. split; [done|lia].
      * intros (pg & Hpg & _). apply at_index_lt in Hpg as Hi. rewrite length_replicate in Hi.
        exists (Z.to_nat (n - 1 - i)). lia.
    + intros i pg [_ Hi]%at_index_Some. apply lookup_replicate in Hi as [-> _]. apply initial_page_ok.
Qed.

(** C4: No sequence of calls within their contract ([call_contract]), with any handles, stale ones
    included, corrupts the logical page store.  In every session the store's device leases are valid and pairwise different, the pool's counters
    are exactly those leases and the clients' reservations, the free stack lists each unoccupied
    descriptor once, and every page is well formed: active references are among its references, at
    most one writer, protection within the committed coverage and that within the page size, a
    replica on the host is a prefix of the current epoch's content, and a page that is referenced has
    its content on the device or, complete, on the host.  No call reaches [std::terminate]. *)
Theorem kv_page_session_sound pself backing l p this n s k st out st' :
  0 <= page_group_count (pl_spec l) -> make_pool pself backing l = Ok p -> 0 <= n <= u32_max ->
  make_store this p n = Ok s -> kv_session (s, []) k st -> kv_step st out st' ->
  out <> Throw Terminate /\
  Forall (fun x => lease_ok (physical_ st'.1) x = true) (store_leases st'.1) /\
  NoDup (ls_index <$> store_leases st'.1) /\
  allocated_pages (physical_ st'.1) = Z.of_nat (length (store_leases st'.1)) /\
  reserved_pages (physical_ st'.1) = sum_with rs_pages st'.2 /\
  NoDup (free_stack st'.1) /\
  (forall i, i ∈ free_stack st'.1 <-> exists pg, at_index (pages_ st'.1) i = Some pg /\ occupied pg = false) /\
  (forall i pg, at_index (pages_ st'.1) i = Some pg -> page_ok pg).
Proof.
  intros Hg Hpool Hn Hmake Hs Hstep. destruct (make_pool_inv _ _ _ _ Hg Hpool) as (Hp & _ & Ha & Hr).
  assert (state_inv st) as Hinv.
  { apply (kv_session_inv (s, []) k); [|done]. by apply (make_store_inv this p n). }
  destruct (kv_step_ok _ _ _ Hinv Hstep) as ([[] []] & _ & Hout). cbn [fst snd] in *.
  rewrite app_nil_r in *. done.
Qed.

(** ** Epochs *)

(** [k] new epochs in a row. *)
Lemma next_epoch_iter k e :
  1 <= e <= u64_max -> Nat.iter k next_epoch e = (e - 1 + Z.of_nat k) mod u64_max + 1.
Proof.
  intros He. induction k as [|k IH].
  - cbn. rewrite Z.add_0_r, Z.mod_small by lia. lia.
  - change (Nat.iter (S k) next_epoch e) with (next_epoch (Nat.iter k next_epoch e)). rewrite IH. unfold next_epoch. rewrite Nat2Z.inj_succ.
    pose proof (Z.mod_pos_bound (e - 1 + Z.of_nat k) u64_max ltac:(lia)) as Hb.
    replace (e - 1 + Z.succ (Z.of_nat k)) with (e - 1 + Z.of_nat k + 1) by lia.
    rewrite <- (Zplus_mod_idemp_l (e - 1 + Z.of_nat k) 1 u64_max). set (m := (e - 1 + Z.of_nat k) mod u64_max) in *.
    destruct (decide (m + 1 = u64_max)) as [Hm|Hm].
    + assert (w64 (m + 1 + 1) = 0) as -> by (rewrite Hm; reflexivity). rewrite Hm. reflexivity.
    + rewrite w64_small by lia. rewrite Z.mod_small by lia. destruct (Z.eqb_spec (m + 1 + 1) 0); lia.
Qed.

(** A page over several calls: how many epochs it went through, and if none, that it stayed. *)
Definition page_aged (n : nat) (pg pg' : Page) : Prop :=
  exists k, (k <= n)%nat /\ content_epoch_ pg' = Nat.iter k next_epoch (content_epoch_ pg) /\
    (k = 0%nat -> occupied pg' = true ->
       occupied pg = true /\ generation pg' = generation pg /\ committed_columns_ pg <= committed_columns_ pg').

Lemma page_aged_step n pg mid pg' : page_aged n pg mid -> page_evolves mid pg' -> page_aged (S n) pg pg'.
Proof.
  intros (k & Hk & He & Hs) [[He' Hs']|He'].
  - exists k. split_and!; [lia|congruence|]. intros -> Ho. destruct (Hs' Ho) as (Ho1 & Hg1 & Hc1).
    destruct (Hs eq_refl Ho1) as (? & ? & ?). split_and!; [done|congruence|lia].
  - exists (S k). split_and!; [lia| |done]. cbn. by rewrite He', He.
Qed.

Lemma kv_session_aged st n st' :
  state_inv st -> kv_session st n st' ->
  st_self st'.1 = st_self st.1 /\ length (pages_ st'.1) = length (pages_ st.1) /\
  forall i pg pg', at_index (pages_ st.1) i = Some pg -> at_index (pages_ st'.1) i = Some pg' ->
    page_aged n pg pg'.
Proof.
  intros Hinv Hs. induction Hs as [|n mid out st' Hs IH Hstep].
  - split_and!; [done..|]. intros i pg pg' -> [= ->]. exists 0%nat. done.
  - destruct IH as (Hself & Hlen & Hage). pose proof (kv_session_inv _ _ _ Hinv Hs) as Hmid.
    destruct (kv_step_ok _ _ _ Hmid Hstep) as (_ & [Hs' Hl' Hev] & _). cbn [fst] in *.
    split_and!; [congruence|congruence|]. intros i pg pg' Hi Hi'.
    destruct (at_index_is_Some (pages_ mid.1) i) as [q Hq].
    { apply at_index_lt in Hi'. rewrite <- Hl'. done. }
    eapply page_aged_step; [by eapply Hage|by eapply Hev].
Qed.

(** Fewer than 2^64 - 1 new epochs never come back to the same one. *)
Lemma next_epoch_cycle k e :
  1 <= e <= u64_max -> Z.of_nat k < u64_max -> Nat.iter k next_epoch e = e -> k = 0%nat.
Proof.
  intros He Hk Hit. rewrite next_epoch_iter in Hit by done.
  pose proof (Z.div_mod (e - 1 + Z.of_nat k) u64_max ltac:(lia)).
  assert (0 <= (e - 1 + Z.of_nat k) / u64_max) by (apply Z.div_pos; lia).
  destruct (decide ((e - 1 + Z.of_nat k) / u64_max = 0)) as [Hz|Hz]; [lia|nia].
Qed.

Lemma content_epoch_page s h e : content_epoch s h = Ok e -> exists pg, page_of s h = Some pg /\ content_epoch_ pg = e.
Proof. unfold content_epoch, require. unfold_M. destruct (page_of s h) as [pg|]; [|done]. intros [= <-]. by exists pg. Qed.

(** C10: A content epoch and a coverage identify what a page holds.  When a page that had epoch [e] and
    [c] committed columns still accepts, any number of calls below 2^64 - 1 later, the attachment of
    a host copy made for that epoch and coverage, then it had that epoch and coverage in every state
    in between: no call rebound the page, cut it or committed further columns, so the copy is
    exactly the page's content. *)
Theorem epoch_identifies_content st n mid m st' h e c :
  state_inv st -> kv_session st n mid -> kv_session mid m st' -> Z.of_nat n + Z.of_nat m < u64_max ->
  content_epoch st.1 h = Ok e -> committed_columns st.1 h = Ok c ->
  can_attach_host_replica st'.1 h e c = true ->
  content_epoch mid.1 h = Ok e /\ committed_columns mid.1 h = Ok c.
Proof.
  intros Hinv Hs1 Hs2 Hn (pg & Hpg & He)%content_epoch_page Hc Hatt.
  unfold committed_columns, require in Hc. rewrite Hpg in Hc. injection Hc as Hc.
  unfold can_attach_host_replica, query in Hatt. destruct (page_of st'.1 h) as [pg'|] eqn:Hpg'; [|done].
  bool_facts. pose proof (kv_session_inv _ _ _ Hinv Hs1) as Hmid.
  pose proof (page_of_ok _ _ _ (kv_desc _ _ _ Hinv) Hpg) as Hok.
  destruct (kv_session_aged _ _ _ Hinv Hs1) as (Hself1 & Hlen1 & Hage1).
  destruct (kv_session_aged _ _ _ Hmid Hs2) as (Hself2 & Hlen2 & Hage2).
  pose proof Hpg as (Hown & Hi & Ho & Hg)%page_of_Some. pose proof Hpg' as (_ & Hi' & Ho' & Hg')%page_of_Some.
  destruct (at_index_is_Some (pages_ mid.1) (lh_index h)) as [q Hq].
  { apply at_index_lt in Hi. rewrite Hlen1. done. }
  destruct (Hage1 _ _ _ Hi Hq) as (k1 & Hk1 & He1 & Hst1). destruct (Hage2 _ _ _ Hq Hi') as (k2 & Hk2 & He2 & Hst2).
  assert (k2 + k1 = 0)%nat as Hz.
  { pose proof (po_epoch _ Hok). pose proof (po_bound _ Hok Ho).
    apply (next_epoch_cycle _ (content_epoch_ pg)); [lia|lia|]. rewrite Nat.iter_add, <- He1, <- He2. congruence. }
  assert (k1 = 0%nat /\ k2 = 0%nat) as [-> ->] by lia. cbn in He1, He2.
  destruct (Hst2 eq_refl Ho') as (Hqo & Hqg & Hqc). destruct (Hst1 eq_refl Hqo) as (_ & Hqg1 & Hqc1).
  assert (page_of mid.1 h = Some q) as Hpq.
  { apply page_of_Some. rewrite Hself1. split_and!; try done. congruence. }
  unfold content_epoch, committed_columns, require. rewrite Hpq. cbn. split; [congruence|]. f_equal. lia.
Qed.

(** ** Moving a page to the host and back *)

Lemma reserve_device_replica_eq s R k r h pg :
  kv_inv s R [] -> R !! k = Some r -> 0 < rs_pages r -> page_of s h = Some pg ->
  device_replica pg = None -> pending_device_replica pg = None -> destination_pinned pg = false ->
  source_pins_ pg = 0 -> host_matches pg = true ->
  exists p' r' x, reserve_device_replica h r s =
    (set_page_at (lh_index h) (set_pins 0 true (set_device None (Some x) pg)) (set_physical p' s),
     Ok (r', lease_handle x)).
Proof.
  intros Hinv Hk Hr Hpg Hdev Hpend Hpin Hpins Hm.
  pose proof (materialize_one_spec _ _ _ (phys_owned _ _ _ _ _ (kv_phys _ _ _ Hinv) Hk)) as Hmat.
  unfold reserve_device_replica, require, on_pool, write_page. unfold_M. rewrite Hpg, Hdev, Hpend, Hpin, Hpins, Hm.
  assert (has (host_replica_ pg) = true) as ->.
  { unfold host_matches in Hm. by destruct (host_replica_ pg). }
  cbn [has negb orb Z.eqb]. destruct (materialize_one r (physical_ s)) as [p' [[r' x]|e]].
  - by exists p', r', x.
  - destruct Hmat as (_ & _ & ?). lia.
Qed.

(** C11: A page survives its trip to the host.  When the device copy may be dropped and a client holds
    a device page in reserve, dropping, reserving a restore and publishing it all succeed; the page is
    resident again with the same epoch, coverage, references and host copy, and no other page of the
    store has changed. *)
Theorem drop_restore_roundtrip s R k r h pg :
  kv_inv s R [] -> R !! k = Some r -> 0 < rs_pages r -> page_of s h = Some pg ->
  can_drop_device_replica s h = true ->
  exists s1 s2 s3 r' x y,
    drop_device_replica h s = (s1, Ok true) /\
    device_resident s1 h = Ok false /\
    reserve_device_replica h r s1 = (s2, Ok (r', x)) /\
    publish_device_replica h s2 = (s3, Ok tt) /\
    page_of s3 h = Some (set_device (Some y) None pg) /\ lease_handle y = x /\
    (forall i, i <> lh_index h -> at_index (pages_ s3) i = at_index (pages_ s) i).
Proof.
  intros Hinv Hk Hr Hpg Hdrop. pose proof (page_of_ok _ _ _ (kv_desc _ _ _ Hinv) Hpg) as Hok.
  pose proof Hdrop as Hd. unfold can_drop_device_replica, host_replica_current, query in Hd. rewrite Hpg in Hd.
  bool_facts.
  assert (Hpend : pending_device_replica pg = None) by (by apply has_None).
  pose proof (proj2 (proj2 (proj1 (page_of_Some _ _ _) Hpg))) as [Hocc Hgen].
  set (pg1 := set_device None (pending_device_replica pg) pg).
  assert (page_ok pg1) as Hok1.
  { destruct Hok. split; try done; cbn; intros; [rewrite Hpend in *; done|by right|congruence]. }
  destruct (drop_device_inv s R h pg Hinv Hpg Hok1) as (s1 & Heq1 & Hs1 & Hinv1 & _).
  pose proof (page_of_write s h pg pg1 Hpg Hocc eq_refl) as Hpg1.
  assert (page_of s1 h = Some pg1) as Hpg1' by (rewrite Hs1; exact Hpg1).
  destruct (reserve_device_replica_eq s1 R k r h pg1) as (p' & r' & x & Heq2); try done.
  set (pg2 := set_pins 0 true (set_device None (Some x) pg1)) in *.
  set (s2 := set_page_at (lh_index h) pg2 (set_physical p' s1)) in *.
  assert (page_of s2 h = Some pg2) as Hpg2 by exact (page_of_write (set_physical p' s1) h pg1 pg2 Hpg1' Hocc eq_refl).
  set (pg3 := set_pins (source_pins_ pg2) false (set_device (pending_device_replica pg2) None pg2)).
  exists s1, s2, (set_page_at (lh_index h) pg3 s2), r', (lease_handle x), x.
  assert (Hpgeq : pg3 = set_device (Some x) None pg).
  { subst pg3 pg2 pg1. destruct pg. cbn in *. by subst. }
  split_and!.
  - unfold drop_device_replica. cbv [mbind M_bind mget mret M_ret]. rewrite Hdrop, Hpg, Heq1. done.
  - unfold device_resident, require. unfold_M. by rewrite Hpg1'.
  - exact Heq2.
  - unfold publish_device_replica, require, write_page. unfold_M. rewrite Hpg2.
    assert (host_matches pg2 = true) as -> by done.
    assert (has (host_replica_ pg2) = true) as Hh by (unfold host_matches in *; cbn in *; by destruct (host_replica_ pg)).
    done.
  - rewrite <- Hpgeq. by apply (page_of_write s2 h pg2).
  - done.
  - intros i Hi. pose proof (proj1 (page_of_Some _ _ _) Hpg) as (_ & Hat & _). apply at_index_lt in Hat.
    subst s2 s1. cbn. by rewrite !at_set_index_ne by (lia || done).
Qed.

(** ** Concrete sessions *)

(** Runs calls that have no contract beyond their types. *)
Fixpoint run_calls (cs : list KVCall) (st : KVState) : KVState :=
  match cs with
  | [] => st
  | c :: cs => run_calls cs (run_call c st).1
  end.

Definition unconditional (c : KVCall) : bool :=
  match c with
  | CallPublishTransfer _ _ | CallRebind _ _ _ | CallDematerialize _ _ | CallRetain _ _ => false
  | CallReserve n | CallResize _ n | CallMaterializeTransfer _ n | CallProtect _ n
  | CallSetProtected _ n | CallCommit _ n | CallTruncate _ n | CallTruncateInactive _ n =>
      (0 <=? n) && (n <=? u32_max)
  | _ => true
  end.

Lemma run_calls_session cs st n mid :
  kv_session st n mid -> forallb unconditional cs = true -> kv_session st (n + length cs) (run_calls cs mid).
Proof.
  revert n mid. induction cs as [|c cs IH]; intros n mid Hs Hcs; cbn; [by rewrite Nat.add_0_r|].
  cbn in Hcs. apply andb_true_iff in Hcs as [Hc Hcs]. rewrite Nat.add_succ_r.
  apply (IH (S n)); [|done]. destruct (run_call c mid) as [st' out] eqn:Hrun.
  apply (kv_session_step _ _ mid out); [done|]. apply (kv_call _ c); [..|done].
  - destruct c; cbn in *; try done; lia.
  - destruct c; done.
Qed.

Definition demo_kv_store : Store :=
  match make_store 9 demo_pool 8 with
  | Ok s => s
  | Throw _ => mkStore 0 demo_pool [] [] 0 0
  end.

Definition demo_handle : LogicalKVPageHandle := mkLogical (Some 9) 0 1.

(** A client reserves three pages, binds one and commits ten columns. *)
Definition demo_kv_calls : list KVCall :=
  [CallReserve 3; CallMaterialize 0; CallRetainActive demo_handle; CallCommit demo_handle 10].

Definition demo_kv_state : KVState := run_calls demo_kv_calls (demo_kv_store, []).

Lemma demo_kv_inv : state_inv demo_kv_state.
Proof.
  apply (kv_session_inv (demo_kv_store, []) (0 + length demo_kv_calls)%nat).
  - apply (make_store_inv 9 demo_pool 8); [apply demo_pool_inv|reflexivity|reflexivity|lia|reflexivity].
  - apply run_calls_session; [constructor|reflexivity].
Qed.

Lemma kv_page_session_sound_witness :
  exists st' : KVState, store_leases st'.1 = [mkLease (Some 7) 0 1] /\ NoDup (ls_index <$> store_leases st'.1) /\
    reserved_pages (physical_ st'.1) = 2.
Proof.
  pose proof (run_calls_session demo_kv_calls (demo_kv_store, []) 0 (demo_kv_store, [])
    (kv_session_start _) eq_refl) as Hs.
  assert (kv_step (run_calls demo_kv_calls (demo_kv_store, [])) (Ok tt)
    (run_call (CallPin demo_handle) demo_kv_state).1) as Hstep.
  { apply (kv_call _ (CallPin demo_handle)); [done|done|vm_compute; reflexivity]. }
  pose proof (kv_page_session_sound 7 (Layout.mkSpan (Some 4096) 512) demo_pool_layout demo_pool 9 8
    demo_kv_store _ _ _ _ ltac:(vm_compute; discriminate) eq_refl ltac:(lia) eq_refl Hs Hstep) as H.
  exists (run_call (CallPin demo_handle) demo_kv_state).1.
  split; [vm_compute; reflexivity|]. split; [apply H|vm_compute; reflexivity].
Defined.

Definition demo_replica : HostKVPageReplica := mkHostReplica (mkExtentCap (Some 3) 0 1) 0 0 1 10.

(** A copy of the ten columns is taken; the page is pinned and unpinned meanwhile. *)
Lemma epoch_identifies_content_witness :
  can_attach_host_replica (run_calls [CallPin demo_handle; CallUnpin demo_handle] demo_kv_state).1 demo_handle 1 10 = true /\
  content_epoch (run_calls [CallPin demo_handle] demo_kv_state).1 demo_handle = Ok 1.
Proof.
  split; [vm_compute; reflexivity|].
  apply (epoch_identifies_content demo_kv_state 1 (run_calls [CallPin demo_handle] demo_kv_state) 1
    (run_calls [CallPin demo_handle; CallUnpin demo_handle] demo_kv_state) demo_handle 1 10).
  - apply demo_kv_inv.
  - exact (run_calls_session [CallPin demo_handle] _ 0 _ (kv_session_start _) eq_refl).
  - exact (run_calls_session [CallUnpin demo_handle] _ 0 _ (kv_session_start _) eq_refl).
  - lia.
  - vm_compute. reflexivity.
  - vm_compute. reflexivity.
  - vm_compute. reflexivity.
Defined.

(** The page gets a host copy, and its writer lets go of it. *)
Definition demo_offload_calls : list KVCall :=
  [CallReleaseActive demo_handle; CallSetWriter demo_handle false; CallAttach demo_handle demo_replica].

Lemma drop_restore_roundtrip_witness :
  let st := run_calls demo_offload_calls demo_kv_state in
  can_drop_device_replica st.1 demo_handle = true /\
  exists s1, drop_device_replica demo_handle st.1 = (s1, Ok true) /\ device_resident s1 demo_handle = Ok false.
Proof.
  intros st. assert (state_inv st) as Hinv.
  { apply (kv_session_inv demo_kv_state 3); [apply demo_kv_inv|].
    exact (run_calls_session demo_offload_calls _ 0 _ (kv_session_start _) eq_refl). }
  split; [vm_compute; reflexivity|].
  destruct (drop_restore_roundtrip st.1 st.2 0 (mkReservation (Some 7) 2) demo_handle
    (set_host (Some demo_replica) (set_refs 1 0 0 (bind_page (mkLease (Some 7) 0 1) 10 1 1 false initial_page))))
    as (s1 & s2 & s3 & r' & x & y & H1 & H2 & _).
  - apply Hinv.
  - vm_compute. reflexivity.
  - cbn. lia.
  - vm_compute. reflexivity.
  - vm_compute. reflexivity.
  - exists s1. exact (conj H1 H2).
Defined.
