(* ===== verification/KVAddress.v ===== *)
(** * KV address spaces (models/qwen3_5/program/storage/kv_store.h)

    [KVAddressSpaceStore]: an address space is an ordered list of logical pages with a committed
    token frontier.  An active address holds an execution row and a page reservation and writes the
    pages it alone references; prefix forks and active snapshots share full pages by reference and
    copy only a partial tail.  The store calls a [LogicalKVPageStore] and a [KVExecutionTablePool],
    both part of the state here; the uploads of [publish] are those of [ExecutionTables].  An object
    that a call consumes or that is destroyed on an exception path is handed over explicitly. *)

From S2P Require Import Prelude KVGeometry Extents Tensor DevicePagePool ExecutionTables KVPages.

Module KVAddressSpaceStore.
Import LogicalKVPageStore.

(** ** Data *)

Record KVAddressSpaceHandle := mkSpace { ah_owner : option Z; ah_index : Z; ah_generation : Z }.

#[export] Instance KVAddressSpaceHandle_eq_dec : EqDecision KVAddressSpaceHandle.
Proof. solve_decision. Defined.

Record Address := mkAddress {
  ad_generation : Z;
  page_count : Z;
  frontier : Z;
  checkpoint_frontier : Z;
  ad_reservation : DeviceKVPageReservation;
  ad_row : option KVExecutionRowLease;
  ad_occupied : bool;
  ad_active : bool;
}.

Definition initial_address : Address := mkAddress 1 0 0 0 null_reservation None false false.

Record KVActivationReservation := mkActivation {
  ac_owner : option Z;
  ac_address : KVAddressSpaceHandle;
  ac_requested_entitlement : Z;
  ac_activation_frontier : option Z;
  ac_page_reservation : DeviceKVPageReservation;
  ac_row : option KVExecutionRowLease;
}.

Record KVPrefixForkReservation := mkFork {
  fk_owner : option Z;
  fk_source : KVAddressSpaceHandle;
  fk_destination : KVAddressSpaceHandle;
  fk_frontier : Z;
  fk_full_pages : Z;
  fk_tail_columns : Z;
  fk_requested_entitlement : Z;
  fk_page_reservation : DeviceKVPageReservation;
  fk_row : option KVExecutionRowLease;
  fk_tail_destination : option LogicalKVPageHandle;
  fk_staged_tail_release : bool;
  fk_tail_source_settled : bool;
}.

Record KVActiveSnapshotShape := mkShape {
  full_pages : Z;
  immutable_full_pages : Z;
  unique_full_pages : Z;
  tail_columns : Z;
}.

#[export] Instance KVActiveSnapshotShape_eq_dec : EqDecision KVActiveSnapshotShape.
Proof. solve_decision. Defined.

Definition copied_pages (x : KVActiveSnapshotShape) : Z := if tail_columns x =? 0 then 0 else 1.

Record KVActiveSnapshotReservation := mkSnapshot {
  sn_owner : option Z;
  sn_source : KVAddressSpaceHandle;
  sn_destination : KVAddressSpaceHandle;
  sn_frontier : Z;
  sn_shape : KVActiveSnapshotShape;
  sn_entitlement : Z;
  sn_tail_reservation : DeviceKVPageReservation;
  sn_tail_destination : option LogicalKVPageHandle;
}.

Record Spaces := mkSpaces {
  sp_self : Z;
  sp_pages : Store;
  sp_tables : KVExecutionTablePool;
  page_capacity_ : Z;
  addresses_ : list Address;
  sp_free : list Z;
  memberships_ : list LogicalKVPageHandle;
  sp_free_count : Z;
}.

Definition set_sp_pages (x : Store) (s : Spaces) : Spaces :=
  mkSpaces (sp_self s) x (sp_tables s) (page_capacity_ s) (addresses_ s) (sp_free s) (memberships_ s) (sp_free_count s).
Definition set_sp_tables (x : KVExecutionTablePool) (s : Spaces) : Spaces :=
  mkSpaces (sp_self s) (sp_pages s) x (page_capacity_ s) (addresses_ s) (sp_free s) (memberships_ s) (sp_free_count s).
Definition set_addresses (x : list Address) (s : Spaces) : Spaces :=
  mkSpaces (sp_self s) (sp_pages s) (sp_tables s) (page_capacity_ s) x (sp_free s) (memberships_ s) (sp_free_count s).
Definition set_sp_free (x : list Z) (count : Z) (s : Spaces) : Spaces :=
  mkSpaces (sp_self s) (sp_pages s) (sp_tables s) (page_capacity_ s) (addresses_ s) x (memberships_ s) count.
Definition set_memberships (x : list LogicalKVPageHandle) (s : Spaces) : Spaces :=
  mkSpaces (sp_self s) (sp_pages s) (sp_tables s) (page_capacity_ s) (addresses_ s) (sp_free s) x (sp_free_count s).

(** Assignments to the fields of an address. *)
Definition set_extent (count front checkpoint : Z) (a : Address) : Address :=
  mkAddress (ad_generation a) count front checkpoint (ad_reservation a) (ad_row a) (ad_occupied a) (ad_active a).
Definition set_binding (r : DeviceKVPageReservation) (row : option KVExecutionRowLease) (act : bool)
    (a : Address) : Address :=
  mkAddress (ad_generation a) (page_count a) (frontier a) (checkpoint_frontier a) r row (ad_occupied a) act.
Definition set_occupied (occ : bool) (a : Address) : Address :=
  mkAddress (ad_generation a) (page_count a) (frontier a) (checkpoint_frontier a) (ad_reservation a) (ad_row a)
    occ (ad_active a).

Definition reservation_valid (r : DeviceKVPageReservation) : bool := negb (bool_decide (rs_owner r = None)).

Definition pages_for_tokens (tokens : Z) : Z :=
  if tokens =? 0 then 0 else 1 + (tokens - 1) / kPagedKVPageSize.

Definition checked_membership_cells (addresses pages : Z) : result Z :=
  if negb (pages =? 0) && (u64_max / pages <? addresses) then Throw OverflowError
  else Ok (w64 (addresses * pages)).

(** The constructor of [KVAddressSpaceStore]. *)
Definition make_spaces (this : Z) (pages : Store) (tables : KVExecutionTablePool)
    (address_capacity page_cap : Z) : result Spaces :=
  cells ← checked_membership_cells address_capacity page_cap;
  _ ← throw_if ((address_capacity =? 0) || (page_cap =? 0) || negb (page_cap =? page_capacity tables))
        InvalidArgument;
  let n := Z.to_nat address_capacity in
  Ok (mkSpaces this pages tables page_cap (replicate n initial_address)
        ((fun index => address_capacity - 1 - Z.of_nat index) <$> seq 0 n)
        (replicate (Z.to_nat cells) null_logical) address_capacity).

(** ** Effects *)

Definition on_pages {A} (m : M Store A) : M Spaces A := fun s =>
  let '(p, r) := m (sp_pages s) in (set_sp_pages p s, r).
Definition on_device {A} (m : M DeviceKVPagePool A) : M Spaces A := on_pages (on_pool m).
Definition on_tables {A} (m : M KVExecutionTablePool A) : M Spaces A := fun s =>
  let '(t, r) := m (sp_tables s) in (set_sp_tables t s, r).

(** A query of the page store. *)
Definition ask {A} (f : Store -> result A) : M Spaces A := fun s => (s, f (sp_pages s)).

(** [cleanup] is what destructors do when an exception leaves [m]. *)
Definition on_throw {S A} (m : M S A) (cleanup : M S unit) : M S A := fun s =>
  match m s with
  | (s, Throw e) => match cleanup s with (s, Ok _) => (s, Throw e) | (s, Throw e') => (s, Throw e') end
  | r => r
  end.

Fixpoint for_each {S A} (l : list A) (f : A -> M S unit) : M S unit :=
  match l with
  | [] => mret tt
  | x :: l => _ ← f x; for_each l f
  end.

(** [for (page = begin; page < end; ++page)] *)
Definition for_pages {S} (begin_ end_ : Z) (f : Z -> M S unit) : M S unit :=
  for_each (seqZ begin_ (end_ - begin_)) f.

Definition address_at (s : Spaces) (i : Z) : option Address := at_index (addresses_ s) i.

(** A reference to an address is its index. *)
Definition get_address (i : Z) : M Spaces Address :=
  s ← mget;
  match address_at s i with Some a => mret a | None => mthrow Terminate end.
Definition put_address (i : Z) (a : Address) : M Spaces unit :=
  mmodify (fun s => set_addresses (set_index (addresses_ s) i a) s).
Definition modify_address (i : Z) (f : Address -> Address) : M Spaces unit :=
  a ← get_address i; put_address i (f a).

(** The page in position [page] of address [i]. *)
Definition membership_index (s : Spaces) (i page : Z) : Z := i * page_capacity_ s + page.
Definition membership (s : Spaces) (i page : Z) : LogicalKVPageHandle :=
  default null_logical (at_index (memberships_ s) (membership_index s i page)).
Definition get_membership (i page : Z) : M Spaces LogicalKVPageHandle :=
  s ← mget; mret (membership s i page).
Definition put_membership (i page : Z) (h : LogicalKVPageHandle) : M Spaces unit :=
  mmodify (fun s => set_memberships (set_index (memberships_ s) (membership_index s i page) h) s).

(** Destructors of leases and reservations. *)
Definition release_row_lease (x : KVExecutionRowLease) : M Spaces unit :=
  mmodify (fun s => set_sp_tables (row_lease_release (sp_tables s) x).1.1 s).
Definition reset_row (x : option KVExecutionRowLease) : M Spaces unit :=
  match x with Some x => release_row_lease x | None => mret tt end.
Definition destroy_reservation (r : DeviceKVPageReservation) : M Spaces unit :=
  _ ← on_device (reservation_release r); mret tt.

(** ** Handles *)

Definition address_of (s : Spaces) (h : KVAddressSpaceHandle) : option Address :=
  if bool_decide (ah_owner h = Some (sp_self s)) && (ah_index h <? Z.of_nat (length (addresses_ s))) then
    match address_at s (ah_index h) with
    | Some a => if ad_occupied a && (ad_generation a =? ah_generation h) then Some a else None
    | None => None
    end
  else None.

Definition valid (s : Spaces) (h : KVAddressSpaceHandle) : bool :=
  match address_of s h with Some _ => true | None => false end.

Definition require (h : KVAddressSpaceHandle) : M Spaces Address :=
  s ← mget;
  match address_of s h with Some a => mret a | None => mthrow InvalidArgument end.

Definition is_active_address (a : Address) : bool :=
  ad_active a && has (ad_row a) && reservation_valid (ad_reservation a).

Definition require_active (h : KVAddressSpaceHandle) : M Spaces Address :=
  a ← require h;
  _ ← mthrow_if (negb (is_active_address a)) LogicError;
  mret a.

Definition entitlement_of (a : Address) : Z :=
  w32 (page_count a + (if reservation_valid (ad_reservation a) then rs_pages (ad_reservation a) else 0)).

(** ** Creation *)

Definition create_inactive : M Spaces (option KVAddressSpaceHandle) :=
  s ← mget;
  if sp_free_count s =? 0 then mret None
  else
    let count := w32 (sp_free_count s - 1) in
    match at_index (sp_free s) count with
    | None => mthrow Terminate
    | Some index =>
        a ← get_address index;
        if ad_occupied a then mret None
        else
          _ ← mput (set_sp_free (sp_free s) count s);
          _ ← put_address index (set_occupied true a);
          mret (Some (mkSpace (Some (sp_self s)) index (ad_generation a)))
    end.

(** [publish_membership]: the physical pages of [pages] into the address's row. *)
Fixpoint physical_pages (hs : list LogicalKVPageHandle) : M Spaces (list DeviceKVPageHandle) :=
  match hs with
  | [] => mret []
  | h :: hs =>
      p ← ask (fun s => physical s h);
      ps ← physical_pages hs;
      mret (p :: ps)
  end.

Definition memberships_of (s : Spaces) (i count : Z) : list LogicalKVPageHandle :=
  membership s i <$> seqZ 0 count.

Definition publish_row (row : KVExecutionRowLease) (begin_ : Z) (ps : list DeviceKVPageHandle) : M Spaces unit :=
  s ← mget;
  _ ← on_tables (publish (physical_ (sp_pages s)) (row_lease_handle row) begin_ ps);
  mret tt.

Definition publish_membership (i : Z) : M Spaces unit :=
  a ← get_address i;
  match ad_row a with
  | None => mthrow LogicError
  | Some row =>
      s ← mget;
      ps ← physical_pages (memberships_of s i (page_count a));
      publish_row row 0 ps
  end.

(** ** Activation *)

(** The pages among the first [count] of address [i] that are not on the device. *)
Fixpoint missing_in (hs : list LogicalKVPageHandle) : M Spaces (list LogicalKVPageHandle) :=
  match hs with
  | [] => mret []
  | h :: hs =>
      resident ← ask (fun s => device_resident s h);
      missing ← missing_in hs;
      mret (if (resident : bool) then missing else h :: missing)
  end.

Definition missing_device_pages (h : KVAddressSpaceHandle) : M Spaces (list LogicalKVPageHandle) :=
  a ← require h;
  s ← mget;
  missing_in (memberships_of s (ah_index h) (page_count a)).

(** The conditions under which an address has no execution state. *)
Definition is_bound (a : Address) : bool :=
  ad_active a || has (ad_row a) || reservation_valid (ad_reservation a).

Definition prepare_activation (h : KVAddressSpaceHandle) (entitlement execution_row : Z)
    (activation_frontier : option Z) : M Spaces KVActivationReservation :=
  a ← require h;
  _ ← mthrow_if (is_bound a || (entitlement =? 0)) LogicError;
  s ← mget;
  _ ← mthrow_if ((page_capacity_ s <? entitlement) ||
                 match activation_frontier with Some f => frontier a <? f | None => false end) LogicError;
  let required_pages := match activation_frontier with Some f => pages_for_tokens f | None => page_count a end in
  let r := make_empty_reservation (physical_ (sp_pages s)) in
  missing ← missing_in (memberships_of s (ah_index h) required_pages);
  let growth := if required_pages <? entitlement then entitlement - required_pages else 0 in
  let required := Z.of_nat (length missing) + growth in
  _ ← mthrow_if (u32_max <? required) OverflowError;
  r ← on_device (resize_reservation r required);
  row ← on_throw (on_tables (acquire execution_row)) (destroy_reservation r);
  mret (mkActivation (Some (sp_self s)) h entitlement activation_frontier r (Some row)).

(** The destructor of [KVActivationReservation]. *)
Definition destroy_activation (x : KVActivationReservation) : M Spaces unit :=
  _ ← reset_row (ac_row x);
  destroy_reservation (ac_page_reservation x).

(** The checks of [commit_activation]. *)
Definition check_activation (x : KVActivationReservation) : M Spaces unit :=
  s ← mget;
  _ ← mthrow_if (negb (bool_decide (ac_owner x = Some (sp_self s)))) LogicError;
  _ ← mthrow_if (negb (has (ac_row x))) LogicError;
  _ ← mthrow_if (negb (valid s (ac_address x))) LogicError;
  a ← require (ac_address x);
  _ ← mthrow_if (is_bound a || (ac_requested_entitlement x =? 0) ||
                 (page_capacity_ s <? ac_requested_entitlement x) ||
                 match ac_activation_frontier x with
                 | Some f => negb (frontier a =? f)
                 | None => false
                 end) LogicError;
  let expected := if page_count a <? ac_requested_entitlement x
                  then ac_requested_entitlement x - page_count a else 0 in
  _ ← mthrow_if (negb (reservation_belongs_to (physical_ (sp_pages s)) (ac_page_reservation x)) ||
                 negb (rs_pages (ac_page_reservation x) =? expected)) LogicError;
  for_each (memberships_of s (ah_index (ac_address x)) (page_count a)) (fun h =>
    resident ← ask (fun s => device_resident s h);
    refs ← ask (fun s => address_references s h);
    s ← mget;
    mthrow_if (negb resident || (refs =? 1) && negb (can_set_writer (sp_pages s) h true)) LogicError).

(** One page of an address that becomes active. *)
Definition activate_page (h : LogicalKVPageHandle) : M Spaces unit :=
  refs ← ask (fun s => address_references s h);
  _ ← (if refs =? 1 then
         _ ← on_pages (clear_protection h);
         on_pages (set_writer h true)
       else mret tt);
  on_pages (retain_active_reference h).

(** The part of [commit_activation] after its checks. *)
Definition bind_activation (x : KVActivationReservation) : M Spaces unit :=
  let i := ah_index (ac_address x) in
  _ ← modify_address i (fun a =>
        set_extent (page_count a) (frontier a) 0
          (set_binding (ac_page_reservation x) (ac_row x) true a));
  a ← get_address i;
  s ← mget;
  _ ← for_each (memberships_of s i (page_count a)) activate_page;
  publish_membership i.

Definition commit_activation (x : KVActivationReservation) : M Spaces unit :=
  _ ← check_activation x;
  bind_activation x.

Definition activate (h : KVAddressSpaceHandle) (entitlement execution_row : Z) : M Spaces unit :=
  a ← require h;
  _ ← mthrow_if (entitlement <? page_count a) LogicError;
  x ← prepare_activation h entitlement execution_row None;
  _ ← on_throw (check_activation x) (destroy_activation x);
  bind_activation x.

(** One page of an address that becomes inactive. *)
Definition deactivate_page (h : LogicalKVPageHandle) : M Spaces unit :=
  w ← ask (fun s => writer_references s h);
  _ ← (if negb (w =? 0) then on_pages (set_writer h false) else mret tt);
  on_pages (release_active_reference h).

Definition deactivate (h : KVAddressSpaceHandle) : M Spaces unit :=
  a ← require_active h;
  let i := ah_index h in
  s ← mget;
  let hs := memberships_of s i (page_count a) in
  _ ← for_each hs (fun h =>
        w ← ask (fun s => writer_references s h);
        s ← mget;
        mthrow_if (negb (w =? 0) && negb (can_set_writer (sp_pages s) h false)) LogicError);
  _ ← for_each hs deactivate_page;
  _ ← reset_row (ad_row a);
  _ ← modify_address i (fun a => set_binding (ad_reservation a) None (ad_active a) a);
  r ← on_device (reservation_release (ad_reservation a));
  modify_address i (fun a => set_binding r None false a).

(** ** Checkpoint protection *)

Definition protect_checkpoint (i : Z) (a : Address) : M Spaces unit :=
  if negb (ad_occupied a) || (checkpoint_frontier a =? 0) then mret tt
  else
    _ ← mthrow_if ((frontier a <? checkpoint_frontier a) ||
                   (page_count a <? pages_for_tokens (checkpoint_frontier a))) Terminate;
    for_pages 0 (pages_for_tokens (checkpoint_frontier a)) (fun page =>
      h ← get_membership i page;
      on_pages (protect_coverage h
        (Z.min kPagedKVPageSize (w32 (checkpoint_frontier a - w32 (page * kPagedKVPageSize)))))).

Definition clear_checkpoint (i : Z) (a : Address) : M Spaces unit :=
  if negb (ad_occupied a) then mret tt
  else
    for_pages 0 (page_count a) (fun page =>
      h ← get_membership i page;
      on_pages (set_protected_coverage h 0)).

(** The addresses with their indices, in order. *)
Definition indexed_addresses (s : Spaces) : list (Z * Address) := imap (fun i a => (Z.of_nat i, a)) (addresses_ s).

Definition rebuild_checkpoint_protection : M Spaces unit :=
  noexcept (
    s ← mget;
    _ ← for_each (indexed_addresses s) (fun '(i, a) => clear_checkpoint i a);
    for_each (indexed_addresses s) (fun '(i, a) => protect_checkpoint i a)).

Definition set_checkpoint_requirement (h : KVAddressSpaceHandle) (protected_frontier : Z) : M Spaces unit :=
  a ← require h;
  _ ← mthrow_if (frontier a <? protected_frontier) InvalidArgument;
  _ ← put_address (ah_index h) (set_extent (page_count a) (frontier a) protected_frontier a);
  rebuild_checkpoint_protection.

(** ** Release *)

Definition can_release (s : Spaces) (h : KVAddressSpaceHandle) : bool :=
  match address_of s h with
  | None => false
  | Some a =>
      negb (is_bound a) &&
      forallb (fun h => can_release_reference (sp_pages s) h false)
        (memberships_of s (ah_index h) (page_count a))
  end.

Definition can_release_after_deactivate (s : Spaces) (h : KVAddressSpaceHandle) : bool :=
  match address_of s h with
  | None => false
  | Some a =>
      if negb (ad_active a) then can_release s h
      else
        has (ad_row a) &&
        forallb (fun h => can_release_reference_after_active_reference (sp_pages s) h)
          (memberships_of s (ah_index h) (page_count a))
  end.

(** Gives one reference back and empties the membership. *)
Definition release_member (i page : Z) : M Spaces unit :=
  h ← get_membership i page;
  ok ← on_pages (release_reference h false);
  _ ← mthrow_if (negb ok) Terminate;
  put_membership i page null_logical.

Definition release (h : KVAddressSpaceHandle) : M Spaces bool :=
  noexcept (
    s ← mget;
    if negb (can_release s h) then mret false
    else
      let i := ah_index h in
      a ← get_address i;
      _ ← for_pages 0 (page_count a) (release_member i);
      let generation := increment_generation (ad_generation a) in
      _ ← put_address i (mkAddress generation 0 0 0 null_reservation None false false);
      s ← mget;
      _ ← (if sp_free_count s <? Z.of_nat (length (sp_free s))
           then mput (set_sp_free (set_index (sp_free s) (sp_free_count s) i) (w32 (sp_free_count s + 1)) s)
           else mthrow Terminate);
      _ ← rebuild_checkpoint_protection;
      mret true).

Definition release_after_deactivate (h : KVAddressSpaceHandle) : M Spaces bool :=
  noexcept (
    s ← mget;
    if negb (can_release_after_deactivate s h) then mret false
    else
      a ← get_address (ah_index h);
      _ ← (if ad_active a then deactivate h else mret tt);
      ok ← release h;
      _ ← mthrow_if (negb ok) Terminate;
      mret true).

Definition create_active (entitlement execution_row : Z) : M Spaces (option KVAddressSpaceHandle) :=
  s ← mget;
  if (entitlement =? 0) || (page_capacity_ s <? entitlement) then mret None
  else
    x ← create_inactive;
    match x with
    | None => mret None
    | Some h => _ ← on_throw (activate h entitlement execution_row) (_ ← release h; mret tt); mret (Some h)
    end.

(** ** Prefix forks *)

Definition require_prefix_fork (x : KVPrefixForkReservation) : M Spaces unit :=
  s ← mget;
  mthrow_if (negb (bool_decide (fk_owner x = Some (sp_self s))) || negb (valid s (fk_source x)) ||
             negb (valid s (fk_destination x))) LogicError.

Definition set_fork (r : DeviceKVPageReservation) (settled : bool) (x : KVPrefixForkReservation)
    : KVPrefixForkReservation :=
  mkFork (fk_owner x) (fk_source x) (fk_destination x) (fk_frontier x) (fk_full_pages x) (fk_tail_columns x)
    (fk_requested_entitlement x) r (fk_row x) (fk_tail_destination x) (fk_staged_tail_release x) settled.

(** One source page of a prefix fork: [full] pages are shared, the tail is copied. *)
Definition check_fork_source (i full tail page : Z) : M Spaces unit :=
  h ← get_membership i page;
  let required := if page <? full then kPagedKVPageSize else tail in
  resident ← ask (fun s => device_resident s h);
  committed ← ask (fun s => committed_columns s h);
  s ← mget;
  mthrow_if (negb resident || (committed <? required) || negb (can_pin_source (sp_pages s) h) ||
             (page <? full) && negb (can_retain_reference (sp_pages s) h false)) LogicError.

Definition prepare_prefix_fork (source destination : KVAddressSpaceHandle) (front entitlement execution_row : Z)
    (staged_tail_release : bool) : M Spaces KVPrefixForkReservation :=
  a ← require source;
  b ← require destination;
  _ ← mthrow_if (is_bound a) LogicError;
  _ ← mthrow_if (is_bound b || negb (page_count b =? 0) || negb (frontier b =? 0)) LogicError;
  _ ← mthrow_if ((front =? 0) || (frontier a <? front)) LogicError;
  let required_pages := pages_for_tokens front in
  s ← mget;
  _ ← mthrow_if ((entitlement <? required_pages) || (page_capacity_ s <? entitlement)) InvalidArgument;
  let full := front / kPagedKVPageSize in
  let tail := front mod kPagedKVPageSize in
  _ ← mthrow_if (staged_tail_release && (tail =? 0)) InvalidArgument;
  _ ← for_pages 0 required_pages (check_fork_source (ah_index source) full tail);
  let r := make_empty_reservation (physical_ (sp_pages s)) in
  r ← on_device (resize_reservation r (if staged_tail_release then 1 else entitlement - full));
  row ← on_throw (on_tables (acquire execution_row)) (destroy_reservation r);
  '(r, tail_destination) ←
    (if negb (tail =? 0) then
       '(r, h) ← on_throw (on_pages (materialize_transfer_destination r tail))
                   (_ ← release_row_lease row; destroy_reservation r);
       mret (r, Some h)
     else mret (r, None));
  _ ← on_throw
        (for_pages 0 required_pages (fun page =>
           h ← get_membership (ah_index source) page; on_pages (pin_source h)))
        (_ ← release_row_lease row; destroy_reservation r);
  mret (mkFork (Some (sp_self s)) source destination front full tail entitlement r (Some row)
          tail_destination staged_tail_release false).

Definition prefix_fork_tail_logical_source (x : KVPrefixForkReservation) : M Spaces LogicalKVPageHandle :=
  _ ← require_prefix_fork x;
  _ ← mthrow_if (fk_tail_columns x =? 0) LogicError;
  _ ← require (fk_source x);
  get_membership (ah_index (fk_source x)) (fk_full_pages x).

Definition prefix_fork_tail_source (x : KVPrefixForkReservation) : M Spaces DeviceKVPageHandle :=
  h ← prefix_fork_tail_logical_source x;
  ask (fun s => physical s h).

Definition prefix_fork_tail_destination (x : KVPrefixForkReservation) : M Spaces DeviceKVPageHandle :=
  _ ← require_prefix_fork x;
  match fk_tail_destination x with
  | None => mthrow LogicError
  | Some h => ask (fun s => physical s h)
  end.

Definition settle_prefix_fork_tail_source (x : KVPrefixForkReservation) : M Spaces KVPrefixForkReservation :=
  _ ← require_prefix_fork x;
  _ ← mthrow_if (negb (fk_staged_tail_release x) || fk_tail_source_settled x || (fk_tail_columns x =? 0)) LogicError;
  _ ← require (fk_source x);
  h ← get_membership (ah_index (fk_source x)) (fk_full_pages x);
  s ← mget;
  _ ← mthrow_if (negb (LogicalKVPageStore.valid (sp_pages s) h)) LogicError;
  pins ← ask (fun s => source_pins s h);
  resident ← ask (fun s => device_resident s h);
  _ ← mthrow_if ((pins =? 0) || negb resident) LogicError;
  _ ← on_pages (unpin_source h);
  mret (set_fork (fk_page_reservation x) true x).

Definition complete_prefix_fork_after_tail_release (x : KVPrefixForkReservation)
    : M Spaces KVPrefixForkReservation :=
  _ ← require_prefix_fork x;
  _ ← mthrow_if (negb (fk_staged_tail_release x) || negb (fk_tail_source_settled x) || (fk_tail_columns x =? 0))
        LogicError;
  _ ← require (fk_source x);
  h ← get_membership (ah_index (fk_source x)) (fk_full_pages x);
  s ← mget;
  _ ← mthrow_if (negb (LogicalKVPageStore.valid (sp_pages s) h)) LogicError;
  resident ← ask (fun s => device_resident s h);
  on_host ← ask (fun s => host_resident s h);
  _ ← mthrow_if (resident || negb on_host) LogicError;
  let growth := w32 (fk_requested_entitlement x - pages_for_tokens (fk_frontier x)) in
  r ← on_device (resize_reservation (fk_page_reservation x) growth);
  mret (set_fork r (fk_tail_source_settled x) x).

(** One source page before a prefix fork is published. *)
Definition recheck_fork_source (x : KVPrefixForkReservation) (page : Z) : M Spaces unit :=
  h ← get_membership (ah_index (fk_source x)) page;
  let settled_tail := (page =? fk_full_pages x) && fk_tail_source_settled x in
  pins ← ask (fun s => source_pins s h);
  resident ← ask (fun s => device_resident s h);
  on_host ← ask (fun s => host_resident s h);
  s ← mget;
  mthrow_if (negb settled_tail && ((pins =? 0) || negb resident) ||
             settled_tail && (negb (fk_staged_tail_release x) || resident || negb on_host) ||
             (page <? fk_full_pages x) && negb (can_retain_reference (sp_pages s) h false)) LogicError.

(** Shares one full page of [source] with [destination]. *)
Definition share_page (source destination page : Z) : M Spaces unit :=
  h ← get_membership source page;
  _ ← on_pages (retain_reference h false);
  _ ← on_pages (protect_coverage h kPagedKVPageSize);
  put_membership destination page h.

(** Installs the copied tail as the destination's writer page. *)
Definition install_tail (destination page : Z) (tail : option LogicalKVPageHandle) : M Spaces unit :=
  match tail with
  | None => mret tt
  | Some h =>
      _ ← on_pages (publish_transfer_destination h true);
      put_membership destination page h
  end.

Definition option_to_list {A} (x : option A) : list A := match x with Some a => [a] | None => [] end.

Definition commit_prefix_fork (x : KVPrefixForkReservation) : M Spaces unit :=
  _ ← require_prefix_fork x;
  _ ← require (fk_source x);
  b ← require (fk_destination x);
  let i := ah_index (fk_source x) in
  let j := ah_index (fk_destination x) in
  let required_pages := pages_for_tokens (fk_frontier x) in
  let growth := w32 (fk_requested_entitlement x - required_pages) in
  match fk_row x with
  | None => mthrow LogicError
  | Some row =>
      _ ← mthrow_if (is_bound b || negb (page_count b =? 0) ||
                     negb (rs_pages (fk_page_reservation x) =? growth)) LogicError;
      _ ← for_pages 0 required_pages (recheck_fork_source x);
      s ← mget;
      _ ← mthrow_if (negb (fk_tail_columns x =? 0) &&
                     negb (match fk_tail_destination x with
                           | Some h => LogicalKVPageStore.valid (sp_pages s) h
                           | None => false
                           end)) LogicError;
      ps ← physical_pages (memberships_of s i (fk_full_pages x) ++ option_to_list (fk_tail_destination x));
      _ ← publish_row row 0 ps;
      _ ← for_pages 0 (fk_full_pages x) (share_page i j);
      _ ← install_tail j (fk_full_pages x) (fk_tail_destination x);
      _ ← modify_address j (fun b =>
            set_extent required_pages (fk_frontier x) (checkpoint_frontier b)
              (set_binding (fk_page_reservation x) (Some row) true b));
      _ ← for_pages 0 required_pages (fun page =>
            h ← get_membership j page; on_pages (retain_active_reference h));
      for_pages 0 required_pages (fun page =>
        if (page =? fk_full_pages x) && fk_tail_source_settled x then mret tt
        else h ← get_membership i page; on_pages (unpin_source h))
  end.

(** Takes back the pin of a source page that still has one. *)
Definition unpin_if_pinned (i page : Z) : M Spaces unit :=
  h ← get_membership i page;
  s ← mget;
  if LogicalKVPageStore.valid (sp_pages s) h then
    pins ← ask (fun s => source_pins s h);
    if negb (pins =? 0) then on_pages (unpin_source h) else mret tt
  else mret tt.

(** [abort_prefix_fork]: the reservation that is left. *)
Definition abort_prefix_fork (x : KVPrefixForkReservation) : M Spaces DeviceKVPageReservation :=
  noexcept (
    s ← mget;
    if negb (bool_decide (fk_owner x = Some (sp_self s))) then mret (fk_page_reservation x)
    else
      _ ← (if valid s (fk_source x) then
             for_pages 0 (pages_for_tokens (fk_frontier x)) (fun page =>
               if (page =? fk_full_pages x) && fk_tail_source_settled x then mret tt
               else unpin_if_pinned (ah_index (fk_source x)) page)
           else mret tt);
      match fk_tail_destination x with
      | Some h => on_pages (abort_transfer_destination h (fk_page_reservation x))
      | None => mret (fk_page_reservation x)
      end).

(** The destructor of [KVPrefixForkReservation]. *)
Definition destroy_prefix_fork (x : KVPrefixForkReservation) : M Spaces unit :=
  r ← abort_prefix_fork x;
  _ ← reset_row (fk_row x);
  destroy_reservation r.

(** ** Active snapshots *)

(** The walk over the full pages of an active address: immutable pages come first. *)
Fixpoint snapshot_walk (hs : list LogicalKVPageHandle) (mutable_full_seen : bool) (shape : KVActiveSnapshotShape)
    : M Spaces KVActiveSnapshotShape :=
  match hs with
  | [] => mret shape
  | h :: hs =>
      refs ← ask (fun s => address_references s h);
      writers ← ask (fun s => writer_references s h);
      resident ← ask (fun s => device_resident s h);
      committed ← ask (fun s => committed_columns s h);
      s ← mget;
      let p := sp_pages s in
      _ ← mthrow_if (negb resident || (refs =? 0) || (committed <? kPagedKVPageSize) ||
                     negb (can_retain_reference p h false)) LogicError;
      let unique n := if refs =? 1 then w32 (n + 1) else n in
      if writers =? 0 then
        _ ← mthrow_if (mutable_full_seen || negb (can_pin_source p h)) LogicError;
        snapshot_walk hs mutable_full_seen
          (mkShape (full_pages shape) (w32 (immutable_full_pages shape + 1)) (unique (unique_full_pages shape))
            (tail_columns shape))
      else if (writers =? 1) && (refs =? 1) && can_pin_active_source p h then
        snapshot_walk hs true
          (mkShape (full_pages shape) (immutable_full_pages shape) (unique (unique_full_pages shape))
            (tail_columns shape))
      else mthrow LogicError
  end.

Definition active_snapshot_shape (source : KVAddressSpaceHandle) (front : Z) : M Spaces KVActiveSnapshotShape :=
  a ← require_active source;
  _ ← mthrow_if ((front =? 0) || negb (front =? frontier a)) LogicError;
  let required_pages := pages_for_tokens front in
  _ ← mthrow_if ((page_count a <? required_pages) || (entitlement_of a <? required_pages)) LogicError;
  s ← mget;
  let full := front / kPagedKVPageSize in
  let tail := front mod kPagedKVPageSize in
  let i := ah_index source in
  shape ← snapshot_walk (memberships_of s i full) false (mkShape full 0 0 tail);
  if negb (tail =? 0) then
    let h := membership s i full in
    resident ← ask (fun s => device_resident s h);
    writers ← ask (fun s => writer_references s h);
    refs ← ask (fun s => address_references s h);
    committed ← ask (fun s => committed_columns s h);
    _ ← mthrow_if (negb resident || negb (writers =? 1) || negb (refs =? 1) || (committed <? tail) ||
                   negb (can_pin_active_source (sp_pages s) h)) LogicError;
    mret shape
  else mret shape.

Definition prepare_active_snapshot (source destination : KVAddressSpaceHandle) (front : Z)
    : M Spaces KVActiveSnapshotReservation :=
  a ← require_active source;
  b ← require destination;
  _ ← mthrow_if (is_bound b || negb (page_count b =? 0) || negb (frontier b =? 0) || (front =? 0) ||
                 negb (front =? frontier a)) LogicError;
  shape ← active_snapshot_shape source front;
  let required_pages := pages_for_tokens front in
  _ ← mthrow_if (negb (page_count a =? required_pages)) LogicError;
  s ← mget;
  let r := make_empty_reservation (physical_ (sp_pages s)) in
  r ← (if negb (copied_pages shape =? 0) then on_device (resize_reservation r (copied_pages shape)) else mret r);
  '(r, tail_destination) ←
    (if negb (tail_columns shape =? 0) then
       '(r, h) ← on_throw (on_pages (materialize_transfer_destination r (tail_columns shape)))
                   (destroy_reservation r);
       mret (r, Some h)
     else mret (r, None));
  _ ← on_throw
        (for_pages 0 required_pages (fun page =>
           h ← get_membership (ah_index source) page; on_pages (pin_source h)))
        (match tail_destination with
         | Some h => r ← on_pages (abort_transfer_destination h r); destroy_reservation r
         | None => destroy_reservation r
         end);
  mret (mkSnapshot (Some (sp_self s)) source destination front shape (entitlement_of a) r tail_destination).

Definition require_active_snapshot (x : KVActiveSnapshotReservation) : M Spaces unit :=
  s ← mget;
  mthrow_if (negb (bool_decide (sn_owner x = Some (sp_self s))) || negb (valid s (sn_source x)) ||
             negb (valid s (sn_destination x))) LogicError.

Definition active_snapshot_tail_source (x : KVActiveSnapshotReservation) : M Spaces DeviceKVPageHandle :=
  _ ← require_active_snapshot x;
  _ ← mthrow_if (tail_columns (sn_shape x) =? 0) LogicError;
  _ ← require (sn_source x);
  h ← get_membership (ah_index (sn_source x)) (full_pages (sn_shape x));
  ask (fun s => physical s h).

Definition active_snapshot_tail_destination (x : KVActiveSnapshotReservation) : M Spaces DeviceKVPageHandle :=
  _ ← require_active_snapshot x;
  match sn_tail_destination x with
  | None => mthrow LogicError
  | Some h => ask (fun s => physical s h)
  end.

Definition recheck_snapshot_source (i page : Z) : M Spaces unit :=
  h ← get_membership i page;
  pins ← ask (fun s => source_pins s h);
  resident ← ask (fun s => device_resident s h);
  mthrow_if ((pins =? 0) || negb resident) LogicError.

(** A full page of a snapshot loses its writer and is shared. *)
Definition snapshot_page (source destination page : Z) : M Spaces unit :=
  h ← get_membership source page;
  w ← ask (fun s => writer_references s h);
  _ ← (if negb (w =? 0) then on_pages (set_writer h false) else mret tt);
  share_page source destination page.

Definition commit_active_snapshot (x : KVActiveSnapshotReservation) : M Spaces unit :=
  _ ← require_active_snapshot x;
  a ← require_active (sn_source x);
  b ← require (sn_destination x);
  shape ← active_snapshot_shape (sn_source x) (sn_frontier x);
  let i := ah_index (sn_source x) in
  let j := ah_index (sn_destination x) in
  let required_pages := pages_for_tokens (sn_frontier x) in
  let expected_growth := w32 (sn_entitlement x - required_pages) in
  match ad_row a with
  | None => mthrow LogicError
  | Some row =>
      _ ← mthrow_if (negb (bool_decide (shape = sn_shape x)) || negb (page_count a =? required_pages) ||
                     negb (frontier a =? sn_frontier x) ||
                     negb (rs_pages (ad_reservation a) =? expected_growth) || is_bound b ||
                     negb (page_count b =? 0) || negb (frontier b =? 0) ||
                     negb (rs_pages (sn_tail_reservation x) =? 0)) LogicError;
      _ ← for_pages 0 required_pages (recheck_snapshot_source i);
      s ← mget;
      let full := full_pages (sn_shape x) in
      _ ← mthrow_if (negb (tail_columns (sn_shape x) =? 0) &&
                     negb (match sn_tail_destination x with
                           | Some h => LogicalKVPageStore.valid (sp_pages s) h
                           | None => false
                           end)) LogicError;
      ps ← physical_pages (memberships_of s i full ++ option_to_list (sn_tail_destination x));
      _ ← publish_row row 0 ps;
      _ ← for_pages 0 full (snapshot_page i j);
      _ ← match sn_tail_destination x with
          | None => mret tt
          | Some _ =>
              h ← get_membership i full;
              _ ← on_pages (set_writer h false);
              _ ← on_pages (protect_coverage h (tail_columns (sn_shape x)));
              install_tail j full (sn_tail_destination x)
          end;
      _ ← modify_address j (fun b =>
            set_extent required_pages (sn_frontier x) (checkpoint_frontier b)
              (set_binding (ad_reservation a) (Some row) true b));
      _ ← (if negb (tail_columns (sn_shape x) =? 0) then
             h ← get_membership i full;
             _ ← on_pages (release_active_reference h);
             h ← get_membership j full;
             on_pages (retain_active_reference h)
           else mret tt);
      _ ← modify_address i (fun a =>
            set_extent (page_count a) (frontier a) (sn_frontier x) (set_binding null_reservation None false a));
      for_pages 0 required_pages (fun page => h ← get_membership i page; on_pages (unpin_source h))
  end.

Definition abort_active_snapshot (x : KVActiveSnapshotReservation) : M Spaces DeviceKVPageReservation :=
  noexcept (
    s ← mget;
    if negb (bool_decide (sn_owner x = Some (sp_self s))) then mret (sn_tail_reservation x)
    else
      _ ← match address_of s (sn_source x) with
          | Some a => for_pages 0 (Z.min (pages_for_tokens (sn_frontier x)) (page_count a))
                        (unpin_if_pinned (ah_index (sn_source x)))
          | None => mret tt
          end;
      match sn_tail_destination x with
      | Some h => on_pages (abort_transfer_destination h (sn_tail_reservation x))
      | None => mret (sn_tail_reservation x)
      end).

(** The destructor of [KVActiveSnapshotReservation]. *)
Definition destroy_active_snapshot (x : KVActiveSnapshotReservation) : M Spaces unit :=
  r ← abort_active_snapshot x;
  destroy_reservation r.

(** ** Growth and truncation of an active address *)

Definition resize_address_reservation (i : Z) (pages : Z) : M Spaces unit :=
  a ← get_address i;
  r ← on_device (resize_reservation (ad_reservation a) pages);
  modify_address i (fun a => set_binding r (ad_row a) (ad_active a) a).

Definition resize_entitlement (h : KVAddressSpaceHandle) (entitlement : Z) : M Spaces unit :=
  a ← require_active h;
  s ← mget;
  _ ← mthrow_if ((entitlement <? page_count a) || (page_capacity_ s <? entitlement)) InvalidArgument;
  resize_address_reservation (ah_index h) (entitlement - page_count a).

Definition release_growth_entitlement (h : KVAddressSpaceHandle) : M Spaces unit :=
  _ ← require_active h;
  resize_address_reservation (ah_index h) 0.

(** Writes consecutive memberships. *)
Fixpoint put_memberships (i page : Z) (hs : list LogicalKVPageHandle) : M Spaces unit :=
  match hs with
  | [] => mret tt
  | h :: hs => _ ← put_membership i page h; put_memberships i (page + 1) hs
  end.

(** Gives the pages of a failed growth back to the address's reservation. *)
Definition dematerialize_member (i page : Z) : M Spaces unit :=
  h ← get_membership i page;
  a ← get_address i;
  r ← on_pages (dematerialize h (ad_reservation a));
  _ ← modify_address i (fun a => set_binding r (ad_row a) (ad_active a) a);
  put_membership i page null_logical.

Definition ensure_mapped_to_tokens (h : KVAddressSpaceHandle) (tokens : Z) : M Spaces unit :=
  a ← require_active h;
  let i := ah_index h in
  let target := pages_for_tokens tokens in
  _ ← mthrow_if (entitlement_of a <? target) InvalidArgument;
  if target <=? page_count a then mret tt
  else
    let begin_ := page_count a in
    let count := target - begin_ in
    s ← mget;
    let predecessor := if begin_ =? 0 then None else Some (membership s i (begin_ - 1)) in
    '(r, added) ← on_pages (materialize_batch (ad_reservation a)
                     (membership s i <$> seqZ begin_ count) predecessor);
    _ ← modify_address i (fun a => set_binding r (ad_row a) (ad_active a) a);
    _ ← put_memberships i begin_ added;
    _ ← on_throw
          (ps ← physical_pages added;
           match ad_row a with
           | Some row => publish_row row begin_ ps
           | None => mthrow Terminate
           end)
          (for_pages begin_ target (dematerialize_member i));
    _ ← for_each added (fun h => on_pages (retain_active_reference h));
    modify_address i (fun a => set_extent target (frontier a) (checkpoint_frontier a) a).

(** One page whose coverage a new frontier extends. *)
Definition commit_page (i front page : Z) : M Spaces unit :=
  let begin_ := w32 (page * kPagedKVPageSize) in
  let columns := Z.min kPagedKVPageSize (w32 (front - begin_)) in
  h ← get_membership i page;
  committed ← ask (fun s => committed_columns s h);
  if committed <? columns then on_pages (commit_coverage h columns) else mret tt.

Definition commit_frontier (h : KVAddressSpaceHandle) (front : Z) : M Spaces unit :=
  a ← require_active h;
  _ ← mthrow_if ((front <? frontier a) || (page_count a <? pages_for_tokens front)) InvalidArgument;
  if front =? frontier a then mret tt
  else
    let i := ah_index h in
    let first_changed_page := frontier a / kPagedKVPageSize in
    let final_changed_page := w32 (front - 1) / kPagedKVPageSize in
    _ ← for_pages first_changed_page (final_changed_page + 1) (commit_page i front);
    modify_address i (fun a => set_extent (page_count a) front (checkpoint_frontier a) a).

(** The columns of the last page of [target] pages that a frontier leaves. *)
Definition tail_extent (front target : Z) : Z := w32 (front - w32 ((target - 1) * kPagedKVPageSize)).

(** [while (page_count > target)]: pages go back to the reservation, last first. *)
Definition drop_active_page (i page : Z) : M Spaces unit :=
  h ← get_membership i page;
  _ ← modify_address i (fun a => set_extent page (frontier a) (checkpoint_frontier a) a);
  _ ← put_membership i page null_logical;
  _ ← on_pages (release_active_reference h);
  a ← get_address i;
  r ← on_pages (dematerialize h (ad_reservation a));
  modify_address i (fun a => set_binding r (ad_row a) (ad_active a) a).

Definition destructive_truncate (h : KVAddressSpaceHandle) (front : Z) : M Spaces unit :=
  a ← require_active h;
  let i := ah_index h in
  _ ← mthrow_if (frontier a <? front) InvalidArgument;
  let target := pages_for_tokens front in
  if (front =? frontier a) && (target =? page_count a) then mret tt
  else
    s ← mget;
    _ ← mthrow_if (negb (forallb (fun page => can_dematerialize (sp_pages s) (membership s i page))
                           (seqZ target (page_count a - target)))) LogicError;
    _ ← mthrow_if (negb (target =? 0) &&
                   negb (can_destructive_truncate (sp_pages s) (membership s i (target - 1))
                           (tail_extent front target))) LogicError;
    _ ← for_each (reverse (seqZ target (page_count a - target))) (drop_active_page i);
    _ ← (if negb (target =? 0) then
           h ← get_membership i (target - 1);
           on_pages (LogicalKVPageStore.destructive_truncate h (tail_extent front target))
         else mret tt);
    modify_address i (fun a => set_extent (page_count a) front (checkpoint_frontier a) a).

(** ** Truncation of an inactive address *)

Definition suffix_releasable (s : Spaces) (i target count : Z) : bool :=
  forallb (fun page => can_release_reference (sp_pages s) (membership s i page) false)
    (seqZ target (count - target)).

Definition can_truncate_inactive_prefix (s : Spaces) (h : KVAddressSpaceHandle) (front : Z) : bool :=
  match address_of s h with
  | None => false
  | Some a =>
      negb (is_bound a || (frontier a <? front)) &&
      suffix_releasable s (ah_index h) (pages_for_tokens front) (page_count a)
  end.

(** A stale tail would make the [noexcept] query terminate; it counts as not truncatable here. *)
Definition can_destructive_truncate_inactive (s : Spaces) (h : KVAddressSpaceHandle) (front : Z)
    (tail_host_replica_will_be_released : bool) : bool :=
  match address_of s h with
  | None => false
  | Some a =>
      let i := ah_index h in
      let target := pages_for_tokens front in
      negb (is_bound a || (frontier a <? front)) &&
      suffix_releasable s i target (page_count a) &&
      (if negb (target =? 0) then
         let columns := tail_extent front target in
         let tail := membership s i (target - 1) in
         match committed_columns (sp_pages s) tail with
         | Ok committed =>
             (columns =? committed) ||
             (if tail_host_replica_will_be_released
              then can_destructive_truncate_inactive_after_host_release (sp_pages s) tail columns
              else LogicalKVPageStore.can_destructive_truncate_inactive (sp_pages s) tail columns)
         | Throw _ => false
         end
       else true)
  end.

Definition drop_inactive_page (i page : Z) : M Spaces unit :=
  h ← get_membership i page;
  _ ← modify_address i (fun a => set_extent page (frontier a) (checkpoint_frontier a) a);
  _ ← put_membership i page null_logical;
  ok ← on_pages (release_reference h false);
  mthrow_if (negb ok) Terminate.

(** Cuts the last page that stays, when it holds more. *)
Definition cut_tail (i front target : Z) : M Spaces unit :=
  if negb (target =? 0) then
    let columns := tail_extent front target in
    tail ← get_membership i (target - 1);
    committed ← ask (fun s => committed_columns s tail);
    if negb (columns =? committed)
    then on_pages (LogicalKVPageStore.destructive_truncate_inactive tail columns) else mret tt
  else mret tt.

Definition destructive_truncate_inactive (h : KVAddressSpaceHandle) (front : Z) : M Spaces unit :=
  s ← mget;
  _ ← mthrow_if (negb (can_destructive_truncate_inactive s h front false)) LogicError;
  a ← require h;
  let i := ah_index h in
  let target := pages_for_tokens front in
  _ ← for_each (reverse (seqZ target (page_count a - target))) (drop_inactive_page i);
  _ ← cut_tail i front target;
  _ ← modify_address i (fun a => set_extent (page_count a) front 0 a);
  rebuild_checkpoint_protection.

Definition truncate_inactive_prefix (h : KVAddressSpaceHandle) (front : Z) : M Spaces unit :=
  s ← mget;
  _ ← mthrow_if (negb (can_truncate_inactive_prefix s h front)) LogicError;
  a ← require h;
  let i := ah_index h in
  let target := pages_for_tokens front in
  _ ← for_each (reverse (seqZ target (page_count a - target))) (drop_inactive_page i);
  _ ← modify_address i (fun a => set_extent (page_count a) front (Z.min (checkpoint_frontier a) front) a);
  rebuild_checkpoint_protection.

(** ** Queries *)

Definition mapped_pages (h : KVAddressSpaceHandle) : M Spaces Z := a ← require h; mret (page_count a).
Definition entitlement (h : KVAddressSpaceHandle) : M Spaces Z := a ← require h; mret (entitlement_of a).
Definition committed_frontier (h : KVAddressSpaceHandle) : M Spaces Z := a ← require h; mret (frontier a).

Definition bound_row (s : Spaces) (h : KVAddressSpaceHandle) : Z :=
  match address_of s h with
  | Some a => match ad_row a with Some x => rl_row x | None => -1 end
  | None => -1
  end.

Definition active (s : Spaces) (h : KVAddressSpaceHandle) : bool :=
  match address_of s h with Some a => ad_active a | None => false end.

Definition execution_row (h : KVAddressSpaceHandle) : M Spaces KVExecutionRowLease :=
  a ← require h;
  match ad_row a with
  | Some x => if ad_active a then mret x else mthrow LogicError
  | None => mthrow LogicError
  end.

Definition logical_page (h : KVAddressSpaceHandle) (page : Z) : M Spaces LogicalKVPageHandle :=
  a ← require h;
  _ ← mthrow_if (page_count a <=? page) OutOfRange;
  get_membership (ah_index h) page.

Definition physical_page (h : KVAddressSpaceHandle) (page : Z) : M Spaces DeviceKVPageHandle :=
  x ← logical_page h page; ask (fun s => physical s x).

Definition page_epoch (h : KVAddressSpaceHandle) (page : Z) : M Spaces Z :=
  x ← logical_page h page; ask (fun s => content_epoch s x).

Definition has_active_reference (s : Spaces) (h : LogicalKVPageHandle) : bool :=
  query (sp_pages s) h (fun pg => negb (active_references pg =? 0)).

End KVAddressSpaceStore.
