(* ===== verification/KVAddressPages.v ===== *)
(** * Address spaces: loops over logical pages

    The page loops of [KVAddressSpaceStore] change every page of a list once.  This file states what
    such a loop does to the page store, pointwise, and what the calls of the page store do to one
    page. *)

From S2P Require Import Prelude Post Extents Tensor KVGeometry DevicePagePool DevicePoolInvariant DevicePoolOps ExecutionTables KVPages KVPagesInvariant KVAddress.
Import LogicalKVPageStore KVAddressSpaceStore.

(** ** Updating the pages of a list of handles *)

Definition indices (hs : list LogicalKVPageHandle) : list Z := lh_index <$> hs.

Definition upd_pages (hs : list LogicalKVPageHandle) (f : Page -> Page) (s : Store) : Store :=
  foldl (fun s h => match page_of s h with Some pg => set_page_at (lh_index h) (f pg) s | None => s end) s hs.

(** A change of fields that keeps the descriptor in use. *)
Definition keeps_slot (f : Page -> Page) : Prop :=
  forall pg, occupied (f pg) = occupied pg /\ generation (f pg) = generation pg.

Lemma page_of_other s h h' pg pg' :
  page_of s h = Some pg -> lh_index h <> lh_index h' ->
  page_of (set_page_at (lh_index h) pg' s) h' = page_of s h'.
Proof.
  intros (_ & Hi & _)%page_of_Some Hne. unfold page_of, capacity.
  rewrite (at_set_page_at s _ _ pg _ Hi), decide_False by done.
  cbn [st_self pages_ set_page_at set_pages]. by rewrite length_set_index.
Qed.

Lemma page_of_same S S' h :
  st_self S' = st_self S -> length (pages_ S') = length (pages_ S) ->
  at_index (pages_ S') (lh_index h) = at_index (pages_ S) (lh_index h) -> page_of S' h = page_of S h.
Proof. unfold page_of, capacity. by intros -> -> ->. Qed.

Section upd.
Context (f : Page -> Page) (Hf : keeps_slot f).

Lemma upd_pages_lookup hs : forall s i,
  NoDup (indices hs) -> Forall (fun h => is_Some (page_of s h)) hs ->
  at_index (pages_ (upd_pages hs f s)) i =
    (if decide (i ∈ indices hs) then f <$> at_index (pages_ s) i else at_index (pages_ s) i).
Proof.
  induction hs as [|h hs IH]; intros s i Hnd Hv.
  { cbn. rewrite decide_False; [done|]. apply not_elem_of_nil. }
  apply NoDup_cons in Hnd as [Hh Hnd]. apply Forall_cons in Hv as [[pg Hpg] Hv].
  unfold upd_pages. cbn [foldl]. rewrite Hpg. fold (upd_pages hs f (set_page_at (lh_index h) (f pg) s)).
  pose proof Hpg as (_ & Hi & _)%page_of_Some.
  rewrite IH; [|done|].
  - rewrite (at_set_page_at s _ _ pg _ Hi). change (indices (h :: hs)) with (lh_index h :: indices hs).
    destruct (decide (lh_index h = i)) as [<-|Hne].
    + rewrite !decide_False by done. rewrite decide_True by by left. by rewrite Hi.
    + destruct (decide (i ∈ indices hs)).
      * rewrite decide_True by by right. done.
      * rewrite decide_False; [done|]. rewrite elem_of_cons. intros [?|?]; [congruence|done].
  - rewrite Forall_forall in Hv |- *. intros h' Hh'. rewrite (page_of_other s h h' pg); [by apply Hv|done|].
    intros Heq. apply Hh. rewrite Heq. by apply list_elem_of_fmap_2.
Qed.

Lemma upd_pages_frame hs s :
  st_self (upd_pages hs f s) = st_self s /\ physical_ (upd_pages hs f s) = physical_ s /\
  free_ (upd_pages hs f s) = free_ s /\ free_count_ (upd_pages hs f s) = free_count_ s /\
  scratch_capacity (upd_pages hs f s) = scratch_capacity s /\
  length (pages_ (upd_pages hs f s)) = length (pages_ s).
Proof.
  revert s. induction hs as [|h hs IH]; intros s; [done|]. unfold upd_pages. cbn [foldl].
  destruct (page_of s h) as [pg|]; [|apply IH].
  destruct (IH (set_page_at (lh_index h) (f pg) s)) as (? & ? & ? & ? & ? & Hl). split_and!; try done.
  etransitivity; [exact Hl|]. cbn. apply length_set_index.
Qed.

Lemma upd_pages_page_of hs s h :
  NoDup (indices hs) -> Forall (fun h => is_Some (page_of s h)) hs ->
  page_of (upd_pages hs f s) h =
    (if decide (lh_index h ∈ indices hs) then f <$> page_of s h else page_of s h).
Proof.
  intros Hnd Hv. destruct (upd_pages_frame hs s) as (Hs & _ & _ & _ & _ & Hl).
  unfold page_of, capacity. rewrite Hs, Hl, (upd_pages_lookup hs s) by done.
  destruct (bool_decide (lh_owner h = Some (st_self s)) && (lh_index h <? Z.of_nat (length (pages_ s))));
    [|by case_decide].
  case_decide; [|done]. destruct (at_index (pages_ s) (lh_index h)) as [pg|]; [|done]. cbn.
  destruct (Hf pg) as [-> ->]. by destruct (occupied pg && (generation pg =? lh_generation h)).
Qed.
End upd.

(** A loop that applies [f] to each page. *)
Lemma for_each_upd (op : LogicalKVPageHandle -> M Spaces unit) f hs : forall s,
  NoDup (indices hs) ->
  Forall (fun h => exists pg, page_of (sp_pages s) h = Some pg /\
    forall S, page_of S h = Some pg ->
      op h (set_sp_pages S s) = (set_sp_pages (set_page_at (lh_index h) (f pg) S) s, Ok tt)) hs ->
  for_each hs op s = (set_sp_pages (upd_pages hs f (sp_pages s)) s, Ok tt).
Proof.
  assert (forall S0 s, NoDup (indices hs) ->
    Forall (fun h => exists pg, page_of S0 h = Some pg /\
      forall S, page_of S h = Some pg ->
        op h (set_sp_pages S s) = (set_sp_pages (set_page_at (lh_index h) (f pg) S) s, Ok tt)) hs ->
    for_each hs op (set_sp_pages S0 s) = (set_sp_pages (upd_pages hs f S0) s, Ok tt)) as Hgen.
  { induction hs as [|h hs IH]; intros S0 s Hnd Hall; [done|].
    apply NoDup_cons in Hnd as [Hh Hnd]. apply Forall_cons in Hall as [(pg & Hpg & Hop) Hall].
    cbn [for_each]. cbv [mbind M_bind]. rewrite (Hop S0 Hpg). rewrite IH; [|done|].
    - unfold upd_pages. cbn [foldl]. by rewrite Hpg.
    - rewrite Forall_forall in Hall |- *. intros h' Hh'. destruct (Hall h' Hh') as (pg' & Hpg' & Hop').
      exists pg'. split; [|done]. rewrite (page_of_other S0 h h' pg); [done..|].
      intros Heq. apply Hh. rewrite Heq. by apply list_elem_of_fmap_2. }
  intros s Hnd Hall. rewrite <- (Hgen (sp_pages s) s Hnd Hall). by destruct s.
Qed.

(** The invariant through such a loop. *)
Lemma upd_pages_inv hs f : forall s R E,
  kv_inv s R E -> NoDup (indices hs) ->
  Forall (fun h => exists pg, page_of s h = Some pg /\ page_step pg (f pg)) hs ->
  kv_inv (upd_pages hs f s) R E.
Proof.
  induction hs as [|h hs IH]; intros s R E Hinv Hnd Hall; [done|].
  apply NoDup_cons in Hnd as [Hh Hnd]. apply Forall_cons in Hall as [(pg & Hpg & Hst) Hall].
  unfold upd_pages. cbn [foldl]. rewrite Hpg. apply IH; [by eapply write_page_inv|done|].
  rewrite Forall_forall in Hall |- *. intros h' Hh'. destruct (Hall h' Hh') as (pg' & Hpg' & Hst').
  exists pg'. split; [|done]. rewrite (page_of_other s h h' pg); [done..|].
  intros Heq. apply Hh. rewrite Heq. by apply list_elem_of_fmap_2.
Qed.

(** [for_pages] over the members of an address. *)
Lemma for_pages_members (op : LogicalKVPageHandle -> M Spaces unit) i b e s :
  (forall h s, memberships_ (op h s).1 = memberships_ s /\ page_capacity_ (op h s).1 = page_capacity_ s) ->
  for_pages b e (fun page => h ← get_membership i page; op h) s =
  for_each (membership s i <$> seqZ b (e - b)) op s.
Proof.
  intros Hop. unfold for_pages. generalize (seqZ b (e - b)). intros l.
  assert (forall s', memberships_ s' = memberships_ s -> page_capacity_ s' = page_capacity_ s ->
    for_each l (fun page => h ← get_membership i page; op h) s' = for_each (membership s i <$> l) op s') as Hg;
    [|by apply Hg].
  induction l as [|p l IH]; intros s' Hm Hc; [done|]. cbn [for_each fmap list_fmap].
  cbv [mbind M_bind get_membership mget mret M_ret].
  assert (membership s' i p = membership s i p) as ->.
  { unfold membership, membership_index. by rewrite Hm, Hc. }
  destruct (Hop (membership s i p) s') as [Hm' Hc'].
  destruct (op (membership s i p) s') as [s2 [[]|e']]; [|done]. cbn [fst] in *.
  apply IH; congruence.
Qed.

(** A loop with an invariant on what it has done. *)
Lemma for_each_post {S A} (l : list A) (f : A -> M S unit) (P : list A -> S -> Prop) E s :
  P [] s ->
  (forall done x rest s', l = done ++ x :: rest -> P done s' ->
    post (f x) s' (fun s'' _ => P (done ++ [x]) s'') E) ->
  post (for_each l f) s (fun s' _ => P l s') E.
Proof.
  intros Hs Hstep.
  assert (forall done rest s', l = done ++ rest -> P done s' ->
    post (for_each rest f) s' (fun s'' _ => P l s'') E) as Hgen; [|by apply (Hgen [])].
  intros done rest. revert done. induction rest as [|x rest IH]; intros done s' Hl Hd.
  - rewrite app_nil_r in Hl. subst. by apply post_ret.
  - cbn [for_each]. eapply post_bind; [by eapply Hstep|]. intros s'' [] Hd'.
    apply (IH (done ++ [x])); [by rewrite <- app_assoc|done].
Qed.

(** The same over a range of pages. *)
Lemma for_pages_post {S} b e (f : Z -> M S unit) (P : Z -> S -> Prop) E s :
  b <= e -> P b s ->
  (forall p s', b <= p < e -> P p s' -> post (f p) s' (fun s'' _ => P (p + 1) s'') E) ->
  post (for_pages b e f) s (fun s' _ => P e s') E.
Proof.
  intros Hle Hs Hstep. unfold for_pages.
  pose proof (for_each_post (seqZ b (e - b)) f (fun done => P (b + Z.of_nat (length done))) E s) as Hl.
  cbn beta in Hl. rewrite length_seqZ in Hl. replace (b + Z.of_nat (Z.to_nat (e - b))) with e in Hl by lia.
  apply Hl; [by rewrite Z.add_0_r|]. intros done x rest s' Heq Hd.
  assert (x = b + Z.of_nat (length done) /\ x < e) as [-> Hx].
  { assert (seqZ b (e - b) !! length done = Some x) as [Hx Hlt]%lookup_seqZ; [|lia].
    rewrite Heq, lookup_app_r, Nat.sub_diag by lia. done. }
  eapply post_weaken; [apply Hstep; [lia|done]|]. intros s'' u Hd'. rewrite length_app. cbn.
  by replace (b + Z.of_nat (length done + 1)) with (b + Z.of_nat (length done) + 1) by lia.
Qed.

(** The same over a range of pages, last first. *)
Lemma for_pages_down_post {S} b e (f : Z -> M S unit) (P : Z -> S -> Prop) E s :
  b <= e -> P e s ->
  (forall p s', b <= p < e -> P (p + 1) s' -> post (f p) s' (fun s'' _ => P p s'') E) ->
  post (for_each (reverse (seqZ b (e - b))) f) s (fun s' _ => P b s') E.
Proof.
  intros Hle Hs Hstep. set (l := reverse (seqZ b (e - b))).
  assert (Z.of_nat (length l) = e - b) as Hlen by (unfold l; rewrite length_reverse, length_seqZ; lia).
  pose proof (for_each_post l f (fun done => P (e - Z.of_nat (length done))) E s) as Hl.
  cbn beta in Hl. replace (e - Z.of_nat (length l)) with b in Hl by lia.
  apply Hl; [by rewrite Z.sub_0_r|]. intros done x rest s' Heq Hd.
  assert (x = e - 1 - Z.of_nat (length done) /\ b <= x) as [Hx Hbx].
  { assert (l !! length done = Some x) as Hk by by rewrite Heq, lookup_app_r, Nat.sub_diag by lia.
    pose proof (lookup_lt_Some _ _ _ Hk) as Hlt. unfold l in *. rewrite length_reverse, length_seqZ in Hlt.
    rewrite reverse_lookup in Hk by (rewrite length_seqZ; lia). rewrite length_seqZ in Hk.
    apply lookup_seqZ in Hk as [-> ?]. lia. }
  eapply post_weaken.
  - apply Hstep; [lia|]. by replace (x + 1) with (e - Z.of_nat (length done)) by lia.
  - intros s'' u Hd'. rewrite length_app. cbn. by replace (e - Z.of_nat (length done + 1)) with x by lia.
Qed.

(** A page loop that changes each page of [hs] once. *)
Lemma upd_pages_snoc f hs h pg s :
  page_of (upd_pages hs f s) h = Some pg ->
  upd_pages (hs ++ [h]) f s = set_page_at (lh_index h) (f pg) (upd_pages hs f s).
Proof. intros Hpg. unfold upd_pages in *. rewrite foldl_app. cbn [foldl]. by rewrite Hpg. Qed.

(** A page that the loop has not reached yet. *)
Lemma upd_pages_before f hs s p h pg :
  keeps_slot f -> NoDup (indices hs) -> Forall (fun h => is_Some (page_of s h)) hs ->
  hs !! p = Some h -> page_of s h = Some pg -> page_of (upd_pages (take p hs) f s) h = Some pg.
Proof.
  intros Hf Hnd Hv Hh Hpg. rewrite (upd_pages_page_of f Hf).
  - rewrite decide_False; [done|]. intros Hin. unfold indices in Hin. rewrite fmap_take in Hin.
    apply list_elem_of_lookup in Hin as [k Hk]. apply lookup_take_Some in Hk as [Hk Hltk].
    assert (indices hs !! p = Some (lh_index h)) as Hk' by (unfold indices; by rewrite list_lookup_fmap, Hh).
    pose proof (NoDup_lookup _ _ _ _ Hnd Hk Hk'). lia.
  - unfold indices. rewrite fmap_take. eapply sublist_NoDup; [exact Hnd|apply sublist_take].
  - by apply Forall_take.
Qed.

Lemma for_pages_upd (op : Z -> M Spaces unit) f hs e s :
  keeps_slot f -> NoDup (indices hs) -> Z.of_nat (length hs) <= e ->
  (forall p s', Z.of_nat (length hs) <= p < e -> op p s' = (s', Ok tt)) ->
  (forall p h, 0 <= p -> hs !! Z.to_nat p = Some h -> exists pg, page_of (sp_pages s) h = Some pg /\
    forall S, page_of S h = Some pg ->
      op p (set_sp_pages S s) = (set_sp_pages (set_page_at (lh_index h) (f pg) S) s, Ok tt)) ->
  for_pages 0 e op s = (set_sp_pages (upd_pages hs f (sp_pages s)) s, Ok tt).
Proof.
  intros Hf Hnd Hle Hskip Hop. assert (Forall (fun h => is_Some (page_of (sp_pages s) h)) hs) as Hv.
  { apply Forall_forall. intros h [k Hk]%list_elem_of_lookup. destruct (Hop (Z.of_nat k) h) as (pg & -> & _); [lia|by rewrite Nat2Z.id|done]. }
  assert (post (for_pages 0 e op) s
    (fun s' _ => s' = set_sp_pages (upd_pages (take (Z.to_nat e) hs) f (sp_pages s)) s) (fun _ _ => False)) as Hpost.
  { apply (for_pages_post _ _ _ (fun n s' => s' = set_sp_pages (upd_pages (take (Z.to_nat n) hs) f (sp_pages s)) s)); [lia|by destruct s|].
    intros p s' Hp ->. destruct (decide (Z.of_nat (length hs) <= p)) as [Hge|Hlt].
    { eapply post_end; [apply Hskip; lia|]. by rewrite !take_ge by lia. }
    destruct (lookup_lt_is_Some_2 hs (Z.to_nat p)) as [h Hh]; [lia|].
    destruct (Hop p h) as (pg & Hpg & Heq); [lia|done|].
    pose proof (upd_pages_before f hs (sp_pages s) (Z.to_nat p) h pg Hf Hnd Hv Hh Hpg) as Hpg'.
    eapply post_end; [by apply Heq|]. replace (Z.to_nat (p + 1)) with (S (Z.to_nat p)) by lia.
    rewrite (take_S_r _ _ _ Hh). by rewrite (upd_pages_snoc _ _ _ _ _ Hpg'). }
  apply post_returns in Hpost as (s' & [] & Heq & ->). rewrite take_ge in Heq by lia. exact Heq.
Qed.

(** Two loops over the same pages, and a loop that several loops made ready. *)
Lemma store_ext S S' :
  st_self S = st_self S' -> physical_ S = physical_ S' -> free_ S = free_ S' -> free_count_ S = free_count_ S' ->
  scratch_capacity S = scratch_capacity S' -> length (pages_ S) = length (pages_ S') ->
  (forall i, at_index (pages_ S) i = at_index (pages_ S') i) -> S = S'.
Proof.
  intros E1 E2 E3 E4 E5 Hl Hp. assert (pages_ S = pages_ S') as E6.
  { apply list_eq. intros k. specialize (Hp (Z.of_nat k)). by rewrite !at_index_nat in Hp. }
  destruct S, S'. cbn in *. congruence.
Qed.

Lemma upd_pages_stay f l l' s :
  keeps_slot f -> NoDup (indices l) -> Forall (fun h => is_Some (page_of s h)) l ->
  Forall (fun h => is_Some (page_of s h)) l' -> Forall (fun h => is_Some (page_of (upd_pages l f s) h)) l'.
Proof.
  intros Hf Hnd Hl Hl'. apply (Forall_impl _ _ _ Hl'). intros x [pg Hpg].
  rewrite (upd_pages_page_of f Hf) by done. rewrite Hpg. by case_decide.
Qed.

Lemma upd_pages_fuse f g l s :
  keeps_slot f -> NoDup (indices l) -> Forall (fun h => is_Some (page_of s h)) l ->
  upd_pages l g (upd_pages l f s) = upd_pages l (fun pg => g (f pg)) s.
Proof.
  intros Hf Hnd Hv. pose proof (upd_pages_stay f l l s Hf Hnd Hv Hv) as Hv'. apply store_ext.
  1-6: pose proof (upd_pages_frame g l (upd_pages l f s)) as (?&?&?&?&?&?); pose proof (upd_pages_frame f l s) as (?&?&?&?&?&?);
    pose proof (upd_pages_frame (fun pg => g (f pg)) l s) as (?&?&?&?&?&?); congruence.
  intros i. rewrite (upd_pages_lookup g l _ i Hnd Hv'), (upd_pages_lookup f l s i Hnd Hv), (upd_pages_lookup _ l s i Hnd Hv).
  case_decide; [|done]. by destruct (at_index _ i).
Qed.

Lemma upd_pages_comm f g l l' s :
  keeps_slot f -> keeps_slot g -> NoDup (indices (l ++ l')) ->
  Forall (fun h => is_Some (page_of s h)) (l ++ l') ->
  upd_pages l f (upd_pages l' g s) = upd_pages l' g (upd_pages l f s).
Proof.
  intros Hf Hg Hnd [Hv Hv']%Forall_app. unfold indices in Hnd. rewrite fmap_app in Hnd.
  apply NoDup_app in Hnd as (Hn & Hdis & Hn'). apply store_ext.
  1-6: pose proof (upd_pages_frame f l (upd_pages l' g s)) as (?&?&?&?&?&?); pose proof (upd_pages_frame g l' s) as (?&?&?&?&?&?);
    pose proof (upd_pages_frame g l' (upd_pages l f s)) as (?&?&?&?&?&?); pose proof (upd_pages_frame f l s) as (?&?&?&?&?&?); congruence.
  intros i.
  rewrite (upd_pages_lookup f l _ i Hn (upd_pages_stay g l' l s Hg Hn' Hv' Hv)), (upd_pages_lookup g l' s i Hn' Hv'),
    (upd_pages_lookup g l' _ i Hn' (upd_pages_stay f l l' s Hf Hn Hv Hv')), (upd_pages_lookup f l s i Hn Hv).
  destruct (decide (i ∈ indices l)) as [Hi|], (decide (i ∈ indices l')) as [Hi'|]; try done. by destruct (Hdis i).
Qed.

Lemma upd_pages_app l l' f s : upd_pages (l ++ l') f s = upd_pages l' f (upd_pages l f s).
Proof. apply foldl_app. Qed.

Lemma upd_pages_ext f g l s : (forall pg, f pg = g pg) -> upd_pages l f s = upd_pages l g s.
Proof.
  intros Hfg. revert s. induction l as [|h l IH]; intros s; [done|]. unfold upd_pages in *. cbn [foldl].
  destruct (page_of s h) as [pg|]; [rewrite Hfg|]; apply IH.
Qed.

(** Two lists and then both together. *)
Lemma upd_pages_compose f g h hs T s :
  keeps_slot f -> keeps_slot g -> keeps_slot h ->
  NoDup (indices (hs ++ T)) -> Forall (fun x => is_Some (page_of s x)) (hs ++ T) ->
  upd_pages (hs ++ T) h (upd_pages T g (upd_pages hs f s)) =
    upd_pages T (fun pg => h (g pg)) (upd_pages hs (fun pg => h (f pg)) s).
Proof.
  intros Hf Hg Hh Hnd Hv. pose proof Hnd as Hnd'. unfold indices in Hnd'. rewrite fmap_app in Hnd'.
  apply NoDup_app in Hnd' as (Hn1 & _ & Hn2). pose proof Hv as [Hv1 Hv2]%Forall_app.
  pose proof (upd_pages_stay f hs _ s Hf Hn1 Hv1 Hv) as Hv'. pose proof Hv' as [Hv1' Hv2']%Forall_app.
  rewrite upd_pages_app, (upd_pages_comm h g hs T _ Hh Hg Hnd Hv'), (upd_pages_fuse f h hs s Hf Hn1 Hv1).
  apply upd_pages_fuse; [done|done|].
  apply (upd_pages_stay _ hs T s); try done. intros pg. destruct (Hh (f pg)), (Hf pg). split; congruence.
Qed.

(** Checks: loops that only look. *)
Lemma for_each_check {A} (l : list A) (check : A -> M Spaces unit) s :
  (forall x s', (check x s').1 = s') ->
  for_each l check s = (s, Ok tt) /\ Forall (fun x => check x s = (s, Ok tt)) l \/
  exists x e, x ∈ l /\ check x s = (s, Throw e) /\ for_each l check s = (s, Throw e).
Proof.
  intros Hc. induction l as [|x l IH]; cbn [for_each]; [left; by split|].
  cbv [mbind M_bind]. pose proof (Hc x s) as Hs. destruct (check x s) as [s' [[]|e]] eqn:Hx; cbn in Hs; subst s'.
  - destruct IH as [[-> Hall]|(y & e & Hy & Hye & ->)].
    + left. split; [done|]. by constructor.
    + right. exists y, e. split_and!; [by right|done|done].
  - right. exists x, e. split_and!; [by left|done|done].
Qed.

(** ** One page at a time *)

Section page_calls.
Context (s : Store) (h : LogicalKVPageHandle) (pg : Page) (Hpg : page_of s h = Some pg).

Ltac page_call := unfold LogicalKVPageStore.require, write_page, noexcept; unfold_M; rewrite Hpg.

Lemma pin_source_eq :
  source_pins_ pg < u32_max -> 0 <= source_pins_ pg ->
  pin_source h s = (set_page_at (lh_index h) (set_pins (source_pins_ pg + 1) (destination_pinned pg) pg) s, Ok tt).
Proof.
  intros Hlt Hnn. unfold pin_source. page_call. destruct (Z.eqb_spec (source_pins_ pg) u32_max); [lia|].
  by rewrite w32_small by lia.
Qed.

Lemma unpin_source_eq :
  0 < source_pins_ pg <= u32_max ->
  unpin_source h s = (set_page_at (lh_index h) (set_pins (source_pins_ pg - 1) (destination_pinned pg) pg) s, Ok tt).
Proof.
  intros Hp. unfold unpin_source. page_call. destruct (Z.eqb_spec (source_pins_ pg) 0); [lia|].
  by rewrite w32_small by lia.
Qed.

Lemma retain_active_reference_eq :
  0 <= active_references pg < references pg -> references pg <= u32_max ->
  retain_active_reference h s =
    (set_page_at (lh_index h) (set_refs (references pg) (active_references pg + 1) (writer_references_ pg) pg) s, Ok tt).
Proof.
  intros Ha Hr. unfold retain_active_reference. page_call.
  destruct (Z.eqb_spec (active_references pg) u32_max); [lia|].
  destruct (Z.leb_spec (references pg) (active_references pg)); [lia|]. cbn [orb]. by rewrite w32_small by lia.
Qed.

Lemma release_active_reference_eq :
  0 < active_references pg <= u32_max ->
  release_active_reference h s =
    (set_page_at (lh_index h) (set_refs (references pg) (active_references pg - 1) (writer_references_ pg) pg) s, Ok tt).
Proof.
  intros Ha. unfold release_active_reference. page_call.
  destruct (Z.eqb_spec (active_references pg) 0); [lia|]. by rewrite w32_small by lia.
Qed.

Lemma set_writer_true_eq :
  writer_references_ pg = 0 ->
  set_writer h true s = (set_page_at (lh_index h) (set_refs (references pg) (active_references pg) 1 pg) s, Ok tt).
Proof. intros Hw. unfold set_writer. page_call. by rewrite Hw. Qed.

Lemma set_writer_false_eq :
  set_writer h false s = (set_page_at (lh_index h) (set_refs (references pg) (active_references pg) 0 pg) s, Ok tt).
Proof. unfold set_writer. page_call. done. Qed.

Lemma retain_reference_eq :
  0 <= references pg < u32_max ->
  retain_reference h false s =
    (set_page_at (lh_index h) (set_refs (references pg + 1) (active_references pg) (writer_references_ pg) pg) s, Ok tt).
Proof.
  intros Hr. unfold retain_reference. page_call. destruct (Z.eqb_spec (references pg) u32_max); [lia|].
  cbn [orb andb]. by rewrite w32_small by lia.
Qed.

Lemma clear_protection_eq :
  references pg = 1 -> source_pins_ pg = 0 ->
  clear_protection h s =
    (set_page_at (lh_index h) (set_content (content_epoch_ pg) (committed_columns_ pg) 0 pg) s, Ok tt).
Proof. intros Hr Hp. unfold clear_protection. page_call. by rewrite Hr, Hp. Qed.

Lemma protect_coverage_eq columns :
  columns <= committed_columns_ pg ->
  protect_coverage h columns s =
    (set_page_at (lh_index h)
      (set_content (content_epoch_ pg) (committed_columns_ pg) (Z.max (protected_columns_ pg) columns) pg) s, Ok tt).
Proof. intros Hc. unfold protect_coverage. page_call. by rewrite (proj2 (Z.ltb_ge _ _)). Qed.

Lemma set_protected_coverage_eq columns :
  columns <= committed_columns_ pg ->
  set_protected_coverage h columns s =
    (set_page_at (lh_index h) (set_content (content_epoch_ pg) (committed_columns_ pg) columns pg) s, Ok tt).
Proof. intros Hc. unfold set_protected_coverage. page_call. by rewrite (proj2 (Z.ltb_ge _ _)). Qed.

Lemma commit_coverage_eq columns :
  has (device_replica pg) = true -> writer_references_ pg = 1 ->
  committed_columns_ pg <= columns <= kPagedKVPageSize ->
  commit_coverage h columns s =
    (set_page_at (lh_index h) (set_content (content_epoch_ pg) columns (protected_columns_ pg) pg) s, Ok tt).
Proof.
  intros Hd Hw Hc. unfold commit_coverage. page_call. rewrite Hd, Hw.
  rewrite (proj2 (Z.ltb_ge _ _)), (proj2 (Z.ltb_ge _ _)) by lia. done.
Qed.
End page_calls.

(** Lifting to the address spaces. *)
Lemma on_pages_eq {A} (m : M Store A) S S' (a : A) s :
  m S = (S', Ok a) -> on_pages m (set_sp_pages S s) = (set_sp_pages S' s, Ok a).
Proof. intros H. unfold on_pages. cbn [sp_pages set_sp_pages]. by rewrite H. Qed.
