(* ===== verification/KVAddressInvariant.v ===== *)
(** * Address spaces: the invariant

    What holds between two calls of [KVAddressSpaceStore]: a page's references are the addresses it
    is a member of, its active references the active ones among them and its pins the prepared forks
    and snapshots that read it; a writer is its page's only member; the committed frontier of an
    address is covered by its pages; an active address has a row and a reservation of its own and all
    its pages on the device.  Objects that clients hold between two calls (reservations, row leases,
    prepared copies) are the [Holders]. *)

From S2P Require Import Prelude Extents Tensor KVGeometry DevicePagePool DevicePoolInvariant DevicePoolOps ExecutionTables KVPages KVPagesInvariant KVAddress KVAddressPages.
Import LogicalKVPageStore KVAddressSpaceStore.

(** ** Members and counts *)

(** The pages of each address and whether it is active. *)
Definition view (s : Spaces) : list (list LogicalKVPageHandle * bool) :=
  imap (fun j a => (memberships_of s (Z.of_nat j) (page_count a), ad_active a)) (addresses_ s).

Definition member_of (i : Z) (hs : list LogicalKVPageHandle) : Z := if decide (i ∈ indices hs) then 1 else 0.

Definition count_refs (V : list (list LogicalKVPageHandle * bool)) (i : Z) : Z :=
  sum_with (fun v => member_of i v.1) V.
Definition active_member (i : Z) (v : list LogicalKVPageHandle * bool) : Z :=
  match v with
  | (hs, true) => member_of i hs
  | (_, false) => 0
  end.
Definition count_active (V : list (list LogicalKVPageHandle * bool)) (i : Z) : Z :=
  sum_with (active_member i) V.

Lemma member_of_range i hs : 0 <= member_of i hs <= 1.
Proof. unfold member_of. case_decide; lia. Qed.

Lemma active_member_range i v : 0 <= active_member i v <= 1.
Proof. destruct v as [hs []]; cbn; [apply member_of_range|lia]. Qed.

Lemma count_refs_nonneg V i : 0 <= count_refs V i.
Proof. apply sum_with_nonneg. intros v. apply member_of_range. Qed.

Lemma count_active_le V i : 0 <= count_active V i <= count_refs V i.
Proof.
  unfold count_active, count_refs. induction V as [|[hs act] V IH]; cbn in *; [lia|].
  pose proof (member_of_range i hs). destruct act; lia.
Qed.

Lemma count_refs_length V i : count_refs V i <= Z.of_nat (length V).
Proof.
  unfold count_refs. induction V as [|[hs act] V IH]; cbn in *; [lia|]. pose proof (member_of_range i hs). lia.
Qed.

Lemma count_refs_insert V j v v' i :
  V !! j = Some v -> count_refs (<[j := v']> V) i = count_refs V i - member_of i v.1 + member_of i v'.1.
Proof. apply (sum_with_insert (fun v => member_of i v.1)). Qed.

Lemma count_active_insert V j v v' i :
  V !! j = Some v ->
  count_active (<[j := v']> V) i =
    count_active V i - active_member i v + active_member i v'.
Proof. apply sum_with_insert. Qed.

(** A page of address [j] is counted there. *)
Lemma count_refs_member V j v i : V !! j = Some v -> i ∈ indices v.1 -> 1 <= count_refs V i.
Proof.
  intros Hj Hi. pose proof (sum_with_elem (fun v => member_of i v.1) V j v) as H.
  unfold count_refs. assert (member_of i v.1 = 1) as Hm by (unfold member_of; by rewrite decide_True).
  cbn beta in H. rewrite Hm in H. apply H; [intros; apply member_of_range|done].
Qed.

Lemma count_active_member V j hs i : V !! j = Some (hs, true) -> i ∈ indices hs -> 1 <= count_active V i.
Proof.
  intros Hj Hi. pose proof (sum_with_elem (active_member i) V j (hs, true)) as H.
  unfold count_active. assert (member_of i hs = 1) as Hm by (unfold member_of; by rewrite decide_True).
  cbn [active_member] in H. rewrite Hm in H. apply H; [intros v; apply active_member_range|done].
Qed.

(** A page with one reference belongs to one address only. *)
Lemma count_refs_unique V j k v w i :
  V !! j = Some v -> V !! k = Some w -> i ∈ indices v.1 -> i ∈ indices w.1 -> count_refs V i = 1 -> j = k.
Proof.
  intros Hj Hk Hi Hi' Hc. destruct (decide (j = k)) as [|Hne]; [done|exfalso].
  pose proof (sum_with_two (fun v => member_of i v.1) V j k v w) as H. unfold count_refs in Hc.
  assert (member_of i v.1 = 1 /\ member_of i w.1 = 1) as [H1 H2] by (unfold member_of; by rewrite !decide_True).
  cbn beta in H. rewrite H1, H2 in H. specialize (H (fun a => proj1 (member_of_range i a.1)) Hne Hj Hk). lia.
Qed.

Lemma view_lookup s j :
  view s !! j = (fun a => (memberships_of s (Z.of_nat j) (page_count a), ad_active a)) <$> addresses_ s !! j.
Proof. unfold view. apply list_lookup_imap. Qed.

Lemma view_address s i a :
  address_at s i = Some a -> view s !! Z.to_nat i = Some (memberships_of s i (page_count a), ad_active a).
Proof.
  intros [Hi Ha]%at_index_Some. rewrite view_lookup, Ha. cbn. by rewrite Z2Nat.id.
Qed.

Lemma view_length s : length (view s) = length (addresses_ s).
Proof. apply length_imap. Qed.

(** ** Rows *)

Record rows_ok (t : KVExecutionTablePool) (l : list KVExecutionRowLease) : Prop := {
  ro_tables : tables_inv t;
  ro_valid : Forall (fun x => valid_row t (row_lease_handle x) = true) l;
  ro_distinct : NoDup (rl_row <$> l);
}.

#[export] Instance rows_ok_Permutation t : Proper (Permutation ==> iff) (rows_ok t).
Proof.
  apply proper_sym_impl_iff; [apply _|]. intros l l' Hl [].
  split; [done|by rewrite <- Hl|by rewrite <- Hl].
Qed.

Lemma valid_lease_row t x :
  tables_inv t -> valid_row t (row_lease_handle x) = true ->
  rl_owner x = Some (tp_self t) /\ at_index (row_in_use t) (rl_row x) = Some true /\
  at_index (row_generations t) (rl_row x) = Some (rl_generation x).
Proof.
  intros Hinv (Ho & Hu & Hg)%valid_row_iff; [|done]. unfold row_lease_handle in *.
  by destruct (rl_owner x).
Qed.

Lemma acquire_rows t l i :
  rows_ok t l ->
  match acquire i t with
  | (t', Ok x) => rows_ok t' (x :: l) /\ page_capacity t' = page_capacity t /\ tp_self t' = tp_self t /\
                  tp_pages t' = tp_pages t /\ row_lease_handle x <> null_row
  | (t', Throw e) => t' = t /\ e <> Terminate
  end.
Proof.
  intros [Hinv Hv Hnd]. rewrite acquire_cases by done. pose proof (ti_in_use _ Hinv). pose proof (ti_gens _ Hinv).
  case_decide as Hi; [|done].
  destruct (at_index_is_Some (row_in_use t) i) as [u Hu]; [lia|].
  destruct (at_index_is_Some (row_generations t) i) as [g Hg]; [lia|]. rewrite Hu, Hg. destruct u; [done|].
  set (t' := set_rows _ _ t).
  assert (tables_inv t') as Hinv'.
  { apply set_rows_inv; [done|by rewrite length_set_index|done|apply (ti_generation _ Hinv)]. }
  assert (Forall (fun x => rl_row x <> i) l) as Hne.
  { rewrite Forall_forall in Hv |- *. intros x Hx Hxi.
    destruct (valid_lease_row t x Hinv (Hv x Hx)) as (_ & Hux & _). congruence. }
  split_and!; try done. split; [done| |].
  - constructor.
    + apply valid_row_iff; [done|]. cbn. split_and!; [done|apply at_set_index_eq; lia|done].
    + rewrite Forall_forall in Hv, Hne |- *. intros x Hx.
      destruct (valid_lease_row t x Hinv (Hv x Hx)) as (Ho & Hux & Hgx).
      apply valid_row_iff; [done|]. unfold row_lease_handle. rewrite Ho. cbn.
      rewrite at_set_index_ne by (lia || (specialize (Hne x Hx); congruence)). done.
  - cbn. constructor; [|done]. intros (x & Hxi & Hx)%list_elem_of_fmap. rewrite Forall_forall in Hne.
    by apply (Hne x Hx).
Qed.

Lemma release_rows t x l :
  rows_ok t (x :: l) ->
  rows_ok (row_lease_release t x).1.1 l /\ page_capacity (row_lease_release t x).1.1 = page_capacity t /\
  tp_pages (row_lease_release t x).1.1 = tp_pages t.
Proof.
  intros [Hinv [Hx Hv]%Forall_cons [Hni Hnd]%NoDup_cons]. fold (rl_row <$> l) in *.
  destruct (valid_lease_row t x Hinv Hx) as (Ho & Hu & Hg).
  unfold row_lease_release, release_row. rewrite Ho. pose proof (at_index_lt _ _ _ Hu) as Hlt.
  pose proof (ti_in_use _ Hinv). pose proof (ti_gens _ Hinv).
  destruct (Z.ltb_spec (rl_row x) 0); [lia|]. destruct (Z.leb_spec (row_count t) (rl_row x)); [lia|].
  cbn [orb]. rewrite Hu, Hg, Z.eqb_refl. cbn [negb orb fst]. set (t' := set_rows _ _ t).
  assert (tables_inv t') as Hinv'.
  { apply set_rows_inv; [done|by rewrite length_set_index|by rewrite length_set_index|].
    intros j g' Hj. destruct (decide (j = rl_row x)) as [->|Hne].
    - rewrite at_set_index_eq in Hj by lia. injection Hj as <-.
      pose proof (ti_generation _ Hinv _ _ Hg). pose proof (increment_generation_range (rl_generation x)). lia.
    - rewrite at_set_index_ne in Hj by (lia || done). by apply (ti_generation _ Hinv j). }
  split_and!; try done. split; [done| |done].
  rewrite Forall_forall in Hv |- *. intros y Hy. destruct (valid_lease_row t y Hinv (Hv y Hy)) as (Hoy & Huy & Hgy).
  assert (rl_row x <> rl_row y) as Hne.
  { intros Heq. apply Hni. rewrite Heq. by apply list_elem_of_fmap_2. }
  apply valid_row_iff; [done|]. unfold row_lease_handle. rewrite Hoy. cbn.
  by rewrite !at_set_index_ne by (lia || done).
Qed.

(** Publishing pages that the pool knows. *)
Lemma publish_rows t l p x begin_ ps :
  rows_ok t l -> x ∈ l -> Forall (fun h => valid_page p h = true) ps -> 0 <= begin_ <= u32_max ->
  begin_ + Z.of_nat (length ps) <= page_capacity t ->
  exists t' up, publish p (row_lease_handle x) begin_ ps t = (t', Ok up) /\ rows_ok t' l /\
    page_capacity t' = page_capacity t /\ tp_pages t' = tp_pages t.
Proof.
  intros [Hinv Hv Hnd] Hx Hps Hb Hc. unfold publish.
  pose proof (proj1 (Forall_forall _ _) Hv x Hx) as Hvx.
  destruct (publish_with_spec (physical_index p) t (row_lease_handle x) begin_ ps Hinv Hb) as (sh & Hlen & _ & Hres).
  destruct (publish_with (physical_index p) (row_lease_handle x) begin_ ps t) as [t' [up|e]].
  - destruct Hres as (-> & _). exists (set_shadow sh t), up. split_and!; try done. split; [|done|done].
    by apply set_shadow_inv.
  - destruct Hres as (_ & [[_ [?|?]]|(h & Hh & He)]); [congruence|lia|].
    rewrite Forall_forall in Hps. unfold physical_index in He. by rewrite (Hps h Hh) in He.
Qed.

(** ** What the addresses hold *)

Definition res_of (a : Address) : list DeviceKVPageReservation :=
  if reservation_valid (ad_reservation a) then [ad_reservation a] else [].
Definition addr_res (s : Spaces) : list DeviceKVPageReservation := addresses_ s ≫= res_of.
Definition addr_rows (s : Spaces) : list KVExecutionRowLease := addresses_ s ≫= fun a => option_list (ad_row a).

(** One entry of a list whose images are concatenated. *)
Lemma bind_split {A B} (f : A -> list B) (l : list A) i a :
  at_index l i = Some a ->
  exists rest, l ≫= f ≡ₚ f a ++ rest /\ forall a', set_index l i a' ≫= f ≡ₚ f a' ++ rest.
Proof.
  intros [_ Hi]%at_index_Some. unfold set_index.
  apply list_elem_of_split_length in Hi as (l1 & l2 & Hl & Hlen).
  exists ((l1 ≫= f) ++ (l2 ≫= f)). rewrite Hl. split.
  - rewrite bind_app. cbn [mbind list_bind]. rewrite !app_assoc. f_equiv. apply Permutation_app_comm.
  - intros a'. rewrite update_middle by done. rewrite bind_app. cbn [mbind list_bind].
    rewrite !app_assoc. f_equiv. apply Permutation_app_comm.
Qed.

Lemma sum_with_Permutation {A} (f : A -> Z) l l' : l ≡ₚ l' -> sum_with f l = sum_with f l'.
Proof. induction 1; cbn in *; lia. Qed.

Lemma phys_inv_reservations p R R' l : R ≡ₚ R' -> phys_inv p R l -> phys_inv p R' l.
Proof.
  intros HR []. split; try done; [by rewrite <- HR|]. by rewrite <- (sum_with_Permutation _ _ _ HR).
Qed.

Lemma kv_inv_reservations s R R' E : R ≡ₚ R' -> kv_inv s R E -> kv_inv s R' E.
Proof. intros HR [Hp Hd]. split; [|done]. by eapply phys_inv_reservations. Qed.

(** ** What clients hold *)

(** The source pages that a prepared fork or snapshot has pinned; the first [pin_full] are complete,
    and those of a fork ([pin_shared]) have no writer. *)
Record Pin := mkPin {
  pin_space : KVAddressSpaceHandle;
  pin_pages : list LogicalKVPageHandle;
  pin_full : nat;
  pin_shared : bool;
}.

Record Holders := mkHolders {
  hd_res : list DeviceKVPageReservation;
  hd_rows : list KVExecutionRowLease;
  hd_pins : list Pin;
  hd_dests : list (LogicalKVPageHandle * Z);
}.

Definition with_res (R : list DeviceKVPageReservation) (H : Holders) : Holders :=
  mkHolders R (hd_rows H) (hd_pins H) (hd_dests H).
Definition with_rows (W : list KVExecutionRowLease) (H : Holders) : Holders :=
  mkHolders (hd_res H) W (hd_pins H) (hd_dests H).
Definition with_pins (Q : list Pin) (H : Holders) : Holders := mkHolders (hd_res H) (hd_rows H) Q (hd_dests H).
Definition with_dests (D : list (LogicalKVPageHandle * Z)) (H : Holders) : Holders :=
  mkHolders (hd_res H) (hd_rows H) (hd_pins H) D.

Definition count_pins (Q : list Pin) (i : Z) : Z := sum_with (fun q => member_of i (pin_pages q)) Q.

(** ** The invariant *)

Definition members (s : Spaces) (j : Z) (a : Address) : list LogicalKVPageHandle := memberships_of s j (page_count a).

Record address_ok (s : Spaces) (j : Z) (a : Address) : Prop := {
  ao_generation : 1 <= ad_generation a <= u32_max;
  ao_idle : ad_occupied a = false -> page_count a = 0 /\ frontier a = 0 /\ ad_active a = false;
  ao_count : 0 <= page_count a <= page_capacity_ s;
  ao_frontier : 0 <= checkpoint_frontier a <= frontier a /\ frontier a <= kPagedKVPageSize * page_count a /\
    frontier a <= u32_max;
  ao_bound : ad_active a = true -> has (ad_row a) = true /\ reservation_valid (ad_reservation a) = true /\
    page_count a + rs_pages (ad_reservation a) <= page_capacity_ s;
  ao_unbound : ad_active a = false -> ad_row a = None /\ ad_reservation a = null_reservation;
  ao_valid : Forall (fun h => is_Some (page_of (sp_pages s) h)) (members s j a);
  ao_distinct : NoDup (indices (members s j a));
  ao_empty : forall p, page_count a <= p < page_capacity_ s -> membership s j p = null_logical;
  ao_cover : forall p pg, 0 <= p -> kPagedKVPageSize * p < frontier a ->
    page_of (sp_pages s) (membership s j p) = Some pg ->
    Z.min kPagedKVPageSize (frontier a - kPagedKVPageSize * p) <= committed_columns_ pg;
}.

(** The counts of a page in use: addresses, active addresses, pins. *)
Record page_counts (refs active pins : Z) (pg : Page) : Prop := {
  pc_refs : references pg = refs;
  pc_active : active_references pg = active;
  pc_pins : source_pins_ pg = pins;
  pc_writer : writer_references_ pg = 1 -> references pg = 1 /\ active_references pg = 1;
  pc_device : 0 < active_references pg -> has (device_replica pg) = true;
}.

Definition counts_at (s : Spaces) (Q : list Pin) (i : Z) (pg : Page) : Prop :=
  page_counts (count_refs (view s) i) (count_active (view s) i) (count_pins Q i) pg.

(** The free descriptors of the addresses. *)
Definition free_addresses (s : Spaces) : list Z := take (Z.to_nat (sp_free_count s)) (sp_free s).

Record free_ok (s : Spaces) : Prop := {
  fo_length : length (sp_free s) = length (addresses_ s);
  fo_count : 0 <= sp_free_count s <= Z.of_nat (length (addresses_ s));
  fo_distinct : NoDup (free_addresses s);
  fo_free : forall j, j ∈ free_addresses s <-> exists a, address_at s j = Some a /\ ad_occupied a = false;
}.

Definition pin_ok (s : Spaces) (q : Pin) : Prop :=
  exists a, address_of s (pin_space q) = Some a /\
    pin_pages q `prefix_of` members s (ah_index (pin_space q)) a /\
    Forall (fun h => forall pg, page_of (sp_pages s) h = Some pg -> kPagedKVPageSize <= committed_columns_ pg)
      (take (pin_full q) (pin_pages q)) /\
    pin_pages q <> [] /\
    (pin_shared q = true -> Forall (fun h => forall pg, page_of (sp_pages s) h = Some pg -> writer_references_ pg = 0)
      (pin_pages q)).

Definition dest_ok (s : Spaces) (d : LogicalKVPageHandle * Z) : Prop :=
  exists pg, page_of (sp_pages s) d.1 = Some pg /\ transfer_destination pg = true /\ committed_columns_ pg = d.2.

Definition dests_ok (s : Spaces) (D : list (LogicalKVPageHandle * Z)) : Prop :=
  NoDup (indices D.*1) /\ Forall (dest_ok s) D.

Record core (s : Spaces) (H : Holders) : Prop := {
  si_pages : kv_inv (sp_pages s) (hd_res H ++ addr_res s) [];
  si_rows : rows_ok (sp_tables s) (hd_rows H ++ addr_rows s);
  si_capacity : page_capacity_ s = page_capacity (sp_tables s);
  si_cells : Z.of_nat (length (memberships_ s)) = Z.of_nat (length (addresses_ s)) * page_capacity_ s;
  si_size : Z.of_nat (length (addresses_ s)) <= u32_max;
  si_free : free_ok s;
  si_address : forall j a, address_at s j = Some a -> address_ok s j a;
  si_counts : forall i pg, at_index (pages_ (sp_pages s)) i = Some pg -> occupied pg = true ->
    counts_at s (hd_pins H) i pg;
  si_pins : Forall (pin_ok s) (hd_pins H);
  si_dests : dests_ok s (hd_dests H);
}.

(** Every checkpoint's columns are protected on every page. *)
Definition protected_for (s : Spaces) (j : Z) (a : Address) : Prop :=
  forall p pg, 0 <= p -> kPagedKVPageSize * p < checkpoint_frontier a ->
    page_of (sp_pages s) (membership s j p) = Some pg ->
    Z.min kPagedKVPageSize (checkpoint_frontier a - kPagedKVPageSize * p) <= protected_columns_ pg.

Definition checkpoints_protected (s : Spaces) : Prop :=
  forall j a, address_at s j = Some a -> protected_for s j a.

Definition spaces_inv (s : Spaces) (H : Holders) : Prop := core s H /\ checkpoints_protected s.

Lemma si_capacity_pos s H : core s H -> 0 < page_capacity_ s <= i32_max.
Proof. intros Hinv. rewrite (si_capacity _ _ Hinv). apply (ti_capacity _ (ro_tables _ _ (si_rows _ _ Hinv))). Qed.

Lemma address_of_Some s h a :
  address_of s h = Some a <->
  ah_owner h = Some (sp_self s) /\ address_at s (ah_index h) = Some a /\ ad_occupied a = true /\
  ad_generation a = ah_generation h.
Proof.
  unfold address_of. destruct (bool_decide_reflect (ah_owner h = Some (sp_self s))); cbn [andb].
  2: { split; [discriminate|]. intros (? & _). done. }
  destruct (Z.ltb_spec (ah_index h) (Z.of_nat (length (addresses_ s)))).
  2: { split; [discriminate|]. intros (_ & Ha%at_index_lt & _). lia. }
  unfold address_at. destruct (at_index (addresses_ s) (ah_index h)) as [b|].
  2: { split; [discriminate|]. intros (_ & ? & _). discriminate. }
  destruct (ad_occupied b) eqn:Ho; cbn [andb].
  - destruct (Z.eqb_spec (ad_generation b) (ah_generation h)).
    + split; [by intros [= <-]|]. by intros (_ & [= ->] & _).
    + split; [discriminate|]. intros (_ & [= ->] & _ & ?). done.
  - split; [discriminate|]. intros (_ & [= ->] & ? & _). congruence.
Qed.

(** A member's page, with its counts. *)
Lemma member_page s H j a h :
  core s H -> address_at s j = Some a -> h ∈ members s j a ->
  exists pg, page_of (sp_pages s) h = Some pg /\ page_ok pg /\ counts_at s (hd_pins H) (lh_index h) pg /\
    1 <= references pg.
Proof.
  intros Hinv Ha Hh. pose proof (ao_valid _ _ _ (si_address _ _ Hinv _ _ Ha)) as Hv.
  rewrite Forall_forall in Hv. destruct (Hv h Hh) as [pg Hpg].
  pose proof (page_of_ok _ _ _ (kv_desc _ _ _ (si_pages _ _ Hinv)) Hpg) as Hok.
  pose proof Hpg as (_ & Hi & Ho & _)%page_of_Some.
  pose proof (si_counts _ _ Hinv _ _ Hi Ho) as Hc. exists pg. split_and!; try done.
  rewrite (pc_refs _ _ _ _ Hc). eapply count_refs_member; [by apply view_address|].
  cbn [fst]. by apply list_elem_of_fmap_2.
Qed.

(** Members of an active address. *)
Lemma active_member_page s H j a h :
  core s H -> address_at s j = Some a -> ad_active a = true -> h ∈ members s j a ->
  exists pg, page_of (sp_pages s) h = Some pg /\ page_ok pg /\ counts_at s (hd_pins H) (lh_index h) pg /\
    1 <= references pg /\ 1 <= active_references pg /\ has (device_replica pg) = true.
Proof.
  intros Hinv Ha Hact Hh. destruct (member_page s H j a h Hinv Ha Hh) as (pg & Hpg & Hok & Hc & Hr).
  assert (1 <= active_references pg) as Hp.
  { rewrite (pc_active _ _ _ _ Hc). pose proof (view_address s j a Ha) as Hv. rewrite Hact in Hv.
    eapply count_active_member; [done|]. by apply list_elem_of_fmap_2. }
  exists pg. split_and!; try done. apply (pc_device _ _ _ _ Hc). lia.
Qed.

(** Positions of a member list. *)
Lemma memberships_of_lookup s j n p :
  0 <= p < n -> memberships_of s j n !! Z.to_nat p = Some (membership s j p).
Proof.
  intros Hp. unfold memberships_of. rewrite list_lookup_fmap, lookup_seqZ_lt by lia. cbn.
  by rewrite Z.add_0_l, Z2Nat.id by lia.
Qed.

Lemma elem_of_memberships s j n h : h ∈ memberships_of s j n <-> exists p, 0 <= p < n /\ h = membership s j p.
Proof.
  unfold memberships_of. rewrite list_elem_of_fmap. setoid_rewrite elem_of_seqZ.
  split; intros (p & ? & ?); exists p; split; done || lia.
Qed.

Lemma memberships_of_length s j n : 0 <= n -> Z.of_nat (length (memberships_of s j n)) = n.
Proof. intros Hn. unfold memberships_of. rewrite length_fmap, length_seqZ. lia. Qed.

Lemma memberships_of_app s j m n :
  0 <= m <= n -> memberships_of s j n = memberships_of s j m ++ (membership s j <$> seqZ m (n - m)).
Proof.
  intros Hm. unfold memberships_of. rewrite <- fmap_app. f_equal.
  replace n with (m + (n - m)) at 1 by lia. rewrite seqZ_app by lia. done.
Qed.
