(* ===== verification/KVAddressUpdate.v ===== *)
(** * Address spaces: changing one address

    The frame of the invariant: a call that changes one address and the pages that are its own keeps
    the invariant of all others, of the pins and of the copies in flight. *)

From S2P Require Import Prelude Extents Tensor KVGeometry DevicePagePool DevicePoolInvariant DevicePoolOps ExecutionTables KVPages KVPagesInvariant KVAddress KVAddressPages KVAddressInvariant.
Import LogicalKVPageStore KVAddressSpaceStore.

(** ** Memberships *)

Lemma memberships_of_ext s s' j n :
  (forall p, 0 <= p < n -> membership s' j p = membership s j p) ->
  memberships_of s' j n = memberships_of s j n.
Proof.
  intros Hm. unfold memberships_of. apply list_fmap_ext. intros k p Hp.
  apply list_elem_of_lookup_2, elem_of_seqZ in Hp. apply Hm. lia.
Qed.

Lemma page_of_inj s h h' pg pg' :
  page_of s h = Some pg -> page_of s h' = Some pg' -> lh_index h = lh_index h' -> h = h'.
Proof.
  intros (Ho & Ha & _ & Hg)%page_of_Some (Ho' & Ha' & _ & Hg')%page_of_Some Hi.
  destruct h, h'. cbn in *. subst. rewrite Ha in Ha'. injection Ha' as <-. congruence.
Qed.

(** The memberships outside one address after a write to its slice. *)
Lemma put_membership_other s i p h k q :
  0 <= p < page_capacity_ s -> 0 <= q < page_capacity_ s -> 0 <= i -> (k, q) <> (i, p) ->
  membership (set_memberships (set_index (memberships_ s) (membership_index s i p) h) s) k q = membership s k q.
Proof.
  intros Hp Hq Hi Hne. unfold membership, membership_index. cbn [memberships_ set_memberships page_capacity_].
  rewrite at_set_index_ne; [done|nia|]. intros Heq. apply Hne.
  assert (k = i) by nia. subst. f_equal. lia.
Qed.

Lemma put_membership_same s i p h :
  0 <= p < page_capacity_ s -> 0 <= i < Z.of_nat (length (addresses_ s)) ->
  Z.of_nat (length (memberships_ s)) = Z.of_nat (length (addresses_ s)) * page_capacity_ s ->
  membership (set_memberships (set_index (memberships_ s) (membership_index s i p) h) s) i p = h.
Proof.
  intros Hp Hi Hl. unfold membership, membership_index. cbn [memberships_ set_memberships page_capacity_].
  by rewrite at_set_index_eq by nia.
Qed.

(** ** The frame of an update *)

(** What a page that others rely on keeps. *)
Record kept (pg pg' : Page) : Prop := {
  kp_committed : committed_columns_ pg <= committed_columns_ pg';
  kp_transfer : transfer_destination pg = true ->
    transfer_destination pg' = true /\ committed_columns_ pg' = committed_columns_ pg;
}.

Lemma kept_refl pg : kept pg pg.
Proof. by split. Qed.

(** The pages that an update of address [j] must keep. *)
Definition held_elsewhere (s : Spaces) (H : Holders) (j : Z) (h : LogicalKVPageHandle) : Prop :=
  (exists k b, k <> j /\ address_at s k = Some b /\ h ∈ members s k b) \/
  (exists q, q ∈ hd_pins H /\ h ∈ pin_pages q) \/ h ∈ (hd_dests H).*1.

Record update (s s' : Spaces) (H' : Holders) (j : Z) : Prop := {
  up_self : sp_self s' = sp_self s;
  up_capacity : page_capacity_ s' = page_capacity_ s;
  up_tables : page_capacity (sp_tables s') = page_capacity (sp_tables s);
  up_cells : length (memberships_ s') = length (memberships_ s);
  up_size : length (addresses_ s') = length (addresses_ s);
  up_others : forall k, k <> j -> address_at s' k = address_at s k;
  up_members : forall k p, k <> j -> 0 <= p < page_capacity_ s -> membership s' k p = membership s k p;
  up_kv : kv_inv (sp_pages s') (hd_res H' ++ addr_res s') [];
  up_rows : rows_ok (sp_tables s') (hd_rows H' ++ addr_rows s');
  up_free : free_ok s';
  up_address : forall a', address_at s' j = Some a' -> address_ok s' j a';
  up_pages : forall h pg, page_of (sp_pages s) h = Some pg -> held_elsewhere s H' j h ->
    exists pg', page_of (sp_pages s') h = Some pg' /\ kept pg pg';
  up_counts : forall i pg, at_index (pages_ (sp_pages s')) i = Some pg -> occupied pg = true ->
    counts_at s' (hd_pins H') i pg;
  up_pins : Forall (pin_ok s) (hd_pins H');
  up_pinned : forall q, q ∈ hd_pins H' -> ah_index (pin_space q) = j -> exists a',
    address_of s' (pin_space q) = Some a' /\ pin_pages q `prefix_of` members s' j a';
  up_dests : dests_ok s (hd_dests H');
  up_writers : forall q h pg', q ∈ hd_pins H' -> pin_shared q = true -> h ∈ pin_pages q ->
    page_of (sp_pages s') h = Some pg' -> writer_references_ pg' = 0;
}.

(** An address whose pages keep their coverage. *)
Lemma address_ok_frame s s' k b :
  address_ok s k b -> page_capacity_ s' = page_capacity_ s ->
  (forall p, 0 <= p < page_capacity_ s -> membership s' k p = membership s k p) ->
  (forall h pg, page_of (sp_pages s) h = Some pg -> h ∈ members s k b ->
    exists pg', page_of (sp_pages s') h = Some pg' /\ committed_columns_ pg <= committed_columns_ pg') ->
  address_ok s' k b.
Proof.
  intros Hok Hcap Hmem Hkeep. pose proof (ao_count _ _ _ Hok) as Hcnt.
  assert (members s' k b = members s k b) as Hm.
  { apply memberships_of_ext. intros p Hp. apply Hmem. lia. }
  destruct Hok. split; try done.
  - by rewrite Hcap.
  - by rewrite Hcap.
  - rewrite Hm, Forall_forall in *. intros h Hh. destruct (ao_valid h Hh) as [pg Hpg].
    destruct (Hkeep h pg Hpg Hh) as (pg' & -> & _). done.
  - by rewrite Hm.
  - intros p Hp. rewrite Hcap in Hp. rewrite Hmem by lia. by apply ao_empty.
  - intros p pg' Hp Hlt Hpg'. unfold kPagedKVPageSize in *. rewrite Hmem in Hpg' by lia.
    assert (membership s k p ∈ members s k b) as Hin.
    { apply elem_of_memberships. exists p. split; [lia|done]. }
    rewrite Forall_forall in ao_valid. destruct (ao_valid _ Hin) as [pg Hpg].
    destruct (Hkeep _ _ Hpg Hin) as (pg2 & Hpg2 & Hcm). rewrite Hpg2 in Hpg'. injection Hpg' as <-.
    specialize (ao_cover p pg Hp Hlt Hpg). lia.
Qed.

(** The view when only one address changed. *)
Lemma view_update s s' H j a a' :
  core s H -> address_at s j = Some a -> address_at s' j = Some a' ->
  length (addresses_ s') = length (addresses_ s) -> (forall k, k <> j -> address_at s' k = address_at s k) ->
  (forall k p, k <> j -> 0 <= p < page_capacity_ s -> membership s' k p = membership s k p) ->
  view s' = <[Z.to_nat j := (members s' j a', ad_active a')]> (view s).
Proof.
  intros Hc Ha Ha' Hlen Hothers Hmem. pose proof (at_index_lt _ _ _ Ha) as Hj. apply list_eq. intros k.
  destruct (decide (k = Z.to_nat j)) as [->|Hk].
  - rewrite list_lookup_insert_eq by (rewrite view_length; lia). by apply view_address.
  - rewrite list_lookup_insert_ne by done. rewrite !view_lookup.
    pose proof (Hothers (Z.of_nat k) ltac:(lia)) as Ho. unfold address_at in Ho.
    rewrite !at_index_nat in Ho. rewrite Ho.
    destruct (addresses_ s !! k) as [b|] eqn:Hb; [|done]. cbn. do 2 f_equal.
    assert (address_at s (Z.of_nat k) = Some b) as Hb' by (unfold address_at; by rewrite at_index_nat).
    pose proof (ao_count _ _ _ (si_address _ _ Hc _ _ Hb')).
    apply memberships_of_ext. intros p Hp. apply Hmem; lia.
Qed.

Lemma counts_update s s' H j a a' i :
  core s H -> address_at s j = Some a -> address_at s' j = Some a' ->
  length (addresses_ s') = length (addresses_ s) -> (forall k, k <> j -> address_at s' k = address_at s k) ->
  (forall k p, k <> j -> 0 <= p < page_capacity_ s -> membership s' k p = membership s k p) ->
  count_refs (view s') i = count_refs (view s) i - member_of i (members s j a) + member_of i (members s' j a') /\
  count_active (view s') i = count_active (view s) i - active_member i (members s j a, ad_active a) +
    active_member i (members s' j a', ad_active a').
Proof.
  intros Hc Ha Ha' Hlen Hothers Hmem. rewrite (view_update s s' H j a a') by done.
  pose proof (view_address _ _ _ Ha) as Hv. split.
  - by rewrite (count_refs_insert _ _ _ _ _ Hv).
  - by rewrite (count_active_insert _ _ _ _ _ Hv).
Qed.

Section update.
Context (s s' : Spaces) (H H' : Holders) (j : Z) (Hc : core s H) (Hu : update s s' H' j).

Lemma other_members k b : k <> j -> address_at s k = Some b -> members s' k b = members s k b.
Proof.
  intros Hk Hb. pose proof (ao_count _ _ _ (si_address _ _ Hc _ _ Hb)).
  apply memberships_of_ext. intros p Hp. apply (up_members _ _ _ _ Hu); [done|lia].
Qed.

Lemma other_address_ok k b : k <> j -> address_at s k = Some b -> address_ok s' k b.
Proof.
  intros Hk Hb. apply (address_ok_frame s); [apply (si_address _ _ Hc _ _ Hb)|apply (up_capacity _ _ _ _ Hu)| |].
  - intros p Hp. by apply (up_members _ _ _ _ Hu).
  - intros h pg Hpg Hh. destruct (up_pages _ _ _ _ Hu h pg Hpg) as (pg' & ? & []); [left; by exists k, b|by exists pg'].
Qed.

Lemma pin_kept q : q ∈ hd_pins H' -> pin_ok s' q.
Proof.
  intros Hq. pose proof (proj1 (Forall_forall _ _) (up_pins _ _ _ _ Hu) q Hq) as (a & Ha & Hpre & Hfull & Hne & _).
  assert (forall h, h ∈ pin_pages q -> is_Some (page_of (sp_pages s) h)) as Hvalid.
  { intros h Hh. pose proof Ha as (_ & Hat & _)%address_of_Some.
    pose proof (ao_valid _ _ _ (si_address _ _ Hc _ _ Hat)) as Hv. rewrite Forall_forall in Hv.
    apply Hv. by eapply elem_of_prefix. }
  assert (Forall (fun h => forall pg, page_of (sp_pages s') h = Some pg -> kPagedKVPageSize <= committed_columns_ pg)
    (take (pin_full q) (pin_pages q))) as Hfull'.
  { rewrite Forall_forall in Hfull |- *. intros h Hh pg' Hpg'.
    assert (h ∈ pin_pages q) as Hin by (eapply elem_of_prefix; [exact Hh|apply prefix_take]).
    destruct (Hvalid h Hin) as [pg Hpg].
    destruct (up_pages _ _ _ _ Hu h pg Hpg) as (pg2 & Hpg2 & [Hcm _]).
    { right. left. by exists q. }
    rewrite Hpg2 in Hpg'. injection Hpg' as <-. specialize (Hfull h Hh pg Hpg). lia. }
  assert (pin_shared q = true -> Forall (fun h => forall pg, page_of (sp_pages s') h = Some pg -> writer_references_ pg = 0)
    (pin_pages q)) as Hw.
  { intros Hsh. apply Forall_forall. intros h Hh pg Hpg. by eapply (up_writers _ _ _ _ Hu q h). }
  destruct (decide (ah_index (pin_space q) = j)) as [Hj|Hj].
  - destruct (up_pinned _ _ _ _ Hu q Hq Hj) as (a' & Ha' & Hpre'). exists a'. subst j. done.
  - exists a. pose proof Ha as (Ho & Hat & Hocc & Hgen)%address_of_Some. split_and!; [|by rewrite other_members|done..].
    apply address_of_Some. rewrite (up_self _ _ _ _ Hu), (up_others _ _ _ _ Hu) by done. done.
Qed.

Lemma dest_kept d : d ∈ hd_dests H' -> dest_ok s' d.
Proof.
  intros Hd. pose proof (proj1 (Forall_forall _ _) (proj2 (up_dests _ _ _ _ Hu)) d Hd) as (pg & Hpg & Ht & Hcm).
  destruct (up_pages _ _ _ _ Hu d.1 pg Hpg) as (pg' & Hpg' & [_ Hk]).
  { right. right. by apply list_elem_of_fmap_2. }
  destruct (Hk Ht) as [Ht' Hcm']. exists pg'. split_and!; [done|done|congruence].
Qed.

Lemma core_update : core s' H'.
Proof.
  pose proof Hc as []. split; try apply Hu.
  - rewrite (up_capacity _ _ _ _ Hu), (up_tables _ _ _ _ Hu). done.
  - rewrite (up_cells _ _ _ _ Hu), (up_size _ _ _ _ Hu), (up_capacity _ _ _ _ Hu). done.
  - by rewrite (up_size _ _ _ _ Hu).
  - intros k b Hb. destruct (decide (k = j)) as [->|Hk]; [by apply Hu|].
    rewrite (up_others _ _ _ _ Hu) in Hb by done. by apply other_address_ok.
  - apply Forall_forall. apply pin_kept.
  - split; [apply (up_dests _ _ _ _ Hu)|]. apply Forall_forall. apply dest_kept.
Qed.

(** Protected coverage outside the updated address. *)
Lemma protected_update :
  checkpoints_protected s ->
  (forall h pg pg', page_of (sp_pages s) h = Some pg -> held_elsewhere s H' j h ->
    page_of (sp_pages s') h = Some pg' -> protected_columns_ pg <= protected_columns_ pg') ->
  (forall a', address_at s' j = Some a' -> protected_for s' j a') ->
  checkpoints_protected s'.
Proof.
  intros Hp Hmono Hj k b Hb. destruct (decide (k = j)) as [->|Hk]; [by apply Hj|].
  rewrite (up_others _ _ _ _ Hu) in Hb by done. intros p pg' Hnn Hlt Hpg'.
  pose proof (si_address _ _ Hc _ _ Hb) as Hok. pose proof (ao_count _ _ _ Hok). pose proof (ao_frontier _ _ _ Hok).
  unfold kPagedKVPageSize in *. rewrite (up_members _ _ _ _ Hu) in Hpg' by (done || lia).
  assert (membership s k p ∈ members s k b) as Hin.
  { apply elem_of_memberships. exists p. split; [lia|done]. }
  pose proof (ao_valid _ _ _ Hok) as Hv. rewrite Forall_forall in Hv. destruct (Hv _ Hin) as [pg Hpg].
  specialize (Hp k b Hb p pg Hnn Hlt Hpg). unfold kPagedKVPageSize in *.
  pose proof (Hmono _ _ _ Hpg ltac:(left; by exists k, b) Hpg'). lia.
Qed.
End update.

(** ** Changing only pages *)

(** A page after a change that counts and holders do not notice; a page that nobody references may go. *)
Record page_alike (pg pg' : Page) : Prop := {
  al_slot : generation pg' = generation pg /\ occupied pg' = occupied pg;
  al_counts : references pg' = references pg /\ active_references pg' = active_references pg /\
    writer_references_ pg' = writer_references_ pg /\ source_pins_ pg' = source_pins_ pg;
  al_device : 0 < active_references pg -> has (device_replica pg) = true -> has (device_replica pg') = true;
  al_kept : kept pg pg';
}.

Definition page_gone (pg pg' : Page) : Prop :=
  references pg = 0 /\ transfer_destination pg = false /\ occupied pg' = false.

Record store_alike (S S' : Store) : Prop := {
  sa_self : st_self S' = st_self S;
  sa_length : length (pages_ S') = length (pages_ S);
  sa_pages : forall i pg, at_index (pages_ S) i = Some pg ->
    exists pg', at_index (pages_ S') i = Some pg' /\ (page_alike pg pg' \/ page_gone pg pg');
}.

Lemma page_alike_refl pg : page_alike pg pg.
Proof. by split. Qed.

Lemma store_alike_refl S : store_alike S S.
Proof. split; [done..|]. intros i pg Hi. exists pg. split; [done|left; apply page_alike_refl]. Qed.

Lemma store_alike_write S h pg pg' :
  page_of S h = Some pg -> page_alike pg pg' \/ page_gone pg pg' -> store_alike S (set_page_at (lh_index h) pg' S).
Proof.
  intros (_ & Hi & _)%page_of_Some Hal. split; [done|cbn; apply length_set_index|].
  intros j q Hj. rewrite (at_set_page_at S _ j pg pg' Hi). case_decide as Hij.
  - subst j. rewrite Hi in Hj. injection Hj as <-. by exists pg'.
  - exists q. split; [done|left; apply page_alike_refl].
Qed.

(** A pinned page is a member, so it has references. *)
Lemma pinned_member s H q h :
  core s H -> q ∈ hd_pins H -> h ∈ pin_pages q ->
  exists a, address_at s (ah_index (pin_space q)) = Some a /\ h ∈ members s (ah_index (pin_space q)) a.
Proof.
  intros Hc Hq Hh. pose proof (proj1 (Forall_forall _ _) (si_pins _ _ Hc) q Hq) as (a & Ha & Hpre & _).
  apply address_of_Some in Ha as (_ & Ha & _). exists a. split; [done|]. by eapply elem_of_prefix.
Qed.

(** A page that someone has pinned. *)
Lemma pinned_page s H q h :
  core s H -> q ∈ hd_pins H -> h ∈ pin_pages q ->
  exists pg, page_of (sp_pages s) h = Some pg /\ 1 <= source_pins_ pg /\ 1 <= references pg.
Proof.
  intros Hc Hq Hh. destruct (pinned_member s H q h Hc Hq Hh) as (a & Ha & Hm).
  destruct (member_page s H _ a h Hc Ha Hm) as (pg & Hpg & _ & Hcn & Hr). exists pg. split_and!; [done| |done].
  rewrite (pc_pins _ _ _ _ Hcn). apply list_elem_of_lookup in Hq as [n Hn].
  pose proof (sum_with_elem (fun q => member_of (lh_index h) (pin_pages q)) (hd_pins H) n q) as Hs.
  assert (member_of (lh_index h) (pin_pages q) = 1) as Hone.
  { unfold member_of. rewrite decide_True; [done|]. by apply list_elem_of_fmap_2. }
  cbn beta in Hs. rewrite Hone in Hs. apply Hs; [|done]. intros q'. apply member_of_range.
Qed.

(** Pages that forks have pinned get no writer when pinned pages get none. *)
Lemma pinned_writers s H S' :
  core s H ->
  (forall h pg, page_of (sp_pages s) h = Some pg -> 1 <= source_pins_ pg -> 1 <= references pg ->
    writer_references_ pg = 0 -> exists pg', page_of S' h = Some pg' /\ writer_references_ pg' = 0) ->
  forall q h pg', q ∈ hd_pins H -> pin_shared q = true -> h ∈ pin_pages q ->
    page_of S' h = Some pg' -> writer_references_ pg' = 0.
Proof.
  intros Hc Hkeep q h pg' Hq Hsh Hh Hpg'. destruct (pinned_page s H q h Hc Hq Hh) as (pg & Hpg & Hpin & Hr).
  pose proof (proj1 (Forall_forall _ _) (si_pins _ _ Hc) q Hq) as (a & _ & _ & _ & _ & Hw).
  specialize (Hw Hsh). rewrite Forall_forall in Hw.
  destruct (Hkeep h pg Hpg Hpin Hr (Hw h Hh pg Hpg)) as (pg2 & Hpg2 & ?). congruence.
Qed.

Lemma held_live s H j h pg :
  core s H -> page_of (sp_pages s) h = Some pg -> held_elsewhere s H j h ->
  1 <= references pg \/ transfer_destination pg = true.
Proof.
  intros Hc Hpg [(k & b & _ & Hb & Hh)|[(q & Hq & Hh)|Hh]].
  - destruct (member_page s H k b h Hc Hb Hh) as (pg' & Hpg' & _ & _ & Hr). left. congruence.
  - destruct (pinned_member s H q h Hc Hq Hh) as (a & Ha & Hm).
    destruct (member_page s H _ a h Hc Ha Hm) as (pg' & Hpg' & _ & _ & Hr). left. congruence.
  - apply list_elem_of_fmap in Hh as (d & -> & Hd).
    pose proof (proj1 (Forall_forall _ _) (proj2 (si_dests _ _ Hc)) d Hd) as (pg' & Hpg' & Ht & _).
    right. congruence.
Qed.

Lemma store_alike_page S S' h pg :
  store_alike S S' -> page_of S h = Some pg -> 1 <= references pg \/ transfer_destination pg = true ->
  exists pg', page_of S' h = Some pg' /\ page_alike pg pg'.
Proof.
  intros Hal (Ho & Hi & Hocc & Hg)%page_of_Some Hlive.
  destruct (sa_pages _ _ Hal _ _ Hi) as (pg' & Hi' & [Hpg|(Hr & Ht & _)]).
  2: { destruct Hlive; [lia|congruence]. }
  exists pg'. split; [|done]. destruct (al_slot _ _ Hpg). apply page_of_Some. rewrite (sa_self _ _ Hal).
  split_and!; congruence.
Qed.

Lemma writers_alike S S' :
  store_alike S S' -> forall h pg, page_of S h = Some pg -> 1 <= source_pins_ pg -> 1 <= references pg ->
  writer_references_ pg = 0 -> exists pg', page_of S' h = Some pg' /\ writer_references_ pg' = 0.
Proof.
  intros Hal h pg Hpg _ Hr Hw. destruct (store_alike_page _ _ _ _ Hal Hpg (or_introl Hr)) as (pg' & ? & [_ (_ & _ & Hw' & _) _ _]).
  exists pg'. split; [done|congruence].
Qed.

Lemma counts_alike s H S' i pg' :
  core s H -> store_alike (sp_pages s) S' -> at_index (pages_ S') i = Some pg' -> occupied pg' = true ->
  counts_at s (hd_pins H) i pg'.
Proof.
  intros Hc Hal Hi' Ho'. destruct (at_index_is_Some (pages_ (sp_pages s)) i) as [pg Hi].
  { apply at_index_lt in Hi'. rewrite <- (sa_length _ _ Hal). done. }
  destruct (sa_pages _ _ Hal _ _ Hi) as (pg2 & Hi2 & Hcase). rewrite Hi' in Hi2. injection Hi2 as <-.
  destruct Hcase as [[[Hg Ho] (Hr & Ha & Hw & Hp) Hd _]|(_ & _ & ?)]; [|congruence].
  destruct (si_counts _ _ Hc i pg Hi ltac:(congruence)) as [Cr Ca Cp Cw Cd]. split.
  - by rewrite Hr.
  - by rewrite Ha.
  - by rewrite Hp.
  - intros Hw1. rewrite Hw in Hw1. destruct (Cw Hw1). split; congruence.
  - intros Hpos. rewrite Ha in Hpos. by apply Hd, Cd.
Qed.

Lemma core_alike s H S' R' :
  core s H -> kv_inv S' (R' ++ addr_res s) [] -> store_alike (sp_pages s) S' ->
  core (set_sp_pages S' s) (with_res R' H).
Proof.
  intros Hc Hkv Hal. apply (core_update s _ H _ (-1) Hc). pose proof Hc as []. split; try done.
  - by destruct si_free.
  - intros h pg Hpg Hheld. pose proof (held_live s H (-1) h pg Hc Hpg Hheld) as Hlive.
    destruct (store_alike_page _ _ _ _ Hal Hpg Hlive) as (pg' & Hpg' & Hk). exists pg'. split; [done|apply Hk].
  - intros i pg' Hi' Ho'. exact (counts_alike s H S' i pg' Hc Hal Hi' Ho').
  - intros q Hq Hj. pose proof (proj1 (Forall_forall _ _) si_pins q Hq) as (a & (_ & Ha%at_index_lt & _)%address_of_Some & _).
    lia.
  - by apply (pinned_writers s H S' Hc), writers_alike.
Qed.

(** ** Changing an address that keeps its pages and its activity *)

Lemma member_alike s H S' j a h pg :
  core s H -> store_alike (sp_pages s) S' -> address_at s j = Some a -> h ∈ members s j a ->
  page_of (sp_pages s) h = Some pg -> exists pg', page_of S' h = Some pg' /\ page_alike pg pg'.
Proof.
  intros Hc Hal Ha Hh Hpg. destruct (member_page s H j a h Hc Ha Hh) as (pg' & Hpg' & _ & _ & Hr).
  rewrite Hpg in Hpg'. injection Hpg' as <-. apply (store_alike_page _ _ _ _ Hal Hpg). by left.
Qed.

Lemma core_address s H s' H' j a a' :
  core s H -> address_at s j = Some a ->
  sp_self s' = sp_self s -> page_capacity_ s' = page_capacity_ s ->
  page_capacity (sp_tables s') = page_capacity (sp_tables s) -> memberships_ s' = memberships_ s ->
  addresses_ s' = set_index (addresses_ s) j a' ->
  page_count a' = page_count a -> ad_active a' = ad_active a ->
  (ad_occupied a = true -> ad_occupied a' = true /\ ad_generation a' = ad_generation a) ->
  (address_ok s' j a -> address_ok s' j a') ->
  free_ok s' -> store_alike (sp_pages s) (sp_pages s') ->
  kv_inv (sp_pages s') (hd_res H' ++ addr_res s') [] -> rows_ok (sp_tables s') (hd_rows H' ++ addr_rows s') ->
  hd_pins H' = hd_pins H -> hd_dests H' = hd_dests H ->
  core s' H'.
Proof.
  intros Hc Ha Hself Hcap Htab Hmem Haddr Hcount Hact Hslot Hok Hfree Hal Hkv Hrows Hpins Hdests.
  pose proof (at_index_lt _ _ _ Ha) as Hj.
  assert (forall k p, membership s' k p = membership s k p) as Hm.
  { intros k p. unfold membership, membership_index. by rewrite Hmem, Hcap. }
  assert (forall k, address_at s' k = if decide (k = j) then Some a' else address_at s k) as Hat.
  { intros k. unfold address_at. rewrite Haddr. case_decide as Hk; [subst; apply at_set_index_eq; lia|].
    apply at_set_index_ne; [lia|congruence]. }
  assert (address_at s' j = Some a') as Ha' by by rewrite Hat, decide_True.
  assert (update s s' H' j) as Hu; [|by apply (core_update s s' H H' j)].
  assert (members s' j a' = members s j a) as Hmj.
  { unfold members. rewrite Hcount. by apply memberships_of_ext. }
  assert (view s' = view s) as Hv.
  { apply list_eq. intros k. rewrite !view_lookup. pose proof (Hat (Z.of_nat k)) as Hk. unfold address_at in Hk, Ha.
    rewrite !at_index_nat in Hk. rewrite Hk. case_decide as Hkj.
    - subst j. rewrite at_index_nat in Ha. rewrite Ha. unfold members in Hmj. cbn. by rewrite Hact, Hmj.
    - destruct (addresses_ s !! k); [|done]. cbn. do 2 f_equal. by apply memberships_of_ext. }
  pose proof Hc as Hc'. destruct Hc'. split; try done.
  - by rewrite Hmem.
  - rewrite Haddr. apply length_set_index.
  - intros k Hk. by rewrite Hat, decide_False.
  - rewrite Ha'. intros ? [= <-]. apply Hok. apply (address_ok_frame s); [by apply si_address|done|done|].
    intros h pg Hpg Hh. destruct (member_alike s H _ j a h pg Hc Hal Ha Hh Hpg) as (pg' & ? & [? ? ? []]).
    by exists pg'.
  - intros h pg Hpg Hheld. assert (held_elsewhere s H j h) as Hheld'.
    { unfold held_elsewhere in *. by rewrite Hpins, Hdests in Hheld. }
    destruct (store_alike_page _ _ _ _ Hal Hpg (held_live s H j h pg Hc Hpg Hheld')) as (pg' & Hpg' & Hk).
    exists pg'. split; [done|apply Hk].
  - intros i pg' Hi' Ho'.
    pose proof (counts_alike s H (sp_pages s') i pg' Hc Hal Hi' Ho') as Hcnt.
    unfold counts_at in *. by rewrite Hv, Hpins.
  - rewrite Hpins. done.
  - intros q Hq Hqj. rewrite Hpins in Hq.
    pose proof (proj1 (Forall_forall _ _) si_pins q Hq) as (b & Hb & Hpre & _).
    apply address_of_Some in Hb as (Ho & Hb & Hocc & Hg). rewrite Hqj in *. rewrite Ha in Hb. injection Hb as <-.
    destruct (Hslot Hocc) as [Hocc' Hg']. exists a'. split; [|by rewrite Hmj].
    apply address_of_Some. rewrite Hqj, Hself. split_and!; congruence.
  - by rewrite Hdests.
  - rewrite Hpins. by apply (pinned_writers s H _ Hc), writers_alike.
Qed.

(** ** Reservations and rows of one address *)

Lemma addr_res_split s j a :
  address_at s j = Some a ->
  exists rest, addr_res s ≡ₚ res_of a ++ rest /\
    forall s' a', addresses_ s' = set_index (addresses_ s) j a' -> addr_res s' ≡ₚ res_of a' ++ rest.
Proof.
  intros Ha. destruct (bind_split res_of _ _ _ Ha) as (rest & Hr & Hr'). exists rest. split; [done|].
  intros s' a' Haddr. unfold addr_res. rewrite Haddr. apply Hr'.
Qed.

Lemma addr_rows_split s j a :
  address_at s j = Some a ->
  exists rest, addr_rows s ≡ₚ option_list (ad_row a) ++ rest /\
    forall s' a', addresses_ s' = set_index (addresses_ s) j a' -> addr_rows s' ≡ₚ option_list (ad_row a') ++ rest.
Proof.
  intros Ha. destruct (bind_split (fun a => option_list (ad_row a)) _ _ _ Ha) as (rest & Hr & Hr').
  exists rest. split; [done|]. intros s' a' Haddr. unfold addr_rows. rewrite Haddr. apply Hr'.
Qed.

(** An active address's reservation in front of all others. *)
Lemma address_reservation s H j a :
  core s H -> address_at s j = Some a -> ad_active a = true ->
  exists rest, kv_inv (sp_pages s) (ad_reservation a :: rest) [] /\
    forall s' a' r', addresses_ s' = set_index (addresses_ s) j a' -> ad_reservation a' = r' ->
      reservation_valid r' = true -> r' :: rest ≡ₚ hd_res H ++ addr_res s'.
Proof.
  intros Hc Ha Hact. destruct (ao_bound _ _ _ (si_address _ _ Hc _ _ Ha) Hact) as (_ & Hv & _).
  destruct (addr_res_split s j a Ha) as (rest & Hr & Hr'). exists (hd_res H ++ rest). split.
  - eapply kv_inv_reservations; [|apply (si_pages _ _ Hc)]. rewrite Hr. unfold res_of. rewrite Hv. cbn. symmetry. apply Permutation_middle.
  - intros s' a' r' Haddr Har Hv'. rewrite (Hr' s' a' Haddr). unfold res_of. rewrite Har, Hv'. cbn. apply Permutation_middle.
Qed.

(** A reservation the store knows is valid. *)
Lemma known_reservation S R E r : kv_inv S R E -> r ∈ R -> reservation_valid r = true /\ 0 <= rs_pages r.
Proof.
  intros [Hp _] Hr. pose proof (ph_owner _ _ _ Hp) as Ho. rewrite Forall_forall in Ho.
  destruct (Ho r Hr) as [Hs Hn]. unfold reservation_valid. by rewrite Hs.
Qed.

(** Rows may be renamed without the rest noticing. *)
Lemma rows_same s H s' j a a' :
  core s H -> address_at s j = Some a -> addresses_ s' = set_index (addresses_ s) j a' ->
  ad_row a' = ad_row a -> sp_tables s' = sp_tables s -> rows_ok (sp_tables s') (hd_rows H ++ addr_rows s').
Proof.
  intros Hc Ha Haddr Hrow ->. destruct (addr_rows_split s j a Ha) as (rest & Hr & Hr').
  rewrite (Hr' s' a' Haddr), Hrow, <- Hr. apply (si_rows _ _ Hc).
Qed.

Lemma reservations_same s H s' j a a' :
  core s H -> address_at s j = Some a -> addresses_ s' = set_index (addresses_ s) j a' ->
  ad_reservation a' = ad_reservation a -> sp_pages s' = sp_pages s ->
  kv_inv (sp_pages s') (hd_res H ++ addr_res s') [].
Proof.
  intros Hc Ha Haddr Hres ->. destruct (addr_res_split s j a Ha) as (rest & Hr & Hr').
  eapply kv_inv_reservations; [|apply (si_pages _ _ Hc)].
  rewrite (Hr' s' a' Haddr), Hr. unfold res_of. by rewrite Hres.
Qed.

(** The free descriptors when no address changes its use. *)
Lemma free_ok_same s s' j a a' :
  free_ok s -> address_at s j = Some a -> addresses_ s' = set_index (addresses_ s) j a' ->
  ad_occupied a' = ad_occupied a -> sp_free s' = sp_free s -> sp_free_count s' = sp_free_count s -> free_ok s'.
Proof.
  intros [Hl Hn Hd Hf] Ha Haddr Hocc Hfree Hcount. pose proof (at_index_lt _ _ _ Ha) as Hj.
  assert (free_addresses s' = free_addresses s) as Hfa by (unfold free_addresses; congruence).
  split.
  - by rewrite Hfree, Haddr, length_set_index.
  - by rewrite Hcount, Haddr, length_set_index.
  - by rewrite Hfa.
  - intros k. rewrite Hfa, Hf. unfold address_at. rewrite Haddr.
    destruct (decide (k = j)) as [->|Hne].
    + rewrite at_set_index_eq by lia. unfold address_at in Ha. rewrite Ha.
      split; intros (b & [= <-] & Hb); eexists; (split; [done|congruence]).
    + by rewrite at_set_index_ne by (lia || done).
Qed.

(** Protected coverage when pages and memberships stay and no checkpoint grows. *)
Lemma protected_same s s' :
  checkpoints_protected s -> st_self (sp_pages s') = st_self (sp_pages s) ->
  pages_ (sp_pages s') = pages_ (sp_pages s) -> memberships_ s' = memberships_ s -> page_capacity_ s' = page_capacity_ s ->
  (forall k b', address_at s' k = Some b' -> exists b, address_at s k = Some b /\ checkpoint_frontier b' = checkpoint_frontier b) ->
  checkpoints_protected s'.
Proof.
  intros Hp Hs Hpages Hmem Hcap Haddr k b' Hb' p pg Hnn Hlt Hpg.
  destruct (Haddr k b' Hb') as (b & Hb & Hcp). rewrite Hcp in *. apply (Hp k b Hb p pg Hnn Hlt).
  revert Hpg. unfold page_of, capacity, membership, membership_index. by rewrite Hs, Hpages, Hmem, Hcap.
Qed.

(** ** Pages of one address only *)

(** A page with one reference and no pin belongs to its address alone. *)
Lemma exclusive_page s H H' j a h pg :
  core s H -> address_at s j = Some a -> h ∈ members s j a -> page_of (sp_pages s) h = Some pg ->
  references pg = 1 -> source_pins_ pg = 0 -> hd_pins H' = hd_pins H -> hd_dests H' = hd_dests H ->
  ~ held_elsewhere s H' j h.
Proof.
  intros Hc Ha Hh Hpg Hr Hp Hpins Hdests. unfold held_elsewhere. rewrite Hpins, Hdests.
  pose proof Hpg as (_ & Hi & Ho & _)%page_of_Some. pose proof (si_counts _ _ Hc _ _ Hi Ho) as Hcnt.
  intros [(k & b & Hk & Hb & Hin)|[(q & Hq & Hin)|(d & -> & Hd)%list_elem_of_fmap]].
  - pose proof (view_address _ _ _ Ha) as Hv. pose proof (view_address _ _ _ Hb) as Hv'.
    assert (Z.to_nat j = Z.to_nat k) as Heq.
    { eapply (count_refs_unique (view s) _ _ _ _ (lh_index h)); [exact Hv|exact Hv'| | |].
      - by apply list_elem_of_fmap_2.
      - by apply list_elem_of_fmap_2.
      - rewrite <- (pc_refs _ _ _ _ Hcnt). done. }
    apply at_index_lt in Ha, Hb. lia.
  - rewrite (pc_pins _ _ _ _ Hcnt) in Hp.
    assert (1 <= count_pins (hd_pins H) (lh_index h)) as Hge; [|lia].
    apply list_elem_of_lookup in Hq as [n Hn].
    pose proof (sum_with_elem (fun q => member_of (lh_index h) (pin_pages q)) (hd_pins H) n q) as Hs.
    assert (member_of (lh_index h) (pin_pages q) = 1) as Hm.
    { unfold member_of. rewrite decide_True; [done|]. by apply list_elem_of_fmap_2. }
    cbn beta in Hs. rewrite Hm in Hs. apply Hs; [|done]. intros q'. apply member_of_range.
  - pose proof (proj1 (Forall_forall _ _) (proj2 (si_dests _ _ Hc)) d Hd) as (pg' & Hpg' & Ht & _).
    rewrite Hpg in Hpg'. injection Hpg' as <-. unfold transfer_destination in Ht. bool_facts. lia.
Qed.

(** An inactive address counts among the references only. *)
Lemma inactive_member_counts s H j a h pg :
  core s H -> address_at s j = Some a -> ad_active a = false -> h ∈ members s j a ->
  page_of (sp_pages s) h = Some pg -> 0 <= active_references pg < references pg.
Proof.
  intros Hc Ha Hact Hh Hpg. pose proof Hpg as (_ & Hi & Ho & _)%page_of_Some.
  pose proof (si_counts _ _ Hc _ _ Hi Ho) as [-> -> _ _ _]. pose proof (view_address _ _ _ Ha) as Hv.
  rewrite Hact in Hv. set (v := (memberships_of s j (page_count a), false)) in *.
  pose proof (count_refs_insert _ _ _ ([], false) (lh_index h) Hv) as Hr.
  pose proof (count_active_insert _ _ _ ([], false) (lh_index h) Hv) as Hac.
  assert (member_of (lh_index h) (fst v) = 1) as Hm.
  { unfold member_of. rewrite decide_True; [done|]. by apply list_elem_of_fmap_2. }
  assert (member_of (lh_index h) [] = 0) as Hm0.
  { unfold member_of. rewrite decide_False; [done|]. apply not_elem_of_nil. }
  cbn [active_member fst] in *. rewrite Hm, Hm0 in Hr. unfold v in Hac. cbn [active_member] in Hac.
  pose proof (count_active_le (<[Z.to_nat j:=([], false)]> (view s)) (lh_index h)).
  pose proof (count_active_le (view s) (lh_index h)). lia.
Qed.

(** ** Changing every page of an address in one way *)

Section member_pages.
Context (S : Store) (hs : list LogicalKVPageHandle) (f : Page -> Page) (Hf : keeps_slot f).
Context (Hnd : NoDup (indices hs)) (Hv : Forall (fun h => is_Some (page_of S h)) hs).

Lemma upd_pages_cases i pg' :
  at_index (pages_ (upd_pages hs f S)) i = Some pg' ->
  exists pg, at_index (pages_ S) i = Some pg /\ occupied pg = occupied pg' /\
    ((i ∉ indices hs) /\ pg' = pg \/ (i ∈ indices hs) /\ pg' = f pg).
Proof.
  rewrite upd_pages_lookup by done. case_decide as Hi.
  - intros (pg & -> & Hpg)%fmap_Some. exists pg. destruct (Hf pg) as [Ho _]. split_and!; [done|congruence|by right].
  - intros Hpg. exists pg'. split_and!; [done|done|by left].
Qed.

Lemma upd_pages_kept h pg :
  page_of S h = Some pg ->
  page_of (upd_pages hs f S) h = Some (if decide (lh_index h ∈ indices hs) then f pg else pg).
Proof. intros Hpg. rewrite (upd_pages_page_of f Hf) by done. rewrite Hpg. by case_decide. Qed.
End member_pages.

Lemma set_addresses_at s j a k :
  0 <= j < Z.of_nat (length (addresses_ s)) ->
  address_at (set_addresses (set_index (addresses_ s) j a) s) k = if decide (k = j) then Some a else address_at s k.
Proof.
  intros Hj. unfold address_at. cbn [addresses_ set_addresses].
  case_decide as Hk; [subst; by apply at_set_index_eq|]. apply at_set_index_ne; [lia|congruence].
Qed.

(** The same for any state whose addresses are so changed. *)
Lemma address_at_set s s' j a a' k :
  address_at s j = Some a -> addresses_ s' = set_index (addresses_ s) j a' ->
  address_at s' k = if decide (k = j) then Some a' else address_at s k.
Proof.
  intros Ha Haddr. pose proof (set_addresses_at s j a' k (at_index_lt _ _ _ Ha)) as Hk.
  unfold address_at in *. cbn [addresses_ set_addresses] in Hk. by rewrite Haddr.
Qed.

Definition flag (b : bool) : Z := if b then 1 else 0.

Lemma active_member_flag i hs b : active_member i (hs, b) = flag b * member_of i hs.
Proof. destruct b; cbn [active_member flag]; lia. Qed.

Lemma member_of_in i hs : i ∈ indices hs -> member_of i hs = 1.
Proof. intros. unfold member_of. by rewrite decide_True. Qed.

Lemma member_of_out i hs : i ∉ indices hs -> member_of i hs = 0.
Proof. intros. unfold member_of. by rewrite decide_False. Qed.

(** An address whose pages change in one way and that may become active or inactive. *)
Lemma core_members s H s' H' j a a' f :
  core s H -> address_at s j = Some a -> keeps_slot f ->
  (forall h pg, h ∈ members s j a -> page_of (sp_pages s) h = Some pg -> page_ok pg ->
    counts_at s (hd_pins H) (lh_index h) pg ->
    page_step pg (f pg) /\ committed_columns_ pg <= committed_columns_ (f pg) /\
    page_counts (references pg) (active_references pg - flag (ad_active a) + flag (ad_active a')) (source_pins_ pg) (f pg) /\
    (1 <= source_pins_ pg -> writer_references_ pg = 0 -> writer_references_ (f pg) = 0)) ->
  page_count a' = page_count a -> ad_occupied a' = ad_occupied a -> ad_generation a' = ad_generation a ->
  s' = set_addresses (set_index (addresses_ s) j a') (set_sp_pages (upd_pages (members s j a) f (sp_pages s)) s) ->
  (address_ok s' j a -> address_ok s' j a') ->
  hd_pins H' = hd_pins H -> hd_dests H' = hd_dests H ->
  hd_res H' ++ addr_res s' ≡ₚ hd_res H ++ addr_res s -> hd_rows H' ++ addr_rows s' ≡ₚ hd_rows H ++ addr_rows s ->
  core s' H'.
Proof.
  intros Hc Ha Hf Hpage Hcount Hocc Hgen Hs' Hok Hpins Hdests HR HW.
  pose proof (si_address _ _ Hc _ _ Ha) as Haok. pose proof (ao_distinct _ _ _ Haok) as Hnd.
  pose proof (ao_valid _ _ _ Haok) as Hv. pose proof (at_index_lt _ _ _ Ha) as Hj.
  set (hs := members s j a) in *.
  assert (forall k, address_at s' k = if decide (k = j) then Some a' else address_at s k) as Hat.
  { intros k. rewrite Hs'. exact (set_addresses_at s j a' k Hj). }
  assert (address_at s' j = Some a') as Ha' by by rewrite Hat, decide_True.
  assert (length (addresses_ s') = length (addresses_ s)) as Hlen by (rewrite Hs'; apply length_set_index).
  assert (forall k, k <> j -> address_at s' k = address_at s k) as Hothers.
  { intros k Hk. by rewrite Hat, decide_False. }
  assert (forall k p, membership s' k p = membership s k p) as Hmem by (intros; by rewrite Hs').
  assert (members s' j a' = hs) as Hm'.
  { unfold members. rewrite Hcount. by apply memberships_of_ext. }
  assert (forall h pg, h ∈ hs -> page_of (sp_pages s) h = Some pg ->
    page_step pg (f pg) /\ committed_columns_ pg <= committed_columns_ (f pg) /\
    page_counts (references pg) (active_references pg - flag (ad_active a) + flag (ad_active a')) (source_pins_ pg) (f pg) /\
    (1 <= source_pins_ pg -> writer_references_ pg = 0 -> writer_references_ (f pg) = 0)) as Hpage'.
  { intros h pg Hh Hpg. destruct (member_page s H j a h Hc Ha Hh) as (pg' & Hpg' & Hpok & Hcn & _).
    rewrite Hpg in Hpg'. injection Hpg' as <-. exact (Hpage h pg Hh Hpg Hpok Hcn). }
  assert (sp_pages s' = upd_pages hs f (sp_pages s)) as Hps by by rewrite Hs'.
  assert (forall h pg, page_of (sp_pages s) h = Some pg -> exists pg', page_of (sp_pages s') h = Some pg' /\
    committed_columns_ pg <= committed_columns_ pg' /\ (lh_index h ∉ indices hs -> pg' = pg)) as Hkeep.
  { intros h pg Hpg. rewrite Hps, (upd_pages_kept _ _ _ Hf Hnd Hv h pg Hpg). case_decide as Hin.
    - exists (f pg). apply list_elem_of_fmap in Hin as (h' & Hi' & Hh').
      pose proof (proj1 (Forall_forall _ _) Hv h' Hh') as [pg' Hpg'].
      pose proof (page_of_inj _ _ _ _ _ Hpg Hpg' Hi') as <-.
      destruct (Hpage' h pg Hh' Hpg) as (_ & ? & _). split_and!; [done|done|]. intros Hn. exfalso. apply Hn.
      by apply list_elem_of_fmap_2.
    - by exists pg. }
  apply (core_update s s' H H' j Hc). pose proof Hc as Hc'. destruct Hc'.
  split; try (rewrite ?Hs', ?Hpins, ?Hdests; done).
  - exact Hlen.
  - exact Hothers.
  - rewrite Hps. apply (upd_pages_inv hs f).
    + eapply kv_inv_reservations; [|exact si_pages]. by rewrite HR.
    + done.
    + rewrite Forall_forall in Hv |- *. intros h Hh. destruct (Hv h Hh) as [pg Hpg]. exists pg.
      split; [done|]. exact (proj1 (Hpage' h pg Hh Hpg)).
  - rewrite HW. by rewrite Hs'.
  - by apply (free_ok_same s s' j a a'); rewrite ?Hs'.
  - rewrite Ha'. intros ? [= <-]. apply Hok. apply (address_ok_frame s); [done|by rewrite Hs'|done|].
    intros h pg Hpg _. destruct (Hkeep h pg Hpg) as (pg' & ? & ? & _). by exists pg'.
  - intros h pg Hpg Hheld. destruct (Hkeep h pg Hpg) as (pg' & Hpg' & Hcm & Hsame). exists pg'. split; [done|].
    split; [done|]. intros Ht. rewrite Hsame; [done|]. intros (h' & Hi' & Hh')%list_elem_of_fmap.
    destruct (member_page s H j a h' Hc Ha Hh') as (pg2 & Hpg2 & _ & _ & Hr).
    pose proof (page_of_inj _ _ _ _ _ Hpg Hpg2 Hi') as <-. rewrite Hpg in Hpg2. injection Hpg2 as <-.
    unfold transfer_destination in Ht. bool_facts. lia.
  - intros i pg' Hi' Ho'. rewrite Hps in Hi'.
    destruct (upd_pages_cases _ _ _ Hf Hnd Hv i pg' Hi') as (pg & Hi & Ho & Hcase).
    pose proof (si_counts i pg Hi ltac:(congruence)) as Hcn.
    destruct (counts_update s s' H j a a' i Hc Ha Ha' Hlen Hothers ltac:(done)) as [Hcr Hca].
    rewrite Hm' in Hcr, Hca. rewrite !active_member_flag in Hca. fold hs in Hcr, Hca.
    unfold counts_at. rewrite Hcr, Hca, Hpins. destruct Hcase as [[Hni ->]|[Hin ->]].
    + rewrite member_of_out by done. destruct Hcn as [Cr Ca Cp ? ?]. split; [lia..|done|done].
    + rewrite member_of_in by done. apply list_elem_of_fmap in Hin as (h & -> & Hh).
      pose proof (proj1 (Forall_forall _ _) Hv h Hh) as [pg2 Hpg2].
      pose proof Hpg2 as (_ & Hi2 & _)%page_of_Some. rewrite Hi in Hi2. injection Hi2 as <-.
      destruct (Hpage' h pg Hh Hpg2) as (_ & _ & Hpc & _). destruct Hcn as [Cr Ca Cp _ _].
      destruct Hpc as [Pr Pa Pp ? ?]. split; [lia..|done|done].
  - intros q Hq Hqj. rewrite Hpins in Hq.
    pose proof (proj1 (Forall_forall _ _) si_pins q Hq) as (b & Hb & Hpre & _).
    apply address_of_Some in Hb as (Ho & Hb & Hbocc & Hg). rewrite Hqj in *. rewrite Ha in Hb. injection Hb as <-.
    exists a'. split; [|by rewrite Hm']. apply address_of_Some. rewrite Hqj. split_and!; [by rewrite Hs'|done|congruence|congruence].
  - rewrite Hpins, Hps. apply (pinned_writers s H _ Hc). intros h pg Hpg Hp _ Hw.
    rewrite (upd_pages_kept _ _ _ Hf Hnd Hv h pg Hpg). eexists. split; [done|]. case_decide as Hin; [|done].
    apply list_elem_of_fmap in Hin as (h' & Hi' & Hh'). pose proof (proj1 (Forall_forall _ _) Hv h' Hh') as [pg' Hpg'].
    pose proof (page_of_inj _ _ _ _ _ Hpg Hpg' Hi') as <-. by apply (Hpage' h pg Hh' Hpg).
Qed.

(** A page of two addresses has two references. *)
Lemma shared_page s H j k a b h pg :
  core s H -> j <> k -> address_at s j = Some a -> address_at s k = Some b ->
  h ∈ members s j a -> h ∈ members s k b -> page_of (sp_pages s) h = Some pg -> 1 < references pg.
Proof.
  intros Hc Hne Ha Hb Hh Hh' Hpg. destruct (member_page s H j a h Hc Ha Hh) as (pg' & Hpg' & _ & Hcn & Hr).
  rewrite Hpg in Hpg'. injection Hpg' as <-. destruct (decide (references pg = 1)) as [H1|]; [|lia].
  rewrite (pc_refs _ _ _ _ Hcn) in H1.
  assert (Z.to_nat j = Z.to_nat k) as Heq.
  { eapply (count_refs_unique (view s) _ _ _ _ (lh_index h)); [by apply view_address|by apply view_address|..|done];
      by apply list_elem_of_fmap_2. }
  apply at_index_lt in Ha, Hb. lia.
Qed.

Lemma protected_members s H s' j a a' f :
  core s H -> address_at s j = Some a -> keeps_slot f ->
  s' = set_addresses (set_index (addresses_ s) j a') (set_sp_pages (upd_pages (members s j a) f (sp_pages s)) s) ->
  (forall h pg, h ∈ members s j a -> page_of (sp_pages s) h = Some pg -> 1 < references pg ->
    protected_columns_ pg <= protected_columns_ (f pg)) ->
  protected_for s' j a' -> checkpoints_protected s -> checkpoints_protected s'.
Proof.
  intros Hc Ha Hf Hs' Hmono Hj Hp k b Hb.
  assert (addresses_ s' = set_index (addresses_ s) j a') as Haddr by by rewrite Hs'.
  rewrite (address_at_set s s' j a a' k Ha Haddr) in Hb. case_decide as Hk; [by injection Hb as <-; subst k|].
  intros p pg' Hn Hlt Hpg'. pose proof (si_address _ _ Hc _ _ Ha) as Haok.
  pose proof (si_address _ _ Hc _ _ Hb) as Hbok. pose proof (ao_count _ _ _ Hbok). pose proof (ao_frontier _ _ _ Hbok).
  assert (membership s' k p = membership s k p) as Hm by by rewrite Hs'. rewrite Hm in Hpg'.
  assert (membership s k p ∈ members s k b) as Hin.
  { apply elem_of_memberships. exists p. unfold kPagedKVPageSize in *. split; [lia|done]. }
  destruct (member_page s H k b _ Hc Hb Hin) as (pg & Hpg & _).
  specialize (Hp k b Hb p pg Hn Hlt Hpg). assert (sp_pages s' = upd_pages (members s j a) f (sp_pages s)) as Hps by by rewrite Hs'.
  rewrite Hps, (upd_pages_kept _ _ _ Hf (ao_distinct _ _ _ Haok) (ao_valid _ _ _ Haok) _ pg Hpg) in Hpg'.
  injection Hpg' as <-. case_decide as Hi; [|done]. apply list_elem_of_fmap in Hi as (h & Hi & Hh).
  pose proof (proj1 (Forall_forall _ _) (ao_valid _ _ _ Haok) h Hh) as [pg2 Hpg2].
  pose proof (page_of_inj _ _ _ _ _ Hpg Hpg2 Hi) as <-.
  pose proof (Hmono _ pg Hh Hpg (shared_page s H j k a b _ pg Hc ltac:(congruence) Ha Hb Hh Hin Hpg)). lia.
Qed.
