(* ===== verification/KVAddressProtect.v ===== *)
(** * Address spaces: checkpoint protection

    [rebuild_checkpoint_protection] recomputes the protected columns of every page from the checkpoint
    frontiers.  It never throws, changes nothing but protected columns, and afterwards every
    checkpoint is protected on every page of its address. *)

From S2P Require Import Prelude Post Extents Tensor KVGeometry DevicePagePool DevicePoolInvariant DevicePoolOps ExecutionTables KVPages KVPagesInvariant KVAddress KVAddressPages KVAddressInvariant KVAddressUpdate.
Import LogicalKVPageStore KVAddressSpaceStore.

(** ** Pages of a frontier *)

Lemma pages_for_tokens_0 : pages_for_tokens 0 = 0.
Proof. done. Qed.

Lemma pages_for_tokens_pos n :
  0 < n -> kPagedKVPageSize * (pages_for_tokens n - 1) < n <= kPagedKVPageSize * pages_for_tokens n.
Proof.
  intros Hn. unfold pages_for_tokens, kPagedKVPageSize. destruct (Z.eqb_spec n 0); [lia|].
  pose proof (Z.div_mod (n - 1) 64). pose proof (Z.mod_pos_bound (n - 1) 64). lia.
Qed.

Lemma pages_for_tokens_nonneg n : 0 <= n -> 0 <= pages_for_tokens n.
Proof.
  intros Hn. destruct (decide (n = 0)) as [->|]; [done|].
  pose proof (pages_for_tokens_pos n). unfold kPagedKVPageSize in *. lia.
Qed.

Lemma pages_for_tokens_le n c : 0 <= n -> 0 <= c -> n <= kPagedKVPageSize * c -> pages_for_tokens n <= c.
Proof.
  intros Hn Hc0 Hc. destruct (decide (n = 0)) as [->|]; [done|].
  pose proof (pages_for_tokens_pos n). unfold kPagedKVPageSize in *. lia.
Qed.

Lemma pages_for_tokens_cover n : 0 <= n -> n <= kPagedKVPageSize * pages_for_tokens n.
Proof. intros Hn. destruct (decide (n = 0)) as [->|]; [done|]. pose proof (pages_for_tokens_pos n). lia. Qed.

(** The columns of page [p] below a frontier. *)
Lemma page_columns front p :
  0 <= p -> kPagedKVPageSize * p < front <= u32_max ->
  Z.min kPagedKVPageSize (w32 (front - w32 (p * kPagedKVPageSize))) =
    Z.min kPagedKVPageSize (front - kPagedKVPageSize * p).
Proof. intros Hp Hf. unfold kPagedKVPageSize in *. rewrite (w32_small (p * 64)), w32_small by lia. lia. Qed.

(** ** Stores that differ only in protected columns *)

Definition set_protection (n : Z) (pg : Page) : Page := set_content (content_epoch_ pg) (committed_columns_ pg) n pg.

Record protect_only (S S' : Store) : Prop := {
  po_self : st_self S' = st_self S;
  po_length : length (pages_ S') = length (pages_ S);
  po_pages : forall i pg, at_index (pages_ S) i = Some pg ->
    exists n, at_index (pages_ S') i = Some (set_protection n pg);
}.

Lemma set_protection_same pg : set_protection (protected_columns_ pg) pg = pg.
Proof. by destruct pg. Qed.

Lemma protect_only_refl S : protect_only S S.
Proof. split; [done..|]. intros i pg Hi. exists (protected_columns_ pg). by rewrite set_protection_same. Qed.

Lemma protect_only_alike S S' : protect_only S S' -> store_alike S S'.
Proof.
  intros [Hs Hl Hp]. split; [done..|]. intros i pg Hi. destruct (Hp i pg Hi) as [n Hn].
  eexists. split; [done|left]. by split.
Qed.

Lemma protect_only_page S S' h pg :
  protect_only S S' -> page_of S h = Some pg -> exists n, page_of S' h = Some (set_protection n pg).
Proof.
  intros [Hs Hl Hp] (Ho & Hi & Hocc & Hg)%page_of_Some. destruct (Hp _ _ Hi) as [n Hn].
  exists n. apply page_of_Some. rewrite Hs. done.
Qed.

(** ** The two passes *)

Section rebuild.
Context (s : Spaces) (H : Holders) (Hc : core s H).

Definition reprotected (s' : Spaces) : Prop :=
  exists S', s' = set_sp_pages S' s /\ kv_inv S' (hd_res H ++ addr_res s) [] /\ protect_only (sp_pages s) S'.

Lemma reprotected_start : reprotected s.
Proof.
  exists (sp_pages s). split_and!; [by destruct s|apply Hc|apply protect_only_refl].
Qed.

(** One write of protected columns. *)
Lemma reprotected_write s' h pg n :
  reprotected s' -> page_of (sp_pages s') h = Some pg -> 0 <= n <= committed_columns_ pg ->
  reprotected (set_sp_pages (set_page_at (lh_index h) (set_protection n pg) (sp_pages s')) s').
Proof.
  intros (S' & -> & Hkv & [Hs Hl Hp]) Hpg Hn. cbn [sp_pages set_sp_pages] in *.
  exists (set_page_at (lh_index h) (set_protection n pg) S'). split; [done|].
  pose proof (page_of_ok _ _ _ (kv_desc _ _ _ Hkv) Hpg) as Hok.
  pose proof Hpg as (_ & Hi & Hocc & _)%page_of_Some. split.
  - eapply write_page_inv; [done|exact Hpg|]. unfold set_protection. page_step_tac.
  - split; [done|etransitivity; [apply length_set_index|done]|].
    intros i q Hq. rewrite (at_set_page_at S' _ i pg _ Hi). case_decide as Hij.
    + subst i. destruct (Hp _ _ Hq) as [m Hm]. exists n. rewrite Hi in Hm. by injection Hm as ->.
    + by apply Hp.
Qed.

Lemma reprotected_page s' h pg :
  reprotected s' -> page_of (sp_pages s) h = Some pg ->
  exists n, page_of (sp_pages s') h = Some (set_protection n pg).
Proof. intros (S' & -> & _ & Hp) Hpg. by eapply protect_only_page. Qed.

Lemma indexed_addresses_elem k b : (k, b) ∈ indexed_addresses s -> address_at s k = Some b.
Proof.
  intros (i & a & [= -> ->] & Hi)%elem_of_lookup_imap. unfold address_at. by rewrite at_index_nat.
Qed.

Lemma reprotected_member s' k b p :
  reprotected s' -> address_at s k = Some b -> 0 <= p < page_count b ->
  exists pg n, page_of (sp_pages s) (membership s k p) = Some pg /\ membership s' k p = membership s k p /\
    page_of (sp_pages s') (membership s k p) = Some (set_protection n pg) /\ 0 <= committed_columns_ pg.
Proof.
  intros Hs' Hb Hp. assert (membership s k p ∈ members s k b) as Hin by (apply elem_of_memberships; eauto).
  destruct (member_page s H k b _ Hc Hb Hin) as (pg & Hpg & Hok & _).
  destruct (reprotected_page s' _ pg Hs' Hpg) as [n Hn]. exists pg, n. destruct Hs' as (S' & -> & _).
  pose proof (po_cover _ Hok). split_and!; [done..|lia].
Qed.

Lemma clear_checkpoint_post k b s' :
  address_at s k = Some b -> reprotected s' ->
  post (clear_checkpoint k b) s' (fun s'' _ => reprotected s'') (fun _ _ => False).
Proof.
  intros Hb Hs'. unfold clear_checkpoint. destruct (ad_occupied b); [|by apply post_ret].
  pose proof (ao_count _ _ _ (si_address _ _ Hc _ _ Hb)).
  apply (for_pages_post _ _ _ (fun _ => reprotected)); [lia|done|].
  clear s' Hs'. intros p s' Hp Hs'.
  destruct (reprotected_member s' k b p Hs' Hb Hp) as (pg & n & Hpg & Hm & Hpg' & Hcm).
  eapply post_eq; [reflexivity|]. rewrite Hm.
  eapply post_end.
  - unfold on_pages. rewrite (set_protected_coverage_eq _ _ _ Hpg') by (cbn; lia). reflexivity.
  - apply (reprotected_write s' _ _ 0 Hs' Hpg'). cbn. lia.
Qed.

(** The second pass: what is protected stays protected. *)
Definition protected_below (s' : Spaces) (l : list (Z * Address)) : Prop :=
  reprotected s' /\ forall k b, (k, b) ∈ l -> protected_for s' k b.

Lemma protected_for_write s' k b h pg n :
  page_of (sp_pages s') h = Some pg -> protected_columns_ pg <= n -> protected_for s' k b ->
  protected_for (set_sp_pages (set_page_at (lh_index h) (set_protection n pg) (sp_pages s')) s') k b.
Proof.
  intros Hpg Hn Hb p pg' Hp Hlt Hpg'. cbn [sp_pages set_sp_pages] in Hpg'.
  change (membership (set_sp_pages _ s') k p) with (membership s' k p) in Hpg'.
  destruct (decide (lh_index h = lh_index (membership s' k p))) as [Heq|Hne].
  - apply page_of_Some in Hpg' as (Ho & Hi & Hocc & Hg). pose proof Hpg as (Ho' & Hi' & Hocc' & Hg')%page_of_Some.
    rewrite <- Heq, (at_set_page_at _ _ _ pg _ Hi'), decide_True in Hi by done. injection Hi as <-.
    assert (membership s' k p = h) as Hm by (destruct h, (membership s' k p); cbn in *; congruence).
    specialize (Hb p pg Hp Hlt). rewrite Hm in Hb. specialize (Hb Hpg). cbn. lia.
  - rewrite (page_of_other _ h (membership s' k p) pg) in Hpg' by done. by apply Hb.
Qed.

Lemma protect_checkpoint_post k b done s' :
  address_at s k = Some b -> protected_below s' done ->
  post (protect_checkpoint k b) s' (fun s'' _ => protected_below s'' (done ++ [(k, b)])) (fun _ _ => False).
Proof.
  intros Hb [Hs' Hdone]. unfold protect_checkpoint.
  pose proof (si_address _ _ Hc _ _ Hb) as Hok. pose proof (ao_count _ _ _ Hok). pose proof (ao_frontier _ _ _ Hok).
  assert (forall s'', reprotected s'' -> checkpoint_frontier b = 0 -> protected_for s'' k b) as Hzero.
  { intros s'' _ Hz p pg Hp Hlt. unfold kPagedKVPageSize in *. lia. }
  assert (forall s'', protected_below s'' done -> protected_for s'' k b -> protected_below s'' (done ++ [(k, b)])) as Hsnoc.
  { intros s'' [? Hd] Hk. split; [done|]. intros k' b' [Hin|[= -> ->]%list_elem_of_singleton]%elem_of_app; [by apply Hd|done]. }
  destruct (ad_occupied b) eqn:Hocc; cbn [negb orb].
  2: { apply post_ret, Hsnoc; [done|]. apply Hzero; [done|]. pose proof (ao_idle _ _ _ Hok Hocc). lia. }
  destruct (Z.eqb_spec (checkpoint_frontier b) 0) as [Hz|Hz].
  { apply post_ret, Hsnoc; [done|]. by apply Hzero. }
  pose proof (pages_for_tokens_pos (checkpoint_frontier b) ltac:(lia)).
  pose proof (pages_for_tokens_le (checkpoint_frontier b) (page_count b) ltac:(lia) ltac:(lia) ltac:(lia)).
  apply post_throw_if; [lia|intros _].
  set (upto n := set_extent (page_count b) (frontier b) (Z.min (checkpoint_frontier b) (kPagedKVPageSize * n)) b).
  eapply post_weaken;
    [apply (for_pages_post _ _ _ (fun n s'' => protected_below s'' done /\ protected_for s'' k (upto n)))|].
  - unfold kPagedKVPageSize in *. lia.
  - split; [done|]. intros p pg Hp Hlt. cbn [checkpoint_frontier upto set_extent] in Hlt. unfold kPagedKVPageSize in *. lia.
  - clear s' Hs' Hdone. intros p s' Hp [[Hs' Hdone] Hpages].
    destruct (reprotected_member s' k b p Hs' Hb ltac:(lia)) as (pg & n & Hpg & Hm & Hpg' & Hcm).
    pose proof (ao_cover _ _ _ Hok p pg ltac:(lia)) as Hcov.
    eapply post_eq; [reflexivity|]. rewrite Hm, page_columns by (unfold kPagedKVPageSize in *; lia).
    set (c := Z.min _ _). assert (0 <= c <= committed_columns_ pg) as Hcc.
    { unfold c, kPagedKVPageSize in *. specialize (Hcov ltac:(lia) Hpg). lia. }
    set (q := set_protection n pg) in *.
    assert (0 <= protected_columns_ q <= committed_columns_ q) as Hq.
    { destruct Hs' as (S' & -> & Hkv & _). cbn [sp_pages set_sp_pages] in Hpg'.
      pose proof (po_cover _ (page_of_ok _ _ _ (kv_desc _ _ _ Hkv) Hpg')). lia. }
    change (committed_columns_ pg) with (committed_columns_ q) in *.
    eapply post_end.
    { unfold on_pages. rewrite (protect_coverage_eq _ _ _ Hpg') by lia. reflexivity. }
    set (m := Z.max _ _).
    change (set_content (content_epoch_ q) (committed_columns_ q) m q) with (set_protection m q).
    split; [split|].
    + apply reprotected_write; [done..|lia].
    + intros k' b' Hin. apply protected_for_write; [done|lia|by apply Hdone].
    + intros p' pg2 Hp' Hlt Hpg2. cbn [checkpoint_frontier upto set_extent] in *.
      destruct (decide (p' = p)) as [->|Hne].
      * cbn [sp_pages set_sp_pages] in Hpg2. change (membership (set_sp_pages _ s') k p) with (membership s' k p) in Hpg2.
        rewrite Hm in Hpg2. rewrite (page_of_write _ _ q (set_protection m q)) in Hpg2 by (done || apply (proj1 (page_of_Some _ _ _) Hpg')).
        injection Hpg2 as <-. cbn. unfold c, kPagedKVPageSize in *. lia.
      * pose proof (protected_for_write s' k (upto p) _ q m Hpg' ltac:(lia) Hpages p' pg2 Hp') as Hold.
        cbn [checkpoint_frontier upto set_extent] in Hold. unfold kPagedKVPageSize in *.
        specialize (Hold ltac:(lia) Hpg2). lia.
  - intros s'' _ [Hbelow Hpages]. apply Hsnoc; [done|]. intros p pg Hp Hlt Hpg.
    specialize (Hpages p pg Hp). cbn [checkpoint_frontier upto set_extent] in Hpages.
    unfold kPagedKVPageSize in *. specialize (Hpages ltac:(lia) Hpg). lia.
Qed.
End rebuild.

(** [rebuild_checkpoint_protection] as a whole. *)
Lemma rebuild_spec s H :
  core s H ->
  exists S', rebuild_checkpoint_protection s = (set_sp_pages S' s, Ok tt) /\ protect_only (sp_pages s) S' /\
    spaces_inv (set_sp_pages S' s) H.
Proof.
  intros Hc.
  assert (post (
    _ ← for_each (indexed_addresses s) (fun '(i, a) => clear_checkpoint i a);
    for_each (indexed_addresses s) (fun '(i, a) => protect_checkpoint i a)) s
    (fun s' _ => protected_below s H s' (indexed_addresses s)) (fun _ _ => False)) as Hpost.
  { eapply post_bind.
    - apply (for_each_post _ _ (fun _ => reprotected s H)); [by apply reprotected_start|].
      intros done [k b] rest s' Hl Hs'. apply (clear_checkpoint_post s H Hc); [|done].
      apply indexed_addresses_elem. rewrite Hl, elem_of_app. right. by left.
    - intros s' [] Hs'. apply (for_each_post _ _ (fun done s'' => protected_below s H s'' done)).
      + split; [done|]. by intros k b Hin%not_elem_of_nil.
      + intros done [k b] rest s'' Hl Hs''. apply (protect_checkpoint_post s H Hc); [|done].
        apply indexed_addresses_elem. rewrite Hl, elem_of_app. right. by left. }
  apply post_returns in Hpost as (s' & [] & Heq & (S' & -> & Hkv & Hp) & Hall).
  exists S'. split_and!; [|done|split].
  - unfold rebuild_checkpoint_protection, noexcept. cbv [mget mbind M_bind] in *. by rewrite Heq.
  - apply (core_alike s H S' (hd_res H)) in Hc; [by destruct H|done|by apply protect_only_alike].
  - intros k b Hb. apply Hall. unfold indexed_addresses. apply elem_of_lookup_imap.
    apply at_index_Some in Hb as [Hk Hb]. exists (Z.to_nat k), b. by rewrite Z2Nat.id.
Qed.
