(* ===== verification/KVAddressOps.v ===== *)
(** * Address spaces: creation, checkpoints, growth entitlements

    The operations that change an address but not the pages it has.  Each lemma says what the call
    does to the invariant and that a call that throws leaves everything as it was. *)

From S2P Require Import Prelude Post Extents Tensor KVGeometry DevicePagePool DevicePoolInvariant DevicePoolOps ExecutionTables KVPages KVPagesInvariant KVPagesSpec KVAddress KVAddressPages KVAddressInvariant KVAddressUpdate KVAddressProtect.
Import LogicalKVPageStore KVAddressSpaceStore.

(** A throw that leaves the state alone. *)
Definition unchanged {S} (s : S) : S -> exn -> Prop := fun s' e => s' = s /\ e <> Terminate.

Lemma unchanged_throw {S} (s : S) e : e <> Terminate -> unchanged s s e.
Proof. done. Qed.

#[export] Hint Resolve unchanged_throw : core.

Lemma post_noexcept {S A} (m : M S A) s Q E : post m s Q (fun _ _ => False) -> post (noexcept m) s Q E.
Proof. unfold post, noexcept. by destruct (m s) as [s' [a|e]]. Qed.

(** ** Handles and addresses *)

Lemma post_require {B} h (k : Address -> M Spaces B) s Q (E : Spaces -> exn -> Prop) :
  E s InvalidArgument -> (forall a, address_of s h = Some a -> post (k a) s Q E) -> post (require h ≫= k) s Q E.
Proof.
  intros He Hk. unfold require. unfold post in *. cbv [mbind M_bind mget mret M_ret mthrow] in *.
  destruct (address_of s h) as [a|]; [by apply Hk|done].
Qed.

Lemma post_require_active {B} h (k : Address -> M Spaces B) s Q (E : Spaces -> exn -> Prop) :
  E s InvalidArgument -> E s LogicError ->
  (forall a, address_of s h = Some a -> is_active_address a = true -> post (k a) s Q E) ->
  post (require_active h ≫= k) s Q E.
Proof.
  intros He He' Hk. unfold require_active. apply post_assoc, post_require; [done|]. intros a Ha.
  apply post_assoc, post_throw_if; [done|]. intros Hact%negb_false_iff. by apply (Hk a).
Qed.

Lemma post_address {B} j a (k : Address -> M Spaces B) s Q E :
  address_at s j = Some a -> post (k a) s Q E -> post (get_address j ≫= k) s Q E.
Proof. intros Ha. apply post_eq. unfold get_address. cbv [mbind M_bind mget mret M_ret]. by rewrite Ha. Qed.

Lemma modify_address_eq j a f s :
  address_at s j = Some a ->
  modify_address j f s = (set_addresses (set_index (addresses_ s) j (f a)) s, Ok tt).
Proof.
  intros Ha. unfold modify_address, get_address, put_address.
  cbv [mbind M_bind mget mret M_ret mmodify]. by rewrite Ha.
Qed.

Lemma address_of_at s h a : address_of s h = Some a -> address_at s (ah_index h) = Some a.
Proof. by intros (_ & ? & _)%address_of_Some. Qed.

Lemma address_of_occupied s h a : address_of s h = Some a -> ad_occupied a = true.
Proof. by intros (_ & _ & ? & _)%address_of_Some. Qed.

Lemma active_address_flag a : is_active_address a = true -> ad_active a = true.
Proof. unfold is_active_address. by destruct (ad_active a). Qed.

(** Inside the invariant the active flag tells whether an address is bound. *)
Lemma is_bound_active s H j a : core s H -> address_at s j = Some a -> is_bound a = ad_active a.
Proof.
  intros Hc Ha. pose proof (si_address _ _ Hc _ _ Ha) as Hok. unfold is_bound.
  destruct (ad_active a) eqn:Hact; [done|]. by destruct (ao_unbound _ _ _ Hok Hact) as [-> ->].
Qed.

Lemma is_active_address_active s H j a :
  core s H -> address_at s j = Some a -> is_active_address a = ad_active a.
Proof.
  intros Hc Ha. pose proof (si_address _ _ Hc _ _ Ha) as Hok. unfold is_active_address.
  destruct (ad_active a) eqn:Hact; [|done]. by destruct (ao_bound _ _ _ Hok Hact) as (-> & -> & _).
Qed.

(** ** Creation *)

(** A new address: no pages, inactive. *)
Definition new_address (s : Spaces) (h : KVAddressSpaceHandle) : Prop :=
  exists a, address_of s h = Some a /\ page_count a = 0 /\ frontier a = 0 /\ ad_active a = false.

Lemma create_inactive_post s H :
  spaces_inv s H ->
  post create_inactive s (fun s' x => spaces_inv s' H /\
    match x with
    | Some h => new_address s' h /\ sp_free_count s' = sp_free_count s - 1
    | None => s' = s /\ sp_free_count s = 0
    end) (fun _ _ => False).
Proof.
  intros [Hc Hp]. unfold create_inactive. apply post_get.
  pose proof (si_free _ _ Hc) as Hfo. destruct Hfo as [Hfl Hfn Hfd Hff]. pose proof (si_size _ _ Hc).
  destruct (Z.eqb_spec (sp_free_count s) 0) as [Hz|Hz]; [by apply post_ret|].
  rewrite w32_small by lia. set (n := sp_free_count s - 1) in *.
  destruct (at_index_is_Some (sp_free s) n) as [i Hi]; [lia|]. rewrite Hi.
  assert (free_addresses s = take (Z.to_nat n) (sp_free s) ++ [i]) as Hst.
  { unfold free_addresses. replace (Z.to_nat (sp_free_count s)) with (S (Z.to_nat n)) by lia.
    apply at_index_Some in Hi as [_ Hi]. by apply take_S_r. }
  assert (i ∈ free_addresses s) as (a & Ha & Hocc)%Hff.
  { rewrite Hst. apply elem_of_app. right. by left. }
  pose proof (si_address _ _ Hc _ _ Ha) as Hok. destruct (ao_idle _ _ _ Hok Hocc) as (Hcnt & Hfr & Hact).
  apply (post_address _ a); [done|]. rewrite Hocc.
  apply post_put. eapply post_eq; [reflexivity|]. apply post_ret.
  set (a' := set_occupied true a). set (s' := set_addresses _ _).
  pose proof (at_index_lt _ _ _ Ha) as Hilt.
  assert (forall k, address_at s' k = if decide (k = i) then Some a' else address_at s k) as Hat.
  { intros k. exact (set_addresses_at s i a' k Hilt). }
  rewrite Hst in Hfd. apply NoDup_app in Hfd as (Hnd & Hni & _).
  assert (core s' H) as Hc'.
  { apply (core_address s H s' H i a a'); try done.
    - intros [? ? ? ? ? ? ? ? ? ?]. by split.
    - split; cbn [sp_free sp_free_count set_sp_free set_addresses s' addresses_]; rewrite ?length_set_index; [done|lia|done|].
      intros k. change (free_addresses s') with (take (Z.to_nat n) (sp_free s)). rewrite Hat.
      pose proof (Hff k) as Hk. rewrite Hst, elem_of_app, list_elem_of_singleton in Hk. case_decide as Hki.
      + subst k. split; [|intros (b & [= <-] & ?); done]. intros Hin. exfalso. apply (Hni _ Hin). by left.
      + rewrite <- Hk. split; [by left|]. intros [?|?]; [done|congruence].
    - apply store_alike_refl.
    - by apply (reservations_same s H s' i a a').
    - by apply (rows_same s H s' i a a'). }
  split; [split; [done|]|split; [|done]].
  - apply (protected_same s); try done. intros k b'. rewrite Hat. case_decide; [|by eauto].
    intros [= <-]. subst k. by exists a.
  - exists a'. split_and!; try done. apply address_of_Some. cbn [ah_owner ah_index ah_generation].
    by rewrite Hat, decide_True.
Qed.

(** ** Checkpoint requirements *)

Lemma set_checkpoint_requirement_post s H h front :
  spaces_inv s H -> 0 <= front ->
  post (set_checkpoint_requirement h front) s (fun s' _ => spaces_inv s' H) (unchanged s).
Proof.
  intros [Hc Hp] Hf. unfold set_checkpoint_requirement. apply post_require; [done|]. intros a Ha.
  apply post_throw_if; [done|]. intros Hle. bool_facts. pose proof (address_of_at _ _ _ Ha) as Hat.
  eapply post_eq; [reflexivity|]. set (a' := set_extent _ _ _ a). set (s' := set_addresses _ _).
  assert (core s' H) as Hc'.
  { apply (core_address s H s' H (ah_index h) a a'); try done.
    - intros [? ? ? ? ? ? ? ? ? ?]. split; cbn; try done; lia.
    - eapply free_ok_same; [apply (si_free _ _ Hc)|exact Hat|done..].
    - apply store_alike_refl.
    - by apply (reservations_same s H s' (ah_index h) a a').
    - by apply (rows_same s H s' (ah_index h) a a'). }
  destruct (rebuild_spec s' H Hc') as (S' & Heq & _ & Hinv). by apply (post_end _ _ _ _ _ _ Heq).
Qed.

(** ** Reservations *)

Lemma store_alike_physical p S : store_alike S (set_physical p S).
Proof. split; [done..|]. intros i pg Hi. exists pg. split; [done|left; apply page_alike_refl]. Qed.

Lemma set_sp_pages_same s : set_sp_pages (sp_pages s) s = s.
Proof. by destruct s. Qed.

(** Resizing the reservation in front. *)
Lemma resize_device s r rest n :
  kv_inv (sp_pages s) (r :: rest) [] -> 0 <= n <= u32_max ->
  match on_device (resize_reservation r n) s with
  | (s', Ok r') => exists p, s' = set_sp_pages (set_physical p (sp_pages s)) s /\
      kv_inv (set_physical p (sp_pages s)) (r' :: rest) [] /\ rs_pages r' = n
  | (s', Throw e) => s' = s /\ e = BadAlloc
  end.
Proof.
  intros Hkv Hn. pose proof (resize_call _ _ 0 r n Hkv eq_refl Hn) as Hcall.
  pose proof (resize_spec _ _ _ n (phys_owned _ _ 0 r _ (kv_phys_nil _ _ Hkv) eq_refl) Hn) as Hspec.
  unfold on_device, on_pages, on_pool in *.
  destruct (resize_reservation r n (physical_ (sp_pages s))) as [p [r'|e]].
  - destruct Hcall as [Hkv' _]. destruct Hspec as (_ & Hr' & _). by exists p.
  - destruct Hcall as [Heq _], Hspec as (_ & -> & _). by rewrite Heq, set_sp_pages_same.
Qed.

(** Destroying the reservation in front. *)
Lemma destroy_reservation_eq s r rest :
  kv_inv (sp_pages s) (r :: rest) [] ->
  exists p, destroy_reservation r s = (set_sp_pages (set_physical p (sp_pages s)) s, Ok tt) /\
    on_device (reservation_release r) s = (set_sp_pages (set_physical p (sp_pages s)) s, Ok null_reservation) /\
    kv_inv (set_physical p (sp_pages s)) rest [].
Proof.
  intros Hkv. pose proof (kv_phys_nil _ _ Hkv) as Hp.
  pose proof (phys_owned _ _ 0 r _ Hp eq_refl) as Hown.
  destruct (owned_bounds _ _ _ Hown) as (? & ? & ? & ? & ?).
  destruct Hp as [Hpool Ho Hr Ha Hok Hnd]. apply Forall_cons in Ho as [[Hro Hrn] Ho].
  assert (exists p, reservation_release r (physical_ (sp_pages s)) = (p, Ok null_reservation) /\
    phys_inv p rest (store_leases (sp_pages s))) as (p & Heq & Hp').
  { unfold reservation_release, release_reservation. unfold_M. rewrite bool_decide_eq_false_2 by congruence.
    change (sum_with rs_pages (r :: rest)) with (rs_pages r + sum_with rs_pages rest) in Hr.
    destruct (Z.ltb_spec (reserved_pages (physical_ (sp_pages s))) (rs_pages r)); [lia|].
    rewrite w32_small by lia. eexists. split; [done|].
    split; cbn [reserved_pages set_counts allocated_pages pool_self]; try done; [|lia].
    apply set_counts_inv; [done|lia|lia]. }
  exists p. unfold destroy_reservation, on_device, on_pages, on_pool. cbv [mbind M_bind mret M_ret].
  rewrite Heq. split_and!; [done|done|]. split; [by rewrite app_nil_r|]. apply desc_inv_physical, Hkv.
Qed.

Section resize.
Context (s : Spaces) (H : Holders) (Hinv : spaces_inv s H).

Lemma resize_address_post j a n :
  address_at s j = Some a -> ad_active a = true -> 0 <= n -> page_count a + n <= page_capacity_ s ->
  post (resize_address_reservation j n) s (fun s' _ => spaces_inv s' H) (unchanged s).
Proof.
  destruct Hinv as [Hc Hp]. intros Ha Hact Hn Hcap. unfold resize_address_reservation.
  apply (post_address _ a); [done|]. pose proof (si_capacity_pos _ _ Hc).
  pose proof (si_address _ _ Hc _ _ Ha) as Hok. pose proof (ao_count _ _ _ Hok).
  destruct (address_reservation s H j a Hc Ha Hact) as (rest & Hkv & Hback).
  pose proof (resize_device s _ _ n Hkv ltac:(lia)) as Hres.
  unfold post in *. cbv [mbind M_bind].
  destruct (on_device (resize_reservation (ad_reservation a) n) s) as [s1 [r'|e]].
  2: { by destruct Hres as [-> ->]. }
  destruct Hres as (p & -> & Hkv' & Hr').
  set (s1 := set_sp_pages _ s) in *. assert (address_at s1 j = Some a) as Ha1 by done.
  rewrite (modify_address_eq j a _ s1 Ha1). set (a' := set_binding r' _ _ a). set (s' := set_addresses _ s1).
  destruct (known_reservation _ _ _ r' Hkv') as [Hv' _]; [by left|].
  split.
  - apply (core_address s H s' H j a a'); try done.
    + intros [? ? ? ? Hb Hu ? ? ? ?]. split; cbn; try done; [|congruence].
      intros _. destruct (Hb Hact) as (? & ? & _). split_and!; [done|done|lia].
    + eapply free_ok_same; [apply (si_free _ _ Hc)|exact Ha|done..].
    + apply store_alike_physical.
    + eapply kv_inv_reservations; [|exact Hkv']. by apply (Hback s' a').
    + by apply (rows_same s H s' j a a').
  - apply (protected_same s); try done. intros k b'. change (address_at s' k) with (address_at (set_addresses (set_index (addresses_ s) j a') s) k).
    rewrite (set_addresses_at s) by by apply at_index_lt in Ha. case_decide; [|by eauto].
    intros [= <-]. subst k. by exists a.
Qed.

Lemma resize_entitlement_post h n :
  post (resize_entitlement h n) s (fun s' _ => spaces_inv s' H) (unchanged s).
Proof.
  unfold resize_entitlement. apply post_require_active; [done..|]. intros a Ha Hact.
  apply post_get, post_throw_if; [done|]. intros Hg. bool_facts.
  apply (resize_address_post _ a); [by apply address_of_at|by apply active_address_flag|lia|lia].
Qed.

Lemma release_growth_entitlement_post h :
  post (release_growth_entitlement h) s (fun s' _ => spaces_inv s' H) (unchanged s).
Proof.
  unfold release_growth_entitlement. apply post_require_active; [done..|]. intros a Ha Hact.
  pose proof (address_of_at _ _ _ Ha) as Hat.
  pose proof (ao_count _ _ _ (si_address _ _ (proj1 Hinv) _ _ Hat)).
  apply (resize_address_post _ a); [done|by apply active_address_flag|lia|lia].
Qed.
End resize.

(** ** What changes only counters of the pool and rows of the tables *)

(** Addresses, memberships and pages stay as they are. *)
Record quiet (s s' : Spaces) : Prop := {
  qt_self : sp_self s' = sp_self s;
  qt_addresses : addresses_ s' = addresses_ s;
  qt_members : memberships_ s' = memberships_ s;
  qt_capacity : page_capacity_ s' = page_capacity_ s;
  qt_store : st_self (sp_pages s') = st_self (sp_pages s);
  qt_pages : pages_ (sp_pages s') = pages_ (sp_pages s);
}.

#[export] Instance quiet_preorder : PreOrder quiet.
Proof. split; [by split|]. intros x y z [] []. split; congruence. Qed.

(** A throw after which nothing but those counters may differ. *)
Definition undone (s : Spaces) (H : Holders) : Spaces -> exn -> Prop := fun s' e =>
  spaces_inv s' H /\ quiet s s' /\ e <> Terminate.

Lemma undone_throw s H e : spaces_inv s H -> e <> Terminate -> undone s H s e.
Proof. intros Hinv He. split_and!; [done|reflexivity|done]. Qed.

Lemma core_tables s H t W :
  core s H -> rows_ok t (W ++ addr_rows s) -> page_capacity t = page_capacity (sp_tables s) ->
  core (set_sp_tables t s) (with_rows W H).
Proof.
  intros [] Hrows Hcap. split; try done; [by cbn; congruence|by destruct si_free|].
  intros j a Ha. apply (address_ok_frame s); [by apply si_address|done..|]. intros h pg Hpg _. by exists pg.
Qed.

Lemma quiet_protected s s' : quiet s s' -> checkpoints_protected s -> checkpoints_protected s'.
Proof.
  intros [] Hp. apply (protected_same s); try done. intros k b. unfold address_at. rewrite qt_addresses0. eauto.
Qed.

Lemma quiet_physical p s : quiet s (set_sp_pages (set_physical p (sp_pages s)) s).
Proof. by split. Qed.

Lemma quiet_tables t s : quiet s (set_sp_tables t s).
Proof. by split. Qed.

(** New and destroyed reservations of clients. *)
Lemma spaces_physical s H p R :
  spaces_inv s H -> kv_inv (set_physical p (sp_pages s)) (R ++ addr_res s) [] ->
  spaces_inv (set_sp_pages (set_physical p (sp_pages s)) s) (with_res R H).
Proof.
  intros [Hc Hp] Hkv. split; [|by apply (quiet_protected s); [apply quiet_physical|]].
  apply core_alike; [done|done|apply store_alike_physical].
Qed.

Lemma empty_reservation_inv S R : kv_inv S R [] -> kv_inv S (make_empty_reservation (physical_ S) :: R) [].
Proof.
  intros [[] Hd]. split; [|done]. split; try done. by constructor.
Qed.

(** Destroying what a client holds in front. *)
Lemma drop_reservation s H r R :
  spaces_inv s (with_res (r :: R) H) ->
  exists s', destroy_reservation r s = (s', Ok tt) /\ spaces_inv s' (with_res R H) /\ quiet s s'.
Proof.
  intros Hinv. destruct (destroy_reservation_eq s r (R ++ addr_res s)) as (p & Heq & _ & Hkv).
  { apply (si_pages _ _ (proj1 Hinv)). }
  eexists. split; [exact Heq|]. split; [|apply quiet_physical].
  exact (spaces_physical s (with_res (r :: R) H) p R Hinv Hkv).
Qed.

Lemma drop_row s H x W :
  spaces_inv s (with_rows (x :: W) H) ->
  exists s', release_row_lease x s = (s', Ok tt) /\ spaces_inv s' (with_rows W H) /\ quiet s s'.
Proof.
  intros [Hc Hp]. destruct (release_rows _ _ _ (si_rows _ _ Hc)) as (Hr & Hcap & _).
  eexists. split; [reflexivity|]. split; [|apply quiet_tables].
  split; [|exact (quiet_protected _ _ (quiet_tables _ _) Hp)].
  exact (core_tables s (with_rows (x :: W) H) _ W Hc Hr Hcap).
Qed.

(** A row for a client. *)
Lemma take_row s H i :
  spaces_inv s H ->
  match on_tables (acquire i) s with
  | (s', Ok x) => spaces_inv s' (with_rows (x :: hd_rows H) H) /\ quiet s s'
  | (s', Throw e) => s' = s /\ e <> Terminate
  end.
Proof.
  intros [Hc Hp]. pose proof (acquire_rows _ _ i (si_rows _ _ Hc)) as Hacq. unfold on_tables.
  destruct (acquire i (sp_tables s)) as [t [x|e]].
  - destruct Hacq as (Hr & Hcap & _). split; [|apply quiet_tables].
    split; [|exact (quiet_protected _ _ (quiet_tables _ _) Hp)]. by apply core_tables.
  - destruct Hacq as [-> ?]. by destruct s.
Qed.
