(* ===== verification/KVAddressExclusive.v ===== *)
(** * Address spaces: writing a page that one address holds alone

    A page with one reference and no pin belongs to its address only, so its content may change as
    long as the address's frontier stays covered. *)

From S2P Require Import Prelude Post Extents Tensor KVGeometry DevicePagePool DevicePoolInvariant DevicePoolOps ExecutionTables KVPages KVPagesInvariant KVPagesSpec KVAddress KVAddressPages KVAddressInvariant KVAddressUpdate KVAddressProtect KVAddressOps.
Import LogicalKVPageStore KVAddressSpaceStore.

(** A change of content: the counts, the descriptor and the device replica stay. *)
Record same_counts (pg pg' : Page) : Prop := {
  sc_references : references pg' = references pg;
  sc_active : active_references pg' = active_references pg;
  sc_writer : writer_references_ pg' = writer_references_ pg;
  sc_pins : source_pins_ pg' = source_pins_ pg;
  sc_device : has (device_replica pg) = true -> has (device_replica pg') = true;
}.

Lemma same_counts_at s Q i pg pg' : same_counts pg pg' -> counts_at s Q i pg -> counts_at s Q i pg'.
Proof.
  intros [Sr Sa Sw Sp Sd] [Cr Ca Cp Cw Cd]. split; rewrite ?Sr, ?Sa, ?Sp, ?Sw; try done.
  intros Hpos. by apply Sd, Cd.
Qed.

(** Cuts keep the counts. *)
Lemma cut_content_counts n pg : same_counts pg (cut_content n pg).
Proof. unfold cut_content. by destruct (negb _). Qed.

Lemma cut_content_committed n pg : committed_columns_ (cut_content n pg) = n.
Proof. unfold cut_content. destruct (Z.eqb_spec n (committed_columns_ pg)); cbn [negb]; [congruence|done]. Qed.

Lemma cut_content_protected n pg : protected_columns_ (cut_content n pg) = protected_columns_ pg.
Proof. unfold cut_content. by destruct (negb _). Qed.

Section exclusive.
Context (s : Spaces) (H : Holders) (j : Z) (a : Address) (h : LogicalKVPageHandle) (pg pg' : Page).
Context (Hc : core s H) (Ha : address_at s j = Some a) (Hh : h ∈ members s j a).
Context (Hpg : page_of (sp_pages s) h = Some pg) (Hone : references pg = 1) (Hpin : source_pins_ pg = 0).
Context (Hstep : page_step pg pg') (Hsame : same_counts pg pg').

Definition written : Spaces := set_sp_pages (set_page_at (lh_index h) pg' (sp_pages s)) s.

Lemma written_page x q :
  page_of (sp_pages s) x = Some q ->
  page_of (sp_pages written) x = Some (if decide (lh_index x = lh_index h) then pg' else q).
Proof.
  intros Hq. cbn. case_decide as Hx.
  - pose proof (page_of_inj _ _ _ _ _ Hq Hpg Hx) as ->. eapply page_of_write; [exact Hpg|apply Hstep..].
  - by rewrite (page_of_other _ h x pg).
Qed.

(** The frontier of the address stays covered by the written page. *)
Definition written_cover : Prop :=
  forall p, 0 <= p -> kPagedKVPageSize * p < frontier a -> membership s j p = h ->
    Z.min kPagedKVPageSize (frontier a - kPagedKVPageSize * p) <= committed_columns_ pg'.

Lemma written_core : written_cover -> core written H.
Proof.
  intros Hcov. apply (core_update s written H H j Hc). pose proof Hc as [].
  pose proof (si_address _ _ Ha) as Hok. pose proof (ao_count _ _ _ Hok). pose proof (ao_frontier _ _ _ Hok).
  pose proof Hpg as (_ & Hi & Hocc & _)%page_of_Some. split; try done.
  - by eapply write_page_inv.
  - by destruct si_free.
  - intros a' Ha'. assert (a' = a) as -> by (change (address_at s j = Some a') in Ha'; congruence).
    destruct Hok as []. split; try done.
    + apply Forall_forall. intros x Hx. rewrite Forall_forall in ao_valid. destruct (ao_valid x Hx) as [q Hq].
      by rewrite (written_page x q Hq).
    + intros p q Hp Hlt Hq. change (membership written j p) with (membership s j p) in *.
      rewrite Forall_forall in ao_valid. destruct (ao_valid (membership s j p)) as [q0 Hq0].
      { apply elem_of_memberships. exists p. unfold kPagedKVPageSize in *. split; [lia|done]. }
      rewrite (written_page _ q0 Hq0) in Hq. case_decide as Hx; injection Hq as <-; [|by apply ao_cover].
      apply Hcov; [done..|]. exact (page_of_inj _ _ _ _ _ Hq0 Hpg Hx).
  - intros x q Hq Hheld. exists q. split; [|apply kept_refl]. rewrite (written_page x q Hq). case_decide as Hx; [|done].
    exfalso. pose proof (page_of_inj _ _ _ _ _ Hq Hpg Hx) as ->.
    by apply (exclusive_page s H H j a h pg Hc Ha Hh Hpg Hone Hpin).
  - intros i q Hq Hqo. cbn [sp_pages written set_sp_pages] in Hq. rewrite (at_set_page_at _ _ i pg _ Hi) in Hq.
    case_decide as Hx; [|by apply si_counts]. injection Hq as <-. subst i.
    eapply same_counts_at; [done|]. by apply si_counts.
  - intros q Hq Hqj. pose proof (proj1 (Forall_forall _ _) si_pins q Hq) as (b & Hb & Hpre & _).
    exists b. split; [exact Hb|]. by rewrite <- Hqj.
  - apply (pinned_writers s H _ Hc). intros x q Hq Hp _ Hw. rewrite (written_page x q Hq). eexists. split; [done|].
    case_decide as Hx; [|done]. pose proof (page_of_inj _ _ _ _ _ Hq Hpg Hx) as ->. rewrite Hpg in Hq. injection Hq as <-. lia.
Qed.

Lemma written_protected :
  protected_columns_ pg <= protected_columns_ pg' -> checkpoints_protected s -> checkpoints_protected written.
Proof.
  intros Hle Hp k b Hb p q Hn Hlt Hq. change (membership written k p) with (membership s k p) in *.
  change (address_at s k = Some b) in Hb. pose proof (si_address _ _ Hc _ _ Hb) as Hok.
  pose proof (ao_count _ _ _ Hok). pose proof (ao_frontier _ _ _ Hok).
  destruct (member_page s H k b (membership s k p) Hc Hb) as (q0 & Hq0 & _).
  { apply elem_of_memberships. exists p. unfold kPagedKVPageSize in *. split; [lia|done]. }
  rewrite (written_page _ q0 Hq0) in Hq. specialize (Hp k b Hb p q0 Hn Hlt Hq0).
  case_decide as Hx; injection Hq as <-; [|done].
  assert (q0 = pg) as -> by (rewrite (page_of_inj _ _ _ _ _ Hq0 Hpg Hx) in Hq0; congruence). lia.
Qed.
End exclusive.

(** The last page below a frontier, and the columns it covers. *)
Lemma tail_extent_eq front :
  0 < front <= u32_max ->
  tail_extent front (pages_for_tokens front) = front - kPagedKVPageSize * (pages_for_tokens front - 1) /\
  1 <= tail_extent front (pages_for_tokens front) <= kPagedKVPageSize.
Proof.
  intros Hf. pose proof (pages_for_tokens_pos front ltac:(lia)). pose proof (pages_for_tokens_nonneg front ltac:(lia)).
  unfold tail_extent, kPagedKVPageSize in *.
  assert (0 <= (pages_for_tokens front - 1) * 64 <= u32_max) by lia.
  rewrite (w32_small (_ * 64)), w32_small by lia. lia.
Qed.

(** Cutting the last page to the frontier covers it. *)
Lemma tail_covers s H j a front :
  core s H -> address_at s j = Some a -> frontier a = front -> 0 < front ->
  page_count a = pages_for_tokens front ->
  forall p, 0 <= p -> kPagedKVPageSize * p < frontier a ->
    membership s j p = membership s j (pages_for_tokens front - 1) ->
    Z.min kPagedKVPageSize (frontier a - kPagedKVPageSize * p) <= tail_extent front (pages_for_tokens front).
Proof.
  intros Hc Ha Hf Hpos Hcount p Hp Hlt Hm. pose proof (si_address _ _ Hc _ _ Ha) as Hok.
  pose proof (ao_frontier _ _ _ Hok). destruct (tail_extent_eq front) as [-> _]; [lia|].
  pose proof (pages_for_tokens_pos front Hpos). set (n := pages_for_tokens front) in *.
  assert (p = n - 1) as ->; [|lia]. unfold kPagedKVPageSize in *.
  pose proof (NoDup_lookup (indices (members s j a)) (Z.to_nat p) (Z.to_nat (n - 1)) (lh_index (membership s j p))
    (ao_distinct _ _ _ Hok)) as Hsame.
  unfold indices, members in Hsame. rewrite !list_lookup_fmap, !memberships_of_lookup in Hsame by lia.
  cbn in Hsame. rewrite Hm in Hsame. specialize (Hsame eq_refl eq_refl). lia.
Qed.
