(* ===== verification/KVAddressActivation.v ===== *)
(** * Address spaces: activation

    Activating an address gives it a row, a reservation for its growth and an active reference on
    each of its pages; it becomes the writer of the pages that it alone references.  The row and the
    reservation are prepared first and are the client's until the activation is committed. *)

From S2P Require Import Prelude Post Extents Tensor KVGeometry DevicePagePool DevicePoolInvariant DevicePoolOps ExecutionTables KVPages KVPagesInvariant KVPagesSpec KVAddress KVAddressPages KVAddressInvariant KVAddressUpdate KVAddressProtect KVAddressOps.
Import LogicalKVPageStore KVAddressSpaceStore.

(** ** Reading pages *)

Lemma missing_in_pure hs s :
  exists r, missing_in hs s = (s, r) /\ r <> Throw Terminate /\
    forall l, r = Ok l -> (length l <= length hs)%nat.
Proof.
  induction hs as [|h hs (r & IH & Hne & Hlen)]; cbn [missing_in].
  { exists (Ok []). split_and!; [done|done|]. by intros l [= <-]. }
  unfold ask, device_resident, LogicalKVPageStore.require. unfold_M. destruct (page_of (sp_pages s) h) as [pg|].
  2: { by exists (Throw InvalidArgument). }
  rewrite IH. destruct r as [l|e].
  - eexists. split; [done|]. split; [done|]. intros l' [= <-]. specialize (Hlen l eq_refl).
    destruct (has _); cbn; lia.
  - exists (Throw e). split_and!; [done|congruence|done].
Qed.

Lemma physical_pages_ok hs s R :
  kv_inv (sp_pages s) R [] ->
  Forall (fun h => exists pg, page_of (sp_pages s) h = Some pg /\ has (device_replica pg) = true) hs ->
  exists ps, physical_pages hs s = (s, Ok ps) /\ length ps = length hs /\
    Forall (fun p => valid_page (physical_ (sp_pages s)) p = true) ps.
Proof.
  intros Hkv. induction 1 as [|h hs (pg & Hpg & [x Hx]%has_Some) _ (ps & IH & Hlen & Hval)]; cbn [physical_pages].
  { by exists []. }
  exists (lease_handle x :: ps). unfold ask, physical, LogicalKVPageStore.require in *. unfold_M.
  rewrite Hpg, Hx, IH. split_and!; [done|cbn; congruence|]. constructor; [|done].
  pose proof (kv_phys_nil _ _ Hkv) as Hp. pose proof (ph_ok _ _ _ Hp) as Hok. rewrite Forall_forall in Hok.
  assert (lease_ok (physical_ (sp_pages s)) x = true) as Hl; [apply Hok|by apply andb_true_iff in Hl as [_ ?]].
  unfold store_leases. apply list_elem_of_bind. exists pg. split.
  - unfold page_leases. rewrite Hx. cbn. by left.
  - apply page_of_Some in Hpg as (_ & [_ Hi]%at_index_Some & _). by eapply list_elem_of_lookup_2.
Qed.

(** Publishing resident pages into a row that someone holds changes only the tables. *)
Lemma publish_row_quiet s H row b ps :
  spaces_inv s H -> row ∈ hd_rows H ++ addr_rows s ->
  Forall (fun p => valid_page (physical_ (sp_pages s)) p = true) ps ->
  0 <= b -> b + Z.of_nat (length ps) <= page_capacity_ s ->
  exists t, publish_row row b ps s = (set_sp_tables t s, Ok tt) /\ spaces_inv (set_sp_tables t s) H /\
    rows_ok t (hd_rows H ++ addr_rows s) /\ page_capacity t = page_capacity (sp_tables s).
Proof.
  intros [Hc Hp] Hrow Hps Hb Hlen. pose proof (si_capacity_pos _ _ Hc). pose proof (si_capacity _ _ Hc) as Hcap.
  destruct (publish_rows _ _ (physical_ (sp_pages s)) row b ps (si_rows _ _ Hc) Hrow Hps) as (t & up & Heq & Hok & Hcap' & _);
    [lia|lia|].
  exists t. split_and!.
  - unfold publish_row, on_tables. cbv [mbind M_bind mget mret M_ret]. by rewrite Heq.
  - split; [|exact (quiet_protected _ _ (quiet_tables t s) Hp)].
    pose proof (core_tables s H t (hd_rows H) Hc Hok Hcap') as Hc'. by destruct H.
  - done.
  - done.
Qed.

(** ** Preparing *)

(** What a prepared activation holds. *)
Definition activation_held (x : KVActivationReservation) (H : Holders) : Holders :=
  with_res (ac_page_reservation x :: hd_res H) (with_rows (option_list (ac_row x) ++ hd_rows H) H).

Lemma with_res_same H : with_res (hd_res H) H = H.
Proof. by destruct H. Qed.

Lemma with_rows_same H : with_rows (hd_rows H) H = H.
Proof. by destruct H. Qed.

Lemma spaces_empty_reservation s H :
  spaces_inv s H ->
  spaces_inv s (with_res (make_empty_reservation (physical_ (sp_pages s)) :: hd_res H) H).
Proof.
  intros [[] Hp]. split; [|done]. split; try done. by apply empty_reservation_inv.
Qed.

(** A client's reservation of [n] pages. *)
Lemma reserve_client s H n :
  spaces_inv s H -> 0 <= n <= u32_max ->
  match on_device (resize_reservation (make_empty_reservation (physical_ (sp_pages s))) n) s with
  | (s', Ok r) => spaces_inv s' (with_res (r :: hd_res H) H) /\ quiet s s' /\ rs_pages r = n
  | (s', Throw e) => s' = s /\ e <> Terminate
  end.
Proof.
  intros Hinv Hn. pose proof (spaces_empty_reservation s H Hinv) as Hinv'.
  pose proof (resize_device s _ _ n (si_pages _ _ (proj1 Hinv')) Hn) as Hres.
  destruct (on_device _ s) as [s' [r|e]].
  - destruct Hres as (p & -> & Hkv & Hr). split_and!; [|apply quiet_physical|done].
    exact (spaces_physical s _ p (r :: hd_res H) Hinv' Hkv).
  - by destruct Hres as [-> ->].
Qed.

Lemma prepare_activation_post s H h entitlement row front :
  spaces_inv s H -> 0 <= entitlement -> (forall f, front = Some f -> 0 <= f <= u32_max) ->
  post (prepare_activation h entitlement row front) s
    (fun s' x => spaces_inv s' (activation_held x H) /\ quiet s s' /\ has (ac_row x) = true) (undone s H).
Proof.
  intros Hinv Hent Hfront. unfold prepare_activation.
  assert (forall e, e <> Terminate -> undone s H s e) as Hun by (intros; by apply undone_throw).
  apply post_require; [by apply Hun|]. intros a Ha. apply post_throw_if; [by intros; apply Hun|]. intros _.
  apply post_get, post_throw_if; [by intros; apply Hun|]. intros Hcap. bool_facts.
  set (required_pages := match front with Some f => pages_for_tokens f | None => page_count a end).
  assert (0 <= required_pages) as Hreq.
  { unfold required_pages. destruct front as [f|]; [apply pages_for_tokens_nonneg; destruct (Hfront f eq_refl); lia|].
    apply (ao_count _ _ _ (si_address _ _ (proj1 Hinv) _ _ (address_of_at _ _ _ Ha))). }
  destruct (missing_in_pure (memberships_of s (ah_index h) required_pages) s) as (res & Hmiss & Hne & _).
  eapply post_pure; [exact Hmiss|intros e ->; apply Hun; congruence|]. intros missing _.
  set (growth := if _ <? _ then _ else 0).
  assert (0 <= growth) as Hg by (unfold growth; destruct (Z.ltb_spec required_pages entitlement); lia).
  apply post_throw_if; [by intros; apply Hun|]. intros Hmax. bool_facts.
  pose proof (reserve_client s H (Z.of_nat (length missing) + growth) Hinv ltac:(lia)) as Hres.
  unfold post. cbv [mbind M_bind]. destruct (on_device _ s) as [s1 [r|e]].
  2: { destruct Hres as [-> ?]. by apply Hun. }
  destruct Hres as (Hinv1 & Hq1 & _). pose proof (take_row s1 _ row Hinv1) as Hrow. unfold on_throw.
  destruct (on_tables (acquire row) s1) as [s2 [x|e]].
  - destruct Hrow as [Hinv2 Hq2]. split_and!; [exact Hinv2|by etransitivity|done].
  - destruct Hrow as [-> ?]. destruct (drop_reservation s1 H r (hd_res H) Hinv1) as (s3 & -> & Hinv3 & Hq3).
    split_and!; [by rewrite with_res_same in Hinv3|by etransitivity|done].
Qed.

Lemma destroy_activation_post s H x :
  spaces_inv s (activation_held x H) ->
  exists s', destroy_activation x s = (s', Ok tt) /\ spaces_inv s' H /\ quiet s s'.
Proof.
  intros Hinv. unfold destroy_activation. cbv [mbind M_bind].
  assert (exists s1, reset_row (ac_row x) s = (s1, Ok tt) /\
    spaces_inv s1 (with_res (ac_page_reservation x :: hd_res H) H) /\ quiet s s1) as (s1 & -> & Hinv1 & Hq1).
  { destruct (ac_row x) as [row|] eqn:Hrow; unfold activation_held in Hinv; rewrite Hrow in Hinv; cbn [reset_row].
    - apply (drop_row s (with_res (ac_page_reservation x :: hd_res H) H) row (hd_rows H)) in Hinv
        as (s1 & ? & Hinv1 & ?). exists s1. split_and!; [done|by destruct H|done].
    - exists s. split_and!; [done|by destruct H|reflexivity]. }
  destruct (drop_reservation s1 H _ (hd_res H) Hinv1) as (s2 & -> & Hinv2 & Hq2).
  exists s2. rewrite with_res_same in Hinv2. split_and!; [done|done|by etransitivity].
Qed.

(** ** Committing *)

(** What the checks of [commit_activation] establish. *)
Record activation_ready (s : Spaces) (x : KVActivationReservation) (a : Address) : Prop := {
  ar_address : address_of s (ac_address x) = Some a;
  ar_unbound : is_bound a = false;
  ar_row : has (ac_row x) = true;
  ar_capacity : ac_requested_entitlement x <= page_capacity_ s;
  ar_pages : rs_pages (ac_page_reservation x) = Z.max 0 (ac_requested_entitlement x - page_count a);
  ar_members : Forall (fun h => exists pg, page_of (sp_pages s) h = Some pg /\ has (device_replica pg) = true /\
    (references pg = 1 -> writer_references_ pg = 0 /\ source_pins_ pg = 0)) (members s (ah_index (ac_address x)) a);
}.

Lemma check_activation_post s x :
  post (check_activation x) s (fun s' _ => s' = s /\ exists a, activation_ready s x a) (unchanged s).
Proof.
  unfold check_activation. apply post_get. do 3 (apply post_throw_if; [auto|intros ?]).
  apply post_require; [auto|]. intros a Ha. do 2 (apply post_throw_if; [auto|intros ?]). bool_facts.
  match goal with |- post (for_each ?l ?check) s _ _ =>
    destruct (for_each_check l check s) as [[Heq Hall]|(h & e & Hh & He & Heq)] end.
  - intros h s'. unfold ask, device_resident, address_references, LogicalKVPageStore.require. unfold_M.
    destruct (page_of (sp_pages s') h) as [pg|]; [|done]. by destruct (_ || _).
  - unfold post. rewrite Heq. split; [done|]. exists a. split; try done.
    + match goal with H : _ = (if ?b then _ else _) |- _ => rewrite H; destruct b eqn:Hlt; bool_facts; lia end.
    + apply (Forall_impl _ _ _ Hall). intros h Hck. cbv beta in Hck.
      unfold ask, device_resident, address_references, can_set_writer, query, LogicalKVPageStore.require in Hck. unfold_M.
      destruct (page_of (sp_pages s) h) as [pg|]; [|done]. destruct (_ || _) eqn:Hg in Hck; [done|]. bool_facts.
      exists pg. split_and!; [done|done|]. intros Hr. rewrite Hr in *. cbn in *. bool_facts. done.
  - unfold post. rewrite Heq. split; [done|]. intros ->. revert He.
    unfold ask, device_resident, address_references, LogicalKVPageStore.require. unfold_M.
    destruct (page_of (sp_pages s) h) as [pg|]; [|done]. by destruct (_ || _).
Qed.

(** The change of one page: the address becomes active, and the writer of a page it alone references. *)
Definition activated (pg : Page) : Page :=
  if references pg =? 1
  then set_refs (references pg) (active_references pg + 1) 1
         (set_content (content_epoch_ pg) (committed_columns_ pg) 0 pg)
  else set_refs (references pg) (active_references pg + 1) (writer_references_ pg) pg.

Lemma activated_keeps : keeps_slot activated.
Proof. intros pg. unfold activated. by destruct (_ =? _). Qed.

Lemma activate_page_eq s h pg S :
  page_of S h = Some pg -> 0 <= active_references pg < references pg -> references pg <= u32_max ->
  (references pg = 1 -> writer_references_ pg = 0 /\ source_pins_ pg = 0) ->
  activate_page h (set_sp_pages S s) = (set_sp_pages (set_page_at (lh_index h) (activated pg) S) s, Ok tt).
Proof.
  intros Hpg Ha Hr Hone. unfold activate_page, ask, address_references, LogicalKVPageStore.require, activated.
  cbv [mbind M_bind]. cbn [sp_pages set_sp_pages]. rewrite Hpg. cbn [result_bind mret result_ret].
  pose proof (proj2 (proj2 (proj1 (page_of_Some _ _ _) Hpg))) as [Hocc _].
  destruct (Z.eqb_spec (references pg) 1) as [H1|H1].
  - destruct (Hone H1) as [Hw Hp].
    rewrite (on_pages_eq _ _ _ _ s (clear_protection_eq S h pg Hpg H1 Hp)).
    set (pg1 := set_content _ _ 0 pg).
    pose proof (page_of_write S h pg pg1 Hpg Hocc eq_refl) as Hpg1.
    rewrite (on_pages_eq _ _ _ _ s (set_writer_true_eq _ h pg1 Hpg1 Hw)). rewrite set_page_at_twice.
    set (pg2 := set_refs (references pg1) (active_references pg1) 1 pg1).
    pose proof (page_of_write S h pg pg2 Hpg Hocc eq_refl) as Hpg2.
    rewrite (on_pages_eq _ _ _ _ s (retain_active_reference_eq _ h pg2 Hpg2 Ha Hr)). by rewrite set_page_at_twice.
  - cbv [mret M_ret]. by rewrite (on_pages_eq _ _ _ _ s (retain_active_reference_eq _ h pg Hpg Ha Hr)).
Qed.

Lemma activated_step pg :
  page_ok pg -> occupied pg = true -> 0 <= active_references pg < references pg -> has (device_replica pg) = true ->
  (references pg = 1 -> writer_references_ pg = 0 /\ source_pins_ pg = 0) ->
  (writer_references_ pg = 1 -> references pg = 1) ->
  page_step pg (activated pg) /\ committed_columns_ pg <= committed_columns_ (activated pg) /\
  page_counts (references pg) (active_references pg + 1) (source_pins_ pg) (activated pg) /\
  (1 <= source_pins_ pg -> writer_references_ pg = 0 -> writer_references_ (activated pg) = 0).
Proof.
  intros Hok Hocc Ha Hdev Hone Hw. unfold activated. destruct (Z.eqb_spec (references pg) 1) as [H1|H1].
  - destruct (Hone H1). split_and!; [page_step_tac|cbn; lia| |cbn; lia]. split; cbn; try done; lia.
  - split_and!; [page_step_tac|cbn; lia| |done]. split; cbn; try done. intros Hw1. specialize (Hw Hw1). lia.
Qed.

(** The pages of an activated address can be published. *)
Lemma publish_membership_eq s H j a row :
  spaces_inv s H -> address_at s j = Some a -> ad_active a = true -> ad_row a = Some row ->
  exists t, publish_membership j s = (set_sp_tables t s, Ok tt) /\ spaces_inv (set_sp_tables t s) H.
Proof.
  intros Hinv Ha Hact Hrow. pose proof (proj1 Hinv) as Hc. unfold publish_membership, get_address.
  cbv [mbind M_bind mget mret M_ret]. rewrite Ha, Hrow.
  pose proof (ao_count _ _ _ (si_address _ _ Hc _ _ Ha)) as Hcnt.
  destruct (physical_pages_ok (members s j a) s _ (si_pages _ _ Hc)) as (ps & Hps & Hlen & Hval).
  { apply Forall_forall. intros h Hh. destruct (active_member_page s H j a h Hc Ha Hact Hh) as (pg & ? & _ & _ & _ & _ & ?).
    by exists pg. }
  change (memberships_of s j (page_count a)) with (members s j a). rewrite Hps.
  assert (row ∈ hd_rows H ++ addr_rows s) as Hin.
  { apply elem_of_app. right. unfold addr_rows. apply list_elem_of_bind. exists a. rewrite Hrow. split; [by left|].
    apply at_index_Some in Ha as [_ Ha]. by eapply list_elem_of_lookup_2. }
  destruct (publish_row_quiet s H row 0 ps Hinv Hin Hval) as (t & Heq & Hinv' & _).
  - lia.
  - rewrite Hlen. unfold members. rewrite memberships_of_length; lia.
  - by exists t.
Qed.

Lemma bind_activation_post s H x a :
  spaces_inv s (activation_held x H) -> activation_ready s x a ->
  exists s', bind_activation x s = (s', Ok tt) /\ spaces_inv s' H.
Proof.
  intros [Hc Hp] [Haddr Hunb Hrow Hcap Hpages Hmem]. set (j := ah_index (ac_address x)) in *.
  pose proof (address_of_at _ _ _ Haddr) as Ha. pose proof (address_of_occupied _ _ _ Haddr) as Hocc. fold j in Ha.
  pose proof (si_address _ _ Hc _ _ Ha) as Hok. pose proof (ao_count _ _ _ Hok) as Hcnt.
  assert (ad_active a = false) as Hact by (rewrite <- Hunb; symmetry; by eapply is_bound_active).
  destruct (ao_unbound _ _ _ Hok Hact) as [Hrow0 Hres0].
  destruct (ac_row x) as [row|] eqn:Hxrow; [|done]. set (r := ac_page_reservation x) in *.
  set (a' := set_extent (page_count a) (frontier a) 0 (set_binding r (Some row) true a)).
  set (hs := members s j a).
  set (s1 := set_addresses (set_index (addresses_ s) j a') (set_sp_pages (upd_pages hs activated (sp_pages s)) s)).
  assert (forall h pg, h ∈ hs -> page_of (sp_pages s) h = Some pg -> has (device_replica pg) = true /\
    0 <= active_references pg < references pg /\
    (references pg = 1 -> writer_references_ pg = 0 /\ source_pins_ pg = 0)) as Hpg.
  { intros h pg Hh Hpg. rewrite Forall_forall in Hmem. destruct (Hmem h Hh) as (pg' & Hpg' & Hd & Hw).
    rewrite Hpg in Hpg'. injection Hpg' as <-. split_and!; [done|..|done];
      by apply (inactive_member_counts s _ j a h pg Hc Ha Hact Hh). }
  destruct (known_reservation _ _ _ r (si_pages _ _ Hc)) as [Hrv Hrn]; [by left|].
  assert (core s1 H) as Hc1.
  { apply (core_members s (activation_held x H) s1 H j a a' activated); try done.
    - apply activated_keeps.
    - intros h pg Hh Hpgh Hpok Hcn. destruct (Hpg h pg Hh Hpgh) as (Hd & Hlt & Hw). rewrite Hact. cbn [flag a' set_extent set_binding ad_active].
      rewrite Z.sub_0_r. apply activated_step; try done; [by apply page_of_Some in Hpgh as (_ & _ & ? & _)|].
      intros Hw1. by destruct (pc_writer _ _ _ _ Hcn Hw1).
    - intros [? ? ? ? ? ? ? ? ? ?]. split; cbn; try done; [congruence|lia|]. intros _. split_and!; [done|done|].
      change (page_capacity_ s1) with (page_capacity_ s). lia.
    - destruct (addr_res_split s j a Ha) as (rest & Hr & Hr'). rewrite Hr, (Hr' s1 a' eq_refl). unfold res_of, activation_held.
      rewrite Hres0. cbn [ad_reservation a' set_extent set_binding reservation_valid null_reservation]. rewrite Hrv.
      cbn. symmetry. apply Permutation_middle.
    - destruct (addr_rows_split s j a Ha) as (rest & Hr & Hr'). rewrite Hr, (Hr' s1 a' eq_refl). unfold activation_held.
      rewrite Hrow0, Hxrow. cbn. symmetry. apply Permutation_middle. }
  assert (checkpoints_protected s1) as Hp1.
  { apply (protected_members s _ s1 j a a' activated Hc Ha activated_keeps eq_refl); [|by intros p pg Hn Hlt; unfold kPagedKVPageSize in *; cbn in Hlt; lia|done].
    intros h pg _ _ Hr. unfold activated. destruct (Z.eqb_spec (references pg) 1); [lia|]. cbn. lia. }
  assert (address_at s1 j = Some a') as Ha1.
  { rewrite (address_at_set s s1 j a a' j Ha eq_refl). by rewrite decide_True. }
  destruct (publish_membership_eq s1 H j a' row (conj Hc1 Hp1) Ha1 eq_refl eq_refl) as (t & Hpub & Hinv').
  exists (set_sp_tables t s1). split; [|done].
  unfold bind_activation. fold j. cbv [mbind M_bind]. rewrite (modify_address_eq j a _ s Ha), Hxrow. fold r a'.
  set (s0 := set_addresses _ s).
  assert (get_address j s0 = (s0, Ok a')) as ->.
  { unfold get_address. cbv [mbind M_bind mget mret M_ret].
    by rewrite (address_at_set s s0 j a a' j Ha eq_refl), decide_True by done. }
  cbn [mget]. change (memberships_of s0 j (page_count a')) with hs.
  rewrite (for_each_upd activate_page activated hs s0); [exact Hpub|apply (ao_distinct _ _ _ Hok)|].
  apply Forall_forall. intros h Hh. destruct (member_page s _ j a h Hc Ha Hh) as (pg & Hpgh & Hpok & _ & _).
  destruct (Hpg h pg Hh Hpgh) as (Hd & Hlt & Hw). exists pg. split; [done|]. intros S HS.
  apply activate_page_eq; try done. apply (po_refs _ Hpok).
Qed.

Lemma commit_activation_post s H x :
  spaces_inv s (activation_held x H) ->
  post (commit_activation x) s (fun s' _ => spaces_inv s' H) (unchanged s).
Proof.
  intros Hinv. unfold commit_activation. eapply post_bind; [apply check_activation_post|].
  intros s' [] [-> (a & Hready)].
  destruct (bind_activation_post s H x a Hinv Hready) as (s' & Heq & Hinv'). by apply (post_end _ _ _ _ _ _ Heq).
Qed.

Lemma activate_post s H h entitlement row :
  spaces_inv s H -> 0 <= entitlement ->
  post (activate h entitlement row) s (fun s' _ => spaces_inv s' H) (undone s H).
Proof.
  intros Hinv Hent. unfold activate.
  assert (forall e, e <> Terminate -> undone s H s e) as Hun by (intros; by apply undone_throw).
  apply post_require; [by apply Hun|]. intros a Ha. apply post_throw_if; [by intros; apply Hun|]. intros _.
  eapply post_bind; [apply (prepare_activation_post s H); [done|done|by intros]|].
  intros s1 x (Hinv1 & Hq & _). pose proof (check_activation_post s1 x) as Hck.
  unfold post in *. cbv [mbind M_bind]. unfold on_throw. destruct (check_activation x s1) as [s2 [[]|e]].
  - destruct Hck as [-> (b & Hready)]. destruct (bind_activation_post s1 H x b Hinv1 Hready) as (s3 & -> & ?). done.
  - destruct Hck as [-> He]. destruct (destroy_activation_post s1 H x Hinv1) as (s3 & -> & ? & ?).
    split_and!; [done|by etransitivity|done].
Qed.

(** ** Deactivating *)

Definition deactivated (pg : Page) : Page := set_refs (references pg) (active_references pg - 1) 0 pg.

Lemma deactivated_keeps : keeps_slot deactivated.
Proof. by intros pg. Qed.

Lemma deactivate_page_eq s h pg S :
  page_of S h = Some pg -> page_ok pg -> 0 < active_references pg ->
  deactivate_page h (set_sp_pages S s) = (set_sp_pages (set_page_at (lh_index h) (deactivated pg) S) s, Ok tt).
Proof.
  intros Hpg Hok Ha. unfold deactivate_page, ask, writer_references, LogicalKVPageStore.require, deactivated.
  pose proof (po_refs _ Hok). pose proof (po_writer _ Hok).
  cbv [mbind M_bind]. cbn [sp_pages set_sp_pages]. rewrite Hpg. cbn [result_bind mret result_ret].
  pose proof (proj2 (proj2 (proj1 (page_of_Some _ _ _) Hpg))) as [Hocc _].
  destruct (Z.eqb_spec (writer_references_ pg) 0) as [Hw|Hw]; cbn [negb].
  - cbv [mret M_ret]. rewrite (on_pages_eq _ _ _ _ s (release_active_reference_eq S h pg Hpg ltac:(lia))).
    by rewrite Hw.
  - rewrite (on_pages_eq _ _ _ _ s (set_writer_false_eq S h pg Hpg)). set (pg1 := set_refs _ _ 0 pg).
    pose proof (page_of_write S h pg pg1 Hpg Hocc eq_refl) as Hpg1.
    rewrite (on_pages_eq _ _ _ _ s (release_active_reference_eq _ h pg1 Hpg1 ltac:(cbn; lia))).
    by rewrite set_page_at_twice.
Qed.

(** The address gives up its pages' activity; its row and reservation become someone's to destroy. *)
Lemma deactivated_inv s H j a row :
  spaces_inv s H -> address_at s j = Some a -> ad_active a = true -> ad_row a = Some row ->
  spaces_inv (set_addresses (set_index (addresses_ s) j (set_binding null_reservation None false a))
      (set_sp_pages (upd_pages (members s j a) deactivated (sp_pages s)) s))
    (with_res (ad_reservation a :: hd_res H) (with_rows (row :: hd_rows H) H)).
Proof.
  intros [Hc Hp] Ha Hact Hrow. set (a' := set_binding _ _ _ a). set (s1 := set_addresses _ _).
  pose proof (si_address _ _ Hc _ _ Ha) as Hok. destruct (ao_bound _ _ _ Hok Hact) as (_ & Hrv & _).
  split.
  - apply (core_members s H s1 _ j a a' deactivated); try done.
    + intros h pg Hh Hpg Hpok Hcn. rewrite Hact. cbn [flag a' set_binding ad_active].
      destruct (active_member_page s H j a h Hc Ha Hact Hh) as (pg' & Hpg' & _ & _ & Hr & Hac & Hdev).
      rewrite Hpg in Hpg'. injection Hpg' as <-. pose proof Hpg as (_ & _ & Hocc & _)%page_of_Some.
      unfold deactivated. split_and!; [page_step_tac|cbn; lia| |done]. split; cbn; try done; lia.
    + intros [? Hidle ? ? ? ? ? ? ? ?]. split; cbn; try done. intros Ho. by destruct (Hidle Ho) as (? & ? & _).
    + destruct (addr_res_split s j a Ha) as (rest & Hr & Hr'). rewrite Hr, (Hr' s1 a' eq_refl). unfold res_of.
      rewrite Hrv. cbn. apply Permutation_middle.
    + destruct (addr_rows_split s j a Ha) as (rest & Hr & Hr'). rewrite Hr, (Hr' s1 a' eq_refl), Hrow. cbn.
      apply Permutation_middle.
  - apply (protected_members s H s1 j a a' deactivated Hc Ha deactivated_keeps eq_refl); [done| |done].
    intros p pg Hn Hlt Hpg. pose proof (ao_frontier _ _ _ Hok). pose proof (ao_count _ _ _ Hok).
    change (checkpoint_frontier a') with (checkpoint_frontier a) in *. unfold s1 in Hpg. cbn [sp_pages set_addresses set_sp_pages] in Hpg.
    change (membership _ j p) with (membership s j p) in Hpg.
    assert (membership s j p ∈ members s j a) as Hin.
    { apply elem_of_memberships. exists p. unfold kPagedKVPageSize in *. split; [lia|done]. }
    destruct (member_page s H j a _ Hc Ha Hin) as (pg0 & Hpg0 & _).
    rewrite (upd_pages_kept _ _ _ deactivated_keeps (ao_distinct _ _ _ Hok) (ao_valid _ _ _ Hok) _ pg0 Hpg0) in Hpg.
    injection Hpg as <-. specialize (Hp j a Ha p pg0 Hn Hlt Hpg0). by case_decide.
Qed.

(** What a deactivation leaves: an unbound address with the same pages, now inactive. *)
Record deactivated_as (s s' : Spaces) (h : KVAddressSpaceHandle) (a : Address) : Prop := {
  da_address : address_of s h = Some a;
  da_address' : address_at s' (ah_index h) = Some (set_binding null_reservation None false a);
  da_self : sp_self s' = sp_self s;
  da_length : length (addresses_ s') = length (addresses_ s);
  da_members : memberships_ s' = memberships_ s;
  da_capacity : page_capacity_ s' = page_capacity_ s;
  da_pages : forall x pg, x ∈ members s (ah_index h) a -> page_of (sp_pages s) x = Some pg ->
    page_of (sp_pages s') x = Some (deactivated pg);
}.

Definition not_active (s : Spaces) (h : KVAddressSpaceHandle) : Prop :=
  forall a, address_of s h = Some a -> ad_active a = false.

Lemma deactivate_post s H h :
  spaces_inv s H ->
  post (deactivate h) s (fun s' _ => spaces_inv s' H /\ exists a, deactivated_as s s' h a)
    (fun s' e => unchanged s s' e /\ not_active s h).
Proof.
  intros Hinv. pose proof (proj1 Hinv) as Hc. unfold deactivate, require_active, require.
  apply post_assoc, post_assoc, post_get. destruct (address_of s h) as [a|] eqn:Haddr.
  2: { split; [done|]. intros a. congruence. }
  apply post_assoc, post_throw_if.
  { intros Hact%negb_true_iff. split; [done|]. intros b Hb. assert (b = a) as -> by congruence.
    rewrite <- Hact. symmetry. by eapply is_active_address_active, address_of_at. }
  intros Hact%negb_false_iff%active_address_flag. pose proof (address_of_at _ _ _ Haddr) as Ha.
  eapply post_eq; [reflexivity|].
  set (j := ah_index h) in *. apply post_get. set (hs := members s j a).
  pose proof (si_address _ _ Hc _ _ Ha) as Hok.
  destruct (ao_bound _ _ _ Hok Hact) as ([row Hrow]%has_Some & Hrv & _).
  assert (forall x, x ∈ hs -> exists pg, page_of (sp_pages s) x = Some pg /\ page_ok pg /\ 0 < active_references pg) as Hmem.
  { intros x Hx. destruct (active_member_page s H j a x Hc Ha Hact Hx) as (pg & Hpg & Hpok & _ & _ & Hac & _).
    exists pg. split_and!; [done|done|lia]. }
  match goal with |- post (_ ← for_each _ ?check; _) s _ _ =>
    destruct (for_each_check hs check s) as [[Heq _]|(x & e & Hx & He & Heq)] end.
  { intros x s'. unfold ask, writer_references, LogicalKVPageStore.require. unfold_M.
    destruct (page_of (sp_pages s') x) as [pg|]; [|done]. by destruct (_ && _). }
  2: { exfalso. revert He. destruct (Hmem x Hx) as (pg & Hpg & Hpok & _). pose proof (po_writer _ Hpok).
       unfold ask, writer_references, can_set_writer, query, LogicalKVPageStore.require. unfold_M. rewrite Hpg.
       destruct (Z.eqb_spec (writer_references_ pg) 0), (Z.eqb_spec (writer_references_ pg) 1); done || lia. }
  eapply post_eq; [exact Heq|]. clear Heq.
  eapply post_eq.
  { apply (for_each_upd deactivate_page deactivated hs s); [apply (ao_distinct _ _ _ Hok)|].
    apply Forall_forall. intros x Hx. destruct (Hmem x Hx) as (pg & Hpg & Hpok & Hac).
    exists pg. split; [done|]. intros S HS. by apply deactivate_page_eq. }
  set (s1 := set_sp_pages _ s). rewrite Hrow. cbn [reset_row].
  pose proof (deactivated_inv s H j a row Hinv Ha Hact Hrow) as Hinv0. fold hs in Hinv0.
  set (a' := set_binding null_reservation None false a) in *. set (s0 := set_addresses _ _) in Hinv0.
  destruct (drop_row s0 (with_res (ad_reservation a :: hd_res H) H) row (hd_rows H) Hinv0) as (t1 & Ht1 & Hinv1 & _).
  injection Ht1 as <-. set (t1 := set_sp_tables _ s0) in *.
  eapply post_eq; [reflexivity|]. set (s2 := set_sp_tables _ s1).
  assert (address_at s2 j = Some a) as Ha2 by done.
  eapply post_eq; [by apply modify_address_eq|]. set (s3 := set_addresses _ s2).
  assert (Hkv1 := si_pages _ _ (proj1 Hinv1)).
  destruct (destroy_reservation_eq s3 (ad_reservation a) (hd_res H ++ addr_res t1) Hkv1) as (p' & _ & Hd3 & Hkv3).
  eapply post_eq; [exact Hd3|].
  set (a3 := set_binding (ad_reservation a) None (ad_active a) a).
  assert (address_at (set_sp_pages (set_physical p' (sp_pages s3)) s3) j = Some a3) as Ha3.
  { change (address_at s3 j = Some a3). rewrite (address_at_set s2 s3 j a a3 j Ha2 eq_refl). by rewrite decide_True. }
  eapply post_end; [by apply modify_address_eq|].
  assert (set_addresses (set_index (addresses_ s3) j a') (set_sp_pages (set_physical p' (sp_pages s3)) s3) =
    set_sp_pages (set_physical p' (sp_pages t1)) t1) as Hfinal.
  { unfold s3, t1, s0, s2, s1, set_addresses, set_sp_pages, set_sp_tables. cbn. unfold set_index. f_equal.
    by rewrite list_insert_insert_eq. }
  cbv beta. change (set_binding null_reservation None false a3) with a'.
  change (addresses_ (set_sp_pages _ s3)) with (addresses_ s3). rewrite Hfinal.
  pose proof (spaces_physical t1 _ p' (hd_res H) Hinv1 Hkv3) as Hinv2. split; [by destruct H|].
  exists a. split; try done.
  - change (address_at s0 j = Some a'). rewrite (address_at_set s s0 j a a' j Ha eq_refl). by rewrite decide_True.
  - apply length_set_index.
  - intros x pg Hx Hpg. change (page_of (upd_pages hs deactivated (sp_pages s)) x = Some (deactivated pg)).
    etransitivity; [exact (upd_pages_kept _ _ _ deactivated_keeps (ao_distinct _ _ _ Hok) (ao_valid _ _ _ Hok) x pg Hpg)|].
    by rewrite decide_True by by apply list_elem_of_fmap_2.
Qed.
