(* ===== verification/KVAddressGrowth.v ===== *)
(** * Address spaces: growth of an active address

    New pages come from the address's reservation; they are fresh descriptors that nobody references,
    so nothing else changes.  Committing a frontier covers the pages below it column by column. *)

From S2P Require Import Prelude Post Extents Tensor KVGeometry DevicePagePool DevicePoolInvariant DevicePoolOps ExecutionTables KVPages KVPagesInvariant KVPagesSpec KVAddress KVAddressPages KVAddressInvariant KVAddressUpdate KVAddressProtect KVAddressOps KVAddressExclusive KVAddressActivation.
Import LogicalKVPageStore KVAddressSpaceStore.

(** ** Free descriptors are in nobody's list *)

Section free.
Context (s : Spaces) (H : Holders) (Hc : core s H) (i : Z).
Context (Hfree : forall pg, at_index (pages_ (sp_pages s)) i = Some pg -> occupied pg = false).

Lemma free_not_member j a : address_at s j = Some a -> i ∉ indices (members s j a).
Proof.
  intros Ha (h & -> & Hh)%list_elem_of_fmap. destruct (member_page s H j a h Hc Ha Hh) as (pg & Hpg & _).
  apply page_of_Some in Hpg as (_ & Hi & Ho & _). specialize (Hfree pg Hi). congruence.
Qed.

Lemma free_count_refs : count_refs (view s) i = 0.
Proof.
  unfold count_refs. assert (forall v, v ∈ view s -> member_of i v.1 = 0) as Hz.
  { intros v [k Hk]%list_elem_of_lookup. rewrite view_lookup in Hk.
    apply fmap_Some in Hk as (a & Ha & Hv). rewrite Hv. apply member_of_out.
    apply (free_not_member (Z.of_nat k) a). unfold address_at. by rewrite at_index_nat. }
  revert Hz. generalize (view s). intros V. induction V as [|v V IH]; intros Hz; [done|].
  cbn. rewrite Hz by by left. cbn in IH. rewrite IH; [done|]. intros w Hw. apply Hz. by right.
Qed.

Lemma free_count_active : count_active (view s) i = 0.
Proof. pose proof (count_active_le (view s) i). pose proof free_count_refs. lia. Qed.

Lemma free_count_pins : count_pins (hd_pins H) i = 0.
Proof.
  unfold count_pins. assert (forall q, q ∈ hd_pins H -> member_of i (pin_pages q) = 0) as Hz.
  { intros q Hq. apply member_of_out. intros (h & Hi & Hh)%list_elem_of_fmap.
    destruct (pinned_member s H q h Hc Hq Hh) as (a & Ha & Hm).
    apply (free_not_member _ a Ha). rewrite Hi. by apply list_elem_of_fmap_2. }
  revert Hz. generalize (hd_pins H). intros V. induction V as [|v V IH]; intros Hz; [done|].
  cbn. rewrite Hz by by left. cbn in IH. rewrite IH; [done|]. intros w Hw. apply Hz. by right.
Qed.
End free.

(** ** Writing a slice of memberships *)

Lemma put_memberships_eq i hs : forall s p,
  0 <= i < Z.of_nat (length (addresses_ s)) ->
  Z.of_nat (length (memberships_ s)) = Z.of_nat (length (addresses_ s)) * page_capacity_ s ->
  0 <= p -> p + Z.of_nat (length hs) <= page_capacity_ s ->
  exists l, put_memberships i p hs s = (set_memberships l s, Ok tt) /\ length l = length (memberships_ s) /\
    forall k q, 0 <= q < page_capacity_ s -> membership (set_memberships l s) k q =
      if decide (k = i /\ p <= q < p + Z.of_nat (length hs))
      then default null_logical (hs !! Z.to_nat (q - p)) else membership s k q.
Proof.
  induction hs as [|h hs IH]; intros s p Hi Hl Hp Hlen.
  { exists (memberships_ s). split_and!; [by destruct s|done|]. intros k q Hq. rewrite decide_False; [by destruct s|].
    cbn. lia. }
  cbn [length] in Hlen. rewrite Nat2Z.inj_succ in Hlen.
  set (s1 := set_memberships (set_index (memberships_ s) (membership_index s i p) h) s).
  destruct (IH s1 (p + 1)) as (l & Heq & Hll & Hm).
  { done. } { change (memberships_ s1) with (set_index (memberships_ s) (membership_index s i p) h).
    by rewrite length_set_index. } { lia. } { change (page_capacity_ s1) with (page_capacity_ s). lia. }
  exists l. split_and!.
  - cbn [put_memberships]. cbv [mbind M_bind put_membership mmodify]. fold s1. rewrite Heq. done.
  - rewrite Hll. apply length_set_index.
  - intros k q Hq. change (set_memberships l s) with (set_memberships l s1). rewrite Hm by done.
    rewrite length_cons, Nat2Z.inj_succ. destruct (decide (k = i /\ q = p)) as [[-> ->]|Hne].
    + rewrite decide_False by lia. rewrite decide_True by lia.
      unfold s1. rewrite put_membership_same by done. by rewrite Z.sub_diag.
    + destruct (decide (k = i /\ p + 1 <= q < p + 1 + Z.of_nat (length hs))) as [Hin|Hin].
      * rewrite decide_True by lia. replace (Z.to_nat (q - p)) with (S (Z.to_nat (q - (p + 1)))) by lia. done.
      * rewrite decide_False by lia. unfold s1. apply put_membership_other; [lia|lia|lia|]. intros [= -> ->]. lia.
Qed.

(** ** The state with new pages *)

(** A page that [materialize] made, once its address is active on it. *)
Definition activate_fresh (pg : Page) : Page :=
  set_refs (references pg) (active_references pg + 1) (writer_references_ pg) pg.

Lemma activate_fresh_keeps : keeps_slot activate_fresh.
Proof. by intros pg. Qed.

Section grow.
Context (s s' : Spaces) (H : Holders) (j : Z) (a : Address) (added : list LogicalKVPageHandle) (S1 : Store)
  (r' : DeviceKVPageReservation) (rest : list DeviceKVPageReservation) (t : KVExecutionTablePool) (l : list LogicalKVPageHandle).
Context (Hc : core s H) (Ha : address_at s j = Some a) (Hact : ad_active a = true).
Context (Hkv : kv_inv S1 (r' :: rest) []) (Hev : evolves (sp_pages s) S1)
  (Hnew : bound_pages (sp_pages s) S1 fresh_page added).
Context (Hrest : forall s' a' r', addresses_ s' = set_index (addresses_ s) j a' -> ad_reservation a' = r' ->
  reservation_valid r' = true -> r' :: rest ≡ₚ hd_res H ++ addr_res s').
Let n := page_count a + Z.of_nat (length added).
Let a' := set_extent n (frontier a) (checkpoint_frontier a) (set_binding r' (ad_row a) (ad_active a) a).
Context (Hcap : n + rs_pages r' <= page_capacity_ s).
Context (Ht : rows_ok t (hd_rows H ++ addr_rows s)) (Htc : page_capacity t = page_capacity (sp_tables s)).
Context (Hl : length l = length (memberships_ s)).
Context (Hm : forall k q, 0 <= q < page_capacity_ s -> membership (set_memberships l s) k q =
  if decide (k = j /\ page_count a <= q < n)
  then default null_logical (added !! Z.to_nat (q - page_count a)) else membership s k q).
Context (Hs' : s' = set_addresses (set_index (addresses_ s) j a')
  (set_memberships l (set_sp_tables t (set_sp_pages (upd_pages added activate_fresh S1) s)))).

Lemma grow_ok : address_ok s j a.
Proof. apply (si_address _ _ Hc _ _ Ha). Qed.

Lemma grow_free h : h ∈ added -> forall pg, at_index (pages_ (sp_pages s)) (lh_index h) = Some pg -> occupied pg = false.
Proof. intros Hh. exact (proj1 (Forall_forall _ _) (bp_free _ _ _ _ Hnew) h Hh). Qed.

Lemma grow_new_valid : Forall (fun h => is_Some (page_of S1 h)) added.
Proof. apply (Forall_impl _ _ _ (bp_new _ _ _ _ Hnew)). intros h (pg & -> & _). done. Qed.

Lemma grow_membership k q : 0 <= q < page_capacity_ s -> membership s' k q =
  if decide (k = j /\ page_count a <= q < n)
  then default null_logical (added !! Z.to_nat (q - page_count a)) else membership s k q.
Proof. intros Hq. rewrite <- Hm by done. by rewrite Hs'. Qed.

Lemma grow_members : members s' j a' = members s j a ++ added.
Proof.
  pose proof (ao_count _ _ _ grow_ok) as Hcnt. destruct (known_reservation _ _ _ r' Hkv) as [_ Hrn]; [by left|].
  apply list_eq. intros k. unfold members. cbn [page_count a' set_extent set_binding].
  destruct (decide (Z.of_nat k < n)) as [Hk|Hk].
  - replace k with (Z.to_nat (Z.of_nat k)) by lia. rewrite memberships_of_lookup by (cbn; lia).
    rewrite grow_membership by lia. case_decide as Hin.
    + rewrite lookup_app_r by (pose proof (memberships_of_length s j (page_count a)); lia).
      pose proof (memberships_of_length s j (page_count a) ltac:(lia)).
      destruct (lookup_lt_is_Some_2 added (Z.to_nat (Z.of_nat k - page_count a))) as [h Hh]; [unfold n in *; lia|].
      rewrite Hh. cbn. rewrite <- Hh. f_equal. lia.
    + pose proof (memberships_of_length s j (page_count a) ltac:(lia)).
      rewrite lookup_app_l by lia. rewrite memberships_of_lookup by lia. done.
  - pose proof (memberships_of_length s' j n). pose proof (memberships_of_length s j (page_count a) ltac:(lia)).
    rewrite !lookup_ge_None_2; [done| |]; rewrite ?length_app; unfold n in *; lia.
Qed.

(** Pages in use before the growth are untouched. *)
Lemma grow_page h pg : page_of (sp_pages s) h = Some pg -> page_of (sp_pages s') h = Some pg.
Proof.
  intros Hpg. pose proof Hpg as (Ho & Hi & Hocc & Hg)%page_of_Some.
  assert (lh_index h ∉ indices added) as Hni.
  { intros (x & Hx & Hin)%list_elem_of_fmap. pose proof (grow_free x Hin pg) as Hf. rewrite <- Hx in Hf.
    specialize (Hf Hi). congruence. }
  rewrite Hs'. cbn [sp_pages set_addresses set_memberships set_sp_tables set_sp_pages].
  rewrite (upd_pages_page_of _ activate_fresh_keeps _ _ _ (bp_distinct _ _ _ _ Hnew) grow_new_valid).
  rewrite decide_False by done. rewrite <- Hpg. apply page_of_same; [apply Hev|apply Hev|].
  by apply (bp_same _ _ _ _ Hnew).
Qed.

(** The new pages. *)
Lemma grow_new_page h :
  h ∈ added -> exists pg, page_of S1 h = Some pg /\ fresh_page pg /\ page_of (sp_pages s') h = Some (activate_fresh pg).
Proof.
  intros Hh. pose proof (proj1 (Forall_forall _ _) (bp_new _ _ _ _ Hnew) h Hh) as (pg & Hpg & Hfresh).
  exists pg. split_and!; [done|done|]. rewrite Hs'. cbn [sp_pages set_addresses set_memberships set_sp_tables set_sp_pages].
  rewrite (upd_pages_page_of _ activate_fresh_keeps _ _ _ (bp_distinct _ _ _ _ Hnew) grow_new_valid).
  rewrite decide_True by by apply list_elem_of_fmap_2. by rewrite Hpg.
Qed.

Lemma grow_address : address_ok s' j a'.
Proof.
  pose proof grow_ok as Hok. pose proof (ao_count _ _ _ Hok). pose proof (ao_frontier _ _ _ Hok).
  destruct (known_reservation _ _ _ r' Hkv) as [Hrv Hrn]; [by left|].
  assert (page_capacity_ s' = page_capacity_ s) as Hpc by by rewrite Hs'.
  destruct Hok as [Og Oi Oc Of Ob Ou Ov Od Oe Ocov].
  split; rewrite ?grow_members, ?Hpc; cbn [ad_generation ad_occupied ad_active page_count frontier
    checkpoint_frontier ad_row ad_reservation a' set_extent set_binding] in *; try done.
  - intros Ho. destruct (Oi Ho) as (_ & _ & ?). congruence.
  - unfold n in *. lia.
  - unfold n in *. unfold kPagedKVPageSize in *. lia.
  - intros _. destruct (Ob Hact) as (? & _). done.
  - congruence.
  - apply Forall_app. split.
    + apply (Forall_impl _ _ _ Ov). intros h [pg Hpg]. by rewrite (grow_page h pg Hpg).
    + apply Forall_forall. intros h Hh. destruct (grow_new_page h Hh) as (pg & _ & _ & ->). done.
  - unfold indices. rewrite fmap_app. apply NoDup_app. split_and!; [done| |apply (bp_distinct _ _ _ _ Hnew)].
    intros i (h & -> & Hh)%list_elem_of_fmap (x & Hx & Hin)%list_elem_of_fmap.
    apply (free_not_member s H Hc (lh_index h)) with (j := j) (a := a); [|done|by apply list_elem_of_fmap_2].
    rewrite Hx. by apply grow_free.
  - intros p Hp. rewrite grow_membership by lia. rewrite decide_False by (unfold n in *; lia). apply Oe. unfold n in *. lia.
  - intros p pg Hp Hlt Hpg. unfold kPagedKVPageSize in *. rewrite grow_membership in Hpg by lia.
    rewrite decide_False in Hpg by lia. rewrite Forall_forall in Ov. destruct (Ov (membership s j p)) as [pg0 Hpg0].
    { apply elem_of_memberships. exists p. split; [lia|done]. }
    rewrite (grow_page _ _ Hpg0) in Hpg. injection Hpg as <-. by apply Ocov.
Qed.

Lemma grow_at k : address_at s' k = if decide (k = j) then Some a' else address_at s k.
Proof. apply (address_at_set s s' j a a' k Ha). by rewrite Hs'. Qed.

Lemma grow_counts i pg :
  at_index (pages_ (sp_pages s')) i = Some pg -> occupied pg = true -> counts_at s' (hd_pins H) i pg.
Proof.
  intros Hi Ho.
  destruct (counts_update s s' H j a a' i Hc Ha) as [Hcr Hca].
  { by rewrite grow_at, decide_True. }
  { rewrite Hs'. apply length_set_index. }
  { intros k Hk. by rewrite grow_at, decide_False. }
  { intros k q Hk Hq. rewrite grow_membership by done. by rewrite decide_False by tauto. }
  rewrite grow_members in Hcr, Hca. rewrite !active_member_flag in Hca.
  cbn [ad_active a' set_extent set_binding] in Hca. rewrite Hact in Hca. cbn [flag] in Hca.
  unfold counts_at. rewrite Hcr, Hca. clear Hcr Hca.
  assert (forall hs, member_of i (hs ++ added) = if decide (i ∈ indices added) then 1 else member_of i hs) as Hmo.
  { intros hs. unfold indices. case_decide as Hin; [apply member_of_in|unfold member_of; apply decide_ext];
      unfold indices; rewrite fmap_app, elem_of_app; tauto. }
  rewrite Hmo. rewrite Hs' in Hi. cbn [sp_pages set_addresses set_memberships set_sp_tables set_sp_pages] in Hi.
  destruct (upd_pages_cases _ _ _ activate_fresh_keeps (bp_distinct _ _ _ _ Hnew) grow_new_valid i pg Hi)
    as (pg1 & Hi1 & Ho1 & [[Hni ->]|[Hin ->]]).
  - rewrite decide_False by done. rewrite (bp_same _ _ _ _ Hnew i Hni) in Hi1.
    destruct (si_counts _ _ Hc i pg1 Hi1 Ho) as [Cr Ca Cp Cw Cd]. split; try done; lia.
  - rewrite decide_True by done. apply list_elem_of_fmap in Hin as (h & -> & Hh).
    pose proof (grow_free h Hh) as Hf. rewrite member_of_out by by eapply free_not_member.
    unfold counts_at. rewrite (free_count_refs s H Hc _ Hf), (free_count_active s H Hc _ Hf), (free_count_pins s H Hc _ Hf).
    destruct (grow_new_page h Hh) as (pg0 & Hpg0 & [(Fr & Fa & Fw) [Fp _] _ [Fd _]] & _).
    apply page_of_Some in Hpg0 as (_ & Hi0 & _). rewrite Hi1 in Hi0. injection Hi0 as <-.
    split; cbn; lia || done.
Qed.

Lemma grow_core : core s' H.
Proof.
  apply (core_update s s' H H j Hc). pose proof Hc as []. split; try (done || rewrite Hs'; done).
  - rewrite Hs'. apply length_set_index.
  - intros k Hk. by rewrite grow_at, decide_False.
  - intros k q Hk Hq. rewrite grow_membership by done. by rewrite decide_False by tauto.
  - destruct (known_reservation _ _ _ r' Hkv) as [Hrv _]; [by left|].
    eapply kv_inv_reservations; [apply (Hrest s' a' r'); [by rewrite Hs'|done|done]|]. rewrite Hs'.
    cbn [sp_pages set_addresses set_memberships set_sp_tables set_sp_pages].
    apply upd_pages_inv; [done|apply (bp_distinct _ _ _ _ Hnew)|].
    apply (Forall_impl _ _ _ (bp_new _ _ _ _ Hnew)). intros h (pg & Hpg & Hfresh). exists pg. split; [done|].
    pose proof (page_of_ok _ _ _ (kv_desc _ _ _ Hkv) Hpg) as Hok. pose proof Hpg as (_ & _ & Hocc & _)%page_of_Some.
    destruct Hfresh as [(Fr & Fa & Fw) _ _ _]. unfold activate_fresh. page_step_tac.
  - assert (sp_tables s' = t) as -> by by rewrite Hs'.
    destruct (addr_rows_split s j a Ha) as (rows & Hr & Hr').
    assert (addresses_ s' = set_index (addresses_ s) j a') as Haddr by by rewrite Hs'.
    rewrite (Hr' s' a' Haddr). by rewrite Hr in Ht.
  - apply (free_ok_same s s' j a a'); try done; by rewrite Hs'.
  - rewrite grow_at, decide_True by done. intros ? [= <-]. apply grow_address.
  - intros h pg Hpg _. exists pg. split; [by apply grow_page|apply kept_refl].
  - apply grow_counts.
  - intros q Hq Hqj. pose proof (proj1 (Forall_forall _ _) si_pins q Hq) as (b & Hb & Hpre & _).
    apply address_of_Some in Hb as (Ho & Hb & Hocc & Hg). rewrite Hqj in *. rewrite Ha in Hb. injection Hb as <-.
    exists a'. split; [|rewrite grow_members; by apply prefix_app_r].
    apply address_of_Some. rewrite Hqj, grow_at, decide_True by done. rewrite Hs'. done.
  - apply (pinned_writers s H _ Hc). intros h pg Hpg _ _ Hw. exists pg. split; [by apply grow_page|done].
Qed.

Lemma grow_protected : checkpoints_protected s -> checkpoints_protected s'.
Proof.
  intros Hp k b' Hb'. rewrite grow_at in Hb'.
  assert (exists b, address_at s k = Some b /\ checkpoint_frontier b' = checkpoint_frontier b) as (b & Hb & Hcp).
  { case_decide; [|by exists b']. injection Hb' as <-. subst k. by exists a. }
  intros p pg Hpn Hlt Hpg. rewrite Hcp in *. pose proof (si_address _ _ Hc _ _ Hb) as Hok.
  pose proof (ao_count _ _ _ Hok). pose proof (ao_frontier _ _ _ Hok). unfold kPagedKVPageSize in *.
  rewrite grow_membership in Hpg by lia. rewrite decide_False in Hpg.
  2: { intros [-> ?]. rewrite Ha in Hb. injection Hb as <-. lia. }
  destruct (member_page s H k b (membership s k p) Hc Hb) as (pg0 & Hpg0 & _).
  { apply elem_of_memberships. exists p. split; [lia|done]. }
  rewrite (grow_page _ _ Hpg0) in Hpg. injection Hpg as <-. by apply (Hp k b Hb p pg0).
Qed.
End grow.

(** ** Mapping pages *)

(** The address after a growth: as many pages as asked for, the frontier and the entitlement as before. *)
Definition mapped (s s' : Spaces) (h : KVAddressSpaceHandle) (tokens : Z) : Prop :=
  forall a, address_of s h = Some a -> exists a', address_of s' h = Some a' /\
    page_count a' = Z.max (page_count a) (pages_for_tokens tokens) /\ frontier a' = frontier a /\
    checkpoint_frontier a' = checkpoint_frontier a /\ entitlement_of a' = entitlement_of a.

Lemma entitlement_of_eq s H j a :
  core s H -> address_at s j = Some a -> ad_active a = true ->
  entitlement_of a = page_count a + rs_pages (ad_reservation a) /\ 0 <= rs_pages (ad_reservation a).
Proof.
  intros Hc Ha Hact. pose proof (si_address _ _ Hc _ _ Ha) as Hok. pose proof (ao_count _ _ _ Hok).
  destruct (ao_bound _ _ _ Hok Hact) as (_ & Hv & Hcap). pose proof (si_capacity_pos _ _ Hc).
  destruct (address_reservation s H j a Hc Ha Hact) as (rest & Hkv & _).
  destruct (known_reservation _ _ _ (ad_reservation a) Hkv) as [_ Hn]; [by left|].
  unfold entitlement_of. rewrite Hv, w32_small by lia. done.
Qed.

Lemma retain_fresh_eq s h pg S :
  page_of S h = Some pg -> fresh_page pg ->
  on_pages (retain_active_reference h) (set_sp_pages S s) =
    (set_sp_pages (set_page_at (lh_index h) (activate_fresh pg) S) s, Ok tt).
Proof.
  intros Hpg [(Fr & Fa & Fw) _ _ _]. apply on_pages_eq. apply retain_active_reference_eq; [done|lia|lia].
Qed.

Lemma ensure_mapped_to_tokens_post s H h tokens :
  spaces_inv s H -> 0 <= tokens ->
  post (ensure_mapped_to_tokens h tokens) s (fun s' _ => spaces_inv s' H /\ mapped s s' h tokens) (unchanged s).
Proof.
  intros Hinv Htk. pose proof (proj1 Hinv) as Hc. unfold ensure_mapped_to_tokens.
  apply post_require_active; [done..|]. intros a Haddr Hact%active_address_flag.
  pose proof (address_of_at _ _ _ Haddr) as Ha. set (j := ah_index h) in *.
  destruct (entitlement_of_eq s H j a Hc Ha Hact) as [Hent Hrn].
  apply post_throw_if; [done|]. intros Hle. bool_facts. rewrite Hent in Hle. set (target := pages_for_tokens tokens) in *.
  destruct (Z.leb_spec target (page_count a)) as [Hfit|Hgrow].
  { apply post_ret. split; [done|]. intros b Hb. assert (b = a) as -> by congruence. exists a. split_and!; done || lia. }
  apply post_get. set (begin_ := page_count a). set (count := target - begin_).
  pose proof (si_address _ _ Hc _ _ Ha) as Hok. pose proof (ao_count _ _ _ Hok) as Hcnt.
  destruct (ao_bound _ _ _ Hok Hact) as ([row Hrow]%has_Some & Hrv & Hroom).
  destruct (address_reservation s H j a Hc Ha Hact) as (rest & Hkv & Hback).
  set (dests := membership s j <$> seqZ begin_ count). set (pred := if begin_ =? 0 then _ else _).
  pose proof (materialize_batch_call _ _ 0 _ dests pred Hkv eq_refl) as Hmat.
  unfold post. cbv [mbind M_bind]. unfold on_pages at 1.
  destruct (materialize_batch (ad_reservation a) dests pred (sp_pages s)) as [S1 [[r' added]|e]].
  2: { destruct Hmat as [-> ?]. by rewrite set_sp_pages_same. }
  destruct Hmat as (Hkv1 & Hev & Hlen & Hr' & Hbp). cbn [insert list_insert] in Hkv1.
  assert (Z.of_nat (length added) = count) as Hadd.
  { rewrite Hlen. unfold dests. rewrite length_fmap, length_seqZ. unfold count, begin_ in *. lia. }
  set (s1 := set_sp_pages S1 s). rewrite (modify_address_eq j a _ s1 Ha).
  set (a1 := set_binding r' (ad_row a) (ad_active a) a). set (s2 := set_addresses _ s1).
  pose proof (at_index_lt _ _ _ Ha) as Hj. pose proof (si_cells _ _ Hc) as Hcells.
  destruct (put_memberships_eq j added s2 begin_) as (l & Hput & Hll & Hm).
  { change (addresses_ s2) with (set_index (addresses_ s) j a1). by rewrite length_set_index. }
  { change (addresses_ s2) with (set_index (addresses_ s) j a1). by rewrite length_set_index. }
  { unfold begin_. lia. } { change (page_capacity_ s2) with (page_capacity_ s). unfold count, begin_ in *. lia. }
  rewrite Hput. set (s3 := set_memberships l s2).
  destruct (physical_pages_ok added s3 _ Hkv1) as (ps & Hps & Hpl & Hpv).
  { apply (Forall_impl _ _ _ (bp_new _ _ _ _ Hbp)). intros x (pg & Hpg & [_ _ _ [? _]]). by exists pg. }
  pose proof (si_capacity_pos _ _ Hc).
  assert (row ∈ hd_rows H ++ addr_rows s) as Hin.
  { apply elem_of_app. right. unfold addr_rows. apply list_elem_of_bind. exists a. rewrite Hrow. split; [by left|].
    apply at_index_Some in Ha as [_ Ha]. by eapply list_elem_of_lookup_2. }
  destruct (publish_rows _ _ (physical_ S1) row begin_ ps (si_rows _ _ Hc) Hin Hpv) as (t & up & Hpub & Ht & Htc & _).
  { unfold begin_. lia. }
  { pose proof (si_capacity _ _ Hc). unfold count, begin_ in *. lia. }
  unfold on_throw. cbv [mbind M_bind]. rewrite Hps, Hrow. unfold publish_row, on_tables. cbv [mbind M_bind mget mret M_ret].
  change (sp_tables s3) with (sp_tables s). change (sp_pages s3) with S1. rewrite Hpub.
  set (s4 := set_sp_tables t s3).
  rewrite (for_each_upd (fun h => on_pages (retain_active_reference h)) activate_fresh added s4 (bp_distinct _ _ _ _ Hbp)).
  2: { apply (Forall_impl _ _ _ (bp_new _ _ _ _ Hbp)). intros x (pg & Hpg & Hfresh). exists pg. split; [done|].
       intros S HS. by apply retain_fresh_eq. }
  set (s5 := set_sp_pages _ s4). assert (address_at s5 j = Some a1) as Ha5.
  { change (address_at s2 j = Some a1). rewrite (address_at_set s1 s2 j a a1 j Ha eq_refl). by rewrite decide_True. }
  rewrite (modify_address_eq j a1 _ s5 Ha5). set (a' := set_extent _ _ _ a1). set (s' := set_addresses _ s5).
  assert (s' = set_addresses (set_index (addresses_ s) j (set_extent (page_count a + Z.of_nat (length added)) (frontier a)
      (checkpoint_frontier a) (set_binding r' (ad_row a) (ad_active a) a)))
    (set_memberships l (set_sp_tables t (set_sp_pages (upd_pages added activate_fresh S1) s)))) as Hs'.
  { unfold s', s5, s4, s3, s2, s1, set_addresses, set_memberships, set_sp_tables, set_sp_pages, a'. cbn. unfold set_index.
    rewrite list_insert_insert_eq. unfold a1. cbn. by replace (page_count a + Z.of_nat (length added)) with target by (unfold count, begin_ in *; lia). }
  assert (forall k q, 0 <= q < page_capacity_ s -> membership (set_memberships l s) k q =
    if decide (k = j /\ page_count a <= q < page_count a + Z.of_nat (length added))
    then default null_logical (added !! Z.to_nat (q - page_count a)) else membership s k q) as Hm'.
  { intros k q Hq. exact (Hm k q Hq). }
  assert (page_count a + Z.of_nat (length added) + rs_pages r' <= page_capacity_ s) as Hcap by lia.
  split; [split|].
  - by apply (grow_core s s' H j a added S1 r' rest t l Hc Ha Hact Hkv1 Hev Hbp Hback Hcap Ht Htc Hll Hm').
  - eapply (grow_protected s s' H j a added S1 r' t l); try done. apply Hinv.
  - intros b Hb. assert (b = a) as -> by congruence. exists a'. split_and!; [|cbn; lia|done|done|].
    + apply address_of_Some in Haddr as (Ho & _ & Hocc & Hg). apply address_of_Some. fold j.
      split_and!; [done| |done|done]. rewrite (address_at_set s5 s' j a1 a' j Ha5 eq_refl). by rewrite decide_True.
    + unfold entitlement_of. cbn [page_count ad_reservation a' a1 set_extent set_binding].
      destruct (known_reservation _ _ _ r' Hkv1) as [-> _]; [by left|]. rewrite Hrv. f_equal. unfold count, begin_ in *. lia.
Qed.

(** ** Committing a frontier *)

(** Coverage only grows. *)
Definition grew (S S' : Store) : Prop := forall h pg, page_of S h = Some pg -> exists pg', page_of S' h = Some pg' /\
  committed_columns_ pg <= committed_columns_ pg'.

#[export] Instance grew_preorder : PreOrder grew.
Proof.
  split; [intros S h pg Hpg; by exists pg|]. intros x y z Hxy Hyz h pg Hpg.
  destruct (Hxy h pg Hpg) as (pg1 & Hpg1 & ?). destruct (Hyz h pg1 Hpg1) as (pg2 & ? & ?). exists pg2. split; [done|lia].
Qed.

(** The pages of the addresses other than [j] are what they were. *)
Definition others_kept (s : Spaces) (j : Z) (s' : Spaces) : Prop :=
  forall k b x pg, k <> j -> address_at s k = Some b -> x ∈ members s k b -> page_of (sp_pages s) x = Some pg ->
    page_of (sp_pages s') x = Some pg.

(** Some columns of pages of address [j] were committed, nothing else happened. *)
Record covering (s : Spaces) (H : Holders) (j : Z) (s' : Spaces) : Prop := {
  cv_inv : spaces_inv s' H;
  cv_frame : s' = set_sp_pages (sp_pages s') s;
  cv_pages : grew (sp_pages s) (sp_pages s');
  cv_others : others_kept s j s';
}.

Lemma covering_refl s H j : spaces_inv s H -> covering s H j s.
Proof. intros Hinv. split; [done|by rewrite set_sp_pages_same|reflexivity|by intros k b x pg]. Qed.

(** A page with a writer is a member of one address only. *)
Lemma writer_alone s H j a k b h x pg :
  core s H -> address_at s j = Some a -> h ∈ members s j a -> page_of (sp_pages s) h = Some pg -> writer_references_ pg = 1 ->
  address_at s k = Some b -> x ∈ members s k b -> lh_index x = lh_index h -> k = j.
Proof.
  intros Hc Ha Hh Hpg Hw Hb Hx Heq. destruct (member_page s H j a h Hc Ha Hh) as (q & Hq & _ & Hcounts & _).
  assert (q = pg) as -> by congruence. destruct (pc_writer _ _ _ _ Hcounts Hw) as [Hone _].
  rewrite (pc_refs _ _ _ _ Hcounts) in Hone.
  pose proof (count_refs_unique _ _ _ _ _ (lh_index h) (view_address s k b Hb) (view_address s j a Ha)) as Hu. cbn [fst] in Hu.
  pose proof (at_index_lt _ _ _ Ha). pose proof (at_index_lt _ _ _ Hb).
  assert (Z.to_nat k = Z.to_nat j) as Hkj; [apply Hu|lia]; [|by apply list_elem_of_fmap_2|done].
  rewrite <- Heq. by apply list_elem_of_fmap_2.
Qed.

(** Committing columns of one page. *)
Lemma covering_commit s H j a s' h pg columns :
  covering s H j s' -> address_at s j = Some a -> h ∈ members s j a -> writer_references_ pg = 1 ->
  page_of (sp_pages s') h = Some pg -> 1 <= references pg -> has (device_replica pg) = true ->
  committed_columns_ pg <= columns <= kPagedKVPageSize ->
  let pg' := set_content (content_epoch_ pg) columns (protected_columns_ pg) pg in
  let S' := set_page_at (lh_index h) pg' (sp_pages s') in
  covering s H j (set_sp_pages S' s') /\ grew (sp_pages s') S' /\ page_of S' h = Some pg'.
Proof.
  intros [[Hc Hp] Hframe Hpages Hothers] Ha Hh Hw Hpg Hr Hdev Hcol pg' S'.
  pose proof (page_of_ok _ _ _ (kv_desc _ _ _ (si_pages _ _ Hc)) Hpg) as Hok.
  pose proof Hpg as (_ & Hi & Hocc & _)%page_of_Some.
  assert (page_step pg pg') as Hst.
  { unfold pg'. page_step_tac. intros r Hr'. destruct (Hhost r Hr') as (? & ? & ?). split_and!; [done|lia|done]. }
  assert (page_of S' h = Some pg') as Hpg' by by eapply page_of_write.
  assert (forall x q, page_of (sp_pages s') x = Some q -> exists q', page_of S' x = Some q' /\
    committed_columns_ q <= committed_columns_ q' /\ protected_columns_ q = protected_columns_ q') as Hkeep.
  { intros x q Hq. destruct (decide (lh_index h = lh_index x)) as [Hx|Hx].
    - pose proof (page_of_inj _ _ _ _ _ Hpg Hq Hx) as <-. rewrite Hpg in Hq. injection Hq as <-.
      exists pg'. split_and!; [done|cbn; lia|done].
    - exists q. split_and!; [|lia|done]. unfold S'. by rewrite (page_of_other _ h x pg). }
  assert (grew (sp_pages s') S') as Hgrew.
  { intros x q Hq. destruct (Hkeep x q Hq) as (q' & ? & ? & _). by exists q'. }
  split_and!; [split; [split| | |]|done|done].
  - pose proof (core_alike s' H S' (hd_res H) Hc) as Hc'. rewrite with_res_same in Hc'. apply Hc'.
    + eapply write_page_inv; [apply Hc|done|done].
    + eapply store_alike_write; [done|]. left. split; [done|done|done|]. split; [cbn; lia|].
      unfold transfer_destination. intros Ht. bool_facts. lia.
  - intros k b Hb p q Hn Hlt Hq. change (membership (set_sp_pages S' s') k p) with (membership s' k p) in Hq.
    change (address_at s' k = Some b) in Hb. pose proof (si_address _ _ Hc _ _ Hb) as Hokb.
    pose proof (ao_count _ _ _ Hokb). pose proof (ao_frontier _ _ _ Hokb).
    destruct (member_page s' H k b (membership s' k p) Hc Hb) as (q0 & Hq0 & _).
    { apply elem_of_memberships. exists p. unfold kPagedKVPageSize in *. split; [lia|done]. }
    destruct (Hkeep _ _ Hq0) as (q1 & Hq1 & _ & Hpr). cbn [sp_pages set_sp_pages] in Hq. rewrite Hq1 in Hq.
    injection Hq as <-. rewrite <- Hpr. by apply (Hp k b Hb p q0).
  - rewrite Hframe. done.
  - by etransitivity.
  - intros k b x q Hk Hb Hx Hq. specialize (Hothers k b x q Hk Hb Hx Hq). cbn [sp_pages set_sp_pages]. unfold S'.
    rewrite (page_of_other (sp_pages s') h x pg); [done|done|]. intros Heq. apply Hk.
    apply (writer_alone s' H j a k b h x pg Hc); try done; by rewrite Hframe.
Qed.

(** Everything below [front] on the first [n] pages is committed. *)
Definition covered_below (s : Spaces) (j front n : Z) (S' : Store) : Prop :=
  forall p, 0 <= p < n -> exists pg, page_of S' (membership s j p) = Some pg /\
    Z.min kPagedKVPageSize (front - kPagedKVPageSize * p) <= committed_columns_ pg.

Lemma covered_grew s j front n S S' : grew S S' -> covered_below s j front n S -> covered_below s j front n S'.
Proof.
  intros Hg Hc p Hp. destruct (Hc p Hp) as (pg & Hpg & ?). destruct (Hg _ _ Hpg) as (pg' & ? & ?).
  exists pg'. split; [done|lia].
Qed.

(** One page of the loop. *)
Lemma commit_page_post s H s' j a front p :
  covering s H j s' -> address_at s j = Some a -> ad_active a = true -> 0 <= p < page_count a ->
  kPagedKVPageSize * p < front <= u32_max -> covered_below s j front p (sp_pages s') ->
  post (commit_page j front p) s' (fun s'' _ => covering s H j s'' /\ covered_below s j front (p + 1) (sp_pages s''))
    (fun s' e => covering s H j s' /\ e <> Terminate).
Proof.
  intros Hcv Ha Hact Hp Hf Hdone. unfold commit_page.
  assert (membership s' j p = membership s j p) as Hm by by rewrite (cv_frame _ _ _ _ Hcv).
  eapply post_eq; [reflexivity|]. rewrite Hm. set (x := membership s j p) in *.
  destruct (active_member_page s' H j a x) as (pg & Hpg & Hpok & _ & Hr & _ & Hdev).
  { apply Hcv. } { by rewrite (cv_frame _ _ _ _ Hcv). } { done. }
  { apply elem_of_memberships. exists p. split; [lia|done]. }
  rewrite page_columns by (unfold kPagedKVPageSize in *; lia). set (columns := Z.min _ _).
  assert (forall S', grew (sp_pages s') S' -> (exists pg', page_of S' x = Some pg' /\ columns <= committed_columns_ pg') ->
    covered_below s j front (p + 1) S') as Hnext.
  { intros S' Hg Hx q Hq. destruct (decide (q = p)) as [->|]; [done|].
    apply (covered_grew s j front p _ _ Hg Hdone). lia. }
  eapply post_pure; [reflexivity| |]; unfold committed_columns, LogicalKVPageStore.require; rewrite Hpg; [done|].
  intros c [= <-]. destruct (Z.ltb_spec (committed_columns_ pg) columns) as [Hlt|Hge].
  - unfold post, on_pages, commit_coverage, LogicalKVPageStore.require, write_page. unfold_M. rewrite Hpg.
    destruct (_ || _) eqn:Hg; [split; [by rewrite set_sp_pages_same|done]|]. bool_facts.
    destruct (covering_commit s H j a s' x pg columns) as (Hcv' & Hgrew & Hpg'); try done.
    { apply elem_of_memberships. exists p. split; [lia|done]. }
    split; [done|]. apply Hnext; [done|]. eexists. split; [exact Hpg'|]. cbn. lia.
  - apply post_ret. split; [done|]. apply Hnext; [reflexivity|]. by exists pg.
Qed.

(** The frontier moves, or the call was refused; a refusal halfway leaves some columns committed. *)
Definition committed (s s' : Spaces) (h : KVAddressSpaceHandle) (front : Z) : Prop :=
  (forall a, address_of s h = Some a -> address_of s' h = Some (set_extent (page_count a) front (checkpoint_frontier a) a)) /\
  (forall k, k <> ah_index h -> address_at s' k = address_at s k) /\
  memberships_ s' = memberships_ s.

(** The pages that a frontier change touches. *)
Lemma changed_pages old front :
  0 <= old < front -> front <= u32_max ->
  let first := old / kPagedKVPageSize in let final := (front - 1) / kPagedKVPageSize in
  0 <= first <= final /\ kPagedKVPageSize * first <= old /\
  pages_for_tokens front = final + 1 /\ kPagedKVPageSize * final < front <= kPagedKVPageSize * (final + 1).
Proof.
  intros Ho Hf. unfold pages_for_tokens, kPagedKVPageSize. destruct (Z.eqb_spec front 0); [lia|].
  pose proof (Z.div_mod old 64). pose proof (Z.mod_pos_bound old 64).
  pose proof (Z.div_mod (front - 1) 64). pose proof (Z.mod_pos_bound (front - 1) 64).
  pose proof (Z.div_le_mono old (front - 1) 64). lia.
Qed.

Lemma commit_frontier_post s H h front :
  spaces_inv s H -> 0 <= front <= u32_max ->
  post (commit_frontier h front) s
    (fun s' _ => spaces_inv s' H /\ committed s s' h front /\ others_kept s (ah_index h) s')
    (fun s' e => covering s H (ah_index h) s' /\ e <> Terminate).
Proof.
  intros Hinv Hf. pose proof (proj1 Hinv) as Hc. pose proof (covering_refl s H (ah_index h) Hinv) as Hrefl. unfold commit_frontier.
  apply post_require_active; [done..|]. intros a Haddr Hact%active_address_flag.
  pose proof (address_of_at _ _ _ Haddr) as Ha. set (j := ah_index h) in *.
  apply post_throw_if; [done|]. intros Hle. bool_facts. pose proof (si_address _ _ Hc _ _ Ha) as Hok.
  pose proof (ao_count _ _ _ Hok). pose proof (ao_frontier _ _ _ Hok).
  destruct (Z.eqb_spec front (frontier a)) as [Heq|Hne].
  { apply post_ret. split_and!; [done|split_and!; [|done..]|apply Hrefl]. intros b Hb. assert (b = a) as -> by congruence. rewrite Hb, Heq. by destruct a. }
  rewrite w32_small by lia. destruct (changed_pages (frontier a) front) as (Hff & Hf1 & Hpf & Hfin); [lia|lia|].
  set (first := frontier a / kPagedKVPageSize) in *. set (final := (front - 1) / kPagedKVPageSize) in *.
  eapply post_bind with (Q := fun s' _ => covering s H j s' /\ covered_below s j front (final + 1) (sp_pages s')).
  - apply (for_pages_post _ _ _ (fun n s' => covering s H j s' /\ covered_below s j front n (sp_pages s'))); [lia| |].
    + split; [done|]. intros p Hp. destruct (member_page s H j a (membership s j p) Hc Ha) as (pg & Hpg & _).
      { apply elem_of_memberships. exists p. split; [lia|done]. }
      exists pg. split; [done|]. pose proof (ao_cover _ _ _ Hok p pg ltac:(lia)) as Hcov.
      unfold kPagedKVPageSize in *. specialize (Hcov ltac:(lia) Hpg). lia.
    + intros p s' Hp [Hcv Hdone]. apply (commit_page_post s H s' j a front p); try done; unfold kPagedKVPageSize in *; lia.
  - intros s' [] [Hcv Hdone].
    assert (address_at s' j = Some a) as Ha' by by rewrite (cv_frame _ _ _ _ Hcv).
    eapply post_end; [by apply modify_address_eq|]. cbv beta. set (a' := set_extent (page_count a) front (checkpoint_frontier a) a). set (s2 := set_addresses _ s').
    destruct (cv_inv _ _ _ _ Hcv) as [Hc' Hp']. split_and!; [split| |].
    + apply (core_address s' H s2 H j a a'); try done.
      * intros [? Hidle ? ? ? ? ? ? ? Hcov]. split; cbn; try done; [intros Ho; destruct (Hidle Ho) as (_ & _ & ?); congruence|unfold kPagedKVPageSize in *; lia|].
        intros p pg Hp Hlt Hpg. change (membership s2 j p) with (membership s' j p) in Hpg.
        assert (membership s' j p = membership s j p) as Hm by by rewrite (cv_frame _ _ _ _ Hcv).
        rewrite Hm in Hpg. destruct (Hdone p) as (pg' & Hpg' & Hge); [unfold kPagedKVPageSize in *; lia|].
        change (sp_pages s2) with (sp_pages s') in Hpg. rewrite Hpg' in Hpg. by injection Hpg as <-.
      * eapply free_ok_same; [apply (si_free _ _ Hc')|exact Ha'|done..].
      * apply store_alike_refl.
      * by apply (reservations_same s' H s2 j a a').
      * by apply (rows_same s' H s2 j a a').
    + apply (protected_same s'); try done. intros k b'. rewrite (address_at_set s' s2 j a a' k Ha' eq_refl).
      case_decide; [|by eauto]. intros [= <-]. subst k. by exists a.
    + split_and!.
      * intros b Hb. assert (b = a) as -> by congruence. apply address_of_Some in Haddr as (Ho & _ & Hocc & Hg).
        apply address_of_Some. fold j. rewrite (address_at_set s' s2 j a a' j Ha' eq_refl), decide_True by done.
        change (sp_self s2) with (sp_self s'). rewrite (cv_frame _ _ _ _ Hcv). done.
      * intros k Hk. rewrite (address_at_set s' s2 j a a' k Ha' eq_refl), decide_False by done.
        by rewrite (cv_frame _ _ _ _ Hcv).
      * change (memberships_ s' = memberships_ s). by rewrite (cv_frame _ _ _ _ Hcv).
    + exact (cv_others _ _ _ _ Hcv).
Qed.
