(* ===== verification/KVAddressShrink.v ===== *)
(** * Address spaces: truncating an active address

    The pages beyond the new frontier go back to the address's reservation, last first, and the last
    page that stays is cut.  Between two pages the frontier of the address lies beyond its pages; the
    invariant is kept for the state whose frontier is already the new one. *)

From S2P Require Import Prelude Post Extents Tensor KVGeometry DevicePagePool DevicePoolInvariant DevicePoolOps ExecutionTables KVPages KVPagesInvariant KVPagesSpec KVAddress KVAddressPages KVAddressInvariant KVAddressUpdate KVAddressProtect KVAddressOps KVAddressExclusive KVAddressActivation KVAddressGrowth.
Import LogicalKVPageStore KVAddressSpaceStore.

(** ** One page less *)

Section shrink.
Context (t t' : Spaces) (H : Holders) (j : Z) (b b' : Address) (h : LogicalKVPageHandle) (pg : Page)
  (r' : DeviceKVPageReservation) (rest : list DeviceKVPageReservation).
Let p := page_count b - 1.
Context (Hc : core t H) (Hb : address_at t j = Some b) (Hact : ad_active b = true) (Hp : 0 <= p).
Context (Hh : membership t j p = h) (Hpg : page_of (sp_pages t) h = Some pg).
Context (Hone : references pg = 1) (Hpin : source_pins_ pg = 0).
Context (Hself : sp_self t' = sp_self t) (Htab : sp_tables t' = sp_tables t) (Hcap : page_capacity_ t' = page_capacity_ t)
  (Haddr : addresses_ t' = set_index (addresses_ t) j b')
  (Hcells : length (memberships_ t') = length (memberships_ t))
  (Hfree : sp_free t' = sp_free t /\ sp_free_count t' = sp_free_count t).
Context (Hmem : forall k q, 0 <= q < page_capacity_ t ->
  membership t' k q = if decide (k = j /\ q = p) then null_logical else membership t k q).
Context (Hstore : st_self (sp_pages t') = st_self (sp_pages t))
  (Hpages : pages_ (sp_pages t') = pages_ (set_page_at (lh_index h) (released_page pg) (sp_pages t))).
Context (Hkv : kv_inv (sp_pages t') (r' :: rest) []).
Context (Hrest : forall s' a' r', addresses_ s' = set_index (addresses_ t) j a' -> ad_reservation a' = r' ->
  reservation_valid r' = true -> r' :: rest ≡ₚ hd_res H ++ addr_res s').
Context (Hb' : b' = set_extent p (frontier b) (checkpoint_frontier b) (set_binding r' (ad_row b) (ad_active b) b)).
Context (Hroom : rs_pages r' = rs_pages (ad_reservation b) + 1) (Hfront : frontier b <= kPagedKVPageSize * p).

Lemma shrink_ok : address_ok t j b.
Proof. apply (si_address _ _ Hc _ _ Hb). Qed.

Lemma shrink_members_split : members t j b = memberships_of t j p ++ [h].
Proof.
  unfold members. replace (page_count b) with (p + 1) by (unfold p; lia).
  rewrite (memberships_of_app t j p (p + 1)) by lia. replace (p + 1 - p) with 1 by lia. cbn.
  rewrite seqZ_cons by lia. cbn. by rewrite Hh.
Qed.

Lemma shrink_members : members t' j b' = memberships_of t j p.
Proof.
  pose proof (ao_count _ _ _ shrink_ok). unfold members. rewrite Hb'. cbn [page_count set_extent]. apply memberships_of_ext.
  intros q Hq. rewrite Hmem by (unfold p in *; lia). by rewrite decide_False by lia.
Qed.

Lemma shrink_member : h ∈ members t j b.
Proof. rewrite shrink_members_split. apply elem_of_app. right. by left. Qed.

Lemma shrink_other_index x : x ∈ memberships_of t j p -> lh_index x <> lh_index h.
Proof.
  intros Hx Heq. pose proof (ao_distinct _ _ _ shrink_ok) as Hnd. rewrite shrink_members_split in Hnd.
  unfold indices in Hnd. rewrite fmap_app in Hnd. apply NoDup_app in Hnd as (_ & Hdis & _).
  apply (Hdis (lh_index x)); [by apply list_elem_of_fmap_2|]. cbn. rewrite Heq. by left.
Qed.

Lemma shrink_page_at i :
  at_index (pages_ (sp_pages t')) i = if decide (lh_index h = i) then Some (released_page pg) else at_index (pages_ (sp_pages t)) i.
Proof. rewrite Hpages. apply (at_set_page_at _ _ _ pg). by apply page_of_Some in Hpg as (_ & ? & _). Qed.

Lemma shrink_page x : lh_index x <> lh_index h -> page_of (sp_pages t') x = page_of (sp_pages t) x.
Proof.
  intros Hx. apply page_of_same; [done| |].
  - rewrite Hpages. cbn. apply length_set_index.
  - rewrite shrink_page_at. by rewrite decide_False by congruence.
Qed.

Lemma shrink_at k : address_at t' k = if decide (k = j) then Some b' else address_at t k.
Proof. by apply (address_at_set t t' j b). Qed.

Lemma shrink_address : address_ok t' j b'.
Proof.
  pose proof shrink_ok as Hok. pose proof (ao_count _ _ _ Hok). pose proof (ao_frontier _ _ _ Hok).
  destruct (known_reservation _ _ _ r' Hkv) as [Hrv Hrn]; [by left|].
  pose proof shrink_members as Hm. destruct Hok as [Og Oi Oc Of Ob Ou Ov Od Oe Ocov].
  rewrite shrink_members_split in Ov, Od. apply Forall_app in Ov as [Ov _].
  unfold indices in Od. rewrite fmap_app in Od. apply NoDup_app in Od as (Od & _).
  assert (page_count b' = p /\ frontier b' = frontier b /\ checkpoint_frontier b' = checkpoint_frontier b /\
    ad_active b' = true /\ ad_row b' = ad_row b /\ ad_reservation b' = r' /\ ad_occupied b' = ad_occupied b /\
    ad_generation b' = ad_generation b) as (E1 & E2 & E3 & E4 & E5 & E6 & E7 & E8) by by rewrite Hb'.
  split; rewrite ?Hm, ?Hcap, ?E1, ?E2, ?E3, ?E4, ?E5, ?E6, ?E7, ?E8; try done.
  - intros Ho. destruct (Oi Ho) as (_ & _ & ?). congruence.
  - lia.
  - unfold p in *. lia.
  - intros _. destruct (Ob Hact) as (? & _ & ?). split_and!; [done|done|unfold p in *; lia].
  - rewrite Forall_forall in Ov |- *. intros x Hx. rewrite shrink_page; [by apply Ov|]. by apply shrink_other_index.
  - intros q Hq. rewrite Hmem by lia. case_decide as Hin; [done|]. apply Oe. unfold p in *. lia.
  - intros q pg' Hq Hlt Hpg'. unfold kPagedKVPageSize in *. rewrite Hmem in Hpg' by (unfold p in *; lia).
    rewrite decide_False in Hpg' by lia. rewrite shrink_page in Hpg'; [by apply Ocov|].
    apply shrink_other_index. apply elem_of_memberships. exists q. split; [lia|done].
Qed.

Lemma shrink_counts i pg' :
  at_index (pages_ (sp_pages t')) i = Some pg' -> occupied pg' = true -> counts_at t' (hd_pins H) i pg'.
Proof.
  intros Hi Ho. rewrite shrink_page_at in Hi. case_decide as Hx; [injection Hi as <-; done|].
  destruct (si_counts _ _ Hc i pg' Hi Ho) as [Cr Ca Cp Cw Cd].
  destruct (counts_update t t' H j b b' i Hc Hb) as [Hcr Hca].
  { by rewrite shrink_at, decide_True. }
  { rewrite Haddr. apply length_set_index. }
  { intros k Hk. by rewrite shrink_at, decide_False. }
  { intros k q Hk Hq. rewrite Hmem by done. by rewrite decide_False by tauto. }
  rewrite shrink_members, shrink_members_split in Hcr, Hca. rewrite !active_member_flag in Hca.
  assert (ad_active b' = true) as E by by rewrite Hb'. rewrite E, Hact in Hca. cbn [flag] in Hca.
  assert (member_of i (memberships_of t j p ++ [h]) = member_of i (memberships_of t j p)) as Hmo.
  { unfold member_of, indices. rewrite fmap_app. apply decide_ext. rewrite elem_of_app. cbn.
    rewrite list_elem_of_singleton. split; [|by left]. intros [?|?]; [done|congruence]. }
  rewrite Hmo in Hcr, Hca. split; try done; lia.
Qed.

Lemma shrink_exclusive x : held_elsewhere t H j x -> lh_index x <> lh_index h \/ page_of (sp_pages t) x = None.
Proof.
  intros Hx. destruct (page_of (sp_pages t) x) as [q|] eqn:Hq; [|by right]. left. intros Heq.
  pose proof (page_of_inj _ _ _ _ _ Hq Hpg Heq) as ->.
  by apply (exclusive_page t H H j b h pg Hc Hb shrink_member Hpg Hone Hpin).
Qed.

Lemma shrink_core : core t' H.
Proof.
  apply (core_update t t' H H j Hc). pose proof Hc as []. split; try done.
  - by rewrite Htab.
  - rewrite Haddr. apply length_set_index.
  - intros k Hk. by rewrite shrink_at, decide_False.
  - intros k q Hk Hq. rewrite Hmem by done. by rewrite decide_False by tauto.
  - destruct (known_reservation _ _ _ r' Hkv) as [Hrv _]; [by left|].
    eapply kv_inv_reservations; [|exact Hkv]. apply (Hrest t' b' r'); [done| |done]. by rewrite Hb'.
  - rewrite Htab. destruct (addr_rows_split t j b Hb) as (rows & Hr & Hr'). rewrite (Hr' t' b' Haddr).
    rewrite Hr in si_rows. by rewrite Hb'.
  - eapply free_ok_same; [apply si_free|exact Hb|exact Haddr|by rewrite Hb'|apply Hfree..].
  - rewrite shrink_at, decide_True by done. intros ? [= <-]. apply shrink_address.
  - intros x q Hq Hheld. destruct (shrink_exclusive x Hheld) as [Hne|]; [|congruence].
    exists q. split; [by rewrite shrink_page|apply kept_refl].
  - apply shrink_counts.
  - intros q Hq Hqj. pose proof (proj1 (Forall_forall _ _) si_pins q Hq) as (a & Ha & Hpre & _).
    apply address_of_Some in Ha as (Ho & Ha & Hocc & Hg). rewrite Hqj in *. rewrite Hb in Ha. injection Ha as <-.
    exists b'. split.
    + apply address_of_Some. rewrite Hqj, shrink_at, decide_True, Hself by done. by rewrite Hb'.
    + rewrite shrink_members. rewrite shrink_members_split in Hpre. destruct Hpre as [z Hz].
      destruct (decide (z = [])) as [->|Hne].
      * rewrite app_nil_r in Hz. exfalso.
        apply (exclusive_page t H H j b h pg Hc Hb shrink_member Hpg Hone Hpin eq_refl eq_refl).
        right. left. exists q. split; [done|]. rewrite <- Hz. apply elem_of_app. right. by left.
      * destruct (exists_last Hne) as (z' & y & ->). rewrite app_assoc in Hz. apply app_inj_tail in Hz as [Hz _].
        by exists z'.
  - apply (pinned_writers t H _ Hc). intros x q Hq Hpq _ Hw. exists q. split; [|done]. rewrite shrink_page; [done|].
    intros Hx. pose proof (page_of_inj _ _ _ _ _ Hq Hpg Hx) as ->. rewrite Hpg in Hq. injection Hq as <-. lia.
Qed.

Lemma shrink_protected : checkpoints_protected t -> checkpoints_protected t'.
Proof.
  intros Hpr k c' Hc'. rewrite shrink_at in Hc'.
  assert (exists c, address_at t k = Some c /\ checkpoint_frontier c' = checkpoint_frontier c /\
    (k = j -> checkpoint_frontier c <= kPagedKVPageSize * p)) as (c & Hcc & Hcp & Hlim).
  { pose proof (ao_frontier _ _ _ shrink_ok). case_decide; [|by exists c'].
    injection Hc' as <-. subst k. exists b. split_and!; [done|by rewrite Hb'|intros; lia]. }
  intros q pg' Hq Hlt Hpg'. rewrite Hcp in *. pose proof (si_address _ _ Hc _ _ Hcc) as Hok.
  pose proof (ao_count _ _ _ Hok). pose proof (ao_frontier _ _ _ Hok). unfold kPagedKVPageSize in *.
  rewrite Hmem in Hpg' by lia. rewrite decide_False in Hpg'.
  2: { intros [-> ->]. specialize (Hlim eq_refl). lia. }
  assert (membership t k q ∈ members t k c) as Hin.
  { apply elem_of_memberships. exists q. split; [lia|done]. }
  assert (lh_index (membership t k q) <> lh_index h) as Hne.
  { destruct (decide (k = j)) as [->|Hk].
    - apply shrink_other_index. apply elem_of_memberships. exists q. split; [|done]. specialize (Hlim eq_refl). lia.
    - destruct (shrink_exclusive (membership t k q)) as [|Hn]; [left; by exists k, c|done|].
      destruct (member_page t H k c _ Hc Hcc Hin) as (? & ? & _). congruence. }
  rewrite shrink_page in Hpg' by done. by apply (Hpr k c Hcc q pg').
Qed.
End shrink.

(** ** The loop *)

(** The state with the frontier of address [j] already lowered. *)
Definition lowered (s : Spaces) (j : Z) (a : Address) (front : Z) : Spaces :=
  set_addresses (set_index (addresses_ s) j (set_extent (page_count a) front (checkpoint_frontier a) a)) s.

Lemma lowered_at s j a front k :
  address_at s j = Some a -> address_at (lowered s j a front) k =
    if decide (k = j) then Some (set_extent (page_count a) front (checkpoint_frontier a) a) else address_at s k.
Proof. intros Ha. by apply (address_at_set s _ j a). Qed.

Lemma lowered_inv s H j a front :
  spaces_inv s H -> address_at s j = Some a -> ad_active a = true ->
  checkpoint_frontier a <= front <= frontier a -> spaces_inv (lowered s j a front) H.
Proof.
  intros [Hc Hp] Ha Hact Hf. set (a' := set_extent (page_count a) front (checkpoint_frontier a) a). split.
  - apply (core_address s H _ H j a a'); try done.
    + intros [? Hidle ? ? ? ? ? ? ? Hcov]. split; cbn; try done; [|lia|].
      * intros Ho. destruct (Hidle Ho) as (_ & _ & ?). congruence.
      * intros q pg Hq Hlt Hpg. specialize (Hcov q pg Hq ltac:(lia) Hpg). lia.
    + eapply free_ok_same; [apply (si_free _ _ Hc)|exact Ha|done..].
    + apply store_alike_refl.
    + by apply (reservations_same s H _ j a a').
    + by apply (rows_same s H _ j a a').
  - apply (protected_same s); try done. intros k b'. rewrite (lowered_at s j a front k Ha).
    case_decide; [|by eauto]. intros [= <-]. subst k. by exists a.
Qed.

(** The address with [n] pages left. *)
Record shrinking (s : Spaces) (H : Holders) (j : Z) (a : Address) (front n : Z) (s' : Spaces) (b : Address) : Prop := {
  sk_at : address_at s' j = Some b;
  sk_address : b = set_extent n (frontier a) (checkpoint_frontier a) (set_binding (ad_reservation b) (ad_row a) true a);
  sk_pages : n + rs_pages (ad_reservation b) = page_count a + rs_pages (ad_reservation a);
  sk_inv : spaces_inv (lowered s' j b front) H;
  sk_frame : sp_self s' = sp_self s /\ page_capacity_ s' = page_capacity_ s;
  sk_same : forall q, 0 <= q < n -> membership s' j q = membership s j q /\
    page_of (sp_pages s') (membership s j q) = page_of (sp_pages s) (membership s j q);
}.

Lemma shrinking_start s H j a front :
  spaces_inv s H -> address_at s j = Some a -> ad_active a = true ->
  checkpoint_frontier a <= front <= frontier a -> shrinking s H j a front (page_count a) s a.
Proof.
  intros Hinv Ha Hact Hf. split; try done; [|by apply lowered_inv]. destruct a. cbn in *. by subst.
Qed.

(** A member's position is determined by its descriptor. *)
Lemma member_position s H j a p q :
  core s H -> address_at s j = Some a -> 0 <= p < page_count a -> 0 <= q < page_count a ->
  lh_index (membership s j p) = lh_index (membership s j q) -> p = q.
Proof.
  intros Hc Ha Hp Hq Heq. pose proof (ao_distinct _ _ _ (si_address _ _ Hc _ _ Ha)) as Hnd.
  pose proof (NoDup_lookup (indices (members s j a)) (Z.to_nat p) (Z.to_nat q) (lh_index (membership s j p)) Hnd) as Hsame.
  unfold indices, members in Hsame. rewrite !list_lookup_fmap, !memberships_of_lookup in Hsame by lia.
  cbn in Hsame. rewrite Heq in Hsame. specialize (Hsame eq_refl eq_refl). lia.
Qed.

Lemma drop_active_page_post s H j a front p s' b :
  spaces_inv s H -> address_at s j = Some a -> ad_active a = true ->
  shrinking s H j a front (p + 1) s' b -> 0 <= p < page_count a -> front <= kPagedKVPageSize * p ->
  can_dematerialize (sp_pages s) (membership s j p) = true ->
  post (drop_active_page j p) s' (fun s'' _ => exists b'', shrinking s H j a front p s'' b'') (fun _ _ => False).
Proof.
  intros Hinv Ha Hact Hsk Hp Hfront Hcan. pose proof Hsk as [Hb Hba Hpages Hlow [Hfs Hfc] Hsame].
  destruct (Hsame p ltac:(lia)) as [Hm Hpg0]. set (h := membership s j p) in *. set (t := lowered s' j b front) in *.
  set (bt := set_extent (page_count b) front (checkpoint_frontier b) b).
  assert (address_at t j = Some bt) as Hbt by (unfold t; by rewrite lowered_at, decide_True).
  assert (page_count b = p + 1 /\ ad_active b = true) as [Hcount Hactb] by by rewrite Hba.
  pose proof (proj1 Hlow) as Hct.
  destruct (active_member_page t H j bt h Hct Hbt Hactb) as (pg & Hpg & Hok & Hcn & _ & Hac & Hdev).
  { apply elem_of_memberships. exists p. split; [cbn; lia|done]. }
  change (page_of (sp_pages s') h = Some pg) in Hpg.
  assert (can_dematerialize (sp_pages s') h = true) as Hcan'.
  { unfold can_dematerialize, query in *. by rewrite Hpg0. }
  pose proof Hcan' as Hfacts. unfold can_dematerialize, query in Hfacts. rewrite Hpg in Hfacts. bool_facts.
  destruct (pc_writer _ _ _ _ Hcn ltac:(done)) as [_ Hac1].
  pose proof Hpg as (_ & Hi & Hocc & _)%page_of_Some.
  unfold drop_active_page. eapply post_eq; [reflexivity|]. rewrite Hm.
  eapply post_eq; [by apply (modify_address_eq j b)|]. set (s1 := set_addresses _ s').
  eapply post_eq; [reflexivity|]. set (s2 := set_memberships _ s1).
  set (pg1 := set_refs (references pg) (active_references pg - 1) (writer_references_ pg) pg).
  set (S1 := set_page_at (lh_index h) pg1 (sp_pages s')).
  eapply post_eq.
  { unfold on_pages. change (sp_pages s2) with (sp_pages s').
    rewrite (release_active_reference_eq _ h pg Hpg) by lia. reflexivity. }
  fold pg1 S1. set (s3 := set_sp_pages S1 s2). set (b1 := set_extent p (frontier b) (checkpoint_frontier b) b) in *.
  assert (address_at s3 j = Some b1) as Hb3.
  { change (address_at s1 j = Some b1). rewrite (address_at_set s' s1 j b b1 j Hb eq_refl). by rewrite decide_True. }
  apply (post_address _ b1); [done|]. change (ad_reservation b1) with (ad_reservation b).
  destruct (address_reservation t H j bt Hct Hbt Hactb) as (rest & Hkv & Hback).
  change (ad_reservation bt) with (ad_reservation b) in Hkv. change (sp_pages t) with (sp_pages s') in Hkv.
  assert (kv_inv S1 (ad_reservation b :: rest) []) as Hkv1.
  { eapply write_page_inv; [done|exact Hpg|]. unfold pg1. page_step_tac. }
  assert (page_of S1 h = Some pg1) as Hpg1 by by eapply page_of_write.
  assert (can_dematerialize S1 h = true) as Hcan1.
  { unfold can_dematerialize, query in Hcan' |- *. rewrite Hpg in Hcan'. by rewrite Hpg1. }
  destruct (dematerialize_ok S1 _ 0 (ad_reservation b) h pg1 Hkv1 eq_refl Hpg1) as (S2 & r' & Heq & Hkv2 & Hev & Hr' & Hps).
  { cbn. lia. } { done. }
  eapply post_eq; [unfold on_pages; change (sp_pages s3) with S1; by rewrite Heq|].
  set (s4 := set_sp_pages S2 s3).
  eapply post_end; [by apply (modify_address_eq j b1)|]. cbv beta.
  set (b2 := set_binding r' (ad_row b1) (ad_active b1) b1). set (s5 := set_addresses _ s4). exists b2.
  assert (address_at s5 j = Some b2) as Hb5.
  { rewrite (address_at_set s4 s5 j b1 b2 j Hb3 eq_refl). by rewrite decide_True. }
  cbn [insert list_insert] in Hkv2. pose proof (si_cells _ _ Hct) as Hcells. pose proof (at_index_lt _ _ _ Hbt) as Hj.
  assert (forall k q, 0 <= q < page_capacity_ s' ->
    membership s5 k q = if decide (k = j /\ q = p) then null_logical else membership s' k q) as Hmem5.
  { intros k q Hq. pose proof (ao_count _ _ _ (si_address _ _ (proj1 Hinv) _ _ Ha)) as Hcnt.
    change (membership s5 k q) with (membership s2 k q).
    destruct (decide (k = j /\ q = p)) as [[-> ->]|Hne].
    - exact (put_membership_same t j p null_logical Hq Hj Hcells).
    - apply (put_membership_other s' j p null_logical k q); [lia|done|lia|]. intros [= -> ->]. tauto. }
  split; try done.
  - unfold b2, b1. rewrite Hba. done.
  - cbn [b2 set_binding ad_reservation]. lia.
  - set (t' := lowered s5 j b2 front). set (b' := set_extent p front (checkpoint_frontier b) (set_binding r' (ad_row b) (ad_active b) b)).
    assert (addresses_ t' = set_index (addresses_ t) j b') as Haddr.
    { unfold t', t, lowered, s5, s4, s3, s2, s1. cbn. unfold set_index. by rewrite !list_insert_insert_eq. }
    assert (p = page_count bt - 1) as Hpbt by (cbn; lia).
    assert (pages_ S2 = pages_ (set_page_at (lh_index h) (released_page pg) (sp_pages t))) as Hps'.
    { rewrite Hps. unfold S1. by rewrite set_page_at_twice. }
    assert (b' = set_extent (page_count bt - 1) (frontier bt) (checkpoint_frontier bt)
      (set_binding r' (ad_row bt) (ad_active bt) bt)) as Hb' by (rewrite <- Hpbt; done).
    assert (forall k q, 0 <= q < page_capacity_ t -> membership t' k q =
      if decide (k = j /\ q = page_count bt - 1) then null_logical else membership t k q) as Hmemt.
    { rewrite <- Hpbt. exact Hmem5. }
    assert (membership t j (page_count bt - 1) = h) as Hht by by rewrite <- Hpbt.
    assert (length (memberships_ t') = length (memberships_ t)) as Hlen by apply length_set_index.
    assert (st_self S2 = st_self (sp_pages s')) as Hst by by rewrite (ev_self _ _ Hev).
    split.
    + eapply (shrink_core t t' H j bt b' h pg r' rest); try done; [lia|].
      by rewrite <- Hpbt.
    + eapply (shrink_protected t t' H j bt b' h pg r'); try done; [lia| |apply Hlow].
      by rewrite <- Hpbt.
  - intros q Hq. destruct (Hsame q ltac:(lia)) as [Hmq Hpq]. split.
    + pose proof (ao_count _ _ _ (si_address _ _ (proj1 Hinv) _ _ Ha)). rewrite Hmem5 by lia. by rewrite decide_False by lia.
    + rewrite <- Hpq. change (sp_pages s5) with S2. apply page_of_same.
      * rewrite (ev_self _ _ Hev). done.
      * rewrite Hps. cbn. by rewrite !length_set_index.
      * rewrite Hps. unfold S1. rewrite set_page_at_twice, (at_set_page_at _ _ _ pg _ Hi), decide_False; [done|].
        intros Hx. assert (p = q); [|lia]. apply (member_position s H j a p q (proj1 Hinv) Ha); [lia|lia|done].
Qed.

(** ** The operation *)

(** The address after the cut: the new frontier, the pages it needs, the same entitlement. *)
Definition truncated (s s' : Spaces) (h : KVAddressSpaceHandle) (front : Z) : Prop :=
  forall a, address_of s h = Some a -> exists a', address_of s' h = Some a' /\ frontier a' = front /\
    page_count a' = pages_for_tokens front /\ checkpoint_frontier a' = checkpoint_frontier a /\
    page_count a' + rs_pages (ad_reservation a') = page_count a + rs_pages (ad_reservation a).

(** The cut of the last page that stays. *)
Lemma cut_active_tail_post s H j a front s' b :
  spaces_inv s H -> address_at s j = Some a -> 0 < front <= u32_max ->
  let n := pages_for_tokens front in shrinking s H j a front n s' b ->
  can_destructive_truncate (sp_pages s) (membership s j (n - 1)) (tail_extent front n) = true ->
  post (  h ← get_membership j (n - 1);
          on_pages (LogicalKVPageStore.destructive_truncate h (tail_extent front n))) s'
    (fun s'' _ => address_at s'' j = Some b /\ spaces_inv (lowered s'' j b front) H /\ sp_self s'' = sp_self s')
    (fun _ _ => False).
Proof.
  intros Hinv Ha Hf n Hsk Hcan. pose proof Hsk as [Hb Hba Hpages [Hct Hpt] _ Hsame].
  pose proof (pages_for_tokens_pos front ltac:(lia)) as Hpos. fold n in Hpos.
  assert (1 <= n) as Hn by (unfold kPagedKVPageSize in *; lia). destruct (Hsame (n - 1) ltac:(lia)) as [Hm Hpg0].
  set (h := membership s j (n - 1)) in *. set (t := lowered s' j b front) in *.
  unfold can_destructive_truncate, query in Hcan. destruct (page_of (sp_pages s) h) as [pg|] eqn:Hpg; [|done].
  bool_facts.
  set (bt := set_extent (page_count b) front (checkpoint_frontier b) b).
  assert (address_at t j = Some bt) as Hbt by (unfold t; by rewrite lowered_at, decide_True).
  assert (page_count b = n) as Hcount by by rewrite Hba.
  assert (page_of (sp_pages t) h = Some pg) as Hpgt by exact Hpg0.
  pose proof (page_of_ok _ _ _ (kv_desc _ _ _ (si_pages _ _ Hct)) Hpgt) as Hok.
  pose proof Hpgt as (_ & Hi & Hocc & _)%page_of_Some.
  eapply post_eq; [reflexivity|]. rewrite Hm.
  eapply post_end.
  { unfold on_pages, LogicalKVPageStore.destructive_truncate, LogicalKVPageStore.require, write_page. unfold_M.
    rewrite Hpg0. match goal with |- context [if ?c then Throw _ else _] => assert (c = false) as -> end.
    { rewrite !orb_false_iff, !negb_false_iff, !Z.eqb_eq, !Z.ltb_ge. split_and!; done || lia. }
    reflexivity. }
  split; [exact Hb|]. split; [|done].
  set (pg' := cut_content (tail_extent front n) pg).
  assert (page_step pg pg') as Hst.
  { apply cut_content_step; try done; [by apply has_None|by left]. }
  assert (h ∈ members t j bt) as Hin.
  { apply elem_of_memberships. exists (n - 1). split; [cbn; lia|done]. }
  change (spaces_inv (written t h pg') H). split.
  - apply (written_core t H j bt h pg pg'); try done; [apply cut_content_counts|].
    intros p Hp Hlt Hmp. unfold pg'. rewrite cut_content_committed.
    apply (tail_covers t H j bt front Hct Hbt); try done; [lia|]. rewrite Hmp. symmetry. exact Hm.
  - apply (written_protected t H h pg pg'); try done. unfold pg'. by rewrite cut_content_protected.
Qed.

Lemma destructive_truncate_post s H h front :
  spaces_inv s H -> 0 <= front -> (forall a, address_of s h = Some a -> checkpoint_frontier a <= front) ->
  post (destructive_truncate h front) s (fun s' _ => spaces_inv s' H /\ truncated s s' h front) (unchanged s).
Proof.
  intros Hinv Hf0 Hcp. pose proof (proj1 Hinv) as Hc. unfold destructive_truncate.
  apply post_require_active; [done..|]. intros a Haddr Hact%active_address_flag. specialize (Hcp a Haddr).
  pose proof (address_of_at _ _ _ Haddr) as Ha. set (j := ah_index h) in *. set (n := pages_for_tokens front).
  apply post_throw_if; [done|]. intros Hle. bool_facts. pose proof (si_address _ _ Hc _ _ Ha) as Hok.
  pose proof (ao_count _ _ _ Hok). pose proof (ao_frontier _ _ _ Hok).
  pose proof (pages_for_tokens_le front (page_count a) ltac:(lia) ltac:(lia) ltac:(lia)) as Hn. fold n in Hn.
  pose proof (pages_for_tokens_nonneg front Hf0) as Hn0. fold n in Hn0.
  pose proof (pages_for_tokens_cover front Hf0) as Hcover. fold n in Hcover.
  destruct ((front =? frontier a) && (n =? page_count a)) eqn:Hsame.
  { bool_facts. apply post_ret. split; [done|]. intros b Hb. assert (b = a) as -> by congruence. by exists a. }
  clear Hsame. apply post_get, post_throw_if; [done|]. intros Hall%negb_false_iff. apply post_throw_if; [done|].
  intros Htail. eapply post_bind with (Q := fun s' _ => exists b, shrinking s H j a front n s' b).
  { apply (for_pages_down_post n (page_count a) _ (fun m s' => exists b, shrinking s H j a front m s' b)); [done| |].
    - exists a. by apply shrinking_start.
    - intros p s' Hp [b Hsk]. eapply post_except; [apply (drop_active_page_post s H j a front p s' b)|]; try done;
        [lia|unfold kPagedKVPageSize in *; lia|].
      rewrite forallb_forall in Hall. apply (Hall p), list_elem_of_In, elem_of_seqZ. lia. }
  intros s1 [] [b Hsk]. assert (page_count b = n /\ checkpoint_frontier b = checkpoint_frontier a) as [Hcount Hcpb].
  { by rewrite (sk_address _ _ _ _ _ _ _ _ Hsk). }
  eapply post_bind with (Q := fun s2 _ => address_at s2 j = Some b /\ spaces_inv (lowered s2 j b front) H /\ sp_self s2 = sp_self s).
  { pose proof (sk_frame _ _ _ _ _ _ _ _ Hsk) as [Hself _]. destruct (Z.eqb_spec n 0) as [Hz|Hz]; cbn [negb] in *.
    - apply post_ret. split_and!; [by eapply sk_at|by eapply sk_inv|done].
    - apply andb_false_iff in Htail as [|Htail%negb_false_iff]; [done|].
      eapply post_weaken; [eapply post_except; [apply (cut_active_tail_post s H j a front s1 b)|]|]; try done.
      + unfold kPagedKVPageSize in *. destruct (decide (front = 0)) as [E|]; [|lia]. exfalso. apply Hz. unfold n. by rewrite E.
      + intros s2 [] (? & ? & ?). split_and!; [done|done|congruence]. }
  intros s2 [] (Hb2 & Hinv2 & Hself2). eapply post_end; [by apply modify_address_eq|].
  split; [done|]. intros a0 Ha0. assert (a0 = a) as -> by congruence.
  exists (set_extent (page_count b) front (checkpoint_frontier b) b). split_and!; try done.
  - apply address_of_Some in Haddr as (Ho & _ & Hocc & Hg). apply address_of_Some. fold j.
    change (address_at _ j) with (address_at (lowered s2 j b front) j). rewrite (lowered_at s2 j b front j Hb2), decide_True by done.
    change (sp_self _) with (sp_self s2). rewrite Hself2.
    pose proof (sk_address _ _ _ _ _ _ _ _ Hsk) as ->. done.
  - cbn. rewrite Hcount. apply (sk_pages _ _ _ _ _ _ _ _ Hsk).
Qed.
