(* ===== verification/KVAddressShare.v ===== *)
(** * Address spaces: pins, and an address made of another's pages

    What a prepared fork or snapshot holds besides its reservation and row: pins on the source pages
    and, for a partial tail, a page that the tail is copied to. *)

From S2P Require Import Prelude Post Extents Tensor KVGeometry DevicePagePool DevicePoolInvariant DevicePoolOps ExecutionTables KVPages KVPagesInvariant KVPagesSpec KVAddress KVAddressPages KVAddressInvariant KVAddressUpdate KVAddressProtect KVAddressOps KVAddressActivation KVAddressGrowth.
Import LogicalKVPageStore KVAddressSpaceStore.

(** ** Pins *)

Definition add_pins (d : Z) (pg : Page) : Page := set_pins (source_pins_ pg + d) (destination_pinned pg) pg.

Lemma add_pins_keeps d : keeps_slot (add_pins d).
Proof. by intros pg. Qed.

Section pins.
Context (s : Spaces) (H : Holders) (Q : list Pin) (hs : list LogicalKVPageHandle) (d : Z).
Context (Hinv : spaces_inv s H) (Hnd : NoDup (indices hs)).
Context (Hpages : Forall (fun h => exists pg, page_of (sp_pages s) h = Some pg /\ 1 <= references pg /\
  0 <= source_pins_ pg + d <= u32_max) hs).
Context (Hcount : forall i, count_pins Q i = count_pins (hd_pins H) i + d * member_of i hs).
Context (Hok : Forall (pin_ok s) Q).

Definition repinned : Spaces := set_sp_pages (upd_pages hs (add_pins d) (sp_pages s)) s.

Lemma repinned_page h pg :
  page_of (sp_pages s) h = Some pg ->
  page_of (sp_pages repinned) h = Some (if decide (lh_index h ∈ indices hs) then add_pins d pg else pg).
Proof.
  intros Hpg. apply upd_pages_kept; [apply add_pins_keeps|done| |done].
  apply (Forall_impl _ _ _ Hpages). intros x (q & -> & _). done.
Qed.

(** Everything but the pins of a page. *)
Lemma repinned_same h pg :
  page_of (sp_pages s) h = Some pg -> exists pg', page_of (sp_pages repinned) h = Some pg' /\
    committed_columns_ pg' = committed_columns_ pg /\ protected_columns_ pg' = protected_columns_ pg /\
    writer_references_ pg' = writer_references_ pg.
Proof. intros Hpg. eexists. split; [by apply repinned_page|]. by case_decide. Qed.

Lemma repinned_hit h pg :
  page_of (sp_pages s) h = Some pg -> lh_index h ∈ indices hs ->
  1 <= references pg /\ 0 <= source_pins_ pg + d <= u32_max.
Proof.
  intros Hpg (x & Hx & Hin)%list_elem_of_fmap.
  pose proof (proj1 (Forall_forall _ _) Hpages x Hin) as (q & Hq & ?).
  pose proof (page_of_inj _ _ _ _ _ Hpg Hq Hx) as ->. rewrite Hpg in Hq. by injection Hq as <-.
Qed.

Lemma repinned_core : core repinned (with_pins Q H).
Proof.
  pose proof (proj1 Hinv) as Hc. apply (core_update s repinned H (with_pins Q H) (-1) Hc).
  pose proof Hc as []. split; try done.
  - apply upd_pages_inv; [done|done|]. apply (Forall_impl _ _ _ Hpages). intros h (pg & Hpg & Hr & Hp).
    exists pg. split; [done|]. pose proof (page_of_ok _ _ _ (kv_desc _ _ _ si_pages) Hpg) as Hpok.
    pose proof Hpg as (_ & _ & Hocc & _)%page_of_Some. unfold add_pins. page_step_tac.
  - by destruct si_free.
  - intros h pg Hpg _. eexists. split; [by apply repinned_page|]. case_decide as Hin; [|apply kept_refl].
    destruct (repinned_hit h pg Hpg Hin) as [Hr _]. split; [done|].
    unfold transfer_destination. intros Ht. bool_facts. lia.
  - intros i pg Hi Ho. assert (Forall (fun h => is_Some (page_of (sp_pages s) h)) hs) as Hv.
    { apply (Forall_impl _ _ _ Hpages). intros x (q & -> & _). done. }
    destruct (upd_pages_cases _ _ _ (add_pins_keeps d) Hnd Hv i pg Hi) as (pg0 & Hi0 & Ho0 & [[Hni ->]|[Hin ->]]).
    + destruct (si_counts i pg0 Hi0 Ho) as [Cr Ca Cp Cw Cd]. split; try done. rewrite Hcount, member_of_out by done. lia.
    + destruct (si_counts i pg0 Hi0 ltac:(congruence)) as [Cr Ca Cp Cw Cd]. split; try done.
      rewrite Hcount, member_of_in by done. cbn. lia.
  - intros q Hq Hj. pose proof (proj1 (Forall_forall _ _) Hok q Hq) as (a & (_ & Ha%at_index_lt & _)%address_of_Some & _).
    lia.
  - intros q h pg' Hq Hsh Hh Hpg'. pose proof (proj1 (Forall_forall _ _) Hok q Hq) as (a & Ha & Hpre & _ & _ & Hw).
    specialize (Hw Hsh). rewrite Forall_forall in Hw. apply address_of_Some in Ha as (_ & Ha & _).
    destruct (member_page s H _ a h Hc Ha) as (pg & Hpg & _); [by eapply elem_of_prefix|].
    destruct (repinned_same h pg Hpg) as (pg2 & Hpg2 & _ & _ & Hw2).
    change (page_of (sp_pages repinned) h = Some pg') in Hpg'. rewrite Hpg2 in Hpg'. injection Hpg' as <-.
    rewrite Hw2. by apply (Hw h).
Qed.

Lemma repinned_inv : spaces_inv repinned (with_pins Q H).
Proof.
  split; [apply repinned_core|]. intros k b Hb p pg' Hp Hlt Hpg'. destruct Hinv as [Hc Hpr].
  change (membership repinned k p) with (membership s k p) in Hpg'. change (address_at s k = Some b) in Hb.
  pose proof (si_address _ _ Hc _ _ Hb) as Haok. pose proof (ao_count _ _ _ Haok). pose proof (ao_frontier _ _ _ Haok).
  destruct (member_page s H k b (membership s k p) Hc Hb) as (pg & Hpg & _).
  { apply elem_of_memberships. exists p. unfold kPagedKVPageSize in *. split; [lia|done]. }
  destruct (repinned_same _ pg Hpg) as (pg2 & Hpg2 & _ & Hpr2 & _). rewrite Hpg2 in Hpg'. injection Hpg' as <-.
  rewrite Hpr2. by apply (Hpr k b Hb p pg).
Qed.
End pins.

Lemma count_pins_cons q Q i : count_pins (q :: Q) i = member_of i (pin_pages q) + count_pins Q i.
Proof. done. Qed.

(** Taking back a pin. *)
Lemma unpinned_inv s H q Q :
  spaces_inv s (with_pins (q :: Q) H) ->
  spaces_inv (set_sp_pages (upd_pages (pin_pages q) (add_pins (-1)) (sp_pages s)) s) (with_pins Q H) /\
  NoDup (indices (pin_pages q)) /\
  Forall (fun h => exists pg, page_of (sp_pages s) h = Some pg /\ 1 <= source_pins_ pg <= u32_max) (pin_pages q).
Proof.
  intros Hinv. pose proof (proj1 Hinv) as Hc. pose proof (si_pins _ _ Hc) as [Hq HQ]%Forall_cons.
  pose proof Hq as (a & Ha & Hpre & _). apply address_of_Some in Ha as (_ & Ha & _).
  assert (NoDup (indices (pin_pages q))) as Hnd.
  { pose proof (ao_distinct _ _ _ (si_address _ _ Hc _ _ Ha)) as Hnd. destruct Hpre as [z Hz]. rewrite Hz in Hnd.
    unfold indices in *. rewrite fmap_app in Hnd. by apply NoDup_app in Hnd as (? & _). }
  assert (Forall (fun h => exists pg, page_of (sp_pages s) h = Some pg /\ 1 <= references pg /\
    1 <= source_pins_ pg <= u32_max) (pin_pages q)) as Hpin.
  { apply Forall_forall. intros h Hh. assert (q ∈ q :: Q) as Hin by by left.
    destruct (pinned_page s (with_pins (q :: Q) H) q h Hc Hin Hh) as (pg & Hpg & Hp & Hr).
    exists pg. split_and!; try done. apply (po_pins _ (page_of_ok _ _ _ (kv_desc _ _ _ (si_pages _ _ Hc)) Hpg)). }
  split_and!; [|done|].
  - apply (repinned_inv s _ Q (pin_pages q) (-1) Hinv Hnd); [| |done].
    + apply (Forall_impl _ _ _ Hpin). intros h (pg & ? & ? & ?). exists pg. split_and!; done || lia.
    + intros i. cbn [hd_pins with_pins]. rewrite count_pins_cons. lia.
  - apply (Forall_impl _ _ _ Hpin). intros h (pg & ? & ? & ?). by exists pg.
Qed.

(** Setting a pin. *)
Lemma pinned_inv s H q :
  spaces_inv s H -> pin_ok s q ->
  Forall (fun h => forall pg, page_of (sp_pages s) h = Some pg -> source_pins_ pg < u32_max) (pin_pages q) ->
  spaces_inv (set_sp_pages (upd_pages (pin_pages q) (add_pins 1) (sp_pages s)) s) (with_pins (q :: hd_pins H) H) /\
  NoDup (indices (pin_pages q)) /\
  Forall (fun h => exists pg, page_of (sp_pages s) h = Some pg /\ 0 <= source_pins_ pg < u32_max) (pin_pages q).
Proof.
  intros Hinv Hq Hroom. pose proof (proj1 Hinv) as Hc. pose proof Hq as (a & Ha & Hpre & _).
  apply address_of_Some in Ha as (_ & Ha & _).
  assert (NoDup (indices (pin_pages q))) as Hnd.
  { pose proof (ao_distinct _ _ _ (si_address _ _ Hc _ _ Ha)) as Hnd. destruct Hpre as [z Hz]. rewrite Hz in Hnd.
    unfold indices in *. rewrite fmap_app in Hnd. by apply NoDup_app in Hnd as (? & _). }
  assert (Forall (fun h => exists pg, page_of (sp_pages s) h = Some pg /\ 1 <= references pg /\
    0 <= source_pins_ pg < u32_max) (pin_pages q)) as Hpin.
  { rewrite Forall_forall in Hroom |- *. intros h Hh.
    destruct (member_page s H _ a h Hc Ha) as (pg & Hpg & Hpok & _ & Hr); [by eapply elem_of_prefix|].
    exists pg. pose proof (po_pins _ Hpok). split_and!; [done|done|lia|by eapply Hroom]. }
  split_and!; [|done|].
  - apply (repinned_inv s _ (q :: hd_pins H) (pin_pages q) 1 Hinv Hnd).
    + apply (Forall_impl _ _ _ Hpin). intros h (pg & ? & ? & ?). exists pg. split_and!; done || lia.
    + intros i. rewrite count_pins_cons. lia.
    + constructor; [done|]. apply (si_pins _ _ Hc).
  - apply (Forall_impl _ _ _ Hpin). intros h (pg & ? & ? & ?). by exists pg.
Qed.

(** ** Transfer destinations *)

(** The pages that were in use stay what they were. *)
Definition pages_stay (S S' : Store) : Prop := forall h pg, page_of S h = Some pg -> page_of S' h = Some pg.

Lemma dests_index_free s H h :
  core s H -> (forall pg, at_index (pages_ (sp_pages s)) (lh_index h) = Some pg -> occupied pg = false) ->
  lh_index h ∉ indices (hd_dests H).*1.
Proof.
  intros Hc Hfree (x & Hx & (d & -> & Hd)%list_elem_of_fmap)%list_elem_of_fmap.
  pose proof (proj1 (Forall_forall _ _) (proj2 (si_dests _ _ Hc)) d Hd) as (pg & Hpg & _).
  apply page_of_Some in Hpg as (_ & Hi & Ho & _). rewrite <- Hx in Hi. specialize (Hfree pg Hi). congruence.
Qed.

Lemma stay_protected s S' H :
  core s H -> pages_stay (sp_pages s) S' -> checkpoints_protected s -> checkpoints_protected (set_sp_pages S' s).
Proof.
  intros Hc Hstay Hp k b Hb p pg' Hn Hlt Hpg'. change (membership (set_sp_pages S' s) k p) with (membership s k p) in Hpg'.
  change (address_at s k = Some b) in Hb. pose proof (si_address _ _ Hc _ _ Hb) as Hok.
  pose proof (ao_count _ _ _ Hok). pose proof (ao_frontier _ _ _ Hok).
  destruct (member_page s H k b (membership s k p) Hc Hb) as (pg & Hpg & _).
  { apply elem_of_memberships. exists p. unfold kPagedKVPageSize in *. split; [lia|done]. }
  cbn [sp_pages set_sp_pages] in Hpg'. rewrite (Hstay _ _ Hpg) in Hpg'. injection Hpg' as <-. by apply (Hp k b Hb p pg).
Qed.

Lemma take_destination s H r R columns :
  spaces_inv s (with_res (r :: R) H) -> 0 <= columns ->
  match on_pages (materialize_transfer_destination r columns) s with
  | (s', Ok (r', h)) =>
      spaces_inv s' (with_dests ((h, columns) :: hd_dests H) (with_res (r' :: R) H)) /\
      rs_pages r' = rs_pages r - 1 /\ s' = set_sp_pages (sp_pages s') s /\ pages_stay (sp_pages s) (sp_pages s')
  | (s', Throw e) => s' = s /\ e <> Terminate
  end.
Proof.
  intros [Hc Hp] Hcol. pose proof (materialize_transfer_call _ _ 0 r columns (si_pages _ _ Hc) eq_refl Hcol) as Hmat.
  unfold on_pages. destruct (materialize_transfer_destination r columns (sp_pages s)) as [S' [[r' h]|e]].
  2: { destruct Hmat as [-> ?]. by rewrite set_sp_pages_same. }
  destruct Hmat as (Hkv & Hev & Hr & [_ Hnew Hfree Hsame]). specialize (Hr r eq_refl).
  apply Forall_singleton in Hnew as (pg & Hpg & Ht & Hcm & Hac). rewrite Forall_singleton in Hfree.
  assert (pages_stay (sp_pages s) S') as Hstay.
  { intros x q Hq. rewrite <- Hq. apply page_of_same; [apply Hev|apply Hev|]. apply Hsame.
    intros Hx%list_elem_of_singleton. apply page_of_Some in Hq as (_ & Hi & Ho & _). rewrite Hx in Hi.
    specialize (Hfree q Hi). congruence. }
  set (s' := set_sp_pages S' s). cbn [sp_pages s' set_sp_pages].
  assert (core s' (with_res (r' :: R) H)) as Hc'.
  { apply (core_update s s' _ _ (-1) Hc). pose proof Hc as []. split; try done.
    - by destruct si_free.
    - intros x q Hq _. exists q. split; [by apply Hstay|apply kept_refl].
    - intros i q Hi Ho. change (counts_at s (hd_pins H) i q). destruct (decide (i = lh_index h)) as [->|Hne].
      + pose proof Hpg as (_ & Hi' & _)%page_of_Some. change (at_index (pages_ S') (lh_index h) = Some q) in Hi.
        rewrite Hi in Hi'. injection Hi' as ->. unfold transfer_destination in Ht. bool_facts. unfold counts_at.
        rewrite (free_count_refs s _ Hc _ Hfree), (free_count_active s _ Hc _ Hfree).
        pose proof (free_count_pins s _ Hc _ Hfree) as Hcp. cbn [hd_pins with_res] in Hcp. rewrite Hcp.
        split; try done; lia.
      + apply si_counts; [|done]. rewrite <- Hsame; [done|]. by intros ?%list_elem_of_singleton.
    - intros q Hq Hj. pose proof (proj1 (Forall_forall _ _) si_pins q Hq) as (a & (_ & Ha%at_index_lt & _)%address_of_Some & _).
      lia.
    - apply (pinned_writers s _ S' Hc). intros x q Hq _ _ Hw. exists q. split; [by apply Hstay|done]. }
  split_and!; [split; [|by eapply (stay_protected s S')]|done|done|done].
  destruct Hc' as []. split; try done. cbn [hd_dests with_dests]. destruct si_dests as [Hnd Hall]. split.
  - cbn. constructor; [|done]. exact (dests_index_free s _ h Hc Hfree).
  - constructor; [|done]. by exists pg.
Qed.

(** Giving the destination back. *)
Lemma drop_destination s H r R h columns D :
  spaces_inv s (with_dests ((h, columns) :: D) (with_res (r :: R) H)) ->
  exists s' r', on_pages (abort_transfer_destination h r) s = (s', Ok r') /\
    spaces_inv s' (with_dests D (with_res (r' :: R) H)) /\ s' = set_sp_pages (sp_pages s') s.
Proof.
  intros [Hc Hp]. pose proof (si_pages _ _ Hc) as Hkv.
  destruct (abort_transfer_call _ _ 0 r h Hkv eq_refl) as (S' & r' & Heq & Hkv' & Hev & Hpages).
  pose proof (si_dests _ _ Hc) as [Hnd [(pg & Hpg & Ht & Hcm) HD]%Forall_cons]. cbn in Hnd, Hpg.
  apply NoDup_cons in Hnd as [Hnh Hnd]. destruct (Hpages pg Hpg Ht) as [_ HS].
  pose proof Hpg as (_ & Hi & Hocc & _)%page_of_Some.
  assert (forall i, at_index (pages_ S') i = if decide (lh_index h = i) then Some (released_page pg) else at_index (pages_ (sp_pages s)) i) as Hat.
  { intros i. rewrite HS. by apply (at_set_page_at _ _ _ pg). }
  assert (forall x q, page_of (sp_pages s) x = Some q -> lh_index x <> lh_index h -> page_of S' x = Some q) as Hstay.
  { intros x q Hq Hx. rewrite <- Hq. apply page_of_same; [apply Hev|apply Hev|]. by rewrite Hat, decide_False. }
  assert (forall x q, page_of (sp_pages s) x = Some q -> 1 <= references q -> page_of S' x = Some q) as Hmember.
  { intros x q Hq Hr. apply Hstay; [done|]. intros Hx. pose proof (page_of_inj _ _ _ _ _ Hq Hpg Hx) as ->.
    rewrite Hpg in Hq. injection Hq as <-. unfold transfer_destination in Ht. bool_facts. lia. }
  set (s' := set_sp_pages S' s). exists s', r'. split; [unfold on_pages; by rewrite Heq|]. split; [|done]. split.
  - apply (core_update s s' _ _ (-1) Hc). pose proof Hc as []. split; try done.
    + by destruct si_free.
    + intros x q Hq Hheld. exists q. split; [|apply kept_refl]. destruct Hheld as [(k & b & _ & Hb & Hx)|[(z & Hz & Hx)|Hx]].
      * destruct (member_page s _ k b x Hc Hb Hx) as (q' & Hq' & _ & _ & Hr). apply Hmember; [done|congruence].
      * destruct (pinned_page s _ z x Hc Hz Hx) as (q' & Hq' & _ & Hr). apply Hmember; [done|congruence].
      * apply Hstay; [done|]. intros Heqx. apply Hnh. change (lh_index h ∈ indices D.*1). rewrite <- Heqx.
        by apply list_elem_of_fmap_2.
    + intros i q Hi' Ho. change (counts_at s (hd_pins H) i q). change (at_index (pages_ S') i = Some q) in Hi'.
      rewrite Hat in Hi'. case_decide; [by injection Hi' as <-|]. by apply si_counts.
    + intros z Hz Hj. pose proof (proj1 (Forall_forall _ _) si_pins z Hz) as (a & (_ & Ha%at_index_lt & _)%address_of_Some & _).
      lia.
    + apply (pinned_writers s _ S' Hc). intros x q Hq _ Hr Hw. exists q. split; [by apply Hmember|done].
  - intros k b Hb p pg' Hn Hlt Hpg'. change (membership s' k p) with (membership s k p) in Hpg'.
    change (address_at s k = Some b) in Hb. pose proof (si_address _ _ Hc _ _ Hb) as Hok.
    pose proof (ao_count _ _ _ Hok). pose proof (ao_frontier _ _ _ Hok).
    destruct (member_page s _ k b (membership s k p) Hc Hb) as (q & Hq & _ & _ & Hr).
    { apply elem_of_memberships. exists p. unfold kPagedKVPageSize in *. split; [lia|done]. }
    change (page_of S' (membership s k p) = Some pg') in Hpg'. rewrite (Hmember _ _ Hq Hr) in Hpg'.
    injection Hpg' as <-. by apply (Hp k b Hb p q).
Qed.

(** ** An address made of another's pages

    A fork or a snapshot gives an empty address the full pages of its source, which are shared from
    then on, and the copied tail, which it writes alone; the address becomes active with the
    reservation and the row that were prepared for it. *)

(** A full page with one more active address. *)
Definition shared (pg : Page) : Page :=
  set_refs (references pg + 1) (active_references pg + 1) (writer_references_ pg)
    (set_content (content_epoch_ pg) (committed_columns_ pg) (Z.max (protected_columns_ pg) kPagedKVPageSize) pg).

(** The copied tail with its first address. *)
Definition published (pg : Page) : Page :=
  set_pins (source_pins_ pg) false (set_refs 1 (active_references pg + 1) 1 pg).

Lemma shared_keeps : keeps_slot shared.
Proof. by intros pg. Qed.

Lemma published_keeps : keeps_slot published.
Proof. by intros pg. Qed.

(** A page that can be shared. *)
Record shareable (pg : Page) : Prop := {
  sh_refs : 1 <= references pg < u32_max;
  sh_writer : writer_references_ pg = 0;
  sh_full : kPagedKVPageSize <= committed_columns_ pg;
  sh_device : has (device_replica pg) = true;
}.

Section share.
Context (s s' : Spaces) (H : Holders) (r : DeviceKVPageReservation) (R : list DeviceKVPageReservation)
  (row : KVExecutionRowLease) (W : list KVExecutionRowLease) (T D : list (LogicalKVPageHandle * Z)).
Context (fulls : list LogicalKVPageHandle) (j : Z) (b : Address) (front : Z) (t : KVExecutionTablePool)
  (l : list LogicalKVPageHandle).
Context (HR : hd_res H = r :: R) (HW : hd_rows H = row :: W) (HD : hd_dests H = T ++ D).
Context (Hinv : spaces_inv s H) (Hb : address_at s j = Some b) (Hact : ad_active b = false) (Hocc : ad_occupied b = true)
  (Hcount : page_count b = 0).
Let all : list LogicalKVPageHandle := fulls ++ T.*1.
Let n := Z.of_nat (length all).
Let S' := upd_pages T.*1 published (upd_pages fulls shared (sp_pages s)).
Let b' := set_extent n front (checkpoint_frontier b) (set_binding r (Some row) true b).
Let H' := mkHolders R W (hd_pins H) D.
Context (Hcap : n + rs_pages r <= page_capacity_ s) (Hfront : 0 <= front <= kPagedKVPageSize * n /\ front <= u32_max).
Context (Hnd : NoDup (indices fulls))
  (Hshare : Forall (fun h => exists pg, page_of (sp_pages s) h = Some pg /\ shareable pg) fulls).
Context (Hcols : forall p h pg, all !! p = Some h -> page_of (sp_pages s) h = Some pg ->
  Z.min kPagedKVPageSize (front - kPagedKVPageSize * Z.of_nat p) <= committed_columns_ pg).
Context (Ht : rows_ok t (hd_rows H ++ addr_rows s)) (Htc : page_capacity t = page_capacity (sp_tables s)).
Context (Hl : length l = length (memberships_ s)).
Context (Hm : forall k q, 0 <= q < page_capacity_ s -> membership (set_memberships l s) k q =
  if decide (k = j /\ q < n) then default null_logical (all !! Z.to_nat q) else membership s k q).
Context (Hs' : s' = set_addresses (set_index (addresses_ s) j b')
  (set_memberships l (set_sp_tables t (set_sp_pages S' s)))).

Lemma share_core_inv : core s H.
Proof. apply Hinv. Qed.

Lemma share_tails :
  NoDup (indices T.*1) /\ Forall (fun h => exists pg, page_of (sp_pages s) h = Some pg /\ transfer_destination pg = true) T.*1.
Proof.
  destruct (si_dests _ _ share_core_inv) as [Hd Hall]. rewrite HD in Hd, Hall. apply Forall_app in Hall as [Hall _].
  unfold indices in *. rewrite !fmap_app in Hd. apply NoDup_app in Hd as (Hd & _ & _). split; [done|].
  apply Forall_forall. intros h (d & -> & Hin)%list_elem_of_fmap. rewrite Forall_forall in Hall.
  destruct (Hall d Hin) as (pg & ? & ? & _). by exists pg.
Qed.

Lemma share_full_not_tail h pg :
  h ∈ fulls -> page_of (sp_pages s) h = Some pg -> lh_index h ∉ indices T.*1.
Proof.
  intros Hh Hpg (x & Hx & Hin)%list_elem_of_fmap. destruct share_tails as [_ Ht']. rewrite Forall_forall in Ht', Hshare.
  destruct (Ht' x Hin) as (q & Hq & Htr). pose proof (page_of_inj _ _ _ _ _ Hpg Hq Hx) as ->.
  destruct (Hshare x Hh) as (q' & Hq' & [Hr _ _ _]). assert (q' = q) as -> by congruence.
  unfold transfer_destination in Htr. bool_facts. lia.
Qed.

Lemma share_full_valid : Forall (fun h => is_Some (page_of (sp_pages s) h)) fulls.
Proof. apply (Forall_impl _ _ _ Hshare). intros h (pg & -> & _). done. Qed.

(** The store after the first loop. *)
Lemma share_mid_page h pg :
  page_of (sp_pages s) h = Some pg ->
  page_of (upd_pages fulls shared (sp_pages s)) h = Some (if decide (lh_index h ∈ indices fulls) then shared pg else pg).
Proof. apply (upd_pages_kept _ _ _ shared_keeps Hnd share_full_valid). Qed.

Lemma share_tail_mid h : h ∈ T.*1 -> exists pg, page_of (sp_pages s) h = Some pg /\ transfer_destination pg = true /\
  page_of (upd_pages fulls shared (sp_pages s)) h = Some pg.
Proof.
  intros Hh. destruct share_tails as [_ Ht']. rewrite Forall_forall in Ht'. destruct (Ht' h Hh) as (pg & Hpg & Htr).
  exists pg. split_and!; [done|done|]. rewrite (share_mid_page h pg Hpg). rewrite decide_False; [done|].
  intros (x & Hx & Hin)%list_elem_of_fmap. pose proof (proj1 (Forall_forall _ _) Hshare x Hin) as (q & Hq & _).
  pose proof (page_of_inj _ _ _ _ _ Hpg Hq Hx) as <-. apply (share_full_not_tail h pg Hin Hpg).
  by apply list_elem_of_fmap_2.
Qed.

Lemma share_tail_valid : Forall (fun h => is_Some (page_of (upd_pages fulls shared (sp_pages s)) h)) T.*1.
Proof. apply Forall_forall. intros h Hh. destruct (share_tail_mid h Hh) as (pg & _ & _ & ->). done. Qed.

Lemma share_pages : sp_pages s' = S'.
Proof. by rewrite Hs'. Qed.

Lemma share_page h pg :
  page_of (sp_pages s) h = Some pg ->
  page_of (sp_pages s') h = Some (if decide (lh_index h ∈ indices T.*1) then published pg
    else if decide (lh_index h ∈ indices fulls) then shared pg else pg).
Proof.
  intros Hpg. rewrite share_pages. unfold S'. pose proof (share_mid_page h pg Hpg) as Hmid.
  rewrite (upd_pages_kept _ _ _ published_keeps (proj1 share_tails) share_tail_valid h _ Hmid).
  f_equal. destruct (decide (lh_index h ∈ indices T.*1)) as [Hin|]; [|done]. apply list_elem_of_fmap in Hin as (x & Hx & Hin).
  destruct (share_tail_mid x Hin) as (q & Hq & Htr & Hqm). pose proof (page_of_inj _ _ _ _ _ Hpg Hq Hx) as ->.
  rewrite Hmid in Hqm. rewrite Hpg in Hq. injection Hq as <-. congruence.
Qed.

Lemma share_kv : kv_inv S' (hd_res H ++ addr_res s) [].
Proof.
  apply upd_pages_inv; [apply upd_pages_inv|apply share_tails|]; [apply share_core_inv|done| |].
  - apply (Forall_impl _ _ _ Hshare). intros h (pg & Hpg & [Hr Hw Hf Hd]). exists pg. split; [done|].
    pose proof (page_of_ok _ _ _ (kv_desc _ _ _ (si_pages _ _ share_core_inv)) Hpg) as Hok.
    pose proof Hpg as (_ & _ & Ho & _)%page_of_Some. unfold shared. page_step_tac.
  - apply Forall_forall. intros h Hh. destruct (share_tail_mid h Hh) as (pg & Hpg & Htr & Hmid). exists pg. split; [done|].
    pose proof (page_of_ok _ _ _ (kv_desc _ _ _ (si_pages _ _ share_core_inv)) Hpg) as Hok.
    pose proof Hpg as (_ & _ & Ho & _)%page_of_Some. unfold transfer_destination in Htr. bool_facts.
    unfold published. page_step_tac.
Qed.

Lemma share_at k : address_at s' k = if decide (k = j) then Some b' else address_at s k.
Proof. apply (address_at_set s s' j b b' k Hb). by rewrite Hs'. Qed.

Lemma share_membership k q : 0 <= q < page_capacity_ s -> membership s' k q =
  if decide (k = j /\ q < n) then default null_logical (all !! Z.to_nat q) else membership s k q.
Proof. intros Hq. rewrite <- Hm by done. by rewrite Hs'. Qed.

Lemma share_room : 0 <= rs_pages r /\ reservation_valid r = true /\ 0 <= n <= page_capacity_ s.
Proof.
  destruct (known_reservation _ _ _ r (si_pages _ _ share_core_inv)) as [Hv Hn]; [rewrite HR; by left|].
  split_and!; [done|done|unfold n; lia|lia].
Qed.

Lemma share_members : members s' j b' = all.
Proof.
  destruct share_room as (_ & _ & Hn). apply list_eq. intros k. unfold members. cbn [page_count b' set_extent set_binding].
  destruct (decide (Z.of_nat k < n)) as [Hk|Hk].
  - replace k with (Z.to_nat (Z.of_nat k)) by lia. rewrite memberships_of_lookup by lia.
    rewrite share_membership, decide_True by lia. rewrite Nat2Z.id.
    destruct (lookup_lt_is_Some_2 all k) as [h Hh]; [unfold n in *; lia|]. by rewrite Hh.
  - pose proof (memberships_of_length s' j n ltac:(lia)). rewrite !lookup_ge_None_2; [done| |]; unfold n in *; lia.
Qed.

Lemma share_ok : address_ok s j b.
Proof. apply (si_address _ _ share_core_inv _ _ Hb). Qed.

(** The shared pages and the tail are in nobody's list at this address. *)
Lemma share_all_page h :
  h ∈ all -> exists pg, page_of (sp_pages s) h = Some pg /\
    (h ∈ fulls /\ shareable pg \/ h ∈ T.*1 /\ transfer_destination pg = true).
Proof.
  intros [Hh|Hh]%elem_of_app.
  - pose proof (proj1 (Forall_forall _ _) Hshare h Hh) as (pg & ? & ?). exists pg. split; [done|by left].
  - pose proof (proj1 (Forall_forall _ _) (proj2 share_tails) h Hh) as (pg & ? & ?). exists pg. split; [done|by right].
Qed.

Lemma share_committed h pg pg' :
  page_of (sp_pages s) h = Some pg -> page_of (sp_pages s') h = Some pg' -> committed_columns_ pg' = committed_columns_ pg.
Proof. intros Hpg Hpg'. rewrite (share_page h pg Hpg) in Hpg'. injection Hpg' as <-. by repeat case_decide. Qed.

Lemma share_distinct : NoDup (indices all).
Proof.
  unfold all, indices. rewrite fmap_app. apply NoDup_app. split_and!; [done| |apply share_tails].
  intros i (h & -> & Hh)%list_elem_of_fmap. pose proof (proj1 (Forall_forall _ _) Hshare h Hh) as (pg & Hpg & _).
  by apply (share_full_not_tail h pg).
Qed.

Lemma share_address : address_ok s' j b'.
Proof.
  pose proof share_ok as Hok. destruct share_room as (Hr & Hv & Hn).
  assert (page_capacity_ s' = page_capacity_ s) as Hpc by by rewrite Hs'.
  pose proof (ao_frontier _ _ _ Hok) as Hf. rewrite Hcount in Hf.
  split; rewrite ?share_members, ?Hpc; cbn [ad_generation ad_occupied ad_active page_count frontier
    checkpoint_frontier ad_row ad_reservation b' set_extent set_binding]; try done.
  - apply (ao_generation _ _ _ Hok).
  - congruence.
  - lia.
  - apply Forall_forall. intros h Hh. destruct (share_all_page h Hh) as (pg & Hpg & _). by rewrite (share_page h pg Hpg).
  - apply share_distinct.
  - intros p Hp. rewrite share_membership by lia. rewrite decide_False by lia. apply (ao_empty _ _ _ Hok). lia.
  - intros p pg' Hp Hlt Hpg'. unfold kPagedKVPageSize in *. rewrite share_membership in Hpg' by lia.
    rewrite decide_True in Hpg' by lia. destruct (lookup_lt_is_Some_2 all (Z.to_nat p)) as [h Hh]; [unfold n in *; lia|].
    rewrite Hh in Hpg'. cbn in Hpg'. destruct (share_all_page h) as (pg & Hpg & _); [by eapply list_elem_of_lookup_2|].
    rewrite (share_committed h pg pg' Hpg Hpg'). specialize (Hcols _ h pg Hh Hpg). rewrite Z2Nat.id in Hcols by lia. lia.
Qed.

Lemma share_counts i pg' :
  at_index (pages_ (sp_pages s')) i = Some pg' -> occupied pg' = true -> counts_at s' (hd_pins H) i pg'.
Proof.
  intros Hi Ho. pose proof share_core_inv as Hc. destruct (counts_update s s' H j b b' i Hc Hb) as [Hcr Hca].
  { by rewrite share_at, decide_True. }
  { rewrite Hs'. apply length_set_index. }
  { intros k Hk. by rewrite share_at, decide_False. }
  { intros k q Hk Hq. rewrite share_membership by done. by rewrite decide_False by tauto. }
  rewrite share_members in Hcr, Hca. rewrite !active_member_flag in Hca.
  cbn [ad_active b' set_extent set_binding] in Hca. rewrite Hact in Hca. cbn [flag] in Hca.
  assert (members s j b = []) as Hnil by (unfold members; rewrite Hcount; done). rewrite Hnil in Hcr, Hca.
  rewrite (member_of_out i []) in Hcr, Hca by apply not_elem_of_nil.
  unfold counts_at. rewrite Hcr, Hca. rewrite share_pages in Hi. unfold S' in Hi.
  destruct (upd_pages_cases _ _ _ published_keeps (proj1 share_tails) share_tail_valid i pg' Hi)
    as (pg1 & Hi1 & Ho1 & [[Hnt ->]|[Hin ->]]).
  - destruct (upd_pages_cases _ _ _ shared_keeps Hnd share_full_valid i pg1 Hi1) as (pg & Hi0 & Ho0 & [[Hnf ->]|[Hin ->]]).
    + rewrite member_of_out. 2: { unfold all, indices. rewrite fmap_app, not_elem_of_app. done. }
      destruct (si_counts _ _ Hc i pg Hi0 ltac:(congruence)) as [Cr Ca Cp Cw Cd]. split; try done; lia.
    + rewrite member_of_in. 2: { unfold all, indices. rewrite fmap_app, elem_of_app. by left. }
      destruct (si_counts _ _ Hc i pg Hi0 ltac:(congruence)) as [Cr Ca Cp Cw Cd].
      apply list_elem_of_fmap in Hin as (h & -> & Hh).
      pose proof (proj1 (Forall_forall _ _) Hshare h Hh) as (q & Hq & [Sr Sw Sf Sd]).
      apply page_of_Some in Hq as (_ & Hq & _). rewrite Hi0 in Hq. injection Hq as <-.
      split; cbn; try done; lia.
  - rewrite member_of_in. 2: { unfold all, indices. rewrite fmap_app, elem_of_app. by right. }
    apply list_elem_of_fmap in Hin as (h & -> & Hh). destruct (share_tail_mid h Hh) as (pg & Hpg & Htr & Hmid).
    apply page_of_Some in Hmid as (_ & Hmid & _). rewrite Hi1 in Hmid. injection Hmid as ->.
    pose proof Hpg as (_ & Hi0 & Ho0 & _)%page_of_Some.
    pose proof (page_of_ok _ _ _ (kv_desc _ _ _ (si_pages _ _ Hc)) Hpg) as Hpok.
    destruct (si_counts _ _ Hc _ pg Hi0 Ho0) as [Cr Ca Cp Cw Cd]. pose proof (po_refs _ Hpok).
    unfold transfer_destination in Htr. bool_facts. split; cbn; try done; lia.
Qed.

Lemma share_free_dest d : d ∈ D -> exists pg, page_of (sp_pages s) d.1 = Some pg /\ transfer_destination pg = true /\
  page_of (sp_pages s') d.1 = Some pg.
Proof.
  intros Hd. destruct (si_dests _ _ share_core_inv) as [Hdn Hall]. rewrite HD in Hdn, Hall.
  apply Forall_app in Hall as [_ Hall]. pose proof (proj1 (Forall_forall _ _) Hall d Hd) as (pg & Hpg & Htr & _).
  exists pg. split_and!; [done|done|]. rewrite (share_page _ pg Hpg). unfold indices in Hdn. rewrite !fmap_app in Hdn.
  apply NoDup_app in Hdn as (_ & Hdis & _). rewrite decide_False.
  2: { intros Hin. apply (Hdis _ Hin). by apply list_elem_of_fmap_2, list_elem_of_fmap_2. }
  rewrite decide_False; [done|]. intros (x & Hx & Hin)%list_elem_of_fmap.
  pose proof (proj1 (Forall_forall _ _) Hshare x Hin) as (q & Hq & [Hr _ _ _]).
  pose proof (page_of_inj _ _ _ _ _ Hpg Hq Hx) as Heq. rewrite <- Heq in Hq. rewrite Hpg in Hq. injection Hq as <-.
  unfold transfer_destination in Htr. bool_facts. lia.
Qed.

Lemma share_held h pg :
  page_of (sp_pages s) h = Some pg -> held_elsewhere s H' j h ->
  exists pg', page_of (sp_pages s') h = Some pg' /\ kept pg pg' /\ protected_columns_ pg <= protected_columns_ pg'.
Proof.
  intros Hpg Hheld. assert ((exists pg', page_of (sp_pages s') h = Some pg' /\ pg' = pg) \/ 1 <= references pg) as Hcase.
  { destruct Hheld as [(k & c & _ & Hk & Hh)|[(q & Hq & Hh)|Hh]].
    - right. destruct (member_page s H k c h share_core_inv Hk Hh) as (q & Hq & _ & _ & Hr). congruence.
    - right. destruct (pinned_page s H q h share_core_inv Hq Hh) as (z & Hz & _ & Hr). congruence.
    - left. apply list_elem_of_fmap in Hh as (d & -> & Hd). destruct (share_free_dest d Hd) as (q & Hq & _ & Hq').
      exists q. split; [done|congruence]. }
  destruct Hcase as [(pg' & Hpg' & ->)|Hr]; [exists pg; split_and!; [done|apply kept_refl|lia]|].
  eexists. split; [by apply share_page|]. assert (transfer_destination pg = false) as Htr.
  { unfold transfer_destination. rewrite !andb_false_iff. do 2 left. right. apply Z.eqb_neq. lia. }
  rewrite decide_False.
  - case_decide; (split; [split; [cbn; lia|congruence]|cbn; lia]).
  - intros (x & Hx & Hin)%list_elem_of_fmap. destruct (share_tail_mid x Hin) as (q & Hq & Hqt & _).
    pose proof (page_of_inj _ _ _ _ _ Hpg Hq Hx) as ->. congruence.
Qed.

Lemma share_update : update s s' H' j.
Proof.
  pose proof share_core_inv as Hc. destruct share_room as (Hr & Hv & Hn).
  assert (addresses_ s' = set_index (addresses_ s) j b') as Haddr by by rewrite Hs'.
  destruct (ao_unbound _ _ _ share_ok Hact) as [Hrow0 Hres0].
  pose proof Hc as []. split; try (rewrite Hs'; done).
  - rewrite Haddr. apply length_set_index.
  - intros k Hk. by rewrite share_at, decide_False.
  - intros k q Hk Hq. rewrite share_membership by done. by rewrite decide_False by tauto.
  - rewrite share_pages. eapply kv_inv_reservations; [|apply share_kv].
    destruct (addr_res_split s j b Hb) as (rest & E1 & E2). rewrite (E2 s' b' Haddr), E1, HR. unfold res_of.
    cbn [ad_reservation b' set_extent set_binding hd_res H']. rewrite Hres0, Hv. cbn. apply Permutation_middle.
  - assert (sp_tables s' = t) as -> by by rewrite Hs'. destruct (addr_rows_split s j b Hb) as (rest & E1 & E2).
    rewrite (E2 s' b' Haddr). rewrite E1, HW, Hrow0 in Ht. cbn [ad_row b' set_extent set_binding hd_rows H'].
    cbn in Ht |- *. by rewrite <- Permutation_middle.
  - apply (free_ok_same s s' j b b'); try done; by rewrite Hs'.
  - rewrite share_at, decide_True by done. intros ? [= <-]. apply share_address.
  - intros h pg Hpg Hheld. destruct (share_held h pg Hpg Hheld) as (pg' & ? & ? & _). by exists pg'.
  - apply share_counts.
  - exact si_pins.
  - intros q Hq Hqj. pose proof (proj1 (Forall_forall _ _) si_pins q Hq) as (c & Hcq & Hpre & _ & Hne & _).
    apply address_of_Some in Hcq as (_ & Hcq & _). rewrite Hqj, Hb in *. injection Hcq as <-.
    unfold members in Hpre. rewrite Hcount in Hpre. by apply prefix_nil_inv in Hpre.
  - destruct si_dests as [Hdn Hall]. rewrite HD in Hdn, Hall. apply Forall_app in Hall as [_ Hall]. split; [|done].
    unfold indices in *. rewrite !fmap_app in Hdn. by apply NoDup_app in Hdn as (_ & _ & ?).
  - apply (pinned_writers s H _ Hc). intros h pg Hpg Hp Hrr Hw. eexists. split; [by apply share_page|].
    rewrite decide_False; [by case_decide|]. intros (x & Hx & Hin)%list_elem_of_fmap.
    destruct (share_tail_mid x Hin) as (q & Hq & Hqt & _). pose proof (page_of_inj _ _ _ _ _ Hpg Hq Hx) as ->.
    rewrite Hpg in Hq. injection Hq as <-. unfold transfer_destination in Hqt. bool_facts. lia.
Qed.

Lemma share_inv : spaces_inv s' H'.
Proof.
  split; [exact (core_update s s' H H' j share_core_inv share_update)|].
  apply (protected_update s s' H H' j share_core_inv share_update); [apply Hinv| |].
  - intros h pg pg' Hpg Hheld Hpg'. destruct (share_held h pg Hpg Hheld) as (pg2 & Hpg2 & _ & Hle). congruence.
  - rewrite share_at, decide_True by done. intros ? [= <-]. intros p pg Hp Hlt. exfalso.
    pose proof (ao_frontier _ _ _ share_ok) as Hf. rewrite Hcount in Hf. cbn [checkpoint_frontier b' set_extent] in Hlt.
    unfold kPagedKVPageSize in *. lia.
Qed.
End share.
