(* ===== verification/KVAddressForks.v ===== *)
(** * Address spaces: prefix forks

    A prefix fork gives an empty address the first tokens of an inactive one: the full pages are
    shared, a partial tail is copied to a page of its own.  Preparing pins the source pages and takes
    the reservation, the row and the tail's destination; committing, aborting or destroying the
    prepared fork gives all of them back. *)

From S2P Require Import Prelude Post Extents Tensor KVGeometry DevicePagePool DevicePoolInvariant DevicePoolOps ExecutionTables KVPages KVPagesInvariant KVPagesSpec KVAddress KVAddressPages KVAddressInvariant KVAddressUpdate KVAddressProtect KVAddressOps KVAddressActivation KVAddressGrowth KVAddressShare.
Import LogicalKVPageStore KVAddressSpaceStore.

(** ** What a prepared fork holds *)

(** The source pages that are pinned: all, or the full ones once the tail is settled. *)
Definition fork_pinned (x : KVPrefixForkReservation) (hs : list LogicalKVPageHandle) : list LogicalKVPageHandle :=
  if fk_tail_source_settled x then take (Z.to_nat (fk_full_pages x)) hs else hs.

Definition pin_list (source : KVAddressSpaceHandle) (hs : list LogicalKVPageHandle) (full : nat) (shared : bool) : list Pin :=
  match hs with [] => [] | _ => [mkPin source hs full shared] end.

Definition dest_list (h : option LogicalKVPageHandle) (columns : Z) : list (LogicalKVPageHandle * Z) :=
  match h with Some h => [(h, columns)] | None => [] end.

Definition fork_held (x : KVPrefixForkReservation) (hs : list LogicalKVPageHandle) (H : Holders) : Holders :=
  mkHolders (fk_page_reservation x :: hd_res H) (option_list (fk_row x) ++ hd_rows H)
    (pin_list (fk_source x) (fork_pinned x hs) (Z.to_nat (fk_full_pages x)) true ++ hd_pins H)
    (dest_list (fk_tail_destination x) (fk_tail_columns x) ++ hd_dests H).

Record fork_ok (self capacity : Z) (x : KVPrefixForkReservation) (hs : list LogicalKVPageHandle) : Prop := {
  fr_owner : fk_owner x = Some self;
  fr_distinct : fk_source x <> fk_destination x;
  fr_front : 0 < fk_frontier x <= u32_max;
  fr_full : fk_full_pages x = fk_frontier x / kPagedKVPageSize;
  fr_tail : fk_tail_columns x = fk_frontier x mod kPagedKVPageSize;
  fr_pages : Z.of_nat (length hs) = pages_for_tokens (fk_frontier x);
  fr_entitlement : pages_for_tokens (fk_frontier x) <= fk_requested_entitlement x <= capacity;
  fr_destination : has (fk_tail_destination x) = negb (fk_tail_columns x =? 0);
  fr_row : has (fk_row x) = true;
  fr_settled : fk_tail_source_settled x = true -> fk_tail_columns x <> 0;
}.

(** Full pages and tail of a frontier. *)
Lemma frontier_parts front :
  0 < front ->
  0 <= front / kPagedKVPageSize /\ 0 <= front mod kPagedKVPageSize < kPagedKVPageSize /\
  front = kPagedKVPageSize * (front / kPagedKVPageSize) + front mod kPagedKVPageSize /\
  pages_for_tokens front = front / kPagedKVPageSize + (if front mod kPagedKVPageSize =? 0 then 0 else 1).
Proof.
  intros Hf. unfold pages_for_tokens, kPagedKVPageSize. destruct (Z.eqb_spec front 0); [lia|].
  pose proof (Z.div_mod front 64). pose proof (Z.mod_pos_bound front 64). pose proof (Z.div_pos front 64).
  pose proof (Z.div_mod (front - 1) 64). pose proof (Z.mod_pos_bound (front - 1) 64).
  destruct (Z.eqb_spec (front mod 64) 0); lia.
Qed.

(** ** Preparing *)

(** A source page as the check of [prepare_prefix_fork] accepts it. *)
Record fork_source (full tail page : Z) (pg : Page) : Prop := {
  fs_device : has (device_replica pg) = true;
  fs_columns : (if page <? full then kPagedKVPageSize else tail) <= committed_columns_ pg;
  fs_writer : writer_references_ pg = 0;
  fs_pins : source_pins_ pg <> u32_max;
  fs_refs : page < full -> references pg <> u32_max;
}.

Lemma check_fork_source_cases i full tail page s :
  match check_fork_source i full tail page s with
  | (s', Ok _) => s' = s /\ exists pg, page_of (sp_pages s) (membership s i page) = Some pg /\ fork_source full tail page pg
  | (s', Throw e) => s' = s /\ e <> Terminate
  end.
Proof.
  unfold check_fork_source, get_membership, ask, device_resident, committed_columns, can_pin_source, can_retain_reference,
    query, LogicalKVPageStore.require. unfold_M.
  destruct (page_of (sp_pages s) (membership s i page)) as [pg|]; [|done].
  match goal with |- context [if ?c then Throw _ else _] => destruct c eqn:Hg end; [done|]. split; [done|].
  exists pg. split; [done|]. rewrite !orb_false_iff, !negb_false_iff, Z.ltb_ge, !andb_false_iff, !andb_true_iff, !negb_true_iff in Hg.
  destruct Hg as (((Hd & Hcm) & (((_ & Hw) & _) & Hp)) & Hr). split; try done.
  - by apply Z.eqb_eq.
  - by apply Z.eqb_neq.
  - intros Hlt. destruct Hr as [Hr|Hr]; [apply Z.ltb_ge in Hr; lia|].
    rewrite !negb_false_iff, !andb_true_iff, !negb_true_iff in Hr. by apply Z.eqb_neq, Hr.
Qed.

(** A loop of checks over positions. *)
Lemma for_pages_check {A} (P : Z -> Spaces -> Prop) b e (check : Z -> M Spaces unit) (k : unit -> M Spaces A) s Q E :
  (forall p, match check p s with
             | (s', Ok _) => s' = s /\ P p s
             | (s', Throw e) => s' = s /\ e <> Terminate
             end) ->
  (forall e, e <> Terminate -> E s e) -> ((forall p, b <= p < e -> P p s) -> post (k tt) s Q E) ->
  post (for_pages b e check ≫= k) s Q E.
Proof.
  intros Hcheck He Hk. unfold for_pages. eapply post_bind with (Q := fun s' _ => s' = s /\ Forall (fun p => P p s) (seqZ b (e - b))).
  - pose proof (for_each_post (seqZ b (e - b)) check (fun done s' => s' = s /\ Forall (fun p => P p s) done) E s) as Hl.
    cbn beta in Hl. apply Hl; [by split|]. intros done x rest s' _ [-> Hd]. specialize (Hcheck x). unfold post.
    destruct (check x s) as [s' [[]|e']].
    + destruct Hcheck as [-> Hx]. split; [done|]. apply Forall_app. split; [done|]. by apply Forall_singleton.
    + destruct Hcheck as [-> ?]. by apply He.
  - intros s' [] [-> Hall]. apply Hk. intros p Hp. rewrite Forall_forall in Hall. apply Hall, elem_of_seqZ. lia.
Qed.

Lemma fork_numbers front full tail (r : DeviceKVPageReservation) :
  full = front / kPagedKVPageSize -> tail = front mod kPagedKVPageSize -> 0 < front ->
  0 <= full /\ 0 <= tail < kPagedKVPageSize /\ front = kPagedKVPageSize * full + tail /\
  pages_for_tokens front = full + (if tail =? 0 then 0 else 1).
Proof. intros -> ->. apply frontier_parts. Qed.

(** The pins of a fork's source. *)
Lemma pin_source_loop s H source a n full shared :
  spaces_inv s H -> address_of s source = Some a -> 0 < n <= page_count a ->
  let hs := memberships_of s (ah_index source) n in
  (forall p pg, 0 <= p < n -> page_of (sp_pages s) (membership s (ah_index source) p) = Some pg ->
    source_pins_ pg <> u32_max /\ (p < full -> kPagedKVPageSize <= committed_columns_ pg) /\
    (shared = true -> writer_references_ pg = 0)) ->
  exists s', for_pages 0 n (fun page => h ← get_membership (ah_index source) page; on_pages (pin_source h)) s = (s', Ok tt) /\
    spaces_inv s' (with_pins (mkPin source hs (Z.to_nat full) shared :: hd_pins H) H) /\
    sp_self s' = sp_self s /\ page_capacity_ s' = page_capacity_ s.
Proof.
  intros Hinv Haddr Hn hs Hpages. pose proof (proj1 Hinv) as Hc. pose proof (address_of_at _ _ _ Haddr) as Ha.
  set (i := ah_index source) in *.
  assert (forall h, h ∈ hs -> exists p pg, 0 <= p < n /\ h = membership s i p /\ page_of (sp_pages s) h = Some pg) as Hpos.
  { intros h (p & Hp & ->)%elem_of_memberships. destruct (member_page s H i a (membership s i p) Hc Ha) as (pg & Hpg & _).
    { apply elem_of_memberships. exists p. split; [lia|done]. } by exists p, pg. }
  assert (pin_ok s (mkPin source hs (Z.to_nat full) shared)) as Hpin.
  { exists a. cbn [pin_space pin_pages pin_full pin_shared]. fold i. split_and!.
    - done.
    - unfold hs, members. rewrite (memberships_of_app s i n (page_count a)) by lia. by apply prefix_app_r.
    - apply Forall_forall. intros h [k Hk]%list_elem_of_lookup pg Hpg. apply lookup_take_Some in Hk as [Hk Hlt].
      pose proof (lookup_lt_Some _ _ _ Hk) as Hkl. pose proof (memberships_of_length s i n ltac:(lia)) as Hlen. fold hs in Hlen.
      unfold hs in Hk. replace k with (Z.to_nat (Z.of_nat k)) in Hk by lia. rewrite memberships_of_lookup in Hk by lia.
      injection Hk as <-. apply (Hpages (Z.of_nat k) pg); [lia|done|lia].
    - intros Hnil. pose proof (memberships_of_length s i n ltac:(lia)) as Hlen. fold hs in Hlen. rewrite Hnil in Hlen. cbn in Hlen. lia.
    - intros ->. apply Forall_forall. intros h Hh pg Hpg. destruct (Hpos h Hh) as (p & q & Hp & -> & Hq).
      by apply (Hpages p pg). }
  destruct (pinned_inv s H _ Hinv Hpin) as (Hinv' & Hnd & Hall).
  { cbn [pin_pages]. apply Forall_forall. intros h Hh pg Hpg. destruct (Hpos h Hh) as (p & q & Hp & -> & Hq).
    destruct (Hpages p pg Hp Hpg) as [Hmax _]. pose proof (po_pins _ (page_of_ok _ _ _ (kv_desc _ _ _ (si_pages _ _ Hc)) Hpg)). lia. }
  cbn [pin_pages] in *. eexists. split; [|split; [exact Hinv'|done]].
  rewrite (for_pages_members (fun h => on_pages (pin_source h))).
  - rewrite Z.sub_0_r. apply for_each_upd; [done|]. apply (Forall_impl _ _ _ Hall). intros h (pg & Hpg & Hp).
    exists pg. split; [done|]. intros S HS. apply on_pages_eq. apply pin_source_eq; [done|lia|lia].
  - intros h s'. unfold on_pages. by destruct (pin_source h (sp_pages s')).
Qed.

(** Reservations, rows and destinations leave the addresses and what they hold alone. *)
Record frames (s s' : Spaces) : Prop := {
  fm_self : sp_self s' = sp_self s;
  fm_addresses : addresses_ s' = addresses_ s;
  fm_members : memberships_ s' = memberships_ s;
  fm_capacity : page_capacity_ s' = page_capacity_ s;
  fm_pages : pages_stay (sp_pages s) (sp_pages s');
}.

#[export] Instance frames_preorder : PreOrder frames.
Proof.
  split; [intros x; split; [done..|by intros h pg]|]. intros x y z [? ? ? ? Hxy] [? ? ? ? Hyz]. split; try congruence. intros h pg Hpg. by apply Hyz, Hxy.
Qed.

Lemma quiet_frames s s' : quiet s s' -> frames s s'.
Proof. intros [? ? ? ? Hs Hp]. split; try done. intros h pg. unfold page_of, capacity. by rewrite Hs, Hp. Qed.

Lemma frames_address s s' h : frames s s' -> address_of s' h = address_of s h.
Proof. intros Hf. unfold address_of, address_at. by rewrite (fm_self _ _ Hf), (fm_addresses _ _ Hf). Qed.

Lemma frames_membership s s' i p : frames s s' -> membership s' i p = membership s i p.
Proof. intros Hf. unfold membership, membership_index. by rewrite (fm_members _ _ Hf), (fm_capacity _ _ Hf). Qed.

Lemma frames_memberships s s' i n : frames s s' -> memberships_of s' i n = memberships_of s i n.
Proof. intros Hf. apply memberships_of_ext. intros p _. by apply frames_membership. Qed.

(** The tail's destination, if there is a tail. *)
Lemma prepare_tail {A} s H r R tail (cleanup : M Spaces unit) (k : DeviceKVPageReservation * option LogicalKVPageHandle -> M Spaces A) Q E :
  spaces_inv s (with_res (r :: R) H) -> 0 <= tail ->
  (forall e, e <> Terminate -> exists s' , cleanup s = (s', Ok tt) /\ E s' e) ->
  (forall s' r' dest, spaces_inv s' (with_dests (dest_list dest tail ++ hd_dests H) (with_res (r' :: R) H)) -> frames s s' ->
    has dest = negb (tail =? 0) -> rs_pages r' = rs_pages r - (if tail =? 0 then 0 else 1) -> post (k (r', dest)) s' Q E) ->
  post ((if negb (tail =? 0) then
           '(r, h) ← on_throw (on_pages (materialize_transfer_destination r tail)) cleanup;
           mret (r, Some h)
         else mret (r, None)) ≫= k) s Q E.
Proof.
  intros Hinv Htail Hclean Hk. destruct (Z.eqb_spec tail 0) as [Hz|Hz]; cbn [negb].
  - eapply post_eq; [reflexivity|]. apply (Hk s r None); [|reflexivity|done|lia].
    cbn [dest_list app]. destruct H. exact Hinv.
  - pose proof (take_destination s H r R tail Hinv Htail) as Htake. unfold post. cbv [mbind M_bind]. unfold on_throw.
    destruct (on_pages (materialize_transfer_destination r tail) s) as [s1 [[r' h]|e]].
    + destruct Htake as (Hinv1 & Hr' & Hs1 & Hstay). cbv [mret M_ret]. apply (Hk s1 r' (Some h)); try done.
      rewrite Hs1. by split.
    + destruct Htake as [-> He]. destruct (Hclean e He) as (s' & -> & ?). done.
Qed.

(** A reservation for a client. *)
Lemma post_reserve {A} s H n (k : DeviceKVPageReservation -> M Spaces A) Q (E : Spaces -> exn -> Prop) :
  spaces_inv s H -> 0 <= n <= u32_max -> (forall e, e <> Terminate -> E s e) ->
  (forall s' r, spaces_inv s' (with_res (r :: hd_res H) H) -> quiet s s' -> rs_pages r = n -> post (k r) s' Q E) ->
  post (on_device (resize_reservation (make_empty_reservation (physical_ (sp_pages s))) n) ≫= k) s Q E.
Proof.
  intros Hinv Hn He Hk. pose proof (reserve_client s H n Hinv Hn) as Hres. unfold post. cbv [mbind M_bind].
  destruct (on_device _ s) as [s1 [r|e]]; [destruct Hres as (? & ? & ?); by apply (Hk s1 r)|].
  destruct Hres as [-> ?]. by apply He.
Qed.

(** A row for a client. *)
Lemma post_acquire {A} s H i (cleanup : M Spaces unit) (k : KVExecutionRowLease -> M Spaces A) Q (E : Spaces -> exn -> Prop) :
  spaces_inv s H -> (forall e, e <> Terminate -> exists s', cleanup s = (s', Ok tt) /\ E s' e) ->
  (forall s' x, spaces_inv s' (with_rows (x :: hd_rows H) H) -> quiet s s' -> post (k x) s' Q E) ->
  post (on_throw (on_tables (acquire i)) cleanup ≫= k) s Q E.
Proof.
  intros Hinv He Hk. pose proof (take_row s H i Hinv) as Hrow. unfold post. cbv [mbind M_bind]. unfold on_throw.
  destruct (on_tables (acquire i) s) as [s1 [x|e]]; [destruct Hrow; by apply (Hk s1 x)|].
  destruct Hrow as [-> ?]. destruct (He e) as (s' & -> & ?); done.
Qed.

(** A loop that cannot fail. *)
Lemma post_protected {A} s s' (m cleanup : M Spaces unit) (k : unit -> M Spaces A) Q (E : Spaces -> exn -> Prop) :
  m s = (s', Ok tt) -> post (k tt) s' Q E -> post (on_throw m cleanup ≫= k) s Q E.
Proof. intros Hm. unfold post. cbv [mbind M_bind]. unfold on_throw. by rewrite Hm. Qed.

Lemma prepare_prefix_fork_post s H source destination front entitlement row staged :
  spaces_inv s H -> 0 <= front <= u32_max -> 0 <= entitlement ->
  post (prepare_prefix_fork source destination front entitlement row staged) s
    (fun s' x => exists hs, spaces_inv s' (fork_held x hs H) /\ fork_ok (sp_self s') (page_capacity_ s') x hs) (undone s H).
Proof.
  intros Hinv Hfr Hent. pose proof (proj1 Hinv) as Hc. unfold prepare_prefix_fork.
  assert (forall e, e <> Terminate -> undone s H s e) as Hun by (intros; by apply undone_throw).
  apply post_require; [by apply Hun|]. intros a Haddr. apply post_require; [by apply Hun|]. intros b Hb.
  assert (source = destination -> a = b) as Hsame by congruence.
  apply post_throw_if; [by intros; apply Hun|]. intros _. apply post_throw_if; [by intros; apply Hun|]. intros Hempty. bool_facts.
  apply post_throw_if; [by intros; apply Hun|]. intros Hg. bool_facts.
  apply post_get, post_throw_if; [by intros; apply Hun|]. intros Hcap. bool_facts.
  destruct (fork_numbers front _ _ null_reservation eq_refl eq_refl ltac:(lia)) as (Hfull & Htail & Heq & Hreq).
  set (full := front / kPagedKVPageSize) in *. set (tail := front mod kPagedKVPageSize) in *.
  apply post_throw_if; [by intros; apply Hun|]. intros _. set (n := pages_for_tokens front) in *.
  pose proof (address_of_at _ _ _ Haddr) as Ha. set (i := ah_index source) in *.
  pose proof (si_address _ _ Hc _ _ Ha) as Hok. pose proof (ao_frontier _ _ _ Hok). pose proof (ao_count _ _ _ Hok).
  pose proof (pages_for_tokens_le front (page_count a) ltac:(lia) ltac:(lia) ltac:(lia)) as Hn. fold n in Hn.
  pose proof (pages_for_tokens_pos front ltac:(lia)) as Hpos. fold n in Hpos. pose proof (si_capacity_pos _ _ Hc).
  assert (0 < n) as Hn0 by (unfold kPagedKVPageSize in *; lia).
  apply (for_pages_check (fun p s => exists pg, page_of (sp_pages s) (membership s i p) = Some pg /\ fork_source full tail p pg));
    [intros; apply check_fork_source_cases|done|]. intros Hsrc.
  assert (0 <= full <= entitlement) as Hfe by (destruct (tail =? 0); lia).
  apply (post_reserve s H); [done|destruct staged; lia|done|]. intros s1 r Hinv1 Hq1 _.
  apply (post_acquire s1 _ row _ _ _ _ Hinv1).
  { intros e He. destruct (drop_reservation s1 H r (hd_res H) Hinv1) as (s3 & Hd & Hinv3 & Hq3). exists s3. split; [done|].
    split_and!; [by rewrite with_res_same in Hinv3|by etransitivity|done]. }
  intros s2 x Hinv2 Hq2. cbn [hd_rows with_res] in Hinv2.
  apply (prepare_tail s2 (with_rows (x :: hd_rows H) H) r (hd_res H)); [exact Hinv2|lia| |].
  { intros e He. destruct (drop_row s2 (with_res (r :: hd_res H) H) x (hd_rows H)) as (s3 & Hd3 & Hinv3 & Hq3); [exact Hinv2|].
    assert (spaces_inv s3 (with_res (r :: hd_res H) H)) as Hinv3' by by destruct H.
    destruct (drop_reservation s3 H r (hd_res H) Hinv3') as (s4 & Hd4 & Hinv4 & Hq4). rewrite with_res_same in Hinv4.
    exists s4. cbv [mbind M_bind]. rewrite Hd3, Hd4. split; [done|]. split_and!; [done| |done]. do 3 (etransitivity; [done|]). done. }
  intros s3 r' dest Hinv3 Hfm Hdest Hr'. cbn [hd_dests with_rows] in Hinv3.
  assert (frames s s3) as Hf.
  { etransitivity; [apply quiet_frames; etransitivity; [exact Hq1|exact Hq2]|done]. }
  rewrite <- (frames_address s s3 source Hf) in Haddr.
  destruct (pin_source_loop s3 _ source a n full true Hinv3 Haddr) as (s4 & Hloop & Hinv4 & Hself4 & Hcap4); [lia| |].
  { intros p pg Hp Hpg. fold i in Hpg. rewrite (frames_membership s s3 i p Hf) in Hpg.
    destruct (Hsrc p Hp) as (pg0 & Hpg0 & Hs). pose proof (fm_pages _ _ Hf _ _ Hpg0) as Hpg'. rewrite Hpg in Hpg'. injection Hpg' as <-.
    destruct Hs as [Sd Sc Sw Sp Sr]. split_and!; [done| |done]. intros Hlt. rewrite (proj2 (Z.ltb_lt p full) Hlt) in Sc. done. }
  apply (post_protected s3 s4); [exact Hloop|]. apply post_ret. fold i in Hinv4. set (hs := memberships_of s3 i n) in *.
  assert (Z.of_nat (length hs) = n) as Hlen by (apply memberships_of_length; lia).
  exists hs. split.
  - unfold fork_held, fork_pinned. cbn [fk_page_reservation fk_row fk_source fk_tail_source_settled fk_full_pages fk_tail_destination fk_tail_columns].
    destruct hs as [|h hs']; [cbn in Hlen; lia|]. exact Hinv4.
  - assert (page_capacity_ s4 = page_capacity_ s) as -> by (rewrite Hcap4; apply Hf).
    assert (sp_self s4 = sp_self s3) as -> by done.
    split; cbn [fk_page_reservation fk_row fk_source fk_tail_source_settled fk_full_pages fk_tail_destination fk_tail_columns
      fk_frontier fk_requested_entitlement fk_owner fk_destination]; try done; try lia.
    + by rewrite (fm_self _ _ Hf).
    + intros Hab. specialize (Hsame Hab). subst b. lia.
Qed.
