(* ===== verification/KVAddressForkCommit.v ===== *)
(** * Address spaces: forks that are committed or abandoned

    Committing publishes the row, shares the full pages, installs the tail, binds the destination and
    takes the pins back; aborting takes back what is pinned and prepared.  The loops over pages are
    summarised as one change of the store each, so that the invariant follows from that of an address
    made of another's pages. *)

From S2P Require Import Prelude Post Extents Tensor KVGeometry DevicePagePool DevicePoolInvariant DevicePoolOps ExecutionTables KVPages KVPagesInvariant KVPagesSpec KVAddress KVAddressPages KVAddressInvariant KVAddressUpdate KVAddressProtect KVAddressOps KVAddressActivation KVAddressGrowth KVAddressShare KVAddressForks.
Import LogicalKVPageStore KVAddressSpaceStore.

(** ** Taking the pins back *)

Lemma unpinned_list s H source hs full shared Q :
  spaces_inv s (with_pins (pin_list source hs full shared ++ Q) H) ->
  spaces_inv (set_sp_pages (upd_pages hs (add_pins (-1)) (sp_pages s)) s) (with_pins Q H) /\
  NoDup (indices hs) /\
  Forall (fun h => exists pg, page_of (sp_pages s) h = Some pg /\ 1 <= source_pins_ pg <= u32_max) hs.
Proof.
  destruct hs as [|h hs]; [|apply unpinned_inv]. intros Hinv. split_and!; [by destruct s|constructor|constructor].
Qed.

(** The pinned pages are the first of their address. *)
Lemma pinned_position s H source hs full shared Q p h :
  spaces_inv s (with_pins (pin_list source hs full shared ++ Q) H) -> 0 <= p -> hs !! Z.to_nat p = Some h ->
  exists a, address_of s source = Some a /\ p < page_count a /\ membership s (ah_index source) p = h.
Proof.
  intros [Hc _] Hp Hh. destruct hs as [|h0 hs]; [done|].
  pose proof (si_pins _ _ Hc) as [(a & Ha & Hpre & _) _]%Forall_cons. cbn [pin_space pin_pages] in *.
  exists a. split; [done|]. pose proof (prefix_lookup_Some _ _ _ _ Hh Hpre) as Hm.
  pose proof (ao_count _ _ _ (si_address _ _ Hc _ _ (address_of_at _ _ _ Ha))) as Hcnt.
  pose proof (lookup_lt_Some _ _ _ Hm) as Hlt. unfold members in *.
  pose proof (memberships_of_length s (ah_index source) (page_count a) ltac:(lia)).
  rewrite memberships_of_lookup in Hm by lia. injection Hm as <-. split; [lia|done].
Qed.

(** A loop over positions that unpins the pinned ones and skips the others. *)
Lemma unpin_loop s H source hs full shared Q n (op : Z -> M Spaces unit) :
  spaces_inv s (with_pins (pin_list source hs full shared ++ Q) H) -> Z.of_nat (length hs) <= n ->
  (forall p s', Z.of_nat (length hs) <= p < n -> op p s' = (s', Ok tt)) ->
  (forall p s' h pg, 0 <= p < Z.of_nat (length hs) -> membership s' (ah_index source) p = h ->
    page_of (sp_pages s') h = Some pg -> 1 <= source_pins_ pg <= u32_max ->
    op p s' = (set_sp_pages (set_page_at (lh_index h) (add_pins (-1) pg) (sp_pages s')) s', Ok tt)) ->
  let s' := set_sp_pages (upd_pages hs (add_pins (-1)) (sp_pages s)) s in
  for_pages 0 n op s = (s', Ok tt) /\ spaces_inv s' (with_pins Q H) /\
  NoDup (indices hs) /\ Forall (fun h => is_Some (page_of (sp_pages s) h)) hs.
Proof.
  intros Hinv Hle Hskip Hop. destruct (unpinned_list _ _ _ _ _ _ _ Hinv) as (Hinv' & Hnd & Hall).
  split; [|split_and!; [exact Hinv'|done|]]. 2: { apply (Forall_impl _ _ _ Hall). intros h (pg & -> & _). done. }
  apply (for_pages_upd op (add_pins (-1))); [apply add_pins_keeps|done..|].
  intros p h Hp Hh. rewrite Forall_forall in Hall. destruct (Hall h) as (pg & Hpg & Hpin); [by eapply list_elem_of_lookup_2|].
  exists pg. split; [done|]. intros S HS. destruct (pinned_position _ _ _ _ _ _ _ p h Hinv Hp Hh) as (a & _ & _ & Hm).
  apply lookup_lt_Some in Hh. rewrite (Hop p _ h pg) by (done || lia). done.
Qed.

Lemma unpin_page i p s h pg :
  membership s i p = h -> page_of (sp_pages s) h = Some pg -> 1 <= source_pins_ pg <= u32_max ->
  (h ← get_membership i p; on_pages (unpin_source h)) s =
    (set_sp_pages (set_page_at (lh_index h) (add_pins (-1) pg) (sp_pages s)) s, Ok tt).
Proof.
  intros <- Hpg Hpin. unfold get_membership, on_pages. cbv [mbind M_bind mget mret M_ret].
  rewrite (unpin_source_eq (sp_pages s) _ pg Hpg) by lia. done.
Qed.

Lemma unpin_if_pinned_page i p s h pg :
  membership s i p = h -> page_of (sp_pages s) h = Some pg -> 1 <= source_pins_ pg <= u32_max ->
  unpin_if_pinned i p s = (set_sp_pages (set_page_at (lh_index h) (add_pins (-1) pg) (sp_pages s)) s, Ok tt).
Proof.
  intros Hm Hpg Hpin. pose proof (unpin_page i p s h pg Hm Hpg Hpin) as Heq. subst h.
  unfold unpin_if_pinned, get_membership, ask, source_pins, LogicalKVPageStore.valid, LogicalKVPageStore.require, query in *.
  cbv [mbind M_bind mget mret M_ret] in *. unfold_M. rewrite Hpg.
  rewrite Hpg. destruct (Z.eqb_spec (source_pins_ pg) 0); [lia|]. exact Heq.
Qed.

(** ** Sharing the full pages *)

(** A full page with one more address, a copied tail with its first, before the address is active. *)
Definition share_full (pg : Page) : Page :=
  set_content (content_epoch_ pg) (committed_columns_ pg) (Z.max (protected_columns_ pg) kPagedKVPageSize)
    (set_refs (references pg + 1) (active_references pg) (writer_references_ pg) pg).
Definition share_tail (pg : Page) : Page :=
  set_pins (source_pins_ pg) false (set_refs 1 (active_references pg) 1 pg).
Definition retained (pg : Page) : Page := set_refs (references pg) (active_references pg + 1) (writer_references_ pg) pg.

Lemma share_full_keeps : keeps_slot share_full.
Proof. by intros pg. Qed.
Lemma share_tail_keeps : keeps_slot share_tail.
Proof. by intros pg. Qed.
Lemma retained_keeps : keeps_slot retained.
Proof. by intros pg. Qed.

(** Writing one membership after the slice that is there. *)
Lemma put_next (s : Spaces) l j p h (known : list LogicalKVPageHandle) :
  length l = length (memberships_ s) -> 0 <= j < Z.of_nat (length (addresses_ s)) ->
  Z.of_nat (length (memberships_ s)) = Z.of_nat (length (addresses_ s)) * page_capacity_ s ->
  Z.of_nat (length known) = p -> 0 <= p < page_capacity_ s ->
  (forall k q, 0 <= q < page_capacity_ s -> membership (set_memberships l s) k q =
    if decide (k = j /\ q < p) then default null_logical (known !! Z.to_nat q) else membership s k q) ->
  let l' := set_index l (membership_index s j p) h in
  length l' = length (memberships_ s) /\
  forall k q, 0 <= q < page_capacity_ s -> membership (set_memberships l' s) k q =
    if decide (k = j /\ q < p + 1) then default null_logical ((known ++ [h]) !! Z.to_nat q) else membership s k q.
Proof.
  intros Hl Hj Hcells Hk Hp Hm l'. split; [unfold l'; by rewrite length_set_index|]. intros k q Hq.
  destruct (decide ((k, q) = (j, p))) as [[= -> ->]|Hne].
  - assert (membership (set_memberships l' s) j p = h) as ->.
    { apply (put_membership_same (set_memberships l s) j p h); [done|done|]. cbn [memberships_ set_memberships]. by rewrite Hl. }
    rewrite decide_True by lia.
    rewrite lookup_app_r by lia. by replace (Z.to_nat p - length known)%nat with 0%nat by lia.
  - assert (membership (set_memberships l' s) k q = membership (set_memberships l s) k q) as ->.
    { apply (put_membership_other (set_memberships l s) j p h k q); [done|done|lia|done]. }
    rewrite Hm by done.
    destruct (decide (k = j /\ q < p)) as [Hin|Hout].
    + rewrite decide_True by lia. by rewrite lookup_app_l by lia.
    + rewrite decide_False; [done|]. intros [-> ?]. apply Hout. split; [done|]. assert (q <> p) by congruence. lia.
Qed.

(** A loop that changes each full page and records it at address [j]. *)
Lemma share_loop (op : Z -> M Spaces unit) f hs s i j :
  keeps_slot f -> NoDup (indices hs) -> i <> j -> 0 <= j < Z.of_nat (length (addresses_ s)) ->
  Z.of_nat (length (memberships_ s)) = Z.of_nat (length (addresses_ s)) * page_capacity_ s ->
  Z.of_nat (length hs) <= page_capacity_ s ->
  (forall p h, 0 <= p -> hs !! Z.to_nat p = Some h -> membership s i p = h /\
    exists pg, page_of (sp_pages s) h = Some pg /\
      forall s', membership s' i p = h -> page_of (sp_pages s') h = Some pg ->
        op p s' = (set_memberships (set_index (memberships_ s') (membership_index s' j p) h)
          (set_sp_pages (set_page_at (lh_index h) (f pg) (sp_pages s')) s'), Ok tt)) ->
  exists l, for_pages 0 (Z.of_nat (length hs)) op s =
      (set_memberships l (set_sp_pages (upd_pages hs f (sp_pages s)) s), Ok tt) /\
    length l = length (memberships_ s) /\
    forall k q, 0 <= q < page_capacity_ s -> membership (set_memberships l s) k q =
      if decide (k = j /\ q < Z.of_nat (length hs)) then default null_logical (hs !! Z.to_nat q) else membership s k q.
Proof.
  intros Hf Hnd Hij Hj Hcells Hcap Hop.
  assert (Forall (fun h => is_Some (page_of (sp_pages s) h)) hs) as Hv.
  { apply Forall_forall. intros h [k Hk]%list_elem_of_lookup.
    destruct (Hop (Z.of_nat k) h) as (_ & pg & -> & _); [lia|by rewrite Nat2Z.id|done]. }
  set (P := fun (n : Z) (s' : Spaces) => exists l, s' = set_memberships l (set_sp_pages (upd_pages (take (Z.to_nat n) hs) f (sp_pages s)) s) /\
    length l = length (memberships_ s) /\
    forall k q, 0 <= q < page_capacity_ s -> membership (set_memberships l s) k q =
      if decide (k = j /\ q < n) then default null_logical (take (Z.to_nat n) hs !! Z.to_nat q) else membership s k q).
  assert (post (for_pages 0 (Z.of_nat (length hs)) op) s (fun s' _ => P (Z.of_nat (length hs)) s') (fun _ _ => False)) as Hpost.
  { apply for_pages_post; [lia| |].
    - exists (memberships_ s). split_and!; [by destruct s|done|]. intros k q Hq. rewrite decide_False by lia. by destruct s.
    - intros p s' Hp (l & -> & Hl & Hm). destruct (lookup_lt_is_Some_2 hs (Z.to_nat p)) as [h Hh]; [lia|].
      destruct (Hop p h) as (Hmem & pg & Hpg & Heq); [lia|done|].
      assert (page_of (upd_pages (take (Z.to_nat p) hs) f (sp_pages s)) h = Some pg) as Hpg'.
      { apply (upd_pages_before f hs (sp_pages s)); done. }
      eapply post_end; [apply Heq; [|exact Hpg']|].
      { change (membership (set_memberships l s) i p = h). rewrite Hm by lia. by rewrite decide_False by (intros [? _]; done). }
      destruct (put_next s l j p h (take (Z.to_nat p) hs) Hl Hj Hcells) as [Hl' Hm']; [rewrite length_take; lia|lia|exact Hm|].
      eexists. split; [|split; [exact Hl'|]].
      + replace (Z.to_nat (p + 1)) with (S (Z.to_nat p)) by lia. rewrite (take_S_r _ _ _ Hh).
        by rewrite (upd_pages_snoc _ _ _ _ _ Hpg').
      + replace (Z.to_nat (p + 1)) with (S (Z.to_nat p)) by lia. rewrite (take_S_r _ _ _ Hh). exact Hm'. }
  apply post_returns in Hpost as (s' & [] & Heq & l & -> & Hl & Hm). exists l. rewrite Nat2Z.id, firstn_all in *. done.
Qed.

(** [share_page] and [install_tail] as changes of the store and the memberships. *)
Lemma share_page_eq i j p s h pg :
  membership s i p = h -> page_of (sp_pages s) h = Some pg ->
  0 <= references pg < u32_max -> kPagedKVPageSize <= committed_columns_ pg ->
  share_page i j p s =
    (set_memberships (set_index (memberships_ s) (membership_index s j p) h)
      (set_sp_pages (set_page_at (lh_index h) (share_full pg) (sp_pages s)) s), Ok tt).
Proof.
  intros <- Hpg Hr Hc. unfold share_page, get_membership, put_membership, on_pages.
  cbv [mbind M_bind mget mret M_ret mmodify].
  rewrite (retain_reference_eq (sp_pages s) _ pg Hpg Hr). cbn [sp_pages set_sp_pages].
  pose proof Hpg as (_ & _ & Ho & _)%page_of_Some.
  set (pg1 := set_refs (references pg + 1) (active_references pg) (writer_references_ pg) pg).
  pose proof (page_of_write (sp_pages s) _ pg pg1 Hpg Ho eq_refl) as Hpg1.
  rewrite (protect_coverage_eq _ _ pg1 Hpg1) by done. by rewrite set_page_at_twice.
Qed.

Lemma install_tail_eq (s : Spaces) l j p dest S :
  (forall h, dest = Some h -> exists pg, page_of S h = Some pg /\ transfer_destination pg = true) ->
  install_tail j p dest (set_memberships l (set_sp_pages S s)) =
    (set_memberships (match dest with Some h => set_index l (membership_index s j p) h | None => l end)
      (set_sp_pages (upd_pages (option_to_list dest) share_tail S) s), Ok tt).
Proof.
  destruct dest as [h|]; [|done]. intros Hh. destruct (Hh h eq_refl) as (pg & Hpg & Ht). unfold install_tail, on_pages, put_membership, publish_transfer_destination, write_page.
  unfold_M. change (sp_pages (set_memberships l (set_sp_pages S s))) with S. rewrite Hpg, Ht. cbn [negb].
  unfold option_to_list, upd_pages. cbn [foldl]. by rewrite Hpg.
Qed.

Lemma install_members (s : Spaces) l j dest (known : list LogicalKVPageHandle) :
  let all := known ++ option_to_list dest in
  length l = length (memberships_ s) -> 0 <= j < Z.of_nat (length (addresses_ s)) ->
  Z.of_nat (length (memberships_ s)) = Z.of_nat (length (addresses_ s)) * page_capacity_ s ->
  Z.of_nat (length all) <= page_capacity_ s ->
  (forall k q, 0 <= q < page_capacity_ s -> membership (set_memberships l s) k q =
    if decide (k = j /\ q < Z.of_nat (length known)) then default null_logical (known !! Z.to_nat q) else membership s k q) ->
  let l' := match dest with Some h => set_index l (membership_index s j (Z.of_nat (length known))) h | None => l end in
  length l' = length (memberships_ s) /\
  forall k q, 0 <= q < page_capacity_ s -> membership (set_memberships l' s) k q =
    if decide (k = j /\ q < Z.of_nat (length all)) then default null_logical (all !! Z.to_nat q) else membership s k q.
Proof.
  intros all Hl Hj Hcells Hcap Hm. unfold all in *. rewrite length_app in *. destruct dest as [h|]; cbn [option_to_list] in *.
  - cbn [length] in *. rewrite Nat2Z.inj_add in *. apply put_next; done || lia.
  - rewrite app_nil_r, Nat.add_0_r in *. done.
Qed.

(** ** Checking again *)

(** A source page as [recheck_fork_source] accepts it. *)
Record fork_ready (x : KVPrefixForkReservation) (page : Z) (pg : Page) : Prop := {
  fy_pinned : (page =? fk_full_pages x) && fk_tail_source_settled x = false ->
    source_pins_ pg <> 0 /\ has (device_replica pg) = true;
  fy_refs : page < fk_full_pages x -> references pg <> u32_max;
}.

Lemma recheck_fork_source_cases x page s :
  match recheck_fork_source x page s with
  | (s', Ok _) => s' = s /\ exists pg, page_of (sp_pages s) (membership s (ah_index (fk_source x)) page) = Some pg /\
      fork_ready x page pg
  | (s', Throw e) => s' = s /\ e <> Terminate
  end.
Proof.
  unfold recheck_fork_source, get_membership, ask, source_pins, device_resident, host_resident, can_retain_reference, query, LogicalKVPageStore.require.
  unfold_M. destruct (page_of (sp_pages s) _) as [pg|]; [|done].
  match goal with |- context [if ?c then Throw _ else _] => destruct c eqn:Hg end; [done|]. split; [done|].
  exists pg. split; [done|]. rewrite !orb_false_iff, !andb_false_iff in Hg. destruct Hg as [[Hp _] Hr]. split.
  - intros Hs. rewrite Hs in Hp. destruct Hp as [Hp|Hp]; [done|]. rewrite orb_false_iff, negb_false_iff in Hp.
    destruct Hp as [Hp Hd]. split; [by apply Z.eqb_neq|done].
  - intros Hlt. destruct Hr as [Hr|Hr]; [apply Z.ltb_ge in Hr; lia|].
    rewrite negb_false_iff, !andb_true_iff, negb_true_iff in Hr. by apply Z.eqb_neq, Hr.
Qed.

(** The numbers of a prepared fork. *)
Lemma fork_shape self capacity x hs :
  fork_ok self capacity x hs ->
  let full := fk_full_pages x in let n := pages_for_tokens (fk_frontier x) in
  0 <= full /\ 0 <= fk_tail_columns x < kPagedKVPageSize /\
  fk_frontier x = kPagedKVPageSize * full + fk_tail_columns x /\
  n = full + (if fk_tail_columns x =? 0 then 0 else 1) /\
  (Z.to_nat full <= length hs)%nat /\
  Z.of_nat (length (fork_pinned x hs)) = (if fk_tail_source_settled x then full else n) /\
  take (Z.to_nat full) (fork_pinned x hs) = take (Z.to_nat full) hs.
Proof.
  intros Hx. destruct (frontier_parts (fk_frontier x)) as (H1 & H2 & H3 & H4); [apply Hx|].
  rewrite <- (fr_full _ _ _ _ Hx), <- (fr_tail _ _ _ _ Hx) in *. pose proof (fr_pages _ _ _ _ Hx) as Hl.
  assert (fk_full_pages x <= Z.of_nat (length hs)) by (rewrite Hl, H4; case_match; lia).
  split_and!; try done; try lia.
  - unfold fork_pinned. destruct (fk_tail_source_settled x); [rewrite length_take; lia|done].
  - unfold fork_pinned. destruct (fk_tail_source_settled x); [|done]. by rewrite take_take, Nat.min_id.
Qed.

(** What the device holds for a page. *)
Definition same_content (pg pg' : Page) : Prop :=
  device_replica pg' = device_replica pg /\ content_epoch_ pg' = content_epoch_ pg /\
  committed_columns_ pg' = committed_columns_ pg.

Definition contents_stay (S S' : Store) : Prop :=
  forall h pg, page_of S h = Some pg -> exists pg', page_of S' h = Some pg' /\ same_content pg pg'.

Lemma contents_stay_trans S1 S2 S3 : contents_stay S1 S2 -> contents_stay S2 S3 -> contents_stay S1 S3.
Proof.
  intros H12 H23 h pg Hpg. destruct (H12 h pg Hpg) as (pg2 & Hpg2 & ? & ? & ?).
  destruct (H23 h pg2 Hpg2) as (pg3 & Hpg3 & ? & ? & ?). exists pg3. split; [done|]. split_and!; congruence.
Qed.

Lemma upd_pages_contents f hs S :
  keeps_slot f -> NoDup (indices hs) -> Forall (fun h => is_Some (page_of S h)) hs ->
  (forall pg, same_content pg (f pg)) -> contents_stay S (upd_pages hs f S).
Proof.
  intros Hf Hnd Hv Hc h pg Hpg. eexists. split; [by apply (upd_pages_kept S hs f Hf Hnd Hv)|]. by case_decide.
Qed.

(** ** The copy itself *)

Lemma option_to_list_lookup {A} (d : option A) k x : option_to_list d !! k = Some x -> d = Some x /\ k = 0%nat.
Proof. destruct d as [y|], k as [|k]; cbn; try done; by intros [= ->]. Qed.

(** An address and the pages it is copied to: what publishing, sharing, installing the tail, binding
    and activating do together. *)
Section copy.
Context (s : Spaces) (H : Holders) (r : DeviceKVPageReservation) (R : list DeviceKVPageReservation)
  (row : KVExecutionRowLease) (W : list KVExecutionRowLease) (dest : option LogicalKVPageHandle)
  (D : list (LogicalKVPageHandle * Z)).
Context (fulls : list LogicalKVPageHandle) (i j : Z) (b : Address) (front tail : Z).
Let T := dest_list dest tail.
Let all : list LogicalKVPageHandle := fulls ++ option_to_list dest.
Let n := Z.of_nat (length all).
Context (HR : hd_res H = r :: R) (HW : hd_rows H = row :: W) (HD : hd_dests H = T ++ D).
Context (Hinv : spaces_inv s H) (Hij : i <> j) (Hb : address_at s j = Some b) (Hact : ad_active b = false)
  (Hocc : ad_occupied b = true) (Hcount : page_count b = 0).
Context (Hcap : n + rs_pages r <= page_capacity_ s) (Hfront : 0 <= front <= kPagedKVPageSize * n /\ front <= u32_max).
Context (Htail : front <= kPagedKVPageSize * Z.of_nat (length fulls) + tail).
Context (Hnd : NoDup (indices fulls)) (Hmem : forall p h, 0 <= p -> fulls !! Z.to_nat p = Some h -> membership s i p = h)
  (Hshare : Forall (fun h => exists pg, page_of (sp_pages s) h = Some pg /\ shareable pg) fulls).

Lemma copy_tails : T.*1 = option_to_list dest.
Proof. by destruct dest. Qed.

Lemma copy_dest_page h : dest = Some h -> exists pg, page_of (sp_pages s) h = Some pg /\ transfer_destination pg = true /\
  committed_columns_ pg = tail.
Proof.
  intros Hd. destruct (si_dests _ _ (proj1 Hinv)) as [_ Hall]. rewrite HD in Hall. apply Forall_app in Hall as [Hall _].
  unfold T in Hall. rewrite Hd in Hall.
  apply Forall_singleton in Hall as (pg & ? & ? & ?). by exists pg.
Qed.

Lemma copy_all_valid : Forall (fun h => is_Some (page_of (sp_pages s) h)) all.
Proof.
  apply Forall_app. split.
  - apply (Forall_impl _ _ _ Hshare). intros h (pg & -> & _). done.
  - apply Forall_forall. intros h [k [Hd _]%option_to_list_lookup]%list_elem_of_lookup.
    destruct (copy_dest_page h Hd) as (pg & -> & _). done.
Qed.

Lemma copy_distinct : NoDup (indices all).
Proof. unfold all. rewrite <- copy_tails. exact (share_distinct s H T D fulls (memberships_ s) HD Hinv Hnd Hshare eq_refl). Qed.

Lemma copy_columns p h pg :
  all !! p = Some h -> page_of (sp_pages s) h = Some pg ->
  Z.min kPagedKVPageSize (front - kPagedKVPageSize * Z.of_nat p) <= committed_columns_ pg.
Proof.
  intros Hp Hpg. unfold all in Hp. destruct (decide (p < length fulls)%nat) as [Hlt|Hge].
  - rewrite lookup_app_l in Hp by done. rewrite Forall_forall in Hshare.
    destruct (Hshare h) as (q & Hq & [_ _ Hfull _]); [by eapply list_elem_of_lookup_2|].
    assert (q = pg) as -> by congruence. lia.
  - rewrite lookup_app_r in Hp by lia. apply option_to_list_lookup in Hp as [Hd Hk].
    destruct (copy_dest_page h Hd) as (q & Hq & _ & Hc). assert (q = pg) as -> by congruence.
    assert (p = length fulls) as -> by lia. lia.
Qed.

(** The store after the sharing loop, the tail and the activation. *)
Lemma copy_store :
  upd_pages all retained (upd_pages (option_to_list dest) share_tail (upd_pages fulls share_full (sp_pages s))) =
  upd_pages T.*1 published (upd_pages fulls shared (sp_pages s)).
Proof.
  rewrite copy_tails. exact (upd_pages_compose share_full share_tail retained fulls _ _ share_full_keeps share_tail_keeps retained_keeps
    copy_distinct copy_all_valid).
Qed.

Lemma copy_fresh h : dest = Some h -> lh_index h ∉ indices fulls.
Proof.
  intros Hd Hin. pose proof copy_distinct as Hn. unfold all, indices in *. rewrite Hd, fmap_app in Hn.
  apply NoDup_app in Hn as (_ & Hdis & _). apply (Hdis _ Hin). by left.
Qed.

(** A page of the new address, shared or installed, before it is activated. *)
Lemma copy_member h :
  h ∈ all -> exists pg, page_of (upd_pages (option_to_list dest) share_tail (upd_pages fulls share_full (sp_pages s))) h = Some pg /\
    0 <= active_references pg < references pg /\ references pg <= u32_max.
Proof.
  intros Hh. pose proof (proj1 Hinv) as Hc. assert (exists q, page_of (sp_pages s) h = Some q) as [q Hq].
  { pose proof (proj1 (Forall_forall _ _) copy_all_valid h Hh) as [q ?]. by exists q. }
  pose proof (page_of_ok _ _ _ (kv_desc _ _ _ (si_pages _ _ Hc)) Hq) as Hok. pose proof (po_refs _ Hok).
  assert (Forall (fun h => is_Some (page_of (sp_pages s) h)) fulls) as Hv.
  { apply (Forall_impl _ _ _ Hshare). intros x (z & -> & _). done. }
  pose proof (upd_pages_kept _ _ _ share_full_keeps Hnd Hv h q Hq) as Hq1.
  assert (Forall (fun h => is_Some (page_of (upd_pages fulls share_full (sp_pages s)) h)) (option_to_list dest)) as Hv2.
  { apply Forall_forall. intros x [k [Hd _]%option_to_list_lookup]%list_elem_of_lookup.
    destruct (copy_dest_page x Hd) as (z & Hz & _). by rewrite (upd_pages_kept _ _ _ share_full_keeps Hnd Hv x z Hz). }
  assert (NoDup (indices (option_to_list dest))) as Hnd2.
  { pose proof copy_distinct as Hn. unfold all, indices in *. rewrite fmap_app in Hn. by apply NoDup_app in Hn as (_ & _ & ?). }
  pose proof (upd_pages_kept _ _ _ share_tail_keeps Hnd2 Hv2 h _ Hq1) as Hq2. eexists. split; [exact Hq2|].
  apply elem_of_app in Hh as [Hf|[k [Hd _]%option_to_list_lookup]%list_elem_of_lookup].
  - pose proof (proj1 (Forall_forall _ _) Hshare h Hf) as (z & Hz & [Sr _ _ _]). assert (z = q) as -> by congruence.
    rewrite decide_False. 2: { pose proof copy_distinct as Hn. unfold all, indices in *. rewrite fmap_app in Hn.
      apply NoDup_app in Hn as (_ & Hdis & _). apply Hdis. by apply list_elem_of_fmap_2. }
    rewrite decide_True by by apply list_elem_of_fmap_2. cbn. lia.
  - destruct (copy_dest_page h Hd) as (z & Hz & Htr & _). assert (z = q) as -> by congruence.
    rewrite decide_True by (rewrite Hd; by left). rewrite decide_False by by apply copy_fresh.
    unfold transfer_destination in Htr. bool_facts. cbn. lia.
Qed.

(** What the whole copy leaves behind. *)
Record copied (s' : Spaces) : Prop := {
  cp_frame : sp_self s' = sp_self s /\ page_capacity_ s' = page_capacity_ s /\
    length (addresses_ s') = length (addresses_ s);
  cp_pages : sp_pages s' = upd_pages T.*1 published (upd_pages fulls shared (sp_pages s));
  cp_address : address_at s' j = Some (set_extent n front (checkpoint_frontier b) (set_binding r (Some row) true b));
  cp_others : forall k, k <> j -> address_at s' k = address_at s k;
  cp_members : forall k q, 0 <= q < page_capacity_ s ->
    membership s' k q = if decide (k = j /\ q < n) then default null_logical (all !! Z.to_nat q) else membership s k q;
}.

Lemma copy_post {A} full m (k : M Spaces A) Q E :
  Z.of_nat (length fulls) = full -> n = m ->
  (forall s', spaces_inv s' (mkHolders R W (hd_pins H) D) -> copied s' -> post k s' Q E) ->
  post (ps ← physical_pages (fulls ++ option_to_list dest);
        _ ← publish_row row 0 ps;
        _ ← for_pages 0 full (share_page i j);
        _ ← install_tail j full dest;
        _ ← modify_address j (fun b => set_extent m front (checkpoint_frontier b) (set_binding r (Some row) true b));
        _ ← for_pages 0 m (fun page => h ← get_membership j page; on_pages (retain_active_reference h));
        k) s Q E.
Proof.
  intros <- <- Hk. pose proof (proj1 Hinv) as Hc. pose proof (si_capacity_pos _ _ Hc). pose proof (si_cells _ _ Hc) as Hcells.
  pose proof (at_index_lt _ _ _ Hb) as Hj. assert (0 <= rs_pages r) as Hr.
  { eapply (known_reservation _ _ _ r (si_pages _ _ Hc)). rewrite HR. by left. }
  destruct (physical_pages_ok all s _ (si_pages _ _ Hc)) as (ps & Hps & Hpl & Hpv).
  { apply Forall_app. split.
    - apply (Forall_impl _ _ _ Hshare). intros h (pg & ? & [_ _ _ ?]). by exists pg.
    - apply Forall_forall. intros h [q [Hd _]%option_to_list_lookup]%list_elem_of_lookup.
      destruct (copy_dest_page h Hd) as (pg & Hpg & Ht & _). exists pg. split; [done|]. unfold transfer_destination in Ht. by bool_facts. }
  eapply post_eq; [exact Hps|].
  destruct (publish_row_quiet s H row 0 ps Hinv) as (t & Hpub & _ & Ht & Htc); [rewrite HW; by left|done|lia|unfold n in *; lia|].
  eapply post_eq; [exact Hpub|]. set (s1 := set_sp_tables t s).
  destruct (share_loop (share_page i j) share_full fulls s1 i j share_full_keeps Hnd Hij Hj Hcells) as (l & Hloop & Hl & Hm).
  { change (page_capacity_ s1) with (page_capacity_ s). unfold n, all in *. rewrite length_app in *. lia. }
  { intros p h Hp Hh. split; [by apply Hmem|]. rewrite Forall_forall in Hshare.
    destruct (Hshare h) as (pg & Hpg & [Sr Sw Sf _]); [by eapply list_elem_of_lookup_2|]. exists pg. split; [done|].
    intros s' Hm' Hpg'. apply share_page_eq; done || lia. }
  eapply post_eq; [exact Hloop|]. eapply post_eq; [apply install_tail_eq|].
  { intros h Hd. destruct (copy_dest_page h Hd) as (pg & Hpg & Ht' & _). exists pg. split; [|done].
    assert (Forall (fun h => is_Some (page_of (sp_pages s) h)) fulls) as Hv.
    { apply (Forall_impl _ _ _ Hshare). intros x (z & -> & _). done. }
    pose proof (upd_pages_kept _ _ _ share_full_keeps Hnd Hv h pg Hpg) as Hmid.
    by rewrite decide_False in Hmid by by apply copy_fresh. }
  destruct (install_members s1 l j dest fulls Hl Hj Hcells) as [Hl' Hm'].
  { unfold n, all in *. change (page_capacity_ s1) with (page_capacity_ s). lia. } { exact Hm. }
  set (l' := match dest with Some h => _ | None => l end) in *.
  match goal with |- post _ ?S _ _ => set (s3 := S) end.
  eapply post_eq; [exact (modify_address_eq j b _ s3 Hb)|].
  match goal with |- post _ ?S _ _ => set (s4 := S) end.
  eapply post_eq.
  { apply (for_pages_upd _ retained all n s4 retained_keeps copy_distinct); [unfold n; lia|intros; unfold n in *; lia|].
    intros p h Hp Hh. destruct (copy_member h) as (pg & Hpg & Ha & Hrm); [by eapply list_elem_of_lookup_2|].
    exists pg. split; [exact Hpg|]. intros S HS. unfold get_membership. cbv [mbind M_bind mget mret M_ret].
    assert (membership (set_sp_pages S s4) j p = h) as ->.
    { change (membership (set_memberships l' s1) j p = h). apply lookup_lt_Some in Hh as Hlt.
      rewrite Hm' by (change (page_capacity_ s1) with (page_capacity_ s); unfold n, all in *; lia).
      rewrite decide_True by (unfold all in *; lia). fold all. by rewrite Hh. }
    by apply on_pages_eq, retain_active_reference_eq. }
  change (sp_pages s4) with (upd_pages (option_to_list dest) share_tail (upd_pages fulls share_full (sp_pages s))).
  rewrite copy_store. match goal with |- post _ ?S _ _ => set (s5 := S) end.
  apply Hk.
  - apply (share_inv s s5 H r R row W T D fulls j b front t l'); try first [done|rewrite copy_tails; first [done|exact copy_columns]].
    unfold s5, s4, s3, n, all. rewrite <- copy_tails. reflexivity.
  - split; try done.
    + split_and!; [done|done|]. apply (length_set_index (addresses_ s) j).
    + rewrite (address_at_set s s5 j b _ j Hb eq_refl). by rewrite decide_True.
    + intros k' Hk'. rewrite (address_at_set s s5 j b _ k' Hb eq_refl). by rewrite decide_False.
Qed.

Lemma copied_members s' :
  copied s' -> members s' j (set_extent n front (checkpoint_frontier b) (set_binding r (Some row) true b)) = all.
Proof.
  intros [_ _ _ _ Hm]. assert (0 <= rs_pages r) as Hr.
  { eapply (known_reservation _ _ _ r (si_pages _ _ (proj1 Hinv))). rewrite HR. by left. }
  apply list_eq. intros k. unfold members. cbn [page_count set_extent set_binding].
  pose proof (memberships_of_length s' j n ltac:(unfold n; lia)) as Hlen.
  destruct (decide (Z.of_nat k < n)) as [Hk|Hk].
  - replace k with (Z.to_nat (Z.of_nat k)) by lia. rewrite memberships_of_lookup by lia.
    rewrite Hm, decide_True by lia. rewrite Nat2Z.id.
    destruct (lookup_lt_is_Some_2 all k) as [h Hh]; [unfold n in *; lia|]. by rewrite Hh.
  - rewrite !lookup_ge_None_2; [done| |]; unfold n in *; lia.
Qed.

Lemma copied_contents s' : copied s' -> contents_stay (sp_pages s) (sp_pages s').
Proof.
  intros [_ Hp _ _ _]. rewrite Hp.
  destruct (share_tails s H T D HD Hinv) as [Hnt _].
  apply (contents_stay_trans _ (upd_pages fulls shared (sp_pages s))).
  - apply upd_pages_contents; [apply shared_keeps|done| |done].
    apply (Forall_impl _ _ _ Hshare). intros h (pg & -> & _). done.
  - apply upd_pages_contents; [apply published_keeps|done| |done].
    exact (share_tail_valid s H T D fulls (memberships_ s) HD Hinv Hnd Hshare eq_refl).
Qed.
End copy.

(** ** Committing *)

(** A committed fork: the destination is active with the source's full pages and the copied tail;
    nobody else's pages change, and no page's content. *)
Record forked (s s' : Spaces) (x : KVPrefixForkReservation) : Prop := {
  fd_destination : exists b, address_of s' (fk_destination x) = Some b /\ ad_active b = true /\
    frontier b = fk_frontier x /\ ad_row b = fk_row x /\
    page_count b + rs_pages (ad_reservation b) = fk_requested_entitlement x /\
    members s' (ah_index (fk_destination x)) b =
      memberships_of s (ah_index (fk_source x)) (fk_full_pages x) ++ option_to_list (fk_tail_destination x);
  fd_others : forall k, k <> ah_index (fk_destination x) ->
    address_at s' k = address_at s k /\ forall q, 0 <= q < page_capacity_ s -> membership s' k q = membership s k q;
  fd_contents : contents_stay (sp_pages s) (sp_pages s');
}.

Lemma address_of_distinct s h h' a a' :
  address_of s h = Some a -> address_of s h' = Some a' -> h <> h' -> ah_index h <> ah_index h'.
Proof.
  intros (E1 & E2 & _ & E3)%address_of_Some (F1 & F2 & _ & F3)%address_of_Some Hne Heq. apply Hne.
  destruct h, h'. cbn in *. subst. rewrite E2 in F2. injection F2 as ->. done.
Qed.

Lemma with_pins_same H : with_pins (hd_pins H) H = H.
Proof. by destruct H. Qed.

(** The full pages of a prepared fork can be shared. *)
Lemma fork_fulls s H x hs a :
  spaces_inv s (fork_held x hs H) -> fork_ok (sp_self s) (page_capacity_ s) x hs ->
  address_of s (fk_source x) = Some a ->
  (forall p, 0 <= p < pages_for_tokens (fk_frontier x) -> exists pg,
    page_of (sp_pages s) (membership s (ah_index (fk_source x)) p) = Some pg /\ fork_ready x p pg) ->
  let fulls := take (Z.to_nat (fk_full_pages x)) hs in
  memberships_of s (ah_index (fk_source x)) (fk_full_pages x) = fulls /\ NoDup (indices fulls) /\
  (forall p h, 0 <= p -> fulls !! Z.to_nat p = Some h -> membership s (ah_index (fk_source x)) p = h) /\
  Forall (fun h => exists pg, page_of (sp_pages s) h = Some pg /\ shareable pg) fulls.
Proof.
  intros Hinv Hx Ha Hready fulls. destruct (fork_shape _ _ _ _ Hx) as (Hf & Ht & Heq & Hn & Hlen & Hlp & Htake).
  set (full := fk_full_pages x) in *. set (i := ah_index (fk_source x)) in *.
  assert (spaces_inv s (with_pins (pin_list (fk_source x) (fork_pinned x hs) (Z.to_nat full) true ++ hd_pins H) (fork_held x hs H))) as Hinv' by done.
  assert (forall p h, 0 <= p -> fulls !! Z.to_nat p = Some h -> membership s i p = h) as Hmem.
  { intros p h Hp Hh. destruct (pinned_position _ _ _ _ _ _ _ p h Hinv' Hp) as (a' & _ & _ & Hm); [|done].
    unfold fulls in Hh. rewrite <- Htake in Hh. by apply lookup_take_Some in Hh as [? _]. }
  assert (Z.of_nat (length fulls) = full) as Hlf by (unfold fulls; rewrite length_take; lia).
  split_and!; [|..|].
  - apply list_eq. intros k. destruct (decide (k < length fulls)%nat) as [Hk|Hk].
    + destruct (lookup_lt_is_Some_2 fulls k Hk) as [h Hh]. rewrite Hh. replace k with (Z.to_nat (Z.of_nat k)) in * by lia.
      rewrite memberships_of_lookup by lia. f_equal. apply Hmem; [lia|done].
    + pose proof (memberships_of_length s i full Hf). rewrite !lookup_ge_None_2; [done|lia|lia].
  - destruct (unpinned_list _ _ _ _ _ _ _ Hinv') as (_ & Hnd & _). unfold fulls. rewrite <- Htake. unfold indices in *.
    rewrite fmap_take. eapply sublist_NoDup; [exact Hnd|apply sublist_take].
  - exact Hmem.
  - apply Forall_forall. intros h [k Hk]%list_elem_of_lookup. pose proof (lookup_lt_Some _ _ _ Hk) as Hlt.
    pose proof (Hmem (Z.of_nat k) h) as Hm. rewrite Nat2Z.id in Hm. specialize (Hm ltac:(lia) Hk).
    destruct (Hready (Z.of_nat k)) as (pg & Hpg & [Yp Yr]); [rewrite Hn; destruct (_ =? 0); lia|]. rewrite Hm in Hpg. exists pg. split; [done|].
    fold full in Yp, Yr. destruct Yp as [Hpin Hdev]; [rewrite (proj2 (Z.eqb_neq (Z.of_nat k) full)); [done|lia]|].
    pose proof (proj1 Hinv') as Hc. unfold fulls in Hk. rewrite <- Htake in Hk. pose proof Hk as [Hkp _]%lookup_take_Some.
    destruct (fork_pinned x hs) as [|h0 rest] eqn:Hfp; [done|].
    pose proof (si_pins _ _ Hc) as [(a' & Ha' & _ & Hfull & _ & Hw)%id _]%Forall_cons. cbn [pin_full pin_pages pin_shared] in *.
    rewrite Forall_forall in Hfull. specialize (Hw eq_refl). rewrite Forall_forall in Hw.
    destruct (pinned_page s _ (mkPin (fk_source x) (h0 :: rest) (Z.to_nat full) true) h Hc) as (q & Hq & _ & Hr);
      [by left|by eapply list_elem_of_lookup_2|]. assert (q = pg) as -> by congruence.
    pose proof (page_of_ok _ _ _ (kv_desc _ _ _ (si_pages _ _ Hc)) Hpg) as Hok. pose proof (po_refs _ Hok).
    split; [specialize (Yr ltac:(lia)); lia| | |done].
    + eapply Hw; [by eapply list_elem_of_lookup_2|done].
    + eapply Hfull; [by eapply list_elem_of_lookup_2|done].
Qed.

Lemma commit_prefix_fork_post s H x hs :
  spaces_inv s (fork_held x hs H) -> fork_ok (sp_self s) (page_capacity_ s) x hs ->
  post (commit_prefix_fork x) s (fun s' _ => spaces_inv s' H /\ forked s s' x) (unchanged s).
Proof.
  intros Hinv Hx. destruct (fork_shape _ _ _ _ Hx) as (Hf & Ht & Heq & Hn & Hlen & Hlp & _).
  pose proof (proj1 Hinv) as Hc. pose proof (si_capacity_pos _ _ Hc). pose proof (fr_entitlement _ _ _ _ Hx).
  unfold commit_prefix_fork. eapply post_bind with (Q := fun s' _ => s' = s).
  { unfold require_prefix_fork. apply post_get. unfold post, mthrow_if. by destruct (_ || _). }
  intros ? _ ->. apply post_require; [done|]. intros a Ha. apply post_require; [done|]. intros b Hb.
  destruct (fk_row x) as [row|] eqn:Hrow; [|done].
  apply post_throw_if; [done|]. intros Hempty. bool_facts.
  apply (for_pages_check (fun p s => exists pg, page_of (sp_pages s) (membership s (ah_index (fk_source x)) p) = Some pg /\ fork_ready x p pg));
    [intros; apply recheck_fork_source_cases|done|]. intros Hready.
  destruct (fork_fulls s H x hs a Hinv Hx Ha Hready) as (Hmem & Hnd & Hpos & Hshare).
  apply post_get, post_throw_if; [done|]. intros _. rewrite Hmem. set (fulls := take _ hs) in *.
  assert (Z.of_nat (length fulls) = fk_full_pages x) as Hlf by (unfold fulls; rewrite length_take; lia).
  set (dest := fk_tail_destination x) in *. set (i := ah_index (fk_source x)) in *. set (j := ah_index (fk_destination x)) in *.
  assert (pages_for_tokens (fk_frontier x) = Z.of_nat (length (fulls ++ option_to_list dest))) as Hall.
  { rewrite Hn, length_app, Nat2Z.inj_add, Hlf. pose proof (fr_destination _ _ _ _ Hx) as Hd. fold dest in Hd.
    destruct (fk_tail_columns x =? 0), dest; cbn in Hd |- *; congruence || lia. }
  assert (i <> j) as Hij by (apply (address_of_distinct s _ _ a b Ha Hb), Hx).
  pose proof (address_of_at _ _ _ Hb) as Hbj. pose proof (si_address _ _ Hc _ _ Hbj) as Hbok.
  assert (ad_active b = false) as Hact by by rewrite <- (is_bound_active _ _ _ _ Hc Hbj).
  assert (0 <= pages_for_tokens (fk_frontier x) <= page_capacity_ s) as Hnr by lia. fold fulls.
  rewrite w32_small in * by lia.
  apply (copy_post s (fork_held x hs H) (fk_page_reservation x) (hd_res H) row (hd_rows H) dest (hd_dests H) fulls i j b
    (fk_frontier x) (fk_tail_columns x)); try done.
  { unfold fork_held. cbn [hd_rows]. by rewrite Hrow. }
  { apply (address_of_occupied _ _ _ Hb). }
  { lia. }
  { rewrite <- Hall, Hn. pose proof (fr_front _ _ _ _ Hx). unfold kPagedKVPageSize in *. destruct (fk_tail_columns x =? 0) eqn:Hz; lia. }
  { rewrite Hlf. lia. }
  intros s1 Hinv1 Hcp.
  destruct (unpin_loop s1 H (fk_source x) (fork_pinned x hs) (Z.to_nat (fk_full_pages x)) true (hd_pins H)
    (pages_for_tokens (fk_frontier x)) (fun page => if (page =? fk_full_pages x) && fk_tail_source_settled x then mret tt
      else h ← get_membership i page; on_pages (unpin_source h))) as (Hloop & Hinv2 & Hpn & Hpv).
  { exact Hinv1. }
  { rewrite Hlp, Hn. destruct (fk_tail_source_settled x), (fk_tail_columns x =? 0); lia. }
  { intros p s' Hp. rewrite Hlp, Hn in Hp. destruct (fk_tail_source_settled x) eqn:Hs.
    - destruct (Z.eqb_spec p (fk_full_pages x)); [done|]. destruct (fk_tail_columns x =? 0); lia.
    - destruct (fk_tail_columns x =? 0); lia. }
  { intros p s' h pg Hp Hm Hpg Hpin. assert ((p =? fk_full_pages x) && fk_tail_source_settled x = false) as ->.
    - rewrite Hlp in Hp. destruct (fk_tail_source_settled x); [|by rewrite andb_false_r].
      destruct (Z.eqb_spec p (fk_full_pages x)); [lia|done].
    - by apply (unpin_page i p s' h pg). }
  eapply post_end; [exact Hloop|]. rewrite with_pins_same in Hinv2. split; [exact Hinv2|].
  set (s2 := set_sp_pages _ s1). pose proof Hcp as [(Fs & Fc & Fl) Fp Fa Fo Fm].
  set (b' := set_extent _ _ _ _) in Fa. split.
  - exists b'. split_and!; try done.
    + apply address_of_Some. pose proof Hb as (E1 & _ & E3 & E4)%address_of_Some. split_and!; try done.
      change (ah_owner (fk_destination x) = Some (sp_self s1)). by rewrite Fs.
    + cbn [page_count ad_reservation b' set_extent set_binding]. rewrite <- Hall. lia.
    + fold i j dest. rewrite Hmem. refine (copied_members s (fork_held x hs H) _ (hd_res H) row dest fulls j b _ _ _ _ _ s1 Hcp); done || lia.
  - intros k Hk. split; [by apply Fo|]. intros q Hq. change (membership s1 k q = membership s k q). rewrite Fm by done.
    by rewrite decide_False by tauto.
  - apply (contents_stay_trans _ (sp_pages s1)); [|by apply upd_pages_contents; [apply add_pins_keeps|..]].
    refine (copied_contents s (fork_held x hs H) _ row dest (hd_dests H) fulls j b _ _ _ _ _ _ s1 Hcp); done.
Qed.
