(* ===== verification/KVAddressForkAbort.v ===== *)
(** * Address spaces: forks that are staged or abandoned

    A fork with a staged tail release unpins its tail once the copy has been taken, and completes its
    reservation when the tail has left the device.  A fork that is not committed gives back its pins,
    its destination, its row and its reservation. *)

From S2P Require Import Prelude Post Extents Tensor KVGeometry DevicePagePool DevicePoolInvariant DevicePoolOps ExecutionTables KVPages KVPagesInvariant KVPagesSpec KVAddress KVAddressPages KVAddressInvariant KVAddressUpdate KVAddressProtect KVAddressOps KVAddressActivation KVAddressGrowth KVAddressShare KVAddressForks KVAddressForkCommit.
Import LogicalKVPageStore KVAddressSpaceStore.

(** ** Staged tails *)

Lemma post_fork_owner x {A} (k : unit -> M Spaces A) s Q (E : Spaces -> exn -> Prop) :
  E s LogicError -> post (k tt) s Q E -> post (require_prefix_fork x ≫= k) s Q E.
Proof.
  intros He Hk. unfold require_prefix_fork. apply post_assoc, post_get, post_throw_if; done.
Qed.

Lemma post_ask {A B} (f : Store -> result A) (k : A -> M Spaces B) s Q (E : Spaces -> exn -> Prop) :
  (forall e, f (sp_pages s) = Throw e -> E s e) -> (forall a, f (sp_pages s) = Ok a -> post (k a) s Q E) ->
  post (ask f ≫= k) s Q E.
Proof. intros He Hk. eapply post_pure; [reflexivity|done|done]. Qed.

Lemma member_of_app i hs hs' : NoDup (indices (hs ++ hs')) -> member_of i (hs ++ hs') = member_of i hs + member_of i hs'.
Proof.
  unfold member_of, indices. rewrite fmap_app. intros (_ & Hdis & _)%NoDup_app. specialize (Hdis i).
  repeat case_decide; rewrite ?elem_of_app in *; tauto || lia.
Qed.

Lemma count_pins_app Q Q' i : count_pins (Q ++ Q') i = count_pins Q i + count_pins Q' i.
Proof. unfold count_pins. induction Q as [|q Q IH]; cbn in *; lia. Qed.

Lemma count_pin_list source hs full shared i : count_pins (pin_list source hs full shared) i = member_of i hs.
Proof. destruct hs as [|h hs]; [by rewrite member_of_out by apply not_elem_of_nil|]. cbn. lia. Qed.

(** The tail's pin is the last of the source's. *)
Lemma settled_pins s H source hs full Q :
  spaces_inv s (with_pins (pin_list source hs full true ++ Q) H) -> length hs = S full ->
  exists h pg, hs !! full = Some h /\ page_of (sp_pages s) h = Some pg /\ 1 <= source_pins_ pg <= u32_max /\
    spaces_inv (set_sp_pages (set_page_at (lh_index h) (add_pins (-1) pg) (sp_pages s)) s)
      (with_pins (pin_list source (take full hs) full true ++ Q) H).
Proof.
  intros Hinv Hlen. destruct (unpinned_list _ _ _ _ _ _ _ Hinv) as (_ & Hnd & Hall).
  destruct (lookup_lt_is_Some_2 hs full) as [h Hh]; [lia|]. rewrite Forall_forall in Hall.
  destruct (Hall h) as (pg & Hpg & Hpin); [by eapply list_elem_of_lookup_2|].
  assert (hs = take full hs ++ [h]) as Hsplit by (rewrite <- (take_S_r _ _ _ Hh); rewrite take_ge by lia; done).
  pose proof (proj1 Hinv) as Hc. assert (hs <> []) as Hne by by intros ->.
  assert (pin_list source hs full true = [mkPin source hs full true]) as Hpl by by destruct hs.
  pose proof (si_pins _ _ Hc) as Hok. cbn [hd_pins with_pins] in Hok. rewrite Hpl in Hok.
  apply Forall_cons in Hok as [(a & Ha & Hpre & Hfull & _ & Hw) HQ]. cbn [pin_space pin_pages pin_full pin_shared] in *.
  exists h, pg. split_and!; try done; try lia.
  pose proof (repinned_inv s _ (pin_list source (take full hs) full true ++ Q) [h] (-1) Hinv) as Hre.
  unfold repinned, upd_pages in Hre. cbn [foldl] in Hre. rewrite Hpg in Hre. apply Hre.
  - apply NoDup_singleton.
  - apply Forall_singleton. destruct (pinned_page s _ (mkPin source hs full true) h Hc) as (q & Hq & _ & Hr).
    { cbn [hd_pins with_pins]. rewrite Hpl. by left. } { by eapply list_elem_of_lookup_2. }
    exists q. assert (q = pg) as -> by congruence. split_and!; [done|done|lia|lia].
  - intros i. cbn [hd_pins with_pins]. rewrite Hpl. rewrite !count_pins_app, count_pins_cons. cbn [pin_pages].
    rewrite count_pin_list. rewrite Hsplit at 2. rewrite (member_of_app i) by by rewrite <- Hsplit. change (count_pins [] i) with 0. lia.
  - apply Forall_app. split; [|done]. destruct (take full hs) as [|h0 rest] eqn:Ht; [constructor|]. cbn [pin_list]. rewrite <- Ht.
    apply Forall_singleton. exists a. cbn [pin_space pin_pages pin_full pin_shared]. split_and!; [done|..].
    + etransitivity; [|exact Hpre]. apply prefix_take.
    + by rewrite take_take, Nat.min_id, Ht.
    + rewrite Ht. done.
    + intros _. apply Forall_take. by apply Hw.
Qed.

Lemma settle_prefix_fork_tail_source_post s H x hs :
  spaces_inv s (fork_held x hs H) -> fork_ok (sp_self s) (page_capacity_ s) x hs ->
  post (settle_prefix_fork_tail_source x) s
    (fun s' x' => spaces_inv s' (fork_held x' hs H) /\ fork_ok (sp_self s') (page_capacity_ s') x' hs) (unchanged s).
Proof.
  intros Hinv Hx. destruct (fork_shape _ _ _ _ Hx) as (Hf & Ht & Heq & Hn & Hlen & Hlp & _).
  unfold settle_prefix_fork_tail_source. apply post_fork_owner; [done|]. apply post_throw_if; [done|]. intros Hg. bool_facts.
  apply post_require; [done|]. intros a Ha. eapply post_eq; [reflexivity|]. apply post_get, post_throw_if; [done|]. intros _.
  set (h := membership s _ _).
  apply post_ask. { unfold source_pins, LogicalKVPageStore.require. destruct (page_of _ _); cbn; intros ? [=]; subst; done. }
  intros pins _. apply post_ask. { unfold device_resident, LogicalKVPageStore.require. destruct (page_of _ _); cbn; intros ? [=]; subst; done. }
  intros resident _. apply post_throw_if; [done|]. intros _.
  assert (fk_tail_source_settled x = false) as Hs by done. rewrite Hs in Hlp.
  assert (fork_pinned x hs = hs) as Hp by (unfold fork_pinned; by rewrite Hs).
  unfold fork_held in Hinv. rewrite Hp in Hinv.
  destruct (settled_pins s (fork_held x hs H) (fk_source x) hs (Z.to_nat (fk_full_pages x)) (hd_pins H) Hinv)
    as (h' & pg & Hh & Hpg & Hpin & Hinv').
  { rewrite Hp in Hlp. rewrite Hn, (proj2 (Z.eqb_neq (fk_tail_columns x) 0)) in Hlp by done. lia. }
  destruct (pinned_position s (fork_held x hs H) _ _ _ _ (hd_pins H) (fk_full_pages x) h' Hinv Hf Hh) as (_ & _ & _ & Hm).
  eapply post_eq.
  { unfold on_pages. unfold h. rewrite Hm, (unpin_source_eq (sp_pages s) h' pg Hpg ltac:(lia)). reflexivity. }
  apply post_ret. split.
  - exact Hinv'.
  - destruct Hx. by split.
Qed.

Lemma resize_client s H r R n :
  spaces_inv s (with_res (r :: R) H) -> 0 <= n <= u32_max ->
  match on_device (resize_reservation r n) s with
  | (s', Ok r') => spaces_inv s' (with_res (r' :: R) H) /\ quiet s s' /\ rs_pages r' = n
  | (s', Throw e) => s' = s /\ e <> Terminate
  end.
Proof.
  intros Hinv Hn. pose proof (resize_device s _ _ n (si_pages _ _ (proj1 Hinv)) Hn) as Hres.
  destruct (on_device _ s) as [s' [r'|e]].
  - destruct Hres as (p & -> & Hkv & Hr). split_and!; [|apply quiet_physical|done].
    exact (spaces_physical s _ p (r' :: R) Hinv Hkv).
  - by destruct Hres as [-> ->].
Qed.

Lemma complete_prefix_fork_post s H x hs :
  spaces_inv s (fork_held x hs H) -> fork_ok (sp_self s) (page_capacity_ s) x hs ->
  post (complete_prefix_fork_after_tail_release x) s
    (fun s' x' => spaces_inv s' (fork_held x' hs H) /\ fork_ok (sp_self s') (page_capacity_ s') x' hs /\
      rs_pages (fk_page_reservation x') = fk_requested_entitlement x - pages_for_tokens (fk_frontier x)) (unchanged s).
Proof.
  intros Hinv Hx. unfold complete_prefix_fork_after_tail_release. apply post_fork_owner; [done|].
  apply post_throw_if; [done|]. intros _.
  apply post_require; [done|]. intros a Ha. eapply post_eq; [reflexivity|]. apply post_get, post_throw_if; [done|]. intros _.
  apply post_ask. { unfold device_resident, LogicalKVPageStore.require. destruct (page_of _ _); cbn; intros ? [=]; subst; done. }
  intros resident _. apply post_ask. { unfold host_resident, LogicalKVPageStore.require. destruct (page_of _ _); cbn; intros ? [=]; subst; done. }
  intros on_host _. apply post_throw_if; [done|]. intros _.
  pose proof (si_capacity_pos _ _ (proj1 Hinv)). pose proof (fr_entitlement _ _ _ _ Hx).
  pose proof (pages_for_tokens_nonneg (fk_frontier x)). pose proof (fr_front _ _ _ _ Hx).
  rewrite w32_small by lia.
  pose proof (resize_client s (fork_held x hs H) (fk_page_reservation x) (hd_res H)
    (fk_requested_entitlement x - pages_for_tokens (fk_frontier x)) Hinv ltac:(lia)) as Hres.
  unfold post. cbv [mbind M_bind]. destruct (on_device _ s) as [s' [r|e]]; [|by destruct Hres as [-> ?]].
  destruct Hres as (Hinv' & Hq & Hr). cbv [mret M_ret]. split_and!; [exact Hinv'| |done].
  rewrite (qt_self _ _ Hq), (qt_capacity _ _ Hq). destruct Hx. by split.
Qed.

(** ** Giving up *)

(** A destination that may be there. *)
Lemma drop_destination_option s H r R dest columns D :
  spaces_inv s (with_dests (dest_list dest columns ++ D) (with_res (r :: R) H)) ->
  exists s' r', (match dest with Some h => on_pages (abort_transfer_destination h r) | None => mret r end) s = (s', Ok r') /\
    spaces_inv s' (with_dests D (with_res (r' :: R) H)) /\ s' = set_sp_pages (sp_pages s') s.
Proof.
  intros Hinv. destruct dest as [h|]; [exact (drop_destination s H r R h columns D Hinv)|].
  exists s, r. split_and!; [done|done|by destruct s].
Qed.

Lemma abort_prefix_fork_post s H x hs :
  spaces_inv s (fork_held x hs H) -> fork_ok (sp_self s) (page_capacity_ s) x hs ->
  post (abort_prefix_fork x) s
    (fun s' r => spaces_inv s' (mkHolders (r :: hd_res H) (option_list (fk_row x) ++ hd_rows H) (hd_pins H) (hd_dests H)) /\
      s' = set_sp_pages (sp_pages s') s) (fun _ _ => False).
Proof.
  intros Hinv Hx. destruct (fork_shape _ _ _ _ Hx) as (Hf & Ht & Heq & Hn & Hlen & Hlp & _).
  unfold abort_prefix_fork. apply post_noexcept, post_get. rewrite bool_decide_eq_true_2 by apply Hx. cbn [negb].
  set (H2 := mkHolders (fk_page_reservation x :: hd_res H) (option_list (fk_row x) ++ hd_rows H) (hd_pins H)
    (dest_list (fk_tail_destination x) (fk_tail_columns x) ++ hd_dests H)).
  apply post_bind with (Q := fun s1 _ => spaces_inv s1 H2 /\ s1 = set_sp_pages (sp_pages s1) s).
  - destruct (valid s (fk_source x)) eqn:Hv.
    + destruct (unpin_loop s (fork_held x hs H) (fk_source x) (fork_pinned x hs) (Z.to_nat (fk_full_pages x)) true (hd_pins H)
        (pages_for_tokens (fk_frontier x)) (fun page => if (page =? fk_full_pages x) && fk_tail_source_settled x then mret tt
          else unpin_if_pinned (ah_index (fk_source x)) page)) as (Hloop & Hinv2 & _ & _).
      { exact Hinv. } { rewrite Hlp, Hn. destruct (fk_tail_source_settled x), (fk_tail_columns x =? 0); lia. }
      { intros p s' Hp. rewrite Hlp, Hn in Hp. destruct (fk_tail_source_settled x) eqn:Hs.
        - destruct (Z.eqb_spec p (fk_full_pages x)); [done|]. destruct (fk_tail_columns x =? 0); lia.
        - destruct (fk_tail_columns x =? 0); lia. }
      { intros p s' h pg Hp Hm Hpg Hpin. assert ((p =? fk_full_pages x) && fk_tail_source_settled x = false) as ->.
        - rewrite Hlp in Hp. destruct (fk_tail_source_settled x); [|by rewrite andb_false_r].
          destruct (Z.eqb_spec p (fk_full_pages x)); [lia|done].
        - by apply (unpin_if_pinned_page _ p s' h pg). }
      eapply post_end; [exact Hloop|]. split; [exact Hinv2|done].
    + apply post_ret. split; [|by destruct s]. destruct (fork_pinned x hs) as [|h rest] eqn:Hp.
      * unfold fork_held in Hinv. rewrite Hp in Hinv. exact Hinv.
      * exfalso. pose proof (si_pins _ _ (proj1 Hinv)) as Hok. unfold fork_held in Hok. rewrite Hp in Hok.
        apply Forall_cons in Hok as [(a & Ha & _) _]. cbn [pin_space] in Ha. unfold valid in Hv. by rewrite Ha in Hv.
  - intros s1 _ [Hinv1 Hs1].
    destruct (drop_destination_option s1 (mkHolders (hd_res H) (option_list (fk_row x) ++ hd_rows H) (hd_pins H) (hd_dests H))
      (fk_page_reservation x) (hd_res H) (fk_tail_destination x) (fk_tail_columns x) (hd_dests H) Hinv1) as (s2 & r' & Hdrop & Hinv2 & Hs2).
    eapply post_end; [exact Hdrop|]. split; [exact Hinv2|]. rewrite Hs2, Hs1. done.
Qed.

Lemma destroy_prefix_fork_post s H x hs :
  spaces_inv s (fork_held x hs H) -> fork_ok (sp_self s) (page_capacity_ s) x hs ->
  exists s', destroy_prefix_fork x s = (s', Ok tt) /\ spaces_inv s' H.
Proof.
  intros Hinv Hx. destruct (post_returns _ _ _ (abort_prefix_fork_post s H x hs Hinv Hx)) as (s1 & r & Ha & Hinv1 & _).
  unfold destroy_prefix_fork. cbv [mbind M_bind]. rewrite Ha.
  destruct (fk_row x) as [row|] eqn:Hrow; [|by pose proof (fr_row _ _ _ _ Hx) as Hr; rewrite Hrow in Hr].
  cbn [reset_row option_list app] in *.
  destruct (drop_row s1 (with_res (r :: hd_res H) H) row (hd_rows H)) as (s2 & -> & Hinv2 & _); [exact Hinv1|].
  destruct (drop_reservation s2 H r (hd_res H)) as (s3 & -> & Hinv3 & _); [by destruct H|].
  exists s3. rewrite with_res_same in Hinv3. done.
Qed.
