(* ===== verification/KVAddressSnapshots.v ===== *)
(** * Address spaces: active snapshots

    A snapshot of an active address hands its row and its reservation to an empty address that
    continues it: the full pages are shared, a partial tail is copied, and the source stays behind as
    an inactive address whose whole content is a checkpoint.  Preparing pins the source pages and
    takes a page for the tail. *)

From S2P Require Import Prelude Post Extents Tensor KVGeometry DevicePagePool DevicePoolInvariant DevicePoolOps ExecutionTables KVPages KVPagesInvariant KVPagesSpec KVAddress KVAddressPages KVAddressInvariant KVAddressUpdate KVAddressProtect KVAddressOps KVAddressActivation KVAddressGrowth KVAddressShare KVAddressForks KVAddressForkCommit KVAddressForkAbort.
Import LogicalKVPageStore KVAddressSpaceStore.

(** ** What a prepared snapshot holds *)

Definition snapshot_held (x : KVActiveSnapshotReservation) (hs : list LogicalKVPageHandle) (H : Holders) : Holders :=
  mkHolders (sn_tail_reservation x :: hd_res H) (hd_rows H)
    (pin_list (sn_source x) hs (Z.to_nat (full_pages (sn_shape x))) false ++ hd_pins H)
    (dest_list (sn_tail_destination x) (tail_columns (sn_shape x)) ++ hd_dests H).

Record snapshot_ok (self : Z) (x : KVActiveSnapshotReservation) (hs : list LogicalKVPageHandle) : Prop := {
  sr_owner : sn_owner x = Some self;
  sr_distinct : sn_source x <> sn_destination x;
  sr_front : 0 < sn_frontier x <= u32_max;
  sr_full : full_pages (sn_shape x) = sn_frontier x / kPagedKVPageSize;
  sr_tail : tail_columns (sn_shape x) = sn_frontier x mod kPagedKVPageSize;
  sr_pages : Z.of_nat (length hs) = pages_for_tokens (sn_frontier x);
  sr_destination : has (sn_tail_destination x) = negb (tail_columns (sn_shape x) =? 0);
}.

(** ** The shape of a snapshot *)

(** A full page that the walk accepts. *)
Record snapshot_page_ok (pg : Page) : Prop := {
  sg_device : has (device_replica pg) = true;
  sg_refs : references pg <> u32_max;
  sg_columns : kPagedKVPageSize <= committed_columns_ pg;
  sg_writer : writer_references_ pg = 0 \/ writer_references_ pg = 1 /\ references pg = 1;
  sg_pins : source_pins_ pg <> u32_max;
}.

Lemma snapshot_walk_cases hs : forall b shape s,
  match snapshot_walk hs b shape s with
  | (s', Ok shape') => s' = s /\ full_pages shape' = full_pages shape /\ tail_columns shape' = tail_columns shape /\
      Forall (fun h => exists pg, page_of (sp_pages s) h = Some pg /\ snapshot_page_ok pg) hs
  | (s', Throw e) => s' = s /\ e <> Terminate
  end.
Proof.
  induction hs as [|h hs IH]; intros b shape s; [split_and!; [done..|constructor]|]. cbn [snapshot_walk].
  unfold ask, address_references, writer_references, device_resident, committed_columns, can_retain_reference,
    can_pin_source, can_pin_active_source, query, LogicalKVPageStore.require. unfold_M.
  destruct (page_of (sp_pages s) h) as [pg|] eqn:Hpg; [|done].
  destruct (_ || _) eqn:Hg; [done|]. bool_facts.
  destruct (Z.eqb_spec (writer_references_ pg) 0) as [Hw|Hw].
  - match goal with |- context [if ?c then Throw _ else _] => destruct c eqn:Hg2 end; [done|]. bool_facts.
    match goal with |- context [snapshot_walk hs ?b' ?sh s] => specialize (IH b' sh s); destruct (snapshot_walk hs b' sh s) as [s' [shape'|e]] end;
      [|done]. destruct IH as (-> & -> & -> & Hall). split_and!; [done..|]. constructor; [|done]. exists pg. split; [done|].
    split; try done. by left.
  - destruct (_ && _ && _) eqn:Hg2; [|done]. bool_facts.
    match goal with |- context [snapshot_walk hs ?b' ?sh s] => specialize (IH b' sh s); destruct (snapshot_walk hs b' sh s) as [s' [shape'|e]] end;
      [|done]. destruct IH as (-> & -> & -> & Hall). split_and!; [done..|]. constructor; [|done]. exists pg. split; [done|].
    split; try done. by right.
Qed.

(** What the shape of a snapshot at [front] says of the source. *)
Record snapshot_shaped (s : Spaces) (source : KVAddressSpaceHandle) (front : Z) (a : Address)
    (shape : KVActiveSnapshotShape) : Prop := {
  ss_address : address_of s source = Some a;
  ss_active : ad_active a = true;
  ss_front : 0 < front /\ front = frontier a;
  ss_count : pages_for_tokens front <= page_count a;
  ss_full : full_pages shape = front / kPagedKVPageSize;
  ss_tail : tail_columns shape = front mod kPagedKVPageSize;
  ss_pages : Forall (fun h => exists pg, page_of (sp_pages s) h = Some pg /\ snapshot_page_ok pg)
    (memberships_of s (ah_index source) (full_pages shape));
  ss_last : tail_columns shape <> 0 -> exists pg,
    page_of (sp_pages s) (membership s (ah_index source) (full_pages shape)) = Some pg /\
    writer_references_ pg = 1 /\ references pg = 1 /\ tail_columns shape <= committed_columns_ pg /\ source_pins_ pg <> u32_max;
}.

Lemma active_snapshot_shape_post s H source front :
  spaces_inv s H -> 0 <= front ->
  post (active_snapshot_shape source front) s
    (fun s' shape => s' = s /\ exists a, snapshot_shaped s source front a shape) (unchanged s).
Proof.
  intros [Hc _] Hf. unfold active_snapshot_shape. apply post_require_active; [done..|]. intros a Ha Hact%active_address_flag.
  apply post_throw_if; [done|]. intros Hg. bool_facts. apply post_throw_if; [done|]. intros Hg. bool_facts. apply post_get.
  set (full := front / kPagedKVPageSize). set (tail := front mod kPagedKVPageSize).
  pose proof (snapshot_walk_cases (memberships_of s (ah_index source) full) false (mkShape full 0 0 tail) s) as Hwalk.
  unfold post. cbv [mbind M_bind]. destruct (snapshot_walk _ _ _ s) as [s' [shape|e]]; [|by destruct Hwalk as [-> ?]].
  destruct Hwalk as (-> & Hfull & Htail & Hall). cbn [full_pages tail_columns] in Hfull, Htail.
  destruct (Z.eqb_spec tail 0) as [Ht|Ht]; cbn [negb].
  - cbv [mret M_ret]. split; [done|]. exists a. split; try done; [lia|by rewrite Hfull|]. intros Hn. congruence.
  - unfold ask, address_references, writer_references, device_resident, committed_columns, can_pin_active_source, query,
      LogicalKVPageStore.require. unfold_M. destruct (page_of (sp_pages s) (membership s (ah_index source) full)) as [pg|] eqn:Hpg; [|done].
    destruct (_ || _) eqn:Hg; [done|]. bool_facts. split; [done|]. exists a. split; try done; [lia|by rewrite Hfull|].
    intros _. exists pg. rewrite Hfull, Htail. done.
Qed.

(** ** Preparing *)

(** Every source page can be pinned. *)
Lemma snapshot_source_page s source front a shape p pg :
  snapshot_shaped s source front a shape -> 0 < front -> 0 <= p < pages_for_tokens front ->
  page_of (sp_pages s) (membership s (ah_index source) p) = Some pg ->
  source_pins_ pg <> u32_max /\ (p < full_pages shape -> kPagedKVPageSize <= committed_columns_ pg).
Proof.
  intros [_ _ _ _ Hfull Htail Hall Hlast] Hf Hp Hpg. destruct (frontier_parts front Hf) as (H1 & H2 & H3 & H4).
  rewrite <- Hfull, <- Htail in *. destruct (decide (p < full_pages shape)) as [Hlt|Hge].
  - rewrite Forall_forall in Hall. destruct (Hall (membership s (ah_index source) p)) as (q & Hq & [_ _ Hc _ Hpin]).
    { apply elem_of_memberships. exists p. split; [lia|done]. }
    assert (q = pg) as -> by congruence. done.
  - destruct (Z.eqb_spec (tail_columns shape) 0) as [Hz|Hz]; [lia|]. assert (p = full_pages shape) as -> by lia.
    destruct (Hlast Hz) as (q & Hq & _ & _ & _ & Hpin). assert (q = pg) as -> by congruence. split; [done|lia].
Qed.

(** A page for the tail, if there is one. *)
Lemma post_snapshot_reserve {A} s H shape (k : DeviceKVPageReservation -> M Spaces A) Q (E : Spaces -> exn -> Prop) :
  spaces_inv s H -> (forall e, e <> Terminate -> E s e) ->
  (forall s' r, spaces_inv s' (with_res (r :: hd_res H) H) -> quiet s s' -> post (k r) s' Q E) ->
  post ((let r := make_empty_reservation (physical_ (sp_pages s)) in
         if negb (copied_pages shape =? 0) then on_device (resize_reservation r (copied_pages shape)) else mret r) ≫= k) s Q E.
Proof.
  intros Hinv He Hk. cbv zeta. unfold copied_pages. destruct (tail_columns shape =? 0); cbn [negb Z.eqb].
  - eapply post_eq; [reflexivity|]. apply Hk; [by apply spaces_empty_reservation|reflexivity].
  - apply (post_reserve s H); [done|lia|done|]. intros s' r ? ? _. by apply Hk.
Qed.

(** The tail's page goes back before the reservation. *)
Lemma drop_prepared s H r dest columns :
  spaces_inv s (with_dests (dest_list dest columns ++ hd_dests H) (with_res (r :: hd_res H) H)) ->
  exists s', (match dest with
      | Some h => r ← on_pages (abort_transfer_destination h r); destroy_reservation r
      | None => destroy_reservation r
      end) s = (s', Ok tt) /\ spaces_inv s' H.
Proof.
  intros Hinv. destruct (drop_destination_option s H r (hd_res H) dest columns (hd_dests H) Hinv) as (s1 & r' & Hd & Hinv1 & _).
  assert (with_dests (hd_dests H) (with_res (r' :: hd_res H) H) = with_res (r' :: hd_res H) H) as Heq by by destruct H.
  rewrite Heq in Hinv1. destruct (drop_reservation s1 H r' (hd_res H) Hinv1) as (s2 & Hr & Hinv2 & _).
  rewrite with_res_same in Hinv2. exists s2. split; [|done]. destruct dest as [h|].
  - cbv [mbind M_bind]. by rewrite Hd, Hr.
  - injection Hd as <- <-. exact Hr.
Qed.

Lemma prepare_active_snapshot_post s H source destination front :
  spaces_inv s H -> 0 <= front <= u32_max ->
  post (prepare_active_snapshot source destination front) s
    (fun s' x => exists hs, spaces_inv s' (snapshot_held x hs H) /\ snapshot_ok (sp_self s') x hs) (undone s H).
Proof.
  intros Hinv Hfr. pose proof (proj1 Hinv) as Hc. unfold prepare_active_snapshot.
  assert (forall e, e <> Terminate -> undone s H s e) as Hun by (intros; by apply undone_throw).
  apply post_require_active; [by apply Hun..|]. intros a Haddr Hact%active_address_flag.
  apply post_require; [by apply Hun|]. intros b Hb. assert (source = destination -> a = b) as Hsame by congruence.
  apply post_throw_if; [by intros; apply Hun|]. intros Hg. bool_facts.
  eapply post_bind.
  { eapply post_except; [apply (active_snapshot_shape_post s H source front Hinv); lia|]. intros s' e [-> He]. by apply Hun. }
  intros ? shape [-> (a' & Hshape)]. assert (a' = a) as -> by (pose proof (ss_address _ _ _ _ _ Hshape); congruence).
  apply post_throw_if; [by intros; apply Hun|]. intros Hcount. bool_facts. apply post_get.
  set (n := pages_for_tokens front) in *. destruct (frontier_parts front) as (Hfull & Htail & Heq & Hn); [lia|].
  rewrite <- (ss_full _ _ _ _ _ Hshape), <- (ss_tail _ _ _ _ _ Hshape) in *. fold n in Hn.
  set (full := full_pages shape) in *. set (tail := tail_columns shape) in *.
  assert (0 < n) as Hn0 by (destruct (Z.eqb_spec tail 0); unfold kPagedKVPageSize in *; lia).
  apply (post_snapshot_reserve s H); [done|done|]. intros s1 r Hinv1 Hq1.
  apply (prepare_tail s1 H r (hd_res H)); [exact Hinv1|lia| |].
  { intros e He. destruct (drop_reservation s1 H r (hd_res H) Hinv1) as (s3 & Hd & Hinv3 & Hq3). exists s3. split; [done|].
    rewrite with_res_same in Hinv3. split_and!; [done|by etransitivity|done]. }
  intros s2 r' dest Hinv2 Hfm Hdest _. assert (frames s s2) as Hf by (etransitivity; [by apply quiet_frames|done]).
  rewrite <- (frames_address s s2 source Hf) in Haddr.
  destruct (pin_source_loop s2 _ source a n full false Hinv2 Haddr) as (s3 & Hloop & Hinv3 & Hself & _); [lia| |].
  { intros p pg Hp Hpg. rewrite (frames_membership s s2 _ p Hf) in Hpg.
    destruct (member_page s H _ a (membership s (ah_index source) p) Hc (address_of_at _ _ _ (ss_address _ _ _ _ _ Hshape))) as (pg0 & Hpg0 & _).
    { apply elem_of_memberships. exists p. split; [lia|done]. }
    pose proof (fm_pages _ _ Hf _ _ Hpg0) as Hpg'. rewrite Hpg in Hpg'. injection Hpg' as <-.
    destruct (snapshot_source_page _ _ _ _ _ p pg Hshape ltac:(lia) ltac:(lia) Hpg0) as [Hp1 Hp2]. by split_and!. }
  apply (post_protected s2 s3); [exact Hloop|]. apply post_ret. set (hs := memberships_of s2 (ah_index source) n) in *.
  assert (Z.of_nat (length hs) = n) as Hlen by (apply memberships_of_length; lia).
  exists hs. split.
  - unfold snapshot_held. cbn [sn_tail_reservation sn_source sn_shape sn_tail_destination]. fold full tail.
    destruct hs as [|h hs']; [cbn in Hlen; lia|]. exact Hinv3.
  - split; cbn [sn_owner sn_source sn_destination sn_frontier sn_shape sn_tail_destination]; try done; try apply Hshape.
    + by rewrite Hself, (fm_self _ _ Hf).
    + intros Hab. specialize (Hsame Hab). subst b. lia.
    + lia.
Qed.
