(* ===== verification/KVAddressSnapshotCommit.v ===== *)
(** * Address spaces: snapshots that are committed or abandoned

    Committing a snapshot is, in effect, three steps at once: the source is deactivated, the
    destination becomes an active copy of it with the row and the reservation that became free, and
    the source's whole content becomes a checkpoint.  The loops of the code are summarised and
    rearranged into these steps, each of which keeps the invariant. *)

From S2P Require Import Prelude Post Extents Tensor KVGeometry DevicePagePool DevicePoolInvariant DevicePoolOps ExecutionTables KVPages KVPagesInvariant KVPagesSpec KVAddress KVAddressPages KVAddressInvariant KVAddressUpdate KVAddressProtect KVAddressOps KVAddressActivation KVAddressGrowth KVAddressShare KVAddressForks KVAddressForkCommit KVAddressForkAbort KVAddressSnapshots.
Import LogicalKVPageStore KVAddressSpaceStore.

(** ** A new checkpoint *)

Definition protect_more (n : Z) (pg : Page) : Page := set_protection (Z.max (protected_columns_ pg) n) pg.

Lemma protect_more_keeps n : keeps_slot (protect_more n).
Proof. by intros pg. Qed.

Lemma protect_more_only n hs S :
  NoDup (indices hs) -> Forall (fun h => is_Some (page_of S h)) hs -> protect_only S (upd_pages hs (protect_more n) S).
Proof.
  intros Hnd Hv. destruct (upd_pages_frame (protect_more n) hs S) as (E1 & _ & _ & _ & _ & E2). split; [done..|].
  intros i pg Hi. rewrite (upd_pages_lookup (protect_more n) hs S i Hnd Hv), Hi. case_decide; [by eexists|].
  exists (protected_columns_ pg). by rewrite set_protection_same.
Qed.

Section checkpoint.
Context (s : Spaces) (H : Holders) (i : Z) (a : Address) (front n : Z) (hs : list LogicalKVPageHandle).
Context (Hinv : spaces_inv s H) (Ha : address_at s i = Some a) (Hf : 0 <= front <= frontier a).
Context (Hnd : NoDup (indices hs)) (Hpages : Forall (fun h => exists pg, page_of (sp_pages s) h = Some pg /\
  n <= committed_columns_ pg) hs).
Let S' := upd_pages hs (protect_more n) (sp_pages s).
Let a' := set_extent (page_count a) (frontier a) front a.
Let s' := set_addresses (set_index (addresses_ s) i a') (set_sp_pages S' s).
Context (Hprot : forall p pg, 0 <= p -> kPagedKVPageSize * p < front -> page_of S' (membership s i p) = Some pg ->
  Z.min kPagedKVPageSize (front - kPagedKVPageSize * p) <= protected_columns_ pg).

Lemma checkpoint_valid : Forall (fun h => is_Some (page_of (sp_pages s) h)) hs.
Proof. apply (Forall_impl _ _ _ Hpages). intros h (pg & -> & _). done. Qed.

Lemma checkpoint_inv : spaces_inv s' H.
Proof.
  destruct Hinv as [Hc Hp]. pose proof (protect_more_only n hs (sp_pages s) Hnd checkpoint_valid) as Honly. split.
  - apply (core_address s H s' H i a a'); try done.
    + intros [? ? ? ? ? ? ? ? ? ?]. split; cbn; try done; lia.
    + eapply free_ok_same; [apply (si_free _ _ Hc)|exact Ha|done..].
    + by apply protect_only_alike.
    + change (sp_pages s') with S'. unfold S'. pose proof (reservations_same s H s' i a a' Hc Ha eq_refl eq_refl) as Hres.
      apply upd_pages_inv; [|done|].
      * destruct (addr_res_split s i a Ha) as (rest & Hr & Hr'). eapply kv_inv_reservations; [|apply (si_pages _ _ Hc)].
        by rewrite (Hr' s' a' eq_refl), Hr.
      * apply (Forall_impl _ _ _ Hpages). intros h (pg & Hpg & Hn). exists pg. split; [done|].
        pose proof (page_of_ok _ _ _ (kv_desc _ _ _ (si_pages _ _ Hc)) Hpg) as Hok.
        pose proof Hpg as (_ & _ & Ho & _)%page_of_Some. unfold protect_more, set_protection. page_step_tac.
    + by apply (rows_same s H s' i a a').
  - intros k b Hb p pg' Hn Hlt Hpg'. rewrite (address_at_set s s' i a a' k Ha eq_refl) in Hb.
    change (page_of S' (membership s k p) = Some pg') in Hpg'. case_decide as Hk.
    + injection Hb as <-. subst k. by apply Hprot.
    + pose proof (si_address _ _ Hc _ _ Hb) as Hok. pose proof (ao_count _ _ _ Hok). pose proof (ao_frontier _ _ _ Hok).
      destruct (member_page s H k b (membership s k p) Hc Hb) as (pg & Hpg & _).
      { apply elem_of_memberships. exists p. unfold kPagedKVPageSize in *. split; [lia|done]. }
      unfold S' in Hpg'. rewrite (upd_pages_kept _ _ _ (protect_more_keeps n) Hnd checkpoint_valid _ pg Hpg) in Hpg'.
      injection Hpg' as <-. specialize (Hp k b Hb p pg Hn Hlt Hpg). case_decide; cbn; lia.
Qed.
End checkpoint.

(** ** What the loops of the commit do *)

Definition unwritten (pg : Page) : Page := set_refs (references pg) (active_references pg) 0 pg.
Definition released (pg : Page) : Page := set_refs (references pg) (active_references pg - 1) (writer_references_ pg) pg.
Definition snapshot_full (pg : Page) : Page := share_full (unwritten pg).
Definition snapshot_tail (n : Z) (pg : Page) : Page := protect_more n (unwritten pg).

Lemma snapshot_full_keeps : keeps_slot snapshot_full.
Proof. by intros pg. Qed.
Lemma snapshot_tail_keeps n : keeps_slot (snapshot_tail n).
Proof. by intros pg. Qed.
Lemma released_keeps : keeps_slot released.
Proof. by intros pg. Qed.

(** The loops, and the three steps they amount to. *)
Lemma snapshot_store F A T n S :
  NoDup (indices (F ++ A ++ T)) -> Forall (fun h => is_Some (page_of S h)) (F ++ A ++ T) ->
  upd_pages T retained (upd_pages A released (upd_pages T share_tail (upd_pages A (snapshot_tail n) (upd_pages F snapshot_full S)))) =
  upd_pages A (protect_more n) (upd_pages T published (upd_pages F shared (upd_pages (F ++ A) deactivated S))).
Proof.
  intros Hnd Hv. pose proof Hnd as Hnd'. unfold indices in Hnd'. rewrite !fmap_app in Hnd'.
  apply NoDup_app in Hnd' as (HF & HFAT & HAT). pose proof HAT as (HA & HATd & HT)%NoDup_app.
  pose proof Hv as [HvF HvAT]%Forall_app. pose proof HvAT as [HvA HvT]%Forall_app.
  assert (NoDup (indices (A ++ T))) as HnAT by (unfold indices; by rewrite fmap_app).
  assert (NoDup (indices (F ++ A))) as HnFA.
  { unfold indices. rewrite fmap_app. apply NoDup_app. split_and!; [done| |done]. intros i Hi Hj.
    apply (HFAT i Hi). rewrite elem_of_app. by left. }
  assert (forall f l S', keeps_slot f -> NoDup (indices l) -> Forall (fun h => is_Some (page_of S' h)) l ->
    Forall (fun h => is_Some (page_of S' h)) (F ++ A ++ T) ->
    Forall (fun h => is_Some (page_of (upd_pages l f S') h)) (F ++ A ++ T)) as Hstay by (intros; by apply upd_pages_stay).
  pose proof (Hstay _ F S snapshot_full_keeps HF HvF Hv) as V1. pose proof V1 as [_ V1'%Forall_app]%Forall_app. destruct V1' as [V1A V1T].
  pose proof (Hstay _ A _ (snapshot_tail_keeps n) HA V1A V1) as V2. pose proof V2 as [_ V2']%Forall_app.
  pose proof (Hstay _ F S deactivated_keeps HF HvF Hv) as W1. pose proof W1 as [W1F W1']%Forall_app.
  pose proof W1' as [W1A W1T]%Forall_app.
  rewrite (upd_pages_comm released share_tail A T _ released_keeps share_tail_keeps HnAT V2').
  rewrite upd_pages_app. rewrite (upd_pages_comm shared deactivated F A _ shared_keeps deactivated_keeps HnFA);
    [|by apply Forall_app].
  rewrite (upd_pages_fuse deactivated shared F S deactivated_keeps HF HvF).
  pose proof (Hstay (fun pg => shared (deactivated pg)) F S (fun pg => conj eq_refl eq_refl) HF HvF Hv) as X1.
  pose proof X1 as [_ [X1A X1T]%Forall_app]%Forall_app.
  pose proof (Hstay _ A _ deactivated_keeps HA X1A X1) as X2. pose proof X2 as [_ X2']%Forall_app.
  rewrite (upd_pages_comm (protect_more n) published A T _ (protect_more_keeps n) published_keeps HnAT X2').
  rewrite (upd_pages_fuse (snapshot_tail n) released A _ (snapshot_tail_keeps n) HA V1A).
  rewrite (upd_pages_fuse deactivated (protect_more n) A _ deactivated_keeps HA X1A).
  assert (upd_pages F snapshot_full S = upd_pages F (fun pg => shared (deactivated pg)) S) as ->.
  { apply upd_pages_ext. intros pg. unfold snapshot_full, share_full, unwritten, shared, deactivated, set_refs, set_content. cbn. f_equal. lia. }
  set (G := upd_pages F _ S).
  assert (upd_pages A (fun pg => released (snapshot_tail n pg)) G = upd_pages A (fun pg => protect_more n (deactivated pg)) G) as ->
    by by apply upd_pages_ext.
  set (G' := upd_pages A _ G).
  assert (Forall (fun h => is_Some (page_of G' h)) T) as HG'.
  { assert (Forall (fun h => is_Some (page_of G' h)) (F ++ A ++ T)) as HG; [|by apply Forall_app in HG as [_ [_ ?]%Forall_app]].
    by apply Hstay. }
  rewrite (upd_pages_fuse share_tail retained T _ share_tail_keeps HT HG'). by apply upd_pages_ext.
Qed.

(** The tail's pages on the way. *)
Lemma snapshot_pages F A T n S h pg :
  NoDup (indices (F ++ A ++ T)) -> Forall (fun h => is_Some (page_of S h)) (F ++ A ++ T) -> page_of S h = Some pg ->
  let S1 := upd_pages F snapshot_full S in let S2 := upd_pages A (snapshot_tail n) S1 in
  (h ∈ A -> page_of S1 h = Some pg /\ page_of (upd_pages T share_tail S2) h = Some (snapshot_tail n pg)) /\
  (h ∈ T -> page_of S2 h = Some pg /\ page_of (upd_pages T share_tail S2) h = Some (share_tail pg)).
Proof.
  intros Hnd Hv Hpg S1 S2. unfold indices in Hnd. rewrite !fmap_app in Hnd.
  apply NoDup_app in Hnd as (HF & HFAT & (HA & HAT & HT)%NoDup_app). pose proof Hv as [HvF HvAT]%Forall_app.
  pose proof (upd_pages_stay _ F _ S snapshot_full_keeps HF HvF HvAT) as V1. pose proof V1 as [V1A V1T]%Forall_app.
  pose proof (upd_pages_stay _ A _ S1 (snapshot_tail_keeps n) HA V1A V1T) as V2.
  assert (forall x, x ∈ A ++ T -> lh_index x ∉ indices F) as HnF.
  { intros x Hx Hin. apply (HFAT _ Hin). rewrite <- fmap_app. by apply list_elem_of_fmap_2. }
  pose proof (upd_pages_kept _ _ _ snapshot_full_keeps HF HvF h pg Hpg) as P1. split; intros Hh.
  - rewrite decide_False in P1 by (apply HnF, elem_of_app; by left). split; [done|].
    pose proof (upd_pages_kept _ _ _ (snapshot_tail_keeps n) HA V1A h pg P1) as P2.
    rewrite decide_True in P2 by by apply list_elem_of_fmap_2.
    pose proof (upd_pages_kept _ _ _ share_tail_keeps HT V2 h _ P2) as P3. rewrite decide_False in P3; [exact P3|].
    apply HAT. by apply list_elem_of_fmap_2.
  - rewrite decide_False in P1 by (apply HnF, elem_of_app; by right).
    pose proof (upd_pages_kept _ _ _ (snapshot_tail_keeps n) HA V1A h pg P1) as P2.
    rewrite decide_False in P2. 2: { intros Hin. apply (HAT _ Hin). by apply list_elem_of_fmap_2. }
    split; [done|]. pose proof (upd_pages_kept _ _ _ share_tail_keeps HT V2 h _ P2) as P3.
    rewrite decide_True in P3 by by apply list_elem_of_fmap_2. exact P3.
Qed.

Lemma unwrite_eq s h pg :
  page_of (sp_pages s) h = Some pg -> 0 <= writer_references_ pg ->
  (w ← ask (fun s => writer_references s h); if negb (w =? 0) then on_pages (set_writer h false) else mret tt) s =
    (set_sp_pages (set_page_at (lh_index h) (unwritten pg) (sp_pages s)) s, Ok tt).
Proof.
  intros Hpg Hw. unfold ask, writer_references, LogicalKVPageStore.require. unfold_M. rewrite Hpg.
  destruct (Z.eqb_spec (writer_references_ pg) 0) as [Hz|Hz]; cbn [negb].
  - assert (unwritten pg = pg) as -> by (unfold unwritten; rewrite <- Hz; by destruct pg).
    pose proof Hpg as (_ & Hi & _)%page_of_Some. assert (set_page_at (lh_index h) pg (sp_pages s) = sp_pages s) as ->.
    + apply store_ext; try done; [apply length_set_index|]. intros i. rewrite (at_set_page_at _ _ _ pg _ Hi).
      case_decide as Heq; [|done]. by subst.
    + by destruct s.
  - unfold on_pages. by rewrite (set_writer_false_eq (sp_pages s) h pg Hpg).
Qed.

Lemma snapshot_page_eq i j p s h pg :
  membership s i p = h -> page_of (sp_pages s) h = Some pg ->
  0 <= references pg < u32_max -> 0 <= writer_references_ pg -> kPagedKVPageSize <= committed_columns_ pg ->
  snapshot_page i j p s =
    (set_memberships (set_index (memberships_ s) (membership_index s j p) h)
      (set_sp_pages (set_page_at (lh_index h) (snapshot_full pg) (sp_pages s)) s), Ok tt).
Proof.
  intros Hm Hpg Hr Hw Hc. unfold snapshot_page. pose proof (unwrite_eq s h pg Hpg Hw) as Hu.
  set (s1 := set_sp_pages (set_page_at (lh_index h) (unwritten pg) (sp_pages s)) s) in *.
  pose proof Hpg as (_ & _ & Ho & _)%page_of_Some.
  pose proof (page_of_write (sp_pages s) h pg (unwritten pg) Hpg Ho eq_refl) as Hpg1.
  pose proof (share_page_eq i j p s1 h (unwritten pg) Hm Hpg1 Hr Hc) as Hsh.
  revert Hu. cbv [mbind M_bind get_membership mget mret M_ret]. rewrite Hm.
  destruct (ask _ s) as [s0 [w|e]]; [|done]. intros ->. rewrite Hsh. unfold s1. cbn [sp_pages set_sp_pages].
  by rewrite set_page_at_twice.
Qed.

(** ** Handing the address over *)

Lemma upd_pages_same_content f hs S :
  keeps_slot f -> (forall pg, same_content pg (f pg)) -> contents_stay S (upd_pages hs f S).
Proof.
  intros Hf Hc. revert S. induction hs as [|h hs IH]; intros S.
  { intros x pg Hpg. by exists pg. }
  unfold upd_pages. cbn [foldl]. destruct (page_of S h) as [pg|] eqn:Hpg; [|apply IH].
  eapply contents_stay_trans; [|apply IH]. intros x q Hq.
  destruct (decide (lh_index h = lh_index x)) as [Heq|Hne].
  - pose proof (page_of_inj _ _ _ _ _ Hq Hpg (eq_sym Heq)) as ->.
    assert (q = pg) as -> by congruence. exists (f pg). split; [|apply Hc].
    pose proof Hq as (_ & _ & Ho & _)%page_of_Some. destruct (Hf pg). by apply (page_of_write S h pg); congruence.
  - exists q. split; [by rewrite (page_of_other S h x pg)|done].
Qed.

Lemma option_length_some {X} (o : option X) : o <> None -> length (option_to_list o) = 1%nat.
Proof. by destruct o. Qed.

(** A reservation of no pages can be forgotten. *)
Lemma spent_reservation s H r :
  spaces_inv s (with_res (r :: hd_res H) H) -> rs_pages r = 0 -> spaces_inv s H.
Proof.
  intros [Hc Hp] Hr. split; [|done]. destruct Hc. split; try done. destruct si_pages as [Hphys Hdesc]. split; [|done].
  cbn [hd_res with_res app] in Hphys. destruct Hphys. split; try done.
  - by inversion ph_owner.
  - cbn in ph_reserved. lia.
Qed.

Section handover.
Context (s : Spaces) (H : Holders) (i j : Z) (a b : Address) (row : KVExecutionRowLease) (front tail : Z)
  (fulls A : list LogicalKVPageHandle) (dest : option LogicalKVPageHandle) (D : list (LogicalKVPageHandle * Z)).
Let T := dest_list dest tail.
Let all : list LogicalKVPageHandle := fulls ++ option_to_list dest.
Let full := Z.of_nat (length fulls).
Let n := Z.of_nat (length all).
Context (HD : hd_dests H = T ++ D) (Hinv : spaces_inv s H).
Context (Ha : address_at s i = Some a) (Hact : ad_active a = true) (Hrow : ad_row a = Some row).
Context (Hb : address_at s j = Some b) (Hidle : ad_active b = false) (Hocc : ad_occupied b = true) (Hcount : page_count b = 0).
Context (Hij : i <> j) (Hmembers : members s i a = fulls ++ A) (HA : length A = length (option_to_list dest)).
Context (Hfront : 0 < front /\ front = frontier a /\ front = kPagedKVPageSize * full + tail /\ 0 <= tail < kPagedKVPageSize)
  (Htail : has dest = negb (tail =? 0)).
Context (Hfulls : Forall (fun h => exists pg, page_of (sp_pages s) h = Some pg /\ snapshot_page_ok pg) fulls)
  (Hlast : Forall (fun h => exists pg, page_of (sp_pages s) h = Some pg /\
    writer_references_ pg = 1 /\ references pg = 1 /\ tail <= committed_columns_ pg) A).

Let a1 := set_binding null_reservation None false a.
Let s1 := set_addresses (set_index (addresses_ s) i a1) (set_sp_pages (upd_pages (members s i a) deactivated (sp_pages s)) s).
Let H1 := with_res (ad_reservation a :: hd_res H) (with_rows (row :: hd_rows H) H).

Lemma handover_deactivated : spaces_inv s1 H1.
Proof. by apply deactivated_inv. Qed.

Lemma handover_core : core s H.
Proof. apply Hinv. Qed.

Lemma handover_dest_page h : h ∈ option_to_list dest -> exists pg, page_of (sp_pages s) h = Some pg /\
  transfer_destination pg = true /\ committed_columns_ pg = tail.
Proof.
  intros [k [Hd _]%option_to_list_lookup]%list_elem_of_lookup. destruct (si_dests _ _ handover_core) as [_ Hall].
  rewrite HD in Hall. apply Forall_app in Hall as [Hall _]. unfold T in Hall. rewrite Hd in Hall.
  apply Forall_singleton in Hall as (pg & ? & ? & ?). by exists pg.
Qed.

Lemma handover_distinct : NoDup (indices (fulls ++ A ++ option_to_list dest)).
Proof.
  pose proof (ao_distinct _ _ _ (si_address _ _ handover_core _ _ Ha)) as Hnd. rewrite Hmembers in Hnd.
  rewrite app_assoc. unfold indices in *. rewrite fmap_app. apply NoDup_app. split_and!; [done| |].
  - intros k (h & -> & Hh)%list_elem_of_fmap (h' & Heq & Hh')%list_elem_of_fmap. rewrite <- Hmembers in Hh.
    destruct (member_page s H i a h handover_core Ha Hh) as (pg & Hpg & _ & _ & Hr).
    destruct (handover_dest_page h' Hh') as (q & Hq & Ht & _). pose proof (page_of_inj _ _ _ _ _ Hpg Hq Heq) as <-.
    rewrite Hpg in Hq. injection Hq as <-. unfold transfer_destination in Ht. bool_facts. lia.
  - destruct (option_to_list dest) as [|h [|h' l]] eqn:Hd; [constructor|apply NoDup_singleton|]. by destruct dest.
Qed.

Lemma handover_valid : Forall (fun h => is_Some (page_of (sp_pages s) h)) (fulls ++ A ++ option_to_list dest).
Proof.
  pose proof (ao_valid _ _ _ (si_address _ _ handover_core _ _ Ha)) as Hv. rewrite Hmembers in Hv.
  rewrite app_assoc. apply Forall_app. split; [done|]. apply Forall_forall. intros h Hh.
  destruct (handover_dest_page h Hh) as (pg & -> & _). done.
Qed.

Lemma handover_page1 h pg : page_of (sp_pages s) h = Some pg ->
  page_of (sp_pages s1) h = Some (if decide (lh_index h ∈ indices (fulls ++ A)) then deactivated pg else pg).
Proof.
  intros Hpg. pose proof (si_address _ _ handover_core _ _ Ha) as Hok. rewrite <- Hmembers.
  exact (upd_pages_kept _ _ _ deactivated_keeps (ao_distinct _ _ _ Hok) (ao_valid _ _ _ Hok) h pg Hpg).
Qed.

Lemma handover_shareable : Forall (fun h => exists pg, page_of (sp_pages s1) h = Some pg /\ shareable pg) fulls.
Proof.
  apply Forall_forall. intros h Hh. pose proof (proj1 (Forall_forall _ _) Hfulls h Hh) as (pg & Hpg & [Gd Gr Gc Gw Gp]).
  eexists. split; [by apply handover_page1|]. rewrite decide_True.
  2: { unfold indices. rewrite fmap_app, elem_of_app. left. by apply list_elem_of_fmap_2. }
  destruct (member_page s H i a h handover_core Ha) as (q & Hq & Hok & _ & Hr).
  { rewrite Hmembers. apply elem_of_app. by left. }
  assert (q = pg) as -> by congruence. pose proof (po_refs _ Hok). split; cbn; try done; lia.
Qed.

Lemma handover_at1 k : address_at s1 k = if decide (k = i) then Some a1 else address_at s k.
Proof. by apply (address_at_set s s1 i a a1 k Ha). Qed.

Lemma handover_size : n = page_count a /\ full <= n <= full + 1 /\ front <= kPagedKVPageSize * n /\ front <= u32_max /\
  0 <= front - kPagedKVPageSize * full.
Proof.
  pose proof (si_address _ _ handover_core _ _ Ha) as Hok. pose proof (ao_count _ _ _ Hok). pose proof (ao_frontier _ _ _ Hok).
  assert (n = page_count a) as Hn.
  { pose proof (memberships_of_length s i (page_count a) ltac:(lia)) as Hl. change (memberships_of s i (page_count a)) with (members s i a) in Hl.
    rewrite Hmembers, length_app in Hl. unfold n, all. rewrite length_app. lia. }
  unfold n, all, full in *. rewrite length_app in *. assert (length (option_to_list dest) <= 1)%nat by (destruct dest; cbn; lia).
  split_and!; lia.
Qed.

Lemma handover_room : n + rs_pages (ad_reservation a) <= page_capacity_ s.
Proof. destruct handover_size as [-> _]. apply (ao_bound _ _ _ (si_address _ _ handover_core _ _ Ha) Hact). Qed.

(** The state that the loops leave, with the tables [t] and the memberships [l]. *)
Let b' := set_extent n front (checkpoint_frontier b) (set_binding (ad_reservation a) (Some row) true b).
Let a2 := set_extent (page_count a) (frontier a) front a1.
Let H' := with_dests D H.
Section written.
Context (t : KVExecutionTablePool) (l : list LogicalKVPageHandle).
Let s2 := set_addresses (set_index (addresses_ s1) j b')
  (set_memberships l (set_sp_tables t (set_sp_pages (upd_pages T.*1 published (upd_pages fulls shared (sp_pages s1))) s1))).
Let s3 := set_addresses (set_index (addresses_ s2) i a2) (set_sp_pages (upd_pages A (protect_more tail) (sp_pages s2)) s2).
Context (Ht : rows_ok t (hd_rows H ++ addr_rows s)) (Htc : page_capacity t = page_capacity (sp_tables s)).
Context (Hl : length l = length (memberships_ s)).
Context (Hm : forall k q, 0 <= q < page_capacity_ s -> membership (set_memberships l s) k q =
  if decide (k = j /\ q < n) then default null_logical (all !! Z.to_nat q) else membership s k q).

Lemma handover_tails : T.*1 = option_to_list dest.
Proof. unfold T. by destruct dest. Qed.

Lemma handover_rows : rows_ok t (hd_rows H1 ++ addr_rows s1).
Proof.
  destruct (addr_rows_split s i a Ha) as (rest & Hr & Hr'). rewrite (Hr' s1 a1 eq_refl).
  rewrite Hr, Hrow in Ht. cbn in Ht |- *. by rewrite <- Permutation_middle in Ht.
Qed.

Lemma handover_columns p h pg :
  all !! p = Some h -> page_of (sp_pages s1) h = Some pg ->
  Z.min kPagedKVPageSize (front - kPagedKVPageSize * Z.of_nat p) <= committed_columns_ pg.
Proof.
  intros Hp Hpg. unfold all in Hp. destruct (decide (p < length fulls)%nat) as [Hlt|Hge].
  - rewrite lookup_app_l in Hp by done.
    destruct (proj1 (Forall_forall _ _) handover_shareable h) as (q & Hq & [_ _ Hfull _]); [by eapply list_elem_of_lookup_2|].
    assert (q = pg) as -> by congruence. lia.
  - rewrite lookup_app_r in Hp by lia. pose proof (lookup_lt_Some _ _ _ Hp) as Hlt.
    destruct (handover_dest_page h) as (q & Hq & _ & Hc); [by eapply list_elem_of_lookup_2|].
    apply handover_page1 in Hq. rewrite Hpg in Hq. injection Hq as ->.
    assert (length (option_to_list dest) <= 1)%nat by (destruct dest; cbn; lia).
    assert (p = length fulls) as -> by lia. unfold full in *. case_decide; cbn; lia.
Qed.

Lemma handover_shared : spaces_inv s2 (with_dests D (with_res (hd_res H) (with_rows (hd_rows H) H))).
Proof.
  destruct handover_size as (Hn & ? & ? & ? & ?). pose proof handover_room.
  apply (share_inv s1 s2 H1 (ad_reservation a) (hd_res H) row (hd_rows H) T D fulls j b front t l); try done.
  - exact handover_deactivated.
  - by rewrite handover_at1, decide_False by congruence.
  - change (page_capacity_ s1) with (page_capacity_ s). rewrite handover_tails. fold all n. lia.
  - rewrite handover_tails. fold all n. lia.
  - pose proof handover_distinct as Hd. unfold indices in *. rewrite fmap_app in Hd. by apply NoDup_app in Hd as [? _].
  - exact handover_shareable.
  - rewrite handover_tails. exact handover_columns.
  - exact handover_rows.
  - rewrite handover_tails. exact Hm.
  - unfold s2, b', n, all. by rewrite <- handover_tails.
Qed.

Lemma handover_apart h : h ∈ fulls ++ A -> lh_index h ∉ indices T.*1.
Proof.
  intros Hh Hin. rewrite handover_tails in Hin. pose proof handover_distinct as Hnd. unfold indices in *.
  rewrite app_assoc, fmap_app in Hnd. apply NoDup_app in Hnd as (_ & Hdis & _). apply (Hdis (lh_index h)); [|done].
  by apply list_elem_of_fmap_2.
Qed.

Lemma handover_split : NoDup (indices fulls) /\ NoDup (indices A) /\
  forall h, h ∈ A -> lh_index h ∉ indices fulls.
Proof.
  pose proof handover_distinct as Hnd. unfold indices in *. rewrite !fmap_app in Hnd.
  apply NoDup_app in Hnd as (? & Hdis & (? & _ & _)%NoDup_app). split_and!; [done|done|].
  intros h Hh Hin. apply (Hdis _ Hin), elem_of_app. left. by apply list_elem_of_fmap_2.
Qed.

Lemma handover_page2 h pg :
  page_of (sp_pages s) h = Some pg -> h ∈ fulls ++ A ->
  page_of (sp_pages s2) h = Some (if decide (lh_index h ∈ indices fulls) then shared (deactivated pg) else deactivated pg).
Proof.
  intros Hpg Hh. pose proof (handover_page1 h pg Hpg) as Hpg1.
  rewrite decide_True in Hpg1 by by apply list_elem_of_fmap_2.
  pose proof (KVAddressShare.share_page s1 s2 H1 (ad_reservation a) row T D fulls j b front t l HD handover_deactivated
    (proj1 handover_split) handover_shareable Hl) as Hs.
  rewrite (Hs ltac:(unfold s2, b', n, all; by rewrite <- handover_tails) h _ Hpg1).
  by rewrite decide_False by by apply handover_apart.
Qed.

Lemma handover_at2 : address_at s2 i = Some a1.
Proof.
  rewrite (address_at_set s1 s2 j b b' i); [|by rewrite handover_at1, decide_False by congruence|done].
  rewrite decide_False by done. by rewrite handover_at1, decide_True.
Qed.

(** The checkpoint covers what the source's pages are protected for. *)
Lemma handover_protected p pg :
  0 <= p -> kPagedKVPageSize * p < front ->
  page_of (upd_pages A (protect_more tail) (sp_pages s2)) (membership s2 i p) = Some pg ->
  Z.min kPagedKVPageSize (front - kPagedKVPageSize * p) <= protected_columns_ pg.
Proof.
  intros Hp Hlt Hpg. destruct handover_size as (Hn & ? & ? & ? & ?). destruct handover_split as (HnF & HnA & HFA).
  assert (members s i a !! Z.to_nat p = Some (membership s i p)) as Hat.
  { unfold members. rewrite <- Hn. apply memberships_of_lookup. unfold kPagedKVPageSize in *. lia. }
  assert (membership s2 i p = membership s i p) as Hm2.
  { change (membership (set_memberships l s) i p = membership s i p).
    pose proof (ao_count _ _ _ (si_address _ _ handover_core _ _ Ha)).
    rewrite Hm by (unfold kPagedKVPageSize in *; lia). rewrite decide_False; [done|]. intros [? _]. done. }
  rewrite Hm2 in Hpg. rewrite Hmembers in Hat. set (h := membership s i p) in *.
  assert (h ∈ fulls ++ A) as Hh by (by eapply list_elem_of_lookup_2).
  destruct (member_page s H i a h handover_core Ha) as (q & Hq & Hok & _); [by rewrite Hmembers|].
  pose proof (handover_page2 h q Hq Hh) as Hq2.
  assert (Forall (fun h => is_Some (page_of (sp_pages s2) h)) A) as HvA.
  { apply Forall_forall. intros x Hx. destruct (proj1 (Forall_forall _ _) Hlast x Hx) as (z & Hz & _).
    by rewrite (handover_page2 x z Hz) by (apply elem_of_app; by right). }
  rewrite (upd_pages_kept _ _ _ (protect_more_keeps tail) HnA HvA h _ Hq2) in Hpg. injection Hpg as <-.
  pose proof (po_cover _ Hok).
  apply lookup_app_Some in Hat as [HF|[Hge HA']].
  - rewrite (decide_True (P := lh_index h ∈ indices fulls)) by (apply list_elem_of_fmap_2; by eapply list_elem_of_lookup_2).
    assert (kPagedKVPageSize <= protected_columns_ (shared (deactivated q))) by apply Z.le_max_r.
    destruct (decide (lh_index h ∈ indices A)); cbn [protected_columns_ protect_more set_protection set_content]; lia.
  - rewrite (decide_True (P := lh_index h ∈ indices A)) by (apply list_elem_of_fmap_2; by eapply list_elem_of_lookup_2).
    cbn [protected_columns_ protect_more set_protection set_content]. assert (p = full) as -> by (unfold full, kPagedKVPageSize in *; lia). lia.
Qed.

Lemma handover_inv : spaces_inv s3 (with_dests D H).
Proof.
  assert (with_dests D (with_res (hd_res H) (with_rows (hd_rows H) H)) = with_dests D H) as Heq by by destruct H.
  rewrite <- Heq. destruct handover_split as (HnF & HnA & HFA).
  apply (checkpoint_inv s2 _ i a1 front tail A); [exact handover_shared|exact handover_at2|cbn; lia|done| |exact handover_protected].
  apply Forall_forall. intros h Hh. destruct (proj1 (Forall_forall _ _) Hlast h Hh) as (pg & Hpg & _ & _ & Hc).
  eexists. split; [apply (handover_page2 h pg Hpg), elem_of_app; by right|]. rewrite decide_False by by apply HFA. done.
Qed.

(** The same state as the code writes it. *)
Lemma handover_written :
  s3 = set_addresses (set_index (set_index (addresses_ s) j b') i a2)
    (set_memberships l (set_sp_tables t (set_sp_pages
      (upd_pages (option_to_list dest) retained (upd_pages A released (upd_pages (option_to_list dest) share_tail
        (upd_pages A (snapshot_tail tail) (upd_pages fulls snapshot_full (sp_pages s)))))) s))).
Proof.
  rewrite (snapshot_store fulls A _ tail _ handover_distinct handover_valid), <- handover_tails, <- Hmembers.
  pose proof (at_index_lt _ _ _ Ha). pose proof (at_index_lt _ _ _ Hb).
  unfold s3, s2, s1, set_addresses, set_memberships, set_sp_tables, set_sp_pages. cbn. f_equal. unfold set_index.
  rewrite (list_insert_insert_ne _ (Z.to_nat j) (Z.to_nat i)) by lia. by rewrite list_insert_insert_eq.
Qed.
End written.

(** The page operations of the tail. *)
Lemma handover_tail_source h s0 pg :
  membership s0 i full = h -> page_of (sp_pages s0) h = Some pg -> tail <= committed_columns_ pg ->
  dest <> None ->
  (match dest with
   | None => mret tt
   | Some _ =>
       h ← get_membership i full;
       _ ← on_pages (set_writer h false);
       _ ← on_pages (protect_coverage h tail);
       install_tail j full dest
   end) s0 = install_tail j full dest (set_sp_pages (set_page_at (lh_index h) (snapshot_tail tail pg) (sp_pages s0)) s0).
Proof.
  intros Hh Hpg Hc Hd. destruct dest as [d|]; [|done]. unfold get_membership, on_pages. cbv [mbind M_bind mget mret M_ret].
  rewrite Hh. rewrite (set_writer_false_eq (sp_pages s0) h pg Hpg). cbn [sp_pages set_sp_pages].
  pose proof Hpg as (_ & _ & Ho & _)%page_of_Some.
  pose proof (page_of_write (sp_pages s0) h pg (unwritten pg) Hpg Ho eq_refl) as Hpg1.
  fold (unwritten pg). rewrite (protect_coverage_eq _ h _ Hpg1 tail) by done. by rewrite set_page_at_twice.
Qed.

Lemma handover_tail_active h h' s0 pg pg' :
  membership s0 i full = h -> membership s0 j full = h' -> page_of (sp_pages s0) h = Some pg ->
  page_of (sp_pages s0) h' = Some pg' -> lh_index h <> lh_index h' ->
  0 < active_references pg <= u32_max -> 0 <= active_references pg' < references pg' /\ references pg' <= u32_max ->
  (h ← get_membership i full;
   _ ← on_pages (release_active_reference h);
   h ← get_membership j full;
   on_pages (retain_active_reference h)) s0 =
    (set_sp_pages (set_page_at (lh_index h') (retained pg') (set_page_at (lh_index h) (released pg) (sp_pages s0))) s0, Ok tt).
Proof.
  intros Hh Hh' Hpg Hpg' Hne Hp [Hr Hle]. unfold get_membership, on_pages. cbv [mbind M_bind mget mret M_ret].
  rewrite Hh, (release_active_reference_eq (sp_pages s0) h pg Hpg Hp). cbn [sp_pages set_sp_pages].
  change (membership (set_sp_pages _ s0) j full) with (membership s0 j full). rewrite Hh'.
  rewrite (retain_active_reference_eq _ h' pg'); [done| |done|done].
  by rewrite (page_of_other _ h h' pg _ Hpg).
Qed.

Definition handed (s' : Spaces) : Prop := exists t l,
  s' = set_addresses (set_index (set_index (addresses_ s) j b') i a2)
    (set_memberships l (set_sp_tables t (set_sp_pages
      (upd_pages (option_to_list dest) retained (upd_pages A released (upd_pages (option_to_list dest) share_tail
        (upd_pages A (snapshot_tail tail) (upd_pages fulls snapshot_full (sp_pages s)))))) s))) /\
  forall k q, 0 <= q < page_capacity_ s -> membership s' k q =
    if decide (k = j /\ q < n) then default null_logical (all !! Z.to_nat q) else membership s k q.

(** The tail: nothing, or the source's tail and its copy. *)
Lemma handover_tail_cases :
  dest = None /\ A = [] /\ tail = 0 \/
  exists d h pg pd, dest = Some d /\ A = [h] /\ tail <> 0 /\ membership s i full = h /\
    page_of (sp_pages s) h = Some pg /\ tail <= committed_columns_ pg /\ 0 < active_references pg <= u32_max /\
    page_of (sp_pages s) d = Some pd /\ transfer_destination pd = true /\ lh_index h <> lh_index d.
Proof.
  pose proof handover_distinct as Hnd. pose proof Hlast as HlastA. pose proof Hmembers as Hmem. pose proof handover_size as (Hn & Hsz & _).
  assert (forall h, A = [h] -> exists d, dest = Some d) as Hd.
  { intros h Heq. rewrite Heq in HA. destruct dest as [d|]; [by exists d|done]. }
  destruct A as [|h [|h' A']] eqn:HeqA.
  - left. destruct dest; [done|]. split_and!; [done|done|]. cbn in Htail. symmetry in Htail. apply negb_false_iff in Htail. by apply Z.eqb_eq.
  - right. destruct (Hd h eq_refl) as [d Hdest]. apply Forall_singleton in HlastA as (pg & Hpg & Hw & Hr & Hc).
    destruct (handover_dest_page d) as (pd & Hpd & Ht & _); [rewrite Hdest; by left|].
    destruct (active_member_page s H i a h handover_core Ha Hact) as (q & Hq & Hok & _ & _ & Hac & _).
    { rewrite Hmem. apply elem_of_app. right. by left. }
    assert (q = pg) as -> by congruence. pose proof (po_refs _ Hok).
    exists d, h, pg, pd. split_and!; try done; try lia.
    + intros Hz. rewrite Hdest, Hz in Htail. done.
    + assert (members s i a !! length fulls = Some h) as Hl by by rewrite Hmem, lookup_app_r, Nat.sub_diag by lia.
      unfold members in Hl. rewrite <- (Nat2Z.id (length fulls)) in Hl. rewrite memberships_of_lookup in Hl; [by injection Hl|].
      rewrite <- Hn. unfold full, n, all. rewrite length_app, Hdest. cbn. lia.
    + intros Heq. rewrite Hdest in Hnd. unfold indices in Hnd. rewrite !fmap_app in Hnd.
      apply NoDup_app in Hnd as (_ & _ & (_ & Hdis & _)%NoDup_app). apply (Hdis (lh_index h)); [by left|]. rewrite Heq. by left.
  - exfalso. cbn in HA. by destruct dest.
Qed.

(** Installing the tail, after the full pages are shared. *)
Lemma handover_install_eq (s0 : Spaces) l :
  sp_pages s0 = upd_pages fulls snapshot_full (sp_pages s) ->
  (dest <> None -> membership (set_memberships l s0) i full = membership s i full) ->
  (match dest with
   | None => mret tt
   | Some _ =>
       h ← get_membership i full;
       _ ← on_pages (set_writer h false);
       _ ← on_pages (protect_coverage h tail);
       install_tail j full dest
   end) (set_memberships l s0) =
    (set_memberships (match dest with Some h => set_index l (membership_index s0 j full) h | None => l end)
      (set_sp_pages (upd_pages (option_to_list dest) share_tail (upd_pages A (snapshot_tail tail)
        (upd_pages fulls snapshot_full (sp_pages s)))) s0), Ok tt).
Proof.
  intros Hp Hm. pose proof (snapshot_pages fulls A (option_to_list dest) tail (sp_pages s)) as Hpages.
  specialize (fun h pg => Hpages h pg handover_distinct handover_valid).
  destruct handover_tail_cases as [(Hd & HeqA & _)|(d & h & pg & pd & Hd & HeqA & _ & Hmh & Hpg & Hc & _ & Hpd & Ht & Hne)].
  - rewrite Hd, HeqA. unfold upd_pages at 1 2. cbn. rewrite <- Hp. by destruct s0.
  - rewrite (handover_tail_source h _ pg); [|by rewrite Hm by by rewrite Hd|..|done|by rewrite Hd].
    + change (sp_pages (set_memberships l s0)) with (sp_pages s0).
      assert (set_page_at (lh_index h) (snapshot_tail tail pg) (sp_pages s0) = upd_pages A (snapshot_tail tail) (upd_pages fulls snapshot_full (sp_pages s))) as Heq.
      { destruct (Hpages h pg Hpg) as [[P1 _] _]; [rewrite HeqA; by left|]. rewrite HeqA. unfold upd_pages at 1. cbn [foldl].
        fold (upd_pages fulls snapshot_full (sp_pages s)). rewrite P1. by rewrite Hp. }
      rewrite Heq. refine (install_tail_eq s0 l j full dest _ _).
      intros d' Hd'. destruct (Hpages d pd Hpd) as [_ [P2 _]]; [rewrite Hd; by left|].
      exists pd. rewrite Hd in Hd'. by injection Hd' as <-.
    + change (sp_pages (set_memberships l s0)) with (sp_pages s0). rewrite Hp.
      destruct (Hpages h pg Hpg) as [[P1 _] _]; [rewrite HeqA; by left|]. done.
Qed.

(** Moving the activity of the tail, when all is installed. *)
Lemma handover_active_eq (s0 : Spaces) :
  let S := upd_pages (option_to_list dest) share_tail (upd_pages A (snapshot_tail tail) (upd_pages fulls snapshot_full (sp_pages s))) in
  sp_pages s0 = S -> (dest <> None -> membership s0 i full = membership s i full) ->
  (forall d, dest = Some d -> membership s0 j full = d) ->
  (if negb (tail =? 0) then
     h ← get_membership i full;
     _ ← on_pages (release_active_reference h);
     h ← get_membership j full;
     on_pages (retain_active_reference h)
   else mret tt) s0 =
    (set_sp_pages (upd_pages (option_to_list dest) retained (upd_pages A released S)) s0, Ok tt).
Proof.
  intros S Hp Hm Hmd. pose proof (snapshot_pages fulls A (option_to_list dest) tail (sp_pages s)) as Hpages.
  specialize (fun h pg => Hpages h pg handover_distinct handover_valid). fold S in Hpages.
  destruct handover_tail_cases as [(Hd & HeqA & Hz)|(d & h & pg & pd & Hd & HeqA & Hz & Hmh & Hpg & Hc & Hac & Hpd & Ht & Hne)].
  - rewrite Hz, Hd, HeqA. unfold upd_pages. cbn. rewrite <- Hp. by destruct s0.
  - destruct (Hpages h pg Hpg) as [[_ P1] _]; [rewrite HeqA; by left|].
    destruct (Hpages d pd Hpd) as [_ [_ P2]]; [rewrite Hd; by left|].
    change (page_of S h = Some (snapshot_tail tail pg)) in P1. change (page_of S d = Some (share_tail pd)) in P2.
    rewrite (proj2 (Z.eqb_neq tail 0) Hz). cbn [negb].
    rewrite (handover_tail_active h d s0 (snapshot_tail tail pg) (share_tail pd)); rewrite ?Hp; try done.
    + rewrite Hd, HeqA. unfold upd_pages at 1 2. cbn [option_to_list foldl]. rewrite P1.
      by rewrite (page_of_other S h d _ _ P1 Hne), P2.
    + by rewrite Hm by by rewrite Hd.
    + by apply Hmd.
    + pose proof (po_refs _ (page_of_ok _ _ _ (kv_desc _ _ _ (si_pages _ _ handover_core)) Hpd)).
      unfold transfer_destination in Ht. bool_facts. cbn. lia.
Qed.

Lemma handover_source p h :
  0 <= p -> fulls !! Z.to_nat p = Some h -> membership s i p = h /\
  exists pg, page_of (sp_pages s) h = Some pg /\ forall s', membership s' i p = h -> page_of (sp_pages s') h = Some pg ->
    snapshot_page i j p s' = (set_memberships (set_index (memberships_ s') (membership_index s' j p) h)
      (set_sp_pages (set_page_at (lh_index h) (snapshot_full pg) (sp_pages s')) s'), Ok tt).
Proof.
  intros Hp Hh. pose proof (lookup_lt_Some _ _ _ Hh) as Hlt. split.
  - assert (members s i a !! Z.to_nat p = Some h) as Hl by by rewrite Hmembers, lookup_app_l.
    unfold members in Hl. destruct handover_size as (Hn & Hsz & _). rewrite memberships_of_lookup in Hl; [by injection Hl|].
    unfold full in *. lia.
  - destruct (proj1 (Forall_forall _ _) Hfulls h) as (pg & Hpg & [Gd Gr Gc Gw Gp]); [by eapply list_elem_of_lookup_2|].
    exists pg. split; [done|]. intros s' Hm Hpg'.
    pose proof (page_of_ok _ _ _ (kv_desc _ _ _ (si_pages _ _ handover_core)) Hpg) as Hok.
    pose proof (po_refs _ Hok). pose proof (po_writer _ Hok). apply snapshot_page_eq; done || lia.
Qed.

Lemma handover_devices :
  Forall (fun h => exists pg, page_of (sp_pages s) h = Some pg /\ has (device_replica pg) = true) all.
Proof.
  apply Forall_app. split.
  - apply (Forall_impl _ _ _ Hfulls). intros h (pg & ? & [? _ _ _ _]). by exists pg.
  - apply Forall_forall. intros h Hh. destruct (handover_dest_page h Hh) as (pg & Hpg & Ht & _).
    exists pg. split; [done|]. unfold transfer_destination in Ht. by bool_facts.
Qed.

Lemma handover_post {X} (k : M Spaces X) Q E m p0 :
  full = p0 -> n = m ->
  (forall s', spaces_inv s' (with_dests D H) -> handed s' -> post k s' Q E) ->
  post (ps ← physical_pages (fulls ++ option_to_list dest);
        _ ← publish_row row 0 ps;
        _ ← for_pages 0 p0 (snapshot_page i j);
        _ ← match dest with
            | None => mret tt
            | Some _ =>
                h ← get_membership i p0;
                _ ← on_pages (set_writer h false);
                _ ← on_pages (protect_coverage h tail);
                install_tail j p0 dest
            end;
        _ ← modify_address j (fun b =>
              set_extent m front (checkpoint_frontier b) (set_binding (ad_reservation a) (Some row) true b));
        _ ← (if negb (tail =? 0) then
               h ← get_membership i p0;
               _ ← on_pages (release_active_reference h);
               h ← get_membership j p0;
               on_pages (retain_active_reference h)
             else mret tt);
        _ ← modify_address i (fun a => set_extent (page_count a) (frontier a) front (set_binding null_reservation None false a));
        k) s Q E.
Proof.
  intros Hfull0 Hn0 Hk. rewrite <- Hfull0, <- Hn0. clear p0 m Hfull0 Hn0. pose proof handover_core as Hc. pose proof (si_capacity_pos _ _ Hc). pose proof (si_cells _ _ Hc) as Hcells.
  pose proof (at_index_lt _ _ _ Hb) as Hj. destruct handover_size as (Hn & Hsz & _). pose proof (si_address _ _ Hc _ _ Ha) as Hok.
  pose proof (ao_count _ _ _ Hok) as Hcnt. destruct handover_split as (HnF & _ & _).
  assert (dest <> None -> full < n) as Hlt.
  { intros Hd. unfold full, n, all. rewrite length_app, (option_length_some _ Hd). lia. }
  destruct (physical_pages_ok all s _ (si_pages _ _ Hc) handover_devices) as (ps & Hps & Hpl & Hpv).
  eapply post_eq; [exact Hps|].
  destruct (publish_row_quiet s H row 0 ps Hinv) as (t & Hpub & _ & Ht & Htc).
  { apply elem_of_app. right. unfold addr_rows. apply list_elem_of_bind. exists a. rewrite Hrow. split; [by left|].
    apply at_index_Some in Ha as [_ ?]. by eapply list_elem_of_lookup_2. }
  { done. } { lia. } { unfold n in *. lia. }
  eapply post_eq; [exact Hpub|]. set (s1' := set_sp_tables t s).
  destruct (share_loop (snapshot_page i j) snapshot_full fulls s1' i j snapshot_full_keeps HnF Hij Hj Hcells) as (l & Hloop & Hl & Hm).
  { change (page_capacity_ s1') with (page_capacity_ s). unfold full in *. lia. }
  { exact handover_source. }
  eapply post_eq; [exact Hloop|].
  destruct (install_members s1' l j dest fulls Hl Hj Hcells) as [Hl' Hm'].
  { fold all n. change (page_capacity_ s1') with (page_capacity_ s). lia. } { exact Hm. }
  eapply post_eq.
  { apply (handover_install_eq (set_sp_pages (upd_pages fulls snapshot_full (sp_pages s)) s1') l); [done|].
    intros Hd. change (membership (set_memberships l s1') i full = membership s1' i full).
    rewrite Hm by (specialize (Hlt Hd); unfold full in *; change (page_capacity_ s1') with (page_capacity_ s); lia).
    by rewrite decide_False by (intros [? _]; done). }
  set (l' := match dest with Some h => _ | None => l end) in *.
  match goal with |- post _ ?S _ _ => set (s3' := S) end.
  eapply post_eq; [exact (modify_address_eq j b _ s3' Hb)|].
  match goal with |- post _ ?S _ _ => set (s4' := S) end.
  assert (forall k q, 0 <= q < page_capacity_ s -> membership s4' k q =
    if decide (k = j /\ q < n) then default null_logical (all !! Z.to_nat q) else membership s k q) as Hm4 by exact Hm'.
  eapply post_eq.
  { apply (handover_active_eq s4'); [done|..].
    - intros Hd. specialize (Hlt Hd). rewrite Hm4 by (unfold full in *; lia). by rewrite decide_False by (intros [? _]; done).
    - intros d Hd. assert (dest <> None) as Hne by congruence. specialize (Hlt Hne).
      rewrite Hm4, decide_True by (unfold full in *; lia). unfold all, full.
      rewrite Nat2Z.id, lookup_app_r, Nat.sub_diag by lia. by rewrite Hd. }
  eapply post_eq.
  { apply (modify_address_eq i a). change (address_at s4' i = Some a).
    rewrite (address_at_set s s4' j b b' i Hb eq_refl). by rewrite decide_False. }
  apply Hk.
  - exact (eq_ind _ (fun x => spaces_inv x (with_dests D H)) (handover_inv t l' Ht Htc Hl' Hm') _ (handover_written t l' Hl' Hm')).
  - exists t, l'. split; [reflexivity|exact Hm'].
Qed.

(** What it leaves behind. *)
Lemma handed_frame s' :
  handed s' -> sp_self s' = sp_self s /\ page_capacity_ s' = page_capacity_ s /\
    address_at s' i = Some a2 /\ address_at s' j = Some b' /\
    (forall k, k <> i -> k <> j -> address_at s' k = address_at s k) /\
    (forall k q, k <> j -> 0 <= q < page_capacity_ s -> membership s' k q = membership s k q) /\
    members s' j b' = all /\ members s' i a2 = members s i a /\ contents_stay (sp_pages s) (sp_pages s').
Proof.
  intros (t & l & Hs' & Hm).
  pose proof (ao_count _ _ _ (si_address _ _ handover_core _ _ Ha)) as Hcnt. destruct handover_size as (Hn & Hsz & _).
  assert (forall k, address_at s' k = if decide (k = i) then Some a2 else if decide (k = j) then Some b' else address_at s k) as Hat.
  { intros k. set (sj := set_addresses (set_index (addresses_ s) j b') s).
    assert (forall k, address_at sj k = if decide (k = j) then Some b' else address_at s k) as Hj by (intros; by apply (address_at_set s sj j b b')).
    rewrite <- (Hj k). apply (address_at_set sj s' i a a2 k); [by rewrite Hj, decide_False|by rewrite Hs']. }
  assert (forall k q, k <> j -> 0 <= q < page_capacity_ s -> membership s' k q = membership s k q) as Hother.
  { intros k q Hk Hq. rewrite Hm by done. by rewrite decide_False by tauto. }
  split_and!; try done; try (by rewrite Hs').
  - by rewrite Hat, decide_True.
  - by rewrite Hat, decide_False, decide_True by congruence.
  - intros k ? ?. by rewrite Hat, !decide_False.
  - apply list_eq. intros k. unfold members. cbn [page_count b' set_extent set_binding].
    pose proof (memberships_of_length s' j n ltac:(lia)) as Hlen. destruct (decide (Z.of_nat k < n)) as [Hk|Hk].
    + replace k with (Z.to_nat (Z.of_nat k)) by lia. rewrite memberships_of_lookup by lia.
      rewrite Hm, decide_True by lia. rewrite Nat2Z.id. destruct (lookup_lt_is_Some_2 all k) as [h Hh]; [unfold n in *; lia|]. by rewrite Hh.
    + rewrite !lookup_ge_None_2; [done| |]; unfold n in *; lia.
  - apply memberships_of_ext. intros p Hp. apply Hother; [done|]. cbn [page_count a2 a1 set_extent set_binding] in Hp. lia.
  - rewrite Hs'. cbn [sp_pages set_addresses set_memberships set_sp_tables set_sp_pages].
    do 5 (eapply contents_stay_trans; [|apply upd_pages_same_content; [by intros pg|by intros pg]]).
    intros h pg Hpg. by exists pg.
Qed.
End handover.

(** ** Committing *)

(** A committed snapshot: the destination is active where the source was, with its full pages and the
    copied tail; the source is inactive with the same pages and all of it a checkpoint. *)
Record snapshotted (s s' : Spaces) (x : KVActiveSnapshotReservation) : Prop := {
  sd_destination : exists a b, address_of s (sn_source x) = Some a /\ address_of s' (sn_destination x) = Some b /\
    ad_active a = true /\ ad_active b = true /\ frontier b = sn_frontier x /\
    ad_row b = ad_row a /\ ad_reservation b = ad_reservation a /\
    members s' (ah_index (sn_destination x)) b =
      memberships_of s (ah_index (sn_source x)) (full_pages (sn_shape x)) ++ option_to_list (sn_tail_destination x);
  sd_source : exists a a', address_of s (sn_source x) = Some a /\ address_of s' (sn_source x) = Some a' /\
    ad_active a' = false /\ frontier a' = frontier a /\ frontier a = sn_frontier x /\
    checkpoint_frontier a' = sn_frontier x /\
    members s' (ah_index (sn_source x)) a' = members s (ah_index (sn_source x)) a;
  sd_others : forall k, k <> ah_index (sn_destination x) ->
    (k <> ah_index (sn_source x) -> address_at s' k = address_at s k) /\
    forall q, 0 <= q < page_capacity_ s -> membership s' k q = membership s k q;
  sd_contents : contents_stay (sp_pages s) (sp_pages s');
}.

Lemma recheck_snapshot_source_cases i p s :
  match recheck_snapshot_source i p s with
  | (s', Ok _) => s' = s /\ True
  | (s', Throw e) => s' = s /\ e <> Terminate
  end.
Proof.
  unfold recheck_snapshot_source, get_membership, ask, source_pins, device_resident, LogicalKVPageStore.require.
  unfold_M. destruct (page_of (sp_pages s) _) as [pg|]; [|done]. by destruct (_ || _).
Qed.

(** The pages of a prepared snapshot are those of its source. *)
Lemma snapshot_parts s H x hs a shape :
  spaces_inv s (snapshot_held x hs H) -> snapshot_ok (sp_self s) x hs ->
  snapshot_shaped s (sn_source x) (sn_frontier x) a shape -> shape = sn_shape x ->
  page_count a = pages_for_tokens (sn_frontier x) ->
  let i := ah_index (sn_source x) in let full := full_pages shape in let tail := tail_columns shape in
  let A := (if tail =? 0 then [] else [membership s i full]) in
  0 <= full /\ members s i a = memberships_of s i full ++ A /\
  length A = length (option_to_list (sn_tail_destination x)) /\
  has (sn_tail_destination x) = negb (tail =? 0) /\
  sn_frontier x = kPagedKVPageSize * full + tail /\ 0 <= tail < kPagedKVPageSize /\
  Z.of_nat (length (memberships_of s i full ++ option_to_list (sn_tail_destination x))) = pages_for_tokens (sn_frontier x) /\
  Forall (fun h => exists pg, page_of (sp_pages s) h = Some pg /\
    writer_references_ pg = 1 /\ references pg = 1 /\ tail <= committed_columns_ pg) A.
Proof.
  intros Hinv Hx Hs -> Hcount i full tail A. destruct (frontier_parts (sn_frontier x)) as (H1 & H2 & H3 & H4); [apply Hx|].
  rewrite <- (sr_full _ _ _ Hx), <- (sr_tail _ _ _ Hx) in *. fold full tail in H1, H2, H3, H4.
  pose proof (sr_destination _ _ _ Hx) as Hd. fold tail in Hd.
  assert (length A = length (option_to_list (sn_tail_destination x))) as HlA.
  { unfold A. destruct (tail =? 0), (sn_tail_destination x); cbn in Hd |- *; congruence. }
  split_and!; try done; try lia.
  - unfold members. rewrite Hcount, H4. unfold A. destruct (tail =? 0); [by rewrite Z.add_0_r, app_nil_r|].
    rewrite (memberships_of_app s i full) by lia. f_equal. by replace (full + 1 - full) with 1 by lia.
  - rewrite length_app, Nat2Z.inj_add, memberships_of_length, <- HlA, H4 by done. unfold A. by destruct (tail =? 0).
  - unfold A. destruct (Z.eqb_spec tail 0) as [Hz|Hz]; [constructor|]. apply Forall_singleton.
    destruct (ss_last _ _ _ _ _ Hs Hz) as (pg & ? & ? & ? & ? & _). by exists pg.
Qed.

Lemma commit_active_snapshot_post s H x hs :
  spaces_inv s (snapshot_held x hs H) -> snapshot_ok (sp_self s) x hs ->
  post (commit_active_snapshot x) s (fun s' _ => spaces_inv s' H /\ snapshotted s s' x) (unchanged s).
Proof.
  intros Hinv Hx. pose proof (proj1 Hinv) as Hc. unfold commit_active_snapshot.
  eapply post_bind with (Q := fun s' _ => s' = s).
  { unfold require_active_snapshot. apply post_get. unfold post, mthrow_if. by destruct (_ || _). }
  intros ? _ ->. apply post_require_active; [done..|]. intros a Haddr Hact%active_address_flag.
  apply post_require; [done|]. intros b Hb. eapply post_bind.
  { eapply post_weaken; [apply (active_snapshot_shape_post s _ (sn_source x) (sn_frontier x) Hinv)|].
    - pose proof (sr_front _ _ _ Hx). lia.
    - exact (fun s' shape Hpost => Hpost). }
  intros ? shape [-> (a' & Hshape)]. assert (a' = a) as -> by (pose proof (ss_address _ _ _ _ _ Hshape); congruence).
  destruct (ad_row a) as [row|] eqn:Hrow; [|done].
  apply post_throw_if; [done|]. intros Hg. bool_facts.
  match goal with Hs : bool_decide (shape = _) = true |- _ => apply bool_decide_eq_true in Hs as Hsh end.
  match goal with Hs : page_count a = _ |- _ => rename Hs into Hcnt end.
  destruct (snapshot_parts s H x hs a shape Hinv Hx Hshape Hsh Hcnt) as (Hf & Hmem & HlA & Hd & Heq & Ht & Hall & Hlast).
  apply (for_pages_check (fun _ _ => True)); [intros; apply recheck_snapshot_source_cases|done|]. intros _.
  apply post_get, post_throw_if; [done|]. intros _. rewrite <- Hsh, <- Hcnt.
  set (i := ah_index (sn_source x)) in *. set (j := ah_index (sn_destination x)) in *. set (front := sn_frontier x) in *.
  set (full := full_pages shape) in *. set (tail := tail_columns shape) in *. set (dest := sn_tail_destination x) in *.
  assert (i <> j) as Hij by (apply (address_of_distinct s _ _ a b Haddr Hb), Hx).
  pose proof (address_of_at _ _ _ Haddr) as Hai. pose proof (address_of_at _ _ _ Hb) as Hbj.
  assert (ad_active b = false) as Hidle by by rewrite <- (is_bound_active _ _ _ _ Hc Hbj).
  set (Hand := mkHolders (hd_res H) (hd_rows H)
    (pin_list (sn_source x) hs (Z.to_nat (full_pages (sn_shape x))) false ++ hd_pins H)
    (dest_list dest tail ++ hd_dests H)).
  assert (spaces_inv s Hand) as Hinv0.
  { apply (spent_reservation s Hand (sn_tail_reservation x)); [|done]. unfold Hand, tail. rewrite Hsh. exact Hinv. }
  pose proof (address_of_occupied _ _ _ Hb) as Hocc. pose proof (sr_front _ _ _ Hx) as Hfr.
  assert (front = frontier a) as Hfa by done.
  assert (Z.of_nat (length (memberships_of s i full)) = full) as Hlf by by apply memberships_of_length.
  assert (0 < front /\ front = frontier a /\ front = kPagedKVPageSize * Z.of_nat (length (memberships_of s i full)) + tail /\
    0 <= tail < kPagedKVPageSize) as Hfront by (rewrite Hlf; split_and!; done || lia).
  pose proof (ss_pages _ _ _ _ _ Hshape) as Hpages. assert (page_count b = 0) as Hcount0 by done.
  eapply (handover_post s Hand i j a b row front tail (memberships_of s i full)); try done.
  { by rewrite Hall, Hcnt. }
  intros s1 Hinv1 Hh.
  destruct (handed_frame s Hand i j a b row front tail _ _ dest (hd_dests H) eq_refl Hinv0 Hai Hact Hbj Hidle Hocc Hij Hmem HlA
    Hfront Hd s1 Hh) as (Fs & Fc & Fi & Fj & Fo & Fm & Fd & Fsrc & Fcont).
  pose proof (sr_pages _ _ _ Hx) as Hlen.
  destruct (unpin_loop s1 H (sn_source x) hs (Z.to_nat (full_pages (sn_shape x))) false (hd_pins H) (page_count a)
    (fun page => h ← get_membership i page; on_pages (unpin_source h))) as (Hloop & Hinv2 & Hpn & Hpv).
  { exact Hinv1. }
  { fold front in Hlen. lia. }
  { intros p s' Hp. fold front in Hlen. lia. }
  { intros p s' h pg Hp Hm Hpg Hpin. by apply (unpin_page i p s' h pg). }
  eapply post_end; [exact Hloop|]. rewrite with_pins_same in Hinv2. split; [exact Hinv2|].
  pose proof Haddr as (Eo & _ & Eocc & Egen)%address_of_Some. pose proof Hb as (Bo & _ & Bocc & Bgen)%address_of_Some.
  split.
  - do 2 eexists. split; [exact Haddr|]. split; [apply address_of_Some; split_and!; [by rewrite Bo; f_equal|exact Fj|done|done]|].
    split_and!; try done. by rewrite <- Hsh.
  - do 2 eexists. split; [exact Haddr|]. split; [apply address_of_Some; split_and!; [by rewrite Eo; f_equal|exact Fi|done|done]|].
    split_and!; done.
  - intros k Hk. split; [intros Hki; by apply Fo|]. intros q Hq. by apply Fm.
  - eapply contents_stay_trans; [exact Fcont|]. apply upd_pages_same_content; [apply add_pins_keeps|by intros pg].
Qed.

(** ** Snapshots that are given up

    Aborting takes back the pins and the prepared tail; the destructor then drops the reservation. *)

(** Pinned pages are pages of their address. *)
Lemma pinned_within s H source hs full shared Q a :
  spaces_inv s (with_pins (pin_list source hs full shared ++ Q) H) -> address_of s source = Some a ->
  Z.of_nat (length hs) <= page_count a.
Proof.
  intros [Hc _] Ha. pose proof (ao_count _ _ _ (si_address _ _ Hc _ _ (address_of_at _ _ _ Ha))).
  destruct hs as [|h hs]; [cbn; lia|]. pose proof (si_pins _ _ Hc) as [(a' & Ha' & Hpre & _) _]%Forall_cons.
  cbn [pin_space pin_pages] in *. assert (a' = a) as -> by congruence. apply prefix_length in Hpre.
  unfold members in Hpre. pose proof (memberships_of_length s (ah_index source) (page_count a) ltac:(lia)). lia.
Qed.

Lemma abort_active_snapshot_post s H x hs :
  spaces_inv s (snapshot_held x hs H) -> snapshot_ok (sp_self s) x hs ->
  post (abort_active_snapshot x) s
    (fun s' r => spaces_inv s' (with_res (r :: hd_res H) H) /\ s' = set_sp_pages (sp_pages s') s) (fun _ _ => False).
Proof.
  intros Hinv Hx. unfold abort_active_snapshot. apply post_noexcept, post_get.
  rewrite bool_decide_eq_true_2 by apply Hx. cbn [negb].
  set (H2 := mkHolders (sn_tail_reservation x :: hd_res H) (hd_rows H) (hd_pins H)
    (dest_list (sn_tail_destination x) (tail_columns (sn_shape x)) ++ hd_dests H)).
  apply post_bind with (Q := fun s1 _ => spaces_inv s1 H2 /\ s1 = set_sp_pages (sp_pages s1) s).
  - destruct (address_of s (sn_source x)) as [a|] eqn:Ha.
    + pose proof (pinned_within s (snapshot_held x hs H) _ _ _ _ (hd_pins H) a Hinv Ha) as Hin.
      pose proof (sr_pages _ _ _ Hx) as Hlen. rewrite Z.min_l by lia.
      destruct (unpin_loop s (snapshot_held x hs H) (sn_source x) hs (Z.to_nat (full_pages (sn_shape x))) false (hd_pins H)
        (pages_for_tokens (sn_frontier x)) (unpin_if_pinned (ah_index (sn_source x)))) as (Hloop & Hinv2 & _).
      { exact Hinv. } { lia. } { intros. lia. }
      { intros p s' h pg Hp Hm Hpg Hpin. by apply (unpin_if_pinned_page _ p s' h pg). }
      eapply post_end; [exact Hloop|]. split; [exact Hinv2|done].
    + apply post_ret. split; [|by destruct s]. destruct hs as [|h rest]; [exact Hinv|exfalso].
      pose proof (si_pins _ _ (proj1 Hinv)) as [(a & Ha' & _) _]%Forall_cons. cbn [pin_space] in Ha'. congruence.
  - intros s1 _ [Hinv1 Hs1].
    destruct (drop_destination_option s1 H (sn_tail_reservation x) (hd_res H) (sn_tail_destination x)
      (tail_columns (sn_shape x)) (hd_dests H) Hinv1) as (s2 & r' & Hdrop & Hinv2 & Hs2).
    eapply post_end; [exact Hdrop|]. split; [by destruct H|]. rewrite Hs2, Hs1. done.
Qed.

Lemma destroy_active_snapshot_post s H x hs :
  spaces_inv s (snapshot_held x hs H) -> snapshot_ok (sp_self s) x hs ->
  exists s', destroy_active_snapshot x s = (s', Ok tt) /\ spaces_inv s' H.
Proof.
  intros Hinv Hx. destruct (post_returns _ _ _ (abort_active_snapshot_post s H x hs Hinv Hx)) as (s1 & r & Ha & Hinv1 & _).
  unfold destroy_active_snapshot. cbv [mbind M_bind]. rewrite Ha.
  destruct (drop_reservation s1 H r (hd_res H) Hinv1) as (s3 & -> & Hinv3 & _).
  exists s3. by rewrite with_res_same in Hinv3.
Qed.
