(* ===== verification/KVAddressRelease.v ===== *)
(** * Address spaces: giving pages back

    Releasing an address and truncating an inactive one give back references to its last pages.  A
    page that nobody else references loses its device copy, and its descriptor too unless the host
    holds a copy; a page that is shared stays as it is. *)

From S2P Require Import Prelude Post Extents Tensor KVGeometry DevicePagePool DevicePoolInvariant DevicePoolOps ExecutionTables KVPages KVPagesInvariant KVPagesSpec KVAddress KVAddressPages KVAddressInvariant KVAddressUpdate KVAddressProtect KVAddressOps KVAddressActivation.
Import LogicalKVPageStore KVAddressSpaceStore.

(** ** References given back, one page after the other *)

Record gave_back (S : Store) (hs : list LogicalKVPageHandle) (S' : Store) : Prop := {
  gb_self : st_self S' = st_self S;
  gb_length : length (pages_ S') = length (pages_ S);
  gb_done : forall h, h ∈ hs -> exists pg pg', page_of S h = Some pg /\ can_release_reference S h false = true /\
    at_index (pages_ S') (lh_index h) = Some pg' /\ released_as false pg pg';
  gb_same : forall i, (i ∉ indices hs) -> at_index (pages_ S') i = at_index (pages_ S) i;
}.

Lemma gave_back_nil S : gave_back S [] S.
Proof. split; [done..| |done]. by intros h Hh%not_elem_of_nil. Qed.

Lemma gave_back_step S hs S' R h pg :
  gave_back S hs S' -> kv_inv S' R [] -> page_of S h = Some pg -> (lh_index h ∉ indices hs) ->
  can_release_reference S h false = true ->
  exists S'', release_reference h false S' = (S'', Ok true) /\ kv_inv S'' R [] /\ gave_back S (hs ++ [h]) S''.
Proof.
  intros [Hself Hlen Hdone Hsame] Hkv Hpg Hni Hcan.
  assert (page_of S' h = Some pg) as Hpg' by (rewrite <- Hpg; apply page_of_same; auto).
  assert (can_release_reference S' h false = true) as Hcan'.
  { unfold can_release_reference, query in *. by rewrite Hpg', Hpg in *. }
  destruct (release_reference_ok S' R h false pg Hkv Hpg' Hcan') as (S'' & pg'' & Heq & Hkv'' & Hev & Hpages & Hrel).
  exists S''. split_and!; [done|done|].
  pose proof Hpg' as (_ & Hi & _)%page_of_Some.
  assert (forall i, at_index (pages_ S'') i = if decide (lh_index h = i) then Some pg'' else at_index (pages_ S') i) as Hat.
  { intros i. rewrite Hpages. by apply (at_set_page_at S' _ i pg). }
  split.
  - rewrite (ev_self _ _ Hev). done.
  - rewrite (ev_length _ _ Hev). done.
  - intros h' [Hin|Hin%list_elem_of_singleton]%elem_of_app.
    + destruct (Hdone h' Hin) as (q & q' & Hq & Hqc & Hq' & Hqr). exists q, q'. rewrite Hat, decide_False; [done|].
      intros Heqi. apply Hni. rewrite Heqi. by apply list_elem_of_fmap_2.
    + subst h'. exists pg, pg''. by rewrite Hat, decide_True.
  - intros i Hni'. unfold indices in Hni'. rewrite fmap_app, not_elem_of_app in Hni'. destruct Hni' as [Hni1 Hni2].
    rewrite Hat, decide_False; [by apply Hsame|]. intros <-. apply Hni2. by left.
Qed.

(** ** The invariant after the last pages of an inactive address are given back *)

(** The members from position [n] on. *)
Definition suffix (s : Spaces) (j : Z) (a : Address) (n : Z) : list LogicalKVPageHandle :=
  membership s j <$> seqZ n (page_count a - n).

Lemma members_split s j a n : 0 <= n <= page_count a -> members s j a = memberships_of s j n ++ suffix s j a n.
Proof. apply memberships_of_app. Qed.

Section drop.
Context (s s' : Spaces) (H : Holders) (j n : Z) (a a' : Address) (S' : Store) (hs : list LogicalKVPageHandle).
Context (Hc : core s H) (Ha : address_at s j = Some a) (Hact : ad_active a = false) (Hn : 0 <= n <= page_count a).
Context (Hperm : hs ≡ₚ suffix s j a n) (Hback : gave_back (sp_pages s) hs S').
Context (Hkv : kv_inv S' (hd_res H ++ addr_res s) []).
Context (Hself : sp_self s' = sp_self s) (Hpages : sp_pages s' = S') (Htab : sp_tables s' = sp_tables s)
  (Hcap : page_capacity_ s' = page_capacity_ s) (Haddr : addresses_ s' = set_index (addresses_ s) j a')
  (Hcells : length (memberships_ s') = length (memberships_ s)).
Context (Hmem : forall k p, 0 <= p < page_capacity_ s -> (k <> j \/ p < n) -> membership s' k p = membership s k p)
  (Hnull : forall p, n <= p < page_capacity_ s -> membership s' j p = null_logical).
Context (Hcount : page_count a' = n) (Hact' : ad_active a' = false)
  (Hrow' : ad_row a' = None) (Hres' : ad_reservation a' = null_reservation) (Hgen' : 1 <= ad_generation a' <= u32_max)
  (Hfront : 0 <= checkpoint_frontier a' <= frontier a' /\ frontier a' <= kPagedKVPageSize * n /\ frontier a' <= frontier a)
  (Hslot : 0 < n -> ad_occupied a' = ad_occupied a /\ ad_generation a' = ad_generation a)
  (Hidle : ad_occupied a' = false -> n = 0).
Context (Hfree : free_ok s').

Lemma drop_ok : address_ok s j a.
Proof. apply (si_address _ _ Hc _ _ Ha). Qed.

Lemma drop_at k : address_at s' k = if decide (k = j) then Some a' else address_at s k.
Proof. by apply (address_at_set s s' j a). Qed.

Lemma drop_members : members s' j a' = memberships_of s j n.
Proof.
  pose proof (ao_count _ _ _ drop_ok). unfold members. rewrite Hcount. apply memberships_of_ext.
  intros p Hp. apply Hmem; [lia|right; lia].
Qed.

Lemma drop_suffix h : h ∈ hs <-> h ∈ suffix s j a n.
Proof. by rewrite Hperm. Qed.

Lemma drop_member h : h ∈ hs -> h ∈ members s j a.
Proof. intros Hh%drop_suffix. rewrite (members_split _ _ _ n) by done. apply elem_of_app. by right. Qed.

Lemma drop_kept_member i : i ∈ indices (memberships_of s j n) -> i ∉ indices hs.
Proof.
  intros Hi Hi'. pose proof (ao_distinct _ _ _ drop_ok) as Hnd. rewrite (members_split _ _ _ n) in Hnd by done.
  unfold indices in *. rewrite fmap_app in Hnd. apply NoDup_app in Hnd as (_ & Hdis & _).
  apply (Hdis i Hi). by rewrite <- Hperm.
Qed.

(** A page given back: the address was one of its references and no pin holds it. *)
Lemma drop_page h :
  h ∈ hs -> exists pg pg', page_of (sp_pages s) h = Some pg /\ at_index (pages_ S') (lh_index h) = Some pg' /\
    released_as false pg pg' /\ source_pins_ pg = 0 /\ counts_at s (hd_pins H) (lh_index h) pg /\
    0 <= active_references pg < references pg.
Proof.
  intros Hh. destruct (gb_done _ _ _ Hback h Hh) as (pg & pg' & Hpg & Hcan & Hat & Hrel).
  destruct (member_page s H j a h Hc Ha (drop_member h Hh)) as (q & Hq & _ & Hcn & _).
  rewrite Hpg in Hq. injection Hq as <-. unfold can_release_reference, query in Hcan. rewrite Hpg in Hcan. bool_facts.
  exists pg, pg'. split_and!; try done;
    by apply (inactive_member_counts s H j a h pg Hc Ha Hact (drop_member h Hh) Hpg).
Qed.

Lemma drop_pages h pg :
  page_of (sp_pages s) h = Some pg -> held_elsewhere s H j h ->
  exists pg', page_of (sp_pages s') h = Some pg' /\ kept pg pg' /\ protected_columns_ pg' = protected_columns_ pg.
Proof.
  intros Hpg Hheld. rewrite Hpages. destruct (decide (lh_index h ∈ indices hs)) as [Hin|Hni].
  - apply list_elem_of_fmap in Hin as (h' & Hi & Hh'). destruct (drop_page h' Hh') as (q & q' & Hq & Hq' & Hrel & Hpin & _ & Hlt).
    pose proof (page_of_inj _ _ _ _ _ Hpg Hq Hi) as <-. rewrite Hpg in Hq. injection Hq as <-.
    assert (references pg <> 1) as Hr.
    { intros Hr. by apply (exclusive_page s H H j a h pg Hc Ha (drop_member h Hh') Hpg Hr Hpin). }
    destruct Hrel as [[_ ->]|[[? _]|[? _]]]; [|done..]. eexists. split; [|split; [split|]].
    + apply page_of_Some. pose proof Hpg as (Ho & _ & Hocc & Hg)%page_of_Some. rewrite (gb_self _ _ _ Hback). done.
    + cbn. lia.
    + unfold transfer_destination. intros Ht. bool_facts. lia.
    + done.
  - exists pg. split; [|split; [apply kept_refl|done]]. rewrite <- Hpg. apply page_of_same; [apply Hback..|].
    by apply Hback.
Qed.

Lemma drop_address : address_ok s' j a'.
Proof.
  pose proof drop_ok as Hok. pose proof (ao_frontier _ _ _ Hok). pose proof (ao_count _ _ _ Hok).
  assert (forall h, h ∈ memberships_of s j n -> exists pg, page_of (sp_pages s) h = Some pg /\ page_of (sp_pages s') h = Some pg) as Hval.
  { intros h Hh. pose proof (ao_valid _ _ _ Hok) as Hv. rewrite Forall_forall in Hv. destruct (Hv h) as [pg Hpg].
    { rewrite (members_split _ _ _ n) by done. apply elem_of_app. by left. }
    exists pg. split; [done|]. rewrite <- Hpg, Hpages. apply page_of_same; [apply Hback..|]. apply Hback.
    apply drop_kept_member. by apply list_elem_of_fmap_2. }
  split; rewrite ?drop_members, ?Hcap, ?Hcount; try done.
  - intros Ho. specialize (Hidle Ho). unfold kPagedKVPageSize in *. split_and!; [done|lia|done].
  - lia.
  - lia.
  - by rewrite Hact'.
  - apply Forall_forall. intros h Hh. destruct (Hval h Hh) as (pg & _ & ->). done.
  - pose proof (ao_distinct _ _ _ Hok) as Hnd. rewrite (members_split _ _ _ n) in Hnd by done.
    unfold indices in *. rewrite fmap_app in Hnd. by apply NoDup_app in Hnd as (? & _).
  - intros p pg Hp Hlt Hpg. unfold kPagedKVPageSize in *. rewrite Hmem in Hpg by (lia || (right; lia)).
    destruct (Hval (membership s j p)) as (q & Hq & Hq'); [apply elem_of_memberships; exists p; split; [lia|done]|].
    rewrite Hpg in Hq'. injection Hq' as <-. pose proof (ao_cover _ _ _ Hok p pg Hp) as Hcov.
    unfold kPagedKVPageSize in *. specialize (Hcov ltac:(lia) Hq). lia.
Qed.

Lemma drop_counts i pg' :
  at_index (pages_ (sp_pages s')) i = Some pg' -> occupied pg' = true -> counts_at s' (hd_pins H) i pg'.
Proof.
  intros Hi' Ho'. rewrite Hpages in Hi'.
  assert (address_at s' j = Some a') as Ha' by by rewrite drop_at, decide_True.
  destruct (counts_update s s' H j a a' i Hc Ha Ha') as [Hcr Hca].
  { rewrite Haddr. apply length_set_index. }
  { intros k Hk. by rewrite drop_at, decide_False. }
  { intros k p Hk Hp. apply Hmem; [done|by left]. }
  rewrite drop_members in Hcr, Hca. rewrite !active_member_flag, Hact, Hact' in Hca. cbn [flag] in Hca.
  rewrite !Z.mul_0_l in Hca. unfold counts_at. rewrite Hcr, Hca.
  pose proof (ao_distinct _ _ _ drop_ok) as Hnd. rewrite (members_split _ _ _ n) in Hnd by done.
  destruct (decide (i ∈ indices hs)) as [Hin|Hni].
  - rewrite (member_of_in i (members s j a)).
    2: { rewrite (members_split _ _ _ n) by done. unfold indices. rewrite fmap_app, elem_of_app. right.
         unfold indices in Hin. by rewrite <- Hperm. }
    rewrite member_of_out by (intros Hk; by apply (drop_kept_member i Hk)).
    apply list_elem_of_fmap in Hin as (h & -> & Hh).
    destruct (drop_page h Hh) as (pg & q & Hpg & Hq & Hrel & Hpin & [Cr Ca Cp Cw Cd] & Hlt).
    rewrite Hi' in Hq. injection Hq as <-.
    destruct Hrel as [[Hr ->]|[(Hr & _ & ->)|(Hr & _ & ->)]]; [| |done].
    + split; cbn; try done; lia.
    + split; cbn; try done; lia.
  - rewrite (gb_same _ _ _ Hback i Hni) in Hi'. destruct (si_counts _ _ Hc i pg' Hi' Ho') as [Cr Ca Cp Cw Cd].
    assert (member_of i (members s j a) = member_of i (memberships_of s j n)) as Hm.
    { destruct (decide (i ∈ indices (memberships_of s j n))) as [Hk|Hk].
      - rewrite !member_of_in; [done|done|]. rewrite (members_split _ _ _ n) by done. unfold indices in *.
        rewrite fmap_app, elem_of_app. by left.
      - rewrite !member_of_out; [done|done|]. rewrite (members_split _ _ _ n) by done. unfold indices in *.
        rewrite fmap_app, not_elem_of_app. split; [done|]. by rewrite <- Hperm. }
    rewrite Hm. split; try done; lia.
Qed.

(** Pins of this address hold only pages that stay. *)
Lemma drop_pinned q :
  q ∈ hd_pins H -> ah_index (pin_space q) = j ->
  exists b, address_of s' (pin_space q) = Some b /\ pin_pages q `prefix_of` members s' j b.
Proof.
  intros Hq Hj. pose proof (proj1 (Forall_forall _ _) (si_pins _ _ Hc) q Hq) as (b & Hb & Hpre & _ & Hne).
  apply address_of_Some in Hb as (Ho & Hb & Hocc & Hg). rewrite Hj in *. rewrite Ha in Hb. injection Hb as <-.
  assert (forall h, h ∈ pin_pages q -> h ∉ hs) as Hnot.
  { intros h Hh Hin. destruct (drop_page h Hin) as (pg & _ & Hpg & _ & _ & Hpin & [_ _ Cp _ _] & _).
    rewrite Hpin in Cp. pose proof Hq as [k Hk]%list_elem_of_lookup.
    pose proof (sum_with_elem (fun q => member_of (lh_index h) (pin_pages q)) (hd_pins H) k q) as Hs.
    cbn beta in Hs. rewrite (member_of_in _ (pin_pages q)) in Hs by by apply list_elem_of_fmap_2.
    specialize (Hs (fun q' => proj1 (member_of_range _ _)) Hk). unfold count_pins in Cp. lia. }
  rewrite (members_split _ _ _ n) in Hpre by done.
  assert (pin_pages q `prefix_of` memberships_of s j n) as Hpre'.
  { destruct Hpre as [rest Hrest]. apply app_eq_inv in Hrest as [(k & -> & Hk)|(k & Hk & Hrest)].
    - by exists k.
    - destruct k as [|h k]; [rewrite app_nil_r in Hk; by rewrite Hk|]. exfalso. apply (Hnot h).
      + rewrite Hk. apply elem_of_app. right. by left.
      + apply drop_suffix. rewrite Hrest. by left. }
  assert (0 < n) as Hpos.
  { destruct (decide (0 < n)) as [|Hz]; [done|]. assert (n = 0) as -> by lia. exfalso. apply Hne.
    by apply prefix_nil_inv in Hpre'. }
  destruct (Hslot Hpos) as [Hocc' Hgen0]. exists a'. rewrite drop_members. split; [|done].
  apply address_of_Some. rewrite Hj, Hself, drop_at, decide_True by done. split_and!; congruence.
Qed.

Lemma drop_core : core s' H.
Proof.
  apply (core_update s s' H H j Hc). pose proof Hc as []. split; try done.
  - by rewrite Htab.
  - rewrite Haddr. apply length_set_index.
  - intros k Hk. by rewrite drop_at, decide_False.
  - intros k p Hk Hp. apply Hmem; [done|by left].
  - rewrite Hpages. eapply kv_inv_reservations; [|exact Hkv].
    destruct (addr_res_split s j a Ha) as (rest & Hr & Hr'). rewrite Hr, (Hr' s' a' Haddr).
    unfold res_of. destruct (ao_unbound _ _ _ drop_ok Hact) as [_ ->]. by rewrite Hres'.
  - rewrite Htab. destruct (addr_rows_split s j a Ha) as (rest & Hr & Hr'). rewrite (Hr' s' a' Haddr), Hrow'.
    rewrite Hr in si_rows. destruct (ao_unbound _ _ _ drop_ok Hact) as [Hrow _]. by rewrite Hrow in si_rows.
  - rewrite drop_at, decide_True by done. intros ? [= <-]. apply drop_address.
  - intros h pg Hpg Hheld. destruct (drop_pages h pg Hpg Hheld) as (pg' & ? & ? & _). by exists pg'.
  - apply drop_counts.
  - apply drop_pinned.
  - apply (pinned_writers s H _ Hc). intros h pg Hpg Hp _ Hw. exists pg. split; [|done].
    rewrite <- Hpg, Hpages. apply page_of_same; [apply Hback..|]. apply Hback.
    intros (h' & Hi & Hh')%list_elem_of_fmap. destruct (drop_page h' Hh') as (q & _ & Hq & _ & _ & Hpin & _).
    pose proof (page_of_inj _ _ _ _ _ Hpg Hq Hi) as <-. rewrite Hpg in Hq. injection Hq as <-. lia.
Qed.
End drop.

(** ** The loops *)

(** The state after the pages in positions [ps] of address [j] were given back. *)
Record dropped (s : Spaces) (H : Holders) (j : Z) (a : Address) (count : Z) (ps : list Z) (s' : Spaces) : Prop := {
  dr_self : sp_self s' = sp_self s;
  dr_tables : sp_tables s' = sp_tables s;
  dr_capacity : page_capacity_ s' = page_capacity_ s;
  dr_free : sp_free s' = sp_free s /\ sp_free_count s' = sp_free_count s;
  dr_addresses : addresses_ s' = set_index (addresses_ s) j (set_extent count (frontier a) (checkpoint_frontier a) a);
  dr_cells : length (memberships_ s') = length (memberships_ s);
  dr_members : forall k p, 0 <= p < page_capacity_ s ->
    membership s' k p = if decide (k = j /\ p ∈ ps) then null_logical else membership s k p;
  dr_back : gave_back (sp_pages s) (membership s j <$> ps) (sp_pages s');
  dr_kv : kv_inv (sp_pages s') (hd_res H ++ addr_res s) [];
}.

Section loops.
Context (s : Spaces) (H : Holders) (j : Z) (a : Address).
Context (Hc : core s H) (Ha : address_at s j = Some a).

Lemma dropped_start : dropped s H j a (page_count a) [] s.
Proof.
  split; try done; try apply Hc.
  - unfold set_index. apply at_index_Some in Ha as [_ Hj]. rewrite list_insert_id; [done|]. rewrite Hj. by destruct a.
  - intros k p _. rewrite decide_False; [done|]. by intros [_ ?%not_elem_of_nil].
  - apply gave_back_nil.
Qed.

Lemma dropped_address count ps s' :
  dropped s H j a count ps s' -> address_at s' j = Some (set_extent count (frontier a) (checkpoint_frontier a) a).
Proof. intros Hd. rewrite (address_at_set s s' j a _ j Ha (dr_addresses _ _ _ _ _ _ _ Hd)). by rewrite decide_True. Qed.

(** One more position. *)
Lemma dropped_step count count' ps p s' :
  dropped s H j a count ps s' -> 0 <= p < page_count a -> p ∉ ps -> Forall (fun q => 0 <= q < page_count a) ps ->
  can_release_reference (sp_pages s) (membership s j p) false = true ->
  exists S'', release_reference (membership s j p) false (sp_pages s') = (S'', Ok true) /\
    forall s'', sp_self s'' = sp_self s' -> sp_tables s'' = sp_tables s' -> page_capacity_ s'' = page_capacity_ s' ->
      sp_free s'' = sp_free s' -> sp_free_count s'' = sp_free_count s' -> sp_pages s'' = S'' ->
      memberships_ s'' = set_index (memberships_ s') (membership_index s' j p) null_logical ->
      addresses_ s'' = set_index (addresses_ s') j (set_extent count' (frontier a) (checkpoint_frontier a) a) ->
      dropped s H j a count' (ps ++ [p]) s''.
Proof.
  intros Hd Hp Hni Hps Hcan. pose proof (si_address _ _ Hc _ _ Ha) as Hok. pose proof (ao_count _ _ _ Hok).
  pose proof (ao_distinct _ _ _ Hok) as Hnd. pose proof (at_index_lt _ _ _ Ha) as Hj.
  destruct (member_page s H j a (membership s j p) Hc Ha) as (pg & Hpg & _).
  { apply elem_of_memberships. by exists p. }
  assert (lh_index (membership s j p) ∉ indices (membership s j <$> ps)) as Hni'.
  { intros Hin. unfold indices in Hin. rewrite <- list_fmap_compose in Hin. apply list_elem_of_fmap in Hin as (q & Heq & Hq).
    rewrite Forall_forall in Hps. specialize (Hps q Hq). cbn in Heq.
    pose proof (NoDup_lookup (indices (members s j a)) (Z.to_nat p) (Z.to_nat q) (lh_index (membership s j p)) Hnd) as Hsame.
    unfold indices in Hsame. rewrite !list_lookup_fmap in Hsame. unfold members in Hsame.
    rewrite !memberships_of_lookup in Hsame by lia. cbn in Hsame. rewrite Heq in Hsame.
    specialize (Hsame eq_refl eq_refl). assert (p = q) by lia. congruence. }
  destruct (gave_back_step _ _ _ _ _ pg (dr_back _ _ _ _ _ _ _ Hd) (dr_kv _ _ _ _ _ _ _ Hd) Hpg Hni' Hcan)
    as (S'' & Heq & Hkv & Hback).
  exists S''. split; [done|]. intros s'' E1 E2 E3 E4 E5 E6 E7 E8. destruct Hd as [D1 D2 D3 [D4 D5] D6 D7 D8 D9 D10].
  split; try congruence.
  - split; congruence.
  - rewrite E8, D6. unfold set_index. by rewrite list_insert_insert_eq.
  - rewrite E7. by rewrite length_set_index.
  - intros k q Hq.
    assert (membership s'' k q = membership (set_memberships (set_index (memberships_ s') (membership_index s' j p) null_logical) s') k q) as ->.
    { unfold membership, membership_index. cbn [memberships_ set_memberships page_capacity_]. by rewrite E7, E3. }
    destruct (decide (k = j /\ q = p)) as [[-> ->]|Hne].
    + rewrite put_membership_same.
      * rewrite decide_True; [done|]. split; [done|]. apply elem_of_app. right. by left.
      * rewrite D3. lia.
      * rewrite D6, length_set_index. lia.
      * rewrite D7, D6, length_set_index, D3. apply Hc.
    + rewrite put_membership_other by (rewrite ?D3; lia || (intros [=]; tauto)). rewrite D8 by done.
      destruct (decide (k = j /\ q ∈ ps)) as [Hin|Hin], (decide (k = j /\ q ∈ ps ++ [p])) as [Hin'|Hin']; try done;
        rewrite elem_of_app, list_elem_of_singleton in Hin'; tauto.
  - rewrite fmap_app, E6. done.
Qed.

Lemma release_member_post count ps p s' :
  dropped s H j a count ps s' -> 0 <= p < page_count a -> p ∉ ps -> Forall (fun q => 0 <= q < page_count a) ps ->
  can_release_reference (sp_pages s) (membership s j p) false = true ->
  post (release_member j p) s' (fun s'' _ => dropped s H j a count (ps ++ [p]) s'') (fun _ _ => False).
Proof.
  intros Hd Hp Hni Hps Hcan. pose proof (ao_count _ _ _ (si_address _ _ Hc _ _ Ha)).
  destruct (dropped_step count count ps p s' Hd Hp Hni Hps Hcan) as (S'' & Heq & Hnext).
  unfold release_member. eapply post_eq; [reflexivity|].
  rewrite (dr_members _ _ _ _ _ _ _ Hd) by lia. rewrite decide_False by tauto.
  eapply post_eq; [unfold on_pages; by rewrite Heq|]. eapply post_eq; [reflexivity|].
  eapply post_end; [reflexivity|]. apply Hnext; try done.
  cbn [addresses_ set_memberships set_sp_pages]. rewrite (dr_addresses _ _ _ _ _ _ _ Hd).
  unfold set_index. by rewrite list_insert_insert_eq.
Qed.

Lemma drop_inactive_page_post count ps p s' :
  dropped s H j a count ps s' -> 0 <= p < page_count a -> p ∉ ps -> Forall (fun q => 0 <= q < page_count a) ps ->
  can_release_reference (sp_pages s) (membership s j p) false = true ->
  post (drop_inactive_page j p) s' (fun s'' _ => dropped s H j a p (ps ++ [p]) s'') (fun _ _ => False).
Proof.
  intros Hd Hp Hni Hps Hcan. pose proof (ao_count _ _ _ (si_address _ _ Hc _ _ Ha)).
  destruct (dropped_step count p ps p s' Hd Hp Hni Hps Hcan) as (S'' & Heq & Hnext).
  unfold drop_inactive_page. eapply post_eq; [reflexivity|].
  rewrite (dr_members _ _ _ _ _ _ _ Hd) by lia. rewrite decide_False by tauto.
  eapply post_eq; [exact (modify_address_eq j _ _ s' (dropped_address count ps s' Hd))|]. eapply post_eq; [reflexivity|].
  eapply post_eq; [unfold on_pages; cbn [sp_pages set_memberships set_addresses]; by rewrite Heq|].
  eapply post_end; [reflexivity|]. by apply Hnext.
Qed.

(** All positions from [n] on, last first. *)
Lemma drop_inactive_pages_post n :
  0 <= n <= page_count a ->
  (forall p, n <= p < page_count a -> can_release_reference (sp_pages s) (membership s j p) false = true) ->
  post (for_each (reverse (seqZ n (page_count a - n))) (drop_inactive_page j)) s
    (fun s' _ => dropped s H j a n (reverse (seqZ n (page_count a - n))) s') (fun _ _ => False).
Proof.
  intros Hn Hcan. set (l := reverse (seqZ n (page_count a - n))).
  assert (forall k x, l !! k = Some x -> x = page_count a - 1 - Z.of_nat k /\ n <= x) as Hl.
  { intros k x Hk. pose proof (lookup_lt_Some _ _ _ Hk) as Hlt. unfold l in *. rewrite length_reverse, length_seqZ in Hlt.
    rewrite reverse_lookup in Hk by (rewrite length_seqZ; lia). rewrite length_seqZ in Hk.
    apply lookup_seqZ in Hk as [-> ?]. lia. }
  pose proof (for_each_post l (drop_inactive_page j)
    (fun done s' => dropped s H j a (page_count a - Z.of_nat (length done)) done s') (fun _ _ => False) s) as Hloop.
  cbn beta in Hloop. assert (page_count a - Z.of_nat (length l) = n) as Hlen.
  { unfold l. rewrite length_reverse, length_seqZ. lia. }
  rewrite Hlen in Hloop. apply Hloop.
  - rewrite Z.sub_0_r. apply dropped_start.
  - intros done x rest s' Heq Hd. destruct (Hl (length done) x) as [Hx Hnx].
    { rewrite Heq, lookup_app_r, Nat.sub_diag by lia. done. }
    assert (forall q, q ∈ done -> n <= q < page_count a /\ q <> x) as Hdone.
    { intros q [k Hk]%list_elem_of_lookup. pose proof (lookup_lt_Some _ _ _ Hk).
      destruct (Hl k q) as [-> ?]; [by rewrite Heq, lookup_app_l|]. lia. }
    eapply post_weaken; [apply (drop_inactive_page_post _ _ _ _ Hd)|].
    + lia.
    + intros Hin. by destruct (Hdone x Hin).
    + apply Forall_forall. intros q Hq. destruct (Hdone q Hq). lia.
    + apply Hcan. lia.
    + intros s'' u Hd'. rewrite length_app. cbn. by replace (page_count a - Z.of_nat (length done + 1)) with x by lia.
Qed.
End loops.

(** ** Releasing an address *)

Lemma can_release_spec s H h :
  core s H -> can_release s h = true ->
  exists a, address_of s h = Some a /\ ad_active a = false /\
    forall p, 0 <= p < page_count a -> can_release_reference (sp_pages s) (membership s (ah_index h) p) false = true.
Proof.
  intros Hc. unfold can_release. destruct (address_of s h) as [a|] eqn:Ha; [|done]. intros [Hb Hall]%andb_true_iff.
  exists a. apply negb_true_iff in Hb. rewrite (is_bound_active s H (ah_index h)) in Hb by (done || by apply address_of_at).
  split_and!; [done|done|]. intros p Hp. rewrite forallb_forall in Hall. apply Hall, list_elem_of_In.
  apply elem_of_memberships. by exists p.
Qed.

(** An occupied address is not on the free stack, so there is room for it. *)
Lemma free_push s s' j a a' :
  free_ok s -> address_at s j = Some a -> ad_occupied a = true ->
  addresses_ s' = set_index (addresses_ s) j a' -> ad_occupied a' = false ->
  sp_free s' = set_index (sp_free s) (sp_free_count s) j -> sp_free_count s' = sp_free_count s + 1 ->
  sp_free_count s < Z.of_nat (length (sp_free s)) /\ free_ok s'.
Proof.
  intros [Hfl Hfn Hfd Hff] Ha Hocc Haddr Hocc' Hfree Hcount. pose proof (at_index_lt _ _ _ Ha) as Hj.
  assert (j ∉ free_addresses s) as Hnj.
  { rewrite Hff. intros (b & Hb & Hbo). congruence. }
  assert (sp_free_count s < Z.of_nat (length (sp_free s))) as Hlt.
  { assert (j :: free_addresses s ⊆+ seqZ 0 (Z.of_nat (length (addresses_ s)))) as Hsub%submseteq_length.
    { apply NoDup_submseteq; [by constructor|]. intros k Hk. rewrite elem_of_seqZ.
      apply elem_of_cons in Hk as [->|(b & Hb%at_index_lt & _)%Hff]; lia. }
    cbn in Hsub. rewrite length_seqZ in Hsub. unfold free_addresses in Hsub. rewrite length_take in Hsub. lia. }
  split; [done|].
  assert (free_addresses s' = free_addresses s ++ [j]) as Hfa.
  { unfold free_addresses. rewrite Hfree, Hcount. unfold set_index.
    replace (Z.to_nat (sp_free_count s + 1)) with (S (Z.to_nat (sp_free_count s))) by lia.
    rewrite (take_S_r _ _ j) by (apply list_lookup_insert_eq; lia). by rewrite take_insert_ge by lia. }
  split.
  - by rewrite Hfree, Haddr, !length_set_index.
  - rewrite Hcount, Haddr, length_set_index. lia.
  - rewrite Hfa. apply NoDup_app. split_and!; [done| |apply NoDup_singleton].
    intros k Hk Heq%list_elem_of_singleton. congruence.
  - intros k. rewrite Hfa, elem_of_app, list_elem_of_singleton, Hff, (address_at_set s s' j a a' k Ha Haddr).
    case_decide as Hk.
    + subst k. split; [intros _; by exists a'|by right].
    + split; [intros [?|?]; done|by left].
Qed.

Lemma release_post s H h :
  spaces_inv s H ->
  post (release h) s (fun s' ok => spaces_inv s' H /\ (ok = false -> s' = s) /\ ok = can_release s h) (fun _ _ => False).
Proof.
  intros [Hc Hp]. unfold release. apply post_noexcept, post_get. destruct (can_release s h) eqn:Hcan; cbn [negb].
  2: { by apply post_ret. }
  destruct (can_release_spec s H h Hc Hcan) as (a & Haddr & Hact & Hmem). set (j := ah_index h) in *.
  pose proof (address_of_at _ _ _ Haddr) as Ha. fold j in Ha. pose proof (address_of_occupied _ _ _ Haddr) as Hocc.
  pose proof (si_address _ _ Hc _ _ Ha) as Hok. pose proof (ao_count _ _ _ Hok) as Hcnt.
  pose proof (si_size _ _ Hc). pose proof (fo_count _ (si_free _ _ Hc)). pose proof (fo_length _ (si_free _ _ Hc)) as Hfl.
  apply (post_address _ a); [done|]. eapply post_bind.
  { unfold for_pages. apply (for_each_post _ _ (fun done s' => dropped s H j a (page_count a) done s')).
    - by apply dropped_start.
    - intros done x rest s' Heq Hd.
      assert (forall k y, (done ++ [x]) !! k = Some y -> y = Z.of_nat k /\ 0 <= y < page_count a) as Hl.
      { intros k y Hk. assert (seqZ 0 (page_count a - 0) !! k = Some y) as [-> ?]%lookup_seqZ; [|lia].
        rewrite Heq, (cons_middle x), app_assoc. apply lookup_app_l_Some. done. }
      destruct (Hl (length done) x) as [Hx Hxr]; [by rewrite lookup_app_r, Nat.sub_diag by lia|].
      assert (forall q, q ∈ done -> 0 <= q < page_count a /\ q <> x) as Hdone.
      { intros q [k Hk]%list_elem_of_lookup. pose proof (lookup_lt_Some _ _ _ Hk).
        destruct (Hl k q) as [-> ?]; [by rewrite lookup_app_l|]. lia. }
      apply (release_member_post s H j a Hc Ha); [done|done| | |by apply Hmem].
      + intros Hin. by destruct (Hdone x Hin).
      + apply Forall_forall. intros q Hq. by destruct (Hdone q Hq). }
  intros s1 [] Hd. set (a' := mkAddress _ 0 0 0 null_reservation None false false).
  eapply post_eq; [reflexivity|]. apply post_get. set (s2 := set_addresses _ s1).
  destruct (dr_free _ _ _ _ _ _ _ Hd) as [Hfree Hcount].
  change (sp_free_count s2) with (sp_free_count s1). change (sp_free s2) with (sp_free s1). rewrite Hfree, Hcount.
  set (s3 := set_sp_free (set_index (sp_free s) (sp_free_count s) j) (sp_free_count s + 1) s2).
  assert (addresses_ s3 = set_index (addresses_ s) j a') as Haddr3.
  { unfold s3, s2. cbn. rewrite (dr_addresses _ _ _ _ _ _ _ Hd). unfold set_index. by rewrite list_insert_insert_eq. }
  destruct (free_push s s3 j a a' (si_free _ _ Hc) Ha Hocc Haddr3 eq_refl eq_refl eq_refl) as [Hroom Hfree3].
  rewrite w32_small by lia.
  destruct (Z.ltb_spec (sp_free_count s) (Z.of_nat (length (sp_free s)))); [|lia].
  eapply post_eq; [reflexivity|]. fold s3.
  assert (core s3 H) as Hc3.
  { pose proof (ao_generation _ _ _ Hok). pose proof (increment_generation_range (ad_generation a) ltac:(lia)).
    destruct Hd as [D1 D2 D3 _ _ D6 D7 D8 D9].
    apply (drop_core s s3 H j 0 a a' (sp_pages s1) (membership s j <$> seqZ 0 (page_count a - 0))); try done; try lia.
    - intros k p Hpr Hor. change (membership s3 k p) with (membership s1 k p). rewrite D7 by done.
      rewrite decide_False; [done|]. intros [-> Hin%elem_of_seqZ]. lia.
    - intros p Hpr. change (membership s3 j p) with (membership s1 j p). rewrite D7 by done. case_decide as Hin; [done|].
      rewrite elem_of_seqZ in Hin. apply (ao_empty _ _ _ Hok). lia.
    - pose proof (ao_frontier _ _ _ Hok). cbn [checkpoint_frontier frontier a']. lia. }
  destruct (rebuild_spec s3 H Hc3) as (S' & Heq & _ & Hinv). eapply post_eq; [exact Heq|]. by apply post_ret.
Qed.

(** Releasing an address that may still be active. *)
Lemma release_after_deactivate_post s H h :
  spaces_inv s H ->
  post (release_after_deactivate h) s (fun s' ok => spaces_inv s' H /\ (ok = false -> s' = s)) (fun _ _ => False).
Proof.
  intros Hinv. pose proof (proj1 Hinv) as Hc. unfold release_after_deactivate. apply post_noexcept, post_get.
  destruct (can_release_after_deactivate s h) eqn:Hcan; cbn [negb]; [|by apply post_ret].
  unfold can_release_after_deactivate in Hcan. destruct (address_of s h) as [a|] eqn:Haddr; [|done].
  pose proof (address_of_at _ _ _ Haddr) as Ha. apply (post_address _ a); [done|].
  destruct (ad_active a) eqn:Hact; cbn [negb] in Hcan.
  - apply andb_true_iff in Hcan as [_ Hall]. eapply post_bind.
    { eapply post_except; [by apply (deactivate_post s H)|]. intros s' e [_ Hna]. specialize (Hna a Haddr). congruence. }
    intros s1 [] (Hinv1 & b & [Hb Hb' Hself Hlen Hmem Hcap Hpages]).
    assert (b = a) as -> by congruence. set (a1 := set_binding null_reservation None false a) in *.
    assert (address_of s1 h = Some a1) as Haddr1.
    { apply address_of_Some in Haddr as (Ho & _ & Hocc & Hg). apply address_of_Some. by rewrite Hself. }
    assert (can_release s1 h = true) as Hcan1.
    { unfold can_release. rewrite Haddr1. apply andb_true_iff. split; [done|].
      apply forallb_forall. intros x Hx%list_elem_of_In.
      assert (memberships_of s1 (ah_index h) (page_count a1) = members s (ah_index h) a) as Hms.
      { apply memberships_of_ext. intros p _. unfold membership, membership_index. by rewrite Hmem, Hcap. }
      rewrite Hms in Hx. rewrite forallb_forall in Hall. specialize (Hall x ltac:(by apply list_elem_of_In)).
      unfold can_release_reference_after_active_reference, can_release_reference, query in *.
      destruct (page_of (sp_pages s) x) as [pg|] eqn:Hpg; [|done]. rewrite (Hpages x pg Hx Hpg).
      bool_facts. cbn. rewrite !negb_true_iff, !orb_false_iff. split_and!; try done; lia. }
    eapply post_bind; [by apply (release_post s1 H)|]. intros s2 ok (Hinv2 & _ & ->). rewrite Hcan1.
    eapply post_eq; [reflexivity|]. by apply post_ret.
  - eapply post_eq; [reflexivity|]. eapply post_bind; [by apply (release_post s H)|].
    intros s2 ok (Hinv2 & _ & ->). rewrite Hcan. eapply post_eq; [reflexivity|]. by apply post_ret.
Qed.

(** A new active address. *)
Lemma create_active_post s H entitlement row :
  spaces_inv s H -> 0 <= entitlement ->
  post (create_active entitlement row) s (fun s' _ => spaces_inv s' H)
    (fun s' e => spaces_inv s' H /\ e <> Terminate).
Proof.
  intros Hinv Hent. unfold create_active. apply post_get. destruct (_ || _); [by apply post_ret|].
  eapply post_bind.
  { eapply post_except; [by apply (create_inactive_post s H)|done]. }
  intros s1 [h|] (Hinv1 & _); [|by apply post_ret].
  pose proof (activate_post s1 H h entitlement row Hinv1 Hent) as Hact.
  unfold post in *. cbv [mbind M_bind]. unfold on_throw. destruct (activate h entitlement row s1) as [s2 [[]|e]]; [done|].
  destruct Hact as (Hinv2 & _ & He). pose proof (release_post s2 H h Hinv2) as Hrel. unfold post in Hrel.
  cbv [mbind M_bind]. by destruct (release h s2) as [s3 [ok|e']]; [destruct Hrel|].
Qed.
