(* ===== verification/KVAddressTruncate.v ===== *)
(** * Address spaces: truncating an inactive address

    The pages beyond the new frontier are given back, last first; a destructive truncation also cuts
    the last page that stays.  Afterwards the checkpoints are protected anew. *)

From S2P Require Import Prelude Post Extents Tensor KVGeometry DevicePagePool DevicePoolInvariant DevicePoolOps ExecutionTables KVPages KVPagesInvariant KVPagesSpec KVAddress KVAddressPages KVAddressInvariant KVAddressUpdate KVAddressProtect KVAddressOps KVAddressExclusive KVAddressActivation KVAddressRelease.
Import LogicalKVPageStore KVAddressSpaceStore.

(** ** Giving back the last pages *)

Lemma suffix_releasable_spec s i n count :
  suffix_releasable s i n count = true ->
  forall p, n <= p < count -> can_release_reference (sp_pages s) (membership s i p) false = true.
Proof.
  unfold suffix_releasable. intros Hall p Hp. rewrite forallb_forall in Hall. apply Hall, list_elem_of_In, elem_of_seqZ. lia.
Qed.

(** The invariant once the suffix is gone and the frontier is set. *)
Lemma truncated_core s H s1 s2 j n a front checkpoint :
  core s H -> address_at s j = Some a -> ad_active a = false -> ad_occupied a = true -> 0 <= n <= page_count a ->
  dropped s H j a n (reverse (seqZ n (page_count a - n))) s1 ->
  s2 = set_addresses (set_index (addresses_ s1) j (set_extent n front checkpoint a)) s1 ->
  0 <= checkpoint <= front -> front <= kPagedKVPageSize * n -> front <= frontier a ->
  core s2 H.
Proof.
  intros Hc Ha Hact Hocc Hn [D1 D2 D3 [D4 D5] D6 D7 D8 D9 D10] Hs2 Hcp Hfn Hfr.
  pose proof (si_address _ _ Hc _ _ Ha) as Hok. pose proof (ao_count _ _ _ Hok).
  set (a2 := set_extent n front checkpoint a) in *. destruct (ao_unbound _ _ _ Hok Hact).
  assert (addresses_ s2 = set_index (addresses_ s) j a2) as Haddr.
  { rewrite Hs2. cbn. rewrite D6. unfold set_index. by rewrite list_insert_insert_eq. }
  assert (memberships_ s2 = memberships_ s1 /\ page_capacity_ s2 = page_capacity_ s1) as [Em Ec] by by rewrite Hs2.
  assert (forall k p, membership s2 k p = membership s1 k p) as Hm.
  { intros k p. unfold membership, membership_index. by rewrite Em, Ec. }
  apply (drop_core s s2 H j n a a2 (sp_pages s1) (membership s j <$> reverse (seqZ n (page_count a - n)))); try done.
  - unfold suffix. by rewrite reverse_Permutation.
  - by rewrite Hs2.
  - by rewrite Hs2.
  - by rewrite Hs2.
  - by rewrite Ec.
  - by rewrite Em.
  - intros k p Hpr Hor. rewrite Hm, D8 by done. rewrite decide_False; [done|].
    rewrite elem_of_reverse, elem_of_seqZ. lia.
  - intros p Hpr. rewrite Hm, D8 by lia. case_decide as Hin; [done|].
    rewrite elem_of_reverse, elem_of_seqZ in Hin. apply (ao_empty _ _ _ Hok). lia.
  - apply (ao_generation _ _ _ Hok).
  - cbn. congruence.
  - eapply free_ok_same; [apply (si_free _ _ Hc)|exact Ha|exact Haddr|done|by rewrite Hs2|by rewrite Hs2].
Qed.

Lemma truncate_inactive_prefix_post s H h front :
  spaces_inv s H -> 0 <= front ->
  post (truncate_inactive_prefix h front) s (fun s' _ => spaces_inv s' H) (unchanged s).
Proof.
  intros [Hc Hp] Hf. unfold truncate_inactive_prefix. apply post_get, post_throw_if; [auto|].
  intros Hcan%negb_false_iff. apply post_require; [auto|]. intros a Haddr.
  unfold can_truncate_inactive_prefix in Hcan. rewrite Haddr in Hcan. apply andb_true_iff in Hcan as [Hg Hsuf].
  rewrite negb_true_iff, orb_false_iff in Hg. destruct Hg as [Hb Hle]. bool_facts.
  pose proof (address_of_at _ _ _ Haddr) as Ha. pose proof (address_of_occupied _ _ _ Haddr) as Hocc.
  rewrite (is_bound_active s H _ _ Hc Ha) in Hb. set (j := ah_index h) in *.
  pose proof (si_address _ _ Hc _ _ Ha) as Hok. pose proof (ao_frontier _ _ _ Hok). pose proof (ao_count _ _ _ Hok).
  pose proof (pages_for_tokens_le front (page_count a) Hf ltac:(lia) ltac:(lia)).
  pose proof (pages_for_tokens_nonneg front Hf). set (n := pages_for_tokens front) in *.
  pose proof (drop_inactive_pages_post s H j a Hc Ha n ltac:(lia) (suffix_releasable_spec _ _ _ _ Hsuf)) as Hdrop.
  eapply post_bind; [exact (post_except _ _ _ _ (unchanged s) Hdrop (fun _ _ F => match F with end))|].
  intros s1 [] Hd. eapply post_eq; [exact (modify_address_eq j _ _ s1 (dropped_address s H j a Ha n _ s1 Hd))|].
  cbn [page_count frontier checkpoint_frontier set_extent].
  match goal with |- context [set_addresses (set_index _ j ?b) s1] =>
    change b with (set_extent n front (Z.min (checkpoint_frontier a) front) a) end.
  set (s2 := set_addresses _ s1).
  assert (core s2 H) as Hc2.
  { eapply (truncated_core s H s1 s2 j n a front); try done; [lia|].
    by apply pages_for_tokens_cover. }
  destruct (rebuild_spec s2 H Hc2) as (S' & Heq & _ & Hinv). by apply (post_end _ _ _ _ _ _ Heq).
Qed.

(** ** Cutting the last page *)

(** The tail after the drop is the page it was. *)
Lemma dropped_page s H j a n s1 p :
  core s H -> address_at s j = Some a -> dropped s H j a n (reverse (seqZ n (page_count a - n))) s1 ->
  0 <= p < n -> n <= page_count a ->
  membership s1 j p = membership s j p /\
  page_of (sp_pages s1) (membership s j p) = page_of (sp_pages s) (membership s j p).
Proof.
  intros Hc Ha Hd Hp Hn. pose proof (si_address _ _ Hc _ _ Ha) as Hok. pose proof (ao_count _ _ _ Hok). split.
  - rewrite (dr_members _ _ _ _ _ _ _ Hd) by lia. rewrite decide_False; [done|].
    rewrite elem_of_reverse, elem_of_seqZ. lia.
  - destruct (dr_back _ _ _ _ _ _ _ Hd) as [Hs Hl _ Hsame]. apply page_of_same; [done..|]. apply Hsame.
    unfold indices. rewrite <- list_fmap_compose. intros (q & Heq & Hq)%list_elem_of_fmap. cbn in Heq.
    rewrite elem_of_reverse, elem_of_seqZ in Hq.
    pose proof (NoDup_lookup (indices (members s j a)) (Z.to_nat p) (Z.to_nat q) (lh_index (membership s j p))
      (ao_distinct _ _ _ Hok)) as Hsm.
    unfold indices, members in Hsm. rewrite !list_lookup_fmap, !memberships_of_lookup in Hsm by lia.
    cbn in Hsm. rewrite Heq in Hsm. specialize (Hsm eq_refl eq_refl). lia.
Qed.

Lemma cut_inactive_counts n pg : same_counts pg (cut_inactive n pg).
Proof. unfold cut_inactive, cut_content. by destruct (negb _). Qed.

Lemma cut_inactive_committed n pg : committed_columns_ (cut_inactive n pg) = n.
Proof. unfold cut_inactive. cbn. apply cut_content_committed. Qed.

Lemma cut_tail_post s H j a front s1 :
  core s H -> address_at s j = Some a -> ad_active a = false -> ad_occupied a = true ->
  0 <= front <= frontier a -> let n := pages_for_tokens front in
  dropped s H j a n (reverse (seqZ n (page_count a - n))) s1 ->
  (n <> 0 -> exists committed, committed_columns (sp_pages s) (membership s j (n - 1)) = Ok committed /\
    (tail_extent front n = committed \/
     LogicalKVPageStore.can_destructive_truncate_inactive (sp_pages s) (membership s j (n - 1)) (tail_extent front n) = true)) ->
  post (cut_tail j front n) s1 (fun s2 _ =>
    core (set_addresses (set_index (addresses_ s2) j (set_extent n front 0 a)) s2) H /\
    address_at s2 j = Some (set_extent n (frontier a) (checkpoint_frontier a) a)) (fun _ _ => False).
Proof.
  intros Hc Ha Hact Hocc Hf n Hd Htail. pose proof (si_address _ _ Hc _ _ Ha) as Hok.
  pose proof (ao_frontier _ _ _ Hok). pose proof (ao_count _ _ _ Hok).
  pose proof (pages_for_tokens_le front (page_count a) ltac:(lia) ltac:(lia) ltac:(lia)) as Hle.
  pose proof (pages_for_tokens_nonneg front ltac:(lia)). pose proof (pages_for_tokens_cover front ltac:(lia)).
  fold n in Hle |- *. set (a2 := set_extent n front 0 a). set (s2 := set_addresses (set_index (addresses_ s1) j a2) s1).
  pose proof (dropped_address s H j a Ha n _ s1 Hd) as Ha1.
  assert (core s2 H) as Hc2 by (eapply (truncated_core s H s1 s2 j n a front 0); done || lia).
  unfold cut_tail. destruct (Z.eqb_spec n 0) as [Hz|Hz]; cbn [negb]; [by apply post_ret|].
  destruct (Htail Hz) as (committed & Hcm & Hcut).
  destruct (dropped_page s H j a n s1 (n - 1) Hc Ha Hd ltac:(lia) Hle) as [Hm Hp].
  assert (0 < front) as Hpos.
  { destruct (decide (front = 0)) as [E|]; [|lia]. exfalso. apply Hz. unfold n. by rewrite E. }
  destruct (tail_extent_eq front ltac:(lia)) as [_ Hext]. fold n in Hext.
  eapply post_eq; [reflexivity|]. rewrite Hm. set (h := membership s j (n - 1)) in *.
  unfold committed_columns, LogicalKVPageStore.require in Hcm.
  destruct (page_of (sp_pages s) h) as [pg|] eqn:Hpg; [|done]. injection Hcm as <-.
  eapply post_pure; [reflexivity| |]; unfold committed_columns, LogicalKVPageStore.require; rewrite Hp; [done|].
  intros c [= <-]. destruct (Z.eqb_spec (tail_extent front n) (committed_columns_ pg)) as [|Hne]; cbn [negb].
  { by apply post_ret. }
  destruct Hcut as [?|Hcan]; [done|]. unfold LogicalKVPageStore.can_destructive_truncate_inactive, query in Hcan.
  rewrite Hpg in Hcan. pose proof Hcan as Hguard; revert Hguard. bool_facts. intros Hguard.
  assert (host_replica_ pg = None) as Hhost by by apply has_None.
  pose proof Hp as (_ & Hi & Hpo & _)%page_of_Some.
  assert (page_of (sp_pages s2) h = Some pg) as Hpg2 by done.
  assert (address_at s2 j = Some a2) as Ha2.
  { rewrite (address_at_set s1 s2 j _ a2 j Ha1 eq_refl). by rewrite decide_True. }
  assert (membership s2 j (n - 1) = h) as Hm2 by done.
  assert (h ∈ members s2 j a2) as Hin.
  { apply elem_of_memberships. exists (n - 1). split; [cbn; lia|done]. }
  pose proof (page_of_ok _ _ _ (kv_desc _ _ _ (si_pages _ _ Hc2)) Hpg2) as Hpok.
  eapply post_end.
  { unfold on_pages, LogicalKVPageStore.destructive_truncate_inactive,
      LogicalKVPageStore.can_destructive_truncate_inactive, query, LogicalKVPageStore.require, write_page. unfold_M.
    rewrite Hp, Hguard. cbn [negb]. reflexivity. }
  split; [|done]. pose proof (written_core s2 H j a2 h pg (cut_inactive (tail_extent front n) pg) Hc2 Ha2 Hin Hpg2) as Hw.
  apply Hw; [done..|apply cut_inactive_step; done || lia|apply cut_inactive_counts|].
  intros p Hpn Hlt Hmp. rewrite cut_inactive_committed. rewrite <- Hm2 in Hmp.
  by apply (tail_covers s2 H j a2 front Hc2 Ha2).
Qed.

Lemma destructive_truncate_inactive_post s H h front :
  spaces_inv s H -> 0 <= front ->
  post (destructive_truncate_inactive h front) s (fun s' _ => spaces_inv s' H) (unchanged s).
Proof.
  intros [Hc Hp] Hf. unfold destructive_truncate_inactive. apply post_get, post_throw_if; [auto|].
  intros Hcan%negb_false_iff. apply post_require; [auto|]. intros a Haddr.
  unfold can_destructive_truncate_inactive in Hcan. rewrite Haddr in Hcan.
  apply andb_true_iff in Hcan as [[Hg Hsuf]%andb_true_iff Htail].
  rewrite negb_true_iff, orb_false_iff in Hg. destruct Hg as [Hb Hle]. bool_facts.
  pose proof (address_of_at _ _ _ Haddr) as Ha. pose proof (address_of_occupied _ _ _ Haddr) as Hocc.
  rewrite (is_bound_active s H _ _ Hc Ha) in Hb. set (j := ah_index h) in *.
  pose proof (si_address _ _ Hc _ _ Ha) as Hok. pose proof (ao_frontier _ _ _ Hok). pose proof (ao_count _ _ _ Hok).
  pose proof (pages_for_tokens_le front (page_count a) Hf ltac:(lia) ltac:(lia)).
  pose proof (pages_for_tokens_nonneg front Hf). set (n := pages_for_tokens front) in *.
  pose proof (drop_inactive_pages_post s H j a Hc Ha n ltac:(lia) (suffix_releasable_spec _ _ _ _ Hsuf)) as Hdrop.
  eapply post_bind; [exact (post_except _ _ _ _ (unchanged s) Hdrop (fun _ _ F => match F with end))|].
  intros s1 [] Hd.
  eapply post_bind.
  { eapply post_except; [apply (cut_tail_post s H j a front s1)|]; try done.
    intros Hz. destruct (Z.eqb_spec n 0); [done|]. cbn [negb] in Htail.
    destruct (committed_columns _ _) as [c|]; [|done]. exists c. split; [done|].
    apply orb_true_iff in Htail as [?%Z.eqb_eq|?]; auto. }
  intros s2 [] [Hc2 Ha2]. eapply post_eq; [by apply modify_address_eq|].
  destruct (rebuild_spec _ H Hc2) as (S' & Heq & _ & Hinv). by apply (post_end _ _ _ _ _ _ Heq).
Qed.
