(* ===== verification/KVAddressSteady.v ===== *)
(** * Address spaces: what no call changes

    The identity of the store and the number of pages an address can have are fixed at construction:
    [steady] programs keep them, whether they return or throw. *)

From S2P Require Import Prelude KVGeometry DevicePagePool ExecutionTables KVPages KVAddress.
Import LogicalKVPageStore KVAddressSpaceStore.

Definition fixed (s s' : Spaces) : Prop := sp_self s' = sp_self s /\ page_capacity_ s' = page_capacity_ s.

Definition steady {A} (m : M Spaces A) : Prop := forall s, fixed s (m s).1.

#[export] Instance fixed_preorder : PreOrder fixed.
Proof. split; [done|]. intros x y z [] []. split; congruence. Qed.

(** ** Composition *)

Lemma steady_bind {A B} (m : M Spaces A) (k : A -> M Spaces B) :
  steady m -> (forall a, steady (k a)) -> steady (m ≫= k).
Proof.
  intros Hm Hk s. cbv [mbind M_bind]. specialize (Hm s). destruct (m s) as [s' [a|e]]; cbn in *; [|done].
  by etransitivity; [|apply Hk].
Qed.

Lemma steady_ret {A} (a : A) : steady (mret a).
Proof. done. Qed.

Lemma steady_throw {A} e : steady (@mthrow Spaces A e).
Proof. done. Qed.

Lemma steady_throw_if b e : steady (mthrow_if b e).
Proof. by intros s. Qed.

Lemma steady_get : steady mget.
Proof. done. Qed.

Lemma steady_on_pages {A} (m : M Store A) : steady (on_pages m).
Proof. intros s. unfold on_pages. by destruct (m (sp_pages s)). Qed.

Lemma steady_on_tables {A} (m : M KVExecutionTablePool A) : steady (on_tables m).
Proof. intros s. unfold on_tables. by destruct (m (sp_tables s)). Qed.

Lemma steady_on_device {A} (m : M DeviceKVPagePool A) : steady (on_device m).
Proof. apply steady_on_pages. Qed.

Lemma steady_ask {A} (f : Store -> result A) : steady (ask f).
Proof. done. Qed.

Lemma steady_on_throw {A} (m : M Spaces A) cleanup : steady m -> steady cleanup -> steady (on_throw m cleanup).
Proof.
  intros Hm Hc s. unfold on_throw. specialize (Hm s). destruct (m s) as [s' [a|e]]; cbn in *; [done|].
  specialize (Hc s'). etransitivity; [exact Hm|]. by destruct (cleanup s') as [s'' [[]|e']].
Qed.

Lemma steady_noexcept {A} (m : M Spaces A) : steady m -> steady (noexcept m).
Proof. intros Hm s. unfold noexcept. specialize (Hm s). by destruct (m s) as [s' [a|e]]. Qed.

Lemma steady_for_each {A} (l : list A) (f : A -> M Spaces unit) : (forall x, steady (f x)) -> steady (for_each l f).
Proof. intros Hf. induction l as [|x l IH]; cbn [for_each]; [done|]. by apply steady_bind. Qed.

Lemma steady_for_pages b e (f : Z -> M Spaces unit) : (forall p, steady (f p)) -> steady (for_pages b e f).
Proof. apply steady_for_each. Qed.

Lemma steady_put_address i a : steady (put_address i a).
Proof. done. Qed.

Lemma steady_put_membership i p h : steady (put_membership i p h).
Proof. done. Qed.

Lemma steady_release_row x : steady (release_row_lease x).
Proof. done. Qed.

(** One step of a program's structure. *)
Ltac steady_step :=
  intros; cbv beta;
  match goal with
  | |- steady (_ ≫= _) => apply steady_bind
  | |- steady (if ?b then _ else _) => destruct b
  | |- steady (match ?x with _ => _ end) => destruct x
  | |- steady (let _ := _ in _) => cbv zeta
  | _ => first [solve [auto with steady] | apply steady_on_throw | apply steady_noexcept | apply steady_for_pages
      | apply steady_for_each]
  end.

Create HintDb steady.
#[export] Hint Resolve steady_ret steady_throw steady_throw_if steady_get steady_on_pages steady_on_tables
  steady_on_device steady_ask steady_put_address steady_put_membership steady_release_row : steady.

(** [solve_steady f]: the program [f] is steady by its structure. *)
Ltac solve_steady := cbv zeta; repeat steady_step.

(** ** The calls *)

Lemma steady_get_address i : steady (get_address i).
Proof. intros s. unfold get_address. cbv [mbind M_bind mget]. by destruct (address_at s i). Qed.
Lemma steady_get_membership i p : steady (get_membership i p).
Proof. done. Qed.
Lemma steady_require h : steady (require h).
Proof. intros s. unfold require. cbv [mbind M_bind mget]. by destruct (address_of s h). Qed.
#[export] Hint Resolve steady_get_address steady_get_membership steady_require : steady.

Lemma steady_modify_address i f : steady (modify_address i f).
Proof. unfold modify_address. solve_steady. Qed.
Lemma steady_require_active h : steady (require_active h).
Proof. unfold require_active. solve_steady. Qed.
Lemma steady_reset_row x : steady (reset_row x).
Proof. unfold reset_row. solve_steady. Qed.
Lemma steady_destroy_reservation r : steady (destroy_reservation r).
Proof. unfold destroy_reservation. solve_steady. Qed.
#[export] Hint Resolve steady_modify_address steady_require_active steady_reset_row steady_destroy_reservation : steady.

Lemma steady_create_inactive : steady create_inactive.
Proof.
  intros s. unfold create_inactive, get_address. unfold_M. destruct (_ =? 0); [done|]. destruct (at_index _ _) as [i|]; [|done].
  destruct (address_at s i) as [a|]; [|done]. by destruct (ad_occupied a).
Qed.
Lemma steady_physical_pages hs : steady (physical_pages hs).
Proof. induction hs as [|h hs IH]; cbn [physical_pages]; solve_steady; done. Qed.
Lemma steady_missing_in hs : steady (missing_in hs).
Proof. induction hs as [|h hs IH]; cbn [missing_in]; solve_steady; done. Qed.
Lemma steady_put_memberships i hs : forall p, steady (put_memberships i p hs).
Proof. induction hs as [|h hs IH]; intros p; cbn [put_memberships]; solve_steady; apply IH. Qed.
Lemma steady_snapshot_walk hs : forall b shape, steady (snapshot_walk hs b shape).
Proof. induction hs as [|h hs IH]; intros b shape; cbn [snapshot_walk]; solve_steady; apply IH. Qed.
#[export] Hint Resolve steady_create_inactive steady_physical_pages steady_missing_in steady_put_memberships steady_snapshot_walk : steady.

Lemma steady_publish_row row b ps: steady (publish_row row b ps).
Proof. unfold publish_row. solve_steady. Qed.
#[export] Hint Resolve steady_publish_row : steady.

Lemma steady_publish_membership i: steady (publish_membership i).
Proof. unfold publish_membership. solve_steady. Qed.
#[export] Hint Resolve steady_publish_membership : steady.

Lemma steady_missing_device_pages h: steady (missing_device_pages h).
Proof. unfold missing_device_pages. solve_steady. Qed.
#[export] Hint Resolve steady_missing_device_pages : steady.

Lemma steady_prepare_activation h n row front: steady (prepare_activation h n row front).
Proof. unfold prepare_activation. solve_steady. Qed.
#[export] Hint Resolve steady_prepare_activation : steady.

Lemma steady_destroy_activation x: steady (destroy_activation x).
Proof. unfold destroy_activation. solve_steady. Qed.
#[export] Hint Resolve steady_destroy_activation : steady.

Lemma steady_check_activation x: steady (check_activation x).
Proof. unfold check_activation. solve_steady. Qed.
#[export] Hint Resolve steady_check_activation : steady.

Lemma steady_activate_page h: steady (activate_page h).
Proof. unfold activate_page. solve_steady. Qed.
#[export] Hint Resolve steady_activate_page : steady.

Lemma steady_bind_activation x: steady (bind_activation x).
Proof. unfold bind_activation. solve_steady. Qed.
#[export] Hint Resolve steady_bind_activation : steady.

Lemma steady_commit_activation x: steady (commit_activation x).
Proof. unfold commit_activation. solve_steady. Qed.
#[export] Hint Resolve steady_commit_activation : steady.

Lemma steady_activate h n row: steady (activate h n row).
Proof. unfold activate. solve_steady. Qed.
#[export] Hint Resolve steady_activate : steady.

Lemma steady_deactivate_page h: steady (deactivate_page h).
Proof. unfold deactivate_page. solve_steady. Qed.
#[export] Hint Resolve steady_deactivate_page : steady.

Lemma steady_deactivate h: steady (deactivate h).
Proof. unfold deactivate. solve_steady. Qed.
#[export] Hint Resolve steady_deactivate : steady.

Lemma steady_protect_checkpoint i a: steady (protect_checkpoint i a).
Proof. unfold protect_checkpoint. solve_steady. Qed.
#[export] Hint Resolve steady_protect_checkpoint : steady.

Lemma steady_clear_checkpoint i a: steady (clear_checkpoint i a).
Proof. unfold clear_checkpoint. solve_steady. Qed.
#[export] Hint Resolve steady_clear_checkpoint : steady.

Lemma steady_rebuild_checkpoint_protection : steady (rebuild_checkpoint_protection).
Proof. unfold rebuild_checkpoint_protection. solve_steady. Qed.
#[export] Hint Resolve steady_rebuild_checkpoint_protection : steady.

Lemma steady_set_checkpoint_requirement h front: steady (set_checkpoint_requirement h front).
Proof. unfold set_checkpoint_requirement. solve_steady. Qed.
#[export] Hint Resolve steady_set_checkpoint_requirement : steady.

Lemma steady_release_member i p: steady (release_member i p).
Proof. unfold release_member. solve_steady. Qed.
#[export] Hint Resolve steady_release_member : steady.

Lemma steady_push_free {A} i (k : unit -> M Spaces A) :
  (forall u, steady (k u)) ->
  steady (s ← mget;
    _ ← (if sp_free_count s <? Z.of_nat (length (sp_free s))
         then mput (set_sp_free (set_index (sp_free s) (sp_free_count s) i) (w32 (sp_free_count s + 1)) s)
         else mthrow Terminate);
    k tt).
Proof.
  intros Hk s. cbv [mbind M_bind mget mput]. destruct (_ <? _); [|done].
  etransitivity; [|apply Hk]. done.
Qed.

Lemma steady_release h : steady (release h).
Proof. unfold release. cbv zeta. repeat first [intros; apply (steady_push_free _ (fun _ => _))|steady_step]. Qed.
#[export] Hint Resolve steady_release : steady.

Lemma steady_release_after_deactivate h: steady (release_after_deactivate h).
Proof. unfold release_after_deactivate. solve_steady. Qed.
#[export] Hint Resolve steady_release_after_deactivate : steady.

Lemma steady_create_active n row: steady (create_active n row).
Proof. unfold create_active. solve_steady. Qed.
#[export] Hint Resolve steady_create_active : steady.

Lemma steady_require_prefix_fork x: steady (require_prefix_fork x).
Proof. unfold require_prefix_fork. solve_steady. Qed.
#[export] Hint Resolve steady_require_prefix_fork : steady.

Lemma steady_check_fork_source i full tail page: steady (check_fork_source i full tail page).
Proof. unfold check_fork_source. solve_steady. Qed.
#[export] Hint Resolve steady_check_fork_source : steady.

Lemma steady_prepare_prefix_fork a b front n row staged: steady (prepare_prefix_fork a b front n row staged).
Proof. unfold prepare_prefix_fork. solve_steady. Qed.
#[export] Hint Resolve steady_prepare_prefix_fork : steady.

Lemma steady_settle_prefix_fork_tail_source x: steady (settle_prefix_fork_tail_source x).
Proof. unfold settle_prefix_fork_tail_source. solve_steady. Qed.
#[export] Hint Resolve steady_settle_prefix_fork_tail_source : steady.

Lemma steady_complete_prefix_fork_after_tail_release x: steady (complete_prefix_fork_after_tail_release x).
Proof. unfold complete_prefix_fork_after_tail_release. solve_steady. Qed.
#[export] Hint Resolve steady_complete_prefix_fork_after_tail_release : steady.

Lemma steady_recheck_fork_source x page: steady (recheck_fork_source x page).
Proof. unfold recheck_fork_source. solve_steady. Qed.
#[export] Hint Resolve steady_recheck_fork_source : steady.

Lemma steady_share_page i j page: steady (share_page i j page).
Proof. unfold share_page. solve_steady. Qed.
#[export] Hint Resolve steady_share_page : steady.

Lemma steady_install_tail j page h: steady (install_tail j page h).
Proof. unfold install_tail. solve_steady. Qed.
#[export] Hint Resolve steady_install_tail : steady.

Lemma steady_commit_prefix_fork x: steady (commit_prefix_fork x).
Proof. unfold commit_prefix_fork. solve_steady. Qed.
#[export] Hint Resolve steady_commit_prefix_fork : steady.

Lemma steady_unpin_if_pinned i page: steady (unpin_if_pinned i page).
Proof. unfold unpin_if_pinned. solve_steady. Qed.
#[export] Hint Resolve steady_unpin_if_pinned : steady.

Lemma steady_abort_prefix_fork x: steady (abort_prefix_fork x).
Proof. unfold abort_prefix_fork. solve_steady. Qed.
#[export] Hint Resolve steady_abort_prefix_fork : steady.

Lemma steady_destroy_prefix_fork x: steady (destroy_prefix_fork x).
Proof. unfold destroy_prefix_fork. solve_steady. Qed.
#[export] Hint Resolve steady_destroy_prefix_fork : steady.

Lemma steady_active_snapshot_shape h front: steady (active_snapshot_shape h front).
Proof. unfold active_snapshot_shape. solve_steady. Qed.
#[export] Hint Resolve steady_active_snapshot_shape : steady.

Lemma steady_prepare_active_snapshot a b front: steady (prepare_active_snapshot a b front).
Proof. unfold prepare_active_snapshot. solve_steady. Qed.
#[export] Hint Resolve steady_prepare_active_snapshot : steady.

Lemma steady_require_active_snapshot x: steady (require_active_snapshot x).
Proof. unfold require_active_snapshot. solve_steady. Qed.
#[export] Hint Resolve steady_require_active_snapshot : steady.

Lemma steady_recheck_snapshot_source i page: steady (recheck_snapshot_source i page).
Proof. unfold recheck_snapshot_source. solve_steady. Qed.
#[export] Hint Resolve steady_recheck_snapshot_source : steady.

Lemma steady_snapshot_page i j page: steady (snapshot_page i j page).
Proof. unfold snapshot_page. solve_steady. Qed.
#[export] Hint Resolve steady_snapshot_page : steady.

Lemma steady_commit_active_snapshot x: steady (commit_active_snapshot x).
Proof. unfold commit_active_snapshot. solve_steady. Qed.
#[export] Hint Resolve steady_commit_active_snapshot : steady.

Lemma steady_abort_active_snapshot x: steady (abort_active_snapshot x).
Proof. unfold abort_active_snapshot. solve_steady. Qed.
#[export] Hint Resolve steady_abort_active_snapshot : steady.

Lemma steady_destroy_active_snapshot x: steady (destroy_active_snapshot x).
Proof. unfold destroy_active_snapshot. solve_steady. Qed.
#[export] Hint Resolve steady_destroy_active_snapshot : steady.

Lemma steady_resize_address_reservation i n: steady (resize_address_reservation i n).
Proof. unfold resize_address_reservation. solve_steady. Qed.
#[export] Hint Resolve steady_resize_address_reservation : steady.

Lemma steady_resize_entitlement h n: steady (resize_entitlement h n).
Proof. unfold resize_entitlement. solve_steady. Qed.
#[export] Hint Resolve steady_resize_entitlement : steady.

Lemma steady_release_growth_entitlement h: steady (release_growth_entitlement h).
Proof. unfold release_growth_entitlement. solve_steady. Qed.
#[export] Hint Resolve steady_release_growth_entitlement : steady.

Lemma steady_dematerialize_member i page: steady (dematerialize_member i page).
Proof. unfold dematerialize_member. solve_steady. Qed.
#[export] Hint Resolve steady_dematerialize_member : steady.

Lemma steady_ensure_mapped_to_tokens h n: steady (ensure_mapped_to_tokens h n).
Proof. unfold ensure_mapped_to_tokens. solve_steady. Qed.
#[export] Hint Resolve steady_ensure_mapped_to_tokens : steady.

Lemma steady_commit_page i front page: steady (commit_page i front page).
Proof. unfold commit_page. solve_steady. Qed.
#[export] Hint Resolve steady_commit_page : steady.

Lemma steady_commit_frontier h front: steady (commit_frontier h front).
Proof. unfold commit_frontier. solve_steady. Qed.
#[export] Hint Resolve steady_commit_frontier : steady.

Lemma steady_drop_active_page i page: steady (drop_active_page i page).
Proof. unfold drop_active_page. solve_steady. Qed.
#[export] Hint Resolve steady_drop_active_page : steady.

Lemma steady_destructive_truncate h front: steady (destructive_truncate h front).
Proof. unfold destructive_truncate. solve_steady. Qed.
#[export] Hint Resolve steady_destructive_truncate : steady.

Lemma steady_drop_inactive_page i page: steady (drop_inactive_page i page).
Proof. unfold drop_inactive_page. solve_steady. Qed.
#[export] Hint Resolve steady_drop_inactive_page : steady.

Lemma steady_cut_tail i front n: steady (cut_tail i front n).
Proof. unfold cut_tail. solve_steady. Qed.
#[export] Hint Resolve steady_cut_tail : steady.

Lemma steady_destructive_truncate_inactive h front: steady (destructive_truncate_inactive h front).
Proof. unfold destructive_truncate_inactive. solve_steady. Qed.
#[export] Hint Resolve steady_destructive_truncate_inactive : steady.

Lemma steady_truncate_inactive_prefix h front: steady (truncate_inactive_prefix h front).
Proof. unfold truncate_inactive_prefix. solve_steady. Qed.
#[export] Hint Resolve steady_truncate_inactive_prefix : steady.
