(* ===== verification/KVAddressSession.v ===== *)
(** * Address spaces: pages that move between device and host, and sessions

    Beside the address spaces, clients move the pages of inactive addresses to the host and back and
    hold page reservations.  These calls of [LogicalKVPageStore] keep everything the address spaces
    rely on: a page that has members or is a transfer destination stays what it was, and an active
    page stays on the device. *)

From S2P Require Import Prelude Post Extents Tensor KVGeometry DevicePagePool DevicePoolInvariant DevicePoolOps ExecutionTables KVPages KVPagesInvariant KVPagesSpec KVAddress KVAddressPages KVAddressInvariant KVAddressUpdate KVAddressProtect KVAddressOps KVAddressActivation KVAddressGrowth KVAddressShrink KVAddressShare KVAddressForks KVAddressForkCommit KVAddressForkAbort KVAddressSnapshots KVAddressSnapshotCommit KVAddressRelease KVAddressTruncate KVAddressSteady.
Import LogicalKVPageStore KVAddressSpaceStore.

(** ** One call *)

(** Pages with members also keep their protection. *)
Record moved (S S' : Store) : Prop := {
  mv_alike : store_alike S S';
  mv_protected : forall i pg, at_index (pages_ S) i = Some pg -> 1 <= references pg ->
    exists pg', at_index (pages_ S') i = Some pg' /\ protected_columns_ pg' = protected_columns_ pg;
}.

Lemma moved_refl S : moved S S.
Proof. split; [apply store_alike_refl|]. intros i pg Hi _. by exists pg. Qed.

Lemma moved_physical p S : moved S (set_physical p S).
Proof. split; [apply store_alike_physical|]. intros i pg Hi _. by exists pg. Qed.

Lemma moved_write S p h pg pg' :
  page_of S h = Some pg -> page_alike pg pg' -> protected_columns_ pg' = protected_columns_ pg ->
  moved S (set_page_at (lh_index h) pg' (set_physical p S)).
Proof.
  intros Hpg Hal Hpr. destruct (store_alike_write S h pg pg' Hpg (or_introl Hal)). split; [by split|].
  intros i q Hi _. apply page_of_Some in Hpg as (_ & Hpg & _).
  change (exists pg'', at_index (pages_ (set_page_at (lh_index h) pg' S)) i = Some pg'' /\ protected_columns_ pg'' = protected_columns_ q).
  rewrite (at_set_page_at S _ _ pg _ Hpg). case_decide as Heq; [|by exists q]. subst i. exists pg'. split; [done|congruence].
Qed.

Lemma moved_write_plain S h pg pg' :
  page_of S h = Some pg -> page_alike pg pg' -> protected_columns_ pg' = protected_columns_ pg ->
  moved S (set_page_at (lh_index h) pg' S).
Proof. intros. pose proof (moved_write S (physical_ S) h pg pg'). rewrite set_physical_same in *. auto. Qed.

(** A page that is not a transfer destination keeps its counts. *)
Lemma alike_page pg pg' :
  transfer_destination pg = false ->
  generation pg' = generation pg -> occupied pg' = occupied pg ->
  references pg' = references pg -> active_references pg' = active_references pg ->
  writer_references_ pg' = writer_references_ pg -> source_pins_ pg' = source_pins_ pg ->
  committed_columns_ pg' = committed_columns_ pg ->
  (0 < active_references pg -> has (device_replica pg) = true -> has (device_replica pg') = true) -> page_alike pg pg'.
Proof. intros Ht ? ? ? ? ? ? Hc ?. split; try done. split; [lia|congruence]. Qed.

Ltac no_transfer :=
  unfold transfer_destination;
  try match goal with
    | H : device_replica ?pg = None |- _ => rewrite H
    | H : host_replica_ ?pg = Some _ |- _ => rewrite H
  end; cbn [has]; rewrite ?andb_false_iff, ?negb_false_iff; intuition congruence.

Ltac alike_tac := apply alike_page; try done; first [lia | intros; congruence | no_transfer].

Lemma on_pool_alike {A} (m : M DeviceKVPagePool A) S : moved S (on_pool m S).1.
Proof. unfold on_pool. destruct (m (physical_ S)). apply moved_physical. Qed.

Lemma reserve_device_alike h r S : moved S (reserve_device_replica h r S).1.
Proof.
  unfold reserve_device_replica, LogicalKVPageStore.require, write_page, on_pool. unfold_M.
  destruct (page_of S h) as [pg|] eqn:Hpg; [|apply moved_refl].
  destruct (_ || _) eqn:Hg; [apply moved_refl|]. bool_facts.
  destruct (materialize_one r (physical_ S)) as [p [[r' x]|e]]; [|apply moved_physical].
  apply (moved_write S p h pg _ Hpg); [|done]. alike_tac.
Qed.

Lemma publish_device_alike h S : moved S (publish_device_replica h S).1.
Proof.
  unfold publish_device_replica, LogicalKVPageStore.require, write_page. unfold_M.
  destruct (page_of S h) as [pg|] eqn:Hpg; [|apply moved_refl].
  destruct (_ || _) eqn:Hg; [apply moved_refl|]. bool_facts.
  apply (moved_write_plain S h pg _ Hpg); [|done]. alike_tac.
Qed.

Lemma abort_device_alike h r S : desc_inv S -> moved S (abort_device_replica h r S).1.
Proof.
  intros Hd. unfold abort_device_replica, noexcept, on_pool, write_page. unfold_M.
  destruct (page_of S h) as [pg|] eqn:Hpg; [|apply moved_refl].
  destruct (pending_device_replica pg) as [x|] eqn:Hx; [|apply moved_refl].
  destruct (destination_pinned pg) eqn:Hpin; [|apply moved_refl].
  destruct (po_pending _ (page_of_ok _ _ _ Hd Hpg)) as [_ Hdev]; [by rewrite Hx|].
  destruct (dematerialize_one r x (physical_ S)) as [p [r'|e]]; [|apply moved_physical].
  apply (moved_write S p h pg _ Hpg); [|done]. alike_tac.
Qed.

Lemma drop_device_alike h S : moved S (drop_device_replica h S).1.
Proof.
  unfold drop_device_replica, can_drop_device_replica, query, reset_device, write_page. unfold_M.
  destruct (page_of S h) as [pg|] eqn:Hpg; [|apply moved_refl].
  destruct (_ && _) eqn:Hg; [|apply moved_refl]. bool_facts.
  apply (moved_write S _ h pg _ Hpg); [|done]. alike_tac.
Qed.

Lemma attach_alike h replica S :
  (forall pg, page_of S h = Some pg -> transfer_destination pg = false) -> moved S (attach_host_replica h replica S).1.
Proof.
  intros Ht. unfold attach_host_replica, LogicalKVPageStore.require, write_page. unfold_M.
  destruct (page_of S h) as [pg|] eqn:Hpg; [|apply moved_refl].
  destruct (_ || _); [apply moved_refl|].
  apply (moved_write_plain S h pg _ Hpg); [|done]. apply alike_page; try done. by apply Ht.
Qed.

Lemma rebind_alike h expected replacement S : moved S (rebind_host_replica h expected replacement S).1.
Proof.
  unfold rebind_host_replica, write_page. unfold_M. destruct (page_of S h) as [pg|] eqn:Hpg; [|apply moved_refl].
  destruct (host_replica_ pg) as [host|] eqn:Hh; [|apply moved_refl].
  destruct (_ || _); [apply moved_refl|].
  apply (moved_write_plain S h pg _ Hpg); [|done]. alike_tac.
Qed.

Lemma detach_alike h extent S R : kv_inv S R [] -> moved S (detach_host_replica h extent S).1.
Proof.
  intros Hinv. pose proof (kv_desc _ _ _ Hinv) as Hd. unfold detach_host_replica, noexcept, write_page. unfold_M.
  destruct (page_of S h) as [pg|] eqn:Hpg; [|apply moved_refl].
  destruct (host_replica_ pg) as [host|] eqn:Hh; [|apply moved_refl].
  destruct (_ || _) eqn:Hg; [apply moved_refl|]. apply orb_false_iff in Hg as [_ Hg].
  set (pg1 := set_host None pg). pose proof (page_of_ok _ _ _ Hd Hpg) as Hok.
  assert (transfer_destination pg = false) as Ht by no_transfer.
  destruct ((references pg1 =? 0) && (source_pins_ pg1 =? 0) && negb (has (device_replica pg1))) eqn:Hfree.
  2: { apply (moved_write_plain S h pg _ Hpg); [|done]. alike_tac. }
  bool_facts. pose proof Hpg as (_ & Hi & Hocc & _)%page_of_Some.
  assert (page_step pg pg1) as Hstep by (unfold pg1 in *; page_step_tac).
  pose proof (write_page_inv _ _ _ _ _ _ Hinv Hpg Hstep) as Hinv1.
  pose proof (page_of_write S h pg pg1 Hpg Hocc eq_refl) as Hpg1. set (s1 := set_page_at (lh_index h) pg1 S) in *.
  pose proof Hpg1 as (_ & Hi1 & _)%page_of_Some. pose proof (po_refs _ Hok).
  destruct (store_leases_split s1 _ _ Hi1) as (rest & Hl & Hl').
  pose proof (kv_phys _ _ _ Hinv1) as Hp. rewrite app_nil_r, Hl in Hp. unfold page_leases in Hp.
  assert (device_replica pg1 = None) as Hdev by by apply has_None. rewrite Hdev in Hp. cbn [option_list app] in Hp.
  destruct (retire_call s1 R R h pg1 pg1 s1 (physical_ s1) rest []) as (s2 & -> & _ & Hev2 & Hpages); try done.
  { right. by rewrite set_physical_same. } { change (references pg = 0) in H. cbn. lia. } { by rewrite app_nil_r. }
  cbn [fst]. assert (forall i, at_index (pages_ s2) i = if decide (lh_index h = i) then Some (released_page pg1) else at_index (pages_ S) i) as Hat.
  { intros i. rewrite Hpages, (at_set_page_at s1 _ _ pg1 _ Hi1). unfold s1. rewrite (at_set_page_at S _ _ pg _ Hi). by repeat case_decide. }
  split; [split|].
  - apply Hev2.
  - rewrite Hpages. cbn. rewrite !length_set_index. done.
  - intros i q Hq. rewrite Hat. case_decide as Heq.
    + exists (released_page pg1). split; [done|]. right. assert (q = pg) as -> by congruence. done.
    + exists q. split; [done|left; apply page_alike_refl].
  - intros i q Hq Hr. rewrite Hat. rewrite decide_False; [by exists q|]. intros <-. assert (q = pg) as -> by congruence.
    change (references pg = 0) in H. lia.
Qed.

(** ** Storage calls keep the invariant of the address spaces *)

Lemma moved_inv s H S' R' :
  spaces_inv s H -> kv_inv S' (R' ++ addr_res s) [] -> moved (sp_pages s) S' ->
  spaces_inv (set_sp_pages S' s) (with_res R' H).
Proof.
  intros [Hc Hp] Hkv [Hal Hpr]. split; [by apply core_alike|].
  intros k b Hb p pg' Hn Hlt Hpg'. change (membership (set_sp_pages S' s) k p) with (membership s k p) in Hpg'.
  change (address_at s k = Some b) in Hb. pose proof (si_address _ _ Hc _ _ Hb) as Hok.
  pose proof (ao_count _ _ _ Hok). pose proof (ao_frontier _ _ _ Hok).
  destruct (member_page s H k b (membership s k p) Hc Hb) as (pg & Hpg & _ & _ & Hr).
  { apply elem_of_memberships. exists p. unfold kPagedKVPageSize in *. split; [lia|done]. }
  pose proof Hpg as (_ & Hi & _)%page_of_Some. destruct (Hpr _ _ Hi Hr) as (q & Hq & Heq).
  apply page_of_Some in Hpg' as (_ & Hq' & _). change (at_index (pages_ S') (lh_index (membership s k p)) = Some pg') in Hq'.
  assert (q = pg') as -> by congruence. rewrite Heq. by apply (Hp k b Hb p pg).
Qed.

(** A storage call: its result, if it is not an exception, belongs to the clients. *)
Definition storage_call {A} (s : Spaces) (H : Holders) (out : Spaces * result A) (R' : A -> list DeviceKVPageReservation) : Prop :=
  match out with
  | (s', Ok a) => spaces_inv s' (with_res (R' a) H) /\ s' = set_sp_pages (sp_pages s') s
  | (s', Throw e) => spaces_inv s' H /\ s' = set_sp_pages (sp_pages s') s /\ e <> Terminate
  end.

(** Calls that hold no reservation. *)
Lemma plain_storage {A} s H (m : M Store A) :
  spaces_inv s H -> plain_call (sp_pages s) (hd_res H ++ addr_res s) (m (sp_pages s)) ->
  moved (sp_pages s) (m (sp_pages s)).1 -> storage_call s H (on_pages m s) (fun _ => hd_res H).
Proof.
  intros Hinv (Hkv & _ & Hne) Hm. pose proof (moved_inv s H _ (hd_res H) Hinv Hkv Hm) as Hinv'. rewrite with_res_same in Hinv'.
  unfold storage_call, on_pages. destruct (m (sp_pages s)) as [S' [a|e]]; cbn in *.
  - rewrite with_res_same. by split.
  - split_and!; [done|done|congruence].
Qed.

Lemma local_storage {A} s H h (m : M Store A) :
  spaces_inv s H -> local_result (sp_pages s) h (m (sp_pages s)) -> moved (sp_pages s) (m (sp_pages s)).1 ->
  storage_call s H (on_pages m s) (fun _ => hd_res H).
Proof. intros Hinv Hl. apply plain_storage; [done|]. eapply local_result_inv; [apply (si_pages _ _ (proj1 Hinv))|done]. Qed.

Lemma publish_device_storage s H h : spaces_inv s H -> storage_call s H (on_pages (publish_device_replica h) s) (fun _ => hd_res H).
Proof.
  intros Hinv. apply (local_storage _ _ h); [done| |apply publish_device_alike].
  apply publish_device_replica_local, (kv_desc _ _ _ (si_pages _ _ (proj1 Hinv))).
Qed.

Lemma drop_device_storage s H h : spaces_inv s H -> storage_call s H (on_pages (drop_device_replica h) s) (fun _ => hd_res H).
Proof. intros Hinv. apply plain_storage; [done|apply drop_device_replica_call, (si_pages _ _ (proj1 Hinv))|apply drop_device_alike]. Qed.

(** The host replica of a page of some address. *)
Lemma attach_storage s H h replica :
  spaces_inv s H -> (forall pg, page_of (sp_pages s) h = Some pg -> 1 <= references pg) ->
  storage_call s H (on_pages (attach_host_replica h replica) s) (fun _ => hd_res H).
Proof.
  intros Hinv Hr. apply (local_storage _ _ h); [done| |apply attach_alike].
  - apply attach_host_replica_local, (kv_desc _ _ _ (si_pages _ _ (proj1 Hinv))).
  - intros pg Hpg. specialize (Hr pg Hpg). unfold transfer_destination. rewrite (proj2 (Z.eqb_neq (references pg) 0)) by lia.
    by rewrite !andb_false_r.
Qed.

Lemma rebind_storage s H h expected replacement :
  spaces_inv s H -> (exists pg, page_of (sp_pages s) h = Some pg /\ rebindable pg expected replacement) ->
  storage_call s H (on_pages (rebind_host_replica h expected replacement) s) (fun _ => hd_res H).
Proof.
  intros Hinv (pg & Hpg & Hre). apply (local_storage _ _ h); [done| |apply rebind_alike].
  eapply rebind_host_replica_local; [apply (kv_desc _ _ _ (si_pages _ _ (proj1 Hinv)))|done..].
Qed.

Lemma detach_storage s H h extent : spaces_inv s H -> storage_call s H (on_pages (detach_host_replica h extent) s) (fun _ => hd_res H).
Proof.
  intros Hinv. pose proof (si_pages _ _ (proj1 Hinv)) as Hkv.
  apply plain_storage; [done|by apply detach_host_replica_call|by eapply detach_alike].
Qed.

(** Calls with a client's reservation. *)
Lemma reserve_device_storage s H r R h :
  spaces_inv s (with_res (r :: R) H) ->
  storage_call s (with_res (r :: R) H) (on_pages (reserve_device_replica h r) s) (fun out => out.1 :: R).
Proof.
  intros Hinv. pose proof (reserve_device_replica_call _ _ 0 r h (si_pages _ _ (proj1 Hinv)) eq_refl) as Hcall.
  pose proof (reserve_device_alike h r (sp_pages s)) as Hm. unfold storage_call, on_pages, reservation_call in *.
  destruct (reserve_device_replica h r (sp_pages s)) as [S' [[r' x]|e]]; cbn [fst] in *.
  - destruct Hcall as [Hkv _]. split; [|done]. exact (moved_inv s (with_res (r :: R) H) S' (r' :: R) Hinv Hkv Hm).
  - destruct Hcall as [-> ?]. rewrite set_sp_pages_same. split_and!; [done|by rewrite set_sp_pages_same|done].
Qed.

Lemma abort_device_storage s H r R h :
  spaces_inv s (with_res (r :: R) H) ->
  storage_call s (with_res (r :: R) H) (on_pages (abort_device_replica h r) s) (fun r' => r' :: R).
Proof.
  intros Hinv. pose proof (si_pages _ _ (proj1 Hinv)) as Hkv.
  destruct (abort_device_replica_call _ _ 0 r h Hkv eq_refl) as (S' & r' & Heq & Hkv' & _).
  pose proof (abort_device_alike h r (sp_pages s) (kv_desc _ _ _ Hkv)) as Hm. rewrite Heq in Hm.
  unfold storage_call, on_pages. rewrite Heq. split; [|done]. exact (moved_inv s (with_res (r :: R) H) S' (r' :: R) Hinv Hkv' Hm).
Qed.

(** ** Sessions

    The clients of [KVAddressSpaceStore] hold page reservations, prepared activations, prepared
    forks and prepared snapshots; each is a claim on what the store shares.  A session is any sequence of calls with any
    handles, stale ones included, and any of the clients' objects; every call keeps the invariant of
    [KVAddressInvariant] and never terminates. *)

(** ** Claims *)

Inductive Client :=
  | ClientReservation (r : DeviceKVPageReservation)
  | ClientActivation (x : KVActivationReservation)
  | ClientFork (x : KVPrefixForkReservation)
  | ClientSnapshot (x : KVActiveSnapshotReservation).

Definition join (H H' : Holders) : Holders :=
  mkHolders (hd_res H ++ hd_res H') (hd_rows H ++ hd_rows H') (hd_pins H ++ hd_pins H') (hd_dests H ++ hd_dests H').

Definition nobody : Holders := mkHolders [] [] [] [].

(** What a client holds; [hs] are the source pages of a fork or a snapshot. *)
Definition claim (c : Client) (hs : list LogicalKVPageHandle) : Holders :=
  match c with
  | ClientReservation r => mkHolders [r] [] [] []
  | ClientActivation x => mkHolders [ac_page_reservation x] (option_list (ac_row x)) [] []
  | ClientFork x => mkHolders [fk_page_reservation x] (option_list (fk_row x))
      (pin_list (fk_source x) (fork_pinned x hs) (Z.to_nat (fk_full_pages x)) true)
      (dest_list (fk_tail_destination x) (fk_tail_columns x))
  | ClientSnapshot x => mkHolders [sn_tail_reservation x] []
      (pin_list (sn_source x) hs (Z.to_nat (full_pages (sn_shape x))) false)
      (dest_list (sn_tail_destination x) (tail_columns (sn_shape x)))
  end.

Fixpoint claims (l : list (Client * list LogicalKVPageHandle)) : Holders :=
  match l with
  | [] => nobody
  | (c, hs) :: l => join (claim c hs) (claims l)
  end.

Definition client_ok (s : Spaces) (z : Client * list LogicalKVPageHandle) : Prop :=
  match z.1 with
  | ClientFork x => fork_ok (sp_self s) (page_capacity_ s) x z.2
  | ClientSnapshot x => snapshot_ok (sp_self s) x z.2
  | _ => True
  end.

Lemma client_ok_fixed s s' z : fixed s s' -> client_ok s z -> client_ok s' z.
Proof. intros [Hs Hc]. unfold client_ok. destruct z.1; [done..| |]; by rewrite Hs, ?Hc. Qed.

(** The order of the claims does not matter. *)
Record same_holders (H H' : Holders) : Prop := {
  sm_res : hd_res H ≡ₚ hd_res H';
  sm_rows : hd_rows H ≡ₚ hd_rows H';
  sm_pins : hd_pins H ≡ₚ hd_pins H';
  sm_dests : hd_dests H ≡ₚ hd_dests H';
}.

#[export] Instance same_holders_equivalence : Equivalence same_holders.
Proof.
  split; [by split|intros H H' []; by split|]. intros H1 H2 H3 [] []. split; by etransitivity.
Qed.

#[export] Instance join_proper : Proper (same_holders ==> same_holders ==> same_holders) join.
Proof. intros H1 H1' [] H2 H2' []. split; cbn; by apply Permutation_app. Qed.

Lemma join_swap H1 H2 H3 : same_holders (join H1 (join H2 H3)) (join H2 (join H1 H3)).
Proof. split; cbn; apply Permutation_app_swap_app. Qed.

Lemma claims_middle l1 c hs l2 : same_holders (claims (l1 ++ (c, hs) :: l2)) (join (claim c hs) (claims (l1 ++ l2))).
Proof.
  induction l1 as [|[c1 h1] l1 IH]; cbn [app claims]; [done|]. rewrite IH. apply join_swap.
Qed.

Lemma spaces_inv_holders s H H' : same_holders H H' -> spaces_inv s H -> spaces_inv s H'.
Proof.
  intros [Er Ew Ep Ed] [[] Hp]. split; [|done]. split; try done.
  - eapply kv_inv_reservations; [|done]. by rewrite Er.
  - by rewrite <- Ew.
  - intros i pg Hi Ho. destruct (si_counts i pg Hi Ho). split; try done. rewrite pc_pins.
    by apply sum_with_Permutation.
  - by rewrite <- Ep.
  - destruct si_dests as [Hnd Hall]. split; [|by rewrite <- Ed]. unfold indices in *. by rewrite <- Ed.
Qed.

(** ** Calls *)

Record World := mkWorld { w_spaces : Spaces; w_clients : list Client }.

Inductive SpaceCall :=
  | SpaceCreate
  | SpaceCreateActive (n row : Z)
  | SpaceCheckpoint (h : KVAddressSpaceHandle) (front : Z)
  | SpaceResize (h : KVAddressSpaceHandle) (n : Z)
  | SpaceReleaseGrowth (h : KVAddressSpaceHandle)
  | SpaceActivate (h : KVAddressSpaceHandle) (n row : Z)
  | SpaceDeactivate (h : KVAddressSpaceHandle)
  | SpaceRelease (h : KVAddressSpaceHandle)
  | SpaceReleaseAfterDeactivate (h : KVAddressSpaceHandle)
  | SpaceEnsure (h : KVAddressSpaceHandle) (tokens : Z)
  | SpaceCommit (h : KVAddressSpaceHandle) (front : Z)
  | SpaceTruncate (h : KVAddressSpaceHandle) (front : Z)
  | SpaceTruncatePrefix (h : KVAddressSpaceHandle) (front : Z)
  | SpaceTruncateInactive (h : KVAddressSpaceHandle) (front : Z)
  | SpacePrepareActivation (h : KVAddressSpaceHandle) (n row : Z) (front : option Z)
  | SpaceCommitActivation (k : nat)
  | SpacePrepareFork (source destination : KVAddressSpaceHandle) (front n row : Z) (staged : bool)
  | SpaceSettleFork (k : nat)
  | SpaceCompleteFork (k : nat)
  | SpaceCommitFork (k : nat)
  | SpacePrepareSnapshot (source destination : KVAddressSpaceHandle) (front : Z)
  | SpaceCommitSnapshot (k : nat)
  | SpaceDestroy (k : nat)
  | SpaceReserve (n : Z)
  | SpaceResizeReservation (k : nat) (n : Z)
  | SpaceReserveDevice (h : LogicalKVPageHandle) (k : nat)
  | SpacePublishDevice (h : LogicalKVPageHandle)
  | SpaceAbortDevice (h : LogicalKVPageHandle) (k : nat)
  | SpaceDropDevice (h : LogicalKVPageHandle)
  | SpaceAttach (h : LogicalKVPageHandle) (replica : HostKVPageReplica)
  | SpaceRebind (h : LogicalKVPageHandle) (expected replacement : HostKVPageReplica)
  | SpaceDetach (h : LogicalKVPageHandle) (extent : HostKVExtentCapability).

(** Arguments are unsigned 32-bit numbers. *)
Definition space_range (c : SpaceCall) : Prop :=
  match c with
  | SpaceCreateActive n _ | SpaceCheckpoint _ n | SpaceResize _ n | SpaceActivate _ n _ | SpaceEnsure _ n
  | SpaceCommit _ n | SpaceTruncate _ n | SpaceTruncatePrefix _ n | SpaceTruncateInactive _ n
  | SpaceReserve n | SpaceResizeReservation _ n | SpacePrepareSnapshot _ _ n => 0 <= n <= u32_max
  | SpacePrepareActivation _ n _ front => 0 <= n <= u32_max /\ forall f, front = Some f -> 0 <= f <= u32_max
  | SpacePrepareFork _ _ front n _ _ => 0 <= front <= u32_max /\ 0 <= n <= u32_max
  | _ => True
  end.

(** What the store leaves to its callers: an active address is not cut below its checkpoint, host
    replicas are attached to pages that some address has, and rebound to what they hold. *)
Definition space_contract (s : Spaces) (c : SpaceCall) : Prop :=
  match c with
  | SpaceTruncate h front => forall a, address_of s h = Some a -> checkpoint_frontier a <= front
  | SpaceAttach h _ => forall pg, page_of (sp_pages s) h = Some pg -> 1 <= references pg
  | SpaceRebind h expected replacement =>
      exists pg, page_of (sp_pages s) h = Some pg /\ rebindable pg expected replacement
  | _ => True
  end.

(** A call on the store only. *)
Definition on_spaces {A} (m : M Spaces A) : M World unit := fun w =>
  match m (w_spaces w) with
  | (s, Ok _) => (mkWorld s (w_clients w), Ok tt)
  | (s, Throw e) => (mkWorld s (w_clients w), Throw e)
  end.

(** A call that gives its caller an object. *)
Definition with_new (m : M Spaces Client) : M World unit := fun w =>
  match m (w_spaces w) with
  | (s, Ok c) => (mkWorld s (c :: w_clients w), Ok tt)
  | (s, Throw e) => (mkWorld s (w_clients w), Throw e)
  end.

(** A call with the [k]-th object, which it replaces or consumes. *)
Definition with_client (k : nat) (f : Client -> M Spaces (option Client)) : M World unit := fun w =>
  match w_clients w !! k with
  | None => (w, Ok tt)
  | Some c =>
      match f c (w_spaces w) with
      | (s, Ok (Some c')) => (mkWorld s (<[k := c']> (w_clients w)), Ok tt)
      | (s, Ok None) => (mkWorld s (delete k (w_clients w)), Ok tt)
      | (s, Throw e) => (mkWorld s (w_clients w), Throw e)
      end
  end.

Definition with_fork (f : KVPrefixForkReservation -> M Spaces (option Client)) (c : Client) : M Spaces (option Client) :=
  match c with ClientFork x => f x | _ => mret (Some c) end.
Definition with_snapshot (f : KVActiveSnapshotReservation -> M Spaces (option Client)) (c : Client) : M Spaces (option Client) :=
  match c with ClientSnapshot x => f x | _ => mret (Some c) end.
Definition with_activation (f : KVActivationReservation -> M Spaces (option Client)) (c : Client) : M Spaces (option Client) :=
  match c with ClientActivation x => f x | _ => mret (Some c) end.
Definition with_reserved (f : DeviceKVPageReservation -> M Spaces DeviceKVPageReservation) (c : Client)
    : M Spaces (option Client) :=
  match c with ClientReservation r => r ← f r; mret (Some (ClientReservation r)) | _ => mret (Some c) end.

Definition destroy_client (c : Client) : M Spaces unit :=
  match c with
  | ClientReservation r => destroy_reservation r
  | ClientActivation x => destroy_activation x
  | ClientFork x => destroy_prefix_fork x
  | ClientSnapshot x => destroy_active_snapshot x
  end.

Definition run_space (c : SpaceCall) : M World unit :=
  match c with
  | SpaceCreate => on_spaces create_inactive
  | SpaceCreateActive n row => on_spaces (create_active n row)
  | SpaceCheckpoint h front => on_spaces (set_checkpoint_requirement h front)
  | SpaceResize h n => on_spaces (resize_entitlement h n)
  | SpaceReleaseGrowth h => on_spaces (release_growth_entitlement h)
  | SpaceActivate h n row => on_spaces (activate h n row)
  | SpaceDeactivate h => on_spaces (deactivate h)
  | SpaceRelease h => on_spaces (KVAddressSpaceStore.release h)
  | SpaceReleaseAfterDeactivate h => on_spaces (release_after_deactivate h)
  | SpaceEnsure h tokens => on_spaces (ensure_mapped_to_tokens h tokens)
  | SpaceCommit h front => on_spaces (commit_frontier h front)
  | SpaceTruncate h front => on_spaces (KVAddressSpaceStore.destructive_truncate h front)
  | SpaceTruncatePrefix h front => on_spaces (truncate_inactive_prefix h front)
  | SpaceTruncateInactive h front => on_spaces (KVAddressSpaceStore.destructive_truncate_inactive h front)
  | SpacePrepareActivation h n row front => with_new (x ← prepare_activation h n row front; mret (ClientActivation x))
  | SpaceCommitActivation k => with_client k (with_activation (fun x => _ ← commit_activation x; mret None))
  | SpacePrepareFork source destination front n row staged =>
      with_new (x ← prepare_prefix_fork source destination front n row staged; mret (ClientFork x))
  | SpaceSettleFork k =>
      with_client k (with_fork (fun x => x ← settle_prefix_fork_tail_source x; mret (Some (ClientFork x))))
  | SpaceCompleteFork k =>
      with_client k (with_fork (fun x => x ← complete_prefix_fork_after_tail_release x; mret (Some (ClientFork x))))
  | SpaceCommitFork k => with_client k (with_fork (fun x => _ ← commit_prefix_fork x; mret None))
  | SpacePrepareSnapshot source destination front =>
      with_new (x ← prepare_active_snapshot source destination front; mret (ClientSnapshot x))
  | SpaceCommitSnapshot k => with_client k (with_snapshot (fun x => _ ← commit_active_snapshot x; mret None))
  | SpaceDestroy k => with_client k (fun c => _ ← destroy_client c; mret None)
  | SpaceReserve n =>
      with_new (s ← mget;
        r ← on_device (resize_reservation (make_empty_reservation (physical_ (sp_pages s))) n);
        mret (ClientReservation r))
  | SpaceResizeReservation k n => with_client k (with_reserved (fun r => on_device (resize_reservation r n)))
  | SpaceReserveDevice h k =>
      with_client k (with_reserved (fun r => '(r, _) ← on_pages (reserve_device_replica h r); mret r))
  | SpacePublishDevice h => on_spaces (on_pages (publish_device_replica h))
  | SpaceAbortDevice h k => with_client k (with_reserved (fun r => on_pages (abort_device_replica h r)))
  | SpaceDropDevice h => on_spaces (on_pages (drop_device_replica h))
  | SpaceAttach h replica => on_spaces (on_pages (attach_host_replica h replica))
  | SpaceRebind h expected replacement => on_spaces (on_pages (rebind_host_replica h expected replacement))
  | SpaceDetach h extent => on_spaces (on_pages (detach_host_replica h extent))
  end.

(** ** Every call keeps the invariant *)

(** Each client has a claim on the store; together they satisfy the invariant. *)
Definition world_inv (w : World) : Prop :=
  exists z, z.*1 = w_clients w /\ Forall (client_ok (w_spaces w)) z /\ spaces_inv (w_spaces w) (claims z).

(** A program that keeps the invariant whoever else holds what. *)
Definition safe {A} (s : Spaces) (H : Holders) (m : M Spaces A) (Q : Spaces -> A -> Prop) : Prop :=
  post m s Q (fun s' e => spaces_inv s' H /\ e <> Terminate).

Lemma safe_unchanged {A} s H (m : M Spaces A) Q : spaces_inv s H -> post m s Q (unchanged s) -> safe s H m Q.
Proof. intros Hinv Hm. eapply post_except; [exact Hm|]. by intros s' e [-> ?]. Qed.

Lemma safe_undone {A} s H (m : M Spaces A) Q : post m s Q (undone s H) -> safe s H m Q.
Proof. intros Hm. eapply post_except; [exact Hm|]. by intros s' e (? & _ & ?). Qed.

Lemma safe_never {A} s H (m : M Spaces A) Q : post m s Q (fun _ _ => False) -> safe s H m Q.
Proof. intros Hm. by eapply post_except. Qed.

Lemma safe_weaken {A} s H (m : M Spaces A) (Q Q' : Spaces -> A -> Prop) :
  safe s H m Q -> (forall s' a, Q s' a -> Q' s' a) -> safe s H m Q'.
Proof. apply post_weaken. Qed.

Lemma clients_fixed s s' z : fixed s s' -> Forall (client_ok s) z -> Forall (client_ok s') z.
Proof. intros Hf Hz. apply (Forall_impl _ _ _ Hz). intros y. by apply client_ok_fixed. Qed.

Definition call_result (out : World * result unit) : Prop := world_inv out.1 /\ out.2 <> Throw Terminate.

Lemma on_spaces_ok {A} w (m : M Spaces A) :
  world_inv w -> steady m ->
  (forall H, spaces_inv (w_spaces w) H -> safe (w_spaces w) H m (fun s' _ => spaces_inv s' H)) ->
  call_result (on_spaces m w).
Proof.
  intros (z & Hz & Hok & Hinv) Hst Hm. specialize (Hm _ Hinv). specialize (Hst (w_spaces w)).
  unfold call_result, on_spaces. unfold safe, post in Hm. destruct (m (w_spaces w)) as [s' [a|e]]; cbn [fst snd] in *.
  - split; [|done]. exists z. split_and!; [done|by eapply clients_fixed|done].
  - destruct Hm as [Hm He]. split; [|congruence]. exists z. split_and!; [done|by eapply clients_fixed|done].
Qed.

Lemma with_new_ok w m :
  world_inv w -> steady m ->
  (forall H, spaces_inv (w_spaces w) H -> safe (w_spaces w) H m (fun s' c => exists hs,
    client_ok s' (c, hs) /\ spaces_inv s' (join (claim c hs) H))) ->
  call_result (with_new m w).
Proof.
  intros (z & Hz & Hok & Hinv) Hst Hm. specialize (Hm _ Hinv). specialize (Hst (w_spaces w)).
  unfold call_result, with_new. unfold safe, post in Hm. destruct (m (w_spaces w)) as [s' [c|e]]; cbn [fst snd] in *.
  - split; [|done]. destruct Hm as (hs & Hc & Hm). exists ((c, hs) :: z). split_and!; [cbn; by rewrite Hz| |done].
    constructor; [done|]. by eapply clients_fixed.
  - destruct Hm as [Hm He]. split; [|congruence]. exists z. split_and!; [done|by eapply clients_fixed|done].
Qed.

(** What a call leaves of the object it was called on. *)
Definition client_left (H : Holders) : Spaces -> option Client -> Prop := fun s' oc =>
  match oc with
  | Some c' => exists hs', client_ok s' (c', hs') /\ spaces_inv s' (join (claim c' hs') H)
  | None => spaces_inv s' H
  end.

Lemma with_client_ok w k f :
  world_inv w -> (forall c, steady (f c)) ->
  (forall c hs H, client_ok (w_spaces w) (c, hs) -> spaces_inv (w_spaces w) (join (claim c hs) H) ->
    safe (w_spaces w) (join (claim c hs) H) (f c) (client_left H)) ->
  call_result (with_client k f w).
Proof.
  intros (z & Hz & Hok & Hinv) Hst Hf. unfold call_result, with_client.
  destruct (w_clients w !! k) as [c|] eqn:Hk; [|split; [|done]; by exists z].
  rewrite <- Hz in Hk. apply list_lookup_fmap_Some in Hk as ([c0 hs] & -> & Hk). cbn [fst] in *.
  pose proof (take_drop_middle z k _ Hk) as Hsplit. set (l1 := take k z) in *. set (l2 := drop (S k) z) in *.
  assert (length l1 = k) as Hl1 by (unfold l1; rewrite length_take; apply lookup_lt_Some in Hk; lia).
  rewrite <- Hsplit in Hok, Hinv. pose proof (spaces_inv_holders _ _ _ (claims_middle l1 c0 hs l2) Hinv) as Hinv'.
  apply Forall_app in Hok as [Ho1 [Hoc Ho2]%Forall_cons].
  specialize (Hf c0 hs _ Hoc Hinv'). specialize (Hst c0 (w_spaces w)). unfold safe, post in Hf.
  destruct (f c0 (w_spaces w)) as [s' [[c'|]|e]]; cbn [fst snd] in *.
  - split; [|done]. destruct Hf as (hs' & Hc' & Hf). exists (l1 ++ (c', hs') :: l2). split_and!.
    + rewrite <- Hz, <- Hsplit, !fmap_app, !fmap_cons. cbn. rewrite <- (length_fmap fst l1) in Hl1.
      symmetry. rewrite <- Hl1, <- (Nat.add_0_r (length _)) at 1. by rewrite insert_app_r.
    + apply Forall_app. split; [by eapply clients_fixed|]. constructor; [done|by eapply clients_fixed].
    + eapply spaces_inv_holders; [|exact Hf]. symmetry. apply claims_middle.
  - split; [|done]. exists (l1 ++ l2). split_and!.
    + rewrite <- Hz, <- Hsplit, !fmap_app, !fmap_cons. cbn. rewrite <- (length_fmap fst l1) in Hl1. rewrite <- Hl1 at 1. by rewrite delete_middle.
    + apply Forall_app. split; by eapply clients_fixed.
    + done.
  - destruct Hf as [Hf He]. split; [|congruence]. exists z. rewrite <- Hsplit. split_and!.
    + by rewrite Hsplit, Hz.
    + apply (clients_fixed _ _ _ Hst). apply Forall_app. split; [done|]. by constructor.
    + eapply spaces_inv_holders; [|exact Hf]. symmetry. apply claims_middle.
Qed.

Lemma storage_safe {A} s H (m : M Spaces A) R' :
  storage_call s H (m s) R' -> safe s H m (fun s' a => spaces_inv s' (with_res (R' a) H)).
Proof. unfold storage_call, safe, post. destruct (m s) as [s' [a|e]]; [by intros [? ?]|by intros (? & ? & ?)]. Qed.

Lemma storage_safe_plain {A} s H (m : M Spaces A) :
  storage_call s H (m s) (fun _ => hd_res H) -> safe s H m (fun s' _ => spaces_inv s' H).
Proof. intros Hs. apply (safe_weaken _ _ _ _ _ (storage_safe s H m _ Hs)). intros s' a. by rewrite with_res_same. Qed.

(** A consumed object. *)
Lemma safe_consume {A B} s H (m : M Spaces A) (b : B) (Q : Spaces -> B -> Prop) :
  safe s H m (fun s' _ => Q s' b) -> safe s H (_ ← m; mret b) Q.
Proof. unfold safe, post. cbv [mbind M_bind]. by destruct (m s) as [s' [a|e]]. Qed.

Lemma safe_map {A B} s H (m : M Spaces A) (f : A -> B) (Q : Spaces -> B -> Prop) :
  safe s H m (fun s' a => Q s' (f a)) -> safe s H (a ← m; mret (f a)) Q.
Proof. unfold safe, post. cbv [mbind M_bind]. by destruct (m s) as [s' [a|e]]. Qed.

Lemma safe_same {A} s H (a : A) (Q : Spaces -> A -> Prop) : Q s a -> safe s H (mret a) Q.
Proof. done. Qed.

Lemma destroy_client_ok s c hs H :
  client_ok s (c, hs) -> spaces_inv s (join (claim c hs) H) ->
  exists s', destroy_client c s = (s', Ok tt) /\ spaces_inv s' H.
Proof.
  intros Hok Hinv. destruct c as [r|x|x|x]; cbn [destroy_client].
  - destruct (drop_reservation s H r (hd_res H) Hinv) as (s' & ? & Hinv' & _). exists s'. by rewrite with_res_same in Hinv'.
  - destruct (destroy_activation_post s H x Hinv) as (s' & ? & ? & _). by exists s'.
  - by apply (destroy_prefix_fork_post s H x hs).
  - by apply (destroy_active_snapshot_post s H x hs).
Qed.

(** A call on an object of another kind does nothing. *)
Section kinds.
Context (s : Spaces) (H : Holders) (c : Client) (hs : list LogicalKVPageHandle).
Context (Hok : client_ok s (c, hs)) (Hinv : spaces_inv s (join (claim c hs) H)).

Lemma safe_fork f :
  (forall x, c = ClientFork x -> fork_ok (sp_self s) (page_capacity_ s) x hs -> spaces_inv s (fork_held x hs H) ->
    safe s (join (claim c hs) H) (f x) (client_left H)) ->
  safe s (join (claim c hs) H) (with_fork f c) (client_left H).
Proof. intros Hf. destruct c as [r|x|x|x]; [by exists hs..| |by exists hs]. by apply Hf. Qed.

Lemma safe_snapshot f :
  (forall x, c = ClientSnapshot x -> snapshot_ok (sp_self s) x hs -> spaces_inv s (snapshot_held x hs H) ->
    safe s (join (claim c hs) H) (f x) (client_left H)) ->
  safe s (join (claim c hs) H) (with_snapshot f c) (client_left H).
Proof. intros Hf. destruct c as [r|x|x|x]; [by exists hs..|]. by apply Hf. Qed.

Lemma safe_activation f :
  (forall x, c = ClientActivation x -> spaces_inv s (activation_held x H) ->
    safe s (join (claim c hs) H) (f x) (client_left H)) ->
  safe s (join (claim c hs) H) (with_activation f c) (client_left H).
Proof. intros Hf. destruct c as [r|x|x|x]; [by exists hs| |by exists hs..]. by apply Hf. Qed.

Lemma safe_reserved f :
  (forall r, spaces_inv s (with_res (r :: hd_res H) H) ->
    safe s (with_res (r :: hd_res H) H) (f r) (fun s' r' => spaces_inv s' (with_res (r' :: hd_res H) H))) ->
  safe s (join (claim c hs) H) (with_reserved f c) (client_left H).
Proof.
  intros Hf. destruct c as [r|x|x|x]; [|by exists hs..]. cbn [with_reserved].
  apply safe_map. eapply safe_weaken; [apply (Hf r Hinv)|]. intros s' r' Hinv'. by exists [].
Qed.
End kinds.

Lemma run_space_ok w c :
  world_inv w -> space_range c -> space_contract (w_spaces w) c -> call_result (run_space c w).
Proof.
  intros Hw Hr Hc. destruct c; cbn [run_space space_range space_contract] in *.
  - apply on_spaces_ok; [done|auto with steady|]. intros H Hinv. apply safe_never.
    eapply post_weaken; [by apply create_inactive_post|]. by intros s' x [? _].
  - apply on_spaces_ok; [done|auto with steady|]. intros H Hinv. apply create_active_post; [done|lia].
  - apply on_spaces_ok; [done|auto with steady|]. intros H Hinv.
    apply safe_unchanged, set_checkpoint_requirement_post; done || lia.
  - apply on_spaces_ok; [done|auto with steady|]. intros H Hinv. apply safe_unchanged; [done|]. by apply resize_entitlement_post.
  - apply on_spaces_ok; [done|auto with steady|]. intros H Hinv. apply safe_unchanged; [done|]. by apply release_growth_entitlement_post.
  - apply on_spaces_ok; [done|auto with steady|]. intros H Hinv. apply safe_undone, activate_post; done || lia.
  - apply on_spaces_ok; [done|auto with steady|]. intros H Hinv.
    eapply post_except; [eapply post_weaken; [by apply deactivate_post|]|]; [by intros s' u [? _]|by intros s' e [[-> ?] _]].
  - apply on_spaces_ok; [done|auto with steady|]. intros H Hinv. apply safe_never.
    eapply post_weaken; [by apply release_post|]. by intros s' x [? _].
  - apply on_spaces_ok; [done|auto with steady|]. intros H Hinv. apply safe_never.
    eapply post_weaken; [by apply release_after_deactivate_post|]. by intros s' x [? _].
  - apply on_spaces_ok; [done|auto with steady|]. intros H Hinv. apply safe_unchanged; [done|].
    eapply post_weaken; [apply ensure_mapped_to_tokens_post; done || lia|]. by intros s' x [? _].
  - apply on_spaces_ok; [done|auto with steady|]. intros H Hinv.
    eapply post_except; [eapply post_weaken; [by apply (commit_frontier_post (w_spaces w) H)|]|]; [by intros s' u [? _]|].
    intros s' e [[? _ _ _] ?]. done.
  - apply on_spaces_ok; [done|auto with steady|]. intros H Hinv. apply safe_unchanged; [done|].
    eapply post_weaken; [apply destructive_truncate_post; done || lia|]. by intros s' x [? _].
  - apply on_spaces_ok; [done|auto with steady|]. intros H Hinv. apply safe_unchanged, truncate_inactive_prefix_post; done || lia.
  - apply on_spaces_ok; [done|auto with steady|]. intros H Hinv. apply safe_unchanged, destructive_truncate_inactive_post; done || lia.
  - apply with_new_ok; [done|solve_steady|]. intros H Hinv. apply safe_map, safe_undone.
    eapply post_weaken; [apply (prepare_activation_post _ H); done || lia || apply Hr|]. intros s' x [? _]. by exists [].
  - apply with_client_ok; [done|intros; unfold with_activation; solve_steady|]. intros cl hs H Hok Hinv.
    apply safe_activation; [done..|]. intros x -> Hx. apply safe_consume, safe_unchanged; [done|]. by apply commit_activation_post.
  - apply with_new_ok; [done|solve_steady|]. intros H Hinv. apply safe_map, safe_undone.
    eapply post_weaken; [apply (prepare_prefix_fork_post _ H); done || lia|]. intros s' x (hs & ? & ?). by exists hs.
  - apply with_client_ok; [done|intros; unfold with_fork; solve_steady|]. intros cl hs H Hok Hinv.
    apply safe_fork; [done..|]. intros x -> Hx Hi. apply safe_map, safe_unchanged; [done|].
    eapply post_weaken; [by apply (settle_prefix_fork_tail_source_post _ H x hs)|]. intros s' x' (? & ?). by exists hs.
  - apply with_client_ok; [done|intros; unfold with_fork; solve_steady|]. intros cl hs H Hok Hinv.
    apply safe_fork; [done..|]. intros x -> Hx Hi. apply safe_map, safe_unchanged; [done|].
    eapply post_weaken; [by apply (complete_prefix_fork_post _ H x hs)|]. intros s' x' (? & ? & _). by exists hs.
  - apply with_client_ok; [done|intros; unfold with_fork; solve_steady|]. intros cl hs H Hok Hinv.
    apply safe_fork; [done..|]. intros x -> Hx Hi. apply safe_consume, safe_unchanged; [done|].
    eapply post_weaken; [by apply (commit_prefix_fork_post _ H x hs)|]. by intros s' u [? _].
  - apply with_new_ok; [done|solve_steady|]. intros H Hinv. apply safe_map, safe_undone.
    eapply post_weaken; [apply (prepare_active_snapshot_post _ H); done || lia|]. intros s' x (hs & ? & ?). by exists hs.
  - apply with_client_ok; [done|intros; unfold with_snapshot; solve_steady|]. intros cl hs H Hok Hinv.
    apply safe_snapshot; [done..|]. intros x -> Hx Hi. apply safe_consume, safe_unchanged; [done|].
    eapply post_weaken; [by apply (commit_active_snapshot_post _ H x hs)|]. by intros s' u [? _].
  - apply with_client_ok; [done|intros; unfold destroy_client; solve_steady|]. intros cl hs H Hok Hinv.
    destruct (destroy_client_ok _ cl hs H Hok Hinv) as (s' & Heq & ?). apply safe_consume. unfold safe. by eapply post_end.
  - apply with_new_ok; [done|solve_steady|]. intros H Hinv. unfold safe. apply post_get, safe_map. unfold safe, post.
    pose proof (reserve_client _ H n Hinv ltac:(lia)) as Hres. destruct (on_device _ _) as [s' [r|e]].
    + destruct Hres as (? & _). by exists [].
    + by destruct Hres as [-> ?].
  - apply with_client_ok; [done|intros; unfold with_reserved; solve_steady|]. intros cl hs H Hok Hinv.
    apply safe_reserved; [done..|]. intros r Hi. unfold safe, post. pose proof (resize_client _ H r (hd_res H) n Hi ltac:(lia)) as Hres.
    destruct (on_device _ _) as [s' [r'|e]]; [by destruct Hres|by destruct Hres as [-> ?]].
  - apply with_client_ok; [done|intros; unfold with_reserved; solve_steady|]. intros cl hs H Hok Hinv.
    apply safe_reserved; [done..|]. intros r Hi.
    pose proof (storage_safe _ _ _ _ (reserve_device_storage _ H r (hd_res H) h Hi)) as Hs.
    unfold safe, post in *. cbv [mbind M_bind]. by destruct (on_pages _ _) as [s' [[r' x]|e]].
  - apply on_spaces_ok; [done|auto with steady|]. intros H Hinv. by apply storage_safe_plain, publish_device_storage.
  - apply with_client_ok; [done|intros; unfold with_reserved; solve_steady|]. intros cl hs H Hok Hinv.
    apply safe_reserved; [done..|]. intros r Hi. exact (storage_safe _ _ _ _ (abort_device_storage _ H r (hd_res H) h Hi)).
  - apply on_spaces_ok; [done|auto with steady|]. intros H Hinv. by apply storage_safe_plain, drop_device_storage.
  - apply on_spaces_ok; [done|auto with steady|]. intros H Hinv. by apply storage_safe_plain, attach_storage.
  - apply on_spaces_ok; [done|auto with steady|]. intros H Hinv. by apply storage_safe_plain, rebind_storage.
  - apply on_spaces_ok; [done|auto with steady|]. intros H Hinv. by apply storage_safe_plain, detach_storage.
Qed.
