(* ===== verification/KVAddressSpec.v ===== *)
(** * What the address spaces promise

    From a fresh store on, whatever the clients do: the page counts are the memberships, a writer is
    alone on its page, committed tokens are covered, checkpoints are protected, rows and pages belong
    to one holder, and no call terminates. *)

From S2P Require Import Prelude Post Layout Extents Tensor KVGeometry DevicePagePool DevicePoolInvariant DevicePoolOps DevicePoolSpec ExecutionTables KVPages KVPagesInvariant KVPagesSpec KVAddress KVAddressPages KVAddressInvariant KVAddressUpdate KVAddressProtect KVAddressOps KVAddressActivation KVAddressGrowth KVAddressShrink KVAddressShare KVAddressForks KVAddressForkCommit KVAddressForkAbort KVAddressSnapshots KVAddressSnapshotCommit KVAddressRelease KVAddressTruncate KVAddressSteady KVAddressSession.
Import LogicalKVPageStore KVAddressSpaceStore.

(** ** Fresh stores *)

Lemma replicate_address n i a : at_index (replicate n initial_address) i = Some a -> a = initial_address /\ 0 <= i < Z.of_nat n.
Proof. intros [? Hi]%at_index_Some. apply lookup_replicate in Hi as [-> ?]. split; [done|lia]. Qed.

Lemma fresh_nothing {B} n (f : Address -> list B) : f initial_address = [] -> replicate n initial_address ≫= f = [].
Proof. intros Hf. induction n as [|n IH]; [done|]. cbn. by rewrite Hf. Qed.

Lemma make_spaces_free self pages t ac pc cells :
  0 <= ac ->
  free_ok (mkSpaces self pages t pc (replicate (Z.to_nat ac) initial_address)
    ((fun index => ac - 1 - Z.of_nat index) <$> seq 0 (Z.to_nat ac)) (replicate cells null_logical) ac).
Proof.
  intros Hac. set (s := mkSpaces _ _ _ _ _ _ _ _).
  assert (free_addresses s = (fun index => ac - 1 - Z.of_nat index) <$> seq 0 (Z.to_nat ac)) as Hfree.
  { unfold free_addresses. cbn. apply take_ge. rewrite length_fmap, length_seq. done. }
  split; cbn [sp_free addresses_ sp_free_count s]; rewrite ?length_replicate, ?length_fmap, ?length_seq; try lia.
  - rewrite Hfree. apply NoDup_fmap_2_strong; [|apply NoDup_seq]. intros x y _ _. lia.
  - intros j. rewrite Hfree, list_elem_of_fmap. setoid_rewrite elem_of_seq. split.
    + intros (k & -> & Hk). exists initial_address. split; [|done]. unfold address_at. cbn [addresses_ s].
      apply at_index_Some. split; [lia|]. apply lookup_replicate. split; [done|lia].
    + intros (a & [_ Hj]%replicate_address & _). exists (Z.to_nat (ac - 1 - j)). lia.
Qed.

Lemma make_spaces_inv p pself n pages self t ac pc s :
  pool_inv p -> allocated_pages p = 0 -> reserved_pages p = 0 -> 0 <= n <= u32_max -> make_store pself p n = Ok pages ->
  tables_inv t -> 0 <= ac <= u32_max -> make_spaces self pages t ac pc = Ok s -> spaces_inv s nobody.
Proof.
  intros Hp Ha Hr Hn Hmake Ht Hac. pose proof (make_store_inv _ _ _ _ Hp Ha Hr Hn Hmake) as Hkv.
  unfold make_spaces. intros (cells & Hcells & Hs)%bind_Ok. apply bind_Ok in Hs as ([] & Hg & Hs). injection Hs as <-.
  apply throw_if_Ok in Hg. bool_facts. pose proof (ti_capacity _ Ht) as Hcap.
  unfold checked_membership_cells in Hcells. destruct (_ && _) in Hcells; [done|]. injection Hcells as <-.
  rewrite w64_small by nia. pose proof (make_spaces_free self pages t ac pc (Z.to_nat (ac * pc)) (proj1 Hac)) as Hfree.
  set (s := mkSpaces _ _ _ _ _ _ _ _) in *.
  assert (forall j a, address_at s j = Some a -> a = initial_address /\ 0 <= j < ac) as Haddr.
  { intros j a Hj. apply replicate_address in Hj as [-> ?]. split; [done|lia]. }
  assert (forall k q, membership s k q = null_logical) as Hnull.
  { intros k q. unfold membership. cbn [memberships_ s]. destruct (at_index _ _) as [x|] eqn:Hx; [|done].
    apply at_index_Some in Hx as [_ [-> _]%lookup_replicate]. done. }
  split.
  - split; try done.
    + cbn [hd_res nobody app]. unfold addr_res. cbn [addresses_ s]. by rewrite fresh_nothing.
    + cbn [hd_rows nobody app]. unfold addr_rows. cbn [addresses_ s]. rewrite fresh_nothing by done. split; [done|constructor|constructor].
    + cbn [memberships_ addresses_ page_capacity_ s]. rewrite !length_replicate. lia.
    + cbn [addresses_ s]. rewrite length_replicate. lia.
    + intros j a [-> Hj]%Haddr. split; cbn; try done; try lia; [constructor|]. intros q pg Hq Hlt. unfold kPagedKVPageSize in *. lia.
    + intros i pg Hi Ho. exfalso. unfold make_store in Hmake. apply bind_Ok in Hmake as (_ & _ & Hpages).
      injection Hpages as Hpages. change (sp_pages s) with pages in Hi. rewrite <- Hpages in Hi.
      apply at_index_Some in Hi as [_ [-> _]%lookup_replicate]. done.
    + split; constructor.
  - intros j a [-> Hj]%Haddr q pg Hq Hlt. cbn in Hlt. unfold kPagedKVPageSize in *. lia.
Qed.

(** ** Sessions *)

(** One call within its contract and what it ends with. *)
Inductive world_step (w : World) : result unit -> World -> Prop :=
  world_call c w' out : space_range c -> space_contract (w_spaces w) c -> run_space c w = (w', out) ->
    world_step w out w'.

Inductive world_session (w : World) : nat -> World -> Prop :=
  | world_start : world_session w 0 w
  | world_next n mid out w' : world_session w n mid -> world_step mid out w' -> world_session w (S n) w'.

Lemma world_step_ok w out w' : world_inv w -> world_step w out w' -> world_inv w' /\ out <> Throw Terminate.
Proof. intros Hw [c w2 out' Hr Hc Heq]. pose proof (run_space_ok w c Hw Hr Hc) as Hok. by rewrite Heq in Hok. Qed.

Lemma world_session_inv w n w' : world_inv w -> world_session w n w' -> world_inv w'.
Proof.
  intros Hw Hs. induction Hs as [|n mid out w' _ IH Hstep]; [done|]. by destruct (world_step_ok _ _ _ IH Hstep).
Qed.

(** A fresh store over a fresh pool, fresh pages and fresh tables. *)
Definition fresh_world (s : Spaces) : Prop :=
  exists p pself n self ac pc pages t,
    pool_inv p /\ allocated_pages p = 0 /\ reserved_pages p = 0 /\ 0 <= n <= u32_max /\ 0 <= ac <= u32_max /\
    make_store pself p n = Ok pages /\ tables_inv t /\ make_spaces self pages t ac pc = Ok s.

Lemma fresh_world_inv s : fresh_world s -> world_inv (mkWorld s []).
Proof.
  intros (p & pself & n & self & ac & pc & pages & t & Hp & Ha & Hr & Hn & Hac & Hm & Ht & Hs).
  exists []. split_and!; [done|constructor|]. exact (make_spaces_inv p pself n pages self t ac pc s Hp Ha Hr Hn Hm Ht Hac Hs).
Qed.

(** The rows and reservations that clients hold. *)
Definition client_rows (c : Client) : list KVExecutionRowLease :=
  match c with
  | ClientReservation _ => []
  | ClientActivation x => option_list (ac_row x)
  | ClientFork x => option_list (fk_row x)
  | ClientSnapshot _ => []
  end.
Definition client_reservation (c : Client) : DeviceKVPageReservation :=
  match c with
  | ClientReservation r => r
  | ClientActivation x => ac_page_reservation x
  | ClientFork x => fk_page_reservation x
  | ClientSnapshot x => sn_tail_reservation x
  end.

Lemma claims_rows z : hd_rows (claims z) = z.*1 ≫= client_rows.
Proof. induction z as [|[c hs] z IH]; [done|]. cbn. rewrite IH. by destruct c. Qed.

Lemma claims_reservations z : hd_res (claims z) = client_reservation <$> z.*1.
Proof. induction z as [|[c hs] z IH]; [done|]. cbn. rewrite IH. by destruct c. Qed.

(** How many addresses have a page, and how many of them are active. *)
Definition addresses_with (s : Spaces) (i : Z) : Z := count_refs (view s) i.
Definition active_addresses_with (s : Spaces) (i : Z) : Z := count_active (view s) i.

(** C5: No sequence of calls on the KV address spaces, with any handles and any prepared objects, breaks
    their bookkeeping.  In every session the references of a page in use are the addresses it is a
    member of and its active references the active ones among them; a page with a writer has one
    address, and a page with active references is on the device; each address's pages are valid and
    pairwise different, cover its committed frontier, and number no more than its capacity; the
    columns below every checkpoint are protected; no execution row is held twice; the reserved pages
    of the pool are exactly what clients and addresses hold.  No call within its contract reaches
    [std::terminate]. *)
Theorem kv_space_session_sound s0 n w out w' :
  fresh_world s0 -> world_session (mkWorld s0 []) n w -> world_step w out w' ->
  out <> Throw Terminate /\
  (forall i pg, at_index (pages_ (sp_pages (w_spaces w'))) i = Some pg -> occupied pg = true ->
    references pg = addresses_with (w_spaces w') i /\
    active_references pg = active_addresses_with (w_spaces w') i /\
    (writer_references_ pg = 1 -> references pg = 1 /\ active_references pg = 1) /\
    (0 < active_references pg -> has (device_replica pg) = true)) /\
  (forall j a, address_at (w_spaces w') j = Some a -> address_ok (w_spaces w') j a) /\
  checkpoints_protected (w_spaces w') /\
  NoDup (rl_row <$> (w_clients w' ≫= client_rows) ++ addr_rows (w_spaces w')) /\
  reserved_pages (physical_ (sp_pages (w_spaces w'))) =
    sum_with rs_pages ((client_reservation <$> w_clients w') ++ addr_res (w_spaces w')).
Proof.
  intros Hs0 Hs Hstep. pose proof (world_session_inv _ _ _ (fresh_world_inv _ Hs0) Hs) as Hw.
  destruct (world_step_ok _ _ _ Hw Hstep) as [(z & Hz & _ & Hc & Hp) Hne].
  pose proof (si_rows _ _ Hc) as Hrows. rewrite claims_rows, Hz in Hrows.
  pose proof (si_pages _ _ Hc) as Hkv. rewrite claims_reservations, Hz in Hkv.
  split_and!; [done| |apply (si_address _ _ Hc)|done|apply (ro_distinct _ _ Hrows)|apply (ph_reserved _ _ _ (kv_phys_nil _ _ Hkv))].
  intros i pg Hi Ho. destruct (si_counts _ _ Hc i pg Hi Ho) as [Cr Ca _ Cw Cd]. done.
Qed.

(** The prepared object of a client, and what it holds. *)
Lemma client_claim w k c :
  world_inv w -> w_clients w !! k = Some c ->
  exists hs H, client_ok (w_spaces w) (c, hs) /\ spaces_inv (w_spaces w) (join (claim c hs) H).
Proof.
  intros (z & Hz & Hok & Hinv) Hk. rewrite <- Hz in Hk. apply list_lookup_fmap_Some in Hk as ([c0 hs] & -> & Hk). cbn [fst].
  pose proof (take_drop_middle z k _ Hk) as Hsplit. rewrite <- Hsplit in Hok, Hinv.
  apply Forall_app in Hok as [_ [Hoc _]%Forall_cons].
  eexists hs, _. split; [done|]. eapply spaces_inv_holders; [apply claims_middle|exact Hinv].
Qed.

(** C6: Committing a prepared prefix fork gives the destination the first tokens of the source.  The
    destination becomes active with the reservation and the row that were prepared, its committed
    frontier is the fork's, and its pages are the source's full pages, shared by reference, and the
    page the tail was copied to; every other address, the source included, keeps its pages, its
    frontier and its state, and no page in use changes its device page, its epoch or its committed
    columns. *)
Theorem committed_fork_shares s0 n w k x w' :
  fresh_world s0 -> world_session (mkWorld s0 []) n w -> w_clients w !! k = Some (ClientFork x) ->
  run_space (SpaceCommitFork k) w = (w', Ok tt) ->
  forked (w_spaces w) (w_spaces w') x.
Proof.
  intros Hs0 Hs Hk Hrun. pose proof (world_session_inv _ _ _ (fresh_world_inv _ Hs0) Hs) as Hw.
  destruct (client_claim w k _ Hw Hk) as (hs & H & Hok & Hinv).
  pose proof (commit_prefix_fork_post (w_spaces w) H x hs Hinv Hok) as Hpost. unfold post in Hpost.
  unfold run_space, with_client, with_fork in Hrun. rewrite Hk in Hrun. revert Hrun. cbv [mbind M_bind].
  destruct (commit_prefix_fork x (w_spaces w)) as [s' [[]|e]]; [|done]. intros [= <-]. apply Hpost.
Qed.

(** C7: Committing a prepared snapshot lets another address continue the source and freezes the source.
    The destination becomes active where the source was, with its row, its growth entitlement, its
    full pages by reference and the copy of its tail; the source keeps its handle, its pages and its
    tokens, is inactive, and all of its tokens are a checkpoint, protected on every page; every other
    address is as it was, and no page in use changes its device page, its epoch or its committed
    columns. *)
Theorem committed_snapshot_continues s0 n w k x w' :
  fresh_world s0 -> world_session (mkWorld s0 []) n w -> w_clients w !! k = Some (ClientSnapshot x) ->
  run_space (SpaceCommitSnapshot k) w = (w', Ok tt) ->
  snapshotted (w_spaces w) (w_spaces w') x /\ checkpoints_protected (w_spaces w').
Proof.
  intros Hs0 Hs Hk Hrun. pose proof (world_session_inv _ _ _ (fresh_world_inv _ Hs0) Hs) as Hw.
  destruct (client_claim w k _ Hw Hk) as (hs & H & Hok & Hinv).
  pose proof (commit_active_snapshot_post (w_spaces w) H x hs Hinv Hok) as Hpost. unfold post in Hpost.
  unfold run_space, with_client, with_snapshot in Hrun. rewrite Hk in Hrun. revert Hrun. cbv [mbind M_bind].
  destruct (commit_active_snapshot x (w_spaces w)) as [s' [[]|e]]; [|done]. intros [= <-]. cbn [w_spaces].
  destruct Hpost as [[_ ?] ?]. done.
Qed.

(** C8: Committing tokens writes nobody else's pages.  When the frontier of an active address moves,
    every page of every other address is what it was, whether the call returns or throws halfway;
    when it returns, the address covers exactly the committed tokens and keeps its pages and its
    checkpoint. *)
Theorem committed_tokens_isolated s0 n w h front w' out :
  fresh_world s0 -> world_session (mkWorld s0 []) n w -> 0 <= front <= u32_max ->
  run_space (SpaceCommit h front) w = (w', out) ->
  others_kept (w_spaces w) (ah_index h) (w_spaces w') /\
  (forall k, k <> ah_index h -> address_at (w_spaces w') k = address_at (w_spaces w) k) /\
  memberships_ (w_spaces w') = memberships_ (w_spaces w) /\
  (out = Ok tt -> committed (w_spaces w) (w_spaces w') h front).
Proof.
  intros Hs0 Hs Hf Hrun. pose proof (world_session_inv _ _ _ (fresh_world_inv _ Hs0) Hs) as (z & _ & _ & Hinv).
  pose proof (commit_frontier_post _ _ h front Hinv Hf) as Hpost. unfold post in Hpost.
  unfold run_space, on_spaces in Hrun. destruct (commit_frontier h front (w_spaces w)) as [s' [[]|e]]; injection Hrun as <- <-.
  - destruct Hpost as (Hinv' & Hc & Ho). split_and!; [done|apply Hc|apply Hc|done].
  - destruct Hpost as [[_ Hfr _ Ho] _]. cbn [w_spaces]. split_and!; [done| | |done]; [intros k _|]; by rewrite Hfr.
Qed.

(** ** Refused calls *)

(** The calls that either do all of their work or none. *)
Definition all_or_nothing (c : SpaceCall) : bool :=
  match c with
  | SpaceCreateActive _ _ | SpaceCommit _ _ | SpaceReserveDevice _ _ | SpacePublishDevice _ | SpaceAbortDevice _ _
  | SpaceDropDevice _ | SpaceAttach _ _ | SpaceRebind _ _ _ | SpaceDetach _ _ => false
  | _ => true
  end.

Definition refuses {A} (s : Spaces) (m : M Spaces A) : Prop := forall s' e, m s = (s', Throw e) -> quiet s s'.

Lemma refuses_post {A} s (m : M Spaces A) Q E : post m s Q E -> (forall s' e, E s' e -> quiet s s') -> refuses s m.
Proof. unfold post, refuses. intros Hm HE s' e Heq. rewrite Heq in Hm. by eapply HE. Qed.

Lemma refuses_unchanged {A} s (m : M Spaces A) Q : post m s Q (unchanged s) -> refuses s m.
Proof. intros Hm. apply (refuses_post _ _ _ _ Hm). by intros s' e [-> _]. Qed.

Lemma refuses_undone {A} s H (m : M Spaces A) Q : post m s Q (undone s H) -> refuses s m.
Proof. intros Hm. apply (refuses_post _ _ _ _ Hm). by intros s' e (_ & ? & _). Qed.

Lemma refuses_never {A} s (m : M Spaces A) Q : post m s Q (fun _ _ => False) -> refuses s m.
Proof. intros Hm. by apply (refuses_post _ _ _ _ Hm). Qed.

Lemma refuses_map {A B} s (m : M Spaces A) (f : A -> B) : refuses s m -> refuses s (a ← m; mret (f a)).
Proof.
  unfold refuses. cbv [mbind M_bind]. destruct (m s) as [s1 [a|e1]]; intros Hm s' e Heq; [done|].
  injection Heq as <- <-. by eapply Hm.
Qed.

Lemma on_spaces_refuses {A} w (m : M Spaces A) w' e :
  refuses (w_spaces w) m -> on_spaces m w = (w', Throw e) -> quiet (w_spaces w) (w_spaces w') /\ w_clients w' = w_clients w.
Proof.
  intros Hm. unfold on_spaces. destruct (m (w_spaces w)) as [s' [a|e']] eqn:Heq; [done|]. intros [= <- <-].
  split; [by eapply Hm|done].
Qed.

Lemma with_new_refuses w m w' e :
  refuses (w_spaces w) m -> with_new m w = (w', Throw e) -> quiet (w_spaces w) (w_spaces w') /\ w_clients w' = w_clients w.
Proof.
  intros Hm. unfold with_new. destruct (m (w_spaces w)) as [s' [a|e']] eqn:Heq; [done|]. intros [= <- <-].
  split; [by eapply Hm|done].
Qed.

Lemma with_client_refuses w k f w' e :
  world_inv w ->
  (forall c hs H, client_ok (w_spaces w) (c, hs) -> spaces_inv (w_spaces w) (join (claim c hs) H) -> refuses (w_spaces w) (f c)) ->
  with_client k f w = (w', Throw e) -> quiet (w_spaces w) (w_spaces w') /\ w_clients w' = w_clients w.
Proof.
  intros Hw Hf. unfold with_client. destruct (w_clients w !! k) as [c|] eqn:Hk; [|done].
  destruct (client_claim w k c Hw Hk) as (hs & H & Hok & Hinv). specialize (Hf c hs H Hok Hinv).
  destruct (f c (w_spaces w)) as [s' [[c'|]|e']] eqn:Heq; [done..|]. intros [= <- <-]. split; [by eapply Hf|done].
Qed.

Lemma with_fork_refuses s f c hs H :
  client_ok s (c, hs) -> spaces_inv s (join (claim c hs) H) ->
  (forall x, fork_ok (sp_self s) (page_capacity_ s) x hs -> spaces_inv s (fork_held x hs H) -> refuses s (f x)) ->
  refuses s (with_fork f c).
Proof. intros Hok Hinv Hf. destruct c as [r|x|x|x]; [by intros s' e [=]..| |by intros s' e [=]]. by apply Hf. Qed.

(** C9: A call that throws changes nothing.  Except for committing tokens, which may have written some
    columns, and creating an active address, which gives its descriptor back, every call of the
    address spaces that ends in an exception leaves all addresses, all memberships, every page and
    every client's object as they were. *)
Theorem refused_call_changes_nothing s0 n w c w' e :
  fresh_world s0 -> world_session (mkWorld s0 []) n w -> space_range c -> space_contract (w_spaces w) c ->
  all_or_nothing c = true -> run_space c w = (w', Throw e) ->
  quiet (w_spaces w) (w_spaces w') /\ w_clients w' = w_clients w.
Proof.
  intros Hs0 Hs Hr Hc Hall. pose proof (world_session_inv _ _ _ (fresh_world_inv _ Hs0) Hs) as Hw.
  pose proof Hw as (z & _ & _ & Hinv). destruct c; try done; cbn [run_space space_range space_contract] in *;
    first [apply on_spaces_refuses | apply with_new_refuses | apply (with_client_refuses _ _ _ _ _ Hw)].
  - by apply (refuses_never _ _ _ (create_inactive_post _ _ Hinv)).
  - eapply refuses_unchanged, set_checkpoint_requirement_post; [done|lia].
  - by eapply refuses_unchanged, resize_entitlement_post.
  - by eapply refuses_unchanged, release_growth_entitlement_post.
  - eapply refuses_undone, activate_post; [done|lia].
  - eapply refuses_post; [by apply deactivate_post|]. by intros s' e' [[-> _] _].
  - by eapply refuses_never, release_post.
  - by eapply refuses_never, release_after_deactivate_post.
  - eapply refuses_unchanged, ensure_mapped_to_tokens_post; [done|lia].
  - eapply refuses_unchanged, destructive_truncate_post; [done|lia|done].
  - eapply refuses_unchanged, truncate_inactive_prefix_post; [done|lia].
  - eapply refuses_unchanged, destructive_truncate_inactive_post; [done|lia].
  - apply refuses_map. eapply refuses_undone, prepare_activation_post; [done|lia|apply Hr].
  - intros cl hs H Hok Hi. destruct cl as [r|x|x|x]; [by intros s' e' [=]| |by intros s' e' [=]..].
    apply refuses_map. by eapply refuses_unchanged, (commit_activation_post _ H).
  - apply refuses_map. eapply refuses_undone, prepare_prefix_fork_post; [done|lia|lia].
  - intros cl hs H Hok Hi. apply (with_fork_refuses _ _ _ hs H); [done..|]. intros x Hx Hh. apply refuses_map.
    by eapply refuses_unchanged, settle_prefix_fork_tail_source_post.
  - intros cl hs H Hok Hi. apply (with_fork_refuses _ _ _ hs H); [done..|]. intros x Hx Hh. apply refuses_map.
    by eapply refuses_unchanged, complete_prefix_fork_post.
  - intros cl hs H Hok Hi. apply (with_fork_refuses _ _ _ hs H); [done..|]. intros x Hx Hh. apply refuses_map.
    by eapply refuses_unchanged, commit_prefix_fork_post.
  - apply refuses_map. eapply refuses_undone, prepare_active_snapshot_post; [done|lia].
  - intros cl hs H Hok Hi. destruct cl as [r|x|x|x]; [by intros s' e' [=]..|].
    apply refuses_map. by eapply refuses_unchanged, (commit_active_snapshot_post _ H x hs).
  - intros cl hs H Hok Hi. apply refuses_map. destruct (destroy_client_ok _ cl hs H Hok Hi) as (s' & Heq & _).
    intros s2 e2 Heq2. congruence.
  - intros s' e' Hm. pose proof (reserve_client _ _ n0 Hinv ltac:(lia)) as Hres. revert Hm. cbv [mbind M_bind mget].
    destruct (on_device _ _) as [s1 [r|e1]]; [done|]. intros [= <- <-]. by destruct Hres as [-> _].
  - intros cl hs H Hok Hi. destruct cl as [r|x|x|x]; [|by intros s' e' [=]..]. apply refuses_map.
    intros s' e' Hm. pose proof (resize_client _ H r (hd_res H) n0 Hi ltac:(lia)) as Hres. rewrite Hm in Hres. by destruct Hres as [-> _].
Qed.

(** ** A concrete session *)

(** Four addresses of four pages over the demonstration pool, page store and tables. *)
Definition demo_spaces : Spaces :=
  match make_spaces 11 demo_kv_store demo_tables 4 4 with
  | Ok s => s
  | Throw _ => mkSpaces 0 demo_kv_store demo_tables 0 [] [] [] 0
  end.

Definition demo_space (i : Z) : KVAddressSpaceHandle := mkSpace (Some 11) i 1.

Definition run_spaces (cs : list SpaceCall) (w : World) : World := foldl (fun w c => (run_space c w).1) w cs.

(** Address 0 writes a hundred tokens and is set aside; address 1 is to continue it. *)
Definition demo_space_calls : list SpaceCall :=
  [SpaceCreateActive 3 0; SpaceEnsure (demo_space 0) 100; SpaceCommit (demo_space 0) 100;
   SpaceDeactivate (demo_space 0); SpaceCreate;
   SpacePrepareFork (demo_space 0) (demo_space 1) 100 3 1 false].

Definition demo_forking : World := run_spaces demo_space_calls (mkWorld demo_spaces []).
Definition demo_forked : World := (run_space (SpaceCommitFork 0) demo_forking).1.

(** Calls without a contract. *)
Definition uncontracted (c : SpaceCall) : bool :=
  match c with SpaceTruncate _ _ | SpaceAttach _ _ | SpaceRebind _ _ _ => false | _ => true end.

Lemma run_spaces_session cs w n mid :
  world_session w n mid -> Forall (fun c => space_range c /\ uncontracted c = true) cs ->
  world_session w (n + length cs) (run_spaces cs mid).
Proof.
  revert n mid. induction cs as [|c cs IH]; intros n mid Hs Hcs; [by rewrite Nat.add_0_r|].
  apply Forall_cons in Hcs as [[Hr Hu] Hcs]. cbn [run_spaces foldl length]. rewrite Nat.add_succ_r. rewrite <- Nat.add_succ_l.
  apply IH; [|done]. eapply world_next; [exact Hs|]. eapply world_call; [exact Hr| |apply surjective_pairing].
  by destruct c.
Qed.

Lemma demo_tables_inv : tables_inv demo_tables.
Proof.
  assert (demo_tables = mkTables 3 demo_table_spec 7
    (mkTensor (Some 8192) I32 [4; 2; 1; 1] [4; 16; 32; 32]) (replicate 8 0) [false; false] [1; 1]) as ->
    by (vm_compute; reflexivity).
  split; cbn -[at_index]; try lia; try reflexivity.
  intros i g Hg%(at_index_replicate 2). lia.
Qed.

Lemma demo_spaces_fresh : fresh_world demo_spaces.
Proof.
  exists demo_pool, 9, 8, 11, 4, 4, demo_kv_store, demo_tables. split_and!; try lia; try reflexivity.
  - apply demo_pool_inv.
  - apply demo_tables_inv.
Qed.

Lemma demo_forking_session : world_session (mkWorld demo_spaces []) 6 demo_forking.
Proof.
  apply (run_spaces_session demo_space_calls _ 0 _ (world_start _)).
  repeat constructor; cbn; lia.
Qed.

Example demo_forked_state :
  (fun a => (page_count a, frontier a, ad_active a)) <$> addresses_ (w_spaces demo_forked) =
    [(2, 100, false); (2, 100, true); (0, 0, false); (0, 0, false)] /\
  (fun pg => (references pg, active_references pg, writer_references_ pg, source_pins_ pg)) <$>
    take 4 (pages_ (sp_pages (w_spaces demo_forked))) = [(2, 1, 0, 0); (1, 0, 0, 0); (1, 1, 1, 0); (0, 0, 0, 0)].
Proof. split; vm_compute; reflexivity. Qed.

Lemma kv_space_session_sound_witness :
  exists out w', run_space (SpaceCommitFork 0) demo_forking = (w', out) /\ out <> Throw Terminate /\
    checkpoints_protected (w_spaces w').
Proof.
  exists (run_space (SpaceCommitFork 0) demo_forking).2, demo_forked. split; [apply surjective_pairing|].
  destruct (kv_space_session_sound demo_spaces 6 demo_forking (run_space (SpaceCommitFork 0) demo_forking).2 demo_forked
    demo_spaces_fresh demo_forking_session) as (Hne & _ & _ & Hp & _).
  - apply (world_call _ (SpaceCommitFork 0)); [exact I|exact I|apply surjective_pairing].
  - split; [exact Hne|exact Hp].
Defined.

Lemma committed_fork_shares_witness :
  exists x, w_clients demo_forking !! 0%nat = Some (ClientFork x) /\
    forked (w_spaces demo_forking) (w_spaces demo_forked) x.
Proof.
  destruct (w_clients demo_forking !! 0%nat) as [[r|x|x|x]|] eqn:Hx; try (exfalso; vm_compute in Hx; discriminate).
  exists x. split; [reflexivity|].
  apply (committed_fork_shares demo_spaces 6 demo_forking 0 x demo_forked demo_spaces_fresh demo_forking_session Hx).
  vm_compute. reflexivity.
Defined.

(** Twenty-eight more tokens of the fork. *)
Lemma committed_tokens_isolated_witness :
  exists w', run_space (SpaceCommit (demo_space 1) 128) demo_forked = (w', Ok tt) /\
    others_kept (w_spaces demo_forked) 1 (w_spaces w').
Proof.
  exists (run_space (SpaceCommit (demo_space 1) 128) demo_forked).1. split; [vm_compute; reflexivity|].
  apply (committed_tokens_isolated demo_spaces 7 demo_forked (demo_space 1) 128
    (run_space (SpaceCommit (demo_space 1) 128) demo_forked).1 (Ok tt) demo_spaces_fresh); [|lia|vm_compute; reflexivity].
  apply (world_next _ 6 demo_forking (Ok tt) _ demo_forking_session).
  apply (world_call _ (SpaceCommitFork 0)); [exact I|exact I|vm_compute; reflexivity].
Defined.

(** The source is inactive: it cannot grow. *)
Lemma refused_call_changes_nothing_witness :
  exists w', run_space (SpaceEnsure (demo_space 0) 200) demo_forked = (w', Throw LogicError) /\
    quiet (w_spaces demo_forked) (w_spaces w') /\ w_clients w' = w_clients demo_forked.
Proof.
  exists (run_space (SpaceEnsure (demo_space 0) 200) demo_forked).1. split; [vm_compute; reflexivity|].
  apply (refused_call_changes_nothing demo_spaces 7 demo_forked (SpaceEnsure (demo_space 0) 200) _ LogicError demo_spaces_fresh);
    [|cbn; lia|exact I|reflexivity|vm_compute; reflexivity].
  apply (world_next _ 6 demo_forking (Ok tt) _ demo_forking_session).
  apply (world_call _ (SpaceCommitFork 0)); [exact I|exact I|vm_compute; reflexivity].
Defined.

(** A second conversation: address 0 has a hundred tokens and is active; address 1 continues it. *)
Definition demo_snapshot_calls : list SpaceCall :=
  [SpaceCreateActive 3 0; SpaceEnsure (demo_space 0) 100; SpaceCommit (demo_space 0) 100; SpaceCreate;
   SpacePrepareSnapshot (demo_space 0) (demo_space 1) 100].

Definition demo_snapshotting : World := run_spaces demo_snapshot_calls (mkWorld demo_spaces []).
Definition demo_snapshotted : World := (run_space (SpaceCommitSnapshot 0) demo_snapshotting).1.

Lemma demo_snapshotting_session : world_session (mkWorld demo_spaces []) 5 demo_snapshotting.
Proof.
  apply (run_spaces_session demo_snapshot_calls _ 0 _ (world_start _)).
  repeat constructor; cbn; lia.
Qed.

Example demo_snapshotted_state :
  (fun a => (page_count a, frontier a, checkpoint_frontier a, ad_active a)) <$> addresses_ (w_spaces demo_snapshotted) =
    [(2, 100, 100, false); (2, 100, 0, true); (0, 0, 0, false); (0, 0, 0, false)] /\
  (fun pg => (references pg, active_references pg, writer_references_ pg, protected_columns_ pg)) <$>
    take 4 (pages_ (sp_pages (w_spaces demo_snapshotted))) = [(2, 1, 0, 64); (1, 0, 0, 36); (1, 1, 1, 0); (0, 0, 0, 0)].
Proof. split; vm_compute; reflexivity. Qed.

Lemma committed_snapshot_continues_witness :
  exists x, w_clients demo_snapshotting !! 0%nat = Some (ClientSnapshot x) /\
    snapshotted (w_spaces demo_snapshotting) (w_spaces demo_snapshotted) x.
Proof.
  destruct (w_clients demo_snapshotting !! 0%nat) as [[r|x|x|x]|] eqn:Hx; try (exfalso; vm_compute in Hx; discriminate).
  exists x. split; [reflexivity|].
  apply (committed_snapshot_continues demo_spaces 5 demo_snapshotting 0 x demo_snapshotted demo_spaces_fresh demo_snapshotting_session Hx).
  vm_compute. reflexivity.
Defined.
