(* ===== verification/KvCapacity.v ===== *)
(** * KV capacity and generation budget (runtime/engine/kv_capacity.cpp, runtime/engine/generation_budget.h)

    [resolve_kv_capacity] turns the capacity policy into a number of main-KV page groups on the
    target's affine reservation curve; [GenerationBudget] counts the tokens a request may still
    generate. *)

From S2P Require Import Prelude.

Inductive KvCapacityMode := Explicit | Automatic.

Record KvCapacityPolicy := mkPolicy {
  mode : KvCapacityMode;
  explicit_tokens : Z;
  automatic_headroom_bytes : Z;
}.

Record SequenceCapacityCurve := mkCurve {
  main_page_tokens : Z;
  minimum_main_page_groups : Z;
  maximum_main_page_groups : Z;
  minimum_device_reservation_bytes : Z;
  bytes_per_additional_main_page_group : Z;
}.

(** [available_after_startup_bytes] keeps its default and is left out. *)
Record KvCapacityResolution := mkResolution {
  res_mode : KvCapacityMode;
  main_page_groups : Z;
  res_maximum_main_page_groups : Z;
  res_tokens : Z;
  minimum_runtime_reservation_bytes : Z;
  res_bytes_per_additional_main_page_group : Z;
  runtime_reservation_bytes : Z;
  available_after_weights_bytes : Z;
  res_automatic_headroom_bytes : Z;
  planned_slack_bytes : Z;
}.

Definition validate_curve (c : SequenceCapacityCurve) : result unit :=
  _ ← throw_if ((main_page_tokens c =? 0) || (minimum_main_page_groups c =? 0) ||
                (maximum_main_page_groups c <? minimum_main_page_groups c) ||
                (minimum_device_reservation_bytes c =? 0)) InvalidArgument;
  throw_if ((minimum_main_page_groups c <? maximum_main_page_groups c) &&
            (bytes_per_additional_main_page_group c =? 0)) InvalidArgument.

Definition explicit_page_groups (p : KvCapacityPolicy) (c : SequenceCapacityCurve) : result Z :=
  _ ← throw_if (explicit_tokens p =? 0) InvalidArgument;
  let pages := w64 (1 + (explicit_tokens p - 1) / main_page_tokens c) in
  _ ← throw_if (u32_max <? pages) OverflowError;
  Ok pages.

Definition page_count_in_curve (c : SequenceCapacityCurve) (pages : Z) : result unit :=
  throw_if ((pages <? minimum_main_page_groups c) || (maximum_main_page_groups c <? pages))
    InvalidArgument.

Definition reservation_bytes (c : SequenceCapacityCurve) (pages : Z) : result Z :=
  _ ← validate_curve c;
  _ ← page_count_in_curve c pages;
  let additional := w32 (pages - minimum_main_page_groups c) in
  increment ← checked_mul additional (bytes_per_additional_main_page_group c);
  checked_add (minimum_device_reservation_bytes c) increment.

Definition resolved_tokens (c : SequenceCapacityCurve) (pages : Z) : result Z :=
  _ ← validate_curve c;
  _ ← page_count_in_curve c pages;
  let tokens := w64 (pages * main_page_tokens c) in
  _ ← throw_if (u32_max <? tokens) OverflowError;
  Ok tokens.

(** The page count and the capacity budget the policy asks for. *)
Definition requested_pages (p : KvCapacityPolicy) (c : SequenceCapacityCurve) (available : Z)
    : result (Z * Z) :=
  match mode p with
  | Explicit =>
      _ ← throw_if (negb (automatic_headroom_bytes p =? 0)) InvalidArgument;
      pages ← explicit_page_groups p c;
      Ok (pages, available)
  | Automatic =>
      _ ← throw_if (available <? automatic_headroom_bytes p) InvalidArgument;
      let budget := w64 (available - automatic_headroom_bytes p) in
      _ ← throw_if (budget <? minimum_device_reservation_bytes c) InvalidArgument;
      if minimum_main_page_groups c <? maximum_main_page_groups c then
        let additional :=
          w64 (budget - minimum_device_reservation_bytes c) / bytes_per_additional_main_page_group c in
        let candidate := w64 (minimum_main_page_groups c + additional) in
        Ok (w32 (Z.min candidate (maximum_main_page_groups c)), budget)
      else Ok (minimum_main_page_groups c, budget)
  end.

Definition resolve_kv_capacity (p : KvCapacityPolicy) (c : SequenceCapacityCurve) (available : Z)
    : result KvCapacityResolution :=
  _ ← validate_curve c;
  pb ← requested_pages p c available;
  let '(pages, capacity_budget) := pb in
  reservation ← reservation_bytes c pages;
  _ ← throw_if (capacity_budget <? reservation) InvalidArgument;
  tokens ← resolved_tokens c pages;
  Ok (mkResolution (mode p) pages (maximum_main_page_groups c) tokens
        (minimum_device_reservation_bytes c) (bytes_per_additional_main_page_group c) reservation
        available (automatic_headroom_bytes p) (w64 (available - reservation))).

(** ** Facts *)

Record curve_range (c : SequenceCapacityCurve) : Prop := {
  cr_tokens : 0 <= main_page_tokens c <= u32_max;
  cr_min : 0 <= minimum_main_page_groups c <= u32_max;
  cr_max : 0 <= maximum_main_page_groups c <= u32_max;
  cr_bytes : 0 <= minimum_device_reservation_bytes c <= u64_max;
  cr_stride : 0 <= bytes_per_additional_main_page_group c <= u64_max;
}.

(** The curve in unbounded arithmetic. *)
Definition reservation (c : SequenceCapacityCurve) (pages : Z) : Z :=
  minimum_device_reservation_bytes c +
  (pages - minimum_main_page_groups c) * bytes_per_additional_main_page_group c.

Record curve_valid (c : SequenceCapacityCurve) : Prop := {
  cv_tokens : 0 < main_page_tokens c;
  cv_groups : 0 < minimum_main_page_groups c <= maximum_main_page_groups c;
  cv_bytes : 0 < minimum_device_reservation_bytes c;
  cv_stride : minimum_main_page_groups c < maximum_main_page_groups c ->
              0 < bytes_per_additional_main_page_group c;
}.

Lemma validate_curve_Ok c u : curve_range c -> validate_curve c = Ok u <-> curve_valid c.
Proof.
  intros []. destruct u. unfold validate_curve. rewrite bind_Ok. split.
  - intros (? & H1%throw_if_Ok & H2%throw_if_Ok).
    rewrite !orb_false_iff, !Z.eqb_neq, Z.ltb_ge in H1. rewrite andb_false_iff, Z.ltb_ge, Z.eqb_neq in H2.
    split; lia.
  - intros []. exists tt. rewrite !throw_if_Ok, !orb_false_iff, !Z.eqb_neq, Z.ltb_ge, andb_false_iff,
      Z.ltb_ge, Z.eqb_neq. lia.
Qed.

(** The smallest number of page groups that holds the requested tokens. *)
Definition explicit_pages (p : KvCapacityPolicy) (c : SequenceCapacityCurve) : Z :=
  1 + (explicit_tokens p - 1) / main_page_tokens c.

Lemma explicit_pages_least p c :
  0 < main_page_tokens c ->
  (explicit_pages p c - 1) * main_page_tokens c < explicit_tokens p <=
    explicit_pages p c * main_page_tokens c.
Proof.
  intros Hc. unfold explicit_pages.
  pose proof (Z.div_mod (explicit_tokens p - 1) (main_page_tokens c) ltac:(lia)).
  pose proof (Z.mod_pos_bound (explicit_tokens p - 1) (main_page_tokens c) Hc). nia.
Qed.

Lemma explicit_pages_range p c :
  0 < main_page_tokens c -> 0 < explicit_tokens p <= u32_max ->
  1 <= explicit_pages p c <= u32_max.
Proof.
  intros Hc Hp. unfold explicit_pages.
  pose proof (Z.div_pos (explicit_tokens p - 1) (main_page_tokens c)).
  pose proof (Z.div_le_upper_bound (explicit_tokens p - 1) (main_page_tokens c) (explicit_tokens p - 1)).
  nia.
Qed.

Lemma reservation_bytes_spec c pages :
  curve_range c -> curve_valid c -> 0 <= pages <= u32_max ->
  reservation_bytes c pages =
    if decide (minimum_main_page_groups c <= pages <= maximum_main_page_groups c)
    then if decide (reservation c pages <= u64_max) then Ok (reservation c pages) else Throw OverflowError
    else Throw InvalidArgument.
Proof.
  intros Hr Hv Hp. unfold reservation_bytes.
  rewrite (proj2 (validate_curve_Ok c tt Hr) Hv). cbn [mbind result_bind].
  unfold page_count_in_curve, throw_if. destruct Hr, Hv.
  destruct (Z.ltb_spec pages (minimum_main_page_groups c)); cbn [orb mbind result_bind].
  { by rewrite decide_False by lia. }
  destruct (Z.ltb_spec (maximum_main_page_groups c) pages); cbn [mbind result_bind].
  { by rewrite decide_False by lia. }
  rewrite decide_True by lia. rewrite (w32_small (pages - _)) by lia.
  rewrite checked_mul_spec by lia. unfold reservation.
  destruct (decide (_ <= u64_max)) as [Hm|Hm]; cbn [mbind result_bind].
  - rewrite checked_add_spec by nia. done.
  - rewrite decide_False by lia. done.
Qed.

Lemma resolved_tokens_spec c pages :
  curve_range c -> curve_valid c ->
  minimum_main_page_groups c <= pages <= maximum_main_page_groups c ->
  resolved_tokens c pages =
    if decide (pages * main_page_tokens c <= u32_max) then Ok (pages * main_page_tokens c)
    else Throw OverflowError.
Proof.
  intros Hr Hv Hp. unfold resolved_tokens.
  rewrite (proj2 (validate_curve_Ok c tt Hr) Hv). cbn [mbind result_bind].
  unfold page_count_in_curve, throw_if. destruct Hr, Hv.
  destruct (Z.ltb_spec pages (minimum_main_page_groups c)); [lia|].
  destruct (Z.ltb_spec (maximum_main_page_groups c) pages); [lia|]. cbn [orb mbind result_bind].
  rewrite w64_small by nia.
  by destruct (Z.ltb_spec u32_max (pages * main_page_tokens c)), (decide (pages * main_page_tokens c <= u32_max));
    try lia.
Qed.

(** The largest page count the automatic budget pays for. *)
Definition automatic_pages (c : SequenceCapacityCurve) (budget : Z) : Z :=
  if decide (minimum_main_page_groups c < maximum_main_page_groups c)
  then Z.min (minimum_main_page_groups c +
              (budget - minimum_device_reservation_bytes c) / bytes_per_additional_main_page_group c)
         (maximum_main_page_groups c)
  else minimum_main_page_groups c.

Lemma automatic_pages_spec c budget :
  curve_valid c -> minimum_device_reservation_bytes c <= budget ->
  minimum_main_page_groups c <= automatic_pages c budget <= maximum_main_page_groups c /\
  reservation c (automatic_pages c budget) <= budget /\
  (forall m, m <= maximum_main_page_groups c -> reservation c m <= budget -> m <= automatic_pages c budget).
Proof.
  intros [] Hb. unfold automatic_pages, reservation. case_decide as Hd; [|split_and!; [lia..|lia]].
  pose proof (cv_stride0 Hd) as Hs.
  set (q := (budget - minimum_device_reservation_bytes c) / bytes_per_additional_main_page_group c).
  assert (0 <= q) by (apply Z.div_pos; lia).
  pose proof (Z.mul_div_le (budget - minimum_device_reservation_bytes c) _ Hs) as Hq. fold q in Hq.
  split_and!; [lia|lia|nia|].
  intros m Hm Hres. apply Z.min_glb; [|lia].
  assert (m - minimum_main_page_groups c <= q); [|lia].
  apply Z.div_le_lower_bound; lia.
Qed.

Lemma requested_pages_spec p c available :
  curve_range c -> curve_valid c -> 0 <= explicit_tokens p <= u32_max ->
  0 <= automatic_headroom_bytes p <= u64_max -> 0 <= available <= u64_max ->
  (mode p = Automatic -> available <= u64_max - u32_max) ->
  requested_pages p c available =
    match mode p with
    | Explicit =>
        if decide (automatic_headroom_bytes p = 0 /\ 0 < explicit_tokens p)
        then Ok (explicit_pages p c, available) else Throw InvalidArgument
    | Automatic =>
        if decide (automatic_headroom_bytes p + minimum_device_reservation_bytes c <= available)
        then Ok (automatic_pages c (available - automatic_headroom_bytes p),
                 available - automatic_headroom_bytes p)
        else Throw InvalidArgument
    end.
Proof.
  intros Hr Hv Ht Hh Ha Haut. destruct Hr, Hv. unfold requested_pages, explicit_page_groups, throw_if.
  destruct (mode p); [|specialize (Haut eq_refl)].
  - destruct (Z.eqb_spec (automatic_headroom_bytes p) 0); cbn [negb mbind result_bind];
      [|by rewrite decide_False by lia].
    destruct (Z.eqb_spec (explicit_tokens p) 0); cbn [mbind result_bind]; [by rewrite decide_False by lia|].
    rewrite decide_True by lia.
    pose proof (explicit_pages_range p c cv_tokens0 ltac:(lia)). fold (explicit_pages p c).
    rewrite w64_small by lia. destruct (Z.ltb_spec u32_max (explicit_pages p c)); [lia|done].
  - destruct (Z.ltb_spec available (automatic_headroom_bytes p)); cbn [mbind result_bind];
      [by rewrite decide_False by lia|].
    rewrite (w64_small (available - automatic_headroom_bytes p)) by lia.
    destruct (Z.ltb_spec (available - automatic_headroom_bytes p) (minimum_device_reservation_bytes c));
      cbn [mbind result_bind]; [by rewrite decide_False by lia|].
    rewrite decide_True by lia. unfold automatic_pages.
    destruct (Z.ltb_spec (minimum_main_page_groups c) (maximum_main_page_groups c)) as [Hlt|];
      [|by rewrite decide_False by lia].
    rewrite decide_True by done. pose proof (cv_stride0 Hlt) as Hs.
    rewrite (w64_small (available - automatic_headroom_bytes p - _)) by lia.
    set (q := _ / bytes_per_additional_main_page_group c).
    assert (0 <= q <= available).
    { split; [apply Z.div_pos; lia|]. apply Z.div_le_upper_bound; nia. }
    rewrite (w64_small (minimum_main_page_groups c + q)) by lia.
    rewrite w32_small by lia. done.
Qed.

(** What the policy asks for, in unbounded arithmetic: it is consistent, it names a number of page
    groups, and it leaves a budget for the reservation. *)
Definition policy_valid (p : KvCapacityPolicy) (c : SequenceCapacityCurve) (available : Z) : Prop :=
  match mode p with
  | Explicit => automatic_headroom_bytes p = 0 /\ 0 < explicit_tokens p
  | Automatic => automatic_headroom_bytes p + minimum_device_reservation_bytes c <= available
  end.

#[export] Instance policy_valid_dec p c available : Decision (policy_valid p c available).
Proof. unfold policy_valid. destruct (mode p); apply _. Defined.

Definition policy_groups (p : KvCapacityPolicy) (c : SequenceCapacityCurve) (available : Z) : Z :=
  match mode p with
  | Explicit => explicit_pages p c
  | Automatic => automatic_pages c (available - automatic_headroom_bytes p)
  end.

Definition policy_budget (p : KvCapacityPolicy) (available : Z) : Z :=
  match mode p with Explicit => available | Automatic => available - automatic_headroom_bytes p end.

Definition on_curve (c : SequenceCapacityCurve) (groups : Z) : Prop :=
  minimum_main_page_groups c <= groups <= maximum_main_page_groups c.

(** The integers of a call: the fields in their widths; an automatic policy's page arithmetic adds at
    most 32 bits to the available bytes. *)
Record capacity_call (p : KvCapacityPolicy) (c : SequenceCapacityCurve) (available : Z) : Prop := {
  cc_curve : curve_range c;
  cc_tokens : 0 <= explicit_tokens p <= u32_max;
  cc_headroom : 0 <= automatic_headroom_bytes p <= u64_max;
  cc_available : 0 <= available <= u64_max;
  cc_automatic : mode p = Automatic -> available <= u64_max - u32_max;
}.

Lemma requested_pages_policy p c available :
  capacity_call p c available -> curve_valid c ->
  requested_pages p c available =
    if decide (policy_valid p c available)
    then Ok (policy_groups p c available, policy_budget p available) else Throw InvalidArgument.
Proof.
  intros [] Hv. rewrite requested_pages_spec by done. unfold policy_groups, policy_budget.
  destruct (decide (policy_valid p c available)) as [Hp|Hp]; unfold policy_valid in Hp;
    destruct (mode p); by case_decide.
Qed.

Lemma policy_groups_range p c available :
  capacity_call p c available -> curve_valid c -> policy_valid p c available ->
  0 <= policy_groups p c available <= u32_max.
Proof.
  intros [[] ???] Hv Hp. unfold policy_valid, policy_groups in *. destruct (mode p).
  - pose proof (explicit_pages_range p c (cv_tokens _ Hv) ltac:(lia)). lia.
  - pose proof (automatic_pages_spec c (available - automatic_headroom_bytes p) Hv ltac:(lia)). lia.
Qed.

(** The resolution of [groups] page groups. *)
Definition resolution (p : KvCapacityPolicy) (c : SequenceCapacityCurve) (available groups : Z)
    : KvCapacityResolution :=
  mkResolution (mode p) groups (maximum_main_page_groups c) (groups * main_page_tokens c)
    (minimum_device_reservation_bytes c) (bytes_per_additional_main_page_group c)
    (reservation c groups) available (automatic_headroom_bytes p) (available - reservation c groups).

Lemma resolve_kv_capacity_valid p c available :
  capacity_call p c available -> curve_valid c ->
  let n := policy_groups p c available in
  resolve_kv_capacity p c available =
    if decide (policy_valid p c available) then
      if decide (minimum_main_page_groups c <= n <= maximum_main_page_groups c) then
        if decide (reservation c n <= u64_max) then
          if decide (reservation c n <= policy_budget p available) then
            if decide (n * main_page_tokens c <= u32_max) then Ok (resolution p c available n)
            else Throw OverflowError
          else Throw InvalidArgument
        else Throw OverflowError
      else Throw InvalidArgument
    else Throw InvalidArgument.
Proof.
  intros Hc Hv n. pose proof Hc as [Hr ????]. unfold resolve_kv_capacity.
  rewrite (proj2 (validate_curve_Ok c tt Hr) Hv). cbn [mbind result_bind].
  rewrite requested_pages_policy by done. case_decide as Hp; [|done]. cbn [mbind result_bind].
  rewrite reservation_bytes_spec by (done || by apply policy_groups_range). fold n.
  case_decide as Hin; [|done]. case_decide as Hu; [|done]. cbn [mbind result_bind]. unfold throw_if.
  destruct (Z.ltb_spec (policy_budget p available) (reservation c n)); cbn [mbind result_bind].
  { by rewrite decide_False by lia. }
  rewrite decide_True by lia. rewrite resolved_tokens_spec by done.
  case_decide; [|done]. cbn [mbind result_bind]. unfold resolution.
  pose proof Hr as []. pose proof Hv as [].
  assert (0 <= reservation c n <= available).
  { unfold reservation, policy_budget in *. split; [nia|]. destruct (mode p); lia. }
  by rewrite w64_small by lia.
Qed.

Lemma validate_curve_refuses c e : validate_curve c = Throw e -> e = InvalidArgument.
Proof. unfold validate_curve, throw_if. do 2 case_match; cbn; congruence. Qed.

(** The call's outcomes, in the order of its checks. *)
Definition capacity_well_formed (p : KvCapacityPolicy) (c : SequenceCapacityCurve) (available : Z) : Prop :=
  curve_valid c /\ policy_valid p c available /\ on_curve c (policy_groups p c available).

(** C26: The resolved capacity is exactly the one the policy asks for, in every call whose integers fit
    their types (an automatic policy is given at most [2^64 - 2^32] bytes, so its page count cannot
    wrap).  Each outcome has its exact condition: a call succeeds exactly when the curve is valid, the
    policy is consistent (an explicit one names some tokens and carries no headroom; an automatic one
    finds its headroom and the minimum reservation in the available bytes), the page groups it asks for
    lie on the curve, their reservation fits the budget and their tokens fit 32 bits, and then every
    field of the resolution is the one of that number of groups; it is refused with an argument error
    exactly when one of the first three fails, or the reservation is representable and exceeds the
    budget; with an overflow error exactly when they hold and the reservation exceeds [SIZE_MAX], or
    fits the budget while the tokens exceed 32 bits; no other exception leaves it.  The number of
    groups is the least that holds an explicit policy's tokens, and the largest on the curve whose
    reservation leaves an automatic policy's headroom free. *)
Theorem kv_capacity_resolution p c available :
  capacity_call p c available ->
  let n := policy_groups p c available in
  let wf := capacity_well_formed p c available in
  (forall r, resolve_kv_capacity p c available = Ok r <->
     wf /\ reservation c n <= policy_budget p available /\ n * main_page_tokens c <= u32_max /\
     r = resolution p c available n) /\
  (resolve_kv_capacity p c available = Throw InvalidArgument <->
     ~ wf \/ policy_budget p available < reservation c n <= u64_max) /\
  (resolve_kv_capacity p c available = Throw OverflowError <->
     wf /\ (u64_max < reservation c n \/
            reservation c n <= policy_budget p available /\ u32_max < n * main_page_tokens c)) /\
  (forall e, resolve_kv_capacity p c available = Throw e -> e = InvalidArgument \/ e = OverflowError) /\
  (wf -> match mode p with
         | Explicit => (n - 1) * main_page_tokens c < explicit_tokens p <= n * main_page_tokens c
         | Automatic =>
             reservation c n + automatic_headroom_bytes p <= available /\
             (forall m, m <= maximum_main_page_groups c ->
                reservation c m + automatic_headroom_bytes p <= available -> m <= n)
         end).
Proof.
  intros Hc n wf. pose proof Hc as [Hr _ ? Ha ?].
  assert (Hb : policy_budget p available <= u64_max).
  { unfold policy_budget. destruct (mode p); lia. }
  destruct (validate_curve c) as [[]|e] eqn:Hvc.
  2: { assert (~ wf) by (intros [Hv%(validate_curve_Ok c tt Hr) _]; congruence).
       pose proof (validate_curve_refuses _ _ Hvc) as ->.
       unfold resolve_kv_capacity. rewrite Hvc. cbn [mbind result_bind].
       split_and!; [naive_solver..|done]. }
  apply validate_curve_Ok in Hvc as Hv; [|done].
  rewrite resolve_kv_capacity_valid by done. fold n. subst wf. unfold capacity_well_formed, on_curve. fold n.
  clear Ha Hc Hr. repeat case_decide; (split_and!; [intuition (congruence || lia)..|]); intros (_ & Hp & _); revert Hp;
    unfold policy_valid; subst n; unfold policy_groups; destruct (mode p); intros Hp;
    try (apply explicit_pages_least, Hv);
    (destruct (automatic_pages_spec c (available - automatic_headroom_bytes p) Hv ltac:(lia))
      as (Hin & Hres & Hmax); split; [lia|]; intros m Hm Hres'; apply Hmax; lia).
Qed.

Lemma kv_capacity_resolution_witness :
  resolve_kv_capacity (mkPolicy Automatic 0 100) (mkCurve 64 2 10 50 20) 250 =
    Ok (mkResolution Automatic 7 10 448 50 20 150 250 100 100) /\
  resolve_kv_capacity (mkPolicy Explicit 448 100) (mkCurve 64 2 10 50 20) 250 = Throw InvalidArgument.
Proof.
  split.
  - apply (proj1 (kv_capacity_resolution (mkPolicy Automatic 0 100) (mkCurve 64 2 10 50 20) 250
                    ltac:(by split; [split|..]; cbn))).
    split_and!; [split_and!; [split; cbn; lia|cbn; lia|split; vm_compute; discriminate]|vm_compute; discriminate..|reflexivity].
  - apply (proj1 (proj2 (kv_capacity_resolution (mkPolicy Explicit 448 100) (mkCurve 64 2 10 50 20) 250
                    ltac:(by split; [split|..]; cbn)))).
    left. intros (_ & [H _] & _). cbn in H. lia.
Defined.
