(* ===== verification/Scheduler.v ===== *)
(** * Request scheduling (runtime/engine/admission_policy.cpp, scheduler.h, generation_budget.h)

    The FIFO admission policy with protected-head backfill, the round and control memberships, the
    choice of the next execution unit and the token budget of a request. *)

From S2P Require Import Prelude.

Definition kMaximumConcurrency : Z := 8.

(** ** Generation budget *)

Inductive FinishReason :=
  | FinishNone | OutputLimit | ContextCapacity | StopToken | StopString | Cancelled.

#[export] Instance FinishReason_eq_dec : EqDecision FinishReason.
Proof. solve_decision. Defined.

Record GenerationBudget := mkBudget { remaining : Z; limit_reason : FinishReason }.

Definition make_budget (effective_tokens : Z) (reason : FinishReason) : result GenerationBudget :=
  _ ← throw_if (negb (bool_decide (reason = OutputLimit)) &&
                negb (bool_decide (reason = ContextCapacity))) Terminate;
  Ok (mkBudget effective_tokens reason).

Definition budget_commit (b : GenerationBudget) (tokens : Z) : result GenerationBudget :=
  _ ← throw_if (remaining b <? tokens) Terminate;
  Ok (mkBudget (w32 (remaining b - tokens)) (limit_reason b)).

(** ** Admission protection *)

Inductive BackfillClass := BackfillNone | Persistent.

#[export] Instance BackfillClass_eq_dec : EqDecision BackfillClass.
Proof. solve_decision. Defined.

Record ActiveAdmissionSnapshot := mkSnapshot {
  request_id : Z;
  backfill_epoch : Z;
  backfill_class : BackfillClass;
}.

(** [donor_ids] holds the first [donor_count] entries of the array. *)
Record AdmissionProtection := mkProtection {
  epoch_id : Z;
  head_request_id : Z;
  resource_revision : Z;
  donor_ids : list Z;
}.

Definition is_donor (p : AdmissionProtection) (id : Z) : bool := bool_decide (id ∈ donor_ids p).

(** A current-epoch persistent borrower. *)
Definition is_borrower (p : AdmissionProtection) (r : ActiveAdmissionSnapshot) : bool :=
  (backfill_epoch r =? epoch_id p) && bool_decide (backfill_class r = Persistent).

(** The loop of [validate_active_partition]; [prior] are the rows already seen. *)
Fixpoint validate_rows (p : AdmissionProtection) (prior : list Z) (active : list ActiveAdmissionSnapshot)
    : result unit :=
  match active with
  | [] => Ok tt
  | r :: active =>
      _ ← throw_if ((request_id r =? 0) || (request_id r =? head_request_id p)) InvalidArgument;
      _ ← throw_if (bool_decide (request_id r ∈ prior)) InvalidArgument;
      _ ← (if is_donor p (request_id r) then throw_if (is_borrower p r) LogicError
           else throw_if (negb (is_borrower p r)) LogicError);
      validate_rows p (prior ++ [request_id r]) active
  end.

Definition validate_active_partition (p : AdmissionProtection) (active : list ActiveAdmissionSnapshot)
    : result unit :=
  _ ← throw_if (kMaximumConcurrency <? Z.of_nat (length active)) InvalidArgument;
  validate_rows p [] active.

(** The loop of [make_admission_protection]; [donors] are the identities added so far. *)
Fixpoint add_donors (head : Z) (donors : list Z) (active : list ActiveAdmissionSnapshot)
    : result (list Z) :=
  match active with
  | [] => Ok donors
  | r :: active =>
      _ ← throw_if ((request_id r =? 0) || (request_id r =? head) ||
                    bool_decide (request_id r ∈ donors)) InvalidArgument;
      add_donors head (donors ++ [request_id r]) active
  end.

Definition make_admission_protection (epoch head revision : Z) (active : list ActiveAdmissionSnapshot)
    : result AdmissionProtection :=
  _ ← throw_if ((epoch =? 0) || (head =? 0) || (revision =? 0) || bool_decide (active = []) ||
                (kMaximumConcurrency <? Z.of_nat (length active))) InvalidArgument;
  donors ← add_donors head [] active;
  Ok (mkProtection epoch head revision donors).

Definition rebind_admission_protection (p : AdmissionProtection)
    (active : list ActiveAdmissionSnapshot) (revision : Z) : result AdmissionProtection :=
  _ ← throw_if ((epoch_id p =? 0) || (head_request_id p =? 0) || (revision =? 0)) InvalidArgument;
  _ ← validate_active_partition p active;
  Ok (mkProtection (epoch_id p) (head_request_id p) revision (donor_ids p)).

Definition protection_has_live_donor (p : AdmissionProtection) (active : list ActiveAdmissionSnapshot)
    : bool :=
  existsb (fun r => is_donor p (request_id r)) active.

Definition persistent_backfill_is_authorized (p : AdmissionProtection) (candidate : Z)
    (active : list ActiveAdmissionSnapshot) (proof_revision : Z) : bool :=
  if (candidate =? 0) || (candidate =? head_request_id p) || (proof_revision =? 0) ||
     negb (proof_revision =? resource_revision p) || negb (protection_has_live_donor p active)
  then false
  else forallb (fun r => negb (request_id r =? candidate) &&
                         (is_donor p (request_id r) || is_borrower p r)) active.

(** ** The scheduler *)

Record Scheduler := mkScheduler {
  prefill_lane : option Z;
  fifo_head_id : option Z;
  protection : option AdmissionProtection;
  next_protection_epoch : Z;
}.

Definition scheduler_init : Scheduler := mkScheduler None None None 1.

Record AdmissionGrant := mkGrant {
  gr_request_id : Z;
  gr_class : BackfillClass;
  gr_epoch : Z;
  gr_revision : Z;
  gr_work : Z;
}.

Definition set_prefill_lane (lane : Z) : M Scheduler unit :=
  s ← mget;
  _ ← mthrow_if (bool_decide (is_Some (prefill_lane s))) LogicError;
  mput (mkScheduler (Some lane) (fifo_head_id s) (protection s) (next_protection_epoch s)).

Definition clear_prefill_lane (lane : Z) : M Scheduler unit :=
  s ← mget;
  _ ← mthrow_if (negb (bool_decide (prefill_lane s = Some lane))) LogicError;
  mput (mkScheduler None (fifo_head_id s) (protection s) (next_protection_epoch s)).

Definition set_head (h : option Z) (p : option AdmissionProtection) (s : Scheduler) : Scheduler :=
  mkScheduler (prefill_lane s) h p (next_protection_epoch s).

Definition observe_fifo_head (id : option Z) (s : Scheduler) : Scheduler :=
  if bool_decide (fifo_head_id s = id) then s else set_head id None s.

(** [Scheduler::on_waiting_removed] *)
Definition on_waiting_removed (id : Z) (s : Scheduler) : Scheduler :=
  if bool_decide (fifo_head_id s = Some id) then set_head None None s else s.

Definition grant_head (id work : Z) (s : Scheduler) : result AdmissionGrant :=
  _ ← throw_if (negb (bool_decide (fifo_head_id s = Some id)) || (id =? 0) || (work =? 0)) LogicError;
  Ok (mkGrant id BackfillNone 0 0 work).

(** The epoch counter advances before the construction can throw. *)
Definition protect_blocked_head (id : Z) (active : list ActiveAdmissionSnapshot) (revision : Z)
    : M Scheduler bool :=
  s ← mget;
  _ ← mthrow_if (negb (bool_decide (fifo_head_id s = Some id))) LogicError;
  p ← match protection s with
      | None =>
          _ ← mput (mkScheduler (prefill_lane s) (fifo_head_id s) None (w64 (next_protection_epoch s + 1)));
          mlift (make_admission_protection (next_protection_epoch s) id revision active)
      | Some p =>
          _ ← mthrow_if (negb (head_request_id p =? id)) LogicError;
          mlift (rebind_admission_protection p active revision)
      end;
  _ ← mmodify (fun s => set_head (fifo_head_id s) (Some p) s);
  mret (protection_has_live_donor p active).

Definition qualify_backfill (id work : Z) (active : list ActiveAdmissionSnapshot) (proof_revision : Z)
    (s : Scheduler) : result (option AdmissionGrant) :=
  match fifo_head_id s, protection s with
  | Some head, Some p =>
      _ ← throw_if (negb (head_request_id p =? head)) LogicError;
      _ ← throw_if ((id =? 0) || (id =? head) || (work =? 0)) LogicError;
      if persistent_backfill_is_authorized p id active proof_revision
      then Ok (Some (mkGrant id Persistent (epoch_id p) proof_revision work))
      else Ok None
  | _, _ => Throw LogicError
  end.

Definition validate_grant (g : AdmissionGrant) (s : Scheduler) : bool :=
  if (gr_request_id g =? 0) || (gr_work g =? 0) then false
  else
    match gr_class g with
    | BackfillNone =>
        (gr_epoch g =? 0) && (gr_revision g =? 0) && bool_decide (fifo_head_id s = Some (gr_request_id g))
    | Persistent =>
        match fifo_head_id s, protection s with
        | Some head, Some p =>
            (head_request_id p =? head) && (epoch_id p =? gr_epoch g) &&
            (resource_revision p =? gr_revision g) && negb (gr_request_id g =? head)
        | _, _ => false
        end
    end.

(** The grant is consumed: its identity and work are cleared. *)
Definition spent (g : AdmissionGrant) : AdmissionGrant :=
  mkGrant 0 (gr_class g) (gr_epoch g) (gr_revision g) 0.

Definition commit_admission (g : AdmissionGrant) : M Scheduler AdmissionGrant :=
  s ← mget;
  _ ← mthrow_if (negb (validate_grant g s)) LogicError;
  _ ← match gr_class g with BackfillNone => mput (set_head None None s) | Persistent => mret tt end;
  mret (spent g).

(** [Scheduler::reset] *)
Definition scheduler_reset (s : Scheduler) : Scheduler :=
  mkScheduler None None None (next_protection_epoch s).

(** ** Choosing the next unit of work *)

Inductive ExecutionAction := Prefill | Decode | Wait.

#[export] Instance ExecutionAction_eq_dec : EqDecision ExecutionAction.
Proof. solve_decision. Defined.

Definition should_attempt_admission (s : Scheduler)
    (have_pending admission_check_pending have_decode previous_unit_was_decode context_transaction : bool)
    : bool :=
  have_pending && admission_check_pending && negb context_transaction &&
  bool_decide (prefill_lane s = None) && (negb have_decode || previous_unit_was_decode).

Definition choose_execution (have_decode prefill_runnable previous_unit_was_decode : bool)
    : ExecutionAction :=
  if prefill_runnable then
    if have_decode && negb previous_unit_was_decode then Decode else Prefill
  else if have_decode then Decode else Wait.

(** The tail of one iteration of [worker_loop]: the unit that runs ([None] is a control batch) and
    the new [previous_unit_was_decode]. *)
Definition worker_unit (have_control have_decode prefill_runnable previous : bool)
    : option ExecutionAction * bool :=
  if have_control then (None, true)
  else
    match choose_execution have_decode prefill_runnable previous with
    | Prefill => (Some Prefill, false)
    | Decode => (Some Decode, true)
    | Wait => (Some Wait, previous)
    end.

(** ** Requests and memberships *)

Inductive EngineRequestState :=
  | Waiting | Materializing | Prefilling | DecodeReady | ControlReady | ModelFinished.

#[export] Instance EngineRequestState_eq_dec : EqDecision EngineRequestState.
Proof. solve_decision. Defined.

(** What the scheduler needs of a model's output session: the model tokens it may still sample out
    of a budget, and the control tokens it wants to force. *)
Class OutputSession (O : Type) := {
  model_token_budget_remaining : O -> Z -> Z;
  pending_control_tokens : O -> list Z;
}.

Section requests.
Context {H O : Type} `{!OutputSession O}.

(** The fields of [RequestRecord] the scheduler uses; [H] is the model's sequence handle. *)
Record Request := mkRequest {
  rq_id : Z;
  rq_output : O;
  rq_budget : option GenerationBudget;
  rq_sequence : option H;
  rq_state : EngineRequestState;
  rq_capture_pending : bool;
  rq_remaining_service_work : Z;
  rq_backfill_epoch : Z;
  rq_backfill_class : BackfillClass;
}.

Definition is_decode_ready (r : Request) : bool := bool_decide (rq_state r = DecodeReady).
Definition is_control_ready (r : Request) : bool := bool_decide (rq_state r = ControlReady).

Record RoundMembership := mkRound { rm_lanes : list Z; rm_sequences : list H; rm_budgets : list Z }.

Definition round_step (m : RoundMembership) (lane : Z) (slot : option Request) : result RoundMembership :=
  match slot with
  | None => Ok m
  | Some r =>
      if negb (is_decode_ready r) || rq_capture_pending r then Ok m
      else
        match rq_budget r, rq_sequence r with
        | Some b, Some q =>
            let n := model_token_budget_remaining (rq_output r) (remaining b) in
            _ ← throw_if (n =? 0) LogicError;
            Ok (mkRound (rm_lanes m ++ [lane]) (rm_sequences m ++ [q]) (rm_budgets m ++ [n]))
        | _, _ => Throw LogicError
        end
  end.

Fixpoint round_loop (m : RoundMembership) (lane : Z) (slots : list (option Request))
    : result RoundMembership :=
  match slots with
  | [] => Ok m
  | slot :: slots => m ← round_step m lane slot; round_loop m (lane + 1) slots
  end.

Definition build_round_membership (slots : list (option Request)) (max_concurrency : Z)
    : result RoundMembership :=
  round_loop (mkRound [] [] []) 0 (take (Z.to_nat max_concurrency) slots).

Record ControlMembership := mkControl {
  cm_lanes : list Z;
  cm_sequences : list H;
  cm_tokens : list Z;
  cm_row_stride : Z;
}.

Definition control_step (m : ControlMembership) (lane : Z) (slot : option Request)
    : result ControlMembership :=
  match slot with
  | None => Ok m
  | Some r =>
      if negb (is_control_ready r) || rq_capture_pending r then Ok m
      else
        match rq_budget r, rq_sequence r with
        | Some b, Some q =>
            let control := pending_control_tokens (rq_output r) in
            let size := Z.of_nat (length control) in
            _ ← throw_if (bool_decide (control = []) || (remaining b <? size)) LogicError;
            _ ← throw_if (negb (cm_row_stride m =? 0) && negb (size =? cm_row_stride m)) LogicError;
            Ok (mkControl (cm_lanes m ++ [lane]) (cm_sequences m ++ [q]) (cm_tokens m ++ control)
                  (if cm_row_stride m =? 0 then w32 size else cm_row_stride m))
        | _, _ => Throw LogicError
        end
  end.

Fixpoint control_loop (m : ControlMembership) (lane : Z) (slots : list (option Request))
    : result ControlMembership :=
  match slots with
  | [] => Ok m
  | slot :: slots => m ← control_step m lane slot; control_loop m (lane + 1) slots
  end.

Definition build_control_membership (slots : list (option Request)) (max_concurrency : Z)
    : result ControlMembership :=
  control_loop (mkControl [] [] [] 0) 0 (take (Z.to_nat max_concurrency) slots).

Definition snapshot_of (r : Request) : ActiveAdmissionSnapshot :=
  mkSnapshot (rq_id r) (rq_backfill_epoch r) (rq_backfill_class r).

Fixpoint active_loop (active : list ActiveAdmissionSnapshot) (slots : list (option Request))
    : result (list ActiveAdmissionSnapshot) :=
  match slots with
  | [] => Ok active
  | None :: slots => active_loop active slots
  | Some r :: slots =>
      _ ← throw_if (rq_remaining_service_work r =? 0) LogicError;
      active_loop (active ++ [snapshot_of r]) slots
  end.

Definition active_admission_set (slots : list (option Request)) (max_concurrency : Z)
    : result (list ActiveAdmissionSnapshot) :=
  active_loop [] (take (Z.to_nat max_concurrency) slots).

Definition consume_service_work (r : Request) (work : Z) : result Request :=
  _ ← throw_if ((work =? 0) || (rq_remaining_service_work r <? work)) LogicError;
  Ok (mkRequest (rq_id r) (rq_output r) (rq_budget r) (rq_sequence r) (rq_state r)
        (rq_capture_pending r) (w64 (rq_remaining_service_work r - work)) (rq_backfill_epoch r)
        (rq_backfill_class r)).

End requests.

Arguments Request : clear implicits.
Arguments RoundMembership : clear implicits.
Arguments ControlMembership : clear implicits.

(** ** The admission pass of the worker

    The scheduler calls of [EngineCore::try_admit_one] and [admit_planned_request].  What the resource
    manager, the clock and the cancellation flags answer is an input. *)

(** A waiting request whose inspection is ready has a service work; [cd_proof] is the revision of the
    program's backfill proof. *)
Record Candidate := mkCandidate { cd_id : Z; cd_work : option Z; cd_proof : option Z }.

(** The loop over the backfill candidates: the first grant. *)
Fixpoint backfill_loop (active : list ActiveAdmissionSnapshot) (candidates : list Candidate)
    (s : Scheduler) : result (option AdmissionGrant) :=
  match candidates with
  | [] => Ok None
  | c :: candidates =>
      match cd_work c, cd_proof c with
      | Some work, Some proof =>
          grant ← qualify_backfill (cd_id c) work active proof s;
          match grant with
          | Some g => Ok (Some g)
          | None => backfill_loop active candidates s
          end
      | _, _ => backfill_loop active candidates s
      end
  end.

(** The grant of one pass over a queue with the given head: [cd_work] of the head says whether it is
    ready; [active] is the [active_admission_set] of the slots, taken only for a blocked head. *)
Definition admission_pass (head : Candidate) (rest : list Candidate)
    (active : result (list ActiveAdmissionSnapshot)) (revision : Z) : M Scheduler (option AdmissionGrant) :=
  _ ← mmodify (observe_fifo_head (Some (cd_id head)));
  s ← mget;
  match cd_work head with
  | Some work => g ← mlift (grant_head (cd_id head) work s); mret (Some g)
  | None =>
      active ← mlift active;
      _ ← mthrow_if (bool_decide (active = [])) LogicError;
      protect_blocked_head (cd_id head) active revision ≫= fun live : bool =>
        if live then s ← mget; mlift (backfill_loop active rest s) else mret None
  end.

(** How [admit_planned_request] ends: the request expired or was cancelled first, its choice was
    stale, its reservation was aborted, or it is admitted. *)
Inductive AdmitOutcome := Expired | Stale | Aborted | Accepted.

Definition admit_planned (g : AdmissionGrant) (outcome : AdmitOutcome) : M Scheduler bool :=
  match outcome with
  | Expired => _ ← mmodify (on_waiting_removed (gr_request_id g)); mret false
  | _ =>
      s ← mget;
      _ ← mthrow_if (negb (validate_grant g s)) LogicError;
      match outcome with
      | Stale => mret false
      | Aborted => _ ← mmodify (on_waiting_removed (gr_request_id g)); mret false
      | _ => _ ← commit_admission g; mret true
      end
  end.
