(* ===== verification/SchedulerSpec.v ===== *)
(** * Correctness of request scheduling

    The worker's admission protocol as a transition system over the scheduler, the FIFO queue, the
    slots and the materialization in flight; the protocol never trips one of the scheduler's internal
    checks, and the donors of a protected head are frozen, so backfill cannot starve it.  Further:
    fairness of the unit choice, the memberships and the token budget. *)

From stdpp Require Import sorting.
From S2P Require Import Prelude Scheduler.
Open Scope Z_scope.

(** ** The admission protocol *)

(** An admitted request: its identity, its accounting and its remaining service work; the model's
    sequence and output session are not read by the protocol. *)
Abbreviation ActiveRequest := (Request unit unit).

(** The request that [admit_planned_request] materializes and the adoption puts in its slot: the
    service work is the one its grant was given for. *)
Definition activate (g : AdmissionGrant) : ActiveRequest :=
  mkRequest (gr_request_id g) tt None (Some tt) Prefilling false (gr_work g) (gr_epoch g) (gr_class g).

(** The materialization in flight has a destination lane and the request its slot will hold. *)
Record Control := mkCtl {
  ct_sched : Scheduler;
  ct_pending : list Z;
  ct_slots : list (option ActiveRequest);
  ct_materializing : option (Z * ActiveRequest);
  ct_next_id : Z;
}.

Definition control_init (max_concurrency : Z) : Control :=
  mkCtl scheduler_init [] (replicate (Z.to_nat max_concurrency) None) None 1.

Definition active (c : Control) : list ActiveRequest := omap (fun x => x) (ct_slots c).
Definition active_set (c : Control) : list ActiveAdmissionSnapshot := snapshot_of <$> active c.

(** Everything that has been admitted and not finished. *)
Definition requests (c : Control) : list ActiveRequest :=
  active c ++ match ct_materializing c with Some (_, r) => [r] | None => [] end.
Definition entries (c : Control) : list ActiveAdmissionSnapshot := snapshot_of <$> requests c.

(** [answers] says of a waiting request whether its inspection is ready, with its service work, and
    whether the program proves its backfill.  A unit that goes on serves some of a request's work; the
    unit that ends a request serves the rest of what it needs, or nothing when it is cancelled. *)
Inductive Event :=
  | Submit
  | Leave (id : Z)
  | Serve (lane work : Z)
  | Finish (lane work : Z)
  | PrefillDone
  | Publish
  | AbortMaterialization
  | Pass (answers : Z -> option Z * option Z) (revision destination : Z) (outcome : AdmitOutcome).

Definition candidate_of (answers : Z -> option Z * option Z) (id : Z) : Candidate :=
  mkCandidate id (answers id).1 (answers id).2.

Definition without (id : Z) (l : list Z) : list Z := filter (fun x => x ≠ id) l.

(** Settling a grant: what [admit_planned_request] does to the queue and the materialization; the
    destination must be free. *)
Definition settle (g : AdmissionGrant) (destination : Z) (outcome : AdmitOutcome) (s : Scheduler)
    (c : Control) : result Control :=
  match admit_planned g outcome s with
  | (_, Throw e) => Throw e
  | (s, Ok true) =>
      match ct_materializing c, at_index (ct_slots c) destination with
      | None, Some None =>
          Ok (mkCtl s (without (gr_request_id g) (ct_pending c)) (ct_slots c)
                (Some (destination, activate g)) (ct_next_id c))
      | None, None => Throw Terminate
      | _, _ => Throw LogicError
      end
  | (s, Ok false) =>
      Ok (mkCtl s (match outcome with
                   | Stale => ct_pending c | _ => without (gr_request_id g) (ct_pending c) end)
            (ct_slots c) (ct_materializing c) (ct_next_id c))
  end.

Definition with_sched (s : Scheduler) (c : Control) : Control :=
  mkCtl s (ct_pending c) (ct_slots c) (ct_materializing c) (ct_next_id c).

Definition pass (answers : Z -> option Z * option Z) (revision destination : Z) (outcome : AdmitOutcome)
    (c : Control) : result Control :=
  match ct_pending c with
  | [] => Ok (with_sched (observe_fifo_head None (ct_sched c)) c)
  | h :: rest =>
      match admission_pass (candidate_of answers h) (candidate_of answers <$> rest)
              (active_admission_set (ct_slots c) (Z.of_nat (length (ct_slots c)))) revision (ct_sched c) with
      | (_, Throw e) => Throw e
      | (s, Ok None) => Ok (with_sched s c)
      | (s, Ok (Some g)) => settle g destination outcome s c
      end
  end.

(** The request of a lane after a unit that served [work] of it. *)
Definition serve (lane work : Z) (c : Control) : result ActiveRequest :=
  match at_index (ct_slots c) lane with
  | Some (Some r) => consume_service_work r work
  | _ => Throw Terminate
  end.

Definition with_slot (lane : Z) (r : option ActiveRequest) (c : Control) : Control :=
  mkCtl (ct_sched c) (ct_pending c) (set_index (ct_slots c) lane r) (ct_materializing c) (ct_next_id c).

Definition step (c : Control) (e : Event) : result Control :=
  match e with
  | Submit =>
      Ok (mkCtl (ct_sched c) (ct_pending c ++ [ct_next_id c]) (ct_slots c) (ct_materializing c)
            (w64 (ct_next_id c + 1)))
  | Leave id =>
      Ok (mkCtl (on_waiting_removed id (ct_sched c)) (without id (ct_pending c)) (ct_slots c)
            (ct_materializing c) (ct_next_id c))
  | Serve lane work => r ← serve lane work c; Ok (with_slot lane (Some r) c)
  | Finish lane work =>
      _ ← (if work =? 0 then Ok tt else _ ← serve lane work c; Ok tt);
      if bool_decide (prefill_lane (ct_sched c) = Some lane) then
        match clear_prefill_lane lane (ct_sched c) with
        | (s, Ok _) => Ok (with_sched s (with_slot lane None c))
        | (_, Throw e) => Throw e
        end
      else Ok (with_slot lane None c)
  | PrefillDone =>
      match prefill_lane (ct_sched c) with
      | None => Ok c
      | Some lane =>
          match clear_prefill_lane lane (ct_sched c) with
          | (s, Ok _) => Ok (with_sched s c)
          | (_, Throw e) => Throw e
          end
      end
  | Publish =>
      match ct_materializing c with
      | None => Ok c
      | Some (lane, x) =>
          match set_prefill_lane lane (ct_sched c) with
          | (s, Ok _) =>
              Ok (mkCtl s (ct_pending c) (set_index (ct_slots c) lane (Some x)) None (ct_next_id c))
          | (_, Throw e) => Throw e
          end
      end
  | AbortMaterialization =>
      Ok (mkCtl (ct_sched c) (ct_pending c) (ct_slots c) None (ct_next_id c))
  | Pass answers revision destination outcome =>
      if should_attempt_admission (ct_sched c) true true false true
           (bool_decide (is_Some (ct_materializing c)))
      then pass answers revision destination outcome c else Ok c
  end.

(** A service work that is not used up, of 64 bits. *)
Definition work_left (work : Z) : Prop := 1 <= work <= u64_max.

(** What the rest of the engine guarantees.  Lanes are unsigned.  Of a unit: it serves an active
    request, some of its remaining work, and not all of it unless it ends the request.  Of an admission
    pass: the program's revision and every service work are not zero, the destination is a free lane,
    and the head is not blocked in an idle engine. *)
Definition event_ok (c : Control) (e : Event) : Prop :=
  match e with
  | Serve lane work => exists r, at_index (ct_slots c) lane = Some (Some r) /\ 0 < work < rq_remaining_service_work r
  | Finish lane work => 0 <= lane /\
      (work = 0 \/ exists r, at_index (ct_slots c) lane = Some (Some r) /\ 0 < work <= rq_remaining_service_work r)
  | Pass answers revision destination _ =>
      revision <> 0 /\ (forall id work, (answers id).1 = Some work -> work_left work) /\
      at_index (ct_slots c) destination = Some None /\
      (active_set c = [] -> forall h, head (ct_pending c) = Some h -> is_Some (answers h).1)
  | _ => True
  end.

(** [run c n c']: [n] events lead from [c] to [c']. *)
Inductive run (c : Control) : Z -> Control -> Prop :=
  | run_done : run c 0 c
  | run_step n c1 e c2 : run c n c1 -> event_ok c1 e -> step c1 e = Ok c2 -> run c (n + 1) c2.

(** ** The invariant *)

Definition ids (c : Control) : list Z := ct_pending c ++ (request_id <$> entries c).

(** [p] protects the FIFO head: its donors have left the queue for good, and every other admitted
    request is a borrower of this epoch. *)
Record protected (c : Control) (p : AdmissionProtection) : Prop := {
  pr_head : fifo_head_id (ct_sched c) = Some (head_request_id p);
  pr_epoch : 1 <= epoch_id p < next_protection_epoch (ct_sched c);
  pr_revision : resource_revision p <> 0;
  pr_donors : Forall (fun d => d < ct_next_id c /\ d ∉ ct_pending c) (donor_ids p);
  pr_entries : Forall (fun x => is_borrower p x = negb (is_donor p (request_id x))) (entries c);
}.

Record control_inv (n : Z) (c : Control) : Prop := {
  ci_ids : NoDup (ids c);
  ci_range : Forall (fun i => 1 <= i < ct_next_id c) (ids c);
  ci_next : 1 <= ct_next_id c <= n + 1;
  ci_epoch : 1 <= next_protection_epoch (ct_sched c) <= n + 1;
  ci_sorted : StronglySorted Z.lt (ct_pending c);
  ci_slots : Z.of_nat (length (ct_slots c)) <= kMaximumConcurrency;
  ci_entries : Forall (fun x => backfill_epoch x < next_protection_epoch (ct_sched c)) (entries c);
  ci_head : forall h, fifo_head_id (ct_sched c) = Some h -> head (ct_pending c) = Some h;
  ci_protection : forall p, protection (ct_sched c) = Some p -> protected c p;
  ci_lane : is_Some (prefill_lane (ct_sched c)) -> ct_materializing c = None;
  ci_destination : forall l x, ct_materializing c = Some (l, x) -> at_index (ct_slots c) l = Some None;
  ci_work : Forall (fun r => work_left (rq_remaining_service_work r)) (requests c);
}.

Lemma control_init_inv mc : mc <= kMaximumConcurrency -> control_inv 0 (control_init mc).
Proof.
  intros Hmc. assert (requests (control_init mc) = []) as Hr.
  { unfold requests, active, control_init. cbn. rewrite app_nil_r.
    induction (Z.to_nat mc); [done|]. by cbn. }
  assert (entries (control_init mc) = []) as He by (unfold entries; by rewrite Hr).
  assert (kMaximumConcurrency = 8) by done.
  split; unfold ids; rewrite ?He, ?Hr; cbn; try constructor; try done; try lia.
  - rewrite length_replicate. lia.
Qed.

Lemma omap_set_none {A} (l : list (option A)) i :
  sublist (omap (fun x => x) (<[i := None]> l)) (omap (fun x => x) l).
Proof.
  revert i. induction l as [|[a|] l IH]; intros [|i]; cbn; try done.
  - by apply sublist_cons.
  - by apply sublist_skip.
Qed.

Lemma omap_set_some {A} (l : list (option A)) i x :
  l !! i = Some None -> omap (fun x => x) (<[i := Some x]> l) ≡ₚ x :: omap (fun x => x) l.
Proof.
  revert i. induction l as [|[a|] l IH]; intros [|i] Hi; cbn in *; try discriminate.
  - rewrite IH by done. by rewrite Permutation_swap.
  - done.
  - by apply IH.
Qed.

Lemma omap_set_same {A} (l : list (option A)) i x y :
  l !! i = Some (Some y) -> exists k, omap (fun x => x) l ≡ₚ y :: k /\ omap (fun x => x) (<[i := Some x]> l) ≡ₚ x :: k.
Proof.
  revert i. induction l as [|[a|] l IH]; intros [|i] Hi; cbn in *; try discriminate.
  - injection Hi as ->. by exists (omap (fun x => x) l).
  - destruct (IH _ Hi) as (k & H1 & H2). exists (a :: k). rewrite H1, H2. split; apply Permutation_swap.
  - by apply IH.
Qed.

(** The requests that [active_admission_set] reports, or its exception. *)
Lemma active_loop_spec (slots : list (option ActiveRequest)) : forall before,
  active_loop before slots =
    if decide (Forall (fun r => rq_remaining_service_work r <> 0) (omap (fun x => x) slots))
    then Ok (before ++ (snapshot_of <$> omap (fun x => x) slots)) else Throw LogicError.
Proof.
  induction slots as [|[r|] slots IH]; intros before; cbn [active_loop omap list_omap fmap list_fmap].
  - by rewrite decide_True, app_nil_r by constructor.
  - destruct (Z.eqb_spec (rq_remaining_service_work r) 0) as [Hz|Hz]; cbn [throw_if mbind result_bind].
    + rewrite decide_False; [done|]. by intros [? _]%Forall_cons.
    + rewrite IH, <- app_assoc. case_decide as Hd; case_decide as Hd2; try done.
      * destruct Hd2. by constructor.
      * by apply Forall_cons in Hd2 as [_ ?].
  - apply IH.
Qed.

Lemma active_admission_set_spec c :
  active_admission_set (ct_slots c) (Z.of_nat (length (ct_slots c))) =
    if decide (Forall (fun r => rq_remaining_service_work r <> 0) (active c)) then Ok (active_set c) else Throw LogicError.
Proof.
  unfold active_admission_set. rewrite Nat2Z.id, take_ge by done. by rewrite active_loop_spec.
Qed.

Lemma omap_length {A} (l : list (option A)) : (length (omap (fun x => x) l) <= length l)%nat.
Proof. induction l as [|[a|] l IH]; cbn; lia. Qed.

Lemma without_sublist id l : sublist (without id l) l.
Proof. apply sublist_filter. Qed.

Lemma elem_of_without x id l : x ∈ without id l <-> x <> id /\ x ∈ l.
Proof. unfold without. by rewrite list_elem_of_filter. Qed.

Lemma head_without h id l : head l = Some h -> h <> id -> head (without id l) = Some h.
Proof.
  destruct l as [|a l]; [done|]. intros [= ->] Hne. unfold without. by rewrite filter_cons_True.
Qed.

Lemma StronglySorted_sublist l k : sublist k l -> StronglySorted Z.lt l -> StronglySorted Z.lt k.
Proof.
  induction 1 as [|a k l Hs IH|a k l Hs IH]; intros Hl; [done| |];
    apply StronglySorted_inv in Hl as [Hl Ha]; [|by apply IH].
  constructor; [by apply IH|]. rewrite Forall_forall in *. intros y Hy. apply Ha.
  by eapply sublist_subseteq.
Qed.

(** A state with less: fewer waiting requests, fewer entries, a protection only if there was one. *)
Lemma control_inv_shrink n m c c' :
  control_inv n c -> n <= m ->
  sublist (ct_pending c') (ct_pending c) -> entries c' ⊆+ entries c ->
  ct_next_id c' = ct_next_id c -> length (ct_slots c') = length (ct_slots c) ->
  next_protection_epoch (ct_sched c') = next_protection_epoch (ct_sched c) ->
  (forall h, fifo_head_id (ct_sched c') = Some h ->
     fifo_head_id (ct_sched c) = Some h /\ head (ct_pending c') = Some h) ->
  (forall p, protection (ct_sched c') = Some p -> protection (ct_sched c) = Some p /\
     fifo_head_id (ct_sched c') = fifo_head_id (ct_sched c)) ->
  (is_Some (prefill_lane (ct_sched c')) -> ct_materializing c' = None) ->
  (forall l x, ct_materializing c' = Some (l, x) -> at_index (ct_slots c') l = Some None) ->
  Forall (fun r => work_left (rq_remaining_service_work r)) (requests c') ->
  control_inv m c'.
Proof.
  intros [] Hm Hp He Hid Hlen Hne Hh Hpr Hl Hd Hw.
  assert (ids c' ⊆+ ids c) as Hids.
  { apply submseteq_app; [by apply sublist_submseteq|]. by apply fmap_submseteq. }
  pose proof (submseteq_Permutation _ _ Hids) as (k & Hk).
  pose proof (submseteq_Permutation _ _ He) as (k' & Hk').
  split; rewrite ?Hid, ?Hlen, ?Hne; try done; try lia.
  - rewrite Hk in ci_ids0. by apply NoDup_app in ci_ids0 as [? _].
  - rewrite Hk in ci_range0. by apply Forall_app in ci_range0 as [? _].
  - by apply (StronglySorted_sublist (ct_pending c)).
  - rewrite Hk' in ci_entries0. by apply Forall_app in ci_entries0 as [? _].
  - intros h Hh'. by apply Hh.
  - intros p Hp'. apply Hpr in Hp' as [Hp' Hf]. apply ci_protection0 in Hp' as [].
    split; rewrite ?Hid, ?Hne, ?Hf; try done.
    + eapply Forall_impl; [done|]. cbn. intros d [? Hnin]. split; [done|].
      intros Hin. by eapply Hnin, sublist_subseteq.
    + rewrite Hk' in pr_entries0. by apply Forall_app in pr_entries0 as [? _].
Qed.

(** ** One admission pass *)

Lemma add_donors_Ok head donors active :
  NoDup (donors ++ (request_id <$> active)) ->
  Forall (fun i => 1 <= i /\ i <> head) (request_id <$> active) ->
  add_donors head donors active = Ok (donors ++ (request_id <$> active)).
Proof.
  revert donors. induction active as [|r active IH]; intros donors Hnd Hall; cbn in *.
  { by rewrite app_nil_r. }
  apply Forall_cons in Hall as [[Hpos Hne] Hall].
  rewrite (proj2 (Z.eqb_neq _ 0)), (proj2 (Z.eqb_neq _ head)) by lia.
  rewrite bool_decide_eq_false_2.
  2: { apply NoDup_app in Hnd as (_ & Hnd & _). intros Hin. apply (Hnd _ Hin). by left. }
  cbn [orb throw_if mbind result_bind]. rewrite IH; [by rewrite <- app_assoc|by rewrite <- app_assoc|done].
Qed.

Lemma validate_rows_Ok p prior active :
  NoDup (prior ++ (request_id <$> active)) ->
  Forall (fun i => 1 <= i /\ i <> head_request_id p) (request_id <$> active) ->
  Forall (fun x => is_borrower p x = negb (is_donor p (request_id x))) active ->
  validate_rows p prior active = Ok tt.
Proof.
  revert prior. induction active as [|r active IH]; intros prior Hnd Hall Hpart; cbn in *; [done|].
  apply Forall_cons in Hall as [[Hpos Hne] Hall]. apply Forall_cons in Hpart as [Hr Hpart].
  rewrite (proj2 (Z.eqb_neq _ 0)), (proj2 (Z.eqb_neq _ (head_request_id p))) by lia.
  rewrite bool_decide_eq_false_2.
  2: { apply NoDup_app in Hnd as (_ & Hnd & _). intros Hin. apply (Hnd _ Hin). by left. }
  cbn [orb throw_if mbind result_bind]. rewrite Hr.
  assert ((if is_donor p (request_id r) then throw_if (negb (is_donor p (request_id r))) LogicError
           else throw_if (negb (negb (is_donor p (request_id r)))) LogicError) = Ok tt) as ->
    by by destruct (is_donor p (request_id r)).
  cbn [mbind result_bind]. apply IH; [by rewrite <- app_assoc|done|done].
Qed.

Lemma entries_split c :
  entries c = active_set c ++ match ct_materializing c with Some (_, r) => [snapshot_of r] | None => [] end.
Proof. unfold entries, requests. rewrite fmap_app. by destruct (ct_materializing c) as [[? ?]|]. Qed.

Lemma length_active_set c : (length (active_set c) <= length (ct_slots c))%nat.
Proof. unfold active_set. rewrite length_fmap. apply omap_length. Qed.

(** The active requests of a state whose head is [h]. *)
Lemma active_facts n c h rest :
  control_inv n c -> ct_pending c = h :: rest ->
  NoDup (request_id <$> active_set c) /\
  Forall (fun i => 1 <= i /\ i <> h) (request_id <$> active_set c) /\
  Z.of_nat (length (active_set c)) <= kMaximumConcurrency /\ 1 <= h /\
  Forall (fun i => i ∉ request_id <$> active_set c) (h :: rest) /\
  Forall (fun i => 1 <= i /\ i <> h) rest /\
  Forall (fun i => i < ct_next_id c /\ i ∉ ct_pending c) (request_id <$> active_set c).
Proof.
  intros [] Hp. unfold ids in *. rewrite Hp in *. rewrite entries_split in ci_ids0, ci_range0.
  rewrite fmap_app in ci_ids0, ci_range0.
  apply NoDup_app in ci_ids0 as (Hndp & Hdis & Hnd). apply NoDup_app in Hnd as (Hnd & _ & _).
  rewrite !Forall_app in ci_range0. destruct ci_range0 as (Hrp & Hra & _).
  assert (forall i, i ∈ request_id <$> active_set c -> i ∉ h :: rest) as Hd.
  { intros i Hi Hin. apply (Hdis _ Hin). apply elem_of_app. by left. }
  rewrite Forall_forall in Hrp, Hra. split_and!.
  - done.
  - apply Forall_forall. intros i Hi. split; [by apply Hra|]. intros ->. apply (Hd h Hi). by left.
  - pose proof (length_active_set c). lia.
  - apply Hrp. by left.
  - apply Forall_forall. intros i Hi Hin. by apply (Hd i Hin).
  - apply NoDup_cons in Hndp as [Hh _]. apply Forall_forall. intros i Hi.
    split; [apply Hrp; by right|]. by intros ->.
  - apply Forall_forall. intros i Hi. split; [by apply Hra|by apply Hd].
Qed.

(** The scheduler after a pass has looked at the head: either it still has the protection it had - with
    a new revision at most - or the head got a new epoch. *)
Record looked (c : Control) (h : Z) (s : Scheduler) : Prop := {
  lk_head : fifo_head_id s = Some h;
  lk_lane : prefill_lane s = prefill_lane (ct_sched c);
  lk_epoch : next_protection_epoch (ct_sched c) <= next_protection_epoch s <=
             next_protection_epoch (ct_sched c) + 1;
  lk_protection : forall p', protection s = Some p' -> protected (with_sched s c) p' /\
    ((exists p, protection (ct_sched c) = Some p /\ epoch_id p = epoch_id p' /\
        donor_ids p = donor_ids p' /\ head_request_id p = head_request_id p') \/
     epoch_id p' = next_protection_epoch (ct_sched c));
}.

Lemma observe_looked n c h rest :
  control_inv n c -> ct_pending c = h :: rest -> looked c h (observe_fifo_head (Some h) (ct_sched c)).
Proof.
  intros Hinv Hp. unfold observe_fifo_head. pose proof (ci_protection _ _ Hinv) as Hpr.
  case_bool_decide as Hf; split; cbn; try done; try lia.
  intros p Hpr'. split; [|left; eauto]. destruct c. by apply Hpr.
Qed.

Lemma protect_looked n c h rest revision s :
  control_inv n c -> n + 1 < u64_max -> ct_pending c = h :: rest -> ct_materializing c = None ->
  active_set c <> [] -> revision <> 0 -> s = observe_fifo_head (Some h) (ct_sched c) ->
  exists s' p, protect_blocked_head h (active_set c) revision s =
      (s', Ok (protection_has_live_donor p (active_set c))) /\
    looked c h s' /\ protection s' = Some p /\ resource_revision p = revision.
Proof.
  intros Hinv Hn Hp Hm Hne Hrev ->. destruct (active_facts n c h rest Hinv Hp)
    as (Hnd & Hall & Hlen & Hh & Hdis & _ & Hgone).
  pose proof (observe_looked n c h rest Hinv Hp) as [Hhead Hlane Hep Hprot].
  pose proof (ci_epoch _ _ Hinv) as Hepoch. pose proof (ci_entries _ _ Hinv) as Hent.
  set (s := observe_fifo_head (Some h) (ct_sched c)) in *.
  assert (next_protection_epoch s = next_protection_epoch (ct_sched c)) as Hnext.
  { unfold s, observe_fifo_head. by case_bool_decide. }
  assert (entries c = active_set c) as Hen by (by rewrite entries_split, Hm, app_nil_r).
  unfold protect_blocked_head. unfold_M. rewrite bool_decide_eq_true_2 by done. cbn [negb].
  destruct (protection s) as [p|] eqn:Hps.
  - destruct (Hprot p eq_refl) as [[H1 H2 H3 H4 H5] Hsame]. cbn [ct_sched with_sched] in *.
    assert (head_request_id p = h) as Hph by congruence. rewrite Hph, Z.eqb_refl. cbn [negb].
    unfold rebind_admission_protection, validate_active_partition, throw_if.
    rewrite (proj2 (Z.eqb_neq (epoch_id p) 0)), (proj2 (Z.eqb_neq revision 0)) by lia.
    rewrite Hph, (proj2 (Z.eqb_neq h 0)) by lia. cbn [orb mbind result_bind].
    rewrite (proj2 (Z.ltb_ge kMaximumConcurrency _)) by done. cbn [mbind result_bind].
    rewrite validate_rows_Ok; [|done|by rewrite Hph|by rewrite <- Hen]. cbn [mbind result_bind].
    do 2 eexists. split; [reflexivity|]. split_and!; [|reflexivity|reflexivity].
    split; cbn; try done. intros p' [= <-]. split; [|cbn; rewrite <- Hph; exact Hsame].
    split; cbn; try done; lia.
  - rewrite Hnext. rewrite w64_small by lia.
    unfold make_admission_protection, throw_if.
    rewrite (proj2 (Z.eqb_neq (next_protection_epoch (ct_sched c)) 0)),
      (proj2 (Z.eqb_neq h 0)), (proj2 (Z.eqb_neq revision 0)) by lia.
    rewrite bool_decide_eq_false_2, (proj2 (Z.ltb_ge kMaximumConcurrency _)) by done.
    cbn [orb mbind result_bind]. rewrite add_donors_Ok by done. cbn [mbind result_bind app].
    do 2 eexists. split; [reflexivity|]. split_and!; [|reflexivity|reflexivity].
    split; cbn; try done; [lia|]. intros p' [= <-]. split; [|by right].
    split; [done|cbn; lia|done|exact Hgone|]. change (entries (with_sched _ c)) with (entries c).
    rewrite Hen in *. apply Forall_forall. intros x Hx. unfold is_borrower, is_donor. cbn.
    rewrite Forall_forall in Hent. specialize (Hent x Hx). cbn in Hent.
    destruct (Z.eqb_spec (backfill_epoch x) (next_protection_epoch (ct_sched c))); [lia|].
    rewrite (bool_decide_eq_true_2 (request_id x ∈ request_id <$> active_set c)); [done|].
    by apply list_elem_of_fmap_2.
Qed.

(** The grants a pass may return. *)
Inductive grant_ok (c : Control) (h : Z) (rest : list Z) (s : Scheduler) : AdmissionGrant -> Prop :=
  | grant_ok_head work :
      work_left work -> protection s = protection (observe_fifo_head (Some h) (ct_sched c)) ->
      next_protection_epoch s = next_protection_epoch (ct_sched c) ->
      grant_ok c h rest s (mkGrant h BackfillNone 0 0 work)
  | grant_ok_backfill id work p :
      work_left work -> protection s = Some p -> id ∈ rest ->
      protection_has_live_donor p (active_set c) = true ->
      grant_ok c h rest s (mkGrant id Persistent (epoch_id p) (resource_revision p) work).

Lemma backfill_loop_Ok c h rest s p answers l :
  fifo_head_id s = Some h -> protection s = Some p -> head_request_id p = h ->
  (forall id work, (answers id).1 = Some work -> work_left work) ->
  Forall (fun i => 1 <= i /\ i <> h) l -> (forall i, i ∈ l -> i ∈ rest) ->
  exists r, backfill_loop (active_set c) (candidate_of answers <$> l) s = Ok r /\
    match r with Some g => grant_ok c h rest s g | None => True end.
Proof.
  intros Hhead Hp Hph Hans. induction l as [|i l IH]; intros Hl Hin; cbn [fmap list_fmap backfill_loop].
  { by exists None. }
  apply Forall_cons in Hl as [[Hi Hne] Hl]. destruct IH as (r & IHr & Hr); [done|intros; apply Hin; by right|].
  cbn [candidate_of cd_id cd_work cd_proof].
  destruct (answers i).1 as [work|] eqn:Hw; [|by exists r]. pose proof (Hans _ _ Hw) as [Hwork _].
  destruct (answers i).2 as [proof|]; [|by exists r].
  unfold qualify_backfill. rewrite Hhead, Hp, Hph, Z.eqb_refl. cbn [negb throw_if mbind result_bind].
  rewrite (proj2 (Z.eqb_neq i 0)), (proj2 (Z.eqb_neq i h)), (proj2 (Z.eqb_neq work 0))
    by (lia || done).
  cbn [orb throw_if mbind result_bind].
  destruct (persistent_backfill_is_authorized p i (active_set c) proof) eqn:Hauth; [|by exists r].
  exists (Some (mkGrant i Persistent (epoch_id p) proof work)). split; [done|].
  unfold persistent_backfill_is_authorized in Hauth.
  destruct (_ || _) eqn:Hg in Hauth; [discriminate|].
  rewrite !orb_false_iff, !negb_false_iff, Z.eqb_eq in Hg. destruct Hg as ((_ & ->) & Hlive).
  apply grant_ok_backfill; [by eapply Hans|done|apply Hin; by left|done].
Qed.

Lemma admission_pass_Ok n c h rest answers revision :
  control_inv n c -> n + 1 < u64_max -> ct_pending c = h :: rest -> ct_materializing c = None ->
  revision <> 0 -> (forall id work, (answers id).1 = Some work -> work_left work) ->
  (active_set c = [] -> is_Some (answers h).1) ->
  exists s r, admission_pass (candidate_of answers h) (candidate_of answers <$> rest)
      (active_admission_set (ct_slots c) (Z.of_nat (length (ct_slots c)))) revision (ct_sched c) = (s, Ok r) /\
    looked c h s /\ match r with Some g => grant_ok c h rest s g | None => True end.
Proof.
  intros Hinv Hn Hp Hm Hrev Hans Hidle. unfold admission_pass. unfold_M. cbn [candidate_of cd_id cd_work].
  pose proof (observe_looked n c h rest Hinv Hp) as Hlook.
  destruct (active_facts n c h rest Hinv Hp) as (_ & _ & _ & Hh & _ & Hrest & _).
  destruct (answers h).1 as [work|] eqn:Hw.
  - pose proof (Hans _ _ Hw) as Hwork. unfold grant_head, throw_if. rewrite (bool_decide_eq_true_2 _ (lk_head _ _ _ Hlook)).
    rewrite (proj2 (Z.eqb_neq h 0)), (proj2 (Z.eqb_neq work 0)) by (destruct Hwork; lia).
    cbn [negb orb mbind result_bind]. do 2 eexists. split; [reflexivity|]. split; [done|].
    apply grant_ok_head; [done|done|]. unfold observe_fifo_head. by case_bool_decide.
  - assert (active_set c <> []) as Hne by (intros He; destruct (Hidle He); done).
    rewrite active_admission_set_spec, decide_True.
    2: { pose proof (ci_work _ _ Hinv) as [Hwork _]%Forall_app. eapply Forall_impl; [exact Hwork|].
         intros r [? _]. lia. }
    rewrite bool_decide_eq_false_2 by done.
    destruct (protect_looked n c h rest revision _ Hinv Hn Hp Hm Hne Hrev eq_refl)
      as (s' & p & -> & Hl & Hps & Hpr).
    destruct (protection_has_live_donor p (active_set c)).
    2: { do 2 eexists. split; [reflexivity|]. done. }
    destruct (backfill_loop_Ok c h rest s' p answers rest) as (r & -> & Hr); try done.
    + apply Hl.
    + pose proof (lk_head _ _ _ Hl). pose proof (pr_head _ _ (proj1 (lk_protection _ _ _ Hl p Hps))).
      cbn in *. congruence.
    + do 2 eexists. split; [reflexivity|]. done.
Qed.

(** ** Every event keeps the invariant *)

Definition entry_ids (c : Control) : list Z := request_id <$> entries c.

(** What an event may do to the protection: nothing but rebind it, drop it or start a new epoch; and
    in the same epoch no donor appears and, without a live donor, nobody is admitted. *)
Record kept (p : AdmissionProtection) (before after : list Z) : Prop := {
  kp_donors : forall i, i ∈ donor_ids p -> i ∈ after -> i ∈ before;
  kp_closed : (forall i, i ∈ donor_ids p -> i ∉ before) -> forall i, i ∈ after -> i ∈ before;
}.

Definition same_epoch (p p' : AdmissionProtection) : Prop :=
  epoch_id p = epoch_id p' /\ donor_ids p = donor_ids p' /\ head_request_id p = head_request_id p'.

Record advances (c c' : Control) : Prop := {
  ad_epoch : next_protection_epoch (ct_sched c) <= next_protection_epoch (ct_sched c');
  ad_protection : forall p', protection (ct_sched c') = Some p' ->
    (exists p, protection (ct_sched c) = Some p /\ same_epoch p p' /\ kept p' (entry_ids c) (entry_ids c')) \/
    epoch_id p' = next_protection_epoch (ct_sched c);
}.

Lemma same_epoch_refl p : same_epoch p p.
Proof. done. Qed.

Lemma advances_shrink c c' :
  entries c' ⊆+ entries c ->
  next_protection_epoch (ct_sched c') = next_protection_epoch (ct_sched c) ->
  (forall p, protection (ct_sched c') = Some p -> protection (ct_sched c) = Some p) ->
  advances c c'.
Proof.
  intros He Hne Hp. split; [lia|]. intros p Hp'. left. exists p. split; [by apply Hp|]. split; [done|].
  assert (forall i, i ∈ entry_ids c' -> i ∈ entry_ids c) as Hsub.
  { intros i Hi. eapply elem_of_submseteq; [done|]. by apply fmap_submseteq. }
  split; intros; by apply Hsub.
Qed.

Definition left_queue (id : Z) (c : Control) : Control :=
  mkCtl (on_waiting_removed id (ct_sched c)) (without id (ct_pending c)) (ct_slots c)
    (ct_materializing c) (ct_next_id c).

Lemma left_queue_inv n m c id :
  control_inv n c -> n <= m -> control_inv m (left_queue id c) /\ advances c (left_queue id c).
Proof.
  intros Hinv Hm.
  assert (next_protection_epoch (ct_sched (left_queue id c)) = next_protection_epoch (ct_sched c)) as Hne.
  { cbn. unfold on_waiting_removed. by case_bool_decide. }
  assert (prefill_lane (ct_sched (left_queue id c)) = prefill_lane (ct_sched c)) as Hl.
  { cbn. unfold on_waiting_removed. by case_bool_decide. }
  split.
  - apply (control_inv_shrink n m c); try done.
    + apply without_sublist.
    + cbn. unfold on_waiting_removed. case_bool_decide as Hd; cbn; [done|]. intros h Hh. split; [done|].
      apply head_without; [by apply (ci_head _ _ Hinv)|]. intros ->. congruence.
    + cbn. unfold on_waiting_removed. case_bool_decide; cbn; [done|]. auto.
    + rewrite Hl. apply (ci_lane _ _ Hinv).
    + apply (ci_destination _ _ Hinv).
    + apply (ci_work _ _ Hinv).
  - apply advances_shrink; [done|done|]. cbn. unfold on_waiting_removed. by case_bool_decide.
Qed.

Lemma without_Permutation id l : NoDup l -> id ∈ l -> l ≡ₚ id :: without id l.
Proof.
  intros Hnd (k1 & k2 & ->)%list_elem_of_split. apply NoDup_app in Hnd as (Hnd & Hd & Hnd2).
  apply NoDup_cons in Hnd2 as [Hni Hnd2].
  assert (forall k, id ∉ k -> without id k = k) as Hk.
  { intros k. induction k as [|a k IH]; intros Hin; [done|].
    apply not_elem_of_cons in Hin as [Ha Hin]. unfold without. rewrite filter_cons_True by done.
    f_equal. by apply IH. }
  unfold without. rewrite filter_app, filter_cons_False by (intros Hn; by apply Hn).
  fold (without id k1). fold (without id k2). rewrite !Hk; [by rewrite Permutation_middle|done|].
  intros Hin. apply (Hd _ Hin). by left.
Qed.

(** Admission moves a waiting request into the materialization. *)
Definition admitted (s : Scheduler) (destination : Z) (g : AdmissionGrant) (c : Control) : Control :=
  mkCtl s (without (gr_request_id g) (ct_pending c)) (ct_slots c) (Some (destination, activate g)) (ct_next_id c).

Lemma admitted_inv n c s destination g :
  control_inv n c -> gr_request_id g ∈ ct_pending c -> ct_materializing c = None ->
  at_index (ct_slots c) destination = Some None -> prefill_lane s = None ->
  next_protection_epoch s = next_protection_epoch (ct_sched c) ->
  gr_epoch g < next_protection_epoch s -> work_left (gr_work g) ->
  (forall h, fifo_head_id s = Some h -> fifo_head_id (ct_sched c) = Some h /\ h <> gr_request_id g) ->
  (forall p, protection s = Some p -> protection (ct_sched c) = Some p /\
     fifo_head_id s = fifo_head_id (ct_sched c) /\ is_borrower p (snapshot_of (activate g)) = true) ->
  control_inv n (admitted s destination g c).
Proof.
  intros Hinv Hin Hm Hfree Hlane Hne Hx Hwork Hh Hp. pose proof Hinv as [].
  assert (NoDup (ct_pending c)) as Hndp by (by apply NoDup_app in ci_ids0 as [? _]).
  assert (requests (admitted s destination g c) = requests c ++ [activate g]) as Hre.
  { unfold requests. cbn. by rewrite Hm, app_nil_r. }
  assert (entries (admitted s destination g c) = entries c ++ [snapshot_of (activate g)]) as Hen.
  { unfold entries. by rewrite Hre, fmap_app. }
  assert (ids (admitted s destination g c) ≡ₚ ids c) as Hids.
  { unfold ids. rewrite Hen, fmap_app. cbn [ct_pending admitted fmap list_fmap].
    rewrite (without_Permutation _ _ Hndp Hin) at 2. cbn [app].
    rewrite app_assoc, Permutation_app_comm. done. }
  split; rewrite ?Hids; try done; cbn [ct_sched ct_pending ct_slots ct_next_id admitted].
  - by rewrite Hne.
  - apply (StronglySorted_sublist (ct_pending c)); [apply without_sublist|done].
  - rewrite Hen, Hne. apply Forall_app. split; [done|]. apply Forall_singleton. by rewrite <- Hne.
  - intros h Hhead. apply Hh in Hhead as [Hhead Hne']. apply head_without; [by apply ci_head0|done].
  - intros p Hps. destruct (Hp p Hps) as (Hpc & Hf & Hb). destruct (ci_protection0 p Hpc) as [].
    split; cbn [ct_sched ct_pending ct_next_id admitted]; rewrite ?Hf, ?Hne; try done.
    + eapply Forall_impl; [done|]. cbn. intros d [? Hd]. split; [done|].
      intros (_ & Hin')%elem_of_without. done.
    + rewrite Hen. apply Forall_app. split; [done|]. apply Forall_singleton. rewrite Hb.
      unfold is_donor. rewrite bool_decide_eq_false_2; [done|]. intros Hd.
      rewrite Forall_forall in pr_donors0. by destruct (pr_donors0 _ Hd).
  - rewrite Hlane. by intros [].
  - intros l y [= <- <-]. done.
  - rewrite Hre. apply Forall_app. split; [done|]. by apply Forall_singleton.
Qed.

Lemma looked_inv n c h rest s :
  control_inv n c -> ct_pending c = h :: rest -> looked c h s -> control_inv (n + 1) (with_sched s c).
Proof.
  intros [] Hp [Hh Hl He Hpr]. split; try done; cbn; try lia.
  - eapply Forall_impl; [done|]. cbn. intros; lia.
  - intros i Hi. rewrite Hh in Hi. injection Hi as <-. by rewrite Hp.
  - intros p Hps. by apply Hpr.
  - by rewrite Hl.
Qed.

Lemma advances_looked c h s : looked c h s -> advances c (with_sched s c).
Proof.
  intros [Hh Hl He Hpr]. split; cbn; [lia|]. intros p' Hp'.
  destruct (Hpr p' Hp') as [_ [(p & ? & ? & ? & ?)|?]]; [|by right]. left. by exists p.
Qed.

Lemma grant_valid c h rest s g :
  looked c h s -> 1 <= h -> Forall (fun i => 1 <= i /\ i <> h) rest -> grant_ok c h rest s g ->
  validate_grant g s = true.
Proof.
  intros [Hh Hl He Hpr] Hpos Hrest [work Hw _ _|id work p Hw Hp Hin _]; unfold validate_grant;
    cbn [gr_request_id gr_work gr_class gr_epoch gr_revision]; rewrite (proj2 (Z.eqb_neq work 0)) by (destruct Hw; lia).
  - rewrite (proj2 (Z.eqb_neq h 0)) by lia. cbn. by rewrite bool_decide_eq_true_2.
  - rewrite Forall_forall in Hrest. destruct (Hrest id Hin).
    rewrite (proj2 (Z.eqb_neq id 0)), Hh, Hp by lia. cbn [orb].
    destruct (Hpr p Hp) as [[Hhead _ _ _ _] _]. cbn in Hhead. rewrite Hh in Hhead. injection Hhead as Hhead.
    rewrite <- Hhead, !Z.eqb_refl, (proj2 (Z.eqb_neq id h)) by done. done.
Qed.

(** Same epoch, no new donor, and a new entry only next to a live donor. *)
Lemma advances_admitted c h s destination id work p :
  looked c h s -> protection s = Some p -> ct_materializing c = None -> id ∉ donor_ids p ->
  protection_has_live_donor p (active_set c) = true ->
  advances c (admitted s destination (mkGrant id Persistent (epoch_id p) (resource_revision p) work) c).
Proof.
  intros [Hh Hl He Hpr] Hp Hm Hid Hlive. split; [cbn; lia|]. cbn [ct_sched admitted]. rewrite Hp. intros p' [= <-].
  destruct (Hpr p Hp) as [_ [(q & Hq & Hsame)|?]]; [|by right]. left. exists q. split; [done|].
  split; [exact Hsame|].
  assert (entry_ids (admitted s destination (mkGrant id Persistent (epoch_id p) (resource_revision p) work) c) =
          entry_ids c ++ [id]) as Hen.
  { unfold entry_ids. rewrite !entries_split. cbn. rewrite Hm, app_nil_r. by rewrite fmap_app. }
  split; rewrite Hen.
  - intros i Hi [|Hin%list_elem_of_singleton]%elem_of_app; [done|]. by subst.
  - intros Hnone. exfalso. unfold protection_has_live_donor in Hlive.
    apply existsb_exists in Hlive as (x & Hx & Hd). apply list_elem_of_In in Hx.
    apply bool_decide_eq_true in Hd. apply (Hnone _ Hd). apply list_elem_of_fmap_2.
    rewrite entries_split. apply elem_of_app. by left.
Qed.

Lemma settle_Ok n c h rest s g destination outcome :
  control_inv n c -> ct_pending c = h :: rest -> ct_materializing c = None ->
  prefill_lane (ct_sched c) = None -> at_index (ct_slots c) destination = Some None ->
  looked c h s -> grant_ok c h rest s g ->
  exists c', settle g destination outcome s c = Ok c' /\ control_inv (n + 1) c' /\ advances c c'.
Proof.
  intros Hinv Hp Hm Hlane Hfree Hlook Hg.
  destruct (active_facts n c h rest Hinv Hp) as (_ & _ & _ & Hpos & _ & Hrest & _).
  pose proof (looked_inv n c h rest s Hinv Hp Hlook) as Hinv1.
  pose proof (advances_looked c h s Hlook) as Hadv1.
  pose proof (grant_valid c h rest s g Hlook Hpos Hrest Hg) as Hvalid.
  assert (exists c', Ok (left_queue (gr_request_id g) (with_sched s c)) = Ok c' /\
            control_inv (n + 1) c' /\ advances c c') as Hleft.
  { destruct (left_queue_inv (n + 1) (n + 1) (with_sched s c) (gr_request_id g) Hinv1) as [Hi Ha]; [lia|].
    eexists. split; [done|]. split; [done|]. destruct Ha as [Ha1 Ha2], Hadv1 as [Hb1 Hb2].
    split; [lia|]. intros p' Hp'. unfold left_queue in Hp'. cbn in Hp'. unfold on_waiting_removed in Hp'.
    case_bool_decide; [done|]. exact (Hb2 _ Hp'). }
  unfold settle, admit_planned. destruct outcome; unfold_M; rewrite ?Hvalid; cbn [negb].
  - exact Hleft.
  - by eexists.
  - exact Hleft.
  - unfold commit_admission. unfold_M. rewrite Hvalid. cbn [negb].
    destruct Hg as [work Hw Hpr Hne|id work p Hw Hps Hin Hlive]; cbn [gr_class gr_request_id gr_epoch spent]; rewrite Hm, Hfree.
    + eexists. split; [reflexivity|]. split.
      * apply (admitted_inv (n + 1) (with_sched s c) (set_head None None s) destination
                 (mkGrant h BackfillNone 0 0 work)); try done; cbn.
        -- rewrite Hp. by left.
        -- by rewrite (lk_lane _ _ _ Hlook).
        -- pose proof (ci_epoch _ _ Hinv). lia.
      * split; cbn; [|done]. apply (lk_epoch _ _ _ Hlook).
    + destruct (lk_protection _ _ _ Hlook p Hps) as [[Hhead Hep _ Hdon _] _]. cbn in Hhead, Hep, Hdon.
      rewrite Forall_forall in Hrest. destruct (Hrest id Hin) as [_ Hne].
      assert (id ∉ donor_ids p) as Hnd.
      { intros Hd. rewrite Forall_forall in Hdon. destruct (Hdon id Hd) as [_ Hn]. apply Hn.
        rewrite Hp. by right. }
      eexists. split; [reflexivity|]. split.
      * apply (admitted_inv (n + 1) (with_sched s c) s destination
                 (mkGrant id Persistent (epoch_id p) (resource_revision p) work)); try done; cbn.
        -- rewrite Hp. by right.
        -- by rewrite (lk_lane _ _ _ Hlook).
        -- lia.
        -- intros i. rewrite (lk_head _ _ _ Hlook). intros [= <-]. done.
        -- intros q Hq. split_and!; [done|done|]. rewrite Hps in Hq. injection Hq as <-.
           unfold is_borrower. cbn. by rewrite Z.eqb_refl.
      * by apply advances_admitted with (h := h).
Qed.

Lemma pass_Ok n c answers revision destination outcome :
  control_inv n c -> n + 1 < u64_max -> ct_materializing c = None -> prefill_lane (ct_sched c) = None ->
  event_ok c (Pass answers revision destination outcome) ->
  exists c', pass answers revision destination outcome c = Ok c' /\ control_inv (n + 1) c' /\ advances c c'.
Proof.
  intros Hinv Hn Hm Hlane (Hrev & Hans & Hfree & Hidle). unfold pass.
  destruct (ct_pending c) as [|h rest] eqn:Hp.
  - eexists. split; [reflexivity|].
    assert (fifo_head_id (ct_sched c) = None) as Hnone.
    { destruct (fifo_head_id (ct_sched c)) eqn:E; [|done]. apply (ci_head _ _ Hinv) in E. by rewrite Hp in E. }
    unfold observe_fifo_head. rewrite bool_decide_eq_true_2 by done.
    split; [|by apply advances_shrink].
    apply (control_inv_shrink n (n + 1) c); try done; [lia|..].
    + cbn. rewrite Hnone. done.
    + cbn. rewrite Hm. done.
    + apply (ci_work _ _ Hinv).
  - destruct (admission_pass_Ok n c h rest answers revision Hinv Hn Hp Hm Hrev Hans) as (s & r & -> & Hlook & Hr).
    { intros He. by apply (Hidle He h). }
    destruct r as [g|].
    + by apply (settle_Ok n c h rest).
    + eexists. split; [reflexivity|]. split; [by apply (looked_inv n c h rest)|by apply (advances_looked c h)].
Qed.

Lemma submit_Ok n c :
  control_inv n c -> n + 1 < u64_max ->
  exists c', step c Submit = Ok c' /\ control_inv (n + 1) c' /\ advances c c'.
Proof.
  intros Hinv Hn. eexists. split; [reflexivity|]. split; [|by apply advances_shrink].
  destruct Hinv. rewrite w64_small by lia. rewrite Forall_forall in ci_range0.
  assert (forall i, i ∈ ids c -> i <> ct_next_id c) as Hnew by (intros i Hi ->; apply ci_range0 in Hi; lia).
  set (c' := mkCtl _ _ _ _ _). assert (ids c' ≡ₚ ct_next_id c :: ids c) as Hids.
  { unfold ids. change (entries c') with (entries c). cbn. rewrite <- app_assoc. cbn. by rewrite Permutation_middle. }
  change (entries c') with (entries c) in *. change (requests c') with (requests c).
  split; rewrite ?Hids; try done; cbn [ct_sched ct_pending ct_slots ct_next_id c']; try lia.
  - constructor; [|done]. intros Hi. by apply (Hnew _ Hi).
  - constructor; [lia|]. apply Forall_forall. intros i Hi. apply ci_range0 in Hi. lia.
  - apply StronglySorted_app. split_and!; [|done|repeat constructor].
    intros i j Hi ->%list_elem_of_singleton. apply ci_range0. unfold ids. apply elem_of_app. by left.
  - intros h Hh. apply ci_head0 in Hh. by destruct (ct_pending c).
  - intros p Hp. destruct (ci_protection0 p Hp) as [? ? ? Hd ?]. split; try done.
    eapply Forall_impl; [exact Hd|]. cbn. intros d [? Hni]. split; [lia|].
    intros [|Hin%list_elem_of_singleton]%elem_of_app; [done|lia].
Qed.

(** Events that only let go of an entry, move it, serve it or clear the prefill lane. *)
Lemma shrink_Ok n c c' :
  control_inv n c -> ct_pending c' = ct_pending c -> entries c' ⊆+ entries c ->
  Forall (fun r => work_left (rq_remaining_service_work r)) (requests c') ->
  ct_next_id c' = ct_next_id c -> length (ct_slots c') = length (ct_slots c) ->
  set_head (fifo_head_id (ct_sched c')) (protection (ct_sched c')) (ct_sched c) =
    mkScheduler (prefill_lane (ct_sched c)) (fifo_head_id (ct_sched c)) (protection (ct_sched c))
      (next_protection_epoch (ct_sched c')) ->
  (is_Some (prefill_lane (ct_sched c')) -> ct_materializing c' = None) ->
  (forall l x, ct_materializing c' = Some (l, x) -> at_index (ct_slots c') l = Some None) ->
  control_inv (n + 1) c' /\ advances c c'.
Proof.
  intros Hinv Hp He Hw Hid Hlen Hs Hl Hd. unfold set_head in Hs. injection Hs as Hh Hpr Hne.
  split; [|apply advances_shrink; [done|by symmetry|by rewrite Hpr]].
  apply (control_inv_shrink n (n + 1) c); try done; [lia|by rewrite Hp|..].
  - intros h Hhd. rewrite Hh in Hhd. split; [done|]. rewrite Hp. by apply (ci_head _ _ Hinv).
  - intros p. rewrite Hpr. intros ?. split; [done|by rewrite Hh].
Qed.

Lemma stay_Ok n c : control_inv n c -> control_inv (n + 1) c /\ advances c c.
Proof.
  intros Hinv. apply (shrink_Ok n); try done; [apply (ci_work _ _ Hinv)|apply (ci_lane _ _ Hinv)|apply (ci_destination _ _ Hinv)].
Qed.

Lemma work_submseteq n c c' :
  control_inv n c -> requests c' ⊆+ requests c -> Forall (fun r => work_left (rq_remaining_service_work r)) (requests c').
Proof.
  intros Hinv Hr. destruct (submseteq_Permutation _ _ Hr) as (k & Hk). pose proof (ci_work _ _ Hinv) as Hw.
  rewrite Hk in Hw. by apply Forall_app in Hw as [? _].
Qed.

(** A lane is served or emptied: its request keeps its identity, if there still is one. *)
Lemma slot_kept n c lane r :
  control_inv n c -> 0 <= lane ->
  match r with
  | None => True
  | Some r => work_left (rq_remaining_service_work r) /\
      exists q, at_index (ct_slots c) lane = Some (Some q) /\ snapshot_of q = snapshot_of r
  end ->
  entries (with_slot lane r c) ⊆+ entries c /\
  Forall (fun r => work_left (rq_remaining_service_work r)) (requests (with_slot lane r c)).
Proof.
  intros Hinv Hlane Hr. unfold entries. destruct r as [r|].
  - destruct Hr as (Hw & q & (_ & Hq)%at_index_Some & Hsame).
    destruct (omap_set_same (ct_slots c) (Z.to_nat lane) r q Hq) as (k & H1 & H2).
    pose proof (ci_work _ _ Hinv) as Hall. unfold requests, active, with_slot, set_index in *. cbn [ct_slots ct_materializing].
    rewrite H1 in Hall. rewrite H1, H2. cbn [app fmap list_fmap]. rewrite Hsame. split; [done|].
    apply Forall_cons in Hall as [_ Hall]. by constructor.
  - assert (requests (with_slot lane None c) ⊆+ requests c) as Hsub.
    { apply submseteq_app; [|done]. apply sublist_submseteq, omap_set_none. }
    split; [by apply fmap_submseteq|]. by eapply work_submseteq.
Qed.

Lemma slot_Ok n c lane r s :
  control_inv n c -> 0 <= lane ->
  match r with
  | None => True
  | Some r => work_left (rq_remaining_service_work r) /\
      exists q, at_index (ct_slots c) lane = Some (Some q) /\ snapshot_of q = snapshot_of r
  end ->
  s = mkScheduler (prefill_lane s) (fifo_head_id (ct_sched c)) (protection (ct_sched c))
        (next_protection_epoch (ct_sched c)) ->
  (is_Some (prefill_lane s) -> is_Some (prefill_lane (ct_sched c))) ->
  let c' := with_sched s (with_slot lane r c) in
  control_inv (n + 1) c' /\ advances c c'.
Proof.
  intros Hinv Hlane Hr Hs Hl c'. destruct (slot_kept n c lane r Hinv Hlane Hr) as [He Hw].
  apply (shrink_Ok n); try done; unfold c'; cbn.
  - apply length_set_index.
  - by rewrite Hs.
  - intros Hp. by apply (ci_lane _ _ Hinv), Hl.
  - intros l x Hm. apply (ci_destination _ _ Hinv) in Hm. pose proof (at_index_lt _ _ _ Hm).
    destruct (decide (l = lane)) as [->|Hne]; [|by rewrite at_set_index_ne by (lia || done)].
    destruct r as [r|]; [|by apply at_set_index_eq]. destruct Hr as (_ & q & Hq & _). congruence.
Qed.

Lemma request_at c lane r : at_index (ct_slots c) lane = Some (Some r) -> r ∈ active c.
Proof.
  intros [_ Hr]%at_index_Some. apply list_elem_of_omap. exists (Some r). split; [|done]. by eapply list_elem_of_lookup_2.
Qed.

Lemma work_at n c lane r :
  control_inv n c -> at_index (ct_slots c) lane = Some (Some r) -> work_left (rq_remaining_service_work r).
Proof.
  intros Hinv Hr. pose proof (ci_work _ _ Hinv) as Hall. rewrite Forall_forall in Hall.
  apply Hall, elem_of_app. left. by eapply request_at.
Qed.

Lemma serve_Ok n c lane work r :
  control_inv n c -> at_index (ct_slots c) lane = Some (Some r) -> 0 < work <= rq_remaining_service_work r ->
  exists r', serve lane work c = Ok r' /\ snapshot_of r = snapshot_of r' /\
    rq_remaining_service_work r' = rq_remaining_service_work r - work.
Proof.
  intros Hinv Hr Hw. destruct (work_at n c lane r Hinv Hr) as [_ Hmax].
  unfold serve, consume_service_work. rewrite Hr, (proj2 (Z.eqb_neq work 0)), (proj2 (Z.ltb_ge _ work)) by lia.
  cbn [orb throw_if mbind result_bind]. eexists. split; [reflexivity|]. split; [done|]. cbn. rewrite w64_small; lia.
Qed.

Lemma clear_prefill_lane_Ok s lane :
  prefill_lane s = Some lane ->
  clear_prefill_lane lane s =
    (mkScheduler None (fifo_head_id s) (protection s) (next_protection_epoch s), Ok tt).
Proof. intros Hl. unfold clear_prefill_lane. unfold_M. by rewrite bool_decide_eq_true_2. Qed.

Lemma publish_Ok n c :
  control_inv n c ->
  exists c', step c Publish = Ok c' /\ control_inv (n + 1) c' /\ advances c c'.
Proof.
  intros Hinv. cbn [step]. destruct (ct_materializing c) as [[lane x]|] eqn:Hm.
  2: { eexists. split; [reflexivity|]. by apply stay_Ok. }
  pose proof (ci_destination _ _ Hinv _ _ Hm) as Hfree.
  assert (prefill_lane (ct_sched c) = None) as Hl.
  { destruct (prefill_lane (ct_sched c)) eqn:E; [|done].
    assert (ct_materializing c = None) by (apply (ci_lane _ _ Hinv); rewrite E; eauto). congruence. }
  unfold set_prefill_lane. unfold_M. rewrite bool_decide_eq_false_2 by (rewrite Hl; by intros []).
  eexists. split; [reflexivity|]. set (c' := mkCtl _ _ _ _ _).
  assert (requests c' ⊆+ requests c) as Hsub.
  { unfold requests, active, c'. cbn [ct_slots ct_materializing]. rewrite Hm, app_nil_r. unfold set_index.
    apply at_index_Some in Hfree as [_ Hfree]. rewrite (omap_set_some _ _ _ Hfree).
    by rewrite Permutation_cons_append. }
  apply (shrink_Ok n); try done.
  - by apply fmap_submseteq.
  - by eapply work_submseteq.
  - apply length_set_index.
Qed.

Lemma step_Ok n c e :
  control_inv n c -> n + 1 < u64_max -> event_ok c e ->
  exists c', step c e = Ok c' /\ control_inv (n + 1) c' /\ advances c c'.
Proof.
  intros Hinv Hn Hok. destruct e as [|id|lane work|lane work| | | |answers revision destination outcome]; cbn [step].
  - by apply submit_Ok.
  - eexists. split; [reflexivity|]. apply (left_queue_inv n); [done|lia].
  - destruct Hok as (r & Hr & Hw). destruct (serve_Ok n c lane work r Hinv Hr ltac:(lia)) as (r' & -> & Hsame & Hleft).
    cbn [mbind result_bind]. eexists. split; [reflexivity|].
    change (with_slot lane (Some r') c) with (with_sched (ct_sched c) (with_slot lane (Some r') c)).
    apply slot_Ok; [done|pose proof (at_index_lt _ _ _ Hr); lia| |by destruct (ct_sched c)|done].
    split; [|by exists r]. destruct (work_at n c lane r Hinv Hr). unfold work_left. lia.
  - destruct Hok as [Hlane Hw].
    assert ((if work =? 0 then Ok tt else _ ← serve lane work c; Ok tt) = Ok tt) as ->.
    { destruct Hw as [->|(r & Hr & Hw)]; [done|]. destruct (serve_Ok n c lane work r Hinv Hr Hw) as (r' & -> & _).
      by destruct (work =? 0). }
    cbn [mbind result_bind]. case_bool_decide as Hl.
    + rewrite (clear_prefill_lane_Ok _ _ Hl). eexists. split; [reflexivity|]. by apply slot_Ok.
    + eexists. split; [reflexivity|].
      change (with_slot lane None c) with (with_sched (ct_sched c) (with_slot lane None c)).
      apply slot_Ok; try done. by destruct (ct_sched c).
  - destruct (prefill_lane (ct_sched c)) as [lane|] eqn:Hl.
    + rewrite (clear_prefill_lane_Ok _ _ Hl). eexists. split; [reflexivity|].
      apply (shrink_Ok n); try done; cbn; [apply (ci_work _ _ Hinv)|by intros []|apply (ci_destination _ _ Hinv)].
    + eexists. split; [reflexivity|].
      by apply stay_Ok.
  - by apply publish_Ok.
  - eexists. split; [reflexivity|]. set (c' := mkCtl _ _ _ _ _).
    assert (requests c' ⊆+ requests c) as Hsub.
    { apply submseteq_app; [done|]. apply submseteq_nil_l. }
    apply (shrink_Ok n); try done; [by apply fmap_submseteq|by eapply work_submseteq].
  - destruct (should_attempt_admission _ _ _ _ _ _) eqn:Hs.
    + unfold should_attempt_admission in Hs. rewrite !andb_true_iff, negb_true_iff in Hs.
      destruct Hs as (((_ & Hm%bool_decide_eq_false) & Hl%bool_decide_eq_true) & _).
      apply pass_Ok; try done. destruct (ct_materializing c); [|done]. exfalso. by apply Hm.
    + eexists. split; [reflexivity|]. by apply stay_Ok.
Qed.

(** The check that [try_admit_one] makes of a blocked head. *)
Lemma idle_blocked_throws c answers revision destination outcome h rest :
  ct_pending c = h :: rest -> (answers h).1 = None -> active_set c = [] -> ct_materializing c = None ->
  prefill_lane (ct_sched c) = None -> step c (Pass answers revision destination outcome) = Throw LogicError.
Proof.
  intros Hp Ha Hidle Hm Hl. assert (active c = []) as Hnil by (unfold active_set in Hidle; by destruct (active c)).
  cbn [step]. unfold should_attempt_admission. rewrite Hm, Hl, (bool_decide_eq_true_2 (None = None)), (bool_decide_eq_false_2 (is_Some None)) by (done || by intros [? ?]).
  cbn [andb orb negb]. unfold pass. rewrite Hp. unfold admission_pass. unfold_M. cbn [candidate_of cd_work cd_id]. rewrite Ha.
  by rewrite active_admission_set_spec, Hnil, decide_True, Hidle, bool_decide_eq_true_2 by done.
Qed.

Lemma run_count c n c' : run c n c' -> 0 <= n.
Proof. induction 1; lia. Qed.

Lemma run_inv m c n c' :
  control_inv m c -> run c n c' -> m + n < u64_max -> control_inv (m + n) c'.
Proof.
  intros Hinv. induction 1 as [|n c1 e c2 Hrun IH Hok Hstep]; intros Hb; [by rewrite Z.add_0_r|].
  destruct (step_Ok (m + n) c1 e) as (c2' & Hs & Hi & _); [apply IH; lia|lia|done|].
  rewrite Hstep in Hs. injection Hs as <-. by rewrite Z.add_assoc.
Qed.

Lemma run_epoch m c n c' :
  control_inv m c -> run c n c' -> m + n < u64_max ->
  next_protection_epoch (ct_sched c) <= next_protection_epoch (ct_sched c').
Proof.
  intros Hinv. induction 1 as [|n c1 e c2 Hrun IH Hok Hstep]; intros Hb; [done|].
  pose proof (run_inv m c n c1 Hinv Hrun ltac:(lia)) as Hinv1.
  destruct (step_Ok (m + n) c1 e Hinv1) as (c2' & Hs & _ & [Hepo _]); [lia|done|].
  rewrite Hstep in Hs. injection Hs as <-. specialize (IH ltac:(lia)). lia.
Qed.

Lemma kept_trans p l1 l2 l3 : kept p l1 l2 -> kept p l2 l3 -> kept p l1 l3.
Proof.
  intros [H1 H2] [H3 H4]. split; [eauto|]. intros Hn i Hi. apply H2; [done|]. apply H4; [|done].
  intros d Hd Hd2. by apply (Hn d Hd), H1.
Qed.

Lemma kept_same p p' l l' : donor_ids p = donor_ids p' -> kept p' l l' -> kept p l l'.
Proof. intros He []. by split; rewrite He. Qed.

Lemma epoch_kept m c n c' p p' :
  control_inv m c -> run c n c' -> m + n < u64_max ->
  protection (ct_sched c) = Some p -> protection (ct_sched c') = Some p' -> epoch_id p' = epoch_id p ->
  same_epoch p p' /\ kept p (entry_ids c) (entry_ids c').
Proof.
  intros Hinv Hrun. revert p'.
  induction Hrun as [|n c1 e c2 Hrun IH Hok Hstep]; intros p' Hb Hp Hp' He.
  { rewrite Hp in Hp'. injection Hp' as <-. done. }
  pose proof (run_inv m c n c1 Hinv Hrun ltac:(lia)) as Hinv1.
  pose proof (run_epoch m c n c1 Hinv Hrun ltac:(lia)) as Hmono.
  destruct (step_Ok (m + n) c1 e Hinv1) as (c2' & Hs & _ & [_ Hadv]); [lia|done|].
  rewrite Hstep in Hs. injection Hs as <-.
  destruct (Hadv p' Hp') as [(p1 & Hp1 & (H1 & H2 & H3) & Hk)|Hnew].
  - destruct (IH p1 ltac:(lia) Hp Hp1 ltac:(congruence)) as [(? & Hd & ?) Hk1].
    split; [split_and!; congruence|]. apply (kept_trans p _ _ _ Hk1), (kept_same p p'); [congruence|done].
  - destruct (ci_protection _ _ Hinv p Hp) as [_ Hep _ _ _]. lia.
Qed.

(** C24: The admission protocol never trips a check of the scheduler, as long as the rest of the engine
    keeps its side ([event_ok]): requests arrive, leave, expire, are served, finish, publish or abort
    in any order, on unsigned lanes; a unit serves some of an active request's remaining work, and
    leaves some unless it ends the request; and of an admission pass, the program's revision is not
    zero, every service work is positive and of 64 bits, the destination is a free lane, and the head
    is not blocked while nothing is active.  Then every event of a session succeeds, including the
    check of a blocked pass that no active request has used up its work.  The last condition is
    needed: a head blocked in an idle engine makes the pass throw a logic error.  Requests are never
    admitted twice and every admitted one has work left; the waiting queue stays in submission order
    and the protected request is its head; everything admitted while the head is protected is one of
    the frozen donors or a borrower of the current epoch, never both. *)
Theorem admission_session_sound mc n c e :
  mc <= kMaximumConcurrency -> run (control_init mc) n c -> n + 1 < u64_max -> event_ok c e ->
  (exists c', step c e = Ok c') /\
  (forall answers revision destination outcome h rest,
     ct_pending c = h :: rest -> (answers h).1 = None -> active_set c = [] -> ct_materializing c = None ->
     prefill_lane (ct_sched c) = None -> step c (Pass answers revision destination outcome) = Throw LogicError) /\
  NoDup (ct_pending c ++ entry_ids c) /\ StronglySorted Z.lt (ct_pending c) /\
  Z.of_nat (length (active_set c)) <= kMaximumConcurrency /\
  Forall (fun r => work_left (rq_remaining_service_work r)) (requests c) /\
  forall p, protection (ct_sched c) = Some p ->
    head (ct_pending c) = Some (head_request_id p) /\
    Forall (fun x => is_borrower p x = negb (is_donor p (request_id x))) (entries c).
Proof.
  intros Hmc Hrun Hn Hok.
  pose proof (run_inv 0 _ n c (control_init_inv mc Hmc) Hrun ltac:(lia)) as Hinv.
  destruct (step_Ok n c e Hinv Hn Hok) as (c' & Hs & _). split; [by exists c'|].
  split; [intros; by eapply idle_blocked_throws|].
  pose proof Hinv as []. split_and!; [done|done| |done|].
  - pose proof (length_active_set c). lia.
  - intros p Hp. destruct (ci_protection0 p Hp) as []. split; [by apply ci_head0|done].
Qed.

(** C23: A protected head cannot be starved by backfill, in any session of the events that [event_ok]
    allows.  As long as the protection keeps its epoch the
    donors are the ones frozen when it was made, however often other requests are admitted past the
    head: no donor ever joins, and once the last donor has gone nobody at all is admitted before the
    head. *)
Theorem protected_head_not_starved mc n c k c' p p' :
  mc <= kMaximumConcurrency -> run (control_init mc) n c -> run c k c' -> n + k < u64_max ->
  protection (ct_sched c) = Some p -> protection (ct_sched c') = Some p' -> epoch_id p' = epoch_id p ->
  donor_ids p' = donor_ids p /\ head_request_id p' = head_request_id p /\
  head (ct_pending c') = Some (head_request_id p) /\
  (forall i, i ∈ donor_ids p -> i ∈ entry_ids c' -> i ∈ entry_ids c) /\
  ((forall i, i ∈ donor_ids p -> i ∉ entry_ids c) -> forall i, i ∈ entry_ids c' -> i ∈ entry_ids c).
Proof.
  intros Hmc Hrun Hrun' Hb Hp Hp' He. pose proof (run_count _ _ _ Hrun'). pose proof (run_count _ _ _ Hrun).
  pose proof (run_inv 0 _ n c (control_init_inv mc Hmc) Hrun ltac:(lia)) as Hinv.
  destruct (epoch_kept n c k c' p p' Hinv Hrun' Hb Hp Hp' He) as [(_ & Hd & Hh) [Hk1 Hk2]].
  pose proof (run_inv n c k c' Hinv Hrun' ltac:(lia)) as Hinv'.
  split_and!; [done|done| |done|done].
  rewrite Hh. apply (ci_head _ _ Hinv'). by apply (ci_protection _ _ Hinv').
Qed.

(** A session in which request 2 is blocked behind request 1 and request 3 is let past it. *)
Definition demo_answers (head_ready : bool) (id : Z) : option Z * option Z :=
  if id =? 3 then (Some 4, Some 9) else ((if head_ready then Some 7 else None), None).

Lemma demo_answers_work ready id work : (demo_answers ready id).1 = Some work -> work_left work.
Proof. unfold demo_answers. repeat case_match; cbn; intros [= <-]; split; cbn; lia. Qed.

(** Request 1 has been served 2 of its 7 units of work. *)
Definition demo_first (work : Z) : ActiveRequest := activate (mkGrant 1 BackfillNone 0 0 work).
Definition demo_borrower : ActiveRequest := activate (mkGrant 3 Persistent 1 9 4).

Definition demo_control : Control :=
  mkCtl (mkScheduler None (Some 2) (Some (mkProtection 1 2 9 [1])) 2) [2]
    [Some (demo_first 5); None] (Some (1, demo_borrower)) 4.

Lemma demo_run : run (control_init 2) 8 demo_control.
Proof.
  change 8 with (0 + 1 + 1 + 1 + 1 + 1 + 1 + 1 + 1). unfold demo_control.
  apply (run_step _ _ (mkCtl (mkScheduler None None None 1) [2; 3] [Some (demo_first 5); None] None 4)
    (Pass (demo_answers false) 9 1 Accepted)).
  2: { cbn. split_and!; [done|apply demo_answers_work|done|done]. }
  2: { vm_compute. reflexivity. }
  apply (run_step _ _ (mkCtl (mkScheduler None None None 1) [2; 3] [Some (demo_first 7); None] None 4) (Serve 0 2)).
  2: { exists (demo_first 7). split; [reflexivity|]. cbn. lia. }
  2: { vm_compute. reflexivity. }
  apply (run_step _ _ (mkCtl (mkScheduler (Some 0) None None 1) [2; 3] [Some (demo_first 7); None] None 4) PrefillDone);
    [|done|vm_compute; reflexivity].
  apply (run_step _ _ (mkCtl (mkScheduler None None None 1) [2; 3] [None; None] (Some (0, demo_first 7)) 4) Publish);
    [|done|vm_compute; reflexivity].
  apply (run_step _ _ (mkCtl (mkScheduler None None None 1) [1; 2; 3] [None; None] None 4)
    (Pass (demo_answers true) 9 0 Accepted)).
  2: { cbn. split_and!; [done|apply demo_answers_work|done|by intros _ h [= <-]]. }
  2: { vm_compute. reflexivity. }
  apply (run_step _ _ (mkCtl (mkScheduler None None None 1) [1; 2] [None; None] None 3) Submit);
    [|done|vm_compute; reflexivity].
  apply (run_step _ _ (mkCtl (mkScheduler None None None 1) [1] [None; None] None 2) Submit);
    [|done|vm_compute; reflexivity].
  apply (run_step _ _ (control_init 2) Submit); [|done|vm_compute; reflexivity].
  apply run_done.
Qed.

(** The unit that ends a request may serve all that is left of it. *)
Lemma demo_finish_ok : event_ok demo_control (Finish 0 5).
Proof. split; [done|]. right. exists (demo_first 5). split; [reflexivity|]. cbn. lia. Qed.

Lemma admission_session_sound_witness :
  exists c', step demo_control (Finish 0 5) = Ok c' /\ NoDup ([2] ++ [1; 3]).
Proof.
  destruct (admission_session_sound 2 8 demo_control (Finish 0 5)) as [(c' & Hs) (_ & Hnd & _)];
    [done|apply demo_run|done|apply demo_finish_ok|].
  exists c'. split; [exact Hs|exact Hnd].
Defined.

Lemma protected_head_not_starved_witness :
  exists c', run demo_control 1 c' /\ entry_ids c' = [3] /\ head (ct_pending c') = Some 2.
Proof.
  set (c' := mkCtl (mkScheduler None (Some 2) (Some (mkProtection 1 2 9 [1])) 2) [2]
               [None; None] (Some (1, demo_borrower)) 4).
  assert (run demo_control (0 + 1) c') as Hrun.
  { apply (run_step _ _ demo_control (Finish 0 5)); [apply run_done|apply demo_finish_ok|vm_compute; reflexivity]. }
  exists c'. split; [exact Hrun|]. split; [reflexivity|].
  apply (protected_head_not_starved 2 8 demo_control 1 c' (mkProtection 1 2 9 [1]) (mkProtection 1 2 9 [1])
           ltac:(done) demo_run Hrun ltac:(done) eq_refl eq_refl eq_refl).
Defined.

(** ** Fairness of the unit choice *)

(** What the worker sees before a unit: control-ready rows, decode-ready rows, a runnable prefill. *)
Record Observation := mkObs { ob_control : bool; ob_decode : bool; ob_prefill : bool }.

Fixpoint unit_trace (previous : bool) (l : list Observation) : list (option ExecutionAction) * bool :=
  match l with
  | [] => ([], previous)
  | o :: l =>
      let '(u, previous) := worker_unit (ob_control o) (ob_decode o) (ob_prefill o) previous in
      let '(us, previous) := unit_trace previous l in (u :: us, previous)
  end.

Definition units (a : ExecutionAction) (l : list (option ExecutionAction)) : Z :=
  sum_with (fun u => Z.b2z (bool_decide (u = Some a))) l.

Lemma prefill_share previous l :
  Forall (fun o => ob_control o = false /\ ob_prefill o = true) l ->
  units Decode (unit_trace previous l).1 + Z.b2z previous <=
    units Prefill (unit_trace previous l).1 + 1.
Proof.
  revert previous. induction l as [|[c d p] l IH]; intros previous Hl; cbn [unit_trace].
  { destruct previous; cbn; lia. }
  apply Forall_cons in Hl as [[Hc Hp] Hl]. cbn in Hc, Hp. subst. cbn [ob_control ob_decode ob_prefill].
  destruct (worker_unit false d true previous) as [u previous'] eqn:Hu. specialize (IH previous' Hl).
  destruct (unit_trace previous' l) as [us q]. cbn [fst] in *. unfold units in *. cbn [sum_with] in *.
  destruct d, previous; injection Hu as <- <-; closed_decisions; cbn [Z.b2z] in *; lia.
Qed.

Lemma decode_share previous l :
  Forall (fun o => ob_control o = false /\ ob_decode o = true) l ->
  units Prefill (unit_trace previous l).1 <=
    units Decode (unit_trace previous l).1 + Z.b2z previous.
Proof.
  revert previous. induction l as [|[c d p] l IH]; intros previous Hl; cbn [unit_trace].
  { destruct previous; cbn; lia. }
  apply Forall_cons in Hl as [[Hc Hd] Hl]. cbn in Hc, Hd. subst. cbn [ob_control ob_decode ob_prefill].
  destruct (worker_unit false true p previous) as [u previous'] eqn:Hu. specialize (IH previous' Hl).
  destruct (unit_trace previous' l) as [us q]. cbn [fst] in *. unfold units in *. cbn [sum_with] in *.
  destruct p, previous; injection Hu as <- <-; closed_decisions; cbn [Z.b2z] in *; lia.
Qed.

(** C25: Prefill and decode share the worker.  Over any stretch of units in which a prefill stays
    runnable, decode units outnumber prefill units by at most one; over any stretch in which decode rows
    stay ready, prefill units outnumber decode units by at most one (control batches aside).  And an
    admission attempt that is put off because decode rows are ready is made at the very next boundary. *)
Theorem worker_units_fair previous l :
  (Forall (fun o => ob_control o = false /\ ob_prefill o = true) l ->
   units Decode (unit_trace previous l).1 <= units Prefill (unit_trace previous l).1 + 1) /\
  (Forall (fun o => ob_control o = false /\ ob_decode o = true) l ->
   units Prefill (unit_trace previous l).1 <= units Decode (unit_trace previous l).1 + 1) /\
  (forall s control decode decode',
     prefill_lane s = None -> should_attempt_admission s true true decode previous false = false ->
     should_attempt_admission s true true decode' (worker_unit control decode false previous).2 false = true).
Proof.
  split_and!.
  - intros Hl. pose proof (prefill_share previous l Hl). destruct previous; cbn [Z.b2z] in *; lia.
  - intros Hl. pose proof (decode_share previous l Hl). destruct previous; cbn [Z.b2z] in *; lia.
  - intros s control decode decode' Hs. unfold should_attempt_admission.
    rewrite bool_decide_eq_true_2 by done. by destruct control, decode, decode', previous.
Qed.

(** ** Memberships *)

Section membership.
Context {H O : Type} `{!OutputSession O}.
Implicit Types (slots : list (option (Request H O))) (p : Request H O -> bool).

(** The rows of a membership in lane order. *)
Fixpoint rows_from (p : Request H O -> bool) (lane : Z) slots : list (Z * Request H O) :=
  match slots with
  | [] => []
  | Some r :: slots => if p r then (lane, r) :: rows_from p (lane + 1) slots else rows_from p (lane + 1) slots
  | None :: slots => rows_from p (lane + 1) slots
  end.

Definition decode_row (r : Request H O) : bool := is_decode_ready r && negb (rq_capture_pending r).
Definition control_row (r : Request H O) : bool := is_control_ready r && negb (rq_capture_pending r).

Lemma rows_from_lanes p lane slots :
  Forall (fun x => lane <= x.1 < lane + Z.of_nat (length slots) /\
                   slots !! Z.to_nat (x.1 - lane) = Some (Some x.2) /\ p x.2 = true) (rows_from p lane slots) /\
  StronglySorted (fun x y => x.1 < y.1) (rows_from p lane slots) /\
  forall i r, slots !! i = Some (Some r) -> p r = true -> (lane + Z.of_nat i, r) ∈ rows_from p lane slots.
Proof.
  revert lane. induction slots as [|o slots IH]; intros lane; cbn [rows_from length].
  { split_and!; [constructor|constructor|]. intros i r. by rewrite lookup_nil. }
  destruct (IH (lane + 1)) as (Hall & Hsort & Hin).
  assert (Forall (fun x => lane <= x.1 < lane + Z.of_nat (S (length slots)) /\
    (o :: slots) !! Z.to_nat (x.1 - lane) = Some (Some x.2) /\ p x.2 = true) (rows_from p (lane + 1) slots)) as Hall'.
  { eapply Forall_impl; [exact Hall|]. intros [l r] (? & Hl & ?). cbn in *. split_and!; [lia|lia| |done].
    replace (Z.to_nat (l - lane)) with (S (Z.to_nat (l - (lane + 1)))) by lia. done. }
  assert (forall i r, slots !! i = Some (Some r) -> p r = true ->
    (lane + Z.of_nat (S i), r) ∈ rows_from p (lane + 1) slots) as Hin'.
  { intros i r Hi Hr. replace (lane + Z.of_nat (S i)) with (lane + 1 + Z.of_nat i) by lia. by apply Hin. }
  destruct o as [r|]; [destruct (p r) eqn:Hp|].
  - split_and!.
    + constructor; [|done]. cbn. rewrite Z.sub_diag. split_and!; [lia|lia|done|done].
    + constructor; [done|]. eapply Forall_impl; [exact Hall|]. intros x (? & _). cbn. lia.
    + intros [|i] r' Hi Hr; cbn in Hi; [|right; by apply Hin']. injection Hi as <-. rewrite Z.add_0_r. by left.
  - split_and!; [done|done|]. intros [|i] r' Hi Hr; cbn in Hi; [congruence|by apply Hin'].
  - split_and!; [done|done|]. intros [|i] r' Hi Hr; cbn in Hi; [done|by apply Hin'].
Qed.

(** The model tokens a decode row may sample. *)
Definition row_budget (r : Request H O) : option Z :=
  b ← rq_budget r; Some (model_token_budget_remaining (rq_output r) (remaining b)).

Lemma round_step_row m lane (r : Request H O) :
  round_step m lane (Some r) =
    if decode_row r then
      match rq_sequence r, row_budget r with
      | Some q, Some n =>
          if n =? 0 then Throw LogicError
          else Ok (mkRound (rm_lanes m ++ [lane]) (rm_sequences m ++ [q]) (rm_budgets m ++ [n]))
      | _, _ => Throw LogicError
      end
    else Ok m.
Proof.
  unfold round_step, decode_row, row_budget.
  destruct (is_decode_ready r), (rq_capture_pending r); cbn; try done.
  destruct (rq_budget r), (rq_sequence r); cbn; try done. by case_match.
Qed.

Lemma round_loop_spec m lane slots :
  match round_loop m lane slots with
  | Ok m' =>
      exists sequences budgets,
        m' = mkRound (rm_lanes m ++ (rows_from decode_row lane slots).*1) (rm_sequences m ++ sequences)
               (rm_budgets m ++ budgets) /\
        Forall2 (fun x q => rq_sequence x.2 = Some q) (rows_from decode_row lane slots) sequences /\
        Forall2 (fun x n => row_budget x.2 = Some n /\ n <> 0) (rows_from decode_row lane slots) budgets
  | Throw e =>
      e = LogicError /\ Exists (fun x => rq_sequence x.2 = None \/ row_budget x.2 = None \/
                                         row_budget x.2 = Some 0) (rows_from decode_row lane slots)
  end.
Proof.
  revert m lane. induction slots as [|[r|] slots IH]; intros m lane; cbn [round_loop rows_from].
  { exists [], []. rewrite !app_nil_r. destruct m. split_and!; [done|constructor|constructor]. }
  2: { apply IH. }
  rewrite round_step_row. destruct (decode_row r); [|apply IH].
  destruct (rq_sequence r) as [q|] eqn:Hq; cbn [mbind result_bind]; [|by split; [done|left; left]].
  destruct (row_budget r) as [b|] eqn:Hb; cbn [mbind result_bind]; [|by split; [done|left; right; left]].
  destruct (Z.eqb_spec b 0) as [->|Hne]; cbn [mbind result_bind]; [by split; [done|left; right; right]|].
  specialize (IH (mkRound (rm_lanes m ++ [lane]) (rm_sequences m ++ [q]) (rm_budgets m ++ [b])) (lane + 1)).
  destruct (round_loop _ _ slots) as [m'|e].
  - destruct IH as (sq & bd & -> & Hsq & Hbd). exists (q :: sq), (b :: bd). cbn.
    rewrite <- !app_assoc. split_and!; [done|by constructor|by constructor].
  - destruct IH as [-> IH]. split; [done|by right].
Qed.

(** A decode round has exactly the decode-ready rows that are not being captured, once each and in
    lane order, with their sequence handles and the number of model tokens their output session licenses
    - never zero.  It fails with a logic error exactly when such a row has no budget, no sequence or no
    licensed token. *)
Theorem round_membership_exact slots mc :
  let ready := rows_from decode_row 0 (take (Z.to_nat mc) slots) in
  StronglySorted (fun x y => x.1 < y.1) ready /\
  (forall lane r, (lane, r) ∈ ready <->
     0 <= lane < mc /\ at_index slots lane = Some (Some r) /\ decode_row r = true) /\
  match build_round_membership slots mc with
  | Ok m =>
      rm_lanes m = ready.*1 /\ Forall2 (fun x q => rq_sequence x.2 = Some q) ready (rm_sequences m) /\
      Forall2 (fun x n => row_budget x.2 = Some n /\ n <> 0) ready (rm_budgets m)
  | Throw e =>
      e = LogicError /\
      Exists (fun x => rq_sequence x.2 = None \/ row_budget x.2 = None \/ row_budget x.2 = Some 0) ready
  end.
Proof.
  intros ready. destruct (rows_from_lanes decode_row 0 (take (Z.to_nat mc) slots)) as (Hall & Hsort & Hin).
  fold ready in Hall, Hsort, Hin. split; [done|]. split.
  - intros lane r. rewrite Forall_forall in Hall. split.
    + intros Hr. destruct (Hall _ Hr) as (Hl & Hlk & Hp). cbn in *. rewrite Z.sub_0_r in Hlk.
      apply lookup_take_Some in Hlk as [Hlk ?]. split_and!; [lia|lia| |done].
      apply at_index_Some. split; [lia|done].
    + intros (Hl & [_ Hlk]%at_index_Some & Hp). replace lane with (0 + Z.of_nat (Z.to_nat lane)) by lia.
      apply Hin; [|done]. apply lookup_take_Some. split; [done|lia].
  - pose proof (round_loop_spec (mkRound [] [] []) 0 (take (Z.to_nat mc) slots)) as Hspec.
    unfold build_round_membership. destruct (round_loop _ _ _) as [m|e]; [|done].
    by destruct Hspec as (sq & bd & -> & Hsq & Hbd).
Qed.

Lemma control_step_row m lane (r : Request H O) :
  let control := pending_control_tokens (rq_output r) in
  let size := Z.of_nat (length control) in
  control_step m lane (Some r) =
    if control_row r then
      match rq_budget r, rq_sequence r with
      | Some b, Some q =>
          if bool_decide (control = [] \/ remaining b < size \/
                          (cm_row_stride m <> 0 /\ size <> cm_row_stride m)) then Throw LogicError
          else Ok (mkControl (cm_lanes m ++ [lane]) (cm_sequences m ++ [q]) (cm_tokens m ++ control)
                 (if cm_row_stride m =? 0 then w32 size else cm_row_stride m))
      | _, _ => Throw LogicError
      end
    else Ok m.
Proof.
  cbn zeta. unfold control_step, control_row.
  destruct (is_control_ready r), (rq_capture_pending r); cbn [negb orb andb]; try done.
  destruct (rq_budget r) as [b|], (rq_sequence r); try done. unfold throw_if.
  set (control := pending_control_tokens (rq_output r)).
  destruct (decide (control = [])) as [->|Hc].
  { rewrite !bool_decide_eq_true_2 by auto. done. }
  rewrite (bool_decide_eq_false_2 (control = [])) by done. cbn [orb].
  destruct (Z.ltb_spec (remaining b) (Z.of_nat (length control))); cbn [mbind result_bind].
  { by rewrite bool_decide_eq_true_2 by auto. }
  destruct (Z.eqb_spec (cm_row_stride m) 0) as [Hz|Hz], (Z.eqb_spec (Z.of_nat (length control)) (cm_row_stride m));
    cbn [negb andb mbind result_bind];
    first [by rewrite bool_decide_eq_true_2 by auto
          |rewrite bool_decide_eq_false_2 by (intros [?|[?|[? ?]]]; done || lia)]; done.
Qed.

(** The rows of a control batch are complete: each has a budget, a sequence and the same positive number
    of control tokens. *)
Definition control_ok (stride : Z) (r : Request H O) (q : H) : Prop :=
  rq_sequence r = Some q /\ Z.of_nat (length (pending_control_tokens (rq_output r))) = stride /\ 0 < stride /\
  exists b, rq_budget r = Some b /\ stride <= remaining b.

Definition budgets_in_range slots : Prop :=
  forall i r b, slots !! i = Some (Some r) -> rq_budget r = Some b -> 0 <= remaining b <= u32_max.

Lemma control_loop_spec m lane slots :
  budgets_in_range slots -> 0 <= cm_row_stride m ->
  match control_loop m lane slots with
  | Ok m' =>
      exists sequences,
        cm_lanes m' = cm_lanes m ++ (rows_from control_row lane slots).*1 /\
        cm_sequences m' = cm_sequences m ++ sequences /\
        cm_tokens m' = cm_tokens m ++
          (rows_from control_row lane slots ≫= fun x => pending_control_tokens (rq_output x.2)) /\
        Forall2 (fun x q => control_ok (cm_row_stride m') x.2 q) (rows_from control_row lane slots) sequences /\
        (cm_row_stride m <> 0 \/ rows_from control_row lane slots = [] -> cm_row_stride m' = cm_row_stride m)
  | Throw e => e = LogicError
  end.
Proof.
  intros Hr. revert m lane. induction slots as [|[r|] slots IH]; intros m lane Hm; cbn [control_loop rows_from].
  { exists []. rewrite !app_nil_r. split_and!; done. }
  2: { apply IH; [|done]. intros i. apply (Hr (S i)). }
  specialize (IH (fun i => Hr (S i))).
  rewrite control_step_row. destruct (control_row r); [|by apply IH].
  destruct (rq_budget r) as [b|] eqn:Hb; [|done]. destruct (rq_sequence r) as [q|] eqn:Hq; [|done].
  case_bool_decide as Hc; [done|]. cbn [mbind result_bind].
  pose proof (Hr 0%nat r b eq_refl Hb) as Hbr.
  set (control := pending_control_tokens (rq_output r)) in *.
  set (stride := if cm_row_stride m =? 0 then w32 (Z.of_nat (length control)) else cm_row_stride m).
  assert (0 < Z.of_nat (length control)) as Hpos.
  { assert (length control <> 0%nat) by (intros ?%nil_length_inv; apply Hc; by left). lia. }
  assert (stride = Z.of_nat (length control)) as Hstride.
  { unfold stride. destruct (Z.eqb_spec (cm_row_stride m) 0); [rewrite w32_small; lia|lia]. }
  specialize (IH (mkControl (cm_lanes m ++ [lane]) (cm_sequences m ++ [q]) (cm_tokens m ++ control) stride)
    (lane + 1) ltac:(cbn [cm_row_stride]; lia)).
  destruct (control_loop _ _ slots) as [m'|e]; [|done].
  destruct IH as (sq & Hl & Hs & Ht & Hall & Hkeep). cbn in Hl, Hs, Ht.
  assert (cm_row_stride m' = stride) as Hst by (apply Hkeep; cbn; lia).
  exists (q :: sq). rewrite Hl, Hs, Ht. cbn. rewrite <- !app_assoc. split_and!; [done|done|done| |].
  - constructor; [|done]. split_and!; [done|by rewrite Hst|lia|]. exists b. split; [done|lia].
  - intros [Hz|]; [|done]. rewrite Hst. unfold stride. by rewrite (proj2 (Z.eqb_neq _ _) Hz).
Qed.

(** A control batch is rectangular: it has exactly the control-ready rows that are not being captured,
    in lane order, and its token vector is the concatenation of their pending control tokens, all of the
    same positive length - the row stride - and within each row's remaining budget.  Otherwise the build
    fails with a logic error. *)
Theorem control_membership_exact slots mc :
  budgets_in_range slots ->
  let ready := rows_from control_row 0 (take (Z.to_nat mc) slots) in
  match build_control_membership slots mc with
  | Ok m =>
      cm_lanes m = ready.*1 /\
      cm_tokens m = (ready ≫= fun x => pending_control_tokens (rq_output x.2)) /\
      Forall2 (fun x q => control_ok (cm_row_stride m) x.2 q) ready (cm_sequences m) /\
      Z.of_nat (length (cm_tokens m)) = cm_row_stride m * Z.of_nat (length (cm_lanes m))
  | Throw e => e = LogicError
  end.
Proof.
  intros Hr ready. pose proof (control_loop_spec (mkControl [] [] [] 0) 0 (take (Z.to_nat mc) slots)) as Hspec.
  unfold build_control_membership. destruct (control_loop _ _ _) as [m|e]; [|apply Hspec; [|done]].
  - destruct Hspec as (sq & Hl & Hs & Ht & Hall & _); [|done|].
    { intros i r b Hi. apply lookup_take_Some in Hi as [Hi _]. by apply (Hr i). }
    fold ready in Hl, Ht, Hall. cbn in Hl, Hs, Ht. rewrite <- Hs in Hall. split_and!; [done|done|done|].
    rewrite Ht, Hl, length_fmap. clear -Hall. revert Hall. generalize (cm_sequences m).
    induction ready as [|x ready IH]; intros l Hall; [cbn; lia|]. destruct l as [|q l]; [by inversion Hall|].
    apply Forall2_cons in Hall as [(_ & Hx & _) Hall]. specialize (IH l Hall).
    set (f := fun x : Z * Request H O => pending_control_tokens (rq_output x.2)) in *.
    change ((x :: ready) ≫= f) with (f x ++ (ready ≫= f)). rewrite length_app. cbn [length].
    change (Z.of_nat (length (f x)) = cm_row_stride m) in Hx. lia.
  - intros i r b Hi. apply lookup_take_Some in Hi as [Hi _]. by apply (Hr i).
Qed.
End membership.

(** A model whose output session always forces the tokens it holds. *)
#[local] Instance demo_output : OutputSession (list Z) := {
  model_token_budget_remaining := fun _ n => n;
  pending_control_tokens := fun l => l;
}.

Definition demo_slots : list (option (Request Z (list Z))) :=
  [Some (mkRequest 1 [5; 6] (Some (mkBudget 9 OutputLimit)) (Some 70) ControlReady false 3 0 BackfillNone);
   None;
   Some (mkRequest 2 [7; 8] (Some (mkBudget 2 OutputLimit)) (Some 71) ControlReady false 3 0 BackfillNone)].

Lemma control_membership_exact_witness :
  exists m, build_control_membership demo_slots 3 = Ok m /\ cm_tokens m = [5; 6; 7; 8] /\
    Z.of_nat (length (cm_tokens m)) = cm_row_stride m * Z.of_nat (length (cm_lanes m)).
Proof.
  assert (budgets_in_range demo_slots) as Hr.
  { intros i r b Hi Hb. apply list_elem_of_lookup_2 in Hi.
    repeat (apply elem_of_cons in Hi as [Hi|Hi]; [try discriminate; injection Hi as ->;
      injection Hb as <-; cbn; lia|]). by apply elem_of_nil in Hi. }
  pose proof (control_membership_exact demo_slots 3 Hr) as Hx.
  destruct (build_control_membership demo_slots 3) as [m|e] eqn:E; [|vm_compute in E; discriminate].
  exists m. split; [reflexivity|]. destruct Hx as (_ & Ht & _ & Hlen). split; [|exact Hlen].
  rewrite Ht. reflexivity.
Defined.
