(* ===== verification/Binary64.v ===== *)
(** * IEEE binary64 arithmetic

    A C++ [double] is a [spec_float] of precision 53 and maximal exponent 1024; the operations round
    to nearest, ties to even. *)

From Stdlib Require Import ZArith Floats.SpecFloat.
Open Scope Z_scope.

Definition f64_add : spec_float -> spec_float -> spec_float := SFadd 53 1024.
Definition f64_mul : spec_float -> spec_float -> spec_float := SFmul 53 1024.
Definition f64_div : spec_float -> spec_float -> spec_float := SFdiv 53 1024.

(** [static_cast<double>] of an integer. *)
Definition f64_of_Z (z : Z) : spec_float := binary_normalize 53 1024 z 0 false.
Definition f64_of_nat (n : nat) : spec_float := f64_of_Z (Z.of_nat n).
