(* ===== verification/WindowTable.v ===== *)
(** * The window table of the prompt-lookup proposer

    [PromptLookup::WindowTable] of [models/qwen3_5/program/speculative/prompt_lookup.{h,cpp}]: an
    open-addressed map from a window's 64-bit hash to its latest end position, with linear probing
    and growth at load one half. The probe loops and the rehash carry fuel; the theorems show that
    the fuel the definitions give is enough, and that the table refines a finite map. *)

From stdpp Require Import gmap.
From S2P Require Import Prelude.
Open Scope Z_scope.

(** ** Definitions *)

(** [wt_ends] holds end position + 1; 0 marks an empty slot. *)
Record WindowTable := mkTable {
  wt_keys : list Z;
  wt_ends : list Z;
  wt_size : Z;
}.

Definition empty_table : WindowTable := mkTable [] [] 0.
Definition wt_capacity (t : WindowTable) : Z := Z.of_nat (length (wt_keys t)).

(** Where a probe loop leaves: an empty slot, or the slot that holds the key, with its end. *)
Inductive Stop :=
  | EmptySlot (slot : Z)
  | KeySlot (slot stored : Z).

(** The [for (slot = key & mask;; slot = (slot + 1) & mask)] loop of [insert] and [find]. *)
Fixpoint probe (fuel : nat) (t : WindowTable) (key slot : Z) : option Stop :=
  match fuel with
  | O => None
  | S fuel =>
      match at_index (wt_ends t) slot, at_index (wt_keys t) slot with
      | Some e, Some k =>
          if e =? 0 then Some (EmptySlot slot)
          else if k =? key then Some (KeySlot slot e)
          else probe fuel t key (Z.land (slot + 1) (wt_capacity t - 1))
      | _, _ => None
      end
  end.

Definition probe_key (t : WindowTable) (key : Z) : option Stop :=
  probe (length (wt_keys t)) t key (Z.land key (wt_capacity t - 1)).

(** The second half of [insert]: write the slot the probe stops at. *)
Definition place (t : WindowTable) (key last : Z) : option WindowTable :=
  match probe_key t key with
  | None => None
  | Some (EmptySlot slot) =>
      Some (mkTable (set_index (wt_keys t) slot key) (set_index (wt_ends t) slot (w32 (last + 1)))
              (wt_size t + 1))
  | Some (KeySlot slot _) =>
      Some (mkTable (wt_keys t) (set_index (wt_ends t) slot (w32 (last + 1))) (wt_size t))
  end.

(** The rehash loop over the old slots; [ins] is the recursive call of [insert]. *)
Fixpoint reinsert (ins : WindowTable -> Z -> Z -> option WindowTable) (slots : list (Z * Z))
    (t : WindowTable) : option WindowTable :=
  match slots with
  | [] => Some t
  | (key, e) :: slots =>
      if e =? 0 then reinsert ins slots t
      else
        match ins t key (w32 (e - 1)) with
        | Some t => reinsert ins slots t
        | None => None
        end
  end.

Definition fresh_table (capacity : Z) : WindowTable :=
  mkTable (replicate (Z.to_nat capacity) 0) (replicate (Z.to_nat capacity) 0) 0.

(** [insert] calls itself while it rehashes; [depth] bounds the nesting of those calls. *)
Fixpoint insert_rec (depth : nat) (t : WindowTable) (key last : Z) : option WindowTable :=
  match depth with
  | O => None
  | S depth =>
      let grown :=
        if wt_capacity t <? (wt_size t + 1) * 2 then
          reinsert (insert_rec depth) (zip (wt_keys t) (wt_ends t))
            (fresh_table (Z.max 4096 (wt_capacity t * 2)))
        else Some t in
      match grown with
      | Some t => place t key last
      | None => None
      end
  end.

(** The nested calls never rehash, so two levels are enough ([insert_refines]). *)
Definition table_insert (t : WindowTable) (key last : Z) : option WindowTable := insert_rec 2 t key last.

Definition table_find (t : WindowTable) (key : Z) : option Z :=
  if decide (wt_keys t = []) then Some 0
  else
    match probe_key t key with
    | None => None
    | Some (EmptySlot _) => Some 0
    | Some (KeySlot _ e) => Some e
    end.

Definition table_clear (t : WindowTable) : WindowTable :=
  mkTable (replicate (length (wt_keys t)) 0) (replicate (length (wt_ends t)) 0) 0.

(** ** The representation invariant *)

Definition slot_used (e : Z) : Z := if e =? 0 then 0 else 1.

(** [occupied t s]: slot [s] is in use. *)
Definition occupied (t : WindowTable) (s : Z) : Prop :=
  exists e, at_index (wt_ends t) s = Some e /\ e <> 0.

Definition slot_at (t : WindowTable) (key : Z) (d : nat) : Z :=
  (key + Z.of_nat d) mod wt_capacity t.

(** Slot [s] holds [key] with the stored end [e]. *)
Definition holds (t : WindowTable) (s key e : Z) : Prop :=
  at_index (wt_keys t) s = Some key /\ at_index (wt_ends t) s = Some e /\ e <> 0.

Record table_wf (t : WindowTable) : Prop := {
  twf_lengths : length (wt_ends t) = length (wt_keys t);
  twf_capacity : wt_capacity t = 0 \/ exists k, 12 <= k /\ wt_capacity t = 2 ^ k;
  twf_size : wt_size t = sum_with slot_used (wt_ends t);
  twf_ends : forall s e, at_index (wt_ends t) s = Some e -> 0 <= e <= u32_max;
  twf_keys : forall s key e, holds t s key e -> 0 <= key;
  twf_load : 2 * wt_size t <= wt_capacity t;
  twf_distinct : forall s1 s2 key e1 e2, holds t s1 key e1 -> holds t s2 key e2 -> s1 = s2;
  twf_chain : forall s key e, holds t s key e ->
    exists d, Z.of_nat d < wt_capacity t /\ s = slot_at t key d /\
      forall i, (i < d)%nat -> occupied t (slot_at t key i);
}.

(** The finite map the table stands for; an end [e] is stored as [e + 1]. *)
Definition represents (t : WindowTable) (m : gmap Z Z) : Prop :=
  forall key last, m !! key = Some last <-> 0 <= last /\ exists s, holds t s key (last + 1).

Lemma slot_used_1 e : e <> 0 -> slot_used e = 1.
Proof. intros. unfold slot_used. destruct (Z.eqb_spec e 0); done. Qed.

(** ** Probing *)

Section probing.
Context (t : WindowTable) (key : Z) (Hwf : table_wf t) (Hpos : 0 < wt_capacity t) (Hkey : 0 <= key).

(** The probe of [key] continues past slot [s]. *)
Definition passes (s : Z) : Prop :=
  exists e k, at_index (wt_ends t) s = Some e /\ e <> 0 /\ at_index (wt_keys t) s = Some k /\ k <> key.

Definition stops (s : Z) (st : Stop) : Prop :=
  match st with
  | EmptySlot s' => s' = s /\ at_index (wt_ends t) s = Some 0
  | KeySlot s' e => s' = s /\ holds t s key e
  end.

Lemma capacity_mask x : 0 <= x -> Z.land x (wt_capacity t - 1) = x mod wt_capacity t.
Proof.
  intros Hx. destruct (twf_capacity t Hwf) as [|(k & Hk & ->)]; [lia|].
  replace (2 ^ k - 1) with (Z.ones k) by (rewrite Z.ones_equiv; lia).
  apply Z.land_ones. lia.
Qed.

Lemma slot_at_range d : 0 <= slot_at t key d < wt_capacity t.
Proof. apply Z.mod_pos_bound. done. Qed.

Lemma slot_at_next d :
  Z.land (slot_at t key d + 1) (wt_capacity t - 1) = slot_at t key (S d).
Proof.
  pose proof (slot_at_range d). rewrite capacity_mask by lia. unfold slot_at.
  rewrite Zplus_mod_idemp_l. f_equal. lia.
Qed.

Lemma slot_at_inj d d' :
  Z.of_nat d < wt_capacity t -> Z.of_nat d' < wt_capacity t ->
  slot_at t key d = slot_at t key d' -> d = d'.
Proof.
  unfold slot_at. intros H1 H2 E.
  assert (Z.of_nat d mod wt_capacity t = Z.of_nat d' mod wt_capacity t) as E'.
  { replace (Z.of_nat d) with (key + Z.of_nat d - key) by lia.
    replace (Z.of_nat d') with (key + Z.of_nat d' - key) by lia.
    rewrite Zminus_mod, E, <- Zminus_mod. done. }
  rewrite !Z.mod_small in E' by lia. lia.
Qed.

Lemma slot_cases s :
  0 <= s < wt_capacity t -> passes s \/ exists st, stops s st.
Proof.
  intros Hs. unfold wt_capacity in Hs.
  destruct (at_index_is_Some (wt_keys t) s) as [k Hk]; [lia|].
  destruct (at_index_is_Some (wt_ends t) s) as [e He]; [rewrite (twf_lengths t Hwf); lia|].
  destruct (decide (e = 0)) as [->|]; [right; by exists (EmptySlot s)|].
  destruct (decide (k = key)) as [->|]; [right; exists (KeySlot s e); done|].
  left. by exists e, k.
Qed.

Lemma probe_walk d : forall fuel i st,
  (d < fuel)%nat ->
  (forall j, (i <= j < i + d)%nat -> passes (slot_at t key j)) ->
  stops (slot_at t key (i + d)) st ->
  probe fuel t key (slot_at t key i) = Some st.
Proof.
  induction d as [|d IH]; intros [|fuel] i st Hf Hp Hst; try lia; cbn [probe].
  - rewrite Nat.add_0_r in Hst. destruct st as [s|s e], Hst as [-> Hst].
    + rewrite Hst. destruct (at_index_is_Some (wt_keys t) (slot_at t key i)) as [k ->]; [|done].
      apply at_index_lt in Hst. rewrite <- (twf_lengths t Hwf). lia.
    + destruct Hst as (-> & -> & He). rewrite (proj2 (Z.eqb_neq _ _) He), Z.eqb_refl. done.
  - destruct (Hp i) as (e & k & -> & He & -> & Hk); [lia|].
    rewrite (proj2 (Z.eqb_neq _ _) He), (proj2 (Z.eqb_neq _ _) Hk), slot_at_next.
    apply IH; [lia| |].
    + intros j Hj. apply Hp. lia.
    + by rewrite <- plus_n_Sm in Hst.
Qed.

Lemma empty_slot : exists s, at_index (wt_ends t) s = Some 0.
Proof.
  destruct (decide (Exists (fun e => e = 0) (wt_ends t))) as [H|H].
  - apply Exists_exists in H as (e & [i Hi]%list_elem_of_lookup & ->).
    exists (Z.of_nat i). apply at_index_Some. rewrite Nat2Z.id. split; [lia|done].
  - exfalso. pose proof (twf_size t Hwf) as Hs. pose proof (twf_load t Hwf) as Hl.
    rewrite (sum_with_ext _ (fun _ => 1)) in Hs.
    + assert (sum_with (fun _ => 1) (wt_ends t) = Z.of_nat (length (wt_ends t))) as E.
      { clear. induction (wt_ends t) as [|a l IH]; [done|]. cbn [sum_with length]. lia. }
      rewrite (twf_lengths t Hwf) in E. unfold wt_capacity in *. lia.
    + intros i e Hi. unfold slot_used. destruct (Z.eqb_spec e 0) as [->|]; [|done].
      exfalso. apply H, Exists_exists. exists 0. split; [|done]. by eapply list_elem_of_lookup_2.
Qed.

(** The probe of a key stops within one lap. *)
Lemma first_stop :
  exists d st, Z.of_nat d < wt_capacity t /\
    (forall j, (j < d)%nat -> passes (slot_at t key j)) /\ stops (slot_at t key d) st.
Proof.
  destruct empty_slot as [z Hz].
  assert (0 <= z < wt_capacity t) as Hzr.
  { apply at_index_lt in Hz. rewrite (twf_lengths t Hwf) in Hz. exact Hz. }
  pose proof (Z.mod_pos_bound (z - key) (wt_capacity t) Hpos) as Hd.
  set (d0 := Z.to_nat ((z - key) mod wt_capacity t)).
  assert (slot_at t key d0 = z) as Hd0.
  { unfold slot_at, d0. rewrite Z2Nat.id by lia. rewrite Zplus_mod_idemp_r.
    replace (key + (z - key)) with z by lia. apply Z.mod_small. lia. }
  assert (forall n, (forall j, (j < n)%nat -> passes (slot_at t key j)) \/
    exists d st, (d < n)%nat /\ (forall j, (j < d)%nat -> passes (slot_at t key j)) /\
      stops (slot_at t key d) st) as Hsearch.
  { induction n as [|n [IH|(d & st & Hdn & H)]]; [left; lia| |right; exists d, st; split; [lia|done]].
    destruct (slot_cases (slot_at t key n) (slot_at_range n)) as [Hn|[st Hn]].
    - left. intros j Hj. destruct (decide (j = n)) as [->|]; [done|]. apply IH. lia.
    - right. exists n, st. split; [lia|]. split; done. }
  destruct (Hsearch (S d0)) as [H|(d & st & Hlt & H)].
  - exfalso. specialize (H d0 ltac:(lia)) as (e & k & He & Hne & _).
    rewrite Hd0, Hz in He. congruence.
  - exists d, st. split; [unfold d0 in Hlt; lia|done].
Qed.

(** The probe loop returns with the fuel of one lap: the slot of the key if the table holds it,
    otherwise the first empty slot after the key's home. *)
Lemma probe_key_stops :
  exists d st, probe_key t key = Some st /\ Z.of_nat d < wt_capacity t /\
    (forall j, (j < d)%nat -> passes (slot_at t key j)) /\ stops (slot_at t key d) st.
Proof.
  destruct first_stop as (d & st & Hd & Hp & Hst). exists d, st. split; [|done].
  unfold probe_key. rewrite capacity_mask by done.
  replace (key mod wt_capacity t) with (slot_at t key 0)
    by (unfold slot_at; f_equal; lia).
  apply (probe_walk d); [unfold wt_capacity in Hd; lia| |done].
  intros j Hj. apply Hp. lia.
Qed.

(** An empty stop means that no slot holds the key. *)
Lemma empty_stop_absent d s e :
  Z.of_nat d < wt_capacity t -> (forall j, (j < d)%nat -> passes (slot_at t key j)) ->
  at_index (wt_ends t) (slot_at t key d) = Some 0 -> ~ holds t s key e.
Proof.
  intros Hd Hp He Hh. destruct (twf_chain t Hwf _ _ _ Hh) as (d' & Hd' & -> & Hocc).
  destruct (Nat.lt_trichotomy d' d) as [Hlt|[->|Hlt]].
  - destruct (Hp d' Hlt) as (e' & k & _ & _ & Hk & Hne). destruct Hh as (Hk' & _). congruence.
  - destruct Hh as (_ & He' & Hne). congruence.
  - destruct (Hocc d Hlt) as (e' & He' & Hne). congruence.
Qed.
End probing.

(** ** Lookup *)

Lemma holds_range t s key e : table_wf t -> holds t s key e -> 0 <= s < wt_capacity t /\ 0 < e.
Proof.
  intros Hwf (Hk & He & Hne). apply at_index_lt in Hk. pose proof (twf_ends t Hwf s e He).
  unfold wt_capacity. lia.
Qed.

Lemma represents_None t m key :
  table_wf t -> represents t m -> (m !! key = None <-> forall s e, ~ holds t s key e).
Proof.
  intros Hwf Hm. split.
  - intros Hn s e Hh. destruct (holds_range t s key e Hwf Hh) as [_ He].
    destruct (Hm key (e - 1)) as [_ H]. rewrite Hn in H. apply (@Some_ne_None Z (e - 1)).
    symmetry. apply H. split; [lia|]. exists s. by replace (e - 1 + 1) with e by lia.
  - intros Hn. destruct (m !! key) as [last|] eqn:E; [|done].
    apply Hm in E as (_ & s & Hs). by apply Hn in Hs.
Qed.

Lemma find_represents t m key :
  table_wf t -> represents t m -> 0 <= key ->
  table_find t key = Some (match m !! key with Some last => last + 1 | None => 0 end).
Proof.
  intros Hwf Hm Hkey. unfold table_find. case_decide as Hnil.
  - replace (m !! key) with (@None Z); [done|]. symmetry.
    apply (represents_None t m); [done..|]. intros s e (Hk & _). rewrite Hnil in Hk.
    apply at_index_lt in Hk. cbn in Hk. lia.
  - assert (0 < wt_capacity t) as Hpos.
    { unfold wt_capacity. destruct (wt_keys t); [done|]. cbn. lia. }
    destruct (probe_key_stops t key Hwf Hpos Hkey) as (d & [s|s e] & -> & Hd & Hp & -> & Hst).
    + rewrite (proj2 (represents_None t m key Hwf Hm)); [done|].
      intros s e. by apply (empty_stop_absent t key Hwf d).
    + destruct (holds_range t _ _ _ Hwf Hst) as [_ He].
      assert (m !! key = Some (e - 1)) as ->; [|f_equal; lia].
      apply Hm. split; [lia|]. exists (slot_at t key d). by replace (e - 1 + 1) with e by lia.
Qed.

(** ** Writing a slot *)

Section writing.
Context (t : WindowTable) (m : gmap Z Z) (key last n : Z) (d : nat).
Context (Hwf : table_wf t) (Hm : represents t m) (Hkey : 0 <= key) (Hlast : 0 <= last < u32_max).
Context (Hd : Z.of_nat d < wt_capacity t).
Context (Hocc : forall i, (i < d)%nat -> occupied t (slot_at t key i)).

Let s : Z := slot_at t key d.
Let t' : WindowTable :=
  mkTable (set_index (wt_keys t) s key) (set_index (wt_ends t) s (w32 (last + 1))) n.

(** The slot is free or holds the key already, and no other slot holds it. *)
Context (Hown : forall k e, holds t s k e -> k = key).
Context (Hother : forall s' e, s' <> s -> ~ holds t s' key e).
Context (Hn : n = sum_with slot_used (wt_ends t')).
Context (Hload : 2 * n <= wt_capacity t).

Lemma write_slot_range : 0 <= s < wt_capacity t.
Proof. apply slot_at_range. lia. Qed.

Lemma write_capacity : wt_capacity t' = wt_capacity t.
Proof. unfold wt_capacity, t'. cbn. by rewrite length_set_index. Qed.

Lemma write_ends s' :
  at_index (wt_ends t') s' = if decide (s' = s) then Some (last + 1) else at_index (wt_ends t) s'.
Proof.
  pose proof write_slot_range as Hs. unfold t'. cbn [wt_ends]. rewrite w32_small by lia.
  case_decide as E.
  - subst s'. apply at_set_index_eq. rewrite (twf_lengths t Hwf). exact Hs.
  - apply at_set_index_ne; [lia|congruence].
Qed.

Lemma write_keys s' :
  at_index (wt_keys t') s' = if decide (s' = s) then Some key else at_index (wt_keys t) s'.
Proof.
  pose proof write_slot_range as Hs. unfold t'. cbn [wt_keys].
  case_decide as E.
  - subst s'. by apply at_set_index_eq.
  - apply at_set_index_ne; [lia|congruence].
Qed.

Lemma write_holds s' k e :
  holds t' s' k e <-> (s' = s /\ k = key /\ e = last + 1) \/ (s' <> s /\ holds t s' k e).
Proof.
  unfold holds. rewrite write_ends, write_keys. case_decide as E.
  - split.
    + intros ([= <-] & [= <-] & _). auto.
    + intros [(_ & -> & ->)|[? _]]; [|done]. repeat split. lia.
  - split; [auto|]. intros [[-> _]|[_ ?]]; done.
Qed.

Lemma write_occupied s' : occupied t s' -> occupied t' s'.
Proof.
  intros (e & He & Hne). unfold occupied. rewrite write_ends.
  case_decide; [exists (last + 1); split; [done|lia]|]. by exists e.
Qed.

Lemma write_wf : table_wf t'.
Proof.
  constructor.
  - unfold t'. cbn. rewrite !length_set_index. apply (twf_lengths t Hwf).
  - rewrite write_capacity. apply (twf_capacity t Hwf).
  - exact Hn.
  - intros s' e. rewrite write_ends. case_decide; [intros [= <-]; lia|]. apply (twf_ends t Hwf).
  - intros s' k e [(_ & -> & _)|[_ Hh]]%write_holds; [done|]. exact (twf_keys t Hwf _ _ _ Hh).
  - rewrite write_capacity. exact Hload.
  - intros s1 s2 k e1 e2 [(-> & -> & ->)|[Hs1 H1]]%write_holds [(-> & E & ->)|[Hs2 H2]]%write_holds.
    + done.
    + by apply Hother in H2.
    + subst k. by apply Hother in H1.
    + exact (twf_distinct t Hwf _ _ _ _ _ H1 H2).
  - intros s' k e Hh. unfold slot_at. rewrite write_capacity.
    apply write_holds in Hh as [(-> & -> & ->)|[Hs Hh]].
    + exists d. split; [done|]. split; [done|]. intros i Hi. apply write_occupied. by apply Hocc.
    + destruct (twf_chain t Hwf _ _ _ Hh) as (d' & Hd' & Hs' & Hc). exists d'.
      split; [done|]. split; [done|]. intros i Hi. apply write_occupied. by apply Hc.
Qed.

Lemma write_represents : represents t' (<[key := last]> m).
Proof.
  intros k e. rewrite lookup_insert_Some, (Hm k e). split.
  - intros [[<- <-]|(Hne & He & s' & Hs')].
    + split; [lia|]. exists s. apply write_holds. auto.
    + split; [done|]. exists s'. apply write_holds. right. split; [|done].
      intros ->. by apply Hown in Hs'.
  - intros (He & s' & [(-> & -> & E)|[Hs Hs']]%write_holds).
    + left. split; [done|lia].
    + right. split; [|split; [done|by exists s']]. intros ->. by apply Hother in Hs'.
Qed.
End writing.

(** Writing where the probe stops: no growth is needed when the load allows one more key. *)
Lemma place_refines t m key last :
  table_wf t -> represents t m -> 0 <= key -> 0 <= last < u32_max ->
  2 * (wt_size t + 1) <= wt_capacity t ->
  exists t', place t key last = Some t' /\ table_wf t' /\ represents t' (<[key := last]> m) /\
    wt_capacity t' = wt_capacity t /\ wt_size t' <= wt_size t + 1.
Proof.
  intros Hwf Hm Hkey Hlast Hload.
  pose proof (sum_with_nonneg slot_used (wt_ends t)
    ltac:(intros e; unfold slot_used; destruct (e =? 0); lia)) as Hnn.
  pose proof (twf_size t Hwf) as Hsz.
  assert (0 < wt_capacity t) as Hpos by lia.
  destruct (probe_key_stops t key Hwf Hpos Hkey) as (d & st & Hst & Hd & Hp & Hs).
  assert (forall i, (i < d)%nat -> occupied t (slot_at t key i)) as Hocc.
  { intros i Hi. destruct (Hp i Hi) as (e & _ & He & Hne & _). by exists e. }
  unfold place. rewrite Hst. destruct st as [s|s e], Hs as [-> Hs].
  - pose proof (empty_stop_absent t key Hwf d) as Habs.
    assert (wt_size t + 1 = sum_with slot_used
      (set_index (wt_ends t) (slot_at t key d) (w32 (last + 1)))) as Hn.
    { rewrite (sum_with_set_index _ _ _ _ _ Hs), w32_small by lia.
      rewrite (slot_used_1 (last + 1)) by lia. change (slot_used 0) with 0. lia. }
    assert (forall k e, holds t (slot_at t key d) k e -> k = key) as Hown.
    { intros k e (_ & He & Hne). congruence. }
    eexists. split; [reflexivity|]. split; [|split; [|split]].
    + apply write_wf; try done; try lia. intros s' e _. by apply Habs.
    + apply write_represents; try done. intros s' e _. by apply Habs.
    + unfold wt_capacity. cbn. by rewrite length_set_index.
    + cbn. lia.
  - assert (set_index (wt_keys t) (slot_at t key d) key = wt_keys t) as Ek.
    { destruct Hs as (Hk & _). apply at_index_Some in Hk as [_ Hk]. by apply list_insert_id. }
    assert (wt_size t = sum_with slot_used
      (set_index (wt_ends t) (slot_at t key d) (w32 (last + 1)))) as Hn.
    { destruct Hs as (_ & He & Hne). rewrite (sum_with_set_index _ _ _ _ _ He), w32_small by lia.
      rewrite !slot_used_1 by lia. lia. }
    assert (forall k e', holds t (slot_at t key d) k e' -> k = key) as Hown.
    { intros k e' (Hk & _). destruct Hs as (Hk' & _). congruence. }
    assert (forall s' e', s' <> slot_at t key d -> ~ holds t s' key e') as Hother.
    { intros s' e' Hne Hh. apply Hne. exact (twf_distinct t Hwf _ _ _ _ _ Hh Hs). }
    exists (mkTable (set_index (wt_keys t) (slot_at t key d) key)
              (set_index (wt_ends t) (slot_at t key d) (w32 (last + 1))) (wt_size t)).
    split; [by rewrite Ek|]. split; [|split; [|split]].
    + apply write_wf; try done; try lia.
    + by apply write_represents.
    + unfold wt_capacity. cbn. by rewrite length_set_index.
    + cbn. lia.
Qed.

(** ** Growth *)

Definition replay (slots : list (Z * Z)) (m : gmap Z Z) : gmap Z Z :=
  foldl (fun m '(key, e) => if e =? 0 then m else <[key := e - 1]> m) m slots.

Lemma replay_cons key e slots m :
  replay ((key, e) :: slots) m = replay slots (if e =? 0 then m else <[key := e - 1]> m).
Proof. done. Qed.

Lemma insert_rec_room depth t key last :
  2 * (wt_size t + 1) <= wt_capacity t -> insert_rec (S depth) t key last = place t key last.
Proof.
  intros H. cbn [insert_rec]. destruct (Z.ltb_spec (wt_capacity t) ((wt_size t + 1) * 2)); [lia|done].
Qed.

Lemma reinsert_refines depth slots : forall t m,
  table_wf t -> represents t m ->
  Forall (fun p => p.2 = 0 \/ (0 <= p.1 /\ 0 < p.2 <= u32_max)) slots ->
  2 * (wt_size t + sum_with (fun p => slot_used p.2) slots) <= wt_capacity t ->
  exists t', reinsert (insert_rec (S depth)) slots t = Some t' /\ table_wf t' /\
    represents t' (replay slots m) /\ wt_capacity t' = wt_capacity t /\
    wt_size t' <= wt_size t + sum_with (fun p => slot_used p.2) slots.
Proof.
  induction slots as [|[key e] slots IH]; intros t m Hwf Hm Hall Hload.
  { exists t. cbn in *. split; [done|]. split; [done|]. split; [done|]. split; [done|lia]. }
  apply Forall_cons in Hall as [Hke Hall].
  change (sum_with (fun p => slot_used p.2) ((key, e) :: slots))
    with (slot_used e + sum_with (fun p => slot_used p.2) slots) in *.
  cbn [reinsert]. cbn [fst snd] in Hke.
  rewrite replay_cons.
  destruct (Z.eqb_spec e 0) as [->|Hne].
  { change (slot_used 0) with 0 in *. destruct (IH t m) as (t' & ? & ? & ? & ? & ?); [done..|lia|].
    exists t'. split; [done|]. split; [done|]. split; [done|]. split; [done|lia]. }
  destruct Hke as [|[Hk He]]; [lia|].
  assert (0 <= sum_with (fun p => slot_used p.2) slots) as Hnn.
  { apply sum_with_nonneg. intros p. unfold slot_used. destruct (p.2 =? 0); lia. }
  rewrite slot_used_1 in * by done. rewrite insert_rec_room by lia. rewrite w32_small by lia.
  destruct (place_refines t m key (e - 1)) as (t1 & -> & Hwf1 & Hm1 & Hc1 & Hs1); [done..|lia|lia|].
  destruct (IH t1 (<[key := e - 1]> m)) as (t' & ? & ? & ? & ? & ?); [done..|lia|].
  exists t'. split; [done|]. split; [done|]. split; [done|]. split; lia.
Qed.

(** Replaying slots with distinct keys gives the map of the slots. *)
Lemma replay_lookup slots : forall m key last,
  (forall i j e e', slots !! i = Some (key, e) -> slots !! j = Some (key, e') ->
    e <> 0 -> e' <> 0 -> i = j) ->
  replay slots m !! key = Some last <->
    (exists i, slots !! i = Some (key, last + 1) /\ last + 1 <> 0) \/
    (m !! key = Some last /\ forall i e, slots !! i = Some (key, e) -> e = 0).
Proof.
  induction slots as [|[k0 e0] slots IH]; intros m key last Hd.
  { cbn. split; [intros H; right; split; [done|]; intros i e; by rewrite lookup_nil|].
    intros [(i & Hi & _)|[H _]]; [by rewrite lookup_nil in Hi|done]. }
  rewrite replay_cons.
  assert (forall i j e e', slots !! i = Some (key, e) -> slots !! j = Some (key, e') ->
    e <> 0 -> e' <> 0 -> i = j) as Hd'.
  { intros i j e e' Hi Hj He He'. specialize (Hd (S i) (S j) e e' Hi Hj He He'). lia. }
  rewrite IH by exact Hd'. clear IH. split.
  - intros [(i & Hi & Hne)|[Hm Hz]].
    + left. by exists (S i).
    + destruct (Z.eqb_spec e0 0) as [->|Hne].
      * right. split; [done|]. intros [|i] e; cbn; [congruence|]. apply Hz.
      * rewrite lookup_insert_Some in Hm. destruct Hm as [[-> <-]|[Hk Hm]].
        -- left. exists 0%nat. cbn. split; [do 2 f_equal; lia|lia].
        -- right. split; [done|]. intros [|i] e; cbn; [congruence|]. apply Hz.
  - intros [([|i] & Hi & Hne)|[Hm Hz]].
    + cbn in Hi. injection Hi as -> ->. right. split.
      * rewrite (proj2 (Z.eqb_neq _ _) Hne), lookup_insert_eq. f_equal. lia.
      * intros i e Hi. destruct (decide (e = 0)) as [|He]; [done|].
        specialize (Hd 0%nat (S i) (last + 1) e eq_refl Hi Hne He). lia.
    + left. by exists i.
    + right. split; [|intros i e Hi; by apply (Hz (S i))].
      destruct (Z.eqb_spec e0 0) as [->|Hne]; [done|].
      rewrite lookup_insert_ne; [done|]. intros ->. exact (Hne (Hz 0%nat e0 eq_refl)).
Qed.

Lemma lookup_slots t s key e :
  table_wf t ->
  (zip (wt_keys t) (wt_ends t) !! s = Some (key, e) /\ e <> 0 <-> holds t (Z.of_nat s) key e).
Proof.
  intros Hwf. unfold holds. rewrite lookup_zip_with_Some, !at_index_Some, Nat2Z.id. split.
  - intros [(k & e' & [= <- <-] & Hk & He) Hne]. auto with lia.
  - intros ([_ Hk] & [_ He] & Hne). split; [|done]. by exists key, e.
Qed.

Lemma represents_slots t m key last :
  table_wf t -> represents t m ->
  m !! key = Some last <-> replay (zip (wt_keys t) (wt_ends t)) ∅ !! key = Some last.
Proof.
  intros Hwf Hm. rewrite (Hm key last), replay_lookup, lookup_empty.
  2: { intros i j e e' Hi Hj He He'.
       assert (holds t (Z.of_nat i) key e) as H1 by by apply lookup_slots.
       assert (holds t (Z.of_nat j) key e') as H2 by by apply lookup_slots.
       pose proof (twf_distinct t Hwf _ _ _ _ _ H1 H2). lia. }
  split.
  - intros (Hlast & s & Hs). left. destruct (holds_range t s key _ Hwf Hs) as [Hr _].
    exists (Z.to_nat s). apply lookup_slots; [done|]. by rewrite Z2Nat.id by lia.
  - intros [(i & Hi)|[H _]]; [|done]. apply lookup_slots in Hi; [|done].
    destruct (holds_range t _ key _ Hwf Hi). split; [lia|]. by exists (Z.of_nat i).
Qed.

Lemma fresh_wf capacity k :
  12 <= k -> capacity = 2 ^ k -> table_wf (fresh_table capacity) /\ represents (fresh_table capacity) ∅.
Proof.
  intros Hk ->. set (c := 2 ^ k). assert (0 < c) by (apply Z.pow_pos_nonneg; lia).
  assert (forall s e, at_index (replicate (Z.to_nat c) 0) s = Some e -> e = 0) as Hz.
  { intros s e [_ H']%at_index_Some. by apply lookup_replicate in H' as [-> _]. }
  assert (forall s key e, ~ holds (fresh_table c) s key e) as Hn.
  { intros s key e (_ & He & Hne). by apply Hz in He. }
  assert (wt_capacity (fresh_table c) = c) as Hc.
  { unfold wt_capacity. cbn. rewrite length_replicate. lia. }
  split; [constructor|].
  - cbn. by rewrite !length_replicate.
  - right. exists k. by rewrite Hc.
  - cbn. rewrite sum_with_replicate. change (slot_used 0) with 0. lia.
  - intros s e H'. apply Hz in H'. lia.
  - intros s key e Hh. by apply Hn in Hh.
  - rewrite Hc. cbn. lia.
  - intros s1 s2 key e1 e2 Hh. by apply Hn in Hh.
  - intros s key e Hh. by apply Hn in Hh.
  - intros key last. rewrite lookup_empty. split; [done|]. intros (_ & s & Hh). by apply Hn in Hh.
Qed.

Lemma empty_wf : table_wf empty_table /\ represents empty_table ∅.
Proof.
  assert (forall s key e, ~ holds empty_table s key e) as Hn.
  { intros s key e (Hk & _). apply at_index_lt in Hk. cbn in Hk. lia. }
  split; [constructor|]; try done; try (by left).
  - intros s e He. apply at_index_lt in He. cbn in He. lia.
  - intros s key e Hh. by apply Hn in Hh.
  - intros s1 s2 key e1 e2 Hh. by apply Hn in Hh.
  - intros s key e Hh. by apply Hn in Hh.
  - intros key last. rewrite lookup_empty. split; [done|]. intros (_ & s & Hh). by apply Hn in Hh.
Qed.

(** [insert] returns with two nested calls and updates the represented map; the ends are 32-bit. *)
Lemma insert_refines t m key last :
  table_wf t -> represents t m -> 0 <= key -> 0 <= last < u32_max ->
  exists t', table_insert t key last = Some t' /\ table_wf t' /\ represents t' (<[key := last]> m).
Proof.
  intros Hwf Hm Hkey Hlast. unfold table_insert. cbn [insert_rec].
  destruct (Z.ltb_spec (wt_capacity t) ((wt_size t + 1) * 2)) as [Hgrow|Hroom].
  2: { destruct (place_refines t m key last) as (t' & ? & ? & ? & _); [done..|lia|]. by exists t'. }
  pose proof (twf_load t Hwf) as Hload. pose proof (twf_size t Hwf) as Hsz.
  set (c := Z.max 4096 (wt_capacity t * 2)).
  assert (exists k, 12 <= k /\ c = 2 ^ k) as (k & Hk & Hc).
  { destruct (twf_capacity t Hwf) as [E|(k & Hk & E)].
    - exists 12. unfold c. rewrite E. done.
    - exists (k + 1). unfold c. rewrite E, Z.pow_add_r by lia. split; [lia|].
      pose proof (Z.pow_le_mono_r 2 12 k ltac:(lia) Hk). lia. }
  destruct (fresh_wf c k Hk Hc) as [Hfwf Hfm].
  assert (wt_capacity (fresh_table c) = c) as Hfc.
  { unfold wt_capacity. cbn. rewrite length_replicate. lia. }
  assert (sum_with (fun p => slot_used p.2) (zip (wt_keys t) (wt_ends t)) = wt_size t) as Hused.
  { rewrite Hsz. pose proof (twf_lengths t Hwf) as Hl. clear -Hl. revert Hl.
    generalize (wt_ends t). induction (wt_keys t) as [|k ks IH]; intros [|e es] Hl; try done.
    cbn in *. rewrite IH; [done|lia]. }
  destruct (reinsert_refines 0 (zip (wt_keys t) (wt_ends t)) (fresh_table c) ∅)
    as (t1 & E1 & Hwf1 & Hm1 & Hc1 & Hs1); [done..| | |].
  { apply Forall_lookup. intros i [k' e'] Hi. cbn.
    destruct (decide (e' = 0)) as [|Hne]; [by left|right].
    assert (holds t (Z.of_nat i) k' e') as Hh by by apply lookup_slots.
    split; [exact (twf_keys t Hwf _ _ _ Hh)|]. destruct Hh as (_ & He & _).
    pose proof (twf_ends t Hwf _ _ He). lia. }
  { rewrite Hused. cbn [wt_size fresh_table]. rewrite Hfc. lia. }
  cbn [insert_rec] in E1. fold c. rewrite E1.
  rewrite Hused in Hs1. cbn [wt_size fresh_table] in Hs1.
  assert (represents t1 m) as Hm1'.
  { intros k' last'. rewrite <- (Hm1 k' last'), (represents_slots t m k' last' Hwf Hm). done. }
  destruct (place_refines t1 m key last) as (t' & ? & ? & ? & _); [done..| |by exists t'].
  rewrite Hc1, Hfc. lia.
Qed.

Lemma clear_refines t : table_wf t -> table_wf (table_clear t) /\ represents (table_clear t) ∅.
Proof.
  intros Hwf. destruct (twf_capacity t Hwf) as [E|(k & Hk & E)].
  - assert (wt_keys t = []) as Ek.
    { unfold wt_capacity in E. destruct (wt_keys t); [done|]. cbn in E. lia. }
    assert (wt_ends t = []) as Ee.
    { apply length_zero_iff_nil. by rewrite (twf_lengths t Hwf), Ek. }
    unfold table_clear. rewrite Ek, Ee. apply empty_wf.
  - replace (table_clear t) with (fresh_table (wt_capacity t)); [by apply (fresh_wf _ k)|].
    unfold table_clear, fresh_table, wt_capacity. by rewrite Nat2Z.id, (twf_lengths t Hwf).
Qed.

(** ** Sessions *)

Inductive TableOp :=
  | TableInsert (key last : Z)
  | TableClear.

Definition table_op_ok (op : TableOp) : Prop :=
  match op with
  | TableInsert key last => 0 <= key <= u64_max /\ 0 <= last < u32_max
  | TableClear => True
  end.

Definition table_step (t : WindowTable) (op : TableOp) : option WindowTable :=
  match op with
  | TableInsert key last => table_insert t key last
  | TableClear => Some (table_clear t)
  end.

Fixpoint table_run (t : WindowTable) (ops : list TableOp) : option WindowTable :=
  match ops with
  | [] => Some t
  | op :: ops => match table_step t op with Some t => table_run t ops | None => None end
  end.

(** The specification: a finite map, updated by each insertion and emptied by a clear. *)
Definition map_step (m : gmap Z Z) (op : TableOp) : gmap Z Z :=
  match op with TableInsert key last => <[key := last]> m | TableClear => ∅ end.

Lemma table_run_refines ops : forall t m,
  table_wf t -> represents t m -> Forall table_op_ok ops ->
  exists t', table_run t ops = Some t' /\ table_wf t' /\ represents t' (foldl map_step m ops).
Proof.
  induction ops as [|op ops IH]; intros t m Hwf Hm Hok; [by exists t|].
  apply Forall_cons in Hok as [Hop Hok]. cbn [table_run foldl].
  destruct op as [key last|]; cbn [table_step map_step].
  - destruct Hop. destruct (insert_refines t m key last) as (t1 & -> & ? & ?); [done..|lia|done|].
    by apply IH.
  - destruct (clear_refines t Hwf). by apply IH.
Qed.

(** C28: after any sequence of insertions and clears the window table behaves as a finite map: every
    call returns (the probe loops and the rehash stop), and a lookup of any 64-bit key gives one
    more than the end position last inserted for it since the last clear, or zero when there is
    none. The keys are 64-bit hashes and the end positions are below the 32-bit maximum. *)
Theorem window_table_refines_map ops key :
  Forall table_op_ok ops -> 0 <= key <= u64_max ->
  exists t, table_run empty_table ops = Some t /\
    table_find t key = Some (match foldl map_step ∅ ops !! key with Some last => last + 1 | None => 0 end).
Proof.
  intros Hok Hkey. destruct empty_wf as [Hwf Hm].
  destruct (table_run_refines ops empty_table ∅ Hwf Hm Hok) as (t & E & Hwf' & Hm').
  exists t. split; [done|]. apply find_represents; [done..|lia].
Qed.

(** Distinct occupied slots are at most as many as the stored keys. *)
Lemma occupied_count slots : forall l,
  NoDup slots -> Forall (fun i => exists e, l !! i = Some e /\ e <> 0) slots ->
  Z.of_nat (length slots) <= sum_with slot_used l.
Proof.
  induction slots as [|i slots IH]; intros l Hnd Hocc.
  { apply sum_with_nonneg. intros e. unfold slot_used. destruct (e =? 0); lia. }
  apply NoDup_cons in Hnd as [Hi Hnd]. apply Forall_cons in Hocc as [(e & He & Hne) Hocc].
  assert (Z.of_nat (length slots) <= sum_with slot_used (<[i := 0]> l)) as Hrest.
  { apply IH; [done|]. apply Forall_forall. intros j Hj. rewrite Forall_forall in Hocc.
    rewrite list_lookup_insert_ne by congruence. by apply Hocc. }
  rewrite (sum_with_insert _ _ _ _ _ He), slot_used_1 in Hrest by done.
  change (slot_used 0) with 0 in Hrest. cbn [length]. lia.
Qed.

(** a probe for any key visits at most one slot more than the table holds keys, and the table
    never holds more keys than half of its slots: the unbounded probe loop of [insert] and [find]
    stops after at most [size + 1] iterations in every table that insertions and clears produce. *)
Theorem probe_terminates ops t key :
  Forall table_op_ok ops -> table_run empty_table ops = Some t -> wt_keys t <> [] ->
  0 <= key <= u64_max ->
  2 * wt_size t <= wt_capacity t /\
  exists st, probe (S (Z.to_nat (wt_size t))) t key (Z.land key (wt_capacity t - 1)) = Some st.
Proof.
  intros Hok Hrun Hne Hkey. destruct empty_wf as [Hwf0 Hm0].
  destruct (table_run_refines ops empty_table ∅ Hwf0 Hm0 Hok) as (t' & E & Hwf & _).
  rewrite Hrun in E. injection E as <-. split; [exact (twf_load t Hwf)|].
  assert (0 < wt_capacity t) as Hpos.
  { unfold wt_capacity. destruct (wt_keys t); [done|]. cbn. lia. }
  destruct (first_stop t key Hwf Hpos) as (d & st & Hd & Hp & Hst). exists st.
  rewrite (capacity_mask t Hwf Hpos) by lia.
  replace (key mod wt_capacity t) with (slot_at t key 0) by (unfold slot_at; f_equal; lia).
  apply (probe_walk t key Hwf Hpos d); [|intros j Hj; apply Hp; lia|done].
  assert (Z.of_nat d <= wt_size t); [|lia].
  rewrite (twf_size t Hwf), <- (length_seq d 0),
    <- (length_fmap (fun i => Z.to_nat (slot_at t key i))).
  apply occupied_count.
  - apply NoDup_fmap_2_strong; [|apply NoDup_seq].
    intros i j Hi%elem_of_seq Hj%elem_of_seq Hij.
    pose proof (slot_at_range t key Hpos i). pose proof (slot_at_range t key Hpos j).
    apply (slot_at_inj t key); lia.
  - apply Forall_fmap, Forall_forall. intros i Hi%elem_of_seq.
    destruct (Hp i ltac:(lia)) as (e & k & He & Hnz & _). exists e. split; [|done].
    by apply at_index_Some in He as [_ He].
Qed.

(** Three keys whose home is the same slot, one of them inserted twice. *)
Definition demo_ops : list TableOp :=
  [TableInsert 5 0; TableInsert 4101 1; TableInsert 5 2; TableInsert 8197 3].

Lemma demo_ops_ok : Forall table_op_ok demo_ops.
Proof. repeat constructor; cbv; discriminate. Qed.

Lemma window_table_refines_map_witness :
  Forall table_op_ok demo_ops /\
  exists t, table_run empty_table demo_ops = Some t /\ table_find t 5 = Some 3.
Proof.
  split; [exact demo_ops_ok|].
  apply (window_table_refines_map demo_ops 5 demo_ops_ok). split; cbv; discriminate.
Defined.

Lemma probe_terminates_witness :
  exists t, table_run empty_table demo_ops = Some t /\ 2 * wt_size t <= wt_capacity t.
Proof.
  destruct (table_run empty_table demo_ops) as [t|] eqn:E; [|vm_compute in E; discriminate].
  exists t. split; [done|].
  assert (wt_keys t <> []) as Hne by (vm_compute in E; injection E as <-; discriminate).
  apply (probe_terminates demo_ops t 5 demo_ops_ok E Hne). split; cbv; discriminate.
Defined.
