(* ===== verification/PromptLookup.v ===== *)
(** * Prompt-lookup proposals

    [PromptLookup] of [models/qwen3_5/program/speculative/prompt_lookup.{h,cpp}]: the context's
    windows of 8, 4 and 2 tokens are indexed incrementally, and a proposal continues the context
    with what followed the most recent earlier occurrence of its longest indexed suffix. Reads
    through [std::span] and [std::vector] are bounds-checked here ([Terminate] stands for the
    undefined behaviour of an unchecked read), so the theorems that a call returns also say that it
    stays in bounds. Doubles are the IEEE binary64 values of [SpecFloat]; [std::log] is a
    parameter. *)

From stdpp Require Import gmap.
From Stdlib Require Import Floats.SpecFloat.
From S2P Require Import Prelude Binary64 WindowTable.
Open Scope Z_scope.

(** ** Constants and hash *)

Definition kWindows : list nat := [8; 4; 2]%nat.
Definition kMatchFloor : nat := 8.
Definition kMatchLimit : nat := 128.

(** One round of [window_hash]; a [TokenId] is a signed 32-bit integer. *)
Definition hash_token (hash token : Z) : Z :=
  let hash := Z.lxor hash (w32 token) in
  let hash := w64 (hash * 18397679294719823053) in
  Z.lxor hash (Z.shiftr hash 32).

(** The tokens are the [length] tokens at the pointer the code passes. *)
Definition window_hash (tokens : list Z) : Z :=
  foldl hash_token (Z.lxor 11400714819323198485 (Z.of_nat (length tokens))) tokens.

(** ** Doubles *)

(** [0.9], [0.01] and [0.97] rounded to nearest. *)
Definition kDecay : spec_float := f64_div (f64_of_nat 9) (f64_of_nat 10).
Definition kMinimum : spec_float := f64_div (f64_of_nat 1) (f64_of_nat 100).
Definition kMaximum : spec_float := f64_div (f64_of_nat 97) (f64_of_nat 100).
Definition kPriorHits : spec_float := f64_of_nat 1.
Definition kPriorMisses : spec_float := f64_of_nat 3.

Record Estimate := mkEstimate { hits : spec_float; misses : spec_float }.
Definition zero_estimate : Estimate := mkEstimate (f64_of_nat 0) (f64_of_nat 0).

(** ** State *)

Record PromptLookup := mkLookup {
  pl_tables : list WindowTable;
  pl_estimates : list Estimate;
  pl_indexed : nat;
  pl_indexed_last : Z;
  pl_proposal : list Z;
  pl_window : option nat;
  pl_match : nat;
}.

Definition lookup_init : PromptLookup :=
  mkLookup (replicate 3 empty_table) (replicate 3 zero_estimate) 0 0 [] None 0.

Definition set_tables (tables : list WindowTable) (p : PromptLookup) : PromptLookup :=
  mkLookup tables (pl_estimates p) (pl_indexed p) (pl_indexed_last p) (pl_proposal p) (pl_window p)
    (pl_match p).
Definition set_indexed (n : nat) (last : Z) (p : PromptLookup) : PromptLookup :=
  mkLookup (pl_tables p) (pl_estimates p) n last (pl_proposal p) (pl_window p) (pl_match p).
Definition set_proposal (proposal : list Z) (window : option nat) (matched : nat)
    (p : PromptLookup) : PromptLookup :=
  mkLookup (pl_tables p) (pl_estimates p) (pl_indexed p) (pl_indexed_last p) proposal window matched.
Definition set_estimates (es : list Estimate) (p : PromptLookup) : PromptLookup :=
  mkLookup (pl_tables p) es (pl_indexed p) (pl_indexed_last p) (pl_proposal p) (pl_window p)
    (pl_match p).

(** ** Bounds-checked reads *)

Definition read {A} (l : list A) (i : nat) : result A :=
  match l !! i with Some x => Ok x | None => Throw Terminate end.

(** The [length] tokens at [data() + begin]. *)
Definition read_span (context : list Z) (begin_ length_ : nat) : result (list Z) :=
  if decide (begin_ + length_ <= length context)%nat then Ok (take length_ (drop begin_ context))
  else Throw Terminate.

Definition from_option {A} (x : option A) : result A :=
  match x with Some x => Ok x | None => Throw Terminate end.

(** ** Indexing *)

(** The inner loop of [index_until], over the windows that end at [position]. *)
Fixpoint index_windows (context : list Z) (position : nat) (windows : list nat)
    (tables : list WindowTable) : result (list WindowTable) :=
  match windows, tables with
  | length_ :: windows, table :: tables =>
      table ←
        (if decide (position + 1 < length_)%nat then Ok table
         else
           tokens ← read_span context (position + 1 - length_) length_;
           from_option (table_insert table (window_hash tokens) (w32 (Z.of_nat position))));
      tables ← index_windows context position windows tables;
      Ok (table :: tables)
  | _, _ => Ok tables
  end.

Fixpoint index_positions (context : list Z) (position count : nat) (tables : list WindowTable)
    : result (list WindowTable) :=
  match count with
  | O => Ok tables
  | S count =>
      tables ← index_windows context position kWindows tables;
      index_positions context (S position) count tables
  end.

Definition index_until (context : list Z) (end_ : nat) (p : PromptLookup) : result PromptLookup :=
  tables ← index_positions context (pl_indexed p) (end_ - pl_indexed p) (pl_tables p);
  let p := set_tables tables p in
  if decide (pl_indexed p < end_)%nat then
    last ← read context (end_ - 1);
    Ok (set_indexed end_ last p)
  else Ok p.

(** ** Proposals *)

(** The [while] that extends the match backwards; [fuel] bounds the matched tokens. *)
Fixpoint extend_match (context : list Z) (end_ fuel matched : nat) : result nat :=
  match fuel with
  | O => Ok matched
  | S fuel =>
      if decide (matched < kMatchLimit /\ matched <= end_)%nat then
        a ← read context (end_ - matched);
        b ← read context (length context - 1 - matched);
        if a =? b then extend_match context end_ fuel (S matched) else Ok matched
      else Ok matched
  end.

(** The loop that fills [out], from slot [j] on; a slot that has not been written yet holds what the
    caller left there. *)
Fixpoint continue_from (context : list Z) (end_ count j : nat) (out : list Z) : result (list Z) :=
  match count with
  | O => Ok out
  | S count =>
      let source := (end_ + 1 + j)%nat in
      token ←
        (if decide (source < length context)%nat then read context source
         else read out (j - (length context - 1 - end_)));
      continue_from context end_ count (S j) (<[j := token]> out)
  end.

(** The body of the window loop: the end of the occurrence, or [None] for [continue]. *)
Definition try_window (context : list Z) (table : WindowTable) (size : nat) : result (option nat) :=
  if decide (length context < size + 1)%nat then Ok None
  else
    suffix ← read_span context (length context - size) size;
    end1 ← from_option (table_find table (window_hash suffix));
    if end1 =? 0 then Ok None
    else
      let end_ := Z.to_nat (end1 - 1) in
      if decide (end_ + 1 < size)%nat then Throw Terminate
      else
        occurrence ← read_span context (end_ + 1 - size) size;
        if bool_decide (suffix = occurrence) then Ok (Some end_) else Ok None.

Fixpoint propose_windows (context out : list Z) (window : nat) (windows : list nat)
    (tables : list WindowTable) (p : PromptLookup) : result (PromptLookup * list Z) :=
  match windows, tables with
  | size :: windows, table :: tables =>
      found ← try_window context table size;
      match found with
      | None => propose_windows context out (S window) windows tables p
      | Some end_ =>
          matched ← extend_match context end_ kMatchLimit size;
          out ← continue_from context end_ (length out) 0 out;
          Ok (set_proposal out (Some window) matched p, out)
      end
  | _, _ => Ok (p, [])
  end.

(** The context is not the indexed one any more, as far as the code checks. *)
Definition stale (context : list Z) (p : PromptLookup) : result bool :=
  if decide (length context < pl_indexed p)%nat then Ok true
  else if decide (pl_indexed p = 0)%nat then Ok false
  else
    token ← read context (pl_indexed p - 1);
    Ok (negb (token =? pl_indexed_last p)).

Definition restart (p : PromptLookup) : PromptLookup :=
  mkLookup (table_clear <$> pl_tables p) (replicate 3 zero_estimate) 0 (pl_indexed_last p)
    (pl_proposal p) (pl_window p) (pl_match p).

(** [propose] on the caller's [out] span: the tokens of the proposal, which is what [out] holds after
    the call, or none if the call returns 0 and leaves [out] alone. *)
Definition propose (context out : list Z) (p : PromptLookup) : result (PromptLookup * list Z) :=
  let p := set_proposal [] None (pl_match p) p in
  dropped ← stale context p;
  let p := if (dropped : bool) then restart p else p in
  if decide (length context < 2 \/ out = [])%nat then Ok (p, [])
  else
    p ← index_until context (length context - 1) p;
    propose_windows context out 0 kWindows (pl_tables p) p.

(** ** Scoring *)

(** Length of the common prefix, the [while] of [observe]. *)
Fixpoint common_prefix (l1 l2 : list Z) : nat :=
  match l1, l2 with
  | a :: l1, b :: l2 => if a =? b then S (common_prefix l1 l2) else 0
  | _, _ => 0
  end.

Definition observe (committed : list Z) (p : PromptLookup) : result PromptLookup :=
  match pl_window p with
  | None => Ok p
  | Some window =>
      let limit := Nat.min (length (pl_proposal p)) (length committed) in
      let count := common_prefix (pl_proposal p) committed in
      estimate ← read (pl_estimates p) window;
      let estimate :=
        mkEstimate (f64_add (f64_mul kDecay (hits estimate)) (f64_of_nat count))
          (f64_add (f64_mul kDecay (misses estimate))
             (if decide (count < limit)%nat then f64_of_nat 1 else f64_of_nat 0)) in
      Ok (set_proposal (pl_proposal p) None (pl_match p)
            (set_estimates (<[window := estimate]> (pl_estimates p)) p))
  end.

(** [std::clamp]. *)
Definition f64_clamp (v lo hi : spec_float) : spec_float :=
  if SFltb v lo then lo else if SFltb hi v then hi else v.

(** The probability inside [log_probability], before the logarithm. *)
Definition estimated_probability (e : Estimate) (matched : nat) : spec_float :=
  let weight := f64_mul (f64_of_nat 1) (f64_of_nat (matched - kMatchFloor)) in
  f64_div (f64_add (f64_add (hits e) kPriorHits) weight)
    (f64_add (f64_add (f64_add (f64_add (hits e) (misses e)) kPriorHits) kPriorMisses) weight).

Section scoring.
(** [log_f32 x] is [static_cast<float>(std::log(x))]. *)
Context (log_f32 : spec_float -> spec_float) (log_confident : spec_float).

Definition log_probability (p : PromptLookup) : result spec_float :=
  match pl_window p with
  | None => Ok (f64_of_nat 0)
  | Some window =>
      e ← read (pl_estimates p) window;
      Ok (log_f32 (f64_clamp (estimated_probability e (pl_match p)) kMinimum kMaximum))
  end.

(** [log_confident] is [std::log(kConfident)]. *)
Definition confident (p : PromptLookup) : result bool :=
  match pl_window p with
  | None => Ok false
  | Some _ => l ← log_probability p; Ok (SFleb log_confident l)
  end.
End scoring.
