(* ===== verification/PromptLookupSpec.v ===== *)
(** * Prompt-lookup proposals: soundness and completeness

    Theorems about [PromptLookup]: what a proposal contains, which occurrence it continues, and
    what happens when the context shrinks to the indexed length. *)

From stdpp Require Import gmap.
From S2P Require Import Prelude Binary64 WindowTable PromptLookup.
Open Scope Z_scope.

(** ** Hash range *)

Lemma lxor_u64 a b : 0 <= a <= u64_max -> 0 <= b <= u64_max -> 0 <= Z.lxor a b <= u64_max.
Proof.
  intros Ha Hb. split; [apply Z.lxor_nonneg; lia|].
  destruct (decide (Z.lxor a b = 0)) as [->|Hne]; [lia|].
  apply Z.lt_succ_r. change (Z.succ u64_max) with (2 ^ 64).
  apply Z.log2_lt_pow2; [pose proof (proj2 (Z.lxor_nonneg a b) ltac:(lia)); lia|].
  apply Z.le_lt_trans with (Z.max (Z.log2 a) (Z.log2 b)); [apply Z.log2_lxor; lia|].
  assert (forall x, 0 <= x <= u64_max -> Z.log2 x <= 63) as Hlog.
  { intros x Hx. change 63 with (Z.log2 u64_max). apply Z.log2_le_mono. lia. }
  pose proof (Hlog a Ha). pose proof (Hlog b Hb). lia.
Qed.

Lemma hash_token_range h t : 0 <= hash_token h t <= u64_max.
Proof.
  unfold hash_token. set (x := w64 _). pose proof (w64_range (Z.lxor h (w32 t) * 18397679294719823053)).
  fold x in H. apply lxor_u64; [done|]. rewrite Z.shiftr_div_pow2 by lia.
  split; [apply Z.div_pos; lia|]. apply Z.div_le_upper_bound; lia.
Qed.

Lemma window_hash_range tokens :
  Z.of_nat (length tokens) <= u32_max -> 0 <= window_hash tokens <= u64_max.
Proof.
  intros Hl. unfold window_hash. destruct tokens as [|t tokens _] using rev_ind.
  - cbn. split; discriminate.
  - rewrite foldl_app. cbn. apply hash_token_range.
Qed.

(** ** The index as a pure function of the context *)

(** The [size] tokens that end at position [e]. *)
Definition window_at (context : list Z) (size e : nat) : list Z :=
  take size (drop (e + 1 - size) context).

Definition index_map (context : list Z) (size : nat) (m : gmap Z Z) (e : nat) : gmap Z Z :=
  if decide (e + 1 < size)%nat then m
  else <[window_hash (window_at context size e) := Z.of_nat e]> m.

Definition index_range (context : list Z) (size begin_ count : nat) (m : gmap Z Z) : gmap Z Z :=
  foldl (index_map context size) m (seq begin_ count).

(** The tables represent one map per window size. *)
Definition tables_rep (windows : list nat) (tables : list WindowTable) (maps : nat -> gmap Z Z) : Prop :=
  Forall2 (fun size t => table_wf t /\ represents t (maps size)) windows tables.

Lemma read_span_Ok context b n :
  (b + n <= length context)%nat -> read_span context b n = Ok (take n (drop b context)).
Proof. intros H. unfold read_span. by rewrite decide_True. Qed.

Lemma read_Ok {A} (l : list A) i x : l !! i = Some x -> read l i = Ok x.
Proof. unfold read. by intros ->. Qed.

Lemma length_window_at context size e :
  (size <= e + 1)%nat -> (e < length context)%nat -> length (window_at context size e) = size.
Proof. intros. unfold window_at. rewrite length_take, length_drop. lia. Qed.

Lemma index_windows_spec context e windows : forall tables maps,
  (e < length context)%nat -> Z.of_nat (length context) <= u32_max ->
  tables_rep windows tables maps ->
  exists tables', index_windows context e windows tables = Ok tables' /\
    tables_rep windows tables' (fun size => index_map context size (maps size) e).
Proof.
  induction windows as [|size windows IH]; intros tables maps He Hmax Hrep.
  { inversion Hrep; subst. exists []. split; [done|constructor]. }
  apply Forall2_cons_inv_l in Hrep as (t & ts & [Hwf Hm] & Hts & ->).
  destruct (IH ts maps He Hmax Hts) as (ts' & Ets & Hts').
  cbn [index_windows].
  case_decide as Hshort; cbn [mbind result_bind].
  - rewrite Ets. exists (t :: ts'). split; [done|]. constructor; [|done].
    split; [done|]. unfold index_map. by rewrite decide_True.
  - rewrite read_span_Ok by lia. cbn [mbind result_bind].
    change (take size (drop (e + 1 - size) context)) with (window_at context size e).
    destruct (insert_refines t (maps size) (window_hash (window_at context size e)) (Z.of_nat e))
      as (t' & Et & Hwf' & Hm'); [done|done| |lia|].
    { apply window_hash_range. rewrite length_window_at by lia. lia. }
    rewrite w32_small by lia. rewrite Et. cbn [from_option mbind result_bind]. rewrite Ets.
    exists (t' :: ts'). split; [done|]. constructor; [|done].
    split; [done|]. unfold index_map. by rewrite decide_False.
Qed.

Lemma index_positions_spec context count : forall e tables maps,
  (e + count <= length context)%nat -> Z.of_nat (length context) <= u32_max ->
  tables_rep kWindows tables maps ->
  exists tables', index_positions context e count tables = Ok tables' /\
    tables_rep kWindows tables' (fun size => index_range context size e count (maps size)).
Proof.
  induction count as [|count IH]; intros e tables maps He Hmax Hrep; [by exists tables|].
  cbn [index_positions].
  destruct (index_windows_spec context e kWindows tables maps) as (ts & -> & Hts); [lia|done|done|].
  cbn [mbind result_bind].
  destruct (IH (S e) ts _ ltac:(lia) Hmax Hts) as (ts' & -> & Hts'). by exists ts'.
Qed.

(** The latest indexed position wins. *)
Lemma index_range_lookup context size b count m key last :
  index_range context size b count m !! key = Some last <->
  (exists e, last = Z.of_nat e /\ (b <= e < b + count)%nat /\ (size <= e + 1)%nat /\
     window_hash (window_at context size e) = key /\
     forall e', (e < e' < b + count)%nat -> window_hash (window_at context size e') <> key) \/
  (m !! key = Some last /\
   forall e, (b <= e < b + count)%nat -> (size <= e + 1)%nat ->
     window_hash (window_at context size e) <> key).
Proof.
  induction count as [|count IH].
  { cbn. split; [intros H; right; split; [done|lia]|]. intros [(e & _ & He & _)|[H _]]; [lia|done]. }
  unfold index_range in *. rewrite seq_S, foldl_app. cbn [foldl].
  unfold index_map at 1. case_decide as Hshort.
  - rewrite IH. split.
    + intros [(e & -> & He & Hs & Hk & Hmax)|[Hm Hn]].
      * left. exists e. split; [done|]. split; [lia|]. split; [done|]. split; [done|].
        intros e' He'. apply Hmax. lia.
      * right. split; [done|]. intros e He Hs. apply Hn; lia.
    + intros [(e & -> & He & Hs & Hk & Hmax)|[Hm Hn]].
      * left. exists e. split; [done|]. split; [lia|]. split; [done|]. split; [done|].
        intros e' He'. apply Hmax. lia.
      * right. split; [done|]. intros e He Hs. apply Hn; lia.
  - rewrite lookup_insert_Some, IH. split.
    + intros [[Hk <-]|(Hk & [(e & -> & He & Hs & Hk' & Hmax)|[Hm Hn]])].
      * left. exists (b + count)%nat. split; [done|]. split; [lia|]. split; [lia|]. split; [done|]. lia.
      * left. exists e. split; [done|]. split; [lia|]. split; [done|]. split; [done|].
        intros e' He'. destruct (decide (e' = b + count)%nat) as [->|]; [done|]. apply Hmax. lia.
      * right. split; [done|]. intros e He Hs.
        destruct (decide (e = b + count)%nat) as [->|]; [done|]. apply Hn; lia.
    + intros [(e & -> & He & Hs & Hk & Hmax)|[Hm Hn]].
      * destruct (decide (e = b + count)%nat) as [->|Hne]; [by left|right].
        split; [apply Hmax; lia|]. left. exists e.
        split; [done|]. split; [lia|]. split; [done|]. split; [done|]. intros e' He'. apply Hmax. lia.
      * right. split; [apply Hn; lia|]. right. split; [done|]. intros e He Hs. apply Hn; lia.
Qed.

(** ** The continuation and the match *)

(** What followed position [e], repeated with the distance to the anchor. *)
Definition continuation (context : list Z) (e n : nat) : list Z :=
  (fun j => nth (e + 1 + j mod (length context - 1 - e)) context 0) <$> seq 0 n.

Lemma continuation_S context e n :
  continuation context e (S n) =
  continuation context e n ++ [nth (e + 1 + n mod (length context - 1 - e)) context 0].
Proof. unfold continuation. by rewrite seq_S, fmap_app. Qed.

Lemma length_continuation context e n : length (continuation context e n) = n.
Proof. unfold continuation. by rewrite length_fmap, length_seq. Qed.

Lemma continuation_lookup context e n j :
  (j < n)%nat ->
  continuation context e n !! j = Some (nth (e + 1 + j mod (length context - 1 - e)) context 0).
Proof.
  intros Hj. unfold continuation. rewrite list_lookup_fmap, lookup_seq_lt by done. done.
Qed.

Lemma continue_from_spec context e count : forall written rest,
  (e + 1 < length context)%nat -> length rest = count ->
  continue_from context e count written (continuation context e written ++ rest) =
  Ok (continuation context e (written + count)).
Proof.
  induction count as [|count IH]; intros written rest He Hrest; cbn [continue_from].
  { destruct rest; [|done]. by rewrite Nat.add_0_r, app_nil_r. }
  destruct rest as [|old rest]; [done|]. set (period := (length context - 1 - e)%nat).
  assert (period <> 0)%nat as Hp by (unfold period; lia).
  assert ((if decide (e + 1 + written < length context)%nat then read context (e + 1 + written)
           else read (continuation context e written ++ old :: rest) (written - period)) =
          Ok (nth (e + 1 + written mod period) context 0)) as ->.
  { case_decide as Hs.
    - rewrite Nat.mod_small by (unfold period; lia). apply read_Ok.
      destruct (lookup_lt_is_Some_2 context (e + 1 + written)) as [x Hx]; [lia|].
      by rewrite Hx, (nth_lookup_Some _ _ _ _ Hx).
    - apply read_Ok. rewrite lookup_app_l by (rewrite length_continuation; unfold period; lia).
      rewrite continuation_lookup by (unfold period; lia). fold period.
      do 3 f_equal. rewrite <- (Nat.Div0.mod_add (written - period) 1 period).
      f_equal. unfold period in *. lia. }
  cbn [mbind result_bind].
  rewrite insert_app_r_alt by (rewrite length_continuation; lia).
  rewrite length_continuation, Nat.sub_diag. cbn [insert list_insert].
  change (nth (e + 1 + written mod period) context 0 :: rest) with ([nth (e + 1 + written mod period) context 0] ++ rest).
  rewrite app_assoc, <- continuation_S, IH by (done || by injection Hrest). f_equal. f_equal. lia.
Qed.

(** [r] tokens before the anchor equal the [r] tokens up to [e]; no more do, up to the limit. *)
Definition longest_match (context : list Z) (e size r : nat) : Prop :=
  (size <= r <= kMatchLimit)%nat /\ (r <= e + 1)%nat /\
  (forall i, (size <= i < r)%nat -> context !! (e - i)%nat = context !! (length context - 1 - i)%nat) /\
  ((r < kMatchLimit)%nat -> (r <= e)%nat ->
     context !! (e - r)%nat <> context !! (length context - 1 - r)%nat).

Lemma extend_match_spec context e size fuel : forall matched,
  (e + 1 < length context)%nat -> (size <= matched <= kMatchLimit)%nat -> (matched <= e + 1)%nat ->
  (kMatchLimit <= matched + fuel)%nat ->
  (forall i, (size <= i < matched)%nat ->
     context !! (e - i)%nat = context !! (length context - 1 - i)%nat) ->
  exists r, extend_match context e fuel matched = Ok r /\ longest_match context e size r.
Proof.
  induction fuel as [|fuel IH]; intros matched He Hs Hm Hf Heq; cbn [extend_match].
  { exists matched. split; [done|]. split; [lia|]. split; [lia|]. split; [done|lia]. }
  case_decide as Hc.
  - destruct (lookup_lt_is_Some_2 context (e - matched)) as [a Ha]; [lia|].
    destruct (lookup_lt_is_Some_2 context (length context - 1 - matched)) as [b Hb]; [lia|].
    rewrite (read_Ok _ _ _ Ha), (read_Ok _ _ _ Hb). cbn [mbind result_bind].
    destruct (Z.eqb_spec a b) as [->|Hne].
    + apply IH; [done|lia|lia|lia|]. intros i Hi.
      destruct (decide (i = matched)) as [->|]; [by rewrite Ha, Hb|]. apply Heq. lia.
    + exists matched. split; [done|]. split; [lia|]. split; [lia|]. split; [done|]. intros _ _.
      rewrite Ha, Hb. congruence.
  - exists matched. split; [done|]. split; [lia|]. split; [lia|]. split; [done|lia].
Qed.

(** ** The choice of the occurrence *)

(** The window of [size] tokens that ends the context. *)
Definition suffix_window (context : list Z) (size : nat) : list Z :=
  window_at context size (length context - 1).

(** Every indexed position is below [b] and has a full window before it. *)
Definition bounded_map (b size : nat) (m : gmap Z Z) : Prop :=
  forall key last, m !! key = Some last -> exists e, last = Z.of_nat e /\ (size <= e + 1)%nat /\ (e < b)%nat.

Definition candidate (context : list Z) (maps : nat -> gmap Z Z) (size : nat) : option nat :=
  if decide (length context < size + 1)%nat then None
  else
    match maps size !! window_hash (suffix_window context size) with
    | None => None
    | Some last =>
        if bool_decide (suffix_window context size = window_at context size (Z.to_nat last))
        then Some (Z.to_nat last) else None
    end.

(** The first window with an occurrence. *)
Fixpoint pick (context : list Z) (maps : nat -> gmap Z Z) (windows : list nat) : option (nat * nat) :=
  match windows with
  | [] => None
  | size :: windows =>
      match candidate context maps size with
      | Some e => Some (size, e)
      | None => pick context maps windows
      end
  end.

Lemma suffix_window_span context size :
  (size + 1 <= length context)%nat ->
  read_span context (length context - size) size = Ok (suffix_window context size).
Proof.
  intros H. rewrite read_span_Ok by lia. unfold suffix_window, window_at.
  by replace (length context - 1 + 1 - size)%nat with (length context - size)%nat by lia.
Qed.

Lemma try_window_spec context table m maps size b :
  table_wf table -> represents table m -> maps size = m -> bounded_map b size m ->
  (b <= length context)%nat -> Z.of_nat (length context) <= u32_max ->
  try_window context table size = Ok (candidate context maps size).
Proof.
  intros Hwf Hm <- Hb Hlen Hmax. unfold try_window, candidate. case_decide as Hs; [done|].
  rewrite suffix_window_span by lia. cbn [mbind result_bind].
  rewrite (find_represents table _ _ Hwf Hm).
  2: { apply window_hash_range. unfold suffix_window. rewrite length_window_at by lia. lia. }
  cbn [from_option mbind result_bind].
  destruct (maps size !! _) as [last|] eqn:E; [|done].
  destruct (Hb _ _ E) as (e & -> & Hsize & He).
  destruct (Z.eqb_spec (Z.of_nat e + 1) 0); [lia|].
  replace (Z.of_nat e + 1 - 1) with (Z.of_nat e) by lia. rewrite Nat2Z.id.
  rewrite decide_False by lia. rewrite read_span_Ok by lia. cbn [mbind result_bind].
  unfold window_at at 2. by destruct (bool_decide _).
Qed.

Lemma candidate_bounds context maps size b e :
  bounded_map b size (maps size) -> candidate context maps size = Some e ->
  (size + 1 <= length context)%nat /\ (size <= e + 1)%nat /\ (e < b)%nat /\
  window_at context size e = suffix_window context size /\
  maps size !! window_hash (suffix_window context size) = Some (Z.of_nat e).
Proof.
  unfold candidate. intros Hb. case_decide; [done|].
  destruct (maps size !! _) as [last|] eqn:E; [|done].
  case_bool_decide as Heq; [|done]. intros [= <-].
  destruct (Hb _ _ E) as (e & -> & ? & ?). rewrite Nat2Z.id in *.
  split; [lia|]. split; [done|]. split; [done|]. split; [by rewrite Heq|done].
Qed.

Lemma pick_Some context maps windows size e :
  pick context maps windows = Some (size, e) <->
  exists pre post, windows = pre ++ size :: post /\ candidate context maps size = Some e /\
    Forall (fun s => candidate context maps s = None) pre.
Proof.
  induction windows as [|s windows IH]; cbn [pick].
  { split; [done|]. intros ([|] & ? & ? & _); done. }
  destruct (candidate context maps s) as [e'|] eqn:E.
  - split.
    + intros [= <- <-]. by exists [], windows.
    + intros ([|s' pre] & post & [= <- ->] & Hc & Hpre); [congruence|].
      inversion Hpre. congruence.
  - rewrite IH. split.
    + intros (pre & post & -> & Hc & Hpre). exists (s :: pre), post. auto.
    + intros ([|s' pre] & post & [= <- ->] & Hc & Hpre); [congruence|].
      inversion Hpre; subst. by exists pre, post.
Qed.

Lemma pick_None context maps windows :
  pick context maps windows = None <-> Forall (fun s => candidate context maps s = None) windows.
Proof.
  induction windows as [|s windows IH]; cbn [pick]; [by split|].
  rewrite Forall_cons, <- IH. destruct (candidate context maps s); split; try done; by intros [].
Qed.

(** The tables, estimates and index of the two states agree. *)
Definition same_index (p p' : PromptLookup) : Prop :=
  pl_tables p' = pl_tables p /\ pl_estimates p' = pl_estimates p /\
  pl_indexed p' = pl_indexed p /\ pl_indexed_last p' = pl_indexed_last p.

Lemma propose_windows_spec context maps buffer b p windows : forall window tables,
  tables_rep windows tables maps -> Forall (fun s => bounded_map b s (maps s)) windows ->
  (b + 1 <= length context)%nat -> Forall (fun s => (s <= kMatchLimit)%nat) windows ->
  Z.of_nat (length context) <= u32_max ->
  exists p' out, propose_windows context buffer window windows tables p = Ok (p', out) /\
    same_index p p' /\
    match pick context maps windows with
    | None => out = [] /\ p' = p
    | Some (size, e) =>
        out = continuation context e (length buffer) /\ pl_proposal p' = out /\
        (exists w, pl_window p' = Some w /\ (w < window + length windows)%nat) /\
        longest_match context e size (pl_match p')
    end.
Proof.
  induction windows as [|size windows IH]; intros window tables Hrep Hb Hlen Hlim Hmax.
  { exists p, []. inversion Hrep; subst. done. }
  apply Forall2_cons_inv_l in Hrep as (t & ts & [Hwf Hm] & Hts & ->).
  apply Forall_cons in Hb as [Hb1 Hb]. apply Forall_cons in Hlim as [Hl1 Hlim].
  cbn [propose_windows pick].
  rewrite (try_window_spec context t (maps size) maps size b) by (done || lia).
  cbn [mbind result_bind].
  destruct (candidate context maps size) as [e|] eqn:E.
  - destruct (candidate_bounds _ _ _ _ _ Hb1 E) as (? & ? & ? & _).
    destruct (extend_match_spec context e size kMatchLimit size) as (r & -> & Hr);
      [lia|lia|lia|lia|lia|].
    cbn [mbind result_bind].
    pose proof (continue_from_spec context e (length buffer) 0 buffer ltac:(lia) eq_refl) as Hc.
    change (continuation context e 0 ++ buffer) with buffer in Hc. rewrite Hc. cbn [mbind result_bind].
    rewrite Nat.add_0_l. eexists _, _. split; [reflexivity|]. split; [done|].
    split; [done|]. split; [done|]. split; [|done]. exists window. split; [done|]. cbn. lia.
  - destruct (IH (S window) ts) as (p' & out & -> & Hsame & Hout); [done..|].
    exists p', out. split; [done|]. split; [done|].
    destruct (pick context maps windows) as [[s e]|]; [|done].
    destruct Hout as (? & ? & (w & ? & ?) & ?). split; [done|]. split; [done|]. split; [|done].
    exists w. split; [done|]. cbn. lia.
Qed.

(** ** The index over a session *)

(** The tables hold one bounded map per window size; true for any sequence of contexts. *)
Record lookup_ok (p : PromptLookup) (maps : nat -> gmap Z Z) : Prop := {
  lo_tables : tables_rep kWindows (pl_tables p) maps;
  lo_bounded : Forall (fun s => bounded_map (pl_indexed p) s (maps s)) kWindows;
  lo_estimates : length (pl_estimates p) = 3%nat;
  lo_window : forall w, pl_window p = Some w -> (w < 3)%nat;
}.

(** The index of the tokens [seen]: each window's latest position. *)
Definition index_of (seen : list Z) (size : nat) : gmap Z Z := index_range seen size 0 (length seen) ∅.

Record tracks (p : PromptLookup) (seen : list Z) : Prop := {
  tr_ok : lookup_ok p (index_of seen);
  tr_indexed : pl_indexed p = length seen;
  tr_last : seen <> [] -> last seen = Some (pl_indexed_last p);
}.

Lemma kWindows_limit : Forall (fun s => (s <= kMatchLimit)%nat) kWindows.
Proof. repeat constructor; unfold kMatchLimit; lia. Qed.

Lemma index_range_bounded context size b count m c :
  bounded_map c size m -> (c <= b + count)%nat ->
  bounded_map (b + count) size (index_range context size b count m).
Proof.
  intros Hm Hc key last [(e & -> & He & Hs & _)|[Hl _]]%index_range_lookup.
  - exists e. split; [done|]. lia.
  - destruct (Hm _ _ Hl) as (e & -> & ? & ?). exists e. split; [done|]. lia.
Qed.

Lemma index_of_bounded seen size : bounded_map (length seen) size (index_of seen size).
Proof.
  apply (index_range_bounded _ _ 0 _ _ 0); [|lia]. intros key last H. by rewrite lookup_empty in H.
Qed.

Lemma window_at_prefix seen context size e :
  seen `prefix_of` context -> (e < length seen)%nat -> (size <= e + 1)%nat ->
  window_at seen size e = window_at context size e.
Proof.
  intros [rest ->] He Hs. unfold window_at. rewrite drop_app_le by lia.
  rewrite take_app_le; [done|]. rewrite length_drop. lia.
Qed.

(** Extending the index by the positions after [seen] gives the index of the longer prefix. *)
Lemma index_extend seen context k size :
  seen `prefix_of` context -> (length seen <= k <= length context)%nat ->
  index_range context size (length seen) (k - length seen) (index_of seen size) =
  index_of (take k context) size.
Proof.
  intros Hpre Hk. unfold index_of. rewrite length_take, Nat.min_l by lia.
  assert (forall l c, l `prefix_of` context -> (c <= length l)%nat ->
    index_range l size 0 c ∅ = index_range context size 0 c ∅) as Hsame.
  { intros l c Hl. induction c as [|c IH]; intros Hc; [done|].
    unfold index_range in *. rewrite seq_S, !foldl_app. cbn [foldl]. rewrite IH by lia.
    unfold index_map. case_decide; [done|]. by rewrite (window_at_prefix l context) by (done || lia). }
  rewrite (Hsame seen) by (done || lia).
  rewrite (Hsame (take k context)) by (apply prefix_take || (rewrite length_take; lia)).
  unfold index_range. rewrite <- foldl_app.
  pose proof (seq_app (length seen) (k - length seen) 0) as E. rewrite Nat.add_0_l in E. rewrite <- E.
  by replace (length seen + (k - length seen))%nat with k by lia.
Qed.

Lemma index_until_spec context k p maps :
  lookup_ok p maps -> (k <= length context)%nat -> Z.of_nat (length context) <= u32_max ->
  exists p', index_until context k p = Ok p' /\
    lookup_ok p' (fun size => index_range context size (pl_indexed p) (k - pl_indexed p) (maps size)) /\
    pl_indexed p' = Nat.max (pl_indexed p) k /\
    pl_indexed_last p' =
      (if decide (pl_indexed p < k)%nat then nth (k - 1) context 0 else pl_indexed_last p).
Proof.
  intros Hok Hk Hmax. unfold index_until.
  assert (exists tables, index_positions context (pl_indexed p) (k - pl_indexed p) (pl_tables p) = Ok tables /\
    tables_rep kWindows tables
      (fun size => index_range context size (pl_indexed p) (k - pl_indexed p) (maps size)))
    as (tables & -> & Hrep).
  { destruct (decide (pl_indexed p <= k)%nat) as [Hle|Hgt].
    - apply index_positions_spec; [lia|done|apply Hok].
    - replace (k - pl_indexed p)%nat with 0%nat by lia. exists (pl_tables p). split; [done|apply Hok]. }
  cbn [mbind result_bind].
  assert (forall n l, n = Nat.max (pl_indexed p) k -> lookup_ok (set_indexed n l (set_tables tables p))
    (fun size => index_range context size (pl_indexed p) (k - pl_indexed p) (maps size))) as Hok'.
  { intros n l ->. constructor; [exact Hrep| |apply Hok|apply Hok]. cbn [pl_indexed set_indexed].
    destruct (decide (pl_indexed p <= k)%nat).
    - rewrite Nat.max_r by done. eapply Forall_impl; [apply Hok|]. intros s Hb. cbv beta in *.
      replace k with (pl_indexed p + (k - pl_indexed p))%nat at 1 by lia.
      eapply index_range_bounded; [exact Hb|lia].
    - rewrite Nat.max_l by lia. replace (k - pl_indexed p)%nat with 0%nat by lia. apply Hok. }
  cbn [pl_indexed set_tables]. case_decide as Hlt.
  - destruct (lookup_lt_is_Some_2 context (k - 1)) as [x Hx]; [lia|].
    rewrite (read_Ok _ _ _ Hx). cbn [mbind result_bind]. eexists. split; [reflexivity|].
    split; [apply Hok'; lia|]. split; [cbn; lia|].
    cbn. by rewrite (nth_lookup_Some _ _ _ _ Hx).
  - eexists. split; [reflexivity|]. split; [|cbn; split; [lia|done]].
    replace (set_tables tables p) with
      (set_indexed (pl_indexed p) (pl_indexed_last p) (set_tables tables p)) by done.
    apply Hok'. lia.
Qed.

Lemma restart_ok p maps : lookup_ok p maps -> pl_window p = None -> lookup_ok (restart p) (fun _ => ∅).
Proof.
  intros Hok Hw. constructor.
  - cbn. unfold tables_rep. apply Forall2_fmap_r. eapply Forall2_impl; [apply Hok|].
    intros size t [Hwf _]. by apply clear_refines.
  - repeat constructor; intros key last H; by rewrite lookup_empty in H.
  - done.
  - cbn. rewrite Hw. done.
Qed.

Lemma set_proposal_ok p maps proposal w matched :
  lookup_ok p maps -> (forall k, w = Some k -> (k < 3)%nat) ->
  lookup_ok (set_proposal proposal w matched p) maps.
Proof. intros [] Hw. by constructor. Qed.

(** The state [propose] indexes from: the index is dropped, or it covers a prefix of the context
    as far as the last indexed token shows. *)
Definition prepared (dropped : bool) (p : PromptLookup) : PromptLookup :=
  let p := set_proposal [] None (pl_match p) p in if dropped then restart p else p.

Lemma stale_spec p maps context :
  lookup_ok p maps ->
  exists dropped, stale context (set_proposal [] None (pl_match p) p) = Ok dropped /\
    lookup_ok (prepared dropped p) (if dropped then fun _ => ∅ else maps) /\
    (dropped = false <-> (pl_indexed p <= length context)%nat /\
       (pl_indexed p <> 0%nat -> context !! (pl_indexed p - 1)%nat = Some (pl_indexed_last p))).
Proof.
  intros Hok. assert (lookup_ok (prepared false p) maps) as Hok1 by by apply set_proposal_ok.
  unfold stale. cbn [pl_indexed pl_indexed_last set_proposal].
  case_decide as H1.
  { exists true. split; [done|]. split; [by apply (restart_ok _ _ Hok1)|]. split; [done|lia]. }
  case_decide as H2.
  { exists false. split; [done|]. split; [done|]. split; [intros _; split; [lia|done]|done]. }
  destruct (lookup_lt_is_Some_2 context (pl_indexed p - 1)) as [x Hx]; [lia|].
  rewrite (read_Ok _ _ _ Hx). cbn [mbind result_bind]. eexists. split; [reflexivity|].
  destruct (Z.eqb_spec x (pl_indexed_last p)) as [->|Hne]; cbn [negb].
  - split; [done|]. split; [|done]. intros _. split; [lia|done].
  - split; [by apply (restart_ok _ _ Hok1)|]. split; [done|]. intros [_ H]. rewrite Hx in H.
    destruct Hne. by injection (H H2).
Qed.

(** [propose] on a context that is not exactly as long as the index. *)
Lemma propose_spec p maps context buffer :
  lookup_ok p maps -> Z.of_nat (length context) <= u32_max ->
  (pl_indexed p = 0%nat \/ pl_indexed p <> length context) ->
  exists (dropped : bool) p' out maps',
    propose context buffer p = Ok (p', out) /\ lookup_ok p' maps' /\
    (dropped = false <-> (pl_indexed p <= length context)%nat /\
       (pl_indexed p <> 0%nat -> context !! (pl_indexed p - 1)%nat = Some (pl_indexed_last p))) /\
    (((length context < 2)%nat \/ buffer = []) /\ out = [] /\ p' = prepared dropped p /\
       maps' = (if dropped then fun _ => ∅ else maps) \/
     (2 <= length context)%nat /\ buffer <> [] /\
       (let b := pl_indexed (prepared dropped p) in
        maps' = (fun size => index_range context size b (length context - 1 - b)
                               ((if dropped then fun _ => ∅ else maps) size))) /\
       pl_indexed p' = (length context - 1)%nat /\
       last (take (length context - 1) context) = Some (pl_indexed_last p') /\
       match pick context maps' kWindows with
       | None => out = []
       | Some (size, e) => out = continuation context e (length buffer) /\ longest_match context e size (pl_match p')
       end).
Proof.
  intros Hok Hmax Hne. unfold propose.
  destruct (stale_spec p maps context Hok) as (dropped & -> & Hok1 & Hd). cbn [mbind result_bind].
  exists dropped. fold (prepared dropped p).
  assert (pl_indexed (prepared dropped p) <= length context - 1)%nat as Hidx.
  { destruct dropped; [cbn; lia|]. change (pl_indexed p <= length context - 1)%nat.
    destruct Hne as [->|Hne]; [lia|]. destruct Hd as [[Hle _] _]; [done|lia]. }
  case_decide as Hsmall.
  { eexists _, [], _. split; [reflexivity|]. split; [exact Hok1|]. split; [done|].
    left. split; [done|]. split; [done|]. split; done. }
  destruct (index_until_spec context (length context - 1) _ _ Hok1) as (p1 & -> & Hok2 & Hi & Hl);
    [lia|done|].
  cbn [mbind result_bind].
  set (maps' := fun size => index_range _ _ _ _ _) in Hok2.
  rewrite Nat.max_r in Hi by lia.
  destruct (propose_windows_spec context maps' buffer (pl_indexed p1) p1 kWindows 0 (pl_tables p1))
    as (p' & out & -> & (Ht & He & Hi' & Hl') & Hout);
    [apply Hok2|apply Hok2|rewrite Hi; lia|exact kWindows_limit|done|].
  exists p', out, maps'. split; [done|].
  assert (lookup_ok p' maps') as Hok'.
  { constructor; [rewrite Ht; apply Hok2|rewrite Hi'; apply Hok2|rewrite He; apply Hok2|].
    destruct (pick context maps' kWindows) as [[size e]|].
    - destruct Hout as (_ & _ & (w & Hw & Hlt) & _). rewrite Hw. intros k [= <-]. exact Hlt.
    - destruct Hout as [_ ->]. apply Hok2. }
  split; [done|]. split; [done|]. right. split; [lia|]. split; [tauto|]. split; [done|].
  split; [congruence|]. split.
  - rewrite Hl', Hl, last_lookup, length_take, Nat.min_l by lia.
    replace (pred (length context - 1)) with (length context - 1 - 1)%nat by lia.
    case_decide as Hlt.
    + rewrite lookup_take_lt by lia.
      destruct (lookup_lt_is_Some_2 context (length context - 1 - 1)) as [x Hx]; [lia|].
      by rewrite Hx, (nth_lookup_Some _ _ _ _ Hx).
    + destruct dropped; [cbn in Hlt; lia|].
      change (pl_indexed (prepared false p)) with (pl_indexed p) in *.
      change (pl_indexed_last (prepared false p)) with (pl_indexed_last p).
      destruct Hd as [[_ Hlast] _]; [done|]. rewrite lookup_take_lt by lia.
      rewrite <- (Hlast ltac:(lia)). f_equal. lia.
  - destruct (pick context maps' kWindows) as [[size e]|]; tauto.
Qed.

(** ** Sessions *)

(** One decode round of a sequence: a proposal for the context into the caller's buffer [lr_out],
    whatever it holds, then the committed tokens. *)
Record LookupRound := mkRound { lr_context : list Z; lr_out : list Z; lr_committed : list Z }.

Fixpoint lookup_run (rounds : list LookupRound) (p : PromptLookup) : result PromptLookup :=
  match rounds with
  | [] => Ok p
  | r :: rounds =>
      po ← propose (lr_context r) (lr_out r) p;
      p ← observe (lr_committed r) po.1;
      lookup_run rounds p
  end.

Lemma init_ok : lookup_ok lookup_init (index_of []).
Proof.
  constructor; [| |done|done].
  - unfold tables_rep, kWindows. repeat (apply Forall2_cons; split; [exact empty_wf|]). by apply Forall2_nil.
  - apply Forall_forall. intros s _. exact (index_of_bounded [] s).
Qed.

Lemma observe_ok committed p maps :
  lookup_ok p maps ->
  exists p', observe committed p = Ok p' /\ lookup_ok p' maps /\ pl_indexed p' = pl_indexed p /\
    pl_indexed_last p' = pl_indexed_last p.
Proof.
  intros Hok. unfold observe. destruct (pl_window p) as [w|] eqn:E; [|by exists p].
  pose proof (lo_window _ _ Hok _ E) as Hw. pose proof (lo_estimates _ _ Hok) as Hl.
  destruct (lookup_lt_is_Some_2 (pl_estimates p) w) as [e He]; [lia|].
  rewrite (read_Ok _ _ _ He). cbn [mbind result_bind]. eexists. split; [reflexivity|].
  split; [|done]. destruct Hok. constructor; try done. cbn. by rewrite length_insert.
Qed.

Definition contexts_fit (rounds : list LookupRound) : Prop :=
  Forall (fun r => Z.of_nat (length (lr_context r)) <= u32_max) rounds.

(** Every context is at least as long as the one before it. *)
Fixpoint growing (m : nat) (rounds : list LookupRound) : Prop :=
  match rounds with
  | [] => True
  | r :: rounds => (m <= length (lr_context r))%nat /\ growing (length (lr_context r)) rounds
  end.

Lemma growing_app m r1 r2 : growing m (r1 ++ r2) -> growing m r1.
Proof. revert m. induction r1 as [|r r1 IH]; intros m; cbn; [done|]. intros [? ?]. eauto. Qed.

(** The index stays below the length of every later context. *)
Lemma run_growing rounds : forall m p maps c buffer,
  lookup_ok p maps -> (pl_indexed p = 0 \/ pl_indexed p < m)%nat ->
  growing m (rounds ++ [mkRound c buffer []]) -> contexts_fit rounds ->
  exists p' maps', lookup_run rounds p = Ok p' /\ lookup_ok p' maps' /\
    (pl_indexed p' = 0%nat \/ pl_indexed p' < length c)%nat.
Proof.
  induction rounds as [|r rounds IH]; intros m p maps c buffer Hok Hlt Hg Hfit; cbn in Hg.
  { exists p, maps. split; [done|]. split; [done|]. lia. }
  apply Forall_cons in Hfit as [Hr Hfit]. destruct Hg as [Hm Hg]. cbn [lookup_run].
  destruct (propose_spec p maps (lr_context r) (lr_out r) Hok Hr)
    as (dropped & p1 & out & maps1 & -> & Hok1 & Hd & Hcase); [lia|].
  cbn [mbind result_bind fst].
  destruct (observe_ok (lr_committed r) p1 maps1 Hok1) as (p2 & -> & Hok2 & Hi2 & _).
  cbn [mbind result_bind]. eapply IH; [exact Hok2| |exact Hg|done].
  rewrite Hi2. destruct Hcase as [(_ & _ & -> & _)|(Hl2 & _ & _ & Hi & _)]; [|lia].
  destruct dropped; [by left|]. change (pl_indexed (prepared false p)) with (pl_indexed p). lia.
Qed.

(** The proposal continues an earlier occurrence of the last [size] tokens, ending at [e]. *)
Record genuine (context : list Z) (n size e : nat) (out : list Z) : Prop := {
  gn_window : size ∈ kWindows;
  gn_earlier : (size <= e + 1)%nat /\ (e + 1 < length context)%nat;
  gn_equal : forall i, (i < size)%nat ->
    context !! (e - i)%nat = context !! (length context - 1 - i)%nat;
  gn_length : length out = n;
  gn_tokens : forall j, (j < n)%nat ->
    out !! j = context !! (e + 1 + j mod (length context - 1 - e))%nat;
}.

Lemma window_at_lookup context size e i :
  (size <= e + 1)%nat -> (i < size)%nat ->
  window_at context size e !! (size - 1 - i)%nat = context !! (e - i)%nat.
Proof.
  intros. unfold window_at. rewrite lookup_take_lt by lia. rewrite lookup_drop. f_equal. lia.
Qed.

Lemma window_at_eq context size e e' :
  (size <= e + 1)%nat -> (size <= e' + 1)%nat -> (e < length context)%nat -> (e' < length context)%nat ->
  window_at context size e = window_at context size e' <->
  forall i, (i < size)%nat -> context !! (e - i)%nat = context !! (e' - i)%nat.
Proof.
  intros. split.
  - intros E i Hi. by rewrite <- !(window_at_lookup context size) by done; rewrite E.
  - intros E. apply list_eq_same_length with size; [by rewrite length_window_at|by rewrite length_window_at|].
    intros i x y Hi Hx Hy.
    replace i with (size - 1 - (size - 1 - i))%nat in Hx, Hy by lia.
    rewrite window_at_lookup in Hx, Hy by lia. rewrite E in Hx by lia. congruence.
Qed.

Lemma pick_genuine context maps n size e b :
  Forall (fun s => bounded_map b s (maps s)) kWindows -> (b < length context)%nat ->
  pick context maps kWindows = Some (size, e) ->
  genuine context n size e (continuation context e n).
Proof.
  intros Hb Hlt (pre & post & Hw & Hc & _)%pick_Some.
  assert (size ∈ kWindows) as Hin by (rewrite Hw; apply elem_of_app; right; left).
  rewrite Forall_forall in Hb.
  destruct (candidate_bounds _ _ _ _ _ (Hb _ Hin) Hc) as (Hs & He & Heb & Heq & _).
  constructor; [done|lia| |apply length_continuation|].
  - apply (window_at_eq context size e (length context - 1)); [lia..|exact Heq].
  - intros j Hj. rewrite continuation_lookup by done.
    destruct (lookup_lt_is_Some_2 context (e + 1 + j mod (length context - 1 - e))) as [x Hx].
    { pose proof (Nat.mod_upper_bound j (length context - 1 - e)). lia. }
    by rewrite Hx, (nth_lookup_Some _ _ _ _ Hx).
Qed.

(** ** Theorems *)

(** C29: over any session of rounds whose contexts do not shrink, whatever their tokens and what the
    caller's buffers held, and with any hash collisions, every call returns without reading out of bounds, and a proposal that is not
    empty has the length of the buffer and is the literal, periodically repeated continuation of an
    earlier occurrence of the context's last 8, 4 or 2 tokens; the recorded match is the exact
    number of further equal tokens, at most 128. *)
Theorem propose_genuine rounds context buffer :
  growing 0 (rounds ++ [mkRound context buffer []]) -> contexts_fit rounds ->
  Z.of_nat (length context) <= u32_max ->
  exists p p' out, lookup_run rounds lookup_init = Ok p /\ propose context buffer p = Ok (p', out) /\
    (out = [] \/
     exists size e, genuine context (length buffer) size e out /\ longest_match context e size (pl_match p')).
Proof.
  intros Hg Hfit Hmax.
  destruct (run_growing rounds 0 lookup_init _ context buffer init_ok) as (p & maps & Hrun & Hok & Hi);
    [by left|done|done|].
  exists p. destruct (propose_spec p maps context buffer Hok Hmax)
    as (dropped & p' & out & maps' & Hp & Hok' & _ & Hcase); [lia|].
  exists p', out. split; [done|]. split; [done|].
  destruct Hcase as [(_ & -> & _)|(H2 & _ & _ & Hi' & _ & Hpick)]; [by left|].
  destruct (pick context maps' kWindows) as [[size e]|] eqn:E; [|by left].
  destruct Hpick as [-> Hm]. right. exists size, e. split; [|done].
  apply (pick_genuine context maps' (length buffer) size e (length context - 1)); [|lia|done].
  rewrite <- Hi'. apply Hok'.
Qed.

(** Every context extends the one before it. *)
Fixpoint extending (seen : list Z) (rounds : list LookupRound) : Prop :=
  match rounds with
  | [] => True
  | r :: rounds => seen `prefix_of` lr_context r /\ extending (lr_context r) rounds
  end.

Lemma lookup_ok_ext p maps maps' :
  (forall s, maps s = maps' s) -> lookup_ok p maps -> lookup_ok p maps'.
Proof.
  intros E [Ht Hb He Hw]. constructor; [| |done|done].
  - eapply Forall2_impl; [exact Ht|]. intros s t. cbv beta. by rewrite E.
  - eapply Forall_impl; [exact Hb|]. intros s. cbv beta. by rewrite E.
Qed.

(** The index covers a proper prefix of [context], or nothing. *)
Definition covers (p : PromptLookup) (context : list Z) : Prop :=
  exists seen, tracks p seen /\ seen `prefix_of` context /\
    (length seen = 0 \/ length seen < length context)%nat.

Lemma covers_extend p c1 c2 : covers p c1 -> c1 `prefix_of` c2 -> covers p c2.
Proof.
  intros (seen & Ht & Hpre & Hl) Hc. exists seen. split; [done|].
  pose proof (prefix_length _ _ Hc). split; [by trans c1|lia].
Qed.

Lemma propose_tracks p context buffer :
  covers p context -> Z.of_nat (length context) <= u32_max ->
  exists p' out, propose context buffer p = Ok (p', out) /\ covers p' context /\
    ((2 <= length context)%nat -> buffer <> [] ->
     tracks p' (take (length context - 1) context) /\
     match pick context (index_of (take (length context - 1) context)) kWindows with
     | None => out = []
     | Some (size, e) => out = continuation context e (length buffer) /\ longest_match context e size (pl_match p')
     end) /\
    ((length context < 2)%nat \/ buffer = [] -> out = []).
Proof.
  intros (seen & [Hok Hi Hlast] & Hpre & Hl) Hmax.
  destruct (propose_spec p _ context buffer Hok Hmax)
    as (dropped & p' & out & maps' & Hp & Hok' & Hd & Hcase); [lia|].
  assert (dropped = false) as ->.
  { apply Hd. rewrite Hi. split; [lia|]. intros Hne.
    rewrite <- (prefix_lookup_lt seen context) by (done || lia).
    replace (length seen - 1)%nat with (pred (length seen)) by lia. rewrite <- last_lookup.
    apply Hlast. by destruct seen. }
  exists p', out. split; [done|].
  destruct Hcase as [(Hsmall & -> & -> & ->)|(H2 & Hn & -> & Hi' & Hlast' & Hpick)].
  - split; [|split; [intros ??; destruct Hsmall; [lia|done]|done]]. exists seen. split; [|done]. by constructor.
  - change (pl_indexed (prepared false p)) with (pl_indexed p) in *.
    set (k := (length context - 1)%nat) in *.
    assert (forall size, index_range context size (pl_indexed p) (k - pl_indexed p) (index_of seen size) =
      index_of (take k context) size) as E.
    { intros size. rewrite Hi. apply index_extend; [done|]. unfold k. lia. }
    assert (length (take k context) = k) as Hk by (rewrite length_take; unfold k; lia).
    assert (tracks p' (take k context)) as Htr.
    { constructor; [exact (lookup_ok_ext _ _ _ E Hok')|by rewrite Hk|done]. }
    split; [|split; [intros _ _; split; [done|]|by intros [?|?]; [lia|]]].
    + exists (take k context). split; [done|]. split; [apply prefix_take|]. rewrite Hk. unfold k. lia.
    + assert (forall ws, pick context (fun size => index_range context size (pl_indexed p)
        (k - pl_indexed p) (index_of seen size)) ws = pick context (index_of (take k context)) ws) as Ep.
      { induction ws as [|w ws IH]; [done|]. cbn [pick]. unfold candidate. by rewrite E, IH. }
      rewrite Ep in Hpick. exact Hpick.
Qed.

Lemma run_extending rounds : forall prev p,
  covers p prev -> extending prev rounds -> contexts_fit rounds ->
  exists p', lookup_run rounds p = Ok p' /\
    forall context, extending prev (rounds ++ [mkRound context [] []]) -> covers p' context.
Proof.
  induction rounds as [|r rounds IH]; intros prev p Hc He Hfit; cbn [lookup_run extending app].
  { exists p. split; [done|]. intros context [Hpre _]. by eapply covers_extend. }
  apply Forall_cons in Hfit as [Hr Hfit]. destruct He as [Hpre He].
  destruct (propose_tracks p (lr_context r) (lr_out r)) as (p1 & out & -> & Hc1 & _);
    [by eapply covers_extend|done|].
  cbn [mbind result_bind fst].
  assert (exists p2, observe (lr_committed r) p1 = Ok p2 /\ covers p2 (lr_context r)) as (p2 & -> & Hc2).
  { destruct Hc1 as (seen & [Hok Hi Hl] & Hs).
    destruct (observe_ok (lr_committed r) p1 _ Hok) as (p2 & Ho & Hok2 & Hi2 & Hl2).
    exists p2. split; [done|]. exists seen. split; [|done]. constructor; [done|congruence|].
    by rewrite Hl2. }
  cbn [mbind result_bind]. destruct (IH _ p2 Hc2 He Hfit) as (p' & Hrun & Hcov).
  exists p'. split; [done|]. intros context [_ Hx]. by apply Hcov.
Qed.

Lemma init_covers : covers lookup_init [].
Proof. exists []. split; [|split; [done|by left]]. constructor; [exact init_ok|done|done]. Qed.

(** No two different windows of one size in the context have the same hash. *)
Definition no_collision (context : list Z) : Prop :=
  forall size e e', size ∈ kWindows -> (size <= e + 1)%nat -> (size <= e' + 1)%nat ->
    (e < length context)%nat -> (e' < length context)%nat ->
    window_hash (window_at context size e) = window_hash (window_at context size e') ->
    window_at context size e = window_at context size e'.

(** The last [size] tokens of the context also end at the earlier position [e]. *)
Definition occurs (context : list Z) (size e : nat) : Prop :=
  (size <= e + 1)%nat /\ (e + 1 < length context)%nat /\
  forall i, (i < size)%nat -> context !! (e - i)%nat = context !! (length context - 1 - i)%nat.

Lemma occurs_window context size e :
  occurs context size e ->
  window_at context size e = suffix_window context size /\ (size + 1 <= length context)%nat.
Proof. intros (H1 & H2 & H3). split; [|lia]. apply window_at_eq; try lia. exact H3. Qed.

Lemma index_of_take context size k :
  (k <= length context)%nat -> index_of (take k context) size = index_range context size 0 k ∅.
Proof.
  intros Hk. pose proof (index_extend [] context k size (prefix_nil _)) as E. cbn [length] in E.
  rewrite Nat.sub_0_r in E. symmetry. apply E. lia.
Qed.

Lemma index_of_lookup context size e key :
  index_of (take (length context - 1) context) size !! key = Some (Z.of_nat e) ->
  (e < length context - 1)%nat /\ (size <= e + 1)%nat /\
  window_hash (window_at context size e) = key /\
  forall e', (e < e' < length context - 1)%nat -> window_hash (window_at context size e') <> key.
Proof.
  rewrite index_of_take by lia.
  intros [(e' & He & Hr & Hs & Hk & Hmax)|[H _]]%index_range_lookup; [|by rewrite lookup_empty in H].
  apply Nat2Z.inj in He as ->. split; [lia|]. split; [done|]. split; [done|].
  intros e'' He''. apply Hmax. lia.
Qed.

(** Without collisions the candidate is the most recent occurrence. *)
Lemma candidate_latest context size :
  no_collision context -> size ∈ kWindows ->
  match candidate context (index_of (take (length context - 1) context)) size with
  | None => forall e, ~ occurs context size e
  | Some e => forall e', (e < e')%nat -> ~ occurs context size e'
  end.
Proof.
  intros Hnc Hin. unfold candidate. case_decide as Hs.
  { intros e [_ ?]%occurs_window. lia. }
  destruct (index_of _ size !! _) as [last|] eqn:E.
  - destruct (index_of_bounded _ _ _ _ E) as (e & -> & _).
    apply index_of_lookup in E as (He & Hse & Hk & Hmax). rewrite Nat2Z.id.
    assert (window_at context size e = suffix_window context size) as Heq.
    { apply Hnc; try done; lia. }
    rewrite bool_decide_eq_true_2 by done. intros e' He' Hocc.
    destruct (occurs_window _ _ _ Hocc) as [Hw _]. destruct Hocc as (_ & Hlt & _).
    apply (Hmax e'); [lia|]. by rewrite Hw.
  - intros e Hocc. destruct (occurs_window _ _ _ Hocc) as [Hw _]. destruct Hocc as (Hse & Hlt & _).
    rewrite index_of_take in E by lia.
    assert (forall c, (e < c)%nat -> exists v,
      index_range context size 0 c ∅ !! window_hash (suffix_window context size) = Some v) as Hsome.
    { induction c as [|c IH]; [lia|]. intros Hc. unfold index_range in *.
      rewrite seq_S, foldl_app. cbn [foldl]. unfold index_map at 1. rewrite Nat.add_0_l.
      destruct (decide (e = c)) as [->|].
      - rewrite decide_False by lia. rewrite Hw. eexists. apply lookup_insert_eq.
      - destruct IH as [v Hv]; [lia|]. rewrite decide_False by lia.
        destruct (decide (window_hash (window_at context size c) =
          window_hash (suffix_window context size))) as [->|Hne].
        + eexists. apply lookup_insert_eq.
        + exists v. by rewrite lookup_insert_ne. }
    destruct (Hsome (length context - 1)%nat) as [v Hv]; [lia|]. congruence.
Qed.

(** Window sizes are listed longest first. *)
Lemma kWindows_split pre size post size' :
  kWindows = pre ++ size :: post -> size' ∈ kWindows -> (size < size')%nat -> size' ∈ pre.
Proof.
  unfold kWindows. intros E Hin Hlt.
  destruct pre as [|a [|b [|c [|d pre]]]]; injection E; intros; subst; try done;
    set_unfold; repeat (destruct Hin as [->|Hin]); try lia; auto.
Qed.

Lemma extending_last rounds r : forall prev,
  extending prev (rounds ++ [r]) ->
  extending prev rounds /\ extending prev (rounds ++ [mkRound (lr_context r) [] []]).
Proof.
  induction rounds as [|r' rounds IH]; intros prev; cbn; [by intros [? _]|].
  intros [? [? ?]%IH]. done.
Qed.

(** C27: when each context extends the one before it and no two different windows of the context
    collide under the 64-bit hash, a proposal is found exactly when one of the suffix windows
    occurs earlier, and it then continues the longest such window at its most recent earlier
    occurrence, whatever was proposed and committed before. *)
Theorem propose_most_recent rounds context buffer :
  extending [] (rounds ++ [mkRound context buffer []]) -> contexts_fit rounds ->
  Z.of_nat (length context) <= u32_max -> no_collision context -> buffer <> [] ->
  exists p p' out, lookup_run rounds lookup_init = Ok p /\ propose context buffer p = Ok (p', out) /\
    (out = [] /\ (forall size e, size ∈ kWindows -> ~ occurs context size e) \/
     exists size e, genuine context (length buffer) size e out /\
       (forall e', (e < e')%nat -> ~ occurs context size e') /\
       (forall size' e', size' ∈ kWindows -> (size < size')%nat -> ~ occurs context size' e')).
Proof.
  intros Hext Hfit Hmax Hnc Hn.
  destruct (extending_last _ _ _ Hext) as [He1 He2].
  destruct (run_extending rounds [] lookup_init init_covers He1 Hfit) as (p & Hrun & Hcov).
  exists p. destruct (propose_tracks p context buffer (Hcov _ He2) Hmax) as (p' & out & Hp & _ & Hbig & Hsmall).
  exists p', out. split; [done|]. split; [done|].
  destruct (decide (2 <= length context)%nat) as [H2|H2].
  2: { left. split; [apply Hsmall; lia|]. intros size e Hin [_ Hs]%occurs_window.
       assert (2 <= size)%nat by (unfold kWindows in Hin; set_unfold; lia). lia. }
  destruct (Hbig H2 Hn) as [Htr Hpick]. destruct (pick _ _ _) as [[size e]|] eqn:E.
  - right. exists size, e. destruct Hpick as [-> _].
    pose proof (pick_genuine context _ (length buffer) size e _ (lo_bounded _ _ (tr_ok _ _ Htr))) as Hgen.
    rewrite (tr_indexed _ _ Htr), length_take in Hgen.
    split; [apply Hgen; [lia|exact E]|].
    apply pick_Some in E as (pre & post & Hw & Hc & Hpre). split.
    + pose proof (candidate_latest context size Hnc) as Hl. rewrite Hc in Hl. apply Hl.
      rewrite Hw. apply elem_of_app. right. left.
    + intros size' e' Hin Hlt. pose proof (kWindows_split _ _ _ _ Hw Hin Hlt) as Hp'.
      rewrite Forall_forall in Hpre. pose proof (candidate_latest context size' Hnc Hin) as Hl.
      rewrite (Hpre _ Hp') in Hl. apply Hl.
  - left. split; [done|]. intros size e Hin. apply pick_None in E. rewrite Forall_forall in E.
    pose proof (candidate_latest context size Hnc Hin) as Hl. rewrite (E _ Hin) in Hl. apply Hl.
Qed.

(** ** A context that shrinks by one token *)

Lemma candidate_self context size :
  (size + 1 <= length context)%nat -> candidate context (index_of context) size = Some (length context - 1)%nat.
Proof.
  intros Hs. unfold candidate. rewrite decide_False by lia.
  assert (index_of context size !! window_hash (suffix_window context size) =
    Some (Z.of_nat (length context - 1))) as ->.
  { apply index_range_lookup. left. exists (length context - 1)%nat. split; [done|].
    split; [lia|]. split; [lia|]. split; [done|]. lia. }
  rewrite Nat2Z.id. by rewrite bool_decide_eq_true_2.
Qed.

Lemma extend_match_self context fuel : forall matched,
  context <> [] -> (matched <= kMatchLimit)%nat -> (matched <= length context)%nat -> (kMatchLimit <= matched + fuel)%nat ->
  extend_match context (length context - 1) fuel matched = Ok (Nat.min kMatchLimit (length context)).
Proof.
  induction fuel as [|fuel IH]; intros matched Hne H1 H2 H3; cbn [extend_match]; [f_equal; lia|].
  assert (length context <> 0)%nat by by destruct context.
  case_decide as Hc; [|f_equal; lia].
  destruct (lookup_lt_is_Some_2 context (length context - 1 - matched)) as [x Hx]; [lia|].
  rewrite (read_Ok _ _ _ Hx). cbn [mbind result_bind]. rewrite Z.eqb_refl. apply IH; [done|lia..].
Qed.

(** With period zero every slot is copied to itself. *)
Lemma continue_from_self context count : forall j out,
  context <> [] -> (j + count)%nat = length out ->
  continue_from context (length context - 1) count j out = Ok out.
Proof.
  induction count as [|count IH]; intros j out Hne Hlen; cbn [continue_from]; [done|].
  assert (length context <> 0)%nat by by destruct context.
  rewrite decide_False by lia.
  replace (j - (length context - 1 - (length context - 1)))%nat with j by lia.
  destruct (lookup_lt_is_Some_2 out j) as [x Hx]; [lia|]. rewrite (read_Ok _ _ _ Hx). cbn [mbind result_bind].
  rewrite list_insert_id by done. apply IH; [done|lia].
Qed.

Lemma propose_windows_self context buffer p windows : forall window tables,
  tables_rep windows tables (index_of context) -> Z.of_nat (length context) <= u32_max ->
  Exists (fun s => (s + 1 <= length context)%nat) windows -> Forall (fun s => (s <= kMatchLimit)%nat) windows ->
  exists w size, windows !! w = Some size /\ (size + 1 <= length context)%nat /\
    (forall w' size', (w' < w)%nat -> windows !! w' = Some size' -> (length context < size' + 1)%nat) /\
    propose_windows context buffer window windows tables p =
      Ok (set_proposal buffer (Some (window + w)%nat) (Nat.min kMatchLimit (length context)) p, buffer).
Proof.
  induction windows as [|size windows IH]; intros window tables Hrep Hmax Hex Hlim.
  { by apply Exists_nil in Hex. }
  apply Forall2_cons_inv_l in Hrep as (t & ts & [Hwf Hm] & Hts & ->). cbn [propose_windows].
  apply Forall_cons in Hlim as [Hl1 Hlim].
  rewrite (try_window_spec context t _ (index_of context) size (length context) Hwf Hm)
    by (done || apply index_of_bounded).
  cbn [mbind result_bind].
  destruct (decide (size + 1 <= length context)%nat) as [Hs|Hs].
  - exists 0%nat, size. split; [done|]. split; [done|]. split; [lia|].
    rewrite candidate_self by done. assert (context <> []) as Hne by (intros ->; cbn in Hs; lia).
    rewrite (extend_match_self context kMatchLimit size) by (done || lia).
    cbn [mbind result_bind]. rewrite continue_from_self by done. by rewrite Nat.add_0_r.
  - destruct (IH (S window) ts Hts Hmax) as (w & s & Hw & Hfit & Hbig & E); [|done|].
    { by apply Exists_cons in Hex as [?|?]. }
    unfold candidate. rewrite decide_True by lia. exists (S w), s. split; [done|]. split; [done|]. split.
    + intros [|w'] size' Hlt; cbn; [intros [= <-]; lia|]. apply Hbig. lia.
    + rewrite E. by rewrite Nat.add_succ_r.
Qed.

Lemma lookup_run_app r1 r2 : forall p, lookup_run (r1 ++ r2) p = (p' ← lookup_run r1 p; lookup_run r2 p').
Proof.
  induction r1 as [|r r1 IH]; intros p; cbn [lookup_run app]; [done|].
  destruct (propose _ _ p) as [po|]; cbn [mbind result_bind]; [|done].
  destruct (observe _ po.1) as [p'|]; cbn [mbind result_bind]; [apply IH|done].
Qed.

(** A round on [context ++ [token]] leaves exactly the tokens of [context] indexed. *)
Lemma round_indexes p context token out committed :
  covers p (context ++ [token]) -> context <> [] -> Z.of_nat (length context) < u32_max -> out <> [] ->
  exists p', lookup_run [mkRound (context ++ [token]) out committed] p = Ok p' /\ tracks p' context.
Proof.
  intros Hcov Hne Hmax Hout. assert (length context <> 0)%nat by by destruct context.
  destruct (propose_tracks p (context ++ [token]) out Hcov) as (p1 & o & Hp & _ & Hbig & _).
  { rewrite length_app. cbn [length]. lia. }
  rewrite length_app in Hbig. cbn [length] in Hbig. rewrite Nat.add_sub, take_app_length in Hbig.
  destruct (Hbig ltac:(lia) Hout) as [[Hok Hi Hlast] _].
  destruct (observe_ok committed p1 _ Hok) as (p2 & Ho & Hok2 & Hi2 & Hl2).
  exists p2. cbn [lookup_run lr_context lr_out lr_committed]. rewrite Hp. cbn [mbind result_bind fst].
  rewrite Ho. cbn [mbind result_bind]. split; [done|]. constructor; [done|congruence|]. by rewrite Hl2.
Qed.

Lemma tracks_not_stale p context :
  tracks p context -> context <> [] -> stale context (set_proposal [] None (pl_match p) p) = Ok false.
Proof.
  intros [Hok Hi Hlast] Hne. destruct (stale_spec p _ context Hok) as (dropped & -> & _ & Hd). f_equal.
  apply Hd. rewrite Hi. split; [lia|]. intros _.
  replace (length context - 1)%nat with (pred (length context)) by lia. rewrite <- last_lookup. by apply Hlast.
Qed.

(** C30: a context cut back to exactly the indexed tokens is not noticed.  After any session of rounds
    whose contexts extend each other and whose last one is [context ++ [token]], with whatever it
    committed, a proposal for [context] does not drop the index, although windows that end the
    context are in it.  The call returns normally: the longest window that fits the context is matched
    with itself, so that the period is zero and every slot of the caller's buffer is copied to itself;
    the tokens the caller had left in the buffer, whatever they are, are returned as a proposal of its
    full length, and the recorded match is the whole context, up to the limit of 128 tokens. *)
Theorem propose_shrunk_context rounds context token out committed buffer :
  extending [] (rounds ++ [mkRound (context ++ [token]) out committed]) -> contexts_fit rounds ->
  (3 <= length context)%nat -> Z.of_nat (length context) < u32_max -> out <> [] -> buffer <> [] ->
  exists p p' w size,
    lookup_run (rounds ++ [mkRound (context ++ [token]) out committed]) lookup_init = Ok p /\
    stale context p = Ok false /\
    propose context buffer p = Ok (p', buffer) /\ pl_proposal p' = buffer /\
    pl_match p' = Nat.min kMatchLimit (length context) /\
    pl_window p' = Some w /\ kWindows !! w = Some size /\ (size + 1 <= length context)%nat /\
    (forall w' size', (w' < w)%nat -> kWindows !! w' = Some size' -> (length context < size' + 1)%nat).
Proof.
  intros Hext Hfit H3 Hmax Hout Hbuf. assert (context <> []) as Hne by (intros ->; cbn in H3; lia).
  destruct (extending_last _ _ _ Hext) as [He1 He2].
  destruct (run_extending rounds [] lookup_init init_covers He1 Hfit) as (p0 & Hrun & Hcov).
  destruct (round_indexes p0 context token out committed (Hcov _ He2) Hne Hmax Hout) as (p & Hp & Htr).
  pose proof (tracks_not_stale p context Htr Hne) as Hstale. destruct Htr as [Hok Hi Hlast].
  destruct (index_until_spec context (length context - 1) (prepared false p) _
    (set_proposal_ok p _ [] None (pl_match p) Hok ltac:(done))) as (p1 & Hidx & Hok2 & _ & _); [lia|lia|].
  change (pl_indexed (prepared false p)) with (pl_indexed p) in Hok2. rewrite Hi in Hok2.
  replace (length context - 1 - length context)%nat with 0%nat in Hok2 by lia.
  destruct (propose_windows_self context buffer p1 kWindows 0 (pl_tables p1)) as (w & size & Hw & Hs & Hbig & E).
  { apply Hok2. }
  { lia. }
  { unfold kWindows. apply Exists_cons. right. apply Exists_cons. right. apply Exists_cons. left. lia. }
  { exact kWindows_limit. }
  exists p, (set_proposal buffer (Some w) (Nat.min kMatchLimit (length context)) p1), w, size.
  split; [by rewrite lookup_run_app, Hrun|]. split; [exact Hstale|]. split; [|done].
  unfold propose. rewrite Hstale. cbn [mbind result_bind]. rewrite decide_False by (intros [?|?]; [lia|done]).
  change (set_proposal [] None (pl_match p) p) with (prepared false p). rewrite Hidx. cbn [mbind result_bind].
  by rewrite E.
Qed.

(** ** Witnesses *)

Definition demo_context : list Z := [3; 4; 7; 9; 1; 3; 4; 8; 5; 6; 3; 4].
Definition demo_rounds : list LookupRound :=
  [mkRound [3; 4; 7; 9] [0; 0; 0] [1]; mkRound [3; 4; 7; 9; 1; 3; 4] [5; 5] [7; 8]].

Lemma propose_genuine_witness :
  exists p p' out, lookup_run demo_rounds lookup_init = Ok p /\
    propose demo_context [0; 0; 0] p = Ok (p', out) /\
    (out = [] \/ exists size e, genuine demo_context 3 size e out /\
       longest_match demo_context e size (pl_match p')).
Proof.
  apply (propose_genuine demo_rounds demo_context [0; 0; 0]).
  - cbn. lia.
  - repeat constructor; cbv; discriminate.
  - cbv. discriminate.
Defined.

Lemma demo_no_collision : no_collision demo_context.
Proof.
  intros size e e' Hin H1 H2 H3 H4. unfold kWindows in Hin.
  assert (length demo_context = 12%nat) as Hl by done. rewrite Hl in *.
  apply list_elem_of_In in Hin as [<-|[<-|[<-|[]]]];
    do 12 (destruct e as [|e]; [do 12 (destruct e' as [|e']; [try lia; vm_compute; try done|]); lia|]);
    lia.
Qed.

Lemma propose_most_recent_witness :
  extending [] (demo_rounds ++ [mkRound demo_context [0; 0; 0] []]) /\ no_collision demo_context /\
  exists p p' out, lookup_run demo_rounds lookup_init = Ok p /\
    propose demo_context [0; 0; 0] p = Ok (p', out) /\ out = [8; 5; 6].
Proof.
  assert (extending [] (demo_rounds ++ [mkRound demo_context [0; 0; 0] []])) as He.
  { cbn. repeat split; [by exists [3; 4; 7; 9]|by exists [1; 3; 4]|by exists [8; 5; 6; 3; 4]]. }
  assert (contexts_fit demo_rounds) as Hf by (repeat constructor; cbv; discriminate).
  assert (Z.of_nat (length demo_context) <= u32_max) as Hl by (cbv; discriminate).
  split; [exact He|]. split; [exact demo_no_collision|].
  destruct (propose_most_recent demo_rounds demo_context [0; 0; 0] He Hf Hl demo_no_collision
    ltac:(discriminate)) as (p & p' & out & Hrun & Hp & _).
  exists p, p', out. split; [exact Hrun|]. split; [exact Hp|].
  vm_compute in Hrun. injection Hrun as <-. vm_compute in Hp. injection Hp as _ <-. reflexivity.
Defined.

(** The session's last context was [1; 2; 3; 4]; cut back to [1; 2; 3] it proposes the buffer's 7 and 9. *)
Lemma propose_shrunk_context_witness :
  exists p p', lookup_run [mkRound [1; 2] [0] []; mkRound [1; 2; 3; 4] [0] [4]] lookup_init = Ok p /\
    propose [1; 2; 3] [7; 9] p = Ok (p', [7; 9]) /\ pl_match p' = 3%nat.
Proof.
  destruct (propose_shrunk_context [mkRound [1; 2] [0] []] [1; 2; 3] 4 [0] [4] [7; 9])
    as (p & p' & w & size & Hrun & _ & Hp & _ & Hm & _).
  - cbn. repeat split; [by exists [1; 2]|by exists [3; 4]].
  - repeat constructor; cbv; discriminate.
  - cbn. lia.
  - cbv. reflexivity.
  - discriminate.
  - discriminate.
  - exists p, p'. split; [exact Hrun|]. split; [exact Hp|exact Hm].
Defined.
