(* ===== verification/MapSums.v ===== *)
(** * Sums over finite maps

    [map_sum f m] adds [f key value] over a finite map; the accounting invariants of the stores are
    stated with it. *)

From stdpp Require Import gmap.
From S2P Require Import Prelude.
Open Scope Z_scope.

Lemma sum_with_perm {A} (f : A -> Z) l1 l2 : l1 ≡ₚ l2 -> sum_with f l1 = sum_with f l2.
Proof. induction 1; cbn in *; lia. Qed.

Section map_sum.
Context {K A : Type} `{Countable K}.
Implicit Types (m : gmap K A) (f : K -> A -> Z).

Definition map_sum f m : Z := sum_with (fun p => f p.1 p.2) (map_to_list m).

Lemma map_sum_empty f : map_sum f ∅ = 0.
Proof. unfold map_sum. by rewrite map_to_list_empty. Qed.

Lemma map_sum_insert f m k v : m !! k = None -> map_sum f (<[k := v]> m) = f k v + map_sum f m.
Proof.
  intros Hk. unfold map_sum. by rewrite (sum_with_perm _ _ _ (map_to_list_insert m k v Hk)).
Qed.

Lemma map_sum_delete f m k v : m !! k = Some v -> map_sum f (delete k m) = map_sum f m - f k v.
Proof.
  intros Hk. rewrite <- (insert_delete_id m k v Hk) at 2.
  rewrite map_sum_insert by apply lookup_delete_eq. lia.
Qed.

Lemma map_sum_update f m k v v' :
  m !! k = Some v -> map_sum f (<[k := v']> m) = map_sum f m - f k v + f k v'.
Proof.
  intros Hk. rewrite <- (insert_delete_eq m k v'), map_sum_insert by apply lookup_delete_eq.
  rewrite (map_sum_delete f m k v Hk). lia.
Qed.

Lemma map_sum_nonneg f m : (forall k v, m !! k = Some v -> 0 <= f k v) -> 0 <= map_sum f m.
Proof.
  induction m as [|k v m Hk IH] using map_ind; intros Hf; [by rewrite map_sum_empty|].
  rewrite map_sum_insert by done.
  assert (0 <= f k v) by (apply Hf, lookup_insert_eq).
  assert (0 <= map_sum f m); [|lia].
  apply IH. intros k' v' Hk'. apply Hf. rewrite lookup_insert_ne by congruence. done.
Qed.

Lemma map_sum_elem f m k v :
  (forall k v, m !! k = Some v -> 0 <= f k v) -> m !! k = Some v -> f k v <= map_sum f m.
Proof.
  intros Hf Hk. pose proof (map_sum_delete f m k v Hk).
  assert (0 <= map_sum f (delete k m)); [|lia].
  apply map_sum_nonneg. intros k' v' [_ Hk']%lookup_delete_Some. by apply Hf.
Qed.

Lemma map_sum_positive f m : 0 < map_sum f m -> exists k v, m !! k = Some v /\ 0 < f k v.
Proof.
  induction m as [|k v m Hk IH] using map_ind; [rewrite map_sum_empty; lia|].
  rewrite map_sum_insert by done. intros Hp. destruct (decide (0 < f k v)) as [Hf|Hf].
  - exists k, v. by rewrite lookup_insert_eq.
  - destruct IH as (k' & v' & Hk' & Hf'); [lia|]. exists k', v'. split; [|done].
    rewrite lookup_insert_ne by congruence. done.
Qed.

Lemma map_sum_size f m :
  (forall k v, m !! k = Some v -> f k v <= 1) -> map_sum f m <= Z.of_nat (size m).
Proof.
  induction m as [|k v m Hk IH] using map_ind; intros Hf; [by rewrite map_sum_empty, map_size_empty|].
  rewrite map_sum_insert, map_size_insert_None by done.
  assert (f k v <= 1) by (apply Hf, lookup_insert_eq).
  assert (map_sum f m <= Z.of_nat (size m)); [|lia].
  apply IH. intros k' v' Hk'. apply Hf. rewrite lookup_insert_ne by congruence. done.
Qed.
Lemma map_sum_ext f g m :
  (forall k v, m !! k = Some v -> f k v = g k v) -> map_sum f m = map_sum g m.
Proof.
  intros Hfg. apply sum_with_ext. intros i [k v] Hi. apply Hfg.
  apply elem_of_map_to_list. by eapply list_elem_of_lookup_2.
Qed.
End map_sum.
