(* ===== verification/ResponsesStore.v ===== *)
(** * The OpenAI Responses store

    [serve/openai_responses_store.{h,cpp}]: contexts form a DAG of immutable nodes that share their
    prefixes; the store keeps at most [max_records] responses and [max_bytes] bytes, counts each
    live context node once, and evicts the least recently used responses. A [shared_ptr] to a node
    is the node's index in a heap of nodes; a node is created after its parent and never changes,
    and a live node's address is not reused because its records keep it alive. *)

From stdpp Require Import gmap strings.
From S2P Require Import Prelude.
Open Scope Z_scope.

(** ** Turns *)

Record ContentPart := mkPart {
  cp_text : string;
  cp_type_raw : string;
  cp_source_value : string;
  cp_source_media_type : string;
  cp_source_bytes : list Z;
}.

Record ToolCall := mkToolCall { tc_id : string; tc_name : string; tc_arguments_json : string }.

(** The fields of a [ChatTurn] that the store reads. *)
Record ChatTurn := mkTurn {
  ct_content : list ContentPart;
  ct_tool_calls : list ToolCall;
  ct_tool_call_id : string;
  ct_tool_result_name : option string;
  ct_reasoning_content : string;
}.

Definition str_size (s : string) : Z := Z.of_nat (String.length s).

(** The compiler's object sizes. *)
Record Sizes := mkSizes {
  sizeof_ChatTurn : Z;
  sizeof_ContentPart : Z;
  sizeof_ToolCall : Z;
  sizeof_Node : Z;
  sizeof_StoredOpenAIResponse : Z;
  sizeof_json : Z;
}.

Definition estimate_turn_bytes (z : Sizes) (turn : ChatTurn) : Z :=
  let bytes := w64 (sizeof_ChatTurn z + str_size (ct_tool_call_id turn) +
                    str_size (ct_reasoning_content turn)) in
  let bytes := match ct_tool_result_name turn with
               | Some name => w64 (bytes + str_size name) | None => bytes end in
  let bytes := foldl (fun bytes part =>
    w64 (bytes + (sizeof_ContentPart z + str_size (cp_text part) + str_size (cp_type_raw part) +
                  str_size (cp_source_value part) + str_size (cp_source_media_type part) +
                  Z.of_nat (length (cp_source_bytes part))))) bytes (ct_content turn) in
  foldl (fun bytes call =>
    w64 (bytes + (sizeof_ToolCall z + str_size (tc_id call) + str_size (tc_name call) +
                  str_size (tc_arguments_json call)))) bytes (ct_tool_calls turn).

(** ** Contexts *)

(** [OpenAIResponseContext]: null or a node of the heap. *)
Abbreviation ContextRef := (option nat).

Record Node := mkNode {
  nd_parent : ContextRef;
  nd_turns : list ChatTurn;
  nd_owned : Z;
  nd_cumulative_bytes : Z;
  nd_cumulative_turns : Z;
}.

Abbreviation Heap := (list Node).

(** A field of the node a context points at, zero for a null context. *)
Definition field_of (h : Heap) (f : Node -> Z) (c : ContextRef) : Z :=
  match c ≫= fun n => h !! n with Some nd => f nd | None => 0 end.

Definition append_openai_response_context (z : Sizes) (parent : ContextRef) (turns : list ChatTurn)
    : M Heap ContextRef :=
  h ← mget;
  let owned := foldl (fun bytes turn => w64 (bytes + estimate_turn_bytes z turn)) (sizeof_Node z) turns in
  cumulative_bytes ← mlift (checked_add owned (field_of h nd_cumulative_bytes parent));
  cumulative_turns ← mlift (checked_add (Z.of_nat (length turns)) (field_of h nd_cumulative_turns parent));
  _ ← mput (h ++ [mkNode parent turns owned cumulative_bytes cumulative_turns]);
  mret (Some (length h)).

(** The nodes from a context to its root, as the walk along [parent] visits them. The fuel is one
    more than the first node's index: a parent is older than its child. *)
Fixpoint walk (h : Heap) (fuel : nat) (c : ContextRef) : list nat :=
  match fuel, c with
  | S fuel, Some n =>
      match h !! n with Some nd => n :: walk h fuel (nd_parent nd) | None => [] end
  | _, _ => []
  end.

Definition chain (h : Heap) (c : ContextRef) : list nat :=
  walk h (match c with Some n => S n | None => 0%nat end) c.

Definition flatten_openai_response_context (h : Heap) (c : ContextRef) : list ChatTurn :=
  reverse (chain h c) ≫= fun n => match h !! n with Some nd => nd_turns nd | None => [] end.

(** ** The store *)

Section store.
(** A JSON value, its serialization and whether it is an object. *)
Context {Json : Type} (dump : Json -> string) (is_object : Json -> bool).

Record StoredOpenAIResponse := mkResponse {
  sr_id : string;
  sr_session_key : string;
  sr_response : Json;
  sr_input_items : list Json;
  sr_context : ContextRef;
  sr_preserve_thinking : option bool;
}.

Definition record_envelope_bytes (z : Sizes) (r : StoredOpenAIResponse) : Z :=
  let bytes := w64 (sizeof_StoredOpenAIResponse z + str_size (sr_id r) + str_size (sr_session_key r) +
                    str_size (dump (sr_response r))) in
  foldl (fun bytes item => w64 (bytes + (sizeof_json z + str_size (dump item)))) bytes (sr_input_items r).

(** The list iterator of an entry is the entry's id: the list holds each id once. *)
Record Entry := mkEntry { en_response : StoredOpenAIResponse; en_envelope_bytes : Z }.

Record Store := mkStore {
  max_records : Z;
  max_bytes : Z;
  records : gmap string Entry;
  lru : list string;
  live : gmap nat Z;
  current_bytes : Z;
}.

Definition make_store (records bytes : Z) : result Store :=
  if (records =? 0) || (bytes =? 0) then Throw InvalidArgument
  else Ok (mkStore records bytes ∅ [] ∅ 0).

Definition set_records (rs : gmap string Entry) (l : list string) (s : Store) : Store :=
  mkStore (max_records s) (max_bytes s) rs l (live s) (current_bytes s).
Definition set_live (m : gmap nat Z) (bytes : Z) (s : Store) : Store :=
  mkStore (max_records s) (max_bytes s) (records s) (lru s) m bytes.

Definition lru_remove (id : string) (l : list string) : list string := filter (fun x => x <> id) l.

(** [size_t] arithmetic of [records_.size()]. *)
Definition record_count (s : Store) : Z := Z.of_nat (size (records s)).

Definition get (id : string) (s : Store) : Store * option StoredOpenAIResponse :=
  match records s !! id with
  | None => (s, None)
  | Some e => (set_records (records s) (id :: lru_remove id (lru s)) s, Some (en_response e))
  end.

(** *** Context references *)

(** The nodes from the context up to the first live one, and that one. *)
Fixpoint new_nodes (m : gmap nat Z) (nodes : list nat) : list nat * ContextRef :=
  match nodes with
  | [] => ([], None)
  | n :: nodes =>
      match m !! n with
      | Some _ => ([], Some n)
      | None => let '(fresh, cursor) := new_nodes m nodes in (n :: fresh, cursor)
      end
  end.

(** [rollback_inserted], over the nodes inserted so far, last first. *)
Definition rollback (h : Heap) (inserted : list nat) (s : Store) : Store :=
  foldl (fun s n => set_live (delete n (live s)) (w64 (current_bytes s - field_of h nd_owned (Some n))) s)
    s inserted.

(** The insertion loop; [inserted] holds the inserted nodes, last first. *)
Fixpoint activate (h : Heap) (nodes inserted : list nat) : M Store (list nat) :=
  match nodes with
  | [] => mret inserted
  | n :: nodes =>
      s ← mget;
      match checked_add (current_bytes s) (field_of h nd_owned (Some n)) with
      | Throw e => _ ← mput (rollback h inserted s); mthrow e
      | Ok next_bytes =>
          if bool_decide (is_Some (live s !! n)) then _ ← mput (rollback h inserted s); mthrow LogicError
          else
            _ ← mput (set_live (<[n := 1]> (live s)) next_bytes s);
            activate h nodes (n :: inserted)
      end
  end.

Definition retain_context_locked (h : Heap) (context : ContextRef) : M Store unit :=
  match context with
  | None => mret tt
  | Some root =>
      s ← mget;
      match live s !! root with
      | Some count =>
          if count =? u64_max then mthrow OverflowError
          else mput (set_live (<[root := w64 (count + 1)]> (live s)) (current_bytes s) s)
      | None =>
          let '(fresh, cursor) := new_nodes (live s) (chain h context) in
          inserted ← activate h fresh [];
          match cursor with
          | None => mret tt
          | Some c =>
              s ← mget;
              match live s !! c with
              | None => _ ← mput (rollback h inserted s); mthrow LogicError
              | Some count =>
                  if count =? u64_max then _ ← mput (rollback h inserted s); mthrow OverflowError
                  else mput (set_live (<[c := w64 (count + 1)]> (live s)) (current_bytes s) s)
              end
          end
      end
  end.

(** The loop of [release_context_locked] over the nodes of the chain. *)
Fixpoint release_nodes (h : Heap) (nodes : list nat) : M Store unit :=
  match nodes with
  | [] => mret tt
  | n :: nodes =>
      s ← mget;
      match live s !! n with
      | None => mthrow LogicError
      | Some count =>
          if count =? 0 then mthrow LogicError
          else if negb (count =? 1) then mput (set_live (<[n := count - 1]> (live s)) (current_bytes s) s)
          else if current_bytes s <? field_of h nd_owned (Some n) then mthrow LogicError
          else
            _ ← mput (set_live (delete n (live s)) (current_bytes s - field_of h nd_owned (Some n)) s);
            release_nodes h nodes
      end
  end.

Definition release_context_locked (h : Heap) (context : ContextRef) : M Store unit :=
  release_nodes h (chain h context).

Definition erase_locked (h : Heap) (id : string) : M Store unit :=
  s ← mget;
  match records s !! id with
  | None => mret tt
  | Some e =>
      _ ← mthrow_if (current_bytes s <? en_envelope_bytes e) LogicError;
      _ ← mput (set_live (live s) (current_bytes s - en_envelope_bytes e) s);
      _ ← release_context_locked h (sr_context (en_response e));
      mmodify (fun s => set_records (delete id (records s)) (lru_remove id (lru s)) s)
  end.

Definition erase (h : Heap) (id : string) : M Store bool :=
  s ← mget;
  match records s !! id with
  | None => mret false
  | Some _ => _ ← erase_locked h id; mret true
  end.

(** *** Insertion *)

Definition over_limit (s : Store) : bool :=
  (max_records s <? record_count s) || (max_bytes s <? current_bytes s).

(** The victim the eviction loop chooses: the last id of the list that is not the new one. *)
Definition choose_victim (own : string) (l : list string) : result string :=
  match reverse l with
  | [] => Throw LogicError
  | victim :: before =>
      if bool_decide (victim = own) then
        match before with
        | [] => Throw ApiError
        | previous :: _ => Ok previous
        end
      else Ok victim
  end.

(** The eviction loop; every iteration erases a record, so the number of records is fuel enough. *)
Fixpoint evict (h : Heap) (own : string) (fuel : nat) : M Store unit :=
  s ← mget;
  if over_limit s then
    match fuel with
    | O => mthrow Terminate
    | S fuel =>
        victim ← mlift (choose_victim own (lru s));
        _ ← erase_locked h victim;
        evict h own fuel
    end
  else mret tt.

(** The guarded accounting of [put], with its [catch] block. *)
Definition account (h : Heap) (own : string) (envelope_bytes : Z) (context : ContextRef) : M Store unit :=
  fun s =>
    let undo bytes (s : Store) :=
      set_live (live s) bytes (set_records (delete own (records s)) (tail (lru s)) s) in
    match checked_add (current_bytes s) envelope_bytes with
    | Throw e => (undo (current_bytes s) s, Throw e)
    | Ok bytes =>
        match retain_context_locked h context (set_live (live s) bytes s) with
        | (s, Throw e) => (undo (w64 (current_bytes s - envelope_bytes)) s, Throw e)
        | (s, Ok u) => (s, Ok u)
        end
    end.

Definition put (z : Sizes) (h : Heap) (r : StoredOpenAIResponse) : M Store unit :=
  s ← mget;
  _ ← mthrow_if (bool_decide (sr_id r = "") || bool_decide (sr_session_key r = "") ||
                 (256 <? str_size (sr_session_key r)) || negb (is_object (sr_response r))) InvalidArgument;
  let envelope_bytes := record_envelope_bytes z r in
  let context_bytes := field_of h nd_cumulative_bytes (sr_context r) in
  _ ← mthrow_if ((max_bytes s <? envelope_bytes) || (max_bytes s - envelope_bytes <? context_bytes)) ApiError;
  _ ← mthrow_if (bool_decide (is_Some (records s !! sr_id r))) LogicError;
  _ ← mput (set_records (<[sr_id r := mkEntry r envelope_bytes]> (records s)) (sr_id r :: lru s) s);
  _ ← account h (sr_id r) envelope_bytes (sr_context r);
  s ← mget;
  evict h (sr_id r) (size (records s)).
End store.
