(* ===== verification/ResponsesStoreInvariant.v ===== *)
(** * The Responses store: accounting invariant

    The reference counts, the byte total and the LRU list of [ResponsesStore] through retain,
    release, erase and the eviction loop. *)

From stdpp Require Import gmap strings.
From S2P Require Import Prelude MapSums ResponsesStore.
Open Scope Z_scope.

(** ** Chains *)

Definition node_ok (h : Heap) (n : nat) (nd : Node) : Prop :=
  (forall p, nd_parent nd = Some p -> (p < n)%nat) /\ 0 <= nd_owned nd /\
  nd_cumulative_bytes nd = nd_owned nd + field_of h nd_cumulative_bytes (nd_parent nd) /\
  nd_cumulative_turns nd = Z.of_nat (length (nd_turns nd)) + field_of h nd_cumulative_turns (nd_parent nd).

Definition heap_wf (h : Heap) : Prop := forall n nd, h !! n = Some nd -> node_ok h n nd.

Definition context_ok (h : Heap) (c : ContextRef) : Prop :=
  forall n, c = Some n -> (n < length h)%nat.

Definition parent_of (h : Heap) (n : nat) : ContextRef := (h !! n) ≫= nd_parent.
Definition owned_of (h : Heap) (n : nat) : Z := field_of h nd_owned (Some n).

Section chains.
Context (h : Heap) (Hh : heap_wf h).

Lemma parent_lt n p : parent_of h n = Some p -> (p < n)%nat.
Proof.
  unfold parent_of. destruct (h !! n) as [nd|] eqn:E; [|done]. cbn. intros Hp.
  by apply (proj1 (Hh n nd E)).
Qed.

Lemma parent_ok n : (n < length h)%nat -> context_ok h (parent_of h n).
Proof. intros Hn p Hp. pose proof (parent_lt n p Hp). lia. Qed.

(** More fuel than the first index does not change the walk. *)
Lemma walk_fuel fuel : forall fuel' c,
  (forall n, c = Some n -> (n < fuel)%nat) -> (forall n, c = Some n -> (n < fuel')%nat) ->
  walk h fuel c = walk h fuel' c.
Proof.
  induction fuel as [|fuel IH]; intros [|fuel'] [n|] H1 H2; try done;
    try (specialize (H1 n eq_refl)); try (specialize (H2 n eq_refl)); try lia.
  cbn [walk]. destruct (h !! n) as [nd|] eqn:E; [|done]. f_equal.
  pose proof (proj1 (Hh n nd E)) as Hp. apply IH; intros p Hq; specialize (Hp p Hq); lia.
Qed.

Lemma chain_Some n :
  (n < length h)%nat -> chain h (Some n) = n :: chain h (parent_of h n).
Proof.
  intros [nd E]%lookup_lt_is_Some_2.
  change (chain h (Some n)) with
    (match h !! n with Some nd => n :: walk h n (nd_parent nd) | None => [] end).
  unfold parent_of, chain. rewrite E. f_equal. cbn.
  pose proof (proj1 (Hh n nd E)) as Hp.
  apply walk_fuel; [by intros p Hq; apply Hp|]. intros p ->. lia.
Qed.

(** Induction along the chain of a context. *)
Lemma chain_ind (P : ContextRef -> Prop) :
  P None -> (forall n, (n < length h)%nat -> P (parent_of h n) -> P (Some n)) ->
  forall c, context_ok h c -> P c.
Proof.
  intros H0 HS [n|] Hc; [|done]. specialize (Hc n eq_refl). revert Hc.
  induction n as [n IH] using lt_wf_ind. intros Hn. apply HS; [done|].
  destruct (parent_of h n) as [p|] eqn:E; [|done]. pose proof (parent_lt n p E).
  apply IH; lia.
Qed.

Lemma chain_le c n m : context_ok h c -> c = Some n -> m ∈ chain h c -> (m <= n)%nat.
Proof.
  intros Hc. revert n. pattern c. apply chain_ind; [done| |done]. clear c Hc.
  intros k Hk IH n [= <-]. rewrite chain_Some by done. intros [->|Hm]%elem_of_cons; [done|].
  destruct (parent_of h k) as [p|] eqn:E; [|by apply not_elem_of_nil in Hm].
  pose proof (parent_lt k p E). specialize (IH p eq_refl Hm). lia.
Qed.

Lemma chain_parent c n p :
  context_ok h c -> n ∈ chain h c -> parent_of h n = Some p -> p ∈ chain h c.
Proof.
  intros Hc. pattern c. apply chain_ind; [by intros ?%not_elem_of_nil| |done]. clear c Hc.
  intros k Hk IH. rewrite chain_Some by done. intros [->|Hn]%elem_of_cons Hp.
  - right. rewrite Hp. pose proof (parent_lt k p Hp). rewrite chain_Some by lia. left.
  - right. by apply IH.
Qed.

Lemma chain_bounded c n : context_ok h c -> n ∈ chain h c -> (n < length h)%nat.
Proof.
  intros Hc Hn. destruct c as [k|]; [|by apply not_elem_of_nil in Hn].
  pose proof (chain_le (Some k) k n Hc eq_refl Hn). specialize (Hc k eq_refl). lia.
Qed.

Lemma chain_NoDup c : context_ok h c -> NoDup (chain h c).
Proof.
  intros Hc. pattern c. apply chain_ind; [constructor| |done]. clear c Hc.
  intros n Hn IH. rewrite chain_Some by done. constructor; [|done].
  intros Hin. destruct (parent_of h n) as [p|] eqn:E; [|by apply not_elem_of_nil in Hin].
  pose proof (parent_lt n p E). pose proof (parent_ok n Hn) as Hp. rewrite E in Hp.
  pose proof (chain_le (Some p) p n Hp eq_refl Hin). lia.
Qed.

(** A node's cumulative bytes are the bytes its chain owns. *)
Lemma chain_bytes c :
  context_ok h c -> field_of h nd_cumulative_bytes c = sum_with (owned_of h) (chain h c).
Proof.
  intros Hc. pattern c. apply chain_ind; [done| |done]. clear c Hc.
  intros n Hn IH. rewrite chain_Some by done. cbn [sum_with]. rewrite <- IH.
  destruct (lookup_lt_is_Some_2 h n Hn) as [nd E]. destruct (Hh n nd E) as (_ & _ & Hb & _).
  unfold owned_of, field_of, parent_of. cbn. rewrite E. cbn. rewrite Hb. done.
Qed.

Lemma owned_nonneg n : 0 <= owned_of h n.
Proof.
  unfold owned_of, field_of. cbn. destruct (h !! n) as [nd|] eqn:E; [|done]. by apply (Hh n nd E).
Qed.
End chains.

(** ** Accounting *)

Section accounting.
Context {Json : Type} (h : Heap) (Hh : heap_wf h).
Implicit Types (rs : gmap string (@Entry Json)) (m : gmap nat Z) (s : @Store Json).

Definition refers (n : nat) (c : ContextRef) : Z := if decide (c = Some n) then 1 else 0.

(** How often the records and the live nodes refer to a node. *)
Definition record_refs rs (n : nat) : Z :=
  map_sum (fun _ e => refers n (sr_context (en_response e))) rs.
Definition child_refs m (n : nat) : Z := map_sum (fun k _ => refers n (parent_of h k)) m.

(** The reference counts and the byte total match the records, up to [k] references to [x] that
    are still to be counted ([-1]) or still to be dropped ([1]). *)
Record accounted rs m (bytes : Z) (x : ContextRef) (k : Z) : Prop := {
  ac_counts : forall n,
    default 0 (m !! n) = record_refs rs n + child_refs m n + k * refers n x;
  ac_range : forall n c, m !! n = Some c -> 1 <= c <= u64_max;
  ac_bytes : bytes = map_sum (fun _ e => en_envelope_bytes e) rs + map_sum (fun n _ => owned_of h n) m;
  ac_heap : forall n, is_Some (m !! n) -> (n < length h)%nat;
}.

Lemma refers_range n c : 0 <= refers n c <= 1.
Proof. unfold refers. case_decide; lia. Qed.

Lemma refers_self n : refers n (Some n) = 1.
Proof. unfold refers. by rewrite decide_True. Qed.

Lemma refers_ne n c : c <> Some n -> refers n c = 0.
Proof. intros. unfold refers. by rewrite decide_False. Qed.

Lemma record_refs_nonneg rs n : 0 <= record_refs rs n.
Proof. apply map_sum_nonneg. intros k e _. apply refers_range. Qed.

Lemma child_refs_nonneg m n : 0 <= child_refs m n.
Proof. apply map_sum_nonneg. intros k e _. apply refers_range. Qed.

Lemma accounted_bytes_nonneg rs m b x k :
  (forall id e, rs !! id = Some e -> 0 <= en_envelope_bytes e) -> accounted rs m b x k -> 0 <= b.
Proof.
  intros He H. rewrite (ac_bytes _ _ _ _ _ H).
  pose proof (map_sum_nonneg (fun _ e => en_envelope_bytes e) rs He).
  pose proof (map_sum_nonneg (fun n _ => owned_of h n) m ltac:(intros; by apply owned_nonneg)). lia.
Qed.

(** A missing reference to a node that is not live: making it live moves the missing reference to
    its parent. *)
Lemma account_activate rs m b n :
  accounted rs m b (Some n) (-1) -> m !! n = None -> (n < length h)%nat ->
  accounted rs (<[n := 1]> m) (b + owned_of h n) (parent_of h n) (-1).
Proof.
  intros [Hc Hr Hb Hl] Hn Hlt. constructor.
  - intros j. unfold child_refs. rewrite map_sum_insert by done. fold (child_refs m j).
    specialize (Hc j). destruct (decide (j = n)) as [->|Hne].
    + rewrite lookup_insert_eq. rewrite Hn, refers_self in Hc. cbn in *. lia.
    + rewrite lookup_insert_ne by done. rewrite refers_ne in Hc by congruence. lia.
  - intros j c. rewrite lookup_insert_Some. intros [[_ <-]|[_ H]]; [lia|eauto].
  - rewrite map_sum_insert by done. lia.
  - intros j [c [[<- _]|[_ H]]%lookup_insert_Some]; [done|eauto].
Qed.

(** A missing reference to a live node is one more reference. *)
Lemma account_bump rs m b n c :
  accounted rs m b (Some n) (-1) -> m !! n = Some c -> c <> u64_max ->
  accounted rs (<[n := c + 1]> m) b None 0.
Proof.
  intros [Hc Hr Hb Hl] Hn Hne. constructor.
  - intros j. unfold child_refs. rewrite (map_sum_update _ _ _ _ _ Hn). fold (child_refs m j).
    specialize (Hc j). destruct (decide (j = n)) as [->|Hj].
    + rewrite lookup_insert_eq. rewrite Hn, refers_self in Hc. cbn in *. lia.
    + rewrite lookup_insert_ne by done. rewrite refers_ne in Hc by congruence. lia.
  - intros j c'. rewrite lookup_insert_Some. specialize (Hr _ _ Hn) as Hrn.
    intros [[_ <-]|[_ H]]; [lia|eauto].
  - rewrite (map_sum_update _ _ _ _ _ Hn). lia.
  - intros j [c' [[<- _]|[_ H]]%lookup_insert_Some]; eauto.
Qed.

Lemma account_none rs m b k : accounted rs m b None k -> accounted rs m b None 0.
Proof.
  intros [Hc Hr Hb Hl]. constructor; [|done..]. intros n. specialize (Hc n).
  rewrite refers_ne in * by done. lia.
Qed.

(** A surplus reference: the node is live. *)
Lemma account_surplus_live rs m b n :
  accounted rs m b (Some n) 1 -> exists c, m !! n = Some c /\ 1 <= c <= u64_max /\
    c = record_refs rs n + child_refs m n + 1.
Proof.
  intros [Hc Hr Hb Hl]. specialize (Hc n). rewrite refers_self in Hc.
  pose proof (record_refs_nonneg rs n). pose proof (child_refs_nonneg m n).
  destruct (m !! n) as [c|] eqn:E; cbn in Hc; [|lia]. exists c. specialize (Hr _ _ E).
  split; [done|lia].
Qed.

Lemma account_decrement rs m b n c :
  accounted rs m b (Some n) 1 -> m !! n = Some c -> c <> 1 -> accounted rs (<[n := c - 1]> m) b None 0.
Proof.
  intros [Hc Hr Hb Hl] Hn Hne. constructor.
  - intros j. unfold child_refs. rewrite (map_sum_update _ _ _ _ _ Hn). fold (child_refs m j).
    specialize (Hc j). destruct (decide (j = n)) as [->|Hj].
    + rewrite lookup_insert_eq. rewrite Hn, refers_self in Hc. cbn in *. lia.
    + rewrite lookup_insert_ne by done. rewrite refers_ne in Hc by congruence. lia.
  - intros j c'. rewrite lookup_insert_Some. specialize (Hr _ _ Hn) as Hrn.
    intros [[_ <-]|[_ H]]; [lia|eauto].
  - rewrite (map_sum_update _ _ _ _ _ Hn). lia.
  - intros j [c' [[<- _]|[_ H]]%lookup_insert_Some]; eauto.
Qed.

(** Dropping the last reference to a node frees it and leaves a surplus reference to its parent. *)
Lemma account_free rs m b n :
  accounted rs m b (Some n) 1 -> m !! n = Some 1 ->
  accounted rs (delete n m) (b - owned_of h n) (parent_of h n) 1.
Proof.
  intros [Hc Hr Hb Hl] Hn. constructor.
  - intros j. unfold child_refs. rewrite (map_sum_delete _ _ _ _ Hn). fold (child_refs m j).
    specialize (Hc j). destruct (decide (j = n)) as [->|Hj].
    + rewrite lookup_delete_eq. rewrite Hn, refers_self in Hc. cbn in *. lia.
    + rewrite lookup_delete_ne by done. rewrite refers_ne in Hc by congruence. lia.
  - intros j c' [_ H]%lookup_delete_Some. eauto.
  - rewrite (map_sum_delete _ _ _ _ Hn). lia.
  - intros j [c' [_ H]%lookup_delete_Some]; eauto.
Qed.

(** Adding or dropping a record leaves its reference to be counted or to be dropped. *)
Lemma account_add_record rs m b id e :
  accounted rs m b None 0 -> rs !! id = None ->
  accounted (<[id := e]> rs) m (b + en_envelope_bytes e) (sr_context (en_response e)) (-1).
Proof.
  intros [Hc Hr Hb Hl] Hid. constructor; [|done| |done].
  - intros n. unfold record_refs. rewrite map_sum_insert by done. fold (record_refs rs n).
    specialize (Hc n). rewrite (refers_ne n None) in Hc by done. lia.
  - rewrite map_sum_insert by done. lia.
Qed.

Lemma account_drop_record rs m b id e :
  accounted rs m b None 0 -> rs !! id = Some e ->
  accounted (delete id rs) m (b - en_envelope_bytes e) (sr_context (en_response e)) 1.
Proof.
  intros [Hc Hr Hb Hl] Hid. constructor; [|done| |done].
  - intros n. unfold record_refs. rewrite (map_sum_delete _ _ _ _ Hid). fold (record_refs rs n).
    specialize (Hc n). rewrite (refers_ne n None) in Hc by done. lia.
  - rewrite (map_sum_delete _ _ _ _ Hid). lia.
Qed.

(** ** Retain and release *)

Lemma set_live_live m b s : live (set_live m b s) = m.
Proof. done. Qed.

Lemma set_live_same s : set_live (live s) (current_bytes s) s = s.
Proof. by destruct s. Qed.

Lemma new_nodes_insert m nodes n c :
  n ∉ nodes -> new_nodes (<[n := c]> m) nodes = new_nodes m nodes.
Proof.
  induction nodes as [|k nodes IH]; intros Hn; [done|].
  apply not_elem_of_cons in Hn as [Hk Hn]. cbn [new_nodes].
  rewrite lookup_insert_ne by done. by rewrite IH.
Qed.

Lemma new_nodes_cursor m nodes : forall fresh k, new_nodes m nodes = (fresh, Some k) -> k ∈ nodes.
Proof.
  induction nodes as [|n nodes IH]; intros fresh k; cbn [new_nodes]; [done|].
  destruct (m !! n); [intros [= _ <-]; left|].
  destruct (new_nodes m nodes) as [fr cu]. intros [= _ ->]. right. by eapply IH.
Qed.

Lemma rollback_cons n inserted s b :
  live s !! n = None -> 0 <= current_bytes s <= u64_max -> b = current_bytes s + owned_of h n ->
  rollback h (n :: inserted) (set_live (<[n := 1]> (live s)) b s) = rollback h inserted s.
Proof.
  intros Hn Hr ->. unfold rollback. cbn [foldl]. f_equal. cbn [live set_live current_bytes].
  change (field_of h nd_owned (Some n)) with (owned_of h n).
  replace (current_bytes s + owned_of h n - owned_of h n) with (current_bytes s) by lia.
  rewrite w64_small, delete_insert_id by (done || lia). by destruct s.
Qed.

(** The parts of the store that retain and release leave alone. *)
Definition same_records s s' : Prop :=
  max_records s' = max_records s /\ max_bytes s' = max_bytes s /\
  records s' = records s /\ lru s' = lru s.

Lemma activate_cons n nodes inserted s :
  activate h (n :: nodes) inserted s =
  match checked_add (current_bytes s) (owned_of h n) with
  | Throw e => (rollback h inserted s, Throw e)
  | Ok b =>
      if bool_decide (is_Some (live s !! n)) then (rollback h inserted s, Throw LogicError)
      else activate h nodes (n :: inserted) (set_live (<[n := 1]> (live s)) b s)
  end.
Proof.
  change (owned_of h n) with (field_of h nd_owned (Some n)).
  cbn [activate]. unfold_M. destruct (checked_add _ _); [|done]. by destruct (bool_decide _).
Qed.

Lemma activate_spec rs c : context_ok h c -> forall s s0 inserted fresh cursor,
  accounted rs (live s) (current_bytes s) c (-1) -> 0 <= current_bytes s <= u64_max ->
  rollback h inserted s = s0 -> new_nodes (live s) (chain h c) = (fresh, cursor) ->
  match activate h fresh inserted s with
  | (s', Ok inserted') =>
      accounted rs (live s') (current_bytes s') cursor (-1) /\ rollback h inserted' s' = s0 /\
      same_records s s' /\ (forall k, cursor = Some k -> is_Some (live s' !! k) /\ live s' !! k = live s !! k) /\
      current_bytes s <= current_bytes s' <= u64_max
  | (s', Throw e) =>
      s' = s0 /\ e = OverflowError /\
      u64_max < current_bytes s + sum_with (owned_of h) (chain h c)
  end.
Proof.
  intros Hc. pattern c. apply (chain_ind h Hh); [| |done]; clear c Hc.
  { intros s s0 inserted fresh cursor Hac Hr Hroll [= <- <-]. cbn.
    split; [done|]. split; [done|]. split; [done|]. split; [done|lia]. }
  intros n Hn IH s s0 inserted fresh cursor Hac Hr Hroll. rewrite chain_Some by done.
  assert (0 <= sum_with (owned_of h) (chain h (parent_of h n))) as Hnn
    by (apply sum_with_nonneg; intros; by apply owned_nonneg).
  pose proof (owned_nonneg h Hh n) as Hown. cbn [new_nodes sum_with].
  destruct (live s !! n) as [v|] eqn:E.
  { intros [= <- <-]. cbn. split; [done|]. split; [done|]. split; [done|].
    split; [intros k [= <-]; split; [by rewrite E|done]|lia]. }
  destruct (new_nodes (live s) (chain h (parent_of h n))) as [fr cu] eqn:En.
  intros [= <- <-]. rewrite activate_cons, checked_add_spec by lia. case_decide as Hle.
  2: { split; [done|]. split; [done|lia]. }
  rewrite bool_decide_eq_false_2 by (rewrite E; by intros [? ?]).
  pose proof (account_activate _ _ _ _ Hac E Hn) as Hac'.
  specialize (IH (set_live (<[n := 1]> (live s)) (current_bytes s + owned_of h n) s) s0
    (n :: inserted) fr cu Hac').
  cbn [current_bytes set_live live] in IH.
  assert (n ∉ chain h (parent_of h n)) as Hnin.
  { intros Hin. pose proof (chain_NoDup h Hh (Some n)) as Hnd.
    rewrite chain_Some in Hnd by done. apply NoDup_cons in Hnd as [? _]; [done|].
    by intros k [= <-]. }
  destruct (activate h fr (n :: inserted) _) as [s' [ins'|e]].
  - destruct IH as (H1 & H2 & H3 & H4 & H5); [lia| |by rewrite new_nodes_insert|].
    { by rewrite rollback_cons by (done || lia). }
    split; [done|]. split; [done|]. split; [done|]. split; [|lia].
    intros k ->. destruct (H4 k eq_refl) as [? E4]. split; [done|]. rewrite E4.
    apply lookup_insert_ne. intros <-. by apply Hnin, (new_nodes_cursor _ _ _ _ En).
  - destruct IH as (H1 & H2 & H3); [lia| |by rewrite new_nodes_insert|].
    { by rewrite rollback_cons by (done || lia). }
    split; [done|]. split; [done|lia].
Qed.

(** [retain_context_locked] either counts the missing reference or leaves the store as it was; it
    fails only on overflow of the byte total or of a reference count. *)
Lemma retain_spec rs s c :
  context_ok h c -> accounted rs (live s) (current_bytes s) c (-1) -> 0 <= current_bytes s <= u64_max ->
  match retain_context_locked h c s with
  | (s', Ok _) =>
      accounted rs (live s') (current_bytes s') None 0 /\ same_records s s' /\
      current_bytes s <= current_bytes s' <= u64_max
  | (s', Throw e) =>
      s' = s /\ e = OverflowError /\
      (u64_max < current_bytes s + sum_with (owned_of h) (chain h c) \/
       exists n, live s !! n = Some u64_max)
  end.
Proof.
  intros Hc Hac Hr. unfold retain_context_locked. destruct c as [n|].
  2: { cbn. split; [by eapply account_none|]. split; [done|lia]. }
  pose proof (activate_spec rs (Some n) Hc s s []) as Hact.
  unfold_M. destruct (live s !! n) as [count|] eqn:E.
  - destruct (Z.eqb_spec count u64_max) as [->|Hne].
    { split; [done|]. split; [done|]. right. by exists n. }
    pose proof (ac_range _ _ _ _ _ Hac _ _ E). rewrite w64_small by lia.
    split; [|split; [done|cbn; lia]]. by apply account_bump.
  - destruct (new_nodes (live s) (chain h (Some n))) as [fresh cursor] eqn:En.
    specialize (Hact fresh cursor Hac Hr eq_refl eq_refl).
    destruct (activate h fresh [] s) as [s' [inserted|e]].
    2: { destruct Hact as (-> & -> & ?). split; [done|]. split; [done|]. by left. }
    destruct Hact as (Hac' & Hroll & Hsame & Hcur & Hb).
    destruct cursor as [k|].
    2: { split; [by eapply account_none|]. split; [done|lia]. }
    destruct (Hcur k eq_refl) as [[count Ek] Ek0]. rewrite Ek.
    destruct (Z.eqb_spec count u64_max) as [->|Hne].
    + split; [done|]. split; [done|]. right. exists k.
      by rewrite <- Ek0, Ek.
    + pose proof (ac_range _ _ _ _ _ Hac' _ _ Ek). rewrite w64_small by lia.
      split; [|split; [done|cbn; lia]]. by apply account_bump.
Qed.

Lemma release_nodes_cons n nodes s :
  release_nodes h (n :: nodes) s =
  match live s !! n with
  | None => (s, Throw LogicError)
  | Some count =>
      if count =? 0 then (s, Throw LogicError)
      else if negb (count =? 1) then (set_live (<[n := count - 1]> (live s)) (current_bytes s) s, Ok tt)
      else if current_bytes s <? owned_of h n then (s, Throw LogicError)
      else release_nodes h nodes (set_live (delete n (live s)) (current_bytes s - owned_of h n) s)
  end.
Proof.
  change (owned_of h n) with (field_of h nd_owned (Some n)).
  cbn [release_nodes]. unfold_M. destruct (live s !! n) as [c|]; [|done].
  destruct (c =? 0); [done|]. destruct (negb _); [done|]. by destruct (_ <? _).
Qed.

(** Releasing a surplus reference never fails. *)
Lemma release_spec rs c : context_ok h c -> forall s,
  (forall id e, rs !! id = Some e -> 0 <= en_envelope_bytes e) ->
  accounted rs (live s) (current_bytes s) c 1 ->
  exists s', release_context_locked h c s = (s', Ok tt) /\
    accounted rs (live s') (current_bytes s') None 0 /\ same_records s s' /\
    current_bytes s' <= current_bytes s.
Proof.
  intros Hc. unfold release_context_locked. pattern c. apply (chain_ind h Hh); [| |done]; clear c Hc.
  { intros s _ Hac. exists s. split; [done|]. split; [by eapply account_none|]. split; [done|lia]. }
  intros n Hn IH s Hrs Hac. rewrite chain_Some by done. rewrite release_nodes_cons.
  destruct (account_surplus_live _ _ _ _ Hac) as (v & Ev & Hv & _). rewrite Ev.
  destruct (Z.eqb_spec v 0); [lia|]. destruct (Z.eqb_spec v 1) as [->|Hne]; cbn [negb].
  2: { eexists. split; [reflexivity|]. split; [by apply account_decrement|]. split; [done|cbn; lia]. }
  pose proof (account_free _ _ _ _ Hac Ev) as Hac'.
  pose proof (accounted_bytes_nonneg _ _ _ _ _ Hrs Hac'). pose proof (owned_nonneg h Hh n).
  destruct (Z.ltb_spec (current_bytes s) (owned_of h n)); [lia|].
  destruct (IH (set_live (delete n (live s)) (current_bytes s - owned_of h n) s) Hrs Hac')
    as (s' & E & Hac2 & Hsame & Hle).
  exists s'. split; [done|]. split; [done|]. split; [done|]. cbn [current_bytes set_live] in Hle. lia.
Qed.

(** ** The live nodes are the nodes the records reach *)

Lemma live_reachable rs m b n :
  accounted rs m b None 0 -> (forall id e, rs !! id = Some e -> context_ok h (sr_context (en_response e))) ->
  is_Some (m !! n) <->
  exists id e, rs !! id = Some e /\ n ∈ chain h (sr_context (en_response e)).
Proof.
  intros Hac Hctx. split.
  - intros Hn. pose proof (ac_heap _ _ _ _ _ Hac n Hn) as Hlt. revert Hn.
    remember (length h - n)%nat as d eqn:Hd. revert n Hd Hlt.
    induction d as [d IH] using lt_wf_ind. intros n -> Hlt [v Hv].
    pose proof (ac_range _ _ _ _ _ Hac _ _ Hv). pose proof (ac_counts _ _ _ _ _ Hac n) as Hcnt.
    rewrite Hv in Hcnt. cbn in Hcnt.
    destruct (decide (0 < record_refs rs n)) as [Hp|Hp].
    + apply map_sum_positive in Hp as (id & e & He & Hr). exists id, e. split; [done|].
      unfold refers in Hr. case_decide as Hcn; [|lia]. rewrite Hcn, chain_Some by done. left.
    + assert (0 < child_refs m n) as Hk by lia.
      apply map_sum_positive in Hk as (k & v' & Hk & Hr). unfold refers in Hr.
      case_decide as Hpar; [|lia]. pose proof (parent_lt h Hh k n Hpar).
      pose proof (ac_heap _ _ _ _ _ Hac k ltac:(by eexists)).
      destruct (IH (length h - k)%nat ltac:(lia) k eq_refl ltac:(done) ltac:(by eexists))
        as (id & e & He & Hin).
      exists id, e. split; [done|]. eapply chain_parent; eauto.
  - intros (id & e & He & Hin). specialize (Hctx id e He).
    assert (forall j, 0 < record_refs rs j + child_refs m j -> is_Some (m !! j)) as Hpos.
    { intros j Hj. pose proof (ac_counts _ _ _ _ _ Hac j) as Hcnt.
      destruct (m !! j) as [v|] eqn:E; [by eexists|]. cbn in Hcnt. lia. }
    assert (forall c, context_ok h c -> (forall j, c = Some j -> is_Some (m !! j)) ->
      n ∈ chain h c -> is_Some (m !! n)) as Hwalk.
    { intros c Hc. pattern c. apply (chain_ind h Hh); [by intros _ ?%not_elem_of_nil| |done].
      intros j Hj IH Hlive. rewrite chain_Some by done. intros [->|Hn]%elem_of_cons; [by apply Hlive|].
      apply IH; [|done]. intros p Hp. apply Hpos. pose proof (record_refs_nonneg rs p).
      destruct (Hlive j eq_refl) as [v Hv].
      pose proof (map_sum_elem (fun k _ => refers p (parent_of h k)) m j v
        ltac:(intros; apply refers_range) Hv) as Hle. cbv beta in Hle.
      fold (child_refs m p) in Hle. rewrite Hp, refers_self in Hle. lia. }
    apply (Hwalk _ Hctx); [|done]. intros j Hj. apply Hpos. pose proof (child_refs_nonneg m j).
    pose proof (map_sum_elem (fun _ e => refers j (sr_context (en_response e))) rs id e
      ltac:(intros; apply refers_range) He) as Hle. cbv beta in Hle.
    fold (record_refs rs j) in Hle. rewrite Hj, refers_self in Hle. lia.
Qed.

(** The bytes a set of records takes: their envelopes and the nodes their contexts reach, once. *)
Definition reach rs : gset nat :=
  map_fold (fun _ e acc => list_to_set (chain h (sr_context (en_response e))) ∪ acc) ∅ rs.

Definition footprint rs : Z :=
  map_sum (fun _ e => en_envelope_bytes e) rs + sum_with (owned_of h) (elements (reach rs)).

Lemma elem_of_reach rs n :
  n ∈ reach rs <-> exists id e, rs !! id = Some e /\ n ∈ chain h (sr_context (en_response e)).
Proof.
  unfold reach. apply (map_fold_weak_ind (fun acc rs => n ∈ acc <-> exists id e,
    rs !! id = Some e /\ n ∈ chain h (sr_context (en_response e)))).
  - split; [by intros ?%elem_of_empty|]. intros (id & e & He & _). by rewrite lookup_empty in He.
  - intros id e rs' acc Hid IH. rewrite elem_of_union, elem_of_list_to_set, IH. split.
    + intros [Hn|(id' & e' & He' & Hn)].
      * exists id, e. by rewrite lookup_insert_eq.
      * exists id', e'. split; [|done]. rewrite lookup_insert_ne by congruence. done.
    + intros (id' & e' & [[<- <-]|[Hne He']]%lookup_insert_Some & Hn); [by left|].
      right. by exists id', e'.
Qed.

Lemma accounted_footprint rs m b :
  accounted rs m b None 0 -> (forall id e, rs !! id = Some e -> context_ok h (sr_context (en_response e))) ->
  b = footprint rs.
Proof.
  intros Hac Hctx. rewrite (ac_bytes _ _ _ _ _ Hac). unfold footprint. f_equal.
  unfold map_sum. transitivity (sum_with (owned_of h) (map_to_list m).*1).
  { induction (map_to_list m) as [|p l IH]; [done|]. cbn. by rewrite IH. }
  apply sum_with_perm. apply NoDup_Permutation; [apply NoDup_fst_map_to_list|apply NoDup_elements|].
  intros n. rewrite elem_of_elements, elem_of_reach, <- (live_reachable rs m b n Hac Hctx).
  rewrite list_elem_of_fmap. split.
  - intros ([k v] & -> & Hk%elem_of_map_to_list). by eexists.
  - intros [v Hv]. exists (n, v). split; [done|]. by apply elem_of_map_to_list.
Qed.
End accounting.
