(* ===== verification/ResponsesStoreSpec.v ===== *)
(** * The Responses store: eviction, insertion and sessions *)

From stdpp Require Import gmap strings.
From S2P Require Import Prelude MapSums ResponsesStore ResponsesStoreInvariant.
Open Scope Z_scope.

Section spec.
Context {Json : Type} (dump : Json -> string) (is_object : Json -> bool).
Implicit Types (rs : gmap string (@Entry Json)) (s : @Store Json).

(** ** The store's consistency *)

Record store_ok (h : Heap) s : Prop := {
  so_account : accounted h (records s) (live s) (current_bytes s) None 0;
  so_NoDup : NoDup (lru s);
  so_ids : forall id, id ∈ lru s <-> is_Some (records s !! id);
  so_entries : forall id e, records s !! id = Some e ->
    sr_id (en_response e) = id /\ 0 <= en_envelope_bytes e /\ context_ok h (sr_context (en_response e));
}.

(** The records whose ids are in the list. *)
Definition restrict rs (ids : list string) : gmap string Entry := filter (fun p => p.1 ∈ ids) rs.

Lemma restrict_lookup rs ids id :
  restrict rs ids !! id = if decide (id ∈ ids) then rs !! id else None.
Proof.
  unfold restrict. case_decide as Hin.
  - destruct (rs !! id) as [e|] eqn:E.
    + by apply map_lookup_filter_Some.
    + apply map_lookup_filter_None. by left.
  - apply map_lookup_filter_None. right. by intros e _.
Qed.

Lemma restrict_all h s : store_ok h s -> restrict (records s) (lru s) = records s.
Proof.
  intros Hs. apply map_eq. intros id. rewrite restrict_lookup. case_decide as Hin; [done|].
  destruct (records s !! id) as [e|] eqn:E; [|done]. destruct Hin. apply (so_ids h s Hs). by eexists.
Qed.

Lemma elem_of_lru_remove id k l : k ∈ lru_remove id l <-> k <> id /\ k ∈ l.
Proof. unfold lru_remove. by rewrite list_elem_of_filter. Qed.

Lemma lru_remove_notin id l : id ∉ l -> lru_remove id l = l.
Proof.
  intros Hn. unfold lru_remove. induction l as [|x l IH]; [done|].
  apply not_elem_of_cons in Hn as [Hne Hn]. rewrite filter_cons_True by congruence. by rewrite IH.
Qed.

Lemma lru_remove_last id l : id ∉ l -> lru_remove id (l ++ [id]) = l.
Proof.
  intros Hn. unfold lru_remove. rewrite filter_app, filter_cons_False, filter_nil, app_nil_r by auto.
  by apply lru_remove_notin.
Qed.

Lemma size_lru h s : store_ok h s -> record_count s = Z.of_nat (length (lru s)).
Proof.
  intros Hs. unfold record_count. f_equal.
  rewrite <- (size_dom (D := gset string)), <- (size_list_to_set (C := gset string) (lru s)) by apply Hs.
  f_equal. apply set_eq. intros id. rewrite elem_of_dom, elem_of_list_to_set. symmetry. apply Hs.
Qed.

Lemma contexts_ok h s :
  store_ok h s -> forall id e, records s !! id = Some e -> context_ok h (sr_context (en_response e)).
Proof. intros Hs id e He. by apply (so_entries h s Hs id e). Qed.

Lemma envelopes_nonneg h s :
  store_ok h s -> forall id e, records s !! id = Some e -> 0 <= en_envelope_bytes e.
Proof. intros Hs id e He. by apply (so_entries h s Hs id e). Qed.

(** The byte total is a function of the records. *)
Lemma bytes_footprint h s : heap_wf h -> store_ok h s -> current_bytes s = footprint h (records s).
Proof. intros Hh Hs. eapply accounted_footprint; [done|apply Hs|by apply contexts_ok]. Qed.

(** ** Erasing *)

Lemma erase_locked_spec h s id e :
  heap_wf h -> store_ok h s -> records s !! id = Some e ->
  exists s', erase_locked h id s = (s', Ok tt) /\ store_ok h s' /\
    records s' = delete id (records s) /\ lru s' = lru_remove id (lru s) /\
    max_records s' = max_records s /\ max_bytes s' = max_bytes s /\ current_bytes s' <= current_bytes s.
Proof.
  intros Hh Hs He. destruct (so_entries h s Hs id e He) as (Hid & Henv & Hctx).
  pose proof (account_drop_record h _ _ _ _ _ (so_account h s Hs) He) as Hac.
  assert (forall k e', delete id (records s) !! k = Some e' -> 0 <= en_envelope_bytes e') as Hrs.
  { intros k e' [_ H]%lookup_delete_Some. by apply (envelopes_nonneg h s Hs k). }
  pose proof (accounted_bytes_nonneg h Hh _ _ _ _ _ Hrs Hac) as Hnn.
  destruct (release_spec h Hh (delete id (records s)) _ Hctx
    (set_live (live s) (current_bytes s - en_envelope_bytes e) s) Hrs Hac)
    as (s2 & Hrel & Hac2 & (Hmr & Hmb & Hrec & Hlru) & Hle).
  unfold erase_locked. unfold_M. rewrite He.
  destruct (Z.ltb_spec (current_bytes s) (en_envelope_bytes e)); [lia|]. rewrite Hrel.
  cbn [records lru set_live max_records max_bytes current_bytes] in *.
  eexists. split; [reflexivity|].
  assert (NoDup (lru_remove id (lru s))) as Hnd by apply NoDup_filter, Hs.
  cbn [records lru set_records max_records max_bytes current_bytes live]. rewrite Hrec, Hlru.
  split; [|split; [done|]; split; [done|]; split; [done|]; split; [done|lia]].
  constructor; cbn [records lru set_records max_records max_bytes current_bytes live].
  - done.
  - done.
  - intros k. rewrite elem_of_lru_remove, (so_ids h s Hs). rewrite lookup_delete_is_Some. split; intros [? ?]; split; congruence || done.
  - intros k e' [_ H']%lookup_delete_Some. by apply (so_entries h s Hs).
Qed.

(** ** Eviction *)

(** Keeping these ids respects both limits. *)
Definition fits (h : Heap) rs (max_records max_bytes : Z) (ids : list string) : Prop :=
  Z.of_nat (length ids) <= max_records /\ footprint h (restrict rs ids) <= max_bytes.

Lemma over_limit_fits h s :
  heap_wf h -> store_ok h s ->
  over_limit s = false <-> fits h (records s) (max_records s) (max_bytes s) (lru s).
Proof.
  intros Hh Hs. unfold over_limit, fits. rewrite (restrict_all h s Hs), <- (bytes_footprint h s Hh Hs).
  rewrite orb_false_iff, !Z.ltb_ge, (size_lru h s Hs). done.
Qed.

(** The loop evicts from the least recently used end until the rest fits, and never the new record. *)
Lemma evict_spec h own : heap_wf h -> forall fuel s l,
  store_ok h s -> lru s = own :: l -> (length l <= fuel)%nat ->
  fits h (records s) (max_records s) (max_bytes s) [own] ->
  exists s' k, evict h own fuel s = (s', Ok tt) /\ store_ok h s' /\
    max_records s' = max_records s /\ max_bytes s' = max_bytes s /\ (k <= length l)%nat /\
    lru s' = own :: take k l /\ records s' = restrict (records s) (own :: take k l) /\
    fits h (records s) (max_records s) (max_bytes s) (own :: take k l) /\
    (forall j, (k < j <= length l)%nat ->
       ~ fits h (records s) (max_records s) (max_bytes s) (own :: take j l)).
Proof.
  intros Hh. induction fuel as [|fuel IH]; intros s l Hs Hl Hfuel Hown.
  all: pose proof (over_limit_fits h s Hh Hs) as Hover; rewrite Hl in Hover.
  - destruct l; [|cbn in Hfuel; lia]. cbn [evict]. unfold_M. rewrite (proj2 Hover Hown).
    exists s, 0%nat. change (take 0 []) with (@nil string). split; [done|]. split; [done|]. split; [done|]. split; [done|].
    split; [done|]. split; [done|]. split; [by rewrite <- Hl, (restrict_all h s)|].
    split; [done|]. cbn. lia.
  - cbn [evict]. unfold_M. destruct (over_limit s) eqn:E.
    + destruct l as [|v l _] using rev_ind; [by apply Hover in Hown|].
      pose proof (so_NoDup h s Hs) as Hnd. rewrite Hl in Hnd.
      apply NoDup_cons in Hnd as [Hin Hnd]. apply NoDup_app in Hnd as (Hndl & Hdis & _).
      assert (v <> own) as Hne by (intros ->; apply Hin, elem_of_app; right; left).
      assert (v ∉ l) as Hvl by (intros Hv; apply (Hdis v Hv); left).
      unfold choose_victim. rewrite Hl. rewrite reverse_cons, reverse_snoc. cbn [app].
      rewrite bool_decide_eq_false_2 by done.
      destruct (so_ids h s Hs v) as [Hv _].
      destruct Hv as [e He]; [rewrite Hl; right; apply elem_of_app; right; left|].
      destruct (erase_locked_spec h s v e Hh Hs He) as (s1 & -> & Hs1 & Hr1 & Hl1 & Hmr & Hmb & _).
      rewrite Hl in Hl1. change (own :: l ++ [v]) with ((own :: l) ++ [v]) in Hl1.
      rewrite lru_remove_last in Hl1.
      2: { intros [->|?]%elem_of_cons; done. }
      assert (forall ids, v ∉ ids -> restrict (records s1) ids = restrict (records s) ids) as Hres.
      { intros ids Hids. apply map_eq. intros id. rewrite !restrict_lookup. case_decide; [|done].
        rewrite Hr1. apply lookup_delete_ne. congruence. }
      assert (forall j, v ∉ own :: take j l) as Hvj.
      { intros j [->|Hj]%elem_of_cons; [done|]. apply Hvl. eapply elem_of_take in Hj.
        destruct Hj as (i & Hi & _). by eapply list_elem_of_lookup_2. }
      destruct (IH s1 l Hs1 Hl1) as (s' & k & -> & Hs' & Hmr' & Hmb' & Hk & Hl' & Hr' & Hfit & Hmin).
      { rewrite length_app in Hfuel. cbn in Hfuel. lia. }
      { rewrite Hmr, Hmb. destruct Hown. split; [done|]. rewrite (Hres [own]); [done|].
        intros [->|?%not_elem_of_nil]%elem_of_cons; done. }
      assert (forall j, (j <= length l)%nat -> take j (l ++ [v]) = take j l) as Htake.
      { intros j Hj. by apply take_app_le. }
      exists s', k. split; [done|]. split; [done|]. split; [congruence|]. split; [congruence|].
      split; [rewrite length_app; lia|]. rewrite Htake by done. split; [done|].
      split; [by rewrite Hr', Hres|].
      unfold fits in *. rewrite Hmr, Hmb, Hres in Hfit by done.
      split; [done|]. intros j Hj. destruct (decide (j <= length l)%nat) as [Hjl|Hjl].
      * rewrite Htake by done. specialize (Hmin j ltac:(lia)). by rewrite Hmr, Hmb, Hres in Hmin by done.
      * rewrite length_app in Hj. cbn in Hj.
        rewrite take_ge by (rewrite length_app; cbn; lia). intros Hbad. by apply Hover in Hbad.
    + exists s, (length l). rewrite take_ge by done. split; [done|]. split; [done|]. split; [done|].
      split; [done|]. split; [done|]. split; [done|].
      split; [by rewrite <- Hl, (restrict_all h s)|]. split; [by apply Hover|lia].
Qed.

(** ** Insertion *)

Record store_inv (h : Heap) s : Prop := {
  si_ok : store_ok h s;
  si_records : record_count s <= max_records s;
  si_bytes : current_bytes s <= max_bytes s;
  si_limits : 1 <= max_records s /\ 0 <= max_bytes s;
}.

(** The limits leave the 64-bit counters room. *)
Definition room (h : Heap) s : Prop :=
  2 * max_bytes s <= u64_max /\ Z.of_nat (length h) + max_records s + 2 < u64_max.

Lemma record_envelope_range z (r : @StoredOpenAIResponse Json) :
  0 <= record_envelope_bytes dump z r <= u64_max.
Proof.
  unfold record_envelope_bytes. pose proof (w64_range (sizeof_StoredOpenAIResponse z +
    str_size (sr_id r) + str_size (sr_session_key r) + str_size (dump (sr_response r)))) as H.
  revert H. generalize (w64 (sizeof_StoredOpenAIResponse z + str_size (sr_id r) +
    str_size (sr_session_key r) + str_size (dump (sr_response r)))).
  induction (sr_input_items r) as [|x l IH]; intros b H; [done|]. cbn [foldl]. apply IH, w64_range.
Qed.

Lemma footprint_single h id (e : @Entry Json) :
  heap_wf h -> context_ok h (sr_context (en_response e)) ->
  footprint h {[id := e]} = en_envelope_bytes e + field_of h nd_cumulative_bytes (sr_context (en_response e)).
Proof.
  intros Hh Hc. unfold footprint. rewrite (chain_bytes h Hh _ Hc).
  rewrite <- insert_empty, map_sum_insert, map_sum_empty by apply lookup_empty.
  assert (sum_with (owned_of h) (elements (reach h (<[id := e]> ∅))) =
          sum_with (owned_of h) (chain h (sr_context (en_response e)))) as ->; [|lia].
  apply sum_with_perm, NoDup_Permutation; [apply NoDup_elements|by apply chain_NoDup|].
  intros n. rewrite elem_of_elements, elem_of_reach. split.
  - intros (id' & e' & He & Hn). by rewrite insert_empty, lookup_singleton_Some in He; destruct He as [_ <-].
  - intros Hn. exists id, e. by rewrite lookup_insert_eq.
Qed.

(** No reference count is near the end of its range. *)
Lemma counts_bounded h rs m b x k n c :
  accounted h rs m b x k -> k <= 1 -> m !! n = Some c -> c <= Z.of_nat (size rs) + Z.of_nat (length h) + 1.
Proof.
  intros Hac Hk Hn. pose proof (ac_counts _ _ _ _ _ _ Hac n) as Hc. rewrite Hn in Hc. cbn in Hc.
  assert (record_refs rs n <= Z.of_nat (size rs)) by (apply map_sum_size; intros; apply refers_range).
  assert (child_refs h m n <= Z.of_nat (size m)) by (apply map_sum_size; intros; apply refers_range).
  assert (size m <= length h)%nat.
  { rewrite <- (size_dom (D := gset nat)).
    rewrite <- (length_seq (length h) 0), <- (size_list_to_set (C := gset nat)) by apply NoDup_seq.
    apply subseteq_size. intros j. rewrite elem_of_dom, elem_of_list_to_set, elem_of_seq.
    intros Hj%(ac_heap _ _ _ _ _ _ Hac). lia. }
  pose proof (refers_range n x). nia.
Qed.

(** The accounting step of [put] on a store that holds the new record but has not counted it. *)
Lemma account_spec h s r e :
  heap_wf h -> store_inv h s -> room h s -> records s !! sr_id r = None -> context_ok h (sr_context r) ->
  en_response e = r -> 0 <= en_envelope_bytes e ->
  en_envelope_bytes e + field_of h nd_cumulative_bytes (sr_context r) <= max_bytes s ->
  exists s', account h (sr_id r) (en_envelope_bytes e) (sr_context r)
      (set_records (<[sr_id r := e]> (records s)) (sr_id r :: lru s) s) = (s', Ok tt) /\
    store_ok h s' /\ max_records s' = max_records s /\ max_bytes s' = max_bytes s /\
    records s' = <[sr_id r := e]> (records s) /\ lru s' = sr_id r :: lru s.
Proof.
  intros Hh [Hs Hcount Hbytes [Hl1 Hl2]] [Hr1 Hr2] Hfresh Hctx <- Henv Hsize. set (r := en_response e) in *.
  pose proof (accounted_bytes_nonneg h Hh _ _ _ _ _ (envelopes_nonneg h s Hs) (so_account h s Hs)) as Hnn.
  pose proof (sum_with_nonneg (owned_of h) (chain h (sr_context r)) (owned_nonneg h Hh)) as Hchain.
  rewrite (chain_bytes h Hh _ Hctx) in Hsize.
  pose proof (account_add_record h _ _ _ _ e (so_account h s Hs) Hfresh) as Hac.
  unfold account. cbn [current_bytes set_records live].
  rewrite checked_add_spec, decide_True by lia.
  set (s1 := set_live (live s) (current_bytes s + en_envelope_bytes e)
    (set_records (<[sr_id r := e]> (records s)) (sr_id r :: lru s) s)).
  assert (0 <= current_bytes s1 <= u64_max) as Hr
    by (change (current_bytes s1) with (current_bytes s + en_envelope_bytes e); lia).
  pose proof (retain_spec h Hh (<[sr_id r := e]> (records s)) s1 (sr_context r) Hctx Hac Hr) as Hret.
  destruct (retain_context_locked h (sr_context r) s1) as [s' [[]|ex]].
  - destruct Hret as (Hac' & (Hm & Hb & Hrec & Hlru) & _). exists s'.
    split; [done|]. split; [|split; [done|]; split; [done|]; split; done].
    constructor.
    + rewrite Hrec. exact Hac'.
    + rewrite Hlru. cbn. constructor; [|apply Hs]. intros Hin%(so_ids h s Hs).
      rewrite Hfresh in Hin. by destruct Hin.
    + intros id. rewrite Hlru, Hrec. cbn. rewrite elem_of_cons, (so_ids h s Hs).
      destruct (decide (id = sr_id r)) as [->|Hne].
      * rewrite lookup_insert_eq. split; [by eexists|by left].
      * rewrite lookup_insert_ne by congruence. split; [by intros [?|?]|by right].
    + intros id e'. rewrite Hrec. cbn. intros [[<- <-]|[_ He']]%lookup_insert_Some; [done|].
      by apply (so_entries h s Hs).
  - exfalso. destruct Hret as (_ & _ & [Hov|(n & Hn)]).
    { change (current_bytes s1) with (current_bytes s + en_envelope_bytes e) in Hov. lia. }
    change (live s1) with (live s) in Hn.
    pose proof (counts_bounded h _ _ _ _ _ n u64_max Hac ltac:(lia) Hn) as Hb.
    rewrite map_size_insert_None in Hb by done. unfold record_count in Hcount. lia.
Qed.

Definition malformed (r : @StoredOpenAIResponse Json) : bool :=
  bool_decide (sr_id r = "") || bool_decide (sr_session_key r = "") ||
  (256 <? str_size (sr_session_key r)) || negb (is_object (sr_response r)).

(** The bytes the record would take alone. *)
Definition alone_bytes (z : Sizes) (h : Heap) (r : @StoredOpenAIResponse Json) : Z :=
  record_envelope_bytes dump z r + field_of h nd_cumulative_bytes (sr_context r).

Lemma put_unfold z h r s :
  store_inv h s -> heap_wf h -> context_ok h (sr_context r) ->
  put dump is_object z h r s =
  if malformed r then (s, Throw InvalidArgument)
  else if max_bytes s <? alone_bytes z h r then (s, Throw ApiError)
  else if bool_decide (is_Some (records s !! sr_id r)) then (s, Throw LogicError)
  else
    match account h (sr_id r) (record_envelope_bytes dump z r) (sr_context r)
      (set_records (<[sr_id r := mkEntry r (record_envelope_bytes dump z r)]> (records s))
         (sr_id r :: lru s) s) with
    | (s, Ok _) => evict h (sr_id r) (size (records s)) s
    | (s, Throw e) => (s, Throw e)
    end.
Proof.
  intros Hs Hh Hc. unfold put, malformed, alone_bytes. unfold_M.
  destruct (bool_decide _ || _ || _ || _); [done|].
  pose proof (record_envelope_range z r).
  pose proof (chain_bytes h Hh _ Hc).
  pose proof (sum_with_nonneg (owned_of h) (chain h (sr_context r)) (owned_nonneg h Hh)).
  assert ((max_bytes s <? record_envelope_bytes dump z r)
    || (max_bytes s - record_envelope_bytes dump z r <? field_of h nd_cumulative_bytes (sr_context r))
    = (max_bytes s <? record_envelope_bytes dump z r + field_of h nd_cumulative_bytes (sr_context r))) as ->.
  { destruct (Z.ltb_spec (max_bytes s) (record_envelope_bytes dump z r)),
      (Z.ltb_spec (max_bytes s - record_envelope_bytes dump z r) (field_of h nd_cumulative_bytes (sr_context r))),
      (Z.ltb_spec (max_bytes s) (record_envelope_bytes dump z r + field_of h nd_cumulative_bytes (sr_context r)));
      try done; lia. }
  destruct (_ <? _); [done|]. by destruct (bool_decide _).
Qed.

Lemma put_spec z h r s :
  heap_wf h -> store_inv h s -> room h s -> context_ok h (sr_context r) ->
  match put dump is_object z h r s with
  | (s', Throw e) =>
      s' = s /\
      (e = InvalidArgument /\ malformed r = true \/
       e = ApiError /\ malformed r = false /\ max_bytes s < alone_bytes z h r \/
       e = LogicError /\ malformed r = false /\ is_Some (records s !! sr_id r))
  | (s', Ok _) =>
      malformed r = false /\ alone_bytes z h r <= max_bytes s /\ records s !! sr_id r = None /\
      store_inv h s' /\ max_records s' = max_records s /\ max_bytes s' = max_bytes s /\
      let rs := <[sr_id r := mkEntry r (record_envelope_bytes dump z r)]> (records s) in
      exists k, (k <= length (lru s))%nat /\ lru s' = sr_id r :: take k (lru s) /\
        records s' = restrict rs (sr_id r :: take k (lru s)) /\
        fits h rs (max_records s) (max_bytes s) (sr_id r :: take k (lru s)) /\
        forall j, (k < j <= length (lru s))%nat ->
          ~ fits h rs (max_records s) (max_bytes s) (sr_id r :: take j (lru s))
  end.
Proof.
  intros Hh Hs Hroom Hctx. rewrite put_unfold by done.
  destruct (malformed r) eqn:Hmal; [split; [done|by left]|].
  destruct (Z.ltb_spec (max_bytes s) (alone_bytes z h r)) as [Hbig|Hsize].
  { split; [done|]. right. by left. }
  destruct (records s !! sr_id r) as [e0|] eqn:Hid.
  { rewrite bool_decide_eq_true_2 by by eexists. split; [done|]. right. right. by eauto. }
  rewrite bool_decide_eq_false_2 by by intros [? ?].
  set (e := mkEntry r (record_envelope_bytes dump z r)).
  destruct (account_spec h s r e Hh Hs Hroom Hid Hctx eq_refl) as (s1 & E & Hs1 & Hmr & Hmb & Hrec & Hlru);
    [apply record_envelope_range|exact Hsize|].
  change (record_envelope_bytes dump z r) with (en_envelope_bytes e). rewrite E.
  destruct (si_limits h s Hs) as [Hm1 Hm2].
  destruct (evict_spec h (sr_id r) Hh (size (records s1)) s1 (lru s) Hs1 Hlru)
    as (s' & k & -> & Hs' & Hmr' & Hmb' & Hk & Hl' & Hr' & Hfit & Hmin).
  { pose proof (size_lru h s1 Hs1) as Hsz. unfold record_count in Hsz. rewrite Hlru in Hsz.
    cbn [length] in Hsz. lia. }
  { split; [rewrite Hmr; cbn; lia|]. rewrite Hrec, Hmb.
    assert (restrict (<[sr_id r := e]> (records s)) [sr_id r] = {[sr_id r := e]}) as ->.
    { apply map_eq. intros id. rewrite restrict_lookup. destruct (decide (id = sr_id r)) as [->|Hne].
      - rewrite decide_True by left. by rewrite lookup_insert_eq, lookup_singleton_eq.
      - rewrite decide_False; [by rewrite lookup_singleton_ne|].
        intros [?|?%not_elem_of_nil]%elem_of_cons; done. }
    rewrite footprint_single by done. exact Hsize. }
  rewrite Hrec in Hr'. rewrite Hrec, Hmr, Hmb in Hfit, Hmin. rewrite Hmr in Hmr'. rewrite Hmb in Hmb'.
  split; [done|]. split; [done|]. split; [done|].
  split; [|split; [done|split; [done|by exists k]]].
  destruct Hfit as [Hf1 Hf2]. constructor; [done| | |by rewrite Hmr', Hmb'].
  - rewrite (size_lru h s' Hs'), Hl', Hmr'. exact Hf1.
  - rewrite (bytes_footprint h s' Hh Hs'), Hr', Hmb'. exact Hf2.
Qed.

(** C31: [put] is an LRU insertion with exact error behaviour. It refuses a malformed response, one
    that alone exceeds the byte limit, and a duplicate id, each with its exception and without
    changing the store. Otherwise it succeeds: the internal overflow and accounting checks never
    fire and the eviction loop stops; the new response is the most recently used one, the kept ones
    are the longest most-recent part of the old list that fits both limits together with it, and
    the store's invariant holds again. *)
Theorem put_evicts_lru z h r s :
  heap_wf h -> store_inv h s -> room h s -> context_ok h (sr_context r) ->
  match put dump is_object z h r s with
  | (s', Throw e) =>
      s' = s /\
      (e = InvalidArgument /\ malformed r = true \/
       e = ApiError /\ malformed r = false /\ max_bytes s < alone_bytes z h r \/
       e = LogicError /\ malformed r = false /\ is_Some (records s !! sr_id r))
  | (s', Ok _) =>
      malformed r = false /\ alone_bytes z h r <= max_bytes s /\ records s !! sr_id r = None /\
      store_inv h s' /\
      let rs := <[sr_id r := mkEntry r (record_envelope_bytes dump z r)]> (records s) in
      exists k, (k <= length (lru s))%nat /\ lru s' = sr_id r :: take k (lru s) /\
        records s' = restrict rs (sr_id r :: take k (lru s)) /\
        fits h rs (max_records s) (max_bytes s) (sr_id r :: take k (lru s)) /\
        forall j, (k < j <= length (lru s))%nat ->
          ~ fits h rs (max_records s) (max_bytes s) (sr_id r :: take j (lru s))
  end.
Proof.
  intros Hh Hs Hroom Hctx. pose proof (put_spec z h r s Hh Hs Hroom Hctx) as H.
  destruct (put dump is_object z h r s) as [s' [u|e]]; [|exact H].
  destruct H as (? & ? & ? & ? & _ & _ & ?). auto.
Qed.

(** ** Sessions *)

(** The heap a session starts with is empty; it grows as contexts are appended. *)
Record World := mkWorld { w_heap : Heap; w_store : @Store Json }.

Inductive StoreOp :=
  | OpAppend (parent : ContextRef) (turns : list ChatTurn)
  | OpPut (r : @StoredOpenAIResponse Json)
  | OpGet (id : string)
  | OpErase (id : string).

(** The contexts a call names exist. *)
Definition op_ok (w : World) (op : StoreOp) : Prop :=
  match op with
  | OpAppend parent _ => context_ok (w_heap w) parent
  | OpPut r => context_ok (w_heap w) (sr_context r)
  | _ => True
  end.

Definition store_step (z : Sizes) (w : World) (op : StoreOp) : World :=
  match op with
  | OpAppend parent turns =>
      mkWorld (append_openai_response_context z parent turns (w_heap w)).1 (w_store w)
  | OpPut r => mkWorld (w_heap w) (put dump is_object z (w_heap w) r (w_store w)).1
  | OpGet id => mkWorld (w_heap w) (get id (w_store w)).1
  | OpErase id => mkWorld (w_heap w) (erase (w_heap w) id (w_store w)).1
  end.

Fixpoint store_run (z : Sizes) (w : World) (ops : list StoreOp) : World :=
  match ops with [] => w | op :: ops => store_run z (store_step z w op) ops end.

Fixpoint ops_ok (z : Sizes) (w : World) (ops : list StoreOp) : Prop :=
  match ops with [] => True | op :: ops => op_ok w op /\ ops_ok z (store_step z w op) ops end.

Lemma get_inv h s id : store_inv h s -> store_inv h (get id s).1.
Proof.
  intros Hs. unfold get. destruct (records s !! id) as [e|] eqn:E; [|done]. cbn.
  destruct Hs as [[Ha Hn Hi He] H2 H3 H4].
  assert (id ∈ lru s) as Hin by (apply Hi; by eexists).
  constructor; [|done..]. constructor; cbn [lru records live current_bytes set_records]; [done| | |done].
  - constructor; [by intros [? _]%elem_of_lru_remove|]. by apply NoDup_filter.
  - intros k. rewrite elem_of_cons, elem_of_lru_remove, <- Hi.
    destruct (decide (k = id)) as [->|]; [|tauto]. tauto.
Qed.

Lemma erase_inv h s id : heap_wf h -> store_inv h s -> store_inv h (erase h id s).1.
Proof.
  intros Hh Hs. unfold erase. unfold_M. destruct (records s !! id) as [e|] eqn:E; [|done].
  destruct (erase_locked_spec h s id e Hh (si_ok h s Hs) E) as (s' & -> & Hs' & Hr & Hl & Hm1 & Hm2 & Hb).
  destruct Hs as [Hok H2 H3 H4]. cbn. constructor; [done| | |by rewrite Hm1, Hm2].
  - unfold record_count in *. rewrite Hr, Hm1, map_size_delete_Some by by eexists. lia.
  - lia.
Qed.

(** *** Appending a node *)

Definition sizes_ok (z : Sizes) : Prop := 0 <= sizeof_Node z <= u64_max.

Lemma owned_fold_range z turns : forall b,
  0 <= b <= u64_max -> 0 <= foldl (fun bytes turn => w64 (bytes + estimate_turn_bytes z turn)) b turns <= u64_max.
Proof. induction turns as [|t turns IH]; intros b Hb; [done|]. cbn [foldl]. apply IH, w64_range. Qed.

Lemma field_app h nd f c : context_ok h c -> field_of (h ++ [nd]) f c = field_of h f c.
Proof.
  intros Hc. unfold field_of. destruct c as [n|]; [|done]. cbn.
  by rewrite lookup_app_l by by apply Hc.
Qed.

Lemma cumulative_nonneg h c : heap_wf h -> context_ok h c ->
  0 <= field_of h nd_cumulative_bytes c /\ 0 <= field_of h nd_cumulative_turns c.
Proof.
  intros Hh Hc. split.
  - rewrite (chain_bytes h Hh c Hc). apply sum_with_nonneg, owned_nonneg. done.
  - pattern c. apply (chain_ind h Hh); [done| |done]. clear c Hc. intros n Hn IH.
    destruct (lookup_lt_is_Some_2 h n Hn) as [nd E]. destruct (Hh n nd E) as (_ & _ & _ & Ht).
    assert (field_of h nd_cumulative_turns (Some n) = nd_cumulative_turns nd) as ->
      by (unfold field_of; cbn; by rewrite E).
    assert (parent_of h n = nd_parent nd) as Ep by (unfold parent_of; by rewrite E).
    rewrite Ep in IH. rewrite Ht. lia.
Qed.

Lemma append_spec z h parent turns :
  sizes_ok z -> heap_wf h -> context_ok h parent ->
  match append_openai_response_context z parent turns h with
  | (h', Ok c) =>
      exists nd, h' = h ++ [nd] /\ c = Some (length h) /\ heap_wf h' /\
        nd_parent nd = parent /\ nd_turns nd = turns
  | (h', Throw e) => h' = h /\ e = OverflowError
  end.
Proof.
  intros Hz Hh Hp. unfold append_openai_response_context. unfold_M.
  pose proof (owned_fold_range z turns _ Hz) as Hown. revert Hown.
  generalize (foldl (fun bytes turn => w64 (bytes + estimate_turn_bytes z turn)) (sizeof_Node z) turns).
  intros owned Hown. destruct (cumulative_nonneg h parent Hh Hp) as [H1 H2].
  rewrite !checked_add_spec by lia. case_decide; [|done]. case_decide; [|done].
  eexists. split; [reflexivity|]. split; [done|]. split; [|done].
  intros n nd [Hn|[Hlen Hn]]%lookup_app_Some.
  - destruct (Hh n nd Hn) as (Ha & Hb & Hc & Hd).
    assert (context_ok h (nd_parent nd)) as Hok.
    { intros p Hq. specialize (Ha p Hq). apply lookup_lt_Some in Hn. lia. }
    repeat split; [done|done|by rewrite field_app|by rewrite field_app].
  - destruct (n - length h)%nat as [|k] eqn:Ek; [|done]. cbn in Hn. injection Hn as <-.
    repeat split; cbn; [|lia|by rewrite field_app|by rewrite field_app].
    intros p Hq. specialize (Hp p Hq). lia.
Qed.

Lemma parent_of_app h nd n : (n < length h)%nat -> parent_of (h ++ [nd]) n = parent_of h n.
Proof. intros Hn. unfold parent_of. by rewrite lookup_app_l. Qed.

Lemma store_ok_app h nd s : store_ok h s -> store_ok (h ++ [nd]) s.
Proof.
  intros [[Hc Hr Hb Hl] Hn Hi He]. constructor; [|done|done|].
  - constructor; [|done| |].
    + intros n. rewrite Hc. f_equal. f_equal. apply map_sum_ext. intros k v Hk.
      by rewrite parent_of_app by (apply Hl; by eexists).
    + rewrite Hb. f_equal. apply map_sum_ext. intros k v Hk. symmetry. apply field_app.
      intros j [= <-]. apply Hl. by eexists.
    + intros n Hn'%Hl. rewrite length_app. lia.
  - intros id e Hid. destruct (He id e Hid) as (? & ? & Hok). split; [done|]. split; [done|].
    intros n Hn'%Hok. rewrite length_app. lia.
Qed.

Lemma store_inv_app h nd s : store_inv h s -> store_inv (h ++ [nd]) s.
Proof. intros [Hok H2 H3 H4]. constructor; [by apply store_ok_app|done..]. Qed.

Lemma step_inv z w op bound :
  sizes_ok z -> heap_wf (w_heap w) -> store_inv (w_heap w) (w_store w) -> op_ok w op ->
  2 * max_bytes (w_store w) <= u64_max -> Z.of_nat (length (w_heap w)) <= bound ->
  bound + max_records (w_store w) + 2 < u64_max ->
  let w' := store_step z w op in
  heap_wf (w_heap w') /\ store_inv (w_heap w') (w_store w') /\
  max_bytes (w_store w') = max_bytes (w_store w) /\
  max_records (w_store w') = max_records (w_store w) /\
  Z.of_nat (length (w_heap w')) <= bound + 1.
Proof.
  intros Hz Hh Hs Hop Hmb Hlen Hbound. destruct op as [parent turns|r|id|id]; cbn [store_step w_heap w_store].
  - pose proof (append_spec z (w_heap w) parent turns Hz Hh Hop) as Ha.
    destruct (append_openai_response_context z parent turns (w_heap w)) as [h' [c|e]]; cbn [fst].
    + destruct Ha as (nd & -> & _ & Hh' & _). rewrite length_app. cbn [length].
      split; [done|]. split; [by apply store_inv_app|]. split; [done|]. split; [done|lia].
    + destruct Ha as [-> _]. split; [done|]. split; [done|]. split; [done|]. split; [done|lia].
  - pose proof (put_spec z (w_heap w) r (w_store w) Hh Hs) as Hp.
    unfold room in Hp. specialize (Hp ltac:(lia) Hop).
    destruct (put dump is_object z (w_heap w) r (w_store w)) as [s' [[]|e]]; cbn [fst].
    + destruct Hp as (_ & _ & _ & Hs' & Hm1 & Hm2 & _).
      split; [done|]. split; [done|]. split; [done|]. split; [done|lia].
    + destruct Hp as [-> _]. split; [done|]. split; [done|]. split; [done|]. split; [done|lia].
  - split; [done|]. split; [by apply get_inv|]. unfold get.
    destruct (records (w_store w) !! id); cbn; split; [done|split; [done|lia]|done|split; [done|lia]].
  - split; [done|]. split; [by apply erase_inv|].
    unfold erase. unfold_M. destruct (records (w_store w) !! id) as [e|] eqn:E.
    + destruct (erase_locked_spec (w_heap w) (w_store w) id e Hh (si_ok _ _ Hs) E)
        as (s' & -> & _ & _ & _ & Hm1 & Hm2 & _). cbn. split; [done|]. split; [done|lia].
    + cbn. split; [done|]. split; [done|lia].
Qed.

Lemma store_run_inv z ops : forall w bound,
  sizes_ok z -> heap_wf (w_heap w) -> store_inv (w_heap w) (w_store w) -> ops_ok z w ops ->
  2 * max_bytes (w_store w) <= u64_max -> Z.of_nat (length (w_heap w)) <= bound ->
  bound + Z.of_nat (length ops) + max_records (w_store w) + 2 < u64_max ->
  let w' := store_run z w ops in
  heap_wf (w_heap w') /\ store_inv (w_heap w') (w_store w') /\
  max_bytes (w_store w') = max_bytes (w_store w) /\ max_records (w_store w') = max_records (w_store w).
Proof.
  induction ops as [|op ops IH]; intros w bound Hz Hh Hs Hops Hmb Hlen Hbound; [done|].
  destruct Hops as [Hop Hops]. cbn [store_run length] in *.
  destruct (step_inv z w op bound Hz Hh Hs Hop Hmb Hlen ltac:(lia)) as (Hh' & Hs' & Hm1 & Hm2 & Hl').
  destruct (IH (store_step z w op) (bound + 1) Hz Hh' Hs' Hops) as (? & ? & ? & ?); [lia|lia|lia|].
  split; [done|]. split; [done|]. split; congruence.
Qed.

(** C32: through any sequence of context appends, insertions, lookups and deletions, failing ones
    included, the store stays within both limits; its byte total is exactly the envelopes of its
    records plus each context node reachable from a record counted once; the LRU list holds every
    record id exactly once; and the live nodes are exactly the reachable ones, each counted as often
    as a record or a live child refers to it. *)
Theorem store_session_sound z limit bytes s0 ops :
  sizes_ok z -> 0 <= limit -> 0 <= bytes -> make_store limit bytes = Ok s0 ->
  2 * bytes <= u64_max -> Z.of_nat (length ops) + limit + 2 < u64_max ->
  ops_ok z (mkWorld [] s0) ops ->
  let w := store_run z (mkWorld [] s0) ops in
  let s := w_store w in
  record_count s <= limit /\ current_bytes s <= bytes /\
  current_bytes s = footprint (w_heap w) (records s) /\
  NoDup (lru s) /\ (forall id, id ∈ lru s <-> is_Some (records s !! id)) /\
  forall n, default 0 (live s !! n) = record_refs (records s) n + child_refs (w_heap w) (live s) n /\
    (is_Some (live s !! n) <->
     exists id e, records s !! id = Some e /\ n ∈ chain (w_heap w) (sr_context (en_response e))).
Proof.
  intros Hz Hl Hb Hmake Hmb Hlen Hops. unfold make_store in Hmake.
  destruct (Z.eqb_spec limit 0), (Z.eqb_spec bytes 0); try done. injection Hmake as <-.
  assert (@store_inv [] (mkStore limit bytes ∅ [] ∅ 0)) as Hinit.
  { constructor; cbn; [|unfold record_count; cbn; rewrite map_size_empty; lia|lia|lia].
    constructor; cbn; [|constructor| |].
    - constructor; [|intros k c H; by rewrite lookup_empty in H| |].
      + intros k. rewrite lookup_empty. unfold record_refs, child_refs. by rewrite !map_sum_empty.
      + by rewrite !map_sum_empty.
      + intros k [v H]. by rewrite lookup_empty in H.
    - intros id. rewrite lookup_empty. split; [by intros ?%not_elem_of_nil|by intros [? ?]].
    - intros id e H. by rewrite lookup_empty in H. }
  destruct (store_run_inv z ops (mkWorld [] (mkStore limit bytes ∅ [] ∅ 0)) 0 Hz) as (Hh & Hs & Hm1 & Hm2);
    [by intros [|k] nd H|exact Hinit|exact Hops|done|done|cbn; lia|].
  cbv zeta. set (w := store_run _ _ _) in *. cbn [w_store max_bytes max_records] in Hm1, Hm2.
  destruct Hs as [Hok H1 H2 H3].
  split; [lia|]. split; [lia|]. split; [by apply bytes_footprint|].
  split; [apply Hok|]. split; [apply Hok|]. intros k. split.
  - rewrite (ac_counts _ _ _ _ _ _ (so_account _ _ Hok) k). unfold refers. rewrite decide_False by done. lia.
  - eapply live_reachable; [done|apply Hok|by apply contexts_ok].
Qed.
End spec.

(** ** Contexts *)

Lemma chain_app h nd c : heap_wf h -> heap_wf (h ++ [nd]) -> context_ok h c -> chain (h ++ [nd]) c = chain h c.
Proof.
  intros Hh Hh' Hc. pattern c. apply (chain_ind h Hh); [done| |done]. clear c Hc.
  intros n Hn IH. rewrite (chain_Some h Hh n Hn), (chain_Some _ Hh'), parent_of_app by
    (done || (rewrite length_app; lia)). by rewrite IH.
Qed.

Lemma flatten_app h nd c :
  heap_wf h -> heap_wf (h ++ [nd]) -> context_ok h c ->
  flatten_openai_response_context (h ++ [nd]) c = flatten_openai_response_context h c.
Proof.
  intros Hh Hh' Hc. unfold flatten_openai_response_context. rewrite chain_app by done.
  assert (Forall (fun n => (n < length h)%nat) (reverse (chain h c))) as Hall.
  { apply Forall_reverse, Forall_forall. intros n Hn. by apply (chain_bounded h Hh c). }
  induction Hall as [|n l Hn _ IH]; [done|]. cbn. by rewrite IH, lookup_app_l.
Qed.

(** Appending turns to a context and flattening it gives the parent's turns followed by the new
    ones, the recorded turn count is the length of that list, and every context that existed
    before still flattens to the same turns; an overflowing append changes nothing. *)
Theorem append_flatten z h parent turns :
  sizes_ok z -> heap_wf h -> context_ok h parent ->
  match append_openai_response_context z parent turns h with
  | (h', Ok c) =>
      heap_wf h' /\ context_ok h' c /\
      flatten_openai_response_context h' c = flatten_openai_response_context h parent ++ turns /\
      field_of h' nd_cumulative_turns c = Z.of_nat (length (flatten_openai_response_context h' c)) /\
      forall c', context_ok h c' ->
        flatten_openai_response_context h' c' = flatten_openai_response_context h c'
  | (h', Throw e) => h' = h /\ e = OverflowError
  end.
Proof.
  intros Hz Hh Hp. pose proof (append_spec z h parent turns Hz Hh Hp) as Ha.
  destruct (append_openai_response_context z parent turns h) as [h' [c|e]]; [|exact Ha].
  destruct Ha as (nd & -> & -> & Hh' & Hpar & Hturns).
  assert (context_ok (h ++ [nd]) (Some (length h))) as Hc.
  { intros n [= <-]. rewrite length_app. cbn. lia. }
  assert (parent_of (h ++ [nd]) (length h) = parent) as Epar.
  { unfold parent_of. rewrite list_lookup_middle by done. exact Hpar. }
  split; [done|]. split; [done|]. split; [|split].
  - rewrite <- (flatten_app h nd parent) by done. unfold flatten_openai_response_context.
    rewrite (chain_Some _ Hh') by (rewrite length_app; cbn; lia). rewrite Epar, reverse_cons, bind_app.
    f_equal. cbn. rewrite list_lookup_middle by done. by rewrite app_nil_r.
  - generalize (Some (length h)), Hc. clear Hc. intros c Hc.
    pattern c. apply (chain_ind _ Hh'); [done| |done]. clear c Hc. intros n Hn IH.
    destruct (lookup_lt_is_Some_2 _ _ Hn) as [x E]. destruct (Hh' n x E) as (_ & _ & _ & Ht).
    assert (parent_of (h ++ [nd]) n = nd_parent x) as Ep by (unfold parent_of; by rewrite E).
    rewrite Ep in IH. unfold field_of at 1. cbn [mbind option_bind]. rewrite E, Ht, IH.
    unfold flatten_openai_response_context. rewrite (chain_Some _ Hh' n Hn), Ep, reverse_cons, bind_app.
    rewrite length_app. cbn. rewrite E, app_nil_r. lia.
  - intros c' Hc'. by apply flatten_app.
Qed.

(** ** Witnesses

    JSON values are strings that serialize to themselves. *)

Definition demo_sizes : Sizes := mkSizes 8 8 8 8 8 8.
Definition demo_turn (text : string) : ChatTurn :=
  mkTurn [mkPart text "text" "" "" []] [] "" None "".
Definition demo_response (id : string) (c : ContextRef) : @StoredOpenAIResponse string :=
  mkResponse id "session" "{}" [] c None.
Definition demo_put : Sizes -> Heap -> @StoredOpenAIResponse string -> M (@Store string) unit :=
  put (fun j => j) (fun _ => true).

(** Two contexts share their first node; two responses fit, and ["a"] was used last. *)
Definition demo_store_ops : list (@StoreOp string) :=
  [OpAppend None [demo_turn "hello"]; OpAppend (Some 0%nat) [demo_turn "again"];
   OpPut (demo_response "a" (Some 0%nat)); OpPut (demo_response "b" (Some 1%nat)); OpGet "a"].
Definition demo_store : @Store string := mkStore 2 1000 ∅ [] ∅ 0.
Definition demo_world : @World string :=
  store_run (fun j => j) (fun _ => true) demo_sizes (mkWorld [] demo_store) demo_store_ops.

Lemma demo_ops_valid :
  ops_ok (fun j => j) (fun _ => true) demo_sizes (mkWorld [] demo_store) demo_store_ops.
Proof.
  cbn [ops_ok demo_store_ops op_ok]. split; [done|]. split; [intros n [= <-]; vm_compute; lia|].
  split; [intros n [= <-]; vm_compute; lia|]. split; [intros n [= <-]; vm_compute; lia|]. done.
Qed.

Lemma demo_sizes_ok : sizes_ok demo_sizes.
Proof. split; cbv; discriminate. Qed.

Lemma demo_store_inv : store_inv [] demo_store.
Proof.
  constructor; [|cbv; discriminate|cbv; discriminate|split; cbv; discriminate].
  constructor; cbn; [|constructor| |].
  - constructor; [done|by intros|by rewrite !map_sum_empty|].
    intros n [v H]. by rewrite lookup_empty in H.
  - intros id. rewrite lookup_empty. split; [by intros ?%not_elem_of_nil|by intros [? ?]].
  - intros id e H. by rewrite lookup_empty in H.
Qed.

Lemma demo_world_inv :
  heap_wf (w_heap demo_world) /\ store_inv (w_heap demo_world) (w_store demo_world).
Proof.
  destruct (store_run_inv (fun j => j) (fun _ => true) demo_sizes demo_store_ops (mkWorld [] demo_store) 0
    demo_sizes_ok) as (H1 & H2 & _).
  - by intros [|n] nd H.
  - exact demo_store_inv.
  - exact demo_ops_valid.
  - cbv. discriminate.
  - cbv. discriminate.
  - cbv. reflexivity.
  - by split.
Qed.

(** A third response evicts ["b"], not the older but more recently used ["a"]. *)
Lemma put_evicts_lru_witness :
  exists s', demo_put demo_sizes (w_heap demo_world) (demo_response "c" (Some 1%nat)) (w_store demo_world) =
      (s', Ok tt) /\ lru s' = ["c"; "a"] /\ record_count s' <= 2.
Proof.
  destruct demo_world_inv as [Hh Hs].
  assert (room (w_heap demo_world) (w_store demo_world)) as Hroom
    by (split; vm_compute; [discriminate|reflexivity]).
  assert (context_ok (w_heap demo_world) (Some 1%nat)) as Hctx by (intros n [= <-]; vm_compute; lia).
  pose proof (put_evicts_lru (fun j => j) (fun _ => true) demo_sizes (w_heap demo_world)
    (demo_response "c" (Some 1%nat)) (w_store demo_world) Hh Hs Hroom Hctx) as H.
  unfold demo_put.
  destruct (put (fun j => j) (fun _ => true) demo_sizes (w_heap demo_world)
    (demo_response "c" (Some 1%nat)) (w_store demo_world)) as [s' [[]|e]] eqn:E.
  - destruct H as (_ & _ & _ & Hinv & _). exists s'. split; [reflexivity|].
    vm_compute in E. injection E as <-. split; [reflexivity|]. vm_compute. discriminate.
  - exfalso. vm_compute in E. discriminate.
Defined.

Lemma store_session_sound_witness :
  record_count (w_store demo_world) <= 2 /\ current_bytes (w_store demo_world) <= 1000.
Proof.
  destruct (store_session_sound (fun j => j) (fun _ => true) demo_sizes 2 1000 demo_store demo_store_ops
    demo_sizes_ok) as (H1 & H2 & _).
  - discriminate.
  - discriminate.
  - reflexivity.
  - discriminate.
  - reflexivity.
  - exact demo_ops_valid.
  - split; [exact H1|exact H2].
Defined.

Lemma append_flatten_witness :
  exists h' c, append_openai_response_context demo_sizes (Some 1%nat) [demo_turn "more"] (w_heap demo_world) =
      (h', Ok c) /\
    flatten_openai_response_context h' c = [demo_turn "hello"; demo_turn "again"; demo_turn "more"].
Proof.
  destruct demo_world_inv as [Hh _].
  assert (context_ok (w_heap demo_world) (Some 1%nat)) as Hctx by (intros n [= <-]; vm_compute; lia).
  pose proof (append_flatten demo_sizes (w_heap demo_world) (Some 1%nat) [demo_turn "more"]
    demo_sizes_ok Hh Hctx) as H.
  destruct (append_openai_response_context demo_sizes (Some 1%nat) [demo_turn "more"] (w_heap demo_world))
    as [h' [c|e]] eqn:E.
  - destruct H as (_ & _ & Hf & _). exists h', c. split; [reflexivity|]. rewrite Hf. vm_compute. reflexivity.
  - exfalso. vm_compute in E. discriminate.
Defined.
