(* ===== verification/Bytes.v ===== *)
(** * Byte strings

    [std::string] and [std::string_view] as lists of bytes: search, prefix tests at a position and
    the format-whitespace helpers of [models/qwen3_5/frontend/tool_call_parser.cpp]. *)

From Stdlib Require Export Ascii.
From Stdlib Require Import String.
From S2P Require Import Prelude.
Open Scope char_scope.
Open Scope Z_scope.

Abbreviation bytes := (list ascii).

(** A string literal. *)
Definition lit (s : string) : bytes := list_ascii_of_string s.

#[export] Instance ascii_eq_dec : EqDecision ascii := ascii_dec.

(** ** Search *)

(** [text.substr(pos, n)]. *)
Definition substr (text : bytes) (pos n : nat) : bytes := take n (drop pos text).

Definition starts_with_at (text : bytes) (pos : nat) (prefix : bytes) : bool :=
  bool_decide (pos <= length text)%nat && bool_decide (substr text pos (length prefix) = prefix).

Fixpoint find_scan (n : nat) (text sub : bytes) (pos : nat) : option nat :=
  match n with
  | O => None
  | S n => if starts_with_at text pos sub then Some pos else find_scan n text sub (S pos)
  end.

(** [text.find(sub, pos)]. *)
Definition find (text sub : bytes) (pos : nat) : option nat :=
  find_scan (S (length text) - pos) text sub pos.

(** ** Whitespace *)

Definition is_format_whitespace (c : ascii) : bool :=
  bool_decide (c = " ") || bool_decide (c = "009") || bool_decide (c = "013") || bool_decide (c = "010").

Fixpoint count_while (p : ascii -> bool) (l : bytes) : nat :=
  match l with
  | [] => 0
  | c :: l => if p c then S (count_while p l) else 0
  end.

(** The loop [while (end > begin && is_format_whitespace(text[end - 1])) --end]. *)
Fixpoint rtrim_end (text : bytes) (begin_ end_ : nat) : nat :=
  match end_ with
  | O => 0
  | S k =>
      if bool_decide (begin_ < end_)%nat && match text !! k with Some c => is_format_whitespace c | None => false end
      then rtrim_end text begin_ k else end_
  end.

Definition trim_format_whitespace (text : bytes) : bytes :=
  let begin_ := count_while is_format_whitespace text in
  let end_ := rtrim_end text begin_ (length text) in
  substr text begin_ (end_ - begin_).

Definition rtrim_format_whitespace (text : bytes) : bytes :=
  substr text 0 (rtrim_end text 0 (length text)).

Definition skip_format_whitespace (text : bytes) (pos : nat) : nat :=
  pos + count_while is_format_whitespace (drop pos text).

(** ** Lemmas *)

Lemma starts_with_at_spec text pos prefix :
  starts_with_at text pos prefix = true <->
  exists pre post, text = pre ++ prefix ++ post /\ length pre = pos.
Proof.
  unfold starts_with_at, substr. rewrite andb_true_iff, !bool_decide_eq_true. split.
  - intros [Hpos Heq]. exists (take pos text), (drop (length prefix) (drop pos text)).
    split; [|by rewrite length_take_le]. rewrite <- Heq at 1. by rewrite !take_drop.
  - intros (pre & post & -> & <-). rewrite length_app. split; [lia|].
    by rewrite drop_app_length, take_app_length.
Qed.

Lemma starts_with_at_le text pos prefix :
  starts_with_at text pos prefix = true -> (pos + length prefix <= length text)%nat.
Proof. intros (pre & post & -> & <-)%starts_with_at_spec. rewrite !length_app. lia. Qed.

Lemma starts_with_at_middle pre prefix post :
  starts_with_at (pre ++ prefix ++ post) (length pre) prefix = true.
Proof. apply starts_with_at_spec. by exists pre, post. Qed.

Lemma find_scan_Some n text sub : forall pos i,
  find_scan n text sub pos = Some i <->
  (pos <= i < pos + n)%nat /\ starts_with_at text i sub = true /\
  forall j, (pos <= j < i)%nat -> starts_with_at text j sub = false.
Proof.
  induction n as [|n IH]; intros pos i; cbn [find_scan].
  { split; [done|]. intros [? _]. lia. }
  destruct (starts_with_at text pos sub) eqn:E.
  - split; [intros [= <-]; split; [lia|]; split; [done|lia]|].
    intros (Hi & Hs & Hmin). destruct (decide (i = pos)) as [->|]; [done|].
    rewrite (Hmin pos) in E by lia. done.
  - rewrite IH. split.
    + intros (Hi & Hs & Hmin). split; [lia|]. split; [done|]. intros j Hj.
      destruct (decide (j = pos)) as [->|]; [done|]. apply Hmin. lia.
    + intros (Hi & Hs & Hmin). assert (i <> pos) by congruence. split; [lia|]. split; [done|].
      intros j Hj. apply Hmin. lia.
Qed.

Lemma find_Some text sub pos i :
  find text sub pos = Some i <->
  (pos <= i)%nat /\ starts_with_at text i sub = true /\
  forall j, (pos <= j < i)%nat -> starts_with_at text j sub = false.
Proof.
  unfold find. rewrite find_scan_Some. split; [intros (? & ? & ?); split; [lia|done]|].
  intros (H1 & H2 & H3). pose proof (starts_with_at_le _ _ _ H2). split; [lia|done].
Qed.

Lemma find_scan_None n text sub : forall pos,
  find_scan n text sub pos = None <->
  forall j, (pos <= j < pos + n)%nat -> starts_with_at text j sub = false.
Proof.
  induction n as [|n IH]; intros pos; cbn [find_scan]; [split; [lia|done]|].
  destruct (starts_with_at text pos sub) eqn:E.
  - split; [done|]. intros H. rewrite (H pos) in E by lia. done.
  - rewrite IH. split; intros H j Hj; [|apply H; lia].
    destruct (decide (j = pos)) as [->|]; [done|]. apply H. lia.
Qed.

Lemma find_None text sub pos :
  find text sub pos = None <-> forall j, (pos <= j)%nat -> starts_with_at text j sub = false.
Proof.
  unfold find. rewrite find_scan_None. split; intros H j Hj; [|apply H; lia].
  destruct (starts_with_at text j sub) eqn:E; [|done].
  rewrite (H j) in E; [done|]. pose proof (starts_with_at_le _ _ _ E). lia.
Qed.

Lemma find_bounds text sub pos i :
  find text sub pos = Some i -> (pos <= i)%nat /\ (i + length sub <= length text)%nat.
Proof. intros (? & Hs & _)%find_Some. split; [done|by apply starts_with_at_le]. Qed.

Lemma count_while_le p l : (count_while p l <= length l)%nat.
Proof. induction l as [|c l IH]; cbn; [lia|]. destruct (p c); lia. Qed.

Lemma count_while_Forall p l : Forall (fun c => p c = true) (take (count_while p l) l).
Proof. induction l as [|c l IH]; cbn; [done|]. destruct (p c) eqn:E; [by constructor|done]. Qed.

Lemma count_while_app p l1 l2 :
  Forall (fun c => p c = true) l1 -> count_while p (l1 ++ l2) = (length l1 + count_while p l2)%nat.
Proof. induction 1 as [|c l Hc _ IH]; cbn; [done|]. rewrite Hc. cbn. by rewrite IH. Qed.

Lemma count_while_stop p c l : p c = false -> count_while p (c :: l) = 0%nat.
Proof. intros Hc. cbn. by rewrite Hc. Qed.

Lemma skip_format_whitespace_le text pos : (pos <= skip_format_whitespace text pos)%nat.
Proof. unfold skip_format_whitespace. lia. Qed.

Lemma skip_format_whitespace_bound text pos :
  (pos <= length text)%nat -> (skip_format_whitespace text pos <= length text)%nat.
Proof.
  intros H. unfold skip_format_whitespace.
  pose proof (count_while_le is_format_whitespace (drop pos text)). rewrite length_drop in *. lia.
Qed.

(** Trailing whitespace is removed, up to the last other byte. *)
Lemma rtrim_end_app ws : forall kept text,
  Forall (fun c => is_format_whitespace c = true) ws ->
  rtrim_end (kept ++ ws ++ text) 0 (length kept + length ws) = rtrim_end (kept ++ ws ++ text) 0 (length kept).
Proof.
  induction ws as [|c ws IH] using rev_ind; intros kept text Hws; [by rewrite Nat.add_0_r|].
  apply Forall_app in Hws as [Hws Hc]. apply Forall_cons in Hc as [Hc _].
  rewrite length_app. cbn [length]. replace (length kept + (length ws + 1))%nat
    with (S (length kept + length ws)) by lia. cbn [rtrim_end].
  rewrite bool_decide_eq_true_2 by lia. rewrite <- !app_assoc.
  rewrite lookup_app_r, lookup_app_r by lia.
  replace (length kept + length ws - length kept - length ws)%nat with 0%nat by lia.
  cbn. rewrite Hc. exact (IH kept (c :: text) Hws).
Qed.

Lemma rtrim_end_stop text k c :
  text !! k = Some c -> is_format_whitespace c = false -> rtrim_end text 0 (S k) = S k.
Proof. intros Hk Hc. cbn [rtrim_end]. by rewrite Hk, Hc, andb_false_r. Qed.

Lemma rtrim_spec kept ws :
  (forall c, last kept = Some c -> is_format_whitespace c = false) ->
  Forall (fun c => is_format_whitespace c = true) ws ->
  rtrim_format_whitespace (kept ++ ws) = kept.
Proof.
  intros Hlast Hws. unfold rtrim_format_whitespace, substr. rewrite drop_0, length_app.
  pose proof (rtrim_end_app ws kept [] Hws) as E. rewrite app_nil_r in E. rewrite E.
  destruct kept as [|c kept _] using rev_ind; [done|].
  rewrite length_app. cbn [length]. rewrite Nat.add_1_r, (rtrim_end_stop _ _ c).
  - replace (S (length kept)) with (length (kept ++ [c])) by (rewrite length_app; cbn; lia).
    by rewrite take_app_length.
  - rewrite <- app_assoc. by apply list_lookup_middle.
  - apply Hlast. by rewrite last_snoc.
Qed.
