(* ===== verification/JsonNumber.v ===== *)
(** * Integral JSON numbers

    [json_number_is_integer] of [models/qwen3_5/frontend/tool_call_parser.cpp]: whether the text of
    a JSON number denotes an integer, decided on its digits with a saturating exponent. *)

From Stdlib Require Import String.
From S2P Require Import Prelude Bytes.
Open Scope char_scope.
Open Scope Z_scope.

Definition is_ascii_digit (c : ascii) : bool :=
  (48 <=? Z.of_nat (nat_of_ascii c)) && (Z.of_nat (nat_of_ascii c) <=? 57).

Definition digit_value (c : ascii) : Z := Z.of_nat (nat_of_ascii c) - 48.

(** One step of the exponent loop: the value saturates at the text's length. *)
Definition exponent_step (cap exponent_value : Z) (c : ascii) : Z :=
  let digit := digit_value c in
  if exponent_value =? cap then exponent_value
  else if (cap / 10 <? exponent_value) || ((exponent_value =? cap / 10) && (cap mod 10 <? digit)) then cap
  else exponent_value * 10 + digit.

(** [observe_digit] folded over digits: whether all are zero, and the trailing zeros. *)
Definition observe_digit (st : bool * Z) (c : ascii) : bool * Z :=
  if bool_decide (c = "0") then (st.1, st.2 + 1) else (false, 0).

(** The sign, the exponent marker and its sign are skipped in order; each digit run is a position
    interval of the text. *)
Definition json_number_is_integer (number : bytes) : bool :=
  let pos := if starts_with_at number 0 (lit "-") then 1%nat else 0%nat in
  if decide (length number <= pos)%nat then false
  else
    let integer_begin := pos in
    let pos := (pos + count_while is_ascii_digit (drop pos number))%nat in
    let integer_end := pos in
    let has_fraction := bool_decide (number !! pos = Some ".") in
    let fraction_begin := if has_fraction then S pos else pos in
    let pos := if has_fraction
               then (fraction_begin + count_while is_ascii_digit (drop fraction_begin number))%nat
               else pos in
    let fraction_end := pos in
    let has_exponent := bool_decide (number !! pos = Some "e") || bool_decide (number !! pos = Some "E") in
    let pos := if has_exponent then S pos else pos in
    let signed := has_exponent &&
      (bool_decide (number !! pos = Some "+") || bool_decide (number !! pos = Some "-")) in
    let exponent_negative := signed && bool_decide (number !! pos = Some "-") in
    let pos := if signed then S pos else pos in
    let exponent_digits :=
      if has_exponent then take (count_while is_ascii_digit (drop pos number)) (drop pos number) else [] in
    let exponent_value := foldl (exponent_step (Z.of_nat (length number))) 0 exponent_digits in
    let pos := (pos + length exponent_digits)%nat in
    if bool_decide (integer_begin = integer_end) || negb (bool_decide (pos = length number)) then false
    else
      let digits := substr number integer_begin (integer_end - integer_begin) ++
                    substr number fraction_begin (fraction_end - fraction_begin) in
      let '(coefficient_is_zero, trailing_zeros) := foldl observe_digit (true, 0) digits in
      if (coefficient_is_zero : bool) then true
      else
        let fraction_digits := Z.of_nat (fraction_end - fraction_begin) in
        if negb exponent_negative then
          if fraction_digits <=? exponent_value then true
          else fraction_digits - exponent_value <=? trailing_zeros
        else if trailing_zeros <? exponent_value then false
        else fraction_digits <=? trailing_zeros - exponent_value.

(** ** The grammar of JSON numbers *)

(** A number's parts; the exponent is its marker, its sign character if any, and its digits. *)
Record NumberText := mkNumber {
  nt_negative : bool;
  nt_integer : bytes;
  nt_fraction : option bytes;
  nt_exponent : option (ascii * option bool * bytes);
}.

Definition digits (l : bytes) : Prop := Forall (fun c => is_ascii_digit c = true) l.

Definition number_wf (n : NumberText) : Prop :=
  digits (nt_integer n) /\ nt_integer n <> [] /\
  (forall f, nt_fraction n = Some f -> digits f) /\
  (forall m s d, nt_exponent n = Some (m, s, d) -> (m = "e" \/ m = "E") /\ digits d).

Definition sign_text (negative : bool) : bytes := if negative then ["-"] else [].
Definition fraction_text (f : option bytes) : bytes := match f with Some f => "." :: f | None => [] end.
Definition exponent_sign_text (s : option bool) : bytes :=
  match s with Some true => ["-"] | Some false => ["+"] | None => [] end.
Definition exponent_text (e : option (ascii * option bool * bytes)) : bytes :=
  match e with Some (m, s, d) => m :: exponent_sign_text s ++ d | None => [] end.

Definition number_text (n : NumberText) : bytes :=
  sign_text (nt_negative n) ++ nt_integer n ++ fraction_text (nt_fraction n) ++ exponent_text (nt_exponent n).

(** Decimal value of a digit string. *)
Definition decimal (l : bytes) : Z := foldl (fun v c => v * 10 + digit_value c) 0 l.

Definition fraction_digits (n : NumberText) : bytes := default [] (nt_fraction n).
Definition coefficient (n : NumberText) : Z := decimal (nt_integer n ++ fraction_digits n).
Definition exponent (n : NumberText) : Z :=
  match nt_exponent n with
  | None => 0
  | Some (_, Some true, d) => - decimal d
  | Some (_, _, d) => decimal d
  end.

(** [coefficient * 10 ^ (exponent - fraction length)] is an integer, with the powers of ten on the
    sides where they are integers; the sign does not matter. *)
Definition denotes_integer (n : NumberText) : Prop :=
  exists z, coefficient n * 10 ^ Z.max (exponent n) 0 =
            z * 10 ^ (Z.of_nat (length (fraction_digits n)) + Z.max (- exponent n) 0).

(** ** Digits *)

Lemma digit_value_range c : is_ascii_digit c = true -> 0 <= digit_value c <= 9.
Proof. unfold is_ascii_digit, digit_value. rewrite andb_true_iff, !Z.leb_le. lia. Qed.

Lemma digit_value_zero c : is_ascii_digit c = true -> (digit_value c = 0 <-> c = "0").
Proof.
  intros Hc. split; [|by intros ->]. intros H. rewrite <- (ascii_nat_embedding c).
  unfold digit_value in H. by replace (nat_of_ascii c) with 48%nat by lia.
Qed.

Lemma decimal_snoc l c : decimal (l ++ [c]) = decimal l * 10 + digit_value c.
Proof. unfold decimal. by rewrite foldl_app. Qed.

Lemma decimal_nonneg l : digits l -> 0 <= decimal l.
Proof.
  induction l as [|c l IH] using rev_ind; intros H; [done|].
  apply Forall_app in H as [Hl Hc]. apply Forall_cons in Hc as [Hc _].
  rewrite decimal_snoc. pose proof (digit_value_range c Hc). specialize (IH Hl). lia.
Qed.

(** [observe_digit] finds the zero coefficient, and otherwise the exact power of ten. *)
Lemma observe_digits l :
  digits l ->
  let st := foldl observe_digit (true, 0) l in
  0 <= st.2 <= Z.of_nat (length l) /\
  if st.1 then decimal l = 0
  else 0 < decimal l /\ forall k, 0 <= k -> ((10 ^ k | decimal l) <-> k <= st.2).
Proof.
  induction l as [|c l IH] using rev_ind; intros H; [done|].
  apply Forall_app in H as [Hl Hc]. apply Forall_cons in Hc as [Hc _].
  rewrite foldl_app, decimal_snoc, length_app. cbn [foldl length].
  specialize (IH Hl). cbv zeta in *. destruct (foldl observe_digit (true, 0) l) as [z t].
  cbn [fst snd] in IH. destruct IH as [Ht IH].
  pose proof (digit_value_range c Hc) as Hr. pose proof (digit_value_zero c Hc) as Hz.
  pose proof (decimal_nonneg l Hl) as Hnn.
  unfold observe_digit. case_bool_decide as E; cbn [fst snd].
  - rewrite (proj2 Hz E). split; [lia|]. destruct z; [lia|]. destruct IH as [Hpos IH].
    split; [lia|]. intros k Hk. destruct (decide (k = 0)) as [->|].
    { split; [lia|]. intros _. apply Z.divide_1_l. }
    replace (decimal l * 10 + 0) with (decimal l * 10) by lia.
    replace k with (k - 1 + 1) at 1 by lia. rewrite Z.pow_add_r, Z.pow_1_r by lia.
    rewrite Z.mul_divide_cancel_r by lia. rewrite IH by lia. lia.
  - assert (digit_value c <> 0) as Hne by tauto. split; [lia|]. split; [lia|]. intros k Hk. split.
    + intros Hdiv. destruct (decide (k <= 0)) as [|Hgt]; [done|exfalso].
      assert ((10 | decimal l * 10 + digit_value c)) as Hten.
      { etrans; [|exact Hdiv]. replace k with (1 + (k - 1)) by lia.
        rewrite Z.pow_add_r by lia. apply Z.divide_factor_l. }
      apply Z.divide_add_cancel_r in Hten; [|apply Z.divide_factor_r].
      destruct Hten as [q Hq]. lia.
    + intros Hle. replace k with 0 by lia. apply Z.divide_1_l.
Qed.

(** ** The saturating exponent *)

Lemma exponent_step_min cap v c :
  0 < cap -> 0 <= v -> is_ascii_digit c = true ->
  exponent_step cap (Z.min cap v) c = Z.min cap (v * 10 + digit_value c).
Proof.
  intros Hcap Hv Hc. pose proof (digit_value_range c Hc).
  pose proof (Z.div_mod cap 10). pose proof (Z.mod_pos_bound cap 10).
  unfold exponent_step. destruct (Z.eqb_spec (Z.min cap v) cap) as [E|E]; [lia|].
  replace (Z.min cap v) with v by lia.
  destruct (Z.ltb_spec (cap / 10) v); cbn [orb]; [lia|].
  destruct (Z.eqb_spec v (cap / 10)), (Z.ltb_spec (cap mod 10) (digit_value c)); cbn [andb]; lia.
Qed.

Lemma exponent_saturates cap d :
  0 < cap -> digits d -> foldl (exponent_step cap) 0 d = Z.min cap (decimal d).
Proof.
  intros Hcap. induction d as [|c d IH] using rev_ind; intros H; [cbn; lia|].
  apply Forall_app in H as [Hl Hc]. apply Forall_cons in Hc as [Hc _].
  rewrite foldl_app, decimal_snoc. cbn [foldl]. rewrite (IH Hl).
  apply exponent_step_min; [done|by apply decimal_nonneg|done].
Qed.

(** ** The walk over the text *)

Lemma count_run p l rest :
  Forall (fun c => p c = true) l -> (forall c, head rest = Some c -> p c = false) ->
  count_while p (l ++ rest) = length l.
Proof.
  intros Hl Hr. rewrite count_while_app by done. destruct rest as [|c rest]; [cbn; lia|].
  rewrite count_while_stop by by apply Hr. lia.
Qed.

Lemma lookup_head_drop (l : bytes) i : l !! i = head (drop i l).
Proof. revert i. induction l as [|c l IH]; intros [|i]; cbn; auto. Qed.

Lemma drop_past (l a b : bytes) i j : drop i l = a ++ b -> j = (i + length a)%nat -> drop j l = b.
Proof. intros H ->. rewrite <- drop_drop, H. by rewrite drop_app_length. Qed.

Lemma substr_past (l a b : bytes) i j : drop i l = a ++ b -> j = (i + length a)%nat -> substr l i (j - i) = a.
Proof.
  intros H ->. unfold substr. rewrite H. replace (i + length a - i)%nat with (length a) by lia.
  by rewrite take_app_length.
Qed.

(** What the function decides from the parts of the number. *)
Definition verdict (cap : Z) (integer fraction exponent : bytes) (exponent_negative : bool) : bool :=
  let exponent_value := foldl (exponent_step cap) 0 exponent in
  let '(coefficient_is_zero, trailing_zeros) := foldl observe_digit (true, 0) (integer ++ fraction) in
  if (coefficient_is_zero : bool) then true
  else
    let fraction_digits := Z.of_nat (length fraction) in
    if negb exponent_negative then
      if fraction_digits <=? exponent_value then true
      else fraction_digits - exponent_value <=? trailing_zeros
    else if trailing_zeros <? exponent_value then false
    else fraction_digits <=? trailing_zeros - exponent_value.

Definition exponent_part (n : NumberText) : bytes :=
  match nt_exponent n with Some (_, _, d) => d | None => [] end.
Definition exponent_is_negative (n : NumberText) : bool :=
  match nt_exponent n with Some (_, Some true, _) => true | _ => false end.

Lemma digits_head_not_sign l rest c :
  digits l -> l <> [] -> head (l ++ rest) = Some c -> is_ascii_digit c = true.
Proof. intros Hl Hne. destruct l as [|x l]; [done|]. intros [= <-]. by apply Forall_cons in Hl as [? _]. Qed.

Lemma exponent_head_not_digit e c :
  (forall m s d, e = Some (m, s, d) -> (m = "e" \/ m = "E") /\ digits d) ->
  head (exponent_text e) = Some c -> is_ascii_digit c = false /\ c <> "." /\ (c = "e" \/ c = "E").
Proof.
  intros He. destruct e as [[[m s] d]|]; [|done]. intros [= <-].
  destruct (He m s d eq_refl) as [[-> | ->] _]; auto.
Qed.

Lemma walk_verdict n :
  number_wf n ->
  json_number_is_integer (number_text n) =
  verdict (Z.of_nat (length (number_text n))) (nt_integer n) (fraction_digits n) (exponent_part n)
    (exponent_is_negative n).
Proof.
  intros (Hi & Hne & Hf & He). unfold json_number_is_integer.
  set (number := number_text n). set (s := length (sign_text (nt_negative n))).
  set (E := exponent_text (nt_exponent n)). set (R := fraction_text (nt_fraction n) ++ E).
  assert (drop s number = nt_integer n ++ R) as D0
    by (unfold number, number_text, s; by rewrite drop_app_length).
  assert (length number = s + length (nt_integer n) + length R)%nat as Hlen
    by (unfold number, number_text, s, R, E; rewrite !length_app; lia).
  assert (0 < length (nt_integer n))%nat as Hpos by (destruct (nt_integer n); [done|cbn; lia]).
  assert (forall c, head E = Some c -> is_ascii_digit c = false /\ c <> "." /\ (c = "e" \/ c = "E")) as HE
    by (intros c; by apply exponent_head_not_digit).
  assert (forall c, head R = Some c -> is_ascii_digit c = false) as HR.
  { intros c. unfold R. destruct (nt_fraction n); cbn; [by intros [= <-]|]. intros Hc. by apply HE. }
  assert ((if starts_with_at number 0 (lit "-") then 1%nat else 0%nat) = s) as ->.
  { unfold s. destruct (nt_negative n) eqn:En.
    - assert (starts_with_at number 0 (lit "-") = true) as ->; [|done].
      apply starts_with_at_spec. unfold number, number_text. rewrite En. by eexists [], _.
    - destruct (starts_with_at number 0 (lit "-")) eqn:Es; [|done]. exfalso.
      apply starts_with_at_spec in Es as ([|] & post & Hs & Hl); [|done]. cbn in Hs.
      unfold s in D0. cbn in D0. rewrite drop_0, Hs in D0.
      assert (is_ascii_digit "-" = true) as Hbad; [|by vm_compute in Hbad].
      apply (digits_head_not_sign (nt_integer n) R); [done|done|]. by rewrite <- D0. }
  rewrite decide_False by lia. rewrite D0, (count_run _ _ _ Hi HR).
  set (p1 := (s + length (nt_integer n))%nat).
  assert (drop p1 number = R) as D1 by (eapply drop_past; [exact D0|done]).
  rewrite (substr_past _ _ _ _ p1 D0 eq_refl).
  rewrite (lookup_head_drop number p1), D1.
  rewrite (bool_decide_eq_false_2 (s = p1)) by (unfold p1; lia). cbn [orb].
  (* the fraction *)
  set (has_fraction := bool_decide (head R = Some ".")).
  set (fraction_begin := if has_fraction then S p1 else p1).
  assert (drop fraction_begin number = fraction_digits n ++ E /\
    count_while is_ascii_digit (drop fraction_begin number) = (if has_fraction then length (fraction_digits n) else 0%nat)
    /\ (has_fraction = false -> fraction_digits n = [])) as (D2 & Hcount & Hnofrac).
  { unfold fraction_begin, has_fraction, fraction_digits, R in *. destruct (nt_fraction n) as [f|]; cbn.
    - rewrite bool_decide_eq_true_2 by done.
      assert (drop (S p1) number = f ++ E) as D2.
      { apply (drop_past number ["."] (f ++ E) p1); [exact D1|cbn; lia]. }
      split; [done|]. rewrite D2. split; [|done]. apply count_run; [by apply Hf|].
      intros c Hc. by apply HE.
    - rewrite bool_decide_eq_false_2.
      2: { intros Hc. by apply HE in Hc as (_ & Hc & _). }
      cbn in D1. rewrite D1. split; [done|]. split; [|done].
      destruct E as [|c E'] eqn:EE; [done|]. apply count_while_stop. by apply HE. }
  set (p2 := (fraction_begin + length (fraction_digits n))%nat).
  assert ((if has_fraction then (fraction_begin + count_while is_ascii_digit (drop fraction_begin number))%nat
           else p1) = p2) as ->.
  { rewrite Hcount. unfold p2, fraction_begin. destruct has_fraction; [done|].
    rewrite Hnofrac by done. cbn. lia. }
  rewrite (substr_past _ _ _ _ p2 D2 eq_refl).
  replace (p2 - fraction_begin)%nat with (length (fraction_digits n)) by (unfold p2; lia).
  assert (drop p2 number = E) as D3 by (eapply drop_past; [exact D2|done]).
  rewrite (lookup_head_drop number p2), D3.
  assert (length number = p2 + length E)%nat as Hlen2.
  { rewrite <- D3, length_drop. enough (p2 <= length number)%nat by lia.
    unfold p2. pose proof (f_equal length D2) as Hl. rewrite length_drop, length_app in Hl.
    assert (fraction_begin <= length number)%nat; [|lia].
    unfold fraction_begin, p1, has_fraction, R in *. destruct (nt_fraction n); cbn in *; [|case_bool_decide; [|lia]].
    - rewrite bool_decide_eq_true_2 by done. lia.
    - by apply HE in H as (_ & H & _). }
  (* the exponent *)
  unfold exponent_part, exponent_is_negative. unfold E in *.
  destruct (nt_exponent n) as [[[m sg] d]|]; cbn [exponent_text head].
  2: { cbn in Hlen2. rewrite Nat.add_0_r in *. closed_decisions. cbn [orb andb].
       rewrite (bool_decide_eq_true_2 (p2 = length number)) by lia. done. }
  destruct (He m sg d eq_refl) as [Hm Hd].
  assert (bool_decide (Some m = Some "e") || bool_decide (Some m = Some "E") = true) as ->
    by (destruct Hm as [-> | ->]; reflexivity).
  cbn [andb].
  assert (drop (S p2) number = exponent_sign_text sg ++ d) as D4.
  { apply (drop_past number [m] _ p2); [exact D3|cbn; lia]. }
  rewrite (lookup_head_drop number (S p2)), D4. cbn [exponent_text length] in Hlen2.
  rewrite length_app in Hlen2.
  assert (count_while is_ascii_digit d = length d) as Hcd
    by (rewrite <- (app_nil_r d) at 1; by apply count_run).
  destruct sg as [[|]|]; cbn [exponent_sign_text app head length] in *.
  - closed_decisions. cbn [orb andb]. rewrite (drop_past number ["-"] d (S p2) (S (S p2)) D4) by (cbn; lia).
    rewrite Hcd, firstn_all, (bool_decide_eq_true_2 (_ = length number)) by lia. done.
  - closed_decisions. cbn [orb andb]. rewrite (drop_past number ["+"] d (S p2) (S (S p2)) D4) by (cbn; lia).
    rewrite Hcd, firstn_all, (bool_decide_eq_true_2 (_ = length number)) by lia. done.
  - assert (bool_decide (head d = Some "+") || bool_decide (head d = Some "-") = false) as ->.
    { destruct d as [|c d]; [done|]. apply Forall_cons in Hd as [Hc _]. cbn.
      rewrite !bool_decide_eq_false_2; [done|..]; intros [= ->]; by vm_compute in Hc. }
    cbn [andb]. rewrite D4, Hcd, firstn_all, (bool_decide_eq_true_2 (_ = length number)) by lia. done.
Qed.

Lemma denotes_nonneg_exponent N x f :
  0 <= x -> 0 <= f ->
  (exists z, N * 10 ^ Z.max x 0 = z * 10 ^ (f + Z.max (- x) 0)) <-> f <= x \/ (10 ^ (f - x) | N).
Proof.
  intros Hx Hf. rewrite (Z.max_l x 0), (Z.max_r (- x) 0), Z.add_0_r by lia.
  assert (forall k, 0 <= k -> 0 < 10 ^ k) as Hp by (intros; apply Z.pow_pos_nonneg; lia). split.
  - intros [z Hz]. destruct (decide (f <= x)) as [|Hlt]; [by left|right]. exists z.
    apply (Z.mul_reg_r _ _ (10 ^ x)); [specialize (Hp x Hx); lia|].
    rewrite Hz, <- Z.mul_assoc, <- Z.pow_add_r by lia. do 2 f_equal. lia.
  - intros [Hle|[z Hz]].
    + exists (N * 10 ^ (x - f)). rewrite <- Z.mul_assoc, <- Z.pow_add_r by lia. do 2 f_equal. lia.
    + destruct (decide (f <= x)).
      * exists (N * 10 ^ (x - f)). rewrite <- Z.mul_assoc, <- Z.pow_add_r by lia. do 2 f_equal. lia.
      * exists z. rewrite Hz, <- Z.mul_assoc, <- Z.pow_add_r by lia. do 2 f_equal. lia.
Qed.

Lemma denotes_negative_exponent N x f :
  0 <= x -> 0 <= f ->
  (exists z, N * 10 ^ Z.max (- x) 0 = z * 10 ^ (f + Z.max (- - x) 0)) <-> (10 ^ (f + x) | N).
Proof.
  intros Hx Hf. rewrite (Z.max_r (- x) 0), (Z.max_l (- - x) 0) by lia.
  rewrite Z.pow_0_r, Z.mul_1_r, Z.opp_involutive. done.
Qed.

(** C36: for every well-formed JSON number text, of any length and with an exponent of any size, the
    function answers whether the number it denotes is an integer. *)
Theorem json_number_is_integer_exact n :
  number_wf n -> json_number_is_integer (number_text n) = true <-> denotes_integer n.
Proof.
  intros Hn. rewrite walk_verdict by done. destruct Hn as (Hi & Hne & Hf & He).
  assert (digits (fraction_digits n)) as Hfd.
  { unfold fraction_digits. destruct (nt_fraction n) eqn:E; [by apply Hf|constructor]. }
  assert (digits (exponent_part n)) as Hed.
  { unfold exponent_part. destruct (nt_exponent n) as [[[m s] d]|] eqn:E; [by eapply He|constructor]. }
  assert (Z.of_nat (length (number_text n)) = Z.of_nat (length (sign_text (nt_negative n))) +
    Z.of_nat (length (nt_integer n)) + Z.of_nat (length (fraction_text (nt_fraction n))) +
    Z.of_nat (length (exponent_text (nt_exponent n)))) as Hcap
    by (unfold number_text; rewrite !length_app; lia).
  set (cap := Z.of_nat (length (number_text n))) in *.
  assert (0 < Z.of_nat (length (nt_integer n))) as Hpos by (destruct (nt_integer n); [done|cbn; lia]).
  assert (Z.of_nat (length (fraction_digits n)) <= Z.of_nat (length (fraction_text (nt_fraction n)))) as Hfl
    by (unfold fraction_digits; destruct (nt_fraction n); cbn; lia).
  assert (exponent_is_negative n = true -> 2 <= Z.of_nat (length (exponent_text (nt_exponent n)))) as Hel.
  { unfold exponent_is_negative. destruct (nt_exponent n) as [[[m [[|]|]] d]|]; cbn; [lia|done..]. }
  unfold verdict. rewrite (exponent_saturates cap) by (done || lia).
  assert (digits (nt_integer n ++ fraction_digits n)) as Hd by (apply Forall_app; done).
  pose proof (observe_digits _ Hd) as Hobs. cbv zeta in Hobs. rewrite length_app in Hobs.
  change (decimal (nt_integer n ++ fraction_digits n)) with (coefficient n) in Hobs.
  unfold denotes_integer. set (f := Z.of_nat (length (fraction_digits n))) in *.
  destruct (foldl observe_digit _ _) as [z t]. cbn [fst snd] in Hobs. destruct Hobs as [Ht Hobs].
  pose proof (decimal_nonneg _ Hed) as Hx. set (x := decimal (exponent_part n)) in *.
  destruct z.
  { split; [|done]. intros _. exists 0. rewrite Hobs. lia. }
  destruct Hobs as [_ Hdiv].
  assert (exponent n = if exponent_is_negative n then - x else x) as ->.
  { unfold exponent, exponent_is_negative, x, exponent_part.
    by destruct (nt_exponent n) as [[[m [[|]|]] d]|]. }
  destruct (exponent_is_negative n); cbn [negb].
  - rewrite denotes_negative_exponent, Hdiv by lia. specialize (Hel eq_refl).
    destruct (Z.ltb_spec t (Z.min cap x)); [split; [done|lia]|]. rewrite Z.leb_le. lia.
  - rewrite denotes_nonneg_exponent by lia. destruct (Z.leb_spec f (Z.min cap x)).
    + split; [intros _; left; lia|done].
    + rewrite Z.leb_le, Hdiv by lia. lia.
Qed.

Definition demo_number : NumberText := mkNumber true (lit "12") (Some (lit "50")) (Some ("e", None, lit "1")).

Lemma json_number_is_integer_exact_witness :
  number_wf demo_number /\ number_text demo_number = lit "-12.50e1" /\
  json_number_is_integer (number_text demo_number) = true.
Proof.
  assert (number_wf demo_number) as Hwf.
  { split; [repeat constructor|]. split; [done|]. split.
    - intros f [= <-]. repeat constructor.
    - intros m s d [= <- <- <-]. split; [by left|repeat constructor]. }
  split; [exact Hwf|]. split; [reflexivity|].
  apply (json_number_is_integer_exact demo_number Hwf). exists 125. reflexivity.
Defined.
