(* ===== verification/ToolCall.v ===== *)
(** * Qwen tool-call output: contract, parser and streaming decoder

    [models/qwen3_5/frontend/tool_call_parser.{h,cpp}]. The region parser works on positions in one
    text, as the code does; its unbounded loops carry fuel, and [ToolCallSpec] shows that the fuel
    given here is never exhausted. [Json::parse], [Json::accept] and the serialization of a string
    are parameters (nlohmann/json); a serialization may throw, on invalid UTF-8. *)

From Stdlib Require Import String.
From S2P Require Import Prelude Bytes JsonNumber.
Set Warnings "-register-all".
Open Scope char_scope.
Open Scope Z_scope.

Definition kToolOpen : bytes := lit "<tool_call>".
Definition kToolClose : bytes := lit "</tool_call>".
Definition kFunctionOpen : bytes := lit "<function=".
Definition kFunctionClose : bytes := lit "</function>".
Definition kParamOpen : bytes := lit "<parameter=".
Definition kParamClose : bytes := lit "</parameter>".

Definition nilb {A} (l : list A) : bool := match l with [] => true | _ => false end.
Definition some_b {A} (o : option A) : bool := match o with Some _ => true | None => false end.

(** ** Contract *)

Inductive SchemaType := TNull | TBoolean | TInteger | TNumber | TString | TObject | TArray.

(** [TypeSet::bits]. *)
Abbreviation TypeSet := Z.

Definition type_bit (t : SchemaType) : Z :=
  match t with
  | TNull => 1 | TBoolean => 2 | TInteger => 4 | TNumber => 8 | TString => 16 | TObject => 32 | TArray => 64
  end.

Definition admits_type (types : TypeSet) (t : SchemaType) : bool := negb (Z.land types (type_bit t) =? 0).

Inductive NormalizationPolicy := Legacy | DeclaredTypes.

Record ParameterContract := mkParameter {
  pa_name : bytes;
  pa_policy : NormalizationPolicy;
  pa_types : TypeSet;
}.

Record Tool := mkTool { tl_name : bytes; tl_parameters : list ParameterContract; tl_unambiguous : bool }.

Record Contract := mkContract { cn_tools : list Tool; cn_enforce_declared_names : bool }.

(** A parsed JSON value; the members of an object are in the order [items()] visits them. *)
Inductive Json :=
  | JNull
  | JBool (b : bool)
  | JNumber (text : bytes)
  | JString (s : bytes)
  | JArray (elements : list Json)
  | JObject (members : list (bytes * Json)).

#[export] Instance policy_eq_dec : EqDecision NormalizationPolicy.
Proof. solve_decision. Defined.
#[export] Instance parameter_eq_dec : EqDecision ParameterContract.
Proof. solve_decision. Defined.

Definition schema_type (name : bytes) : option SchemaType :=
  if bool_decide (name = lit "null") then Some TNull
  else if bool_decide (name = lit "boolean") then Some TBoolean
  else if bool_decide (name = lit "integer") then Some TInteger
  else if bool_decide (name = lit "number") then Some TNumber
  else if bool_decide (name = lit "string") then Some TString
  else if bool_decide (name = lit "object") then Some TObject
  else if bool_decide (name = lit "array") then Some TArray
  else None.

Fixpoint find_member (key : bytes) (members : list (bytes * Json)) : option Json :=
  match members with
  | [] => None
  | (k, v) :: members => if bool_decide (k = key) then Some v else find_member key members
  end.

(** The loop over the members of a type array: the bits of [types] when it ends, and what is returned;
    a member that names no type leaves the bits of the members before it. *)
Fixpoint direct_bits (bits : Z) (elements : list Json) : TypeSet * bool :=
  match elements with
  | [] => (bits, negb (bits =? 0))
  | JString s :: elements =>
      match schema_type s with
      | Some t => direct_bits (Z.lor bits (type_bit t)) elements
      | None => (bits, false)
      end
  | _ :: _ => (bits, false)
  end.

(** The out-parameter [types] and the result, also in the functions below. *)
Definition compile_direct_types (definition : Json) : TypeSet * bool :=
  match definition with
  | JString s => match schema_type s with Some t => (type_bit t, true) | None => (0, false) end
  | JArray (e :: elements) => direct_bits 0 (e :: elements)
  | _ => (0, false)
  end.

(** The alternatives are compiled inside the search for their member, so that the recursion is on a
    part of the schema.  Each writes a set of its own, which is dropped when one of them fails. *)
Fixpoint compile_schema_types (schema : Json) : TypeSet * bool :=
  let fix alternatives (combined : Z) (elements : list Json) : TypeSet * bool :=
    match elements with
    | [] => if combined =? 0 then (0, false) else (combined, true)
    | e :: elements =>
        let '(branch, ok) := compile_schema_types e in
        if ok then alternatives (Z.lor combined branch) elements else (0, false)
    end in
  let fix member_types (key : bytes) (members : list (bytes * Json)) : option (TypeSet * bool) :=
    match members with
    | [] => None
    | (k, v) :: members =>
        if bool_decide (k = key) then
          Some (match v with JArray (e :: elements) => alternatives 0 (e :: elements) | _ => (0, false) end)
        else member_types key members
    end in
  match schema with
  | JObject members =>
      match find_member (lit "type") members with
      | Some direct => compile_direct_types direct
      | None =>
          match member_types (lit "anyOf") members, member_types (lit "oneOf") members with
          | Some types, None => types
          | None, Some types => types
          | _, _ => (0, false)
          end
      end
  | _ => (0, false)
  end.

(** A parameter that stays [Legacy] keeps the bits that were written before its schema was refused. *)
Definition compile_parameter (member : bytes * Json) : ParameterContract :=
  let '(types, declared) := compile_schema_types member.2 in
  mkParameter member.1 (if declared then DeclaredTypes else Legacy) types.

(** A type array that fails midway leaves the bits before it, and [same_contract] compares them. *)
Example compile_parameter_partial :
  compile_parameter (lit "p", JObject [(lit "type", JArray [JString (lit "null"); JString (lit "x")])]) =
    mkParameter (lit "p") Legacy (type_bit TNull).
Proof. reflexivity. Qed.

Definition compile_tool_contract (definition : Json) : Tool :=
  match definition with
  | JObject members =>
      match find_member (lit "function") members with
      | Some (JObject function) =>
          match find_member (lit "name") function with
          | Some (JString name) =>
              match find_member (lit "parameters") function with
              | Some (JObject schema) =>
                  match find_member (lit "properties") schema with
                  | Some (JObject properties) => mkTool name (compile_parameter <$> properties) true
                  | _ => mkTool name [] true
                  end
              | _ => mkTool name [] true
              end
          | _ => mkTool [] [] true
          end
      | _ => mkTool [] [] true
      end
  | _ => mkTool [] [] true
  end.

Definition same_contract (lhs rhs : Tool) : bool := bool_decide (tl_parameters lhs = tl_parameters rhs).

Definition append_tool_contract (contract : Contract) (definition : Json) : Contract :=
  let compiled := compile_tool_contract definition in
  if nilb (tl_name compiled) then contract
  else
    match find_index (fun t => bool_decide (tl_name t = tl_name compiled)) (cn_tools contract) with
    | None => mkContract (cn_tools contract ++ [compiled]) (cn_enforce_declared_names contract)
    | Some i =>
        match cn_tools contract !! i with
        | Some existing =>
            if tl_unambiguous existing && negb (same_contract existing compiled) then
              mkContract (<[i := mkTool (tl_name existing) [] false]> (cn_tools contract))
                (cn_enforce_declared_names contract)
            else contract
        | None => contract
        end
    end.

Definition find_tool_contract (contract : Contract) (name : bytes) : option Tool :=
  find_index (fun t => bool_decide (tl_name t = name)) (cn_tools contract) ≫= fun i => cn_tools contract !! i.

Definition find_parameter_contract (tool : Tool) (name : bytes) : option ParameterContract :=
  find_index (fun p => bool_decide (pa_name p = name)) (tl_parameters tool) ≫= fun i => tl_parameters tool !! i.

(** ** Parsing a region *)

Record RawParameter := mkRawParameter { rp_name : bytes; rp_value : bytes }.
Record RawToolCall := mkRawToolCall { rc_name : bytes; rc_parameters : list RawParameter }.

Inductive FallbackReason :=
  | MalformedStructure
  | DuplicateParameter
  | InvalidToolName
  | UndeclaredTool
  | TrailingContent.

(** [FallbackReason::None] with the values the call produced, any other reason, or a loop that ran
    out of fuel. *)
Inductive Parsing (A : Type) :=
  | Parsed (a : A)
  | Fallback (r : FallbackReason)
  | OutOfFuel.
Arguments Parsed {A} a.
Arguments Fallback {A} r.
Arguments OutOfFuel {A}.

#[export] Instance parsing_ret : MRet Parsing := fun A a => Parsed a.
#[export] Instance parsing_bind : MBind Parsing := fun A B f p =>
  match p with Parsed a => f a | Fallback r => Fallback r | OutOfFuel => OutOfFuel end.

Definition is_ascii_alphanumeric (c : ascii) : bool :=
  let n := Z.of_nat (nat_of_ascii c) in
  ((97 <=? n) && (n <=? 122)) || ((65 <=? n) && (n <=? 90)) || is_ascii_digit c.

Definition valid_function_name (name : bytes) (max_name_length : nat) : bool :=
  negb (nilb name) && bool_decide (length name <= max_name_length)%nat &&
  forallb (fun c => is_ascii_alphanumeric c || bool_decide (c = "_") || bool_decide (c = "-")) name.

Section region.
Context (text : bytes) (max_name_length : nat) (contract : Contract).

Definition consume (pos : nat) (token : bytes) : option nat :=
  if starts_with_at text pos token then Some (pos + length token)%nat else None.

(** The [while] over parameter openings before [limit]. *)
Fixpoint find_open (fuel : nat) (candidate : option nat) (limit : nat) : Parsing (option nat) :=
  match candidate with
  | None => Parsed None
  | Some candidate =>
      if decide (limit <= candidate)%nat then Parsed None
      else
        match fuel with
        | O => OutOfFuel
        | S fuel =>
            let name_begin := (candidate + length kParamOpen)%nat in
            match find text [">"] name_begin with
            | Some name_end =>
                if bool_decide (name_end < limit)%nat && negb (bool_decide (name_end = name_begin))
                then Parsed (Some (name_end + 1)%nat)
                else find_open fuel (find text kParamOpen (candidate + 1)) limit
            | None => find_open fuel (find text kParamOpen (candidate + 1)) limit
            end
        end
  end.

Definition find_parameter_open_before (scan limit : nat) : Parsing (option nat) :=
  find_open (S (length text)) (find text kParamOpen scan) limit.

(** The loop of [find_parameter_close]; [None] is [return false]. *)
Fixpoint find_close (fuel : nat) (depth scan : nat) : Parsing (option nat) :=
  match fuel with
  | O => OutOfFuel
  | S fuel =>
      match find text kParamClose scan with
      | None => Parsed None
      | Some close =>
          nested ← find_parameter_open_before scan close;
          match nested with
          | Some open_end => find_close fuel (S depth) open_end
          | None =>
              let depth := pred depth in
              if decide (depth = 0)%nat then Parsed (Some close)
              else find_close fuel depth (close + length kParamClose)
          end
      end
  end.

Definition find_parameter_close (value_begin : nat) : Parsing (option nat) :=
  find_close (S (length text)) 1 value_begin.

(** The position after the parameter and the call with the parameter appended. *)
Definition parse_parameter (pos : nat) (call : RawToolCall) : Parsing (nat * RawToolCall) :=
  match consume pos kParamOpen with
  | None => Fallback MalformedStructure
  | Some name_begin =>
      match find text [">"] name_begin with
      | None => Fallback MalformedStructure
      | Some name_end =>
          if decide (name_end = name_begin) then Fallback MalformedStructure
          else
            let name := substr text name_begin (name_end - name_begin) in
            if existsb (fun p => bool_decide (rp_name p = name)) (rc_parameters call)
            then Fallback DuplicateParameter
            else
              let value_begin := (name_end + 1)%nat in
              close ← find_parameter_close value_begin;
              match close with
              | None => Fallback MalformedStructure
              | Some value_end =>
                  Parsed ((value_end + length kParamClose)%nat,
                    mkRawToolCall (rc_name call)
                      (rc_parameters call ++
                       [mkRawParameter name (substr text value_begin (value_end - value_begin))]))
              end
      end
  end.

Fixpoint parse_parameters (fuel : nat) (pos : nat) (call : RawToolCall) : Parsing (nat * RawToolCall) :=
  match fuel with
  | O => OutOfFuel
  | S fuel =>
      let pos := skip_format_whitespace text pos in
      match consume pos kFunctionClose with
      | Some pos => Parsed (pos, call)
      | None =>
          next ← parse_parameter pos call;
          parse_parameters fuel next.1 next.2
      end
  end.

Definition parse_function (pos : nat) : Parsing (nat * RawToolCall) :=
  match consume pos kFunctionOpen with
  | None => Fallback MalformedStructure
  | Some name_begin =>
      match find text [">"] name_begin with
      | None => Fallback InvalidToolName
      | Some name_end =>
          if decide (name_end = name_begin) then Fallback InvalidToolName
          else
            let name := substr text name_begin (name_end - name_begin) in
            if negb (valid_function_name name max_name_length) then Fallback InvalidToolName
            else if cn_enforce_declared_names contract && negb (some_b (find_tool_contract contract name))
            then Fallback UndeclaredTool
            else parse_parameters (S (length text)) (name_end + 1) (mkRawToolCall name [])
      end
  end.

Definition parse_tool_call (pos : nat) : Parsing (nat * RawToolCall) :=
  match consume pos kToolOpen with
  | None => Fallback MalformedStructure
  | Some pos =>
      next ← parse_function (skip_format_whitespace text pos);
      match consume (skip_format_whitespace text next.1) kToolClose with
      | Some pos => Parsed (pos, next.2)
      | None => Fallback MalformedStructure
      end
  end.

Fixpoint parse_calls (fuel : nat) (pos : nat) (calls : list RawToolCall) : Parsing (list RawToolCall) :=
  match fuel with
  | O => OutOfFuel
  | S fuel =>
      let pos := skip_format_whitespace text pos in
      if decide (pos = length text) then
        if nilb calls then Fallback MalformedStructure else Parsed calls
      else if negb (starts_with_at text pos kToolOpen) then
        Fallback (if nilb calls then MalformedStructure else TrailingContent)
      else
        next ← parse_tool_call pos;
        parse_calls fuel next.1 (calls ++ [next.2])
  end.

Definition parse_region : Parsing (list RawToolCall) := parse_calls (S (length text)) 0 [].
End region.

(** ** Normalizing arguments *)

Definition remove_parameter_framing_newlines (text : bytes) : bytes :=
  let begin_ := if starts_with_at text 0 ["013"; "010"] then 2%nat
                else if starts_with_at text 0 ["010"] then 1%nat else 0%nat in
  let end_ := length text in
  let end_ :=
    if bool_decide (begin_ + 2 <= end_)%nat && bool_decide (substr text (end_ - 2) 2 = ["013"; "010"])
    then (end_ - 2)%nat
    else if bool_decide (begin_ < end_)%nat && bool_decide (text !! (end_ - 1)%nat = Some "010")
    then (end_ - 1)%nat else end_ in
  substr text begin_ (end_ - begin_).

Definition ascii_lower (c : ascii) : ascii :=
  let n := nat_of_ascii c in
  if (65 <=? Z.of_nat n) && (Z.of_nat n <=? 90) then ascii_of_nat (n + 32) else c.

Definition ascii_case_equal (text lowercase : bytes) : bool := bool_decide (ascii_lower <$> text = lowercase).

Inductive JsonValueKind := KNull | KBoolean | KInteger | KNumber | KString | KObject | KArray.

Definition admits_value (types : TypeSet) (kind : JsonValueKind) : bool :=
  match kind with
  | KNull => admits_type types TNull
  | KBoolean => admits_type types TBoolean
  | KInteger => admits_type types TInteger || admits_type types TNumber
  | KNumber => admits_type types TNumber
  | KString => admits_type types TString
  | KObject => admits_type types TObject
  | KArray => admits_type types TArray
  end.

Inductive ParameterNormalization := Emitted | Omitted | SchemaMismatch.

Record ToolCallParseDiagnostics := mkDiagnostics {
  marker_seen : bool;
  structured_call_count : Z;
  empty_arguments_omitted : Z;
  schema_mismatch_arguments : Z;
  fallback_reason : option FallbackReason;
}.

Definition no_diagnostics : ToolCallParseDiagnostics := mkDiagnostics false 0 0 0 None.

Record GeneratedToolCall := mkGenerated { gc_name : bytes; gc_arguments_json : bytes }.

Record ParsedToolCallOutput := mkOutput {
  is_tool_call_response : bool;
  po_content : bytes;
  po_tool_calls : list GeneratedToolCall;
  po_diagnostics : ToolCallParseDiagnostics;
}.

Section json.
(** [Json::parse], [Json::accept] and [Json(value).dump()]. *)
Context (json_parse : bytes -> option Json) (json_accept : bytes -> bool) (encode_json_string : bytes -> result bytes).

Definition build_tool_call_output_contract (tool_jsons : list bytes) (enabled : bool) : option Contract :=
  if negb enabled then None
  else
    Some (foldl (fun contract tool_json =>
            match json_parse tool_json with
            | Some definition => append_tool_contract contract definition
            | None => contract
            end) (mkContract [] true) tool_jsons).

Definition classify_json_value (value : bytes) : option JsonValueKind :=
  match value with
  | [] => None
  | c :: _ =>
      if negb (json_accept value) then None
      else if bool_decide (c = "n") then Some KNull
      else if bool_decide (c = "t") || bool_decide (c = "f") then Some KBoolean
      else if bool_decide (c = "034") then Some KString
      else if bool_decide (c = "{") then Some KObject
      else if bool_decide (c = "[") then Some KArray
      else if bool_decide (c = "-") || is_ascii_digit c then
        Some (if json_number_is_integer value then KInteger else KNumber)
      else None
  end.

(** The disposition and the JSON text of a value. *)
Definition normalize_declared_parameter (encoded_value : bytes) (types : TypeSet)
    : result (ParameterNormalization * bytes) :=
  let framed := remove_parameter_framing_newlines encoded_value in
  if admits_type types TString then
    json ← encode_json_string framed;
    Ok (Emitted, json)
  else
    let value := trim_format_whitespace framed in
    if nilb value then Ok (Omitted, [])
    else
      match classify_json_value value with
      | Some kind => Ok (if admits_value types kind then Emitted else SchemaMismatch, value)
      | None =>
          if admits_type types TBoolean && ascii_case_equal value (lit "true")
          then Ok (Emitted, lit "true")
          else if admits_type types TBoolean && ascii_case_equal value (lit "false")
          then Ok (Emitted, lit "false")
          else
            json ← encode_json_string framed;
            Ok (SchemaMismatch, json)
      end.

Definition normalize_parameter (encoded_value : bytes) (parameter : option ParameterContract)
    : result (ParameterNormalization * bytes) :=
  let legacy :=
    let value := trim_format_whitespace encoded_value in
    if json_accept value then Ok (Emitted, value)
    else json ← encode_json_string value; Ok (Emitted, json) in
  match parameter with
  | Some p =>
      match pa_policy p with
      | DeclaredTypes => normalize_declared_parameter encoded_value (pa_types p)
      | Legacy => legacy
      end
  | None => legacy
  end.

Definition count_omitted (d : ToolCallParseDiagnostics) : ToolCallParseDiagnostics :=
  mkDiagnostics (marker_seen d) (structured_call_count d) (w32 (empty_arguments_omitted d + 1))
    (schema_mismatch_arguments d) (fallback_reason d).
Definition count_mismatch (d : ToolCallParseDiagnostics) : ToolCallParseDiagnostics :=
  mkDiagnostics (marker_seen d) (structured_call_count d) (empty_arguments_omitted d)
    (w32 (schema_mismatch_arguments d + 1)) (fallback_reason d).

(** The loop over the parameters: the arguments text so far and whether it is still empty. *)
Fixpoint normalize_arguments (tool : option Tool) (raws : list RawParameter) (arguments : bytes) (first : bool)
    (d : ToolCallParseDiagnostics) : result (bytes * ToolCallParseDiagnostics) :=
  match raws with
  | [] => Ok (arguments, d)
  | raw :: raws =>
      let parameter := tool ≫= fun t => find_parameter_contract t (rp_name raw) in
      normalized ← normalize_parameter (rp_value raw) parameter;
      let disposition :=
        if some_b tool && negb (some_b parameter) then SchemaMismatch else (normalized : _ * bytes).1 in
      match disposition with
      | Omitted => normalize_arguments tool raws arguments first (count_omitted d)
      | _ =>
          let d := match disposition with SchemaMismatch => count_mismatch d | _ => d end in
          name ← encode_json_string (rp_name raw);
          normalize_arguments tool raws
            (arguments ++ (if first then [] else [","]) ++ name ++ [":"] ++ normalized.2) false d
      end
  end.

Definition normalize_raw_tool_call (raw : RawToolCall) (contract : Contract) (d : ToolCallParseDiagnostics)
    : result (GeneratedToolCall * ToolCallParseDiagnostics) :=
  let tool := find_tool_contract contract (rc_name raw) in
  let tool := match tool with Some t => if tl_unambiguous t then Some t else None | None => None end in
  r ← normalize_arguments tool (rc_parameters raw) ["{"] true d;
  Ok (mkGenerated (rc_name raw) ((r : bytes * _).1 ++ ["}"]), r.2).

Fixpoint normalize_calls (raws : list RawToolCall) (contract : Contract) (calls : list GeneratedToolCall)
    (d : ToolCallParseDiagnostics) : result (list GeneratedToolCall * ToolCallParseDiagnostics) :=
  match raws with
  | [] => Ok (calls, d)
  | raw :: raws =>
      r ← normalize_raw_tool_call raw contract d;
      normalize_calls raws contract (calls ++ [(r : GeneratedToolCall * _).1]) r.2
  end.

Definition fallback (text : bytes) (d : ToolCallParseDiagnostics) : ParsedToolCallOutput :=
  mkOutput false text [] d.

Definition parse_qwen_tool_call_output (text : bytes) (max_tool_name_length : nat) (contract : Contract)
    : result ParsedToolCallOutput :=
  match find text kToolOpen 0 with
  | None => Ok (fallback text no_diagnostics)
  | Some first =>
      let content := rtrim_format_whitespace (substr text 0 first) in
      let d := mkDiagnostics true 0 0 0 None in
      match parse_region (drop first text) max_tool_name_length contract with
      | OutOfFuel => Throw Terminate
      | Fallback r => Ok (fallback text (mkDiagnostics true 0 0 0 (Some r)))
      | Parsed raw_calls =>
          r ← normalize_calls raw_calls contract [] d;
          let d := (r : list GeneratedToolCall * _).2 in
          Ok (mkOutput true content r.1
                (mkDiagnostics (marker_seen d) (w32 (Z.of_nat (length r.1))) (empty_arguments_omitted d)
                   (schema_mismatch_arguments d) (fallback_reason d)))
      end
  end.

(** ** The streaming decoder *)

Record Decoder := mkDecoder {
  dc_contract : option Contract;
  dc_trailing_whitespace : bytes;
  dc_tool_region : bytes;
  dc_marker_prefix_bytes : nat;
  dc_max_tool_name_length : nat;
  dc_saw_tool_marker : bool;
  dc_finished : bool;
}.

Definition make_decoder (contract : option Contract) (max_tool_name_length : nat) : Decoder :=
  mkDecoder contract [] [] 0 max_tool_name_length false false.

(** The decoder with the three fields a byte changes. *)
Definition with_prefix (d : Decoder) (trailing : bytes) (prefix : nat) : Decoder :=
  mkDecoder (dc_contract d) trailing (dc_tool_region d) prefix (dc_max_tool_name_length d)
    (dc_saw_tool_marker d) (dc_finished d).
Definition with_region (d : Decoder) (region : bytes) : Decoder :=
  mkDecoder (dc_contract d) [] region 0 (dc_max_tool_name_length d) true (dc_finished d).

(** The part of the loop body after the marker test: classify one byte. *)
Definition feed_plain (c : ascii) (visible : bytes) (d : Decoder) : bytes * Decoder :=
  if bool_decide (head kToolOpen = Some c) then (visible, with_prefix d (dc_trailing_whitespace d) 1)
  else if is_format_whitespace c then (visible, with_prefix d (dc_trailing_whitespace d ++ [c]) 0)
  else (visible ++ dc_trailing_whitespace d ++ [c], with_prefix d [] 0).

(** The loop of [feed]; [visible] is the text to publish so far. *)
Fixpoint feed_bytes (text : bytes) (visible : bytes) (d : Decoder) : bytes * Decoder :=
  match text with
  | [] => (visible, d)
  | c :: text =>
      let k := dc_marker_prefix_bytes d in
      if decide (k = 0)%nat then
        let '(visible, d) := feed_plain c visible d in feed_bytes text visible d
      else if bool_decide (kToolOpen !! k = Some c) then
        if decide (S k = length kToolOpen) then
          (visible, with_region d (dc_trailing_whitespace d ++ kToolOpen ++ text))
        else feed_bytes text visible (with_prefix d (dc_trailing_whitespace d) (S k))
      else
        let visible := visible ++ dc_trailing_whitespace d ++ take k kToolOpen in
        let '(visible, d) := feed_plain c visible (with_prefix d [] 0) in feed_bytes text visible d
  end.

Definition feed (text : bytes) : M Decoder bytes :=
  d ← mget;
  _ ← mthrow_if (dc_finished d) LogicError;
  if nilb text then mret []
  else if negb (some_b (dc_contract d)) then mret text
  else if (dc_saw_tool_marker d : bool) then
    _ ← mput (mkDecoder (dc_contract d) (dc_trailing_whitespace d) (dc_tool_region d ++ text)
                (dc_marker_prefix_bytes d) (dc_max_tool_name_length d) (dc_saw_tool_marker d)
                (dc_finished d));
    mret []
  else
    let '(visible, d) := feed_bytes text [] d in
    _ ← mput d;
    mret visible.

Record Terminal := mkTerminal {
  tm_content : bytes;
  tm_tool_calls : list GeneratedToolCall;
  tm_diagnostics : ToolCallParseDiagnostics;
}.

Definition finished (d : Decoder) (trailing region : bytes) (prefix : nat) : Decoder :=
  mkDecoder (dc_contract d) trailing region prefix (dc_max_tool_name_length d) (dc_saw_tool_marker d) true.

Definition finish : M Decoder Terminal :=
  d ← mget;
  _ ← mthrow_if (dc_finished d) LogicError;
  _ ← mput (finished d (dc_trailing_whitespace d) (dc_tool_region d) (dc_marker_prefix_bytes d));
  match dc_contract d with
  | None => mret (mkTerminal [] [] no_diagnostics)
  | Some contract =>
      parsed ← mlift (parse_qwen_tool_call_output (dc_tool_region d) (dc_max_tool_name_length d) contract);
      _ ← mput (finished d [] [] 0);
      if dc_saw_tool_marker d && is_tool_call_response parsed then
        mret (mkTerminal [] (po_tool_calls parsed) (po_diagnostics parsed))
      else
        mret (mkTerminal
                (dc_trailing_whitespace d ++ take (dc_marker_prefix_bytes d) kToolOpen ++ dc_tool_region d)
                [] (po_diagnostics parsed))
  end.
End json.
