(* ===== verification/ToolCallDecoder.v ===== *)
(** * The streaming decoder equals the batch parser

    [ToolCallOutputDecoder] publishes bytes as they arrive; for every way of splitting the output
    into chunks it gives what [parse_qwen_tool_call_output] gives on the whole text. *)

From Stdlib Require Import String.
From S2P Require Import Prelude Bytes ToolCall.
Open Scope char_scope.
Open Scope Z_scope.

(** ** Occurrences *)

Definition occurs_in (sub text : bytes) : Prop := exists pre post, text = pre ++ sub ++ post.

Lemma find_none_occurs text sub : find text sub 0 = None <-> ~ occurs_in sub text.
Proof.
  rewrite find_None. split.
  - intros H (pre & post & ->). pose proof (starts_with_at_middle pre sub post) as E.
    rewrite H in E by lia. done.
  - intros H j _. destruct (starts_with_at text j sub) eqn:E; [|done]. destruct H.
    apply starts_with_at_spec in E as (pre & post & -> & _). by exists pre, post.
Qed.

(** An occurrence in an extended text is in the text or ends with the new byte. *)
Lemma occurs_in_snoc sub text c :
  occurs_in sub (text ++ [c]) -> occurs_in sub text \/ sub `suffix_of` text ++ [c].
Proof.
  intros (pre & post & E). destruct post as [|x post _] using rev_ind.
  - right. exists pre. by rewrite app_nil_r in E.
  - left. rewrite !app_assoc in E. apply app_inj_tail in E as [-> _]. exists pre, post.
    by rewrite app_assoc.
Qed.

(** The first occurrence, when it ends with the byte after a text without one. *)
Lemma find_at_end t a sub rest c :
  ~ occurs_in sub t -> t ++ [c] = a ++ sub -> find (t ++ [c] ++ rest) sub 0 = Some (length a).
Proof.
  intros Hno E. apply find_Some. split; [lia|].
  assert (t ++ [c] ++ rest = a ++ sub ++ rest) as Et by (by rewrite !app_assoc, E).
  split; [rewrite Et; apply starts_with_at_middle|].
  intros j Hj. destruct (starts_with_at _ j sub) eqn:Es; [|done]. exfalso. apply Hno.
  apply starts_with_at_spec in Es as (pre & post & Ep & Hl).
  pose proof (f_equal length E) as Hlen. rewrite !length_app in Hlen. cbn in Hlen.
  exists pre, (drop (length pre + length sub) t).
  rewrite <- (take_drop (length pre + length sub) t) at 1. rewrite app_assoc. f_equal.
  assert (take (length pre + length sub) (t ++ [c] ++ rest) = take (length pre + length sub) t) as <-
    by (apply take_app_le; lia).
  rewrite Ep, app_assoc, <- length_app. by rewrite take_app_length.
Qed.

(** ** The marker automaton *)

Lemma suffix_snoc (p t : bytes) x c : p ++ [x] `suffix_of` t ++ [c] <-> x = c /\ p `suffix_of` t.
Proof.
  split.
  - intros [pre E]. rewrite app_assoc in E. apply app_inj_tail in E as [-> ->]. split; [done|]. by exists pre.
  - intros [-> [pre ->]]. exists pre. by rewrite app_assoc.
Qed.

Lemma take_marker_S k :
  (k < length kToolOpen)%nat -> exists x, kToolOpen !! k = Some x /\ take (S k) kToolOpen = take k kToolOpen ++ [x].
Proof.
  intros Hk. destruct (lookup_lt_is_Some_2 kToolOpen k Hk) as [x Hx]. exists x.
  split; [done|]. by apply take_S_r.
Qed.

(** The marker has no proper border: a prefix that ends another prefix is that prefix. *)
Lemma marker_border a b :
  (0 < a <= b)%nat -> (b < length kToolOpen)%nat -> take a kToolOpen `suffix_of` take b kToolOpen -> a = b.
Proof.
  intros Ha Hb [pre E].
  assert (drop (b - a) (take b kToolOpen) = take a kToolOpen) as Ed.
  { rewrite E. apply drop_app_length'. pose proof (f_equal length E) as Hl.
    rewrite length_app, !length_take in Hl. lia. }
  assert (forallb (fun b => forallb (fun a => negb (bool_decide (0 < a < b)%nat) ||
    negb (bool_decide (drop (b - a) (take b kToolOpen) = take a kToolOpen))) (seq 0 11)) (seq 0 11) = true)
    as Hall by (vm_compute; reflexivity).
  rewrite forallb_forall in Hall. change (length kToolOpen) with 11%nat in Hb.
  specialize (Hall b ltac:(apply in_seq; lia)). rewrite forallb_forall in Hall.
  specialize (Hall a ltac:(apply in_seq; lia)). rewrite (bool_decide_eq_true_2 (drop _ _ = _)) in Hall by done.
  rewrite orb_false_r, negb_true_iff, bool_decide_eq_false in Hall. lia.
Qed.

(** [k] is the length of the longest proper prefix of the marker that ends the text. *)
Definition longest_prefix (t : bytes) (k : nat) : Prop :=
  (k < length kToolOpen)%nat /\ take k kToolOpen `suffix_of` t /\
  forall j, (j < length kToolOpen)%nat -> take j kToolOpen `suffix_of` t -> (j <= k)%nat.

Lemma suffix_of_both (p q t : bytes) :
  p `suffix_of` t -> q `suffix_of` t -> (length p <= length q)%nat -> p `suffix_of` q.
Proof.
  intros [a ->] [b E] Hle. apply app_eq_inv in E as [(k & -> & ->)|(k & -> & ->)].
  - by exists k.
  - rewrite length_app in Hle. destruct k; [by exists []|cbn in Hle; lia].
Qed.

Lemma longest_suffix_step t k j c x :
  longest_prefix t k -> (j < length kToolOpen)%nat -> kToolOpen !! j = Some x ->
  take (S j) kToolOpen `suffix_of` t ++ [c] -> x = c /\ (j = 0%nat \/ j = k).
Proof.
  intros (Hk & Hs & Hmax) Hj Hx Hsuf.
  destruct (take_marker_S j Hj) as (y & Hy & E). rewrite Hy in Hx. injection Hx as ->.
  rewrite E in Hsuf. apply suffix_snoc in Hsuf as [-> Hsuf]. split; [done|].
  destruct (decide (j = 0%nat)) as [|Hne]; [by left|right].
  pose proof (Hmax j Hj Hsuf). apply (marker_border j k); [lia|done|].
  eapply suffix_of_both; [exact Hsuf|exact Hs|]. rewrite !length_take. lia.
Qed.

(** One byte that continues the prefix. *)
Lemma longest_continue t k c :
  longest_prefix t k -> kToolOpen !! k = Some c -> (S k < length kToolOpen)%nat -> longest_prefix (t ++ [c]) (S k).
Proof.
  intros H Hc Hlt. destruct (take_marker_S k) as (x & Hx & E); [lia|].
  rewrite Hx in Hc. injection Hc as ->. split; [done|]. split.
  - rewrite E. apply suffix_snoc. split; [done|apply H].
  - intros j Hj Hsuf. destruct j as [|j]; [lia|].
    destruct (lookup_lt_is_Some_2 kToolOpen j ltac:(lia)) as [y Hy].
    destruct (longest_suffix_step t k j c y H ltac:(lia) Hy Hsuf) as [_ [->| ->]]; lia.
Qed.

(** One byte that does not: the prefix restarts. *)
Lemma longest_restart t k c :
  longest_prefix t k -> kToolOpen !! k <> Some c ->
  longest_prefix (t ++ [c]) (if bool_decide (head kToolOpen = Some c) then 1 else 0).
Proof.
  intros H Hc.
  assert (forall j, (j < length kToolOpen)%nat -> take j kToolOpen `suffix_of` t ++ [c] ->
    (j = 0 \/ j = 1 /\ head kToolOpen = Some c)%nat) as Hj.
  { intros [|j] Hj Hsuf; [by left|]. right.
    destruct (lookup_lt_is_Some_2 kToolOpen j ltac:(lia)) as [y Hy].
    destruct (longest_suffix_step t k j c y H ltac:(lia) Hy Hsuf) as [-> [->| ->]]; [|congruence].
    split; [done|]. by destruct kToolOpen. }
  case_bool_decide as Hh.
  - split; [cbn; lia|]. split.
    + exists t. cbn in Hh. by injection Hh as <-.
    + intros j Hlt Hsuf. destruct (Hj j Hlt Hsuf) as [|[]]; lia.
  - split; [cbn; lia|]. split; [exists (t ++ [c]); by rewrite app_nil_r|].
    intros j Hlt Hsuf. destruct (Hj j Hlt Hsuf) as [|[_ ?]]; [lia|done].
Qed.

(** The marker is complete exactly when its last byte continues the full proper prefix. *)
Lemma marker_completes t k c :
  longest_prefix t k -> kToolOpen `suffix_of` t ++ [c] -> S k = length kToolOpen /\ kToolOpen !! k = Some c.
Proof.
  intros H Hsuf. change kToolOpen with (take (S 10) kToolOpen) in Hsuf at 1.
  destruct (longest_suffix_step t k 10 c ">" H ltac:(cbn; lia) eq_refl Hsuf) as [<- [|<-]]; [lia|done].
Qed.

(** ** The decoder's invariant *)

Abbreviation all_space := (Forall (fun c => is_format_whitespace c = true)).

(** Nothing published ends in whitespace that could still belong before a marker. *)
Definition ends_solid (out : bytes) : Prop := forall c, last out = Some c -> is_format_whitespace c = false.

(** [t] has been fed and [out] published. *)
Definition reading (t out : bytes) (d : Decoder) : Prop :=
  dc_saw_tool_marker d = false /\ dc_tool_region d = [] /\
  t = out ++ dc_trailing_whitespace d ++ take (dc_marker_prefix_bytes d) kToolOpen /\
  all_space (dc_trailing_whitespace d) /\ ends_solid out /\
  longest_prefix t (dc_marker_prefix_bytes d) /\ ~ occurs_in kToolOpen t.

Definition buffering (t out : bytes) (d : Decoder) : Prop :=
  dc_saw_tool_marker d = true /\ dc_trailing_whitespace d = [] /\ dc_marker_prefix_bytes d = 0%nat /\
  exists ws rest, dc_tool_region d = ws ++ kToolOpen ++ rest /\ all_space ws /\ ends_solid out /\
    t = out ++ dc_tool_region d /\ find t kToolOpen 0 = Some (length out + length ws)%nat.

Definition decoder_inv (contract : Contract) (maximum : nat) (t out : bytes) (d : Decoder) : Prop :=
  dc_contract d = Some contract /\ dc_max_tool_name_length d = maximum /\ dc_finished d = false /\
  (reading t out d \/ buffering t out d).

Lemma marker_solid k c : kToolOpen !! k = Some c -> is_format_whitespace c = false.
Proof. intros Hc. do 11 (destruct k as [|k]; [by injection Hc as <-|]). done. Qed.

Lemma ends_solid_snoc out c : is_format_whitespace c = false -> ends_solid (out ++ [c]).
Proof. intros Hc x. rewrite last_snoc. by intros [= <-]. Qed.

Lemma ends_solid_prefix out k :
  (0 < k < length kToolOpen)%nat -> ends_solid (out ++ take k kToolOpen).
Proof.
  intros Hk. destruct k as [|k]; [lia|]. destruct (take_marker_S k) as (x & Hx & ->); [lia|].
  rewrite app_assoc. apply ends_solid_snoc. by eapply marker_solid.
Qed.

(** Classifying one byte with no marker prefix pending. *)
Lemma feed_plain_reading c visible d d' visible' published t :
  dc_saw_tool_marker d = false -> dc_tool_region d = [] ->
  t = (published ++ visible) ++ dc_trailing_whitespace d ->
  all_space (dc_trailing_whitespace d) -> ends_solid (published ++ visible) ->
  ~ occurs_in kToolOpen (t ++ [c]) ->
  longest_prefix (t ++ [c]) (if bool_decide (head kToolOpen = Some c) then 1 else 0) ->
  feed_plain c visible d = (visible', d') -> reading (t ++ [c]) (published ++ visible') d'.
Proof.
  intros Hsaw Hreg Ht Hws Hsolid Hno Hlong.
  unfold feed_plain, reading.
  destruct (decide (head kToolOpen = Some c)) as [Hh|Hh].
  - rewrite !(bool_decide_eq_true_2 _ Hh) in *. intros [= <- <-].
    cbn [with_prefix dc_saw_tool_marker dc_tool_region dc_trailing_whitespace dc_marker_prefix_bytes].
    split; [done|]. split; [done|]. split; [|done].
    rewrite Ht. cbn in Hh. injection Hh as <-. by rewrite <- !app_assoc.
  - rewrite !(bool_decide_eq_false_2 _ Hh) in *. destruct (is_format_whitespace c) eqn:Ec; intros [= <- <-].
    all: cbn [with_prefix dc_saw_tool_marker dc_tool_region dc_trailing_whitespace dc_marker_prefix_bytes take].
    + split; [done|]. split; [done|]. split; [by rewrite Ht, app_nil_r, <- !app_assoc|].
      split; [|done]. apply Forall_app. split; [done|]. by constructor.
    + split; [done|]. split; [done|]. split; [by rewrite Ht, !app_nil_r, <- !app_assoc|].
      split; [done|]. split; [|done]. rewrite !app_assoc. by apply ends_solid_snoc.
Qed.

(** Publishing the pending whitespace and marker prefix. *)
Lemma flush_reading published visible d t :
  reading t (published ++ visible) d -> (0 < dc_marker_prefix_bytes d)%nat ->
  let d' := with_prefix d [] 0 in
  dc_saw_tool_marker d' = false /\ dc_tool_region d' = [] /\
  t = (published ++ visible ++ dc_trailing_whitespace d ++ take (dc_marker_prefix_bytes d) kToolOpen) /\
  ends_solid (published ++ visible ++ dc_trailing_whitespace d ++ take (dc_marker_prefix_bytes d) kToolOpen).
Proof.
  intros (Hsaw & Hreg & Ht & Hws & Hsolid & (Hk & _) & Hno) Hpos. cbn.
  split; [done|]. split; [done|]. split; [by rewrite Ht, <- !app_assoc|].
  rewrite !app_assoc. rewrite <- (app_assoc published). by apply ends_solid_prefix.
Qed.

Lemma no_marker_step t k c :
  ~ occurs_in kToolOpen t -> longest_prefix t k -> kToolOpen !! k <> Some c \/ S k <> length kToolOpen ->
  ~ occurs_in kToolOpen (t ++ [c]).
Proof.
  intros Hno Hl Hc [H|H]%occurs_in_snoc; [done|].
  destruct (marker_completes t k c Hl H) as [? ?]. destruct Hc; done.
Qed.

Lemma feed_plain_config c visible d visible' d' :
  feed_plain c visible d = (visible', d') ->
  dc_contract d' = dc_contract d /\ dc_max_tool_name_length d' = dc_max_tool_name_length d /\
  dc_finished d' = dc_finished d.
Proof.
  unfold feed_plain. case_bool_decide; [|destruct (is_format_whitespace c)]; by intros [= _ <-].
Qed.

Lemma feed_bytes_inv contract maximum text : forall t published visible d,
  decoder_inv contract maximum t (published ++ visible) d -> dc_saw_tool_marker d = false ->
  let '(visible', d') := feed_bytes text visible d in
  decoder_inv contract maximum (t ++ text) (published ++ visible') d'.
Proof.
  induction text as [|c text IH]; intros t published visible d Hinv Hsaw; cbn [feed_bytes].
  { by rewrite app_nil_r. }
  destruct Hinv as (Hc & Hm & Hf & [Hr|(Hs & _)]); [|congruence].
  assert (forall u, t ++ c :: u = (t ++ [c]) ++ u) as Eapp by (intros; by rewrite <- app_assoc).
  pose proof Hr as (_ & Hreg & Ht & Hws & Hsolid & Hlong & Hno).
  case_decide as Hk.
  - (* no prefix pending *)
    destruct (feed_plain c visible d) as [v1 d1] eqn:E.
    destruct (feed_plain_config _ _ _ _ _ E) as (E1 & E2 & E3).
    assert (reading (t ++ [c]) (published ++ v1) d1) as Hr1.
    { rewrite Hk in Ht. cbn [take] in Ht. rewrite app_nil_r in Ht.
      eapply feed_plain_reading; [exact Hsaw|exact Hreg|exact Ht|exact Hws|exact Hsolid| | |exact E].
      - apply (no_marker_step t _ c Hno Hlong). right. rewrite Hk. cbn. lia.
      - destruct (decide (head kToolOpen = Some c)) as [Hh|Hh].
        + rewrite bool_decide_eq_true_2 by done. rewrite Hk in Hlong.
          apply longest_continue; [done| |cbn; lia]. by destruct kToolOpen.
        + apply (longest_restart t _ c Hlong). rewrite Hk. by destruct kToolOpen. }
    rewrite Eapp. apply IH; [|apply Hr1]. split; [congruence|]. split; [congruence|]. split; [congruence|].
    by left.
  - case_bool_decide as Hm'.
    + case_decide as Hlast.
      * (* the marker is complete *)
        split; [done|]. split; [done|]. split; [done|]. right.
        assert (t ++ [c] = (published ++ visible ++ dc_trailing_whitespace d) ++ kToolOpen) as Et.
        { rewrite Ht, <- !app_assoc. do 3 f_equal.
          destruct (take_marker_S (dc_marker_prefix_bytes d)) as (x & Hx & Ex); [lia|].
          rewrite Hx in Hm'. injection Hm' as ->. rewrite <- Ex, Hlast. by apply firstn_all. }
        split; [done|]. split; [done|]. split; [done|].
        exists (dc_trailing_whitespace d), text. cbn [with_region dc_tool_region].
        split; [done|]. split; [done|]. split; [done|]. split.
        -- rewrite Eapp, Et. by rewrite <- !app_assoc.
        -- pose proof (find_at_end t _ kToolOpen text c Hno Et) as Hfind. cbn [app] in Hfind.
           rewrite Hfind. rewrite !length_app. f_equal. lia.
      * rewrite Eapp. apply IH; [|done]. split; [done|]. split; [done|]. split; [done|]. left.
        assert (S (dc_marker_prefix_bytes d) < length kToolOpen)%nat as Hlt by (destruct Hlong; lia).
        split; [done|]. split; [done|].
        cbn [with_prefix dc_trailing_whitespace dc_marker_prefix_bytes]. split.
        { destruct (take_marker_S (dc_marker_prefix_bytes d)) as (x & Hx & ->); [lia|].
          rewrite Hx in Hm'. injection Hm' as ->. rewrite Ht. by rewrite <- !app_assoc. }
        split; [done|]. split; [done|]. split; [by apply longest_continue|].
        apply (no_marker_step t _ c Hno Hlong). by right.
    + (* the prefix breaks off *)
      destruct (flush_reading published visible d t Hr ltac:(lia)) as (F1 & F2 & F3 & F4).
      set (d0 := with_prefix d [] 0) in *.
      set (v0 := visible ++ dc_trailing_whitespace d ++ take (dc_marker_prefix_bytes d) kToolOpen) in *.
      destruct (feed_plain c v0 d0) as [v1 d1] eqn:E.
      destruct (feed_plain_config _ _ _ _ _ E) as (E1 & E2 & E3).
      assert (reading (t ++ [c]) (published ++ v1) d1) as Hr1.
      { eapply feed_plain_reading; [exact F1|exact F2| |constructor|exact F4| | |exact E].
        - by rewrite F3, app_nil_r.
        - apply (no_marker_step t _ c Hno Hlong). by left.
        - by apply (longest_restart t _ c Hlong). }
      rewrite Eapp. apply IH; [|apply Hr1]. split; [by rewrite E1|]. split; [by rewrite E2|].
      split; [by rewrite E3|]. by left.
Qed.

(** ** Sessions *)

Lemma starts_with_at_app text u i sub :
  (i + length sub <= length text)%nat -> starts_with_at (text ++ u) i sub = starts_with_at text i sub.
Proof.
  intros H. unfold starts_with_at, substr. rewrite length_app, drop_app_le by lia.
  rewrite take_app_le by (rewrite length_drop; lia). do 2 f_equal.
  apply bool_decide_ext. lia.
Qed.

Lemma find_extend text u sub i : find text sub 0 = Some i -> find (text ++ u) sub 0 = Some i.
Proof.
  intros (_ & Hs & Hmin)%find_Some. pose proof (starts_with_at_le _ _ _ Hs).
  apply find_Some. split; [lia|]. split; [by rewrite starts_with_at_app|].
  intros j Hj. rewrite starts_with_at_app by lia. by apply Hmin.
Qed.

(** The published text of a chunk sequence. *)
Fixpoint feed_all (chunks : list bytes) : M Decoder bytes :=
  match chunks with
  | [] => mret []
  | chunk :: chunks =>
      out ← feed chunk;
      rest ← feed_all chunks;
      mret (out ++ rest)
  end.

Lemma feed_inv contract maximum t out chunk d :
  decoder_inv contract maximum t out d ->
  exists out' d', feed chunk d = (d', Ok out') /\ decoder_inv contract maximum (t ++ chunk) (out ++ out') d'.
Proof.
  intros Hinv. pose proof Hinv as (Hc & Hm & Hf & Hstate). unfold feed. unfold_M. rewrite Hf.
  destruct chunk as [|c chunk]; cbn [nilb].
  { exists [], d. rewrite !app_nil_r. done. }
  rewrite Hc. cbn [some_b negb]. destruct Hstate as [Hr|Hb].
  - pose proof Hr as (Hsaw & _). rewrite Hsaw.
    pose proof (feed_bytes_inv contract maximum (c :: chunk) t out [] d) as H.
    rewrite app_nil_r in H. specialize (H Hinv Hsaw).
    destruct (feed_bytes (c :: chunk) [] d) as [v d']. by exists v, d'.
  - destruct Hb as (Hsaw & Htr & Hk & ws & rest & Hreg & Hws & Hsolid & Ht & Hfind). rewrite Hsaw.
    exists []. eexists. split; [reflexivity|]. rewrite app_nil_r.
    split; [done|]. split; [done|]. split; [done|]. right. split; [done|]. split; [done|]. split; [done|].
    exists ws, (rest ++ c :: chunk). cbn [dc_tool_region].
    split; [by rewrite Hreg, <- !app_assoc|]. split; [done|]. split; [done|].
    split; [by rewrite Ht, <- app_assoc|]. by apply find_extend.
Qed.

Lemma feed_all_inv contract maximum chunks : forall t out d,
  decoder_inv contract maximum t out d ->
  exists out' d', feed_all chunks d = (d', Ok out') /\
    decoder_inv contract maximum (t ++ concat chunks) (out ++ out') d'.
Proof.
  induction chunks as [|chunk chunks IH]; intros t out d Hinv.
  { exists [], d. cbn. by rewrite !app_nil_r. }
  destruct (feed_inv _ _ _ _ chunk _ Hinv) as (o1 & d1 & E1 & H1).
  destruct (IH _ _ _ H1) as (o2 & d2 & E2 & H2).
  exists (o1 ++ o2), d2. cbn [feed_all concat]. unfold_M. rewrite E1, E2.
  split; [done|]. by rewrite !app_assoc in *.
Qed.

Section equivalence.
Context (json_accept : bytes -> bool) (encode_json_string : bytes -> result bytes).

Abbreviation batch := (parse_qwen_tool_call_output json_accept encode_json_string).

(** Feeding the chunks to a fresh decoder and finishing it: the published text and the terminal. *)
Definition decode (contract : option Contract) (maximum : nat) (chunks : list bytes)
    : result (bytes * Terminal) :=
  ((out ← feed_all chunks;
    terminal ← finish json_accept encode_json_string;
    mret (out, terminal)) (make_decoder contract maximum)).2.

(** What the caller sees: all the content, the calls and the diagnostics. *)
Definition observed (r : result (bytes * Terminal))
    : result (bytes * list GeneratedToolCall * ToolCallParseDiagnostics) :=
  p ← r; Ok (p.1 ++ tm_content p.2, tm_tool_calls p.2, tm_diagnostics p.2).

Definition expected (contract : option Contract) (maximum : nat) (text : bytes)
    : result (bytes * list GeneratedToolCall * ToolCallParseDiagnostics) :=
  match contract with
  | None => Ok (text, [], no_diagnostics)
  | Some c => p ← batch text maximum c; Ok (po_content p, po_tool_calls p, po_diagnostics p)
  end.

Lemma init_inv contract maximum : decoder_inv contract maximum [] [] (make_decoder (Some contract) maximum).
Proof.
  split; [done|]. split; [done|]. split; [done|]. left. split; [done|]. split; [done|]. split; [done|].
  split; [constructor|]. split; [by intros c|]. split.
  - split; [cbn; lia|]. split; [by exists []|]. intros j Hj [pre E].
    symmetry in E. apply app_eq_nil in E as [_ E]. apply (f_equal length) in E.
    rewrite length_take in E. cbn in E, Hj. lia.
  - intros (pre & post & E). symmetry in E. apply app_eq_nil in E as [_ E].
    by apply app_eq_nil in E as [E _].
Qed.

(** The result of a parse whose first marker is at [first] depends on the text after it, apart from
    the content. *)
Lemma batch_marker contract maximum text first :
  find text kToolOpen 0 = Some first ->
  batch text maximum contract =
  match parse_region (drop first text) maximum contract with
  | OutOfFuel => Throw Terminate
  | Fallback r => Ok (fallback text (mkDiagnostics true 0 0 0 (Some r)))
  | Parsed raws =>
      r ← normalize_calls json_accept encode_json_string raws contract [] (mkDiagnostics true 0 0 0 None);
      Ok (mkOutput true (rtrim_format_whitespace (substr text 0 first)) r.1
            (mkDiagnostics (marker_seen r.2) (w32 (Z.of_nat (length r.1))) (empty_arguments_omitted r.2)
               (schema_mismatch_arguments r.2) (fallback_reason r.2)))
  end.
Proof. intros H. unfold parse_qwen_tool_call_output. by rewrite H. Qed.

Lemma finish_buffering contract maximum t out d :
  decoder_inv contract maximum t out d -> buffering t out d ->
  observed (terminal ← (finish json_accept encode_json_string d).2; Ok (out, terminal)) =
  expected (Some contract) maximum t.
Proof.
  intros (Hc & Hm & Hf & _) (Hsaw & Htr & Hk & ws & rest & Hreg & Hws & Hsolid & Ht & Hfind).
  unfold finish. unfold_M. rewrite Hf, Hc, Hm, Hsaw, Htr, Hk. cbn [take app].
  assert (find (dc_tool_region d) kToolOpen 0 = Some (length ws)) as Hfr.
  { rewrite Hreg. apply find_Some. split; [lia|]. split; [apply starts_with_at_middle|].
    intros j Hj. apply find_Some in Hfind as (_ & _ & Hmin).
    specialize (Hmin (length out + j)%nat ltac:(lia)).
    destruct (starts_with_at (ws ++ kToolOpen ++ rest) j kToolOpen) eqn:E; [|done].
    apply starts_with_at_spec in E as (pre & post & E & Hl). exfalso.
    assert (starts_with_at t (length out + j) kToolOpen = true) as Hbad; [|congruence].
    rewrite Ht, Hreg, E, app_assoc, <- Hl, <- length_app. apply starts_with_at_middle. }
  unfold expected. rewrite (batch_marker _ _ _ _ Hfr), (batch_marker _ _ _ _ Hfind).
  assert (drop (length out + length ws) t = drop (length ws) (dc_tool_region d)) as ->.
  { rewrite Ht. rewrite <- drop_drop, drop_app_length. done. }
  destruct (parse_region _ maximum contract) as [raws|r|]; unfold observed; [|cbn; by rewrite Ht|done].
  unfold_M. destruct (normalize_calls _ _ raws contract [] _) as [[calls diag]|e]; [|done]. cbn.
  f_equal. f_equal. f_equal. rewrite app_nil_r. symmetry.
  assert (substr t 0 (length out + length ws) = out ++ ws) as ->; [|by apply rtrim_spec].
  unfold substr. rewrite drop_0, Ht, Hreg, app_assoc, <- length_app. by rewrite take_app_length.
Qed.

Lemma finish_reading contract maximum t out d :
  decoder_inv contract maximum t out d -> reading t out d ->
  observed (terminal ← (finish json_accept encode_json_string d).2; Ok (out, terminal)) =
  expected (Some contract) maximum t.
Proof.
  intros (Hc & Hm & Hf & _) (Hsaw & Hreg & Ht & _ & _ & _ & Hno).
  unfold finish. unfold_M. rewrite Hf, Hc, Hsaw, Hreg.
  unfold expected, parse_qwen_tool_call_output. rewrite (proj2 (find_none_occurs t kToolOpen) Hno).
  change (find [] kToolOpen 0) with (@None nat). cbn. by rewrite Ht, app_nil_r.
Qed.

Lemma feed_no_contract d chunk :
  dc_contract d = None -> dc_finished d = false -> feed chunk d = (d, Ok chunk).
Proof. intros Hc Hf. unfold feed. unfold_M. rewrite Hf, Hc. by destruct chunk. Qed.

(** C33: the streaming decoder is equivalent to the batch parser. For every contract, every model
    output and every way of splitting it into chunks, empty ones included, the published text
    followed by the terminal content, the structured calls, the diagnostics and any exception are
    those of parsing the whole output at once; without a contract the text passes unchanged. *)
Theorem decoder_equals_batch contract maximum chunks :
  observed (decode contract maximum chunks) = expected contract maximum (concat chunks).
Proof.
  unfold decode. destruct contract as [contract|].
  - destruct (feed_all_inv contract maximum chunks [] [] _ (init_inv contract maximum))
      as (out & d & E & Hinv).
    cbn [app] in Hinv. unfold mbind at 1, M_bind at 1. rewrite E.
    assert (observed (terminal ← (finish json_accept encode_json_string d).2; Ok (out, terminal)) =
      expected (Some contract) maximum (concat chunks)) as <-.
    { pose proof Hinv as (_ & _ & _ & [Hr|Hb]); [by apply finish_reading|by apply finish_buffering]. }
    unfold_M. by destruct (finish json_accept encode_json_string d) as [d' [tm|e]].
  - assert (forall d, dc_contract d = None -> dc_finished d = false -> feed_all chunks d = (d, Ok (concat chunks)))
      as Hall.
    { intros d Hc Hf. induction chunks as [|chunk chunks IH]; [done|]. cbn [feed_all concat].
      unfold_M. by rewrite (feed_no_contract d chunk Hc Hf), IH. }
    unfold mbind at 1, M_bind at 1. rewrite Hall by done. unfold finish. unfold_M. cbn.
    by rewrite app_nil_r.
Qed.
End equivalence.
