(* ===== verification/ToolCallSpec.v ===== *)
(** * The tool-call region parser: termination and round trip *)

From Stdlib Require Import String.
From S2P Require Import Prelude Bytes ToolCall.
Open Scope char_scope.
Open Scope Z_scope.

Section region.
Context (text : bytes) (max_name : nat) (contract : Contract).

(** ** Progress of the scanning functions *)

Lemma consume_Some pos token p :
  consume text pos token = Some p -> p = (pos + length token)%nat /\ (p <= length text)%nat.
Proof.
  unfold consume. destruct (starts_with_at text pos token) eqn:E; [|done]. intros [= <-].
  pose proof (starts_with_at_le _ _ _ E). lia.
Qed.

(** The result of a scan that returned: it never reports another failure, and a position it reports
    lies in the given range. *)
Definition scanned (lo hi : nat) (r : Parsing (option nat)) : Prop :=
  match r with
  | Parsed (Some e) => (lo < e <= hi)%nat
  | Parsed None => True
  | _ => False
  end.

Lemma find_open_scanned fuel : forall candidate lo limit,
  (forall c, candidate = Some c -> (lo <= c)%nat /\ (length text < c + fuel)%nat) ->
  (limit <= length text)%nat ->
  scanned lo limit (find_open text fuel candidate limit).
Proof.
  induction fuel as [|fuel IH]; intros [c|] lo limit Hc Hlim; cbn [find_open]; try done;
    destruct (Hc c eq_refl) as [Hlo Hf]; case_decide as Hcl; try done; [lia|].
  assert (scanned lo limit (find_open text fuel (find text kParamOpen (c + 1)) limit)) as Hnext.
  { apply IH; [|done]. intros c' Hc'%find_bounds. lia. }
  destruct (find text [">"] (c + length kParamOpen)) as [e|] eqn:E; [|done].
  apply find_bounds in E as [He _].
  destruct (bool_decide (e < limit)%nat && _) eqn:Eb; [|done].
  apply andb_true_iff in Eb as [Eb _]. apply bool_decide_eq_true in Eb. cbn. cbn in He. lia.
Qed.

Lemma open_before_scanned scan limit :
  (limit <= length text)%nat -> scanned scan limit (find_parameter_open_before text scan limit).
Proof. intros Hl. apply find_open_scanned; [|done]. intros c [? ?]%find_bounds. lia. Qed.

(** Where a parameter value may end. *)
Definition closes (lo : nat) (r : Parsing (option nat)) : Prop :=
  match r with
  | Parsed (Some e) => (lo <= e)%nat /\ (e + length kParamClose <= length text)%nat
  | Parsed None => True
  | _ => False
  end.

Lemma find_close_closes fuel : forall depth scan,
  (scan <= length text)%nat -> (length text < scan + fuel)%nat ->
  closes scan (find_close text fuel depth scan).
Proof.
  induction fuel as [|fuel IH]; intros depth scan Hs Hf; [lia|]. cbn [find_close].
  assert (forall lo r, (scan <= lo)%nat -> closes lo r -> closes scan r) as Hweak
    by (intros lo [[e|]| |] Hlo; cbn; intuition lia).
  destruct (find text kParamClose scan) as [close|] eqn:E; [|done].
  apply find_bounds in E as [Hc1 Hc2].
  pose proof (open_before_scanned scan close ltac:(lia)) as Ho.
  destruct (find_parameter_open_before text scan close) as [[e|]|r|]; cbn in Ho; try done;
    cbn [mbind parsing_bind].
  - apply (Hweak e); [lia|]. apply IH; lia.
  - case_decide; [unfold closes; lia|]. apply (Hweak (close + length kParamClose)%nat); [lia|].
    apply IH; change (length kParamClose) with 12%nat in *; lia.
Qed.

Lemma find_parameter_close_closes value_begin :
  (value_begin <= length text)%nat -> closes value_begin (find_parameter_close text value_begin).
Proof. intros H. apply find_close_closes; lia. Qed.

(** ** Termination *)

Definition progress {A} (pos : nat) (r : Parsing (nat * A)) : Prop :=
  match r with
  | Parsed (p, _) => (pos < p <= length text)%nat
  | Fallback _ => True
  | OutOfFuel => False
  end.

Lemma parse_parameter_progress pos call : progress pos (parse_parameter text pos call).
Proof.
  unfold parse_parameter. destruct (consume text pos kParamOpen) as [b|] eqn:E; [|done].
  apply consume_Some in E as [-> Hb].
  destruct (find text [">"] (pos + length kParamOpen)) as [e|] eqn:Ef; [|done].
  apply find_bounds in Ef as [He1 He2]. case_decide; [done|]. destruct (existsb _ _); [done|].
  pose proof (find_parameter_close_closes (e + 1) ltac:(cbn in He2; lia)) as Hc.
  destruct (find_parameter_close text (e + 1)) as [[v|]|r|]; cbn in Hc; try done.
  cbn [mbind parsing_bind progress]. destruct Hc as [Hc1 Hc2]. cbn in Hc2 |- *. lia.
Qed.

Lemma parse_parameters_progress fuel : forall pos call,
  (pos <= length text)%nat -> (length text < pos + fuel)%nat ->
  progress pos (parse_parameters text fuel pos call).
Proof.
  induction fuel as [|fuel IH]; intros pos call Hp Hf; [lia|]. cbn [parse_parameters].
  pose proof (skip_format_whitespace_le text pos) as Hle.
  destruct (consume text (skip_format_whitespace text pos) kFunctionClose) as [p|] eqn:E.
  { apply consume_Some in E as [-> Hb]. cbn in Hb |- *. lia. }
  pose proof (parse_parameter_progress (skip_format_whitespace text pos) call) as Hpp.
  destruct (parse_parameter text (skip_format_whitespace text pos) call) as [[p c]|r|]; cbn in Hpp; try done.
  cbn [mbind parsing_bind fst snd].
  specialize (IH p c ltac:(lia) ltac:(lia)).
  destruct (parse_parameters text fuel p c) as [[p' c']|r|]; cbn in IH |- *; try done. lia.
Qed.

Lemma parse_tool_call_progress pos : progress pos (parse_tool_call text max_name contract pos).
Proof.
  unfold parse_tool_call, parse_function. destruct (consume text pos kToolOpen) as [p|] eqn:E; [|done].
  apply consume_Some in E as [-> Hb]. set (p1 := skip_format_whitespace text (pos + length kToolOpen)).
  pose proof (skip_format_whitespace_le text (pos + length kToolOpen)) as Hle. fold p1 in Hle.
  destruct (consume text p1 kFunctionOpen) as [b|] eqn:Ef; [|done]. apply consume_Some in Ef as [-> Hb2].
  destruct (find text [">"] (p1 + length kFunctionOpen)) as [e|] eqn:Eg; [|done].
  apply find_bounds in Eg as [He1 He2]. case_decide; [done|]. destruct (negb _); [done|].
  destruct (cn_enforce_declared_names contract && _); [done|].
  pose proof (parse_parameters_progress (S (length text)) (e + 1)
    (mkRawToolCall (substr text (p1 + length kFunctionOpen) (e - (p1 + length kFunctionOpen))) [])
    ltac:(cbn in He2; lia) ltac:(lia)) as Hpp.
  destruct (parse_parameters text _ _ _) as [[p2 c]|r|]; cbn in Hpp; try done.
  cbn [mbind parsing_bind fst snd].
  destruct (consume text (skip_format_whitespace text p2) kToolClose) as [p3|] eqn:Ec; [|done].
  apply consume_Some in Ec as [-> Hb3]. pose proof (skip_format_whitespace_le text p2). cbn in Hb3 |- *. lia.
Qed.

Lemma parse_calls_returns fuel : forall pos calls,
  (pos <= length text)%nat -> (length text < pos + fuel)%nat ->
  parse_calls text max_name contract fuel pos calls <> OutOfFuel.
Proof.
  induction fuel as [|fuel IH]; intros pos calls Hp Hf; [lia|]. cbn [parse_calls].
  case_decide; [by destruct calls|]. destruct (negb _); [done|].
  pose proof (skip_format_whitespace_le text pos).
  pose proof (parse_tool_call_progress (skip_format_whitespace text pos)) as Hpp.
  destruct (parse_tool_call text max_name contract _) as [[p c]|r|]; cbn in Hpp; try done.
  cbn [mbind parsing_bind fst snd]. apply IH; lia.
Qed.
End region.

(** C35: parsing a tool-call region always terminates: whatever the text, the length limit and the
    contract, none of the parser's unbounded loops (over calls, parameters, nested parameter
    openings and closings) runs out of the fuel the text's length gives, so every text is either
    parsed or rejected with a reason. *)
Theorem parse_region_terminates text max_name contract :
  exists r, parse_region text max_name contract = r /\
    ((exists calls, r = Parsed calls) \/ (exists reason, r = Fallback reason)).
Proof.
  eexists. split; [reflexivity|].
  pose proof (parse_calls_returns text max_name contract (S (length text)) 0 [] ltac:(lia) ltac:(lia)) as H.
  unfold parse_region. destruct (parse_calls text max_name contract (S (length text)) 0 []) as [calls|r|];
    [left|right|done]; by eexists.
Qed.
