(* ===== verification/ToolCallRoundTrip.v ===== *)
(** * Rendered tool calls are parsed back

    The region parser of [models/qwen3_5/frontend/tool_call_parser.cpp] against the format's
    grammar: calls rendered with any whitespace between their tags, and parameter values that may
    hold nested parameter elements, come back with their names and values. *)

From Stdlib Require Import String.
From S2P Require Import Prelude Bytes JsonNumber ToolCall ToolCallSpec.
Open Scope char_scope.
Open Scope Z_scope.

(** ** Occurrences of tags *)

(** A tag begins with an opening bracket and has no other. *)
Definition tag (sub : bytes) : Prop := exists rest, sub = "<" :: rest /\ Forall (fun c => c <> "<") rest.

Lemma starts_with_at_lookup text pos sub i c :
  starts_with_at text pos sub = true -> sub !! i = Some c -> text !! (pos + i)%nat = Some c.
Proof.
  intros (pre & post & -> & <-)%starts_with_at_spec Hi. rewrite lookup_app_r by lia.
  replace (length pre + i - length pre)%nat with i by lia. by apply lookup_app_l_Some.
Qed.

Lemma starts_with_at_inside pre s post j sub :
  (length pre <= j)%nat -> (j + length sub <= length pre + length s)%nat ->
  starts_with_at (pre ++ s ++ post) j sub = starts_with_at s (j - length pre) sub.
Proof.
  intros Hj Hb. unfold starts_with_at, substr. rewrite !length_app.
  rewrite (bool_decide_eq_true_2 (j <= _)%nat), (bool_decide_eq_true_2 (j - _ <= _)%nat) by lia.
  rewrite drop_app_ge, drop_app_le, take_app_le by (rewrite ?length_drop; lia). done.
Qed.

(** Where [s] does not hold the tag and is followed by an opening bracket, the tag does not begin
    inside [s]. *)
Lemma no_tag_before pre s post sub j :
  tag sub -> find s sub 0 = None -> head post = Some "<" ->
  (length pre <= j < length pre + length s)%nat -> starts_with_at (pre ++ s ++ post) j sub = false.
Proof.
  intros (rest & -> & Hrest) Hs Hpost Hj. apply not_true_is_false. intros Hat.
  destruct (decide (j + length ("<" :: rest) <= length pre + length s)%nat) as [Hin|Hout].
  - rewrite starts_with_at_inside in Hat by lia. rewrite find_None in Hs. by rewrite Hs in Hat by lia.
  - set (k := (length pre + length s - j)%nat).
    assert (exists c, rest !! (k - 1)%nat = Some c) as [c Hc].
    { apply lookup_lt_is_Some. cbn [length] in Hout. lia. }
    pose proof (starts_with_at_lookup _ _ _ k c Hat) as Hl.
    rewrite lookup_app_r, lookup_app_r in Hl by lia.
    replace (j + k - length pre - length s)%nat with 0%nat in Hl by lia.
    rewrite <- head_lookup, Hpost in Hl. destruct k as [|k'] eqn:Ek; [lia|]. cbn in Hl, Hc.
    rewrite Nat.sub_0_r in Hc. specialize (Hl Hc) as [= <-].
    by apply (Forall_lookup_1 _ _ _ _ Hrest Hc).
Qed.

(** No tag begins where the text has another byte. *)
Lemma no_tag_at_other pre s post sub j :
  tag sub -> Forall (fun c => c <> "<") s ->
  (length pre <= j < length pre + length s)%nat -> starts_with_at (pre ++ s ++ post) j sub = false.
Proof.
  intros (rest & -> & _) Hs Hj. apply not_true_is_false. intros Hat.
  pose proof (starts_with_at_lookup _ _ _ 0 "<" Hat eq_refl) as Hl. rewrite Nat.add_0_r in Hl.
  rewrite lookup_app_r, lookup_app_l in Hl by lia. by apply (Forall_lookup_1 _ _ _ _ Hs Hl).
Qed.

Lemma tag_open : tag kParamOpen.
Proof. eexists. split; [reflexivity|]. repeat constructor; done. Qed.
Lemma tag_close : tag kParamClose.
Proof. eexists. split; [reflexivity|]. repeat constructor; done. Qed.

(** A byte search that stops right after a run without the byte. *)
Lemma find_byte_after pre s c post :
  Forall (fun d => d <> c) s -> find (pre ++ s ++ c :: post) [c] (length pre) = Some (length pre + length s)%nat.
Proof.
  intros Hs. apply find_Some. split; [lia|]. split.
  - rewrite app_assoc, <- length_app. apply (starts_with_at_middle (pre ++ s) [c] post).
  - intros j Hj. apply not_true_is_false. intros Hat.
    pose proof (starts_with_at_lookup _ _ _ 0 c Hat eq_refl) as Hl. rewrite Nat.add_0_r in Hl.
    rewrite lookup_app_r, lookup_app_l in Hl by lia. by apply (Forall_lookup_1 _ _ _ _ Hs Hl).
Qed.

(** ** Values with nested parameter elements *)

Definition plain (s : bytes) : Prop := find s kParamOpen 0 = None /\ find s kParamClose 0 = None.

Definition bracketless (name : bytes) : Prop := Forall (fun c => c <> "<" /\ c <> ">") name.

(** Every opening in the value has its closing. *)
Inductive balanced : bytes -> Prop :=
  | balanced_plain s : plain s -> balanced s
  | balanced_nested s name inner rest :
      plain s -> name <> [] -> bracketless name -> balanced inner -> balanced rest ->
      balanced (s ++ kParamOpen ++ name ++ [">"] ++ inner ++ kParamClose ++ rest).

Section values.
Context (text : bytes).

Lemma find_close_fuel f1 : forall f2 depth scan,
  (scan <= length text)%nat -> (length text < scan + f1)%nat -> (length text < scan + f2)%nat ->
  find_close text f1 depth scan = find_close text f2 depth scan.
Proof.
  induction f1 as [|f1 IH]; intros [|f2] depth scan Hs H1 H2; try lia. cbn [find_close].
  destruct (find text kParamClose scan) as [close|] eqn:E; [|done].
  apply find_bounds in E as [Hc1 Hc2].
  pose proof (open_before_scanned text scan close ltac:(lia)) as Ho.
  destruct (find_parameter_open_before text scan close) as [[e|]|r|]; cbn in Ho; try done;
    cbn [mbind parsing_bind].
  - apply IH; lia.
  - case_decide; [done|]. apply IH; change (length kParamClose) with 12%nat in *; lia.
Qed.

(** The loop of [find_parameter_close] with enough fuel for any position. *)
Lemma closing_unfold F depth scan :
  (scan <= length text)%nat -> (length text < F)%nat ->
  find_close text F depth scan =
  match find text kParamClose scan with
  | None => Parsed None
  | Some close =>
      nested ← find_parameter_open_before text scan close;
      match nested with
      | Some open_end => find_close text F (S depth) open_end
      | None => if decide (pred depth = 0)%nat then Parsed (Some close)
                else find_close text F (pred depth) (close + length kParamClose)%nat
      end
  end.
Proof.
  intros Hs HF. rewrite (find_close_fuel F (S F)) by lia. reflexivity.
Qed.

Lemma open_before_none scan limit :
  (forall j, (scan <= j < limit)%nat -> starts_with_at text j kParamOpen = false) ->
  find_parameter_open_before text scan limit = Parsed None.
Proof.
  intros H. unfold find_parameter_open_before. cbn [find_open].
  destruct (find text kParamOpen scan) as [c|] eqn:E; [|done]. apply find_Some in E as (Hc & Hat & _).
  rewrite decide_True; [done|]. apply Nat.nlt_ge. intros Hlt. by rewrite H in Hat.
Qed.

Lemma open_before_some scan limit c name_end :
  find text kParamOpen scan = Some c -> (c < limit)%nat ->
  find text [">"] (c + length kParamOpen) = Some name_end ->
  (name_end < limit)%nat -> name_end <> (c + length kParamOpen)%nat ->
  find_parameter_open_before text scan limit = Parsed (Some (name_end + 1)%nat).
Proof.
  intros Hc Hl He Hel Hne. unfold find_parameter_open_before. cbn [find_open].
  rewrite Hc, decide_False by lia. rewrite He, bool_decide_eq_true_2, bool_decide_eq_false_2 by done. done.
Qed.

(** A closing tag after an opening element's start begins behind that element's name. *)
Lemma close_after_opening pre s name post j :
  text = pre ++ s ++ kParamOpen ++ name ++ [">"] ++ post ->
  find s kParamClose 0 = None -> bracketless name ->
  starts_with_at text j kParamClose = true -> (length pre <= j)%nat ->
  (length pre + length s + length kParamOpen + length name + 1 <= j)%nat.
Proof.
  intros Ht Hs Hname Hat Hj. apply Nat.nlt_ge. intros Hlt.
  assert (length kParamOpen = 11%nat) as Hlen by done.
  destruct (decide (j < length pre + length s)%nat) as [H1|H1].
  { rewrite Ht, no_tag_before in Hat; [done|apply tag_close| | |]; done || lia. }
  destruct (decide (j = length pre + length s)%nat) as [->|H2].
  { pose proof (starts_with_at_lookup _ _ _ 1 "/" Hat eq_refl) as Hl.
    rewrite Ht, app_assoc, <- length_app, lookup_app_r in Hl by lia.
    replace (length (pre ++ s) + 1 - length (pre ++ s))%nat with 1%nat in Hl by lia. done. }
  rewrite Ht in Hat.
  replace (pre ++ s ++ kParamOpen ++ name ++ [">"] ++ post)
    with ((pre ++ s ++ ["<"]) ++ (tail kParamOpen ++ name ++ [">"]) ++ post) in Hat
    by (rewrite <- !app_assoc; done).
  rewrite no_tag_at_other in Hat; [done|apply tag_close| |].
  - apply Forall_app_2; [repeat constructor; done|]. apply Forall_app_2; [|by repeat constructor].
    by eapply Forall_impl; [exact Hname|intros ? []].
  - rewrite !length_app. change (length (tail kParamOpen)) with 10%nat. cbn [length]. lia.
Qed.

(** The first opening of a nested element is found, whatever closing tag follows. *)
Lemma open_before_nested pre s name post limit :
  text = pre ++ s ++ kParamOpen ++ name ++ [">"] ++ post ->
  find s kParamOpen 0 = None -> bracketless name -> name <> [] ->
  (length pre + length s + length kParamOpen + length name < limit)%nat ->
  find_parameter_open_before text (length pre) limit =
  Parsed (Some (length (pre ++ s ++ kParamOpen ++ name ++ [">"]))).
Proof.
  intros Ht Hs Hname Hne Hl. rewrite !length_app. cbn [length].
  assert (0 < length name)%nat by (destruct name; [done|cbn; lia]).
  rewrite (open_before_some _ _ (length pre + length s) (length pre + length s + length kParamOpen + length name));
    [do 2 f_equal; lia| |lia| |lia|lia].
  - apply find_Some. split; [lia|]. rewrite Ht. split.
    + rewrite app_assoc, <- length_app. apply starts_with_at_middle.
    + intros j Hj. by apply no_tag_before; [apply tag_open| | |].
  - pose proof (find_byte_after (pre ++ s ++ kParamOpen) name ">" post) as Hf.
    rewrite <- !app_assoc, !length_app, !Nat.add_assoc in Hf. rewrite Ht. apply Hf.
    by eapply Forall_impl; [exact Hname|intros ? []].
Qed.

(** Scanning a balanced value lowers the depth exactly at the closing tag that follows it. *)
Lemma closing_balanced F value :
  balanced value -> forall pre post depth,
  text = pre ++ value ++ kParamClose ++ post -> (length text < F)%nat ->
  find_close text F (S depth) (length pre) =
  if decide (depth = 0)%nat then Parsed (Some (length pre + length value)%nat)
  else find_close text F depth (length pre + length value + length kParamClose)%nat.
Proof.
  induction 1 as [s [Ho Hc]|s name inner rest [Ho Hc] Hne Hname Hi IHi Hr IHr]; intros pre post depth Ht HF.
  - rewrite closing_unfold by (rewrite ?Ht, ?length_app in *; lia).
    assert (find text kParamClose (length pre) = Some (length pre + length s)%nat) as ->.
    { apply find_Some. split; [lia|]. rewrite Ht. split.
      - rewrite app_assoc, <- length_app. apply starts_with_at_middle.
      - intros j Hj. by apply no_tag_before; [apply tag_close| | |]. }
    rewrite open_before_none; [done|].
    intros j Hj. rewrite Ht. by apply no_tag_before; [apply tag_open| | |].
  - rewrite <- !app_assoc in Ht. assert (length pre <= length text)%nat by (rewrite Ht, length_app; lia).
    assert (exists close, find text kParamClose (length pre) = Some close /\
      (length pre + length s + length kParamOpen + length name + 1 <= close)%nat) as (close & Eclose & Hafter).
    { destruct (find text kParamClose (length pre)) as [close|] eqn:E.
      - exists close. split; [done|]. apply find_Some in E as (? & ? & _). by eapply close_after_opening.
      - rewrite find_None in E. exfalso.
        pose proof (starts_with_at_middle (pre ++ s ++ kParamOpen ++ name ++ [">"] ++ inner) kParamClose
          (rest ++ kParamClose ++ post)) as Hat.
        rewrite <- !app_assoc, <- Ht, E in Hat; [done|]. rewrite !length_app. lia. }
    rewrite closing_unfold, Eclose by lia.
    rewrite (open_before_nested _ s name (inner ++ kParamClose ++ rest ++ kParamClose ++ post)) by (done || lia).
    cbn [mbind parsing_bind].
    rewrite (IHi _ (rest ++ kParamClose ++ post)); [|by rewrite <- !app_assoc|done].
    cbn [decide decide_rel Nat.eq_dec nat_rect]. rewrite decide_False by done.
    rewrite <- !length_app, (IHr _ post); [|by rewrite <- !app_assoc|done].
    rewrite <- !app_assoc, !length_app. cbn [length].
    case_decide; [do 2 f_equal|f_equal]; lia.
Qed.
End values.

(** ** Rendering calls *)

Abbreviation blank := (Forall (fun c => is_format_whitespace c = true)).

(** A call with the whitespace before each of its tags. *)
Record RenderedCall := mkRendered {
  rd_gap : bytes;
  rd_function_gap : bytes;
  rd_name : bytes;
  rd_parameters : list (bytes * RawParameter);
  rd_function_close_gap : bytes;
  rd_close_gap : bytes;
}.

Definition raw_call (c : RenderedCall) : RawToolCall := mkRawToolCall (rd_name c) (rd_parameters c).*2.

Definition render_parameter (p : bytes * RawParameter) : bytes :=
  p.1 ++ kParamOpen ++ rp_name p.2 ++ [">"] ++ rp_value p.2 ++ kParamClose.

Definition render_function (c : RenderedCall) : bytes :=
  kFunctionOpen ++ rd_name c ++ [">"] ++ concat (render_parameter <$> rd_parameters c) ++
  rd_function_close_gap c ++ kFunctionClose.

Definition render_call (c : RenderedCall) : bytes :=
  rd_gap c ++ kToolOpen ++ rd_function_gap c ++ render_function c ++ rd_close_gap c ++ kToolClose.

Definition parameter_wf (p : bytes * RawParameter) : Prop :=
  blank p.1 /\ rp_name p.2 <> [] /\ Forall (fun c => c <> ">") (rp_name p.2) /\ balanced (rp_value p.2).

Definition call_wf (maximum : nat) (contract : Contract) (c : RenderedCall) : Prop :=
  blank (rd_gap c) /\ blank (rd_function_gap c) /\ blank (rd_function_close_gap c) /\ blank (rd_close_gap c) /\
  valid_function_name (rd_name c) maximum = true /\
  (cn_enforce_declared_names contract = true -> exists tool, find_tool_contract contract (rd_name c) = Some tool) /\
  Forall parameter_wf (rd_parameters c) /\ NoDup (rp_name <$> (rd_parameters c).*2).

Section parses.
Context (text : bytes).

Lemma skip_blank pre ws post :
  text = pre ++ ws ++ post -> blank ws -> (forall c, head post = Some c -> is_format_whitespace c = false) ->
  skip_format_whitespace text (length pre) = length (pre ++ ws).
Proof.
  intros -> Hws Hpost. unfold skip_format_whitespace. rewrite drop_app_length, count_while_app by done.
  rewrite length_app. destruct post as [|c post]; [cbn; lia|]. rewrite count_while_stop by auto. lia.
Qed.

Lemma consume_here pre token post :
  text = pre ++ token ++ post -> consume text (length pre) token = Some (length (pre ++ token)).
Proof. intros ->. unfold consume. by rewrite starts_with_at_middle, length_app. Qed.

Lemma consume_other pre other post token c d :
  text = pre ++ other ++ post -> other !! 1%nat = Some c -> token !! 1%nat = Some d -> c <> d ->
  consume text (length pre) token = None.
Proof.
  intros Ht Hc Hd Hne. unfold consume. destruct (starts_with_at text (length pre) token) eqn:E; [|done].
  pose proof (starts_with_at_lookup _ _ _ _ _ E Hd) as Hl.
  rewrite Ht, lookup_app_r in Hl by lia. replace (length pre + 1 - length pre)%nat with 1%nat in Hl by lia.
  rewrite (lookup_app_l_Some _ _ _ _ Hc) in Hl. congruence.
Qed.

(** The name between a tag's start and its bracket. *)
Lemma name_here pre name post :
  text = pre ++ name ++ [">"] ++ post -> Forall (fun c => c <> ">") name -> name <> [] ->
  find text [">"] (length pre) = Some (length pre + length name)%nat /\
  (length pre + length name)%nat <> length pre /\
  substr text (length pre) (length pre + length name - length pre) = name.
Proof.
  intros Ht Hname Hne. split; [by rewrite Ht; apply find_byte_after|]. split; [destruct name; [done|cbn; lia]|].
  unfold substr. rewrite Ht, drop_app_length. replace (length pre + length name - length pre)%nat with (length name) by lia.
  by rewrite take_app_length.
Qed.

Lemma parse_parameter_here pre p post call :
  text = pre ++ kParamOpen ++ rp_name p ++ [">"] ++ rp_value p ++ kParamClose ++ post ->
  rp_name p <> [] -> Forall (fun c => c <> ">") (rp_name p) -> balanced (rp_value p) ->
  rp_name p ∉ rp_name <$> rc_parameters call ->
  parse_parameter text (length pre) call =
  Parsed (length (pre ++ kParamOpen ++ rp_name p ++ [">"] ++ rp_value p ++ kParamClose),
          mkRawToolCall (rc_name call) (rc_parameters call ++ [p])).
Proof.
  intros Ht Hne Hname Hval Hfresh. unfold parse_parameter. rewrite (consume_here _ _ _ Ht).
  destruct (name_here (pre ++ kParamOpen) (rp_name p) (rp_value p ++ kParamClose ++ post)) as (-> & Hd & ->);
    [by rewrite <- !app_assoc|done|done|].
  rewrite decide_False by done.
  destruct (existsb _ _) eqn:E.
  { apply existsb_exists in E as (q & Hq & Hqn%bool_decide_eq_true). destruct Hfresh. rewrite <- Hqn.
    apply list_elem_of_fmap. exists q. split; [done|]. by apply list_elem_of_In. }
  unfold find_parameter_close.
  set (before := (pre ++ kParamOpen) ++ rp_name p ++ [">"]).
  replace (length (pre ++ kParamOpen) + length (rp_name p) + 1)%nat with (length before)
    by (unfold before; rewrite !length_app; cbn; lia).
  rewrite (closing_balanced text _ _ Hval before post 0);
    [|by rewrite Ht; unfold before; rewrite <- !app_assoc|lia].
  rewrite decide_True by done. cbn [mbind parsing_bind].
  assert (substr text (length before) (length before + length (rp_value p) - length before) = rp_value p) as ->.
  { unfold substr. replace (length before + length (rp_value p) - length before)%nat with (length (rp_value p)) by lia.
    replace text with (before ++ rp_value p ++ kParamClose ++ post) by (rewrite Ht; unfold before; by rewrite <- !app_assoc).
    by rewrite drop_app_length, take_app_length. }
  do 2 f_equal; [|by destruct p]. unfold before. rewrite !length_app. cbn [length]. lia.
Qed.

Lemma parse_parameters_here ps : forall fuel pre gap post call,
  text = pre ++ concat (render_parameter <$> ps) ++ gap ++ kFunctionClose ++ post ->
  blank gap -> Forall parameter_wf ps -> NoDup (rp_name <$> rc_parameters call ++ ps.*2) ->
  (length ps < fuel)%nat ->
  parse_parameters text fuel (length pre) call =
  Parsed (length (pre ++ concat (render_parameter <$> ps) ++ gap ++ kFunctionClose),
          mkRawToolCall (rc_name call) (rc_parameters call ++ ps.*2)).
Proof.
  induction ps as [|[g p] ps IH]; intros [|fuel] pre gap post call Ht Hgap Hwf Hnd Hfuel; try (cbn in Hfuel; lia);
    cbn [parse_parameters].
  - cbn [fmap list_fmap concat app] in *. rewrite (skip_blank pre gap (kFunctionClose ++ post)); [|done|done|by intros ? [= <-]].
    rewrite (consume_here (pre ++ gap) kFunctionClose post) by (by rewrite <- !app_assoc).
    rewrite <- !app_assoc, app_nil_r. by destruct call.
  - apply Forall_cons in Hwf as [(Hg & Hne & Hname & Hval) Hwf]. cbn [fst snd] in *.
    cbn [fmap list_fmap concat] in *. unfold render_parameter at 1 in Ht. cbn [fst snd] in Ht.
    rewrite <- !app_assoc in Ht.
    set (post' := concat (render_parameter <$> ps) ++ gap ++ kFunctionClose ++ post).
    rewrite (skip_blank pre g _ Ht Hg) by (by intros ? [= <-]).
    rewrite app_assoc in Ht.
    rewrite (consume_other _ _ _ _ "p" "/" Ht) by done.
    rewrite (parse_parameter_here _ p post' call Ht Hne Hname Hval).
    + cbn [mbind parsing_bind fst snd].
      rewrite (IH fuel _ gap post); [| |done|done| |cbn in Hfuel; lia].
      * cbn [rc_name rc_parameters]. unfold render_parameter at 2. cbn [fst snd].
        rewrite <- !app_assoc. cbn [app]. done.
      * rewrite Ht. unfold post'. by rewrite <- !app_assoc.
      * cbn [rc_parameters]. by rewrite <- !app_assoc.
    + rewrite fmap_app in Hnd. apply NoDup_app in Hnd as (_ & Hd & _).
      intros Hin. apply (Hd _ Hin). left.
Qed.

Context (maximum : nat) (contract : Contract).

Lemma valid_name_no_bracket name :
  valid_function_name name maximum = true -> name <> [] /\ Forall (fun c => c <> ">") name.
Proof.
  unfold valid_function_name. rewrite !andb_true_iff. intros [[Hne _] Hall]. split; [by destruct name|].
  apply Forall_forall. intros c Hc ->. rewrite forallb_forall in Hall.
  by specialize (Hall ">" (proj1 (list_elem_of_In _ _) Hc)).
Qed.

Lemma parameters_short ps : (length ps <= length (concat (render_parameter <$> ps)))%nat.
Proof.
  induction ps as [|p ps IH]; cbn; [lia|]. unfold render_parameter at 1. rewrite !length_app.
  change (length kParamOpen) with 11%nat. lia.
Qed.

Lemma parse_function_here pre c post :
  text = pre ++ render_function c ++ post -> call_wf maximum contract c ->
  parse_function text maximum contract (length pre) = Parsed (length (pre ++ render_function c), raw_call c).
Proof.
  intros Ht (_ & _ & Hfg & _ & Hv & Hdecl & Hps & Hnd). unfold render_function in Ht. rewrite <- !app_assoc in Ht.
  destruct (valid_name_no_bracket _ Hv) as [Hne Hname]. unfold parse_function.
  rewrite (consume_here _ _ _ Ht).
  destruct (name_here (pre ++ kFunctionOpen) (rd_name c) (concat (render_parameter <$> rd_parameters c) ++
    rd_function_close_gap c ++ kFunctionClose ++ post)) as (-> & Hd & ->);
    [by rewrite <- !app_assoc|done|done|].
  rewrite decide_False, Hv by done. cbn [negb].
  assert (cn_enforce_declared_names contract && negb (some_b (find_tool_contract contract (rd_name c))) = false) as ->.
  { destruct (cn_enforce_declared_names contract) eqn:E; [|done]. by destruct (Hdecl eq_refl) as [tool ->]. }
  set (before := pre ++ kFunctionOpen ++ rd_name c ++ [">"]).
  replace (length (pre ++ kFunctionOpen) + length (rd_name c) + 1)%nat with (length before)
    by (unfold before; rewrite !length_app; cbn [length]; lia).
  assert (text = before ++ concat (render_parameter <$> rd_parameters c) ++ rd_function_close_gap c ++
    kFunctionClose ++ post) as Ht' by (unfold before; by rewrite <- !app_assoc).
  rewrite (parse_parameters_here _ _ _ _ _ _ Ht' Hfg Hps); [| exact Hnd |].
  - unfold before, render_function, raw_call. by rewrite <- !app_assoc.
  - pose proof (parameters_short (rd_parameters c)). rewrite Ht', !length_app. lia.
Qed.

Lemma parse_tool_call_here pre c post :
  text = pre ++ render_call c ++ post -> call_wf maximum contract c ->
  parse_tool_call text maximum contract (length (pre ++ rd_gap c)) =
  Parsed (length (pre ++ render_call c), raw_call c).
Proof.
  intros Ht Hwf. pose proof Hwf as (Hg & Hog & _ & Hcg & _). unfold render_call in Ht. rewrite <- !app_assoc in Ht.
  unfold parse_tool_call. rewrite (consume_here (pre ++ rd_gap c) kToolOpen _) by (by rewrite Ht, <- !app_assoc).
  rewrite (skip_blank _ (rd_function_gap c) (render_function c ++ rd_close_gap c ++ kToolClose ++ post));
    [|by rewrite Ht, <- !app_assoc|done|by intros ? [= <-]].
  rewrite (parse_function_here _ c (rd_close_gap c ++ kToolClose ++ post)); [|by rewrite Ht, <- !app_assoc|done].
  cbn [mbind parsing_bind fst snd].
  rewrite (skip_blank _ (rd_close_gap c) (kToolClose ++ post));
    [|by rewrite Ht, <- !app_assoc|done|by intros ? [= <-]].
  rewrite (consume_here _ kToolClose post) by (by rewrite Ht, <- !app_assoc).
  unfold render_call. by rewrite <- !app_assoc.
Qed.

Lemma parse_calls_here cs : forall fuel pre trailing calls,
  text = pre ++ concat (render_call <$> cs) ++ trailing -> blank trailing ->
  Forall (call_wf maximum contract) cs -> (length cs < fuel)%nat -> calls ++ (raw_call <$> cs) <> [] ->
  parse_calls text maximum contract fuel (length pre) calls = Parsed (calls ++ (raw_call <$> cs)).
Proof.
  induction cs as [|c cs IH]; intros [|fuel] pre trailing calls Ht Htr Hwf Hfuel Hne; try (cbn in Hfuel; lia);
    cbn [parse_calls].
  - cbn in Ht, Hne |- *. rewrite app_nil_r in *.
    rewrite (skip_blank pre trailing []), decide_True; [by destruct calls|by rewrite Ht|by rewrite app_nil_r|done|done].
  - apply Forall_cons in Hwf as [Hc Hcs]. cbn [fmap list_fmap concat] in *. rewrite <- app_assoc in Ht.
    pose proof Hc as (Hg & _). pose proof Ht as Ht'. unfold render_call at 1 in Ht'. rewrite <- !app_assoc in Ht'.
    rewrite (skip_blank pre (rd_gap c) _ Ht' Hg) by (by intros ? [= <-]).
    rewrite decide_False by (rewrite Ht', !length_app; change (length kToolOpen) with 11%nat; lia).
    rewrite app_assoc in Ht'. pose proof (starts_with_at_middle (pre ++ rd_gap c) kToolOpen) as Hat.
    rewrite Ht' at 1. rewrite Hat. cbn [negb].
    rewrite (parse_tool_call_here pre c _ Ht Hc). cbn [mbind parsing_bind fst snd].
    rewrite (IH fuel _ trailing); [by rewrite <- app_assoc|by rewrite Ht, <- app_assoc|done|done|cbn in Hfuel; lia|].
    by destruct calls.
Qed.
End parses.

Lemma calls_short cs : (length cs <= length (concat (render_call <$> cs)))%nat.
Proof.
  induction cs as [|c cs IH]; cbn; [lia|]. unfold render_call at 1. rewrite !length_app.
  change (length kToolOpen) with 11%nat. lia.
Qed.

(** C34: round trip of the tool-call format. Any non-empty sequence of calls with valid, declared
    names and distinct parameter names, rendered with any whitespace between the tags, where a value
    may hold whole nested parameter elements, is parsed back to exactly those names and values, in
    order. *)
Theorem parse_region_render maximum contract cs trailing :
  cs <> [] -> Forall (call_wf maximum contract) cs -> blank trailing ->
  parse_region (concat (render_call <$> cs) ++ trailing) maximum contract = Parsed (raw_call <$> cs).
Proof.
  intros Hne Hwf Htr. apply (parse_calls_here _ _ _ _ _ [] trailing []); [done|done|done| |by destruct cs].
  pose proof (calls_short cs). rewrite length_app. lia.
Qed.

Definition demo_calls : list RenderedCall :=
  [mkRendered ["010"] [" "] (lit "edit")
     [([], mkRawParameter (lit "path") (lit "a.txt"));
      (["010"], mkRawParameter (lit "text") (lit "x<parameter=k>v</parameter>y"))] ["010"] [];
   mkRendered [] [] (lit "run") [] [] [" "]].

Lemma parse_region_render_witness :
  demo_calls <> [] /\ Forall (call_wf 64 (mkContract [] false)) demo_calls /\
  parse_region (concat (render_call <$> demo_calls) ++ ["010"]) 64 (mkContract [] false) =
  Parsed (raw_call <$> demo_calls).
Proof.
  assert (Forall (call_wf 64 (mkContract [] false)) demo_calls) as Hwf.
  { assert (balanced (lit "a.txt")) by (apply balanced_plain; split; vm_compute; reflexivity).
    assert (balanced (lit "x<parameter=k>v</parameter>y")).
    { apply (balanced_nested (lit "x") (lit "k") (lit "v") (lit "y"));
        [split; vm_compute; reflexivity|done|by repeat constructor
        |apply balanced_plain; split; vm_compute; reflexivity
        |apply balanced_plain; split; vm_compute; reflexivity]. }
    unfold demo_calls. apply Forall_cons. split; [|apply Forall_singleton]; unfold call_wf; cbn [rd_gap rd_function_gap
      rd_function_close_gap rd_close_gap rd_name rd_parameters].
    - do 4 (split; [repeat constructor|]). split; [vm_compute; reflexivity|]. split; [done|]. split.
      + apply Forall_cons. split; [|apply Forall_singleton];
          (split; [repeat constructor|]; split; [done|]; split; [repeat constructor; done|done]).
      + apply (bool_decide_unpack _). vm_compute. exact I.
    - do 4 (split; [repeat constructor|]). split; [vm_compute; reflexivity|]. split; [done|]. split; constructor. }
  split; [done|]. split; [exact Hwf|]. apply parse_region_render; [done|exact Hwf|by repeat constructor].
Defined.
