(* ===== verification/Utf8Stream.v ===== *)
(** * Incremental UTF-8 decoding

    [consume_generated_utf8] of [models/qwen3_5/frontend/output_session.cpp]: the bytes of generated
    tokens are turned into valid UTF-8 as they arrive; an incomplete sequence is held back and a
    malformed one is replaced. *)

From Stdlib Require Import String.
From S2P Require Import Prelude Bytes.
Open Scope char_scope.
Open Scope Z_scope.

Definition kUtf8Replacement : bytes := ["239"; "191"; "189"].

Definition byte_value (c : ascii) : Z := Z.of_nat (nat_of_ascii c).

(** The length a lead byte announces; [None] for a byte that leads no sequence. *)
Definition sequence_length (lead : Z) : option nat :=
  if lead <=? 127 then Some 1%nat
  else if (194 <=? lead) && (lead <=? 223) then Some 2%nat
  else if (224 <=? lead) && (lead <=? 239) then Some 3%nat
  else if (240 <=? lead) && (lead <=? 244) then Some 4%nat
  else None.

(** The bytes accepted at an index of the sequence. *)
Definition continuation_range (lead : Z) (index : nat) : Z * Z :=
  if bool_decide (index = 1%nat) then
    if lead =? 224 then (160, 191)
    else if lead =? 237 then (128, 159)
    else if lead =? 240 then (144, 191)
    else if lead =? 244 then (128, 143)
    else (128, 191)
  else (128, 191).

Inductive SequenceCheck :=
  | Incomplete
  | Malformed (index : nat)
  | Complete.

(** The loop over the continuation bytes; [rest] begins at the lead byte. *)
Fixpoint check_sequence (n : nat) (rest : bytes) (lead : Z) (index : nat) : SequenceCheck :=
  match n with
  | O => Complete
  | S n =>
      match rest !! index with
      | None => Incomplete
      | Some c =>
          let '(minimum, maximum) := continuation_range lead index in
          if (byte_value c <? minimum) || (maximum <? byte_value c) then Malformed index
          else check_sequence n rest lead (S index)
      end
  end.

(** The outer loop on the unread bytes [pending.substr(offset)]: the decoded text and the bytes left
    pending. *)
Fixpoint consume_loop (fuel : nat) (rest : bytes) (decoded : bytes) : bytes * bytes :=
  match fuel with
  | O => (decoded, rest)
  | S fuel =>
      match rest with
      | [] => (decoded, [])
      | c :: _ =>
          let lead := byte_value c in
          match sequence_length lead with
          | None => consume_loop fuel (drop 1 rest) (decoded ++ kUtf8Replacement)
          | Some length =>
              match check_sequence (pred length) rest lead 1 with
              | Incomplete => (decoded, rest)
              | Malformed index => consume_loop fuel (drop index rest) (decoded ++ kUtf8Replacement)
              | Complete => consume_loop fuel (drop length rest) (decoded ++ take length rest)
              end
          end
      end
  end.

Definition consume_generated_utf8 (pending : bytes) : bytes * bytes := consume_loop (length pending) pending [].

(** ** UTF-8 *)

(** A Unicode scalar value: a code point that is not a surrogate. *)
Definition scalar (cp : Z) : Prop := 0 <= cp <= 1114111 /\ ~ (55296 <= cp <= 57343).

Definition byte (z : Z) : ascii := ascii_of_nat (Z.to_nat z).

(** The UTF-8 encoding of a scalar value. *)
Definition encode_utf8 (cp : Z) : bytes :=
  if cp <? 128 then [byte cp]
  else if cp <? 2048 then [byte (192 + cp / 64); byte (128 + cp mod 64)]
  else if cp <? 65536 then
    [byte (224 + cp / 4096); byte (128 + cp / 64 mod 64); byte (128 + cp mod 64)]
  else
    [byte (240 + cp / 262144); byte (128 + cp / 4096 mod 64); byte (128 + cp / 64 mod 64); byte (128 + cp mod 64)].

Definition utf8_text (cps : list Z) : bytes := concat (encode_utf8 <$> cps).

(** A byte that may stand at an index of the sequence. *)
Definition accepts (lead : Z) (index : nat) (c : ascii) : bool :=
  let '(minimum, maximum) := continuation_range lead index in
  negb ((byte_value c <? minimum) || (maximum <? byte_value c)).

(** One sequence as the decoder reads it. *)
Definition encoded (s : bytes) : Prop :=
  exists lead, head s = Some lead /\ sequence_length (byte_value lead) = Some (length s) /\
    forall i c, (1 <= i)%nat -> s !! i = Some c -> accepts (byte_value lead) i c = true.

Lemma byte_value_byte z : 0 <= z <= 255 -> byte_value (byte z) = z.
Proof. intros H. unfold byte_value, byte. rewrite nat_ascii_embedding by lia. lia. Qed.

Lemma byte_value_range c : 0 <= byte_value c <= 255.
Proof. unfold byte_value. pose proof (nat_ascii_bounded c). lia. Qed.

Lemma byte_byte_value c : byte (byte_value c) = c.
Proof. unfold byte, byte_value. rewrite Nat2Z.id. apply ascii_nat_embedding. Qed.

Lemma byte_of_value c z : byte_value c = z -> c = byte z.
Proof. intros <-. by rewrite byte_byte_value. Qed.

Lemma accepts_iff lead i c :
  accepts lead i c = true <-> (continuation_range lead i).1 <= byte_value c <= (continuation_range lead i).2.
Proof. unfold accepts. destruct (continuation_range lead i). rewrite negb_true_iff, orb_false_iff. cbn. lia. Qed.

Ltac bool_cases :=
  repeat match goal with
    | |- context [?a <? ?b] => destruct (Z.ltb_spec a b); try lia
    | |- context [?a <=? ?b] => destruct (Z.leb_spec a b); try lia
    | |- context [?a =? ?b] => destruct (Z.eqb_spec a b); try lia
    | H : context [?a <? ?b] |- _ => destruct (Z.ltb_spec a b); try lia
    | H : context [?a <=? ?b] |- _ => destruct (Z.leb_spec a b); try lia
    | H : context [?a =? ?b] |- _ => destruct (Z.eqb_spec a b); try lia
    end.

Ltac dlia := Z.to_euclidean_division_equations; lia.

Lemma encode_encoded cp : scalar cp -> encoded (encode_utf8 cp).
Proof.
  intros [Hr Hs]. unfold encode_utf8.
  destruct (Z.ltb_spec cp 128); [|destruct (Z.ltb_spec cp 2048); [|destruct (Z.ltb_spec cp 65536)]];
    (eexists; split; [reflexivity|]; rewrite byte_value_byte by dlia; split).
  - unfold sequence_length. by bool_cases.
  - intros [|[|i]] c Hi; [lia|done..].
  - assert (2 <= cp / 64 <= 31) by dlia. unfold sequence_length. by bool_cases.
  - assert (2 <= cp / 64 <= 31) by dlia.
    intros [|[|[|i]]] c Hi; [lia| |done..]. intros [= <-]. apply accepts_iff. rewrite byte_value_byte by dlia.
    unfold continuation_range. closed_decisions; cbv beta iota; bool_cases; cbn [fst snd]; dlia.
  - assert (0 <= cp / 4096 <= 15) by dlia. unfold sequence_length. by bool_cases.
  - assert (0 <= cp / 4096 <= 15) by dlia.
    intros [|[|[|[|i]]]] c Hi; [lia| | |done..]; intros [= <-]; apply accepts_iff; rewrite byte_value_byte by dlia;
      unfold continuation_range; closed_decisions; cbv beta iota; [bool_cases; cbn [fst snd]; dlia|cbn [fst snd]; dlia].
  - assert (0 <= cp / 262144 <= 4) by dlia. unfold sequence_length. by bool_cases.
  - assert (0 <= cp / 262144 <= 4) by dlia.
    intros [|[|[|[|[|i]]]]] c Hi; [lia| | | |done..]; intros [= <-]; apply accepts_iff; rewrite byte_value_byte by dlia;
      unfold continuation_range; closed_decisions; cbv beta iota; [bool_cases; cbn [fst snd]; dlia|cbn [fst snd]; dlia|cbn [fst snd]; dlia].
Qed.

(** A sequence the decoder accepts is the encoding of a scalar value. *)
Lemma encoded_encode s : encoded s -> exists cp, scalar cp /\ s = encode_utf8 cp.
Proof.
  intros (lead & Hh & Hl & Hc). destruct s as [|l s]; [done|]. cbn in Hh. injection Hh as ->.
  pose proof (byte_value_range lead) as Hlr. remember (byte_value lead) as v eqn:Ev.
  unfold sequence_length in Hl.
  assert (forall i c, (lead :: s) !! i = Some c -> (1 <= i)%nat ->
    128 <= byte_value c <= 191 /\ (i = 1%nat -> (v = 224 -> 160 <= byte_value c) /\ (v = 237 -> byte_value c <= 159) /\
      (v = 240 -> 144 <= byte_value c) /\ (v = 244 -> byte_value c <= 143))) as Hcont.
  { intros i c Hi H1. specialize (Hc i c H1 Hi). apply accepts_iff in Hc. unfold continuation_range in Hc.
    destruct (bool_decide (i = 1%nat)) eqn:E.
    - repeat match type of Hc with context [?a =? ?b] => destruct (Z.eqb_spec a b) end; cbn [fst snd] in Hc;
        (split; [lia|]; intros _; lia).
    - apply bool_decide_eq_false in E. cbn [fst snd] in Hc. split; [lia|]. by intros ->. }
  clear Hc. symmetry in Ev. apply byte_of_value in Ev as ->.
  destruct (Z.leb_spec v 127).
  { injection Hl as Hl. destruct s; [|done]. exists v. split; [split; lia|]. unfold encode_utf8. by bool_cases. }
  destruct (Z.leb_spec 194 v), (Z.leb_spec v 223); cbn [andb] in Hl; try (bool_cases; done).
  { injection Hl as Hl. destruct s as [|c1 [|]]; try done.
    destruct (Hcont 1%nat c1 eq_refl ltac:(lia)) as [Hb1 _]. remember (byte_value c1) as b1 eqn:E1.
    symmetry in E1. apply byte_of_value in E1 as ->.
    exists ((v - 192) * 64 + (b1 - 128)). split; [split; lia|]. unfold encode_utf8.
    rewrite (proj2 (Z.ltb_ge _ _)), (proj2 (Z.ltb_lt _ _)) by lia. repeat (f_equal; try dlia). }
  destruct (Z.leb_spec 224 v), (Z.leb_spec v 239); cbn [andb] in Hl; try (bool_cases; done).
  { injection Hl as Hl. destruct s as [|c1 [|c2 [|]]]; try done.
    destruct (Hcont 1%nat c1 eq_refl ltac:(lia)) as [Hb1 Hb1'].
    destruct (Hcont 2%nat c2 eq_refl ltac:(lia)) as [Hb2 _]. specialize (Hb1' eq_refl).
    remember (byte_value c1) as b1 eqn:E1. remember (byte_value c2) as b2 eqn:E2.
    symmetry in E1, E2. apply byte_of_value in E1 as ->. apply byte_of_value in E2 as ->.
    exists ((v - 224) * 4096 + (b1 - 128) * 64 + (b2 - 128)). split; [split; lia|]. unfold encode_utf8.
    rewrite (proj2 (Z.ltb_ge _ 128)), (proj2 (Z.ltb_ge _ 2048)), (proj2 (Z.ltb_lt _ _)) by lia.
    repeat (f_equal; try dlia). }
  destruct (Z.leb_spec 240 v), (Z.leb_spec v 244); cbn [andb] in Hl; try done.
  injection Hl as Hl. destruct s as [|c1 [|c2 [|c3 [|]]]]; try done.
  destruct (Hcont 1%nat c1 eq_refl ltac:(lia)) as [Hb1 Hb1'].
  destruct (Hcont 2%nat c2 eq_refl ltac:(lia)) as [Hb2 _]. specialize (Hb1' eq_refl).
  destruct (Hcont 3%nat c3 eq_refl ltac:(lia)) as [Hb3 _].
  remember (byte_value c1) as b1 eqn:E1. remember (byte_value c2) as b2 eqn:E2. remember (byte_value c3) as b3 eqn:E3.
  symmetry in E1, E2, E3. apply byte_of_value in E1 as ->. apply byte_of_value in E2 as ->.
  apply byte_of_value in E3 as ->.
  exists ((v - 240) * 262144 + (b1 - 128) * 4096 + (b2 - 128) * 64 + (b3 - 128)). split; [split; lia|].
  unfold encode_utf8.
  rewrite (proj2 (Z.ltb_ge _ 128)), (proj2 (Z.ltb_ge _ 2048)), (proj2 (Z.ltb_ge _ 65536)) by lia.
  repeat (f_equal; try dlia).
Qed.

Lemma utf8_text_app a b : utf8_text (a ++ b) = utf8_text a ++ utf8_text b.
Proof. unfold utf8_text. by rewrite fmap_app, concat_app. Qed.

(** ** One iteration *)

(** The text an iteration publishes and the bytes it reads; [None] when the sequence is incomplete. *)
Definition utf8_step (rest : bytes) : option (bytes * nat) :=
  match rest with
  | [] => None
  | c :: _ =>
      match sequence_length (byte_value c) with
      | None => Some (kUtf8Replacement, 1%nat)
      | Some length =>
          match check_sequence (pred length) rest (byte_value c) 1 with
          | Incomplete => None
          | Malformed index => Some (kUtf8Replacement, index)
          | Complete => Some (take length rest, length)
          end
      end
  end.

Lemma consume_loop_step fuel rest decoded :
  consume_loop (S fuel) rest decoded =
  match utf8_step rest with
  | None => (decoded, rest)
  | Some (out, n) => consume_loop fuel (drop n rest) (decoded ++ out)
  end.
Proof.
  cbn [consume_loop]. unfold utf8_step. destruct rest as [|c rest]; [done|].
  destruct (sequence_length _) as [n|]; [|done]. by destruct (check_sequence _ _ _ _).
Qed.

Lemma check_sequence_spec n : forall rest lead index,
  match check_sequence n rest lead index with
  | Complete => forall i, (index <= i < index + n)%nat -> exists c, rest !! i = Some c /\ accepts lead i c = true
  | Malformed j => (index <= j < index + n)%nat /\ exists c, rest !! j = Some c /\ accepts lead j c = false
  | Incomplete => exists j, (index <= j < index + n)%nat /\ rest !! j = None /\
      forall i, (index <= i < j)%nat -> exists c, rest !! i = Some c /\ accepts lead i c = true
  end.
Proof.
  induction n as [|n IH]; intros rest lead index; cbn [check_sequence]; [intros i ?; lia|].
  destruct (rest !! index) as [c|] eqn:E; [|exists index; split; [lia|]; split; [done|lia]].
  destruct (continuation_range lead index) as [minimum maximum] eqn:Er.
  assert (accepts lead index c = negb ((byte_value c <? minimum) || (maximum <? byte_value c))) as Ha
    by (unfold accepts; by rewrite Er).
  destruct (_ || _); cbn [negb] in Ha; [split; [lia|]; by exists c|].
  specialize (IH rest lead (S index)). destruct (check_sequence n rest lead (S index)) as [|j|].
  - destruct IH as (j & Hj & Hn & Hall). exists j. split; [lia|]. split; [done|]. intros i Hi.
    destruct (decide (i = index)) as [->|]; [by exists c|]. apply Hall. lia.
  - destruct IH as [Hj Hc]. split; [lia|done].
  - intros i Hi. destruct (decide (i = index)) as [->|]; [by exists c|]. apply IH. lia.
Qed.

Lemma check_sequence_app n : forall rest lead index t,
  check_sequence n rest lead index <> Incomplete ->
  check_sequence n (rest ++ t) lead index = check_sequence n rest lead index.
Proof.
  induction n as [|n IH]; intros rest lead index t H; cbn [check_sequence] in *; [done|].
  destruct (rest !! index) as [c|] eqn:E; [|done]. rewrite (lookup_app_l_Some _ _ _ _ E).
  destruct (continuation_range lead index). destruct (_ || _); [done|by apply IH].
Qed.

Lemma sequence_length_pos lead n : sequence_length lead = Some n -> (1 <= n <= 4)%nat.
Proof. unfold sequence_length. repeat case_match; intros [= <-]; lia. Qed.

(** A complete sequence is read from the front of the bytes. *)
Lemma check_complete n c rest :
  (1 <= n)%nat -> check_sequence (pred n) (c :: rest) (byte_value c) 1 = Complete -> (n <= length (c :: rest))%nat.
Proof.
  intros Hn Hc. pose proof (check_sequence_spec (pred n) (c :: rest) (byte_value c) 1) as H. rewrite Hc in H.
  destruct (decide (n = 1)%nat) as [->|]; [cbn; lia|].
  destruct (H (pred n) ltac:(lia)) as (d & Hd & _). apply lookup_lt_Some in Hd. lia.
Qed.

(** An iteration reads at least one byte, and later bytes do not change it. *)
Lemma utf8_step_local rest out n :
  utf8_step rest = Some (out, n) ->
  (1 <= n <= length rest)%nat /\ forall t, utf8_step (rest ++ t) = Some (out, n).
Proof.
  unfold utf8_step. destruct rest as [|c rest]; [done|]. cbn [app].
  destruct (sequence_length (byte_value c)) as [m|] eqn:El; [|intros [= <- <-]; split; [cbn; lia|done]].
  apply sequence_length_pos in El as Hm.
  destruct (check_sequence (pred m) (c :: rest) (byte_value c) 1) as [|j|] eqn:Ec; [done| |]; intros [= <- <-].
  - pose proof (check_sequence_spec (pred m) (c :: rest) (byte_value c) 1) as H. rewrite Ec in H.
    destruct H as [Hj (d & Hd & _)]. apply lookup_lt_Some in Hd. split; [lia|]. intros t.
    pose proof (check_sequence_app (pred m) (c :: rest) (byte_value c) 1 t) as Ha. cbn [app] in Ha. by rewrite Ha, Ec; [|by rewrite Ec].
  - pose proof (check_complete m c rest ltac:(lia) Ec) as Hle. split; [lia|]. intros t.
    pose proof (check_sequence_app (pred m) (c :: rest) (byte_value c) 1 t) as Ha. cbn [app] in Ha.
    rewrite Ha, Ec by (by rewrite Ec). do 2 f_equal. rewrite app_comm_cons. by rewrite take_app_le by done.
Qed.

(** An encoded code point at the front is read as it is. *)
Lemma utf8_step_encoded e t : encoded e -> utf8_step (e ++ t) = Some (e, length e).
Proof.
  intros (lead & Hh & Hl & Hc). destruct e as [|l e]; [done|]. injection Hh as ->. cbn [app utf8_step].
  rewrite Hl. pose proof (check_sequence_spec (pred (length (lead :: e))) (lead :: e ++ t) (byte_value lead) 1) as H.
  destruct (check_sequence _ _ _ _) as [|j|].
  - destruct H as (j & Hj & Hn & _). apply lookup_ge_None in Hn. cbn [length] in Hj, Hn. rewrite length_app in Hn. lia.
  - destruct H as [Hj (c & Hj' & Ha)]. rewrite app_comm_cons, lookup_app_l in Hj' by (cbn [length] in *; lia).
    rewrite (Hc j c ltac:(lia) Hj') in Ha. done.
  - by rewrite app_comm_cons, take_app_length.
Qed.

(** A strict prefix of an encoded code point waits for its other bytes. *)
Lemma utf8_step_partial r r' : r' <> [] -> encoded (r ++ r') -> utf8_step r = None.
Proof.
  intros Hr' He. destruct (utf8_step r) as [[out n]|] eqn:E; [|done].
  apply utf8_step_local in E as [Hn Hloc]. specialize (Hloc r').
  pose proof (utf8_step_encoded (r ++ r') [] He) as H. rewrite app_nil_r, Hloc in H. injection H as _ ->.
  rewrite length_app in Hn. destruct r'; [done|]. cbn in Hn. lia.
Qed.

Lemma replacement_scalar : kUtf8Replacement = encode_utf8 65533 /\ scalar 65533.
Proof. split; [reflexivity|]. split; lia. Qed.

(** What an iteration publishes is an encoded code point. *)
Lemma utf8_step_valid rest out n :
  utf8_step rest = Some (out, n) -> exists cp, scalar cp /\ out = encode_utf8 cp.
Proof.
  unfold utf8_step. destruct rest as [|c rest]; [done|].
  destruct (sequence_length (byte_value c)) as [m|] eqn:El.
  2: { intros [= <- <-]. destruct replacement_scalar. by exists 65533. }
  destruct (check_sequence _ _ _ _) as [|j|] eqn:Ec; [done| |]; intros [= <- <-].
  { destruct replacement_scalar. by exists 65533. }
  apply encoded_encode. apply sequence_length_pos in El as Hm.
  pose proof (check_complete m c rest ltac:(lia) Ec) as Hle. exists c.
  split; [by destruct m; [lia|]|]. split; [by rewrite length_take_le by done|].
  intros i d Hi Hd. apply lookup_take_Some in Hd as [Hd Him].
  pose proof (check_sequence_spec (pred m) (c :: rest) (byte_value c) 1) as H. rewrite Ec in H.
  destruct (H i ltac:(lia)) as (d' & Hd' & Ha). congruence.
Qed.

(** At most three bytes wait. *)
Lemma utf8_step_short rest : utf8_step rest = None -> (length rest <= 3)%nat.
Proof.
  unfold utf8_step. destruct rest as [|c rest]; [cbn; lia|].
  destruct (sequence_length (byte_value c)) as [m|] eqn:El; [|done].
  destruct (check_sequence _ _ _ _) as [|j|] eqn:Ec; [|done..]. intros _.
  pose proof (check_sequence_spec (pred m) (c :: rest) (byte_value c) 1) as H. rewrite Ec in H.
  destruct H as (j & Hj & Hn & _). apply lookup_ge_None in Hn. apply sequence_length_pos in El. lia.
Qed.

(** ** The loop *)

Lemma consume_loop_decoded fuel : forall rest decoded,
  consume_loop fuel rest decoded = (decoded ++ (consume_loop fuel rest []).1, (consume_loop fuel rest []).2).
Proof.
  induction fuel as [|fuel IH]; intros rest decoded; [cbn; by rewrite app_nil_r|].
  rewrite !consume_loop_step. destruct (utf8_step rest) as [[out n]|]; [|cbn; by rewrite app_nil_r].
  rewrite IH, (IH _ ([] ++ out)). cbn [fst snd app]. by rewrite app_assoc.
Qed.

Lemma consume_loop_fuel f1 : forall f2 rest decoded,
  (length rest <= f1)%nat -> (length rest <= f2)%nat -> consume_loop f1 rest decoded = consume_loop f2 rest decoded.
Proof.
  induction f1 as [|f1 IH]; intros [|f2] rest decoded H1 H2.
  - done.
  - destruct rest; [|cbn in H1; lia]. done.
  - destruct rest; [|cbn in H2; lia]. done.
  - rewrite !consume_loop_step. destruct (utf8_step rest) as [[out n]|] eqn:E; [|done].
    apply utf8_step_local in E as [Hn _]. apply IH; rewrite length_drop; lia.
Qed.

(** [consume_generated_utf8] reads one sequence and goes on with the rest. *)
Lemma consume_unfold rest :
  consume_generated_utf8 rest =
  match utf8_step rest with
  | None => ([], rest)
  | Some (out, n) =>
      (out ++ (consume_generated_utf8 (drop n rest)).1, (consume_generated_utf8 (drop n rest)).2)
  end.
Proof.
  unfold consume_generated_utf8. destruct rest as [|c rest]; [done|]. cbn [length].
  rewrite consume_loop_step. destruct (utf8_step (c :: rest)) as [[out n]|] eqn:E; [|done].
  apply utf8_step_local in E as [Hn _]. rewrite consume_loop_decoded. cbn [app].
  rewrite (consume_loop_fuel _ (length (drop n (c :: rest)))); [done| |done].
  rewrite length_drop. cbn [length] in *. lia.
Qed.

(** Induction on the sequences of a byte string. *)
Lemma utf8_ind (P : bytes -> Prop) :
  (forall rest, utf8_step rest = None -> P rest) ->
  (forall rest out n, utf8_step rest = Some (out, n) -> P (drop n rest) -> P rest) ->
  forall rest, P rest.
Proof.
  intros Hnone Hsome rest. remember (length rest) as k eqn:Hk. revert rest Hk.
  induction (lt_wf k) as [k _ IH]. intros rest ->. destruct (utf8_step rest) as [[out n]|] eqn:E; [|by apply Hnone].
  apply (Hsome _ _ _ E). apply utf8_step_local in E as [Hn _].
  apply (IH (length (drop n rest))); [|done]. rewrite length_drop. lia.
Qed.

(** Decoding can stop anywhere and go on with what is left and the bytes that follow. *)
Lemma consume_app s t :
  consume_generated_utf8 (s ++ t) =
  ((consume_generated_utf8 s).1 ++ (consume_generated_utf8 ((consume_generated_utf8 s).2 ++ t)).1,
   (consume_generated_utf8 ((consume_generated_utf8 s).2 ++ t)).2).
Proof.
  revert s. apply (utf8_ind (fun s => _)).
  - intros s E. rewrite (consume_unfold s), E. cbn [fst snd app]. by destruct (consume_generated_utf8 (s ++ t)).
  - intros s out n E IH. pose proof (utf8_step_local _ _ _ E) as [Hn Hloc].
    rewrite (consume_unfold (s ++ t)), Hloc, (consume_unfold s), E. cbn [fst snd].
    rewrite drop_app_le by lia. rewrite IH. cbn [fst snd]. by rewrite app_assoc.
Qed.

Lemma consume_valid s : exists cps, Forall scalar cps /\ (consume_generated_utf8 s).1 = utf8_text cps.
Proof.
  revert s. apply (utf8_ind (fun s => _)).
  - intros s E. rewrite consume_unfold, E. by exists [].
  - intros s out n E (cps & Hcps & IH). rewrite consume_unfold, E. cbn [fst].
    apply utf8_step_valid in E as (cp & Hcp & ->). exists (cp :: cps). split; [by constructor|]. by rewrite IH.
Qed.

Lemma consume_pending s : utf8_step (consume_generated_utf8 s).2 = None.
Proof.
  revert s. apply (utf8_ind (fun s => _)).
  - intros s E. by rewrite consume_unfold, E.
  - intros s out n E IH. by rewrite consume_unfold, E.
Qed.

Lemma consume_prefix cps : forall s tail,
  Forall scalar cps -> s ++ tail = utf8_text cps ->
  (consume_generated_utf8 s).1 ++ (consume_generated_utf8 s).2 = s /\
  (tail = [] -> (consume_generated_utf8 s).2 = []).
Proof.
  induction cps as [|cp cps IH]; intros s tail Hcps Hs.
  - cbn in Hs. apply app_nil in Hs as [-> ->]. done.
  - apply Forall_cons in Hcps as [Hcp Hcps]. apply encode_encoded in Hcp. cbn in Hs. fold (utf8_text cps) in Hs.
    destruct (decide (length (encode_utf8 cp) <= length s)%nat) as [Hle|Hgt].
    + pose proof (take_drop (length (encode_utf8 cp)) s) as Hd.
      set (e := take (length (encode_utf8 cp)) s) in *. set (s' := drop (length (encode_utf8 cp)) s) in *.
      rewrite <- Hd, <- app_assoc in Hs.
      apply app_inj_1 in Hs as [He Hs']; [|unfold e; by rewrite length_take_le].
      destruct (IH s' tail Hcps Hs') as [IH1 IH2].
      rewrite <- Hd, He, consume_unfold, (utf8_step_encoded _ _ Hcp), drop_app_length. cbn [fst snd].
      split; [by rewrite <- app_assoc, IH1|done].
    + assert (exists r', encode_utf8 cp = s ++ r') as [r' Hr'].
      { exists (drop (length s) (encode_utf8 cp)). rewrite <- (take_drop (length s) (encode_utf8 cp)) at 1.
        f_equal. apply (f_equal (take (length s))) in Hs. rewrite take_app_length, take_app_le in Hs by lia. done. }
      assert (r' <> []) by (intros ->; rewrite Hr', app_nil_r in Hgt; lia).
      rewrite Hr' in Hcp. apply utf8_step_partial in Hcp; [|done]. rewrite consume_unfold, Hcp. split; [done|].
      intros ->. exfalso. rewrite app_nil_r in Hs. rewrite Hs, length_app in Hgt. lia.
Qed.

(** ** The stream of token bytes *)

(** [feed_token_bytes] up to the call that consumes the text. *)
Fixpoint utf8_stream (pending : bytes) (chunks : list bytes) : bytes * bytes :=
  match chunks with
  | [] => ([], pending)
  | chunk :: chunks =>
      let '(text, pending) := consume_generated_utf8 (pending ++ chunk) in
      let '(texts, pending) := utf8_stream pending chunks in
      (text ++ texts, pending)
  end.

Lemma utf8_stream_consume chunks : forall pending,
  utf8_step pending = None -> utf8_stream pending chunks = consume_generated_utf8 (pending ++ concat chunks).
Proof.
  induction chunks as [|chunk chunks IH]; intros pending Hp; cbn [utf8_stream concat].
  - rewrite app_nil_r, consume_unfold. by rewrite Hp.
  - rewrite app_assoc, (consume_app (pending ++ chunk)). destruct (consume_generated_utf8 (pending ++ chunk)) as [text p] eqn:E.
    pose proof (consume_pending (pending ++ chunk)) as Hn. rewrite E in Hn. cbn [fst snd] in *.
    rewrite (IH p Hn). by destruct (consume_generated_utf8 (p ++ concat chunks)).
Qed.

(** C40: incremental decoding. However a byte stream is cut into token chunks, the text published is
    what decoding the whole stream at once gives, it is always valid UTF-8 and at most three bytes
    are held back; while the stream is the beginning of some valid UTF-8 text nothing is replaced or
    lost, and when it is a whole text it is published entirely. *)
Theorem utf8_stream_exact chunks :
  let '(text, pending) := utf8_stream [] chunks in
  (text, pending) = consume_generated_utf8 (concat chunks) /\
  (exists cps, Forall scalar cps /\ text = utf8_text cps) /\
  (length pending <= 3)%nat /\
  (forall cps tail, Forall scalar cps -> concat chunks ++ tail = utf8_text cps ->
     text ++ pending = concat chunks /\ (tail = [] -> pending = [])).
Proof.
  rewrite (utf8_stream_consume chunks [] eq_refl). cbn [app].
  pose proof (consume_valid (concat chunks)) as Hv. pose proof (consume_pending (concat chunks)) as Hp.
  pose proof (fun cps tail => consume_prefix cps (concat chunks) tail) as Hx.
  destruct (consume_generated_utf8 (concat chunks)) as [text pending]. cbn [fst snd] in *.
  split; [done|]. split; [done|]. split; [by apply utf8_step_short|done].
Qed.
