(* ===== verification/PrefixTracker.v ===== *)
(** * Boundary tracking by failure function

    [make_prefix_failure_table] and [PrefixExecutionTracker] of
    [models/qwen3_5/frontend/output_session.cpp]: a pattern is recognised in a stream of token bytes
    with a Knuth-Morris-Pratt automaton. The table and the tracker are proved for every non-empty
    pattern and used for the serialization that closes the reasoning. *)

From Stdlib Require Import String.
From S2P Require Import Prelude Bytes.
Open Scope char_scope.
Open Scope Z_scope.

(** [kCanonicalReasoningCloseSerialization] (chat_template.h). *)
Definition kBoundary : bytes := ["010"] ++ lit "</think>" ++ ["010"; "010"].

Section automaton.
Context (pattern : bytes).

(** [while (matched != 0 && c != pattern[matched]) matched = failure[matched - 1]]. *)
Fixpoint fall_back (fuel : nat) (failure : list nat) (c : ascii) (matched : nat) : nat :=
  match fuel with
  | O => matched
  | S fuel =>
      if negb (bool_decide (matched = 0%nat)) && negb (bool_decide (pattern !! matched = Some c))
      then fall_back fuel failure c (default 0%nat (failure !! (matched - 1)%nat))
      else matched
  end.

Definition advance (failure : list nat) (c : ascii) (matched : nat) : nat :=
  let matched := fall_back (S matched) failure c matched in
  if bool_decide (pattern !! matched = Some c) then S matched else matched.

(** The loop of [make_prefix_failure_table] from [index], over the remaining pattern bytes. *)
Fixpoint fill_table (rest : bytes) (index : nat) (failure : list nat) : list nat :=
  match rest with
  | [] => failure
  | c :: rest =>
      let matched := advance failure c (default 0%nat (failure !! (index - 1)%nat)) in
      fill_table rest (S index) (<[index := matched]> failure)
  end.

Definition make_prefix_failure_table : list nat :=
  fill_table (drop 1 pattern) 1 (replicate (length pattern) 0%nat).

Record PrefixExecutionTracker := mkTracker { tr_matched : nat; tr_tracking : bool }.

(** The loop of [feed]: the offset behind the completed pattern, or the matched length left. *)
Fixpoint track_bytes (failure : list nat) (bytes : bytes) (offset matched : nat) : option nat * nat :=
  match bytes with
  | [] => (None, matched)
  | c :: bytes =>
      let matched := advance failure c matched in
      if negb (bool_decide (matched = length pattern)) then track_bytes failure bytes (S offset) matched
      else (Some (offset + 1)%nat, 0%nat)
  end.

Definition tracker_feed (bytes : bytes) (t : PrefixExecutionTracker) : option nat * PrefixExecutionTracker :=
  if negb (tr_tracking t) then (None, t)
  else
    let '(found, matched) := track_bytes make_prefix_failure_table bytes 0 (tr_matched t) in
    (found, mkTracker matched (match found with Some _ => false | None => true end)).

(** ** Suffixes that begin the pattern *)

Definition suffix_match (k : nat) (s : bytes) : Prop :=
  (k <= length s)%nat /\ (k <= length pattern)%nat /\ drop (length s - k) s = take k pattern.

Lemma suffix_match_0 s : suffix_match 0 s.
Proof. split; [lia|]. split; [lia|]. rewrite take_0. apply drop_ge. lia. Qed.

(** Shorter matches are matches of the longer one. *)
Lemma suffix_match_shorter k j s :
  suffix_match k s -> (j <= k)%nat -> (suffix_match j s <-> suffix_match j (take k pattern)).
Proof.
  intros (Hk1 & Hk2 & Hk) Hj. unfold suffix_match. rewrite length_take_le by done.
  assert (drop (length s - j) s = drop (k - j) (take k pattern)) as ->.
  { rewrite <- Hk, drop_drop. f_equal. lia. }
  intuition lia.
Qed.

Lemma suffix_match_snoc j s c :
  suffix_match (S j) (s ++ [c]) <-> suffix_match j s /\ pattern !! j = Some c.
Proof.
  unfold suffix_match. rewrite length_app. cbn [length].
  replace (length s + 1 - S j)%nat with (length s - j)%nat by lia. split.
  - intros (H1 & H2 & H3). rewrite drop_app_le in H3 by lia.
    destruct (lookup_lt_is_Some_2 pattern j ltac:(lia)) as [d Hd]. rewrite (take_S_r _ _ _ Hd) in H3.
    apply app_inj_tail in H3 as [H3 <-]. split; [|done]. split; [lia|]. split; [lia|done].
  - intros [(H1 & H2 & H3) H4]. apply lookup_lt_Some in H4 as Hl. split; [lia|]. split; [lia|].
    rewrite drop_app_le by lia. by rewrite H3, (take_S_r _ _ _ H4).
Qed.

(** [k] is the longest match below a bound. *)
Definition longest (bound k : nat) (s : bytes) : Prop :=
  suffix_match k s /\ forall j, (j <= bound)%nat -> suffix_match j s -> (j <= k)%nat.

(** The first [n] entries of the table are longest proper borders. *)
Definition table_ok (n : nat) (failure : list nat) : Prop :=
  length failure = length pattern /\
  forall i, (i < n)%nat -> exists k, failure !! i = Some k /\ (k <= i)%nat /\ longest i k (take (S i) pattern).

Lemma fall_back_spec fuel : forall n failure c matched s,
  table_ok n failure -> (matched <= n)%nat -> suffix_match matched s -> (matched < fuel)%nat ->
  let r := fall_back fuel failure c matched in
  suffix_match r s /\ (r <= matched)%nat /\ (r = 0%nat \/ pattern !! r = Some c) /\
  forall j, (j <= matched)%nat -> suffix_match j s -> pattern !! j = Some c -> (j <= r)%nat.
Proof.
  induction fuel as [|fuel IH]; intros n failure c matched s Hok Hn Hm Hf; [lia|]. cbn [fall_back].
  destruct (bool_decide (matched = 0%nat)) eqn:E0; cbn [negb andb].
  { apply bool_decide_eq_true in E0 as ->. split; [done|]. split; [done|]. split; [by left|lia]. }
  apply bool_decide_eq_false in E0.
  destruct (bool_decide (pattern !! matched = Some c)) eqn:Ec; cbn [negb andb].
  { apply bool_decide_eq_true in Ec. split; [done|]. split; [done|]. split; [by right|lia]. }
  apply bool_decide_eq_false in Ec.
  destruct Hok as [Hlen Hok]. destruct (Hok (matched - 1)%nat ltac:(lia)) as (k & -> & Hk & Hkm & Hkl).
  replace (S (matched - 1)) with matched in * by lia. cbn [default].
  destruct (IH n failure c k s) as (R1 & R2 & R3 & R4); [by split|lia| |lia|].
  { apply (suffix_match_shorter matched k s Hm); [lia|done]. }
  split; [done|]. split; [cbn; lia|]. split; [done|]. intros j Hj Hjs Hjc.
  assert (j <> matched) by congruence. apply R4; [|done|done]. apply Hkl; [lia|].
  by apply (suffix_match_shorter matched j s Hm Hj).
Qed.

(** One byte: the new length is the longest match that extends a match of at most [matched] bytes. *)
Lemma advance_spec n failure c matched s :
  table_ok n failure -> (matched <= n)%nat -> suffix_match matched s ->
  longest (S matched) (advance failure c matched) (s ++ [c]) /\ (advance failure c matched <= S matched)%nat.
Proof.
  intros Hok Hn Hm. unfold advance.
  destruct (fall_back_spec (S matched) n failure c matched s Hok Hn Hm ltac:(lia)) as (R1 & R2 & R3 & R4).
  set (r := fall_back (S matched) failure c matched) in *.
  destruct (bool_decide (pattern !! r = Some c)) eqn:E.
  - apply bool_decide_eq_true in E. split; [|lia]. split; [by apply suffix_match_snoc|].
    intros [|j] Hj Hjs; [lia|]. apply suffix_match_snoc in Hjs as [Hjs Hjc]. apply le_n_S, R4; [lia|done|done].
  - apply bool_decide_eq_false in E. destruct R3 as [->|]; [|done]. split; [|lia].
    split; [apply suffix_match_0|]. intros [|j] Hj Hjs; [lia|]. apply suffix_match_snoc in Hjs as [Hjs Hjc].
    assert (j <= 0)%nat by (apply R4; [lia|done|done]). assert (j = 0%nat) as -> by lia. congruence.
Qed.
(** ** The table *)

Lemma fill_table_ok rest : forall index failure,
  rest = drop index pattern -> (1 <= index)%nat -> table_ok index failure ->
  table_ok (length pattern) (fill_table rest index failure).
Proof.
  induction rest as [|c rest IH]; intros index failure Hrest Hi Hok; cbn [fill_table].
  { assert (length pattern <= index)%nat as Hle.
    { apply (f_equal length) in Hrest. rewrite length_drop in Hrest. cbn in Hrest. lia. }
    destruct Hok as [Hlen Hok]. split; [done|]. intros i Hilt. apply Hok. lia. }
  assert (pattern !! index = Some c) as Hc.
  { rewrite <- (Nat.add_0_r index), <- lookup_drop, <- Hrest. done. }
  apply lookup_lt_Some in Hc as Hlt.
  apply IH; [by rewrite <- Nat.add_1_r, <- drop_drop, <- Hrest|lia|].
  pose proof Hok as [Hlen Hall]. destruct (Hall (index - 1)%nat ltac:(lia)) as (k & -> & Hk & Hkm & Hkl).
  replace (S (index - 1)) with index in * by lia. cbn [default].
  destruct (advance_spec index failure c k (take index pattern) Hok ltac:(lia) Hkm) as [[Ha Hl] Hle].
  split; [by rewrite length_insert|]. intros i Hilt. destruct (decide (i = index)) as [->|Hne].
  - exists (advance failure c k). rewrite list_lookup_insert_eq by lia. split; [done|]. split; [lia|].
    rewrite (take_S_r _ _ _ Hc). split; [done|]. intros [|j] Hj Hjs; [lia|].
    apply Hl; [|done]. apply le_n_S. apply suffix_match_snoc in Hjs as [Hjs _]. apply Hkl; [lia|done].
  - rewrite list_lookup_insert_ne by done. apply Hall. lia.
Qed.

(** Every entry is the length of the longest proper border. *)
Lemma table_correct : pattern <> [] -> table_ok (length pattern) make_prefix_failure_table.
Proof.
  intros Hne. apply fill_table_ok; [done|lia|]. split; [by rewrite length_replicate|].
  intros i Hi. exists 0%nat. assert (i = 0%nat) as -> by lia.
  rewrite lookup_replicate_2 by (destruct pattern; [done|cbn; lia]).
  split; [done|]. split; [lia|]. split; [apply suffix_match_0|done].
Qed.

(** ** The stream *)

(** The pattern occurs in the text and ends at [e]. *)
Definition ends_at (text : bytes) (e : nat) : Prop := (e <= length text)%nat /\ suffix_match (length pattern) (take e text).

Lemma starts_ends text i : starts_with_at text i pattern = true <-> ends_at text (i + length pattern).
Proof.
  unfold ends_at, suffix_match. split.
  - intros (pre & post & -> & <-)%starts_with_at_spec. rewrite !length_app. split; [lia|].
    rewrite app_assoc, <- length_app, take_app_length, length_app. split; [lia|]. split; [lia|].
    replace (length pre + length pattern - length pattern)%nat with (length pre) by lia.
    rewrite drop_app_length. by rewrite take_ge.
  - intros (H1 & H2 & _ & H3). apply starts_with_at_spec. exists (take i text), (drop (i + length pattern) text).
    rewrite length_take_le in H3 by done. rewrite (take_ge pattern) in H3 by done.
    replace (i + length pattern - length pattern)%nat with i in H3 by lia.
    split; [|apply length_take_le; lia]. rewrite <- H3 at 1. rewrite app_assoc.
    rewrite <- (take_drop (i + length pattern) text) at 1. f_equal.
    rewrite <- (take_drop i (take (i + length pattern) text)) at 1. rewrite take_take. do 2 f_equal. lia.
Qed.

(** While tracking, the matched length is the longest match of the text so far, and the pattern has
    not occurred. *)
Definition tracking (s : bytes) (matched : nat) : Prop :=
  (matched < length pattern)%nat /\ longest (length pattern) matched s /\ forall e, ~ ends_at s e.

Lemma ends_at_app s t e : (e <= length s)%nat -> ends_at (s ++ t) e <-> ends_at s e.
Proof. intros He. unfold ends_at. rewrite length_app, take_app_le by done. intuition lia. Qed.

Lemma track_byte s matched c :
  pattern <> [] -> tracking s matched ->
  let matched' := advance make_prefix_failure_table c matched in
  if decide (matched' = length pattern) then
    ends_at (s ++ [c]) (S (length s)) /\ forall e, (e <= length s)%nat -> ~ ends_at (s ++ [c]) e
  else tracking (s ++ [c]) matched'.
Proof.
  intros Hne (Hlt & [Hm Hl] & Hno). cbv zeta.
  destruct (advance_spec _ _ c matched s (table_correct Hne) ltac:(lia) Hm) as [[Ha Hal] Hale].
  set (matched' := advance make_prefix_failure_table c matched) in *.
  assert (forall e, (e <= length s)%nat -> ~ ends_at (s ++ [c]) e) as Hno'.
  { intros e He. rewrite ends_at_app by done. apply Hno. }
  assert (take (S (length s)) (s ++ [c]) = s ++ [c]) as Hfull by (apply take_ge; rewrite length_app; cbn; lia).
  case_decide as Hd.
  - split; [|done]. unfold ends_at. rewrite Hfull, length_app. split; [cbn; lia|by rewrite <- Hd].
  - assert (longest (length pattern) matched' (s ++ [c])) as Hlong.
    { split; [done|]. intros [|j] Hj Hjs; [lia|]. apply Hal; [|done]. apply le_n_S.
      apply suffix_match_snoc in Hjs as [Hjs _]. apply Hl; [lia|done]. }
    assert (matched' <= length pattern)%nat by apply Ha.
    split; [lia|]. split; [done|]. intros e He. destruct (decide (e <= length s)%nat) as [|Hgt]; [by apply (Hno' e)|].
    pose proof He as [Hle Hend]. rewrite length_app in Hle. cbn [length] in Hle.
    assert (e = S (length s)) as -> by lia. rewrite Hfull in Hend.
    pose proof (proj2 Hlong (length pattern) ltac:(lia) Hend). lia.
Qed.

Lemma track_bytes_spec b : forall s offset matched,
  pattern <> [] -> tracking s matched ->
  match track_bytes make_prefix_failure_table b offset matched with
  | (None, matched') => tracking (s ++ b) matched'
  | (Some o, matched') =>
      (offset < o <= offset + length b)%nat /\ matched' = 0%nat /\
      ends_at (s ++ b) (length s + (o - offset)) /\
      forall e, (e < length s + (o - offset))%nat -> ~ ends_at (s ++ b) e
  end.
Proof.
  induction b as [|c b IH]; intros s offset matched Hne Htr; cbn [track_bytes].
  { by rewrite app_nil_r. }
  pose proof (track_byte s matched c Hne Htr) as Hb. cbv zeta in Hb.
  set (matched' := advance make_prefix_failure_table c matched) in *.
  destruct (decide (matched' = length pattern)) as [Hd|Hd].
  - rewrite bool_decide_eq_true_2 by done. cbn [negb]. destruct Hb as [He Hno].
    assert (s ++ c :: b = (s ++ [c]) ++ b) as -> by (by rewrite <- app_assoc).
    replace (length s + (offset + 1 - offset))%nat with (S (length s)) by lia.
    split; [cbn [length]; lia|]. split; [done|]. split.
    + apply ends_at_app; [rewrite length_app; cbn; lia|done].
    + intros e Hlt. rewrite ends_at_app by (rewrite length_app; cbn; lia). apply Hno. lia.
  - rewrite bool_decide_eq_false_2 by done. cbn [negb].
    specialize (IH (s ++ [c]) (S offset) matched' Hne Hb). rewrite <- app_assoc in IH. cbn [app] in IH.
    destruct (track_bytes _ b (S offset) matched') as [[o|] m]; [|done].
    rewrite length_app in IH. cbn [length] in IH |- *.
    replace (length s + 1 + (o - S offset))%nat with (length s + (o - offset))%nat in IH by lia.
    destruct IH as (H1 & H2 & H3 & H4). split; [lia|done].
Qed.

Lemma ends_at_long text e : ends_at text e -> (length pattern <= e)%nat.
Proof. intros (H1 & H2 & _). rewrite length_take_le in H2 by done. done. Qed.

(** Where the first occurrence ends. *)
Definition first_end (text : bytes) : option nat := (fun i => i + length pattern)%nat <$> find text pattern 0.

Lemma first_end_some text e :
  ends_at text e -> (forall e', (e' < e)%nat -> ~ ends_at text e') -> first_end text = Some e.
Proof.
  intros He Hmin. pose proof (ends_at_long _ _ He). unfold first_end.
  assert (find text pattern 0 = Some (e - length pattern)%nat) as ->; [|cbn; f_equal; lia].
  apply find_Some. split; [lia|]. split.
  - apply starts_ends. by replace (e - length pattern + length pattern)%nat with e by lia.
  - intros j Hj. apply not_true_is_false. rewrite starts_ends. apply Hmin. lia.
Qed.

Lemma first_end_inv text e : first_end text = Some e -> ends_at text e.
Proof.
  unfold first_end. destruct (find text pattern 0) as [i|] eqn:E; intros [= <-].
  apply find_Some in E as (_ & E & _). by apply starts_ends.
Qed.

(** What feeding the chunks one by one reports. *)
Fixpoint track_chunks (t : PrefixExecutionTracker) (chunks : list bytes) : list (option nat) :=
  match chunks with
  | [] => []
  | b :: chunks => (tracker_feed b t).1 :: track_chunks (tracker_feed b t).2 chunks
  end.

(** The reference: the chunk in which position [e] of the whole text falls, and its offset there. *)
Fixpoint reports (consumed : nat) (e : option nat) (chunks : list bytes) : list (option nat) :=
  match chunks with
  | [] => []
  | b :: chunks =>
      (match e with
       | Some e => if decide (consumed < e <= consumed + length b)%nat then Some (e - consumed)%nat else None
       | None => None
       end) :: reports (consumed + length b) e chunks
  end.

Lemma reports_past chunks : forall consumed e m,
  (e <= consumed)%nat -> track_chunks (mkTracker m false) chunks = reports consumed (Some e) chunks.
Proof.
  induction chunks as [|b chunks IH]; intros consumed e m He; cbn [track_chunks reports]; [done|].
  rewrite decide_False by lia. cbn [tracker_feed tr_tracking negb fst snd]. f_equal. apply IH. lia.
Qed.

Lemma track_chunks_spec chunks : forall s matched,
  pattern <> [] -> tracking s matched ->
  track_chunks (mkTracker matched true) chunks = reports (length s) (first_end (s ++ concat chunks)) chunks.
Proof.
  induction chunks as [|b chunks IH]; intros s matched Hne Htr; cbn [track_chunks reports concat]; [done|].
  unfold tracker_feed at 1 2. cbn [tr_tracking negb tr_matched].
  pose proof (track_bytes_spec b s 0 matched Hne Htr) as Hb.
  destruct (track_bytes _ b 0 matched) as [[o|] m]; cbn [fst snd].
  - destruct Hb as (Ho & -> & He & Hmin). rewrite Nat.sub_0_r in *.
    assert (first_end (s ++ b ++ concat chunks) = Some (length s + o)%nat) as ->.
    { rewrite app_assoc. apply first_end_some.
      - rewrite ends_at_app by (rewrite length_app; lia). done.
      - intros e He'. rewrite ends_at_app by (rewrite length_app; lia). by apply Hmin. }
    rewrite decide_True by lia. f_equal; [f_equal; lia|]. apply reports_past. lia.
  - rewrite app_assoc, (IH (s ++ b) m Hne Hb), length_app. f_equal.
    destruct (first_end ((s ++ b) ++ concat chunks)) as [e|] eqn:E; [|done].
    rewrite decide_False; [done|]. intros Hr. apply first_end_inv in E.
    rewrite ends_at_app in E by (rewrite length_app; lia). by apply (proj2 (proj2 Hb) e).
Qed.
End automaton.

(** The boundary tracker is equivalent to a text search. Fed any sequence of token byte strings,
    it reports exactly one boundary: in the token, and at the offset behind its last byte, where the
    first occurrence of the canonical reasoning close in the whole stream ends, however the
    occurrence is spread over tokens; and nothing when the stream holds no occurrence. *)
Theorem tracker_equals_search chunks :
  track_chunks kBoundary (mkTracker 0 true) chunks =
  reports 0 (first_end kBoundary (concat chunks)) chunks.
Proof.
  apply (track_chunks_spec kBoundary chunks []); [done|].
  split; [cbn; lia|]. split.
  - split; [apply suffix_match_0|]. intros j _ [Hj _]. cbn in Hj. lia.
  - intros e (He & Hl & _). cbn in He. assert (e = 0%nat) as -> by lia. cbn in Hl. lia.
Qed.
