(* ===== verification/OutputText.v ===== *)
(** * Output channels, stop strings and thinking state

    The decoder state of [models/qwen3_5/frontend/output_session.cpp]: token bytes become channel
    text, stop strings are searched across token boundaries and the reasoning channel ends at its
    closing marker. Texts whose end could begin a stop string or the marker are held back. *)

From Stdlib Require Import String.
From S2P Require Import Prelude Bytes Utf8Stream.
Open Scope char_scope.
Open Scope Z_scope.

Definition kThinkClose : bytes := lit "</think>".

Inductive OutputChannel := Content | Reasoning.
#[export] Instance channel_eq_dec : EqDecision OutputChannel.
Proof. solve_decision. Defined.

Record OutputDelta := mkDelta { dl_channel : OutputChannel; dl_text : bytes }.

(** [PublishedOutput]: its values in order, at most two. *)
Abbreviation PublishedOutput := (list OutputDelta).

Definition push_back (output : PublishedOutput) (value : OutputDelta) : result PublishedOutput :=
  _ ← throw_if (bool_decide (length output = 2%nat)) LogicError;
  Ok (output ++ [value]).

Definition append_delta (output : PublishedOutput) (channel : OutputChannel) (text : bytes) : result PublishedOutput :=
  match text with
  | [] => Ok output
  | _ =>
      match last output with
      | Some d =>
          if decide (dl_channel d = channel)
          then Ok (take (length output - 1) output ++ [mkDelta channel (dl_text d ++ text)])
          else push_back output (mkDelta channel text)
      | None => push_back output (mkDelta channel text)
      end
  end.

(** The loop of [longest_suffix_prefix] from [size] down. *)
Fixpoint suffix_prefix_from (text marker : bytes) (allow_complete : bool) (size : nat) : nat :=
  match size with
  | O => 0
  | S smaller =>
      if negb allow_complete && bool_decide (size = length marker)
      then suffix_prefix_from text marker allow_complete smaller
      else if bool_decide (drop (length text - size) text = take size marker) then size
      else suffix_prefix_from text marker allow_complete smaller
  end.

Definition longest_suffix_prefix (text marker : bytes) (allow_complete : bool) : nat :=
  suffix_prefix_from text marker allow_complete (min (length text) (length marker)).

(** ** Stop strings *)

Record StopString := mkStop { st_text : bytes; st_channel : OutputChannel; st_include_in_output : bool }.

Record StopPolicy := mkPolicy {
  sp_token_ids : list Z;
  sp_strings : list StopString;
  sp_publish_stop_token : bool;
}.

(** [pending] of a channel is [stop_pending[channel_index(channel)]]. *)
Record DecoderState := mkState {
  utf8_pending : bytes;
  think_marker_pending : bytes;
  stop_pending_reasoning : bytes;
  stop_pending_content : bytes;
  ds_in_reasoning : bool;
  strip_content_leading : bool;
  terminal : bool;
  decoded_bytes : Z;
  ds_reasoning_tokens : Z;
  matched_stop_order : option Z;
}.

Definition stop_pending (s : DecoderState) (channel : OutputChannel) : bytes :=
  match channel with Reasoning => stop_pending_reasoning s | Content => stop_pending_content s end.

Definition set_stop_pending (s : DecoderState) (channel : OutputChannel) (pending : bytes) : DecoderState :=
  mkState (utf8_pending s) (think_marker_pending s)
    (match channel with Reasoning => pending | Content => stop_pending_reasoning s end)
    (match channel with Reasoning => stop_pending_content s | Content => pending end)
    (ds_in_reasoning s) (strip_content_leading s) (terminal s) (decoded_bytes s) (ds_reasoning_tokens s)
    (matched_stop_order s).

Definition set_decoded_bytes (s : DecoderState) (n : Z) : DecoderState :=
  mkState (utf8_pending s) (think_marker_pending s) (stop_pending_reasoning s) (stop_pending_content s)
    (ds_in_reasoning s) (strip_content_leading s) (terminal s) n (ds_reasoning_tokens s) (matched_stop_order s).

Definition set_utf8_pending (s : DecoderState) (pending : bytes) : DecoderState :=
  mkState pending (think_marker_pending s) (stop_pending_reasoning s) (stop_pending_content s)
    (ds_in_reasoning s) (strip_content_leading s) (terminal s) (decoded_bytes s) (ds_reasoning_tokens s)
    (matched_stop_order s).

Definition set_marker_pending (s : DecoderState) (pending : bytes) : DecoderState :=
  mkState (utf8_pending s) pending (stop_pending_reasoning s) (stop_pending_content s)
    (ds_in_reasoning s) (strip_content_leading s) (terminal s) (decoded_bytes s) (ds_reasoning_tokens s)
    (matched_stop_order s).

Definition set_strip (s : DecoderState) (strip : bool) : DecoderState :=
  mkState (utf8_pending s) (think_marker_pending s) (stop_pending_reasoning s) (stop_pending_content s)
    (ds_in_reasoning s) strip (terminal s) (decoded_bytes s) (ds_reasoning_tokens s) (matched_stop_order s).

(** [in_reasoning = false; strip_content_leading = true] after the marker, whose bytes are dropped. *)
Definition leave_reasoning (s : DecoderState) : DecoderState :=
  mkState (utf8_pending s) [] (stop_pending_reasoning s) (stop_pending_content s)
    false true (terminal s) (decoded_bytes s) (ds_reasoning_tokens s) (matched_stop_order s).

Definition count_reasoning_token (s : DecoderState) : DecoderState :=
  mkState (utf8_pending s) (think_marker_pending s) (stop_pending_reasoning s) (stop_pending_content s)
    (ds_in_reasoning s) (strip_content_leading s) (terminal s) (decoded_bytes s)
    (if ds_in_reasoning s then w32 (ds_reasoning_tokens s + 1) else ds_reasoning_tokens s) (matched_stop_order s).

Record StopMatch := mkMatch {
  sm_committed_tokens : Z;
  sm_byte_cut : Z;
  sm_declaration_order : Z;
  sm_output : PublishedOutput;
}.

(** [None] is a match that is not [found]. *)
Definition stop_match_precedes (committed_tokens byte_cut declaration_order : Z) (current : option StopMatch) : bool :=
  match current with
  | None => true
  | Some m =>
      if negb (committed_tokens =? sm_committed_tokens m) then committed_tokens <? sm_committed_tokens m
      else if negb (byte_cut =? sm_byte_cut m) then byte_cut <? sm_byte_cut m
      else declaration_order <? sm_declaration_order m
  end.

Fixpoint stop_hold_size (text : bytes) (channel : OutputChannel) (strings : list StopString) (hold : nat) : nat :=
  match strings with
  | [] => hold
  | stop :: strings =>
      if decide (st_channel stop = channel)
      then stop_hold_size text channel strings (max hold (longest_suffix_prefix text (st_text stop) false))
      else stop_hold_size text channel strings hold
  end.

(** The decoder while one preview runs: its state, the text emitted and the best match of the token
    ([*best_match]). *)
Record Feed := mkFeed { fd_state : DecoderState; fd_emitted : PublishedOutput; fd_best : option StopMatch }.

(** One turn of the search loop of [feed_channel]. *)
Definition match_stop (channel : OutputChannel) (combined : bytes) (combined_start committed_tokens : Z)
    (emitted : PublishedOutput) (declaration : Z) (stop : StopString) (best : option StopMatch)
    : result (option StopMatch) :=
  if negb (bool_decide (st_channel stop = channel)) then Ok best
  else
    match find combined (st_text stop) 0 with
    | None => Ok best
    | Some found =>
        let byte_cut := w64 (combined_start + Z.of_nat found) in
        let order := w32 declaration in
        if negb (stop_match_precedes committed_tokens byte_cut order best) then Ok best
        else
          candidate ← append_delta emitted channel (take found combined);
          candidate ← (if st_include_in_output stop then append_delta candidate channel (st_text stop)
                       else Ok candidate);
          Ok (Some (mkMatch committed_tokens byte_cut order candidate))
    end.

Fixpoint match_stops (channel : OutputChannel) (combined : bytes) (combined_start committed_tokens : Z)
    (emitted : PublishedOutput) (declaration : Z) (strings : list StopString) (best : option StopMatch)
    : result (option StopMatch) :=
  match strings with
  | [] => Ok best
  | stop :: strings =>
      best ← match_stop channel combined combined_start committed_tokens emitted declaration stop best;
      match_stops channel combined combined_start committed_tokens emitted (declaration + 1) strings best
  end.

Section feeding.
(** [matching] is [best_match != nullptr]. *)
Context (policy : StopPolicy) (committed_tokens : Z) (matching : bool).

Definition feed_channel (channel : OutputChannel) (text : bytes) (f : Feed) : result Feed :=
  match text with
  | [] => Ok f
  | _ =>
      let pending := stop_pending (fd_state f) channel in
      let old_pending := Z.of_nat (length pending) in
      let combined := pending ++ text in
      let combined_start := w64 (decoded_bytes (fd_state f) - old_pending) in
      best ← (if matching : bool
              then match_stops channel combined combined_start committed_tokens (fd_emitted f) 0
                     (sp_strings policy) (fd_best f)
              else Ok (fd_best f));
      let hold := stop_hold_size combined channel (sp_strings policy) 0 in
      emitted ← append_delta (fd_emitted f) channel (take (length combined - hold) combined);
      let s := set_stop_pending (fd_state f) channel (drop (length combined - hold) combined) in
      Ok (mkFeed (set_decoded_bytes s (w64 (decoded_bytes s + Z.of_nat (length text)))) emitted best)
  end.

Definition close_channel (channel : OutputChannel) (f : Feed) : result Feed :=
  emitted ← append_delta (fd_emitted f) channel (stop_pending (fd_state f) channel);
  Ok (mkFeed (set_stop_pending (fd_state f) channel []) emitted (fd_best f)).

(** [std::isspace] in the C locale. *)
Definition is_space (c : ascii) : bool :=
  (byte_value c =? 32) || ((9 <=? byte_value c) && (byte_value c <=? 13)).

Definition with_state (f : Feed) (s : DecoderState) : Feed := mkFeed s (fd_emitted f) (fd_best f).

Definition feed_content (text : bytes) (f : Feed) : result Feed :=
  let s := fd_state f in
  let text' := if strip_content_leading s then drop (count_while is_space text) text else text in
  let s' := if strip_content_leading s && bool_decide (text' <> []) then set_strip s false else s in
  feed_channel Content text' (with_state f s').

Definition feed_decoded_text (text : bytes) (f : Feed) : result Feed :=
  if negb (ds_in_reasoning (fd_state f)) then feed_content text f
  else
    let pending := think_marker_pending (fd_state f) ++ text in
    let f := with_state f (set_marker_pending (fd_state f) pending) in
    match find pending kThinkClose 0 with
    | Some marker =>
        f ← feed_channel Reasoning (take marker pending) f;
        f ← close_channel Reasoning f;
        let content := drop (marker + length kThinkClose) pending in
        feed_content content (with_state f (leave_reasoning (fd_state f)))
    | None =>
        let hold := longest_suffix_prefix pending kThinkClose true in
        let safe := (length pending - hold)%nat in
        f ← feed_channel Reasoning (take safe pending) f;
        Ok (with_state f (set_marker_pending (fd_state f) (drop safe pending)))
    end.

Definition feed_token_bytes (bytes : bytes) (f : Feed) : result Feed :=
  let '(text, pending) := consume_generated_utf8 (utf8_pending (fd_state f) ++ bytes) in
  feed_decoded_text text (with_state f (set_utf8_pending (fd_state f) pending)).
End feeding.

(** The last two statements of [terminalize] and [terminal_state]. *)
Definition ended (s : DecoderState) : DecoderState :=
  mkState (utf8_pending s) (think_marker_pending s) [] [] (ds_in_reasoning s) (strip_content_leading s) true
    (decoded_bytes s) (ds_reasoning_tokens s) (matched_stop_order s).

Definition terminalize (policy : StopPolicy) (committed_tokens : Z) (f : Feed) : result Feed :=
  f ← (match utf8_pending (fd_state f) with
       | [] => Ok f
       | _ => feed_decoded_text policy committed_tokens false kUtf8Replacement
                (with_state f (set_utf8_pending (fd_state f) []))
       end);
  f ← (if ds_in_reasoning (fd_state f) then
         f ← feed_channel policy committed_tokens false Reasoning (think_marker_pending (fd_state f)) f;
         close_channel Reasoning (with_state f (set_marker_pending (fd_state f) []))
       else close_channel Content f);
  Ok (with_state f (ended (fd_state f))).

Definition terminal_state (s : DecoderState) : DecoderState :=
  ended (set_marker_pending (set_utf8_pending s []) []).

(** ** The thinking budget *)

Record SemanticThinkingState := mkSemantic {
  se_budget : option Z;
  se_close_pending : bytes;
  se_model_thinking_tokens : Z;
  se_injected_tokens : Z;
  se_in_reasoning : bool;
  se_control_pending : bool;
  se_applied : bool;
}.

Definition feed_semantic_thinking (bytes : bytes) (s : SemanticThinkingState) : SemanticThinkingState :=
  if negb (se_in_reasoning s) || bool_decide (bytes = []) then s
  else
    let pending := se_close_pending s ++ bytes in
    match find pending kThinkClose 0 with
    | Some _ =>
        mkSemantic (se_budget s) [] (se_model_thinking_tokens s) (se_injected_tokens s) false false (se_applied s)
    | None =>
        let hold := longest_suffix_prefix pending kThinkClose true in
        mkSemantic (se_budget s) (drop (length pending - hold) pending) (se_model_thinking_tokens s)
          (se_injected_tokens s) (se_in_reasoning s) (se_control_pending s) (se_applied s)
    end.

Definition count_thinking_token (s : SemanticThinkingState) : SemanticThinkingState :=
  mkSemantic (se_budget s) (se_close_pending s) (w32 (se_model_thinking_tokens s + 1)) (se_injected_tokens s)
    (se_in_reasoning s) (se_control_pending s) (se_applied s).

Definition set_control_pending (s : SemanticThinkingState) (pending : bool) : SemanticThinkingState :=
  mkSemantic (se_budget s) (se_close_pending s) (se_model_thinking_tokens s) (se_injected_tokens s)
    (se_in_reasoning s) pending (se_applied s).

(** The end of [preview_control]. *)
Definition control_applied (s : SemanticThinkingState) (injected : Z) : SemanticThinkingState :=
  mkSemantic (se_budget s) (se_close_pending s) (se_model_thinking_tokens s) injected (se_in_reasoning s) false true.
