(* ===== verification/OutputTextSpec.v ===== *)
(** * Stop strings are cut exactly

    The search for stop strings in [models/qwen3_5/frontend/output_session.cpp] against a search of
    the whole channel text. *)

From Stdlib Require Import String.
From S2P Require Import Prelude Bytes Utf8Stream PrefixTracker OutputText.
Open Scope char_scope.
Open Scope Z_scope.

(** ** Held-back suffixes *)

Lemma suffix_prefix_from_spec text marker ac size :
  (size <= length text)%nat -> (size <= length marker)%nat ->
  let r := suffix_prefix_from text marker ac size in
  suffix_match marker r text /\ (r <= size)%nat /\ (ac = false -> r = length marker -> r = 0%nat) /\
  forall k, (k <= size)%nat -> suffix_match marker k text -> (ac = false -> k <> length marker) -> (k <= r)%nat.
Proof.
  induction size as [|size IH]; intros Ht Hm; cbn [suffix_prefix_from].
  { split; [apply suffix_match_0|]. split; [done|]. split; [done|]. intros; lia. }
  destruct IH as (R1 & R2 & R3 & R4); [lia..|].
  destruct (negb ac && bool_decide (S size = length marker)) eqn:E.
  { apply andb_true_iff in E as [Eac E]. apply negb_true_iff in Eac as ->. apply bool_decide_eq_true in E.
    split; [done|]. split; [lia|]. split; [done|]. intros k Hk Hks Hkne. specialize (Hkne eq_refl).
    apply R4; [lia|done|done]. }
  destruct (bool_decide (drop (length text - S size) text = take (S size) marker)) eqn:Eb.
  { apply bool_decide_eq_true in Eb. split; [split; [lia|split; [lia|done]]|]. split; [done|]. split.
    - intros -> Hlen. cbn [negb andb] in E. apply bool_decide_eq_false in E. done.
    - intros k Hk _ _. done. }
  apply bool_decide_eq_false in Eb. split; [done|]. split; [lia|]. split; [done|].
  intros k Hk Hks Hne. apply R4; [|done|done]. destruct (decide (k = S size)) as [->|]; [|lia].
  by destruct Hks as (_ & _ & ?).
Qed.

Lemma longest_suffix_prefix_spec text marker :
  marker <> [] ->
  let r := longest_suffix_prefix text marker false in
  suffix_match marker r text /\ (r < length marker)%nat /\
  forall k, (k < length marker)%nat -> suffix_match marker k text -> (k <= r)%nat.
Proof.
  intros Hne. unfold longest_suffix_prefix.
  destruct (suffix_prefix_from_spec text marker false (min (length text) (length marker))) as (R1 & R2 & R3 & R4); [lia..|].
  assert (0 < length marker)%nat by (destruct marker; [done|cbn; lia]).
  split; [done|]. split; [specialize (R3 eq_refl); lia|].
  intros k Hk Hks. apply R4; [|done|lia]. destruct Hks as (? & ? & _). lia.
Qed.

(** The stop strings of one channel. *)
Definition stops_in (strings : list StopString) (channel : OutputChannel) (stop : StopString) : Prop :=
  stop ∈ strings /\ st_channel stop = channel.

Lemma stop_hold_size_spec text channel strings : forall hold,
  (forall stop, stop ∈ strings -> st_text stop <> []) ->
  let r := stop_hold_size text channel strings hold in
  (hold <= r)%nat /\
  (r = hold \/ exists stop, stops_in strings channel stop /\ suffix_match (st_text stop) r text /\ (r < length (st_text stop))%nat) /\
  forall stop k, stops_in strings channel stop -> (k < length (st_text stop))%nat ->
    suffix_match (st_text stop) k text -> (k <= r)%nat.
Proof.
  induction strings as [|stop strings IH]; intros hold Hne; cbn [stop_hold_size].
  { split; [done|]. split; [by left|]. by intros stop k [[]%not_elem_of_nil _]. }
  assert (forall stop', stop' ∈ strings -> st_text stop' <> []) as Hne' by (intros; apply Hne; by right).
  case_decide as Hch.
  - destruct (longest_suffix_prefix_spec text (st_text stop)) as (L1 & L2 & L3); [apply Hne; left|].
    set (l := longest_suffix_prefix text (st_text stop) false) in *.
    destruct (IH (max hold l) Hne') as (R1 & R2 & R3). split; [lia|]. split.
    + destruct R2 as [R2|(st & [Hin Hc] & ?)]; [|right; exists st; split; [split; [by right|done]|done]].
      rewrite R2. destruct (decide (l <= hold)%nat); [left; lia|]. right. exists stop.
      replace (max hold l) with l by lia. split; [split; [left|done]|done].
    + intros st k [Hin Hc] Hk Hs. apply elem_of_cons in Hin as [->|Hin]; [|by apply (R3 st)].
      specialize (L3 k Hk Hs). lia.
  - destruct (IH hold Hne') as (R1 & R2 & R3). split; [done|]. split.
    + destruct R2 as [R2|(st & [Hin Hc] & ?)]; [by left|]. right. exists st. split; [split; [by right|done]|done].
    + intros st k [Hin Hc] Hk Hs. apply elem_of_cons in Hin as [->|Hin]; [done|by apply (R3 st)].
Qed.

Lemma suffix_match_app pattern k s t :
  suffix_match pattern k (s ++ t) -> (length t <= k)%nat -> suffix_match pattern (k - length t) s.
Proof.
  intros (H1 & H2 & H3) Ht. rewrite length_app in *. split; [lia|]. split; [lia|].
  rewrite drop_app_le in H3 by lia. apply (f_equal (take (k - length t))) in H3.
  rewrite take_take, Nat.min_l in H3 by lia. rewrite <- H3, take_app_le by (rewrite length_drop; lia).
  rewrite take_ge; [f_equal; lia|]. rewrite length_drop. lia.
Qed.

Lemma suffix_match_tail pattern k s t : (k <= length t)%nat -> suffix_match pattern k (s ++ t) <-> suffix_match pattern k t.
Proof.
  intros Hk. unfold suffix_match. rewrite length_app, drop_app_ge by lia.
  replace (length s + length t - k - length s)%nat with (length t - k)%nat by lia. intuition lia.
Qed.

(** ** Where a stop string occurs *)

Lemma starts_with_at_shift s t i sub : starts_with_at (s ++ t) (length s + i) sub = starts_with_at t i sub.
Proof.
  unfold starts_with_at, substr. rewrite length_app, drop_app_add' by done. f_equal. apply bool_decide_ext. lia.
Qed.

(** An occurrence in the longer text is in the part that was held back or is new. *)
Lemma occurrence_held before held text sub j :
  find (before ++ held) sub 0 = None ->
  (forall k, (k < length sub)%nat -> suffix_match sub k (before ++ held) -> (k <= length held)%nat) ->
  starts_with_at (before ++ held ++ text) j sub = true -> (length before <= j)%nat.
Proof.
  intros Hno Hhold Hat. apply Nat.nlt_ge. intros Hlt. rewrite app_assoc in Hat.
  apply starts_with_at_spec in Hat as (pre & post & Heq & <-).
  remember (before ++ held) as told eqn:Etold.
  assert (told = take (length told) (pre ++ sub ++ post)) as Ht by (by rewrite <- Heq, take_app_length).
  destruct (decide (length pre + length sub <= length told)%nat) as [Hin|Hout].
  - rewrite find_None in Hno. specialize (Hno (length pre) ltac:(lia)).
    rewrite take_app, take_app, (take_ge pre), (take_ge sub) in Ht by lia.
    rewrite Ht, starts_with_at_middle in Hno. done.
  - assert (length pre <= length told)%nat by (rewrite Etold, length_app; lia).
    assert (suffix_match sub (length told - length pre) told) as Hs.
    { split; [lia|]. split; [lia|]. replace (length told - (length told - length pre))%nat with (length pre) by lia.
      rewrite Ht at 1. rewrite take_app, (take_ge pre), drop_app_length by lia. by rewrite take_app_le by lia. }
    specialize (Hhold (length told - length pre)%nat ltac:(lia) Hs). rewrite Etold, length_app in Hhold. lia.
Qed.

Lemma find_held before held text sub :
  find (before ++ held) sub 0 = None ->
  (forall k, (k < length sub)%nat -> suffix_match sub k (before ++ held) -> (k <= length held)%nat) ->
  find (before ++ held ++ text) sub 0 = (fun i => length before + i)%nat <$> find (held ++ text) sub 0.
Proof.
  intros Hno Hhold. pose proof (fun j => occurrence_held before held text sub j Hno Hhold) as Hocc.
  destruct (find (held ++ text) sub 0) as [i|] eqn:E; cbn [fmap option_fmap option_map].
  - apply find_Some in E as (_ & Hat & Hmin). apply find_Some. split; [lia|].
    split; [by rewrite starts_with_at_shift|]. intros j Hj. apply not_true_is_false. intros Hatj.
    specialize (Hocc j Hatj). replace j with (length before + (j - length before))%nat in Hatj by lia.
    rewrite starts_with_at_shift, Hmin in Hatj by lia. done.
  - rewrite find_None in E. apply find_None. intros j _. apply not_true_is_false. intros Hatj.
    specialize (Hocc j Hatj). replace j with (length before + (j - length before))%nat in Hatj by lia.
    rewrite starts_with_at_shift, E in Hatj by lia. done.
Qed.

(** ** Emitted text of one channel *)

(** The only delta of a channel, absent when its text is empty. *)
Definition single (channel : OutputChannel) (text : bytes) : PublishedOutput :=
  match text with [] => [] | _ => [mkDelta channel text] end.

Lemma append_single channel e t : append_delta (single channel e) channel t = Ok (single channel (e ++ t)).
Proof.
  unfold append_delta. destruct t as [|c t]; [by rewrite app_nil_r|].
  destruct e as [|d e]; cbn [single last app]; [done|]. by rewrite decide_True.
Qed.

(** ** The best match of a token *)

Section token.
Context (channel : OutputChannel) (combined : bytes) (start count : Z) (emitted : bytes).
Hypothesis Hstart : 0 <= start /\ start + Z.of_nat (length combined) <= u64_max.

(** The text published for a stop string found at a position. *)
Definition cut_text (stop : StopString) (found : nat) : bytes :=
  emitted ++ take found combined ++ (if st_include_in_output stop then st_text stop else []).

(** [best] is the earliest occurrence among the strings, the first declared one on a tie. *)
Definition best_of (strings : list StopString) (best : option StopMatch) : Prop :=
  match best with
  | None => forall stop, stops_in strings channel stop -> find combined (st_text stop) 0 = None
  | Some m =>
      exists i stop found, strings !! i = Some stop /\ st_channel stop = channel /\
        find combined (st_text stop) 0 = Some found /\
        m = mkMatch count (start + Z.of_nat found) (Z.of_nat i) (single channel (cut_text stop found)) /\
        forall j other found', strings !! j = Some other -> st_channel other = channel ->
          find combined (st_text other) 0 = Some found' -> (found < found' \/ (found = found' /\ i <= j))%nat
  end.

Lemma find_small sub i : find combined sub 0 = Some i -> 0 <= start + Z.of_nat i <= u64_max.
Proof. intros H%find_bounds. lia. Qed.

(** A string that does not occur, or not earlier, changes nothing. *)
Lemma best_keep strings stop best :
  best_of strings best ->
  (forall found, st_channel stop = channel -> find combined (st_text stop) 0 = Some found ->
     exists m, best = Some m /\ sm_byte_cut m <= start + Z.of_nat found) ->
  best_of (strings ++ [stop]) best.
Proof.
  intros Hbest Hlate. destruct best as [m|]; cbn [best_of] in *.
  - destruct Hbest as (i & st & found & Hi & Hc & Hf & Hm & Hmin). exists i, st, found.
    split; [by apply lookup_app_l_Some|]. split; [done|]. split; [done|]. split; [done|].
    intros j other f' Hj Hoc Hof. apply lookup_app_Some in Hj as [Hj|[Hle Hj]]; [by eapply Hmin|].
    apply list_lookup_singleton_Some in Hj as [_ <-]. destruct (Hlate f' Hoc Hof) as (m' & [= <-] & Hcut).
    rewrite Hm in Hcut. cbn in Hcut. apply lookup_lt_Some in Hi. lia.
  - intros st [Hin Hc]. apply elem_of_app in Hin as [Hin|Hin%list_elem_of_singleton]; [by apply Hbest|]. subst st.
    destruct (find combined (st_text stop) 0) as [f|] eqn:E; [|done]. by destruct (Hlate f Hc eq_refl) as (? & ? & _).
Qed.

(** A string that occurs before every other takes the place. *)
Lemma best_new strings stop best found :
  best_of strings best -> st_channel stop = channel -> find combined (st_text stop) 0 = Some found ->
  (forall m, best = Some m -> start + Z.of_nat found < sm_byte_cut m) ->
  best_of (strings ++ [stop])
    (Some (mkMatch count (start + Z.of_nat found) (Z.of_nat (length strings)) (single channel (cut_text stop found)))).
Proof.
  intros Hbest Hc Hf Hlt. exists (length strings), stop, found.
  split; [by rewrite lookup_app_r, Nat.sub_diag by lia|]. split; [done|]. split; [done|]. split; [done|].
  intros j other f' Hj Hoc Hof. apply lookup_app_Some in Hj as [Hj|[Hle Hj]].
  - destruct best as [m|]; cbn [best_of] in Hbest.
    + destruct Hbest as (i & st & fm & Hi & _ & _ & Hm & Hmin). specialize (Hlt m eq_refl). rewrite Hm in Hlt. cbn in Hlt.
      specialize (Hmin j other f' Hj Hoc Hof). lia.
    + rewrite Hbest in Hof; [done|]. split; [by eapply list_elem_of_lookup_2|done].
  - apply list_lookup_singleton_Some in Hj as [Hj <-]. rewrite Hf in Hof. injection Hof as <-. right. lia.
Qed.

Lemma match_stop_spec strings stop best :
  Z.of_nat (length strings) <= u32_max -> best_of strings best ->
  exists best', match_stop channel combined start count (single channel emitted) (Z.of_nat (length strings)) stop best
                  = Ok best' /\ best_of (strings ++ [stop]) best'.
Proof.
  intros Hn Hbest. unfold match_stop. destruct (decide (st_channel stop = channel)) as [Hch|Hch].
  2: { rewrite bool_decide_eq_false_2 by done. exists best. split; [done|]. by apply best_keep. }
  rewrite bool_decide_eq_true_2 by done. cbn [negb].
  destruct (find combined (st_text stop) 0) as [found|] eqn:Ef.
  2: { exists best. split; [done|]. apply best_keep; [done|]. intros f _ Hf. congruence. }
  pose proof (find_small _ _ Ef) as Hsmall. rewrite (w64_small _ Hsmall), w32_small by lia.
  destruct (stop_match_precedes count (start + Z.of_nat found) (Z.of_nat (length strings)) best) eqn:Ep; cbn [negb].
  - rewrite append_single. cbn [mbind result_bind].
    assert ((if st_include_in_output stop then append_delta (single channel (emitted ++ take found combined)) channel (st_text stop)
      else Ok (single channel (emitted ++ take found combined))) = Ok (single channel (cut_text stop found))) as ->.
    { unfold cut_text. destruct (st_include_in_output stop); [by rewrite append_single, app_assoc|by rewrite app_nil_r]. }
    cbn [mbind result_bind]. eexists. split; [reflexivity|]. eapply best_new; [done..|].
    intros m ->. destruct Hbest as (i & st & fm & Hi & _ & _ & -> & _). cbn in Ep |- *. rewrite Z.eqb_refl in Ep.
    apply lookup_lt_Some in Hi. cbn [negb] in Ep. destruct (Z.eqb_spec (start + Z.of_nat found) (start + Z.of_nat fm)); cbn [negb] in Ep; lia.
  - exists best. split; [done|]. apply best_keep; [done|]. intros f _ Hf. rewrite Ef in Hf. injection Hf as <-.
    destruct best as [m|]; [|done]. exists m. split; [done|].
    destruct Hbest as (i & st & fm & Hi & _ & _ & -> & _). cbn in Ep |- *. rewrite Z.eqb_refl in Ep. cbn [negb] in Ep.
    destruct (Z.eqb_spec (start + Z.of_nat found) (start + Z.of_nat fm)); cbn [negb] in Ep; lia.
Qed.

Lemma match_stops_spec strings : forall done best,
  Z.of_nat (length (done ++ strings)) <= u32_mod -> best_of done best ->
  exists best', match_stops channel combined start count (single channel emitted) (Z.of_nat (length done)) strings best
                  = Ok best' /\ best_of (done ++ strings) best'.
Proof.
  induction strings as [|stop strings IH]; intros dn best Hn Hbest; cbn [match_stops].
  { exists best. by rewrite app_nil_r. }
  rewrite length_app in Hn. cbn [length] in Hn.
  destruct (match_stop_spec dn stop best ltac:(lia) Hbest) as (b & -> & Hb). cbn [mbind result_bind].
  destruct (IH (dn ++ [stop]) b) as (b' & E & Hb'); [rewrite !length_app; cbn [length]; lia|done|].
  rewrite length_app in E. cbn [length] in E. exists b'.
  replace (Z.of_nat (length dn) + 1) with (Z.of_nat (length dn + 1)) by lia. split; [done|].
  by rewrite <- app_assoc in Hb'.
Qed.
End token.

(** ** The stream of one channel *)

Section stream.
Context (policy : StopPolicy) (channel : OutputChannel).

(** The chunks of successive tokens, each with its own [StopMatch]; the first match ends the stream. *)
Fixpoint feed_chunks (n : nat) (chunks : list bytes) (f : Feed) : result ((nat * StopMatch) + Feed) :=
  match chunks with
  | [] => Ok (inr f)
  | chunk :: chunks =>
      f ← feed_channel policy (Z.of_nat (S n)) true channel chunk (mkFeed (fd_state f) (fd_emitted f) None);
      match fd_best f with
      | Some m => Ok (inl (S n, m))
      | None => feed_chunks (S n) chunks f
      end
  end.

(** No stop string of the channel occurs in the text. *)
Definition unstopped (text : bytes) : Prop :=
  forall stop, stops_in (sp_strings policy) channel stop -> find text (st_text stop) 0 = None.

(** The bytes held back are the beginning of a stop string. *)
Definition held_for_stop (pending : bytes) : Prop :=
  pending = [] \/ exists stop rest, stops_in (sp_strings policy) channel stop /\ st_text stop = pending ++ rest /\ rest <> [].

(** The state after a text without stop strings. *)
Definition fed (base : Z) (text : bytes) (f : Feed) : Prop :=
  exists emitted pending, text = emitted ++ pending /\ fd_emitted f = single channel emitted /\
    stop_pending (fd_state f) channel = pending /\ decoded_bytes (fd_state f) = base + Z.of_nat (length text) /\
    unstopped text /\ held_for_stop pending /\
    forall stop k, stops_in (sp_strings policy) channel stop -> (k < length (st_text stop))%nat ->
      suffix_match (st_text stop) k text -> (k <= length pending)%nat.

Hypothesis strings_nonempty : forall stop, stop ∈ sp_strings policy -> st_text stop <> [].
Hypothesis strings_count : Z.of_nat (length (sp_strings policy)) <= u32_mod.

(** The match of a text that holds a stop string: its earliest occurrence, cut out of the text. *)
Definition stopped_at (base : Z) (n : nat) (text : bytes) (m : StopMatch) : Prop :=
  exists i stop cut, sp_strings policy !! i = Some stop /\ st_channel stop = channel /\
    find text (st_text stop) 0 = Some cut /\
    m = mkMatch (Z.of_nat n) (base + Z.of_nat cut) (Z.of_nat i)
          (single channel (take cut text ++ (if st_include_in_output stop then st_text stop else []))) /\
    forall j other cut', sp_strings policy !! j = Some other -> st_channel other = channel ->
      find text (st_text other) 0 = Some cut' -> (cut < cut' \/ (cut = cut' /\ i <= j))%nat.

Lemma find_combined base emitted pending chunk stop f :
  fed base (emitted ++ pending) f -> stop_pending (fd_state f) channel = pending ->
  stops_in (sp_strings policy) channel stop ->
  find (emitted ++ pending ++ chunk) (st_text stop) 0 =
  (fun i => length emitted + i)%nat <$> find (pending ++ chunk) (st_text stop) 0.
Proof.
  intros (e & p & _ & _ & Hp' & _ & Hun & _ & Hhold) Hp Hst. apply find_held; [by apply Hun|].
  intros k Hk Hs. rewrite <- Hp, Hp'. by apply (Hhold stop).
Qed.

Lemma feed_channel_fed base text chunk n f :
  fed base text f -> 0 <= base -> base + Z.of_nat (length (text ++ chunk)) <= u64_max -> fd_best f = None ->
  exists f', feed_channel policy (Z.of_nat n) true channel chunk f = Ok f' /\
    match fd_best f' with
    | Some m => stopped_at base n (text ++ chunk) m
    | None => fed base (text ++ chunk) f'
    end.
Proof.
  intros Hfed Hb Hlen Hbest. destruct chunk as [|c chunk]; [exists f; rewrite app_nil_r, Hbest; by split|].
  cbn [feed_channel]. set (new := c :: chunk) in *.
  pose proof Hfed as (emitted & pending & -> & He & Hp & Hd & Hun & Hh & Hhold).
  rewrite Hp, He, Hd, Hbest. rewrite <- app_assoc in Hlen |- *. rewrite !length_app in Hlen.
  assert (w64 (base + Z.of_nat (length (emitted ++ pending)) - Z.of_nat (length pending)) =
    base + Z.of_nat (length emitted)) as -> by (rewrite length_app, w64_small; lia).
  destruct (match_stops_spec channel (pending ++ new) (base + Z.of_nat (length emitted)) (Z.of_nat n) emitted
    ltac:(rewrite length_app; lia) (sp_strings policy) [] None strings_count) as (best & Em & Hm).
  { by intros stop [[]%not_elem_of_nil _]. }
  change (Z.of_nat (length [])) with 0 in Em. rewrite Em.
  cbn [mbind result_bind app] in Hm |- *. rewrite append_single. cbn [mbind result_bind].
  eexists. split; [reflexivity|]. cbn [fd_best].
  destruct best as [m|]; cbn [best_of] in Hm.
  - destruct Hm as (i & stop & found & Hi & Hc & Hf & -> & Hmin). exists i, stop, (length emitted + found)%nat.
    assert (stops_in (sp_strings policy) channel stop) as Hst by (split; [by eapply list_elem_of_lookup_2|done]).
    split; [done|]. split; [done|]. split; [by rewrite (find_combined base _ _ _ _ _ Hfed Hp Hst), Hf|]. split.
    + unfold cut_text. rewrite app_assoc. f_equal; [lia|]. f_equal. f_equal. by rewrite take_app_add.
    + intros j other f' Hj Hoc Hof.
      assert (stops_in (sp_strings policy) channel other) as Hot by (split; [by eapply list_elem_of_lookup_2|done]).
      rewrite (find_combined base _ _ _ _ _ Hfed Hp Hot) in Hof.
      destruct (find (pending ++ new) (st_text other) 0) as [f0|] eqn:E0; [|done]. cbn in Hof. injection Hof as <-.
      specialize (Hmin j other f0 Hj Hoc E0). lia.
  - destruct (stop_hold_size_spec (pending ++ new) channel (sp_strings policy) 0 strings_nonempty) as (_ & Hr & Hmax).
    set (hold := stop_hold_size (pending ++ new) channel (sp_strings policy) 0) in *.
    assert (hold <= length (pending ++ new))%nat as Hle by (destruct Hr as [->|(? & _ & (? & _) & _)]; [lia|done]).
    exists (emitted ++ take (length (pending ++ new) - hold) (pending ++ new)),
           (drop (length (pending ++ new) - hold) (pending ++ new)). cbn [fd_emitted fd_state].
    split; [by rewrite <- app_assoc, take_drop|]. split; [done|]. split; [by destruct channel|].
    split.
    { destruct channel; cbn [set_decoded_bytes set_stop_pending decoded_bytes]; rewrite Hd, !length_app, w64_small; lia. }
    split; [intros stop Hst; by rewrite (find_combined base _ _ _ _ _ Hfed Hp Hst), (Hm stop Hst)|]. split.
    + destruct Hr as [->|(stop & Hst & (_ & Hl & Hs) & Hlt)]; [left; rewrite Nat.sub_0_r; by apply drop_ge|].
      right. exists stop, (drop hold (st_text stop)). split; [done|]. split; [by rewrite Hs, take_drop|].
      intros E. apply (f_equal length) in E. rewrite length_drop in E. cbn in E. lia.
    + intros stop k Hst Hk Hs. rewrite length_drop.
      assert (k <= length (pending ++ new))%nat as Hkl.
      { apply Nat.nlt_ge. intros Hgt. rewrite app_assoc in Hs.
        apply suffix_match_app in Hs; [|rewrite length_app in Hgt; lia].
        rewrite length_app in Hgt. specialize (Hhold stop (k - length new)%nat Hst ltac:(lia) Hs). lia. }
      rewrite suffix_match_tail in Hs by done. specialize (Hmax stop k Hst Hk Hs). lia.
Qed.

Lemma feed_chunks_fed base chunks : forall n text f,
  fed base text f -> 0 <= base -> base + Z.of_nat (length (text ++ concat chunks)) <= u64_max ->
  match feed_chunks n chunks f with
  | Throw _ => False
  | Ok (inr f') => fed base (text ++ concat chunks) f'
  | Ok (inl (k, m)) => exists before chunk after, chunks = before ++ chunk :: after /\
      k = (n + length before + 1)%nat /\ unstopped (text ++ concat before) /\
      stopped_at base k (text ++ concat (before ++ [chunk])) m
  end.
Proof.
  induction chunks as [|chunk chunks IH]; intros n text f Hf Hb Hl; cbn [feed_chunks concat].
  { by rewrite app_nil_r. }
  cbn [concat] in Hl. rewrite app_assoc in Hl |- *.
  destruct (feed_channel_fed base text chunk (S n) (mkFeed (fd_state f) (fd_emitted f) None)) as (f1 & -> & H1);
    [exact Hf|done|rewrite length_app in Hl; lia|done|].
  cbn [mbind result_bind]. destruct (fd_best f1) as [m|].
  - exists [], chunk, chunks. split; [done|]. split; [cbn; lia|]. cbn [concat app]. rewrite !app_nil_r.
    split; [|done]. by destruct Hf as (? & ? & _ & _ & _ & _ & ? & _).
  - specialize (IH (S n) (text ++ chunk) f1 H1 Hb Hl).
    destruct (feed_chunks (S n) chunks f1) as [[[k m]|f']|e]; [|done|done].
    destruct IH as (before & c & after & -> & -> & Hun & Hst). exists (chunk :: before), c, after.
    split; [done|]. split; [cbn; lia|]. cbn [concat app]. rewrite !app_assoc. by split.
Qed.
End stream.

(** C37: stop strings are found and cut exactly. A channel's text arrives in chunks, one per token.
    While no stop string of the channel occurs in the whole text so far, everything is published but
    a suffix that is the beginning of a stop string; the first token that completes an occurrence,
    however the occurrence is spread over tokens, ends the stream with that token's number, the
    earliest occurrence (the first declared string on a tie) and exactly the text before it, plus the
    stop string where its declaration includes it. The feed never throws. *)
Theorem stop_strings_exact policy channel chunks s :
  (forall stop, stop ∈ sp_strings policy -> st_text stop <> []) ->
  Z.of_nat (length (sp_strings policy)) <= u32_mod ->
  stop_pending s channel = [] -> 0 <= decoded_bytes s ->
  decoded_bytes s + Z.of_nat (length (concat chunks)) <= u64_max ->
  match feed_chunks policy channel 0 chunks (mkFeed s [] None) with
  | Throw _ => False
  | Ok (inr f) => unstopped policy channel (concat chunks) /\
      exists emitted, concat chunks = emitted ++ stop_pending (fd_state f) channel /\
        fd_emitted f = single channel emitted /\ held_for_stop policy channel (stop_pending (fd_state f) channel)
  | Ok (inl (n, m)) => exists before chunk after, chunks = before ++ chunk :: after /\
      n = (length before + 1)%nat /\ unstopped policy channel (concat before) /\
      stopped_at policy channel (decoded_bytes s) n (concat (before ++ [chunk])) m
  end.
Proof.
  intros Hne Hcount Hp Hb Hl.
  assert (fed policy channel (decoded_bytes s) [] (mkFeed s [] None)) as Hf.
  { exists [], []. split; [done|]. split; [done|]. split; [done|]. split; [cbn; lia|]. split.
    - intros stop [Hin _]. apply find_None. intros j _. unfold starts_with_at, substr. apply andb_false_iff. right.
      apply bool_decide_eq_false. rewrite drop_nil, take_nil. intros E. by apply (Hne stop Hin).
    - split; [by left|]. intros stop k _ _ [Hk _]. done. }
  pose proof (feed_chunks_fed policy channel Hne Hcount (decoded_bytes s) chunks 0 [] _ Hf Hb Hl) as H. cbn [app] in H.
  destruct (feed_chunks policy channel 0 chunks (mkFeed s [] None)) as [[[n m]|f]|e]; [done| |done].
  destruct H as (emitted & pending & -> & He & Hpe & _ & Hun & Hh & _). split; [done|]. exists emitted. by rewrite Hpe.
Qed.

Definition demo_policy : StopPolicy := mkPolicy [] [mkStop (lit "END") Content false; mkStop (lit "ND.") Content true] false.

Lemma stop_strings_exact_witness :
  feed_chunks demo_policy Content 0 [lit "ab"; lit "E"; lit "ND."] (mkFeed (mkState [] [] [] [] false false false 0 0 None) [] None)
    = Ok (inl (3%nat, mkMatch 3 2 0 [mkDelta Content (lit "ab")])) /\
  exists before chunk after, [lit "ab"; lit "E"; lit "ND."] = before ++ chunk :: after /\ 3%nat = (length before + 1)%nat /\
    unstopped demo_policy Content (concat before) /\
    stopped_at demo_policy Content 0 3 (concat (before ++ [chunk])) (mkMatch 3 2 0 [mkDelta Content (lit "ab")]).
Proof.
  split; [vm_compute; reflexivity|].
  exact (stop_strings_exact demo_policy Content [lit "ab"; lit "E"; lit "ND."]
    (mkState [] [] [] [] false false false 0 0 None)
    ltac:(intros stop [->|[->|[]%not_elem_of_nil]%elem_of_cons]%elem_of_cons; done)
    ltac:(vm_compute; discriminate) eq_refl ltac:(vm_compute; discriminate) ltac:(vm_compute; discriminate)).
Defined.
