(* ===== verification/OutputSession.v ===== *)
(** * The output session

    [OutputSession] of [models/qwen3_5/frontend/output_session.{h,cpp}]: a round of generated tokens
    is previewed against the stop policy and the thinking budget and then committed. The preview
    fields of the code's [Impl] are read only while [preview_ready] holds, so they are one optional
    value here; a preview that throws leaves no preview. [Tokenizer::decoded_token] is a parameter,
    and so are the JSON functions of the tool-call decoder. *)

From Stdlib Require Import String.
From S2P Require Import Prelude Bytes ToolCall Utf8Stream PrefixTracker OutputText Scheduler.
Open Scope char_scope.
Open Scope Z_scope.

Inductive ContinuationAction := ContinueDecode | ApplyTargetControl.
#[export] Instance continuation_eq_dec : EqDecision ContinuationAction.
Proof. solve_decision. Defined.

Record OutputDecision := mkDecision {
  accepted_tokens : Z;
  finish_reason : FinishReason;
  continuation : ContinuationAction;
  prefix_execution_split_after : option Z;
}.

Definition finished_decision (d : OutputDecision) : bool := negb (bool_decide (finish_reason d = FinishNone)).

(** The preview fields. *)
Record Preview := mkPreview {
  pv_state : DecoderState;
  pv_semantic : SemanticThinkingState;
  pv_prefix_execution : PrefixExecutionTracker;
  pv_split_after : option Z;
  pv_output : PublishedOutput;
}.

Record Impl := mkImpl {
  im_policy : StopPolicy;
  im_control_tokens : option (list Z);
  im_preserve_special : bool;
  im_split_reasoning : bool;
  im_state : DecoderState;
  im_semantic : SemanticThinkingState;
  im_prefix_execution : PrefixExecutionTracker;
  im_preview : option Preview;
  im_tool_call_output : Decoder;
  im_tool_calls : list GeneratedToolCall;
  im_tool_call_parse : ToolCallParseDiagnostics;
}.

Definition set_preview (i : Impl) (p : option Preview) : Impl :=
  mkImpl (im_policy i) (im_control_tokens i) (im_preserve_special i) (im_split_reasoning i) (im_state i)
    (im_semantic i) (im_prefix_execution i) p (im_tool_call_output i) (im_tool_calls i) (im_tool_call_parse i).

Definition set_tool_output (i : Impl) (d : Decoder) : Impl :=
  mkImpl (im_policy i) (im_control_tokens i) (im_preserve_special i) (im_split_reasoning i) (im_state i)
    (im_semantic i) (im_prefix_execution i) (im_preview i) d (im_tool_calls i) (im_tool_call_parse i).

Definition set_tool_calls (i : Impl) (calls : list GeneratedToolCall) (d : ToolCallParseDiagnostics) : Impl :=
  mkImpl (im_policy i) (im_control_tokens i) (im_preserve_special i) (im_split_reasoning i) (im_state i)
    (im_semantic i) (im_prefix_execution i) (im_preview i) (im_tool_call_output i) calls d.

(** The swaps of [commit_preview]; the preview is consumed. *)
Definition install (i : Impl) (p : Preview) : Impl :=
  mkImpl (im_policy i) (im_control_tokens i) (im_preserve_special i) (im_split_reasoning i) (pv_state p)
    (pv_semantic p) (pv_prefix_execution p) None (im_tool_call_output i) (im_tool_calls i) (im_tool_call_parse i).

Definition initial_state (in_reasoning : bool) : DecoderState :=
  mkState [] [] [] [] in_reasoning false false 0 0 None.

Definition make_impl (policy : StopPolicy) (raw preserve_special_tokens : bool) (tool_name_max_length : nat)
    (starts_in_reasoning : bool) (budget : option Z) (control_tokens : option (list Z))
    (tool_call_output : option Contract) : result Impl :=
  _ ← throw_if (bool_decide (budget = Some 0)) InvalidArgument;
  let split_reasoning := starts_in_reasoning && negb raw in
  Ok (mkImpl policy control_tokens (raw || preserve_special_tokens) split_reasoning
        (initial_state split_reasoning)
        (mkSemantic budget [] 0 0 (starts_in_reasoning && bool_decide (is_Some budget)) false false)
        (mkTracker 0 starts_in_reasoning) None
        (make_decoder (if raw then None else tool_call_output) tool_name_max_length)
        [] no_diagnostics).

(** [OutputSession]: [None] is a null [impl_]. *)
Abbreviation Session := (option Impl).

Definition model_token_budget_remaining (s : Session) (total_budget_remaining : Z) : Z :=
  match s with
  | None => total_budget_remaining
  | Some i =>
      match se_budget (im_semantic i) with
      | None => total_budget_remaining
      | Some budget =>
          if negb (se_in_reasoning (im_semantic i)) || se_applied (im_semantic i) then total_budget_remaining
          else if se_control_pending (im_semantic i) || (budget <=? se_model_thinking_tokens (im_semantic i))
          then 0
          else Z.min total_budget_remaining (w32 (budget - se_model_thinking_tokens (im_semantic i)))
      end
  end.

Definition pending_control_tokens (s : Session) : list Z :=
  match s with
  | None => []
  | Some i =>
      match im_control_tokens i with
      | Some tokens => if se_control_pending (im_semantic i) then tokens else []
      | None => []
      end
  end.

#[export] Instance session_output : OutputSession Session := {
  Scheduler.model_token_budget_remaining := model_token_budget_remaining;
  Scheduler.pending_control_tokens := pending_control_tokens;
}.

Section session.
(** [tokenizer->decoded_token(id)]: the bytes and whether the token is special. *)
Context (decoded_token : Z -> result (bytes * bool)).
Context (json_accept : bytes -> bool) (encode_json_string : bytes -> result bytes).

(** [complete]: the decision and the preview it readies. *)
Definition complete (p : Preview) (count : Z) (reason : FinishReason) (continuation : ContinuationAction)
    : result (OutputDecision * Preview) :=
  let p := if bool_decide (reason = FinishNone) then p
           else mkPreview (pv_state p) (set_control_pending (pv_semantic p) false) (pv_prefix_execution p)
                  (pv_split_after p) (pv_output p) in
  _ ← throw_if (match pv_split_after p with Some split => count <? split | None => false end) LogicError;
  Ok (mkDecision count reason continuation (pv_split_after p), p).

(** The reset at the start of every preview. *)
Definition begin_preview (i : Impl) : Preview :=
  mkPreview (im_state i) (im_semantic i) (im_prefix_execution i) None [].

(** The boundary tracker's part of a token. *)
Definition track_token (bytes : bytes) (count : Z) (p : Preview) : Preview :=
  let '(boundary, tracker) := tracker_feed kBoundary bytes (pv_prefix_execution p) in
  mkPreview (pv_state p) (pv_semantic p) tracker
    (if bool_decide (boundary = Some (length bytes)) then Some count else pv_split_after p) (pv_output p).

(** The thinking budget's part of a token. *)
Definition think_token (bytes : bytes) (s : SemanticThinkingState) : result SemanticThinkingState :=
  if negb (se_in_reasoning s) then Ok s
  else
    let s := count_thinking_token s in
    _ ← throw_if (match se_budget s with Some budget => budget <? se_model_thinking_tokens s | None => false end)
          LogicError;
    Ok (feed_semantic_thinking bytes s).

Definition presented (i : Impl) (decoded : bytes * bool) : bytes :=
  if negb (im_preserve_special i) && decoded.2 then [] else decoded.1.

(** One turn of the loop of [preview_model]: a decision that ends it, or the preview to go on with. *)
Definition preview_token (i : Impl) (count : Z) (token : Z) (p : Preview)
    : result ((OutputDecision * Preview) + Preview) :=
  decoded ← decoded_token token;
  let bytes := (decoded : bytes * bool).1 in
  let p := track_token bytes count p in
  semantic ← think_token bytes (pv_semantic p);
  let stop_token := bool_decide (token ∈ sp_token_ids (im_policy i)) in
  let before := mkFeed (count_reasoning_token (pv_state p)) (pv_output p) None in
  f ← feed_token_bytes (im_policy i) count true (presented i decoded) before;
  let after (f : Feed) := mkPreview (fd_state f) semantic (pv_prefix_execution p) (pv_split_after p) (fd_emitted f) in
  match fd_best f with
  | Some m =>
      let s := terminal_state (fd_state f) in
      let s := mkState (utf8_pending s) (think_marker_pending s) (stop_pending_reasoning s) (stop_pending_content s)
                 (ds_in_reasoning s) (strip_content_leading s) (terminal s) (decoded_bytes s)
                 (ds_reasoning_tokens s) (Some (sm_declaration_order m)) in
      d ← complete (after (mkFeed s (sm_output m) None)) (sm_committed_tokens m) Scheduler.StopString ContinueDecode;
      Ok (inl d)
  | None =>
      if stop_token then
        let f := if sp_publish_stop_token (im_policy i) then f else before in
        f ← terminalize (im_policy i) count f;
        d ← complete (after f) count StopToken ContinueDecode;
        Ok (inl d)
      else Ok (inr (after f))
  end.

Fixpoint preview_tokens (i : Impl) (count : Z) (tokens : list Z) (p : Preview)
    : result ((OutputDecision * Preview) + Preview) :=
  match tokens with
  | [] => Ok (inr p)
  | token :: tokens =>
      let count := w32 (count + 1) in
      r ← preview_token i count token p;
      match (r : (OutputDecision * Preview) + Preview) with
      | inl d => Ok (inl d)
      | inr p => preview_tokens i count tokens p
      end
  end.

(** The part of [preview_model] after its argument checks. *)
Definition preview_round (i : Impl) (tokens : list Z) (total_budget_remaining : Z) (limit_reason : FinishReason)
    : result (OutputDecision * Preview) :=
  r ← preview_tokens i 0 tokens (begin_preview i);
  match (r : (OutputDecision * Preview) + Preview) with
  | inl d => Ok d
  | inr p =>
      let count := w32 (Z.of_nat (length tokens)) in
      if Z.of_nat (length tokens) =? total_budget_remaining then
        f ← terminalize (im_policy i) count (mkFeed (pv_state p) (pv_output p) None);
        complete (mkPreview (fd_state f) (pv_semantic p) (pv_prefix_execution p) (pv_split_after p) (fd_emitted f))
          count limit_reason ContinueDecode
      else if se_in_reasoning (pv_semantic p) &&
              bool_decide (se_budget (pv_semantic p) = Some (se_model_thinking_tokens (pv_semantic p))) then
        complete (mkPreview (pv_state p) (set_control_pending (pv_semantic p) true) (pv_prefix_execution p)
                    (pv_split_after p) (pv_output p)) count FinishNone ApplyTargetControl
      else complete p count FinishNone ContinueDecode
  end.

(** The checks every preview begins with. *)
Definition check_preview (s : Session) : result Impl :=
  match s with
  | None => Throw LogicError
  | Some i =>
      _ ← throw_if (terminal (im_state i)) LogicError;
      _ ← throw_if (bool_decide (is_Some (im_preview i))) LogicError;
      Ok i
  end.

(** Stores the readied preview and returns the decision. *)
Definition ready {A} (i : Impl) (r : A * Preview) : M Session A :=
  _ ← mput (Some (set_preview i (Some r.2)));
  mret r.1.

Definition preview_model (tokens : list Z) (total_budget_remaining : Z) (limit_reason : FinishReason)
    : M Session OutputDecision :=
  s ← mget;
  i ← mlift (check_preview s);
  _ ← mthrow_if (se_control_pending (im_semantic i)) LogicError;
  _ ← mthrow_if (bool_decide (tokens = [])) InvalidArgument;
  _ ← mthrow_if (total_budget_remaining <? Z.of_nat (length tokens)) InvalidArgument;
  _ ← mthrow_if (negb (bool_decide (limit_reason = OutputLimit)) && negb (bool_decide (limit_reason = ContextCapacity)))
        InvalidArgument;
  r ← mlift (preview_round i tokens total_budget_remaining limit_reason);
  ready i r.

(** One turn of the loop of [preview_control]. *)
Definition control_token (i : Impl) (count : Z) (token : Z) (p : Preview) : result Preview :=
  decoded ← decoded_token token;
  let bytes := (decoded : bytes * bool).1 in
  let p := track_token bytes count p in
  f ← feed_token_bytes (im_policy i) count false (presented i decoded)
        (mkFeed (count_reasoning_token (pv_state p)) (pv_output p) None);
  Ok (mkPreview (fd_state f) (feed_semantic_thinking bytes (pv_semantic p)) (pv_prefix_execution p)
        (pv_split_after p) (fd_emitted f)).

Fixpoint control_tokens (i : Impl) (count : Z) (tokens : list Z) (p : Preview) : result Preview :=
  match tokens with
  | [] => Ok p
  | token :: tokens =>
      let count := w32 (count + 1) in
      p ← control_token i count token p;
      control_tokens i count tokens p
  end.

Definition control_round (i : Impl) (tokens : list Z) : result (OutputDecision * Preview) :=
  p ← control_tokens i 0 tokens (begin_preview i);
  _ ← throw_if (se_in_reasoning (pv_semantic (p : Preview))) LogicError;
  _ ← throw_if (im_split_reasoning i && ds_in_reasoning (pv_state p)) LogicError;
  let count := w32 (Z.of_nat (length tokens)) in
  Ok (mkDecision count FinishNone ContinueDecode (pv_split_after p),
      mkPreview (pv_state p) (control_applied (pv_semantic p) count) (pv_prefix_execution p) (pv_split_after p)
        (pv_output p)).

Definition preview_control (tokens : list Z) (total_budget_remaining : Z) : M Session OutputDecision :=
  s ← mget;
  i ← mlift (check_preview s);
  let expected := pending_control_tokens s in
  _ ← mthrow_if (bool_decide (expected = []) || negb (bool_decide (tokens = expected))) InvalidArgument;
  _ ← mthrow_if (total_budget_remaining <? Z.of_nat (length tokens)) InvalidArgument;
  r ← mlift (control_round i tokens);
  ready i r.

Definition validate_generation_capacity (s : Session) (effective_output_tokens : Z) : result unit :=
  match s with
  | None => Throw LogicError
  | Some i =>
      match se_budget (im_semantic i) with
      | None => Ok tt
      | Some budget =>
          if negb (se_in_reasoning (im_semantic i)) || (effective_output_tokens <=? budget) then Ok tt
          else
            match im_control_tokens i with
            | None => Throw Terminate
            | Some control =>
                throw_if (effective_output_tokens - budget <? Z.of_nat (length control) + 1) InvalidArgument
            end
      end
  end.

Definition preview_terminal (reason : FinishReason) : M Session OutputDecision :=
  s ← mget;
  i ← mlift (check_preview s);
  _ ← mthrow_if (bool_decide (reason = FinishNone) || bool_decide (reason = Scheduler.StopString) ||
                 bool_decide (reason = StopToken)) InvalidArgument;
  let p := begin_preview i in
  f ← mlift (terminalize (im_policy i) 0 (mkFeed (pv_state p) (pv_output p) None));
  ready i (mkDecision 0 reason ContinueDecode None,
           mkPreview (fd_state f) (set_control_pending (pv_semantic p) false) (pv_prefix_execution p)
             (pv_split_after p) (fd_emitted f)).

(** A call of the tool-call decoder inside the session. *)
Definition on_tool_output {A} (i : Impl) (m : M Decoder A) : M Session (Impl * A) :=
  let '(d, r) := m (im_tool_call_output i) in
  let i := set_tool_output i d in
  _ ← mput (Some i);
  a ← mlift r;
  mret (i, a).

(** The loop that passes the content deltas through the tool-call decoder. *)
Fixpoint feed_deltas (i : Impl) (output : PublishedOutput) : M Session (Impl * PublishedOutput) :=
  match output with
  | [] => mret (i, [])
  | d :: output =>
      if decide (dl_channel d = Content) then
        r ← on_tool_output i (feed (dl_text d));
        rest ← feed_deltas (r : Impl * bytes).1 output;
        mret ((rest : Impl * PublishedOutput).1, mkDelta Content r.2 :: rest.2)
      else
        rest ← feed_deltas i output;
        mret ((rest : Impl * PublishedOutput).1, d :: rest.2)
  end.

(** [content->text += terminal.content], on the last content delta or a new one. *)
Fixpoint append_last_content (output : PublishedOutput) (text : bytes) : option PublishedOutput :=
  match output with
  | [] => None
  | d :: output =>
      match append_last_content output text with
      | Some output => Some (d :: output)
      | None => if decide (dl_channel d = Content) then Some (mkDelta Content (dl_text d ++ text) :: output) else None
      end
  end.

Definition append_terminal (output : PublishedOutput) (text : bytes) : result PublishedOutput :=
  match text with
  | [] => Ok output
  | _ => match append_last_content output text with
         | Some output => Ok output
         | None => push_back output (mkDelta Content text)
         end
  end.

Definition commit_preview : M Session PublishedOutput :=
  s ← mget;
  match s with
  | None => mthrow Terminate
  | Some i =>
      match im_preview i with
      | None => mthrow Terminate
      | Some p =>
          let i := install i p in
          _ ← mput (Some i);
          r ← feed_deltas i (pv_output p);
          let i := (r : Impl * PublishedOutput).1 in
          if terminal (im_state i) then
            t ← on_tool_output i (finish json_accept encode_json_string);
            let i := set_tool_calls (t : Impl * Terminal).1 (tm_tool_calls t.2) (tm_diagnostics t.2) in
            _ ← mput (Some i);
            mlift (append_terminal r.2 (tm_content t.2))
          else mret r.2
      end
  end.

Definition take_tool_calls : M Session (list GeneratedToolCall) :=
  s ← mget;
  match s with
  | None => mret []
  | Some i => _ ← mput (Some (set_tool_calls i [] (im_tool_call_parse i))); mret (im_tool_calls i)
  end.

Definition tool_call_parse_diagnostics (s : Session) : ToolCallParseDiagnostics :=
  match s with Some i => im_tool_call_parse i | None => no_diagnostics end.

Definition reasoning_tokens (s : Session) : Z :=
  match s with Some i => ds_reasoning_tokens (im_state i) | None => 0 end.

Record ThinkingBudgetStats := mkStats {
  configured_budget : option Z;
  model_thinking_tokens : Z;
  injected_tokens : Z;
  applied : bool;
}.

Definition thinking_stats (s : Session) : ThinkingBudgetStats :=
  match s with
  | None => mkStats None 0 0 false
  | Some i => mkStats (se_budget (im_semantic i)) (se_model_thinking_tokens (im_semantic i))
                (se_injected_tokens (im_semantic i)) (se_applied (im_semantic i))
  end.

Definition matched_stop_string (s : Session) : result (option bytes) :=
  match s with
  | None => Ok None
  | Some i =>
      match matched_stop_order (im_state i) with
      | None => Ok None
      | Some index =>
          match sp_strings (im_policy i) !! Z.to_nat index with
          | Some stop => Ok (Some (st_text stop))
          | None => Throw LogicError
          end
      end
  end.
End session.
