(* ===== verification/OutputSessionSpec.v ===== *)
(** * Sessions respect their thinking budget and the engine's contract

    Invariants of the output session under every sequence of calls, and the previews of licensed
    rounds. *)

From Stdlib Require Import String.
From S2P Require Import Prelude Bytes ToolCall ToolCallSpec Utf8Stream PrefixTracker OutputText OutputTextSpec Scheduler OutputSession.
Open Scope char_scope.
Open Scope Z_scope.

(** ** Results that satisfy a property and throw only without a licence *)

Definition returns {A} (licence : Prop) (P : A -> Prop) (r : result A) : Prop :=
  match r with Ok a => P a | Throw _ => ~ licence end.

Lemma returns_bind {A B} licence (P : A -> Prop) (Q : B -> Prop) r (k : A -> result B) :
  returns licence P r -> (forall a, P a -> returns licence Q (k a)) -> returns licence Q (r ≫= k).
Proof. destruct r as [a|e]; cbn; eauto. Qed.

Lemma returns_weaken {A} (L L' : Prop) (P Q : A -> Prop) r :
  returns L P r -> (L' -> L) -> (forall a, P a -> Q a) -> returns L' Q r.
Proof. destruct r as [a|e]; cbn; eauto. Qed.

(** ** Channel order of the published deltas *)

(** A reasoning text, then a content text; nothing but reasoning while the reasoning channel is open. *)
Definition ordered (in_reasoning : bool) (out : PublishedOutput) : Prop :=
  exists a b, out = single Reasoning a ++ single Content b /\ (in_reasoning = true -> b = []).

Definition channel_open (in_reasoning : bool) (channel : OutputChannel) : Prop :=
  in_reasoning = bool_decide (channel = Reasoning).

Lemma append_ordered b channel out t :
  channel_open b channel -> ordered b out -> exists out', append_delta out channel t = Ok out' /\ ordered b out'.
Proof.
  intros Ho (x & y & -> & Hy). destruct channel; rewrite Ho in *.
  - exists (single Reasoning x ++ single Content (y ++ t)). split; [|by exists x, (y ++ t)].
    unfold append_delta. destruct t as [|c t]; [by rewrite app_nil_r|].
    destruct x as [|cx x], y as [|cy y]; done.
  - rewrite Hy by done. cbn [single]. rewrite app_nil_r, append_single. eexists. split; [done|].
    exists (x ++ t), []. split; [by rewrite app_nil_r|done].
Qed.

Lemma ordered_close b out : ordered b out -> ordered false out.
Proof. intros (x & y & -> & _). by exists x, y. Qed.

(** ** One feed *)

Section feed.
Context (policy : StopPolicy) (count : Z) (matching : bool).
Hypothesis strings_count : Z.of_nat (length (sp_strings policy)) <= u32_mod.

Definition order_ok (order : option Z) : Prop :=
  forall o, order = Some o -> 0 <= o < Z.of_nat (length (sp_strings policy)).

Definition best_ok (best : option StopMatch) : Prop :=
  forall m, best = Some m -> sm_committed_tokens m = count /\ ordered false (sm_output m) /\
    order_ok (Some (sm_declaration_order m)).

Lemma best_none_ok : best_ok None.
Proof. by intros m. Qed.

Lemma match_stops_ok L b channel combined start emitted strings : forall declaration best,
  0 <= declaration -> declaration + Z.of_nat (length strings) = Z.of_nat (length (sp_strings policy)) ->
  channel_open b channel -> ordered b emitted -> best_ok best ->
  returns L best_ok (match_stops channel combined start count emitted declaration strings best).
Proof.
  induction strings as [|stop strings IH]; intros declaration best Hd Hn Ho He Hb; cbn [match_stops]; [done|].
  cbn [length] in Hn. apply (returns_bind L best_ok); [|intros b' Hb'; apply IH; [lia|lia|done..]].
  unfold match_stop. destruct (negb _); [done|]. destruct (find _ _ _) as [found|]; [|done].
  destruct (negb _); [done|].
  destruct (append_ordered b channel emitted (take found combined) Ho He) as (c1 & -> & H1). cbn [mbind result_bind].
  assert (exists c2, (if st_include_in_output stop then append_delta c1 channel (st_text stop) else Ok c1) = Ok c2 /\
    ordered b c2) as (c2 & -> & H2) by (destruct (st_include_in_output stop); [by apply append_ordered|by exists c1]).
  cbn [mbind result_bind returns]. intros m [= <-]. split; [done|]. split; [by apply (ordered_close b)|].
  intros o [= <-]. cbn [sm_declaration_order]. rewrite w32_small by lia. lia.
Qed.

(** What feeding leaves alone. *)
Definition kept (s s' : DecoderState) : Prop :=
  terminal s' = terminal s /\ ds_reasoning_tokens s' = ds_reasoning_tokens s /\
  matched_stop_order s' = matched_stop_order s.

Lemma state_kept_refl s : kept s s.
Proof. by repeat split. Qed.

Lemma state_kept_trans s1 s2 s3 : kept s1 s2 -> kept s2 s3 -> kept s1 s3.
Proof. intros (H1 & H2 & H3) (H4 & H5 & H6). repeat split; congruence. Qed.

Definition feed_ok (f f' : Feed) : Prop :=
  kept (fd_state f) (fd_state f') /\ ordered (ds_in_reasoning (fd_state f')) (fd_emitted f') /\ best_ok (fd_best f').

Lemma feed_channel_ok L channel text f :
  channel_open (ds_in_reasoning (fd_state f)) channel -> ordered (ds_in_reasoning (fd_state f)) (fd_emitted f) ->
  best_ok (fd_best f) ->
  returns L (fun f' => feed_ok f f' /\ ds_in_reasoning (fd_state f') = ds_in_reasoning (fd_state f))
    (feed_channel policy count matching channel text f).
Proof.
  intros Ho He Hb. destruct text as [|c text]; [by split; [split; [apply state_kept_refl|split]|]|]. cbn [feed_channel].
  apply (returns_bind L best_ok).
  { destruct matching; [|done]. by apply (match_stops_ok L (ds_in_reasoning (fd_state f))). }
  intros best Hbest. edestruct append_ordered as (out & -> & Hout); [exact Ho|exact He|].
  cbn [mbind result_bind returns].
  split; [split; [by destruct channel|split; [by destruct channel|done]]|by destruct channel].
Qed.

Lemma close_channel_ok L channel f :
  channel_open (ds_in_reasoning (fd_state f)) channel -> ordered (ds_in_reasoning (fd_state f)) (fd_emitted f) ->
  best_ok (fd_best f) ->
  returns L (fun f' => feed_ok f f' /\ ds_in_reasoning (fd_state f') = ds_in_reasoning (fd_state f))
    (close_channel channel f).
Proof.
  intros Ho He Hb. unfold close_channel. edestruct append_ordered as (out & -> & Hout); [exact Ho|exact He|].
  cbn [mbind result_bind returns].
  split; [split; [by destruct channel|split; [by destruct channel|done]]|by destruct channel].
Qed.

Lemma feed_content_ok L text f :
  ds_in_reasoning (fd_state f) = false -> ordered false (fd_emitted f) -> best_ok (fd_best f) ->
  returns L (feed_ok f) (feed_content policy count matching text f).
Proof.
  intros Hr He Hb. unfold feed_content. set (s' := if _ && _ then _ else _).
  assert (kept (fd_state f) s' /\ ds_in_reasoning s' = false) as [Hk Hr'] by (unfold s'; case_match; by repeat split).
  eapply returns_weaken; [apply feed_channel_ok with (L := L)|done|]; cbn [with_state fd_state fd_emitted fd_best];
    rewrite ?Hr'; try done.
  intros f' [(K & O & B) _]. split; [by eapply state_kept_trans|done].
Qed.

Lemma feed_decoded_text_ok L text f :
  ordered (ds_in_reasoning (fd_state f)) (fd_emitted f) -> best_ok (fd_best f) ->
  returns L (feed_ok f) (feed_decoded_text policy count matching text f).
Proof.
  intros He Hb. unfold feed_decoded_text. destruct (ds_in_reasoning (fd_state f)) eqn:Er; cbn [negb].
  2: by apply feed_content_ok.
  set (pending := think_marker_pending (fd_state f) ++ text).
  set (f0 := with_state f (set_marker_pending (fd_state f) pending)).
  destruct (find pending kThinkClose 0) as [marker|].
  - eapply returns_bind; [apply (feed_channel_ok L Reasoning _ f0); cbn; rewrite ?Er; done|].
    intros f1 [(K1 & O1 & B1) R1]. cbn [f0 with_state fd_state set_marker_pending ds_in_reasoning] in R1. rewrite Er in R1.
    eapply returns_bind; [apply (close_channel_ok L Reasoning f1); rewrite ?R1; rewrite R1 in O1; done|].
    intros f2 [(K2 & O2 & B2) R2].
    eapply returns_weaken; [apply feed_content_ok with (L := L)|done|]; cbn; [done|by eapply ordered_close|done|].
    intros f3 (K3 & O3 & B3). split; [|done].
    eapply state_kept_trans; [exact K1|]. eapply state_kept_trans; [exact K2|exact K3].
  - eapply returns_bind; [apply (feed_channel_ok L Reasoning _ f0); cbn; rewrite ?Er; done|].
    intros f1 [(K1 & O1 & B1) R1]. split; [exact K1|done].
Qed.

Lemma feed_token_bytes_ok L bytes f :
  ordered (ds_in_reasoning (fd_state f)) (fd_emitted f) -> best_ok (fd_best f) ->
  returns L (feed_ok f) (feed_token_bytes policy count matching bytes f).
Proof.
  intros He Hb. unfold feed_token_bytes. destruct (consume_generated_utf8 _) as [text pending].
  eapply returns_weaken; [apply feed_decoded_text_ok with (L := L)|done|]; cbn; try done.
Qed.
End feed.

Lemma terminalize_ok policy count L f :
  Z.of_nat (length (sp_strings policy)) <= u32_mod ->
  ordered (ds_in_reasoning (fd_state f)) (fd_emitted f) -> fd_best f = None ->
  returns L (fun f' => terminal (fd_state f') = true /\ ordered false (fd_emitted f') /\
      matched_stop_order (fd_state f') = matched_stop_order (fd_state f))
    (terminalize policy count f).
Proof.
  intros Hn He Hb. unfold terminalize.
  pose proof (best_none_ok policy count) as Hnone.
  apply (returns_bind L (feed_ok policy count f)).
  { destruct (utf8_pending (fd_state f)) eqn:Eu.
    - split; [apply state_kept_refl|]. split; [done|]. by rewrite Hb.
    - eapply returns_weaken; [apply (feed_decoded_text_ok policy count false Hn L)|done|]; cbn [with_state fd_state fd_emitted fd_best set_utf8_pending ds_in_reasoning];
        [done|by rewrite Hb|done]. }
  intros f1 ((_ & _ & Km) & O1 & B1). apply (returns_bind L (feed_ok policy count f1)).
  - destruct (ds_in_reasoning (fd_state f1)) eqn:Er.
    + eapply returns_bind; [apply (feed_channel_ok policy count false Hn L Reasoning); rewrite ?Er; done|].
      intros f2 [(K2 & O2 & B2) R2]. rewrite Er in R2.
      eapply returns_weaken; [apply (close_channel_ok policy count L Reasoning)|done|];
        cbn [with_state fd_state fd_emitted fd_best set_marker_pending ds_in_reasoning]; rewrite ?R2; try done.
      { by rewrite R2 in O2. }
      intros f3 [(K3 & O3 & B3) _]. split; [|done]. eapply state_kept_trans; [exact K2|exact K3].
    + eapply returns_weaken; [apply (close_channel_ok policy count L Content); rewrite ?Er; done|done|].
      by intros f2 [? _].
  - intros f2 ((_ & _ & Km2) & O2 & _). cbn [with_state fd_state fd_emitted ended terminal matched_stop_order returns].
    split; [done|]. split; [by eapply ordered_close|congruence].
Qed.

(** ** The thinking budget *)

(** Between tokens of a round: the budget bounds the counted tokens and the two ways of closing the
    thinking phase exclude it. *)
Definition thinking (s : SemanticThinkingState) : Prop :=
  (forall b, se_budget s = Some b -> 0 < b <= u32_max /\ 0 <= se_model_thinking_tokens s <= b) /\
  (se_in_reasoning s = true -> is_Some (se_budget s)) /\
  (se_applied s = true -> se_in_reasoning s = false).

(** Between rounds: target control is pending exactly when an open thinking phase has used up its
    budget in a session that goes on. *)
Definition thinking_settled (finished : bool) (s : SemanticThinkingState) : Prop :=
  thinking s /\
  (se_control_pending s = true <->
     finished = false /\ se_in_reasoning s = true /\ se_budget s = Some (se_model_thinking_tokens s)).

(** The model tokens that the budget still allows. *)
Definition licensed (s : SemanticThinkingState) (n : Z) : Prop :=
  forall b, se_in_reasoning s = true -> se_budget s = Some b -> se_model_thinking_tokens s + n <= b.

Lemma feed_semantic_thinking_kept bytes s :
  let s' := feed_semantic_thinking bytes s in
  se_budget s' = se_budget s /\ se_model_thinking_tokens s' = se_model_thinking_tokens s /\
  se_applied s' = se_applied s /\ (se_in_reasoning s = false -> se_in_reasoning s' = false) /\
  (se_control_pending s = false -> se_control_pending s' = false).
Proof.
  unfold feed_semantic_thinking. destruct (negb _ || _); [done|]. by destruct (find _ _ _).
Qed.

Lemma feed_semantic_thinking_ok bytes s : thinking s -> thinking (feed_semantic_thinking bytes s).
Proof.
  intros (H1 & H2 & H3). destruct (feed_semantic_thinking_kept bytes s) as (E1 & E2 & E3 & E4 & _).
  split; [by rewrite E1, E2|]. rewrite E1, E3. split; [|by intros; apply E4, H3].
  intros Hr. apply H2. destruct (se_in_reasoning s); [done|]. by rewrite E4 in Hr.
Qed.

Lemma think_token_ok bytes s n :
  thinking s -> 0 <= n ->
  returns (licensed s (n + 1)) (fun s' => thinking s' /\ (licensed s (n + 1) -> licensed s' n) /\
      (se_control_pending s = false -> se_control_pending s' = false)) (think_token bytes s).
Proof.
  intros Ht Hn. unfold think_token. destruct (se_in_reasoning s) eqn:Er; cbn [negb].
  2: { cbn. split; [done|]. split; [|done]. intros _ b Hb. congruence. }
  pose proof Ht as (H1 & H2 & H3). destruct (H2 Er) as [b Hb]. destruct (H1 b Hb) as [Hbr Htr].
  cbn [count_thinking_token se_budget se_model_thinking_tokens]. rewrite Hb.
  destruct (b <? w32 (se_model_thinking_tokens s + 1)) eqn:Eb; cbn [throw_if mbind result_bind returns].
  - intros Hl. specialize (Hl b Er Hb). rewrite w32_small in Eb by lia. lia.
  - assert (thinking (count_thinking_token s)) as Hc.
    { pose proof (w32_range (se_model_thinking_tokens s + 1)).
      split; [intros b' Hb'; cbn in Hb' |- *; rewrite Hb in Hb'; injection Hb' as <-; lia|by split]. }
    split; [by apply feed_semantic_thinking_ok|].
    destruct (feed_semantic_thinking_kept bytes (count_thinking_token s)) as (E1 & E2 & _ & E4 & E5).
    split; [|exact E5]. intros Hl b' Hr Hb'. rewrite E1 in Hb'. rewrite E2. cbn in Hb' |- *.
    specialize (Hl b' Er Hb'). assert (b' = b) as -> by congruence. rewrite w32_small by lia. lia.
Qed.

(** ** Previews *)

Definition split_within (split : option Z) (count : Z) : Prop := forall k, split = Some k -> 1 <= k <= count.

(** A preview that goes on, after [count] tokens. *)
Definition running (count : Z) (p : Preview) : Prop :=
  thinking (pv_semantic p) /\ se_control_pending (pv_semantic p) = false /\
  ordered (ds_in_reasoning (pv_state p)) (pv_output p) /\ terminal (pv_state p) = false /\
  matched_stop_order (pv_state p) = None /\ split_within (pv_split_after p) count.

(** A preview that can be committed. *)
Definition settled (policy : StopPolicy) (p : Preview) : Prop :=
  thinking_settled (terminal (pv_state p)) (pv_semantic p) /\ ordered false (pv_output p) /\
  order_ok policy (matched_stop_order (pv_state p)) /\
  (terminal (pv_state p) = false -> matched_stop_order (pv_state p) = None).

(** The decision of a preview, and what it says of the state it would install. *)
Definition decided (policy : StopPolicy) (d : OutputDecision) (p : Preview) : Prop :=
  settled policy p /\ split_within (prefix_execution_split_after d) (accepted_tokens d) /\
  finished_decision d = terminal (pv_state p) /\
  (continuation d = ApplyTargetControl <-> se_control_pending (pv_semantic p) = true).

Lemma complete_finished policy p count reason :
  reason <> FinishNone -> thinking (pv_semantic p) -> ordered false (pv_output p) -> terminal (pv_state p) = true ->
  order_ok policy (matched_stop_order (pv_state p)) -> split_within (pv_split_after p) count ->
  exists d p', complete p count reason ContinueDecode = Ok (d, p') /\ accepted_tokens d = count /\
    finish_reason d = reason /\ decided policy d p'.
Proof.
  intros Hr Ht Ho Hterm Hm Hs. unfold complete. rewrite bool_decide_eq_false_2 by done.
  cbn [pv_split_after]. assert (match pv_split_after p with Some split => count <? split | None => false end = false) as ->.
  { destruct (pv_split_after p) as [k|]; [|done]. specialize (Hs k eq_refl). lia. }
  cbn. eexists _, _. split; [reflexivity|]. split; [done|]. split; [done|]. split; [split|].
  - cbn. rewrite Hterm. destruct Ht as (H1 & H2 & H3). split; [by split|]. by split; [|intros [? _]].
  - split; [done|]. split; [done|]. cbn. by rewrite Hterm.
  - split; [done|]. split; [|done]. cbn. unfold finished_decision. cbn. by rewrite Hterm, bool_decide_eq_false_2.
Qed.

Section rounds.
Context (decoded_token : Z -> result (bytes * bool)).

Definition decodable (token : Z) : Prop := is_Some (match decoded_token token with Ok d => Some d | Throw _ => None end).

Lemma decoded_ok token : returns (decodable token) (fun _ => True) (decoded_token token).
Proof. unfold decodable. destruct (decoded_token token); cbn; [done|]. by intros [? [=]]. Qed.

Lemma track_token_kept bytes count p :
  let p' := track_token bytes count p in
  pv_state p' = pv_state p /\ pv_semantic p' = pv_semantic p /\ pv_output p' = pv_output p /\
  (1 <= count -> split_within (pv_split_after p) count -> split_within (pv_split_after p') count).
Proof.
  unfold track_token. destruct (tracker_feed _ _ _) as [boundary tracker]. cbn.
  split; [done|]. split; [done|]. split; [done|]. intros Hc Hs.
  case_bool_decide; [intros k [= <-]; lia|done].
Qed.

Section policy.
Context (i : Impl).
Hypothesis strings_count : Z.of_nat (length (sp_strings (im_policy i))) <= u32_mod.

Definition token_outcome (count n : Z) (licence : Prop) (r : (OutputDecision * Preview) + Preview) : Prop :=
  match r with
  | inl (d, p') => accepted_tokens d = count /\ finish_reason d <> FinishNone /\ continuation d = ContinueDecode /\
      decided (im_policy i) d p'
  | inr p' => running count p' /\ (licence -> licensed (pv_semantic p') n)
  end.

Lemma complete_continuation p count reason continuation d p' :
  complete p count reason continuation = Ok (d, p') -> OutputSession.continuation d = continuation.
Proof. unfold complete. destruct (throw_if _ _); cbn; [|done]. by intros [= <- _]. Qed.

Lemma preview_token_ok count n token p :
  running count p -> 0 <= count -> 0 <= n ->
  returns (licensed (pv_semantic p) (n + 1) /\ decodable token)
    (token_outcome (count + 1) n (licensed (pv_semantic p) (n + 1)))
    (preview_token decoded_token i (count + 1) token p).
Proof.
  intros (Ht & Hc & Ho & Hterm & Hmo & Hs) Hcount Hn. set (L := _ /\ decodable token). unfold preview_token.
  apply (returns_bind L (fun _ => True)); [by eapply returns_weaken; [apply decoded_ok|intros []|]|].
  intros decoded _. destruct (track_token_kept (decoded.1) (count + 1) p) as (Es & Em & Eo & Hsplit).
  set (p1 := track_token decoded.1 (count + 1) p) in *.
  assert (split_within (pv_split_after p1) (count + 1)) as Hs1
    by (apply Hsplit; [lia|intros k Hk; specialize (Hs k Hk); lia]).
  eapply returns_bind.
  { eapply returns_weaken; [apply (think_token_ok decoded.1 (pv_semantic p1) n); [by rewrite Em|done]| |intros a Ha; exact Ha].
    rewrite Em. by intros []. }
  intros semantic (Ht2 & Hl2 & Hc2). rewrite Em in Hl2, Hc2.
  set (before := mkFeed (count_reasoning_token (pv_state p1)) (pv_output p1) None).
  assert (ordered (ds_in_reasoning (fd_state before)) (fd_emitted before)) as Hob by (cbn; by rewrite Es, Eo).
  eapply returns_bind; [by apply (feed_token_bytes_ok (im_policy i) (count + 1) true strings_count L)|].
  intros f ((Kt & _ & Km) & Of & Bf). cbn in Kt, Km. rewrite Es in Kt, Km. rewrite Hterm in Kt. rewrite Hmo in Km.
  destruct (fd_best f) as [m|] eqn:Eb.
  - destruct (Bf m eq_refl) as (-> & Hom & Hord).
    match goal with |- returns _ _ (mbind _ (complete ?q _ _ _)) =>
      destruct (complete_finished (im_policy i) q (count + 1) Scheduler.StopString) as (d & p' & E & Hd1 & Hd2 & Hd3); [done..|] end.
    rewrite E. cbn [mbind result_bind returns token_outcome]. split; [done|]. rewrite Hd2. split; [done|].
    split; [by eapply complete_continuation|done].
  - destruct (bool_decide (token ∈ _)).
    + set (g := if sp_publish_stop_token _ then f else before).
      assert (ordered (ds_in_reasoning (fd_state g)) (fd_emitted g) /\ fd_best g = None /\
        matched_stop_order (fd_state g) = None) as (Hog & Hbg & Hmg).
      { unfold g. destruct (sp_publish_stop_token _); [by split|]. split; [done|]. split; [done|]. cbn. by rewrite Es. }
      eapply returns_bind; [by apply (terminalize_ok (im_policy i) (count + 1) L)|].
      intros f2 (Tt & Ot & Mt). rewrite Hmg in Mt.
      match goal with |- returns _ _ (mbind _ (complete ?q _ _ _)) =>
        destruct (complete_finished (im_policy i) q (count + 1) StopToken) as (d & p' & E & Hd1 & Hd2 & Hd3); [done..| |done|] end.
      { cbn. rewrite Mt. by intros o. }
      rewrite E. cbn [mbind result_bind returns token_outcome]. split; [done|]. rewrite Hd2. split; [done|].
      split; [by eapply complete_continuation|done].
    + cbn [returns token_outcome]. split; [|done]. split; [done|]. split; [by apply Hc2|]. done.
Qed.

Lemma preview_tokens_ok tokens : forall count p,
  running count p -> 0 <= count -> count + Z.of_nat (length tokens) <= u32_max ->
  returns (licensed (pv_semantic p) (Z.of_nat (length tokens)) /\ Forall decodable tokens)
    (fun r => match r with
              | inl (d, p') => count < accepted_tokens d <= count + Z.of_nat (length tokens) /\
                  finish_reason d <> FinishNone /\ continuation d = ContinueDecode /\ decided (im_policy i) d p'
              | inr p' => running (count + Z.of_nat (length tokens)) p'
              end)
    (preview_tokens decoded_token i count tokens p).
Proof.
  induction tokens as [|token tokens IH]; intros count p Hp Hc Hb; cbn [preview_tokens].
  { cbn. by rewrite Z.add_0_r. }
  cbn [length] in Hb. rewrite w32_small by lia.
  eapply returns_bind.
  { eapply returns_weaken; [apply (preview_token_ok count (Z.of_nat (length tokens)) token p); done || lia| |intros a Ha; exact Ha].
    intros [Hl Hd]. apply Forall_cons in Hd as [Hd _]. split; [|done]. cbn [length] in Hl.
    by replace (Z.of_nat (length tokens) + 1) with (Z.of_nat (S (length tokens))) by lia. }
  intros [[d p']|p'] Hr; cbn [token_outcome] in Hr.
  - destruct Hr as (Ha & ? & ? & ?). cbn [returns]. split; [cbn [length]; lia|done].
  - destruct Hr as [Hp' Hl]. specialize (IH (count + 1) p' Hp' ltac:(lia) ltac:(lia)).
    eapply returns_weaken; [exact IH| |].
    + intros [Hlic Hd]. apply Forall_cons in Hd as [_ Hd]. split; [|done]. apply Hl. cbn [length] in Hlic.
      by replace (Z.of_nat (length tokens) + 1) with (Z.of_nat (S (length tokens))) by lia.
    + intros [[d q]|q] Hq.
      * destruct Hq as (Ha & ?). split; [cbn [length]; lia|done].
      * cbn [length]. by replace (count + Z.of_nat (S (length tokens))) with (count + 1 + Z.of_nat (length tokens)) by lia.
Qed.

(** The decisions that the engine accepts of a round of [count] tokens (engine_core.h). *)
Definition decision_rejected (count : Z) (d : OutputDecision) : bool :=
  (accepted_tokens d =? 0) || (count <? accepted_tokens d) ||
  (negb (finished_decision d) && negb (accepted_tokens d =? count)) ||
  (finished_decision d && negb (bool_decide (continuation d = ContinueDecode))) ||
  match prefix_execution_split_after d with
  | Some k => (k =? 0) || (accepted_tokens d <? k)
  | None => false
  end.

Lemma decision_accepted count d :
  1 <= accepted_tokens d <= count -> split_within (prefix_execution_split_after d) (accepted_tokens d) ->
  (finish_reason d = FinishNone -> accepted_tokens d = count) ->
  (finish_reason d <> FinishNone -> continuation d = ContinueDecode) ->
  decision_rejected count d = false.
Proof.
  intros Ha Hs Hn Hf. unfold decision_rejected, finished_decision.
  assert (match prefix_execution_split_after d with
    | Some k => (k =? 0) || (accepted_tokens d <? k) | None => false end = false) as ->.
  { destruct (prefix_execution_split_after d) as [k|]; [|done]. specialize (Hs k eq_refl). lia. }
  destruct (decide (finish_reason d = FinishNone)) as [E|E].
  - rewrite bool_decide_eq_true_2, Hn by done. cbn [negb andb]. rewrite Z.eqb_refl. cbn. lia.
  - rewrite bool_decide_eq_false_2, (bool_decide_eq_true_2 (continuation d = _)) by auto. cbn. lia.
Qed.

Lemma preview_round_ok tokens total limit :
  thinking_settled false (im_semantic i) -> se_control_pending (im_semantic i) = false ->
  terminal (im_state i) = false -> matched_stop_order (im_state i) = None -> tokens <> [] ->
  Z.of_nat (length tokens) <= total -> total <= u32_max -> limit = OutputLimit \/ limit = ContextCapacity ->
  returns (licensed (im_semantic i) (Z.of_nat (length tokens)) /\ Forall decodable tokens)
    (fun r => decision_rejected (Z.of_nat (length tokens)) r.1 = false /\ decided (im_policy i) r.1 r.2)
    (preview_round decoded_token i tokens total limit).
Proof.
  intros [Ht Hpend] Hc Hterm Hmo Hne Hlen Htotal Hlimit. unfold preview_round.
  assert (1 <= Z.of_nat (length tokens)) by (destruct tokens; [done|cbn; lia]).
  eapply returns_bind.
  { apply (preview_tokens_ok tokens 0 (begin_preview i)); [|lia|lia].
    split; [done|]. split; [done|]. split; [by exists [], []|]. split; [done|]. split; [done|]. by intros k. }
  intros [[d p]|p] Hr; rewrite Z.add_0_l in Hr.
  { destruct Hr as (Ha & Hf & Hcont & Hd). cbn [returns fst snd]. split; [|done].
    apply decision_accepted; [lia|apply Hd|done|done]. }
  destruct Hr as (Ht2 & Hc2 & Ho2 & Hterm2 & Hmo2 & Hs2). rewrite w32_small by lia.
  destruct (Z.of_nat (length tokens) =? total) eqn:Etot.
  - eapply returns_bind; [by apply terminalize_ok|]. intros f (Tt & Ot & Mt). cbn [fd_state] in Mt. rewrite Hmo2 in Mt.
    match goal with |- returns _ _ (complete ?q ?n ?r _) =>
      destruct (complete_finished (im_policy i) q n r) as (d & p' & E & Hd1 & Hd2 & Hd3);
        [by destruct Hlimit as [->| ->]|done..| |done|] end.
    { cbn. rewrite Mt. by intros o. }
    pose proof (complete_continuation _ _ _ _ _ _ E) as Hcont. rewrite E. cbn [returns fst snd]. split; [|done].
    apply decision_accepted; [lia|apply Hd3|by intros|done].
  - set (used := se_in_reasoning _ && _).
    assert (forall b cont, continuation (mkDecision (Z.of_nat (length tokens)) FinishNone cont (pv_split_after p)) = cont ->
      (b = true <-> cont = ApplyTargetControl) -> (b = true <-> used = true) ->
      returns (licensed (im_semantic i) (Z.of_nat (length tokens)) /\ Forall decodable tokens)
        (fun r => decision_rejected (Z.of_nat (length tokens)) r.1 = false /\ decided (im_policy i) r.1 r.2)
        (complete (mkPreview (pv_state p) (set_control_pending (pv_semantic p) b) (pv_prefix_execution p)
                    (pv_split_after p) (pv_output p)) (Z.of_nat (length tokens)) FinishNone cont)) as Hcomplete.
    { intros b cont _ Hb Hused. unfold complete. rewrite bool_decide_eq_true_2 by done. cbn [pv_split_after].
      assert (match pv_split_after p with Some split => Z.of_nat (length tokens) <? split | None => false end = false) as ->.
      { destruct (pv_split_after p) as [k|]; [|done]. specialize (Hs2 k eq_refl). lia. }
      cbn. split; [apply decision_accepted; cbn; [lia|done|done|done]|].
      split; [split; [|split; [by eapply ordered_close|split; [cbn; rewrite Hmo2; by intros o|done]]]|].
      - cbn. split; [exact Ht2|]. cbn. rewrite Hused, Hterm2. unfold used. rewrite andb_true_iff, bool_decide_eq_true. intuition.
      - split; [done|]. cbn. rewrite Hterm2. split; [done|]. by rewrite Hb. }
    destruct used eqn:Eused.
    + by apply (Hcomplete true ApplyTargetControl).
    + assert (mkPreview (pv_state p) (set_control_pending (pv_semantic p) false) (pv_prefix_execution p)
        (pv_split_after p) (pv_output p) = p) as <-.
      { destruct p as [st se tr sp out]. cbn in Hc2 |- *. f_equal. destruct se. cbn in Hc2 |- *. by rewrite Hc2. }
      by apply (Hcomplete false ContinueDecode).
Qed.

(** A control span in progress. *)
Definition controlled (count : Z) (p : Preview) : Prop :=
  thinking (pv_semantic p) /\ ordered (ds_in_reasoning (pv_state p)) (pv_output p) /\
  terminal (pv_state p) = false /\ matched_stop_order (pv_state p) = None /\ split_within (pv_split_after p) count.

Lemma control_tokens_ok tokens : forall count p,
  controlled count p -> 0 <= count -> count + Z.of_nat (length tokens) <= u32_max ->
  returns False (controlled (count + Z.of_nat (length tokens))) (control_tokens decoded_token i count tokens p).
Proof.
  induction tokens as [|token tokens IH]; intros count p Hp Hc Hb; cbn [control_tokens].
  { cbn. by rewrite Z.add_0_r. }
  cbn [length] in Hb. rewrite w32_small by lia. apply (returns_bind False (controlled (count + 1))).
  - destruct Hp as (Ht & Ho & Hterm & Hmo & Hs). unfold control_token.
    apply (returns_bind False (fun _ => True)); [by destruct (decoded_token token); [|intros []]|]. intros decoded _.
    destruct (track_token_kept decoded.1 (count + 1) p) as (Es & Em & Eo & Hsplit).
    set (p1 := track_token decoded.1 (count + 1) p) in *.
    eapply returns_bind; [apply (feed_token_bytes_ok (im_policy i) (count + 1) false strings_count False)|].
    { cbn. by rewrite Es, Eo. }
    { apply best_none_ok. }
    intros f ((Kt & _ & Km) & Of & _). cbn in Kt, Km. rewrite Es in Kt, Km. cbn [returns].
    split; [cbn; rewrite Em; by apply feed_semantic_thinking_ok|]. split; [done|]. split; [by rewrite Hterm in Kt|].
    split; [by rewrite Hmo in Km|]. apply Hsplit; [lia|]. intros k Hk. specialize (Hs k Hk). lia.
  - intros p' Hp'. cbn [length].
    replace (count + Z.of_nat (S (length tokens))) with (count + 1 + Z.of_nat (length tokens)) by lia.
    apply IH; [done|lia|lia].
Qed.

Lemma control_round_ok tokens :
  thinking (im_semantic i) -> terminal (im_state i) = false -> matched_stop_order (im_state i) = None ->
  Z.of_nat (length tokens) <= u32_max ->
  returns False (fun r => decided (im_policy i) r.1 r.2) (control_round decoded_token i tokens).
Proof.
  intros Ht Hterm Hmo Hlen. unfold control_round.
  eapply returns_bind.
  { apply (control_tokens_ok tokens 0 (begin_preview i)); [|lia|lia].
    split; [done|]. split; [by exists [], []|]. split; [done|]. split; [done|]. by intros k. }
  intros p (Ht2 & Ho2 & Hterm2 & Hmo2 & Hs2). rewrite Z.add_0_l in Hs2.
  destruct (se_in_reasoning (pv_semantic p)) eqn:Er; cbn [throw_if mbind result_bind]; [by intros []|].
  destruct (_ && _); cbn [throw_if mbind result_bind]; [by intros []|]. rewrite w32_small by lia.
  cbn [returns fst snd]. destruct Ht2 as (H1 & H2 & H3).
  split; [split; [|split; [by eapply ordered_close|split; [cbn; rewrite Hmo2; by intros o|done]]]|].
  - split; [split; [exact H1|split; [exact H2|by cbn]]|]. cbn. rewrite Er. split; [done|]. by intros (_ & ? & _).
  - split; [done|]. cbn. unfold finished_decision. cbn. by rewrite Hterm2.
Qed.
End policy.
End rounds.

(** ** Commits *)

Lemma feed_bytes_finished text : forall visible d, dc_finished (feed_bytes text visible d).2 = dc_finished d.
Proof.
  assert (forall c visible d, dc_finished (feed_plain c visible d).2 = dc_finished d) as Hplain
    by (intros; unfold feed_plain; repeat case_match; done).
  induction text as [|c text IH]; intros visible d; cbn [feed_bytes]; [done|].
  case_decide.
  { specialize (Hplain c visible d). destruct (feed_plain c visible d). cbn in Hplain. by rewrite IH. }
  destruct (bool_decide _); [case_decide; [done|by rewrite IH]|].
  pose proof (Hplain c (visible ++ dc_trailing_whitespace d ++ take (dc_marker_prefix_bytes d) kToolOpen) (with_prefix d [] 0)) as Hp.
  destruct (feed_plain c _ _). cbn in Hp. by rewrite IH.
Qed.

Lemma feed_finished text d :
  dc_finished d = false -> exists d' visible, feed text d = (d', Ok visible) /\ dc_finished d' = false.
Proof.
  intros Hd. unfold feed. unfold_M. rewrite Hd. destruct (nilb text); [by eexists _, _|].
  destruct (negb _); [by eexists _, _|]. destruct (dc_saw_tool_marker d); [by eexists _, _|].
  pose proof (feed_bytes_finished text [] d) as Hf. destruct (feed_bytes text [] d) as [visible d'].
  cbn in Hf. exists d', visible. split; [done|congruence].
Qed.

Section commits.
Context (json_accept : bytes -> bool) (encode_json_string : bytes -> result bytes).

(** The exceptions of the JSON serializer: nlohmann/json throws on a string that is not valid UTF-8. *)
Definition serializer_throws (e : exn) : Prop := exists text, encode_json_string text = Throw e.

Definition throws_only {A} (E : exn -> Prop) (r : result A) : Prop := match r with Ok _ => True | Throw e => E e end.

Lemma throws_only_bind {A B} E (r : result A) (f : A -> result B) :
  throws_only E r -> (forall a, throws_only E (f a)) -> throws_only E (r ≫= f).
Proof. intros Hr Hf. destruct r; [apply Hf|exact Hr]. Qed.

Lemma encode_throws text : throws_only serializer_throws (encode_json_string text).
Proof. destruct (encode_json_string text) as [json|e] eqn:E; [done|by exists text]. Qed.

Lemma normalize_parameter_throws value parameter :
  throws_only serializer_throws (normalize_parameter json_accept encode_json_string value parameter).
Proof.
  unfold normalize_parameter, normalize_declared_parameter.
  repeat match goal with
         | |- throws_only _ (_ ≫= _) => apply throws_only_bind; [apply encode_throws|done]
         | |- context [match ?x with _ => _ end] => destruct x
         end; done.
Qed.

Lemma normalize_arguments_throws tool raws : forall arguments first d,
  throws_only serializer_throws (normalize_arguments json_accept encode_json_string tool raws arguments first d).
Proof.
  induction raws as [|raw raws IH]; intros arguments first d; cbn [normalize_arguments]; [done|].
  apply throws_only_bind; [apply normalize_parameter_throws|]. intros n.
  case_match; [|apply IH|]; (apply throws_only_bind; [apply encode_throws|intros name; apply IH]).
Qed.

Lemma normalize_calls_throws raws contract : forall calls d,
  throws_only serializer_throws (normalize_calls json_accept encode_json_string raws contract calls d).
Proof.
  induction raws as [|raw raws IH]; intros calls d; cbn [normalize_calls]; [done|].
  apply throws_only_bind; [|intros r; apply IH]. unfold normalize_raw_tool_call.
  by apply throws_only_bind; [apply normalize_arguments_throws|].
Qed.

Lemma parse_output_throws text maximum contract :
  throws_only serializer_throws (parse_qwen_tool_call_output json_accept encode_json_string text maximum contract).
Proof.
  unfold parse_qwen_tool_call_output. destruct (find text kToolOpen 0) as [first|]; [|done].
  pose proof (ToolCallSpec.parse_calls_returns (drop first text) maximum contract (S (length (drop first text))) 0 []
    ltac:(lia) ltac:(lia)) as Hr. unfold parse_region.
  destruct (parse_calls _ _ _ _ _ _) as [raws|r|]; [|done|done].
  by apply throws_only_bind; [apply normalize_calls_throws|].
Qed.

(** The exception is the serializer's, on an argument of the tool region that the decoder collected. *)
Definition arguments_refused (d : Decoder) (e : exn) : Prop :=
  serializer_throws e /\ exists contract, dc_contract d = Some contract /\
    parse_qwen_tool_call_output json_accept encode_json_string (dc_tool_region d) (dc_max_tool_name_length d) contract = Throw e.

Lemma finish_ok d :
  dc_finished d = false ->
  let '(d', r) := finish json_accept encode_json_string d in
  dc_finished d' = true /\ throws_only (arguments_refused d') r.
Proof.
  intros Hd. unfold finish. unfold_M. rewrite Hd. destruct (dc_contract d) as [contract|] eqn:Hc; [|by split].
  pose proof (parse_output_throws (dc_tool_region d) (dc_max_tool_name_length d) contract) as Hp.
  destruct (parse_qwen_tool_call_output _ _ _ _ _) as [o|e] eqn:E.
  - by destruct (dc_saw_tool_marker d && _).
  - split; [done|]. split; [done|]. by exists contract.
Qed.

(** The deltas keep their channels. *)
Lemma feed_deltas_ok out : forall i,
  dc_finished (im_tool_call_output i) = false ->
  exists d' out', feed_deltas i out (Some i) = (Some (set_tool_output i d'), Ok (set_tool_output i d', out')) /\
    dc_finished d' = false /\ dl_channel <$> out' = dl_channel <$> out.
Proof.
  induction out as [|d out IH]; intros i Hi; cbn [feed_deltas].
  { exists (im_tool_call_output i), []. by destruct i. }
  case_decide as Hc.
  - destruct (feed_finished (dl_text d) (im_tool_call_output i) Hi) as (d1 & visible & E & Hd1).
    unfold on_tool_output. rewrite E. unfold_M.
    destruct (IH (set_tool_output i d1) Hd1) as (d2 & out' & E2 & Hd2 & Hch). cbn [fst snd]. unfold_M.
    rewrite E2. exists d2, (mkDelta Content visible :: out'). split; [done|]. split; [done|].
    cbn. by rewrite Hch, Hc.
  - destruct (IH i Hi) as (d2 & out' & E2 & Hd2 & Hch). unfold_M. rewrite E2. exists d2, (d :: out').
    split; [done|]. split; [done|]. cbn. by rewrite Hch.
Qed.

Lemma append_terminal_ok out text :
  length out <> 2%nat \/ Content ∈ dl_channel <$> out -> exists out', append_terminal out text = Ok out'.
Proof.
  intros H. unfold append_terminal. destruct text as [|c text]; [by eexists|].
  destruct (append_last_content out (c :: text)) as [o|] eqn:E; [by eexists|]. destruct H as [H|H].
  - unfold push_back. rewrite bool_decide_eq_false_2 by done. by eexists.
  - exfalso. clear -E H. induction out as [|d out IH]; cbn in *; [by apply not_elem_of_nil in H|].
    destruct (append_last_content out (c :: text)); [done|]. case_decide as Hc; [done|].
    apply elem_of_cons in H as [H|H]; [done|by apply IH].
Qed.
End commits.

(** ** Sessions *)

Section sessions.
Context (decoded_token : Z -> result (bytes * bool)).
Context (json_accept : bytes -> bool) (encode_json_string : bytes -> result bytes).

(** What holds of a session between calls. *)
Record session_ok (i : Impl) : Prop := {
  ok_strings : Z.of_nat (length (sp_strings (im_policy i))) <= u32_mod;
  ok_thinking : thinking_settled (terminal (im_state i)) (im_semantic i);
  ok_order : order_ok (im_policy i) (matched_stop_order (im_state i));
  ok_unmatched : terminal (im_state i) = false -> matched_stop_order (im_state i) = None;
  ok_decoder : dc_finished (im_tool_call_output i) = true -> terminal (im_state i) = true;
  ok_preview : forall p, im_preview i = Some p -> terminal (im_state i) = false /\ settled (im_policy i) p;
}.

Lemma make_impl_ok policy raw preserve maximum starts budget control contract i :
  Z.of_nat (length (sp_strings policy)) <= u32_mod -> (forall b, budget = Some b -> 0 <= b <= u32_max) ->
  make_impl policy raw preserve maximum starts budget control contract = Ok i -> session_ok i.
Proof.
  intros Hn Hb H. unfold make_impl in H. apply bind_Ok in H as (u & Hz & [= <-]).
  apply throw_if_Ok in Hz. apply bool_decide_eq_false in Hz. constructor; cbn; [done| |by intros o|done|done|done].
  split; [split; [|split; [|done]]|split; [done|]].
  - intros b Hbb. cbn in Hbb |- *. specialize (Hb b Hbb). assert (b <> 0) by congruence. lia.
  - cbn. rewrite andb_true_iff, bool_decide_eq_true. by intros [_ ?].
  - cbn. rewrite andb_true_iff, bool_decide_eq_true. intros (_ & [_ [b Hbb]] & Hz'). rewrite Hz' in Hz. done.
Qed.

Lemma ready_ok i d p :
  session_ok i -> terminal (im_state i) = false -> decided (im_policy i) d p -> session_ok (set_preview i (Some p)).
Proof.
  intros [? ? ? ? ? ?] Hterm Hd. constructor; try done. intros q [= <-]. split; [done|]. by apply Hd.
Qed.

Lemma check_preview_ok s i :
  check_preview s = Ok i -> s = Some i /\ terminal (im_state i) = false /\ im_preview i = None.
Proof.
  unfold check_preview. destruct s as [j|]; [|done]. intros H. apply bind_Ok in H as (? & H1%throw_if_Ok & H).
  apply bind_Ok in H as (? & H2%throw_if_Ok & [= <-]). split; [done|]. split; [done|].
  apply bool_decide_eq_false in H2. destruct (im_preview j); [|done]. destruct H2. by eexists.
Qed.

(** A preview call keeps the session, or readies a decided preview. *)
Definition preview_result (i : Impl) (r : Session * result OutputDecision) : Prop :=
  match r.2 with
  | Throw _ => r.1 = Some i
  | Ok d => exists p, r.1 = Some (set_preview i (Some p)) /\ terminal (im_state i) = false /\
      decided (im_policy i) d p
  end.

Lemma preview_result_ok i r : session_ok i -> preview_result i r -> exists i', r.1 = Some i' /\ session_ok i'.
Proof.
  intros Hi. unfold preview_result. destruct r as [s [d|e]]; cbn; [|by exists i].
  intros (p & -> & Hterm & Hd). exists (set_preview i (Some p)). split; [done|]. by eapply ready_ok.
Qed.

Lemma preview_model_result i tokens total limit :
  session_ok i -> total <= u32_max -> preview_result i (preview_model decoded_token tokens total limit (Some i)).
Proof.
  intros Hi Htotal. unfold preview_model, ready. unfold_M.
  destruct (check_preview (Some i)) as [j|e] eqn:Ec; [|done].
  apply check_preview_ok in Ec as ([= <-] & Hterm & _).
  destruct (se_control_pending (im_semantic i)) eqn:Ep; [done|]. case_bool_decide as Hne; [done|].
  destruct (total <? Z.of_nat (length tokens)) eqn:El; [done|]. destruct (negb _ && negb _) eqn:Elim; [done|].
  pose proof (preview_round_ok decoded_token i (ok_strings i Hi) tokens total limit) as Hr.
  pose proof (ok_thinking i Hi) as Hth. rewrite Hterm in Hth. specialize (Hr Hth Ep Hterm).
  assert (limit = OutputLimit \/ limit = ContextCapacity) as Hlimit.
  { apply andb_false_iff in Elim as [E|E]; apply negb_false_iff, bool_decide_eq_true in E; auto. }
  specialize (Hr (ok_unmatched i Hi Hterm) Hne ltac:(lia) Htotal Hlimit).
  destruct (preview_round _ _ _ _ _) as [[d p]|e]; [|done]. exists p. split; [done|]. by split; [|apply Hr].
Qed.

Lemma preview_control_result i tokens total :
  session_ok i -> total <= u32_max -> preview_result i (preview_control decoded_token tokens total (Some i)).
Proof.
  intros Hi Htotal. unfold preview_control, ready. unfold_M.
  destruct (check_preview (Some i)) as [j|e] eqn:Ec; [|done].
  apply check_preview_ok in Ec as ([= <-] & Hterm & _).
  destruct (bool_decide _ || _); [done|]. destruct (total <? Z.of_nat (length tokens)) eqn:El; [done|].
  pose proof (control_round_ok decoded_token i (ok_strings i Hi) tokens (proj1 (ok_thinking i Hi)) Hterm
    (ok_unmatched i Hi Hterm) ltac:(lia)) as Hr.
  destruct (control_round _ _ _) as [[d p]|e]; [|done]. exists p. by split.
Qed.

Lemma preview_terminal_result i reason :
  session_ok i -> preview_result i (preview_terminal reason (Some i)).
Proof.
  intros Hi. unfold preview_terminal, ready. unfold_M.
  destruct (check_preview (Some i)) as [j|e] eqn:Ec; [|done].
  apply check_preview_ok in Ec as ([= <-] & Hterm & _).
  destruct (_ || _ || _) eqn:Er; [done|].
  pose proof (terminalize_ok (im_policy i) 0 True (mkFeed (im_state i) [] None) (ok_strings i Hi)) as Ht.
  specialize (Ht ltac:(by exists [], []) eq_refl). cbn [begin_preview pv_state pv_output].
  destruct (terminalize _ _ _) as [f|e]; [|by destruct Ht].
  destruct Ht as (Tt & Ot & Mt). eexists. split; [done|]. split; [done|].
  cbn [fd_state] in Mt. rewrite (ok_unmatched i Hi Hterm) in Mt.
  split; [split; [|split; [done|split; [cbn; rewrite Mt; by intros o|done]]]|].
  - cbn. split; [apply (ok_thinking i Hi)|]. cbn. rewrite Tt. by split; [|intros [? _]].
  - split; [by intros k|]. cbn. unfold finished_decision. cbn. rewrite Tt.
    split; [|done]. apply orb_false_iff in Er as [Er _]. apply orb_false_iff in Er as [Er _]. by rewrite Er.
Qed.

(** A readied preview is installed whole; only the JSON serialization of tool arguments can throw. *)
Lemma commit_result i p :
  session_ok i -> im_preview i = Some p ->
  let '(s', r) := commit_preview json_accept encode_json_string (Some i) in
  exists i', s' = Some i' /\ session_ok i' /\ im_preview i' = None /\ im_state i' = pv_state p /\
    im_semantic i' = pv_semantic p /\
    throws_only (fun e => terminal (im_state i') = true /\
      arguments_refused json_accept encode_json_string (im_tool_call_output i') e) r.
Proof.
  intros Hi Hp. destruct (ok_preview i Hi p Hp) as (Hterm & Hth & (x & y & Hout & _) & Hord & Hun).
  assert (dc_finished (im_tool_call_output i) = false) as Hdec.
  { destruct (dc_finished (im_tool_call_output i)) eqn:E; [|done]. by rewrite (ok_decoder i Hi E) in Hterm. }
  unfold commit_preview. unfold_M. rewrite Hp.
  destruct (feed_deltas_ok (pv_output p) (install i p) Hdec) as (d1 & out & E & Hd1 & Hch). unfold_M. rewrite E.
  cbn [fst snd set_tool_output install im_state].
  assert (forall d calls diag, (dc_finished d = true -> terminal (pv_state p) = true) ->
    session_ok (set_tool_calls (set_tool_output (install i p) d) calls diag)) as Hok
    by (intros; constructor; cbn; done || apply Hi).
  assert (forall d, (dc_finished d = true -> terminal (pv_state p) = true) ->
    session_ok (set_tool_output (install i p) d)) as Hok'
    by (intros; constructor; cbn; done || apply Hi).
  destruct (terminal (pv_state p)) eqn:Et.
  - unfold on_tool_output. cbn [set_tool_output install im_tool_call_output].
    pose proof (finish_ok json_accept encode_json_string d1 Hd1) as Hf.
    destruct (finish json_accept encode_json_string d1) as [d2 r]. destruct Hf as [Hd2 Hf]. unfold_M.
    destruct r as [t|e]; cbn [fst snd].
    + eexists. split; [done|]. split; [by apply (Hok d2)|]. split; [done|]. split; [done|]. split; [done|].
      assert (length out <> 2%nat \/ Content ∈ dl_channel <$> out) as Hout2; [destruct y as [|cy y]|].
      * left. rewrite <- (length_fmap dl_channel out), Hch, length_fmap, Hout. destruct x; cbn; lia.
      * right. rewrite Hch, Hout, fmap_app. apply elem_of_app. right. cbn. left.
      * by destruct (append_terminal_ok out (tm_content t) Hout2) as [o ->].
    + eexists. split; [done|]. split; [by apply (Hok' d2)|]. by repeat (split; [done|]).
  - eexists. split; [done|]. split; [apply (Hok' d1); congruence|]. split; [done|]. split; [done|]. by split.
Qed.

(** ** Every sequence of calls *)

Inductive Call :=
  | CallModel (tokens : list Z) (total_budget_remaining : Z) (limit_reason : FinishReason)
  | CallControl (tokens : list Z) (total_budget_remaining : Z)
  | CallTerminal (reason : FinishReason)
  | CallCommit
  | CallTake.

(** The session a call leaves; a commit without a preview ends the process. *)
Definition run_call (c : Call) (s : Session) : Session :=
  match c with
  | CallModel tokens total limit => (preview_model decoded_token tokens total limit s).1
  | CallControl tokens total => (preview_control decoded_token tokens total s).1
  | CallTerminal reason => (preview_terminal reason s).1
  | CallCommit => (commit_preview json_accept encode_json_string s).1
  | CallTake => (take_tool_calls s).1
  end.

(** The remaining budget is a 32-bit argument. *)
Definition call_wf (c : Call) : Prop :=
  match c with
  | CallModel _ total _ | CallControl _ total => 0 <= total <= u32_max
  | _ => True
  end.

(** The sessions a caller can reach, with exceptions caught anywhere. *)
Inductive reachable : Session -> Prop :=
  | reachable_new policy raw preserve maximum starts budget control contract i :
      Z.of_nat (length (sp_strings policy)) <= u32_mod -> (forall b, budget = Some b -> 0 <= b <= u32_max) ->
      make_impl policy raw preserve maximum starts budget control contract = Ok i -> reachable (Some i)
  | reachable_call c s : reachable s -> call_wf c -> reachable (run_call c s).

Lemma reachable_ok s : reachable s -> exists i, s = Some i /\ session_ok i.
Proof.
  induction 1 as [policy raw preserve maximum starts budget control contract i Hn Hb Hi|c s _ (i & -> & Hi) Hc].
  - exists i. split; [done|]. by eapply make_impl_ok.
  - destruct c as [tokens total limit|tokens total|reason| |]; cbn [run_call call_wf] in *.
    + apply (preview_result_ok i); [done|]. apply preview_model_result; [done|lia].
    + apply (preview_result_ok i); [done|]. apply preview_control_result; [done|lia].
    + apply (preview_result_ok i); [done|]. by apply preview_terminal_result.
    + destruct (im_preview i) as [p|] eqn:Ep.
      * pose proof (commit_result i p Hi Ep) as H. destruct (commit_preview _ _ _) as [s' r].
        destruct H as (i' & -> & Hi' & _). by exists i'.
      * unfold commit_preview. unfold_M. rewrite Ep. by exists i.
    + exists (set_tool_calls i [] (im_tool_call_parse i)). split; [done|]. destruct Hi. by constructor.
Qed.

(** C39: the thinking budget is never exceeded and control is asked for exactly when it is used up.
    For every session and every sequence of calls, exceptions included, the counted model tokens stay
    within the configured budget; while the session goes on, the model may sample no further token
    exactly when target control is pending, which is what the scheduler's membership builders assume
    of a decode-ready request; and the matched stop string can always be read back. *)
Theorem session_budget_respected s :
  reachable s ->
  exists i, s = Some i /\
    (forall b, configured_budget (thinking_stats s) = Some b -> 0 <= model_thinking_tokens (thinking_stats s) <= b) /\
    (terminal (im_state i) = false -> forall n, 0 < n <= u32_max ->
       (Scheduler.model_token_budget_remaining s n = 0 <-> se_control_pending (im_semantic i) = true)) /\
    is_ok (matched_stop_string s) = true.
Proof.
  intros (i & -> & Hi)%reachable_ok. exists i. split; [done|].
  destruct (ok_thinking i Hi) as [(H1 & H2 & H3) Hpend]. split; [intros b Hb; by destruct (H1 b Hb)|]. split.
  - intros Hterm n Hn. rewrite Hpend. cbn. rewrite Hterm.
    destruct (se_budget (im_semantic i)) as [b|] eqn:Eb; [|split; [lia|by intros (_ & _ & ?)]].
    destruct (H1 b eq_refl) as [Hbr Htr].
    destruct (se_in_reasoning (im_semantic i)) eqn:Er; cbn [negb orb]; [|split; [lia|by intros (_ & ? & _)]].
    destruct (se_applied (im_semantic i)) eqn:Ea; [by specialize (H3 eq_refl)|].
    destruct (se_control_pending (im_semantic i)) eqn:Ec; cbn [orb];
      [split; [intros _; by destruct (proj1 Hpend eq_refl) as (_ & ? & ?)|done]|].
    destruct (Z.leb_spec b (se_model_thinking_tokens (im_semantic i))) as [Hle|Hlt].
    + split; [|done]. intros _. split; [done|]. split; [done|]. f_equal. lia.
    + rewrite w32_small by lia. split; [lia|]. intros (_ & _ & [= ->]). lia.
  - cbn. destruct (matched_stop_order (im_state i)) as [o|] eqn:Eo; [|done].
    pose proof (ok_order i Hi o Eo) as Ho.
    destruct (lookup_lt_is_Some_2 (sp_strings (im_policy i)) (Z.to_nat o) ltac:(lia)) as [stop ->]. done.
Qed.

(** C38: licensed rounds meet the engine's contract. In every reachable session that is neither
    finished nor waiting for control, a non-empty round of decodable tokens no longer than
    [model_token_budget_remaining] is previewed without an exception, the decision passes every
    check the engine makes of it, and committing it installs a session that is finished exactly when
    the decision says so and has control pending exactly when the decision asks for it.  Nothing is
    assumed of the JSON library: the commit returns its output, unless the round finishes the session
    and the library refuses to serialize an argument of the generated tool call (as it does for a
    string that is not valid UTF-8); the exception is then the library's own, thrown for the tool
    region that the session collected, and the finished session is installed all the same. *)
Theorem licensed_round_accepted i tokens total limit :
  reachable (Some i) -> terminal (im_state i) = false -> im_preview i = None ->
  se_control_pending (im_semantic i) = false -> tokens <> [] -> total <= u32_max ->
  Z.of_nat (length tokens) <= model_token_budget_remaining (Some i) total ->
  limit = OutputLimit \/ limit = ContextCapacity -> Forall (decodable decoded_token) tokens ->
  exists d p i' r,
    preview_model decoded_token tokens total limit (Some i) = (Some (set_preview i (Some p)), Ok d) /\
    decision_rejected (Z.of_nat (length tokens)) d = false /\
    commit_preview json_accept encode_json_string (Some (set_preview i (Some p))) = (Some i', r) /\
    terminal (im_state i') = finished_decision d /\
    (se_control_pending (im_semantic i') = true <-> continuation d = ApplyTargetControl) /\
    match r with
    | Ok _ => True
    | Throw e => finished_decision d = true /\
        arguments_refused json_accept encode_json_string (im_tool_call_output i') e
    end.
Proof.
  intros (j & [= <-] & Hi)%reachable_ok Hterm Hprev Hc Hne Htotal Hlen Hlimit Hdec.
  assert (licensed (im_semantic i) (Z.of_nat (length tokens)) /\ Z.of_nat (length tokens) <= total) as [Hlic Hle].
  { destruct (ok_thinking i Hi) as [(H1 & H2 & H3) _]. cbn in Hlen. split.
    - intros b Hr Hb. destruct (H1 b Hb). rewrite Hb, Hr, Hc in Hlen. cbn [negb orb] in Hlen.
      destruct (se_applied _) eqn:Ea; [by rewrite H3 in Hr|]. cbn [orb] in Hlen.
      destruct (b <=? _) eqn:El; [destruct tokens; [done|cbn in Hlen; lia]|]. rewrite w32_small in Hlen by lia. lia.
    - destruct (se_budget _); [|lia]. destruct (_ || _); [lia|]. destruct (_ || _); [|lia].
      destruct tokens; [done|cbn in Hlen; lia]. }
  pose proof (ok_thinking i Hi) as Hth. rewrite Hterm in Hth.
  pose proof (preview_round_ok decoded_token i (ok_strings i Hi) tokens total limit Hth Hc Hterm
    (ok_unmatched i Hi Hterm) Hne Hle Htotal Hlimit) as Hr.
  destruct (preview_round decoded_token i tokens total limit) as [[d p]|e] eqn:Er; [|by destruct Hr].
  destruct Hr as [Hrej Hd]. cbn [fst snd] in Hrej, Hd.
  assert (session_ok (set_preview i (Some p))) as Hready by (by eapply ready_ok).
  pose proof (commit_result (set_preview i (Some p)) p Hready eq_refl) as Hcommit.
  destruct (commit_preview json_accept encode_json_string (Some (set_preview i (Some p)))) as [s' r] eqn:Ecommit.
  destruct Hcommit as (i' & -> & _ & _ & Hst & Hse & Hout).
  exists d, p, i', r. split.
  - unfold preview_model, ready. unfold_M. unfold check_preview. rewrite Hterm, Hprev. unfold_M.
    rewrite (bool_decide_eq_false_2 (is_Some None)) by (by intros [? [=]]). rewrite Hc.
    rewrite (bool_decide_eq_false_2 (tokens = [])) by done.
    destruct (Z.ltb_spec total (Z.of_nat (length tokens))); [lia|].
    assert (negb (bool_decide (limit = OutputLimit)) && negb (bool_decide (limit = ContextCapacity)) = false) as ->
      by (by destruct Hlimit as [->| ->]).
    by rewrite Er.
  - split; [done|]. split; [done|]. destruct Hd as (_ & _ & Hfin & Hcont). rewrite Hst in Hout |- *.
    rewrite Hse. split; [done|]. split; [done|]. destruct r as [o|e]; [done|]. destruct Hout. split; [congruence|done].
Qed.
End sessions.

(** ** A concrete session *)

Definition demo_token (t : Z) : result (bytes * bool) := Ok (if t =? 0 then lit "</think>" else lit "a", false).
Definition demo_encode (b : bytes) : result bytes := Ok b.
Definition demo_impl : result Impl := make_impl (mkPolicy [] [] false) false false 64 true (Some 2) (Some [0]) None.

(** A session that has used up a budget of two thinking tokens. *)
Definition demo_session : Session :=
  match demo_impl with
  | Ok i => run_call demo_token (fun _ => false) demo_encode CallCommit
              (run_call demo_token (fun _ => false) demo_encode (CallModel [7; 7] 10 OutputLimit) (Some i))
  | Throw _ => None
  end.

Lemma demo_start i : demo_impl = Ok i -> reachable demo_token (fun _ => false) demo_encode (Some i).
Proof.
  intros H. eapply (reachable_new _ _ _ (mkPolicy [] [] false)); [| |exact H]; [vm_compute; discriminate|].
  intros b [= <-]. lia.
Qed.

Lemma session_budget_respected_witness :
  reachable demo_token (fun _ => false) demo_encode demo_session /\
  exists i, demo_session = Some i /\
    (forall b, configured_budget (thinking_stats demo_session) = Some b ->
       0 <= model_thinking_tokens (thinking_stats demo_session) <= b) /\
    (terminal (im_state i) = false -> forall n, 0 < n <= u32_max ->
       (Scheduler.model_token_budget_remaining demo_session n = 0 <-> se_control_pending (im_semantic i) = true)) /\
    is_ok (matched_stop_string demo_session) = true.
Proof.
  assert (reachable demo_token (fun _ => false) demo_encode demo_session) as Hr.
  { unfold demo_session. destruct demo_impl as [i|e] eqn:E; [|vm_compute in E; discriminate].
    apply reachable_call; [|exact I]. apply reachable_call; [by apply demo_start|]. split; vm_compute; discriminate. }
  split; [exact Hr|]. exact (session_budget_respected demo_token (fun _ => false) demo_encode demo_session Hr).
Defined.

Lemma licensed_round_accepted_witness :
  exists i, demo_impl = Ok i /\ reachable demo_token (fun _ => false) demo_encode (Some i) /\
  exists d p i' r,
    preview_model demo_token [7; 0] 10 OutputLimit (Some i) = (Some (set_preview i (Some p)), Ok d) /\
    decision_rejected 2 d = false /\
    commit_preview (fun _ => false) demo_encode (Some (set_preview i (Some p))) = (Some i', r) /\
    terminal (im_state i') = finished_decision d /\
    (se_control_pending (im_semantic i') = true <-> continuation d = ApplyTargetControl) /\
    match r with
    | Ok _ => True
    | Throw e => finished_decision d = true /\ arguments_refused (fun _ => false) demo_encode (im_tool_call_output i') e
    end.
Proof.
  assert (exists i, demo_impl = Ok i /\ terminal (im_state i) = false /\ im_preview i = None /\
    se_control_pending (im_semantic i) = false /\ 2 <= model_token_budget_remaining (Some i) 10) as
    (i & Ei & H1 & H2 & H3 & H4) by (eexists; split; [vm_compute; reflexivity|]; repeat split; vm_compute; discriminate).
  exists i. split; [exact Ei|]. split; [exact (demo_start i Ei)|].
  apply (licensed_round_accepted demo_token (fun _ => false) demo_encode i [7; 0] 10 OutputLimit);
    [exact (demo_start i Ei)|exact H1|exact H2|exact H3|discriminate|vm_compute; discriminate|exact H4|left; reflexivity|].
  repeat constructor; eexists; reflexivity.
Defined.
