(* ===== verification/ContextTypes.v ===== *)
(** * Context cache: checkpoints, owners, results and statistics

    The values that the context cache and the model program exchange: checkpoint summaries and their
    keys, logical owners and capabilities, and the results of resource transactions
    (runtime/contract/resources.h, runtime/contract/execution.h, models/qwen3_5/program/program.h,
    models/qwen3_5/frontend/prepared_prompt.h, include/ninfer/types.h).  A program's handle is an
    opaque number; the default handle of a moved-from object does not occur. *)

From Stdlib Require Import Floats.SpecFloat.
From S2P Require Import Prelude Binary64.
Open Scope Z_scope.

Definition kMaximumConcurrency : Z := 8.
Definition kInvalidCatalogSlot : Z := u32_max.

(** ** Enumerations *)

Inductive ContextResourceClass := StateResource | MainKV | BackendKV.
Inductive ContextTransferDirection := DeviceToHost | HostToDevice | DeviceToDevice.
Inductive ContextTransactionStatus := TxInProgress | TxPublished | TxAborted.
Inductive ContextTransactionReserveStatus := ReserveReserved | ReserveAborted.
Inductive ContextTransactionKind := MaterializationKind | ActiveCaptureKind.
Inductive CheckpointKind := SessionEndpoint | TurnClosure | ResponseReplay | SharedStablePrefix | LongAnchor.
Inductive CheckpointScope := PrivateScope | SharedScope.
Inductive ReplicaResidency := DeviceOnly | HostOnly | BothReplicas.
Inductive RetentionClass := SharedStable | LiveSession | RecentPrivate | Disposable.
Inductive LogicalOwnerKind := PrivateContinuation | SharedPrefix.
Inductive PrivateSourceMode := Retain | ConsumeToActive.
Inductive VictimDisposition := VictimRetained | VictimEvicted.
Inductive FinishDisposition := FinishCatalogued | FinishReleased.
Inductive ConsumeStatus := Consumed | InvariantMismatch.
Inductive CommitDisposition := CommitActive | CommitFinishable | CommitCancelledReleased.
Inductive MaterializationStopReason :=
  | NoPressure | QueueExhausted | TargetBudget | ExpansionCapacity | TimeBudget | InsufficientExpectedGain | WorkBudget.

#[export] Instance ContextTransactionStatus_eq_dec : EqDecision ContextTransactionStatus.
Proof. solve_decision. Defined.
#[export] Instance ContextTransactionReserveStatus_eq_dec : EqDecision ContextTransactionReserveStatus.
Proof. solve_decision. Defined.
#[export] Instance CheckpointKind_eq_dec : EqDecision CheckpointKind.
Proof. solve_decision. Defined.
#[export] Instance CheckpointScope_eq_dec : EqDecision CheckpointScope.
Proof. solve_decision. Defined.
#[export] Instance ReplicaResidency_eq_dec : EqDecision ReplicaResidency.
Proof. solve_decision. Defined.
#[export] Instance RetentionClass_eq_dec : EqDecision RetentionClass.
Proof. solve_decision. Defined.
#[export] Instance LogicalOwnerKind_eq_dec : EqDecision LogicalOwnerKind.
Proof. solve_decision. Defined.
#[export] Instance PrivateSourceMode_eq_dec : EqDecision PrivateSourceMode.
Proof. solve_decision. Defined.
#[export] Instance VictimDisposition_eq_dec : EqDecision VictimDisposition.
Proof. solve_decision. Defined.
#[export] Instance FinishDisposition_eq_dec : EqDecision FinishDisposition.
Proof. solve_decision. Defined.
#[export] Instance ConsumeStatus_eq_dec : EqDecision ConsumeStatus.
Proof. solve_decision. Defined.
#[export] Instance MaterializationStopReason_eq_dec : EqDecision MaterializationStopReason.
Proof. solve_decision. Defined.

(** [SharedCandidateEvidence] is a set of bits in a [std::uint8_t]. *)
Definition SharedCandidateEvidence : Type := Z.
Definition NoEvidence : SharedCandidateEvidence := 0.
Definition ExplicitBoundary : SharedCandidateEvidence := 1.
Definition RequestedAutomatic : SharedCandidateEvidence := 2.
Definition DefaultAutomatic : SharedCandidateEvidence := 4.
Definition EngineStructural : SharedCandidateEvidence := 8.
Definition EngineObserved : SharedCandidateEvidence := 16.

Definition has_shared_candidate_evidence (value evidence : SharedCandidateEvidence) : bool :=
  negb (Z.land value evidence =? 0).

(** ** Checkpoints *)

(** A session name, in a fixed array of 256 bytes. *)
Record PreparedSessionKey := mkSessionKey { sk_size : Z; sk_bytes : list Z }.
#[export] Instance PreparedSessionKey_eq_dec : EqDecision PreparedSessionKey.
Proof. solve_decision. Defined.

Definition session_view (k : PreparedSessionKey) : list Z := take (Z.to_nat (sk_size k)) (sk_bytes k).

Record PrefixShortlistKey := mkShortlist { pk_low : Z; pk_high : Z; pk_frontier : Z; pk_identity_tag : Z }.
#[export] Instance PrefixShortlistKey_eq_dec : EqDecision PrefixShortlistKey.
Proof. solve_decision. Defined.

Record CheckpointRef := mkCheckpointRef { cr_kind : CheckpointKind; cr_frontier : Z; cr_ordinal : Z }.
#[export] Instance CheckpointRef_eq_dec : EqDecision CheckpointRef.
Proof. solve_decision. Defined.

Record TargetKVRequirement := mkKVRequirement {
  kr_main_frontier : Z; kr_backend_frontier : Z; kr_main_pages : Z; kr_backend_pages : Z }.
#[export] Instance TargetKVRequirement_eq_dec : EqDecision TargetKVRequirement.
Proof. solve_decision. Defined.

Record PrefillWork := mkPrefillWork {
  pw_chunks : Z; pw_tokens : Z; pw_attention_pairs : Z; pw_vision_items : Z; pw_vision_patches : Z }.
#[export] Instance PrefillWork_eq_dec : EqDecision PrefillWork.
Proof. solve_decision. Defined.

Record CheckpointSummary := mkCheckpoint {
  cp_ref : CheckpointRef;
  cp_scope : CheckpointScope;
  cp_shortlist_key : PrefixShortlistKey;
  cp_state_residency : ReplicaResidency;
  cp_required_kv : TargetKVRequirement;
  cp_rebuild_work : PrefillWork;
}.
#[export] Instance CheckpointSummary_eq_dec : EqDecision CheckpointSummary.
Proof. solve_decision. Defined.

Record ContinuationSummary := mkContinuation {
  cs_endpoint : option CheckpointSummary;
  cs_rewrite : option CheckpointSummary;
  cs_long_anchors : list CheckpointSummary;
  cs_active_references : Z;
}.
#[export] Instance ContinuationSummary_eq_dec : EqDecision ContinuationSummary.
Proof. solve_decision. Defined.

Record SharedPrefixSummary := mkSharedSummary { ss_checkpoint : CheckpointSummary; ss_active_references : Z }.
#[export] Instance SharedPrefixSummary_eq_dec : EqDecision SharedPrefixSummary.
Proof. solve_decision. Defined.

(** Value-initialized summaries. *)
Definition empty_continuation : ContinuationSummary := mkContinuation None None [] 0.
Definition empty_checkpoint : CheckpointSummary :=
  mkCheckpoint (mkCheckpointRef SessionEndpoint 0 0) PrivateScope (mkShortlist 0 0 0 0) DeviceOnly
    (mkKVRequirement 0 0 0 0) (mkPrefillWork 0 0 0 0 0).
Definition empty_shared : SharedPrefixSummary := mkSharedSummary empty_checkpoint 0.

(** ** Owners *)

Record LogicalOwnerKey := mkOwner { ok_kind : LogicalOwnerKind; ok_id : Z }.
#[export] Instance LogicalOwnerKey_eq_dec : EqDecision LogicalOwnerKey.
Proof. solve_decision. Defined.

Record CatalogCapability := mkCapability { cc_owner : LogicalOwnerKey; cc_slot : Z; cc_generation : Z }.
#[export] Instance CatalogCapability_eq_dec : EqDecision CatalogCapability.
Proof. solve_decision. Defined.

(** [PlanningOwnerId] and [PlanningCandidateId] hold one [std::uint32_t]. *)
Definition PlanningOwnerId : Type := Z.
Definition PlanningCandidateId : Type := Z.

Record PressureCheckpointOutcome := mkCheckpointOutcome {
  pco_owner : PlanningOwnerId; pco_checkpoint : CheckpointRef; pco_survives : bool }.
Record PressureOwnerOutcome := mkOwnerOutcome {
  poo_owner : PlanningOwnerId; poo_disposition : VictimDisposition; poo_degradation_units : Z;
  poo_dropped_checkpoints : Z }.

(** ** Results of resource transactions *)

Record ContextTransferObservation := mkTransferObservation {
  to_resource : ContextResourceClass; to_direction : ContextTransferDirection;
  to_units : Z; to_page_count : Z; to_elapsed_ns : Z }.

Record ContextOperationCounts := mkOperationCounts {
  oc_state_moves : Z; oc_state_forks : Z; oc_state_restores : Z; oc_pressure_spill_pages : Z;
  oc_partial_tail_cow_pages : Z; oc_historical_fork_hits : Z }.

Record MaterializationVictimResult := mkVictim {
  vr_owner : PlanningOwnerId; vr_disposition : VictimDisposition; vr_pressure_committed : bool;
  vr_final_summary : option ContinuationSummary }.
Record MaterializationSharedVictimResult := mkSharedVictim {
  sv_owner : PlanningOwnerId; sv_disposition : VictimDisposition; sv_pressure_committed : bool;
  sv_final_summary : option SharedPrefixSummary }.
Record MaterializationSourceResult := mkSourceResult {
  sr_mode : PrivateSourceMode; sr_final_summary : option ContinuationSummary }.
Record MaterializationSharedSourceResult := mkSharedSourceResult {
  ssr_final_summary : option SharedPrefixSummary }.

(** [published] holds the started sequence's handle. *)
Record MaterializationResult := mkMaterializationResult {
  mr_status : ContextTransactionStatus;
  mr_published : option Z;
  mr_source : option MaterializationSourceResult;
  mr_shared_source : option MaterializationSharedSourceResult;
  mr_victims : list MaterializationVictimResult;
  mr_shared_victims : list MaterializationSharedVictimResult;
  mr_transfer_observations : list ContextTransferObservation;
  mr_operations : ContextOperationCounts;
}.

Record SharedPrefixPublication := mkSharedPublication { sp_handle : Z; sp_summary : SharedPrefixSummary }.

Record ActiveCaptureResult := mkCaptureResult {
  ar_status : ContextTransactionStatus;
  ar_capacity_preparation_committed : bool;
  ar_active_summary : ContinuationSummary;
  ar_shared : option SharedPrefixPublication;
  ar_victims : list MaterializationVictimResult;
  ar_shared_victims : list MaterializationSharedVictimResult;
  ar_transfer_observations : list ContextTransferObservation;
  ar_operations : ContextOperationCounts;
}.

Inductive ContextTransactionProgress :=
  | ProgressInProgress
  | ProgressMaterialization (result : MaterializationResult)
  | ProgressActiveCapture (result : ActiveCaptureResult).

(** Timings and speculative statistics pass through unread. *)
Record FinishResult := mkFinish {
  fr_status : ConsumeStatus; fr_disposition : FinishDisposition; fr_summary : ContinuationSummary;
  fr_continuation : option Z }.
Record AbortResult := mkAbort { br_status : ConsumeStatus }.
Record CommitResult := mkCommitResult { ct_rows : list CommitDisposition; ct_row_count : Z }.
Record DiscardResult := mkDiscard { dr_status : ConsumeStatus; dr_row_count : Z }.

Record MaterializationDiagnostics := mkDiagnostics {
  md_stop_reason : MaterializationStopReason; md_budget_exhausted : bool; md_selected_maximal_fallback : bool }.

(** ** Statistics

    The counters that the resource manager keeps in [context_stats_] (a part of [RuntimeStats]) and
    their updates (runtime/engine/context_cache/resource_manager.h).  They feed reports only: no
    decision of the manager reads them.  The per-direction counters of a resource class are grouped. *)

Record DirectionStats := mkDirection { ds_count : Z; ds_bytes : Z; ds_seconds : spec_float }.
Record ResourceStats := mkResource { rs_d2h : DirectionStats; rs_h2d : DirectionStats; rs_d2d : DirectionStats }.

Record ContextStats := mkStats {
  st_state : ResourceStats;
  st_main_kv : ResourceStats;
  st_backend_kv : ResourceStats;
  st_actual_transfer_seconds : spec_float;
  st_operations : ContextOperationCounts;
  st_private_owners_degraded : Z;
  st_private_owners_evicted : Z;
  st_shared_owners_degraded : Z;
  st_shared_owners_evicted : Z;
  st_checkpoints_dropped : Z;
  st_searches : Z;
  st_search_budget_exhaustions : Z;
  st_maximal_fallback_selections : Z;
}.

Definition zero_direction : DirectionStats := mkDirection 0 0 (f64_of_Z 0).
Definition zero_resource : ResourceStats := mkResource zero_direction zero_direction zero_direction.
Definition zero_stats : ContextStats :=
  mkStats zero_resource zero_resource zero_resource (f64_of_Z 0) (mkOperationCounts 0 0 0 0 0 0) 0 0 0 0 0 0 0 0.

Definition saturating_increment (value : Z) : Z := if negb (value =? u64_max) then w64 (value + 1) else value.

(** [1.0e-9]: the quotient of two exact doubles is rounded like the literal. *)
Definition nanosecond : spec_float := f64_div (f64_of_Z 1) (f64_of_Z 1000000000).
Definition transfer_seconds (o : ContextTransferObservation) : spec_float :=
  f64_mul (f64_of_Z (to_elapsed_ns o)) nanosecond.

Definition add_direction (count : Z) (o : ContextTransferObservation) (d : DirectionStats) : DirectionStats :=
  mkDirection (w64 (ds_count d + count)) (w64 (ds_bytes d + to_units o)) (f64_add (ds_seconds d) (transfer_seconds o)).

Definition on_direction (f : DirectionStats -> DirectionStats) (d : ContextTransferDirection) (r : ResourceStats) : ResourceStats :=
  match d with
  | DeviceToHost => mkResource (f (rs_d2h r)) (rs_h2d r) (rs_d2d r)
  | HostToDevice => mkResource (rs_d2h r) (f (rs_h2d r)) (rs_d2d r)
  | DeviceToDevice => mkResource (rs_d2h r) (rs_h2d r) (f (rs_d2d r))
  end.

(** [observe_kv_transfer]. *)
Definition observe_kv_transfer (o : ContextTransferObservation) (r : ResourceStats) : ResourceStats :=
  on_direction (add_direction (to_page_count o) o) (to_direction o) r.

Definition set_transfers (state main backend : ResourceStats) (seconds : spec_float) (s : ContextStats) : ContextStats :=
  mkStats state main backend seconds (st_operations s) (st_private_owners_degraded s) (st_private_owners_evicted s)
    (st_shared_owners_degraded s) (st_shared_owners_evicted s) (st_checkpoints_dropped s) (st_searches s)
    (st_search_budget_exhaustions s) (st_maximal_fallback_selections s).

Definition observe_transfer (s : ContextStats) (o : ContextTransferObservation) : ContextStats :=
  let seconds := f64_add (st_actual_transfer_seconds s) (transfer_seconds o) in
  match to_resource o with
  | StateResource => set_transfers (on_direction (add_direction 1 o) (to_direction o) (st_state s)) (st_main_kv s) (st_backend_kv s) seconds s
  | MainKV => set_transfers (st_state s) (observe_kv_transfer o (st_main_kv s)) (st_backend_kv s) seconds s
  | BackendKV => set_transfers (st_state s) (st_main_kv s) (observe_kv_transfer o (st_backend_kv s)) seconds s
  end.

Definition observe_transfers (os : list ContextTransferObservation) (s : ContextStats) : ContextStats :=
  foldl observe_transfer s os.

Definition observe_operations (o : ContextOperationCounts) (s : ContextStats) : ContextStats :=
  let c := st_operations s in
  mkStats (st_state s) (st_main_kv s) (st_backend_kv s) (st_actual_transfer_seconds s)
    (mkOperationCounts (w64 (oc_state_moves c + oc_state_moves o)) (w64 (oc_state_forks c + oc_state_forks o))
       (w64 (oc_state_restores c + oc_state_restores o))
       (w64 (oc_pressure_spill_pages c + oc_pressure_spill_pages o))
       (w64 (oc_partial_tail_cow_pages c + oc_partial_tail_cow_pages o))
       (w64 (oc_historical_fork_hits c + oc_historical_fork_hits o)))
    (st_private_owners_degraded s) (st_private_owners_evicted s) (st_shared_owners_degraded s)
    (st_shared_owners_evicted s) (st_checkpoints_dropped s) (st_searches s) (st_search_budget_exhaustions s)
    (st_maximal_fallback_selections s).

Definition set_pressure (private_degraded private_evicted shared_degraded shared_evicted dropped : Z) (s : ContextStats) : ContextStats :=
  mkStats (st_state s) (st_main_kv s) (st_backend_kv s) (st_actual_transfer_seconds s) (st_operations s)
    private_degraded private_evicted shared_degraded shared_evicted dropped (st_searches s)
    (st_search_budget_exhaustions s) (st_maximal_fallback_selections s).

Definition record_checkpoint_drops (count : Z) (s : ContextStats) : ContextStats :=
  set_pressure (st_private_owners_degraded s) (st_private_owners_evicted s) (st_shared_owners_degraded s)
    (st_shared_owners_evicted s) (Nat.iter (Z.to_nat count) saturating_increment (st_checkpoints_dropped s)) s.

(** What a pressure action adds: an owner that lost checkpoints, or that went away. *)
Definition count_private_evicted (s : ContextStats) : ContextStats :=
  set_pressure (st_private_owners_degraded s) (saturating_increment (st_private_owners_evicted s))
    (st_shared_owners_degraded s) (st_shared_owners_evicted s) (st_checkpoints_dropped s) s.
Definition count_private_degraded (s : ContextStats) : ContextStats :=
  set_pressure (saturating_increment (st_private_owners_degraded s)) (st_private_owners_evicted s)
    (st_shared_owners_degraded s) (st_shared_owners_evicted s) (st_checkpoints_dropped s) s.
Definition count_shared_evicted (s : ContextStats) : ContextStats :=
  set_pressure (st_private_owners_degraded s) (st_private_owners_evicted s)
    (st_shared_owners_degraded s) (saturating_increment (st_shared_owners_evicted s)) (st_checkpoints_dropped s) s.
Definition count_shared_degraded (s : ContextStats) : ContextStats :=
  set_pressure (st_private_owners_degraded s) (st_private_owners_evicted s)
    (saturating_increment (st_shared_owners_degraded s)) (st_shared_owners_evicted s) (st_checkpoints_dropped s) s.

Definition observe_planner_diagnostics (d : MaterializationDiagnostics) (s : ContextStats) : ContextStats :=
  let increment_if (b : bool) (z : Z) := if b then saturating_increment z else z in
  mkStats (st_state s) (st_main_kv s) (st_backend_kv s) (st_actual_transfer_seconds s) (st_operations s)
    (st_private_owners_degraded s) (st_private_owners_evicted s) (st_shared_owners_degraded s)
    (st_shared_owners_evicted s) (st_checkpoints_dropped s)
    (increment_if (negb (bool_decide (md_stop_reason d = NoPressure))) (st_searches s))
    (increment_if (md_budget_exhausted d) (st_search_budget_exhaustions s))
    (increment_if (md_selected_maximal_fallback d) (st_maximal_fallback_selections s)).
