(* ===== verification/SessionIndex.v ===== *)
(** * Context cache: the session index

    [session_index_] of [ResourceManager] (runtime/engine/context_cache/resource_manager.h): an
    open-addressed table with linear probing and tombstones that maps a session's name to the
    catalog slot of its newest published continuation.  The probe sequence of a key visits every cell
    once, from the key's hash on.  The theorems show that the table refines a finite map, that its
    probes find every binding, and that publishing fails only when every cell is bound to another
    name. *)

From stdpp Require Import gmap.
From S2P Require Import Prelude ContextTypes.
Open Scope Z_scope.

(** ** Definitions *)

Inductive SessionIndexState := SessionEmpty | SessionOccupied | SessionDeleted.
#[export] Instance SessionIndexState_eq_dec : EqDecision SessionIndexState.
Proof. solve_decision. Defined.

Record SessionIndexEntry := mkSession {
  si_state : SessionIndexState;
  si_key : PreparedSessionKey;
  si_slot : Z;
  si_owner_id : Z;
  si_revision : Z;
  si_publication_order : Z;
}.

Definition empty_session : SessionIndexEntry :=
  mkSession SessionEmpty (mkSessionKey 0 (replicate 256 0)) kInvalidCatalogSlot 0 0 0.

(** FNV-1a over the name's bytes. *)
Definition session_hash (key : PreparedSessionKey) : Z :=
  foldl (fun hash value => w64 (Z.lxor hash value * 1099511628211)) 1469598103934665603 (session_view key).

Section cells.
Implicit Types (index : list SessionIndexEntry) (key : PreparedSessionKey).

Definition occupied_by key (e : SessionIndexEntry) : bool :=
  bool_decide (si_state e = SessionOccupied) && bool_decide (si_key e = key).

(** The cells [(begin + probe) % size], in the order of the probes. *)
Definition probe_cells index key : list nat :=
  let size := Z.of_nat (length index) in
  (fun probe => Z.to_nat ((session_hash key mod size + Z.of_nat probe) mod size)) <$> seq 0 (length index).

Fixpoint find_in index key (cells : list nat) : option nat :=
  match cells with
  | [] => None
  | cell :: cells =>
      match index !! cell with
      | None => None
      | Some entry =>
          if bool_decide (si_state entry = SessionEmpty) then None
          else if occupied_by key entry then Some cell
          else find_in index key cells
      end
  end.

Definition find_session_cell index key : option nat := find_in index key (probe_cells index key).

Fixpoint insert_in index key (deleted : option nat) (cells : list nat) : result nat :=
  match cells with
  | [] => match deleted with Some cell => Ok cell | None => Throw LogicError end
  | cell :: cells =>
      match index !! cell with
      | None => Throw Terminate
      | Some entry =>
          if occupied_by key entry then Ok cell
          else
            let deleted :=
              if bool_decide (si_state entry = SessionDeleted) && bool_decide (deleted = None) then Some cell
              else deleted in
            if bool_decide (si_state entry = SessionEmpty) then Ok (default cell deleted)
            else insert_in index key deleted cells
      end
  end.

Definition session_insert_cell index key : result nat :=
  match index with
  | [] => Throw LogicError
  | _ => insert_in index key None (probe_cells index key)
  end.

(** [erase_session_if_owner]. *)
Definition erase_session_if_owner (owner_id : Z) index : list SessionIndexEntry :=
  if owner_id =? 0 then index
  else
    (fun entry =>
       if bool_decide (si_state entry = SessionOccupied) && (si_owner_id entry =? owner_id)
       then mkSession SessionDeleted (si_key entry) kInvalidCatalogSlot 0 0 0
       else entry) <$> index.

(** [refresh_session_owner_revision]: the first cell of the owner and slot. *)
Fixpoint refresh_first (owner_id slot revision : Z) index : list SessionIndexEntry :=
  match index with
  | [] => []
  | entry :: index =>
      if bool_decide (si_state entry = SessionOccupied) && (si_owner_id entry =? owner_id) && (si_slot entry =? slot)
      then mkSession (si_state entry) (si_key entry) (si_slot entry) (si_owner_id entry) revision (si_publication_order entry) :: index
      else entry :: refresh_first owner_id slot revision index
  end.

Definition refresh_session_owner_revision (catalog_count owner_id slot revision : Z) index : list SessionIndexEntry :=
  if (owner_id =? 0) || (catalog_count <=? slot) then index else refresh_first owner_id slot revision index.

(** [publish_session] up to [demote_replaced_session]: whether the binding is the newest one, and the
    entry it replaced if that names another continuation. *)
Definition publish_cell key (slot owner_id revision publication_order : Z) index :
    result (list SessionIndexEntry * bool * option SessionIndexEntry) :=
  cell ← session_insert_cell index key;
  match index !! cell with
  | None => Throw Terminate
  | Some entry =>
      let write := mkSession SessionOccupied key slot owner_id revision publication_order in
      if bool_decide (si_state entry = SessionOccupied) then
        if publication_order <? si_publication_order entry then Ok (index, false, None)
        else if si_publication_order entry =? publication_order then
          if negb (si_slot entry =? slot) || negb (si_owner_id entry =? owner_id) then Throw LogicError
          else
            Ok (<[cell := mkSession SessionOccupied (si_key entry) (si_slot entry) (si_owner_id entry) revision
                            (si_publication_order entry)]> index, true, None)
        else
          Ok (<[cell := write]> index, true,
              if negb (si_slot entry =? slot) || negb (si_owner_id entry =? owner_id) then Some entry else None)
      else Ok (<[cell := write]> index, true, None)
  end.
End cells.

(** ** Probe sequences *)

Lemma probe_cells_length index key : length (probe_cells index key) = length index.
Proof. unfold probe_cells. by rewrite length_fmap, length_seq. Qed.

Lemma probe_cells_eq index index' key : length index = length index' -> probe_cells index key = probe_cells index' key.
Proof. intros Hlen. unfold probe_cells. by rewrite Hlen. Qed.

Lemma probe_cells_lookup index key p :
  (p < length index)%nat ->
  let size := Z.of_nat (length index) in
  probe_cells index key !! p = Some (Z.to_nat ((session_hash key mod size + Z.of_nat p) mod size)).
Proof. intros Hp. unfold probe_cells. by rewrite list_lookup_fmap, lookup_seq_lt. Qed.

Lemma probe_cells_range index key p c : probe_cells index key !! p = Some c -> (c < length index)%nat.
Proof.
  intros Hc. assert (p < length index)%nat as Hp by (rewrite <- (probe_cells_length index key); by eapply lookup_lt_Some).
  rewrite probe_cells_lookup in Hc by done. injection Hc as <-.
  pose proof (Z.mod_pos_bound (session_hash key mod Z.of_nat (length index) + Z.of_nat p) (Z.of_nat (length index))). lia.
Qed.

(** Every cell is probed. *)
Lemma probe_cells_complete index key c : (c < length index)%nat -> exists p, probe_cells index key !! p = Some c.
Proof.
  intros Hc. set (n := Z.of_nat (length index)). set (b := session_hash key mod n).
  exists (Z.to_nat ((Z.of_nat c - b) mod n)). pose proof (Z.mod_pos_bound (Z.of_nat c - b) n).
  rewrite probe_cells_lookup by lia. fold n b. f_equal. rewrite Z2Nat.id by lia.
  rewrite Zplus_mod_idemp_r. replace (b + (Z.of_nat c - b)) with (Z.of_nat c) by lia.
  rewrite Z.mod_small by lia. lia.
Qed.

(** ** Well-formed tables *)

Definition holds_key (index : list SessionIndexEntry) (key : PreparedSessionKey) (c : nat) : Prop :=
  exists e, index !! c = Some e /\ si_state e = SessionOccupied /\ si_key e = key.
Definition not_empty (index : list SessionIndexEntry) (c : nat) : Prop :=
  exists e, index !! c = Some e /\ si_state e <> SessionEmpty.

(** The probes of the key reach the cell before an empty one. *)
Definition reaches (index : list SessionIndexEntry) (key : PreparedSessionKey) (c : nat) : Prop :=
  exists p, probe_cells index key !! p = Some c /\
    forall q c', (q < p)%nat -> probe_cells index key !! q = Some c' -> not_empty index c'.

Record session_wf (index : list SessionIndexEntry) : Prop := {
  sw_distinct : forall key c1 c2, holds_key index key c1 -> holds_key index key c2 -> c1 = c2;
  sw_reached : forall key c, holds_key index key c -> reaches index key c;
}.

Lemma occupied_by_true key e : occupied_by key e = true <-> si_state e = SessionOccupied /\ si_key e = key.
Proof. unfold occupied_by. rewrite andb_true_iff, !bool_decide_eq_true. done. Qed.

Lemma occupied_by_key index key c e : index !! c = Some e -> occupied_by key e = true <-> holds_key index key c.
Proof.
  intros He. rewrite occupied_by_true. split; [intros [? ?]; by exists e|].
  intros (e' & He' & ? & ?). by simplify_eq.
Qed.

(** A table of the same cells with fewer bindings and no new empty cell. *)
Lemma session_wf_shrink index index' :
  length index' = length index -> session_wf index ->
  (forall c, not_empty index c -> not_empty index' c) ->
  (forall key c, holds_key index' key c -> holds_key index key c) -> session_wf index'.
Proof.
  intros Hlen [Hd Hr] Hne Hk. split; [by eauto|]. intros key c Hc%Hk. destruct (Hr _ _ Hc) as (p & Hp & Hq).
  exists p. rewrite (probe_cells_eq index' index key Hlen). split; [done|]. intros q c' Hlt Hq'. by eapply Hne, Hq.
Qed.

Lemma session_wf_empty n : session_wf (replicate n empty_session).
Proof.
  split; intros key c; [intros c2|]; intros (e & He & Hs & _); apply lookup_replicate in He as [-> _]; done.
Qed.

(** ** Finding *)

Lemma find_in_Some index key cells c : find_in index key cells = Some c -> holds_key index key c.
Proof.
  induction cells as [|c0 cells IH]; [done|]. cbn [find_in]. destruct (index !! c0) as [e|] eqn:He; [|done].
  case_bool_decide; [done|]. destruct (occupied_by key e) eqn:Ho; [|done]. intros [= <-]. by eapply occupied_by_key.
Qed.

Lemma find_in_reached index key cells p c :
  cells !! p = Some c -> holds_key index key c ->
  (forall q c', (q < p)%nat -> cells !! q = Some c' -> not_empty index c') -> is_Some (find_in index key cells).
Proof.
  revert p. induction cells as [|c0 cells IH]; intros p Hp Hc Hq; [done|]. cbn [find_in].
  assert (not_empty index c0) as (e & He & Hne).
  { destruct p as [|p]; [injection Hp as ->|by apply (Hq 0%nat); [lia|]].
    destruct Hc as (e & He & Hs & _). exists e. rewrite Hs. done. }
  rewrite He, bool_decide_eq_false_2 by done. destruct (occupied_by key e) eqn:Ho; [done|].
  destruct p as [|p].
  { injection Hp as ->. apply (occupied_by_key _ key _ _ He) in Hc. congruence. }
  apply (IH p); [done|done|]. intros q c' Hlt Hq'. apply (Hq (S q)); [lia|done].
Qed.

(** The search finds the key's cell, whatever the tombstones. *)
Lemma find_session_cell_spec index key c :
  session_wf index -> find_session_cell index key = Some c <-> holds_key index key c.
Proof.
  intros [Hd Hr]. split; [apply find_in_Some|]. intros Hc. destruct (Hr _ _ Hc) as (p & Hp & Hq).
  destruct (find_in_reached _ _ _ _ _ Hp Hc Hq) as [c' Hc']. unfold find_session_cell. rewrite Hc'. f_equal.
  apply find_in_Some in Hc'. by eapply Hd.
Qed.

(** ** Where a key is written *)

Definition absent (index : list SessionIndexEntry) (key : PreparedSessionKey) : Prop := forall c, ~ holds_key index key c.

Definition insert_place (index : list SessionIndexEntry) (key : PreparedSessionKey) (c : nat) : Prop :=
  reaches index key c /\
  (holds_key index key c \/ absent index key /\ exists e, index !! c = Some e /\ si_state e <> SessionOccupied).

Section insert_in.
Context (index : list SessionIndexEntry) (key : PreparedSessionKey) (Hwf : session_wf index).
Let probes := probe_cells index key.

(** The probes so far met neither the key nor an empty cell. *)
Definition scanned (p : nat) (deleted : option nat) : Prop :=
  (forall q c, (q < p)%nat -> probes !! q = Some c -> not_empty index c /\ ~ holds_key index key c) /\
  match deleted with
  | Some d => exists q e, (q < p)%nat /\ probes !! q = Some d /\ index !! d = Some e /\ si_state e = SessionDeleted
  | None => forall q c, (q < p)%nat -> probes !! q = Some c -> exists e, index !! c = Some e /\ si_state e = SessionOccupied
  end.

Lemma scanned_absent p deleted :
  scanned p deleted ->
  (length probes <= p)%nat \/ (exists c e, probes !! p = Some c /\ index !! c = Some e /\ si_state e = SessionEmpty) ->
  absent index key.
Proof.
  intros [Hs _] Hend c Hc. destruct (sw_reached _ Hwf _ _ Hc) as (r & Hr & Hq).
  destruct (decide (r < p)%nat) as [Hlt|Hge]; [by destruct (Hs r c Hlt Hr)|].
  destruct Hend as [Hlen|(c' & e & Hp & He & Hemp)].
  { apply lookup_lt_Some in Hr. fold probes in Hr. lia. }
  destruct (decide (r = p)) as [->|].
  { fold probes in Hr. rewrite Hp in Hr. injection Hr as ->. destruct Hc as (e' & He' & Hs' & _). simplify_eq. congruence. }
  destruct (Hq p c' ltac:(lia) Hp) as (e' & He' & Hne). simplify_eq.
Qed.

Lemma scanned_deleted p d :
  scanned p (Some d) -> absent index key -> insert_place index key d.
Proof.
  intros [Hs (q & e & Hlt & Hq & He & Hd)] Ha. split; [|right; split; [done|exists e; by rewrite Hd]].
  exists q. split; [done|]. intros q' c' Hlt' Hq'. by apply (Hs q' c' ltac:(lia)).
Qed.

Lemma insert_in_spec cells : forall p deleted,
  cells = drop p probes -> scanned p deleted ->
  match insert_in index key deleted cells with
  | Ok c => insert_place index key c
  | Throw e => e = LogicError /\ absent index key /\ Forall (fun e => si_state e = SessionOccupied) index
  end.
Proof.
  induction cells as [|c cells IH]; intros p deleted Hcells Hs; cbn [insert_in].
  - assert (length probes <= p)%nat as Hlen.
    { destruct (decide (length probes <= p)%nat); [done|]. apply (f_equal length) in Hcells. rewrite length_drop in Hcells. cbn in Hcells. lia. }
    pose proof (scanned_absent _ _ Hs (or_introl Hlen)) as Ha. destruct deleted as [d|]; [by eapply scanned_deleted|].
    split_and!; [done|done|]. apply Forall_lookup. intros c e He.
    destruct (probe_cells_complete index key c) as [q Hq]; [by eapply lookup_lt_Some|].
    destruct Hs as [_ Hocc]. destruct (Hocc q c) as (e' & He' & Hst); [|done|by simplify_eq].
    apply lookup_lt_Some in Hq. fold probes in Hq. lia.
  - assert (probes !! p = Some c) as Hp by (rewrite <- (Nat.add_0_r p), <- lookup_drop, <- Hcells; done).
    destruct (lookup_lt_is_Some_2 index c) as [e He]; [by eapply probe_cells_range|]. rewrite He.
    destruct (occupied_by key e) eqn:Ho.
    { pose proof (proj1 (occupied_by_key _ key _ _ He) Ho) as Hc. split; [|by left]. by apply (sw_reached _ Hwf). }
    assert (~ holds_key index key c) as Hnk by (rewrite <- (occupied_by_key _ key _ _ He); by rewrite Ho).
    set (deleted' := if _ && _ then Some c else deleted).
    case_bool_decide as Hemp.
    + assert (absent index key) as Ha by (eapply (scanned_absent p); [exact Hs|right; by exists c, e]).
      subst deleted'. rewrite bool_decide_eq_false_2 by (rewrite Hemp; done). cbn [andb].
      destruct deleted as [d|]; cbn [default]; [by eapply scanned_deleted|].
      split; [|right; split; [done|exists e; by rewrite Hemp]]. exists p. split; [done|].
      intros q c' Hlt Hq. by apply (proj1 Hs q c' Hlt).
    + apply (IH (S p)); [by rewrite (drop_S _ _ _ Hp) in Hcells; injection Hcells|].
      destruct Hs as [Hs Hdel]. split.
      { intros q c' Hlt Hq. destruct (decide (q = p)) as [->|]; [|apply (Hs q); [lia|done]].
        rewrite Hp in Hq. injection Hq as <-. split; [by exists e|done]. }
      subst deleted'. case_bool_decide as Hd; cbn [andb].
      * case_bool_decide as Hnone; [exists p, e; split_and!; [lia|done..]|].
        destruct deleted as [d|]; [|done]. destruct Hdel as (q & e' & ? & ? & ? & ?). exists q, e'. split_and!; [lia|done..].
      * destruct deleted as [d|].
        { destruct Hdel as (q & e' & ? & ? & ? & ?). exists q, e'. split_and!; [lia|done..]. }
        intros q c' Hlt Hq. destruct (decide (q = p)) as [->|]; [|apply (Hdel q); [lia|done]].
        rewrite Hp in Hq. injection Hq as <-. exists e. split; [done|]. by destruct (si_state e).
Qed.
End insert_in.

Lemma session_insert_cell_spec index key :
  session_wf index ->
  match session_insert_cell index key with
  | Ok c => insert_place index key c
  | Throw e => e = LogicError /\ absent index key /\ Forall (fun e => si_state e = SessionOccupied) index
  end.
Proof.
  intros Hwf. destruct index as [|e0 index]; cbn [session_insert_cell].
  { split_and!; [done| |done]. by intros c (e & He & _). }
  apply (insert_in_spec _ _ Hwf _ 0%nat); [done|]. split; intros q c Hlt; lia.
Qed.

Lemma insert_place_lt index key c : insert_place index key c -> (c < length index)%nat.
Proof. intros [(p & Hp & _) _]. by eapply probe_cells_range. Qed.

(** Binding the key at its place. *)
Lemma holds_key_write index key key' c w c' :
  insert_place index key c -> si_state w = SessionOccupied -> si_key w = key ->
  holds_key (<[c:=w]> index) key' c' <-> (c' = c /\ key' = key) \/ (c' <> c /\ holds_key index key' c').
Proof.
  intros Hc Hs Hk. pose proof (insert_place_lt _ _ _ Hc) as Hlt. unfold holds_key.
  destruct (decide (c' = c)) as [->|Hne].
  - rewrite list_lookup_insert_eq by done. split.
    + intros (e & [= <-] & _ & <-). left. done.
    + intros [[_ ->]|[? _]]; [|done]. by exists w.
  - rewrite list_lookup_insert_ne by done. split; [by right|]. by intros [[? _]|[_ ?]].
Qed.

Lemma session_wf_write index key c w :
  session_wf index -> insert_place index key c -> si_state w = SessionOccupied -> si_key w = key ->
  session_wf (<[c:=w]> index).
Proof.
  intros Hwf Hc Hs Hk. pose proof (insert_place_lt _ _ _ Hc) as Hlt.
  assert (forall c', not_empty index c' -> not_empty (<[c:=w]> index) c') as Hne.
  { intros c' (e & He & Hst). destruct (decide (c' = c)) as [->|].
    - exists w. rewrite list_lookup_insert_eq by done. by rewrite Hs.
    - exists e. by rewrite list_lookup_insert_ne. }
  assert (forall k c', reaches index k c' -> reaches (<[c:=w]> index) k c') as Hre.
  { intros k c' (p & Hp & Hq). exists p. rewrite (probe_cells_eq _ index) by apply length_insert.
    split; [done|]. intros q c2 Hlt' Hq'. by eapply Hne, Hq. }
  assert (forall c', holds_key index key c' -> c' = c) as Honly.
  { intros c' Hc'. destruct Hc as [_ [Hh|[Ha _]]]; [by eapply sw_distinct|by destruct (Ha c')]. }
  split.
  - intros k c1 c2 H1 H2. eapply holds_key_write in H1, H2; try done.
    destruct H1 as [[-> ->]|[Hn1 H1]], H2 as [[-> H2]|[Hn2 H2]]; [done| | |by eapply sw_distinct].
    + by apply Honly in H2.
    + subst. by apply Honly in H1.
  - intros k c' Hh. eapply holds_key_write in Hh; try done. apply Hre.
    destruct Hh as [[-> ->]|[_ Hh]]; [apply Hc|by apply (sw_reached _ Hwf)].
Qed.

(** ** Updates of the table *)

Lemma erase_session_lookup owner_id index c e :
  erase_session_if_owner owner_id index !! c = Some e ->
  exists e0, index !! c = Some e0 /\ (e = e0 \/
    owner_id <> 0 /\ si_state e0 = SessionOccupied /\ si_owner_id e0 = owner_id /\ si_state e = SessionDeleted).
Proof.
  unfold erase_session_if_owner. case (Z.eqb_spec owner_id 0) as [->|Hne]; [by exists e; eauto|].
  rewrite list_lookup_fmap. intros (e0 & -> & He)%fmap_Some. exists e0. split; [done|].
  case_bool_decide; cbn [andb] in He; [|by left]. destruct (Z.eqb_spec (si_owner_id e0) owner_id); [|by left].
  right. by subst e.
Qed.

Lemma erase_session_length owner_id index : length (erase_session_if_owner owner_id index) = length index.
Proof. unfold erase_session_if_owner. destruct (owner_id =? 0); [done|]. by rewrite length_fmap. Qed.

(** Erasing an owner keeps exactly the bindings of the others. *)
Lemma erase_session_occupied owner_id index c e :
  owner_id <> 0 ->
  erase_session_if_owner owner_id index !! c = Some e /\ si_state e = SessionOccupied <->
  index !! c = Some e /\ si_state e = SessionOccupied /\ si_owner_id e <> owner_id.
Proof.
  intros Hne. unfold erase_session_if_owner. rewrite (proj2 (Z.eqb_neq _ _) Hne), list_lookup_fmap. split.
  - intros [(e0 & -> & He)%fmap_Some Hs]. case_bool_decide as Ho; cbn [andb] in He; [|by subst].
    destruct (Z.eqb_spec (si_owner_id e0) owner_id); subst; done.
  - intros (-> & Hs & Ho). split; [|done]. cbn. rewrite bool_decide_eq_true_2 by done.
    by rewrite (proj2 (Z.eqb_neq _ _) Ho).
Qed.

Lemma session_wf_erase owner_id index : session_wf index -> session_wf (erase_session_if_owner owner_id index).
Proof.
  intros Hwf. apply (session_wf_shrink index); [apply erase_session_length|done| |].
  - intros c (e & He & Hs). unfold erase_session_if_owner. destruct (owner_id =? 0); [by exists e|].
    unfold not_empty. rewrite list_lookup_fmap, He. cbn. eexists. split; [done|]. by destruct (_ && _).
  - intros key c (e & (e0 & He0 & Hcase)%erase_session_lookup & Hs & Hk). exists e0.
    destruct Hcase as [->|(_ & _ & _ & Hd)]; [done|congruence].
Qed.

(** Refreshing changes the revision of one cell at most. *)
Lemma refresh_first_lookup owner_id slot revision index c e :
  refresh_first owner_id slot revision index !! c = Some e ->
  exists e0, index !! c = Some e0 /\ (e = e0 \/
    e = mkSession (si_state e0) (si_key e0) (si_slot e0) (si_owner_id e0) revision (si_publication_order e0) /\
    si_state e0 = SessionOccupied /\ si_owner_id e0 = owner_id /\ si_slot e0 = slot).
Proof.
  revert c. induction index as [|e0 index IH]; intros c; [done|]. cbn [refresh_first].
  destruct (_ && _ && _) eqn:Hb.
  - rewrite !andb_true_iff, bool_decide_eq_true, !Z.eqb_eq in Hb. destruct Hb as [[? ?] ?].
    destruct c as [|c]; cbn; [|by eauto]. intros [= <-]. exists e0. split; [done|]. by right.
  - destruct c as [|c]; cbn; [by intros [= <-]; eauto|apply IH].
Qed.

Lemma refresh_first_length owner_id slot revision index : length (refresh_first owner_id slot revision index) = length index.
Proof. induction index as [|e0 index IH]; [done|]. cbn [refresh_first]. destruct (_ && _ && _); cbn [length]; [done|by rewrite IH]. Qed.

(** The refreshed cell, when the slot is bound once. *)
Lemma refresh_first_hit owner_id slot revision index c e :
  index !! c = Some e -> si_state e = SessionOccupied -> si_owner_id e = owner_id -> si_slot e = slot ->
  (forall c' e', index !! c' = Some e' -> si_state e' = SessionOccupied -> si_slot e' = slot -> c' = c) ->
  refresh_first owner_id slot revision index =
  <[c := mkSession (si_state e) (si_key e) (si_slot e) (si_owner_id e) revision (si_publication_order e)]> index.
Proof.
  revert c. induction index as [|e0 index IH]; intros c Hc Hs Ho Hsl Hu; [done|]. cbn [refresh_first].
  destruct c as [|c]; cbn in Hc.
  - injection Hc as ->. rewrite bool_decide_eq_true_2 by done. by rewrite Ho, Hsl, !Z.eqb_refl.
  - destruct (_ && _ && _) eqn:Hb.
    + rewrite !andb_true_iff, bool_decide_eq_true, !Z.eqb_eq in Hb. destruct Hb as [[? ?] ?].
      by discriminate (Hu 0%nat e0 eq_refl).
    + cbn. f_equal. apply IH; [done..|]. intros c' e' He' Hs' Hsl'. specialize (Hu (S c') e' He' Hs' Hsl'). congruence.
Qed.

Lemma session_wf_refresh owner_id slot revision index : session_wf index -> session_wf (refresh_first owner_id slot revision index).
Proof.
  intros Hwf. apply (session_wf_shrink index); [apply refresh_first_length|done| |].
  - intros c (e & He & Hs). destruct (refresh_first owner_id slot revision index !! c) as [e'|] eqn:He'.
    + exists e'. split; [done|]. apply refresh_first_lookup in He' as (e0 & He0 & Hcase). simplify_eq.
      destruct Hcase as [->|(-> & _)]; done.
    + apply lookup_ge_None in He'. rewrite refresh_first_length in He'. apply lookup_lt_Some in He. lia.
  - intros key c (e & (e0 & He0 & Hcase)%refresh_first_lookup & Hs & Hk). exists e0.
    destruct Hcase as [->|(-> & _)]; done.
Qed.

(** What [publish_cell] does to the cells. *)
Lemma publish_cell_spec index key slot owner_id revision order :
  session_wf index ->
  match publish_cell key slot owner_id revision order index with
  | Ok (index', newest, previous) =>
      exists c w, insert_place index key c /\ si_key w = key /\ si_state w = SessionOccupied /\
        si_slot w = slot /\ si_owner_id w = owner_id /\ si_revision w = revision /\ si_publication_order w = order /\
        ((newest = true /\ index' = <[c := w]> index /\
            ((previous = None /\
                (absent index key \/ exists e, index !! c = Some e /\ si_state e = SessionOccupied /\ si_key e = key /\
                   si_publication_order e <= order /\ si_slot e = slot /\ si_owner_id e = owner_id)) \/
             (exists e, previous = Some e /\ index !! c = Some e /\ si_state e = SessionOccupied /\ si_key e = key /\
                si_publication_order e < order /\ (si_slot e <> slot \/ si_owner_id e <> owner_id)))) \/
         (newest = false /\ index' = index /\ previous = None /\
            exists e, index !! c = Some e /\ si_state e = SessionOccupied /\ si_key e = key /\ order < si_publication_order e))
  | Throw x => x = LogicError /\
      ((absent index key /\ Forall (fun e => si_state e = SessionOccupied) index) \/
       exists c e, index !! c = Some e /\ si_state e = SessionOccupied /\ si_key e = key /\
         si_publication_order e = order /\ (si_slot e <> slot \/ si_owner_id e <> owner_id))
  end.
Proof.
  intros Hwf. pose proof (session_insert_cell_spec index key Hwf) as Hc. unfold publish_cell. unfold_M.
  destruct (session_insert_cell index key) as [c|x]; [|by destruct Hc as (-> & ? & ?); eauto].
  pose proof (insert_place_lt _ _ _ Hc) as [e He]%lookup_lt_is_Some_2. rewrite He.
  set (w := mkSession SessionOccupied key slot owner_id revision order).
  case_bool_decide as Hs.
  2: { exists c, w. split_and!; [done..|]. left. split_and!; [done..|]. left. split; [done|]. left.
       destruct Hc as [_ [(e' & ? & ? & ?)|[? _]]]; [by simplify_eq|done]. }
  assert (si_key e = key) as Hk.
  { destruct Hc as [_ [(e' & ? & ? & ?)|[_ (e' & ? & ?)]]]; by simplify_eq. }
  destruct (Z.ltb_spec order (si_publication_order e)) as [Hlt|Hge].
  { exists c, w. split_and!; [done..|]. right. split_and!; [done..|]. by exists e. }
  destruct (Z.eqb_spec (si_publication_order e) order) as [Heq|Hne].
  - destruct (negb (si_slot e =? slot) || negb (si_owner_id e =? owner_id)) eqn:Hb.
    { split; [done|]. right. exists c, e. split_and!; [done..|]. lia. }
    eexists c, _. split; [exact Hc|]. split_and!; [| | | | | |left; split_and!; [done|reflexivity|]]; cbn; try done; try lia.
    left. split; [done|]. right. exists e. split_and!; try done; lia.
  - exists c, w. split_and!; [done..|]. left. split_and!; [done..|].
    destruct (negb (si_slot e =? slot) || negb (si_owner_id e =? owner_id)) eqn:Hb.
    + right. exists e. split_and!; try done; lia.
    + left. split; [done|]. right. exists e. split_and!; try done; lia.
Qed.

(** ** The map that a table represents *)

#[export] Instance PreparedSessionKey_countable : Countable PreparedSessionKey.
Proof. by refine (inj_countable' (fun k => (sk_size k, sk_bytes k)) (fun p => mkSessionKey p.1 p.2) _); intros []. Qed.

Record Binding := mkBinding { bd_slot : Z; bd_owner_id : Z; bd_revision : Z; bd_order : Z }.

Definition binding_of (e : SessionIndexEntry) : Binding :=
  mkBinding (si_slot e) (si_owner_id e) (si_revision e) (si_publication_order e).
Definition pair_of (e : SessionIndexEntry) : option (PreparedSessionKey * Binding) :=
  if bool_decide (si_state e = SessionOccupied) then Some (si_key e, binding_of e) else None.
Definition session_pairs (index : list SessionIndexEntry) := omap pair_of index.
Definition session_map (index : list SessionIndexEntry) : gmap PreparedSessionKey Binding :=
  list_to_map (session_pairs index).

Lemma pair_of_Some e k b : pair_of e = Some (k, b) <-> si_state e = SessionOccupied /\ si_key e = k /\ binding_of e = b.
Proof. unfold pair_of. case_bool_decide; split; [by intros [= <- <-]|by intros (_ & <- & <-)|done|by intros []]. Qed.

Lemma session_pairs_NoDup index :
  (forall key c1 c2, holds_key index key c1 -> holds_key index key c2 -> c1 = c2) -> NoDup (session_pairs index).*1.
Proof.
  induction index as [|e index IH]; intros Hd; [constructor|]. unfold session_pairs. cbn [omap list_omap].
  assert (NoDup (session_pairs index).*1) as Hnd.
  { apply IH. intros key c1 c2 (e1 & ? & ?) (e2 & ? & ?).
    enough (S c1 = S c2) by lia. apply (Hd key); [by exists e1|by exists e2]. }
  destruct (pair_of e) as [[k b]|] eqn:Hp; [|done]. cbn. constructor; [|done].
  intros ([k' b'] & Hk & Hin)%list_elem_of_fmap. cbn in Hk. subst k'. apply list_elem_of_omap in Hin as (e' & Hin & Hp').
  apply list_elem_of_lookup in Hin as [c Hc]. apply pair_of_Some in Hp as (? & ? & _), Hp' as (? & ? & _).
  assert (0%nat = S c) by (apply (Hd k); [by exists e|by exists e']). done.
Qed.

Lemma session_map_lookup index k b :
  session_wf index -> session_map index !! k = Some b <->
  exists c e, index !! c = Some e /\ si_state e = SessionOccupied /\ si_key e = k /\ binding_of e = b.
Proof.
  intros [Hd _]. unfold session_map. rewrite <- elem_of_list_to_map by by apply session_pairs_NoDup.
  unfold session_pairs. rewrite list_elem_of_omap. split.
  - intros (e & [c Hc]%list_elem_of_lookup & (? & ? & ?)%pair_of_Some). by exists c, e.
  - intros (c & e & Hc & ? & ? & ?). exists e. split; [by eapply list_elem_of_lookup_2|by apply pair_of_Some].
Qed.

Lemma session_map_None index k : session_wf index -> session_map index !! k = None <-> absent index k.
Proof.
  intros Hwf. split.
  - intros Hn c (e & He & Hs & Hk). enough (session_map index !! k = Some (binding_of e)) by congruence.
    apply session_map_lookup; [done|]. by exists c, e.
  - intros Ha. destruct (session_map index !! k) as [b|] eqn:Hb; [|done].
    apply session_map_lookup in Hb as (c & e & ? & ? & ? & _); [|done]. destruct (Ha c). by exists e.
Qed.

Lemma session_map_size index :
  session_wf index -> (size (session_map index) <= length index)%nat /\
  (size (session_map index) = length index <-> Forall (fun e => si_state e = SessionOccupied) index).
Proof.
  intros Hwf. unfold session_map. rewrite map_size_list_to_map by apply session_pairs_NoDup, Hwf.
  clear Hwf. unfold session_pairs. induction index as [|e index [IH1 IH2]]; [by split; [cbn; lia|split; [constructor|]]|].
  rewrite Forall_cons, <- IH2. change (omap pair_of (e :: index)) with
    (match pair_of e with Some p => p :: omap pair_of index | None => omap pair_of index end).
  destruct (pair_of e) as [p|] eqn:Hp; cbn [length]; (split; [lia|]).
  - destruct p as [k b]. apply pair_of_Some in Hp as (Hs & _). split; [intros; split; [done|lia]|intros [_ ->]; done].
  - split; [lia|]. intros [Hs _]. unfold pair_of in Hp. by rewrite bool_decide_eq_true_2 in Hp.
Qed.

(** The map of a table whose bindings are known. *)
Lemma session_map_eq index (m : gmap PreparedSessionKey Binding) :
  session_wf index ->
  (forall k b, m !! k = Some b <->
     exists c e, index !! c = Some e /\ si_state e = SessionOccupied /\ si_key e = k /\ binding_of e = b) ->
  session_map index = m.
Proof. intros Hwf Hm. apply map_eq. intros k. apply option_eq. intros b. by rewrite Hm, session_map_lookup. Qed.

Lemma session_map_write index key c w :
  session_wf index -> insert_place index key c -> si_state w = SessionOccupied -> si_key w = key ->
  session_map (<[c:=w]> index) = <[key := binding_of w]> (session_map index).
Proof.
  intros Hwf Hc Hs Hk. pose proof (session_wf_write _ _ _ _ Hwf Hc Hs Hk) as Hwf'.
  pose proof (insert_place_lt _ _ _ Hc) as Hlt.
  apply session_map_eq; [done|]. intros k b. destruct (decide (k = key)) as [->|Hne].
  - rewrite lookup_insert_eq. split; [intros [= <-]; exists c, w; by rewrite list_lookup_insert_eq|].
    intros (c' & e & He & Hs' & Hk' & <-). destruct (decide (c' = c)) as [->|Hnc].
    + rewrite list_lookup_insert_eq in He by done. by injection He as ->.
    + assert (holds_key (<[c:=w]> index) key c') as Hh by by exists e.
      assert (holds_key (<[c:=w]> index) key c) as Hh2 by (exists w; by rewrite list_lookup_insert_eq).
      by pose proof (sw_distinct _ Hwf' _ _ _ Hh Hh2).
  - rewrite lookup_insert_ne by done. rewrite session_map_lookup by done. split; intros (c' & e & He & Hs' & Hk' & Hb).
    + assert (c' <> c) as Hnc.
      { intros ->. destruct Hc as [_ [(e' & ? & ? & ?)|[_ (e' & ? & ?)]]]; simplify_eq; done. }
      exists c', e. by rewrite list_lookup_insert_ne.
    + destruct (decide (c' = c)) as [->|Hnc].
      { rewrite list_lookup_insert_eq in He by done. simplify_eq. }
      rewrite list_lookup_insert_ne in He by done. by exists c', e.
Qed.

Lemma session_map_erase owner_id index :
  session_wf index -> owner_id <> 0 ->
  session_map (erase_session_if_owner owner_id index) = filter (fun p => bd_owner_id p.2 <> owner_id) (session_map index).
Proof.
  intros Hwf Hne. apply session_map_eq; [by apply session_wf_erase|]. intros k b.
  rewrite map_lookup_filter_Some, session_map_lookup by done. split.
  - intros [(c & e & He & Hs & Hk & <-) Ho]. exists c, e.
    assert (erase_session_if_owner owner_id index !! c = Some e /\ si_state e = SessionOccupied) as [? ?]
      by (by apply erase_session_occupied).
    done.
  - intros (c & e & He & Hs & Hk & <-).
    destruct (proj1 (erase_session_occupied owner_id index c e Hne) (conj He Hs)) as (? & ? & ?).
    split; [by exists c, e|done].
Qed.

Lemma session_map_empty n : session_map (replicate n empty_session) = ∅.
Proof.
  apply session_map_eq; [apply session_wf_empty|]. intros k b. rewrite lookup_empty. split; [done|].
  intros (c & e & [-> _]%lookup_replicate & Hs & _). done.
Qed.

Lemma session_wf_refresh' count owner_id slot revision index :
  session_wf index -> session_wf (refresh_session_owner_revision count owner_id slot revision index).
Proof. intros. unfold refresh_session_owner_revision. destruct (_ || _); [done|by apply session_wf_refresh]. Qed.

Lemma refresh_session_length count owner_id slot revision index :
  length (refresh_session_owner_revision count owner_id slot revision index) = length index.
Proof. unfold refresh_session_owner_revision. destruct (_ || _); [done|apply refresh_first_length]. Qed.
