(* ===== verification/SessionIndexSpec.v ===== *)
(** * Context cache: the session index is a bounded map

    The abstract table is a finite map from names to bindings with a capacity.  Every sequence of
    calls on the probing table gives the answers of the map. *)

From stdpp Require Import gmap.
From S2P Require Import Prelude ContextTypes SessionIndex.
Open Scope Z_scope.

(** ** The abstract table *)

Abbreviation SessionMap := (gmap PreparedSessionKey Binding).

(** Publishing a continuation under a name: the newest publication wins, and the older binding is
    handed back when it named another continuation. *)
Definition map_publish (capacity : nat) (key : PreparedSessionKey) (b : Binding) (m : SessionMap) :
    result (SessionMap * bool * option Binding) :=
  match m !! key with
  | None => if bool_decide (size m = capacity) then Throw LogicError else Ok (<[key := b]> m, true, None)
  | Some old =>
      let same := (bd_slot old =? bd_slot b) && (bd_owner_id old =? bd_owner_id b) in
      if bd_order b <? bd_order old then Ok (m, false, None)
      else if bd_order old =? bd_order b then
        if same then Ok (<[key := b]> m, true, None) else Throw LogicError
      else Ok (<[key := b]> m, true, if same then None else Some old)
  end.

Definition map_erase (owner_id : Z) (m : SessionMap) : SessionMap :=
  if owner_id =? 0 then m else filter (fun p => bd_owner_id p.2 <> owner_id) m.

(** ** Sessions of calls *)

Inductive IndexCall :=
  | CallPublish (key : PreparedSessionKey) (b : Binding)
  | CallErase (owner_id : Z)
  | CallFind (key : PreparedSessionKey)
  | CallClear.

Inductive IndexAnswer :=
  | AnswerPublished (newest : bool) (replaced : option Binding)
  | AnswerFound (b : option Binding)
  | AnswerDone
  | AnswerThrown (e : exn).

Definition run_index (call : IndexCall) (index : list SessionIndexEntry) : list SessionIndexEntry * IndexAnswer :=
  match call with
  | CallPublish key b =>
      match publish_cell key (bd_slot b) (bd_owner_id b) (bd_revision b) (bd_order b) index with
      | Ok (index', newest, previous) => (index', AnswerPublished newest (binding_of <$> previous))
      | Throw e => (index, AnswerThrown e)
      end
  | CallErase owner_id => (erase_session_if_owner owner_id index, AnswerDone)
  | CallFind key => (index, AnswerFound (c ← find_session_cell index key; binding_of <$> index !! c))
  | CallClear => ((fun _ => empty_session) <$> index, AnswerDone)
  end.

Definition run_map (capacity : nat) (call : IndexCall) (m : SessionMap) : SessionMap * IndexAnswer :=
  match call with
  | CallPublish key b =>
      match map_publish capacity key b m with
      | Ok (m', newest, previous) => (m', AnswerPublished newest previous)
      | Throw e => (m, AnswerThrown e)
      end
  | CallErase owner_id => (map_erase owner_id m, AnswerDone)
  | CallFind key => (m, AnswerFound (m !! key))
  | CallClear => (∅, AnswerDone)
  end.

Fixpoint run_calls {S} (run : IndexCall -> S -> S * IndexAnswer) (calls : list IndexCall) (s : S) : S * list IndexAnswer :=
  match calls with
  | [] => (s, [])
  | call :: calls => let '(s1, a) := run call s in let '(s2, out) := run_calls run calls s1 in (s2, a :: out)
  end.

(** ** Refinement *)

Lemma publish_refines capacity key b index :
  session_wf index -> length index = capacity ->
  match publish_cell key (bd_slot b) (bd_owner_id b) (bd_revision b) (bd_order b) index with
  | Ok (index', newest, previous) =>
      session_wf index' /\ length index' = capacity /\
      map_publish capacity key b (session_map index) = Ok (session_map index', newest, binding_of <$> previous)
  | Throw e => map_publish capacity key b (session_map index) = Throw e
  end.
Proof.
  intros Hwf Hlen. pose proof (publish_cell_spec index key (bd_slot b) (bd_owner_id b) (bd_revision b) (bd_order b) Hwf) as Hp.
  pose proof (session_map_size index Hwf) as [_ Hsize].
  destruct (publish_cell _ _ _ _ _ _) as [[[index' newest] previous]|x].
  - destruct Hp as (c & w & Hc & Hk & Hs & Hsl & Ho & Hr & Hor & Hcase).
    assert (binding_of w = b) as Hb by (destruct b; unfold binding_of; cbn in *; congruence).
    destruct Hcase as [(-> & -> & Hcase)|(-> & -> & -> & e & He & Hs' & Hk' & Hlt)].
    2: { split_and!; [done|done|]. unfold map_publish.
         rewrite (proj2 (session_map_lookup index key (binding_of e) Hwf)) by by exists c, e. cbn [binding_of bd_order].
         by rewrite (proj2 (Z.ltb_lt _ _) Hlt). }
    split_and!; [by eapply session_wf_write|by rewrite length_insert|].
    rewrite (session_map_write _ key) by done. rewrite Hb. unfold map_publish.
    destruct Hcase as [[-> [Ha|(e & He & Hs' & Hk' & Hle & Hsl' & Ho')]]|(e & -> & He & Hs' & Hk' & Hlt & Hne)].
    + rewrite (proj2 (session_map_None _ _ Hwf)) by done. rewrite bool_decide_eq_false_2; [done|].
      rewrite <- Hlen, Hsize, Forall_lookup. intros Hall.
      destruct Hc as [_ [Hh|[_ (e & He & Hne)]]]; [by destruct (Ha c)|]. by specialize (Hall _ _ He).
    + rewrite (proj2 (session_map_lookup index key (binding_of e) Hwf)) by by exists c, e.
      cbn [binding_of bd_order bd_slot bd_owner_id]. rewrite Hsl', Ho', !Z.eqb_refl. cbn [andb].
      rewrite (proj2 (Z.ltb_ge _ _)) by lia. by destruct (_ =? _).
    + rewrite (proj2 (session_map_lookup index key (binding_of e) Hwf)) by by exists c, e.
      cbn [binding_of bd_order bd_slot bd_owner_id fmap option_fmap option_map].
      rewrite (proj2 (Z.ltb_ge _ _)) by lia. rewrite (proj2 (Z.eqb_neq (si_publication_order e) _)) by lia.
      replace ((si_slot e =? bd_slot b) && (si_owner_id e =? bd_owner_id b)) with false by lia. done.
  - destruct Hp as [-> [[Ha Hall]|(c & e & He & Hs & Hk & Hor & Hne)]]; unfold map_publish.
    + rewrite (proj2 (session_map_None _ _ Hwf)) by done. by rewrite bool_decide_eq_true_2 by (rewrite <- Hlen; by apply Hsize).
    + rewrite (proj2 (session_map_lookup index key (binding_of e) Hwf)) by by exists c, e.
      cbn [binding_of bd_order bd_slot bd_owner_id]. rewrite Hor, Z.ltb_irrefl, Z.eqb_refl.
      replace ((si_slot e =? bd_slot b) && (si_owner_id e =? bd_owner_id b)) with false by lia. done.
Qed.

Lemma find_refines key index :
  session_wf index -> (c ← find_session_cell index key; binding_of <$> index !! c) = session_map index !! key.
Proof.
  intros Hwf. destruct (find_session_cell index key) as [c|] eqn:Hc.
  - apply find_session_cell_spec in Hc as (e & He & Hs & Hk); [|done]. cbn. rewrite He. cbn. symmetry.
    apply session_map_lookup; [done|]. by exists c, e.
  - cbn. symmetry. apply session_map_None; [done|]. intros c Hh. apply find_session_cell_spec in Hh; [|done]. congruence.
Qed.

Lemma run_index_refines capacity call index :
  session_wf index -> length index = capacity ->
  let '(index', a) := run_index call index in
  session_wf index' /\ length index' = capacity /\ run_map capacity call (session_map index) = (session_map index', a).
Proof.
  intros Hwf Hlen. destruct call as [key b|owner_id|key|]; cbn [run_index run_map].
  - pose proof (publish_refines capacity key b index Hwf Hlen) as Hp. destruct (publish_cell _ _ _ _ _ _) as [[[index' newest] previous]|x].
    + destruct Hp as (? & ? & ->). done.
    + by rewrite Hp.
  - split_and!; [by apply session_wf_erase|by rewrite erase_session_length|]. unfold map_erase. f_equal.
    destruct (Z.eqb_spec owner_id 0) as [->|Hne]; [done|]. by rewrite session_map_erase.
  - split_and!; [done|done|]. by rewrite find_refines.
  - assert ((fun _ => empty_session) <$> index = replicate capacity empty_session) as ->.
    { symmetry. apply replicate_as_elem_of. split; [by rewrite length_fmap|]. by intros x (? & -> & _)%list_elem_of_fmap. }
    split_and!; [apply session_wf_empty|by rewrite length_replicate|by rewrite session_map_empty].
Qed.

(** C15: The session index is a bounded map from session names to the newest publication.  From the
    empty table of any capacity, every sequence of publications, erasures by owner, lookups and clears
    answers exactly as the map does: a lookup finds the binding of its name and no other, whatever
    tombstones and collisions the probes meet; a publication is refused only when every cell is bound
    to another name, or when one publication order names two continuations. *)
Theorem session_index_refines_map capacity calls :
  let '(index, answers) := run_calls run_index calls (replicate capacity empty_session) in
  run_calls (run_map capacity) calls ∅ = (session_map index, answers).
Proof.
  enough (forall index, session_wf index -> length index = capacity ->
    let '(index', answers) := run_calls run_index calls index in
    run_calls (run_map capacity) calls (session_map index) = (session_map index', answers)) as H.
  { specialize (H _ (session_wf_empty capacity) (length_replicate _ _)). by rewrite session_map_empty in H. }
  induction calls as [|call calls IH]; intros index Hwf Hlen; cbn [run_calls]; [done|].
  pose proof (run_index_refines capacity call index Hwf Hlen) as Hrun.
  destruct (run_index call index) as [index1 a]. destruct Hrun as (Hwf1 & Hlen1 & ->).
  specialize (IH index1 Hwf1 Hlen1). destruct (run_calls run_index calls index1) as [index2 answers]. by rewrite IH.
Qed.

(** A table of two cells with a tombstone, a replacement and a refused third name. *)
Example session_index_demo :
  let key n := mkSessionKey 1 [n] in
  let b slot order := mkBinding slot (slot + 1) 1 order in
  snd (run_calls run_index
         [CallPublish (key 1) (b 0 10); CallPublish (key 2) (b 1 11); CallPublish (key 3) (b 2 12); CallErase 1;
          CallFind (key 1); CallFind (key 2); CallPublish (key 3) (b 3 13); CallPublish (key 2) (b 5 9);
          CallPublish (key 2) (b 5 14); CallFind (key 3)]
         (replicate 2 empty_session)) =
  [AnswerPublished true None; AnswerPublished true None; AnswerThrown LogicError; AnswerDone;
   AnswerFound None; AnswerFound (Some (b 1 11)); AnswerPublished true None; AnswerPublished false None;
   AnswerPublished true (Some (b 1 11)); AnswerFound (Some (b 3 13))].
Proof. vm_compute. reflexivity. Qed.
