(* ===== verification/ContextCatalog.v ===== *)
(** * Context cache: the catalogs of the resource manager

    The state of [ResourceManager] (runtime/engine/context_cache/resource_manager.h) and its functions
    that call no program: lanes, private continuations, shared prefixes, the prefix index, demand, and
    the reservation and adoption of pressure actions.  The fields that the constructor fixes are
    grouped in [Config].  A vector is read with its bounds ([Terminate] outside); a reserved capacity
    is what the constructor reserves. *)

From S2P Require Import Prelude ContextTypes SessionIndex.
Open Scope Z_scope.

(** ** Data *)

Inductive LogicalLaneState := LaneFree | LaneMaterializing | LaneActive | LaneTerminalPending.
Inductive CatalogState := CatVacant | CatCatalogued | CatClaimed | CatReservedForActive.
Inductive SharedCatalogState := ShVacant | ShCatalogued | ShClaimed | ShReservedCapture.

#[export] Instance LogicalLaneState_eq_dec : EqDecision LogicalLaneState.
Proof. solve_decision. Defined.
#[export] Instance CatalogState_eq_dec : EqDecision CatalogState.
Proof. solve_decision. Defined.
#[export] Instance SharedCatalogState_eq_dec : EqDecision SharedCatalogState.
Proof. solve_decision. Defined.

Record RetentionObservation := mkObservation {
  ob_retention_class : RetentionClass; ob_selected_hit_count : Z; ob_last_hit_epoch : Z }.

Record PolicyObservationKey := mkPolicyKey {
  po_shared : bool; po_slot : Z; po_owner_id : Z; po_revision : Z; po_checkpoint : CheckpointRef }.

Record CheckpointObservation := mkCheckpointObservation {
  co_checkpoint : CheckpointRef; co_observation : RetentionObservation }.

Record ActiveOwnerEdge := mkEdge { ae_owner : LogicalOwnerKey; ae_slot : Z }.
#[export] Instance ActiveOwnerEdge_eq_dec : EqDecision ActiveOwnerEdge.
Proof. solve_decision. Defined.

Record OwnerClaim := mkClaim {
  cl_planning_id : PlanningOwnerId;
  cl_capability : CatalogCapability;
  cl_disposition : VictimDisposition;
  cl_dropped_checkpoints : list CheckpointRef;
}.

Record ReuseDomainId := mkDomain { rd_low : Z; rd_high : Z }.
#[export] Instance ReuseDomainId_eq_dec : EqDecision ReuseDomainId.
Proof. solve_decision. Defined.

Record PrefixDemandRecord := mkDemand {
  pd_domain : ReuseDomainId;
  pd_candidate_keys : list PrefixShortlistKey;
  pd_exact_resident_keys : list PrefixShortlistKey;
  pd_selected_source_key : option PrefixShortlistKey;
}.

Record CatalogEntry := mkEntry {
  ce_state : CatalogState;
  ce_id : Z;
  ce_revision : Z;
  ce_summary : ContinuationSummary;
  ce_handle : option Z;
  ce_session : option PreparedSessionKey;
  ce_observations : list CheckpointObservation;
  ce_retention : RetentionClass;
}.

Record SharedCatalogEntry := mkSharedEntry {
  se_state : SharedCatalogState;
  se_id : Z;
  se_revision : Z;
  se_summary : SharedPrefixSummary;
  se_handle : option Z;
  se_observation : RetentionObservation;
  se_transaction_pins : Z;
  se_explicit_credit : bool;
  se_credit_expiry_epoch : Z;
}.

Record PrefixIndexEntry := mkPrefixEntry {
  pi_occupied : bool;
  pi_shared : bool;
  pi_key : PrefixShortlistKey;
  pi_slot : Z;
  pi_owner_id : Z;
  pi_revision : Z;
  pi_checkpoint : CheckpointRef;
}.

Record ActiveEntry := mkActive {
  ac_occupied : bool;
  ac_publication_slot : Z;
  ac_continuation_id : Z;
  ac_session : option PreparedSessionKey;
  ac_retention : RetentionClass;
  ac_update_session_index : bool;
  ac_publication_order : Z;
  ac_retained_private_source : option ActiveOwnerEdge;
  ac_shared_sources : list ActiveOwnerEdge;
}.

Record MaterializationRecord := mkMaterialization {
  mt_destination : Z;
  mt_private_source : option CatalogCapability;
  mt_source_mode : PrivateSourceMode;
  mt_shared_source : option CatalogCapability;
  mt_publication_slot : Z;
  mt_private_claims : list OwnerClaim;
  mt_shared_claims : list OwnerClaim;
  mt_selected_observation : option PolicyObservationKey;
  mt_session : option PreparedSessionKey;
  mt_retention : RetentionClass;
  mt_update_session_index : bool;
  mt_publication_order : Z;
  mt_diagnostics : MaterializationDiagnostics;
  mt_demand : PrefixDemandRecord;
}.

Record ActiveCaptureRecord := mkCapture {
  cap_lane : Z;
  cap_publishes_private : bool;
  cap_publishes_shared : bool;
  cap_publication_slot : Z;
  cap_replacement_id : Z;
  cap_replacement_revision : Z;
  cap_shared_evidence : SharedCandidateEvidence;
  cap_private_claims : list OwnerClaim;
  cap_shared_claims : list OwnerClaim;
}.

Inductive ContextTransaction :=
  | NoTransaction
  | OpenMaterialization (record : MaterializationRecord)
  | OpenCapture (record : ActiveCaptureRecord).

Record Config := mkConfig {
  cf_self : Z;
  cf_lane_count : Z;
  cf_catalog_count : Z;
  cf_shared_catalog_count : Z;
  cf_cache_enabled : bool;
  cf_max_long_anchors : Z;
}.

Record Manager := mkManager {
  mg_config : Config;
  lanes_ : list LogicalLaneState;
  catalog_ : list CatalogEntry;
  shared_catalog_ : list SharedCatalogEntry;
  session_index_ : list SessionIndexEntry;
  prefix_index_ : list PrefixIndexEntry;
  demand_window_ : list PrefixDemandRecord;
  active_ : list ActiveEntry;
  transaction_ : ContextTransaction;
  context_stats_ : ContextStats;
  next_continuation_id_ : Z;
  next_shared_prefix_id_ : Z;
  retention_epoch_ : Z;
  demand_epoch_ : Z;
}.

Definition lane_count_ m := cf_lane_count (mg_config m).
Definition catalog_count_ m := cf_catalog_count (mg_config m).
Definition shared_catalog_count_ m := cf_shared_catalog_count (mg_config m).
Definition cache_enabled_ m := cf_cache_enabled (mg_config m).
Definition max_long_anchors_ m := cf_max_long_anchors (mg_config m).

(** Assignments to the fields of the manager. *)
Definition set_lanes x m := mkManager (mg_config m) x (catalog_ m) (shared_catalog_ m) (session_index_ m)
  (prefix_index_ m) (demand_window_ m) (active_ m) (transaction_ m) (context_stats_ m) (next_continuation_id_ m)
  (next_shared_prefix_id_ m) (retention_epoch_ m) (demand_epoch_ m).
Definition set_catalog x m := mkManager (mg_config m) (lanes_ m) x (shared_catalog_ m) (session_index_ m)
  (prefix_index_ m) (demand_window_ m) (active_ m) (transaction_ m) (context_stats_ m) (next_continuation_id_ m)
  (next_shared_prefix_id_ m) (retention_epoch_ m) (demand_epoch_ m).
Definition set_shared x m := mkManager (mg_config m) (lanes_ m) (catalog_ m) x (session_index_ m)
  (prefix_index_ m) (demand_window_ m) (active_ m) (transaction_ m) (context_stats_ m) (next_continuation_id_ m)
  (next_shared_prefix_id_ m) (retention_epoch_ m) (demand_epoch_ m).
Definition set_sessions x m := mkManager (mg_config m) (lanes_ m) (catalog_ m) (shared_catalog_ m) x
  (prefix_index_ m) (demand_window_ m) (active_ m) (transaction_ m) (context_stats_ m) (next_continuation_id_ m)
  (next_shared_prefix_id_ m) (retention_epoch_ m) (demand_epoch_ m).
Definition set_prefix_index x m := mkManager (mg_config m) (lanes_ m) (catalog_ m) (shared_catalog_ m) (session_index_ m)
  x (demand_window_ m) (active_ m) (transaction_ m) (context_stats_ m) (next_continuation_id_ m)
  (next_shared_prefix_id_ m) (retention_epoch_ m) (demand_epoch_ m).
Definition set_demand window epoch m := mkManager (mg_config m) (lanes_ m) (catalog_ m) (shared_catalog_ m) (session_index_ m)
  (prefix_index_ m) window (active_ m) (transaction_ m) (context_stats_ m) (next_continuation_id_ m)
  (next_shared_prefix_id_ m) (retention_epoch_ m) epoch.
Definition set_active x m := mkManager (mg_config m) (lanes_ m) (catalog_ m) (shared_catalog_ m) (session_index_ m)
  (prefix_index_ m) (demand_window_ m) x (transaction_ m) (context_stats_ m) (next_continuation_id_ m)
  (next_shared_prefix_id_ m) (retention_epoch_ m) (demand_epoch_ m).
Definition set_transaction x m := mkManager (mg_config m) (lanes_ m) (catalog_ m) (shared_catalog_ m) (session_index_ m)
  (prefix_index_ m) (demand_window_ m) (active_ m) x (context_stats_ m) (next_continuation_id_ m)
  (next_shared_prefix_id_ m) (retention_epoch_ m) (demand_epoch_ m).
Definition set_stats x m := mkManager (mg_config m) (lanes_ m) (catalog_ m) (shared_catalog_ m) (session_index_ m)
  (prefix_index_ m) (demand_window_ m) (active_ m) (transaction_ m) x (next_continuation_id_ m)
  (next_shared_prefix_id_ m) (retention_epoch_ m) (demand_epoch_ m).
Definition set_counters continuation shared retention m := mkManager (mg_config m) (lanes_ m) (catalog_ m) (shared_catalog_ m)
  (session_index_ m) (prefix_index_ m) (demand_window_ m) (active_ m) (transaction_ m) (context_stats_ m) continuation
  shared retention (demand_epoch_ m).

(** Assignments to the fields of entries. *)
Definition set_entry_state x e := mkEntry x (ce_id e) (ce_revision e) (ce_summary e) (ce_handle e) (ce_session e)
  (ce_observations e) (ce_retention e).
Definition set_entry_id x e := mkEntry (ce_state e) x (ce_revision e) (ce_summary e) (ce_handle e) (ce_session e)
  (ce_observations e) (ce_retention e).
Definition set_entry_revision x e := mkEntry (ce_state e) (ce_id e) x (ce_summary e) (ce_handle e) (ce_session e)
  (ce_observations e) (ce_retention e).
Definition set_entry_summary x e := mkEntry (ce_state e) (ce_id e) (ce_revision e) x (ce_handle e) (ce_session e)
  (ce_observations e) (ce_retention e).
Definition set_entry_handle x e := mkEntry (ce_state e) (ce_id e) (ce_revision e) (ce_summary e) x (ce_session e)
  (ce_observations e) (ce_retention e).
Definition set_entry_session x e := mkEntry (ce_state e) (ce_id e) (ce_revision e) (ce_summary e) (ce_handle e) x
  (ce_observations e) (ce_retention e).
Definition set_entry_observations x e := mkEntry (ce_state e) (ce_id e) (ce_revision e) (ce_summary e) (ce_handle e) (ce_session e)
  x (ce_retention e).
Definition set_entry_retention x e := mkEntry (ce_state e) (ce_id e) (ce_revision e) (ce_summary e) (ce_handle e) (ce_session e)
  (ce_observations e) x.

Definition set_shared_state x e := mkSharedEntry x (se_id e) (se_revision e) (se_summary e) (se_handle e) (se_observation e)
  (se_transaction_pins e) (se_explicit_credit e) (se_credit_expiry_epoch e).
Definition set_shared_pins x e := mkSharedEntry (se_state e) (se_id e) (se_revision e) (se_summary e) (se_handle e) (se_observation e)
  x (se_explicit_credit e) (se_credit_expiry_epoch e).
Definition set_shared_observation x e := mkSharedEntry (se_state e) (se_id e) (se_revision e) (se_summary e) (se_handle e) x
  (se_transaction_pins e) (se_explicit_credit e) (se_credit_expiry_epoch e).
Definition set_shared_summary revision x e := mkSharedEntry (se_state e) (se_id e) revision x (se_handle e) (se_observation e)
  (se_transaction_pins e) (se_explicit_credit e) (se_credit_expiry_epoch e).
Definition set_shared_credit credit expiry e := mkSharedEntry (se_state e) (se_id e) (se_revision e) (se_summary e) (se_handle e)
  (se_observation e) (se_transaction_pins e) credit expiry.
Definition set_active_edges private shared a := mkActive (ac_occupied a) (ac_publication_slot a) (ac_continuation_id a) (ac_session a)
  (ac_retention a) (ac_update_session_index a) (ac_publication_order a) private shared.

(** Default-initialized entries. *)
Definition vacant_entry : CatalogEntry := mkEntry CatVacant 0 1 empty_continuation None None [] RecentPrivate.
Definition vacant_shared : SharedCatalogEntry :=
  mkSharedEntry ShVacant 0 1 empty_shared None (mkObservation SharedStable 0 0) 0 false 0.
Definition empty_active : ActiveEntry := mkActive false kInvalidCatalogSlot 0 None RecentPrivate true 0 None [].
Definition empty_prefix_entry : PrefixIndexEntry :=
  mkPrefixEntry false false (mkShortlist 0 0 0 0) kInvalidCatalogSlot 0 0 (mkCheckpointRef SessionEndpoint 0 0).

(** ** Vectors of the manager *)

Definition entry_at (m : Manager) (slot : Z) : result CatalogEntry := from_option Ok (Throw Terminate) (at_index (catalog_ m) slot).
Definition shared_at (m : Manager) (slot : Z) : result SharedCatalogEntry := from_option Ok (Throw Terminate) (at_index (shared_catalog_ m) slot).
Definition active_at (m : Manager) (lane : Z) : result ActiveEntry := from_option Ok (Throw Terminate) (at_index (active_ m) lane).
Definition lane_at (m : Manager) (lane : Z) : result LogicalLaneState := from_option Ok (Throw Terminate) (at_index (lanes_ m) lane).

(** A function of the manager's state that may throw. *)
Definition view {A} (f : Manager -> result A) : M Manager A := fun m => (m, f m).

Definition get_entry (slot : Z) : M Manager CatalogEntry := view (fun m => entry_at m slot).
Definition get_shared (slot : Z) : M Manager SharedCatalogEntry := view (fun m => shared_at m slot).
Definition get_active (lane : Z) : M Manager ActiveEntry := view (fun m => active_at m lane).

Definition put_entry (slot : Z) (e : CatalogEntry) : M Manager unit :=
  _ ← get_entry slot; mmodify (fun m => set_catalog (set_index (catalog_ m) slot e) m).
Definition put_shared (slot : Z) (e : SharedCatalogEntry) : M Manager unit :=
  _ ← get_shared slot; mmodify (fun m => set_shared (set_index (shared_catalog_ m) slot e) m).
Definition put_active (lane : Z) (a : ActiveEntry) : M Manager unit :=
  _ ← get_active lane; mmodify (fun m => set_active (set_index (active_ m) lane a) m).
Definition put_lane (lane : Z) (x : LogicalLaneState) : M Manager unit :=
  _ ← view (fun m => lane_at m lane); mmodify (fun m => set_lanes (set_index (lanes_ m) lane x) m).

Definition modify_entry (slot : Z) (f : CatalogEntry -> CatalogEntry) : M Manager unit := e ← get_entry slot; put_entry slot (f e).
Definition modify_shared (slot : Z) (f : SharedCatalogEntry -> SharedCatalogEntry) : M Manager unit := e ← get_shared slot; put_shared slot (f e).
Definition modify_active (lane : Z) (f : ActiveEntry -> ActiveEntry) : M Manager unit := a ← get_active lane; put_active lane (f a).
Definition modify_stats (f : ContextStats -> ContextStats) : M Manager unit := mmodify (fun m => set_stats (f (context_stats_ m)) m).

Definition when_some {A} (o : option A) (f : A -> M Manager unit) : M Manager unit :=
  match o with Some a => f a | None => mret tt end.
Fixpoint for_each {S A} (f : A -> M S unit) (l : list A) : M S unit :=
  match l with [] => mret tt | a :: l => _ ← f a; for_each f l end.
Fixpoint check_each {A} (f : A -> result unit) (l : list A) : result unit :=
  match l with [] => Ok tt | a :: l => _ ← f a; check_each f l end.

Definition has {A} (o : option A) : bool := match o with Some _ => true | None => false end.

(** ** Construction *)

Definition checked_prefix_index_capacity (private_capacity shared_capacity max_long_anchors : Z) : result Z :=
  let width := w64 (max_long_anchors + 2) in
  if negb (private_capacity =? 0) && ((u64_max - shared_capacity) / private_capacity <? width) then Throw OverflowError
  else Ok (w64 (private_capacity * width + shared_capacity)).

Definition make_manager (self lane_count private_catalog_capacity shared_catalog_capacity : Z) (cache_enabled : bool)
    (max_long_anchors : Z) : result Manager :=
  index_capacity ← checked_prefix_index_capacity private_catalog_capacity shared_catalog_capacity max_long_anchors;
  _ ← throw_if ((lane_count =? 0) || (kMaximumConcurrency <? lane_count) || (private_catalog_capacity <? lane_count)) InvalidArgument;
  Ok (mkManager (mkConfig self lane_count private_catalog_capacity shared_catalog_capacity cache_enabled max_long_anchors)
        (replicate (Z.to_nat kMaximumConcurrency) LaneFree)
        (replicate (Z.to_nat private_catalog_capacity) vacant_entry)
        (replicate (Z.to_nat shared_catalog_capacity) vacant_shared)
        (replicate (Z.to_nat private_catalog_capacity) empty_session)
        (replicate (Z.to_nat index_capacity) empty_prefix_entry) []
        (replicate (Z.to_nat kMaximumConcurrency) empty_active) NoTransaction zero_stats 1 1 0 0).

(** ** Capabilities and active edges *)

(** The checked accesses [catalog_.at(slot)], [shared_catalog_.at(slot)]. *)
Definition checked_entry (m : Manager) (slot : Z) : result CatalogEntry := from_option Ok (Throw OutOfRange) (at_index (catalog_ m) slot).
Definition checked_shared (m : Manager) (slot : Z) : result SharedCatalogEntry := from_option Ok (Throw OutOfRange) (at_index (shared_catalog_ m) slot).

Definition private_capability (m : Manager) (slot : Z) : result CatalogCapability :=
  e ← checked_entry m slot; Ok (mkCapability (mkOwner PrivateContinuation (ce_id e)) slot (ce_revision e)).
Definition shared_capability (m : Manager) (slot : Z) : result CatalogCapability :=
  e ← checked_shared m slot; Ok (mkCapability (mkOwner SharedPrefix (se_id e)) slot (se_revision e)).
Definition active_edge (c : CatalogCapability) : ActiveOwnerEdge := mkEdge (cc_owner c) (cc_slot c).

(** The active entries of the lanes in use. *)
Definition active_lanes (m : Manager) : list ActiveEntry := take (Z.to_nat (lane_count_ m)) (active_ m).

Definition private_has_active_edge (m : Manager) (slot : Z) : bool :=
  existsb (fun a => ac_occupied a &&
             match ac_retained_private_source a with Some edge => ae_slot edge =? slot | None => false end) (active_lanes m).

Definition edge_count (slot : Z) (a : ActiveEntry) : Z :=
  w32 (Z.of_nat (length (filter (fun edge => ae_slot edge = slot) (ac_shared_sources a)))).
Definition shared_active_edge_count (m : Manager) (slot : Z) : Z :=
  foldl (fun count a => if ac_occupied a then w32 (count + edge_count slot a) else count) 0 (active_lanes m).

Definition advance_revision (revision : Z) : Z :=
  let revision := w64 (revision + 1) in if revision =? 0 then w64 (revision + 1) else revision.

(** ** Summaries *)

Definition valid_checkpoint_summary (c : CheckpointSummary) (scope : CheckpointScope) : bool :=
  negb (cr_frontier (cp_ref c) =? 0) && (cr_ordinal (cp_ref c) =? 0) && bool_decide (cp_scope c = scope) &&
  (pk_frontier (cp_shortlist_key c) =? cr_frontier (cp_ref c)) && negb (kr_main_pages (cp_required_kv c) =? 0) &&
  negb (pw_tokens (cp_rebuild_work c) =? 0).

Definition valid_anchor (max_long_anchors : Z) (c : CheckpointSummary) : bool :=
  bool_decide (cr_kind (cp_ref c) = LongAnchor) && negb (cr_ordinal (cp_ref c) =? 0) &&
  (cr_ordinal (cp_ref c) <=? max_long_anchors) && negb (cr_frontier (cp_ref c) =? 0) &&
  bool_decide (cp_scope c = PrivateScope) && (pk_frontier (cp_shortlist_key c) =? cr_frontier (cp_ref c)) &&
  negb (kr_main_pages (cp_required_kv c) =? 0) && negb (pw_tokens (cp_rebuild_work c) =? 0).

(** The loop over the anchors; [previous] are those already seen. *)
Fixpoint valid_anchors (max_long_anchors : Z) (previous anchors : list CheckpointSummary) : bool :=
  match anchors with
  | [] => true
  | anchor :: anchors =>
      valid_anchor max_long_anchors anchor &&
      negb (existsb (fun p => cr_ordinal (cp_ref p) =? cr_ordinal (cp_ref anchor)) previous) &&
      valid_anchors max_long_anchors (previous ++ [anchor]) anchors
  end.

Definition valid_continuation_summary (max_long_anchors : Z) (s : ContinuationSummary) : bool :=
  negb ((negb (has (cs_endpoint s)) && negb (has (cs_rewrite s)) && bool_decide (cs_long_anchors s = [])) ||
        (max_long_anchors <? Z.of_nat (length (cs_long_anchors s)))) &&
  match cs_endpoint s with
  | Some c => bool_decide (cr_kind (cp_ref c) = SessionEndpoint) && valid_checkpoint_summary c PrivateScope
  | None => true
  end &&
  match cs_rewrite s with
  | Some c =>
      negb (bool_decide (cr_kind (cp_ref c) = SessionEndpoint) || bool_decide (cr_kind (cp_ref c) = SharedStablePrefix) ||
            bool_decide (cr_kind (cp_ref c) = LongAnchor)) && valid_checkpoint_summary c PrivateScope
  | None => true
  end &&
  valid_anchors max_long_anchors [] (cs_long_anchors s).

Definition valid_shared_prefix_summary (s : SharedPrefixSummary) : bool :=
  bool_decide (cr_kind (cp_ref (ss_checkpoint s)) = SharedStablePrefix) &&
  valid_checkpoint_summary (ss_checkpoint s) SharedScope.

(** The checkpoints of a continuation, in the order in which the code visits them. *)
Definition continuation_checkpoints (s : ContinuationSummary) : list CheckpointSummary :=
  option_list (cs_endpoint s) ++ option_list (cs_rewrite s) ++ cs_long_anchors s.

Definition assign_continuation_summary (max_long_anchors : Z) (source : ContinuationSummary) : result ContinuationSummary :=
  _ ← throw_if (max_long_anchors <? Z.of_nat (length (cs_long_anchors source))) Terminate;
  Ok (mkContinuation (cs_endpoint source) (cs_rewrite source) (cs_long_anchors source) 0).

Definition find_observation (observations : list CheckpointObservation) (c : CheckpointRef) : option RetentionObservation :=
  co_observation <$> List.find (fun o => bool_decide (co_checkpoint o = c)) observations.

(** [migrate_observations]: what is known of a checkpoint that stays is kept. *)
Definition migrated (observations : list CheckpointObservation) (retention : RetentionClass) (c : CheckpointSummary) : CheckpointObservation :=
  mkCheckpointObservation (cp_ref c)
    (match find_observation observations (cp_ref c) with
     | Some old => mkObservation retention (ob_selected_hit_count old) (ob_last_hit_epoch old)
     | None => mkObservation retention 0 0
     end).

Fixpoint migrate_each (capacity : Z) (observations : list CheckpointObservation) (retention : RetentionClass)
    (scratch : list CheckpointObservation) (cs : list CheckpointSummary) : result (list CheckpointObservation) :=
  match cs with
  | [] => Ok scratch
  | c :: cs =>
      _ ← throw_if (Z.of_nat (length scratch) =? capacity) Terminate;
      migrate_each capacity observations retention (scratch ++ [migrated observations retention c]) cs
  end.

Definition migrate_observations (max_long_anchors : Z) (e : CatalogEntry) (s : ContinuationSummary) (retention : RetentionClass) : result CatalogEntry :=
  os ← migrate_each (w32 (3 + max_long_anchors)) (ce_observations e) retention [] (continuation_checkpoints s);
  Ok (set_entry_observations os e).

Definition clear_catalog_entry (e : CatalogEntry) : CatalogEntry :=
  mkEntry CatVacant 0 (advance_revision (ce_revision e)) empty_continuation None None [] RecentPrivate.
Definition clear_shared_entry (e : SharedCatalogEntry) : SharedCatalogEntry :=
  mkSharedEntry ShVacant 0 (advance_revision (se_revision e)) empty_shared None (mkObservation SharedStable 0 0) 0 false 0.

(** ** The prefix index *)

Definition private_index_entries (slot : Z) (e : CatalogEntry) : list PrefixIndexEntry :=
  if negb (bool_decide (ce_state e = CatCatalogued)) || negb (has (ce_handle e)) then []
  else (fun c => mkPrefixEntry true false (cp_shortlist_key c) slot (ce_id e) (ce_revision e) (cp_ref c)) <$>
         continuation_checkpoints (ce_summary e).
Definition shared_index_entries (slot : Z) (e : SharedCatalogEntry) : list PrefixIndexEntry :=
  if bool_decide (se_state e = ShCatalogued) && has (se_handle e)
  then [mkPrefixEntry true true (cp_shortlist_key (ss_checkpoint (se_summary e))) slot (se_id e) (se_revision e)
          (cp_ref (ss_checkpoint (se_summary e)))]
  else [].

(** The entries that [rebuild_prefix_index] appends, in its order. *)
Definition resident_entries (m : Manager) : list PrefixIndexEntry :=
  concat (imap (fun slot e => private_index_entries (Z.of_nat slot) e) (catalog_ m)) ++
  concat (imap (fun slot e => shared_index_entries (Z.of_nat slot) e) (shared_catalog_ m)).

(** The appends; [cursor] is the number of cells written, and a full vector throws with the cells
    written so far in place. *)
Fixpoint append_index (cursor : nat) (index entries : list PrefixIndexEntry) : list PrefixIndexEntry * result unit :=
  match entries with
  | [] => (index, Ok tt)
  | e :: entries =>
      if (length index <=? cursor)%nat then (index, Throw LogicError)
      else append_index (S cursor) (<[cursor := e]> index) entries
  end.

Definition rebuild_prefix_index : M Manager unit := fun m =>
  let '(index, r) := append_index 0 ((fun _ => empty_prefix_entry) <$> prefix_index_ m) (resident_entries m) in
  (set_prefix_index index m, r).

Definition valid_prefix_index_entry (m : Manager) (i : PrefixIndexEntry) : result bool :=
  if negb (pi_occupied i) then Ok false
  else if negb (pi_shared i) then
    if catalog_count_ m <=? pi_slot i then Ok false
    else
      e ← entry_at m (pi_slot i);
      Ok (bool_decide (ce_state e = CatCatalogued) && has (ce_handle e) && (ce_id e =? pi_owner_id i) &&
          (ce_revision e =? pi_revision i))
  else if shared_catalog_count_ m <=? pi_slot i then Ok false
  else
    e ← shared_at m (pi_slot i);
    Ok (bool_decide (se_state e = ShCatalogued) && has (se_handle e) && (se_id e =? pi_owner_id i) &&
        (se_revision e =? pi_revision i)).

(** ** Demand *)

Definition kDemandWindowCapacity : Z := 32.

Definition append_unique (keys : list PrefixShortlistKey) (key : PrefixShortlistKey) : list PrefixShortlistKey :=
  if bool_decide (key ∈ keys) then keys else keys ++ [key].

Definition demand_matches (d : PrefixDemandRecord) (key : PrefixShortlistKey) : bool :=
  bool_decide (key ∈ pd_candidate_keys d) || bool_decide (key ∈ pd_exact_resident_keys d) ||
  bool_decide (pd_selected_source_key d = Some key).

(** Two mixed hashes of the session's name; a request without a session is its own domain. *)
Definition reuse_domain (session : option PreparedSessionKey) (publication_order : Z) : ReuseDomainId :=
  match session with
  | None => mkDomain publication_order (Z.lxor publication_order 15485907386658061715)
  | Some key =>
      let step p value :=
        let low := w64 (Z.lxor p.1 value * 1099511628211) in
        let mixed := w64 (value + 11400714819323198485 + w64 (Z.shiftl p.2 6) + Z.shiftr p.2 2) in
        (low, w64 (Z.lxor p.2 mixed * 15485907386658061715)) in
      let '(low, high) := foldl step (1469598103934665603, Z.lxor 1099511628211 11400714819323198485) (session_view key) in
      mkDomain low high
  end.

(** The bits of the records from [bit] on that match the key. *)
Fixpoint mask_from (bit : nat) (window : list PrefixDemandRecord) (key : PrefixShortlistKey) : Z :=
  match window with
  | [] => 0
  | d :: window => Z.lor (if demand_matches d key then Z.shiftl 1 (Z.of_nat bit) else 0) (mask_from (S bit) window key)
  end.

Definition committed_demand_mask_for (m : Manager) (key : PrefixShortlistKey) : Z := mask_from 0 (demand_window_ m) key.

(** The window as it will be once the provisional record is committed. *)
Definition retained_window (m : Manager) : list PrefixDemandRecord :=
  if Z.of_nat (length (demand_window_ m)) =? kDemandWindowCapacity then tail (demand_window_ m) else demand_window_ m.

Definition demand_mask_for (m : Manager) (key : PrefixShortlistKey) (provisional : PrefixDemandRecord) : Z :=
  let window := retained_window m in
  let bit := length window in
  Z.lor (mask_from 0 window key)
    (if (Z.of_nat bit <? kDemandWindowCapacity) && demand_matches provisional key then Z.shiftl 1 (Z.of_nat bit) else 0).

(** The distinct domains of the matching records, in order. *)
Definition append_domain (key : PrefixShortlistKey) (domains : list ReuseDomainId) (d : PrefixDemandRecord) : list ReuseDomainId :=
  if negb (demand_matches d key) || bool_decide (pd_domain d ∈ domains) then domains else domains ++ [pd_domain d].

Definition matching_reuse_domains (m : Manager) (key : PrefixShortlistKey) : Z :=
  Z.of_nat (length (foldl (append_domain key) [] (demand_window_ m))).
Definition matching_reuse_domains_with (m : Manager) (key : PrefixShortlistKey) (provisional : PrefixDemandRecord) : Z :=
  Z.of_nat (length (foldl (append_domain key) [] (retained_window m ++ [provisional]))).

Definition private_retention_weight (c : RetentionClass) : Z :=
  match c with Disposable => 1 | RecentPrivate => 4 | LiveSession => 16 | SharedStable => 0 end.

Definition newest_hit_epoch (e : CatalogEntry) : Z :=
  foldl (fun epoch o => Z.max epoch (ob_last_hit_epoch (co_observation o))) 0 (ce_observations e).

(** [commit_demand]: a shared prefix whose explicit credit has served or expired loses it. *)
Definition settle_credit (committed : PrefixDemandRecord) (demand_epoch : Z) (e : SharedCatalogEntry) : SharedCatalogEntry :=
  if negb (bool_decide (se_state e = ShCatalogued)) || negb (has (se_handle e)) || negb (se_explicit_credit e) then e
  else if bool_decide (cp_shortlist_key (ss_checkpoint (se_summary e)) ∈ pd_exact_resident_keys committed) then set_shared_credit false 0 e
  else if se_credit_expiry_epoch e <=? demand_epoch then set_shared_credit false 0 e
  else e.

Definition commit_demand (demand : PrefixDemandRecord) : M Manager unit :=
  mmodify (fun m =>
    let epoch := saturating_increment (demand_epoch_ m) in
    set_shared (settle_credit demand epoch <$> shared_catalog_ m)
      (set_demand (retained_window m ++ [demand]) epoch m)).

(** ** Pressure actions *)

Definition continuation_contains_checkpoint (s : ContinuationSummary) (c : CheckpointRef) : bool :=
  existsb (fun k => bool_decide (cp_ref k = c)) (continuation_checkpoints s).

Definition continuation_checkpoint_count (s : ContinuationSummary) : Z :=
  let count := Z.of_nat (length (continuation_checkpoints s)) in
  if u32_max <? count then u32_max else count.

(** [selected_checkpoint_drops]: [prior] are the outcomes already seen, [observed] counts the owner's. *)
Fixpoint collect_drops (owner : PlanningOwnerId) (contains : CheckpointRef -> bool)
    (prior outcomes : list PressureCheckpointOutcome) (observed : Z) (dropped : list CheckpointRef) : result (Z * list CheckpointRef) :=
  match outcomes with
  | [] => Ok (observed, dropped)
  | o :: outcomes =>
      if negb (pco_owner o =? owner) then collect_drops owner contains (prior ++ [o]) outcomes observed dropped
      else
        _ ← throw_if (negb (contains (pco_checkpoint o)) ||
                      existsb (fun p => (pco_owner p =? owner) && bool_decide (pco_checkpoint p = pco_checkpoint o)) prior) LogicError;
        collect_drops owner contains (prior ++ [o]) outcomes (w32 (observed + 1))
          (if pco_survives o then dropped else dropped ++ [pco_checkpoint o])
  end.

Definition selected_checkpoint_drops (owner : PlanningOwnerId) (disposition : VictimDisposition) (expected_drop_count : Z)
    (outcomes : list PressureCheckpointOutcome) (checkpoint_count : Z) (contains : CheckpointRef -> bool) : result (list CheckpointRef) :=
  '(observed, dropped) ← collect_drops owner contains [] outcomes 0 [];
  let count := Z.of_nat (length dropped) in
  _ ← throw_if (negb (observed =? checkpoint_count) || negb (count =? expected_drop_count) ||
                negb (Bool.eqb (bool_decide (disposition = VictimEvicted)) (count =? checkpoint_count))) LogicError;
  Ok dropped.

Definition continuation_matches_claim (before : ContinuationSummary) (after : option ContinuationSummary)
    (disposition : VictimDisposition) (expected_drops : list CheckpointRef) : bool :=
  let before_count := continuation_checkpoint_count before in
  let drops := Z.of_nat (length expected_drops) in
  match disposition, after with
  | VictimEvicted, None => drops =? before_count
  | VictimEvicted, Some _ => false
  | VictimRetained, None => false
  | VictimRetained, Some after =>
      (w64 (continuation_checkpoint_count after + drops) =? before_count) &&
      forallb (fun k => xorb (continuation_contains_checkpoint after (cp_ref k)) (bool_decide (cp_ref k ∈ expected_drops)))
        (continuation_checkpoints before) &&
      forallb (continuation_contains_checkpoint before) expected_drops
  end.

Definition dropped_checkpoint_count (before : ContinuationSummary) (after : option ContinuationSummary) (disposition : VictimDisposition) : Z :=
  match disposition, after with
  | VictimEvicted, _ => continuation_checkpoint_count before
  | _, None => 0
  | _, Some after =>
      w32 (Z.of_nat (length (filter (fun k => continuation_contains_checkpoint after (cp_ref k) = false) (continuation_checkpoints before))))
  end.

(** The owner of a claim is still the one that was claimed. *)
Definition claimed_owner_changed (kind : LogicalOwnerKind) (claim : OwnerClaim) (claimed : bool) (id revision : Z) (handle : option Z) : bool :=
  negb (bool_decide (ok_kind (cc_owner (cl_capability claim)) = kind)) || negb claimed ||
  negb (id =? ok_id (cc_owner (cl_capability claim))) || negb (revision =? cc_generation (cl_capability claim)) || negb (has handle).

Definition validate_private_action (m : Manager) (claim : OwnerClaim) (target_committed : bool) (r : MaterializationVictimResult) : result unit :=
  let slot := cc_slot (cl_capability claim) in
  _ ← throw_if (catalog_count_ m <=? slot) LogicError;
  e ← entry_at m slot;
  _ ← throw_if (claimed_owner_changed PrivateContinuation claim (bool_decide (ce_state e = CatClaimed)) (ce_id e) (ce_revision e) (ce_handle e)) LogicError;
  _ ← throw_if (match vr_final_summary r with Some s => negb (valid_continuation_summary (max_long_anchors_ m) s) | None => false end) LogicError;
  let dropped := dropped_checkpoint_count (ce_summary e) (vr_final_summary r) (vr_disposition r) in
  _ ← throw_if (target_committed && negb (vr_pressure_committed r)) LogicError;
  _ ← throw_if (vr_pressure_committed r &&
                (negb (bool_decide (vr_disposition r = cl_disposition claim)) ||
                 negb (continuation_matches_claim (ce_summary e) (vr_final_summary r) (vr_disposition r) (cl_dropped_checkpoints claim)))) LogicError;
  match vr_disposition r with
  | VictimEvicted => throw_if (negb (vr_pressure_committed r) || has (vr_final_summary r)) LogicError
  | VictimRetained =>
      _ ← throw_if (negb (vr_pressure_committed r) &&
                    (negb (dropped =? 0) ||
                     (has (vr_final_summary r) &&
                      negb (continuation_matches_claim (ce_summary e) (vr_final_summary r) VictimRetained [])))) LogicError;
      throw_if (vr_pressure_committed r && negb (has (vr_final_summary r))) LogicError
  end.

Definition validate_shared_action (m : Manager) (claim : OwnerClaim) (target_committed : bool) (r : MaterializationSharedVictimResult) : result unit :=
  let slot := cc_slot (cl_capability claim) in
  _ ← throw_if (shared_catalog_count_ m <=? slot) LogicError;
  e ← shared_at m slot;
  let checkpoint := cp_ref (ss_checkpoint (se_summary e)) in
  let same (s : SharedPrefixSummary) := bool_decide (cp_ref (ss_checkpoint s) = checkpoint) in
  _ ← throw_if (claimed_owner_changed SharedPrefix claim (bool_decide (se_state e = ShClaimed)) (se_id e) (se_revision e) (se_handle e)) LogicError;
  _ ← throw_if (match sv_final_summary r with Some s => negb (valid_shared_prefix_summary s) | None => false end) LogicError;
  _ ← throw_if (target_committed && negb (sv_pressure_committed r)) LogicError;
  let exact_committed_outcome :=
    match sv_disposition r with
    | VictimEvicted => bool_decide (cl_dropped_checkpoints claim = [checkpoint]) && negb (has (sv_final_summary r))
    | VictimRetained =>
        bool_decide (cl_dropped_checkpoints claim = []) &&
        match sv_final_summary r with Some s => same s | None => false end
    end in
  _ ← throw_if (sv_pressure_committed r &&
                (negb (bool_decide (sv_disposition r = cl_disposition claim)) || negb exact_committed_outcome)) LogicError;
  match sv_disposition r with
  | VictimEvicted => throw_if (negb (sv_pressure_committed r) || has (sv_final_summary r)) LogicError
  | VictimRetained =>
      _ ← throw_if (negb (sv_pressure_committed r) && match sv_final_summary r with Some s => negb (same s) | None => false end) LogicError;
      throw_if (sv_pressure_committed r && negb (has (sv_final_summary r))) LogicError
  end.

Definition erase_sessions (owner_id : Z) : M Manager unit :=
  mmodify (fun m => set_sessions (erase_session_if_owner owner_id (session_index_ m)) m).
Definition refresh_sessions (owner_id slot revision : Z) : M Manager unit :=
  mmodify (fun m => set_sessions (refresh_session_owner_revision (catalog_count_ m) owner_id slot revision (session_index_ m)) m).

(** The summary of a continuation that stays in the catalog changes. *)
Definition replace_summary (slot : Z) (s : ContinuationSummary) : M Manager unit :=
  e ← get_entry slot;
  summary ← view (fun m => assign_continuation_summary (max_long_anchors_ m) s);
  e ← view (fun m => migrate_observations (max_long_anchors_ m) (set_entry_summary summary e) s (ce_retention e));
  put_entry slot (set_entry_revision (advance_revision (ce_revision e)) e).

Definition apply_private_action (claim : OwnerClaim) (r : MaterializationVictimResult) : M Manager unit :=
  let slot := cc_slot (cl_capability claim) in
  let owner_id := ok_id (cc_owner (cl_capability claim)) in
  e ← get_entry slot;
  let dropped := dropped_checkpoint_count (ce_summary e) (vr_final_summary r) (vr_disposition r) in
  match vr_disposition r with
  | VictimEvicted =>
      _ ← erase_sessions owner_id;
      _ ← put_entry slot (clear_catalog_entry e);
      _ ← modify_stats count_private_evicted;
      modify_stats (record_checkpoint_drops dropped)
  | VictimRetained =>
      if negb (vr_pressure_committed r) then put_entry slot (set_entry_state CatCatalogued e)
      else
        match vr_final_summary r with
        | None => mthrow Terminate
        | Some s =>
            _ ← replace_summary slot s;
            e ← get_entry slot;
            _ ← refresh_sessions owner_id slot (ce_revision e);
            _ ← modify_stats count_private_degraded;
            _ ← modify_stats (record_checkpoint_drops dropped);
            put_entry slot (set_entry_state CatCatalogued e)
        end
  end.

Definition apply_shared_action (claim : OwnerClaim) (r : MaterializationSharedVictimResult) : M Manager unit :=
  let slot := cc_slot (cl_capability claim) in
  e ← get_shared slot;
  match sv_disposition r with
  | VictimEvicted =>
      _ ← put_shared slot (clear_shared_entry e);
      _ ← modify_stats count_shared_evicted;
      modify_stats (record_checkpoint_drops 1)
  | VictimRetained =>
      if negb (sv_pressure_committed r) then put_shared slot (set_shared_state ShCatalogued e)
      else
        match sv_final_summary r with
        | None => mthrow Terminate
        | Some s =>
            _ ← put_shared slot (set_shared_state ShCatalogued (set_shared_summary (advance_revision (se_revision e)) s e));
            _ ← modify_stats count_shared_degraded;
            modify_stats (record_checkpoint_drops 0)
        end
  end.
