(* ===== verification/ContextManager.v ===== *)
(** * Context cache: the operations of the resource manager

    The members of [ResourceManager] (runtime/engine/context_cache/resource_manager.h) that change its
    state.  The model program is an interface, [ModelContract], like the class template's parameter:
    its calls change a program state and return any value or throw.  The searches of the planners
    ([MaterializationPlanner], [SharedCapturePlanner]) and their costs are arguments: an operation
    takes the choice that a planner returned. *)

From S2P Require Import Prelude ContextTypes SessionIndex ContextCatalog.
Open Scope Z_scope.

(** ** Lanes, sessions and references *)

Definition require_lane (m : Manager) (lane : Z) (expected : LogicalLaneState) : result unit :=
  _ ← throw_if (lane_count_ m <=? lane) LogicError;
  state ← lane_at m lane;
  _ ← throw_if (negb (bool_decide (state = expected))) LogicError;
  if bool_decide (expected = LaneActive) || bool_decide (expected = LaneTerminalPending) then
    a ← active_at m lane; throw_if (negb (ac_occupied a)) LogicError
  else Ok tt.

Definition demote_observation (o : CheckpointObservation) : CheckpointObservation :=
  mkCheckpointObservation (co_checkpoint o)
    (mkObservation RecentPrivate (ob_selected_hit_count (co_observation o)) (ob_last_hit_epoch (co_observation o))).

(** The continuation that lost its session's name. *)
Definition demote_replaced_session (previous : SessionIndexEntry) (replacement_slot replacement_id : Z) : M Manager unit :=
  m ← mget;
  if (catalog_count_ m <=? si_slot previous) ||
     ((si_slot previous =? replacement_slot) && (si_owner_id previous =? replacement_id)) then mret tt
  else
    prior ← get_entry (si_slot previous);
    if negb (bool_decide (ce_state prior = CatCatalogued)) || negb (has (ce_handle prior)) ||
       negb (ce_id prior =? si_owner_id previous) || negb (ce_revision prior =? si_revision previous) then mret tt
    else
      put_entry (si_slot previous)
        (set_entry_observations (demote_observation <$> ce_observations prior)
           (set_entry_retention RecentPrivate (set_entry_session None prior))).

Definition publish_session (key : PreparedSessionKey) (slot owner_id revision publication_order : Z) : M Manager bool :=
  m ← mget;
  '(index, newest, previous) ← mlift (publish_cell key slot owner_id revision publication_order (session_index_ m));
  _ ← mmodify (set_sessions index);
  _ ← when_some previous (fun e => demote_replaced_session e slot owner_id);
  mret newest.

Definition stale_private_edge (m : Manager) (edge : ActiveOwnerEdge) : result unit :=
  _ ← throw_if (negb (bool_decide (ok_kind (ae_owner edge) = PrivateContinuation)) || (catalog_count_ m <=? ae_slot edge)) LogicError;
  e ← entry_at m (ae_slot edge);
  throw_if (negb (bool_decide (ce_state e = CatCatalogued)) || negb (has (ce_handle e)) || negb (ce_id e =? ok_id (ae_owner edge))) LogicError.

(** The loop over the shared edges; [previous] are those already seen. *)
Fixpoint stale_shared_edges (m : Manager) (previous edges : list ActiveOwnerEdge) : result unit :=
  match edges with
  | [] => Ok tt
  | edge :: edges =>
      _ ← throw_if (negb (bool_decide (ok_kind (ae_owner edge) = SharedPrefix)) || (shared_catalog_count_ m <=? ae_slot edge) ||
                    bool_decide (edge ∈ previous)) LogicError;
      e ← shared_at m (ae_slot edge);
      _ ← throw_if (negb (bool_decide (se_state e = ShCatalogued)) || negb (has (se_handle e)) || negb (se_id e =? ok_id (ae_owner edge))) LogicError;
      stale_shared_edges m (previous ++ [edge]) edges
  end.

Definition release_active_references (lane : Z) : M Manager unit :=
  a ← get_active lane;
  _ ← view (fun m => match ac_retained_private_source a with Some edge => stale_private_edge m edge | None => Ok tt end);
  _ ← view (fun m => stale_shared_edges m [] (ac_shared_sources a));
  put_active lane (set_active_edges None [] a).

(** [clear_catalog_entry(catalog_.at(...))]: the checked access throws. *)
Definition clear_publication (slot : Z) : M Manager unit :=
  e ← view (fun m => checked_entry m slot); put_entry slot (clear_catalog_entry e).

(** What a lane leaves behind when its sequence is gone. *)
Definition release_lane (lane : Z) : M Manager unit :=
  _ ← release_active_references lane;
  a ← get_active lane;
  _ ← clear_publication (ac_publication_slot a);
  _ ← put_active lane empty_active;
  put_lane lane LaneFree.

Definition release_cancelled_lane (lane : Z) : M Manager unit :=
  m ← mget;
  _ ← mthrow_if (lane_count_ m <=? lane) LogicError;
  a ← get_active lane;
  _ ← mthrow_if (negb (ac_occupied a)) LogicError;
  state ← view (fun m => lane_at m lane);
  _ ← mthrow_if (negb (bool_decide (state = LaneActive)) && negb (bool_decide (state = LaneTerminalPending))) LogicError;
  release_lane lane.

Definition mark_terminal_pending (lane : Z) : M Manager unit :=
  _ ← view (fun m => require_lane m lane LaneActive); put_lane lane LaneTerminalPending.

(** The rows of a commit, in order. *)
Fixpoint commit_rows (lanes : list Z) (rows : list CommitDisposition) : M Manager unit :=
  match lanes with
  | [] => mret tt
  | lane :: lanes =>
      _ ← view (fun m => require_lane m lane LaneActive);
      match rows with
      | [] => mthrow Terminate
      | row :: rows =>
          _ ← match row with
              | CommitActive => mret tt
              | CommitFinishable => put_lane lane LaneTerminalPending
              | CommitCancelledReleased => release_cancelled_lane lane
              end;
          commit_rows lanes rows
      end
  end.

Definition apply_commit (lanes : list Z) (r : CommitResult) : M Manager unit :=
  _ ← mthrow_if (negb (Z.of_nat (length lanes) =? ct_row_count r)) LogicError;
  commit_rows lanes (ct_rows r).

Definition apply_discard (lanes : list Z) (r : DiscardResult) : M Manager unit :=
  _ ← mthrow_if (negb (Z.of_nat (length lanes) =? dr_row_count r) || negb (bool_decide (dr_status r = Consumed))) LogicError;
  for_each release_cancelled_lane lanes.

(** [catch (...) {}]: the state reached is kept, [std::terminate] is not caught. *)
Definition swallow (p : M Manager unit) : M Manager unit := fun m =>
  match p m with
  | (m', Throw Terminate) => (m', Throw Terminate)
  | (m', _) => (m', Ok tt)
  end.

Definition release_failed_commit (lanes : list Z) : M Manager unit :=
  for_each (fun lane =>
    m ← mget;
    if lane_count_ m <=? lane then mret tt
    else
      a ← get_active lane;
      if ac_occupied a then swallow (release_cancelled_lane lane) else mret tt) lanes.

Definition clear_after_program_cleanup : M Manager unit :=
  mmodify (fun m =>
    let n := Z.to_nat (lane_count_ m) in
    set_demand [] 0
      (set_active (((fun _ => empty_active) <$> take n (active_ m)) ++ drop n (active_ m))
         (set_lanes (((fun _ => LaneFree) <$> take n (lanes_ m)) ++ drop n (lanes_ m))
            (set_sessions ((fun _ => empty_session) <$> session_index_ m)
               (set_shared (clear_shared_entry <$> shared_catalog_ m)
                  (set_catalog (clear_catalog_entry <$> catalog_ m) (set_transaction NoTransaction m))))))).

(** ** Choices and reservations *)

Definition catalogued_private (m : Manager) (c : CatalogCapability) : result bool :=
  e ← entry_at m (cc_slot c);
  Ok (bool_decide (ce_state e = CatCatalogued) && has (ce_handle e) && (ce_id e =? ok_id (cc_owner c)) &&
      (ce_revision e =? cc_generation c) && negb (private_has_active_edge m (cc_slot c))).

Definition catalogued_shared (m : Manager) (c : CatalogCapability) : result bool :=
  e ← shared_at m (cc_slot c);
  Ok (bool_decide (se_state e = ShCatalogued) && has (se_handle e) && (se_id e =? ok_id (cc_owner c)) && (se_revision e =? cc_generation c)).

(** No transaction pins the shared prefix and no lane uses it. *)
Definition unused_shared (m : Manager) (c : CatalogCapability) : result bool :=
  e ← shared_at m (cc_slot c);
  Ok ((se_transaction_pins e =? 0) && (shared_active_edge_count m (cc_slot c) =? 0)).

Definition same_slot (slot : Z) (source : option CatalogCapability) : bool :=
  match source with Some c => slot =? cc_slot c | None => false end.

Definition wrong_kind (kind : LogicalOwnerKind) (c : CatalogCapability) : bool := negb (bool_decide (ok_kind (cc_owner c) = kind)).

Definition validate_private_claim (m : Manager) (r : MaterializationRecord) (claim : OwnerClaim) : result unit :=
  let c := cl_capability claim in
  _ ← throw_if ((catalog_count_ m <=? cc_slot c) || same_slot (cc_slot c) (mt_private_source r)) LogicError;
  ok ← catalogued_private m c;
  throw_if (negb ok || wrong_kind PrivateContinuation c) LogicError.

Definition validate_shared_claim (m : Manager) (r : MaterializationRecord) (claim : OwnerClaim) : result unit :=
  let c := cl_capability claim in
  _ ← throw_if ((shared_catalog_count_ m <=? cc_slot c) || same_slot (cc_slot c) (mt_shared_source r)) LogicError;
  ok ← catalogued_shared m c;
  unused ← unused_shared m c;
  throw_if (negb ok || wrong_kind SharedPrefix c || negb unused) LogicError.

(** [validate_choice]; the members of a choice besides its plan are those of the record that
    [take_materialization_record] copies. *)
Definition validate_choice (m : Manager) (r : MaterializationRecord) (revision : Z) : result unit :=
  _ ← throw_if (lane_count_ m <=? mt_destination r) LogicError;
  lane ← lane_at m (mt_destination r);
  _ ← throw_if (negb (bool_decide (lane = LaneFree)) || (revision =? 0) || (catalog_count_ m <=? mt_publication_slot r) ||
                (mt_publication_order r =? 0)) LogicError;
  _ ← match mt_private_source r with
      | None => Ok tt
      | Some c =>
          _ ← throw_if (wrong_kind PrivateContinuation c || (catalog_count_ m <=? cc_slot c)) LogicError;
          ok ← catalogued_private m c; throw_if (negb ok) LogicError
      end;
  _ ← match mt_shared_source r with
      | None => Ok tt
      | Some c =>
          _ ← throw_if (wrong_kind SharedPrefix c || (shared_catalog_count_ m <=? cc_slot c)) LogicError;
          ok ← catalogued_shared m c; throw_if (negb ok) LogicError
      end;
  _ ← check_each (validate_private_claim m r) (mt_private_claims r);
  _ ← check_each (validate_shared_claim m r) (mt_shared_claims r);
  publication ← entry_at m (mt_publication_slot r);
  let source_cell := same_slot (mt_publication_slot r) (mt_private_source r) && bool_decide (mt_source_mode r = ConsumeToActive) in
  let victim_cell :=
    match List.find (fun claim => cc_slot (cl_capability claim) =? mt_publication_slot r) (mt_private_claims r) with
    | Some claim => bool_decide (cl_disposition claim = VictimEvicted)
    | None => false
    end in
  throw_if (negb (bool_decide (ce_state publication = CatVacant)) && negb source_cell && negb victim_cell) LogicError.

Definition set_claims_state (x : CatalogState) (claims : list OwnerClaim) : M Manager unit :=
  for_each (fun claim => modify_entry (cc_slot (cl_capability claim)) (set_entry_state x)) claims.
Definition set_shared_claims_state (x : SharedCatalogState) (claims : list OwnerClaim) : M Manager unit :=
  for_each (fun claim => modify_shared (cc_slot (cl_capability claim)) (set_shared_state x)) claims.

Definition reserve_logical_materialization (r : MaterializationRecord) : M Manager unit :=
  _ ← put_lane (mt_destination r) LaneMaterializing;
  _ ← when_some (mt_private_source r) (fun c => modify_entry (cc_slot c) (set_entry_state CatClaimed));
  _ ← when_some (mt_shared_source r) (fun c => modify_shared (cc_slot c) (fun e => set_shared_pins (w32 (se_transaction_pins e + 1)) e));
  _ ← set_claims_state CatClaimed (mt_private_claims r);
  _ ← set_shared_claims_state ShClaimed (mt_shared_claims r);
  modify_entry (mt_publication_slot r) (fun e => if bool_decide (ce_state e = CatVacant) then set_entry_state CatClaimed e else e).

(** Drops one pin, if there is one. *)
Definition unpin_shared (e : SharedCatalogEntry) : SharedCatalogEntry :=
  if negb (se_transaction_pins e =? 0) then set_shared_pins (w32 (se_transaction_pins e - 1)) e else e.

Definition rollback_logical_materialization (r : MaterializationRecord) : M Manager unit :=
  _ ← put_lane (mt_destination r) LaneFree;
  _ ← when_some (mt_private_source r) (fun c => modify_entry (cc_slot c) (set_entry_state CatCatalogued));
  _ ← when_some (mt_shared_source r) (fun c => modify_shared (cc_slot c) unpin_shared);
  _ ← set_claims_state CatCatalogued (mt_private_claims r);
  _ ← set_shared_claims_state ShCatalogued (mt_shared_claims r);
  modify_entry (mt_publication_slot r) (fun e => if (ce_id e =? 0) && negb (has (ce_handle e)) then set_entry_state CatVacant e else e).

Definition reserve_logical_active_capture (r : ActiveCaptureRecord) : M Manager unit :=
  _ ← set_claims_state CatClaimed (cap_private_claims r);
  _ ← set_shared_claims_state ShClaimed (cap_shared_claims r);
  modify_shared (cap_publication_slot r) (set_shared_state ShReservedCapture).

Definition rollback_logical_active_capture (r : ActiveCaptureRecord) : M Manager unit :=
  _ ← set_claims_state CatCatalogued (cap_private_claims r);
  _ ← set_shared_claims_state ShCatalogued (cap_shared_claims r);
  modify_shared (cap_publication_slot r) (set_shared_state (if cap_replacement_id r =? 0 then ShVacant else ShCatalogued)).

(** ** The model program *)

(** What the manager reads of a capture assessment. *)
Record CaptureAssessment := mkAssessment {
  ca_shortlist_key : PrefixShortlistKey;
  ca_shared_evidence : SharedCandidateEvidence;
  ca_private_replacement_candidates : list CheckpointRef;
  ca_publishes_private : bool;
  ca_publishes_shared : bool;
  ca_physically_feasible : bool;
}.

(** The members of [Program] that the manager calls (models/qwen3_5/program/program.h).  Handles are
    numbers; a null pointer argument is [None]. *)
Class ModelContract := {
  Program : Type;
  PreparedPrompt : Type;
  ResourcePlan : Type;
  CaptureOffer : Type;
  CapturePressurePlan : Type;
  plan_resource_revision : ResourcePlan -> Z;
  resource_revision : Program -> Z;
  has_context_transaction : Program -> bool;
  start_resource_transaction : ResourcePlan -> PreparedPrompt -> bool -> M Program ContextTransactionReserveStatus;
  program_progress : bool -> M Program ContextTransactionProgress;
  finalize_context_transaction : Program -> Program;
  skip_capture : CaptureOffer -> M Program unit;
  inspect_capture : Program -> CaptureOffer -> option Z -> option Z -> option CheckpointRef -> bool -> result CaptureAssessment;
  shared_capture_matches : Program -> CaptureOffer -> Z -> result bool;
  program_reserve_active_capture :
    CaptureOffer -> option Z -> option Z -> option CheckpointRef -> bool -> bool -> M Program ContextTransactionReserveStatus;
  program_reserve_active_capture_with_pressure :
    CaptureOffer -> option Z -> option Z -> option CheckpointRef -> bool -> CapturePressurePlan -> bool ->
    M Program ContextTransactionReserveStatus;
  program_finish : Z -> M Program FinishResult;
  program_abort : Z -> M Program AbortResult;
  release_continuation : Z -> M Program unit;
}.

(** What the manager relies on: only [finalize_context_transaction] ends a context transaction, and a
    call that fails throws an exception. *)
Class ModelContractLaws `{ModelContract} : Prop := {
  progress_keeps_transaction : forall cancelled p p' r,
    program_progress cancelled p = (p', r) -> has_context_transaction p = true -> has_context_transaction p' = true;
  skip_keeps_transaction : forall offer p p' r,
    skip_capture offer p = (p', r) -> has_context_transaction p = true -> has_context_transaction p' = true;
  start_throws : forall plan prompt cancelled p, (start_resource_transaction plan prompt cancelled p).2 <> Throw Terminate;
  progress_throws : forall cancelled p, (program_progress cancelled p).2 <> Throw Terminate;
  skip_throws : forall offer p, (skip_capture offer p).2 <> Throw Terminate;
  inspect_throws : forall p offer exact replacement private shared, inspect_capture p offer exact replacement private shared <> Throw Terminate;
  matches_throws : forall p offer handle, shared_capture_matches p offer handle <> Throw Terminate;
  capture_throws : forall offer exact replacement private shared cancelled p,
    (program_reserve_active_capture offer exact replacement private shared cancelled p).2 <> Throw Terminate;
  pressure_capture_throws : forall offer exact replacement private shared pressure cancelled p,
    (program_reserve_active_capture_with_pressure offer exact replacement private shared pressure cancelled p).2 <> Throw Terminate;
  finish_throws : forall sequence p, (program_finish sequence p).2 <> Throw Terminate;
  abort_throws : forall sequence p, (program_abort sequence p).2 <> Throw Terminate;
  release_throws : forall continuation p, (release_continuation continuation p).2 <> Throw Terminate;
}.

Section operations.
Context `{MC : ModelContract}.

(** The manager together with its program. *)
Record Cache := mkCache { ch_manager : Manager; ch_program : Program }.

Definition on_manager {A} (x : M Manager A) : M Cache A := fun c =>
  let '(m, r) := x (ch_manager c) in (mkCache m (ch_program c), r).
Definition on_program {A} (x : M Program A) : M Cache A := fun c =>
  let '(p, r) := x (ch_program c) in (mkCache (ch_manager c) p, r).
Definition read {A} (f : Manager -> Program -> A) : M Cache A := fun c => (c, Ok (f (ch_manager c) (ch_program c))).
Definition set_open (x : ContextTransaction) : M Cache unit := on_manager (mmodify (set_transaction x)).

Definition is_open (m : Manager) : bool := match transaction_ m with NoTransaction => false | _ => true end.

(** ** Materialization *)

(** A choice; a consumed choice has no plan. *)
Record Choice := mkChoice { cho_plan : option ResourcePlan; cho_record : MaterializationRecord }.

Inductive MaterializationReserveResult := MatReserved | MatStale | MatAborted.

(** [cancelled] is what the request's cancellation flag shows. *)
Definition reserve_materialization (choice : Choice) (prompt : PreparedPrompt) (cancelled : bool) : M Cache MaterializationReserveResult :=
  busy ← read (fun m p => is_open m || has_context_transaction p);
  _ ← mthrow_if busy LogicError;
  revision ← read (fun _ p => resource_revision p);
  match cho_plan choice with
  | None => mthrow LogicError
  | Some plan =>
      _ ← mthrow_if (revision =? 0) LogicError;
      if negb (plan_resource_revision plan =? revision) then mret MatStale
      else
        let open := cho_record choice in
        _ ← on_manager (view (fun m => validate_choice m open revision));
        _ ← set_open (OpenMaterialization open);
        _ ← on_manager (reserve_logical_materialization open);
        status ← on_program (start_resource_transaction plan prompt cancelled);
        match status with
        | ReserveAborted =>
            _ ← on_manager (rollback_logical_materialization open);
            _ ← set_open NoTransaction;
            mret (if cancelled then MatAborted else MatStale)
        | ReserveReserved =>
            _ ← on_manager (modify_stats (observe_planner_diagnostics (mt_diagnostics open)));
            mret MatReserved
        end
  end.

(** [private_result_for], [shared_result_for]: the one row of the owner. *)
Fixpoint result_for {A} (owner_of : A -> PlanningOwnerId) (owner : PlanningOwnerId) (rows : list A) : result A :=
  match rows with
  | [] => Throw LogicError
  | row :: rows =>
      if owner_of row =? owner then
        if existsb (fun row => owner_of row =? owner) rows then Throw LogicError else Ok row
      else result_for owner_of owner rows
  end.

Definition same_claim (claim prior : OwnerClaim) : bool :=
  (cl_planning_id prior =? cl_planning_id claim) || bool_decide (cl_capability prior = cl_capability claim).

(** The claims of one kind name distinct owners, and not [excluded]'s slot; [foreign] are the claims of
    the other kind. *)
Fixpoint unique_claims (excluded : Z -> bool) (foreign previous claims : list OwnerClaim) : result unit :=
  match claims with
  | [] => Ok tt
  | claim :: claims =>
      _ ← throw_if (existsb (fun prior => cl_planning_id prior =? cl_planning_id claim) foreign) LogicError;
      _ ← throw_if (excluded (cc_slot (cl_capability claim)) || existsb (same_claim claim) previous) LogicError;
      unique_claims excluded foreign (previous ++ [claim]) claims
  end.

Definition check_private_results (m : Manager) (target_committed : bool) (victims : list MaterializationVictimResult) (claims : list OwnerClaim) : result unit :=
  check_each (fun claim => row ← result_for vr_owner (cl_planning_id claim) victims; validate_private_action m claim target_committed row) claims.
Definition check_shared_results (m : Manager) (target_committed : bool) (victims : list MaterializationSharedVictimResult) (claims : list OwnerClaim) : result unit :=
  check_each (fun claim => row ← result_for sv_owner (cl_planning_id claim) victims; validate_shared_action m claim target_committed row) claims.

Definition apply_private_results (victims : list MaterializationVictimResult) (claims : list OwnerClaim) : M Manager unit :=
  for_each (fun claim => row ← mlift (result_for vr_owner (cl_planning_id claim) victims); apply_private_action claim row) claims.
Definition apply_shared_results (victims : list MaterializationSharedVictimResult) (claims : list OwnerClaim) : M Manager unit :=
  for_each (fun claim => row ← mlift (result_for sv_owner (cl_planning_id claim) victims); apply_shared_action claim row) claims.

Definition retained_source (r : option MaterializationSourceResult) : bool :=
  match r with Some r => bool_decide (sr_mode r = Retain) | None => false end.
Definition consumed_source (r : option MaterializationSourceResult) : bool :=
  match r with Some r => bool_decide (sr_mode r = ConsumeToActive) | None => false end.

Definition check_private_source (m : Manager) (record : MaterializationRecord) (published : bool) (r : option MaterializationSourceResult) : result unit :=
  match mt_private_source record with
  | None => throw_if (has r) LogicError
  | Some c =>
      _ ← throw_if (wrong_kind PrivateContinuation c || (catalog_count_ m <=? cc_slot c)) LogicError;
      source ← entry_at m (cc_slot c);
      match r with
      | None => Throw LogicError
      | Some r =>
          throw_if (negb (bool_decide (ce_state source = CatClaimed)) || negb (ce_id source =? ok_id (cc_owner c)) ||
                    negb (ce_revision source =? cc_generation c) ||
                    (negb published && negb (bool_decide (sr_mode r = Retain))) ||
                    (published && negb (bool_decide (sr_mode r = mt_source_mode record))) ||
                    match sr_final_summary r with Some s => negb (valid_continuation_summary (max_long_anchors_ m) s) | None => false end ||
                    (bool_decide (sr_mode r = ConsumeToActive) && has (sr_final_summary r)) ||
                    (published && bool_decide (sr_mode r = Retain) && private_has_active_edge m (cc_slot c))) LogicError
      end
  end.

Definition with_residency (x : ReplicaResidency) (c : CheckpointSummary) : CheckpointSummary :=
  mkCheckpoint (cp_ref c) (cp_scope c) (cp_shortlist_key c) x (cp_required_kv c) (cp_rebuild_work c).

(** A reused shared prefix keeps its identity and its recovery contract; its replicas may change. *)
Definition check_shared_source (m : Manager) (record : MaterializationRecord) (published : bool) (r : option MaterializationSharedSourceResult) : result unit :=
  match mt_shared_source record with
  | None => throw_if (has r) LogicError
  | Some c =>
      _ ← throw_if (wrong_kind SharedPrefix c || (shared_catalog_count_ m <=? cc_slot c)) LogicError;
      source ← shared_at m (cc_slot c);
      let current_references := shared_active_edge_count m (cc_slot c) in
      match r with
      | None => Throw LogicError
      | Some r =>
          _ ← throw_if ((se_transaction_pins source =? 0) || negb (se_id source =? ok_id (cc_owner c)) ||
                        negb (se_revision source =? cc_generation c) || (current_references =? u32_max)) LogicError;
          match ssr_final_summary r with
          | None => Ok tt
          | Some final =>
              let expected := mkSharedSummary (with_residency (cp_state_residency (ss_checkpoint final)) (ss_checkpoint (se_summary source)))
                                (if published then w32 (current_references + 1) else current_references) in
              throw_if (negb (valid_shared_prefix_summary final) || negb (bool_decide (final = expected))) LogicError
          end
      end
  end.

(** A publication cell is empty, the consumed source's, or an evicted victim's. *)
Fixpoint victim_releases (publication_slot : Z) (victims : list MaterializationVictimResult) (claims : list OwnerClaim) : result bool :=
  match claims with
  | [] => Ok false
  | claim :: claims =>
      if negb (cc_slot (cl_capability claim) =? publication_slot) then victim_releases publication_slot victims claims
      else
        victim ← result_for vr_owner (cl_planning_id claim) victims;
        if bool_decide (vr_disposition victim = VictimEvicted) && vr_pressure_committed victim then Ok true
        else victim_releases publication_slot victims claims
  end.

Definition check_publication_cell (m : Manager) (record : MaterializationRecord) (r : MaterializationResult) : result unit :=
  publication ← entry_at m (mt_publication_slot record);
  if (negb (has (ce_handle publication)) && (ce_id publication =? 0)) ||
     (same_slot (mt_publication_slot record) (mt_private_source record) && consumed_source (mr_source r)) then Ok tt
  else
    released ← victim_releases (mt_publication_slot record) (mr_victims r) (mt_private_claims record);
    throw_if (negb released) LogicError.

(** The checks of [adopt_materialization_progress], which change nothing. *)
Definition check_materialization (m : Manager) (record : MaterializationRecord) (r : MaterializationResult) : result unit :=
  let published := bool_decide (mr_status r = TxPublished) in
  let destination := mt_destination record in
  _ ← throw_if (bool_decide (mr_status r = TxInProgress)) LogicError;
  _ ← throw_if (negb (length (mr_victims r) =? length (mt_private_claims record))%nat ||
                negb (length (mr_shared_victims r) =? length (mt_shared_claims record))%nat) LogicError;
  _ ← throw_if (negb (Bool.eqb published (has (mr_published r)))) LogicError;
  _ ← throw_if (lane_count_ m <=? destination) LogicError;
  lane ← lane_at m destination;
  active ← active_at m destination;
  _ ← throw_if (negb (bool_decide (lane = LaneMaterializing)) || ac_occupied active || has (ac_retained_private_source active) ||
                negb (bool_decide (ac_shared_sources active = [])) || (catalog_count_ m <=? mt_publication_slot record)) LogicError;
  publication ← entry_at m (mt_publication_slot record);
  _ ← throw_if (negb (bool_decide (ce_state publication = CatClaimed))) LogicError;
  _ ← unique_claims (fun slot => same_slot slot (mt_private_source record)) [] [] (mt_private_claims record);
  _ ← unique_claims (fun slot => same_slot slot (mt_shared_source record)) (mt_private_claims record) [] (mt_shared_claims record);
  _ ← check_private_results m published (mr_victims r) (mt_private_claims record);
  _ ← check_shared_results m published (mr_shared_victims r) (mt_shared_claims record);
  _ ← check_private_source m record published (mr_source r);
  _ ← check_shared_source m record published (mr_shared_source r);
  if published then check_publication_cell m record r else Ok tt.

(** ** Adoption of a materialization *)

Definition hit_observation (epoch : Z) (o : RetentionObservation) : RetentionObservation :=
  mkObservation (ob_retention_class o) (saturating_increment (ob_selected_hit_count o)) epoch.

(** The first observation of the checkpoint, if there is one. *)
Fixpoint hit_first (checkpoint : CheckpointRef) (epoch : Z) (os : list CheckpointObservation) : option (list CheckpointObservation) :=
  match os with
  | [] => None
  | o :: os =>
      if bool_decide (co_checkpoint o = checkpoint) then Some (mkCheckpointObservation (co_checkpoint o) (hit_observation epoch (co_observation o)) :: os)
      else cons o <$> hit_first checkpoint epoch os
  end.

Definition next_epoch : M Manager unit :=
  mmodify (fun m => set_counters (next_continuation_id_ m) (next_shared_prefix_id_ m) (w64 (retention_epoch_ m + 1)) m).

(** [observe_selected_hit] with [resolve_observation]. *)
Definition observe_selected_hit (record : MaterializationRecord) : M Manager unit :=
  when_some (mt_selected_observation record) (fun key =>
    m ← mget;
    let epoch := w64 (retention_epoch_ m + 1) in
    if negb (po_shared key) then
      if catalog_count_ m <=? po_slot key then mret tt
      else
        e ← get_entry (po_slot key);
        if negb (ce_id e =? po_owner_id key) || negb (ce_revision e =? po_revision key) then mret tt
        else
          match hit_first (po_checkpoint key) epoch (ce_observations e) with
          | None => mret tt
          | Some os => _ ← put_entry (po_slot key) (set_entry_observations os e); next_epoch
          end
    else if shared_catalog_count_ m <=? po_slot key then mret tt
    else
      e ← get_shared (po_slot key);
      if negb (se_id e =? po_owner_id key) || negb (se_revision e =? po_revision key) ||
         negb (bool_decide (cp_ref (ss_checkpoint (se_summary e)) = po_checkpoint key)) then mret tt
      else _ ← put_shared (po_slot key) (set_shared_observation (hit_observation epoch (se_observation e)) e); next_epoch).

(** The private source: kept with its new summary, or emptied into the active sequence. *)
Definition settle_private_source (record : MaterializationRecord) (r : option MaterializationSourceResult) : M Manager unit :=
  when_some (mt_private_source record) (fun c =>
    match r with
    | None => mthrow Terminate
    | Some r =>
        match sr_mode r with
        | Retain =>
            _ ← when_some (sr_final_summary r) (fun s =>
                  _ ← replace_summary (cc_slot c) s;
                  e ← get_entry (cc_slot c);
                  refresh_sessions (ok_id (cc_owner c)) (cc_slot c) (ce_revision e));
            modify_entry (cc_slot c) (set_entry_state CatCatalogued)
        | ConsumeToActive =>
            e ← get_entry (cc_slot c);
            _ ← erase_sessions (ce_id e);
            put_entry (cc_slot c)
              (mkEntry (ce_state e) (ce_id e) (ce_revision e) (mkContinuation None None [] (cs_active_references (ce_summary e)))
                 None None [] (ce_retention e))
        end
    end).

Definition settle_shared_source (record : MaterializationRecord) (r : option MaterializationSharedSourceResult) : M Manager unit :=
  when_some (mt_shared_source record) (fun c =>
    _ ← modify_shared (cc_slot c) (fun e => set_shared_pins (w32 (se_transaction_pins e - 1)) e);
    match r with
    | None => mthrow Terminate
    | Some r =>
        when_some (ssr_final_summary r) (fun final =>
          e ← get_shared (cc_slot c);
          let updated := mkSharedSummary (ss_checkpoint final) 0 in
          if bool_decide (updated = se_summary e) then mret tt
          else put_shared (cc_slot c) (set_shared_summary (advance_revision (se_revision e)) updated e))
    end).

(** [restore_unreported_materialization]. *)
Definition restore_unreported_materialization (record : MaterializationRecord) : M Manager unit :=
  let restore (e : CatalogEntry) := if bool_decide (ce_state e = CatClaimed) then set_entry_state CatCatalogued e else e in
  let restore_shared (e : SharedCatalogEntry) := if bool_decide (se_state e = ShClaimed) then set_shared_state ShCatalogued e else e in
  _ ← when_some (mt_private_source record) (fun c => modify_entry (cc_slot c) restore);
  _ ← when_some (mt_shared_source record) (fun c => modify_shared (cc_slot c) unpin_shared);
  _ ← for_each (fun claim => modify_entry (cc_slot (cl_capability claim)) restore) (mt_private_claims record);
  _ ← for_each (fun claim => modify_shared (cc_slot (cl_capability claim)) restore_shared) (mt_shared_claims record);
  modify_entry (mt_publication_slot record) (fun e =>
    if bool_decide (ce_state e = CatClaimed) && (ce_id e =? 0) && negb (has (ce_handle e)) then set_entry_state CatVacant e else e).

(** The actions on victims and sources, common to both outcomes. *)
Definition apply_materialization (record : MaterializationRecord) (r : MaterializationResult) : M Manager unit :=
  _ ← (if bool_decide (mr_status r = TxPublished) then observe_selected_hit record else mret tt);
  _ ← apply_private_results (mr_victims r) (mt_private_claims record);
  _ ← apply_shared_results (mr_shared_victims r) (mt_shared_claims record);
  _ ← settle_private_source record (mr_source r);
  _ ← settle_shared_source record (mr_shared_source r);
  _ ← modify_stats (observe_transfers (mr_transfer_observations r));
  modify_stats (observe_operations (mr_operations r)).

(** [next_continuation_id_++], skipping zero. *)
Definition take_continuation_id : M Manager Z :=
  m ← mget;
  let id := next_continuation_id_ m in
  let next := w64 (id + 1) in
  if id =? 0 then _ ← mput (set_counters (w64 (next + 1)) (next_shared_prefix_id_ m) (retention_epoch_ m) m); mret next
  else _ ← mput (set_counters next (next_shared_prefix_id_ m) (retention_epoch_ m) m); mret id.
Definition take_shared_prefix_id : M Manager Z :=
  m ← mget;
  let id := next_shared_prefix_id_ m in
  let next := w64 (id + 1) in
  if id =? 0 then _ ← mput (set_counters (next_continuation_id_ m) (w64 (next + 1)) (retention_epoch_ m) m); mret next
  else _ ← mput (set_counters (next_continuation_id_ m) next (retention_epoch_ m) m); mret id.

(** The publication cell and the lane of a published sequence. *)
Definition publish_activation (record : MaterializationRecord) (r : MaterializationResult) : M Manager unit :=
  id ← take_continuation_id;
  _ ← modify_entry (mt_publication_slot record) (fun e =>
        mkEntry CatReservedForActive id (advance_revision (ce_revision e)) (ce_summary e) (ce_handle e) (mt_session record)
          (ce_observations e) (mt_retention record));
  private ← view (fun m =>
    match mt_private_source record with
    | Some c => if retained_source (mr_source r) then c ← private_capability m (cc_slot c); Ok (Some (active_edge c)) else Ok None
    | None => Ok None
    end);
  shared ← view (fun m =>
    match mt_shared_source record with
    | Some c => c ← shared_capability m (cc_slot c); Ok [active_edge c]
    | None => Ok []
    end);
  _ ← modify_active (mt_destination record) (fun a =>
        mkActive true (mt_publication_slot record) id (mt_session record) (mt_retention record) (mt_update_session_index record)
          (mt_publication_order record)
          (match private with Some edge => Some edge | None => ac_retained_private_source a end) (ac_shared_sources a ++ shared));
  commit_demand (mt_demand record).

Record PublishedActivation := mkActivation { pa_owner : option Z; pa_result : option Z; pa_destination : Z }.

Inductive ContextTransactionOutcome :=
  | OutcomeInProgress
  | OutcomeMaterialization (status : ContextTransactionStatus) (activation : option PublishedActivation) (diagnostics : option MaterializationDiagnostics)
  | OutcomeActiveCapture (status : ContextTransactionStatus).

Definition finalize_program : M Cache unit := fun c => (mkCache (ch_manager c) (finalize_context_transaction (ch_program c)), Ok tt).

Definition adopt_materialization_progress (r : MaterializationResult) : M Cache ContextTransactionOutcome :=
  transaction ← read (fun m _ => transaction_ m);
  open ← read (fun _ p => has_context_transaction p);
  match transaction with
  | OpenMaterialization record =>
      _ ← mthrow_if (negb open) LogicError;
      _ ← on_manager (view (fun m => check_materialization m record r));
      _ ← on_manager (apply_materialization record r);
      if bool_decide (mr_status r = TxAborted) then
        _ ← on_manager (restore_unreported_materialization record);
        _ ← on_manager (put_lane (mt_destination record) LaneFree);
        _ ← set_open NoTransaction;
        _ ← finalize_program;
        mret (OutcomeMaterialization TxAborted None None)
      else
        _ ← on_manager (publish_activation record r);
        self ← read (fun m _ => cf_self (mg_config m));
        mret (OutcomeMaterialization TxPublished (Some (mkActivation (Some self) (mr_published r) (mt_destination record))) (Some (mt_diagnostics record)))
  | _ => mthrow LogicError
  end.

(** [adopt] is [noexcept]; the token is consumed. *)
Definition adopt (a : PublishedActivation) : M Cache unit :=
  bad ← read (fun m p =>
    negb (bool_decide (pa_owner a = Some (cf_self (mg_config m)))) || negb (has (pa_result a)) || (lane_count_ m <=? pa_destination a) ||
    negb (bool_decide (lane_at m (pa_destination a) = Ok LaneMaterializing)) ||
    negb (match active_at m (pa_destination a) with Ok a => ac_occupied a | Throw _ => false end) ||
    negb (match transaction_ m with OpenMaterialization _ => true | _ => false end) || negb (has_context_transaction p));
  _ ← mthrow_if bad Terminate;
  _ ← on_manager (put_lane (pa_destination a) LaneActive);
  _ ← set_open NoTransaction;
  finalize_program.

(** ** Captures *)

Definition checkpoint_kind_order (k : CheckpointKind) : Z :=
  match k with SessionEndpoint => 0 | TurnClosure => 1 | ResponseReplay => 2 | SharedStablePrefix => 3 | LongAnchor => 4 end.

(** The order of the tuples (kind, frontier, ordinal). *)
Definition checkpoint_less (a b : CheckpointRef) : bool :=
  let ka := checkpoint_kind_order (cr_kind a) in
  let kb := checkpoint_kind_order (cr_kind b) in
  (ka <? kb) || ((ka =? kb) && ((cr_frontier a <? cr_frontier b) || ((cr_frontier a =? cr_frontier b) && (cr_ordinal a <? cr_ordinal b)))).

(** [std::min_element]. *)
Definition min_checkpoint (cs : list CheckpointRef) : option CheckpointRef :=
  match cs with
  | [] => None
  | c :: cs => Some (foldl (fun best c => if checkpoint_less c best then c else best) c cs)
  end.

(** The first resident shared prefix that is exactly the offered one. *)
Fixpoint find_exact_shared (m : Manager) (p : Program) (offer : CaptureOffer) (key : PrefixShortlistKey) (index : list PrefixIndexEntry) : result (option Z) :=
  match index with
  | [] => Ok None
  | i :: index =>
      valid ← (if pi_shared i then valid_prefix_index_entry m i else Ok false);
      if negb valid || negb (bool_decide (pi_key i = key)) then find_exact_shared m p offer key index
      else
        e ← shared_at m (pi_slot i);
        match se_handle e with
        | None => Throw Terminate
        | Some handle =>
            same ← shared_capture_matches p offer handle;
            if (same : bool) then Ok (Some handle) else find_exact_shared m p offer key index
        end
  end.

Record CaptureScenario := mkScenario {
  cn_assessment : CaptureAssessment;
  cn_publication_slot : Z;
  cn_replacement : option Z;
  cn_replacement_id : Z;
  cn_replacement_revision : Z;
  cn_stable_ordinal : Z;
}.

(** The result of [SharedCapturePlanner::plan] that the manager reads. *)
Record CapturePlan := mkCapturePlan {
  cn_pressure : option CapturePressurePlan;
  cn_owner_outcomes : list PressureOwnerOutcome;
  cn_checkpoint_outcomes : list PressureCheckpointOutcome;
  cn_net_gain : Z;
  cn_stable_scenario_ordinal : Z;
  cn_stable_target_ordinal : Z;
}.

Definition pressure_evidence (m : Manager) (candidate : CaptureAssessment) : bool :=
  has_shared_candidate_evidence (ca_shared_evidence candidate) ExplicitBoundary ||
  has_shared_candidate_evidence (ca_shared_evidence candidate) RequestedAutomatic ||
  (2 <=? matching_reuse_domains m (ca_shortlist_key candidate)).

(** The first vacant shared slot. *)
Definition vacant_scenario (m : Manager) (candidate : CaptureAssessment) : list CaptureScenario :=
  match find_index (fun e => bool_decide (se_state e = ShVacant)) (shared_catalog_ m) with
  | Some slot => [mkScenario candidate (Z.of_nat slot) None 0 0 0]
  | None => []
  end.

(** The unused shared prefixes that the capture may replace, from [slot] on. *)
Fixpoint replacement_scenarios (m : Manager) (p : Program) (offer : CaptureOffer) (private_replacement : option CheckpointRef)
    (slot : Z) (entries : list SharedCatalogEntry) : result (list CaptureScenario) :=
  match entries with
  | [] => Ok []
  | e :: entries =>
      if negb (bool_decide (se_state e = ShCatalogued)) || negb (has (se_handle e)) || negb (se_transaction_pins e =? 0) ||
         negb (shared_active_edge_count m slot =? 0)
      then replacement_scenarios m p offer private_replacement (slot + 1) entries
      else
        assessment ← inspect_capture p offer None (se_handle e) private_replacement true;
        scenarios ← replacement_scenarios m p offer private_replacement (slot + 1) entries;
        Ok (if ca_publishes_shared assessment
            then mkScenario assessment slot (se_handle e) (se_id e) (se_revision e) (w32 (1 + slot)) :: scenarios
            else scenarios)
  end.

Definition capture_scenarios (m : Manager) (p : Program) (offer : CaptureOffer) (private_replacement : option CheckpointRef)
    (candidate : CaptureAssessment) : result (list CaptureScenario) :=
  replacements ← (if pressure_evidence m candidate then replacement_scenarios m p offer private_replacement 0 (shared_catalog_ m) else Ok []);
  Ok (vacant_scenario m candidate ++ replacements).

(** The owners that a capture may press, numbered in order: the private continuations that no lane
    retains, and the shared prefixes. *)
Fixpoint owner_capabilities (m : Manager) (slot : Z) (entries : list CatalogEntry) : list CatalogCapability :=
  match entries with
  | [] => []
  | e :: entries =>
      if negb (bool_decide (ce_state e = CatCatalogued)) || negb (has (ce_handle e)) || private_has_active_edge m slot
      then owner_capabilities m (slot + 1) entries
      else mkCapability (mkOwner PrivateContinuation (ce_id e)) slot (ce_revision e) :: owner_capabilities m (slot + 1) entries
  end.
Fixpoint shared_owner_capabilities (slot : Z) (entries : list SharedCatalogEntry) : list CatalogCapability :=
  match entries with
  | [] => []
  | e :: entries =>
      if negb (bool_decide (se_state e = ShCatalogued)) || negb (has (se_handle e)) then shared_owner_capabilities (slot + 1) entries
      else mkCapability (mkOwner SharedPrefix (se_id e)) slot (se_revision e) :: shared_owner_capabilities (slot + 1) entries
  end.
Definition capture_owner_records (m : Manager) : list CatalogCapability :=
  owner_capabilities m 0 (catalog_ m) ++ shared_owner_capabilities 0 (shared_catalog_ m).

(** The better of two plans: more gain, then the earlier scenario and target. *)
Definition better_plan (plan best : CapturePlan) : bool :=
  (cn_net_gain best <? cn_net_gain plan) ||
  ((cn_net_gain plan =? cn_net_gain best) &&
   ((cn_stable_scenario_ordinal plan <? cn_stable_scenario_ordinal best) ||
    ((cn_stable_scenario_ordinal plan =? cn_stable_scenario_ordinal best) && (cn_stable_target_ordinal plan <? cn_stable_target_ordinal best)))).

Definition select_capture (planner : CaptureScenario -> option CapturePlan) (scenarios : list CaptureScenario) : option (CaptureScenario * CapturePlan) :=
  foldl (fun selected scenario =>
    match planner scenario with
    | None => selected
    | Some plan =>
        match selected with
        | None => Some (scenario, plan)
        | Some (_, best) => if better_plan plan best then Some (scenario, plan) else selected
        end
    end) None scenarios.

(** One owner outcome of the selected plan becomes a claim. *)
Definition add_capture_claim (m : Manager) (records : list CatalogCapability) (plan : CapturePlan) (record : ActiveCaptureRecord)
    (o : PressureOwnerOutcome) : result ActiveCaptureRecord :=
  match at_index records (poo_owner o) with
  | None => Throw LogicError
  | Some c =>
      let claim dropped := mkClaim (poo_owner o) c (poo_disposition o) dropped in
      if negb (bool_decide (ok_kind (cc_owner c) = SharedPrefix)) then
        _ ← throw_if (catalog_count_ m <=? cc_slot c) LogicError;
        ok ← catalogued_private m c;
        _ ← throw_if (negb ok) LogicError;
        e ← entry_at m (cc_slot c);
        dropped ← selected_checkpoint_drops (poo_owner o) (poo_disposition o) (poo_dropped_checkpoints o) (cn_checkpoint_outcomes plan)
                    (continuation_checkpoint_count (ce_summary e)) (continuation_contains_checkpoint (ce_summary e));
        Ok (mkCapture (cap_lane record) (cap_publishes_private record) (cap_publishes_shared record) (cap_publication_slot record)
              (cap_replacement_id record) (cap_replacement_revision record) (cap_shared_evidence record)
              (cap_private_claims record ++ [claim dropped]) (cap_shared_claims record))
      else
        _ ← throw_if ((shared_catalog_count_ m <=? cc_slot c) || (cc_slot c =? cap_publication_slot record)) LogicError;
        ok ← catalogued_shared m c;
        unused ← unused_shared m c;
        _ ← throw_if (negb ok || negb unused) LogicError;
        e ← shared_at m (cc_slot c);
        dropped ← selected_checkpoint_drops (poo_owner o) (poo_disposition o) (poo_dropped_checkpoints o) (cn_checkpoint_outcomes plan)
                    1 (fun k => bool_decide (k = cp_ref (ss_checkpoint (se_summary e))));
        Ok (mkCapture (cap_lane record) (cap_publishes_private record) (cap_publishes_shared record) (cap_publication_slot record)
              (cap_replacement_id record) (cap_replacement_revision record) (cap_shared_evidence record)
              (cap_private_claims record) (cap_shared_claims record ++ [claim dropped]))
  end.

Fixpoint add_capture_claims (m : Manager) (records : list CatalogCapability) (plan : CapturePlan) (record : ActiveCaptureRecord)
    (os : list PressureOwnerOutcome) : result ActiveCaptureRecord :=
  match os with
  | [] => Ok record
  | o :: os => record ← add_capture_claim m records plan record o; add_capture_claims m records plan record os
  end.

(** The publication slot is still what the scenario saw. *)
Definition check_capture_publication (m : Manager) (record : ActiveCaptureRecord) : result unit :=
  let slot := cap_publication_slot record in
  _ ← throw_if (shared_catalog_count_ m <=? slot) LogicError;
  e ← shared_at m slot;
  if cap_replacement_id record =? 0 then
    throw_if (negb (bool_decide (se_state e = ShVacant)) || negb (se_id e =? 0) || has (se_handle e) || negb (se_transaction_pins e =? 0) ||
              negb (shared_active_edge_count m slot =? 0)) LogicError
  else
    throw_if (negb (bool_decide (se_state e = ShCatalogued)) || negb (has (se_handle e)) || negb (se_id e =? cap_replacement_id record) ||
              negb (se_revision e =? cap_replacement_revision record) || negb (se_transaction_pins e =? 0) ||
              negb (shared_active_edge_count m slot =? 0)) LogicError.

Inductive ActiveCaptureReserveResult := CaptureReserved | CaptureSkipped.

Definition skip_offer (offer : CaptureOffer) : M Cache ActiveCaptureReserveResult :=
  _ ← on_program (skip_capture offer); mret CaptureSkipped.

(** A capture that publishes the lane's private checkpoint only. *)
Definition private_capture (lane : Z) : ActiveCaptureRecord := mkCapture lane true false kInvalidCatalogSlot 0 0 NoEvidence [] [].

Definition reserve_private_capture (lane : Z) (offer : CaptureOffer) (exact_shared : option Z) (private_replacement : option CheckpointRef)
    (baseline : CaptureAssessment) (cancelled : bool) : M Cache ActiveCaptureReserveResult :=
  if negb (ca_publishes_private baseline) || negb (ca_physically_feasible baseline) then skip_offer offer
  else
    _ ← set_open (OpenCapture (private_capture lane));
    status ← on_program (program_reserve_active_capture offer exact_shared None private_replacement false cancelled);
    match status with
    | ReserveAborted => _ ← set_open NoTransaction; mret CaptureSkipped
    | ReserveReserved => mret CaptureReserved
    end.

Definition reserve_shared_capture (lane : Z) (offer : CaptureOffer) (private_replacement : option CheckpointRef)
    (scenario : CaptureScenario) (plan : CapturePlan) (cancelled : bool) : M Cache ActiveCaptureReserveResult :=
  record ← on_manager (view (fun m =>
    add_capture_claims m (capture_owner_records m) plan
      (mkCapture lane (ca_publishes_private (cn_assessment scenario)) true (cn_publication_slot scenario) (cn_replacement_id scenario)
         (cn_replacement_revision scenario) (ca_shared_evidence (cn_assessment scenario)) [] []) (cn_owner_outcomes plan)));
  match cn_pressure plan with
  | None => mthrow LogicError
  | Some pressure =>
      _ ← on_manager (view (fun m => check_capture_publication m record));
      _ ← set_open (OpenCapture record);
      _ ← on_manager (reserve_logical_active_capture record);
      status ← on_program (program_reserve_active_capture_with_pressure offer None (cn_replacement scenario) private_replacement true pressure cancelled);
      match status with
      | ReserveAborted =>
          _ ← on_manager (rollback_logical_active_capture record);
          _ ← set_open NoTransaction;
          mret CaptureSkipped
      | ReserveReserved => mret CaptureReserved
      end
  end.

(** What the program says of the offer: the private baseline, and the candidate that may also publish. *)
Definition inspect_offer (p : Program) (offer : CaptureOffer) : result (CaptureAssessment * option CheckpointRef * CaptureAssessment) :=
  baseline ← inspect_capture p offer None None None false;
  let replacement := min_checkpoint (ca_private_replacement_candidates baseline) in
  baseline ← (if has replacement then inspect_capture p offer None None replacement false else Ok baseline);
  candidate ← inspect_capture p offer None None replacement true;
  Ok (baseline, replacement, candidate).

(** [planner] is the capture planner's answer for a scenario, with the costs and policies it reads. *)
Definition reserve_active_capture (planner : Manager -> Program -> CaptureScenario -> option CapturePlan) (lane : Z) (offer : CaptureOffer)
    (cancelled : bool) : M Cache ActiveCaptureReserveResult :=
  _ ← on_manager (view (fun m => require_lane m lane LaneActive));
  manager_transaction ← read (fun m _ => is_open m);
  program_transaction ← read (fun _ p => has_context_transaction p);
  _ ← mthrow_if (negb (Bool.eqb manager_transaction program_transaction)) LogicError;
  if (program_transaction : bool) then skip_offer offer
  else
    _ ← on_manager rebuild_prefix_index;
    c ← mget;
    '(baseline, replacement, candidate) ← mlift (inspect_offer (ch_program c) offer);
    exact ← mlift (if ca_publishes_shared candidate
                   then find_exact_shared (ch_manager c) (ch_program c) offer (ca_shortlist_key candidate) (prefix_index_ (ch_manager c))
                   else Ok None);
    match exact with
    | Some handle => reserve_private_capture lane offer (Some handle) replacement baseline cancelled
    | None =>
        scenarios ← mlift (if ca_publishes_shared candidate
                           then capture_scenarios (ch_manager c) (ch_program c) offer replacement candidate
                           else Ok []);
        match select_capture (planner (ch_manager c) (ch_program c)) scenarios with
        | None => reserve_private_capture lane offer None replacement baseline cancelled
        | Some (scenario, plan) => reserve_shared_capture lane offer replacement scenario plan cancelled
        end
    end.

(** The checks of [adopt_active_capture_progress], which change nothing. *)
Definition check_shared_publication (m : Manager) (record : ActiveCaptureRecord) (published : bool) (r : ActiveCaptureResult) : result unit :=
  if cap_publishes_shared record then
    let slot := cap_publication_slot record in
    let prepared := ar_capacity_preparation_committed r in
    _ ← throw_if (shared_catalog_count_ m <=? slot) LogicError;
    e ← shared_at m slot;
    throw_if (negb (bool_decide (se_state e = ShReservedCapture)) || negb (shared_active_edge_count m slot =? 0) ||
              ((cap_replacement_id record =? 0) && (negb (se_id e =? 0) || has (se_handle e) || prepared)) ||
              (negb (cap_replacement_id record =? 0) &&
               (negb (se_id e =? cap_replacement_id record) || negb (se_revision e =? cap_replacement_revision record) ||
                negb (has (se_handle e)) || (published && negb prepared)))) LogicError
  else
    throw_if (negb (cap_publication_slot record =? kInvalidCatalogSlot) || negb (cap_replacement_id record =? 0) ||
              ar_capacity_preparation_committed r) LogicError.

Definition check_capture (m : Manager) (record : ActiveCaptureRecord) (r : ActiveCaptureResult) : result unit :=
  let published := bool_decide (ar_status r = TxPublished) in
  _ ← throw_if (bool_decide (ar_status r = TxInProgress)) LogicError;
  _ ← throw_if (negb (length (ar_victims r) =? length (cap_private_claims record))%nat ||
                negb (length (ar_shared_victims r) =? length (cap_shared_claims record))%nat) LogicError;
  _ ← unique_claims (fun _ => false) [] [] (cap_private_claims record);
  _ ← unique_claims (fun slot => slot =? cap_publication_slot record) (cap_private_claims record) [] (cap_shared_claims record);
  _ ← check_private_results m published (ar_victims r) (cap_private_claims record);
  _ ← check_shared_results m published (ar_shared_victims r) (cap_shared_claims record);
  _ ← throw_if (lane_count_ m <=? cap_lane record) LogicError;
  active ← active_at m (cap_lane record);
  lane ← lane_at m (cap_lane record);
  _ ← throw_if (negb (ac_occupied active) || negb (bool_decide (lane = LaneActive))) LogicError;
  _ ← check_shared_publication m record published r;
  if negb published then throw_if (has (ar_shared r)) LogicError
  else
    _ ← (if cap_publishes_private record then
           _ ← throw_if (negb (valid_continuation_summary (max_long_anchors_ m) (ar_active_summary r))) LogicError;
           publication ← checked_entry m (ac_publication_slot active);
           throw_if (negb (bool_decide (ce_state publication = CatReservedForActive)) ||
                     negb (ce_id publication =? ac_continuation_id active)) LogicError
         else Ok tt);
    if cap_publishes_shared record then
      match ar_shared r with
      | None => Throw LogicError
      | Some s =>
          throw_if ((Z.of_nat (length (ac_shared_sources active)) =? shared_catalog_count_ m) ||
                    negb (valid_shared_prefix_summary (sp_summary s)) || negb (ss_active_references (sp_summary s) =? 1)) LogicError
      end
    else throw_if (has (ar_shared r)) LogicError.

(** What is left of the publication slot of an aborted capture. *)
Definition abort_shared_publication (record : ActiveCaptureRecord) (prepared : bool) : M Manager unit :=
  if cap_publication_slot record =? kInvalidCatalogSlot then mret tt
  else
    modify_shared (cap_publication_slot record) (fun e =>
      if negb (cap_replacement_id record =? 0) && negb prepared then set_shared_state ShCatalogued e else clear_shared_entry e).

Definition publish_shared (record : ActiveCaptureRecord) (s : SharedPrefixPublication) : M Manager unit :=
  id ← take_shared_prefix_id;
  m ← mget;
  let credit := has_shared_candidate_evidence (cap_shared_evidence record) ExplicitBoundary ||
                has_shared_candidate_evidence (cap_shared_evidence record) RequestedAutomatic in
  let expiry :=
    if credit then
      if u64_max - kDemandWindowCapacity <? demand_epoch_ m then u64_max else w64 (demand_epoch_ m + kDemandWindowCapacity)
    else 0 in
  _ ← modify_shared (cap_publication_slot record) (fun e =>
        mkSharedEntry ShCatalogued id (advance_revision (se_revision e)) (mkSharedSummary (ss_checkpoint (sp_summary s)) 0)
          (Some (sp_handle s)) (mkObservation SharedStable 0 0) 0 credit expiry);
  c ← view (fun m => shared_capability m (cap_publication_slot record));
  modify_active (cap_lane record) (fun a => set_active_edges (ac_retained_private_source a) (ac_shared_sources a ++ [active_edge c]) a).

(** The new checkpoints of the capturing lane's publication. *)
Definition capture_private (record : ActiveCaptureRecord) (s : ContinuationSummary) : M Manager unit :=
  active ← get_active (cap_lane record);
  let slot := ac_publication_slot active in
  e ← get_entry slot;
  summary ← view (fun m => assign_continuation_summary (max_long_anchors_ m) s);
  e ← view (fun m => migrate_observations (max_long_anchors_ m) (set_entry_summary summary e) s (ac_retention active));
  put_entry slot (set_entry_revision (advance_revision (ce_revision e)) e).

Definition observe_capture (r : ActiveCaptureResult) : M Manager unit :=
  _ ← modify_stats (observe_transfers (ar_transfer_observations r)); modify_stats (observe_operations (ar_operations r)).

Definition publish_capture (record : ActiveCaptureRecord) (r : ActiveCaptureResult) : M Manager unit :=
  _ ← (if cap_publishes_private record then capture_private record (ar_active_summary r) else mret tt);
  if cap_publishes_shared record then
    match ar_shared r with None => mthrow Terminate | Some s => publish_shared record s end
  else mret tt.

Definition adopt_active_capture_progress (r : ActiveCaptureResult) : M Cache ContextTransactionOutcome :=
  transaction ← read (fun m _ => transaction_ m);
  open ← read (fun _ p => has_context_transaction p);
  match transaction with
  | OpenCapture record =>
      _ ← mthrow_if (negb open) LogicError;
      _ ← on_manager (view (fun m => check_capture m record r));
      _ ← on_manager (apply_private_results (ar_victims r) (cap_private_claims record));
      _ ← on_manager (apply_shared_results (ar_shared_victims r) (cap_shared_claims record));
      let aborted := bool_decide (ar_status r = TxAborted) in
      _ ← on_manager (if aborted then abort_shared_publication record (ar_capacity_preparation_committed r) else publish_capture record r);
      _ ← on_manager (observe_capture r);
      _ ← set_open NoTransaction;
      _ ← finalize_program;
      mret (OutcomeActiveCapture (if aborted then TxAborted else TxPublished))
  | _ => mthrow LogicError
  end.

Definition progress_context_transaction (cancelled : bool) : M Cache ContextTransactionOutcome :=
  idle ← read (fun m p => negb (is_open m) || negb (has_context_transaction p));
  _ ← mthrow_if idle LogicError;
  progress ← on_program (program_progress cancelled);
  match progress with
  | ProgressInProgress => mret OutcomeInProgress
  | ProgressMaterialization r => adopt_materialization_progress r
  | ProgressActiveCapture r => adopt_active_capture_progress r
  end.

(** ** The end of a sequence *)

(** The continuation that [finish] leaves in the catalog. *)
Definition catalogue_continuation (lane : Z) (a : ActiveEntry) (r : FinishResult) : M Manager unit :=
  _ ← release_active_references lane;
  let slot := ac_publication_slot a in
  e ← get_entry slot;
  summary ← view (fun m => assign_continuation_summary (max_long_anchors_ m) (fr_summary r));
  let e := mkEntry CatCatalogued (ce_id e) (ce_revision e) summary (fr_continuation r) (ac_session a) (ce_observations e) (ac_retention a) in
  e ← view (fun m => migrate_observations (max_long_anchors_ m) e (fr_summary r) (ac_retention a));
  let e := set_entry_revision (advance_revision (ce_revision e)) e in
  _ ← put_entry slot e;
  _ ← (match ac_session a with
       | Some key =>
           if ac_update_session_index a then
             newest ← publish_session key slot (ce_id e) (ce_revision e) (ac_publication_order a);
             if (newest : bool) then mret tt
             else modify_entry slot (fun e => set_entry_retention RecentPrivate (set_entry_session None e))
           else mret tt
       | None => mret tt
       end);
  _ ← put_active lane empty_active;
  put_lane lane LaneFree.

Definition finish (lane sequence : Z) : M Cache FinishResult :=
  _ ← on_manager (view (fun m => require_lane m lane LaneTerminalPending));
  busy ← read (fun m p => is_open m || has_context_transaction p);
  _ ← mthrow_if busy LogicError;
  a ← on_manager (get_active lane);
  r ← on_program (program_finish sequence);
  if negb (bool_decide (fr_status r = Consumed)) then
    discarded ← on_program (program_abort sequence);
    _ ← mthrow_if (negb (bool_decide (br_status discarded = Consumed))) LogicError;
    _ ← on_manager (release_lane lane);
    mret (mkFinish Consumed FinishReleased empty_continuation None)
  else
    m ← read (fun m _ => m);
    publication ← mlift (checked_entry m (ac_publication_slot a));
    if negb (cache_enabled_ m) || bool_decide (fr_disposition r = FinishReleased) then
      _ ← mthrow_if (negb (bool_decide (fr_disposition r = FinishReleased)) || has (fr_continuation r)) LogicError;
      _ ← on_manager (release_lane lane);
      mret r
    else
      match fr_continuation r with
      | None => mthrow LogicError
      | Some continuation =>
          if negb (valid_continuation_summary (max_long_anchors_ m) (fr_summary r)) || negb (bool_decide (ce_state publication = CatReservedForActive)) ||
             negb (ce_id publication =? ac_continuation_id a)
          then _ ← on_program (release_continuation continuation); mthrow LogicError
          else
            _ ← on_manager (catalogue_continuation lane a r);
            mret (mkFinish (fr_status r) (fr_disposition r) (fr_summary r) None)
      end.

Definition abort (lane sequence : Z) : M Cache AbortResult :=
  busy ← read (fun m p => is_open m || has_context_transaction p);
  _ ← mthrow_if busy LogicError;
  m ← read (fun m _ => m);
  state ← mlift (from_option Ok (Throw OutOfRange) (at_index (lanes_ m) lane));
  _ ← on_manager (if bool_decide (state = LaneActive) then put_lane lane LaneTerminalPending else mret tt);
  _ ← on_manager (view (fun m => require_lane m lane LaneTerminalPending));
  r ← on_program (program_abort sequence);
  _ ← mthrow_if (negb (bool_decide (br_status r = Consumed))) LogicError;
  _ ← on_manager (release_lane lane);
  mret r.

(** ** Reports *)

Definition context_transaction_kind (m : Manager) : option ContextTransactionKind :=
  match transaction_ m with
  | OpenMaterialization _ => Some MaterializationKind
  | OpenCapture _ => Some ActiveCaptureKind
  | NoTransaction => None
  end.

Definition catalog_state (m : Manager) (slot : Z) : result CatalogState :=
  if slot <? catalog_count_ m then e ← entry_at m slot; Ok (ce_state e) else Ok CatVacant.
Definition lane_state (m : Manager) (lane : Z) : result LogicalLaneState :=
  if lane <? lane_count_ m then lane_at m lane else Ok LaneFree.

(** [shared_active_references] of [populate_runtime_stats]. *)
Definition shared_active_references (m : Manager) : Z :=
  let references := foldl (fun n a => if ac_occupied a then w64 (n + Z.of_nat (length (ac_shared_sources a))) else n) 0 (active_lanes m) in
  if u32_max <? references then u32_max else references.

End operations.
