(* ===== verification/ContextInvariant.v ===== *)
(** * Context cache: the manager's invariant

    What holds of the catalogs, lanes and sessions between the calls of the resource manager.  While
    an operation runs, the slots it has taken are in a known part of its work: the ghost state gives
    each slot its role, the shared source that is pinned and the publication order of the request that
    is not yet on a lane. *)

From stdpp Require Import functions.
From S2P Require Import Prelude ContextTypes SessionIndex ContextCatalog.
Open Scope Z_scope.

(** ** The ghost state *)

(** A slot at rest, a claimed continuation, the empty cell taken for a publication, and the source
    whose continuation went to a lane. *)
Inductive Role := AtRest | TakenResident | TakenHollow | TakenConsumed.
(** A shared slot at rest, a claimed prefix, and the slot of a capture, empty or to be replaced. *)
Inductive SharedRole := SharedAtRest | SharedTaken | CaptureVacant | CaptureReplaced.

Record Ghost := mkGhost {
  g_role : Z -> Role;
  g_shared_role : Z -> SharedRole;
  g_pinned : option Z;
  g_order : option Z;
}.

Definition no_ghost : Ghost := mkGhost (fun _ => AtRest) (fun _ => SharedAtRest) None None.

(** ** Entries *)

Definition summary_ok (limit : Z) (s : ContinuationSummary) : Prop := valid_continuation_summary limit s = true.

(** A continuation with its checkpoints and one observation for each. *)
Record resident (limit : Z) (e : CatalogEntry) : Prop := {
  re_id : ce_id e <> 0;
  re_handle : has (ce_handle e) = true;
  re_summary : summary_ok limit (ce_summary e);
  re_observations : co_checkpoint <$> ce_observations e = cp_ref <$> continuation_checkpoints (ce_summary e);
}.

Definition hollow (e : CatalogEntry) : Prop := ce_id e = 0 /\ ce_handle e = None /\ ce_session e = None.

Definition entry_ok (limit : Z) (role : Role) (e : CatalogEntry) : Prop :=
  match ce_state e, role with
  | CatVacant, AtRest => hollow e
  | CatCatalogued, AtRest => resident limit e
  | CatReservedForActive, AtRest => ce_id e <> 0 /\ ce_handle e = None
  | CatClaimed, TakenResident => resident limit e
  | CatClaimed, TakenHollow => hollow e
  | CatClaimed, TakenConsumed => ce_handle e = None /\ ce_session e = None
  | _, _ => False
  end.

Record shared_resident (e : SharedCatalogEntry) : Prop := {
  sh_id : se_id e <> 0;
  sh_handle : has (se_handle e) = true;
  sh_summary : valid_shared_prefix_summary (se_summary e) = true;
}.
Definition shared_hollow (e : SharedCatalogEntry) : Prop := se_id e = 0 /\ se_handle e = None.

Definition shared_entry_ok (role : SharedRole) (pinned : bool) (e : SharedCatalogEntry) : Prop :=
  se_transaction_pins e = (if pinned then 1 else 0) /\
  match se_state e, role with
  | ShVacant, SharedAtRest => shared_hollow e /\ pinned = false
  | ShCatalogued, SharedAtRest => shared_resident e
  | ShClaimed, SharedTaken => shared_resident e /\ pinned = false
  | ShReservedCapture, CaptureVacant => shared_hollow e /\ pinned = false
  | ShReservedCapture, CaptureReplaced => shared_resident e /\ pinned = false
  | _, _ => False
  end.

Definition is_pinned (g : Ghost) (s : Z) : bool := bool_decide (g_pinned g = Some s).

(** ** Lanes and edges *)

(** An edge names a catalogued owner. *)
Definition private_edge_ok (catalog : list CatalogEntry) (edge : ActiveOwnerEdge) : Prop :=
  ok_kind (ae_owner edge) = PrivateContinuation /\
  exists e, at_index catalog (ae_slot edge) = Some e /\ ce_state e = CatCatalogued /\ ce_id e = ok_id (ae_owner edge).
Definition shared_edge_ok (shared : list SharedCatalogEntry) (edge : ActiveOwnerEdge) : Prop :=
  ok_kind (ae_owner edge) = SharedPrefix /\
  exists e, at_index shared (ae_slot edge) = Some e /\ se_state e = ShCatalogued /\ se_id e = ok_id (ae_owner edge).

Record edges_ok (catalog : list CatalogEntry) (shared : list SharedCatalogEntry) (a : ActiveEntry) : Prop := {
  eo_private : forall edge, ac_retained_private_source a = Some edge -> private_edge_ok catalog edge;
  eo_distinct : NoDup (ae_slot <$> ac_shared_sources a);
  eo_shared : forall edge, edge ∈ ac_shared_sources a -> shared_edge_ok shared edge;
}.

(** A lane in use owns the catalog slot that its continuation will be published in. *)
Definition owns_publication (catalog : list CatalogEntry) (a : ActiveEntry) : Prop :=
  exists e, at_index catalog (ac_publication_slot a) = Some e /\ ce_state e = CatReservedForActive /\ ce_id e = ac_continuation_id a.

Definition occupied_lane (active : list ActiveEntry) (l : nat) (a : ActiveEntry) : Prop :=
  active !! l = Some a /\ ac_occupied a = true.

(** ** Sessions and publication orders *)

(** A bound name is that of a resident continuation. *)
Definition binding_ok (catalog : list CatalogEntry) (x : SessionIndexEntry) : Prop :=
  exists e, at_index catalog (si_slot x) = Some e /\ ce_state e <> CatReservedForActive /\ ce_id e = si_owner_id x /\
    ce_revision e = si_revision x /\ ce_session e = Some (si_key x).

Definition bound_cell (sessions : list SessionIndexEntry) (c : nat) (x : SessionIndexEntry) : Prop :=
  sessions !! c = Some x /\ si_state x = SessionOccupied.

(** ** The invariant *)

Record sizes_ok (m : Manager) : Prop := {
  so_lanes : 1 <= lane_count_ m <= kMaximumConcurrency;
  so_lane_states : length (lanes_ m) = 8%nat;
  so_active : length (active_ m) = 8%nat;
  so_catalog : Z.of_nat (length (catalog_ m)) = catalog_count_ m;
  so_shared : Z.of_nat (length (shared_catalog_ m)) = shared_catalog_count_ m;
  so_sessions : Z.of_nat (length (session_index_ m)) = catalog_count_ m;
  so_bounds : catalog_count_ m <= u32_max /\ shared_catalog_count_ m <= u32_max /\ 0 <= max_long_anchors_ m <= u32_max - 3;
  so_index : Z.of_nat (length (prefix_index_ m)) = catalog_count_ m * (max_long_anchors_ m + 2) + shared_catalog_count_ m;
  so_window : Z.of_nat (length (demand_window_ m)) <= kDemandWindowCapacity;
}.

Record lanes_ok (m : Manager) : Prop := {
  lo_occupied : forall l a, active_ m !! l = Some a -> ac_occupied a = false -> a = empty_active;
  lo_free : forall l a, active_ m !! l = Some a -> lanes_ m !! l = Some LaneFree -> a = empty_active;
  lo_busy : forall l a x, active_ m !! l = Some a -> lanes_ m !! l = Some x -> x = LaneActive \/ x = LaneTerminalPending -> ac_occupied a = true;
  lo_unused : forall l, (Z.to_nat (lane_count_ m) <= l < 8)%nat -> lanes_ m !! l = Some LaneFree;
}.

Record cache_inv (g : Ghost) (m : Manager) : Prop := {
  ci_sizes : sizes_ok m;
  ci_private : forall s e, at_index (catalog_ m) s = Some e -> entry_ok (max_long_anchors_ m) (g_role g s) e;
  ci_shared : forall s e, at_index (shared_catalog_ m) s = Some e -> shared_entry_ok (g_shared_role g s) (is_pinned g s) e;
  ci_lanes : lanes_ok m;
  ci_publications : forall l a, occupied_lane (active_ m) l a -> owns_publication (catalog_ m) a;
  ci_owned : forall s e, at_index (catalog_ m) s = Some e -> ce_state e = CatReservedForActive ->
    exists l a, occupied_lane (active_ m) l a /\ ac_publication_slot a = s;
  ci_slots : forall l1 a1 l2 a2, occupied_lane (active_ m) l1 a1 -> occupied_lane (active_ m) l2 a2 ->
    ac_publication_slot a1 = ac_publication_slot a2 -> l1 = l2;
  ci_edges : forall l a, occupied_lane (active_ m) l a -> edges_ok (catalog_ m) (shared_catalog_ m) a;
  ci_session_table : session_wf (session_index_ m);
  ci_bindings : forall c x, bound_cell (session_index_ m) c x -> binding_ok (catalog_ m) x;
  ci_cell_orders : forall c x l a, bound_cell (session_index_ m) c x -> occupied_lane (active_ m) l a -> si_publication_order x <> ac_publication_order a;
  ci_lane_orders : forall l1 a1 l2 a2, occupied_lane (active_ m) l1 a1 -> occupied_lane (active_ m) l2 a2 ->
    ac_publication_order a1 = ac_publication_order a2 -> l1 = l2;
  ci_new_order : forall o, g_order g = Some o ->
    (forall c x, bound_cell (session_index_ m) c x -> si_publication_order x <> o) /\
    (forall l a, occupied_lane (active_ m) l a -> ac_publication_order a <> o);
}.

(** ** Reading and writing *)

Lemma at_set_index_ne' {A} (l : list A) i j x : i <> j -> 0 <= i -> 0 <= j -> at_index (set_index l i x) j = at_index l j.
Proof. intros. by apply at_set_index_ne. Qed.

Lemma at_set_index_Some {A} (l : list A) i x0 x j y :
  at_index l i = Some x0 -> at_index (set_index l i x) j = Some y -> (j = i /\ y = x) \/ (j <> i /\ at_index l j = Some y).
Proof.
  intros Hi Hj. pose proof (at_index_lt _ _ _ Hi). destruct (decide (j = i)) as [->|Hne].
  - rewrite at_set_index_eq in Hj by lia. left. split; [done|congruence].
  - rewrite at_set_index_ne in Hj by lia. by right.
Qed.

Section reads.
Context (m : Manager).

Lemma run_get_entry s e : at_index (catalog_ m) s = Some e -> get_entry s m = (m, Ok e).
Proof. unfold get_entry, view, entry_at. by intros ->. Qed.
Lemma run_get_shared s e : at_index (shared_catalog_ m) s = Some e -> get_shared s m = (m, Ok e).
Proof. unfold get_shared, view, shared_at. by intros ->. Qed.
Lemma run_get_active l a : at_index (active_ m) l = Some a -> get_active l m = (m, Ok a).
Proof. unfold get_active, view, active_at. by intros ->. Qed.

Lemma run_put_entry s e e' : at_index (catalog_ m) s = Some e -> put_entry s e' m = (set_catalog (set_index (catalog_ m) s e') m, Ok tt).
Proof. intros He. unfold put_entry. unfold_M. by rewrite (run_get_entry _ _ He). Qed.
Lemma run_put_shared s e e' : at_index (shared_catalog_ m) s = Some e -> put_shared s e' m = (set_shared (set_index (shared_catalog_ m) s e') m, Ok tt).
Proof. intros He. unfold put_shared. unfold_M. by rewrite (run_get_shared _ _ He). Qed.
Lemma run_put_active l a a' : at_index (active_ m) l = Some a -> put_active l a' m = (set_active (set_index (active_ m) l a') m, Ok tt).
Proof. intros Ha. unfold put_active. unfold_M. by rewrite (run_get_active _ _ Ha). Qed.
Lemma run_put_lane l x x' : at_index (lanes_ m) l = Some x -> put_lane l x' m = (set_lanes (set_index (lanes_ m) l x') m, Ok tt).
Proof. intros Hx. unfold put_lane, view, lane_at. unfold_M. by rewrite Hx. Qed.

Lemma run_modify_entry s e f : at_index (catalog_ m) s = Some e -> modify_entry s f m = (set_catalog (set_index (catalog_ m) s (f e)) m, Ok tt).
Proof. intros He. unfold modify_entry. unfold_M. rewrite (run_get_entry _ _ He). by apply run_put_entry with e. Qed.
Lemma run_modify_shared s e f : at_index (shared_catalog_ m) s = Some e -> modify_shared s f m = (set_shared (set_index (shared_catalog_ m) s (f e)) m, Ok tt).
Proof. intros He. unfold modify_shared. unfold_M. rewrite (run_get_shared _ _ He). by apply run_put_shared with e. Qed.
Lemma run_modify_active l a f : at_index (active_ m) l = Some a -> modify_active l f m = (set_active (set_index (active_ m) l (f a)) m, Ok tt).
Proof. intros Ha. unfold modify_active. unfold_M. rewrite (run_get_active _ _ Ha). by apply run_put_active with a. Qed.
End reads.

(** ** Changes outside the invariant *)

Lemma cache_inv_ext g g' m :
  cache_inv g m -> (forall s, g_role g' s = g_role g s) -> (forall s, g_shared_role g' s = g_shared_role g s) ->
  g_pinned g' = g_pinned g -> g_order g' = g_order g -> cache_inv g' m.
Proof.
  intros [] Hr Hs Hp Ho. split; try done.
  - intros s e He. rewrite Hr. by apply ci_private0.
  - intros s e He. rewrite Hs. unfold is_pinned. rewrite Hp. by apply ci_shared0.
  - intros o. rewrite Ho. apply ci_new_order0.
Qed.

(** Forgetting the request's order. *)
Lemma cache_inv_forget g m : cache_inv g m -> cache_inv (mkGhost (g_role g) (g_shared_role g) (g_pinned g) None) m.
Proof. intros []. by split. Qed.

Lemma cache_inv_irrelevant g m m' :
  cache_inv g m -> mg_config m' = mg_config m -> lanes_ m' = lanes_ m -> catalog_ m' = catalog_ m ->
  shared_catalog_ m' = shared_catalog_ m -> session_index_ m' = session_index_ m -> active_ m' = active_ m ->
  length (prefix_index_ m') = length (prefix_index_ m) -> Z.of_nat (length (demand_window_ m')) <= kDemandWindowCapacity ->
  cache_inv g m'.
Proof.
  intros [Hsz Hp Hs Hl Hpub Hown Hsl He Hst Hb Hco Hlo Hno] Hc El Ec Es Ex Ea Hpi Hw.
  unfold max_long_anchors_, lane_count_ in *.
  split; rewrite ?Ea, ?Ec, ?Es, ?Ex; try done.
  - destruct Hsz. unfold lane_count_, catalog_count_, shared_catalog_count_, max_long_anchors_ in *.
    split; unfold lane_count_, catalog_count_, shared_catalog_count_, max_long_anchors_; rewrite ?Hc, ?El, ?Ec, ?Es, ?Ex, ?Ea, ?Hpi; done.
  - unfold max_long_anchors_. by rewrite Hc.
  - destruct Hl. split; unfold lane_count_; rewrite ?Hc, ?El, ?Ea; done.
Qed.

Lemma cache_inv_stats g m stats : cache_inv g m -> cache_inv g (set_stats stats m).
Proof. intros H. apply (cache_inv_irrelevant g m); try done. apply (so_window _ (ci_sizes _ _ H)). Qed.
Lemma cache_inv_transaction g m x : cache_inv g m -> cache_inv g (set_transaction x m).
Proof. intros H. apply (cache_inv_irrelevant g m); try done. apply (so_window _ (ci_sizes _ _ H)). Qed.
Lemma cache_inv_counters g m x y z : cache_inv g m -> cache_inv g (set_counters x y z m).
Proof. intros H. apply (cache_inv_irrelevant g m); try done. apply (so_window _ (ci_sizes _ _ H)). Qed.

(** ** One continuation changes *)

(** Nothing but the slot's role changes. *)
Definition set_role (s : Z) (role : Role) (g : Ghost) : Ghost :=
  mkGhost (<[s := role]> (g_role g)) (g_shared_role g) (g_pinned g) (g_order g).
Definition set_shared_role (s : Z) (role : SharedRole) (g : Ghost) : Ghost :=
  mkGhost (g_role g) (<[s := role]> (g_shared_role g)) (g_pinned g) (g_order g).

Definition no_private_edge (active : list ActiveEntry) (s : Z) : Prop :=
  forall l a edge, occupied_lane active l a -> ac_retained_private_source a = Some edge -> ae_slot edge <> s.
Definition no_shared_edge (active : list ActiveEntry) (s : Z) : Prop :=
  forall l a edge, occupied_lane active l a -> edge ∈ ac_shared_sources a -> ae_slot edge <> s.

(** A reserved slot stays one with its identity, and no other becomes one. *)
Definition reservation_kept (e e' : CatalogEntry) : Prop :=
  (ce_state e' = CatReservedForActive <-> ce_state e = CatReservedForActive) /\
  (ce_state e = CatReservedForActive -> ce_id e' = ce_id e).

(** The lanes that retain the continuation still find it. *)
Definition retention_kept (active : list ActiveEntry) (s : Z) (e e' : CatalogEntry) : Prop :=
  (ce_state e = CatCatalogued -> (ce_state e' = CatCatalogued /\ ce_id e' = ce_id e) \/ no_private_edge active s).

Lemma cache_inv_entry g m s e e' role sessions :
  cache_inv g m -> at_index (catalog_ m) s = Some e ->
  entry_ok (max_long_anchors_ m) role e' -> reservation_kept e e' -> retention_kept (active_ m) s e e' ->
  session_wf sessions -> length sessions = length (session_index_ m) ->
  (forall c x, bound_cell sessions c x ->
     binding_ok (set_index (catalog_ m) s e') x /\
     exists c0 x0, bound_cell (session_index_ m) c0 x0 /\ si_publication_order x = si_publication_order x0) ->
  cache_inv (set_role s role g) (set_sessions sessions (set_catalog (set_index (catalog_ m) s e') m)).
Proof.
  intros [Hsz Hp Hs Hl Hpub Hown Hsl Hed Hst Hb Hco Hlo Hno] He Hok [Hres Hid] Hret Hwf Hlen Hbind.
  pose proof (at_index_lt _ _ _ He) as Hlt.
  assert (forall t x, at_index (catalog_ m) t = Some x ->
            (t = s /\ x = e /\ at_index (set_index (catalog_ m) s e') t = Some e') \/
            (t <> s /\ at_index (set_index (catalog_ m) s e') t = Some x)) as Hnew.
  { intros t x Hx. destruct (decide (t = s)) as [->|]; [left|right; split; [done|by rewrite at_set_index_ne by lia]].
    rewrite He in Hx. split_and!; [done|congruence|by apply at_set_index_eq]. }
  split; cbn [catalog_ set_catalog set_sessions session_index_ active_ shared_catalog_ lanes_ set_role g_role g_shared_role g_order]; try done.
  - destruct Hsz. split; try done; cbn; rewrite ?length_set_index, ?Hlen; done.
  - intros t x Hx. destruct (at_set_index_Some _ _ _ _ _ _ He Hx) as [[-> ->]|[Hne Hx']].
    + by rewrite fn_lookup_insert.
    + rewrite fn_lookup_insert_ne by done. by apply Hp.
  - destruct Hl. by split.
  - intros l a Ha. destruct (Hpub l a Ha) as (x & Hx & Hxs & Hxi).
    destruct (Hnew _ _ Hx) as [(Heq & -> & Hx')|[_ Hx']]; [|by exists x].
    exists e'. rewrite Hid by done. split_and!; [done|by apply Hres|done].
  - intros t x Hx Hxs. destruct (at_set_index_Some _ _ _ _ _ _ He Hx) as [[-> ->]|[Hne Hx']]; [|by eapply Hown].
    apply (Hown _ _ He). by apply Hres.
  - intros l a Ha. destruct (Hed l a Ha) as [Hpe Hnd Hse]. split; try done. intros edge Hedge.
    destruct (Hpe edge Hedge) as (Hk & x & Hx & Hxs & Hxi). split; [done|].
    destruct (Hnew _ _ Hx) as [(Heq & -> & Hx')|[_ Hx']]; [|by exists x].
    destruct (Hret Hxs) as [[? ?]|Hno']; [exists e'; split_and!; [done|done|congruence]|].
    by destruct (Hno' _ _ _ Ha Hedge).
  - intros c x Hx. by apply (Hbind c x).
  - intros c x l a Hx Ha. destruct (Hbind c x Hx) as (_ & c0 & x0 & Hx0 & ->). by eapply Hco.
  - intros o Ho. destruct (Hno o Ho) as [Hn1 Hn2]. split; [|done]. intros c x Hx.
    destruct (Hbind c x Hx) as (_ & c0 & x0 & Hx0 & ->). by eapply Hn1.
Qed.

(** The bindings after a change of one continuation. *)
Section bindings.
Context (g : Ghost) (m : Manager) (s : Z) (e e' : CatalogEntry) (Hinv : cache_inv g m) (He : at_index (catalog_ m) s = Some e).

(** The name's fields stay. *)
Lemma bindings_kept c x :
  ce_state e' <> CatReservedForActive \/ ce_state e = CatReservedForActive ->
  (ce_state e <> CatReservedForActive -> ce_session e <> None -> ce_id e' = ce_id e /\ ce_revision e' = ce_revision e /\ ce_session e' = ce_session e) ->
  bound_cell (session_index_ m) c x -> binding_ok (set_index (catalog_ m) s e') x.
Proof.
  intros Hst Hf Hx. destruct (ci_bindings _ _ Hinv c x Hx) as (y & Hy & Hys & Hyi & Hyr & Hyn).
  pose proof (at_index_lt _ _ _ He). destruct (decide (si_slot x = s)) as [Heq|Hne].
  - rewrite Heq, He in Hy. injection Hy as <-. destruct Hf as (Hi & Hr & Hn); [done|congruence|].
    exists e'. rewrite Heq, at_set_index_eq by lia. split_and!; [done|by destruct Hst|congruence..].
  - exists y. by rewrite at_set_index_ne by lia.
Qed.

(** The continuation's names go away. *)
Lemma bindings_erased c x :
  ce_id e <> 0 -> bound_cell (erase_session_if_owner (ce_id e) (session_index_ m)) c x ->
  bound_cell (session_index_ m) c x /\ binding_ok (set_index (catalog_ m) s e') x.
Proof.
  intros Hid Hx. apply (erase_session_occupied _ _ _ _ Hid) in Hx as (Hx & Hxs & Hxo).
  split; [done|]. destruct (ci_bindings _ _ Hinv c x (conj Hx Hxs)) as (y & Hy & Hys & Hyi & Hyr & Hyn).
  pose proof (at_index_lt _ _ _ He). exists y. rewrite at_set_index_ne; [done|lia|]. intros Heq. rewrite <- Heq, He in Hy. injection Hy as <-. congruence.
Qed.

(** The slot is bound once. *)
Lemma bound_once c1 x1 c2 x2 :
  bound_cell (session_index_ m) c1 x1 -> bound_cell (session_index_ m) c2 x2 -> si_slot x1 = si_slot x2 -> c1 = c2.
Proof.
  intros [H1 Hs1] [H2 Hs2] Heq. destruct (ci_bindings _ _ Hinv c1 x1) as (y1 & Hy1 & _ & _ & _ & Hn1); [done|].
  destruct (ci_bindings _ _ Hinv c2 x2) as (y2 & Hy2 & _ & _ & _ & Hn2); [done|]. rewrite Heq, Hy2 in Hy1. injection Hy1 as ->.
  apply (sw_distinct _ (ci_session_table _ _ Hinv) (si_key x1)); [by exists x1|exists x2]. split_and!; [done|done|congruence].
Qed.

(** The continuation's revision moves on, and its binding with it. *)
Lemma bindings_refreshed c x :
  ce_state e <> CatReservedForActive -> ce_state e' <> CatReservedForActive -> ce_id e <> 0 -> ce_id e' = ce_id e -> ce_session e' = ce_session e ->
  bound_cell (refresh_session_owner_revision (catalog_count_ m) (ce_id e) s (ce_revision e') (session_index_ m)) c x ->
  binding_ok (set_index (catalog_ m) s e') x /\ exists c0 x0, bound_cell (session_index_ m) c0 x0 /\ si_publication_order x = si_publication_order x0.
Proof.
  intros Hst Hst' Hid Hi Hn Hx. pose proof (at_index_lt _ _ _ He) as Hlt. rewrite (so_catalog _ (ci_sizes _ _ Hinv)) in Hlt.
  unfold refresh_session_owner_revision in Hx. rewrite (proj2 (Z.eqb_neq _ _) Hid), (proj2 (Z.leb_gt _ _)) in Hx by lia. cbn [orb] in Hx.
  destruct Hx as [Hx Hxs]. destruct (refresh_first_lookup _ _ _ _ _ _ Hx) as (x0 & Hx0 & Hcase).
  assert (bound_cell (session_index_ m) c x0) as Hb0 by (split; [done|]; by destruct Hcase as [->|(-> & ? & _)]).
  destruct (ci_bindings _ _ Hinv c x0 Hb0) as (y & Hy & Hys & Hyi & Hyr & Hyn).
  split; [|exists c, x0; split; [done|by destruct Hcase as [->|(-> & _)]]].
  pose proof (at_index_lt _ _ _ He). destruct (decide (si_slot x0 = s)) as [Heq|Hne].
  - rewrite Heq, He in Hy. injection Hy as <-.
    rewrite (refresh_first_hit _ _ _ _ c x0) in Hx; [|done|apply Hb0|done|done|].
    + rewrite list_lookup_insert_eq in Hx by by eapply lookup_lt_Some. injection Hx as <-.
      exists e'. cbn. rewrite Heq, at_set_index_eq by lia. split_and!; [done|done|congruence|done|congruence].
    + intros c' x' Hx' Hs' Hsl. apply (bound_once c' x' c x0); [done|done|congruence].
  - assert (x = x0) as -> by (destruct Hcase as [?|(_ & _ & _ & ?)]; done).
    exists y. by rewrite at_set_index_ne by lia.
Qed.
End bindings.

(** ** One shared prefix changes *)

Definition shared_retention_kept (active : list ActiveEntry) (s : Z) (e e' : SharedCatalogEntry) : Prop :=
  se_state e = ShCatalogued -> (se_state e' = ShCatalogued /\ se_id e' = se_id e) \/ no_shared_edge active s.

(** The pinned slot may change with the entry. *)
Lemma cache_inv_shared_entry g m s e e' role pinned :
  cache_inv g m -> at_index (shared_catalog_ m) s = Some e ->
  shared_entry_ok role (bool_decide (pinned = Some s)) e' -> shared_retention_kept (active_ m) s e e' ->
  (forall t, t <> s -> (pinned = Some t <-> g_pinned g = Some t)) ->
  cache_inv (mkGhost (g_role g) (<[s := role]> (g_shared_role g)) pinned (g_order g)) (set_shared (set_index (shared_catalog_ m) s e') m).
Proof.
  intros [Hsz Hp Hs Hl Hpub Hown Hsl Hed Hst Hb Hco Hlo Hno] He Hok Hret Hpin.
  pose proof (at_index_lt _ _ _ He) as Hlt.
  split; cbn [catalog_ set_shared session_index_ active_ shared_catalog_ lanes_ g_role g_shared_role g_order g_pinned]; try done.
  - destruct Hsz. split; try done; cbn; rewrite ?length_set_index; done.
  - intros t x Hx. unfold is_pinned. cbn [g_pinned]. destruct (at_set_index_Some _ _ _ _ _ _ He Hx) as [[-> ->]|[Hne Hx']].
    + by rewrite fn_lookup_insert.
    + rewrite fn_lookup_insert_ne by done. specialize (Hs _ _ Hx'). unfold is_pinned in Hs.
      by rewrite (bool_decide_ext _ (g_pinned g = Some t)) by by apply Hpin.
  - destruct Hl. by split.
  - intros l a Ha. destruct (Hed l a Ha) as [Hpe Hnd Hse]. split; try done. intros edge Hedge.
    destruct (Hse edge Hedge) as (Hk & x & Hx & Hxs & Hxi). split; [done|].
    destruct (decide (ae_slot edge = s)) as [Heq|Hne].
    + rewrite Heq, He in Hx. injection Hx as <-. destruct (Hret Hxs) as [[? ?]|Hn]; [|by destruct (Hn _ _ _ Ha Hedge)].
      exists e'. rewrite Heq, at_set_index_eq by lia. split_and!; [done|done|congruence].
    + exists x. by rewrite at_set_index_ne by lia.
Qed.

(** The pin stays. *)
Lemma cache_inv_shared_role g m s e e' role :
  cache_inv g m -> at_index (shared_catalog_ m) s = Some e ->
  shared_entry_ok role (is_pinned g s) e' -> shared_retention_kept (active_ m) s e e' ->
  cache_inv (set_shared_role s role g) (set_shared (set_index (shared_catalog_ m) s e') m).
Proof. intros Hinv He Hok Hret. by apply (cache_inv_shared_entry g m s e e' role (g_pinned g)). Qed.
