(* ===== verification/ContextActions.v ===== *)
(** * Context cache: what the parts of a transaction do to the catalogs

    Summaries and their observations, pressure actions, references, and the reservation of slots, each
    with what it keeps of the invariant. *)

From stdpp Require Import functions.
From S2P Require Import Prelude ContextTypes SessionIndex ContextCatalog ContextManager ContextInvariant.
Open Scope Z_scope.

(** ** Summaries *)

(** The summary that a catalog entry keeps of what the program reported. *)
Definition stored_summary (s : ContinuationSummary) : ContinuationSummary :=
  mkContinuation (cs_endpoint s) (cs_rewrite s) (cs_long_anchors s) 0.

Lemma summary_ok_length limit s : summary_ok limit s -> Z.of_nat (length (continuation_checkpoints s)) <= limit + 2.
Proof.
  unfold summary_ok, valid_continuation_summary, continuation_checkpoints. rewrite !andb_true_iff, negb_true_iff, orb_false_iff, Z.ltb_ge.
  intros [[[[_ Hlen] _] _] _]. rewrite !length_app.
  assert (forall o : option CheckpointSummary, (length (option_list o) <= 1)%nat) as Ho by (intros []; cbn; lia).
  pose proof (Ho (cs_endpoint s)). pose proof (Ho (cs_rewrite s)). lia.
Qed.

Lemma assign_ok limit s : summary_ok limit s -> assign_continuation_summary limit s = Ok (stored_summary s).
Proof.
  intros Hs. unfold assign_continuation_summary. assert (Z.of_nat (length (cs_long_anchors s)) <= limit) as Hle.
  { unfold summary_ok, valid_continuation_summary in Hs. rewrite !andb_true_iff, negb_true_iff, orb_false_iff, Z.ltb_ge in Hs. tauto. }
  by rewrite (proj2 (Z.ltb_ge _ _) Hle).
Qed.

Lemma stored_summary_ok limit s : summary_ok limit s -> summary_ok limit (stored_summary s).
Proof. done. Qed.

Lemma migrate_each_ok capacity os retention cs : forall scratch,
  Z.of_nat (length scratch + length cs) <= capacity ->
  migrate_each capacity os retention scratch cs = Ok (scratch ++ (migrated os retention <$> cs)).
Proof.
  induction cs as [|c cs IH]; intros scratch Hlen; cbn [migrate_each length] in *; [by rewrite app_nil_r|].
  unfold_M. rewrite (proj2 (Z.eqb_neq _ _)) by lia. rewrite IH by (rewrite length_app; cbn; lia).
  cbn. by rewrite <- app_assoc.
Qed.

Definition migrated_all (e : CatalogEntry) (s : ContinuationSummary) (retention : RetentionClass) : list CheckpointObservation :=
  migrated (ce_observations e) retention <$> continuation_checkpoints s.

Lemma migrate_ok limit e s retention :
  summary_ok limit s -> 0 <= limit <= u32_max - 3 ->
  migrate_observations limit e s retention = Ok (set_entry_observations (migrated_all e s retention) e).
Proof.
  intros Hs%summary_ok_length Hl. unfold migrate_observations. rewrite w32_small by lia.
  by rewrite migrate_each_ok by (cbn [length]; lia).
Qed.

Lemma migrated_refs e s retention : co_checkpoint <$> migrated_all e s retention = cp_ref <$> continuation_checkpoints s.
Proof. unfold migrated_all. rewrite <- list_fmap_compose. done. Qed.

(** A resident continuation with another summary. *)
Definition with_summary (s : ContinuationSummary) (e : CatalogEntry) : CatalogEntry :=
  set_entry_revision (advance_revision (ce_revision e))
    (set_entry_observations (migrated_all e s (ce_retention e)) (set_entry_summary (stored_summary s) e)).

Lemma resident_with_summary limit s e : resident limit e -> summary_ok limit s -> resident limit (with_summary s e).
Proof. intros [Hid Hh _ _] Hs. split; [done|done|done|]. exact (migrated_refs e s (ce_retention e)). Qed.

Lemma resident_state limit x e : resident limit e -> resident limit (set_entry_state x e).
Proof. intros []. by split. Qed.

Lemma run_replace_summary m slot e s :
  at_index (catalog_ m) slot = Some e -> summary_ok (max_long_anchors_ m) s -> 0 <= max_long_anchors_ m <= u32_max - 3 ->
  replace_summary slot s m = (set_catalog (set_index (catalog_ m) slot (with_summary s e)) m, Ok tt).
Proof.
  intros He Hs Hl. unfold replace_summary. unfold_M. rewrite (run_get_entry _ _ _ He). unfold view.
  rewrite assign_ok, migrate_ok by done. by rewrite (run_put_entry _ _ _ _ He).
Qed.

(** ** Private actions *)

(** What validation has established of an action on the claimed entry. *)
Definition private_action_ok (limit : Z) (claim : OwnerClaim) (r : MaterializationVictimResult) (e : CatalogEntry) : Prop :=
  ce_id e = ok_id (cc_owner (cl_capability claim)) /\
  (vr_disposition r = VictimRetained -> vr_pressure_committed r = true -> exists s, vr_final_summary r = Some s /\ summary_ok limit s).

Lemma validate_private_action_ok m claim committed r :
  validate_private_action m claim committed r = Ok tt ->
  exists e, entry_at m (cc_slot (cl_capability claim)) = Ok e /\ ce_state e = CatClaimed /\
    ce_revision e = cc_generation (cl_capability claim) /\
    ok_kind (cc_owner (cl_capability claim)) = PrivateContinuation /\ private_action_ok (max_long_anchors_ m) claim r e /\
    (vr_disposition r = VictimEvicted -> vr_pressure_committed r = true).
Proof.
  unfold validate_private_action. intros (_ & _ & H)%bind_Ok. apply bind_Ok in H as (e & He & H). exists e.
  apply bind_Ok in H as (u1 & Hch%throw_if_Ok & H). apply bind_Ok in H as (u2 & Hv%throw_if_Ok & H).
  apply bind_Ok in H as (_ & _ & H). apply bind_Ok in H as (_ & _ & H).
  unfold claimed_owner_changed in Hch. rewrite !orb_false_iff, !negb_false_iff, !bool_decide_eq_true, !Z.eqb_eq in Hch.
  destruct Hch as [[[[Hk Hst] Hi] Hr] _]. split_and!; [done|done|done|done|split; [done|]|].
  - intros Hd Hc. rewrite Hd, Hc in H. cbn [negb andb] in H. apply bind_Ok in H as (_ & _ & H%throw_if_Ok).
    destruct (vr_final_summary r) as [s|]; [|done]. exists s. split; [done|]. by apply negb_false_iff.
  - intros Hd. rewrite Hd in H. apply throw_if_Ok, orb_false_iff in H as [H _]. by apply negb_false_iff.
Qed.

(** The claimed entry after its action. *)
Definition acted (r : MaterializationVictimResult) (e : CatalogEntry) : CatalogEntry :=
  match vr_disposition r with
  | VictimEvicted => clear_catalog_entry e
  | VictimRetained =>
      if vr_pressure_committed r then
        match vr_final_summary r with Some s => set_entry_state CatCatalogued (with_summary s e) | None => e end
      else set_entry_state CatCatalogued e
  end.

(** Only the claimed slot, the index of sessions and the statistics change. *)
Definition action_frame (slot : Z) (m m' : Manager) : Prop :=
  exists e' sessions stats, m' = set_stats stats (set_sessions sessions (set_catalog (set_index (catalog_ m) slot e') m)).

Lemma apply_private_action_ok g m claim r e :
  cache_inv g m -> at_index (catalog_ m) (cc_slot (cl_capability claim)) = Some e -> g_role g (cc_slot (cl_capability claim)) = TakenResident ->
  ce_state e = CatClaimed -> private_action_ok (max_long_anchors_ m) claim r e ->
  exists sessions stats,
    apply_private_action claim r m =
      (set_stats stats (set_sessions sessions (set_catalog (set_index (catalog_ m) (cc_slot (cl_capability claim)) (acted r e)) m)), Ok tt) /\
    cache_inv (set_role (cc_slot (cl_capability claim)) AtRest g)
      (set_stats stats (set_sessions sessions (set_catalog (set_index (catalog_ m) (cc_slot (cl_capability claim)) (acted r e)) m))).
Proof.
  set (slot := cc_slot (cl_capability claim)). intros Hinv He Hrole Hst [Hid Hsum].
  pose proof (ci_private _ _ Hinv _ _ He) as Hok. unfold entry_ok in Hok. rewrite Hrole, Hst in Hok.
  pose proof (so_bounds _ (ci_sizes _ _ Hinv)) as (_ & _ & Hlim).
  unfold apply_private_action. fold slot. unfold_M. rewrite (run_get_entry _ _ _ He).
  assert (forall e' sessions stats, ce_state e' <> CatReservedForActive -> entry_ok (max_long_anchors_ m) AtRest e' ->
    session_wf sessions -> length sessions = length (session_index_ m) ->
    (forall c x, bound_cell sessions c x ->
       binding_ok (set_index (catalog_ m) slot e') x /\
       exists c0 x0, bound_cell (session_index_ m) c0 x0 /\ si_publication_order x = si_publication_order x0) ->
    cache_inv (set_role slot AtRest g) (set_stats stats (set_sessions sessions (set_catalog (set_index (catalog_ m) slot e') m)))) as Hstep.
  { intros e' sessions stats Hst' Hok' Hwf Hlen Hb. apply cache_inv_stats. apply (cache_inv_entry g m slot e e'); try done.
    - split; [|congruence]. rewrite Hst. split; congruence.
    - intros Hc. congruence. }
  unfold acted. destruct (vr_disposition r) eqn:Hd.
  - destruct (vr_pressure_committed r) eqn:Hc; cbn [negb].
    + destruct (Hsum eq_refl eq_refl) as (s & Hs & Hsok). rewrite Hs.
      rewrite (run_replace_summary _ _ _ _ He) by done.
      set (m1 := set_catalog _ m).
      assert (at_index (catalog_ m1) slot = Some (with_summary s e)) as He1.
      { apply at_set_index_eq. by eapply at_index_lt. }
      rewrite (run_get_entry _ _ _ He1). unfold refresh_sessions, modify_stats, mmodify. cbn [mbind M_bind].
      erewrite run_put_entry by exact He1. cbn [catalog_ set_stats set_sessions m1 set_catalog session_index_ context_stats_].
      set (e' := set_entry_state CatCatalogued (with_summary s e)).
      assert (set_index (set_index (catalog_ m) slot (with_summary s e)) slot e' = set_index (catalog_ m) slot e') as Heq.
      { unfold set_index. apply list_insert_insert_eq. }
      eexists (refresh_session_owner_revision (catalog_count_ m) (ok_id (cc_owner (cl_capability claim))) slot (ce_revision (with_summary s e)) (session_index_ m)), _.
      split; [unfold set_stats, set_sessions, set_catalog; cbn; rewrite Heq; reflexivity|].
      apply Hstep; [done| |apply session_wf_refresh', ci_session_table with g; done| |].
      * by apply (resident_state _ _ (with_summary s e)), resident_with_summary.
      * apply refresh_session_length.
      * intros c x Hx. rewrite <- Hid in Hx. eapply (bindings_refreshed g m slot e e'); try done; [congruence|by destruct Hok].
    + rewrite (run_put_entry _ _ _ _ He). exists (session_index_ m), (context_stats_ m). split; [by destruct m|].
      apply Hstep; [done|by apply (resident_state _ _ e)|by eapply ci_session_table|done|].
      intros c x Hx. split; [|by exists c, x]. eapply (bindings_kept g m slot e); try done. by left.
  - unfold erase_sessions, mmodify. erewrite run_put_entry by exact He.
    cbn [catalog_ set_sessions].
    eexists (erase_session_if_owner (ok_id (cc_owner (cl_capability claim))) (session_index_ m)), _.
    split; [unfold modify_stats, mmodify, set_stats, set_sessions, set_catalog; cbn; reflexivity|].
    apply Hstep; [done|done|apply session_wf_erase; by eapply ci_session_table|apply erase_session_length|].
    intros c x Hx. rewrite <- Hid in Hx. destruct (bindings_erased g m slot e (clear_catalog_entry e) Hinv He c x) as [Hb ?]; [by destruct Hok|done|].
    split; [done|]. by exists c, x.
Qed.

(** ** Shared actions *)

Definition shared_action_ok (claim : OwnerClaim) (r : MaterializationSharedVictimResult) (e : SharedCatalogEntry) : Prop :=
  sv_disposition r = VictimRetained -> sv_pressure_committed r = true ->
  exists s, sv_final_summary r = Some s /\ valid_shared_prefix_summary s = true.

Lemma validate_shared_action_ok m claim committed r :
  validate_shared_action m claim committed r = Ok tt ->
  exists e, shared_at m (cc_slot (cl_capability claim)) = Ok e /\ se_state e = ShClaimed /\
    se_id e = ok_id (cc_owner (cl_capability claim)) /\ se_revision e = cc_generation (cl_capability claim) /\
    ok_kind (cc_owner (cl_capability claim)) = SharedPrefix /\ shared_action_ok claim r e.
Proof.
  unfold validate_shared_action. intros (_ & _ & H)%bind_Ok. apply bind_Ok in H as (e & He & H). exists e.
  apply bind_Ok in H as (u1 & Hch%throw_if_Ok & H). apply bind_Ok in H as (u2 & Hv%throw_if_Ok & H).
  apply bind_Ok in H as (_ & _ & H). apply bind_Ok in H as (_ & _ & H).
  unfold claimed_owner_changed in Hch. rewrite !orb_false_iff, !negb_false_iff, !bool_decide_eq_true, !Z.eqb_eq in Hch.
  destruct Hch as [[[[Hk Hst] Hi] Hr] _]. split_and!; [done..|]. intros Hd Hc. rewrite Hd, Hc in H. cbn [negb andb] in H.
  apply bind_Ok in H as (_ & _ & H%throw_if_Ok). destruct (sv_final_summary r) as [s|]; [|done].
  exists s. split; [done|]. by apply negb_false_iff.
Qed.

Definition shared_acted (r : MaterializationSharedVictimResult) (e : SharedCatalogEntry) : SharedCatalogEntry :=
  match sv_disposition r with
  | VictimEvicted => clear_shared_entry e
  | VictimRetained =>
      if sv_pressure_committed r then
        match sv_final_summary r with
        | Some s => set_shared_state ShCatalogued (set_shared_summary (advance_revision (se_revision e)) s e)
        | None => e
        end
      else set_shared_state ShCatalogued e
  end.

Lemma apply_shared_action_ok g m claim r e :
  cache_inv g m -> at_index (shared_catalog_ m) (cc_slot (cl_capability claim)) = Some e ->
  g_shared_role g (cc_slot (cl_capability claim)) = SharedTaken -> se_state e = ShClaimed -> shared_action_ok claim r e ->
  exists stats,
    apply_shared_action claim r m =
      (set_stats stats (set_shared (set_index (shared_catalog_ m) (cc_slot (cl_capability claim)) (shared_acted r e)) m), Ok tt) /\
    cache_inv (set_shared_role (cc_slot (cl_capability claim)) SharedAtRest g)
      (set_stats stats (set_shared (set_index (shared_catalog_ m) (cc_slot (cl_capability claim)) (shared_acted r e)) m)).
Proof.
  set (slot := cc_slot (cl_capability claim)). intros Hinv He Hrole Hst Hsum.
  pose proof (ci_shared _ _ Hinv _ _ He) as [Hpins Hok]. rewrite Hrole, Hst in Hok. destruct Hok as [Hres Hpin].
  unfold apply_shared_action. fold slot. unfold_M. rewrite (run_get_shared _ _ _ He).
  assert (forall e' stats, shared_entry_ok SharedAtRest false e' ->
    cache_inv (set_shared_role slot SharedAtRest g) (set_stats stats (set_shared (set_index (shared_catalog_ m) slot e') m))) as Hstep.
  { intros e' stats Hok'. apply cache_inv_stats. apply (cache_inv_shared_role g m slot e e'); [done|done|by rewrite Hpin|].
    intros Hc. congruence. }
  unfold shared_acted. rewrite Hpin in Hpins. destruct (sv_disposition r) eqn:Hd.
  - destruct (sv_pressure_committed r) eqn:Hc; cbn [negb].
    + destruct (Hsum Hd Hc) as (s & Hs & Hsok). rewrite Hs, (run_put_shared _ _ _ _ He).
      unfold modify_stats, mmodify. eexists _. split; [unfold set_stats, set_shared; cbn; reflexivity|].
      apply Hstep. split; [done|]. destruct Hres. by split.
    + rewrite (run_put_shared _ _ _ _ He). exists (context_stats_ m). split; [by destruct m|]. apply Hstep. split; [done|]. destruct Hres. by split.
  - rewrite (run_put_shared _ _ _ _ He). unfold modify_stats, mmodify. eexists _.
    split; [unfold set_stats, set_shared; cbn; reflexivity|]. by apply Hstep.
Qed.

(** ** All the actions of a transaction *)

Definition claim_slot (claim : OwnerClaim) : Z := cc_slot (cl_capability claim).

Definition rest_roles (slots : list Z) (g : Ghost) : Ghost :=
  mkGhost (fun s => if bool_decide (s ∈ slots) then AtRest else g_role g s) (g_shared_role g) (g_pinned g) (g_order g).
Definition rest_shared_roles (slots : list Z) (g : Ghost) : Ghost :=
  mkGhost (g_role g) (fun s => if bool_decide (s ∈ slots) then SharedAtRest else g_shared_role g s) (g_pinned g) (g_order g).

(** The catalog changed at these slots only. *)
Record private_frame (slots : list Z) (m m' : Manager) : Prop := {
  pf_manager : m' = set_stats (context_stats_ m') (set_sessions (session_index_ m') (set_catalog (catalog_ m') m));
  pf_others : forall s, s ∉ slots -> at_index (catalog_ m') s = at_index (catalog_ m) s;
}.
Record shared_frame (slots : list Z) (m m' : Manager) : Prop := {
  sf_manager : m' = set_stats (context_stats_ m') (set_shared (shared_catalog_ m') m);
  sf_others : forall s, s ∉ slots -> at_index (shared_catalog_ m') s = at_index (shared_catalog_ m) s;
}.

(** Each claim has its result, found and validated. *)
Definition private_results_ok (g : Ghost) (m : Manager) (victims : list MaterializationVictimResult) (claims : list OwnerClaim) : Prop :=
  forall claim, claim ∈ claims -> exists r e, result_for vr_owner (cl_planning_id claim) victims = Ok r /\
    at_index (catalog_ m) (claim_slot claim) = Some e /\ g_role g (claim_slot claim) = TakenResident /\ ce_state e = CatClaimed /\
    private_action_ok (max_long_anchors_ m) claim r e.
Definition shared_results_ok (g : Ghost) (m : Manager) (victims : list MaterializationSharedVictimResult) (claims : list OwnerClaim) : Prop :=
  forall claim, claim ∈ claims -> exists r e, result_for sv_owner (cl_planning_id claim) victims = Ok r /\
    at_index (shared_catalog_ m) (claim_slot claim) = Some e /\ g_shared_role g (claim_slot claim) = SharedTaken /\ se_state e = ShClaimed /\
    shared_action_ok claim r e.

Lemma private_frame_trans slots1 slots2 m1 m2 m3 :
  private_frame slots1 m1 m2 -> private_frame slots2 m2 m3 -> private_frame (slots1 ++ slots2) m1 m3.
Proof.
  intros [H1 O1] [H2 O2]. split.
  - rewrite H2 at 1. rewrite H1 at 1. by destruct m1.
  - intros s [? ?]%not_elem_of_app. by rewrite O2, O1.
Qed.
Lemma shared_frame_trans slots1 slots2 m1 m2 m3 :
  shared_frame slots1 m1 m2 -> shared_frame slots2 m2 m3 -> shared_frame (slots1 ++ slots2) m1 m3.
Proof.
  intros [H1 O1] [H2 O2]. split.
  - rewrite H2 at 1. rewrite H1 at 1. by destruct m1.
  - intros s [? ?]%not_elem_of_app. by rewrite O2, O1.
Qed.

Lemma private_frame_refl m : private_frame [] m m.
Proof. split; [by destruct m|done]. Qed.
Lemma shared_frame_refl m : shared_frame [] m m.
Proof. split; [by destruct m|done]. Qed.

Lemma private_frame_step m slot e e' sessions stats :
  at_index (catalog_ m) slot = Some e ->
  private_frame [slot] m (set_stats stats (set_sessions sessions (set_catalog (set_index (catalog_ m) slot e') m))).
Proof.
  intros He. split; [done|]. intros s Hs. cbn. pose proof (at_index_lt _ _ _ He). apply at_set_index_ne; [lia|]. intros ->. by apply Hs, list_elem_of_singleton.
Qed.
Lemma shared_frame_step m slot e e' stats :
  at_index (shared_catalog_ m) slot = Some e ->
  shared_frame [slot] m (set_stats stats (set_shared (set_index (shared_catalog_ m) slot e') m)).
Proof.
  intros He. split; [done|]. intros s Hs. cbn. pose proof (at_index_lt _ _ _ He). apply at_set_index_ne; [lia|]. intros ->. by apply Hs, list_elem_of_singleton.
Qed.

(** Applying the results of distinct claims puts every claimed continuation to rest. *)
Lemma apply_private_results_ok victims claims : forall g m,
  cache_inv g m -> NoDup (claim_slot <$> claims) -> private_results_ok g m victims claims ->
  exists m', apply_private_results victims claims m = (m', Ok tt) /\ cache_inv (rest_roles (claim_slot <$> claims) g) m' /\
    private_frame (claim_slot <$> claims) m m' /\
    (forall claim, claim ∈ claims -> exists r e, result_for vr_owner (cl_planning_id claim) victims = Ok r /\
       at_index (catalog_ m) (claim_slot claim) = Some e /\ at_index (catalog_ m') (claim_slot claim) = Some (acted r e)).
Proof.
  induction claims as [|claim claims IH]; intros g m Hinv Hnd Hres.
  { exists m. split_and!; [done| |apply private_frame_refl|by intros ? ?%elem_of_nil].
    apply (cache_inv_ext g); try done. }
  cbn [fmap list_fmap] in *. apply NoDup_cons in Hnd as [Hnin Hnd].
  destruct (Hres claim ltac:(left)) as (r & e & Hr & He & Hrole & Hst & Hact).
  destruct (apply_private_action_ok g m claim r e Hinv He Hrole Hst Hact) as (sessions & stats & Hrun & Hinv1).
  fold (claim_slot claim) in Hrun, Hinv1.
  set (m1 := set_stats stats _) in Hrun, Hinv1.
  pose proof (private_frame_step m _ e (acted r e) sessions stats He) as Hf1. fold m1 in Hf1.
  assert (private_results_ok (set_role (claim_slot claim) AtRest g) m1 victims claims) as Hres1.
  { intros k Hk. destruct (Hres k ltac:(by right)) as (rk & ek & ? & Hek & Hrk & ? & ?).
    assert (claim_slot k <> claim_slot claim) as Hne. { intros Heq. apply Hnin, list_elem_of_fmap. by exists k. }
    exists rk, ek. cbn [g_role set_role]. rewrite fn_lookup_insert_ne by done. split_and!; [done| |done..].
    rewrite (pf_others _ _ _ Hf1); [done|by rewrite list_elem_of_singleton]. }
  destruct (IH _ _ Hinv1 Hnd Hres1) as (m' & Hrun' & Hinv' & Hf' & Hall). exists m'. split_and!.
  - unfold apply_private_results in *. cbn [for_each]. unfold_M. rewrite Hr, Hrun. exact Hrun'.
  - apply (cache_inv_ext _ _ _ Hinv'); try done. intros s. cbn. destruct (decide (s = claim_slot claim)) as [->|Hne].
    + rewrite bool_decide_eq_true_2 by left. by case_bool_decide; [|rewrite fn_lookup_insert].
    + rewrite fn_lookup_insert_ne by done. rewrite (bool_decide_ext _ (s ∈ claim_slot <$> claims)); [done|]. rewrite elem_of_cons. tauto.
  - apply (private_frame_trans [claim_slot claim] _ _ _ _ Hf1 Hf').
  - intros k [->|Hk]%elem_of_cons.
    + exists r, e. split_and!; [done..|]. rewrite (pf_others _ _ _ Hf' _ Hnin). apply at_set_index_eq. by eapply at_index_lt.
    + destruct (Hall k Hk) as (rk & ek & ? & Hek & ?). exists rk, ek. split_and!; [done| |done].
      rewrite (pf_others _ _ _ Hf1) in Hek; [done|]. intros Heq%list_elem_of_singleton. apply Hnin, list_elem_of_fmap. by exists k.
Qed.

Lemma apply_shared_results_ok victims claims : forall g m,
  cache_inv g m -> NoDup (claim_slot <$> claims) -> shared_results_ok g m victims claims ->
  exists m', apply_shared_results victims claims m = (m', Ok tt) /\ cache_inv (rest_shared_roles (claim_slot <$> claims) g) m' /\
    shared_frame (claim_slot <$> claims) m m'.
Proof.
  induction claims as [|claim claims IH]; intros g m Hinv Hnd Hres.
  { exists m. split_and!; [done| |apply shared_frame_refl].
    apply (cache_inv_ext g); try done. }
  cbn [fmap list_fmap] in *. apply NoDup_cons in Hnd as [Hnin Hnd].
  destruct (Hres claim ltac:(left)) as (r & e & Hr & He & Hrole & Hst & Hact).
  destruct (apply_shared_action_ok g m claim r e Hinv He Hrole Hst Hact) as (stats & Hrun & Hinv1).
  fold (claim_slot claim) in Hrun, Hinv1.
  set (m1 := set_stats stats _) in Hrun, Hinv1.
  pose proof (shared_frame_step m _ e (shared_acted r e) stats He) as Hf1. fold m1 in Hf1.
  assert (shared_results_ok (set_shared_role (claim_slot claim) SharedAtRest g) m1 victims claims) as Hres1.
  { intros k Hk. destruct (Hres k ltac:(by right)) as (rk & ek & ? & Hek & Hrk & ? & ?).
    assert (claim_slot k <> claim_slot claim) as Hne. { intros Heq. apply Hnin, list_elem_of_fmap. by exists k. }
    exists rk, ek. cbn [g_shared_role set_shared_role]. rewrite fn_lookup_insert_ne by done. split_and!; [done| |done..].
    rewrite (sf_others _ _ _ Hf1); [done|by rewrite list_elem_of_singleton]. }
  destruct (IH _ _ Hinv1 Hnd Hres1) as (m' & Hrun' & Hinv' & Hf'). exists m'. split_and!.
  - unfold apply_shared_results in *. cbn [for_each]. unfold_M. rewrite Hr, Hrun. exact Hrun'.
  - apply (cache_inv_ext _ _ _ Hinv'); try done. intros s. cbn. destruct (decide (s = claim_slot claim)) as [->|Hne].
    + rewrite bool_decide_eq_true_2 by left. by case_bool_decide; [|rewrite fn_lookup_insert].
    + rewrite fn_lookup_insert_ne by done. rewrite (bool_decide_ext _ (s ∈ claim_slot <$> claims)); [done|]. rewrite elem_of_cons. tauto.
  - apply (shared_frame_trans [claim_slot claim] _ _ _ _ Hf1 Hf').
Qed.

(** ** Sources *)

(** One continuation changes and keeps its name's binding. *)
Lemma cache_inv_entry_update g m s e e' role :
  cache_inv g m -> at_index (catalog_ m) s = Some e -> entry_ok (max_long_anchors_ m) role e' ->
  reservation_kept e e' -> retention_kept (active_ m) s e e' ->
  (ce_state e <> CatReservedForActive -> ce_session e <> None -> ce_id e' = ce_id e /\ ce_revision e' = ce_revision e /\ ce_session e' = ce_session e) ->
  cache_inv (set_role s role g) (set_catalog (set_index (catalog_ m) s e') m).
Proof.
  intros Hinv He Hok Hres Hret Hf. apply (cache_inv_entry g m s e e' role (session_index_ m)); try done.
  - apply (ci_session_table _ _ Hinv).
  - intros c x Hx. split; [|by exists c, x]. eapply (bindings_kept g m s e); [exact Hinv|done| |exact Hf|exact Hx].
    destruct Hres as [Hst _]. destruct (decide (ce_state e = CatReservedForActive)); [by right|left]. by rewrite Hst.
Qed.

Lemma set_role_same g s : forall t, g_role (set_role s (g_role g s) g) t = g_role g t.
Proof. intros t. cbn. destruct (decide (t = s)) as [->|]; [by rewrite fn_lookup_insert|by rewrite fn_lookup_insert_ne]. Qed.

Lemma hit_first_refs checkpoint epoch os os' : hit_first checkpoint epoch os = Some os' -> co_checkpoint <$> os' = co_checkpoint <$> os.
Proof.
  revert os'. induction os as [|o os IH]; intros os'; cbn [hit_first]; [done|]. case_bool_decide; [by intros [= <-]|].
  intros (os1 & Hos & ->)%fmap_Some. cbn. f_equal. by apply IH.
Qed.

Lemma entry_ok_observations limit role os e :
  entry_ok limit role e -> co_checkpoint <$> os = co_checkpoint <$> ce_observations e -> entry_ok limit role (set_entry_observations os e).
Proof.
  unfold entry_ok. cbn [ce_state set_entry_observations]. intros Hok Hos.
  assert (resident limit e -> resident limit (set_entry_observations os e)) as Hres.
  { intros [? ? ? Ho]. split; [done..|]. cbn. by rewrite Hos. }
  destruct (ce_state e), role; try done; by apply Hres.
Qed.

Lemma shared_entry_ok_observation role pinned o e :
  shared_entry_ok role pinned e -> shared_entry_ok role pinned (set_shared_observation o e).
Proof.
  intros [Hp Hok]. split; [done|]. cbn [se_state set_shared_observation].
  assert (shared_resident e -> shared_resident (set_shared_observation o e)) as Hres by (intros []; by split).
  destruct (se_state e), role; try done; [by apply Hres|destruct Hok as [Hok ?]; split; [by apply Hres|done]..].
Qed.

(** Everything but observations, hit counts and epochs stays. *)
Definition same_entry (e e' : CatalogEntry) : Prop := exists os, e' = set_entry_observations os e.
Record hit_frame (m m' : Manager) : Prop := {
  hf_manager : m' = set_counters (next_continuation_id_ m) (next_shared_prefix_id_ m) (retention_epoch_ m')
                      (set_shared (shared_catalog_ m') (set_catalog (catalog_ m') m));
  hf_catalog : forall s e, at_index (catalog_ m) s = Some e -> exists e', at_index (catalog_ m') s = Some e' /\ same_entry e e';
  hf_shared : forall s e, at_index (shared_catalog_ m) s = Some e -> exists o, at_index (shared_catalog_ m') s = Some (set_shared_observation o e);
}.

Lemma same_entry_refl e : same_entry e e.
Proof. exists (ce_observations e). by destruct e. Qed.
Lemma hit_frame_refl m : hit_frame m m.
Proof.
  split; [by destruct m|intros s e He; exists e; split; [done|apply same_entry_refl]|].
  intros s e He. exists (se_observation e). rewrite He. by destruct e.
Qed.

Lemma observe_selected_hit_ok g m record :
  cache_inv g m -> (forall key, mt_selected_observation record = Some key -> 0 <= po_slot key) ->
  exists m', observe_selected_hit record m = (m', Ok tt) /\ cache_inv g m' /\ hit_frame m m'.
Proof.
  intros Hinv Hkey. unfold observe_selected_hit. destruct (mt_selected_observation record) as [key|]; cbn [when_some].
  2: { exists m. split_and!; [done|done|apply hit_frame_refl]. }
  specialize (Hkey key eq_refl). unfold_M.
  assert (exists m', (m, Ok tt) = (m', @Ok unit tt) /\ cache_inv g m' /\ hit_frame m m') as Hnone
    by (exists m; split_and!; [done|done|apply hit_frame_refl]).
  destruct (po_shared key); cbn [negb].
  - destruct (Z.leb_spec (shared_catalog_count_ m) (po_slot key)) as [|Hlt]; [done|].
    rewrite <- (so_shared _ (ci_sizes _ _ Hinv)) in Hlt. destruct (at_index_is_Some (shared_catalog_ m) (po_slot key)) as [e He]; [lia|].
    rewrite (run_get_shared _ _ _ He). destruct (_ || _); [done|]. rewrite (run_put_shared _ _ _ _ He).
    unfold next_epoch, mmodify. eexists. split; [reflexivity|]. split.
    + apply (cache_inv_counters _ (set_shared _ m)).
      pose proof (cache_inv_shared_role g m (po_slot key) e (set_shared_observation (hit_observation (w64 (retention_epoch_ m + 1)) (se_observation e)) e)
        (g_shared_role g (po_slot key)) Hinv He) as Hstep.
      apply (cache_inv_ext (set_shared_role (po_slot key) (g_shared_role g (po_slot key)) g)); try done.
      * apply Hstep; [|by left]. by apply shared_entry_ok_observation, (ci_shared _ _ Hinv).
      * intros t. cbn. destruct (decide (t = po_slot key)) as [->|]; [by rewrite fn_lookup_insert|by rewrite fn_lookup_insert_ne].
    + split; [done|cbn; intros s x Hx; exists x; split; [done|apply same_entry_refl]|]. cbn. intros s x Hx.
      pose proof (at_index_lt _ _ _ He). destruct (decide (s = po_slot key)) as [->|].
      * assert (x = e) as -> by congruence. rewrite at_set_index_eq by lia. by eexists.
      * exists (se_observation x). rewrite at_set_index_ne by lia. rewrite Hx. by destruct x.
  - destruct (Z.leb_spec (catalog_count_ m) (po_slot key)) as [|Hlt]; [done|].
    rewrite <- (so_catalog _ (ci_sizes _ _ Hinv)) in Hlt. destruct (at_index_is_Some (catalog_ m) (po_slot key)) as [e He]; [lia|].
    rewrite (run_get_entry _ _ _ He). destruct (_ || _); [done|].
    destruct (hit_first _ _ _) as [os|] eqn:Hos; [|done]. rewrite (run_put_entry _ _ _ _ He).
    apply hit_first_refs in Hos. unfold next_epoch, mmodify. eexists. split; [reflexivity|]. split.
    + apply (cache_inv_counters _ (set_catalog _ m)).
      apply (cache_inv_ext (set_role (po_slot key) (g_role g (po_slot key)) g)); try done; [|by intros t; rewrite set_role_same].
      apply (cache_inv_entry_update _ _ _ e); [done|done| |done|by left|done].
      apply entry_ok_observations; [by apply (ci_private _ _ Hinv)|done].
    + split; [done| |cbn; intros s x Hx; exists (se_observation x); rewrite Hx; by destruct x]. cbn. intros s x Hx.
      pose proof (at_index_lt _ _ _ He). destruct (decide (s = po_slot key)) as [->|].
      * assert (x = e) as -> by congruence. rewrite at_set_index_eq by lia. eexists. split; [done|]. by exists os.
      * exists x. rewrite at_set_index_ne by lia. split; [done|apply same_entry_refl].
Qed.

(** ** Sources and publications of a materialization

    What settling the sources, publishing a lane, and taking or giving back a reservation do to the
    invariant. *)

(** ** The private source *)

Definition consumed_entry (e : CatalogEntry) : CatalogEntry :=
  mkEntry (ce_state e) (ce_id e) (ce_revision e) (mkContinuation None None [] (cs_active_references (ce_summary e))) None None [] (ce_retention e).

Definition settled_source (r : MaterializationSourceResult) (e : CatalogEntry) : CatalogEntry :=
  match sr_mode r with
  | Retain => set_entry_state CatCatalogued (match sr_final_summary r with Some s => with_summary s e | None => e end)
  | ConsumeToActive => consumed_entry e
  end.

Definition settled_role (r : MaterializationSourceResult) : Role := match sr_mode r with Retain => AtRest | ConsumeToActive => TakenConsumed end.

Lemma set_index_twice {A} (l : list A) i x y : set_index (set_index l i x) i y = set_index l i y.
Proof. apply list_insert_insert_eq. Qed.

Lemma settle_private_source_ok g m record c r e :
  cache_inv g m -> mt_private_source record = Some c -> at_index (catalog_ m) (cc_slot c) = Some e ->
  g_role g (cc_slot c) = TakenResident -> ce_state e = CatClaimed -> ce_id e = ok_id (cc_owner c) ->
  (forall s, sr_final_summary r = Some s -> summary_ok (max_long_anchors_ m) s) ->
  exists sessions,
    let m' := set_sessions sessions (set_catalog (set_index (catalog_ m) (cc_slot c) (settled_source r e)) m) in
    settle_private_source record (Some r) m = (m', Ok tt) /\ cache_inv (set_role (cc_slot c) (settled_role r) g) m'.
Proof.
  intros Hinv Hc He Hrole Hst Hid Hsum. set (slot := cc_slot c) in *.
  pose proof (ci_private _ _ Hinv _ _ He) as Hok. unfold entry_ok in Hok. rewrite Hrole, Hst in Hok.
  pose proof (so_bounds _ (ci_sizes _ _ Hinv)) as (_ & _ & Hlim).
  unfold settle_private_source. rewrite Hc. cbn [when_some]. fold slot. unfold settled_source, settled_role.
  assert (forall e', ce_state e' <> CatReservedForActive -> reservation_kept e e' /\ retention_kept (active_ m) slot e e') as Hkept.
  { intros e' He'. split; [split; [|congruence]; rewrite Hst; split; congruence|]. intros Hcat. congruence. }
  destruct (sr_mode r).
  - destruct (sr_final_summary r) as [s|]; cbn [when_some]; unfold_M.
    + specialize (Hsum s eq_refl). rewrite (run_replace_summary _ _ _ _ He) by done.
      set (m1 := set_catalog _ m).
      assert (at_index (catalog_ m1) slot = Some (with_summary s e)) as He1.
      { apply at_set_index_eq. by eapply at_index_lt. }
      rewrite (run_get_entry _ _ _ He1). unfold refresh_sessions, mmodify. erewrite run_modify_entry by exact He1.
      cbn [catalog_ set_sessions m1 set_catalog session_index_]. rewrite set_index_twice.
      set (e' := set_entry_state CatCatalogued (with_summary s e)).
      eexists. split; [reflexivity|].
      apply (cache_inv_entry g m slot e e'); try apply Hkept; try done.
      * by apply (resident_state _ _ (with_summary s e)), resident_with_summary.
      * apply session_wf_refresh', (ci_session_table _ _ Hinv).
      * apply refresh_session_length.
      * intros c0 x Hx. rewrite <- Hid in Hx. by eapply (bindings_refreshed g m slot e e'); try done; [congruence|destruct Hok].
    + erewrite run_modify_entry by exact He. exists (session_index_ m). split; [by destruct m|].
      apply (cache_inv_entry_update g m slot e); try apply Hkept; try done. by apply (resident_state _ _ e).
  - unfold_M. rewrite (run_get_entry _ _ _ He). unfold erase_sessions, mmodify. erewrite run_put_entry by exact He.
    cbn [catalog_ set_sessions]. eexists. split; [reflexivity|].
    apply (cache_inv_entry g m slot e (consumed_entry e) _ _ Hinv He); try (apply Hkept; cbn; congruence).
    + unfold entry_ok. cbn. by rewrite Hst.
    + apply session_wf_erase, (ci_session_table _ _ Hinv).
    + apply erase_session_length.
    + intros c0 x Hx. destruct (bindings_erased g m slot e (consumed_entry e) Hinv He c0 x) as [Hb ?]; [by destruct Hok|done|].
      split; [done|]. by exists c0, x.
Qed.

(** ** The shared source *)

Definition settled_shared_source (r : MaterializationSharedSourceResult) (e : SharedCatalogEntry) : SharedCatalogEntry :=
  match ssr_final_summary r with
  | None => e
  | Some final =>
      let updated := mkSharedSummary (ss_checkpoint final) 0 in
      if bool_decide (updated = se_summary e) then e else set_shared_summary (advance_revision (se_revision e)) updated e
  end.

Definition unpinned (g : Ghost) : Ghost := mkGhost (g_role g) (g_shared_role g) None (g_order g).

Lemma settle_shared_source_ok g m record c r e :
  cache_inv g m -> mt_shared_source record = Some c -> at_index (shared_catalog_ m) (cc_slot c) = Some e ->
  g_pinned g = Some (cc_slot c) -> g_shared_role g (cc_slot c) = SharedAtRest ->
  (forall s, ssr_final_summary r = Some s -> valid_shared_prefix_summary s = true) ->
  let m' := set_shared (set_index (shared_catalog_ m) (cc_slot c) (settled_shared_source r (set_shared_pins 0 e))) m in
  settle_shared_source record (Some r) m = (m', Ok tt) /\ cache_inv (unpinned g) m'.
Proof.
  intros Hinv Hc He Hpin Hrole Hsum. set (slot := cc_slot c) in *. cbn zeta.
  pose proof (ci_shared _ _ Hinv _ _ He) as [Hpins Hok]. unfold is_pinned in *. rewrite Hpin, bool_decide_eq_true_2 in Hpins, Hok by done.
  rewrite Hrole in Hok. assert (se_state e = ShCatalogued /\ shared_resident e) as [Hst Hres].
  { destruct (se_state e); try done; by destruct Hok. }
  assert (forall e', se_state e' = ShCatalogued -> se_id e' = se_id e -> shared_resident e' -> se_transaction_pins e' = 0 ->
    cache_inv (unpinned g) (set_shared (set_index (shared_catalog_ m) slot e') m)) as Hstep.
  { intros e' Hst' Hid' Hres' Hp'.
    apply (cache_inv_ext (mkGhost (g_role g) (<[slot := SharedAtRest]> (g_shared_role g)) None (g_order g))); try done.
    - apply (cache_inv_shared_entry g m slot e e' SharedAtRest None); try done.
      + rewrite bool_decide_eq_false_2 by done. split; [done|]. by rewrite Hst'.
      + by left.
      + intros t Ht. rewrite Hpin. split; [done|]. congruence.
    - intros t. cbn. destruct (decide (t = slot)) as [->|]; [by rewrite fn_lookup_insert|by rewrite fn_lookup_insert_ne]. }
  unfold settle_shared_source. rewrite Hc. cbn [when_some]. fold slot. unfold_M. erewrite run_modify_shared by exact He.
  rewrite Hpins. change (w32 (1 - 1)) with 0. unfold settled_shared_source.
  destruct (ssr_final_summary r) as [s|]; cbn [when_some].
  - specialize (Hsum s eq_refl).
    assert (at_index (shared_catalog_ (set_shared (set_index (shared_catalog_ m) slot (set_shared_pins 0 e)) m)) slot = Some (set_shared_pins 0 e)) as He1.
    { apply at_set_index_eq. by eapply at_index_lt. }
    rewrite (run_get_shared _ _ _ He1). case_bool_decide.
    + split; [done|]. apply Hstep; try done. destruct Hres. by split.
    + erewrite run_put_shared by exact He1. cbn [shared_catalog_ set_shared]. rewrite set_index_twice.
      split; [done|]. apply Hstep; try done. destruct Hres. by split.
  - split; [done|]. apply Hstep; try done. destruct Hres. by split.
Qed.
