(* ===== verification/ContextReserve.v ===== *)
(** * Context cache: the reservation of a materialization

    The loops over a transaction's claims mark the states of their slots; a reservation keeps the
    invariant with the taken slots in the ghost state, and a rollback undoes it exactly. *)

From stdpp Require Import functions.
From S2P Require Import Prelude ContextTypes SessionIndex ContextCatalog ContextManager ContextInvariant ContextActions.
Open Scope Z_scope.

(** ** Marking *)

Definition mark_entries (x : CatalogState) (slots : list Z) (c : list CatalogEntry) : list CatalogEntry :=
  imap (fun i e => if bool_decide (Z.of_nat i ∈ slots) then set_entry_state x e else e) c.
Definition mark_shared (x : SharedCatalogState) (slots : list Z) (c : list SharedCatalogEntry) : list SharedCatalogEntry :=
  imap (fun i e => if bool_decide (Z.of_nat i ∈ slots) then set_shared_state x e else e) c.

#[global] Arguments mark_entries : simpl never.
#[global] Arguments mark_shared : simpl never.

Lemma at_index_imap {A B} (f : nat -> A -> B) l s : at_index (imap f l) s = f (Z.to_nat s) <$> at_index l s.
Proof. unfold at_index. case_decide; [|done]. by rewrite list_lookup_imap. Qed.

Lemma at_index_ext {A} (l k : list A) : (forall s, at_index l s = at_index k s) -> l = k.
Proof. intros H. apply list_eq. intros i. specialize (H (Z.of_nat i)). by rewrite !at_index_nat in H. Qed.

Lemma at_mark_entries x slots c s :
  at_index (mark_entries x slots c) s = (fun e => if bool_decide (s ∈ slots) then set_entry_state x e else e) <$> at_index c s.
Proof.
  unfold mark_entries. rewrite at_index_imap. destruct (at_index c s) as [e|] eqn:He; [|done].
  apply at_index_lt in He. cbn. by rewrite Z2Nat.id by lia.
Qed.
Lemma at_mark_shared x slots c s :
  at_index (mark_shared x slots c) s = (fun e => if bool_decide (s ∈ slots) then set_shared_state x e else e) <$> at_index c s.
Proof.
  unfold mark_shared. rewrite at_index_imap. destruct (at_index c s) as [e|] eqn:He; [|done].
  apply at_index_lt in He. cbn. by rewrite Z2Nat.id by lia.
Qed.

Lemma mark_entries_nil x c : mark_entries x [] c = c.
Proof. apply at_index_ext. intros s. rewrite at_mark_entries. rewrite bool_decide_eq_false_2 by apply not_elem_of_nil. by destruct (at_index c s). Qed.
Lemma mark_shared_nil x c : mark_shared x [] c = c.
Proof. apply at_index_ext. intros s. rewrite at_mark_shared. rewrite bool_decide_eq_false_2 by apply not_elem_of_nil. by destruct (at_index c s). Qed.

Lemma mark_entries_one x s e c : at_index c s = Some e -> set_index c s (set_entry_state x e) = mark_entries x [s] c.
Proof.
  intros He. pose proof (at_index_lt _ _ _ He). apply at_index_ext. intros t. rewrite at_mark_entries.
  destruct (decide (t = s)) as [->|Hne].
  - rewrite at_set_index_eq by lia. rewrite He. cbn. by rewrite bool_decide_eq_true_2 by left.
  - rewrite at_set_index_ne by lia. rewrite bool_decide_eq_false_2 by by rewrite list_elem_of_singleton. by destruct (at_index c t).
Qed.
Lemma mark_shared_one x s e c : at_index c s = Some e -> set_index c s (set_shared_state x e) = mark_shared x [s] c.
Proof.
  intros He. pose proof (at_index_lt _ _ _ He). apply at_index_ext. intros t. rewrite at_mark_shared.
  destruct (decide (t = s)) as [->|Hne].
  - rewrite at_set_index_eq by lia. rewrite He. cbn. by rewrite bool_decide_eq_true_2 by left.
  - rewrite at_set_index_ne by lia. rewrite bool_decide_eq_false_2 by by rewrite list_elem_of_singleton. by destruct (at_index c t).
Qed.

Lemma mark_entries_app x l1 l2 c : mark_entries x l2 (mark_entries x l1 c) = mark_entries x (l1 ++ l2) c.
Proof.
  apply at_index_ext. intros s. rewrite !at_mark_entries. destruct (at_index c s) as [e|]; [|done]. cbn. f_equal.
  repeat case_bool_decide; try done; rewrite elem_of_app in *; tauto.
Qed.
Lemma mark_shared_app x l1 l2 c : mark_shared x l2 (mark_shared x l1 c) = mark_shared x (l1 ++ l2) c.
Proof.
  apply at_index_ext. intros s. rewrite !at_mark_shared. destruct (at_index c s) as [e|]; [|done]. cbn. f_equal.
  repeat case_bool_decide; try done; rewrite elem_of_app in *; tauto.
Qed.

Lemma length_mark_entries x slots c : length (mark_entries x slots c) = length c.
Proof. apply length_imap. Qed.
Lemma length_mark_shared x slots c : length (mark_shared x slots c) = length c.
Proof. apply length_imap. Qed.

(** The slots exist. *)
Definition in_range {A} (c : list A) (s : Z) : Prop := 0 <= s < Z.of_nat (length c).

Lemma in_range_at {A} (c : list A) s : in_range c s <-> exists e, at_index c s = Some e.
Proof. split; [apply at_index_is_Some|intros [e He]; by eapply at_index_lt]. Qed.

Lemma run_set_claims_state x claims : forall m,
  Forall (fun claim => in_range (catalog_ m) (claim_slot claim)) claims ->
  set_claims_state x claims m = (set_catalog (mark_entries x (claim_slot <$> claims) (catalog_ m)) m, Ok tt).
Proof.
  induction claims as [|claim claims IH]; intros m Hr; unfold set_claims_state in *; cbn [for_each fmap list_fmap].
  { rewrite mark_entries_nil. by destruct m. }
  apply Forall_cons in Hr as [[e He]%in_range_at Hr]. unfold_M. rewrite (run_modify_entry _ _ _ _ He).
  rewrite (mark_entries_one _ _ _ _ He). rewrite IH.
  - cbn [catalog_ set_catalog]. by rewrite mark_entries_app.
  - cbn [catalog_ set_catalog]. eapply Forall_impl; [exact Hr|]. intros k. unfold in_range. by rewrite length_mark_entries.
Qed.
Lemma run_set_shared_claims_state x claims : forall m,
  Forall (fun claim => in_range (shared_catalog_ m) (claim_slot claim)) claims ->
  set_shared_claims_state x claims m = (set_shared (mark_shared x (claim_slot <$> claims) (shared_catalog_ m)) m, Ok tt).
Proof.
  induction claims as [|claim claims IH]; intros m Hr; unfold set_shared_claims_state in *; cbn [for_each fmap list_fmap].
  { rewrite mark_shared_nil. by destruct m. }
  apply Forall_cons in Hr as [[e He]%in_range_at Hr]. unfold_M. rewrite (run_modify_shared _ _ _ _ He).
  rewrite (mark_shared_one _ _ _ _ He). rewrite IH.
  - cbn [shared_catalog_ set_shared]. by rewrite mark_shared_app.
  - cbn [shared_catalog_ set_shared]. eapply Forall_impl; [exact Hr|]. intros k. unfold in_range. by rewrite length_mark_shared.
Qed.

(** ** Marks and the invariant *)

(** Marking changes the roles of the marked slots. *)
Definition mark_roles (role : Role) (slots : list Z) (g : Ghost) : Ghost :=
  mkGhost (fun s => if bool_decide (s ∈ slots) then role else g_role g s) (g_shared_role g) (g_pinned g) (g_order g).
Definition mark_shared_roles (role : SharedRole) (slots : list Z) (g : Ghost) : Ghost :=
  mkGhost (g_role g) (fun s => if bool_decide (s ∈ slots) then role else g_shared_role g s) (g_pinned g) (g_order g).

Lemma cache_inv_mark g m x slots role :
  cache_inv g m -> x <> CatReservedForActive ->
  (forall s e, s ∈ slots -> at_index (catalog_ m) s = Some e ->
     entry_ok (max_long_anchors_ m) role (set_entry_state x e) /\ ce_state e <> CatReservedForActive /\
     (ce_state e = CatCatalogued -> x = CatCatalogued \/ no_private_edge (active_ m) s)) ->
  cache_inv (mark_roles role slots g) (set_catalog (mark_entries x slots (catalog_ m)) m).
Proof.
  intros [Hsz Hp Hs Hl Hpub Hown Hsl Hed Hst Hb Hco Hlo Hno] Hx Hm.
  assert (forall s e, at_index (mark_entries x slots (catalog_ m)) s = Some e ->
    exists e0, at_index (catalog_ m) s = Some e0 /\ ((s ∈ slots /\ e = set_entry_state x e0) \/ ((s ∉ slots) /\ e = e0))) as Hback.
  { intros s e. rewrite at_mark_entries. intros (e0 & He0 & Heq)%fmap_Some. exists e0. split; [done|]. case_bool_decide; [by left|by right]. }
  split; cbn [catalog_ set_catalog session_index_ active_ shared_catalog_ lanes_ mark_roles g_role g_shared_role g_order]; try done.
  - destruct Hsz. split; try done; cbn; rewrite ?length_mark_entries; done.
  - intros s e (e0 & He0 & [[Hin ->]|[Hin ->]])%Hback.
    + rewrite bool_decide_eq_true_2 by done. by apply (Hm s).
    + rewrite bool_decide_eq_false_2 by done. by apply Hp.
  - destruct Hl. by split.
  - intros l a Ha. destruct (Hpub l a Ha) as (e & He & Hes & Hei). exists e. rewrite at_mark_entries, He. cbn.
    rewrite bool_decide_eq_false_2; [done|]. intros Hin. by destruct (Hm _ _ Hin He) as (_ & ? & _).
  - intros s e (e0 & He0 & [[Hin ->]|[Hin ->]])%Hback Hes; [done|]. by eapply Hown.
  - intros l a Ha. destruct (Hed l a Ha) as [Hpe Hnd Hse]. split; try done. intros edge Hedge.
    destruct (Hpe edge Hedge) as (Hk & e & He & Hes & Hei). split; [done|]. rewrite at_mark_entries, He. cbn.
    case_bool_decide as Hin; [|by exists e]. destruct (Hm _ _ Hin He) as (_ & _ & [->|Hno']); [done| |by destruct (Hno' _ _ _ Ha Hedge)].
    by eexists.
  - intros c y Hy. destruct (Hb c y Hy) as (e & He & Hes & Hrest). unfold binding_ok. rewrite at_mark_entries, He. cbn.
    case_bool_decide; [|by exists e]. by eexists.
Qed.

Lemma cache_inv_mark_shared g m x slots role :
  cache_inv g m ->
  (forall s e, s ∈ slots -> at_index (shared_catalog_ m) s = Some e ->
     shared_entry_ok role (is_pinned g s) (set_shared_state x e) /\
     (se_state e = ShCatalogued -> x = ShCatalogued \/ no_shared_edge (active_ m) s)) ->
  cache_inv (mark_shared_roles role slots g) (set_shared (mark_shared x slots (shared_catalog_ m)) m).
Proof.
  intros [Hsz Hp Hs Hl Hpub Hown Hsl Hed Hst Hb Hco Hlo Hno] Hm.
  split; cbn [catalog_ set_shared session_index_ active_ shared_catalog_ lanes_ mark_shared_roles g_role g_shared_role g_order]; try done.
  - destruct Hsz. split; try done; cbn; rewrite ?length_mark_shared; done.
  - intros s e. rewrite at_mark_shared. intros (e0 & He0 & ->)%fmap_Some. unfold is_pinned. cbn [g_pinned].
    case_bool_decide; [by apply (Hm s)|by apply Hs].
  - destruct Hl. by split.
  - intros l a Ha. destruct (Hed l a Ha) as [Hpe Hnd Hse]. split; try done. intros edge Hedge.
    destruct (Hse edge Hedge) as (Hk & e & He & Hes & Hei). split; [done|]. rewrite at_mark_shared, He. cbn.
    case_bool_decide as Hin; [|by exists e]. destruct (Hm _ _ Hin He) as (_ & [->|Hno']); [done| |by destruct (Hno' _ _ _ Ha Hedge)].
    by eexists.
Qed.

(** ** A valid choice *)

Lemma no_private_edge_spec m s : private_has_active_edge m s = false -> sizes_ok m -> lanes_ok m -> no_private_edge (active_ m) s.
Proof.
  unfold private_has_active_edge, active_lanes. intros Hn Hsz Hl l a edge [Ha Hocc] He Hs.
  assert (l < Z.to_nat (lane_count_ m))%nat as Hlt.
  { destruct (decide (l < Z.to_nat (lane_count_ m))%nat); [done|]. exfalso.
    pose proof (lookup_lt_Some _ _ _ Ha) as Hlt. rewrite (so_active _ Hsz) in Hlt.
    pose proof (lo_free _ Hl l a Ha (lo_unused _ Hl l ltac:(lia))) as ->. done. }
  assert (existsb (fun a => ac_occupied a && match ac_retained_private_source a with Some edge => ae_slot edge =? s | None => false end)
            (take (Z.to_nat (lane_count_ m)) (active_ m)) = true) as Htrue; [|congruence].
  apply existsb_exists. exists a. split.
  - apply list_elem_of_In, list_elem_of_lookup. exists l. by rewrite lookup_take_lt.
  - rewrite Hocc, He, Hs. apply Z.eqb_refl.
Qed.

(** With the edges of a lane distinct, a lane counts at most once. *)
Lemma edges_at_slot slot edges : NoDup (ae_slot <$> edges) -> (length (filter (fun edge : ActiveOwnerEdge => ae_slot edge = slot) edges) <= 1)%nat.
Proof.
  induction edges as [|edge edges IH]; intros Hnd; [cbn; lia|]. cbn [fmap list_fmap] in Hnd. apply NoDup_cons in Hnd as [Hnin Hnd].
  rewrite filter_cons. case_decide as Heq; [|by apply IH]. cbn [length].
  destruct (filter (fun edge => ae_slot edge = slot) edges) as [|x xs] eqn:Hf; [cbn; lia|].
  assert (x ∈ filter (fun edge => ae_slot edge = slot) edges) as [Hxs Hx]%list_elem_of_filter by (rewrite Hf; left).
  destruct Hnin. apply list_elem_of_fmap. exists x. by rewrite Heq, Hxs.
Qed.

Lemma edge_count_range slot a : NoDup (ae_slot <$> ac_shared_sources a) -> 0 <= edge_count slot a <= 1.
Proof. intros Hnd%(edges_at_slot slot). unfold edge_count. rewrite w32_small; lia. Qed.

Lemma edge_count_zero slot a edge : edge_count slot a = 0 -> NoDup (ae_slot <$> ac_shared_sources a) -> edge ∈ ac_shared_sources a -> ae_slot edge <> slot.
Proof.
  intros Hz Hnd%(edges_at_slot slot) He Hs. unfold edge_count in Hz. rewrite w32_small in Hz by lia.
  assert (edge ∈ filter (fun edge => ae_slot edge = slot) (ac_shared_sources a)) as Hf by (apply list_elem_of_filter; done).
  destruct (filter _ _) as [|x xs]; [by apply not_elem_of_nil in Hf|]. cbn in Hz. lia.
Qed.

Lemma fold_edge_count slot l : forall count,
  0 <= count -> count + Z.of_nat (length l) <= u32_max ->
  (forall a, a ∈ l -> ac_occupied a = true -> 0 <= edge_count slot a <= 1) ->
  let total := foldl (fun count a => if ac_occupied a then w32 (count + edge_count slot a) else count) count l in
  count <= total <= count + Z.of_nat (length l) /\
  (total = count -> forall a, a ∈ l -> ac_occupied a = true -> edge_count slot a = 0).
Proof.
  induction l as [|a l IH]; intros count Hc Hle Hr; cbn [foldl length] in *; [split; [lia|by intros _ ? ?%not_elem_of_nil]|].
  destruct (ac_occupied a) eqn:Ho.
  - pose proof (Hr a ltac:(left) Ho) as Ha. rewrite w32_small by lia.
    destruct (IH (count + edge_count slot a)) as [Hb Hz]; [lia|lia|by intros x Hx; apply Hr; right|]. cbn zeta in *.
    split; [lia|]. intros Heq x [->|Hx]%elem_of_cons Hox; [lia|]. apply Hz; [lia|done|done].
  - destruct (IH count) as [Hb Hz]; [lia|lia|by intros x Hx; apply Hr; right|]. cbn zeta in *.
    split; [lia|]. intros Heq x [->|Hx]%elem_of_cons Hox; [congruence|]. by apply Hz.
Qed.

Lemma occupied_in_use g m l a : cache_inv g m -> occupied_lane (active_ m) l a -> (l < Z.to_nat (lane_count_ m))%nat /\ a ∈ active_lanes m.
Proof.
  intros Hinv [Ha Hocc]. pose proof (ci_sizes _ _ Hinv) as Hsz. pose proof (ci_lanes _ _ Hinv) as Hl.
  assert (l < Z.to_nat (lane_count_ m))%nat as Hlt.
  { destruct (decide (l < Z.to_nat (lane_count_ m))%nat); [done|]. exfalso.
    pose proof (lookup_lt_Some _ _ _ Ha) as Hlt. rewrite (so_active _ Hsz) in Hlt.
    pose proof (lo_free _ Hl l a Ha (lo_unused _ Hl l ltac:(lia))) as ->. done. }
  split; [done|]. unfold active_lanes. apply list_elem_of_lookup. exists l. by rewrite lookup_take_lt.
Qed.

Lemma active_lane_occupied m a : a ∈ active_lanes m -> ac_occupied a = true -> exists l, occupied_lane (active_ m) l a.
Proof. unfold active_lanes. intros [l Hl]%list_elem_of_lookup Ho. apply lookup_take_Some in Hl as [Hl _]. by exists l. Qed.

Lemma no_shared_edge_spec g m s : cache_inv g m -> shared_active_edge_count m s = 0 -> no_shared_edge (active_ m) s.
Proof.
  intros Hinv Hz l a edge Ha He. destruct (occupied_in_use _ _ _ _ Hinv Ha) as [_ Hin].
  pose proof (eo_distinct _ _ _ (ci_edges _ _ Hinv l a Ha)) as Hnd.
  eapply edge_count_zero; [|exact Hnd|exact He].
  destruct (fold_edge_count s (active_lanes m) 0) as [_ Hall]; [lia| | |by apply Hall; [|done|apply Ha]].
  - unfold active_lanes. pose proof (so_active _ (ci_sizes _ _ Hinv)) as Hlen. rewrite length_take. lia.
  - intros b Hb Hob. destruct (active_lane_occupied m b Hb Hob) as [k Hk]. apply edge_count_range. apply (eo_distinct _ _ _ (ci_edges _ _ Hinv k b Hk)).
Qed.

Lemma shared_edge_count_range g m s : cache_inv g m -> 0 <= shared_active_edge_count m s <= 8.
Proof.
  intros Hinv. destruct (fold_edge_count s (active_lanes m) 0) as [Hb _]; [lia| | |].
  - unfold active_lanes. pose proof (so_active _ (ci_sizes _ _ Hinv)) as Hlen. rewrite length_take. lia.
  - intros b Hb Hob. destruct (active_lane_occupied m b Hb Hob) as [k Hk]. apply edge_count_range. apply (eo_distinct _ _ _ (ci_edges _ _ Hinv k b Hk)).
  - unfold shared_active_edge_count. assert (length (active_lanes m) <= 8)%nat; [|lia].
    unfold active_lanes. rewrite length_take, (so_active _ (ci_sizes _ _ Hinv)). lia.
Qed.

Definition source_slots (r : MaterializationRecord) : list Z := option_list (cc_slot <$> mt_private_source r).
Definition private_slots (r : MaterializationRecord) : list Z := claim_slot <$> mt_private_claims r.
Definition shared_slots (r : MaterializationRecord) : list Z := claim_slot <$> mt_shared_claims r.
Definition taken_slots (r : MaterializationRecord) : list Z := source_slots r ++ private_slots r.

(** What the slots of a choice are, as validation finds them. *)
Record choice_valid (m : Manager) (r : MaterializationRecord) : Prop := {
  cv_lane : at_index (lanes_ m) (mt_destination r) = Some LaneFree /\ mt_destination r < lane_count_ m;
  cv_order : mt_publication_order r <> 0;
  cv_taken : forall s, s ∈ taken_slots r -> exists e, at_index (catalog_ m) s = Some e /\ ce_state e = CatCatalogued /\ private_has_active_edge m s = false;
  cv_claim : forall claim, claim ∈ mt_private_claims r -> ok_kind (cc_owner (cl_capability claim)) = PrivateContinuation /\ claim_slot claim ∉ source_slots r;
  cv_source : forall c, mt_private_source r = Some c -> ok_kind (cc_owner c) = PrivateContinuation;
  cv_shared_source : forall c, mt_shared_source r = Some c -> ok_kind (cc_owner c) = SharedPrefix /\
    exists e, at_index (shared_catalog_ m) (cc_slot c) = Some e /\ se_state e = ShCatalogued;
  cv_shared_claims : forall s, s ∈ shared_slots r -> (forall c, mt_shared_source r = Some c -> cc_slot c <> s) /\
    exists e, at_index (shared_catalog_ m) s = Some e /\ se_state e = ShCatalogued /\ se_transaction_pins e = 0 /\ shared_active_edge_count m s = 0;
  cv_publication : exists e, at_index (catalog_ m) (mt_publication_slot r) = Some e /\
    (ce_state e = CatVacant \/ mt_publication_slot r ∈ taken_slots r);
}.

Lemma check_each_Ok {A} (f : A -> result unit) l : check_each f l = Ok tt <-> forall a, a ∈ l -> f a = Ok tt.
Proof.
  induction l as [|a l IH]; cbn [check_each]; [split; [by intros _ ? ?%not_elem_of_nil|done]|]. rewrite bind_Ok. split.
  - intros ([] & Ha & Hl) b [->|Hb]%elem_of_cons; [done|by apply IH].
  - intros H. exists tt. split; [apply H; left|apply IH; intros b Hb; apply H; by right].
Qed.

Lemma entry_at_Ok m s e : entry_at m s = Ok e <-> at_index (catalog_ m) s = Some e.
Proof. unfold entry_at. destruct (at_index _ _); cbn; split; congruence. Qed.
Lemma shared_at_Ok m s e : shared_at m s = Ok e <-> at_index (shared_catalog_ m) s = Some e.
Proof. unfold shared_at. destruct (at_index _ _); cbn; split; congruence. Qed.
Lemma lane_at_Ok m s e : lane_at m s = Ok e <-> at_index (lanes_ m) s = Some e.
Proof. unfold lane_at. destruct (at_index _ _); cbn; split; congruence. Qed.
Lemma active_at_Ok m s e : active_at m s = Ok e <-> at_index (active_ m) s = Some e.
Proof. unfold active_at. destruct (at_index _ _); cbn; split; congruence. Qed.

Lemma catalogued_private_Ok m c : catalogued_private m c = Ok true ->
  exists e, at_index (catalog_ m) (cc_slot c) = Some e /\ ce_state e = CatCatalogued /\ private_has_active_edge m (cc_slot c) = false /\
    ce_id e = ok_id (cc_owner c) /\ ce_revision e = cc_generation c.
Proof.
  unfold catalogued_private. intros (e & He%entry_at_Ok & [= H])%bind_Ok. exists e.
  rewrite !andb_true_iff, bool_decide_eq_true, !Z.eqb_eq, negb_true_iff in H. by destruct H as [[[[? _] ?] ?] ?].
Qed.
Lemma catalogued_shared_Ok m c : catalogued_shared m c = Ok true ->
  exists e, at_index (shared_catalog_ m) (cc_slot c) = Some e /\ se_state e = ShCatalogued /\ se_id e = ok_id (cc_owner c) /\ se_revision e = cc_generation c.
Proof.
  unfold catalogued_shared. intros (e & He%shared_at_Ok & [= H])%bind_Ok. exists e.
  rewrite !andb_true_iff, bool_decide_eq_true, !Z.eqb_eq in H. by destruct H as [[[? _] ?] ?].
Qed.

Lemma wrong_kind_false k c : wrong_kind k c = false <-> ok_kind (cc_owner c) = k.
Proof. unfold wrong_kind. by rewrite negb_false_iff, bool_decide_eq_true. Qed.

Lemma validate_private_claim_ok m r claim :
  validate_private_claim m r claim = Ok tt ->
  ok_kind (cc_owner (cl_capability claim)) = PrivateContinuation /\ (claim_slot claim ∉ source_slots r) /\
  exists e, at_index (catalog_ m) (claim_slot claim) = Some e /\ ce_state e = CatCatalogued /\ private_has_active_edge m (claim_slot claim) = false.
Proof.
  unfold validate_private_claim. intros (u1 & Hs%throw_if_Ok & H)%bind_Ok. apply bind_Ok in H as (ok & Hok & H%throw_if_Ok).
  rewrite !orb_false_iff, negb_false_iff in H. destruct H as [-> Hk%wrong_kind_false].
  apply catalogued_private_Ok in Hok as (e & He & Hst & Hn & _). split_and!; [done| |by exists e].
  apply orb_false_iff in Hs as [_ Hs]. unfold source_slots, same_slot in *. destruct (mt_private_source r) as [c|]; cbn; [|apply not_elem_of_nil].
  rewrite list_elem_of_singleton. by apply Z.eqb_neq.
Qed.

Lemma validate_shared_claim_ok m r claim :
  validate_shared_claim m r claim = Ok tt ->
  (forall c, mt_shared_source r = Some c -> cc_slot c <> claim_slot claim) /\
  exists e, at_index (shared_catalog_ m) (claim_slot claim) = Some e /\ se_state e = ShCatalogued /\ se_transaction_pins e = 0 /\
    shared_active_edge_count m (claim_slot claim) = 0.
Proof.
  unfold validate_shared_claim. intros (u1 & Hs%throw_if_Ok & H)%bind_Ok. apply bind_Ok in H as (ok & Hok & H).
  apply bind_Ok in H as (un & Hun & H%throw_if_Ok). rewrite !orb_false_iff, !negb_false_iff in H. destruct H as [[-> _] ->].
  apply catalogued_shared_Ok in Hok as (e & He & Hst & _). unfold unused_shared in Hun. apply bind_Ok in Hun as (e' & He'%shared_at_Ok & [= Hun]).
  rewrite andb_true_iff, !Z.eqb_eq in Hun. assert (e' = e) as -> by (fold (claim_slot claim) in *; congruence).
  apply orb_false_iff in Hs as [_ Hs]. split; [|exists e; by destruct Hun].
  intros c Hc Heq. unfold same_slot in Hs. rewrite Hc in Hs. apply Z.eqb_neq in Hs. by destruct Hs.
Qed.

Lemma validate_choice_ok m r revision : validate_choice m r revision = Ok tt -> choice_valid m r.
Proof.
  unfold validate_choice. intros (u1 & Hd%throw_if_Ok & H)%bind_Ok. apply bind_Ok in H as (lane & Hlane%lane_at_Ok & H).
  apply bind_Ok in H as (u2 & Hl%throw_if_Ok & H). apply bind_Ok in H as ([] & Hsrc & H). apply bind_Ok in H as ([] & Hssrc & H).
  apply bind_Ok in H as ([] & Hpc & H). apply bind_Ok in H as ([] & Hsc & H). apply bind_Ok in H as (e & He%entry_at_Ok & Hpub%throw_if_Ok).
  rewrite check_each_Ok in Hpc, Hsc. rewrite !orb_false_iff, negb_false_iff, bool_decide_eq_true, !Z.eqb_neq in Hl.
  destruct Hl as [[[-> _] _] Hord]. apply Z.leb_gt in Hd.
  assert (forall c, mt_private_source r = Some c -> ok_kind (cc_owner c) = PrivateContinuation /\
    exists e, at_index (catalog_ m) (cc_slot c) = Some e /\ ce_state e = CatCatalogued /\ private_has_active_edge m (cc_slot c) = false) as Hsource.
  { intros c Hc. rewrite Hc in Hsrc. apply bind_Ok in Hsrc as (u & Hk%throw_if_Ok & Hsrc). apply bind_Ok in Hsrc as (ok & Hok & Hb%throw_if_Ok).
    apply negb_false_iff in Hb as ->. apply orb_false_iff in Hk as [Hk%wrong_kind_false _].
    apply catalogued_private_Ok in Hok as (x & ? & ? & ? & _). split; [done|by exists x]. }
  split; try done.
  - intros s. unfold taken_slots, source_slots, private_slots. rewrite elem_of_app. intros [Hs|Hs].
    + destruct (mt_private_source r) as [c|]; cbn in Hs; [|by apply not_elem_of_nil in Hs].
      apply list_elem_of_singleton in Hs as ->. by apply Hsource.
    + apply list_elem_of_fmap in Hs as (claim & -> & Hc). by apply (validate_private_claim_ok m r claim), Hpc.
  - intros claim Hc. by destruct (validate_private_claim_ok m r claim (Hpc _ Hc)) as (? & ? & _).
  - intros c Hc. by apply Hsource.
  - intros c Hc. rewrite Hc in Hssrc. apply bind_Ok in Hssrc as (u & Hk%throw_if_Ok & Hssrc). apply bind_Ok in Hssrc as (ok & Hok & Hb%throw_if_Ok).
    apply negb_false_iff in Hb as ->. apply orb_false_iff in Hk as [Hk%wrong_kind_false _].
    apply catalogued_shared_Ok in Hok as (x & ? & ? & _). split; [done|by exists x].
  - intros s (claim & -> & Hc)%list_elem_of_fmap. by apply (validate_shared_claim_ok m r claim), Hsc.
  - exists e. split; [done|]. rewrite !andb_false_iff, !negb_false_iff, bool_decide_eq_true in Hpub. destruct Hpub as [[?|Hcell]|Hcell]; [by left|right..].
    + apply andb_true_iff in Hcell as [Hcell _]. unfold taken_slots, source_slots, same_slot in *. destruct (mt_private_source r) as [c|]; [|done].
      apply Z.eqb_eq in Hcell. rewrite elem_of_app. left. cbn. by apply list_elem_of_singleton.
    + destruct (List.find _ _) as [claim|] eqn:Hf; [|done]. apply find_some in Hf as [Hin Hs%Z.eqb_eq].
      unfold taken_slots. rewrite elem_of_app. right.
      apply list_elem_of_fmap. exists claim. split; [done|]. by apply list_elem_of_In.
Qed.

(** ** Reserving and rolling back a materialization *)

Definition vacant_at (c : list CatalogEntry) (s : Z) : bool :=
  match at_index c s with Some e => bool_decide (ce_state e = CatVacant) | None => false end.
Definition hollow_slots (r : MaterializationRecord) (m : Manager) : list Z :=
  if vacant_at (catalog_ m) (mt_publication_slot r) then [mt_publication_slot r] else [].
Definition pin_in (r : MaterializationRecord) (c : list SharedCatalogEntry) : list SharedCatalogEntry :=
  match mt_shared_source r with
  | Some k => from_option (fun e => set_index c (cc_slot k) (set_shared_pins (w32 (se_transaction_pins e + 1)) e)) c (at_index c (cc_slot k))
  | None => c
  end.

Definition reserved (r : MaterializationRecord) (m : Manager) : Manager :=
  set_shared (mark_shared ShClaimed (shared_slots r) (pin_in r (shared_catalog_ m)))
    (set_catalog (mark_entries CatClaimed (taken_slots r ++ hollow_slots r m) (catalog_ m))
       (set_lanes (set_index (lanes_ m) (mt_destination r) LaneMaterializing) m)).

Lemma run_mark_source x r m :
  Forall (in_range (catalog_ m)) (source_slots r) ->
  when_some (mt_private_source r) (fun c => modify_entry (cc_slot c) (set_entry_state x)) m =
  (set_catalog (mark_entries x (source_slots r) (catalog_ m)) m, Ok tt).
Proof.
  unfold source_slots. destruct (mt_private_source r) as [c|]; cbn [when_some option_list fmap option_fmap option_map]; intros Hr.
  - apply Forall_cons in Hr as [[e He]%in_range_at _]. rewrite (run_modify_entry _ _ _ _ He). cbn. by rewrite (mark_entries_one _ _ _ _ He).
  - cbn. rewrite mark_entries_nil. by destruct m.
Qed.

Lemma length_pin_source r c : length (pin_in r c) = length c.
Proof.
  unfold pin_in. destruct (mt_shared_source r) as [k|]; [|done]. destruct (at_index c (cc_slot k)); cbn; [|done]. by rewrite length_set_index.
Qed.

Lemma taken_in_range m r s : choice_valid m r -> s ∈ taken_slots r -> in_range (catalog_ m) s.
Proof. intros Hv Hs. destruct (cv_taken _ _ Hv s Hs) as (e & He & _). apply in_range_at. by exists e. Qed.
Lemma shared_in_range m r s : choice_valid m r -> s ∈ shared_slots r -> in_range (shared_catalog_ m) s.
Proof. intros Hv Hs. destruct (cv_shared_claims _ _ Hv s Hs) as (_ & e & He & _). apply in_range_at. by exists e. Qed.

Lemma Forall_claims (P : Z -> Prop) claims : (forall s, s ∈ claim_slot <$> claims -> P s) -> Forall (fun claim => P (claim_slot claim)) claims.
Proof. intros H. apply Forall_forall. intros claim Hc. apply H, list_elem_of_fmap. by exists claim. Qed.

Lemma run_reserve m r : choice_valid m r -> reserve_logical_materialization r m = (reserved r m, Ok tt).
Proof.
  intros Hv. destruct (cv_lane _ _ Hv) as [Hlane _]. unfold reserve_logical_materialization. unfold_M.
  rewrite (run_put_lane _ _ _ _ Hlane). rewrite run_mark_source.
  2: { apply Forall_forall. intros s Hs. apply (taken_in_range m r); [done|]. unfold taken_slots. rewrite elem_of_app. by left. }
  set (m1 := set_catalog _ _).
  assert (when_some (mt_shared_source r) (fun c => modify_shared (cc_slot c) (fun e => set_shared_pins (w32 (se_transaction_pins e + 1)) e)) m1 =
            (set_shared (pin_in r (shared_catalog_ m)) m1, Ok tt)) as ->.
  { unfold pin_in. destruct (mt_shared_source r) as [k|] eqn:Hk; [|by destruct m].
    destruct (cv_shared_source _ _ Hv k Hk) as (_ & e & He & _). cbn [when_some]. rewrite He. cbn [from_option]. by rewrite (run_modify_shared _ _ e). }
  rewrite run_set_claims_state.
  2: { unfold m1. cbn. apply Forall_claims. intros s Hs. unfold in_range. rewrite length_mark_entries. apply (taken_in_range m r); [done|].
       unfold taken_slots. rewrite elem_of_app. by right. }
  rewrite run_set_shared_claims_state.
  2: { cbn. apply Forall_claims. intros s Hs. unfold in_range. rewrite length_pin_source. by apply (shared_in_range m r). }
  cbn [catalog_ shared_catalog_ set_catalog set_shared set_lanes m1]. rewrite mark_entries_app.
  destruct (cv_publication _ _ Hv) as (e & He & _).
  erewrite run_modify_entry by (cbn [catalog_ set_catalog set_shared]; rewrite at_mark_entries, He; reflexivity).
  cbn [catalog_ set_catalog set_shared set_lanes]. unfold reserved. f_equal. unfold set_catalog, set_shared, set_lanes. cbn. f_equal.
  fold (private_slots r). fold (taken_slots r). fold (shared_slots r).
  apply at_index_ext. intros s. rewrite at_mark_entries. unfold hollow_slots, vacant_at. rewrite He.
  pose proof (at_index_lt _ _ _ He) as Hlt. destruct (decide (s = mt_publication_slot r)) as [->|Hne].
  - rewrite at_set_index_eq by (rewrite length_mark_entries; lia). rewrite He. cbn. f_equal.
    destruct (decide (mt_publication_slot r ∈ taken_slots r)) as [Hin|Hin].
    + rewrite (bool_decide_eq_true_2 (_ ∈ taken_slots r ++ _)) by (rewrite elem_of_app; by left).
      rewrite !(bool_decide_eq_true_2 (_ ∈ taken_slots r)) by done. done.
    + rewrite (bool_decide_eq_false_2 (_ ∈ taken_slots r)) by done. case_bool_decide as Hst.
      * rewrite bool_decide_eq_true_2; [done|]. rewrite elem_of_app. right. left.
      * rewrite bool_decide_eq_false_2; [done|]. by rewrite app_nil_r.
  - rewrite at_set_index_ne by lia. rewrite at_mark_entries. destruct (at_index (catalog_ m) s) as [x|]; [|done]. cbn. f_equal.
    rewrite (bool_decide_ext (s ∈ taken_slots r ++ _) (s ∈ taken_slots r)); [done|]. rewrite elem_of_app.
    case_bool_decide; [rewrite list_elem_of_singleton|]; split; [by intros [?|?]|by left|intros [?|?%not_elem_of_nil]|by left]; done.
Qed.

(** The pin is taken off again, at a slot that is not claimed. *)
Lemma run_unpin g m r c :
  cache_inv g m -> g_pinned g = None -> choice_valid m r ->
  when_some (mt_shared_source r) (fun k => modify_shared (cc_slot k) unpin_shared)
    (set_catalog c (set_lanes (set_index (lanes_ m) (mt_destination r) LaneFree)
       (set_shared (mark_shared ShClaimed (shared_slots r) (pin_in r (shared_catalog_ m))) m))) =
  (set_catalog c (set_lanes (set_index (lanes_ m) (mt_destination r) LaneFree)
     (set_shared (mark_shared ShClaimed (shared_slots r) (shared_catalog_ m)) m)), Ok tt).
Proof.
  intros Hinv Hg Hv. unfold pin_in. destruct (mt_shared_source r) as [k|] eqn:Hk; [|done]. cbn [when_some].
  destruct (cv_shared_source _ _ Hv k Hk) as (_ & e & He & Hst). rewrite He. cbn [from_option].
  destruct (ci_shared _ _ Hinv _ _ He) as [Hpins _]. unfold is_pinned in Hpins. rewrite Hg, bool_decide_eq_false_2 in Hpins by done.
  pose proof (at_index_lt _ _ _ He) as Hlt. rewrite Hpins. change (w32 (0 + 1)) with 1.
  assert (cc_slot k ∉ shared_slots r) as Hnin. { intros Hin. destruct (cv_shared_claims _ _ Hv _ Hin) as [Hne _]. by destruct (Hne k Hk). }
  erewrite run_modify_shared.
  2: { cbn [shared_catalog_ set_catalog set_lanes set_shared]. rewrite at_mark_shared, at_set_index_eq by lia. cbn. by rewrite bool_decide_eq_false_2. }
  cbn [shared_catalog_ set_catalog set_lanes set_shared]. f_equal. unfold set_shared, set_catalog, set_lanes. cbn. f_equal. apply at_index_ext. intros s.
  rewrite at_mark_shared. destruct (decide (s = cc_slot k)) as [->|Hne].
  - rewrite at_set_index_eq by (rewrite length_mark_shared, length_set_index; lia). rewrite He. cbn. rewrite bool_decide_eq_false_2 by done.
    f_equal. change (w32 (1 - 1)) with 0. rewrite <- Hpins. by destruct e.
  - rewrite at_set_index_ne by lia. rewrite at_mark_shared. by rewrite at_set_index_ne by lia.
Qed.

(** The catalogs after both passes. *)
Lemma unmark_shared m r : choice_valid m r -> mark_shared ShCatalogued (shared_slots r) (mark_shared ShClaimed (shared_slots r) (shared_catalog_ m)) = shared_catalog_ m.
Proof.
  intros Hv. apply at_index_ext. intros s. rewrite !at_mark_shared. destruct (at_index (shared_catalog_ m) s) as [x|] eqn:Hx; [|done]. cbn.
  case_bool_decide as Hin; [|done]. destruct (cv_shared_claims _ _ Hv _ Hin) as (_ & x' & Hx' & Hst & _). assert (x' = x) as -> by congruence.
  rewrite <- Hst. by destruct x.
Qed.

Lemma unmark_entries g m r e :
  cache_inv g m -> choice_valid m r -> at_index (catalog_ m) (mt_publication_slot r) = Some e ->
  let c := mark_entries CatCatalogued (taken_slots r) (mark_entries CatClaimed (taken_slots r ++ hollow_slots r m) (catalog_ m)) in
  let restore e := if (ce_id e =? 0) && negb (has (ce_handle e)) then set_entry_state CatVacant e else e in
  forall e1, at_index c (mt_publication_slot r) = Some e1 -> set_index c (mt_publication_slot r) (restore e1) = catalog_ m.
Proof.
  intros Hinv Hv He. cbn zeta. intros e1 He1. pose proof (at_index_lt _ _ _ He) as Hlt. rewrite !at_mark_entries, He in He1. cbn in He1.
  destruct (cv_publication _ _ Hv) as (e' & He' & Hpub). assert (e' = e) as -> by congruence.
  apply at_index_ext. intros s. unfold hollow_slots, vacant_at. rewrite He. destruct (decide (s = mt_publication_slot r)) as [->|Hne].
  - rewrite at_set_index_eq by (rewrite !length_mark_entries; lia). rewrite He. f_equal. injection He1 as <-.
    pose proof (ci_private _ _ Hinv _ _ He) as Hok. unfold entry_ok in Hok. unfold hollow_slots, vacant_at. rewrite He.
    destruct (decide (mt_publication_slot r ∈ taken_slots r)) as [Hin|Hin].
    + destruct (cv_taken _ _ Hv _ Hin) as (y & Hy & Hst & _). assert (y = e) as -> by congruence. rewrite Hst in Hok.
      rewrite (bool_decide_eq_true_2 (_ ∈ taken_slots r)) by done. rewrite (bool_decide_eq_true_2 (_ ∈ taken_slots r ++ _)) by (rewrite elem_of_app; by left).
      cbn [ce_id ce_handle set_entry_state]. assert (ce_id e <> 0) as Hid by (destruct (g_role g (mt_publication_slot r)); [by destruct Hok|done..]).
      rewrite (proj2 (Z.eqb_neq _ _)) by done. cbn [andb]. rewrite <- Hst. by destruct e.
    + destruct Hpub as [Hst|?]; [|done]. rewrite Hst in Hok. assert (hollow e) as (Hid & Hh & _) by (destruct (g_role g (mt_publication_slot r)); done).
      rewrite (bool_decide_eq_false_2 (_ ∈ taken_slots r)) by done. rewrite (bool_decide_eq_true_2 (ce_state e = CatVacant)) by done.
      rewrite bool_decide_eq_true_2 by (rewrite elem_of_app; right; left). cbn [ce_id ce_handle set_entry_state]. rewrite Hid, Hh. cbn. rewrite <- Hst. by destruct e.
  - rewrite at_set_index_ne by lia. rewrite !at_mark_entries. destruct (at_index (catalog_ m) s) as [x|] eqn:Hx; [|done]. cbn. f_equal.
    destruct (decide (s ∈ taken_slots r)) as [Hin|Hin].
    + destruct (cv_taken _ _ Hv _ Hin) as (x' & Hx' & Hst & _). assert (x' = x) as -> by congruence.
      rewrite (bool_decide_eq_true_2 (s ∈ taken_slots r)) by done. rewrite (bool_decide_eq_true_2 (s ∈ taken_slots r ++ _)) by (rewrite elem_of_app; by left).
      rewrite <- Hst. by destruct x.
    + rewrite (bool_decide_eq_false_2 (s ∈ taken_slots r)) by done. rewrite (bool_decide_eq_false_2 (s ∈ taken_slots r ++ _)); [done|]. rewrite elem_of_app. intros [?|Hh]; [done|]. case_bool_decide; [by apply list_elem_of_singleton in Hh|by apply not_elem_of_nil in Hh].
Qed.

(** Undoing the reservation gives the manager back. *)
Lemma run_rollback g m r :
  cache_inv g m -> g_pinned g = None -> choice_valid m r -> rollback_logical_materialization r (reserved r m) = (m, Ok tt).
Proof.
  intros Hinv Hg Hv. destruct (cv_lane _ _ Hv) as [Hlane _]. pose proof (at_index_lt _ _ _ Hlane) as Hll.
  unfold rollback_logical_materialization. unfold_M.
  erewrite run_put_lane by (unfold reserved; cbn; by apply at_set_index_eq).
  rewrite run_mark_source.
  2: { unfold reserved. cbn. apply Forall_forall. intros s Hs. unfold in_range. rewrite length_mark_entries. apply (taken_in_range m r); [done|].
       unfold taken_slots. rewrite elem_of_app. by left. }
  match goal with |- context [when_some (mt_shared_source r) _ ?x] =>
    replace x with (set_catalog (mark_entries CatCatalogued (source_slots r) (mark_entries CatClaimed (taken_slots r ++ hollow_slots r m) (catalog_ m)))
      (set_lanes (set_index (lanes_ m) (mt_destination r) LaneFree) (set_shared (mark_shared ShClaimed (shared_slots r) (pin_in r (shared_catalog_ m))) m)))
      by (unfold reserved, set_catalog, set_lanes, set_shared; cbn [lanes_ catalog_ shared_catalog_]; by rewrite set_index_twice) end.
  rewrite (run_unpin g m r _ Hinv Hg Hv). rewrite run_set_claims_state.
  2: { cbn. apply Forall_claims. intros s Hs. unfold in_range. rewrite !length_mark_entries. apply (taken_in_range m r); [done|].
       unfold taken_slots. rewrite elem_of_app. by right. }
  rewrite run_set_shared_claims_state.
  2: { cbn. apply Forall_claims. intros s Hs. unfold in_range. rewrite length_mark_shared. by apply (shared_in_range m r). }
  cbn [catalog_ shared_catalog_ set_catalog set_shared set_lanes lanes_]. rewrite mark_entries_app.
  fold (private_slots r). fold (taken_slots r). fold (shared_slots r). rewrite unmark_shared by done.
  destruct (cv_publication _ _ Hv) as (e & He & _).
  set (c := mark_entries CatCatalogued _ _). assert (exists e1, at_index c (mt_publication_slot r) = Some e1) as [e1 He1]
    by (unfold c; rewrite !at_mark_entries, He; by eexists).
  erewrite run_modify_entry by exact He1. cbn [catalog_ shared_catalog_ set_catalog set_shared set_lanes lanes_].
  pose proof (unmark_entries g m r e Hinv Hv He e1 He1) as Hu. fold c in Hu. rewrite Hu.
  assert (set_index (lanes_ m) (mt_destination r) LaneFree = lanes_ m) as ->; [|by destruct m].
  apply list_insert_id. by apply at_index_Some in Hlane as [_ ?].
Qed.

(** ** A materialization's reservation and its end

    While a materialization is open its claims, its pinned source and its publication cell have the
    roles of [record_ghost]; the reservation establishes them, and adopting an aborted result puts
    everything to rest. *)

(** ** Lanes and orders *)

Lemma cache_inv_lane g m l x x' a :
  cache_inv g m -> at_index (lanes_ m) l = Some x -> l < lane_count_ m -> at_index (active_ m) l = Some a ->
  (x' = LaneFree -> a = empty_active) -> (x' = LaneActive \/ x' = LaneTerminalPending -> ac_occupied a = true) ->
  cache_inv g (set_lanes (set_index (lanes_ m) l x') m).
Proof.
  intros Hinv Hx Hl Ha Hfree Hbusy. pose proof (at_index_lt _ _ _ Hx) as Hlt. apply at_index_Some in Hx as [H0 Hx]. apply at_index_Some in Ha as [_ Ha].
  destruct Hinv as [Hsz Hp Hs Hlo Hpub Hown Hsl Hed Hst Hb Hco Hlor Hno].
  split; cbn [lanes_ set_lanes catalog_ shared_catalog_ session_index_ active_]; try done.
  - destruct Hsz. split; try done. cbn. by rewrite length_set_index.
  - unfold set_index. destruct Hlo as [Ho Hf Hbu Hu]. split; cbn; try done.
    + intros k b Hb' Hk. apply list_lookup_insert_Some in Hk as [(<- & Heq & _)|[_ Hk]]; [|by eapply Hf].
      assert (b = a) as -> by congruence. by apply Hfree.
    + intros k b y Hb' Hk Hy. apply list_lookup_insert_Some in Hk as [(<- & <- & _)|[_ Hk]]; [|by eapply Hbu].
      assert (b = a) as -> by congruence. by apply Hbusy.
    + intros k Hk. unfold lane_count_ in *. cbn in *. rewrite list_lookup_insert_ne by lia. by apply Hu.
Qed.

Definition with_order (o : option Z) (g : Ghost) : Ghost := mkGhost (g_role g) (g_shared_role g) (g_pinned g) o.

(** No bound name and no lane has the order. *)
Definition order_unused (m : Manager) (o : Z) : Prop :=
  (forall c x, bound_cell (session_index_ m) c x -> si_publication_order x <> o) /\
  (forall l a, occupied_lane (active_ m) l a -> ac_publication_order a <> o).

Lemma cache_inv_order g m o : cache_inv g m -> order_unused m o -> cache_inv (with_order (Some o) g) m.
Proof. intros [] Ho. split; try done. by intros o' [= <-]. Qed.

(** ** The reservation *)

Definition record_ghost (r : MaterializationRecord) : Ghost :=
  mkGhost (fun s => if bool_decide (s ∈ taken_slots r) then TakenResident
                    else if bool_decide (s = mt_publication_slot r) then TakenHollow else AtRest)
    (fun s => if bool_decide (s ∈ shared_slots r) then SharedTaken else SharedAtRest)
    (cc_slot <$> mt_shared_source r) (Some (mt_publication_order r)).

Lemma cache_inv_pin m r :
  cache_inv no_ghost m -> choice_valid m r ->
  cache_inv (mkGhost (fun _ => AtRest) (fun _ => SharedAtRest) (cc_slot <$> mt_shared_source r) None) (set_shared (pin_in r (shared_catalog_ m)) m).
Proof.
  intros Hinv Hv. unfold pin_in. destruct (mt_shared_source r) as [c|] eqn:Hc; cbn [fmap option_fmap option_map].
  2: { replace (set_shared (shared_catalog_ m) m) with m by by destruct m. exact Hinv. }
  destruct (cv_shared_source _ _ Hv c Hc) as (_ & e & He & Hst). rewrite He. cbn [from_option].
  destruct (ci_shared _ _ Hinv _ _ He) as [Hp Hok]. cbn in Hp, Hok. rewrite Hst in Hok. rewrite Hp. change (w32 (0 + 1)) with 1.
  apply (cache_inv_ext (mkGhost (fun _ => AtRest) (<[cc_slot c := SharedAtRest]> (fun _ => SharedAtRest)) (Some (cc_slot c)) None)); try done.
  - apply (cache_inv_shared_entry no_ghost m (cc_slot c) e (set_shared_pins 1 e) SharedAtRest (Some (cc_slot c)) Hinv He).
    + rewrite bool_decide_eq_true_2 by done. split; [done|]. cbn. rewrite Hst. destruct Hok. by split.
    + intros _. by left.
    + intros t Ht. split; [by intros [= <-]|done].
  - intros s. cbn. destruct (decide (s = cc_slot c)) as [->|]; [by rewrite fn_lookup_insert|by rewrite fn_lookup_insert_ne].
Qed.

Lemma at_pin_in_other r c s e : at_index c s = Some e -> (forall k, mt_shared_source r = Some k -> cc_slot k <> s) -> at_index (pin_in r c) s = Some e.
Proof.
  intros He Hn. unfold pin_in. destruct (mt_shared_source r) as [k|]; [|done]. destruct (at_index c (cc_slot k)) as [y|] eqn:Hy; [|done]. cbn [from_option].
  rewrite at_set_index_ne; [done|apply at_index_lt in Hy; lia|]. intros Hq. by apply (Hn k).
Qed.

(** The roles of the claimed continuations and prefixes. *)
Lemma cache_inv_claims g m private shared :
  cache_inv g m -> (forall s, g_role g s = AtRest) -> (forall s, g_shared_role g s = SharedAtRest) ->
  (forall s, s ∈ private -> exists e, at_index (catalog_ m) s = Some e /\ ce_state e = CatCatalogued /\ no_private_edge (active_ m) s) ->
  (forall s, s ∈ shared -> is_pinned g s = false /\
     exists e, at_index (shared_catalog_ m) s = Some e /\ se_state e = ShCatalogued /\ no_shared_edge (active_ m) s) ->
  cache_inv (mark_shared_roles SharedTaken shared (mark_roles TakenResident private g))
    (set_shared (mark_shared ShClaimed shared (shared_catalog_ m)) (set_catalog (mark_entries CatClaimed private (catalog_ m)) m)).
Proof.
  intros Hinv Hr Hsr Ht Hs.
  apply (cache_inv_mark_shared _ (set_catalog (mark_entries CatClaimed private (catalog_ m)) m)); [apply cache_inv_mark; [done|done|]|].
  - intros s e Hin He. destruct (Ht s Hin) as (x & Hx & Hst & Hne). assert (x = e) as -> by congruence.
    pose proof (ci_private _ _ Hinv _ _ He) as Hok. unfold entry_ok in Hok. rewrite Hr, Hst in Hok. split_and!; [by apply resident_state|congruence|by right].
  - cbn [shared_catalog_ set_catalog]. intros s e Hin He. destruct (Hs s Hin) as (Hnp & x & Hx & Hst & Hne). assert (x = e) as -> by congruence.
    split; [|intros _; by right]. destruct (ci_shared _ _ Hinv _ _ He) as [Hp Hok].
    assert (is_pinned (mark_roles TakenResident private g) s = false) as -> by exact Hnp. rewrite Hnp in Hp. rewrite Hsr, Hst in Hok.
    split; [done|]. cbn. split; [by destruct Hok|done].
Qed.

(** The empty publication cell. *)
Lemma cache_inv_hollow g m slot :
  cache_inv g m -> (vacant_at (catalog_ m) slot = true -> g_role g slot = AtRest) ->
  cache_inv (mark_roles TakenHollow (if vacant_at (catalog_ m) slot then [slot] else []) g)
    (set_catalog (mark_entries CatClaimed (if vacant_at (catalog_ m) slot then [slot] else []) (catalog_ m)) m).
Proof.
  intros Hinv Hr. apply cache_inv_mark; [done|done|]. unfold vacant_at in *. destruct (at_index (catalog_ m) slot) as [e|] eqn:He; [|by intros ? ? ?%not_elem_of_nil].
  case_bool_decide as Hst; [|by intros ? ? ?%not_elem_of_nil]. intros s x ->%list_elem_of_singleton Hx. assert (x = e) as -> by congruence.
  pose proof (ci_private _ _ Hinv _ _ He) as Hok. unfold entry_ok in Hok. rewrite Hr, Hst in Hok by done. split_and!; [done|congruence|congruence].
Qed.

Lemma vacant_marked m r : choice_valid m r ->
  vacant_at (mark_entries CatClaimed (taken_slots r) (catalog_ m)) (mt_publication_slot r) = vacant_at (catalog_ m) (mt_publication_slot r) /\
  (vacant_at (catalog_ m) (mt_publication_slot r) = true <-> mt_publication_slot r ∉ taken_slots r).
Proof.
  intros Hv. unfold vacant_at. rewrite at_mark_entries. destruct (cv_publication _ _ Hv) as (e & He & Hpub). rewrite He. cbn.
  destruct (decide (mt_publication_slot r ∈ taken_slots r)) as [Hin|Hin].
  - rewrite (bool_decide_eq_true_2 (_ ∈ taken_slots r)) by done. destruct (cv_taken _ _ Hv _ Hin) as (x & Hx & Hst & _).
    assert (x = e) as -> by congruence. rewrite (bool_decide_eq_false_2 (ce_state e = CatVacant)) by congruence. by split.
  - rewrite (bool_decide_eq_false_2 (_ ∈ taken_slots r)) by done. destruct Hpub as [Hst|]; [|done].
    by rewrite bool_decide_eq_true_2.
Qed.

Lemma hollow_elem m r s : choice_valid m r -> s ∈ hollow_slots r m <-> s = mt_publication_slot r /\ (s ∉ taken_slots r).
Proof.
  intros Hv. destruct (vacant_marked m r Hv) as [_ Hvt]. unfold hollow_slots. destruct (vacant_at (catalog_ m) _).
  - rewrite list_elem_of_singleton. split; [intros ->; split; [done|by apply Hvt]|by intros [-> _]].
  - rewrite elem_of_nil. split; [done|]. intros [-> Hn]. by apply Hvt in Hn.
Qed.

Lemma reserved_inv m r :
  cache_inv no_ghost m -> choice_valid m r -> order_unused m (mt_publication_order r) -> cache_inv (record_ghost r) (reserved r m).
Proof.
  intros Hinv Hv Ho. destruct (cv_lane _ _ Hv) as [Hlane Hlt]. pose proof (ci_sizes _ _ Hinv) as Hsz. pose proof (ci_lanes _ _ Hinv) as Hlo.
  destruct (vacant_marked m r Hv) as [Hvm Hvt].
  assert (cache_inv (mark_shared_roles SharedTaken (shared_slots r) (mark_roles TakenResident (taken_slots r)
            (mkGhost (fun _ => AtRest) (fun _ => SharedAtRest) (cc_slot <$> mt_shared_source r) None)))
            (set_shared (mark_shared ShClaimed (shared_slots r) (pin_in r (shared_catalog_ m)))
               (set_catalog (mark_entries CatClaimed (taken_slots r) (catalog_ m)) m))) as H2.
  { apply (cache_inv_claims _ _ (taken_slots r) (shared_slots r) (cache_inv_pin m r Hinv Hv)); try done; cbn [catalog_ shared_catalog_ set_shared active_].
    - intros s Hs. destruct (cv_taken _ _ Hv s Hs) as (e & He & Hst & Hn). exists e. split_and!; [done|done|by apply (no_private_edge_spec m)].
    - intros s Hs. destruct (cv_shared_claims _ _ Hv s Hs) as (Hn & e & He & Hst & _ & Hc). split.
      { apply bool_decide_eq_false_2. cbn. destruct (mt_shared_source r) as [c|] eqn:Hcc; [|done]. cbn. intros [= Heq]. by apply (Hn c). }
      exists e. split; [by apply at_pin_in_other|]. split; [done|]. by apply (no_shared_edge_spec no_ghost m). }
  set (m2 := set_shared _ _) in H2.
  apply (cache_inv_hollow _ m2 (mt_publication_slot r)) in H2.
  2: { intros Hvac. cbn. rewrite bool_decide_eq_false_2; [done|]. apply Hvt. by rewrite <- Hvm. }
  unfold m2 in H2. cbn [catalog_ set_shared set_catalog] in H2. rewrite Hvm, mark_entries_app in H2. fold (hollow_slots r m) in H2.
  set (m3 := set_catalog _ (set_shared _ _)) in H2. apply at_index_lt in Hlane as Hll. rewrite (so_lane_states _ Hsz) in Hll.
  destruct (at_index_is_Some (active_ m) (mt_destination r)) as [a Ha]; [rewrite (so_active _ Hsz); lia|].
  assert (a = empty_active) as ->. { apply at_index_Some in Ha as [_ Ha]. apply at_index_Some in Hlane as [_ Hl]. by eapply (lo_free _ Hlo). }
  apply (cache_inv_lane _ m3 (mt_destination r) LaneFree LaneMaterializing empty_active) in H2; [|done|done|done|done|by intros [?|?]].
  apply (cache_inv_order _ _ (mt_publication_order r)) in H2; [|exact Ho].
  eapply (cache_inv_ext _ (record_ghost r) (reserved r m)) in H2; [exact H2| |done..]. intros s. unfold record_ghost. cbn [g_role with_order mark_roles mark_shared_roles].
  pose proof (hollow_elem m r s Hv) as Hh. repeat case_bool_decide; try done; tauto.
Qed.
