(* ===== verification/ContextAdopt.v ===== *)
(** * Context cache: adopting a materialization's result

    What the checks of [adopt_materialization_progress] establish, the catalogs after its actions on
    victims and sources, and the two ends: everything is put to rest, or the publication cell and the
    lane are given to the new sequence. *)

From stdpp Require Import functions.
From S2P Require Import Prelude ContextTypes SessionIndex ContextCatalog ContextManager ContextInvariant ContextActions ContextReserve.
Open Scope Z_scope.

(** ** The checks *)

Lemma unique_claims_distinct ex foreign claims : forall previous,
  (forall c1 c2, c1 ∈ previous ++ claims -> c2 ∈ previous ++ claims -> claim_slot c1 = claim_slot c2 -> cl_capability c1 = cl_capability c2) ->
  unique_claims ex foreign previous claims = Ok tt ->
  NoDup (claim_slot <$> claims) /\
  (forall c, c ∈ claims -> ex (claim_slot c) = false /\ forall p, p ∈ previous -> claim_slot p <> claim_slot c).
Proof.
  induction claims as [|c claims IH]; intros previous Hinj; cbn [unique_claims fmap list_fmap].
  { intros _. split; [constructor|by intros ? ?%not_elem_of_nil]. }
  intros (u1 & _ & H)%bind_Ok. apply bind_Ok in H as (u2 & Hu%throw_if_Ok & H). apply orb_false_iff in Hu as [Hex Hsame].
  destruct (IH (previous ++ [c])) as [Hnd Hin]; [by rewrite <- app_assoc|done|].
  assert (forall p, p ∈ previous -> claim_slot p <> claim_slot c) as Hprev.
  { intros p Hp Heq. assert (existsb (same_claim c) previous = true) as Ht; [|congruence].
    apply existsb_exists. exists p. split; [by apply list_elem_of_In|]. unfold same_claim.
    rewrite (bool_decide_eq_true_2 (cl_capability p = cl_capability c)); [apply orb_true_r|].
    apply Hinj; [apply elem_of_app; by left|apply elem_of_app; right; left|done]. }
  split.
  - apply NoDup_cons. split; [|done]. intros (d & Hd & Hdin)%list_elem_of_fmap. destruct (Hin d Hdin) as [_ Hp].
    apply (Hp c); [apply elem_of_app; right; left|done].
  - intros d [->|Hd]%elem_of_cons; [done|]. destruct (Hin d Hd) as [He Hp]. split; [done|]. intros p Hpp. apply Hp, elem_of_app. by left.
Qed.

(** The checks of the private results: each claim is matched with its row and its entry. *)
Lemma check_private_results_ok m published victims claims ex foreign :
  check_private_results m published victims claims = Ok tt -> unique_claims ex foreign [] claims = Ok tt ->
  NoDup (claim_slot <$> claims) /\ (forall s, s ∈ claim_slot <$> claims -> ex s = false) /\
  forall claim, claim ∈ claims -> exists r e, result_for vr_owner (cl_planning_id claim) victims = Ok r /\
    at_index (catalog_ m) (claim_slot claim) = Some e /\ ce_state e = CatClaimed /\ private_action_ok (max_long_anchors_ m) claim r e.
Proof.
  unfold check_private_results. rewrite check_each_Ok. intros Hc Hu.
  assert (forall claim, claim ∈ claims -> exists r e, result_for vr_owner (cl_planning_id claim) victims = Ok r /\
    at_index (catalog_ m) (claim_slot claim) = Some e /\ ce_state e = CatClaimed /\ private_action_ok (max_long_anchors_ m) claim r e /\
    cl_capability claim = mkCapability (mkOwner PrivateContinuation (ce_id e)) (claim_slot claim) (ce_revision e)) as Hall.
  { intros claim Hin. specialize (Hc claim Hin). apply bind_Ok in Hc as (r & Hr & Hv).
    apply validate_private_action_ok in Hv as (e & He%entry_at_Ok & Hst & Hrev & Hk & Hact & _). exists r, e. split_and!; try done.
    unfold claim_slot. destruct Hact as [Hid _]. destruct (cl_capability claim) as [[k i] s g]; cbn in *. by subst. }
  destruct (unique_claims_distinct ex foreign claims []) as [Hnd Hex]; [|done|].
  { cbn. intros c1 c2 H1 H2 Heq. destruct (Hall c1 H1) as (_ & e1 & _ & He1 & _ & _ & ->), (Hall c2 H2) as (_ & e2 & _ & He2 & _ & _ & ->).
    rewrite Heq in *. by assert (e1 = e2) as -> by congruence. }
  split_and!; [done| |].
  - intros s (claim & -> & Hin)%list_elem_of_fmap. by apply Hex.
  - intros claim Hin. destruct (Hall claim Hin) as (r & e & Hr & He & Hst & Hact & _). by exists r, e.
Qed.

Lemma check_shared_results_ok m published victims claims ex foreign :
  check_shared_results m published victims claims = Ok tt -> unique_claims ex foreign [] claims = Ok tt ->
  NoDup (claim_slot <$> claims) /\ (forall s, s ∈ claim_slot <$> claims -> ex s = false) /\
  forall claim, claim ∈ claims -> exists r e, result_for sv_owner (cl_planning_id claim) victims = Ok r /\
    at_index (shared_catalog_ m) (claim_slot claim) = Some e /\ se_state e = ShClaimed /\ shared_action_ok claim r e.
Proof.
  unfold check_shared_results. rewrite check_each_Ok. intros Hc Hu.
  assert (forall claim, claim ∈ claims -> exists r e, result_for sv_owner (cl_planning_id claim) victims = Ok r /\
    at_index (shared_catalog_ m) (claim_slot claim) = Some e /\ se_state e = ShClaimed /\ shared_action_ok claim r e /\
    cl_capability claim = mkCapability (mkOwner SharedPrefix (se_id e)) (claim_slot claim) (se_revision e)) as Hall.
  { intros claim Hin. specialize (Hc claim Hin). apply bind_Ok in Hc as (r & Hr & Hv).
    apply validate_shared_action_ok in Hv as (e & He%shared_at_Ok & Hst & Hid & Hrev & Hk & Hact). exists r, e. split_and!; try done.
    unfold claim_slot. destruct (cl_capability claim) as [[k i] s g]; cbn in *. by subst. }
  destruct (unique_claims_distinct ex foreign claims []) as [Hnd Hex]; [|done|].
  { cbn. intros c1 c2 H1 H2 Heq. destruct (Hall c1 H1) as (_ & e1 & _ & He1 & _ & _ & ->), (Hall c2 H2) as (_ & e2 & _ & He2 & _ & _ & ->).
    rewrite Heq in *. by assert (e1 = e2) as -> by congruence. }
  split_and!; [done| |].
  - intros s (claim & -> & Hin)%list_elem_of_fmap. by apply Hex.
  - intros claim Hin. destruct (Hall claim Hin) as (r & e & Hr & He & Hst & Hact & _). by exists r, e.
Qed.

(** A claimed entry was taken. *)
Lemma claimed_role g m s e : cache_inv g m -> at_index (catalog_ m) s = Some e -> ce_state e = CatClaimed -> has (ce_handle e) = true -> g_role g s = TakenResident.
Proof.
  intros Hinv He Hst Hh. pose proof (ci_private _ _ Hinv _ _ He) as Hok. unfold entry_ok in Hok. rewrite Hst in Hok.
  destruct (g_role g s); try done; [destruct Hok as (_ & Hn & _)|destruct Hok as [Hn _]]; by rewrite Hn in Hh.
Qed.
Lemma claimed_shared_role g m s e : cache_inv g m -> at_index (shared_catalog_ m) s = Some e -> se_state e = ShClaimed -> g_shared_role g s = SharedTaken.
Proof.
  intros Hinv He Hst. pose proof (ci_shared _ _ Hinv _ _ He) as [_ Hok]. rewrite Hst in Hok. by destruct (g_shared_role g s).
Qed.

(** ** The victims *)

(** Lanes and the open transaction stay. *)
Record lanes_frame (m m' : Manager) : Prop := {
  lf_config : mg_config m' = mg_config m;
  lf_lanes : lanes_ m' = lanes_ m;
  lf_active : active_ m' = active_ m;
  lf_transaction : transaction_ m' = transaction_ m;
}.
Lemma lanes_frame_refl m : lanes_frame m m.
Proof. done. Qed.
Lemma lanes_frame_trans m1 m2 m3 : lanes_frame m1 m2 -> lanes_frame m2 m3 -> lanes_frame m1 m3.
Proof. intros [] []. split; congruence. Qed.
Lemma hit_lanes m m' : hit_frame m m' -> lanes_frame m m'.
Proof. intros [-> _ _]. done. Qed.
Lemma private_lanes slots m m' : private_frame slots m m' -> lanes_frame m m'.
Proof. intros [-> _]. done. Qed.
Lemma shared_lanes slots m m' : shared_frame slots m m' -> lanes_frame m m'.
Proof. intros [-> _]. done. Qed.

Lemma private_results_hit g m m' victims claims : hit_frame m m' -> private_results_ok g m victims claims -> private_results_ok g m' victims claims.
Proof.
  intros Hf H claim Hin. destruct (H claim Hin) as (r & e & Hr & He & Hrole & Hst & Hact).
  destruct (hf_catalog _ _ Hf _ _ He) as (e' & He' & os & ->). exists r, (set_entry_observations os e). split_and!; try done.
  unfold max_long_anchors_. by rewrite (lf_config _ _ (hit_lanes _ _ Hf)).
Qed.
Lemma shared_results_hit g m m' victims claims : hit_frame m m' -> shared_results_ok g m victims claims -> shared_results_ok g m' victims claims.
Proof.
  intros Hf H claim Hin. destruct (H claim Hin) as (r & e & Hr & He & Hrole & Hst & Hact).
  destruct (hf_shared _ _ Hf _ _ He) as (o & He'). by exists r, (set_shared_observation o e).
Qed.

Definition apply_victims (record : MaterializationRecord) (hit : bool) (victims : list MaterializationVictimResult) (shared : list MaterializationSharedVictimResult) : M Manager unit :=
  _ ← (if hit then observe_selected_hit record else mret tt);
  _ ← apply_private_results victims (mt_private_claims record);
  apply_shared_results shared (mt_shared_claims record).

Definition hit_key_ok (record : MaterializationRecord) : Prop := forall key, mt_selected_observation record = Some key -> 0 <= po_slot key.

Lemma maybe_hit_ok g m record (hit : bool) :
  cache_inv g m -> hit_key_ok record ->
  exists m', (if hit then observe_selected_hit record else mret tt) m = (m', Ok tt) /\ cache_inv g m' /\ hit_frame m m'.
Proof.
  intros Hinv Hkey. destruct hit; [by apply observe_selected_hit_ok|]. exists m. split_and!; [done|done|apply hit_frame_refl].
Qed.

Lemma apply_victims_ok g m record hit victims shared :
  cache_inv g m -> hit_key_ok record -> NoDup (private_slots record) -> NoDup (shared_slots record) ->
  private_results_ok g m victims (mt_private_claims record) -> shared_results_ok g m shared (mt_shared_claims record) ->
  exists m', apply_victims record hit victims shared m = (m', Ok tt) /\
    cache_inv (rest_shared_roles (shared_slots record) (rest_roles (private_slots record) g)) m' /\ lanes_frame m m' /\
    (forall s e, (s ∉ private_slots record) -> at_index (catalog_ m) s = Some e -> exists e', at_index (catalog_ m') s = Some e' /\ same_entry e e') /\
    (forall claim, claim ∈ mt_private_claims record -> exists r e e', result_for vr_owner (cl_planning_id claim) victims = Ok r /\
       at_index (catalog_ m) (claim_slot claim) = Some e /\ same_entry e e' /\ at_index (catalog_ m') (claim_slot claim) = Some (acted r e')) /\
    (forall s e, (s ∉ shared_slots record) -> at_index (shared_catalog_ m) s = Some e -> exists o, at_index (shared_catalog_ m') s = Some (set_shared_observation o e)).
Proof.
  intros Hinv Hkey Hnp Hns Hp Hs. destruct (maybe_hit_ok g m record hit Hinv Hkey) as (m1 & Hrun1 & Hinv1 & Hf1).
  apply (private_results_hit _ _ m1) in Hp as Hp1; [|done]. apply (shared_results_hit _ _ m1) in Hs as Hs1; [|done].
  destruct (apply_private_results_ok _ _ _ _ Hinv1 Hnp Hp1) as (m2 & Hrun2 & Hinv2 & Hf2 & Hacted).
  assert (shared_results_ok (rest_roles (private_slots record) g) m2 shared (mt_shared_claims record)) as Hs2.
  { intros claim Hin. destruct (Hs1 claim Hin) as (r & e & ? & He & ? & ? & ?). exists r, e. split_and!; try done. by rewrite (pf_manager _ _ _ Hf2). }
  destruct (apply_shared_results_ok _ _ _ _ Hinv2 Hns Hs2) as (m3 & Hrun3 & Hinv3 & Hf3).
  exists m3. split_and!.
  - unfold apply_victims. unfold_M. by rewrite Hrun1, Hrun2.
  - done.
  - eapply lanes_frame_trans; [by apply hit_lanes|]. eapply lanes_frame_trans; [by eapply private_lanes|by eapply shared_lanes].
  - intros s e Hn He. destruct (hf_catalog _ _ Hf1 _ _ He) as (e' & He' & Hsame). exists e'. split; [|done].
    rewrite (sf_manager _ _ _ Hf3). cbn. by rewrite (pf_others _ _ _ Hf2).
  - intros claim Hin. destruct (Hacted claim Hin) as (r & e1 & Hr & He1 & Ha). destruct (Hp claim Hin) as (r' & e & Hr' & He & _).
    destruct (hf_catalog _ _ Hf1 _ _ He) as (e' & He' & Hsame). assert (e' = e1) as -> by congruence.
    exists r, e, e1. split_and!; [done|done|done|]. rewrite (sf_manager _ _ _ Hf3). done.
  - intros s e Hn He. destruct (hf_shared _ _ Hf1 _ _ He) as (o & He'). exists o. rewrite (sf_others _ _ _ Hf3) by done.
    by rewrite (pf_manager _ _ _ Hf2).
Qed.

(** ** The checked result *)

Definition is_published (r : MaterializationResult) : bool := bool_decide (mr_status r = TxPublished).

Record checked (m : Manager) (record : MaterializationRecord) (r : MaterializationResult) : Prop := {
  ck_status : mr_status r <> TxInProgress /\ has (mr_published r) = is_published r;
  ck_lane : at_index (lanes_ m) (mt_destination record) = Some LaneMaterializing /\ mt_destination record < lane_count_ m;
  ck_active : exists a, at_index (active_ m) (mt_destination record) = Some a /\ ac_occupied a = false;
  ck_publication : exists e, at_index (catalog_ m) (mt_publication_slot record) = Some e /\ ce_state e = CatClaimed;
  ck_private : NoDup (private_slots record) /\ (forall s, s ∈ private_slots record -> s ∉ source_slots record) /\
    forall claim, claim ∈ mt_private_claims record -> exists x e, result_for vr_owner (cl_planning_id claim) (mr_victims r) = Ok x /\
      at_index (catalog_ m) (claim_slot claim) = Some e /\ ce_state e = CatClaimed /\ private_action_ok (max_long_anchors_ m) claim x e;
  ck_shared : NoDup (shared_slots record) /\ (forall s c, s ∈ shared_slots record -> mt_shared_source record = Some c -> s <> cc_slot c) /\
    forall claim, claim ∈ mt_shared_claims record -> exists x e, result_for sv_owner (cl_planning_id claim) (mr_shared_victims r) = Ok x /\
      at_index (shared_catalog_ m) (claim_slot claim) = Some e /\ se_state e = ShClaimed /\ shared_action_ok claim x e;
  ck_source : forall c, mt_private_source record = Some c -> exists x e, mr_source r = Some x /\ at_index (catalog_ m) (cc_slot c) = Some e /\
    ce_state e = CatClaimed /\ ce_id e = ok_id (cc_owner c) /\ (sr_mode x = ConsumeToActive -> is_published r = true /\ mt_source_mode record = ConsumeToActive) /\
    (forall s, sr_final_summary x = Some s -> summary_ok (max_long_anchors_ m) s);
  ck_shared_source : forall c, mt_shared_source record = Some c -> exists x e, mr_shared_source r = Some x /\ at_index (shared_catalog_ m) (cc_slot c) = Some e /\
    (forall s, ssr_final_summary x = Some s -> valid_shared_prefix_summary s = true);
  ck_cell : is_published r = true -> check_publication_cell m record r = Ok tt;
}.

Lemma same_slot_source s record : same_slot s (mt_private_source record) = false -> s ∉ source_slots record.
Proof.
  unfold same_slot, source_slots. destruct (mt_private_source record) as [c|]; cbn; [|intros _; apply not_elem_of_nil].
  by rewrite list_elem_of_singleton, Z.eqb_neq.
Qed.

Lemma check_private_source_ok m record r :
  check_private_source m record (is_published r) (mr_source r) = Ok tt ->
  forall c, mt_private_source record = Some c -> exists x e, mr_source r = Some x /\ at_index (catalog_ m) (cc_slot c) = Some e /\
    ce_state e = CatClaimed /\ ce_id e = ok_id (cc_owner c) /\ (sr_mode x = ConsumeToActive -> is_published r = true /\ mt_source_mode record = ConsumeToActive) /\
    (forall s, sr_final_summary x = Some s -> summary_ok (max_long_anchors_ m) s).
Proof.
  unfold check_private_source. intros H c Hc. rewrite Hc in H. apply bind_Ok in H as (u1 & _ & H). apply bind_Ok in H as (e & He%entry_at_Ok & H).
  destruct (mr_source r) as [x|]; [|done]. apply throw_if_Ok in H. rewrite !orb_false_iff, !negb_false_iff, bool_decide_eq_true, Z.eqb_eq in H.
  destruct H as [[[[[[[Hst Hid] _] Hm1] Hm2] Hs] _] _]. exists x, e. split_and!; try done.
  - intros Hm. rewrite Hm in Hm1, Hm2. destruct (is_published r); cbn in Hm1, Hm2; [|done]. split; [done|].
    apply negb_false_iff, bool_decide_eq_true in Hm2. done.
  - intros s Hx. rewrite Hx in Hs. by apply negb_false_iff.
Qed.

Lemma check_shared_source_ok m record r :
  check_shared_source m record (is_published r) (mr_shared_source r) = Ok tt ->
  forall c, mt_shared_source record = Some c -> exists x e, mr_shared_source r = Some x /\ at_index (shared_catalog_ m) (cc_slot c) = Some e /\
    (forall s, ssr_final_summary x = Some s -> valid_shared_prefix_summary s = true).
Proof.
  unfold check_shared_source. intros H c Hc. rewrite Hc in H. apply bind_Ok in H as (u1 & _ & H). apply bind_Ok in H as (e & He%shared_at_Ok & H).
  destruct (mr_shared_source r) as [x|]; [|done]. apply bind_Ok in H as (u2 & _ & H). exists x, e. split_and!; try done.
  intros s Hs. rewrite Hs in H. apply throw_if_Ok, orb_false_iff in H as [H _]. by apply negb_false_iff.
Qed.

Lemma check_materialization_ok m record r : check_materialization m record r = Ok tt -> checked m record r.
Proof.
  unfold check_materialization. intros (u1 & Hst%throw_if_Ok & H)%bind_Ok. apply bind_Ok in H as (u2 & _ & H). apply bind_Ok in H as (u3 & Hpub%throw_if_Ok & H).
  apply bind_Ok in H as (u4 & Hd%throw_if_Ok & H). apply bind_Ok in H as (lane & Hlane%lane_at_Ok & H). apply bind_Ok in H as (a & Ha%active_at_Ok & H).
  apply bind_Ok in H as (u5 & Hl%throw_if_Ok & H). apply bind_Ok in H as (e & He%entry_at_Ok & H). apply bind_Ok in H as (u6 & Hcl%throw_if_Ok & H).
  apply bind_Ok in H as ([] & Hup & H). apply bind_Ok in H as ([] & Hus & H). apply bind_Ok in H as ([] & Hcp & H). apply bind_Ok in H as ([] & Hcs & H).
  apply bind_Ok in H as ([] & Hsrc & H). apply bind_Ok in H as ([] & Hss & H). fold (is_published r) in *.
  rewrite !orb_false_iff, negb_false_iff, bool_decide_eq_true in Hl. destruct Hl as [[[[-> Hocc] _] _] _].
  apply negb_false_iff, bool_decide_eq_true in Hcl. apply Z.leb_gt in Hd. apply bool_decide_eq_false in Hst.
  apply negb_false_iff, Bool.eqb_prop in Hpub.
  destruct (check_private_results_ok _ _ _ _ _ _ Hcp Hup) as (Hnd & Hex & Hall). destruct (check_shared_results_ok _ _ _ _ _ _ Hcs Hus) as (Hnd' & Hex' & Hall').
  split; try done.
  - by exists a.
  - by exists e.
  - split_and!; [done| |done]. intros s Hs. by apply same_slot_source, Hex.
  - split_and!; [done| |done]. intros s c Hs Hc. specialize (Hex' s Hs). cbn in Hex'. unfold same_slot in Hex'. rewrite Hc in Hex'. by apply Z.eqb_neq.
  - by apply check_private_source_ok.
  - by apply check_shared_source_ok.
  - intros Hp. by rewrite Hp in H.
Qed.

(** ** Victims and sources *)

(** The roles once the victims and the sources are settled. *)
Definition settled_ghost (record : MaterializationRecord) (r : MaterializationResult) : Ghost :=
  mkGhost (fun s => if bool_decide (s ∈ source_slots record) then (if consumed_source (mr_source r) then TakenConsumed else AtRest)
                    else if bool_decide (s ∈ private_slots record) then AtRest
                    else if bool_decide (s = mt_publication_slot record) then TakenHollow else AtRest)
    (fun _ => SharedAtRest) None (Some (mt_publication_order record)).

(** The cell of the publication once the victims and sources are settled, given what it was. *)
Definition settled_publication (record : MaterializationRecord) (r : MaterializationResult) (m m' : Manager) : Prop :=
  mt_publication_slot record ∈ private_slots record -> exists claim x e e', claim ∈ mt_private_claims record /\
    claim_slot claim = mt_publication_slot record /\ result_for vr_owner (cl_planning_id claim) (mr_victims r) = Ok x /\
    at_index (catalog_ m) (mt_publication_slot record) = Some e /\ same_entry e e' /\ at_index (catalog_ m') (mt_publication_slot record) = Some (acted x e').

(** A retained source is catalogued again, and so is a shared one. *)
Record sources_settled (record : MaterializationRecord) (r : MaterializationResult) (m : Manager) : Prop := {
  ss_private : forall c x, mt_private_source record = Some c -> mr_source r = Some x -> sr_mode x = Retain ->
    exists e, at_index (catalog_ m) (cc_slot c) = Some e /\ ce_state e = CatCatalogued;
  ss_shared : forall c, mt_shared_source record = Some c -> exists e, at_index (shared_catalog_ m) (cc_slot c) = Some e /\ se_state e = ShCatalogued;
}.

Lemma settle_sources_ok g m record r :
  cache_inv g m -> (forall s, s ∈ source_slots record -> g_role g s = TakenResident) -> g_pinned g = cc_slot <$> mt_shared_source record ->
  (forall s, g_shared_role g s = SharedAtRest) ->
  (forall c, mt_private_source record = Some c -> exists x e, mr_source r = Some x /\ at_index (catalog_ m) (cc_slot c) = Some e /\
    ce_state e = CatClaimed /\ ce_id e = ok_id (cc_owner c) /\ (forall s, sr_final_summary x = Some s -> summary_ok (max_long_anchors_ m) s)) ->
  (forall c, mt_shared_source record = Some c -> exists x e, mr_shared_source r = Some x /\ at_index (shared_catalog_ m) (cc_slot c) = Some e /\
    (forall s, ssr_final_summary x = Some s -> valid_shared_prefix_summary s = true)) ->
  exists m', (_ ← settle_private_source record (mr_source r); settle_shared_source record (mr_shared_source r)) m = (m', Ok tt) /\
    cache_inv (mkGhost (fun s => if bool_decide (s ∈ source_slots record) then (if consumed_source (mr_source r) then TakenConsumed else AtRest) else g_role g s)
                 (fun _ => SharedAtRest) None (g_order g)) m' /\
    lanes_frame m m' /\ (forall s, (s ∉ source_slots record) -> at_index (catalog_ m') s = at_index (catalog_ m) s) /\ sources_settled record r m'.
Proof.
  intros Hinv Hrole Hpin Hshr Hp Hs.
  assert (exists m1, settle_private_source record (mr_source r) m = (m1, Ok tt) /\
    cache_inv (mkGhost (fun s => if bool_decide (s ∈ source_slots record) then (if consumed_source (mr_source r) then TakenConsumed else AtRest) else g_role g s)
                 (g_shared_role g) (g_pinned g) (g_order g)) m1 /\ lanes_frame m m1 /\ shared_catalog_ m1 = shared_catalog_ m /\
    (forall s, (s ∉ source_slots record) -> at_index (catalog_ m1) s = at_index (catalog_ m) s) /\
    (forall c x, mt_private_source record = Some c -> mr_source r = Some x -> sr_mode x = Retain ->
       exists e, at_index (catalog_ m1) (cc_slot c) = Some e /\ ce_state e = CatCatalogued)) as (m1 & Hrun1 & Hinv1 & Hl1 & Hsh1 & Hc1 & Hp1).
  { destruct (mt_private_source record) as [c|] eqn:Hc.
    - destruct (Hp c eq_refl) as (x & e & -> & He & Hst & Hid & Hsum).
      assert (forall s, s ∈ source_slots record <-> s = cc_slot c) as Hsrc by (intros s; unfold source_slots; rewrite Hc; cbn; by rewrite list_elem_of_singleton).
      destruct (settle_private_source_ok g m record c x e Hinv Hc He) as (sessions & Hrun & Hi); [by apply Hrole, Hsrc|done..|].
      eexists. split_and!; [exact Hrun| |done|done| |].
      + eapply cache_inv_ext; [exact Hi| |done..]. intros s. cbn. destruct (decide (s = cc_slot c)) as [->|Hne].
        * rewrite fn_lookup_insert, bool_decide_eq_true_2 by by apply Hsrc. unfold settled_role. by destruct (sr_mode x).
        * rewrite fn_lookup_insert_ne, bool_decide_eq_false_2 by (rewrite ?Hsrc; done). done.
      + intros s Hn. cbn. pose proof (at_index_lt _ _ _ He). apply at_set_index_ne; [lia|]. intros Heq. by apply Hn, Hsrc.
      + intros c' x' [= <-] [= <-] Hm. exists (settled_source x e). cbn. rewrite at_set_index_eq by by eapply at_index_lt. unfold settled_source. by rewrite Hm.
    - exists m. unfold settle_private_source. rewrite Hc. split_and!; [done| |done|done|done|done].
      eapply cache_inv_ext; [exact Hinv| |done..]. intros s. cbn. unfold source_slots. rewrite Hc. by rewrite bool_decide_eq_false_2 by apply not_elem_of_nil. }
  unfold_M. rewrite Hrun1. destruct (mt_shared_source record) as [c|] eqn:Hc.
  - destruct (Hs c eq_refl) as (x & e & -> & He & Hsum). rewrite <- Hsh1 in He.
    destruct (settle_shared_source_ok _ m1 record c x e Hinv1 Hc He) as [Hrun Hi]; [done|apply Hshr|done|].
    eexists. split_and!; [exact Hrun| |destruct Hl1; by split|done|].
    + eapply cache_inv_ext; [exact Hi|done|by intros s; cbn; rewrite Hshr|done..].
    + split; [done|]. intros c' Hc'. assert (c' = c) as -> by congruence. eexists. cbn. rewrite at_set_index_eq by by eapply at_index_lt. split; [done|].
      destruct (ci_shared _ _ Hinv1 _ _ He) as [_ Hok]. unfold is_pinned in Hok. cbn [g_pinned g_shared_role] in Hok. rewrite Hpin, Hshr, bool_decide_eq_true_2 in Hok by done.
      unfold settled_shared_source. destruct (se_state e) eqn:Hst; try (by destruct Hok). destruct (ssr_final_summary x); [case_bool_decide|]; done.
  - exists m1. unfold settle_shared_source. rewrite Hc. split_and!; [done| |done|done|split; [done|congruence]]. eapply cache_inv_ext; [exact Hinv1|done|by intros s; cbn; rewrite Hshr|by cbn|done].
Qed.

Lemma apply_materialization_steps record r m :
  apply_materialization record r m =
  (_ ← apply_victims record (is_published r) (mr_victims r) (mr_shared_victims r);
   _ ← (_ ← settle_private_source record (mr_source r); settle_shared_source record (mr_shared_source r));
   _ ← modify_stats (observe_transfers (mr_transfer_observations r));
   modify_stats (observe_operations (mr_operations r))) m.
Proof.
  unfold apply_materialization, apply_victims. fold (is_published r). unfold_M.
  destruct (is_published r); [destruct (observe_selected_hit record m) as [m1 [[]|?]]; [|done]|set (m1 := m)];
    (destruct (apply_private_results _ _ m1) as [m2 [[]|?]]; [|done]; destruct (apply_shared_results _ _ m2) as [m3 [[]|?]]; [|done];
     by destruct (settle_private_source _ _ m3) as [m4 [[]|?]]).
Qed.

Lemma run_seq {S A} (p : M S unit) (q : M S A) s s' : p s = (s', Ok tt) -> (_ ← p; q) s = q s'.
Proof. intros Hp. unfold_M. by rewrite Hp. Qed.

Lemma apply_materialization_ok m record r :
  cache_inv (record_ghost record) m -> hit_key_ok record -> checked m record r ->
  exists m', apply_materialization record r m = (m', Ok tt) /\ cache_inv (settled_ghost record r) m' /\ lanes_frame m m' /\ settled_publication record r m m' /\
    sources_settled record r m'.
Proof.
  intros Hinv Hkey Hck. destruct (ck_private _ _ _ Hck) as (Hnp & Hdp & Hp). destruct (ck_shared _ _ _ Hck) as (Hns & Hds & Hs).
  destruct (apply_victims_ok _ m record (is_published r) (mr_victims r) (mr_shared_victims r) Hinv Hkey Hnp Hns) as (m1 & Hrun1 & Hinv1 & Hl1 & Hc1 & Ha1 & Hs1).
  { intros claim Hin. destruct (Hp claim Hin) as (x & e & Hx & He & Hst & Hact). exists x, e. split_and!; try done. cbn.
    rewrite bool_decide_eq_true_2; [done|]. unfold taken_slots. rewrite elem_of_app. right. apply list_elem_of_fmap. by exists claim. }
  { intros claim Hin. destruct (Hs claim Hin) as (x & e & Hx & He & Hst & Hact). exists x, e. split_and!; try done. cbn.
    rewrite bool_decide_eq_true_2; [done|]. apply list_elem_of_fmap. by exists claim. }
  destruct (settle_sources_ok _ m1 record r Hinv1) as (m2 & Hrun2 & Hinv2 & Hl2 & Hc2 & Hset2).
  { intros s Hin. cbn. rewrite bool_decide_eq_false_2 by (intros Hc; by apply (Hdp s)). rewrite bool_decide_eq_true_2; [done|]. unfold taken_slots. rewrite elem_of_app. by left. }
  { done. }
  { intros s. cbn. by repeat case_bool_decide. }
  { intros c Hc. destruct (ck_source _ _ _ Hck c Hc) as (x & e & Hx & He & Hst & Hid & _ & Hsum).
    destruct (Hc1 (cc_slot c) e) as (e' & He' & os & ->); [|done|].
    - intros Hin. apply (Hdp _ Hin). unfold source_slots. rewrite Hc. cbn. by apply list_elem_of_singleton.
    - exists x, (set_entry_observations os e). split_and!; try done. unfold max_long_anchors_. by rewrite (lf_config _ _ Hl1). }
  { intros c Hc. destruct (ck_shared_source _ _ _ Hck c Hc) as (x & e & Hx & He & Hsum).
    destruct (Hs1 (cc_slot c) e) as (o & He'); [|done|by eexists x, _]. intros Hin. by apply (Hds _ c Hin Hc). }
  exists (set_stats (observe_operations (mr_operations r) (observe_transfers (mr_transfer_observations r) (context_stats_ m2))) m2).
  split_and!.
  - rewrite apply_materialization_steps. rewrite (run_seq _ _ _ _ Hrun1), (run_seq _ _ _ _ Hrun2). done.
  - apply cache_inv_stats. eapply cache_inv_ext; [exact Hinv2| |done..]. intros s. cbn [g_role settled_ghost].
    pose proof (elem_of_app (source_slots record) (private_slots record) s) as Htk. fold (taken_slots record) in Htk.
    cbn [g_role rest_shared_roles rest_roles record_ghost]. repeat case_bool_decide; try done; tauto.
  - destruct (lanes_frame_trans _ _ _ Hl1 Hl2). by split.
  - intros Hin. pose proof Hin as Hin'. apply list_elem_of_fmap in Hin' as (claim & Heq & Hcl).
    destruct (Ha1 claim Hcl) as (x & e & e' & Hx & He & Hsame & He'). rewrite <- Heq in *. exists claim, x, e, e'. split_and!; try done.
    cbn. rewrite Hc2; [done|]. by apply Hdp.
  - by destruct Hset2.
Qed.
