(* ===== verification/ContextPublish.v ===== *)
(** * Context cache: the two ends of a materialization

    An aborted result puts every slot of the transaction to rest; a published one gives its
    publication cell and its lane to the new sequence. *)

From stdpp Require Import functions.
From S2P Require Import Prelude ContextTypes SessionIndex ContextCatalog ContextManager ContextInvariant ContextActions ContextReserve ContextAdopt.
Open Scope Z_scope.

Definition rest_ghost (o : option Z) : Ghost := mkGhost (fun _ => AtRest) (fun _ => SharedAtRest) None o.

(** ** Nothing left to restore *)

Lemma set_index_same {A} (l : list A) s x : at_index l s = Some x -> set_index l s x = l.
Proof. intros [_ Hx]%at_index_Some. by apply list_insert_id. Qed.

Lemma run_modify_entry_same m s e f : at_index (catalog_ m) s = Some e -> f e = e -> modify_entry s f m = (m, Ok tt).
Proof. intros He Hf. rewrite (run_modify_entry _ _ _ _ He), Hf, (set_index_same _ _ _ He). by destruct m. Qed.
Lemma run_modify_shared_same m s e f : at_index (shared_catalog_ m) s = Some e -> f e = e -> modify_shared s f m = (m, Ok tt).
Proof. intros He Hf. rewrite (run_modify_shared _ _ _ _ He), Hf, (set_index_same _ _ _ He). by destruct m. Qed.

Lemma run_for_each_same {S A} (f : A -> M S unit) l s : (forall a, a ∈ l -> f a s = (s, Ok tt)) -> for_each f l s = (s, Ok tt).
Proof.
  induction l as [|a l IH]; intros H; cbn [for_each]; [done|]. unfold_M. rewrite H by left. apply IH. intros b Hb. apply H. by right.
Qed.

Lemma rest_not_claimed g m s e : cache_inv g m -> g_role g s = AtRest -> at_index (catalog_ m) s = Some e -> ce_state e <> CatClaimed.
Proof. intros Hinv Hr He Hst. pose proof (ci_private _ _ Hinv _ _ He) as Hok. unfold entry_ok in Hok. by rewrite Hr, Hst in Hok. Qed.
Lemma rest_not_shared_claimed g m s e : cache_inv g m -> g_shared_role g s = SharedAtRest -> at_index (shared_catalog_ m) s = Some e -> se_state e <> ShClaimed.
Proof. intros Hinv Hr He Hst. destruct (ci_shared _ _ Hinv _ _ He) as [_ Hok]. by rewrite Hr, Hst in Hok. Qed.

Record slots_exist (m : Manager) (record : MaterializationRecord) : Prop := {
  se_taken : forall s, s ∈ taken_slots record -> in_range (catalog_ m) s;
  se_shared : forall s, s ∈ shared_slots record -> in_range (shared_catalog_ m) s;
  se_source : forall c, mt_shared_source record = Some c -> in_range (shared_catalog_ m) (cc_slot c);
  se_publication : in_range (catalog_ m) (mt_publication_slot record);
}.

Lemma slots_exist_frame g g' m m' record : cache_inv g m -> cache_inv g' m' -> lanes_frame m m' -> slots_exist m record -> slots_exist m' record.
Proof.
  intros Hinv Hinv' Hf []. pose proof (so_catalog _ (ci_sizes _ _ Hinv)) as H1. pose proof (so_catalog _ (ci_sizes _ _ Hinv')) as H1'.
  pose proof (so_shared _ (ci_sizes _ _ Hinv)) as H2. pose proof (so_shared _ (ci_sizes _ _ Hinv')) as H2'.
  unfold catalog_count_, shared_catalog_count_ in *. rewrite (lf_config _ _ Hf) in H1', H2'.
  split; unfold in_range in *; rewrite ?H1', ?H2', <- ?H1, <- ?H2; done.
Qed.

(** With everything but the empty publication cell at rest, only that cell changes. *)
Lemma run_restore g m record :
  cache_inv g m -> slots_exist m record -> (forall s, s <> mt_publication_slot record -> g_role g s = AtRest) ->
  g_role g (mt_publication_slot record) = AtRest \/ (g_role g (mt_publication_slot record) = TakenHollow /\ (mt_publication_slot record ∉ taken_slots record)) ->
  (forall s, g_shared_role g s = SharedAtRest) -> g_pinned g = None ->
  exists m', restore_unreported_materialization record m = (m', Ok tt) /\ cache_inv (rest_ghost (g_order g)) m' /\ lanes_frame m m'.
Proof.
  intros Hinv Hsl Hr Hpub Hs Hpin. unfold restore_unreported_materialization.
  assert (forall s, s ∈ taken_slots record -> modify_entry s (fun e => if bool_decide (ce_state e = CatClaimed) then set_entry_state CatCatalogued e else e) m = (m, Ok tt)) as Htaken.
  { intros s Hin. destruct (proj1 (in_range_at _ _) (se_taken _ _ Hsl s Hin)) as [e He]. apply (run_modify_entry_same _ _ e); [done|].
    rewrite bool_decide_eq_false_2; [done|]. apply (rest_not_claimed g m s); [done| |done].
    destruct (decide (s = mt_publication_slot record)) as [->|]; [|by apply Hr]. by destruct Hpub as [|[_ ?]]. }
  rewrite (run_seq _ _ m m).
  2: { destruct (mt_private_source record) as [c|] eqn:Hc; [|done]. apply Htaken. unfold taken_slots, source_slots. rewrite Hc, elem_of_app. left. by apply list_elem_of_singleton. }
  rewrite (run_seq _ _ m m).
  2: { destruct (mt_shared_source record) as [c|] eqn:Hc; [|done]. destruct (proj1 (in_range_at _ _) (se_source _ _ Hsl c Hc)) as [e He].
       apply (run_modify_shared_same _ _ e); [done|]. destruct (ci_shared _ _ Hinv _ _ He) as [Hp _]. unfold is_pinned in Hp.
       rewrite Hpin, bool_decide_eq_false_2 in Hp by done. unfold unpin_shared. by rewrite Hp. }
  rewrite (run_seq _ _ m m).
  2: { apply run_for_each_same. intros claim Hin. apply Htaken. unfold taken_slots. rewrite elem_of_app. right. apply list_elem_of_fmap. by exists claim. }
  rewrite (run_seq _ _ m m).
  2: { apply run_for_each_same. intros claim Hin. destruct (proj1 (in_range_at (shared_catalog_ m) (claim_slot claim))) as [e He].
       - apply (se_shared _ _ Hsl), list_elem_of_fmap. by exists claim.
       - apply (run_modify_shared_same _ _ e); [done|]. rewrite bool_decide_eq_false_2; [done|]. by eapply rest_not_shared_claimed. }
  destruct (proj1 (in_range_at _ _) (se_publication _ _ Hsl)) as [e He]. rewrite (run_modify_entry _ _ _ _ He). eexists. split; [reflexivity|].
  pose proof (ci_private _ _ Hinv _ _ He) as Hok. unfold entry_ok in Hok. split; [|done].
  destruct Hpub as [Hrole|[Hrole _]]; rewrite Hrole in Hok.
  - rewrite bool_decide_eq_false_2 by (by eapply rest_not_claimed). cbn [andb]. rewrite (set_index_same _ _ _ He).
    replace (set_catalog (catalog_ m) m) with m by by destruct m. eapply cache_inv_ext; [exact Hinv| |by intros s; cbn; rewrite Hs|by cbn|done].
    intros s. cbn. destruct (decide (s = mt_publication_slot record)) as [->|]; [done|]. symmetry. by apply Hr.
  - destruct (ce_state e) eqn:Hst; try done. destruct Hok as (Hid & Hh & Hn). rewrite bool_decide_eq_true_2, Hid, Hh by done. cbn [andb negb has Z.eqb].
    eapply cache_inv_ext; [apply (cache_inv_entry_update g m (mt_publication_slot record) e (set_entry_state CatVacant e) AtRest Hinv He)| |by intros s; cbn; rewrite Hs|by cbn|done].
    + done.
    + split; [|done]. cbn. rewrite Hst. by split.
    + intros ?. congruence.
    + intros _ Hses. by rewrite Hn in Hses.
    + intros s. cbn. destruct (decide (s = mt_publication_slot record)) as [->|]; [by rewrite fn_lookup_insert|rewrite fn_lookup_insert_ne by done]. symmetry. by apply Hr.
Qed.

Lemma checked_slots m record r : checked m record r -> slots_exist m record.
Proof.
  intros Hck. destruct (ck_private _ _ _ Hck) as (_ & _ & Hp). destruct (ck_shared _ _ _ Hck) as (_ & _ & Hs). split.
  - intros s. unfold taken_slots, source_slots, private_slots. rewrite elem_of_app. intros [Hin|(claim & -> & Hin)%list_elem_of_fmap].
    + destruct (mt_private_source record) as [c|] eqn:Hc; cbn in Hin; [|by apply not_elem_of_nil in Hin].
      apply list_elem_of_singleton in Hin as ->. destruct (ck_source _ _ _ Hck c Hc) as (x & e & _ & He & _). apply in_range_at. by exists e.
    + destruct (Hp claim Hin) as (x & e & _ & He & _). apply in_range_at. by exists e.
  - intros s (claim & -> & Hin)%list_elem_of_fmap. destruct (Hs claim Hin) as (x & e & _ & He & _). apply in_range_at. by exists e.
  - intros c Hc. destruct (ck_shared_source _ _ _ Hck c Hc) as (x & e & _ & He & _). apply in_range_at. by exists e.
  - destruct (ck_publication _ _ _ Hck) as (e & He & _). apply in_range_at. by exists e.
Qed.

Lemma free_active g m l a : cache_inv g m -> at_index (active_ m) l = Some a -> ac_occupied a = false -> a = empty_active.
Proof. intros Hinv [_ Ha]%at_index_Some Ho. by eapply (lo_occupied _ (ci_lanes _ _ Hinv)). Qed.

Lemma abort_materialization_ok m record r :
  cache_inv (record_ghost record) m -> hit_key_ok record -> checked m record r -> mr_status r = TxAborted ->
  exists m', (_ ← apply_materialization record r; _ ← restore_unreported_materialization record; put_lane (mt_destination record) LaneFree) m = (m', Ok tt) /\
    cache_inv no_ghost m' /\ mg_config m' = mg_config m /\ lanes_ m' = set_index (lanes_ m) (mt_destination record) LaneFree /\
    active_ m' = active_ m /\ transaction_ m' = transaction_ m.
Proof.
  intros Hinv Hkey Hck Hst. destruct (apply_materialization_ok m record r Hinv Hkey Hck) as (m1 & Hrun1 & Hinv1 & Hl1 & _).
  rewrite (run_seq _ _ _ _ Hrun1). assert (is_published r = false) as Hnp by (unfold is_published; by rewrite Hst).
  assert (forall s, s ∈ source_slots record -> consumed_source (mr_source r) = false) as Hnc.
  { intros s Hin. unfold source_slots in Hin. destruct (mt_private_source record) as [c|] eqn:Hc; [|by apply not_elem_of_nil in Hin].
    destruct (ck_source _ _ _ Hck c Hc) as (x & e & -> & _ & _ & _ & Hm & _). cbn. apply bool_decide_eq_false. intros Hx. destruct (Hm Hx). congruence. }
  destruct (run_restore (settled_ghost record r) m1 record Hinv1) as (m2 & Hrun2 & Hinv2 & Hl2).
  { eapply slots_exist_frame; [exact Hinv|exact Hinv1|done|by eapply checked_slots]. }
  { intros s Hne. cbn. repeat case_bool_decide; try done. by rewrite (Hnc s). }
  { cbn. rewrite (bool_decide_eq_true_2 (mt_publication_slot record = _)) by done. unfold taken_slots. rewrite elem_of_app.
    destruct (decide (mt_publication_slot record ∈ source_slots record)) as [Hin|]; [left; rewrite (bool_decide_eq_true_2 (_ ∈ source_slots _)) by done; by rewrite (Hnc _ Hin)|].
    rewrite (bool_decide_eq_false_2 (_ ∈ source_slots _)) by done. case_bool_decide; [by left|right]. split; [done|tauto]. }
  { done. } { done. }
  rewrite (run_seq _ _ _ _ Hrun2). destruct (lanes_frame_trans _ _ _ Hl1 Hl2) as [Hcf Hla Hac Htr].
  destruct (ck_lane _ _ _ Hck) as [Hlane Hlt]. destruct (ck_active _ _ _ Hck) as (a & Ha & Hocc). rewrite <- Hla in Hlane. rewrite <- Hac in Ha.
  rewrite (run_put_lane _ _ _ _ Hlane). eexists. split; [reflexivity|]. split_and!.
  - pose proof (cache_inv_lane _ m2 _ LaneMaterializing LaneFree a Hinv2 Hlane) as Hfin. unfold lane_count_ in *. rewrite Hcf in Hfin.
    specialize (Hfin Hlt Ha (fun _ => free_active _ _ _ _ Hinv2 Ha Hocc)).
    assert (LaneFree = LaneActive \/ LaneFree = LaneTerminalPending -> ac_occupied a = true) as Hb by by intros [|].
    specialize (Hfin Hb). apply cache_inv_forget in Hfin. eapply cache_inv_ext; [exact Hfin|done..].
  - done.
  - cbn. by rewrite Hla.
  - done.
  - done.
Qed.

(** ** The publication cell is free *)

Lemma victim_releases_ok slot victims claims : victim_releases slot victims claims = Ok true ->
  exists claim x, claim ∈ claims /\ claim_slot claim = slot /\ result_for vr_owner (cl_planning_id claim) victims = Ok x /\ vr_disposition x = VictimEvicted.
Proof.
  induction claims as [|claim claims IH]; cbn [victim_releases]; [done|]. fold (claim_slot claim). destruct (Z.eqb_spec (claim_slot claim) slot) as [Heq|]; cbn [negb].
  - intros (x & Hx & H)%bind_Ok. destruct (bool_decide (vr_disposition x = VictimEvicted) && vr_pressure_committed x) eqn:Hd.
    + apply andb_true_iff in Hd as [Hd%bool_decide_eq_true _]. exists claim, x. split_and!; try done. left.
    + destruct (IH H) as (c & y & Hc & Hrest). exists c, y. split; [by right|done].
  - intros H. destruct (IH H) as (c & y & Hc & Hrest). exists c, y. split; [by right|done].
Qed.

Lemma claim_slot_inj claims c1 c2 : NoDup (claim_slot <$> claims) -> c1 ∈ claims -> c2 ∈ claims -> claim_slot c1 = claim_slot c2 -> c1 = c2.
Proof.
  intros Hnd [i Hi]%list_elem_of_lookup [j Hj]%list_elem_of_lookup Heq.
  assert (i = j) as ->; [|congruence]. eapply (NoDup_lookup _ _ _ (claim_slot c1) Hnd); rewrite list_lookup_fmap.
  - by rewrite Hi.
  - by rewrite Hj, Heq.
Qed.

(** A cell that a new sequence may take. *)
Definition releasable (e : CatalogEntry) : Prop :=
  ce_handle e = None /\ ce_session e = None /\ (ce_state e = CatClaimed \/ ce_state e = CatVacant).

Lemma publication_ready g m record r m' :
  cache_inv g m -> checked m record r -> is_published r = true -> cache_inv (settled_ghost record r) m' -> lanes_frame m m' ->
  settled_publication record r m m' -> (forall s, s ∈ taken_slots record -> g_role g s = TakenResident) ->
  exists e, at_index (catalog_ m') (mt_publication_slot record) = Some e /\ releasable e.
Proof.
  intros Hinv Hck Hp Hinv' Hl Hset Htk. pose proof (ck_cell _ _ _ Hck Hp) as Hcell. unfold check_publication_cell in Hcell.
  pose proof (slots_exist_frame _ _ _ _ _ Hinv Hinv' Hl (checked_slots _ _ _ Hck)) as Hsl.
  destruct (proj1 (in_range_at _ _) (se_publication _ _ Hsl)) as [e He]. exists e. split; [done|].
  apply bind_Ok in Hcell as (e0 & He0%entry_at_Ok & Hcell). pose proof (ci_private _ _ Hinv' _ _ He) as Hok. unfold entry_ok in Hok. cbn [g_role settled_ghost] in Hok.
  destruct (ck_private _ _ _ Hck) as (Hnd & Hdis & _). destruct (ck_publication _ _ _ Hck) as (e1 & He1 & Hst1). assert (e1 = e0) as -> by congruence.
  assert (mt_publication_slot record ∈ taken_slots record -> negb (has (ce_handle e0)) && (ce_id e0 =? 0) = false) as Hres.
  { intros Hin. pose proof (ci_private _ _ Hinv _ _ He0) as Hok0. unfold entry_ok in Hok0. rewrite (Htk _ Hin), Hst1 in Hok0. by rewrite (re_handle _ _ Hok0). }
  unfold taken_slots in Hres. rewrite elem_of_app in Hres.
  destruct (decide (mt_publication_slot record ∈ source_slots record)) as [Hin|Hin].
  - rewrite Hres in Hcell by by left. rewrite (bool_decide_eq_true_2 (_ ∈ source_slots _)) in Hok by done.
    destruct (consumed_source (mr_source r)) eqn:Hc.
    + destruct (ce_state e) eqn:Hst; try done. destruct Hok. unfold releasable. rewrite Hst. auto.
    + rewrite andb_false_r in Hcell. cbn [orb] in Hcell. apply bind_Ok in Hcell as (b & Hb & Hn%throw_if_Ok). apply negb_false_iff in Hn as ->.
      apply victim_releases_ok in Hb as (claim & x & Hcl & Heq & _). exfalso. apply (Hdis (mt_publication_slot record)); [|done]. apply list_elem_of_fmap. by exists claim.
  - rewrite (bool_decide_eq_false_2 (_ ∈ source_slots _)) in Hok by done. case_bool_decide as Hpr.
    + rewrite Hres in Hcell by by right. assert (same_slot (mt_publication_slot record) (mt_private_source record) = false) as Hss.
      { unfold same_slot, source_slots in *. destruct (mt_private_source record) as [c|]; [|done]. apply Z.eqb_neq. intros Heq. apply Hin. cbn. by apply list_elem_of_singleton. }
      rewrite Hss in Hcell. cbn [orb andb] in Hcell. apply bind_Ok in Hcell as (b & Hb & Hn%throw_if_Ok). apply negb_false_iff in Hn as ->.
      apply victim_releases_ok in Hb as (claim & x & Hcl & Heq & Hx & Hd). destruct (Hset Hpr) as (claim' & x' & e2 & e2' & Hcl' & Heq' & Hx' & _ & _ & He').
      assert (claim' = claim) as -> by (eapply claim_slot_inj; [exact Hnd|done|done|congruence]). assert (x' = x) as -> by congruence.
      assert (e = acted x e2') as -> by congruence. unfold acted. rewrite Hd. unfold releasable. cbn. auto.
    + rewrite bool_decide_eq_true_2 in Hok by done. destruct (ce_state e) eqn:Hst; try done. destruct Hok as (_ & ? & ?). unfold releasable. rewrite Hst. auto.
Qed.

(** ** The new sequence *)

(** The cell and the lane go to the new sequence. *)
Lemma cache_inv_activate g m pub e e' dest a a' :
  cache_inv g m -> at_index (catalog_ m) pub = Some e -> releasable e -> (forall s, s <> pub -> g_role g s = AtRest) ->
  ce_state e' = CatReservedForActive -> ce_id e' <> 0 -> ce_handle e' = None ->
  at_index (lanes_ m) dest = Some LaneMaterializing -> at_index (active_ m) dest = Some a -> ac_occupied a = false ->
  ac_occupied a' = true -> ac_publication_slot a' = pub -> ac_continuation_id a' = ce_id e' -> g_order g = Some (ac_publication_order a') ->
  edges_ok (set_index (catalog_ m) pub e') (shared_catalog_ m) a' ->
  cache_inv (mkGhost (fun _ => AtRest) (g_shared_role g) (g_pinned g) None) (set_active (set_index (active_ m) dest a') (set_catalog (set_index (catalog_ m) pub e') m)).
Proof.
  intros [Hsz Hp Hs Hl Hpub Hown Hsl Hed Hst Hb Hco Hlo Hno] He (Hh & Hn & Hstate) Hrest Hst' Hid' Hh' Hlane Ha Hocc Hocc' Hpub' Hcid Hord Hedges.
  pose proof (at_index_lt _ _ _ He) as Hlt. apply at_index_Some in Hlane as [Hd0 Hlane]. apply at_index_Some in Ha as [_ Ha].
  destruct (Hno _ Hord) as [Hfresh1 Hfresh2].
  assert (forall k b, occupied_lane (set_index (active_ m) dest a') k b -> (k = Z.to_nat dest /\ b = a') \/ (k <> Z.to_nat dest /\ occupied_lane (active_ m) k b)) as Hocl.
  { intros k b [Hk Hb']. unfold set_index in Hk. apply list_lookup_insert_Some in Hk as [(<- & <- & _)|[Hne Hk]]; [by left|by right]. }
  assert (occupied_lane (set_index (active_ m) dest a') (Z.to_nat dest) a') as Hnew.
  { split; [|done]. unfold set_index. apply list_lookup_insert_eq. by eapply lookup_lt_Some. }
  assert (forall k b, occupied_lane (active_ m) k b -> occupied_lane (set_index (active_ m) dest a') k b /\ k <> Z.to_nat dest) as Hold.
  { intros k b [Hk Hb']. assert (k <> Z.to_nat dest) as Hne by (intros ->; congruence). split; [|done]. split; [|done].
    unfold set_index. by rewrite list_lookup_insert_ne by done. }
  assert (forall k b, occupied_lane (active_ m) k b -> ac_publication_slot b <> pub) as Hother.
  { intros k b Hk Heq. destruct (Hpub k b Hk) as (x & Hx & Hxs & _). rewrite Heq, He in Hx. injection Hx as <-. destruct Hstate; congruence. }
  split; cbn [catalog_ set_catalog set_active session_index_ active_ shared_catalog_ lanes_ g_role g_shared_role g_order g_pinned]; try done.
  - destruct Hsz. split; try done; cbn; rewrite ?length_set_index; done.
  - intros s x Hx. destruct (at_set_index_Some _ _ _ _ _ _ He Hx) as [[-> ->]|[Hne Hx']].
    + unfold entry_ok. rewrite Hst'. done.
    + specialize (Hp _ _ Hx'). by rewrite Hrest in Hp.
  - destruct Hl as [L1 L2 L3 L4]. unfold set_index. split; cbn; try done.
    + intros k b Hk Hb'. apply list_lookup_insert_Some in Hk as [(<- & <- & _)|[_ Hk]]; [congruence|by eapply L1].
    + intros k b Hk Hf. apply list_lookup_insert_Some in Hk as [(<- & <- & _)|[_ Hk]]; [congruence|by eapply L2].
    + intros k b x Hk Hx Hbusy. apply list_lookup_insert_Some in Hk as [(<- & <- & _)|[_ Hk]]; [done|by eapply L3].
  - intros k b [[-> ->]|[_ Hk]]%Hocl.
    + exists e'. rewrite Hpub', at_set_index_eq by done. by rewrite Hcid.
    + destruct (Hpub k b Hk) as (x & Hx & Hrest'). exists x. rewrite at_set_index_ne; [done|lia|]. intros Heq. by apply (Hother k b Hk).
  - intros s x Hx Hxs. destruct (at_set_index_Some _ _ _ _ _ _ He Hx) as [[-> ->]|[Hne Hx']]; [by eexists _, a'|].
    destruct (Hown s x Hx' Hxs) as (k & b & Hk & Heq). exists k, b. split; [by apply Hold|done].
  - intros k1 b1 k2 b2 [[-> ->]|[_ H1]]%Hocl [[-> ->]|[_ H2]]%Hocl Heq; [done| | |by eapply Hsl].
    + exfalso. apply (Hother k2 b2); [done|congruence].
    + exfalso. apply (Hother k1 b1); [done|congruence].
  - intros k b [[-> ->]|[_ Hk]]%Hocl; [done|]. destruct (Hed k b Hk) as [E1 E2 E3]. split; try done. intros edge Hedge.
    destruct (E1 edge Hedge) as (Hkind & x & Hx & Hxs & Hxi). split; [done|]. exists x. rewrite at_set_index_ne; [done|lia|].
    intros Heq. rewrite Heq, Hx in He. injection He as ->. destruct Hstate; congruence.
  - intros c x Hx. destruct (Hb c x Hx) as (y & Hy & Hrest'). exists y. rewrite at_set_index_ne; [done|lia|].
    intros Heq. rewrite Heq, Hy in He. injection He as ->. destruct Hrest' as (_ & _ & _ & Hses). congruence.
  - intros c x k b Hx [[-> ->]|[_ Hk]]%Hocl; [by apply (Hfresh1 c)|by eapply Hco].
  - intros k1 b1 k2 b2 [[-> ->]|[_ H1]]%Hocl [[-> ->]|[_ H2]]%Hocl Heq; [done| | |by eapply Hlo].
    + exfalso. by apply (Hfresh2 k2 b2).
    + exfalso. by apply (Hfresh2 k1 b1).
Qed.

Lemma take_continuation_id_ok m : exists id next, take_continuation_id m = (set_counters next (next_shared_prefix_id_ m) (retention_epoch_ m) m, Ok id) /\ id <> 0.
Proof.
  unfold take_continuation_id. unfold_M. destruct (Z.eqb_spec (next_continuation_id_ m) 0) as [->|Hne].
  - eexists _, _. split; [reflexivity|done].
  - eexists _, _. split; [reflexivity|done].
Qed.
Lemma take_shared_prefix_id_ok m : exists id next, take_shared_prefix_id m = (set_counters (next_continuation_id_ m) next (retention_epoch_ m) m, Ok id) /\ id <> 0.
Proof.
  unfold take_shared_prefix_id. unfold_M. destruct (Z.eqb_spec (next_shared_prefix_id_ m) 0) as [->|Hne].
  - eexists _, _. split; [reflexivity|done].
  - eexists _, _. split; [reflexivity|done].
Qed.

Lemma settle_credit_fields d epoch e : exists credit expiry, settle_credit d epoch e = set_shared_credit credit expiry e.
Proof.
  unfold settle_credit. repeat case_match; try by eexists _, _. all: exists (se_explicit_credit e), (se_credit_expiry_epoch e); by destruct e.
Qed.

Lemma shared_entry_ok_credit role pinned credit expiry e :
  shared_entry_ok role pinned e -> shared_entry_ok role pinned (set_shared_credit credit expiry e).
Proof.
  intros [Hp Hok]. split; [done|]. cbn [se_state set_shared_credit].
  assert (shared_resident e -> shared_resident (set_shared_credit credit expiry e)) as Hres by (intros []; by split).
  destruct (se_state e), role; try done; [by apply Hres|destruct Hok as [Hok ?]; split; [by apply Hres|done]..].
Qed.

Lemma at_index_fmap {A B} (f : A -> B) l s : at_index (f <$> l) s = f <$> at_index l s.
Proof. unfold at_index. case_decide; [|done]. apply list_lookup_fmap. Qed.

Lemma cache_inv_commit_demand g m d : cache_inv g m -> exists m', commit_demand d m = (m', Ok tt) /\ cache_inv g m' /\ lanes_frame m m'.
Proof.
  intros Hinv. unfold commit_demand, mmodify. eexists. split; [reflexivity|]. split; [|done].
  set (epoch := saturating_increment (demand_epoch_ m)).
  assert (cache_inv g (set_demand (retained_window m ++ [d]) epoch m)) as Hinv1.
  { apply (cache_inv_irrelevant g m); try done. cbn. rewrite length_app. cbn. unfold retained_window. pose proof (so_window _ (ci_sizes _ _ Hinv)).
    destruct (Z.eqb_spec (Z.of_nat (length (demand_window_ m))) kDemandWindowCapacity) as [Heq|]; [|unfold kDemandWindowCapacity in *; lia].
    destruct (demand_window_ m); cbn in *; unfold kDemandWindowCapacity in *; lia. }
  set (m1 := set_demand _ _ _) in *. change (shared_catalog_ m) with (shared_catalog_ m1).
  destruct Hinv1 as [Hsz Hp Hs Hl Hpub Hown Hsl Hed Hst Hb Hco Hlo Hno].
  split; cbn [shared_catalog_ set_shared catalog_ active_ lanes_ session_index_]; try done.
  - destruct Hsz. split; try done; cbn; rewrite ?length_fmap; done.
  - intros s e. rewrite at_index_fmap. intros (e0 & He & ->)%fmap_Some. destruct (settle_credit_fields d epoch e0) as (c & x & ->).
    by apply shared_entry_ok_credit, Hs.
  - destruct Hl. by split.
  - intros l a Ha. destruct (Hed l a Ha) as [E1 E2 E3]. split; try done. intros edge Hedge. destruct (E3 edge Hedge) as (Hk & e & He & Hes & Hei).
    split; [done|]. destruct (settle_credit_fields d epoch e) as (c & x & Heq). exists (settle_credit d epoch e). split_and!; [by rewrite at_index_fmap, He|by rewrite Heq|by rewrite Heq].
Qed.

(** The planner consumes a source only into its own cell. *)
Definition consumes_in_place (record : MaterializationRecord) : Prop :=
  mt_source_mode record = ConsumeToActive -> forall c, mt_private_source record = Some c -> mt_publication_slot record = cc_slot c.

Lemma settled_roles m record r :
  checked m record r -> consumes_in_place record -> forall s, s <> mt_publication_slot record -> g_role (settled_ghost record r) s = AtRest.
Proof.
  intros Hck Hplace s Hne. cbn. rewrite (bool_decide_eq_false_2 (s = _)) by done. case_bool_decide as Hin; [|by case_bool_decide].
  unfold source_slots in Hin. destruct (mt_private_source record) as [c|] eqn:Hc; [|by apply not_elem_of_nil in Hin]. cbn in Hin. apply list_elem_of_singleton in Hin as ->.
  destruct (ck_source _ _ _ Hck c Hc) as (x & e & -> & _ & _ & _ & Hm & _). cbn. case_bool_decide as Hx; [|done].
  destruct (Hm Hx) as [_ Hmode]. by destruct Hne; symmetry; apply Hplace.
Qed.

(** The edges of the new sequence. *)
Definition private_edge (record : MaterializationRecord) (r : MaterializationResult) (m : Manager) : option ActiveOwnerEdge :=
  match mt_private_source record with
  | Some c => if retained_source (mr_source r) then (fun e => mkEdge (mkOwner PrivateContinuation (ce_id e)) (cc_slot c)) <$> at_index (catalog_ m) (cc_slot c) else None
  | None => None
  end.
Definition shared_edges (record : MaterializationRecord) (m : Manager) : list ActiveOwnerEdge :=
  match mt_shared_source record with
  | Some c => match at_index (shared_catalog_ m) (cc_slot c) with Some e => [mkEdge (mkOwner SharedPrefix (se_id e)) (cc_slot c)] | None => [] end
  | None => []
  end.

Lemma new_edges_ok record r m pub e e' :
  sources_settled record r m -> at_index (catalog_ m) pub = Some e -> releasable e -> forall a,
  ac_retained_private_source a = private_edge record r m -> ac_shared_sources a = shared_edges record m ->
  edges_ok (set_index (catalog_ m) pub e') (shared_catalog_ m) a.
Proof.
  intros [Hp Hs] He (_ & _ & Hrel) a Ha Hsa. split.
  - intros edge. rewrite Ha. unfold private_edge. destruct (mt_private_source record) as [c|] eqn:Hc; [|done].
    destruct (mr_source r) as [x|] eqn:Hx; cbn [retained_source]; [|done]. case_bool_decide as Hm; [|done].
    destruct (Hp c x eq_refl eq_refl Hm) as (e0 & He0 & Hst). rewrite He0. cbn. intros [= <-]. split; [done|]. exists e0. cbn.
    rewrite at_set_index_ne; [done|apply at_index_lt in He; lia|]. intros ->. assert (e0 = e) as -> by congruence. destruct Hrel; congruence.
  - rewrite Hsa. unfold shared_edges. destruct (mt_shared_source record) as [c|]; [|constructor]. destruct (at_index _ (cc_slot c)); cbn; [apply NoDup_singleton|constructor].
  - intros edge. rewrite Hsa. unfold shared_edges. destruct (mt_shared_source record) as [c|] eqn:Hc; [|by intros ?%not_elem_of_nil].
    destruct (Hs c eq_refl) as (e0 & He0 & Hst). rewrite He0. intros ->%list_elem_of_singleton. split; [done|]. by exists e0.
Qed.

Definition published_lane (record : MaterializationRecord) (r : MaterializationResult) (id : Z) (m : Manager) : ActiveEntry :=
  mkActive true (mt_publication_slot record) id (mt_session record) (mt_retention record) (mt_update_session_index record)
    (mt_publication_order record) (private_edge record r m) (shared_edges record m).

Lemma publish_activation_ok m record r e :
  cache_inv (settled_ghost record r) m -> sources_settled record r m -> at_index (catalog_ m) (mt_publication_slot record) = Some e -> releasable e ->
  (forall s, s <> mt_publication_slot record -> g_role (settled_ghost record r) s = AtRest) ->
  (forall c, mt_private_source record = Some c -> exists x, mr_source r = Some x) ->
  at_index (lanes_ m) (mt_destination record) = Some LaneMaterializing ->
  at_index (active_ m) (mt_destination record) = Some empty_active ->
  exists m' a, publish_activation record r m = (m', Ok tt) /\ cache_inv no_ghost m' /\ mg_config m' = mg_config m /\ lanes_ m' = lanes_ m /\
    transaction_ m' = transaction_ m /\ active_ m' = set_index (active_ m) (mt_destination record) a /\ ac_occupied a = true.
Proof.
  intros Hinv Hset He Hrel Hroles Hsrc Hlane Ha. destruct (take_continuation_id_ok m) as (id & next & Hid & Hne).
  set (m1 := set_counters next (next_shared_prefix_id_ m) (retention_epoch_ m) m) in *.
  set (e' := mkEntry CatReservedForActive id (advance_revision (ce_revision e)) (ce_summary e) (ce_handle e) (mt_session record) (ce_observations e) (mt_retention record)).
  set (m2 := set_catalog (set_index (catalog_ m) (mt_publication_slot record) e') m1). set (a := published_lane record r id m).
  pose proof (cache_inv_activate (settled_ghost record r) m1 (mt_publication_slot record) e e' (mt_destination record) empty_active a) as Hact.
  specialize (Hact (cache_inv_counters _ _ _ _ _ Hinv) He Hrel Hroles eq_refl Hne (proj1 Hrel) Hlane Ha eq_refl eq_refl eq_refl eq_refl eq_refl).
  specialize (Hact (new_edges_ok record r m _ e e' Hset He Hrel a eq_refl eq_refl)).
  destruct (cache_inv_commit_demand _ _ (mt_demand record) Hact) as (m4 & Hrun4 & Hinv4 & Hl4). exists m4, a. split_and!.
  - unfold publish_activation. cbv beta delta [mbind M_bind]. rewrite Hid. cbv beta iota. rewrite (run_modify_entry _ _ _ _ (He : at_index (catalog_ m1) _ = Some e)).
    cbv beta iota. fold e'. change (set_catalog _ m1) with m2. unfold view.
    assert (match mt_private_source record with
            | Some c => if retained_source (mr_source r) then c ← private_capability m2 (cc_slot c); Ok (Some (active_edge c)) else Ok None
            | None => Ok None
            end = Ok (private_edge record r m)) as Hpe.
    { unfold private_edge. destruct (mt_private_source record) as [c|] eqn:Hc; [|done]. destruct (mr_source r) as [x|] eqn:Hx; cbn [retained_source]; [|done].
      case_bool_decide as Hm; [|done]. destruct (ss_private _ _ _ Hset c x Hc Hx Hm) as (e0 & He0 & Hst). rewrite He0. unfold private_capability, checked_entry.
      cbn [catalog_ m2 set_catalog]. rewrite at_set_index_ne; [by rewrite He0|apply at_index_lt in He; lia|].
      intros Heq. rewrite Heq, He0 in He. injection He as ->. destruct Hrel as (_ & _ & [?|?]); congruence. }
    assert (match mt_shared_source record with
            | Some c => c ← shared_capability m2 (cc_slot c); Ok [active_edge c]
            | None => Ok []
            end = Ok (shared_edges record m)) as Hse.
    { unfold shared_edges. destruct (mt_shared_source record) as [c|] eqn:Hc; [|done]. destruct (ss_shared _ _ _ Hset c Hc) as (e0 & He0 & _). rewrite He0.
      unfold shared_capability, checked_shared. change (shared_catalog_ m2) with (shared_catalog_ m). by rewrite He0. }
    unfold mbind, result_bind in Hpe, Hse. unfold mbind, result_bind. rewrite Hpe. cbv beta iota. rewrite Hse. cbv beta iota.
    erewrite run_modify_active by exact Ha.
    assert (match private_edge record r m with Some edge => Some edge | None => ac_retained_private_source empty_active end = private_edge record r m) as ->
      by by destruct (private_edge record r m).
    exact Hrun4.
  - eapply cache_inv_ext; [exact Hinv4|done..].
  - by rewrite (lf_config _ _ Hl4).
  - by rewrite (lf_lanes _ _ Hl4).
  - by rewrite (lf_transaction _ _ Hl4).
  - by rewrite (lf_active _ _ Hl4).
  - done.
Qed.

Lemma publish_materialization_ok m record r :
  cache_inv (record_ghost record) m -> hit_key_ok record -> checked m record r -> is_published r = true -> consumes_in_place record ->
  exists m' a, (_ ← apply_materialization record r; publish_activation record r) m = (m', Ok tt) /\ cache_inv no_ghost m' /\
    mg_config m' = mg_config m /\ lanes_ m' = lanes_ m /\ transaction_ m' = transaction_ m /\
    active_ m' = set_index (active_ m) (mt_destination record) a /\ ac_occupied a = true.
Proof.
  intros Hinv Hkey Hck Hp Hplace. destruct (apply_materialization_ok m record r Hinv Hkey Hck) as (m1 & Hrun1 & Hinv1 & Hl1 & Hpub1 & Hsrc1).
  rewrite (run_seq _ _ _ _ Hrun1).
  destruct (publication_ready _ m record r m1 Hinv Hck Hp Hinv1 Hl1 Hpub1) as (e & He & Hrel).
  { intros s Hin. cbn. by rewrite bool_decide_eq_true_2. }
  destruct (ck_lane _ _ _ Hck) as [Hlane _]. destruct (ck_active _ _ _ Hck) as (a0 & Ha0 & Hocc).
  pose proof (free_active _ _ _ _ Hinv Ha0 Hocc) as ->. rewrite <- (lf_lanes _ _ Hl1) in Hlane. rewrite <- (lf_active _ _ Hl1) in Ha0.
  destruct (publish_activation_ok m1 record r e Hinv1 Hsrc1 He Hrel (settled_roles _ _ _ Hck Hplace)) as (m' & a & Hrun & Hinv' & Hc & Hla & Ht & Hac & Hoc); try done.
  { intros c Hc. destruct (ck_source _ _ _ Hck c Hc) as (x & _ & Hx & _). by exists x. }
  exists m', a. destruct Hl1 as [L1 L2 L3 L4]. split_and!; congruence.
Qed.
