(* ===== verification/ContextCapture.v ===== *)
(** * Context cache: captures

    A capture claims its victims and a shared slot to publish in, empty or to be replaced; adopting its
    result puts the slots to rest, and a published prefix gets an edge from the capturing lane. *)

From stdpp Require Import functions.
From S2P Require Import Prelude ContextTypes SessionIndex ContextCatalog ContextManager ContextInvariant ContextActions ContextReserve ContextAdopt ContextPublish.
Open Scope Z_scope.

(** ** The reservation *)

Definition cap_private_slots (r : ActiveCaptureRecord) : list Z := claim_slot <$> cap_private_claims r.
Definition cap_shared_slots (r : ActiveCaptureRecord) : list Z := claim_slot <$> cap_shared_claims r.
Definition capture_role (r : ActiveCaptureRecord) : SharedRole := if cap_replacement_id r =? 0 then CaptureVacant else CaptureReplaced.

Definition capture_ghost (r : ActiveCaptureRecord) : Ghost :=
  mkGhost (fun s => if bool_decide (s ∈ cap_private_slots r) then TakenResident else AtRest)
    (fun s => if bool_decide (s ∈ cap_shared_slots r) then SharedTaken
              else if cap_publishes_shared r && bool_decide (s = cap_publication_slot r) then capture_role r else SharedAtRest)
    None None.

Record capture_valid (m : Manager) (r : ActiveCaptureRecord) : Prop := {
  pv_private : forall s, s ∈ cap_private_slots r -> exists e, at_index (catalog_ m) s = Some e /\ ce_state e = CatCatalogued /\ private_has_active_edge m s = false;
  pv_shared : forall s, s ∈ cap_shared_slots r -> s <> cap_publication_slot r /\
    exists e, at_index (shared_catalog_ m) s = Some e /\ se_state e = ShCatalogued /\ shared_active_edge_count m s = 0;
  pv_publication : cap_publishes_shared r = true -> exists e, at_index (shared_catalog_ m) (cap_publication_slot r) = Some e /\
    shared_active_edge_count m (cap_publication_slot r) = 0 /\ se_state e = (if cap_replacement_id r =? 0 then ShVacant else ShCatalogued);
}.

(** The state in which the capture's slots are reserved. *)
Definition capture_reserved (r : ActiveCaptureRecord) (m : Manager) : Manager :=
  set_shared (mark_shared ShReservedCapture [cap_publication_slot r] (mark_shared ShClaimed (cap_shared_slots r) (shared_catalog_ m)))
    (set_catalog (mark_entries CatClaimed (cap_private_slots r) (catalog_ m)) m).

Lemma cap_private_in_range m r : capture_valid m r -> Forall (fun claim => in_range (catalog_ m) (claim_slot claim)) (cap_private_claims r).
Proof. intros Hv. apply Forall_claims. intros s Hs. destruct (pv_private _ _ Hv s Hs) as (e & He & _). apply in_range_at. by exists e. Qed.
Lemma cap_shared_in_range m r : capture_valid m r -> Forall (fun claim => in_range (shared_catalog_ m) (claim_slot claim)) (cap_shared_claims r).
Proof. intros Hv. apply Forall_claims. intros s Hs. destruct (pv_shared _ _ Hv s Hs) as (_ & e & He & _). apply in_range_at. by exists e. Qed.

Lemma run_reserve_capture m r :
  capture_valid m r -> cap_publishes_shared r = true -> reserve_logical_active_capture r m = (capture_reserved r m, Ok tt).
Proof.
  intros Hv Hs. unfold reserve_logical_active_capture. unfold_M. rewrite run_set_claims_state by by apply cap_private_in_range.
  rewrite run_set_shared_claims_state by exact (cap_shared_in_range m r Hv). fold (cap_private_slots r). fold (cap_shared_slots r).
  destruct (pv_publication _ _ Hv Hs) as (e & He & _).
  destruct (proj1 (in_range_at (mark_shared ShClaimed (cap_shared_slots r) (shared_catalog_ m)) (cap_publication_slot r))) as [e1 He1].
  { unfold in_range. rewrite length_mark_shared. by eapply at_index_lt. }
  erewrite run_modify_shared by exact He1. cbn [shared_catalog_ set_shared set_catalog]. by rewrite (mark_shared_one _ _ _ _ He1).
Qed.

Lemma capture_reserved_inv m r :
  cache_inv no_ghost m -> capture_valid m r -> cap_publishes_shared r = true -> cache_inv (capture_ghost r) (capture_reserved r m).
Proof.
  intros Hinv Hv Hsh. pose proof (ci_sizes _ _ Hinv) as Hsz. pose proof (ci_lanes _ _ Hinv) as Hlo.
  assert (cache_inv (mark_shared_roles SharedTaken (cap_shared_slots r) (mark_roles TakenResident (cap_private_slots r) no_ghost))
    (set_shared (mark_shared ShClaimed (cap_shared_slots r) (shared_catalog_ m)) (set_catalog (mark_entries CatClaimed (cap_private_slots r) (catalog_ m)) m))) as H1.
  { apply cache_inv_claims; try done.
    - intros s Hs. destruct (pv_private _ _ Hv s Hs) as (e & He & Hst & Hn). exists e. split_and!; [done|done|by apply (no_private_edge_spec m)].
    - intros s Hs. destruct (pv_shared _ _ Hv s Hs) as (_ & e & He & Hst & Hn). split; [done|]. exists e. split_and!; [done|done|by apply (no_shared_edge_spec no_ghost m)]. }
  destruct (pv_publication _ _ Hv Hsh) as (e & He & Hn & Hst).
  assert (cap_publication_slot r ∉ cap_shared_slots r) as Hnin by (intros Hin; by destruct (pv_shared _ _ Hv _ Hin)).
  apply (cache_inv_mark_shared _ _ ShReservedCapture [cap_publication_slot r] (capture_role r)) in H1.
  - eapply cache_inv_ext; [exact H1|done| |done|done]. intros s. cbn. rewrite Hsh. cbn [andb].
    destruct (decide (s = cap_publication_slot r)) as [->|Hne].
    + rewrite (bool_decide_eq_false_2 (_ ∈ cap_shared_slots r)) by done. rewrite (bool_decide_eq_true_2 (_ = _)) by done. by rewrite bool_decide_eq_true_2 by left.
    + rewrite (bool_decide_eq_false_2 (_ = _)) by done. rewrite (bool_decide_eq_false_2 (s ∈ [_])) by by rewrite list_elem_of_singleton. done.
  - intros s x ->%list_elem_of_singleton Hx. cbn in Hx. rewrite at_mark_shared, He in Hx. cbn in Hx. rewrite bool_decide_eq_false_2 in Hx by done. injection Hx as <-.
    split; [|intros _; right; exact (no_shared_edge_spec no_ghost m _ Hinv Hn)].
    destruct (ci_shared _ _ Hinv _ _ He) as [Hp Hok]. cbn in Hok. split; [done|]. cbn. unfold capture_role.
    rewrite Hst in Hok. destruct (cap_replacement_id r =? 0); cbn in Hok; split; try done; by destruct Hok.
Qed.

(** Undoing the reservation gives the manager back. *)
Lemma run_rollback_capture m r :
  capture_valid m r -> cap_publishes_shared r = true -> rollback_logical_active_capture r (capture_reserved r m) = (m, Ok tt).
Proof.
  intros Hv Hsh. destruct (pv_publication _ _ Hv Hsh) as (e & He & _ & Hst). pose proof (at_index_lt _ _ _ He) as Hlt.
  assert (cap_publication_slot r ∉ cap_shared_slots r) as Hnin by (intros Hin; by destruct (pv_shared _ _ Hv _ Hin)).
  unfold rollback_logical_active_capture. unfold_M. rewrite run_set_claims_state.
  2: { eapply Forall_impl; [by apply cap_private_in_range|]. intros c. unfold in_range, capture_reserved. cbn. by rewrite length_mark_entries. }
  rewrite run_set_shared_claims_state.
  2: { eapply Forall_impl; [by apply cap_shared_in_range|]. intros c. unfold in_range, capture_reserved. cbn. by rewrite !length_mark_shared. }
  fold (cap_private_slots r). fold (cap_shared_slots r). unfold capture_reserved. cbn [catalog_ shared_catalog_ set_catalog set_shared].
  erewrite run_modify_shared by (cbn; rewrite !at_mark_shared, He; reflexivity). cbn [catalog_ shared_catalog_ set_catalog set_shared].
  assert (mark_entries CatCatalogued (cap_private_slots r) (mark_entries CatClaimed (cap_private_slots r) (catalog_ m)) = catalog_ m) as ->.
  { apply at_index_ext. intros s. rewrite !at_mark_entries. destruct (at_index (catalog_ m) s) as [x|] eqn:Hx; [|done]. cbn. f_equal.
    case_bool_decide as Hin; [|done]. destruct (pv_private _ _ Hv s Hin) as (y & Hy & Hsty & _). assert (y = x) as -> by congruence. rewrite <- Hsty. by destruct x. }
  match goal with |- (set_shared ?c _, _) = _ => assert (c = shared_catalog_ m) as -> end; [|by destruct m].
  apply at_index_ext. intros s. destruct (decide (s = cap_publication_slot r)) as [->|Hne].
  - rewrite at_set_index_eq by (rewrite !length_mark_shared; lia). rewrite He. f_equal. rewrite (bool_decide_eq_true_2 (_ ∈ [_])) by left.
    rewrite !bool_decide_eq_false_2 by done. rewrite <- Hst. by destruct e.
  - rewrite at_set_index_ne by lia. rewrite !at_mark_shared. destruct (at_index (shared_catalog_ m) s) as [x|] eqn:Hx; [|done]. cbn. f_equal.
    rewrite (bool_decide_eq_false_2 (s ∈ [_])) by by rewrite list_elem_of_singleton.
    case_bool_decide as Hin; [|done]. destruct (pv_shared _ _ Hv s Hin) as (_ & y & Hy & Hsty & _). assert (y = x) as -> by congruence. rewrite <- Hsty. by destruct x.
Qed.

(** A capture of the private checkpoint only takes no slot. *)
Lemma private_capture_inv m lane : cache_inv no_ghost m -> cache_inv (capture_ghost (private_capture lane)) m.
Proof.
  intros Hinv. eapply cache_inv_ext; [exact Hinv|..]; [| |done|done]; intros s; cbn; by rewrite bool_decide_eq_false_2 by apply not_elem_of_nil.
Qed.

(** ** A lane in use changes its edges *)

Definition same_owner (a a' : ActiveEntry) : Prop :=
  ac_occupied a' = ac_occupied a /\ ac_publication_slot a' = ac_publication_slot a /\ ac_continuation_id a' = ac_continuation_id a /\
  ac_publication_order a' = ac_publication_order a.

Lemma cache_inv_active g m l a a' :
  cache_inv g m -> at_index (active_ m) l = Some a -> ac_occupied a = true -> same_owner a a' -> edges_ok (catalog_ m) (shared_catalog_ m) a' ->
  cache_inv g (set_active (set_index (active_ m) l a') m).
Proof.
  intros [Hsz Hp Hs Hl Hpub Hown Hsl Hed Hst Hb Hco Hlo Hno] Ha Hocc (Ho & Hps & Hci & Hor) Hedges. apply at_index_Some in Ha as [Hl0 Ha].
  assert (forall k b, occupied_lane (set_index (active_ m) l a') k b ->
    exists b0, occupied_lane (active_ m) k b0 /\ same_owner b0 b /\ edges_ok (catalog_ m) (shared_catalog_ m) b) as Hback.
  { intros k b [Hk Hbo]. unfold set_index in Hk. apply list_lookup_insert_Some in Hk as [(<- & <- & _)|[Hne Hk]].
    - exists a. split; [by split|]. by split; [|done].
    - exists b. split; [done|]. split; [done|]. by apply (Hed k). }
  assert (forall k b, occupied_lane (active_ m) k b -> exists b', occupied_lane (set_index (active_ m) l a') k b' /\ ac_publication_slot b' = ac_publication_slot b) as Hforth.
  { intros k b [Hk Hbo]. destruct (decide (k = Z.to_nat l)) as [->|Hne].
    - assert (b = a) as -> by congruence. exists a'. split; [|done]. split; [|congruence]. unfold set_index. apply list_lookup_insert_eq. by eapply lookup_lt_Some.
    - exists b. split; [|done]. split; [|done]. unfold set_index. by rewrite list_lookup_insert_ne. }
  split; cbn [catalog_ set_active session_index_ active_ shared_catalog_ lanes_]; try done.
  - destruct Hsz. split; try done; cbn; rewrite ?length_set_index; done.
  - destruct Hl as [L1 L2 L3 L4]. unfold set_index. split; cbn; try done.
    + intros k b Hk Hbo. apply list_lookup_insert_Some in Hk as [(<- & <- & _)|[_ Hk]]; [congruence|by eapply L1].
    + intros k b Hk Hf. apply list_lookup_insert_Some in Hk as [(<- & <- & _)|[_ Hk]]; [|by eapply L2]. rewrite (L2 _ _ Ha Hf) in Hocc. done.
    + intros k b x Hk Hx Hbusy. apply list_lookup_insert_Some in Hk as [(<- & <- & _)|[_ Hk]]; [congruence|by eapply L3].
  - intros k b (b0 & Hk & (_ & E1 & E2 & _) & _)%Hback. destruct (Hpub k b0 Hk) as (x & Hx & Hrest). exists x. by rewrite E1, E2.
  - intros s x Hx Hxs. destruct (Hown s x Hx Hxs) as (k & b & Hk & Heq). destruct (Hforth k b Hk) as (b' & Hb' & E). exists k, b'. split; [done|congruence].
  - intros k1 b1 k2 b2 (c1 & H1 & (_ & E1 & _) & _)%Hback (c2 & H2 & (_ & E2 & _) & _)%Hback Heq. eapply Hsl; [exact H1|exact H2|congruence].
  - intros k b (b0 & _ & _ & He)%Hback. done.
  - intros c x k b Hx (b0 & Hk & (_ & _ & _ & E) & _)%Hback. rewrite E. by eapply Hco.
  - intros k1 b1 k2 b2 (c1 & H1 & (_ & _ & _ & E1) & _)%Hback (c2 & H2 & (_ & _ & _ & E2) & _)%Hback Heq. eapply Hlo; [exact H1|exact H2|congruence].
  - intros o Ho'. destruct (Hno o Ho') as [N1 N2]. split; [done|]. intros k b (b0 & Hk & (_ & _ & _ & E) & _)%Hback. rewrite E. by eapply N2.
Qed.

(** ** The checks *)

Definition cap_published (r : ActiveCaptureResult) : bool := bool_decide (ar_status r = TxPublished).

(** What the outcome needs once the victims are at rest. *)
Record capture_ready (m : Manager) (record : ActiveCaptureRecord) (r : ActiveCaptureResult) : Prop := {
  kc_lane : exists a, at_index (active_ m) (cap_lane record) = Some a /\ ac_occupied a = true;
  kc_publication : if cap_publishes_shared record then in_range (shared_catalog_ m) (cap_publication_slot record)
    else cap_publication_slot record = kInvalidCatalogSlot;
  kc_summary : cap_published r = true -> cap_publishes_private record = true -> summary_ok (max_long_anchors_ m) (ar_active_summary r);
  kc_shared : cap_published r = true -> cap_publishes_shared record = true ->
    exists s, ar_shared r = Some s /\ valid_shared_prefix_summary (sp_summary s) = true;
}.

Record capture_checked (m : Manager) (record : ActiveCaptureRecord) (r : ActiveCaptureResult) : Prop := {
  kc_status : ar_status r <> TxInProgress;
  kc_private_results : NoDup (cap_private_slots record) /\
    forall claim, claim ∈ cap_private_claims record -> exists x e, result_for vr_owner (cl_planning_id claim) (ar_victims r) = Ok x /\
      at_index (catalog_ m) (claim_slot claim) = Some e /\ ce_state e = CatClaimed /\ private_action_ok (max_long_anchors_ m) claim x e;
  kc_shared_results : NoDup (cap_shared_slots record) /\ (cap_publication_slot record ∉ cap_shared_slots record) /\
    forall claim, claim ∈ cap_shared_claims record -> exists x e, result_for sv_owner (cl_planning_id claim) (ar_shared_victims r) = Ok x /\
      at_index (shared_catalog_ m) (claim_slot claim) = Some e /\ se_state e = ShClaimed /\ shared_action_ok claim x e;
  kc_ready : capture_ready m record r;
}.

Lemma capture_ready_frame g g' m m' record r : cache_inv g m -> cache_inv g' m' -> lanes_frame m m' -> capture_ready m record r -> capture_ready m' record r.
Proof.
  intros Hinv Hinv' [Hc _ Ha _] [K1 K2 K3 K4]. pose proof (so_shared _ (ci_sizes _ _ Hinv)) as H1. pose proof (so_shared _ (ci_sizes _ _ Hinv')) as H2.
  unfold shared_catalog_count_ in *. rewrite Hc in H2. split.
  - by rewrite Ha.
  - destruct (cap_publishes_shared record); [|done]. unfold in_range in *. lia.
  - unfold max_long_anchors_. by rewrite Hc.
  - done.
Qed.

Lemma check_capture_ok m record r : check_capture m record r = Ok tt -> capture_checked m record r.
Proof.
  unfold check_capture. intros (u1 & Hst%throw_if_Ok & H)%bind_Ok. apply bind_Ok in H as (u2 & _ & H).
  apply bind_Ok in H as ([] & Hup & H). apply bind_Ok in H as ([] & Hus & H). apply bind_Ok in H as ([] & Hcp & H). apply bind_Ok in H as ([] & Hcs & H).
  apply bind_Ok in H as (u3 & _ & H). apply bind_Ok in H as (a & Ha%active_at_Ok & H). apply bind_Ok in H as (lane & _ & H).
  apply bind_Ok in H as (u4 & Hl%throw_if_Ok & H). apply bind_Ok in H as ([] & Hpub & H). fold (cap_published r) in *.
  apply orb_false_iff in Hl as [Hocc%negb_false_iff _].
  destruct (check_private_results_ok _ _ _ _ _ _ Hcp Hup) as (Hnd & _ & Hall). destruct (check_shared_results_ok _ _ _ _ _ _ Hcs Hus) as (Hnd' & Hex & Hall').
  split; [by apply bool_decide_eq_false in Hst|done|split_and!; [done| |done]; intros Hin%Hex; by apply Z.eqb_neq in Hin|].
  split.
  - by exists a.
  - unfold check_shared_publication in Hpub. destruct (cap_publishes_shared record).
    + apply bind_Ok in Hpub as (u5 & Hlt%throw_if_Ok & Hpub). apply bind_Ok in Hpub as (e & He%shared_at_Ok & _). apply in_range_at. by exists e.
    + apply throw_if_Ok in Hpub. rewrite !orb_false_iff, negb_false_iff, Z.eqb_eq in Hpub. tauto.
  - intros Hp Hpp. rewrite Hp in H. cbn [negb] in H. apply bind_Ok in H as (u5 & Hs & _). rewrite Hpp in Hs.
    apply bind_Ok in Hs as (u6 & Hv%throw_if_Ok & _). by apply negb_false_iff.
  - intros Hp Hps. rewrite Hp in H. cbn [negb] in H. apply bind_Ok in H as (u5 & _ & Hs). rewrite Hps in Hs.
    destruct (ar_shared r) as [s|]; [|done]. exists s. split; [done|]. apply throw_if_Ok in Hs. rewrite !orb_false_iff, negb_false_iff in Hs. tauto.
Qed.

(** ** Victims *)

Definition publication_ghost (record : ActiveCaptureRecord) : Ghost :=
  mkGhost (fun _ => AtRest)
    (fun s => if cap_publishes_shared record && bool_decide (s = cap_publication_slot record) then capture_role record else SharedAtRest) None None.

Lemma capture_victims_ok m record r :
  cache_inv (capture_ghost record) m -> capture_checked m record r ->
  exists m', (_ ← apply_private_results (ar_victims r) (cap_private_claims record); apply_shared_results (ar_shared_victims r) (cap_shared_claims record)) m = (m', Ok tt) /\
    cache_inv (publication_ghost record) m' /\ lanes_frame m m'.
Proof.
  intros Hinv Hck. destruct (kc_private_results _ _ _ Hck) as [Hnp Hp]. destruct (kc_shared_results _ _ _ Hck) as (Hns & Hpub & Hs).
  destruct (apply_private_results_ok (ar_victims r) _ _ _ Hinv Hnp) as (m1 & Hrun1 & Hinv1 & Hf1 & _).
  { intros claim Hin. destruct (Hp claim Hin) as (x & e & Hx & He & Hst & Hact). exists x, e. split_and!; try done. cbn.
    rewrite bool_decide_eq_true_2; [done|]. apply list_elem_of_fmap. by exists claim. }
  destruct (apply_shared_results_ok (ar_shared_victims r) (cap_shared_claims record) _ _ Hinv1 Hns) as (m2 & Hrun2 & Hinv2 & Hf2).
  { intros claim Hin. destruct (Hs claim Hin) as (x & e & Hx & He & Hst & Hact). exists x, e. split_and!; try done.
    - by rewrite (pf_manager _ _ _ Hf1).
    - cbn. rewrite bool_decide_eq_true_2; [done|]. apply list_elem_of_fmap. by exists claim. }
  exists m2. split_and!.
  - by rewrite (run_seq _ _ _ _ Hrun1).
  - eapply cache_inv_ext; [exact Hinv2| | |done|done]; intros s; cbn.
    + fold (cap_private_slots record). by case_bool_decide.
    + fold (cap_shared_slots record). destruct (decide (s ∈ cap_shared_slots record)) as [Hin|Hin].
      * rewrite !(bool_decide_eq_true_2 (s ∈ _)) by done. rewrite bool_decide_eq_false_2; [by rewrite andb_false_r|congruence].
      * by rewrite !(bool_decide_eq_false_2 (s ∈ _)) by done.
  - eapply lanes_frame_trans; [by eapply private_lanes|by eapply shared_lanes].
Qed.

(** The publication slot, with the victims at rest. *)
Lemma publication_entry m record e :
  cache_inv (publication_ghost record) m -> cap_publishes_shared record = true -> at_index (shared_catalog_ m) (cap_publication_slot record) = Some e ->
  se_state e = ShReservedCapture /\ se_transaction_pins e = 0 /\ if cap_replacement_id record =? 0 then shared_hollow e else shared_resident e.
Proof.
  intros Hinv Hs He. destruct (ci_shared _ _ Hinv _ _ He) as [Hp Hok]. cbn in Hok. rewrite Hs, bool_decide_eq_true_2 in Hok by done. cbn [andb] in Hok.
  unfold capture_role in Hok. split_and!; [|done|]; destruct (cap_replacement_id record =? 0); destruct (se_state e); try done; by destruct Hok.
Qed.

Lemma cache_inv_publication m record e e' :
  cache_inv (publication_ghost record) m -> cap_publishes_shared record = true -> at_index (shared_catalog_ m) (cap_publication_slot record) = Some e ->
  shared_entry_ok SharedAtRest false e' -> cache_inv no_ghost (set_shared (set_index (shared_catalog_ m) (cap_publication_slot record) e') m).
Proof.
  intros Hinv Hs He Hok. destruct (publication_entry m record e Hinv Hs He) as (Hst & _).
  eapply cache_inv_ext; [apply (cache_inv_shared_role _ m (cap_publication_slot record) e e' SharedAtRest Hinv He)|..]; try done.
  - intros ?. congruence.
  - intros s. cbn. destruct (decide (s = cap_publication_slot record)) as [->|Hne]; [by rewrite fn_lookup_insert|rewrite fn_lookup_insert_ne by done].
    rewrite bool_decide_eq_false_2 by done. by rewrite andb_false_r.
Qed.

(** ** An aborted capture *)

Lemma abort_publication_ok m record r prepared :
  cache_inv (publication_ghost record) m -> capture_ready m record r ->
  exists m', abort_shared_publication record prepared m = (m', Ok tt) /\ cache_inv no_ghost m' /\ lanes_frame m m'.
Proof.
  intros Hinv Hck. pose proof (kc_publication _ _ _ Hck) as Hpub. unfold abort_shared_publication. destruct (cap_publishes_shared record) eqn:Hs.
  - destruct (proj1 (in_range_at _ _) Hpub) as [e He]. unfold in_range in Hpub. rewrite (so_shared _ (ci_sizes _ _ Hinv)) in Hpub. pose proof (so_bounds _ (ci_sizes _ _ Hinv)) as (_ & Hb & _). unfold kInvalidCatalogSlot.
    rewrite (proj2 (Z.eqb_neq _ _)) by lia. rewrite (run_modify_shared _ _ _ _ He). eexists. split; [reflexivity|]. split; [|done].
    apply (cache_inv_publication m record e); try done. destruct (publication_entry m record e Hinv Hs He) as (_ & Hp & Hres).
    destruct (cap_replacement_id record =? 0); cbn [negb andb]; [by split|]. destruct prepared; cbn [negb]; [by split|]. split; [done|]. destruct Hres. by split.
  - rewrite Hpub, Z.eqb_refl. exists m. split_and!; [done| |done]. eapply cache_inv_ext; [exact Hinv|..]; try done. intros s. cbn. by rewrite Hs.
Qed.

(** ** A published capture *)

Lemma capture_private_ok g m record s a :
  cache_inv g m -> at_index (active_ m) (cap_lane record) = Some a -> ac_occupied a = true -> summary_ok (max_long_anchors_ m) s -> (forall s, g_role g s = AtRest) ->
  exists m', capture_private record s m = (m', Ok tt) /\ cache_inv g m' /\ lanes_frame m m' /\ shared_catalog_ m' = shared_catalog_ m.
Proof.
  intros Hinv Ha Hocc Hs Hrole. pose proof (so_bounds _ (ci_sizes _ _ Hinv)) as (_ & _ & Hlim).
  pose proof Ha as Ha'. apply at_index_Some in Ha' as [_ Ha']. destruct (ci_publications _ _ Hinv _ a (conj Ha' Hocc)) as (e & He & Hst & Hid).
  unfold capture_private. unfold_M. rewrite (run_get_active _ _ _ Ha), (run_get_entry _ _ _ He). unfold view. rewrite assign_ok by done.
  rewrite migrate_ok by done. rewrite (run_put_entry _ _ _ _ He). eexists. split; [reflexivity|]. split_and!; [|done|done].
  pose proof (ci_private _ _ Hinv _ _ He) as Hok. unfold entry_ok in Hok. rewrite Hrole, Hst in Hok.
  match goal with |- cache_inv _ (set_catalog (set_index _ _ ?x) _) => set (e' := x) end.
  eapply cache_inv_ext; [apply (cache_inv_entry_update g m (ac_publication_slot a) e e' AtRest Hinv He)|..]; try done.
  - unfold entry_ok, e'. cbn. by rewrite Hst.
  - intros ?. congruence.
  - intros t. rewrite Hrole. cbn. destruct (decide (t = ac_publication_slot a)) as [->|]; [by rewrite fn_lookup_insert|by rewrite fn_lookup_insert_ne].
Qed.

(** The new prefix's slot is no lane's yet. *)
Lemma reserved_no_edge g m l a s e :
  cache_inv g m -> occupied_lane (active_ m) l a -> at_index (shared_catalog_ m) s = Some e -> se_state e = ShReservedCapture ->
  s ∉ ae_slot <$> ac_shared_sources a.
Proof.
  intros Hinv Ha He Hst (edge & -> & Hin)%list_elem_of_fmap. destruct (eo_shared _ _ _ (ci_edges _ _ Hinv l a Ha) edge Hin) as (_ & x & Hx & Hxs & _). congruence.
Qed.

Lemma publish_shared_ok m record s a e :
  cache_inv (publication_ghost record) m -> cap_publishes_shared record = true -> valid_shared_prefix_summary (sp_summary s) = true ->
  at_index (shared_catalog_ m) (cap_publication_slot record) = Some e -> at_index (active_ m) (cap_lane record) = Some a -> ac_occupied a = true ->
  exists m' a', publish_shared record s m = (m', Ok tt) /\ cache_inv no_ghost m' /\ mg_config m' = mg_config m /\ lanes_ m' = lanes_ m /\
    transaction_ m' = transaction_ m /\ active_ m' = set_index (active_ m) (cap_lane record) a' /\ ac_occupied a' = true.
Proof.
  intros Hinv Hs Hsum He Ha Hocc. destruct (publication_entry m record e Hinv Hs He) as (Hst & _).
  destruct (take_shared_prefix_id_ok m) as (id & next & Hid & Hne). set (m1 := set_counters (next_continuation_id_ m) next (retention_epoch_ m) m) in *.
  unfold publish_shared. cbv beta delta [mbind M_bind]. rewrite Hid. cbv beta iota zeta. unfold mget. cbv beta iota.
  rewrite (run_modify_shared _ _ _ _ (He : at_index (shared_catalog_ m1) _ = Some e)). cbv beta iota.
  match goal with |- context [set_index (shared_catalog_ m1) _ ?x] => set (e' := x) end.
  set (m2 := set_shared (set_index (shared_catalog_ m1) (cap_publication_slot record) e') m1).
  assert (cache_inv no_ghost m2) as Hinv2.
  { apply (cache_inv_publication m1 record e e'); [by apply cache_inv_counters|done|done|]. split; [done|]. by split. }
  unfold view, shared_capability, checked_shared, mbind, result_bind. cbn [shared_catalog_ m2 set_shared].
  rewrite at_set_index_eq by by eapply at_index_lt. cbn [from_option]. cbv beta iota.
  rewrite (run_modify_active _ _ _ _ (Ha : at_index (active_ m2) _ = Some a)).
  match goal with |- context [set_index (active_ m2) _ ?x] => set (a' := x) end.
  eexists _, a'. split; [reflexivity|]. split_and!; try done.
  apply (cache_inv_active no_ghost m2 (cap_lane record) a a' Hinv2 Ha Hocc); [done|].
  pose proof Ha as Ha'. apply at_index_Some in Ha' as [_ Ha']. destruct (ci_edges _ _ Hinv2 _ a (conj Ha' Hocc)) as [E1 E2 E3]. split.
  - done.
  - unfold a'. cbn [ac_shared_sources set_active_edges]. rewrite fmap_app. cbn. apply NoDup_app. split_and!; [done| |apply NoDup_singleton].
    intros t Ht ->%list_elem_of_singleton. by apply (reserved_no_edge _ m _ a _ e Hinv (conj Ha' Hocc) He Hst).
  - intros edge. unfold a'. cbn [ac_shared_sources set_active_edges]. rewrite elem_of_app, list_elem_of_singleton. intros [Hin| ->]; [by apply E3|].
    split; [done|]. exists e'. cbn. rewrite at_set_index_eq by by eapply at_index_lt. done.
Qed.

(** ** The adoption *)

Lemma observe_capture_ok g m r : cache_inv g m -> exists m', observe_capture r m = (m', Ok tt) /\ cache_inv g m' /\ lanes_frame m m'.
Proof.
  intros Hinv. eexists. split; [reflexivity|]. split; [|done]. apply (cache_inv_stats g (set_stats _ m)). by apply cache_inv_stats.
Qed.

Definition settle_capture (record : ActiveCaptureRecord) (r : ActiveCaptureResult) : M Manager unit :=
  if bool_decide (ar_status r = TxAborted) then abort_shared_publication record (ar_capacity_preparation_committed r) else publish_capture record r.

(** A lane that the capture does not touch keeps its entry, and the capturing one stays in use. *)
Record active_frame (m m' : Manager) : Prop := {
  af_config : mg_config m' = mg_config m;
  af_lanes : lanes_ m' = lanes_ m;
  af_transaction : transaction_ m' = transaction_ m;
  af_occupied : forall l a, at_index (active_ m) l = Some a -> exists a', at_index (active_ m') l = Some a' /\ ac_occupied a' = ac_occupied a;
}.
Lemma lanes_active_frame m m' : lanes_frame m m' -> active_frame m m'.
Proof. intros [? ? Ha ?]. split; try done. intros l a Hl. exists a. by rewrite Ha. Qed.
Lemma active_frame_trans m1 m2 m3 : active_frame m1 m2 -> active_frame m2 m3 -> active_frame m1 m3.
Proof.
  intros [? ? ? H1] [? ? ? H2]. split; try congruence. intros l a Ha. destruct (H1 l a Ha) as (b & Hb & Ho). destruct (H2 l b Hb) as (c & Hc & Ho').
  exists c. split; [done|congruence].
Qed.

Lemma publish_capture_ok m record r :
  cache_inv (publication_ghost record) m -> capture_ready m record r -> cap_published r = true ->
  exists m', publish_capture record r m = (m', Ok tt) /\ cache_inv no_ghost m' /\ active_frame m m'.
Proof.
  intros Hinv Hck Hp. destruct (kc_lane _ _ _ Hck) as (a & Ha & Hocc). unfold publish_capture.
  assert (exists m1, (if cap_publishes_private record then capture_private record (ar_active_summary r) else mret tt) m = (m1, Ok tt) /\
    cache_inv (publication_ghost record) m1 /\ lanes_frame m m1 /\ shared_catalog_ m1 = shared_catalog_ m) as (m1 & Hrun1 & Hinv1 & Hl1 & Hsh1).
  { destruct (cap_publishes_private record) eqn:Hpp; [|by exists m]. by eapply capture_private_ok; [exact Hinv|exact Ha|done|by apply (kc_summary _ _ _ Hck)|]. }
  rewrite (run_seq _ _ _ _ Hrun1). pose proof (kc_publication _ _ _ Hck) as Hpub. destruct (cap_publishes_shared record) eqn:Hs.
  - destruct (kc_shared _ _ _ Hck Hp Hs) as (s & -> & Hsum). destruct (proj1 (in_range_at _ _) Hpub) as [e He]. rewrite <- Hsh1 in He. rewrite <- (lf_active _ _ Hl1) in Ha.
    destruct (publish_shared_ok m1 record s a e Hinv1 Hs Hsum He Ha Hocc) as (m2 & a' & Hrun & Hi & Hc & Hla & Ht & Hac & Ho').
    exists m2. split_and!; [done|done|]. destruct Hl1 as [L1 L2 L3 L4]. split; try congruence. intros l b Hb. rewrite Hac, L3. rewrite <- L3 in Hb |- *.
    destruct (decide (l = cap_lane record)) as [->|Hne].
    + exists a'. rewrite at_set_index_eq by by eapply at_index_lt. split; [done|congruence].
    + exists b. apply at_index_lt in Hb as Hlb. apply at_index_lt in Ha as Hla'. by rewrite at_set_index_ne by lia.
  - exists m1. split_and!; [done| |by apply lanes_active_frame]. eapply cache_inv_ext; [exact Hinv1|..]; try done. intros t. cbn. by rewrite Hs.
Qed.

Lemma adopt_capture_ok m record r :
  cache_inv (capture_ghost record) m -> capture_checked m record r ->
  exists m', (_ ← (_ ← apply_private_results (ar_victims r) (cap_private_claims record); apply_shared_results (ar_shared_victims r) (cap_shared_claims record));
              _ ← settle_capture record r; observe_capture r) m = (m', Ok tt) /\ cache_inv no_ghost m' /\ active_frame m m'.
Proof.
  intros Hinv Hck. destruct (capture_victims_ok m record r Hinv Hck) as (m1 & Hrun1 & Hinv1 & Hl1). rewrite (run_seq _ _ _ _ Hrun1).
  pose proof (capture_ready_frame _ _ _ _ _ _ Hinv Hinv1 Hl1 (kc_ready _ _ _ Hck)) as Hready.
  assert (exists m2, settle_capture record r m1 = (m2, Ok tt) /\ cache_inv no_ghost m2 /\ active_frame m1 m2) as (m2 & Hrun2 & Hinv2 & Hf2).
  { unfold settle_capture. case_bool_decide as Hst.
    - destruct (abort_publication_ok m1 record r (ar_capacity_preparation_committed r) Hinv1 Hready) as (m2 & ? & ? & ?). exists m2. split_and!; [done|done|by apply lanes_active_frame].
    - apply (publish_capture_ok m1 record r Hinv1 Hready). unfold cap_published. apply bool_decide_eq_true. pose proof (kc_status _ _ _ Hck). by destruct (ar_status r). }
  rewrite (run_seq _ _ _ _ Hrun2). destruct (observe_capture_ok _ m2 r Hinv2) as (m3 & Hrun3 & Hinv3 & Hl3). exists m3. split_and!; [done|done|].
  eapply active_frame_trans; [by apply lanes_active_frame|]. eapply active_frame_trans; [exact Hf2|by apply lanes_active_frame].
Qed.
