(* ===== verification/ContextLanes.v ===== *)
(** * Context cache: the end of a sequence, and the prefix index

    A lane gives up its references and its publication slot: the slot is emptied, or it becomes the
    sequence's continuation and the newest binding of its session. *)

From stdpp Require Import functions.
From S2P Require Import Prelude ContextTypes SessionIndex ContextCatalog ContextManager ContextInvariant ContextActions ContextReserve ContextAdopt ContextPublish ContextCapture.
Open Scope Z_scope.

(** ** References *)

Lemma catalogued_resident g m s e : cache_inv g m -> at_index (catalog_ m) s = Some e -> ce_state e = CatCatalogued -> resident (max_long_anchors_ m) e.
Proof. intros Hinv He Hst. pose proof (ci_private _ _ Hinv _ _ He) as Hok. unfold entry_ok in Hok. rewrite Hst in Hok. by destruct (g_role g s). Qed.
Lemma catalogued_shared_resident g m s e : cache_inv g m -> at_index (shared_catalog_ m) s = Some e -> se_state e = ShCatalogued -> shared_resident e.
Proof. intros Hinv He Hst. destruct (ci_shared _ _ Hinv _ _ He) as [_ Hok]. rewrite Hst in Hok. by destruct (g_shared_role g s). Qed.

Lemma private_edge_not_stale g m edge : cache_inv g m -> private_edge_ok (catalog_ m) edge -> stale_private_edge m edge = Ok tt.
Proof.
  intros Hinv (Hk & e & He & Hst & Hid). unfold stale_private_edge. rewrite Hk, bool_decide_eq_true_2 by done.
  pose proof (at_index_lt _ _ _ He) as Hlt. rewrite (so_catalog _ (ci_sizes _ _ Hinv)) in Hlt. rewrite (proj2 (Z.leb_gt _ _)) by lia. cbn [negb orb].
  unfold entry_at. rewrite He. cbn. rewrite Hst, bool_decide_eq_true_2, (re_handle _ _ (catalogued_resident _ _ _ _ Hinv He Hst)), Hid, Z.eqb_refl by done. done.
Qed.

Lemma shared_edges_not_stale g m edges : forall previous,
  cache_inv g m -> NoDup (ae_slot <$> previous ++ edges) -> (forall edge, edge ∈ edges -> shared_edge_ok (shared_catalog_ m) edge) ->
  stale_shared_edges m previous edges = Ok tt.
Proof.
  induction edges as [|edge edges IH]; intros previous Hinv Hnd Hok; [done|]. cbn [stale_shared_edges].
  destruct (Hok edge ltac:(left)) as (Hk & e & He & Hst & Hid). rewrite Hk, bool_decide_eq_true_2 by done.
  pose proof (at_index_lt _ _ _ He) as Hlt. rewrite (so_shared _ (ci_sizes _ _ Hinv)) in Hlt. rewrite (proj2 (Z.leb_gt _ _)) by lia.
  rewrite bool_decide_eq_false_2.
  2: { intros Hin. rewrite fmap_app in Hnd. apply NoDup_app in Hnd as (_ & Hd & _). apply (Hd (ae_slot edge)); [apply list_elem_of_fmap; by exists edge|left]. }
  cbn [negb orb]. unfold shared_at. rewrite He. cbn. rewrite Hst, bool_decide_eq_true_2, (sh_handle _ (catalogued_shared_resident _ _ _ _ Hinv He Hst)), Hid, Z.eqb_refl by done.
  cbn. apply IH; [done|by rewrite <- app_assoc|]. intros x Hx. apply Hok. by right.
Qed.

Lemma run_release_references g m l a :
  cache_inv g m -> at_index (active_ m) l = Some a -> ac_occupied a = true ->
  release_active_references l m = (set_active (set_index (active_ m) l (set_active_edges None [] a)) m, Ok tt).
Proof.
  intros Hinv Ha Hocc. pose proof Ha as [_ Ha']%at_index_Some. destruct (ci_edges _ _ Hinv _ a (conj Ha' Hocc)) as [E1 E2 E3].
  unfold release_active_references. unfold_M. rewrite (run_get_active _ _ _ Ha). unfold view.
  assert (match ac_retained_private_source a with Some edge => stale_private_edge m edge | None => Ok tt end = Ok tt) as ->.
  { destruct (ac_retained_private_source a) as [edge|]; [|done]. eapply private_edge_not_stale; [exact Hinv|by apply E1]. }
  rewrite (shared_edges_not_stale g m _ []) by done. by rewrite (run_put_active _ _ _ _ Ha).
Qed.

(** ** A lane retires *)

(** What the lane's slot becomes: empty, or the sequence's continuation. *)
Definition retired (m : Manager) (l : Z) (a : ActiveEntry) (e : CatalogEntry) : Manager :=
  set_lanes (set_index (lanes_ m) l LaneFree) (set_active (set_index (active_ m) l empty_active) (set_catalog (set_index (catalog_ m) (ac_publication_slot a) e) m)).

Section retire.
Context (g : Ghost) (m : Manager) (l : Z) (a : ActiveEntry) (x : LogicalLaneState) (Hinv : cache_inv g m)
  (Ha : at_index (active_ m) l = Some a) (Hocc : ac_occupied a = true) (Hl : l < lane_count_ m).

Lemma retire_occupied k b : occupied_lane (set_index (active_ m) l empty_active) k b <-> occupied_lane (active_ m) k b /\ k <> Z.to_nat l.
Proof.
  pose proof Ha as [_ Ha']%at_index_Some. unfold set_index, occupied_lane. split.
  - intros [Hk Hb]. apply list_lookup_insert_Some in Hk as [(<- & <- & _)|[Hne Hk]]; [done|]. by split.
  - intros [[Hk Hb] Hne]. by rewrite list_lookup_insert_ne.
Qed.

Lemma lane_publication : exists e, at_index (catalog_ m) (ac_publication_slot a) = Some e /\ ce_state e = CatReservedForActive /\
  ce_id e = ac_continuation_id a /\ ce_id e <> 0 /\ ce_handle e = None /\ g_role g (ac_publication_slot a) = AtRest.
Proof.
  pose proof Ha as [_ Ha']%at_index_Some. destruct (ci_publications _ _ Hinv _ a (conj Ha' Hocc)) as (e & He & Hst & Hid).
  pose proof (ci_private _ _ Hinv _ _ He) as Hok. unfold entry_ok in Hok. rewrite Hst in Hok. exists e.
  destruct (g_role g (ac_publication_slot a)); try done. by destruct Hok.
Qed.

Lemma other_slot k b : occupied_lane (active_ m) k b -> k <> Z.to_nat l -> ac_publication_slot b <> ac_publication_slot a.
Proof. pose proof Ha as [_ Ha']%at_index_Some. intros Hk Hne Heq. apply Hne. by apply (ci_slots _ _ Hinv _ _ _ _ Hk (conj Ha' Hocc)). Qed.

Lemma cache_inv_retire e :
  entry_ok (max_long_anchors_ m) AtRest e -> ce_state e <> CatReservedForActive -> cache_inv g (retired m l a e).
Proof.
  intros Hok Hne. destruct lane_publication as (e0 & He & Hst0 & _ & _ & _ & Hrole). pose proof (at_index_lt _ _ _ He) as Hlt.
  pose proof Ha as [Hl0 Ha']%at_index_Some. pose proof (so_lane_states _ (ci_sizes _ _ Hinv)) as Hlen.
  assert (forall t y, t <> ac_publication_slot a -> at_index (catalog_ m) t = Some y -> at_index (set_index (catalog_ m) (ac_publication_slot a) e) t = Some y) as Hkeep.
  { intros t y Ht Hy. by rewrite at_set_index_ne by lia. }
  destruct Hinv as [Hsz Hp Hs Hlo Hpub Hown Hsl Hed Hses Hb Hco Hlor Hno].
  split; cbn [catalog_ set_catalog set_active set_lanes session_index_ active_ shared_catalog_ lanes_ retired]; try done.
  - destruct Hsz. split; try done; cbn; rewrite ?length_set_index; done.
  - intros t y Hy. destruct (at_set_index_Some _ _ _ _ _ _ He Hy) as [[-> ->]|[Hn Hy']]; [by rewrite Hrole|by apply Hp].
  - destruct Hlo as [L1 L2 L3 L4]. split; cbn; unfold set_index.
    + intros k b Hk Hbo. apply list_lookup_insert_Some in Hk as [(_ & <- & _)|[_ Hk]]; [done|by eapply L1].
    + intros k b Hk Hf. apply list_lookup_insert_Some in Hk as [(_ & <- & _)|[Hnk Hk]]; [done|].
      rewrite list_lookup_insert_ne in Hf by done. by eapply L2.
    + intros k b y Hk Hy Hbusy. apply list_lookup_insert_Some in Hk as [(<- & <- & Hlk)|[Hnk Hk]].
      * apply lookup_lt_Some in Ha'. rewrite list_lookup_insert_eq in Hy by (rewrite Hlen, <- (so_active _ Hsz); lia). injection Hy as <-. by destruct Hbusy.
      * rewrite list_lookup_insert_ne in Hy by done. by eapply L3.
    + intros k Hk. unfold lane_count_ in *. cbn in *. rewrite list_lookup_insert_ne by lia. by apply L4.
  - intros k b [Hk Hkl]%retire_occupied. destruct (Hpub k b Hk) as (y & Hy & Hrest). exists y. split; [|done]. apply Hkeep; [by apply (other_slot k)|done].
  - intros t y Hy Hys. destruct (at_set_index_Some _ _ _ _ _ _ He Hy) as [[-> ->]|[Hn Hy']]; [done|].
    destruct (Hown t y Hy' Hys) as (k & b & Hk & Heq). exists k, b. split; [|done]. apply retire_occupied. split; [done|].
    intros ->. destruct Hk as [Hk _]. congruence.
  - intros k1 b1 k2 b2 [H1 _]%retire_occupied [H2 _]%retire_occupied. by apply Hsl.
  - intros k b [Hk _]%retire_occupied. destruct (Hed k b Hk) as [E1 E2 E3]. split; try done. intros edge Hedge.
    destruct (E1 edge Hedge) as (Hkind & y & Hy & Hys & Hyi). split; [done|]. exists y. split; [|done]. apply Hkeep; [|done]. intros Heq. congruence.
  - intros c y Hy. destruct (Hb c y Hy) as (z & Hz & Hzs & Hrest). exists z. split; [|done]. apply Hkeep; [|done]. intros Heq. congruence.
  - intros c y k b Hy [Hk _]%retire_occupied. by eapply Hco.
  - intros k1 b1 k2 b2 [H1 _]%retire_occupied [H2 _]%retire_occupied. by apply Hlor.
  - intros o Ho. destruct (Hno o Ho) as [N1 N2]. split; [done|]. intros k b [Hk _]%retire_occupied. by eapply N2.
Qed.

(** The retired lane's order is no longer in use, and its slot has no name. *)
Lemma retired_order e : order_unused (retired m l a e) (ac_publication_order a).
Proof.
  pose proof Ha as [_ Ha']%at_index_Some. split.
  - intros c y Hy. by apply (ci_cell_orders _ _ Hinv c y _ a Hy (conj Ha' Hocc)).
  - intros k b [Hk Hne]%retire_occupied. intros Heq. apply Hne. by apply (ci_lane_orders _ _ Hinv _ _ _ _ Hk (conj Ha' Hocc)).
Qed.
Lemma retired_unbound c y : bound_cell (session_index_ m) c y -> si_slot y <> ac_publication_slot a.
Proof.
  intros Hy Heq. destruct (ci_bindings _ _ Hinv c y Hy) as (z & Hz & Hzs & _). destruct lane_publication as (e0 & He & Hst0 & _). congruence.
Qed.
End retire.

(** ** Releasing a lane *)

Lemma clear_entry_ok limit e : entry_ok limit AtRest (clear_catalog_entry e) /\ ce_state (clear_catalog_entry e) <> CatReservedForActive.
Proof. by split. Qed.

Lemma run_release_lane g m l a x :
  cache_inv g m -> at_index (active_ m) l = Some a -> ac_occupied a = true -> at_index (lanes_ m) l = Some x ->
  exists e, release_lane l m = (retired m l a (clear_catalog_entry e), Ok tt).
Proof.
  intros Hinv Ha Hocc Hx. destruct (lane_publication g m l a Hinv Ha Hocc) as (e & He & _). exists e.
  unfold release_lane. rewrite (run_seq _ _ _ _ (run_release_references g m l a Hinv Ha Hocc)). set (m1 := set_active _ m).
  assert (at_index (active_ m1) l = Some (set_active_edges None [] a)) as Ha1 by (apply at_set_index_eq; by eapply at_index_lt).
  unfold_M. rewrite (run_get_active _ _ _ Ha1). unfold clear_publication, checked_entry, view. unfold_M. cbn [ac_publication_slot set_active_edges].
  change (catalog_ m1) with (catalog_ m). rewrite He. cbn [from_option].
  rewrite (run_put_entry _ _ _ _ (He : at_index (catalog_ m1) _ = Some e)).
  erewrite run_put_active by exact Ha1.
  erewrite run_put_lane by exact Hx.
  unfold retired, m1. cbn [active_ catalog_ lanes_ set_active set_catalog set_lanes]. by rewrite set_index_twice.
Qed.

(** ** Publishing a session *)

Lemma cache_inv_sessions g m sessions :
  cache_inv g m -> g_order g = None -> session_wf sessions -> length sessions = length (session_index_ m) ->
  (forall c x, bound_cell sessions c x -> binding_ok (catalog_ m) x /\ forall l a, occupied_lane (active_ m) l a -> si_publication_order x <> ac_publication_order a) ->
  cache_inv g (set_sessions sessions m).
Proof.
  intros [Hsz Hp Hs Hlo Hpub Hown Hsl Hed Hses Hb Hco Hlor Hno] Hord Hwf Hlen Hbind.
  split; cbn [catalog_ set_sessions session_index_ active_ shared_catalog_ lanes_]; try done.
  - destruct Hsz. split; try done; cbn; rewrite ?Hlen; done.
  - destruct Hlo. by split.
  - intros c x Hx. by apply (Hbind c).
  - intros c x l a Hx Ha. destruct (Hbind c x Hx) as [_ H]. by apply (H l).
  - intros o Ho. congruence.
Qed.

(** A table in which every cell is bound has a cell for each slot. *)
Lemma full_table_binds g m slot :
  cache_inv g m -> 0 <= slot < catalog_count_ m -> Forall (fun e => si_state e = SessionOccupied) (session_index_ m) ->
  exists c x, bound_cell (session_index_ m) c x /\ si_slot x = slot.
Proof.
  intros Hinv Hslot Hall. destruct (decide (slot ∈ si_slot <$> session_index_ m)) as [(x & -> & [c Hc]%list_elem_of_lookup)%list_elem_of_fmap|Hn].
  { exists c, x. split; [|done]. split; [done|]. rewrite Forall_lookup in Hall. by eapply Hall. }
  exfalso. assert (forall c x, session_index_ m !! c = Some x -> bound_cell (session_index_ m) c x) as Hbd.
  { intros c x Hx. split; [done|]. rewrite Forall_lookup in Hall. by eapply Hall. }
  assert (NoDup (slot :: (si_slot <$> session_index_ m))) as Hnd.
  { apply NoDup_cons. split; [done|]. apply NoDup_alt. intros i j s Hi Hj. rewrite list_lookup_fmap in Hi, Hj.
    apply fmap_Some in Hi as (x & Hx & ->). apply fmap_Some in Hj as (y & Hy & Heq). eapply bound_once; [exact Hinv|by apply Hbd|by apply Hbd|done]. }
  assert (slot :: (si_slot <$> session_index_ m) ⊆+ seqZ 0 (catalog_count_ m)) as Hsub.
  { apply NoDup_submseteq; [done|]. intros s [->|(x & -> & [c Hc]%list_elem_of_lookup)%list_elem_of_fmap]%elem_of_cons; apply elem_of_seqZ; [lia|].
    destruct (ci_bindings _ _ Hinv c x (Hbd c x Hc)) as (e & He & _). apply at_index_lt in He. rewrite (so_catalog _ (ci_sizes _ _ Hinv)) in He. lia. }
  apply submseteq_length in Hsub. cbn [length] in Hsub. rewrite length_fmap, length_seqZ in Hsub. pose proof (so_sessions _ (ci_sizes _ _ Hinv)). lia.
Qed.

(** [demote_replaced_session] changes the earlier continuation only, if it is still there. *)
Definition demoted (e : CatalogEntry) : CatalogEntry :=
  set_entry_observations (demote_observation <$> ce_observations e) (set_entry_retention RecentPrivate (set_entry_session None e)).

Lemma resident_demoted limit e : resident limit e -> resident limit (demoted e).
Proof. intros []. split; try done. cbn. by rewrite <- list_fmap_compose. Qed.

Lemma run_demote m previous slot id e :
  at_index (catalog_ m) (si_slot previous) = Some e -> si_slot previous < catalog_count_ m ->
  demote_replaced_session previous slot id m = (m, Ok tt) \/
  (ce_state e = CatCatalogued /\ demote_replaced_session previous slot id m = (set_catalog (set_index (catalog_ m) (si_slot previous) (demoted e)) m, Ok tt)).
Proof.
  intros He Hlt. unfold demote_replaced_session. unfold_M. destruct (_ || _); [by left|]. rewrite (run_get_entry _ _ _ He).
  destruct (bool_decide (ce_state e = CatCatalogued)) eqn:Hst; [|by left]. cbn [negb orb]. destruct (_ || _); [by left|]. right.
  split; [by rewrite bool_decide_eq_true in Hst|]. by rewrite (run_put_entry _ _ _ _ He).
Qed.

(** What the index becomes: the newest publication's binding, unless a newer one is there. *)
Definition published_index (m m' : Manager) (key : PreparedSessionKey) (slot : Z) (e : CatalogEntry) (order : Z) (newest : bool) : Prop :=
  if newest then exists c w, session_index_ m' = <[c := w]> (session_index_ m) /\ insert_place (session_index_ m) key c /\
      w = mkSession SessionOccupied key slot (ce_id e) (ce_revision e) order /\
      (forall x, bound_cell (session_index_ m) c x -> si_key x = key /\ si_publication_order x < order)
  else m' = m /\ exists c x, bound_cell (session_index_ m) c x /\ si_key x = key /\ order < si_publication_order x.

Section publish.
Context (m : Manager) (key : PreparedSessionKey) (slot : Z) (e : CatalogEntry) (order : Z) (Hinv : cache_inv no_ghost m)
  (He : at_index (catalog_ m) slot = Some e) (Hst : ce_state e = CatCatalogued) (Hn : ce_session e = Some key)
  (Hun : forall c x, bound_cell (session_index_ m) c x -> si_slot x <> slot) (Hord : order_unused m order).

Let w := mkSession SessionOccupied key slot (ce_id e) (ce_revision e) order.

Lemma written_cells c c' x : insert_place (session_index_ m) key c ->
  bound_cell (<[c := w]> (session_index_ m)) c' x -> (c' = c /\ x = w) \/ (c' <> c /\ bound_cell (session_index_ m) c' x).
Proof.
  intros Hc [Hx Hs]. apply list_lookup_insert_Some in Hx as [(<- & <- & _)|[Hne Hx]]; [by left|right]. by repeat split.
Qed.

Lemma write_binding c : insert_place (session_index_ m) key c -> cache_inv no_ghost (set_sessions (<[c := w]> (session_index_ m)) m).
Proof.
  intros Hc. apply cache_inv_sessions; [done|done| |by rewrite length_insert|].
  - apply session_wf_write with key; try done. apply (ci_session_table _ _ Hinv).
  - intros c' x [[-> ->]|[Hne Hx]]%(written_cells c); [|split|done].
    + split; [|by intros l a Ha Heq; by apply (proj2 Hord l a Ha)]. exists e. cbn. by rewrite Hst.
    + by apply (ci_bindings _ _ Hinv c').
    + intros l a Ha. by eapply (ci_cell_orders _ _ Hinv).
Qed.

Lemma demote_previous c old :
  insert_place (session_index_ m) key c -> session_index_ m !! c = Some old -> si_state old = SessionOccupied ->
  let m1 := set_sessions (<[c := w]> (session_index_ m)) m in
  exists m', demote_replaced_session old slot (ce_id e) m1 = (m', Ok tt) /\ cache_inv no_ghost m' /\ lanes_frame m m' /\
    session_index_ m' = session_index_ m1 /\ at_index (catalog_ m') slot = Some e.
Proof.
  intros Hc Hold Hos m1. pose proof (write_binding c Hc) as Hinv1. fold m1 in Hinv1.
  destruct (ci_bindings _ _ Hinv c old (conj Hold Hos)) as (p & Hp & Hps & Hpi & Hpr & Hpn).
  assert (si_slot old < catalog_count_ m1) as Hlt. { rewrite <- (so_catalog _ (ci_sizes _ _ Hinv1)). pose proof (at_index_lt _ _ _ Hp) as Hb. exact (proj2 Hb). }
  assert (si_slot old <> slot) as Hne by by apply (Hun c).
  destruct (run_demote m1 old slot (ce_id e) p Hp Hlt) as [Hrun|[Hpst Hrun]]; rewrite Hrun.
  - exists m1. done.
  - eexists. split; [reflexivity|]. split_and!; [|done|done|cbn; pose proof (at_index_lt _ _ _ Hp); by rewrite at_set_index_ne by lia].
    pose proof (catalogued_resident _ _ _ _ Hinv Hp Hpst) as Hres.
    eapply cache_inv_ext; [apply (cache_inv_entry no_ghost m1 (si_slot old) p (demoted p) AtRest (session_index_ m1) Hinv1 Hp)|..]; try done.
    + unfold entry_ok. cbn. rewrite Hpst. by apply resident_demoted.
    + intros _. left. done.
    + apply (ci_session_table _ _ Hinv1).
    + intros c' x Hx. split; [|by exists c', x]. destruct (ci_bindings _ _ Hinv1 c' x Hx) as (y & Hy & Hrest). exists y. split; [|done].
      pose proof (at_index_lt _ _ _ Hp). rewrite at_set_index_ne; [done|cbn in *; lia|]. intros Heq.
      apply (written_cells c) in Hx as [[-> ->]|[Hnc Hx]]; [by apply Hne|by apply Hnc, (bound_once _ _ Hinv c' x c old)|done].
    + intros t. cbn. destruct (decide (t = si_slot old)) as [->|]; [by rewrite fn_lookup_insert|by rewrite fn_lookup_insert_ne].
Qed.

Lemma publish_session_ok :
  exists newest m', publish_session key slot (ce_id e) (ce_revision e) order m = (m', Ok newest) /\ cache_inv no_ghost m' /\ lanes_frame m m' /\
    at_index (catalog_ m') slot = Some e /\ published_index m m' key slot e order newest.
Proof.
  unfold publish_session. unfold_M. pose proof (publish_cell_spec (session_index_ m) key slot (ce_id e) (ce_revision e) order (ci_session_table _ _ Hinv)) as Hspec.
  destruct (publish_cell key slot _ _ _ _) as [[[index newest] previous]|ex].
  - destruct Hspec as (c & w' & Hc & Hk & Hs & Hsl & Ho & Hr & Hpo & Hcase).
    assert (w' = w) as -> by (destruct w'; cbn in *; by subst).
    destruct Hcase as [(-> & -> & Hcase)|(-> & -> & -> & x & Hx & Hxs & Hxk & Hlt)].
    + exists true. destruct Hcase as [[-> Hcase]|(old & -> & Hold & Hos & Hok & Hlt & _)].
      * exists (set_sessions (<[c := w]> (session_index_ m)) m). split_and!; [done|by apply write_binding|done|done|]. exists c, w. split_and!; [done..|].
        intros x Hx. destruct Hcase as [Habs|(x' & Hx' & Hxs & Hxk & Hle & Hxsl & _)].
        -- destruct Hc as [_ [Hk'|[_ (x' & Hx' & Hns)]]]; [by apply Habs in Hk'|]. destruct Hx as [Hx ?]. congruence.
        -- exfalso. apply (Hun c x'); [by split|done].
      * destruct (demote_previous c old Hc Hold Hos) as (m' & Hrun & Hi & Hl & Hse & He'). cbn [when_some]. rewrite Hrun. exists m'. split_and!; [done..|].
        exists c, w. split_and!; [done..|]. intros x [Hx _]. by assert (x = old) as -> by congruence.
    + exists false, m. cbn [when_some]. replace (set_sessions (session_index_ m) m) with m by by destruct m. split_and!; try done.
      split; [done|]. by exists c, x.
  - exfalso. destruct Hspec as [-> [[_ Hall]|(c & x & Hx & Hxs & _ & Heq & _)]].
    + pose proof (at_index_lt _ _ _ He) as Hlt. rewrite (so_catalog _ (ci_sizes _ _ Hinv)) in Hlt.
      destruct (full_table_binds _ _ slot Hinv Hlt Hall) as (c & x & Hx & Heq). by apply (Hun c x).
    + by apply (proj1 Hord c x).
Qed.
End publish.

(** ** Cataloguing the sequence's continuation *)

Lemma publish_session_frame key slot id revision order x y m :
  publish_session key slot id revision order (set_lanes y (set_active x m)) =
  let '(m', r) := publish_session key slot id revision order m in (set_lanes y (set_active x m'), r).
Proof.
  unfold publish_session, when_some, demote_replaced_session, put_entry, get_entry, view, entry_at. unfold_M.
  cbn [session_index_ set_lanes set_active]. destruct (publish_cell _ _ _ _ _ _) as [[[index newest] [old|]]|]; [|done|done].
  change (catalog_count_ (set_sessions index (set_lanes y (set_active x m)))) with (catalog_count_ m). change (catalog_count_ (set_sessions index m)) with (catalog_count_ m).
  destruct (_ || _); [done|]. cbv beta. change (catalog_ (set_sessions index (set_lanes y (set_active x m)))) with (catalog_ m).
  change (catalog_ (set_sessions index m)) with (catalog_ m). destruct (at_index (catalog_ m) (si_slot old)) as [e|] eqn:He; cbn [from_option]; [|done].
  destruct (_ || _); [done|]. cbv beta. change (catalog_ (set_sessions index (set_lanes y (set_active x m)))) with (catalog_ m).
  change (catalog_ (set_sessions index m)) with (catalog_ m). by rewrite He.
Qed.

(** An entry that no name is bound to may forget its own. *)
Definition unnamed (e : CatalogEntry) : CatalogEntry := set_entry_retention RecentPrivate (set_entry_session None e).

Lemma cache_inv_unnamed m slot e :
  cache_inv no_ghost m -> at_index (catalog_ m) slot = Some e -> ce_state e = CatCatalogued ->
  (forall c x, bound_cell (session_index_ m) c x -> si_slot x <> slot) ->
  cache_inv no_ghost (set_catalog (set_index (catalog_ m) slot (unnamed e)) m).
Proof.
  intros Hinv He Hst Hun. pose proof (at_index_lt _ _ _ He) as Hlt. pose proof (catalogued_resident _ _ _ _ Hinv He Hst) as Hres.
  assert (cache_inv (set_role slot AtRest no_ghost) (set_sessions (session_index_ m) (set_catalog (set_index (catalog_ m) slot (unnamed e)) m))) as H.
  { apply (cache_inv_entry no_ghost m slot e); try done.
    - unfold entry_ok. cbn. rewrite Hst. by destruct Hres.
    - intros _. by left.
    - apply (ci_session_table _ _ Hinv).
    - intros c x Hx. split; [|by exists c, x]. destruct (ci_bindings _ _ Hinv c x Hx) as (y & Hy & Hrest). exists y. split; [|done].
      rewrite at_set_index_ne; [done|lia|]. intros Heq. by apply (Hun c x Hx). }
  eapply cache_inv_ext; [exact H|..]; try done. intros t. cbn. destruct (decide (t = slot)) as [->|]; [by rewrite fn_lookup_insert|by rewrite fn_lookup_insert_ne].
Qed.

(** The continuation as it is catalogued, before its name is settled. *)
Definition catalogued_entry (a : ActiveEntry) (r : FinishResult) (e : CatalogEntry) : CatalogEntry :=
  let e := mkEntry CatCatalogued (ce_id e) (ce_revision e) (stored_summary (fr_summary r)) (fr_continuation r) (ac_session a) (ce_observations e) (ac_retention a) in
  set_entry_revision (advance_revision (ce_revision e)) (set_entry_observations (migrated_all e (fr_summary r) (ac_retention a)) e).

(** The continuation [e] is in its slot, and the name is its own if no newer sequence has it. *)
Definition named (m m' : Manager) (a : ActiveEntry) (e : CatalogEntry) : Prop :=
  match ac_session a with
  | Some key =>
      if ac_update_session_index a then
        (at_index (catalog_ m') (ac_publication_slot a) = Some e /\
         published_index m m' key (ac_publication_slot a) e (ac_publication_order a) true) \/
        (at_index (catalog_ m') (ac_publication_slot a) = Some (unnamed e) /\ session_index_ m' = session_index_ m /\
         exists c x, bound_cell (session_index_ m) c x /\ si_key x = key /\ ac_publication_order a < si_publication_order x)
      else at_index (catalog_ m') (ac_publication_slot a) = Some e /\ session_index_ m' = session_index_ m
  | None => at_index (catalog_ m') (ac_publication_slot a) = Some e /\ session_index_ m' = session_index_ m
  end.

(** The part of [catalogue_continuation] that settles the name. *)
Definition settle_name (a : ActiveEntry) (e : CatalogEntry) : M Manager unit :=
  match ac_session a with
  | Some key =>
      if ac_update_session_index a then
        newest ← publish_session key (ac_publication_slot a) (ce_id e) (ce_revision e) (ac_publication_order a);
        if (newest : bool) then mret tt else modify_entry (ac_publication_slot a) (fun e => set_entry_retention RecentPrivate (set_entry_session None e))
      else mret tt
  | None => mret tt
  end.

Lemma settle_name_ok m a e :
  cache_inv no_ghost m -> at_index (catalog_ m) (ac_publication_slot a) = Some e -> ce_state e = CatCatalogued -> ce_session e = ac_session a ->
  (forall c x, bound_cell (session_index_ m) c x -> si_slot x <> ac_publication_slot a) -> order_unused m (ac_publication_order a) ->
  exists m', settle_name a e m = (m', Ok tt) /\ cache_inv no_ghost m' /\ lanes_frame m m' /\ named m m' a e.
Proof.
  intros Hinv He Hst Hn Hun Hord. unfold settle_name, named. destruct (ac_session a) as [key|] eqn:Hk.
  2: { exists m. split_and!; try done. }
  destruct (ac_update_session_index a); [|by exists m].
  destruct (publish_session_ok m key (ac_publication_slot a) e (ac_publication_order a) Hinv He Hst Hn Hun Hord) as (newest & m' & Hrun & Hi & Hl & He' & Hpub).
  unfold_M. rewrite Hrun. destruct newest.
  - exists m'. split_and!; [done|done|done|]. by left.
  - destruct Hpub as [-> Hnew]. rewrite (run_modify_entry _ _ _ _ He). eexists. split; [reflexivity|]. split_and!; [by apply cache_inv_unnamed|done|].
    right. split_and!; [|done|done]. cbn. by rewrite at_set_index_eq by by eapply at_index_lt.
Qed.

Lemma settle_name_frame a e x y m : settle_name a e (set_lanes y (set_active x m)) = let '(m', r) := settle_name a e m in (set_lanes y (set_active x m'), r).
Proof.
  unfold settle_name. destruct (ac_session a) as [key|]; [|done]. destruct (ac_update_session_index a); [|done]. unfold_M. rewrite publish_session_frame.
  destruct (publish_session _ _ _ _ _ m) as [m' [[]|]]; [done| |done]. unfold modify_entry, put_entry, get_entry, view, entry_at. unfold_M.
  change (catalog_ (set_lanes y (set_active x m'))) with (catalog_ m'). destruct (at_index (catalog_ m') (ac_publication_slot a)) eqn:He; cbn [from_option]; [|done].
  change (catalog_ (set_lanes y (set_active x m'))) with (catalog_ m'). done.
Qed.

Lemma catalogued_entry_ok limit a r e : summary_ok limit (fr_summary r) -> ce_id e <> 0 -> has (fr_continuation r) = true -> entry_ok limit AtRest (catalogued_entry a r e).
Proof. intros Hs Hid Hh. unfold entry_ok. cbn. split; [done|done|done|cbn; by rewrite migrated_refs]. Qed.

Lemma catalogue_continuation_steps l a r :
  catalogue_continuation l a r =
  (_ ← release_active_references l;
   e ← get_entry (ac_publication_slot a);
   summary ← view (fun m => assign_continuation_summary (max_long_anchors_ m) (fr_summary r));
   let e := mkEntry CatCatalogued (ce_id e) (ce_revision e) summary (fr_continuation r) (ac_session a) (ce_observations e) (ac_retention a) in
   e ← view (fun m => migrate_observations (max_long_anchors_ m) e (fr_summary r) (ac_retention a));
   let e := set_entry_revision (advance_revision (ce_revision e)) e in
   _ ← put_entry (ac_publication_slot a) e;
   _ ← settle_name a e;
   _ ← put_active l empty_active;
   put_lane l LaneFree).
Proof. reflexivity. Qed.

Lemma catalogue_continuation_ok m l a r x :
  cache_inv no_ghost m -> at_index (active_ m) l = Some a -> ac_occupied a = true -> l < lane_count_ m -> at_index (lanes_ m) l = Some x ->
  summary_ok (max_long_anchors_ m) (fr_summary r) -> has (fr_continuation r) = true ->
  exists m' e, at_index (catalog_ m) (ac_publication_slot a) = Some e /\ catalogue_continuation l a r m = (m', Ok tt) /\ cache_inv no_ghost m' /\
    lanes_frame (retired m l a (catalogued_entry a r e)) m' /\ named m m' a (catalogued_entry a r e).
Proof.
  intros Hinv Ha Hocc Hl Hx Hsum Hcont. destruct (lane_publication _ m l a Hinv Ha Hocc) as (e & He & _ & _ & Hid & _).
  set (e' := catalogued_entry a r e). pose proof (so_bounds _ (ci_sizes _ _ Hinv)) as (_ & _ & Hlim).
  pose proof (cache_inv_retire _ m l a Hinv Ha Hocc Hl e' (catalogued_entry_ok _ _ _ _ Hsum Hid Hcont) ltac:(done)) as Hret.
  destruct (settle_name_ok (retired m l a e') a e' Hret) as (m' & Hrun & Hi & Hf & Hnamed); try done.
  { cbn. by apply at_set_index_eq, at_index_lt with e. }
  { intros c y Hy. by apply (retired_unbound _ m l a Hinv Ha Hocc c). }
  { by apply (retired_order _ m l a Hinv Ha Hocc). }
  exists m', e. split; [done|]. split_and!; [|done|done|exact Hnamed].
  rewrite catalogue_continuation_steps. rewrite (run_seq _ _ _ _ (run_release_references _ m l a Hinv Ha Hocc)).
  set (m0 := set_catalog (set_index (catalog_ m) (ac_publication_slot a) e') m).
  unfold_M. rewrite (run_get_entry _ _ _ (He : at_index (catalog_ (set_active _ m)) _ = Some e)). unfold view.
  change (max_long_anchors_ (set_active _ m)) with (max_long_anchors_ m). rewrite assign_ok, migrate_ok by done.
  rewrite (run_put_entry _ _ _ _ (He : at_index (catalog_ (set_active _ m)) _ = Some e)). fold e'.
  match goal with |- context [settle_name a ?y ?z] =>
    change (settle_name a y z) with (settle_name a e' (set_lanes (lanes_ m) (set_active (set_index (active_ m) l (set_active_edges None [] a)) m0))) end.
  change (retired m l a e') with (set_lanes (set_index (lanes_ m) l LaneFree) (set_active (set_index (active_ m) l empty_active) m0)) in Hrun.
  rewrite (settle_name_frame a e' (set_index (active_ m) l (set_active_edges None [] a)) (lanes_ m) m0). rewrite settle_name_frame in Hrun.
  destruct (settle_name a e' m0) as [m2 [[]|ex]]; [|done]. injection Hrun as <-. cbv beta iota zeta.
  erewrite run_put_active by (cbn; apply at_set_index_eq; by eapply at_index_lt). cbv beta iota zeta. erewrite run_put_lane by exact Hx.
  unfold set_lanes, set_active. cbn. by rewrite set_index_twice.
Qed.

(** ** The prefix index

    The index that [rebuild_prefix_index] writes is exactly the resident checkpoints: its capacity is
    never exceeded, and each of its entries is current. *)

(** An entry of the index names a checkpoint of a catalogued continuation or a catalogued prefix. *)
Definition names_resident (m : Manager) (i : PrefixIndexEntry) : Prop :=
  (exists e c, at_index (catalog_ m) (pi_slot i) = Some e /\ ce_state e = CatCatalogued /\ c ∈ continuation_checkpoints (ce_summary e) /\
     i = mkPrefixEntry true false (cp_shortlist_key c) (pi_slot i) (ce_id e) (ce_revision e) (cp_ref c)) \/
  (exists e, at_index (shared_catalog_ m) (pi_slot i) = Some e /\ se_state e = ShCatalogued /\
     let c := ss_checkpoint (se_summary e) in
     i = mkPrefixEntry true true (cp_shortlist_key c) (pi_slot i) (se_id e) (se_revision e) (cp_ref c)).

(** ** Writing the entries *)

Lemma append_index_ok entries : forall written free,
  (length entries <= length free)%nat ->
  append_index (length written) (written ++ free) entries = (written ++ entries ++ drop (length entries) free, Ok tt).
Proof.
  induction entries as [|e entries IH]; intros written free Hlen; cbn [append_index]; [by rewrite drop_0|].
  destruct free as [|f free]; [cbn in Hlen; lia|]. rewrite (proj2 (Nat.leb_gt _ _)) by (rewrite length_app; cbn; lia).
  replace (<[length written := e]> (written ++ f :: free)) with ((written ++ [e]) ++ free).
  2: { rewrite insert_app_r_alt by lia. by rewrite Nat.sub_diag, <- app_assoc. }
  specialize (IH (written ++ [e]) free). rewrite length_app, Nat.add_1_r in IH. rewrite IH by (cbn in Hlen; lia).
  by rewrite <- app_assoc.
Qed.

(** ** The number of entries *)

Lemma length_concat_imap {A B} (f : nat -> A -> list B) l (width : Z) :
  0 <= width -> (forall k x, l !! k = Some x -> Z.of_nat (length (f k x)) <= width) ->
  Z.of_nat (length (concat (imap f l))) <= Z.of_nat (length l) * width.
Proof.
  intros Hw. revert f. induction l as [|x l IH]; intros f Hf; [cbn; lia|].
  cbn [imap concat length]. rewrite length_app. specialize (IH (f ∘ S) (fun k y => Hf (S k) y)). pose proof (Hf 0%nat x eq_refl). lia.
Qed.

Lemma elem_of_concat_imap {A B} (f : nat -> A -> list B) l y : y ∈ concat (imap f l) <-> exists k x, l !! k = Some x /\ y ∈ f k x.
Proof.
  rewrite list_elem_of_In, in_concat. setoid_rewrite <- list_elem_of_In. split.
  - intros (ys & [k Hk]%list_elem_of_lookup & Hy). rewrite list_lookup_imap in Hk. apply fmap_Some in Hk as (x & Hx & ->). by exists k, x.
  - intros (k & x & Hx & Hy). exists (f k x). split; [|done]. apply list_elem_of_lookup. exists k. by rewrite list_lookup_imap, Hx.
Qed.

Lemma resident_entries_fit g m : cache_inv g m -> (length (resident_entries m) <= length (prefix_index_ m))%nat.
Proof.
  intros Hinv. pose proof (ci_sizes _ _ Hinv) as Hsz. pose proof (so_bounds _ Hsz) as (_ & _ & Hlim). unfold resident_entries. rewrite length_app.
  pose proof (length_concat_imap (fun slot e => private_index_entries (Z.of_nat slot) e) (catalog_ m) (max_long_anchors_ m + 2) ltac:(lia)) as Hp.
  pose proof (length_concat_imap (fun slot e => shared_index_entries (Z.of_nat slot) e) (shared_catalog_ m) 1 ltac:(lia)) as Hs.
  assert (forall k x, catalog_ m !! k = Some x -> Z.of_nat (length (private_index_entries (Z.of_nat k) x)) <= max_long_anchors_ m + 2) as Hp1.
  { intros k x Hx. unfold private_index_entries. destruct (bool_decide (ce_state x = CatCatalogued)) eqn:Hst; [|cbn; lia]. destruct (has (ce_handle x)); [|cbn; lia].
    cbn [negb orb]. rewrite length_fmap. apply summary_ok_length. apply bool_decide_eq_true in Hst.
    apply (re_summary _ _ (catalogued_resident g m (Z.of_nat k) x Hinv ltac:(by rewrite at_index_nat) Hst)). }
  assert (forall k x, shared_catalog_ m !! k = Some x -> Z.of_nat (length (shared_index_entries (Z.of_nat k) x)) <= 1) as Hs1.
  { intros k x _. unfold shared_index_entries. destruct (_ && _); cbn; lia. }
  specialize (Hp Hp1). specialize (Hs Hs1). pose proof (so_index _ Hsz). rewrite (so_catalog _ Hsz) in Hp. rewrite (so_shared _ Hsz) in Hs. lia.
Qed.

(** ** Its entries *)

Lemma resident_entries_spec g m i : cache_inv g m -> i ∈ resident_entries m <-> names_resident m i.
Proof.
  intros Hinv. unfold resident_entries, names_resident. rewrite elem_of_app, !elem_of_concat_imap.
  split.
  - intros [(k & e & He & Hi)|(k & e & He & Hi)].
    + left. unfold private_index_entries in Hi. destruct (bool_decide (ce_state e = CatCatalogued)) eqn:Hst; [|by apply not_elem_of_nil in Hi].
      destruct (has (ce_handle e)); [|by apply not_elem_of_nil in Hi]. apply list_elem_of_fmap in Hi as (c & -> & Hc).
      exists e, c. cbn. split_and!; [by rewrite at_index_nat|by apply bool_decide_eq_true in Hst|done|done].
    + right. unfold shared_index_entries in Hi. destruct (bool_decide (se_state e = ShCatalogued)) eqn:Hst; [|by apply not_elem_of_nil in Hi].
      destruct (has (se_handle e)); [|by apply not_elem_of_nil in Hi]. apply list_elem_of_singleton in Hi as ->.
      exists e. cbn. split_and!; [by rewrite at_index_nat|by apply bool_decide_eq_true in Hst|done].
  - intros [(e & c & He & Hst & Hc & Hi)|(e & He & Hst & Hi)].
    + left. pose proof (re_handle _ _ (catalogued_resident g m _ e Hinv He Hst)) as Hh. pose proof He as [H0 Hk]%at_index_Some.
      exists (Z.to_nat (pi_slot i)), e. split; [done|]. rewrite Z2Nat.id by done. unfold private_index_entries. rewrite Hst, Hh. cbn.
      apply list_elem_of_fmap. by exists c.
    + right. pose proof (sh_handle _ (catalogued_shared_resident g m _ e Hinv He Hst)) as Hh. pose proof He as [H0 Hk]%at_index_Some.
      exists (Z.to_nat (pi_slot i)), e. split; [done|]. rewrite Z2Nat.id by done. unfold shared_index_entries. rewrite Hst, Hh. cbn.
      by apply list_elem_of_singleton.
Qed.

Lemma named_resident_valid g m i : cache_inv g m -> names_resident m i -> valid_prefix_index_entry m i = Ok true.
Proof.
  intros Hinv [(e & c & He & Hst & Hc & Hi)|(e & He & Hst & Hi)].
  - pose proof (re_handle _ _ (catalogued_resident g m _ e Hinv He Hst)) as Hh. pose proof (at_index_lt _ _ _ He) as Hlt.
    rewrite (so_catalog _ (ci_sizes _ _ Hinv)) in Hlt. set (s := pi_slot i) in *. rewrite Hi. unfold valid_prefix_index_entry. cbn.
    rewrite (proj2 (Z.leb_gt _ _)) by lia. unfold entry_at. rewrite He. cbn. by rewrite Hst, Hh, !Z.eqb_refl.
  - pose proof (sh_handle _ (catalogued_shared_resident g m _ e Hinv He Hst)) as Hh. pose proof (at_index_lt _ _ _ He) as Hlt.
    rewrite (so_shared _ (ci_sizes _ _ Hinv)) in Hlt. set (s := pi_slot i) in *. rewrite Hi. unfold valid_prefix_index_entry. cbn.
    rewrite (proj2 (Z.leb_gt _ _)) by lia. unfold shared_at. rewrite He. cbn. by rewrite Hst, Hh, !Z.eqb_refl.
Qed.

(** ** The rebuilt index *)

Lemma run_rebuild g m : cache_inv g m ->
  exists n, rebuild_prefix_index m = (set_prefix_index (resident_entries m ++ replicate n empty_prefix_entry) m, Ok tt) /\
    (length (resident_entries m) + n = length (prefix_index_ m))%nat.
Proof.
  intros Hinv. pose proof (resident_entries_fit g m Hinv) as Hfit. exists (length (prefix_index_ m) - length (resident_entries m))%nat. split; [|lia].
  unfold rebuild_prefix_index. set (free := (fun _ => empty_prefix_entry) <$> prefix_index_ m).
  assert (free = replicate (length (prefix_index_ m)) empty_prefix_entry) as Hfree.
  { unfold free. clear. induction (prefix_index_ m) as [|x l IH]; [done|]. cbn. by rewrite IH. }
  pose proof (append_index_ok (resident_entries m) [] free) as Hap. cbn [length app] in Hap. rewrite Hap by (unfold free; by rewrite length_fmap).
  by rewrite Hfree, drop_replicate.
Qed.

Lemma rebuild_kept g m : cache_inv g m -> exists m', rebuild_prefix_index m = (m', Ok tt) /\ cache_inv g m' /\ lanes_frame m m' /\
  catalog_ m' = catalog_ m /\ shared_catalog_ m' = shared_catalog_ m.
Proof.
  intros Hinv. destruct (run_rebuild g m Hinv) as (n & Hrun & Hlen). eexists. split; [exact Hrun|]. split_and!; try done.
  apply (cache_inv_irrelevant g m); try done; [|apply (so_window _ (ci_sizes _ _ Hinv))]. cbn. by rewrite length_app, length_replicate.
Qed.
