(* ===== verification/ContextRounds.v ===== *)
(** * Context cache: rounds of the lanes in use, and checks

    The calls that a round makes on its lanes, whatever transaction is open: each keeps the invariant
    and the lane that is being materialized, and none of them terminates. *)

From S2P Require Import Prelude ContextTypes SessionIndex ContextCatalog ContextManager ContextInvariant ContextActions ContextReserve ContextAdopt ContextPublish ContextCapture ContextLanes.
Open Scope Z_scope.

(** ** How a computation ends *)

(** With a value and [Q], or with an exception that a caller may catch and [E]. *)
Definition ends {S A} (Q : A -> S -> Prop) (E : S -> Prop) (x : S * result A) : Prop :=
  match x.2 with Ok a => Q a x.1 | Throw e => e <> Terminate /\ E x.1 end.

Section ends.
Context {S : Type}.

Lemma ends_bind {A B} (Q : B -> S -> Prop) (Q' : A -> S -> Prop) (E E' : S -> Prop) (p : M S A) (f : A -> M S B) s :
  ends Q' E' (p s) -> (forall s', E' s' -> E s') -> (forall a s', Q' a s' -> ends Q E (f a s')) -> ends Q E ((p ≫= f) s).
Proof. unfold ends, mbind, M_bind. destruct (p s) as [s' [a|e]]; cbn; [intros H _ Hf; by apply Hf|]. intros [He H] HE _. auto. Qed.

Lemma ends_weaken {A} (Q Q' : A -> S -> Prop) (E E' : S -> Prop) x :
  ends Q' E' x -> (forall a s, Q' a s -> Q a s) -> (forall s, E' s -> E s) -> ends Q E x.
Proof. unfold ends. destruct x as [s [a|e]]; cbn; [by auto|]. intros [He H] _ HE. auto. Qed.

Lemma ends_run {A} (Q : A -> S -> Prop) (E : S -> Prop) (p : M S A) s s' a : p s = (s', Ok a) -> Q a s' -> ends Q E (p s).
Proof. unfold ends. by intros ->. Qed.

(** A value computed without touching the state. *)
Lemma ends_lift {A B} (Q : B -> S -> Prop) (E : S -> Prop) (r : result A) (f : A -> M S B) s :
  r <> Throw Terminate -> E s -> (forall a, r = Ok a -> ends Q E (f a s)) -> ends Q E ((a ← mlift r; f a) s).
Proof. unfold ends, mlift, mbind, M_bind. destruct r as [a|e]; cbn; [intros _ _ Hf; by apply Hf|]. intros He HE _. split; [congruence|done]. Qed.

Lemma ends_throw_if {B} (Q : B -> S -> Prop) (E : S -> Prop) b e (f : unit -> M S B) s :
  e <> Terminate -> E s -> (b = false -> ends Q E (f tt s)) -> ends Q E ((u ← mthrow_if b e; f u) s).
Proof. intros He HE Hf. apply ends_lift; [destruct b; cbn; congruence|done|]. intros [] H%throw_if_Ok. by apply Hf. Qed.
End ends.

(** ** What a round leaves alone *)

Record round_frame (m m' : Manager) : Prop := {
  rf_config : mg_config m' = mg_config m;
  rf_transaction : transaction_ m' = transaction_ m;
  rf_lanes : forall l, at_index (lanes_ m') l = Some LaneMaterializing <-> at_index (lanes_ m) l = Some LaneMaterializing;
  rf_active : forall l, at_index (lanes_ m) l = Some LaneMaterializing -> at_index (active_ m') l = at_index (active_ m) l;
}.
Lemma round_frame_refl m : round_frame m m.
Proof. done. Qed.
Lemma round_frame_trans m1 m2 m3 : round_frame m1 m2 -> round_frame m2 m3 -> round_frame m1 m3.
Proof.
  intros [? ? L1 A1] [? ? L2 A2]. split; try congruence.
  - intros l. by rewrite L2.
  - intros l Hl. rewrite A2 by by apply L1. by apply A1.
Qed.

(** The state after a call on a lane, returned or thrown. *)
Definition kept (g : Ghost) (m m' : Manager) : Prop := cache_inv g m' /\ round_frame m m'.
Definition keeps {A} (g : Ghost) (p : M Manager A) (m : Manager) : Prop := ends (fun _ => kept g m) (kept g m) (p m).

Lemma round_kept_refl g m : cache_inv g m -> kept g m m.
Proof. by split. Qed.
Lemma round_kept_trans g m1 m2 m3 : kept g m1 m2 -> kept g m2 m3 -> kept g m1 m3.
Proof. intros [_ F1] [H F2]. split; [done|by eapply round_frame_trans]. Qed.

Lemma keeps_bind {A B} g (p : M Manager A) (f : A -> M Manager B) m :
  keeps g p m -> (forall a m', p m = (m', Ok a) -> kept g m m' -> keeps g (f a) m') -> keeps g (p ≫= f) m.
Proof.
  intros Hp Hf. unfold keeps in *. destruct (p m) as [m' [a|e]] eqn:Hrun.
  - change (kept g m m') in Hp. unfold mbind, M_bind. rewrite Hrun. eapply ends_weaken; [by apply Hf| |]; intros *; by apply round_kept_trans.
  - unfold mbind, M_bind. rewrite Hrun. done.
Qed.

Lemma keeps_view {A B} g (r : Manager -> result A) (f : A -> M Manager B) m :
  cache_inv g m -> r m <> Throw Terminate -> (forall a, r m = Ok a -> keeps g (f a) m) -> keeps g (a ← view r; f a) m.
Proof.
  intros Hinv Hr Hf. unfold keeps, ends, view, mbind, M_bind. cbn. destruct (r m) as [a|e]; [by apply Hf|]. cbn. split; [congruence|by apply round_kept_refl].
Qed.

Lemma keeps_throw_if {B} g b e (f : unit -> M Manager B) m :
  cache_inv g m -> e <> Terminate -> (b = false -> keeps g (f tt) m) -> keeps g (u ← mthrow_if b e; f u) m.
Proof. intros Hinv He Hf. apply ends_throw_if; [done|by apply round_kept_refl|done]. Qed.

Lemma keeps_ret {A} g (a : A) m : cache_inv g m -> keeps g (mret a) m.
Proof. intros Hinv. by apply (round_kept_refl g m). Qed.

Lemma keeps_each {A} g (f : A -> M Manager unit) l (P : Manager -> Prop) : forall m,
  cache_inv g m -> P m -> (forall a m', a ∈ l -> cache_inv g m' -> P m' -> keeps g (f a) m') ->
  (forall m1 m2, P m1 -> round_frame m1 m2 -> P m2) -> keeps g (for_each f l) m.
Proof.
  induction l as [|a l IH]; intros m Hinv HP Hf Hstable; cbn [for_each]; [by apply keeps_ret|].
  apply keeps_bind; [apply Hf; [left|done|done]|]. intros _ m' _ [Hinv' Hfr]. apply IH; [done|by eapply Hstable| |done].
  intros b m2 Hb. apply Hf. by right.
Qed.

(** ** One lane *)

Lemma lane_entries g m l : cache_inv g m -> 0 <= l < lane_count_ m -> exists x a, at_index (lanes_ m) l = Some x /\ at_index (active_ m) l = Some a.
Proof.
  intros Hinv Hl. pose proof (ci_sizes _ _ Hinv) as Hsz. pose proof (so_lanes _ Hsz) as Hc. unfold kMaximumConcurrency in *.
  destruct (at_index_is_Some (lanes_ m) l) as [x Hx]; [rewrite (so_lane_states _ Hsz); lia|].
  destruct (at_index_is_Some (active_ m) l) as [a Ha]; [rewrite (so_active _ Hsz); lia|]. by exists x, a.
Qed.

Lemma require_lane_quiet g m l x : cache_inv g m -> 0 <= l -> require_lane m l x <> Throw Terminate.
Proof.
  intros Hinv Hl. unfold require_lane. destruct (Z.leb_spec (lane_count_ m) l); [done|]. destruct (lane_entries g m l Hinv) as (y & a & Hy & Ha); [lia|].
  unfold lane_at, active_at. rewrite Hy, Ha. cbn. destruct (bool_decide (y = x)); [|done]. cbn. destruct (_ || _); [|done]. by destruct (ac_occupied a).
Qed.

Lemma require_lane_Ok m l x : require_lane m l x = Ok tt -> l < lane_count_ m /\ at_index (lanes_ m) l = Some x /\
  (x = LaneActive \/ x = LaneTerminalPending -> exists a, at_index (active_ m) l = Some a /\ ac_occupied a = true).
Proof.
  unfold require_lane. intros (u1 & Hl%throw_if_Ok%Z.leb_gt & H)%bind_Ok. apply bind_Ok in H as (y & Hy%lane_at_Ok & H).
  apply bind_Ok in H as (u2 & Hx%throw_if_Ok%negb_false_iff%bool_decide_eq_true & H). subst y. split_and!; [done|done|]. intros Hbusy.
  assert (bool_decide (x = LaneActive) || bool_decide (x = LaneTerminalPending) = true) as Hb.
  { destruct Hbusy as [-> | ->]; done. }
  rewrite Hb in H. apply bind_Ok in H as (a & Ha%active_at_Ok & H%throw_if_Ok%negb_false_iff). by exists a.
Qed.

Lemma rewritten_lane (lanes : list LogicalLaneState) l x x' k :
  at_index lanes l = Some x -> x <> LaneMaterializing -> x' <> LaneMaterializing ->
  at_index (set_index lanes l x') k = Some LaneMaterializing <-> at_index lanes k = Some LaneMaterializing.
Proof.
  intros Hx Hn Hn'. pose proof (at_index_lt _ _ _ Hx). destruct (decide (k = l)) as [->|Hne].
  - rewrite at_set_index_eq, Hx by lia. split; congruence.
  - destruct (decide (0 <= k)); [by rewrite at_set_index_ne by lia|]. unfold at_index. rewrite !decide_False by lia. done.
Qed.

(** A lane in use moves to another state of use. *)
Lemma put_lane_kept g m l x x' :
  cache_inv g m -> at_index (lanes_ m) l = Some x -> x = LaneActive \/ x = LaneTerminalPending -> x' = LaneActive \/ x' = LaneTerminalPending ->
  l < lane_count_ m -> exists m', put_lane l x' m = (m', Ok tt) /\ kept g m m' /\ m' = set_lanes (set_index (lanes_ m) l x') m.
Proof.
  intros Hinv Hx Hb Hb' Hl. rewrite (run_put_lane _ _ _ _ Hx). eexists. split; [reflexivity|]. split; [|done].
  pose proof (at_index_lt _ _ _ Hx). destruct (lane_entries g m l Hinv) as (y & a & _ & Ha); [lia|].
  pose proof Hx as [_ Hx']%at_index_Some. pose proof Ha as [_ Ha']%at_index_Some.
  assert (ac_occupied a = true) as Hocc by by eapply (lo_busy _ (ci_lanes _ _ Hinv)). split.
  - apply (cache_inv_lane g m l x x' a); try done. intros ->. by destruct Hb'.
  - split; [done|done| |done]. intros k. apply (rewritten_lane _ _ x); [done| |]; [by destruct Hb as [-> | ->]|by destruct Hb' as [-> | ->]].
Qed.

Lemma mark_terminal_pending_keeps g m l : cache_inv g m -> 0 <= l -> keeps g (mark_terminal_pending l) m.
Proof.
  intros Hinv Hl. unfold mark_terminal_pending. apply keeps_view; [done|by eapply require_lane_quiet|]. intros [] (Hlt & Hx & _)%require_lane_Ok.
  destruct (put_lane_kept g m l LaneActive LaneTerminalPending Hinv Hx) as (m' & Hrun & Hk & _); [auto|auto|done|]. by eapply ends_run.
Qed.

(** A lane in use is released, and its slot emptied. *)
Lemma release_lane_kept g m l a x :
  cache_inv g m -> at_index (active_ m) l = Some a -> ac_occupied a = true -> at_index (lanes_ m) l = Some x -> x <> LaneMaterializing -> l < lane_count_ m ->
  exists m', release_lane l m = (m', Ok tt) /\ kept g m m'.
Proof.
  intros Hinv Ha Hocc Hx Hne Hl. destruct (run_release_lane g m l a x Hinv Ha Hocc Hx) as [e Hrun]. eexists. split; [exact Hrun|]. split.
  - apply cache_inv_retire; try done; apply clear_entry_ok.
  - split; [done|done|intros k; by apply (rewritten_lane _ _ x)|]. intros k Hk. pose proof (at_index_lt _ _ _ Hx). cbn. rewrite at_set_index_ne; [done|lia|].
    intros <-. congruence.
Qed.

Lemma release_cancelled_lane_keeps g m l : cache_inv g m -> 0 <= l -> keeps g (release_cancelled_lane l) m.
Proof.
  intros Hinv Hl. unfold release_cancelled_lane. change (keeps g (u ← mthrow_if (lane_count_ m <=? l) LogicError;
    a ← get_active l; _ ← mthrow_if (negb (ac_occupied a)) LogicError; state ← view (fun m => lane_at m l);
    _ ← mthrow_if (negb (bool_decide (state = LaneActive)) && negb (bool_decide (state = LaneTerminalPending))) LogicError; release_lane l) m).
  apply keeps_throw_if; [done|done|]. intros Hlt%Z.leb_gt. destruct (lane_entries g m l Hinv) as (x & a & Hx & Ha); [lia|].
  apply keeps_view; [done|unfold active_at; by rewrite Ha|]. intros b Hb%active_at_Ok. assert (b = a) as -> by congruence.
  apply keeps_throw_if; [done|done|]. intros Hocc%negb_false_iff. apply keeps_view; [done|unfold lane_at; by rewrite Hx|].
  intros y Hy%lane_at_Ok. assert (y = x) as -> by congruence. apply keeps_throw_if; [done|done|]. intros Hst.
  destruct (release_lane_kept g m l a x Hinv Ha Hocc Hx) as (m' & Hrun & Hk); [by intros ->|done|]. by eapply ends_run.
Qed.

(** ** Rows *)

Lemma commit_rows_keeps g lanes : forall rows m,
  cache_inv g m -> Forall (fun l => 0 <= l) lanes -> (length lanes <= length rows)%nat -> keeps g (commit_rows lanes rows) m.
Proof.
  induction lanes as [|l lanes IH]; intros rows m Hinv Hls Hlen; cbn [commit_rows]; [by apply keeps_ret|].
  apply Forall_cons in Hls as [Hl Hls]. apply keeps_view; [done|by eapply require_lane_quiet|]. intros [] (Hlt & Hx & _)%require_lane_Ok.
  destruct rows as [|row rows]; [cbn in Hlen; lia|]. apply keeps_bind.
  - destruct row; [by apply keeps_ret| |by apply release_cancelled_lane_keeps].
    destruct (put_lane_kept g m l LaneActive LaneTerminalPending Hinv Hx) as (m' & Hrun & Hk & _); [auto|auto|done|]. by eapply ends_run.
  - intros _ m' _ [Hinv' _]. apply IH; [done|done|]. cbn in Hlen. lia.
Qed.

Lemma apply_commit_keeps g m lanes r :
  cache_inv g m -> Forall (fun l => 0 <= l) lanes -> (length lanes <= length (ct_rows r))%nat -> keeps g (apply_commit lanes r) m.
Proof. intros Hinv Hls Hlen. apply keeps_throw_if; [done|done|]. intros _. by apply commit_rows_keeps. Qed.

Lemma apply_discard_keeps g m lanes r : cache_inv g m -> Forall (fun l => 0 <= l) lanes -> keeps g (apply_discard lanes r) m.
Proof.
  intros Hinv Hls. apply keeps_throw_if; [done|done|]. intros _. apply (keeps_each g _ _ (fun _ => True)); try done.
  intros l m' Hl Hinv' _. apply release_cancelled_lane_keeps; [done|]. rewrite Forall_forall in Hls. by apply Hls.
Qed.

Lemma swallow_keeps g (p : M Manager unit) m : keeps g p m -> keeps g (swallow p) m.
Proof. unfold keeps, ends, swallow. destruct (p m) as [m' [[]|[]]]; cbn; try done; by intros [_ H]. Qed.

Lemma release_failed_commit_keeps g m lanes : cache_inv g m -> Forall (fun l => 0 <= l) lanes -> keeps g (release_failed_commit lanes) m.
Proof.
  intros Hinv Hls. unfold release_failed_commit. apply (keeps_each g _ _ (fun _ => True)); try done. intros l m' Hl Hinv' _.
  rewrite Forall_forall in Hls. specialize (Hls l Hl). unfold keeps. unfold_M. destruct (Z.leb_spec (lane_count_ m') l); [by apply keeps_ret|].
  destruct (lane_entries g m' l Hinv') as (x & a & Hx & Ha); [lia|]. rewrite (run_get_active _ _ _ Ha). destruct (ac_occupied a); [|by apply keeps_ret].
  by apply swallow_keeps, release_cancelled_lane_keeps.
Qed.

(** ** The emergency cleanup *)

Lemma session_wf_cleared (index : list SessionIndexEntry) :
  session_wf ((fun _ => empty_session) <$> index) /\ forall c x, ~ bound_cell ((fun _ => empty_session) <$> index) c x.
Proof.
  split.
  - replace ((fun _ => empty_session) <$> index) with (replicate (length index) empty_session); [apply session_wf_empty|].
    induction index as [|x index IH]; [done|]. cbn. by rewrite IH.
  - intros c x [Hx Hs]. rewrite list_lookup_fmap in Hx. by apply fmap_Some in Hx as (y & _ & ->).
Qed.

(** The first cells are cleared, and the others were clear. *)
Lemma cleared_lookup {A} (x y : A) n (l : list A) (k : nat) :
  (forall k z, (n <= k)%nat -> l !! k = Some z -> z = x) -> (((fun _ => x) <$> take n l) ++ drop n l) !! k = Some y -> y = x.
Proof.
  intros Hrest [H|[Hle H]]%lookup_app_Some.
  - rewrite list_lookup_fmap in H. by apply fmap_Some in H as (z & _ & ->).
  - rewrite length_fmap, length_take in Hle, H. rewrite lookup_drop in H. eapply Hrest; [|exact H]. apply lookup_lt_Some in H. lia.
Qed.

Lemma clear_keeps g m :
  cache_inv g m -> exists m', clear_after_program_cleanup m = (m', Ok tt) /\ cache_inv no_ghost m' /\ mg_config m' = mg_config m /\ transaction_ m' = NoTransaction.
Proof.
  intros Hinv. eexists. split; [reflexivity|]. split; [|done]. pose proof (ci_lanes _ _ Hinv) as [Lo Lf Lb Lu]. pose proof (ci_sizes _ _ Hinv) as Hsz.
  set (n := Z.to_nat (lane_count_ m)).
  assert (forall k (z : LogicalLaneState), (n <= k)%nat -> lanes_ m !! k = Some z -> z = LaneFree) as Hl.
  { intros k z Hk Hz. pose proof (lookup_lt_Some _ _ _ Hz) as Hlt. rewrite (so_lane_states _ Hsz) in Hlt. rewrite Lu in Hz by lia. congruence. }
  assert (forall k (a : ActiveEntry), (n <= k)%nat -> active_ m !! k = Some a -> a = empty_active) as Ha.
  { intros k a Hk Hz. pose proof (lookup_lt_Some _ _ _ Hz) as Hlt. rewrite (so_active _ Hsz) in Hlt. eapply Lf; [exact Hz|]. apply Lu. lia. }
  assert (forall l a, occupied_lane (((fun _ => empty_active) <$> take n (active_ m)) ++ drop n (active_ m)) l a -> False) as Hno.
  { intros l a [Hk Ho]. apply cleared_lookup in Hk as ->; [done|exact Ha]. }
  destruct (session_wf_cleared (session_index_ m)) as [Hwf Hnb].
  split; cbn; try done.
  - destruct Hsz. split; cbn; rewrite ?length_app, ?length_fmap, ?length_drop, ?length_take; try done; lia.
  - intros s e. rewrite at_index_fmap. by intros (e0 & _ & ->)%fmap_Some.
  - intros s e. rewrite at_index_fmap. by intros (e0 & _ & ->)%fmap_Some.
  - split; cbn.
    + intros l a Hk _. by apply cleared_lookup in Hk; [|exact Ha].
    + intros l a Hk _. by apply cleared_lookup in Hk; [|exact Ha].
    + intros l a x _ Hx. apply cleared_lookup in Hx as ->; [|exact Hl]. by intros [|].
    + intros k Hk. destruct (lookup_lt_is_Some_2 (((fun _ => LaneFree) <$> take n (lanes_ m)) ++ drop n (lanes_ m)) k) as [x Hx].
      { rewrite length_app, length_fmap, length_take, length_drop, (so_lane_states _ Hsz). lia. }
      fold n. rewrite Hx. f_equal. by apply cleared_lookup in Hx; [|exact Hl].
  - intros l a Hk. by destruct (Hno l a).
  - intros s e. rewrite at_index_fmap. by intros (e0 & _ & ->)%fmap_Some.
  - intros l1 a1 l2 a2 Hk. by destruct (Hno l1 a1).
  - intros l a Hk. by destruct (Hno l a).
  - intros c x Hx. by destruct (Hnb c x).
  - intros c x l a Hx. by destruct (Hnb c x).
  - intros l1 a1 l2 a2 Hk. by destruct (Hno l1 a1).
Qed.

(** ** Checks do not terminate

    The checks that precede a change read slots and lanes; on slots that are not negative they return
    or throw an exception that a caller may catch. *)

Definition quiet {A} (r : result A) : Prop := r <> Throw Terminate.

Lemma quiet_Ok {A} (a : A) : quiet (Ok a).
Proof. done. Qed.
Lemma quiet_throw_if b e : e <> Terminate -> quiet (throw_if b e).
Proof. unfold quiet. destruct b; cbn; congruence. Qed.
Lemma quiet_bind {A B} (r : result A) (f : A -> result B) : quiet r -> (forall a, r = Ok a -> quiet (f a)) -> quiet (r ≫= f).
Proof. unfold quiet. destruct r as [a|e]; cbn; intros H Hf; [by apply Hf|congruence]. Qed.

Lemma quiet_check_each {A} (f : A -> result unit) l : (forall a, a ∈ l -> quiet (f a)) -> quiet (check_each f l).
Proof.
  induction l as [|a l IH]; intros Hf; cbn [check_each]; [done|]. apply quiet_bind; [apply Hf; left|]. intros _ _. apply IH. intros b Hb. apply Hf. by right.
Qed.
Lemma quiet_result_for {A} (owner_of : A -> PlanningOwnerId) owner rows : quiet (result_for owner_of owner rows).
Proof. induction rows as [|row rows IH]; cbn [result_for]; [done|]. destruct (_ =? _); [|done]. by destruct (existsb _ _). Qed.
Lemma quiet_unique_claims excluded foreign claims : forall previous, quiet (unique_claims excluded foreign previous claims).
Proof.
  induction claims as [|claim claims IH]; intros previous; cbn [unique_claims]; [done|].
  apply quiet_bind; [by apply quiet_throw_if|]. intros _ _. apply quiet_bind; [by apply quiet_throw_if|]. intros _ _. apply IH.
Qed.

(** The bounds that the checks passed so far have shown. *)
Ltac passed :=
  repeat match goal with
    | H : throw_if _ _ = Ok _ |- _ => apply throw_if_Ok in H
    | H : _ || _ = false |- _ => apply orb_false_iff in H as [? ?]
    | H : (_ <=? _) = false |- _ => apply Z.leb_gt in H
    end.

Ltac quiet_step :=
  match goal with
  | |- quiet (Ok _) => apply quiet_Ok
  | |- quiet (throw_if _ _) => apply quiet_throw_if; discriminate
  | |- quiet (Throw _) => discriminate
  | |- quiet (_ ≫= _) => apply quiet_bind; [|intros ? ?]
  | |- quiet (check_each _ _) => apply quiet_check_each; intros ? ?
  | |- quiet (result_for _ _ _) => apply quiet_result_for
  | |- quiet (unique_claims _ _ _ _) => apply quiet_unique_claims
  | |- quiet (match ?x with _ => _ end) => destruct x eqn:?
  end.
Ltac quiet_steps := repeat quiet_step.

Section reads.
Context (g : Ghost) (m : Manager) (Hinv : cache_inv g m).

Lemma quiet_entry_at s : 0 <= s < catalog_count_ m -> quiet (entry_at m s).
Proof. intros Hs. destruct (at_index_is_Some (catalog_ m) s) as [e He]; [by rewrite (so_catalog _ (ci_sizes _ _ Hinv))|]. unfold entry_at. by rewrite He. Qed.
Lemma quiet_shared_at s : 0 <= s < shared_catalog_count_ m -> quiet (shared_at m s).
Proof. intros Hs. destruct (at_index_is_Some (shared_catalog_ m) s) as [e He]; [by rewrite (so_shared _ (ci_sizes _ _ Hinv))|]. unfold shared_at. by rewrite He. Qed.
Lemma quiet_lane_at l : 0 <= l < lane_count_ m -> quiet (lane_at m l).
Proof. intros Hl. destruct (lane_entries g m l Hinv Hl) as (x & a & Hx & _). unfold lane_at. by rewrite Hx. Qed.
Lemma quiet_active_at l : 0 <= l < lane_count_ m -> quiet (active_at m l).
Proof. intros Hl. destruct (lane_entries g m l Hinv Hl) as (x & a & _ & Ha). unfold active_at. by rewrite Ha. Qed.
End reads.

(** A slot read after its bound was checked. *)
Ltac quiet_read := passed; match goal with
  | |- quiet (entry_at _ _) => eapply quiet_entry_at; [eassumption|lia]
  | |- quiet (shared_at _ _) => eapply quiet_shared_at; [eassumption|lia]
  | |- quiet (lane_at _ _) => eapply quiet_lane_at; [eassumption|lia]
  | |- quiet (active_at _ _) => eapply quiet_active_at; [eassumption|lia]
  end.

(** ** Slots of records *)

Definition claims_nonneg (claims : list OwnerClaim) : Prop := forall claim, claim ∈ claims -> 0 <= cc_slot (cl_capability claim).
Definition capability_nonneg (c : option CatalogCapability) : Prop := forall k, c = Some k -> 0 <= cc_slot k.

(** A record's slots and lanes are [std::uint32_t]. *)
Record record_nonneg (r : MaterializationRecord) : Prop := {
  rn_destination : 0 <= mt_destination r;
  rn_publication : 0 <= mt_publication_slot r;
  rn_private : capability_nonneg (mt_private_source r);
  rn_shared : capability_nonneg (mt_shared_source r);
  rn_private_claims : claims_nonneg (mt_private_claims r);
  rn_shared_claims : claims_nonneg (mt_shared_claims r);
}.
Record capture_nonneg (r : ActiveCaptureRecord) : Prop := {
  cn_lane : 0 <= cap_lane r;
  cn_publication : 0 <= cap_publication_slot r;
  cn_private_claims : claims_nonneg (cap_private_claims r);
  cn_shared_claims : claims_nonneg (cap_shared_claims r);
}.

Section checks.
Context (g : Ghost) (m : Manager) (Hinv : cache_inv g m).

Lemma quiet_catalogued_private c : 0 <= cc_slot c < catalog_count_ m -> quiet (catalogued_private m c).
Proof. intros Hc. unfold catalogued_private. quiet_steps. quiet_read. Qed.
Lemma quiet_catalogued_shared c : 0 <= cc_slot c < shared_catalog_count_ m -> quiet (catalogued_shared m c).
Proof. intros Hc. unfold catalogued_shared. quiet_steps. quiet_read. Qed.
Lemma quiet_unused_shared c : 0 <= cc_slot c < shared_catalog_count_ m -> quiet (unused_shared m c).
Proof. intros Hc. unfold unused_shared. quiet_steps. quiet_read. Qed.

Lemma quiet_validate_private_claim r claim : 0 <= cc_slot (cl_capability claim) -> quiet (validate_private_claim m r claim).
Proof. intros Hc. unfold validate_private_claim. quiet_steps. passed. by apply quiet_catalogued_private. Qed.
Lemma quiet_validate_shared_claim r claim : 0 <= cc_slot (cl_capability claim) -> quiet (validate_shared_claim m r claim).
Proof. intros Hc. unfold validate_shared_claim. quiet_steps; passed; [by apply quiet_catalogued_shared|by apply quiet_unused_shared]. Qed.

Lemma quiet_validate_choice r revision : record_nonneg r -> quiet (validate_choice m r revision).
Proof.
  intros [Hd Hp Hps Hss Hpc Hsc]. unfold validate_choice. quiet_steps; try by (apply quiet_validate_private_claim, Hpc).
  all: try (apply quiet_validate_shared_claim; by apply Hsc).
  - quiet_read.
  - passed. apply quiet_catalogued_private. split; [by apply Hps|done].
  - passed. apply quiet_catalogued_shared. split; [by apply Hss|done].
  - passed. quiet_read.
Qed.

Lemma quiet_validate_private_action claim committed r : 0 <= cc_slot (cl_capability claim) -> quiet (validate_private_action m claim committed r).
Proof. intros Hc. unfold validate_private_action. quiet_steps. quiet_read. Qed.
Lemma quiet_validate_shared_action claim committed r : 0 <= cc_slot (cl_capability claim) -> quiet (validate_shared_action m claim committed r).
Proof. intros Hc. unfold validate_shared_action. quiet_steps. quiet_read. Qed.

Lemma quiet_check_private_results committed victims claims : claims_nonneg claims -> quiet (check_private_results m committed victims claims).
Proof. intros Hc. unfold check_private_results. quiet_steps. by apply quiet_validate_private_action, Hc. Qed.
Lemma quiet_check_shared_results committed victims claims : claims_nonneg claims -> quiet (check_shared_results m committed victims claims).
Proof. intros Hc. unfold check_shared_results. quiet_steps. by apply quiet_validate_shared_action, Hc. Qed.

Lemma quiet_victim_releases slot victims claims : quiet (victim_releases slot victims claims).
Proof. induction claims as [|claim claims IH]; cbn [victim_releases]; quiet_steps; done. Qed.

Lemma quiet_check_materialization record r : record_nonneg record -> quiet (check_materialization m record r).
Proof.
  intros [Hd Hp Hps Hss Hpc Hsc]. unfold check_materialization, check_private_source, check_shared_source, check_publication_cell.
  quiet_steps; try (by apply quiet_check_private_results); try (by apply quiet_check_shared_results); try by apply quiet_victim_releases.
  all: try quiet_read.
  all: passed.
  all: try (eapply quiet_entry_at; [exact Hinv|]; split; [by apply Hps|done]).
  all: try (eapply quiet_shared_at; [exact Hinv|]; split; [by apply Hss|done]).
Qed.

Lemma quiet_check_capture record r : capture_nonneg record -> quiet (check_capture m record r).
Proof.
  intros [Hl Hp Hpc Hsc]. unfold check_capture, check_shared_publication, checked_entry.
  quiet_steps; try (by apply quiet_check_private_results); try (by apply quiet_check_shared_results); try quiet_read.
  by destruct (at_index _ _).
Qed.
End checks.
