(* ===== verification/ContextCalls.v ===== *)
(** * Context cache: the calls that open and close transactions

    Between the calls of the resource manager the catalogs, lanes and sessions satisfy the invariant of
    the open transaction; reserving a materialization and adopting a result keep it, and an activation
    that was published is adopted without a failure. *)

From S2P Require Import Prelude ContextTypes SessionIndex ContextCatalog ContextManager ContextInvariant ContextActions ContextReserve ContextAdopt ContextPublish ContextCapture ContextLanes ContextRounds.
Open Scope Z_scope.

(** ** The invariant between calls *)

Definition lane_occupied (m : Manager) (l : Z) : bool := match at_index (active_ m) l with Some a => ac_occupied a | None => false end.

(** The slots that the open transaction has taken; a published materialization holds none. *)
Definition ghost_of (m : Manager) : Ghost :=
  match transaction_ m with
  | NoTransaction => no_ghost
  | OpenMaterialization r => if lane_occupied m (mt_destination r) then no_ghost else record_ghost r
  | OpenCapture r => capture_ghost r
  end.

(** What the record of the open transaction promises. *)
Definition transaction_ok (m : Manager) : Prop :=
  match transaction_ m with
  | NoTransaction => True
  | OpenMaterialization r => record_nonneg r /\ hit_key_ok r /\ consumes_in_place r /\ mt_destination r < lane_count_ m
  | OpenCapture r => capture_nonneg r
  end.

Record manager_ok (m : Manager) : Prop := {
  mo_cache : cache_inv (ghost_of m) m;
  mo_transaction : transaction_ok m;
  mo_materializing : forall l, at_index (lanes_ m) l = Some LaneMaterializing <-> exists r, transaction_ m = OpenMaterialization r /\ mt_destination r = l;
}.

Lemma manager_idle m : manager_ok m -> transaction_ m = NoTransaction -> cache_inv no_ghost m.
Proof. intros [H _ _] Ht. unfold ghost_of in H. by rewrite Ht in H. Qed.

Lemma idle_manager m :
  cache_inv no_ghost m -> transaction_ m = NoTransaction -> (forall l, at_index (lanes_ m) l <> Some LaneMaterializing) -> manager_ok m.
Proof.
  intros Hinv Ht Hl. split; unfold ghost_of, transaction_ok; rewrite ?Ht; [done|done|]. intros l. split; [by intros ?%Hl|by intros (r & ? & _)].
Qed.

Lemma idle_lanes m : manager_ok m -> (forall r, transaction_ m <> OpenMaterialization r) -> forall l, at_index (lanes_ m) l <> Some LaneMaterializing.
Proof. intros Hok Ht l (r & Hr & _)%(mo_materializing _ Hok). by apply (Ht r). Qed.

(** A call on lanes in use keeps the invariant of the open transaction. *)
Lemma kept_manager m m' : manager_ok m -> kept (ghost_of m) m m' -> manager_ok m'.
Proof.
  intros [Hc Ht Hm] [Hinv [Fc Ftr Fl Fa]]. assert (ghost_of m' = ghost_of m) as Hg.
  { unfold ghost_of, lane_occupied. rewrite Ftr. destruct (transaction_ m) as [|r|] eqn:Htr; [done| |done].
    by rewrite Fa by (apply Hm; by exists r). }
  split; [by rewrite Hg| |].
  - unfold transaction_ok, lane_count_ in *. by rewrite Ftr, Fc.
  - intros l. rewrite Fl, Ftr. apply Hm.
Qed.

(** ** Worlds *)

Section session.
Context `{ML : ModelContractLaws}.

(** A published activation that was not adopted yet belongs to the open materialization. *)
Definition token_ok (t : option PublishedActivation) (c : Cache) : Prop := forall a, t = Some a ->
  pa_owner a = Some (cf_self (mg_config (ch_manager c))) /\ has (pa_result a) = true /\
  (exists r, transaction_ (ch_manager c) = OpenMaterialization r /\ mt_destination r = pa_destination a) /\
  lane_occupied (ch_manager c) (pa_destination a) = true /\ has_context_transaction (ch_program c) = true.

(** After a call that publishes nothing. *)
Definition carried (c c' : Cache) : Prop := manager_ok (ch_manager c') /\ forall t, token_ok t c -> token_ok t c'.
Definition carries {A} (x : M Cache A) (c : Cache) : Prop := ends (fun _ => carried c) (carried c) (x c).

Lemma carried_refl c : manager_ok (ch_manager c) -> carried c c.
Proof. by split. Qed.

(** No activation is outstanding unless a materialization is open. *)
Lemma carried_idle c c' : manager_ok (ch_manager c') -> (forall r, transaction_ (ch_manager c) <> OpenMaterialization r) -> carried c c'.
Proof. intros Hok Hidle. split; [done|]. intros t Ht a Ha. destruct (Ht a Ha) as (_ & _ & (r & Hr & _) & _). by destruct (Hidle r). Qed.

Lemma carried_kept c m' p' :
  manager_ok (ch_manager c) -> kept (ghost_of (ch_manager c)) (ch_manager c) m' ->
  (has_context_transaction (ch_program c) = true -> has_context_transaction p' = true) -> carried c (mkCache m' p').
Proof.
  intros Hok Hk Hp. split; [by apply (kept_manager (ch_manager c))|]. destruct Hk as [_ [Fc Ftr Fl Fa]].
  intros t Ht a Ha. destruct (Ht a Ha) as (H1 & H2 & (r & Hr & Hd) & H4 & H5). cbn. rewrite Fc, Ftr. split_and!; try done; [by exists r| |by apply Hp].
  unfold lane_occupied in *. rewrite Fa; [done|]. apply (mo_materializing _ Hok). by exists r.
Qed.

Lemma carries_keeps {A} (p : M Manager A) c :
  manager_ok (ch_manager c) -> keeps (ghost_of (ch_manager c)) p (ch_manager c) -> carries (on_manager p) c.
Proof.
  intros Hok Hk. unfold carries, ends, keeps, on_manager in *. destruct (p (ch_manager c)) as [m' [a|e]]; cbn in *.
  - by apply carried_kept.
  - destruct Hk as [He Hk]. split; [done|by apply carried_kept].
Qed.

(** Reading, checking and calling, one step at a time. *)
Lemma ends_read {A B} (Q : B -> Cache -> Prop) E (f : Manager -> Program -> A) (k : A -> M Cache B) c :
  ends Q E (k (f (ch_manager c) (ch_program c)) c) -> ends Q E ((a ← read f; k a) c).
Proof. done. Qed.
Lemma ends_get {B} (Q : B -> Cache -> Prop) E (k : Cache -> M Cache B) c : ends Q E (k c c) -> ends Q E ((a ← mget; k a) c).
Proof. done. Qed.
Lemma ends_set_open {B} (Q : B -> Cache -> Prop) E x (k : unit -> M Cache B) c :
  ends Q E (k tt (mkCache (set_transaction x (ch_manager c)) (ch_program c))) -> ends Q E ((u ← set_open x; k u) c).
Proof. done. Qed.
Lemma ends_view {A B} (Q : B -> Cache -> Prop) (E : Cache -> Prop) (r : Manager -> result A) (k : A -> M Cache B) c :
  quiet (r (ch_manager c)) -> E c -> (forall a, r (ch_manager c) = Ok a -> ends Q E (k a c)) -> ends Q E ((a ← on_manager (view r); k a) c).
Proof.
  intros Hq HE Hk. unfold ends, on_manager, view, mbind, M_bind. destruct c as [m p]. cbn in *. destruct (r m) as [a|e]; cbn; [by apply Hk|].
  split; [|done]. unfold quiet in Hq. congruence.
Qed.
Lemma ends_manager {A B} (Q : B -> Cache -> Prop) E (x : M Manager A) m' a (k : A -> M Cache B) c :
  x (ch_manager c) = (m', Ok a) -> ends Q E (k a (mkCache m' (ch_program c))) -> ends Q E ((a ← on_manager x; k a) c).
Proof. intros Hx Hk. unfold ends, on_manager, mbind, M_bind. by rewrite Hx. Qed.
Lemma ends_program {A B} (Q : B -> Cache -> Prop) (E : Cache -> Prop) (x : M Program A) (k : A -> M Cache B) c :
  (forall p, (x p).2 <> Throw Terminate) -> (forall p' r, x (ch_program c) = (p', r) -> E (mkCache (ch_manager c) p')) ->
  (forall p' a, x (ch_program c) = (p', Ok a) -> ends Q E (k a (mkCache (ch_manager c) p'))) -> ends Q E ((a ← on_program x; k a) c).
Proof.
  intros Hq HE Hk. specialize (Hq (ch_program c)). unfold ends, on_program, mbind, M_bind. destruct (x (ch_program c)) as [p' [a|e]]; cbn in *.
  - by apply Hk.
  - split; [congruence|by eapply HE].
Qed.
Lemma ends_ret {A} (Q : A -> Cache -> Prop) E (a : A) c : Q a c -> ends Q E ((mret a : M Cache A) c).
Proof. done. Qed.
Lemma ends_throw {A} (Q : A -> Cache -> Prop) (E : Cache -> Prop) e c : e <> Terminate -> E c -> ends Q E ((mthrow e : M Cache A) c).
Proof. done. Qed.

(** ** Calls of rounds *)

Lemma mark_carries c l : manager_ok (ch_manager c) -> 0 <= l -> carries (on_manager (mark_terminal_pending l)) c.
Proof. intros Hok Hl. apply carries_keeps; [done|]. by apply mark_terminal_pending_keeps; [apply mo_cache|]. Qed.
Lemma commit_carries c lanes r :
  manager_ok (ch_manager c) -> Forall (fun l => 0 <= l) lanes -> (length lanes <= length (ct_rows r))%nat -> carries (on_manager (apply_commit lanes r)) c.
Proof. intros Hok Hl Hlen. apply carries_keeps; [done|]. by apply apply_commit_keeps; [apply mo_cache|..]. Qed.
Lemma discard_carries c lanes r : manager_ok (ch_manager c) -> Forall (fun l => 0 <= l) lanes -> carries (on_manager (apply_discard lanes r)) c.
Proof. intros Hok Hl. apply carries_keeps; [done|]. by apply apply_discard_keeps; [apply mo_cache|]. Qed.
Lemma failed_commit_carries c lanes : manager_ok (ch_manager c) -> Forall (fun l => 0 <= l) lanes -> carries (on_manager (release_failed_commit lanes)) c.
Proof. intros Hok Hl. apply carries_keeps; [done|]. by apply release_failed_commit_keeps; [apply mo_cache|]. Qed.

Lemma clear_ends c :
  manager_ok (ch_manager c) ->
  ends (fun _ c' => manager_ok (ch_manager c')) (fun _ => False) (on_manager clear_after_program_cleanup c).
Proof.
  intros Hok. destruct (clear_keeps _ _ (mo_cache _ Hok)) as (m' & Hrun & Hinv & _ & Ht). unfold ends, on_manager. rewrite Hrun. cbn.
  apply idle_manager; [done|done|]. assert (m' = (clear_after_program_cleanup (ch_manager c)).1) as -> by by rewrite Hrun. cbn.
  intros l (_ & [Hk|[_ Hk]]%lookup_app_Some)%at_index_Some.
  - rewrite list_lookup_fmap in Hk. by apply fmap_Some in Hk as (x & _ & ?).
  - rewrite lookup_drop in Hk. rewrite length_fmap, length_take in Hk. pose proof (lookup_lt_Some _ _ _ Hk) as Hlt.
    pose proof (so_lane_states _ (ci_sizes _ _ (mo_cache _ Hok))) as Hlen. rewrite Hlen in Hlt.
    rewrite (lo_unused _ (ci_lanes _ _ (mo_cache _ Hok))) in Hk by lia. done.
Qed.

(** ** Reserving a materialization *)

(** What a choice promises: its slots are unsigned, a consumed source is consumed in place, and no
    sequence or name has its publication order. *)
Record choice_ok (m : Manager) (r : MaterializationRecord) : Prop := {
  ch_nonneg : record_nonneg r;
  ch_hit : hit_key_ok r;
  ch_place : consumes_in_place r;
  ch_order : order_unused m (mt_publication_order r);
}.

Lemma valid_with_transaction x m r : choice_valid m r -> choice_valid (set_transaction x m) r.
Proof. intros []. by split. Qed.

Lemma set_transaction_twice x y m : set_transaction x (set_transaction y m) = set_transaction x m.
Proof. done. Qed.
Lemma set_transaction_same m : set_transaction (transaction_ m) m = m.
Proof. by destruct m. Qed.

Lemma free_lane_unoccupied g m l : cache_inv g m -> at_index (lanes_ m) l = Some LaneFree -> lane_occupied m l = false.
Proof.
  intros Hinv Hl. unfold lane_occupied. destruct (at_index (active_ m) l) as [a|] eqn:Ha; [|done].
  apply at_index_Some in Ha as [_ Ha]. apply at_index_Some in Hl as [_ Hl]. by rewrite (lo_free _ (ci_lanes _ _ Hinv) _ _ Ha Hl).
Qed.

(** The state in which the program is asked to start. *)
Lemma reserved_ok m r :
  manager_ok m -> transaction_ m = NoTransaction -> choice_ok m r -> choice_valid m r ->
  manager_ok (reserved r (set_transaction (OpenMaterialization r) m)).
Proof.
  intros Hok Ht [Hn Hh Hp Ho] Hv. pose proof (manager_idle _ Hok Ht) as Hinv. destruct (cv_lane _ _ Hv) as [Hlane Hlt].
  pose proof (at_index_lt _ _ _ Hlane) as Hll.
  assert (cache_inv (record_ghost r) (reserved r (set_transaction (OpenMaterialization r) m))) as Hr.
  { apply reserved_inv; [by apply cache_inv_transaction|by apply valid_with_transaction|done]. }
  split.
  - unfold ghost_of. cbn. change (lane_occupied _ _) with (lane_occupied m (mt_destination r)). by rewrite (free_lane_unoccupied _ _ _ Hinv Hlane).
  - done.
  - intros l. cbn. split.
    + intros Hl. exists r. split; [done|]. destruct (decide (l = mt_destination r)) as [->|Hne]; [done|]. exfalso.
      apply (idle_lanes m Hok) with l; [by rewrite Ht|]. pose proof (at_index_lt _ _ _ Hl). by rewrite at_set_index_ne in Hl by lia.
    + intros (r' & [= <-] & <-). by apply at_set_index_eq.
Qed.

(** A call that refuses leaves the manager as it was. *)
Definition refused_as_was {A} (c : Cache) (refused : A -> Prop) (r : A) (c' : Cache) : Prop :=
  carried c c' /\ (refused r -> ch_manager c' = ch_manager c).

Lemma reserve_ends c choice prompt cancelled :
  manager_ok (ch_manager c) -> choice_ok (ch_manager c) (cho_record choice) ->
  ends (refused_as_was c (fun r => r <> MatReserved)) (carried c) (reserve_materialization choice prompt cancelled c).
Proof.
  destruct c as [m p]. cbn. intros Hok Hch. unfold reserve_materialization. pose proof (carried_refl (mkCache m p) Hok) as Href.
  apply ends_read. apply ends_throw_if; [done|done|]. intros [Ho Hpt]%orb_false_iff. cbn in Ho.
  assert (transaction_ m = NoTransaction) as Ht by (unfold is_open in Ho; by destruct (transaction_ m)).
  apply ends_read. destruct (cho_plan choice) as [plan|]; [|by apply ends_throw]. apply ends_throw_if; [done|done|]. intros _.
  destruct (negb _); [by refine (conj Href _)|]. set (r := cho_record choice) in *.
  apply ends_view; [by eapply quiet_validate_choice, ch_nonneg; [by apply mo_cache|]|done|]. cbn. intros [] Hv%validate_choice_ok.
  apply ends_set_open. cbn. set (m1 := set_transaction (OpenMaterialization r) m).
  pose proof (reserved_ok m r Hok Ht Hch Hv) as Hok1. fold m1 in Hok1.
  eapply ends_manager; [apply (run_reserve m1 r), valid_with_transaction, Hv|]. cbn.
  assert (forall c', manager_ok (ch_manager c') -> carried (mkCache m p) c') as Hcar.
  { intros c' Hc'. apply carried_idle; [done|]. cbn. by rewrite Ht. }
  apply ends_program; [apply start_throws|by intros; apply Hcar|]. cbn. intros p' status _. destruct status.
  - eapply ends_manager; [reflexivity|]. cbn. refine (conj (Hcar _ _) _); [cbn|done].
    apply (kept_manager (reserved r m1)); [done|]. split; [by apply cache_inv_stats, mo_cache|done].
  - eapply ends_manager; [apply (run_rollback no_ghost m1 r); [by apply cache_inv_transaction, manager_idle|done|by apply valid_with_transaction]|]. cbn.
    apply ends_set_open. cbn. unfold m1. rewrite set_transaction_twice, <- Ht, set_transaction_same. by refine (conj (Hcar (mkCache m p') _) _).
Qed.

(** ** Adopting a materialization *)

Definition published_token (out : ContextTransactionOutcome) (t : option PublishedActivation) : option PublishedActivation :=
  match out with OutcomeMaterialization _ (Some a) _ => Some a | _ => t end.
Definition progressed (c : Cache) (out : ContextTransactionOutcome) (c' : Cache) : Prop :=
  manager_ok (ch_manager c') /\ forall t, token_ok t c -> token_ok (published_token out t) c'.

Lemma run_seq_inv {S A} (x : M S unit) (y : M S A) s s' a : (_ ← x; y) s = (s', Ok a) -> exists s1, x s = (s1, Ok tt) /\ y s1 = (s', Ok a).
Proof. unfold mbind, M_bind. destruct (x s) as [s1 [[]|e]]; [|done]. by exists s1. Qed.

Lemma no_token c t r : transaction_ (ch_manager c) = OpenMaterialization r -> lane_occupied (ch_manager c) (mt_destination r) = false -> token_ok t c -> t = None.
Proof.
  intros Hr Hn Ht. destruct t as [a|]; [|done]. destruct (Ht a eq_refl) as (_ & _ & (r' & Hr' & Hd) & Hocc & _).
  assert (r' = r) as -> by congruence. congruence.
Qed.

(** The lane of an aborted materialization is free again. *)
Lemma released_lane m m' r :
  manager_ok m -> transaction_ m = OpenMaterialization r -> lanes_ m' = set_index (lanes_ m) (mt_destination r) LaneFree ->
  forall l, at_index (lanes_ m') l <> Some LaneMaterializing.
Proof.
  intros Hok Hr Hl l Hk. pose proof (proj2 (mo_materializing _ Hok (mt_destination r)) ltac:(by exists r)) as Hd.
  pose proof (at_index_lt _ _ _ Hd). pose proof (at_index_lt _ _ _ Hk). rewrite Hl in Hk. destruct (decide (l = mt_destination r)) as [->|Hne].
  - by rewrite at_set_index_eq in Hk by lia.
  - rewrite at_set_index_ne in Hk by lia. apply (mo_materializing _ Hok) in Hk as (r' & Hr' & <-). congruence.
Qed.

Lemma adopt_materialization_ends c r :
  manager_ok (ch_manager c) -> ends (progressed c) (carried c) (adopt_materialization_progress r c).
Proof.
  destruct c as [m p]. cbn. intros Hok. pose proof (carried_refl (mkCache m p) Hok) as Href. unfold adopt_materialization_progress.
  apply ends_read, ends_read. cbn. destruct (transaction_ m) as [|record|] eqn:Ht; [by apply ends_throw| |by apply ends_throw].
  apply ends_throw_if; [done|done|]. intros Hopen%negb_false_iff. pose proof (mo_transaction _ Hok) as Htr. unfold transaction_ok in Htr. rewrite Ht in Htr.
  destruct Htr as (Hn & Hkey & Hplace & Hlt). apply ends_view; [by eapply quiet_check_materialization; [by apply mo_cache|]|done|]. cbn.
  intros [] Hck%check_materialization_ok. destruct (ck_active _ _ _ Hck) as (a & Ha & Hocc).
  assert (lane_occupied m (mt_destination record) = false) as Hun by (unfold lane_occupied; by rewrite Ha).
  pose proof (mo_cache _ Hok) as Hinv. unfold ghost_of in Hinv. rewrite Ht, Hun in Hinv.
  assert (forall t, token_ok t (mkCache m p) -> t = None) as Hno by (intros t; by apply (no_token _ _ record)).
  destruct (decide (mr_status r = TxAborted)) as [Hst|Hst].
  - destruct (abort_materialization_ok m record r Hinv Hkey Hck Hst) as (m' & Hrun & Hinv' & Hc & Hl & _).
    apply run_seq_inv in Hrun as (m1 & Hrun1 & (m2 & Hrun2 & Hrun3)%run_seq_inv).
    eapply ends_manager; [exact Hrun1|]. rewrite bool_decide_eq_true_2 by done. eapply ends_manager; [exact Hrun2|]. eapply ends_manager; [exact Hrun3|].
    refine (conj _ _); [|by intros t ->%Hno]. cbn. apply idle_manager; [by apply cache_inv_transaction|done|]. by apply (released_lane m m' record).
  - assert (is_published r = true) as Hp.
    { unfold is_published. apply bool_decide_eq_true. destruct (ck_status _ _ _ Hck) as [Hs _]. by destruct (mr_status r). }
    destruct (publish_materialization_ok m record r Hinv Hkey Hck Hp Hplace) as (m' & b & Hrun & Hinv' & Hc & Hl & Htr' & Hac & Hob).
    apply run_seq_inv in Hrun as (m1 & Hrun1 & Hrun2). eapply ends_manager; [exact Hrun1|]. rewrite bool_decide_eq_false_2 by done.
    eapply ends_manager; [exact Hrun2|]. apply ends_read. cbn.
    assert (lane_occupied m' (mt_destination record) = true) as Hocc'.
    { unfold lane_occupied. rewrite Hac, at_set_index_eq by by eapply at_index_lt. done. }
    refine (conj _ _); cbn.
    + split; unfold ghost_of, transaction_ok, lane_count_; rewrite ?Htr', ?Ht, ?Hocc', ?Hc, ?Hl; [done|done|].
      intros l. rewrite (mo_materializing _ Hok). by rewrite Ht.
    + intros t _ a' [= <-]. cbn. split_and!; try done; [|by exists record; rewrite Htr'].
      destruct (ck_status _ _ _ Hck) as [_ ->]. done.
Qed.

(** [adopt] turns the lane active and closes the transaction. *)
Lemma adopt_ends c a :
  manager_ok (ch_manager c) -> token_ok (Some a) c ->
  ends (fun _ c' => manager_ok (ch_manager c')) (fun _ => False) (adopt a c).
Proof.
  destruct c as [m p]. cbn. intros Hok Htok. destruct (Htok a eq_refl) as (Hown & Hres & (r & Hr & Hd) & Hocc & Hp). cbn in *.
  pose proof (mo_cache _ Hok) as Hinv. unfold ghost_of in Hinv. rewrite Hr, Hd, Hocc in Hinv.
  pose proof (proj2 (mo_materializing _ Hok (pa_destination a)) ltac:(by exists r)) as Hlane.
  pose proof (mo_transaction _ Hok) as Htr. unfold transaction_ok in Htr. rewrite Hr in Htr. destruct Htr as (_ & _ & _ & Hlt). rewrite Hd in Hlt.
  unfold lane_occupied in Hocc. destruct (at_index (active_ m) (pa_destination a)) as [b|] eqn:Hb; [|done].
  unfold adopt. apply ends_read. cbn. unfold lane_at, active_at. rewrite Hown, Hres, Hlane, Hb, Hr, Hp. cbn. rewrite Hocc, !bool_decide_eq_true_2 by done.
  rewrite (proj2 (Z.leb_gt _ _)) by done. cbn. unfold mthrow_if. eapply ends_manager; [by apply (run_put_lane _ _ LaneMaterializing)|]. cbn.
  change (manager_ok (set_transaction NoTransaction (set_lanes (set_index (lanes_ m) (pa_destination a) LaneActive) m))).
  apply idle_manager; [|done|].
  - apply cache_inv_transaction. by apply (cache_inv_lane _ m _ LaneMaterializing LaneActive b).
  - intros l Hk. cbn in Hk. pose proof (at_index_lt _ _ _ Hk). pose proof (at_index_lt _ _ _ Hlane). destruct (decide (l = pa_destination a)) as [->|Hne].
    + by rewrite at_set_index_eq in Hk by lia.
    + rewrite at_set_index_ne in Hk by lia. apply (mo_materializing _ Hok) in Hk as (r' & Hr' & <-). congruence.
Qed.

(** ** Adopting a capture, and progress *)

Lemma adopt_capture_ends c r :
  manager_ok (ch_manager c) -> ends (progressed c) (carried c) (adopt_active_capture_progress r c).
Proof.
  destruct c as [m p]. cbn. intros Hok. pose proof (carried_refl (mkCache m p) Hok) as Href. unfold adopt_active_capture_progress.
  apply ends_read, ends_read. cbn. destruct (transaction_ m) as [| |record] eqn:Ht; [by apply ends_throw|by apply ends_throw|].
  apply ends_throw_if; [done|done|]. intros _. pose proof (mo_transaction _ Hok) as Htr. unfold transaction_ok in Htr. rewrite Ht in Htr.
  apply ends_view; [by eapply quiet_check_capture; [by apply mo_cache|]|done|]. cbn. intros [] Hck%check_capture_ok.
  pose proof (mo_cache _ Hok) as Hinv. unfold ghost_of in Hinv. rewrite Ht in Hinv.
  destruct (adopt_capture_ok m record r Hinv Hck) as (m' & Hrun & Hinv' & [_ Hl _ _]).
  apply run_seq_inv in Hrun as (m2 & (m1 & Hrun1 & Hrun2)%run_seq_inv & (m3 & Hrun3 & Hrun4)%run_seq_inv).
  eapply ends_manager; [exact Hrun1|]. eapply ends_manager; [exact Hrun2|]. eapply ends_manager; [exact Hrun3|]. eapply ends_manager; [exact Hrun4|].
  assert (carried (mkCache m p) (mkCache (set_transaction NoTransaction m') (finalize_context_transaction p))) as [Hok' Htok].
  { apply carried_idle; [|cbn; by rewrite Ht]. cbn. apply idle_manager; [by apply cache_inv_transaction|done|]. cbn. rewrite Hl. apply (idle_lanes m Hok). by rewrite Ht. }
  refine (conj _ _); [exact Hok'|]. intros t Hct. by destruct (bool_decide _); apply Htok.
Qed.

Lemma progress_ends c cancelled :
  manager_ok (ch_manager c) -> ends (progressed c) (carried c) (progress_context_transaction cancelled c).
Proof.
  destruct c as [m p]. cbn. intros Hok. pose proof (carried_refl (mkCache m p) Hok) as Href. unfold progress_context_transaction.
  apply ends_read. apply ends_throw_if; [done|done|]. cbn. intros [_ Hp%negb_false_iff]%orb_false_iff.
  assert (forall p' r, program_progress cancelled p = (p', r) -> carried (mkCache m p) (mkCache m p')) as Hcar.
  { intros p' r Hrun. apply carried_kept; [done|by apply round_kept_refl, mo_cache|]. intros _. by eapply progress_keeps_transaction. }
  apply ends_program; [apply progress_throws|by intros p' r; apply Hcar|]. cbn. intros p' out Hrun. pose proof (Hcar _ _ Hrun) as [Hok' Htok].
  destruct out as [|r|r].
  - by split.
  - eapply ends_weaken; [by apply adopt_materialization_ends| |].
    + intros out c' [Hc' Ht']. split; [done|]. intros t Ht. by apply Ht', Htok.
    + intros c' [Hc' Ht']. split; [done|]. intros t Ht. by apply Ht', Htok.
  - eapply ends_weaken; [by apply adopt_capture_ends| |].
    + intros out c' [Hc' Ht']. split; [done|]. intros t Ht. by apply Ht', Htok.
    + intros c' [Hc' Ht']. split; [done|]. intros t Ht. by apply Ht', Htok.
Qed.

End session.

(** ** Offers, and the end of a sequence

    Reserving a capture with or without a shared prefix, and finishing or aborting a sequence, keep the
    invariant between calls. *)

(** ** Claims of a plan *)

Lemma owner_capabilities_nonneg m entries c : forall slot, 0 <= slot -> c ∈ owner_capabilities m slot entries -> 0 <= cc_slot c.
Proof.
  induction entries as [|e entries IH]; intros slot Hs; cbn [owner_capabilities]; [by intros ?%not_elem_of_nil|].
  destruct (_ || _); [apply IH; lia|]. intros [->|Hc]%elem_of_cons; [done|]. apply (IH (slot + 1)); [lia|done].
Qed.
Lemma shared_owner_capabilities_nonneg entries c : forall slot, 0 <= slot -> c ∈ shared_owner_capabilities slot entries -> 0 <= cc_slot c.
Proof.
  induction entries as [|e entries IH]; intros slot Hs; cbn [shared_owner_capabilities]; [by intros ?%not_elem_of_nil|].
  destruct (_ || _); [apply IH; lia|]. intros [->|Hc]%elem_of_cons; [done|]. apply (IH (slot + 1)); [lia|done].
Qed.
Lemma capture_owner_records_nonneg m c : c ∈ capture_owner_records m -> 0 <= cc_slot c.
Proof.
  unfold capture_owner_records. rewrite elem_of_app. intros [?|?].
  - by apply (owner_capabilities_nonneg m (catalog_ m) c 0).
  - by apply (shared_owner_capabilities_nonneg (shared_catalog_ m) c 0).
Qed.

(** The claims added so far are of unused catalogued owners, and not of the publication slot. *)
Record claims_valid (m : Manager) (r : ActiveCaptureRecord) : Prop := {
  xv_nonneg : claims_nonneg (cap_private_claims r) /\ claims_nonneg (cap_shared_claims r);
  xv_private : forall s, s ∈ cap_private_slots r -> exists e, at_index (catalog_ m) s = Some e /\ ce_state e = CatCatalogued /\ private_has_active_edge m s = false;
  xv_shared : forall s, s ∈ cap_shared_slots r -> s <> cap_publication_slot r /\
    exists e, at_index (shared_catalog_ m) s = Some e /\ se_state e = ShCatalogued /\ shared_active_edge_count m s = 0;
}.

(** Everything but the claims. *)
Definition same_capture (r r' : ActiveCaptureRecord) : Prop :=
  cap_lane r' = cap_lane r /\ cap_publishes_shared r' = cap_publishes_shared r /\ cap_publication_slot r' = cap_publication_slot r /\
  cap_replacement_id r' = cap_replacement_id r /\ cap_replacement_revision r' = cap_replacement_revision r.

Lemma quiet_collect_drops owner contains outcomes : forall prior observed dropped, quiet (collect_drops owner contains prior outcomes observed dropped).
Proof. induction outcomes as [|o outcomes IH]; intros *; cbn [collect_drops]; quiet_steps; apply IH. Qed.
Lemma quiet_selected_drops owner disposition expected outcomes count contains :
  quiet (selected_checkpoint_drops owner disposition expected outcomes count contains).
Proof. unfold selected_checkpoint_drops. quiet_steps. apply quiet_collect_drops. Qed.

Section claims.
Context `{MC : ModelContract} (g : Ghost) (m : Manager) (Hinv : cache_inv g m) (plan : CapturePlan).

Lemma quiet_add_capture_claim records r o : (forall c, c ∈ records -> 0 <= cc_slot c) -> quiet (add_capture_claim m records plan r o).
Proof.
  intros Hrec. unfold add_capture_claim. destruct (at_index records (poo_owner o)) as [c|] eqn:Hc; [|done].
  assert (0 <= cc_slot c) as Hs by (apply Hrec, list_elem_of_lookup; apply at_index_Some in Hc as [_ Hc]; by eexists).
  quiet_steps; try apply quiet_selected_drops; passed; try quiet_read.
  - by eapply quiet_catalogued_private; [exact Hinv|].
  - by eapply quiet_catalogued_shared; [exact Hinv|].
  - by eapply quiet_unused_shared; [exact Hinv|].
Qed.

Lemma quiet_add_capture_claims records os : forall r, (forall c, c ∈ records -> 0 <= cc_slot c) -> quiet (add_capture_claims m records plan r os).
Proof.
  induction os as [|o os IH]; intros r Hrec; cbn [add_capture_claims]; quiet_steps; [by apply quiet_add_capture_claim|by apply IH].
Qed.

Lemma add_capture_claim_ok records r o r' :
  (forall c, c ∈ records -> 0 <= cc_slot c) -> add_capture_claim m records plan r o = Ok r' -> claims_valid m r -> claims_valid m r' /\ same_capture r r'.
Proof.
  unfold add_capture_claim. intros Hrec. destruct (at_index records (poo_owner o)) as [c|] eqn:Hc; [|done].
  assert (0 <= cc_slot c) as Hs by (apply Hrec, list_elem_of_lookup; apply at_index_Some in Hc as [_ Hc]; by eexists).
  intros H [[N1 N2] V1 V2]. destruct (negb _).
  - apply bind_Ok in H as (u1 & _ & H). apply bind_Ok in H as (ok & Hok & H). apply bind_Ok in H as (u2 & ->%throw_if_Ok%negb_false_iff & H).
    apply bind_Ok in H as (e & _ & H). apply bind_Ok in H as (dropped & _ & [= <-]). apply catalogued_private_Ok in Hok as (x & Hx & Hst & Hn & _).
    split; [|done]. split; cbn.
    + split; [|done]. intros k [Hk| ->%list_elem_of_singleton]%elem_of_app; [by apply N1|done].
    + unfold cap_private_slots. cbn. intros s. rewrite fmap_app, elem_of_app. cbn. rewrite list_elem_of_singleton. intros [Hin| ->]; [by apply V1|by exists x].
    + done.
  - apply bind_Ok in H as (u1 & Hpub%throw_if_Ok & H). apply bind_Ok in H as (ok & Hok & H). apply bind_Ok in H as (un & Hun & H).
    apply bind_Ok in H as (u2 & Hb%throw_if_Ok & H). apply orb_false_iff in Hb as [->%negb_false_iff ->%negb_false_iff].
    apply bind_Ok in H as (e & _ & H). apply bind_Ok in H as (dropped & _ & [= <-]). apply catalogued_shared_Ok in Hok as (x & Hx & Hst & _).
    unfold unused_shared in Hun. apply bind_Ok in Hun as (y & _ & [= [_ Hz%Z.eqb_eq]%andb_true_iff]).
    apply orb_false_iff in Hpub as [_ Hne%Z.eqb_neq]. split; [|done]. split; cbn.
    + split; [done|]. intros k [Hk| ->%list_elem_of_singleton]%elem_of_app; [by apply N2|done].
    + done.
    + unfold cap_shared_slots. cbn. intros s. rewrite fmap_app, elem_of_app. cbn. rewrite list_elem_of_singleton.
      intros [Hin| ->]; [by apply V2|]. split; [done|]. by exists x.
Qed.

Lemma add_capture_claims_ok records os : forall r r',
  (forall c, c ∈ records -> 0 <= cc_slot c) -> add_capture_claims m records plan r os = Ok r' -> claims_valid m r -> claims_valid m r' /\ same_capture r r'.
Proof.
  induction os as [|o os IH]; intros r r' Hrec; cbn [add_capture_claims]; [by intros [= <-] H|].
  intros (r1 & H1 & H2)%bind_Ok Hv. destruct (add_capture_claim_ok _ _ _ _ Hrec H1 Hv) as [Hv1 (S1 & S2 & S3 & S4 & S5)].
  destruct (IH _ _ Hrec H2 Hv1) as [Hv2 (T1 & T2 & T3 & T4 & T5)]. split; [done|]. unfold same_capture. split_and!; congruence.
Qed.

Lemma quiet_check_capture_publication r : 0 <= cap_publication_slot r -> quiet (check_capture_publication m r).
Proof. intros Hs. unfold check_capture_publication. quiet_steps. quiet_read. Qed.

Lemma check_capture_publication_ok r :
  claims_valid m r -> check_capture_publication m r = Ok tt -> capture_valid m r.
Proof.
  intros [_ V1 V2] H. split; [done|done|]. intros _. unfold check_capture_publication in H. apply bind_Ok in H as (u1 & _ & H).
  apply bind_Ok in H as (e & He%shared_at_Ok & H). exists e. split; [done|].
  destruct (cap_replacement_id r =? 0); apply throw_if_Ok in H; rewrite !orb_false_iff, !negb_false_iff, bool_decide_eq_true, !Z.eqb_eq in H; tauto.
Qed.
End claims.

Section offers.
Context `{ML : ModelContractLaws}.

(** ** Offers *)

Lemma quiet_inspect_offer p offer : quiet (inspect_offer p offer).
Proof. unfold inspect_offer. quiet_steps; apply inspect_throws. Qed.

Lemma quiet_find_exact g m p offer key index :
  cache_inv g m -> (forall i, i ∈ index -> 0 <= pi_slot i) -> quiet (find_exact_shared m p offer key index).
Proof.
  intros Hinv. induction index as [|i index IH]; intros Hi; cbn [find_exact_shared]; [done|].
  assert (0 <= pi_slot i) as H0 by (apply Hi; left). assert (quiet (find_exact_shared m p offer key index)) as Hrest by (apply IH; intros j Hj; apply Hi; by right).
  apply quiet_bind.
  { destruct (pi_shared i) eqn:Hs; [|done]. unfold valid_prefix_index_entry. rewrite Hs. quiet_steps; quiet_read. }
  intros valid Hv. destruct (negb valid || negb (bool_decide (pi_key i = key))) eqn:Hb; [done|]. apply orb_false_iff in Hb as [->%negb_false_iff _].
  destruct (pi_shared i) eqn:Hs; [|done]. unfold valid_prefix_index_entry in Hv. rewrite Hs in Hv. destruct (pi_occupied i); [|done]. cbn [negb] in Hv.
  destruct (shared_catalog_count_ m <=? pi_slot i) eqn:Hlt; [done|]. apply bind_Ok in Hv as (e & He & [= Hv]). rewrite He. cbn.
  rewrite !andb_true_iff in Hv. destruct Hv as [[[_ Hh] _] _]. destruct (se_handle e) as [handle|]; [|done]. quiet_steps; [apply matches_throws|done].
Qed.

Definition scenario_nonneg (s : CaptureScenario) : Prop := 0 <= cn_publication_slot s.

Lemma replacement_scenarios_ok m p offer replacement entries : forall slot, 0 <= slot ->
  match replacement_scenarios m p offer replacement slot entries with
  | Ok scenarios => forall s, s ∈ scenarios -> scenario_nonneg s
  | Throw e => e <> Terminate
  end.
Proof.
  induction entries as [|e entries IH]; intros slot H0; cbn [replacement_scenarios]; [by intros s ?%not_elem_of_nil|].
  specialize (IH (slot + 1) ltac:(lia)). destruct (_ || _); [done|]. pose proof (inspect_throws p offer None (se_handle e) replacement true) as Hq.
  destruct (inspect_capture p offer None (se_handle e) replacement true) as [assessment|x]; cbn; [|congruence].
  destruct (replacement_scenarios m p offer replacement (slot + 1) entries) as [scenarios|x]; cbn; [|done].
  destruct (ca_publishes_shared assessment); [|done]. intros s [->|Hs]%elem_of_cons; [done|by apply IH].
Qed.

Lemma capture_scenarios_ok m p offer replacement candidate :
  quiet (capture_scenarios m p offer replacement candidate) /\
  forall scenarios, capture_scenarios m p offer replacement candidate = Ok scenarios -> forall s, s ∈ scenarios -> scenario_nonneg s.
Proof.
  unfold capture_scenarios. pose proof (replacement_scenarios_ok m p offer replacement (shared_catalog_ m) 0 ltac:(lia)) as Hr.
  assert (forall s, s ∈ vacant_scenario m candidate -> scenario_nonneg s) as Hv.
  { unfold vacant_scenario. intros s. destruct (find_index _ _) as [k|]; [|by intros ?%not_elem_of_nil]. intros ->%list_elem_of_singleton. unfold scenario_nonneg. cbn. lia. }
  destruct (pressure_evidence m candidate).
  - destruct (replacement_scenarios m p offer replacement 0 (shared_catalog_ m)) as [rs|x]; cbn; [|split; [unfold quiet; congruence|done]].
    split; [done|]. intros scenarios [= <-] s [Hs|Hs]%elem_of_app; [by apply Hv|by apply Hr].
  - cbn. split; [done|]. intros scenarios [= <-] s [Hs|Hs]%elem_of_app; [by apply Hv|by apply not_elem_of_nil in Hs].
Qed.

Lemma select_capture_elem planner scenarios s plan : select_capture planner scenarios = Some (s, plan) -> s ∈ scenarios.
Proof.
  unfold select_capture.
  assert (forall l o, (forall x pl, o = Some (x, pl) -> x ∈ scenarios) -> (forall x, x ∈ l -> x ∈ scenarios) ->
    forall x pl, foldl (fun selected scenario => match planner scenario with None => selected | Some plan =>
      match selected with None => Some (scenario, plan) | Some (_, best) => if better_plan plan best then Some (scenario, plan) else selected end end) o l = Some (x, pl) ->
    x ∈ scenarios) as Hgen; [|by apply Hgen].
  induction l as [|y l IH]; intros o Ho Hl x pl; cbn [foldl]; [by apply Ho|]. apply IH; [|intros z Hz; apply Hl; by right].
  assert (y ∈ scenarios) as Hy by (apply Hl; left). intros z pz. destruct (planner y) as [py|]; [|by apply Ho].
  destruct o as [[b best]|]; [destruct (better_plan py best)|]; try (by intros [= <- <-]). by apply Ho.
Qed.

(** A skipped offer leaves the manager as it was. *)
Definition offered (c : Cache) : ActiveCaptureReserveResult -> Cache -> Prop := refused_as_was c (fun r => r = CaptureSkipped).

Lemma skip_ends c offer : manager_ok (ch_manager c) -> ends (offered c) (carried c) (skip_offer offer c).
Proof.
  destruct c as [m p]. cbn. intros Hok. unfold skip_offer.
  assert (forall p' r, skip_capture offer p = (p', r) -> carried (mkCache m p) (mkCache m p')) as Hcar.
  { intros p' r Hrun. apply carried_kept; [done|by apply round_kept_refl, mo_cache|]. intros Hp. by eapply skip_keeps_transaction. }
  apply ends_program; [apply skip_throws|by intros p' r; apply Hcar|]. cbn. intros p' a Hrun. by refine (conj (Hcar _ _ Hrun) _).
Qed.

(** An idle manager that opens a capture of the lane's private checkpoint. *)
Lemma private_capture_ok m lane : manager_ok m -> transaction_ m = NoTransaction -> 0 <= lane -> manager_ok (set_transaction (OpenCapture (private_capture lane)) m).
Proof.
  intros Hok Ht Hl. split.
  - unfold ghost_of. cbn. by apply private_capture_inv, cache_inv_transaction, manager_idle.
  - split; cbn; try done; by intros c ?%not_elem_of_nil.
  - intros l. split; [intros Hk; by destruct (idle_lanes m Hok ltac:(by rewrite Ht) l)|by intros (r & ? & _)].
Qed.

Lemma private_capture_ends c lane offer exact replacement baseline cancelled :
  manager_ok (ch_manager c) -> transaction_ (ch_manager c) = NoTransaction -> 0 <= lane ->
  ends (offered c) (carried c) (reserve_private_capture lane offer exact replacement baseline cancelled c).
Proof.
  intros Hok Ht Hl. unfold reserve_private_capture. destruct (_ || _); [by apply skip_ends|]. destruct c as [m p]. cbn in *.
  assert (forall c', manager_ok (ch_manager c') -> carried (mkCache m p) c') as Hcar by (intros c' Hc'; apply carried_idle; [done|cbn; by rewrite Ht]).
  pose proof (private_capture_ok m lane Hok Ht Hl) as Hok1. apply ends_set_open.
  apply ends_program; [apply capture_throws|by intros; apply Hcar|]. cbn. intros p' status _. destruct status.
  - by refine (conj (Hcar (mkCache _ p') _) _).
  - apply ends_set_open. cbn. rewrite set_transaction_twice, <- Ht, set_transaction_same. by refine (conj (Hcar (mkCache m p') _) _).
Qed.

(** A capture whose claims and slot were checked. *)
Lemma capture_reserved_ok m r :
  manager_ok m -> transaction_ m = NoTransaction -> capture_valid m r -> cap_publishes_shared r = true -> capture_nonneg r ->
  manager_ok (capture_reserved r (set_transaction (OpenCapture r) m)).
Proof.
  intros Hok Ht Hv Hs Hn. split.
  - unfold ghost_of. cbn. apply capture_reserved_inv; [by apply cache_inv_transaction, manager_idle|by destruct Hv; split|done].
  - done.
  - intros l. split; [intros Hk; by destruct (idle_lanes m Hok ltac:(by rewrite Ht) l)|by intros (r' & ? & _)].
Qed.

Lemma shared_capture_ends c lane offer replacement scenario plan cancelled :
  manager_ok (ch_manager c) -> transaction_ (ch_manager c) = NoTransaction -> 0 <= lane -> scenario_nonneg scenario ->
  ends (offered c) (carried c) (reserve_shared_capture lane offer replacement scenario plan cancelled c).
Proof.
  intros Hok Ht Hl Hsc. pose proof (carried_refl c Hok) as Href. destruct c as [m p]. cbn in *. unfold reserve_shared_capture.
  assert (forall c', manager_ok (ch_manager c') -> carried (mkCache m p) c') as Hcar by (intros c' Hc'; apply carried_idle; [done|cbn; by rewrite Ht]).
  set (r0 := mkCapture _ _ _ _ _ _ _ _ _). apply ends_view; [|done|]; cbn.
  { eapply quiet_add_capture_claims; [by apply mo_cache|]. by apply capture_owner_records_nonneg. }
  intros r Hr. destruct (add_capture_claims_ok m plan _ _ r0 r (capture_owner_records_nonneg m) Hr) as [Hcv (S1 & S2 & S3 & S4 & S5)].
  { split; cbn; [by split; intros c ?%not_elem_of_nil|by intros s ?%not_elem_of_nil..]. }
  cbn in S1, S2, S3. destruct (cn_pressure plan) as [pressure|]; [|by apply ends_throw].
  apply ends_view; [|done|]; cbn. { eapply quiet_check_capture_publication; [by apply mo_cache|]. rewrite S3. exact Hsc. }
  intros [] Hpub. pose proof (check_capture_publication_ok m r Hcv Hpub) as Hv.
  assert (capture_nonneg r) as Hnn. { destruct (xv_nonneg _ _ Hcv). split; [by rewrite S1|rewrite S3; exact Hsc|done|done]. }
  pose proof (capture_reserved_ok m r Hok Ht Hv S2 Hnn) as Hok1. apply ends_set_open. cbn. set (m1 := set_transaction (OpenCapture r) m) in *.
  assert (capture_valid m1 r) as Hv1 by by destruct Hv; split. eapply ends_manager; [by apply run_reserve_capture|]. cbn.
  apply ends_program; [apply pressure_capture_throws|by intros; apply Hcar|]. cbn. intros p' status _. destruct status.
  - by refine (conj (Hcar (mkCache _ p') _) _).
  - eapply ends_manager; [by apply run_rollback_capture|]. apply ends_set_open. cbn. unfold m1. rewrite set_transaction_twice, <- Ht, set_transaction_same.
    by refine (conj (Hcar (mkCache m p') _) _).
Qed.

Lemma rebuilt_nonneg g m n i : cache_inv g m -> i ∈ resident_entries m ++ replicate n empty_prefix_entry -> 0 <= pi_slot i.
Proof.
  intros Hinv [Hi|[-> _]%elem_of_replicate]%elem_of_app; [|done].
  apply (resident_entries_spec g m i Hinv) in Hi as [(e & c & He & _)|(e & He & _)]; apply at_index_lt in He; lia.
Qed.

(** A reservation that is skipped has only rebuilt the index. *)
Definition offer_answered (c : Cache) (r : ActiveCaptureReserveResult) (c' : Cache) : Prop :=
  carried c c' /\ (r = CaptureSkipped -> ch_manager c' = set_prefix_index (prefix_index_ (ch_manager c')) (ch_manager c)).

Lemma capture_ends planner c lane offer cancelled :
  manager_ok (ch_manager c) -> 0 <= lane -> ends (offer_answered c) (carried c) (reserve_active_capture planner lane offer cancelled c).
Proof.
  intros Hok Hl. pose proof (carried_refl c Hok) as Href. destruct c as [m p]. cbn in *. unfold reserve_active_capture.
  apply ends_view; [by eapply require_lane_quiet; [by apply mo_cache|]|done|]. intros _ _. apply ends_read, ends_read.
  apply ends_throw_if; [done|done|]. intros Hsame%negb_false_iff%eqb_prop. cbn in *. destruct (has_context_transaction p) eqn:Hp.
  { eapply ends_weaken; [by apply skip_ends| |done]. intros r c' [Hc Hsk]. split; [done|]. intros Hr. rewrite (Hsk Hr). by destruct m. }
  assert (transaction_ m = NoTransaction) as Ht by (unfold is_open in Hsame; by destruct (transaction_ m)).
  pose proof (mo_cache _ Hok) as Hinv. destruct (rebuild_kept _ m Hinv) as (m' & Hrun & Hinv' & Hfr & _).
  destruct (run_rebuild _ m Hinv) as (n & Hrun' & _). rewrite Hrun in Hrun'. injection Hrun' as Hm'.
  assert (transaction_ m' = NoTransaction) as Ht' by (by rewrite (lf_transaction _ _ Hfr)).
  assert (manager_ok m') as Hok'.
  { apply (kept_manager m); [done|]. split; [done|]. split; [apply Hfr|apply Hfr|intros l; by rewrite (lf_lanes _ _ Hfr)|intros l _; by rewrite (lf_active _ _ Hfr)]. }
  assert (forall c', carried (mkCache m' p) c' -> carried (mkCache m p) c') as Hback.
  { intros c' [Hc _]. apply carried_idle; [done|cbn; by rewrite Ht]. }
  eapply ends_manager; [exact Hrun|]. cbn. apply (ends_weaken _ (offered (mkCache m' p)) _ (carried (mkCache m' p))); [| |by apply Hback].
  2: { intros r c' [Hc Hsk]. split; [by apply Hback|]. intros Hr. rewrite (Hsk Hr). cbn. by rewrite Hm'. }
  pose proof (carried_refl (mkCache m' p) Hok') as Href'. apply ends_get. cbn.
  apply ends_lift; [apply quiet_inspect_offer|done|]. intros [[baseline replacement] candidate] _.
  apply ends_lift; [|done|].
  { destruct (ca_publishes_shared candidate); [|done]. eapply quiet_find_exact; [exact Hinv'|]. intros i. rewrite Hm'. cbn. by eapply rebuilt_nonneg. }
  intros [handle|] _; [by apply private_capture_ends|]. apply ends_lift; [|done|].
  { destruct (ca_publishes_shared candidate); [|done]. apply capture_scenarios_ok. }
  intros scenarios Hsc. destruct (select_capture _ scenarios) as [[scenario plan]|] eqn:Hsel; [|by apply private_capture_ends].
  apply shared_capture_ends; [done|done|done|]. apply select_capture_elem in Hsel. destruct (ca_publishes_shared candidate).
  - by eapply capture_scenarios_ok.
  - injection Hsc as <-. by apply not_elem_of_nil in Hsel.
Qed.

(** ** The end of a sequence *)

(** The lane is empty and its slot holds the continuation, whose name is settled. *)
Definition catalogued_as (m : Manager) (l : Z) (a : ActiveEntry) (r : FinishResult) (m' : Manager) : Prop := exists e,
  at_index (catalog_ m) (ac_publication_slot a) = Some e /\ lanes_frame (retired m l a (catalogued_entry a r e)) m' /\
  named (retired m l a (catalogued_entry a r e)) m' a (catalogued_entry a r e).

Lemma catalogue_kept m l a r x :
  cache_inv no_ghost m -> at_index (active_ m) l = Some a -> ac_occupied a = true -> l < lane_count_ m -> at_index (lanes_ m) l = Some x -> x <> LaneMaterializing ->
  summary_ok (max_long_anchors_ m) (fr_summary r) -> has (fr_continuation r) = true ->
  exists m', catalogue_continuation l a r m = (m', Ok tt) /\ kept no_ghost m m' /\ catalogued_as m l a r m'.
Proof.
  intros Hinv Ha Hocc Hl Hx Hne Hs Hh. destruct (catalogue_continuation_ok m l a r x Hinv Ha Hocc Hl Hx Hs Hh) as (m' & e & He & Hrun & Hinv' & Hf & Hnm).
  exists m'. split; [done|]. split; [|by exists e]. destruct Hf as [Fc Fl Fa Ft]. split; [done|]. split; [done|done| |].
  - intros k. rewrite Fl. by apply (rewritten_lane _ _ x).
  - intros k Hk. rewrite Fa. pose proof (at_index_lt _ _ _ Ha). cbn. rewrite at_set_index_ne; [done|lia|]. intros <-. congruence.
Qed.

Definition finished (c : Cache) (lane : Z) (r : FinishResult) (c' : Cache) : Prop :=
  carried c c' /\ (fr_disposition r = FinishCatalogued -> exists a reported,
    at_index (active_ (ch_manager c)) lane = Some a /\ ac_occupied a = true /\ fr_summary reported = fr_summary r /\
    catalogued_as (ch_manager c) lane a reported (ch_manager c')).

Lemma finish_ends c lane sequence : manager_ok (ch_manager c) -> 0 <= lane -> ends (finished c lane) (carried c) (finish lane sequence c).
Proof.
  intros Hok Hl. pose proof (carried_refl c Hok) as Href. destruct c as [m p]. cbn in *. unfold finish.
  apply ends_view; [by eapply require_lane_quiet; [by apply mo_cache|]|done|]. cbn. intros [] (Hlt & Hx & Hocc)%require_lane_Ok.
  destruct (Hocc (or_intror eq_refl)) as (a & Ha & Ho). apply ends_read. apply ends_throw_if; [done|done|]. cbn. intros [Hop _]%orb_false_iff.
  assert (transaction_ m = NoTransaction) as Ht by (unfold is_open in Hop; by destruct (transaction_ m)).
  pose proof (manager_idle _ Hok Ht) as Hinv.
  assert (forall p', carried (mkCache m p) (mkCache m p')) as Hp by (intros p'; apply carried_idle; [done|cbn; by rewrite Ht]).
  assert (forall m' p', kept no_ghost m m' -> carried (mkCache m p) (mkCache m' p')) as Hcar.
  { intros m' p' Hk. apply carried_idle; [|cbn; by rewrite Ht]. apply (kept_manager m); [done|]. unfold ghost_of. by rewrite Ht. }
  destruct (release_lane_kept _ m lane a LaneTerminalPending Hinv Ha Ho Hx) as (mr & Hrel & Hkr); [done|done|].
  eapply ends_manager; [apply run_get_active; exact Ha|]. cbn. apply ends_program; [apply finish_throws|by intros; apply Hp|]. cbn. intros p1 r _.
  destruct (negb (bool_decide (fr_status r = Consumed))).
  - apply ends_program; [apply abort_throws|by intros; apply Hp|]. cbn. intros p2 d _. apply ends_throw_if; [done|apply Hp|]. intros _.
    eapply ends_manager; [exact Hrel|]. by refine (conj (Hcar mr p2 _) _).
  - apply ends_read. cbn. destruct (lane_publication _ m lane a Hinv Ha Ho) as (e & He & Hst & Hid & _).
    unfold checked_entry. rewrite He. cbn. apply ends_lift; [done|apply Hp|]. intros y [= <-].
    destruct (_ || _); [|destruct (fr_continuation r) as [k|] eqn:Hk; [|by apply ends_throw]; destruct (_ || _) eqn:Hv].
    + apply ends_throw_if; [done|apply Hp|]. intros [Hd%negb_false_iff%bool_decide_eq_true _]%orb_false_iff.
      eapply ends_manager; [exact Hrel|]. refine (conj (Hcar mr p1 Hkr) _). congruence.
    + apply ends_program; [apply release_throws|by intros; apply Hp|]. cbn. intros p2 u _. by refine (conj _ (Hp p2)).
    + rewrite !orb_false_iff, !negb_false_iff in Hv. destruct Hv as [[Hs _] _].
      destruct (catalogue_kept m lane a r LaneTerminalPending Hinv Ha Ho Hlt Hx) as (m' & Hrun & Hkp & Hcat); [done|done|by rewrite Hk|].
      eapply ends_manager; [exact Hrun|]. refine (conj (Hcar m' p1 Hkp) _). intros _. by exists a, r.
Qed.

Lemma abort_carries c lane sequence : manager_ok (ch_manager c) -> 0 <= lane -> carries (abort lane sequence) c.
Proof.
  intros Hok Hl. pose proof (carried_refl c Hok) as Href. destruct c as [m p]. cbn in *. unfold carries, abort.
  apply ends_read. apply ends_throw_if; [done|done|]. cbn. intros [Hop _]%orb_false_iff.
  assert (transaction_ m = NoTransaction) as Ht by (unfold is_open in Hop; by destruct (transaction_ m)).
  apply ends_read. cbn. destruct (at_index (lanes_ m) lane) as [x|] eqn:Hx; [|by apply ends_lift].
  apply ends_lift; [done|done|]. intros y [= <-].
  assert (forall m1 m2 p2, manager_ok m1 -> transaction_ m1 = NoTransaction -> kept no_ghost m1 m2 -> carried (mkCache m p) (mkCache m2 p2) /\ manager_ok m2 /\ transaction_ m2 = NoTransaction) as Hcar.
  { intros m1 m2 p2 Hok1 Ht1 Hk. assert (manager_ok m2) as Hok2 by (apply (kept_manager m1); [done|]; unfold ghost_of; by rewrite Ht1).
    split; [apply carried_idle; [done|cbn; by rewrite Ht]|]. split; [done|]. rewrite (rf_transaction _ _ (proj2 Hk)). done. }
  assert (exists m1, (if bool_decide (x = LaneActive) then put_lane lane LaneTerminalPending else mret tt) m = (m1, Ok tt) /\ kept no_ghost m m1) as (m1 & Hrun1 & Hk1).
  { pose proof (manager_idle _ Hok Ht) as Hinv. case_bool_decide as Hst; [|exists m; split; [done|by apply round_kept_refl]]. subst x.
    destruct (decide (lane < lane_count_ m)) as [Hlt|Hge].
    - destruct (put_lane_kept _ m lane LaneActive LaneTerminalPending Hinv Hx) as (m1 & ? & ? & _); [auto|auto|done|]. by exists m1.
    - exfalso. pose proof (at_index_lt _ _ _ Hx) as Hb. rewrite (so_lane_states _ (ci_sizes _ _ Hinv)) in Hb. apply at_index_Some in Hx as [_ Hx].
      rewrite (lo_unused _ (ci_lanes _ _ Hinv)) in Hx by lia. done. }
  destruct (Hcar m m1 p Hok Ht Hk1) as (Hc1 & Hok1 & Ht1). eapply ends_manager; [exact Hrun1|]. cbn.
  apply ends_view; [by eapply require_lane_quiet; [by apply mo_cache|]|done|]. cbn. intros [] (Hlt & Hx1 & Hocc)%require_lane_Ok.
  destruct (Hocc (or_intror eq_refl)) as (a & Ha & Ho). pose proof (manager_idle _ Hok1 Ht1) as Hinv1.
  assert (forall p', carried (mkCache m p) (mkCache m1 p')) as Hp by (intros p'; by apply (Hcar m1 m1 p'); [done|done|apply round_kept_refl]).
  apply ends_program; [apply abort_throws|by intros; apply Hp|]. cbn. intros p1 r _. apply ends_throw_if; [done|apply Hp|]. intros _.
  destruct (release_lane_kept _ m1 lane a LaneTerminalPending Hinv1 Ha Ho Hx1) as (mr & Hrel & Hkr); [done|done|].
  eapply ends_manager; [exact Hrel|]. by refine (proj1 (Hcar m1 mr p1 Hok1 Ht1 Hkr)).
Qed.

End offers.
