(* ===== verification/ContextSession.v ===== *)
(** * Context cache: sessions of calls

    Every sequence of calls on a new resource manager that respects the callers' contract keeps the
    invariant, and no call terminates. *)

From S2P Require Import Prelude ContextTypes SessionIndex ContextCatalog ContextManager ContextInvariant ContextActions ContextReserve ContextAdopt ContextPublish ContextCapture ContextLanes ContextRounds ContextCalls.
Open Scope Z_scope.

(** ** A new manager *)

Lemma index_capacity_ok private shared anchors capacity :
  0 <= private <= u32_max -> 0 <= shared <= u32_max -> 0 <= anchors <= u32_max - 3 ->
  checked_prefix_index_capacity private shared anchors = Ok capacity -> capacity = private * (anchors + 2) + shared.
Proof.
  intros Hp Hs Ha. unfold checked_prefix_index_capacity. rewrite (w64_small (anchors + 2)) by lia.
  destruct (Z.eqb_spec private 0) as [->|Hne]; cbn [negb andb].
  - intros [= <-]. by rewrite w64_small by lia.
  - destruct (Z.ltb_spec ((u64_max - shared) / private) (anchors + 2)) as [|Hle]; [done|]. intros [= <-].
    assert (private * (anchors + 2) <= u64_max - shared) as Hfit.
    { etransitivity; [|apply (Z.mul_div_le _ private); lia]. apply Z.mul_le_mono_nonneg_l; [lia|exact Hle]. }
    pose proof (Z.mul_nonneg_nonneg private (anchors + 2)). by rewrite w64_small by lia.
Qed.

Lemma make_manager_ok self lanes private shared enabled anchors m :
  0 <= lanes -> 0 <= private <= u32_max -> 0 <= shared <= u32_max -> 0 <= anchors <= u32_max - 3 ->
  make_manager self lanes private shared enabled anchors = Ok m -> manager_ok m.
Proof.
  intros Hl Hp Hs Ha. unfold make_manager. intros (capacity & Hcap & H)%bind_Ok. apply bind_Ok in H as (u & Hb%throw_if_Ok & [= <-]).
  apply index_capacity_ok in Hcap; [|done..]. rewrite !orb_false_iff, Z.eqb_neq, !Z.ltb_ge in Hb. destruct Hb as [[H0 H8] Hc].
  assert (forall s e, at_index (replicate (Z.to_nat private) vacant_entry) s = Some e -> e = vacant_entry) as Hcat by (intros s e [_ H]%at_index_Some; by apply lookup_replicate in H as [-> _]).
  assert (forall l a, ~ occupied_lane (replicate 8 empty_active) l a) as Hno by (intros l a [H Ho]; by apply lookup_replicate in H as [-> _]).
  assert (forall c x, ~ bound_cell (replicate (Z.to_nat private) empty_session) c x) as Hnb by (intros c x [H Ho]; by apply lookup_replicate in H as [-> _]).
  apply idle_manager; [|done|].
  2: { intros l [_ H]%at_index_Some. by apply (lookup_replicate 8 LaneFree) in H as [? _]. }
  split; cbn; try done.
  - split; cbn; unfold kMaximumConcurrency, lane_count_, catalog_count_, shared_catalog_count_, max_long_anchors_ in *; cbn; rewrite ?length_replicate; try lia. done.
  - by intros s e ->%Hcat.
  - intros s e [_ H]%at_index_Some. by apply lookup_replicate in H as [-> _].
  - split; cbn.
    + intros l a H _. by apply (lookup_replicate 8 empty_active) in H as [-> _].
    + intros l a H _. by apply (lookup_replicate 8 empty_active) in H as [-> _].
    + intros l a x _ H. apply (lookup_replicate 8 LaneFree) in H as [-> _]. by intros [|].
    + intros l Hk. apply (lookup_replicate 8 LaneFree). split; [done|lia].
  - intros l a Hk. by destruct (Hno l a).
  - by intros s e ->%Hcat.
  - intros l1 a1 l2 a2 Hk. by destruct (Hno l1 a1).
  - intros l a Hk. by destruct (Hno l a).
  - apply session_wf_empty.
  - intros c x Hk. by destruct (Hnb c x).
  - intros c x l a Hk. by destruct (Hnb c x).
  - intros l1 a1 l2 a2 Hk. by destruct (Hno l1 a1).
Qed.

(** ** Sessions *)

Section session.
Context `{ML : ModelContractLaws}.

(** The cache, its program, and the activation that was published and not adopted yet. *)
Record World := mkWorld { w_cache : Cache; w_token : option PublishedActivation }.
Definition w_manager (w : World) : Manager := ch_manager (w_cache w).

Inductive CacheCall :=
  | CallReserve (choice : Choice) (prompt : PreparedPrompt) (cancelled : bool)
  | CallProgress (cancelled : bool)
  | CallAdopt
  | CallCapture (planner : Manager -> Program -> CaptureScenario -> option CapturePlan) (lane : Z) (offer : CaptureOffer) (cancelled : bool)
  | CallMarkTerminal (lane : Z)
  | CallCommit (lanes : list Z) (r : CommitResult)
  | CallDiscard (lanes : list Z) (r : DiscardResult)
  | CallReleaseFailed (lanes : list Z)
  | CallFinish (lane sequence : Z)
  | CallAbort (lane sequence : Z)
  | CallClear.

Definition void {A} (r : result A) : result unit := match r with Ok _ => Ok tt | Throw e => Throw e end.

(** Runs a call; [token] is the outstanding activation afterwards. *)
Definition run_with {A} (token : A -> option PublishedActivation -> option PublishedActivation) (x : M Cache A) (w : World) : World * result unit :=
  let '(c, r) := x (w_cache w) in
  (mkWorld c (match r with Ok a => token a (w_token w) | Throw _ => w_token w end), void r).

Definition run_call (call : CacheCall) (w : World) : World * result unit :=
  let plain {A} (x : M Cache A) := run_with (fun _ t => t) x w in
  match call with
  | CallReserve choice prompt cancelled => plain (reserve_materialization choice prompt cancelled)
  | CallProgress cancelled => run_with published_token (progress_context_transaction cancelled) w
  | CallAdopt => match w_token w with Some a => run_with (fun _ _ => None) (adopt a) w | None => (w, Ok tt) end
  | CallCapture planner lane offer cancelled => plain (reserve_active_capture planner lane offer cancelled)
  | CallMarkTerminal lane => plain (on_manager (mark_terminal_pending lane))
  | CallCommit lanes r => plain (on_manager (apply_commit lanes r))
  | CallDiscard lanes r => plain (on_manager (apply_discard lanes r))
  | CallReleaseFailed lanes => plain (on_manager (release_failed_commit lanes))
  | CallFinish lane sequence => plain (finish lane sequence)
  | CallAbort lane sequence => plain (abort lane sequence)
  | CallClear => run_with (fun _ _ => None) (on_manager clear_after_program_cleanup) w
  end.

(** ** The callers' contract *)

Definition nonneg_capability (c : option CatalogCapability) : bool := match c with Some c => 0 <=? cc_slot c | None => true end.
Definition nonneg_claims (claims : list OwnerClaim) : bool := forallb (fun claim => 0 <=? cc_slot (cl_capability claim)) claims.

(** A consumed source is consumed into its own slot, and the request's order is new. *)
Definition choice_allowed (m : Manager) (r : MaterializationRecord) : bool :=
  let order := mt_publication_order r in
  (0 <=? mt_destination r) && (0 <=? mt_publication_slot r) && nonneg_capability (mt_private_source r) &&
  nonneg_capability (mt_shared_source r) && nonneg_claims (mt_private_claims r) && nonneg_claims (mt_shared_claims r) &&
  match mt_selected_observation r with Some key => 0 <=? po_slot key | None => true end &&
  (negb (bool_decide (mt_source_mode r = ConsumeToActive)) ||
   match mt_private_source r with Some c => mt_publication_slot r =? cc_slot c | None => true end) &&
  forallb (fun x => negb (bool_decide (si_state x = SessionOccupied)) || negb (si_publication_order x =? order)) (session_index_ m) &&
  forallb (fun a => negb (ac_occupied a) || negb (ac_publication_order a =? order)) (active_ m).

Definition call_allowed (call : CacheCall) (w : World) : bool :=
  match call with
  | CallReserve choice _ _ => choice_allowed (w_manager w) (cho_record choice)
  | CallProgress _ | CallClear => true
  | CallAdopt => has (w_token w)
  | CallCapture _ lane _ _ | CallMarkTerminal lane | CallFinish lane _ | CallAbort lane _ => 0 <=? lane
  | CallCommit lanes r => forallb (fun l => 0 <=? l) lanes && (length lanes <=? length (ct_rows r))%nat
  | CallDiscard lanes _ | CallReleaseFailed lanes => forallb (fun l => 0 <=? l) lanes
  end.

(** The capacities fit their machine integers, so that the index of every prefix can be allocated. *)
Definition capacities_fit (lanes private shared anchors : Z) : bool :=
  (0 <=? lanes) && (0 <=? private) && (private <=? u32_max) && (0 <=? shared) && (shared <=? u32_max) && (0 <=? anchors) && (anchors <=? u32_max - 3).

Inductive reachable : World -> Prop :=
  | reachable_new self lanes private shared enabled anchors m p :
      capacities_fit lanes private shared anchors = true -> make_manager self lanes private shared enabled anchors = Ok m ->
      reachable (mkWorld (mkCache m p) None)
  | reachable_call call w : reachable w -> call_allowed call w = true -> reachable (run_call call w).1.

(** ** The contract implies what the calls rely on *)

Lemma nonneg_capability_ok c : nonneg_capability c = true -> capability_nonneg c.
Proof. intros Hc k ->. cbn in Hc. by apply Z.leb_le. Qed.
Lemma nonneg_claims_ok claims : nonneg_claims claims = true -> claims_nonneg claims.
Proof. unfold nonneg_claims. rewrite forallb_forall. intros Hc c Hin%list_elem_of_In. by apply Z.leb_le, Hc. Qed.
Lemma nonneg_lanes lanes : forallb (fun l => 0 <=? l) lanes = true -> Forall (fun l => 0 <= l) lanes.
Proof. rewrite forallb_forall, Forall_forall. intros Hl l Hin%list_elem_of_In. by apply Z.leb_le, Hl. Qed.

Lemma choice_allowed_ok m r : choice_allowed m r = true -> choice_ok m r.
Proof.
  unfold choice_allowed. rewrite !andb_true_iff, !forallb_forall, !Z.leb_le. intros [[[[[[[[[Hd Hp] Hs] Hss] Hc] Hsc] Hh] Hm] Ho1] Ho2]. split.
  - split; try done; first [by apply nonneg_capability_ok|by apply nonneg_claims_ok].
  - intros key Hk. rewrite Hk in Hh. by apply Z.leb_le.
  - intros Hmode c Hsrc. rewrite Hmode, Hsrc, bool_decide_eq_true_2 in Hm by done. by apply Z.eqb_eq.
  - split.
    + intros c x [Hx Hst] Heq. assert (x ∈ session_index_ m) as Hin%list_elem_of_In by (apply list_elem_of_lookup; by exists c).
      specialize (Ho1 x Hin). by rewrite Hst, Heq, Z.eqb_refl, bool_decide_eq_true_2 in Ho1 by done.
    + intros l a [Ha Hocc] Heq. assert (a ∈ active_ m) as Hin%list_elem_of_In by (apply list_elem_of_lookup; by exists l).
      specialize (Ho2 a Hin). by rewrite Hocc, Heq, Z.eqb_refl in Ho2.
Qed.

(** ** Every call *)

Definition world_ok (w : World) : Prop := manager_ok (w_manager w) /\ token_ok (w_token w) (w_cache w).

Lemma plain_ok {A} (x : M Cache A) w : world_ok w -> carries x (w_cache w) ->
  world_ok (run_with (fun _ t => t) x w).1 /\ (run_with (fun _ t => t) x w).2 <> Throw Terminate.
Proof.
  intros [Hok Htok] Hc. unfold run_with, carries, ends in *. destruct (x (w_cache w)) as [c [a|e]]; cbn in *.
  - destruct Hc as [Hc Ht]. by split; [split; [|by apply Ht]|].
  - destruct Hc as [He [Hc Ht]]. split; [split; [done|by apply Ht]|congruence].
Qed.

Lemma cache_call_ok call w : world_ok w -> call_allowed call w = true -> world_ok (run_call call w).1 /\ (run_call call w).2 <> Throw Terminate.
Proof.
  intros Hw Hal. pose proof Hw as [Hok Htok]. destruct call; cbn [run_call call_allowed] in *.
  - apply plain_ok; [done|]. eapply ends_weaken; [by apply reserve_ends, choice_allowed_ok|by intros r c [Hc _]|done].
  - pose proof (progress_ends (w_cache w) cancelled Hok) as Hp. unfold run_with, ends in *.
    destruct (progress_context_transaction _ _) as [c [out|e]]; cbn in *.
    + destruct Hp as [Hc Ht]. by split; [split; [|by apply Ht]|].
    + destruct Hp as [He [Hc Ht]]. split; [split; [done|by apply Ht]|congruence].
  - destruct (w_token w) as [a|] eqn:Ht; [|done]. pose proof (adopt_ends (w_cache w) a Hok Htok) as Hp. unfold run_with, ends in *.
    destruct (adopt a _) as [c [[]|e]]; cbn in *; [by split|by destruct Hp].
  - apply plain_ok; [done|]. eapply ends_weaken; [by apply capture_ends; [|apply Z.leb_le]|by intros r c [Hc _]|done].
  - apply plain_ok; [done|]. by apply mark_carries; [|apply Z.leb_le].
  - apply andb_true_iff in Hal as [Hl Hlen%Nat.leb_le]. apply plain_ok; [done|]. by apply commit_carries; [|apply nonneg_lanes|].
  - apply plain_ok; [done|]. by apply discard_carries; [|apply nonneg_lanes].
  - apply plain_ok; [done|]. by apply failed_commit_carries; [|apply nonneg_lanes].
  - apply plain_ok; [done|]. eapply ends_weaken; [by apply finish_ends; [|apply Z.leb_le]|by intros r c [Hc _]|done].
  - apply plain_ok; [done|]. by apply abort_carries; [|apply Z.leb_le].
  - pose proof (clear_ends (w_cache w) Hok) as Hp. unfold run_with, ends in *. destruct (on_manager _ _) as [c [[]|e]]; cbn in *; [by split|by destruct Hp].
Qed.

Lemma reachable_world_ok w : reachable w -> world_ok w.
Proof.
  induction 1 as [self lanes private shared enabled anchors m p Hfit Hm|call w _ IH Hal]; [|by apply cache_call_ok].
  unfold capacities_fit in Hfit. rewrite !andb_true_iff, !Z.leb_le in Hfit. split; [|done].
  apply (make_manager_ok self lanes private shared enabled anchors); tauto.
Qed.

End session.
