(* ===== verification/ContextSpec.v ===== *)
(** * Context cache: what the resource manager guarantees

    The properties of the manager in every reachable world, and a program with which they are run. *)

From S2P Require Import Prelude ContextTypes SessionIndex ContextCatalog ContextManager ContextInvariant ContextActions ContextReserve ContextAdopt ContextPublish ContextCapture ContextLanes ContextRounds ContextCalls ContextSession.
Open Scope Z_scope.

(** ** A scripted program

    The program answers [progress] from a script; [finish] leaves the continuation it was told to. *)

Record DemoProgram := mkDemo {
  dm_open : bool;
  dm_script : list ContextTransactionProgress;
  dm_refuse : bool;
  dm_finish : FinishResult;
}.
Definition demo_open (b : bool) (p : DemoProgram) : DemoProgram := mkDemo b (dm_script p) (dm_refuse p) (dm_finish p).

Definition demo_start : M DemoProgram ContextTransactionReserveStatus := fun p =>
  if dm_refuse p then (p, Ok ReserveAborted) else (demo_open true p, Ok ReserveReserved).
Definition demo_progress : M DemoProgram ContextTransactionProgress := fun p =>
  match dm_script p with
  | [] => (p, Ok ProgressInProgress)
  | r :: script => (mkDemo (dm_open p) script (dm_refuse p) (dm_finish p), Ok r)
  end.
Definition demo_assessment : CaptureAssessment := mkAssessment (mkShortlist 1 1 8 0) ExplicitBoundary [] true true true.

#[local] Instance demo_contract : ModelContract := {
  Program := DemoProgram;
  PreparedPrompt := unit;
  ResourcePlan := Z;
  CaptureOffer := unit;
  CapturePressurePlan := unit;
  plan_resource_revision := fun plan => plan;
  resource_revision := fun _ => 1;
  has_context_transaction := dm_open;
  start_resource_transaction := fun _ _ _ => demo_start;
  program_progress := fun _ => demo_progress;
  finalize_context_transaction := demo_open false;
  skip_capture := fun _ p => (p, Ok tt);
  inspect_capture := fun _ _ _ _ _ _ => Ok demo_assessment;
  shared_capture_matches := fun _ _ _ => Ok false;
  program_reserve_active_capture := fun _ _ _ _ _ _ => demo_start;
  program_reserve_active_capture_with_pressure := fun _ _ _ _ _ _ _ => demo_start;
  program_finish := fun _ p => (p, Ok (dm_finish p));
  program_abort := fun _ p => (p, Ok (mkAbort Consumed));
  release_continuation := fun _ p => (p, Ok tt);
}.

#[local] Instance demo_laws : ModelContractLaws.
Proof.
  split; try (intros; cbn; unfold demo_start; first [done|by destruct (dm_refuse _)]).
  - intros cancelled p p' r. cbn. unfold demo_progress. by destruct (dm_script p); intros [= <- _].
  - intros offer p p' r. cbn. by intros [= <- _].
  - intros cancelled p. cbn. unfold demo_progress. by destruct (dm_script p).
Qed.

(** A continuation with an endpoint, as the program reports it. *)
Definition demo_checkpoint (frontier : Z) : CheckpointSummary :=
  mkCheckpoint (mkCheckpointRef SessionEndpoint frontier 0) PrivateScope (mkShortlist 5 6 frontier 0) DeviceOnly
    (mkKVRequirement frontier frontier 1 1) (mkPrefillWork 1 frontier 1 0 0).
Definition demo_summary (frontier : Z) : ContinuationSummary := mkContinuation (Some (demo_checkpoint frontier)) None [] 0.
Definition demo_finish (frontier : Z) : FinishResult := mkFinish Consumed FinishCatalogued (demo_summary frontier) (Some 70).

Definition demo_published (source : option MaterializationSourceResult) : ContextTransactionProgress :=
  ProgressMaterialization (mkMaterializationResult TxPublished (Some 30) source None [] [] [] (mkOperationCounts 0 0 0 0 0 0)).

Definition demo_key : PreparedSessionKey := mkSessionKey 1 [97].

(** A request on an empty lane, in an empty cell, under the session's name. *)
Definition demo_choice (lane slot : Z) (source : option CatalogCapability) (order : Z) : Choice :=
  mkChoice (Some 1)
    (mkMaterialization lane source Retain None slot [] [] None (Some demo_key) LiveSession true order
       (mkDiagnostics NoPressure false false) (mkDemand (mkDomain 1 2) [] [] None)).

Definition demo_calls (choice : Choice) : list CacheCall :=
  [CallReserve choice tt false; CallProgress false; CallAdopt; CallMarkTerminal (mt_destination (cho_record choice))].

Definition run_calls (calls : list CacheCall) (w : World) : World := foldl (fun w call => (run_call call w).1) w calls.
Fixpoint calls_allowed (calls : list CacheCall) (w : World) : bool :=
  match calls with [] => true | call :: calls => call_allowed call w && calls_allowed calls (run_call call w).1 end.

Lemma reachable_calls calls : forall w, reachable w -> calls_allowed calls w = true -> reachable (run_calls calls w).
Proof.
  induction calls as [|call calls IH]; intros w Hw; cbn [calls_allowed run_calls foldl]; [done|].
  intros [H1 H2]%andb_true_iff. apply IH; [by apply reachable_call|done].
Qed.

Definition demo_manager : Manager :=
  match make_manager 9 2 2 1 true 1 with Ok m => m | Throw _ => mkManager (mkConfig 0 0 0 0 false 0) [] [] [] [] [] [] [] NoTransaction zero_stats 0 0 0 0 end.
Definition demo_program (refuse : bool) : DemoProgram := mkDemo false [demo_published None; demo_published (Some (mkSourceResult Retain None))] refuse (demo_finish 4).
Definition demo_world (refuse : bool) : World := mkWorld (mkCache demo_manager (demo_program refuse)) None.

Lemma demo_world_reachable refuse : reachable (demo_world refuse).
Proof. by apply (reachable_new 9 2 2 1 true 1). Qed.

(** Two sequences of one session in turn: the second continues a copy of the first's continuation,
    which stays in the catalog. *)
Definition demo_first : World := run_calls (demo_calls (demo_choice 0 0 None 11)) (demo_world false).
Definition demo_source : CatalogCapability := mkCapability (mkOwner PrivateContinuation 1) 0 3.
Definition demo_second : World := run_calls (CallFinish 0 30 :: demo_calls (demo_choice 1 1 (Some demo_source) 12)) demo_first.

Lemma demo_first_reachable : reachable demo_first.
Proof. apply reachable_calls; [apply demo_world_reachable|vm_compute; reflexivity]. Qed.
Lemma demo_second_reachable : reachable demo_second.
Proof. apply reachable_calls; [apply demo_first_reachable|vm_compute; reflexivity]. Qed.

(** ** Lanes *)

(** What holds of the lanes, the publication slots and the edges. *)
Record lanes_sound (m : Manager) : Prop := {
  ls_materializing : forall l, at_index (lanes_ m) l = Some LaneMaterializing <-> exists r, transaction_ m = OpenMaterialization r /\ mt_destination r = l;
  ls_in_use : forall l a x, active_ m !! l = Some a -> lanes_ m !! l = Some x -> x = LaneActive \/ x = LaneTerminalPending -> ac_occupied a = true;
  ls_free : forall l a, active_ m !! l = Some a -> lanes_ m !! l = Some LaneFree -> a = empty_active;
  ls_owns : forall l a, occupied_lane (active_ m) l a -> owns_publication (catalog_ m) a;
  ls_owned : forall s e, at_index (catalog_ m) s = Some e -> ce_state e = CatReservedForActive ->
    exists l a, occupied_lane (active_ m) l a /\ ac_publication_slot a = s;
  ls_exclusive : forall l1 a1 l2 a2, occupied_lane (active_ m) l1 a1 -> occupied_lane (active_ m) l2 a2 -> ac_publication_slot a1 = ac_publication_slot a2 -> l1 = l2;
  ls_edges : forall l a, occupied_lane (active_ m) l a -> edges_ok (catalog_ m) (shared_catalog_ m) a;
}.

Section theorems.
Context `{ML : ModelContractLaws}.

(** C12: Sessions of the resource manager are sound.  In every world that calls within the contract
    reach from a new manager, with any program and any planner: a lane is materializing exactly when
    the open transaction is a materialization into it, a lane in use has a sequence and a free one has
    none; each sequence owns one publication slot, no two the same, and no slot is reserved without a
    sequence; every edge of a sequence names a catalogued continuation or prefix, so that what a
    running sequence depends on is neither evicted nor replaced.  And no call that the contract allows
    terminates the process. *)
Theorem context_session_sound w :
  reachable w -> lanes_sound (w_manager w) /\ forall call, call_allowed call w = true -> (run_call call w).2 <> Throw Terminate.
Proof.
  intros Hw%reachable_world_ok. pose proof Hw as [[Hinv Htr Hmat] _]. split; [|intros call Hal; by apply cache_call_ok].
  pose proof (ci_lanes _ _ Hinv) as [L1 L2 L3 L4]. destruct Hinv. by split.
Qed.

(** C17: Cached contexts are well formed.  In every reachable world a catalogued continuation has an
    identity and a program handle, a valid summary (an endpoint, a rewrite point or long anchors of
    the right kinds with distinct ordinals within the configured number, each with its frontier, pages
    and work) and exactly one observation for each of its checkpoints, in order; a catalogued prefix
    has an identity, a handle and a valid shared checkpoint; a vacant cell has neither an identity nor
    a handle. *)
Theorem catalog_well_formed w :
  reachable w -> let m := w_manager w in
  (forall s e, at_index (catalog_ m) s = Some e ->
     (ce_state e = CatCatalogued -> resident (max_long_anchors_ m) e) /\ (ce_state e = CatVacant -> hollow e)) /\
  (forall s e, at_index (shared_catalog_ m) s = Some e ->
     (se_state e = ShCatalogued -> shared_resident e) /\ (se_state e = ShVacant -> shared_hollow e)).
Proof.
  intros Hw%reachable_world_ok m. destruct Hw as [[Hinv _ _] _]. fold m in Hinv. split; intros s e He.
  - split; intros Hst; [by eapply catalogued_resident|]. pose proof (ci_private _ _ Hinv _ _ He) as Hok. unfold entry_ok in Hok. rewrite Hst in Hok.
    by destruct (g_role _ s).
  - split; intros Hst; [by eapply catalogued_shared_resident|]. destruct (ci_shared _ _ Hinv _ _ He) as [_ Hok]. rewrite Hst in Hok.
    by destruct (g_shared_role _ s); [destruct Hok| | |].
Qed.

(** C13: A session's name finds its continuation.  In every reachable world the cell that the session
    index finds for a name holds the slot, identity and revision of a continuation that is resident
    under that name, with a handle and a valid summary, even while a transaction has claimed it; two
    names never find the same continuation. *)
Theorem session_name_finds_resident w key c :
  reachable w -> find_session_cell (session_index_ (w_manager w)) key = Some c ->
  exists x e, session_index_ (w_manager w) !! c = Some x /\ at_index (catalog_ (w_manager w)) (si_slot x) = Some e /\
    ce_id e = si_owner_id x /\ ce_revision e = si_revision x /\ ce_session e = Some key /\ resident (max_long_anchors_ (w_manager w)) e /\
    forall key' c' x', find_session_cell (session_index_ (w_manager w)) key' = Some c' -> session_index_ (w_manager w) !! c' = Some x' ->
      si_slot x' = si_slot x -> key' = key.
Proof.
  intros [[Hinv _ _] _]%reachable_world_ok. pose proof (ci_session_table _ _ Hinv) as Hwf. intros (x & Hx & Hs & Hk)%find_session_cell_spec; [|done].
  destruct (ci_bindings _ _ Hinv c x (conj Hx Hs)) as (e & He & Hne & Hid & Hrev & Hses). exists x, e. rewrite Hk in Hses. split_and!; try done.
  - pose proof (ci_private _ _ Hinv _ _ He) as Hok. unfold entry_ok, hollow in Hok. rewrite Hses in Hok.
    destruct (ce_state e), (g_role _ (si_slot x)); try done; by destruct Hok as (? & ? & ?) || by destruct Hok.
  - intros key' c' x' (y & Hy & Hys & Hyk)%find_session_cell_spec Hx' Hsl; [|done]. assert (y = x') as -> by congruence.
    assert (c' = c) as -> by (by apply (bound_once _ _ Hinv c' x' c x)). congruence.
Qed.

(** ** Reservations *)

(** C16: A refused reservation leaves no trace.  In every reachable world, a reservation of a
    materialization that comes back stale or aborted (a plan of another revision, or a program that
    could not start after the slots were claimed) leaves the manager exactly as it was, claims, pins,
    lane and publication cell included; and an offer that is skipped, also after the capture's slots
    were reserved, has changed nothing but the prefix index. *)
Theorem refused_reservation_restores w :
  reachable w ->
  (forall choice prompt cancelled c r,
     call_allowed (CallReserve choice prompt cancelled) w = true ->
     reserve_materialization choice prompt cancelled (w_cache w) = (c, Ok r) -> r <> MatReserved -> ch_manager c = w_manager w) /\
  (forall planner lane offer cancelled c,
     0 <= lane -> reserve_active_capture planner lane offer cancelled (w_cache w) = (c, Ok CaptureSkipped) ->
     ch_manager c = set_prefix_index (prefix_index_ (ch_manager c)) (w_manager w)).
Proof.
  intros [Hok _]%reachable_world_ok. split.
  - intros choice prompt cancelled c r Hal Hrun Hr. pose proof (reserve_ends (w_cache w) choice prompt cancelled Hok (choice_allowed_ok _ _ Hal)) as Hp.
    rewrite Hrun in Hp. by apply Hp.
  - intros planner lane offer cancelled c Hl Hrun. pose proof (capture_ends planner (w_cache w) lane offer cancelled Hok Hl) as Hp.
    rewrite Hrun in Hp. by apply Hp.
Qed.

(** ** The prefix index *)

(** C18: The prefix index is exact.  In every reachable world rebuilding the index succeeds: its fixed
    capacity holds every entry.  Its occupied entries are exactly the checkpoints of the catalogued
    continuations and prefixes, under their current slot, identity and revision, and each of them
    passes the check that a lookup makes before it is used. *)
Theorem rebuilt_index_exact w :
  reachable w -> exists m', rebuild_prefix_index (w_manager w) = (m', Ok tt) /\ length (prefix_index_ m') = length (prefix_index_ (w_manager w)) /\
    (forall i, i ∈ prefix_index_ m' /\ pi_occupied i = true <-> names_resident (w_manager w) i) /\
    (forall i, i ∈ prefix_index_ m' -> pi_occupied i = true -> valid_prefix_index_entry m' i = Ok true).
Proof.
  intros [[Hinv _ _] _]%reachable_world_ok. destruct (run_rebuild _ _ Hinv) as (n & Hrun & Hlen). eexists. split; [exact Hrun|]. cbn [prefix_index_ set_prefix_index].
  assert (forall i, i ∈ resident_entries (w_manager w) ++ replicate n empty_prefix_entry /\ pi_occupied i = true <-> names_resident (w_manager w) i) as Hex.
  { intros i. rewrite <- (resident_entries_spec _ _ _ Hinv), elem_of_app, elem_of_replicate. split.
    - by intros [[Hi|[-> _]] Ho].
    - intros Hi. split; [by left|]. by apply (resident_entries_spec _ _ _ Hinv) in Hi as [(e & c & _ & _ & _ & ->)|(e & _ & _ & ->)]. }
  split_and!; [by rewrite length_app, length_replicate|exact Hex|]. intros i Hi Ho. change (valid_prefix_index_entry (w_manager w) i = Ok true).
  eapply named_resident_valid; [exact Hinv|]. by apply Hex.
Qed.

(** ** Finishing *)

(** The binding that the index finds for a name. *)
Definition session_binding (m : Manager) (key : PreparedSessionKey) : option SessionIndexEntry :=
  c ← find_session_cell (session_index_ m) key; session_index_ m !! c.

Lemma session_binding_spec m key x :
  session_wf (session_index_ m) -> session_binding m key = Some x <-> exists c, bound_cell (session_index_ m) c x /\ si_key x = key.
Proof.
  intros Hwf. unfold session_binding. split.
  - intros (c & (y & Hy & Hs & Hk)%find_session_cell_spec & Hx)%bind_Some; [|done]. assert (y = x) as -> by congruence. by exists c.
  - intros (c & [Hx Hs] & Hk). apply bind_Some. exists c. split; [|done]. apply find_session_cell_spec; [done|]. by exists x.
Qed.

(** The name is given to the newest of its sequences: [a] asks for a name that a newer one has. *)
Definition publishes (a : ActiveEntry) (key : PreparedSessionKey) : bool := bool_decide (ac_session a = Some key) && ac_update_session_index a.
Definition superseded (m : Manager) (a : ActiveEntry) : bool :=
  match ac_session a with
  | Some key => ac_update_session_index a &&
      match session_binding m key with Some y => ac_publication_order a <? si_publication_order y | None => false end
  | None => false
  end.

Lemma published_binding m m' key slot e order key' :
  session_wf (session_index_ m) -> session_wf (session_index_ m') -> published_index m m' key slot e order true ->
  session_binding m' key' =
    if decide (key' = key) then Some (mkSession SessionOccupied key slot (ce_id e) (ce_revision e) order) else session_binding m key'.
Proof.
  intros Hwf Hwf' (c & wr & Hidx & Hplace & Hw & _). pose proof (insert_place_lt _ _ _ Hplace) as Hlt. case_decide as Hk.
  - subst key'. apply session_binding_spec; [done|]. exists c. subst wr. split; [|done]. split; [|done]. rewrite Hidx. by apply list_lookup_insert_eq.
  - apply option_eq. intros x. rewrite !session_binding_spec, Hidx by done. split; intros (c' & [Hx Hs] & Hkx).
    + apply list_lookup_insert_Some in Hx as [(_ & <- & _)|[_ Hx]]; [by subst wr|]. by exists c'.
    + exists c'. split; [split; [|done]|done]. rewrite list_lookup_insert_ne; [done|]. intros <-.
      destruct Hplace as [_ [(z & Hz & _ & Hzk)|(_ & z & Hz & Hns)]]; congruence.
Qed.

Lemma published_newest m m' key slot e order :
  session_wf (session_index_ m) -> published_index m m' key slot e order true ->
  match session_binding m key with Some y => order <? si_publication_order y | None => false end = false.
Proof.
  intros Hwf (c & wr & _ & Hplace & _ & Hnew). destruct (session_binding m key) as [y|] eqn:Hb; [|done].
  apply session_binding_spec in Hb as (c2 & Hy & Hyk); [|done]. apply Z.ltb_ge.
  destruct Hplace as [_ [(z & Hz & Hzs & Hzk)|[Hab _]]]; [|by destruct (Hab c2); exists y; destruct Hy].
  destruct (Hnew z (conj Hz Hzs)) as [_ Hzo].
  assert (c = c2) as -> by (apply (sw_distinct _ Hwf key); [by exists z|destruct Hy; by exists y]).
  destruct Hy as [Hy _]. assert (z = y) as -> by congruence. lia.
Qed.

(** What [named] says of the entry and of every name. *)
Lemma named_exact m m' a e0 :
  session_wf (session_index_ m) -> session_wf (session_index_ m') -> named m m' a e0 ->
  at_index (catalog_ m') (ac_publication_slot a) = Some (if superseded m a then unnamed e0 else e0) /\
  forall key, session_binding m' key =
    if publishes a key && negb (superseded m a)
    then Some (mkSession SessionOccupied key (ac_publication_slot a) (ce_id e0) (ce_revision e0) (ac_publication_order a))
    else session_binding m key.
Proof.
  intros Hwf Hwf' Hnm. unfold named in Hnm. unfold superseded, publishes. destruct (ac_session a) as [k|]; [|destruct Hnm as [He Hi]].
  2: { split; [done|]. intros key. by unfold session_binding; rewrite Hi. }
  destruct (ac_update_session_index a); cbn [andb]; [|destruct Hnm as [He Hi]].
  2: { split; [done|]. intros key. rewrite andb_false_r. by unfold session_binding; rewrite Hi. }
  destruct Hnm as [[He Hpub]|(He & Hi & (c1 & y & Hy & Hyk & Hlt))].
  - rewrite (published_newest _ _ _ _ _ _ Hwf Hpub). split; [done|]. intros key. rewrite (published_binding _ _ _ _ _ _ key Hwf Hwf' Hpub).
    cbn [negb]. rewrite !andb_true_r. case_decide as Hk; [subst key; by rewrite bool_decide_eq_true_2|].
    rewrite bool_decide_eq_false_2 by congruence. done.
  - assert (session_binding m k = Some y) as -> by (apply session_binding_spec; [done|]; by exists c1). rewrite (proj2 (Z.ltb_lt _ _) Hlt).
    split; [done|]. intros key. cbn [negb]. rewrite andb_false_r. by unfold session_binding; rewrite Hi.
Qed.

(** C14: A finished sequence is catalogued, and named exactly when it should be.  When [finish] returns
    a catalogued result, for any request, the lane is free and empty, and the sequence's slot holds its
    continuation with its identity, its handle and the reported checkpoints.  The index afterwards is
    given for every name: if the request names a session and asks for the index to be updated (a
    request that is not stored names its session without asking), and no sequence with a newer
    publication order has the name, then this name finds the continuation's slot, identity, revision
    and order; every other name, and every name in the other cases, finds what it found before.  The
    continuation keeps the request's session and retention, except that one superseded by a newer
    sequence forgets its session and becomes an unnamed recent one. *)
Theorem finished_sequence_named w lane sequence c r a :
  reachable w -> 0 <= lane -> finish lane sequence (w_cache w) = (c, Ok r) -> fr_disposition r = FinishCatalogued ->
  at_index (active_ (w_manager w)) lane = Some a ->
  let m := w_manager w in let m' := ch_manager c in
  at_index (lanes_ m') lane = Some LaneFree /\ at_index (active_ m') lane = Some empty_active /\
  exists e, at_index (catalog_ m') (ac_publication_slot a) = Some e /\ ce_state e = CatCatalogued /\ ce_id e = ac_continuation_id a /\
    has (ce_handle e) = true /\ continuation_checkpoints (ce_summary e) = continuation_checkpoints (fr_summary r) /\
    (if superseded m a then ce_session e = None /\ ce_retention e = RecentPrivate
     else ce_session e = ac_session a /\ ce_retention e = ac_retention a) /\
    forall key, session_binding m' key =
      if publishes a key && negb (superseded m a)
      then Some (mkSession SessionOccupied key (ac_publication_slot a) (ce_id e) (ce_revision e) (ac_publication_order a))
      else session_binding m key.
Proof.
  intros [Hok _]%reachable_world_ok Hl Hrun Hd Ha m m'. pose proof (finish_ends (w_cache w) lane sequence Hok Hl) as Hp. rewrite Hrun in Hp.
  change (w_manager w) with m in Ha, Hok. destruct Hp as [[Hok' _] Hcat]. destruct (Hcat Hd) as (a' & rep & Ha' & Hocc & Hsum & (e & He & [Fc Fl Fa Ft] & Hnm)). cbn [fst] in *.
  change (ch_manager (w_cache w)) with m in *. change (ch_manager c) with m' in Hok', Fc, Fl, Fa, Ft, Hnm.
  assert (a' = a) as -> by congruence. pose proof (mo_cache _ Hok) as Hinv. pose proof (mo_cache _ Hok') as Hinv'.
  destruct (lane_publication _ m lane a Hinv Ha Hocc) as (e0 & He0 & _ & Hid & _). assert (e0 = e) as -> by congruence.
  pose proof (at_index_lt _ _ _ Ha) as Hla.
  assert (exists x, at_index (lanes_ m) lane = Some x) as [x Hx].
  { apply at_index_is_Some. by rewrite (so_lane_states _ (ci_sizes _ _ Hinv)), <- (so_active _ (ci_sizes _ _ Hinv)). }
  destruct (named_exact _ _ _ _ (ci_session_table _ _ Hinv : session_wf (session_index_ (retired m lane a _))) (ci_session_table _ _ Hinv') Hnm)
    as [He' Hbind].
  change (superseded (retired m lane a (catalogued_entry a rep e)) a) with (superseded m a) in *.
  set (e' := if superseded m a then _ else _) in He'.
  split_and!; [rewrite Fl; cbn; by apply at_set_index_eq, at_index_lt with x|rewrite Fa; cbn; by apply at_set_index_eq|].
  assert (ce_state e' = CatCatalogued) as Hst by (unfold e'; by destruct (superseded m a)).
  exists e'. split_and!; [done|done| |by eapply re_handle, catalogued_resident| | |]; subst e'.
  - rewrite <- Hid. by destruct (superseded m a).
  - rewrite <- Hsum. by destruct (superseded m a).
  - by destruct (superseded m a).
  - intros key. rewrite Hbind. by destruct (superseded m a).
Qed.

End theorems.

(** ** Witnesses *)

(** A running sequence retains the catalogued continuation it started from, and no call on it terminates. *)
Lemma context_session_sound_witness :
  reachable demo_second /\ transaction_ (w_manager demo_second) = NoTransaction /\ lanes_sound (w_manager demo_second) /\
  (run_call (CallFinish 1 30) demo_second).2 <> Throw Terminate.
Proof.
  destruct (context_session_sound demo_second demo_second_reachable) as [H1 H2].
  split; [apply demo_second_reachable|]. split; [vm_compute; reflexivity|]. split; [exact H1|]. apply H2. vm_compute. reflexivity.
Defined.

Lemma catalog_well_formed_witness :
  reachable demo_second /\ exists e, at_index (catalog_ (w_manager demo_second)) 0 = Some e /\ ce_state e = CatCatalogued /\
    resident (max_long_anchors_ (w_manager demo_second)) e.
Proof.
  split; [apply demo_second_reachable|]. destruct (catalog_well_formed demo_second demo_second_reachable) as [H _].
  destruct (at_index (catalog_ (w_manager demo_second)) 0) as [e|] eqn:He; [|vm_compute in He; discriminate He].
  exists e. split; [reflexivity|]. assert (ce_state e = CatCatalogued) as Hst by (vm_compute in He; injection He as <-; reflexivity).
  split; [exact Hst|]. apply (proj1 (H 0 e He) Hst).
Defined.

Lemma session_name_finds_resident_witness :
  reachable demo_second /\ find_session_cell (session_index_ (w_manager demo_second)) demo_key = Some 0%nat /\
  exists e, at_index (catalog_ (w_manager demo_second)) 0 = Some e /\ ce_session e = Some demo_key /\ resident 1 e.
Proof.
  split; [apply demo_second_reachable|]. assert (find_session_cell (session_index_ (w_manager demo_second)) demo_key = Some 0%nat) as Hc by (vm_compute; reflexivity).
  split; [exact Hc|]. destruct (session_name_finds_resident demo_second demo_key 0 demo_second_reachable Hc) as (x & e & Hx & He & _ & _ & Hs & Hr & _).
  vm_compute in Hx. injection Hx as <-. exists e. split; [exact He|]. split; [exact Hs|exact Hr].
Defined.

(** The program refuses to start after the choice's slots were claimed. *)
Lemma refused_reservation_restores_witness :
  reachable (demo_world true) /\
  exists c, reserve_materialization (demo_choice 0 0 None 11) tt false (w_cache (demo_world true)) = (c, Ok MatStale) /\ ch_manager c = demo_manager.
Proof.
  split; [apply demo_world_reachable|]. destruct (refused_reservation_restores (demo_world true) (demo_world_reachable true)) as [H _].
  destruct (reserve_materialization (demo_choice 0 0 None 11) tt false (w_cache (demo_world true))) as [c r] eqn:Hrun. exists c.
  assert (r = Ok MatStale) as -> by (vm_compute in Hrun; injection Hrun as _ <-; reflexivity). split; [reflexivity|].
  apply (H (demo_choice 0 0 None 11) tt false c MatStale); [vm_compute; reflexivity|exact Hrun|discriminate].
Defined.

Lemma rebuilt_index_exact_witness :
  reachable demo_second /\ exists m', rebuild_prefix_index (w_manager demo_second) = (m', Ok tt) /\
    exists i, i ∈ prefix_index_ m' /\ pi_occupied i = true /\ pi_slot i = 0 /\ pi_checkpoint i = mkCheckpointRef SessionEndpoint 4 0.
Proof.
  split; [apply demo_second_reachable|]. destruct (rebuilt_index_exact demo_second demo_second_reachable) as (m' & Hrun & _ & Hex & _).
  exists m'. split; [exact Hrun|]. set (i := mkPrefixEntry true false (mkShortlist 5 6 4 0) 0 1 3 (mkCheckpointRef SessionEndpoint 4 0)).
  exists i. assert (names_resident (w_manager demo_second) i) as Hi.
  { left. destruct (at_index (catalog_ (w_manager demo_second)) 0) as [e|] eqn:He; [|vm_compute in He; discriminate He].
    exists e, (demo_checkpoint 4). split; [exact He|]. vm_compute in He. injection He as <-. split; [reflexivity|]. split; [left|reflexivity]. }
  apply Hex in Hi as [Hi Ho]. split; [exact Hi|]. split; [exact Ho|]. split; reflexivity.
Defined.

(** The second sequence of the session replaces the first under its name. *)
Definition demo_finished : Cache := (finish 1 30 (w_cache demo_second)).1.
Definition demo_lane : ActiveEntry := from_option id empty_active (at_index (active_ (w_manager demo_second)) 1).

Lemma finished_sequence_named_witness :
  finish 1 30 (w_cache demo_second) = (demo_finished, Ok (mkFinish Consumed FinishCatalogued (demo_summary 4) None)) /\
  (exists y, session_binding (w_manager demo_second) demo_key = Some y /\ si_slot y = 0) /\
  exists x, session_binding (ch_manager demo_finished) demo_key = Some x /\ si_slot x = 1 /\ si_publication_order x = 12.
Proof.
  assert (finish 1 30 (w_cache demo_second) = (demo_finished, Ok (mkFinish Consumed FinishCatalogued (demo_summary 4) None))) as Hrun by (vm_compute; reflexivity).
  assert (publishes demo_lane demo_key && negb (superseded (w_manager demo_second) demo_lane) = true) as Hp by (vm_compute; reflexivity).
  assert (ac_publication_slot demo_lane = 1 /\ ac_publication_order demo_lane = 12) as [Hs Ho] by (split; vm_compute; reflexivity).
  split; [exact Hrun|]. split; [eexists; split; [vm_compute; reflexivity|reflexivity]|].
  destruct (finished_sequence_named demo_second 1 30 _ _ demo_lane demo_second_reachable ltac:(lia) Hrun eq_refl)
    as (_ & _ & e & _ & _ & _ & _ & _ & _ & Hx); [vm_compute; reflexivity..|].
  specialize (Hx demo_key). rewrite Hp, Hs, Ho in Hx. eexists. split; [exact Hx|]. split; reflexivity.
Defined.
